(* ===== verification/_CoqProject ===== *)
-Q . S2P
Prelude.v
Serial.v
Ring.v
Arrays.v
Bytes.v
Scheduler.v
SchedulerSpec.v
SchedulerCalls.v
Submission.v
WorkQueue.v
EventAllocator.v
DeviceState.v
G13Codec.v
Memory.v
Uat.v
ErrorState.v
UatTable.v
UatHeap.v
UatOps.v
UatMap.v
UatSpace.v
UatPrune.v
UatUnmap.v
UatSpec.v
UatBatch.v
UatReplace.v
UatOwner.v
UatDemo.v
UatCalls.v
Rtkit.v
RtkitBoot.v
Interact.v
AscTransport.v
GfxHandoff.v
RtkitSession.v
SessionDemo.v
SessionTalk.v
SessionRun.v
SessionLife.v
QueueRuntime.v
QueueScript.v
QueueLife.v
Firmware.v
FirmwareStages.v
BackendRuntime.v
BackendWatch.v
BackendTie.v
BackendLife.v
BackendProof.v
Crc16.v
SpiHid.v
SpiTransport.v
InterruptHost.v
Discovery.v
Trackpad.v
HidContract.v
PrecisionTouchpad.v
Assignment.v
TrackpadFrame.v
TrackpadTracker.v
