(* ===== verification/Prelude.v ===== *)
(** * Windows on the M1: the portable driver cores

    This library verifies the part of the repository that decides what the two
    drivers do and that has no operating system in it: the C of
    [drivers/apple-agx/shared/src] (the GPU driver) and of
    [drivers/apple-input/protocol/src] (the keyboard and trackpad driver).  The
    Windows glue calls these functions under its own locks, so every one of them is
    a function from a state to a state, and that is how it is written here.  One piece
    of the glue, the interrupt path of [drivers/apple-input/windows/src/transport.c],
    is here too, as interleaved steps.

    ** The parts and how they meet

    GPU driver.  The Windows scheduler hands packets to the submission queue
    (Submission.v) and their fences to the fence scheduler (Scheduler.v), which
    allows one at a time to run and carries out preemptions.  A running packet
    becomes a work command in the firmware ring (WorkQueue.v) with three completion
    events (EventAllocator.v); it is announced by a message and acknowledged by an
    event (G13Codec.v).  The queue runtime (QueueRuntime.v) does that for the vertex,
    fragment and compute queues of a job at once.  The backend runtime (BackendRuntime.v) is
    above it: it brings the GPU up, with the stages of the firmware (Firmware.v), hands one
    submission after the other to the queues, judges from what is observed when it is done
    and reports it, and takes everything down again.  The buffers are memory objects (Memory.v), which the driver
    maps into the address spaces of the GPU: page-table words (Uat.v) kept in tables
    that are allocated, linked, pruned and freed one page at a time (the files
    UatTable.v to UatCalls.v), by calls that leave behind what they did before they
    fail (ErrorState.v).  DeviceState.v is the life cycle around it; before any of it the
    coprocessor is brought up: the session (RtkitSession.v) starts its processor,
    takes the shared lock (GfxHandoff.v), talks to it through a mailbox of registers
    (AscTransport.v) in management words (Rtkit.v) by the boot handshake (RtkitBoot.v),
    serves its messages and stops it again.

    Input driver.  Interrupts are handed to a worker (SpiTransport.v, InterruptHost.v), which
    transfers checksummed packets (Crc16.v, SpiHid.v) and reassembles messages.
    Discovery.v fetches the two HID descriptors, HidContract.v computes the report
    lengths from them, Trackpad.v reads the dimensions and starts multitouch.  A
    report is decoded to contacts and followed from frame to frame (TrackpadFrame.v
    with the assignment algorithm of Assignment.v, TrackpadTracker.v), and sent to
    Windows as a precision-touchpad report (PrecisionTouchpad.v).

    ** How the code is modelled

    A C unsigned integer of [w] bits is a [Z] and wraps where it is written [wrap w]
    ([u8] ... [u64]); a struct is a record and [s->F = v] is [s <| F := v |>]; a
    pointer compared with NULL is an [option] read by [deref]; a function that
    writes through pointers returns the new contents next to its result; an array is
    a list with [a .[ i ]] and [a .[ i <- x ]], outside of which C is undefined and
    the invariants say the code does not go; [for] loops are [for_range],
    [find_range] and [for_while].  Definitions have the names of the C functions,
    parameters and fields; a field name that two structs share gets a prefix
    ([pv_], [mv_], [ra_], [out_], ...), and a parameter named like a field a trailing
    underscore.  All of this is in Prelude.v, with the class [Component]: initial
    states, a step relation and an invariant, from which [reachable_inv] follows
    once for every component.

    ** Files

    - Serial.v, Ring.v, Arrays.v, Bytes.v: wrapped serial numbers, rings as lists,
      in-place array loops, little-endian loads and stores.
    - Scheduler.v ([Sched], apple_agx_scheduler.c) and SchedulerSpec.v ([SchedSpec]): an
      abstract scheduler of two lists, the running fence and a phase.  On it: the
      invariant, FIFO activation, progress, a whole preemption, and that the fences of
      the latest preemption, and those alone, can be resubmitted.  SchedulerCalls.v
      ([SchedCalls]): every entry point, the contexts and the queries included, refines
      that scheduler with its cutoff, contexts and answers.
    - Submission.v ([Subm], apple_agx_submission.c): acceptance, discard and replay as
      list equations, how long a replay stays possible, the head-of-queue discipline of
      completions, the order of a completion transaction.
    - WorkQueue.v ([WorkQ]), EventAllocator.v ([Events]), DeviceState.v ([Device]),
      Memory.v ([Memory], the platform's allocator a parameter): invariants, the
      function of every operation and round trips through whole cycles.
    - G13Codec.v ([G13]), Uat.v ([Uat]), Rtkit.v ([Rtkit]): what the other side reads
      from the words the driver writes, and the reverse.
    - ErrorState.v: computations with a state that may fail.  UatTable.v ([Table],
      apple_agx_uat_table.c): the state, the validation rules and every entry point of
      the page tables, in terms of the words in memory and an allocator of table pages.
      UatHeap.v is the theory of a heap of tables (views, ownership, what a write
      keeps), UatOps.v the walk, UatMap.v and UatSpace.v mapping with its rollback,
      UatPrune.v the collection of empty tables and UatUnmap.v unmapping.
    - UatSpec.v ([Spec]): the contract, an address space as a partial map from pages to
      descriptors with the tables it has room for.  UatBatch.v, UatReplace.v and
      UatOwner.v show that batches, replacement, creation, destruction and resolution
      keep it, UatDemo.v is a concrete allocator and world for the witnesses, and
      UatCalls.v ([Calls]) has the theorems over all entry points: each refines the
      specification, where the one failure that leaves something done is a batch to unmap
      that names a range twice; table pages are owned by exactly one place, mapping and unmapping
      cancel, a mapped page resolves, and destruction returns every page.
    - RtkitBoot.v ([Boot]): the handshake refines a conversation: what is learned from each
      word, in which order, the endpoint map that is put together, and every answer.
    - Interact.v ([Interact]): commands that talk to an environment, their loops and the
      rules of total correctness.  AscTransport.v ([Asc], apple_agx_asc_transport.c): the
      mailbox, with an observer of the signals that pass and of the mailbox's rules.
    - GfxHandoff.v ([Handoff], apple_agx_gfx_handoff.c): mutual exclusion with any firmware
      that keeps the protocol, and every attempt to take the lock ends.
    - RtkitSession.v ([Session], apple_agx_rtkit_session.c): every entry point.
      SessionTalk.v ([Talk]): the bootstrap over polled registers refines a conversation, a
      function of the messages; the buffer granted is the one provisioned.  SessionRun.v
      ([Life]): what every call keeps and what passes in it.  SessionLife.v ([Whole]): the
      session as a component; its idea of the power is what was last written, boots settle
      it, stops resume, servicing is bounded.  SessionDemo.v is a scripted coprocessor.
    - QueueRuntime.v ([Queue], apple_agx_g13_queue_runtime.c): every entry point, over a
      memory of bytes and the platform's callbacks.  QueueScript.v ([Script]): a submission
      is refused or follows its script, the bytes of its work items included, and is undone
      as far as it was visible and the firmware could be quiesced.
      QueueLife.v ([Life]): the state machine that the calls make, that success is never
      reported unseen, that jobs are accounted for, and that finished work is noticed.
    - Firmware.v ([Fw], apple_agx_firmware.c) and FirmwareStages.v ([Stages]): a start climbs
      nine stages in order, or undoes what is held in the opposite order; a rollback undoes
      each part or keeps it noted.
    - BackendRuntime.v ([Backend], apple_agx_backend_runtime.c): every entry point, over the
      platform's callbacks and on top of Firmware.v.  BackendWatch.v ([Watch]): an observer of
      the calls and the contract they keep, an abstract owner of the GPU; what that contract
      says of fences and of successes.  BackendTie.v ([Tie]) and BackendLife.v
      ([BackendLife]): every operation keeps the tie between the runtime's flags and that
      owner.  BackendProof.v ([BackendProof]): in every history the calls are within the
      contract, fences are accounted for, successes are proved by observations, starts and
      stops are exact, jobs are completed, and three things the code does not do.
    - Crc16.v ([Crc]): the checksum is a shift register whose linear algebra bounds the
      errors it misses.  SpiHid.v ([Hid]): codec round trips, no burst of up to 16 bits
      is accepted, and the reassembler refines an abstract one and undoes every way of
      cutting a message.
    - SpiTransport.v ([Link], [Store], [Plan]), Discovery.v ([Disc]), Trackpad.v
      ([Axis], [Init]): bounded discovery and initialisation, exact timing and unit
      conversion.
    - InterruptHost.v ([Host], transport.c of the Windows glue): the service routine, the
      worker callbacks and the start and stop of the device in any interleaving that the two
      locks allow.  There is always a callback queued, a worker that will drain or the
      interrupt enabled; a callback alone ends in at most 139 steps.
    - HidContract.v ([Contract]): the descriptor parser equals a declarative reading.
    - Assignment.v ([Assign]), TrackpadFrame.v ([Frame]), TrackpadTracker.v ([Tracker]):
      the decoder is exact, the Hungarian method ends and is optimal, and the tracker
      keeps identities, slots and ids consistent over any sequence of reports.
    - PrecisionTouchpad.v ([Ptp]): scaling, report layout and deferred mode changes.

    ** Loops and fuel

    Counted loops need none.  The others take fuel and the theorems state that it is
    enough: the HID parser's loop consumes a byte a round, so the descriptor's length
    is enough ([hid_parse_agrees]); a round of the Hungarian method's first loop puts a
    new column in the tree and its second loop walks a path of that tree, so 13 rounds
    are enough for the 12 columns ([hungarian_optimal]); a pass of the pruning loop that
    goes on frees a table, so one round more than the number of tables is enough
    ([prune_leaves_no_empty_table]); the discard loop of the submission queue removes a packet a
    round, so its count is enough ([discard_functional]).  A poll of a register ends when
    the clock passes the deadline: the fuel is the number of times the clock may say that
    there is time left ([Clock]), for the lock also the number of handovers the firmware
    makes ([Shared]).

    ** What is assumed

    Nothing in the proofs.  An enumeration has the values that the C declares: a branch of the
    code for a value outside of them is not modelled.  The steps of InterruptHost.v are atomic
    and the framework runs one power callback at a time.  The platform's memory functions in Memory.v are
    parameters with their documented contract as hypotheses, and a concrete platform
    satisfies them.  So are the functions the page tables call for table memory, with
    the laws of an allocator ([AllocatorLaws]); the allocator of UatDemo.v satisfies
    them.  The register and clock callbacks of the session may answer anything, but the
    clock must not say for ever that there is time ([Clock]), and the firmware must keep
    its side of the lock's protocol ([Shared], for exclusion only; [Lockable] is what the
    session needs of the lock); SessionDemo.v and GfxHandoff.v have instances.  The
    callbacks of the queue runtime may answer anything; only that finished work is noticed
    needs reads that give what is in memory ([reads_give]).  So may those of the firmware and
    of the backend runtime; only that a job is completed needs a platform that flushes and
    accepts ([willing]).  Callbacks change the world and do not call the driver again; Complete may
    look at the phase of the runtime, which its status determines.  Coordinates of 16 bits keep
    the Hungarian costs far from the saturation bound; that is what the decoder produces.

    ** Not modelled

    - Residency, DMA shadow and scanout of the GPU driver: lists and copies beside the parts
      above.  The submission coordinator: it fills a job description from generated templates
      and the command builders.
    - The table memory behind the page tables (apple_agx_uat_memory.c): it is the
      allocator that those files take as a parameter.
    - The firmware's shared-memory layouts and the command builders: long sequences of
      constant stores without state of their own.
    - Platform providers, the rest of the Windows drivers, the Mesa port, D3D12 and the ICD: calls
      into the operating system, C++ or third-party code.
    - Generated tables, tools, tests. *)

From Stdlib Require Export ZArith Lia.
From stdpp Require Export base tactics decidable numbers option list relations.

#[export] Set Default Goal Selector "!".
Global Open Scope Z_scope.

Declare Scope agx_scope.
Delimit Scope agx_scope with agx.
Global Open Scope agx_scope.

(** ** Machine integers

    A C unsigned integer of [w] bits is a [Z] in [0, 2^w); arithmetic that may
    wrap is written out with [wrap w]. *)

Definition wrap (w x : Z) : Z := x mod 2 ^ w.
Abbreviation u8 := (wrap 8).
Abbreviation u16 := (wrap 16).
Abbreviation u32 := (wrap 32).
Abbreviation u64 := (wrap 64).

Definition fits (w x : Z) : Prop := 0 <= x < 2 ^ w.
Abbreviation is_u8 := (fits 8).
Abbreviation is_u16 := (fits 16).
Abbreviation is_u32 := (fits 32).
Abbreviation is_u64 := (fits 64).

#[export] Instance fits_dec w x : Decision (fits w x).
Proof. unfold fits. apply _. Defined.

(** Constants the solver should see as literals. *)
Lemma pow2_8 : 2 ^ 8 = 256. Proof. reflexivity. Qed.
Lemma pow2_16 : 2 ^ 16 = 65536. Proof. reflexivity. Qed.
Lemma pow2_31 : 2 ^ 31 = 2147483648. Proof. reflexivity. Qed.
Lemma pow2_32 : 2 ^ 32 = 4294967296. Proof. reflexivity. Qed.
Lemma pow2_63 : 2 ^ 63 = 9223372036854775808. Proof. reflexivity. Qed.
Lemma pow2_64 : 2 ^ 64 = 18446744073709551616. Proof. reflexivity. Qed.

Create HintDb word.
Create Rewrite HintDb word.
#[export] Hint Rewrite pow2_8 pow2_16 pow2_31 pow2_32 pow2_63 pow2_64 : word.

(** [word_lia] is [lia] on goals that mention [wrap], [fits], [/] and [mod]. *)
Ltac word_unfold := unfold wrap, fits in *; autorewrite with word in *.
Ltac word_lia := word_unfold; Z.to_euclidean_division_equations; lia.

Lemma wrap_fits w x : 0 <= w -> fits w (wrap w x).
Proof. intros ?. apply Z.mod_pos_bound, Z.pow_pos_nonneg; lia. Qed.

Lemma wrap_id w x : fits w x -> wrap w x = x.
Proof. apply Z.mod_small. Qed.

Lemma wrap_wrap w x : wrap w (wrap w x) = wrap w x.
Proof. unfold wrap. apply Zmod_mod. Qed.

#[export] Hint Resolve wrap_fits : word.

(** ** C structs

    [s <| Field := v |>] is the assignment [s->Field = v].  Each record declares
    its eta expansion once ([Eta]); the setter of a field is derived from it. *)

Class Eta (R : Type) := eta_expand : R -> R.
Class Setter {R E : Type} (field : R -> E) := set_field : E -> R -> R.
Arguments set_field {R E} field {_} v r /.

Ltac derive_setter R field :=
  let body :=
    constr:(fun r : R =>
      ltac:(let e := constr:(eta_expand r) in
            let e := eval hnf in e in
            let e := eval pattern (field r) in e in
            match e with ?F _ => exact F end)) in
  exact (fun v (r : R) => body r v).

#[export] Hint Extern 1 (@Setter ?R _ ?field) =>
  derive_setter R field : typeclass_instances.

Notation "r <| field := v |>" := (set_field field v r)
  (at level 1, left associativity,
   format "r  <| field  :=  v |>") : agx_scope.

(** ** Pointers

    A pointer the code compares with NULL is an [option]: [None] is NULL.  A
    function that writes through a pointer returns the new contents. *)

Abbreviation ptr := option.
Abbreviation NULL := None.

(** [deref x := p else r in k] is [if (p == NULL) return r; ... *p ...]. *)
Notation "'deref' x ':=' p 'else' r 'in' k" :=
  (match p with None => r | Some x => k end)
  (at level 10, x name, p at level 100, r at level 100, k at level 200,
   format "'[v' 'deref'  x  ':='  p  'else'  r  'in' '/' k ']'") : agx_scope.

Definition is_null {A} (p : ptr A) : bool :=
  match p with None => true | Some _ => false end.

(** ** C arrays

    An array is a list; an index is a [Z].  [a .[ i ]] reads (the element type's
    default outside the array, which C leaves undefined: the theorems that bound
    the indices are what makes that value irrelevant) and [a .[ i <- x ]]
    writes (nothing outside the array). *)

#[export] Instance Z_inhabited : Inhabited Z := populate 0.

Definition arr_get `{Inhabited A} (a : list A) (i : Z) : A := a !!! Z.to_nat i.
Definition arr_set {A} (a : list A) (i : Z) (x : A) : list A :=
  <[Z.to_nat i := x]> a.

Notation "a .[ i ]" := (arr_get a i)
  (at level 1, i at level 200, left associativity, format "a .[ i ]") : agx_scope.
Notation "a .[ i <- x ]" := (arr_set a i x)
  (at level 1, i at level 200, x at level 200, left associativity,
   format "a .[ i  <-  x ]") : agx_scope.

Definition zlen {A} (a : list A) : Z := Z.of_nat (length a).

Section arrays.
Context {A : Type} `{!Inhabited A}.
Implicit Types (a : list A) (x : A) (i j : Z).

Lemma zlen_set a i x : zlen (a .[ i <- x ]) = zlen a.
Proof. unfold zlen, arr_set. by rewrite length_insert. Qed.

Lemma length_arr_set a i x : length (a .[ i <- x ]) = length a.
Proof. apply length_insert. Qed.

Lemma get_set_eq a i x : 0 <= i < zlen a -> (a .[ i <- x ]) .[ i ] = x.
Proof.
  unfold zlen, arr_get, arr_set. intros ?.
  apply list_lookup_total_insert_eq. lia.
Qed.

Lemma get_set_ne a i j x :
  0 <= i -> 0 <= j -> i <> j -> (a .[ i <- x ]) .[ j ] = a .[ j ].
Proof.
  unfold arr_get, arr_set. intros.
  apply list_lookup_total_insert_ne. lia.
Qed.

Lemma get_set a i j x :
  0 <= i < zlen a -> 0 <= j ->
  (a .[ i <- x ]) .[ j ] = if decide (i = j) then x else a .[ j ].
Proof.
  intros. case_decide.
  - subst. by apply get_set_eq.
  - apply get_set_ne; lia.
Qed.

Lemma set_set_eq a i x y : (a .[ i <- x ]) .[ i <- y ] = a .[ i <- y ].
Proof. apply list_insert_insert_eq. Qed.

Lemma arr_ext a b :
  zlen a = zlen b -> (forall i, 0 <= i < zlen a -> a .[ i ] = b .[ i ]) -> a = b.
Proof.
  unfold zlen, arr_get. intros Hl Hi.
  apply list_eq_same_length with (length b); [done|lia|].
  intros i x y Hlt Hx Hy. specialize (Hi (Z.of_nat i)).
  rewrite Nat2Z.id in Hi.
  rewrite !list_lookup_total_alt, Hx, Hy in Hi. apply Hi. lia.
Qed.

Lemma get_replicate n x i : 0 <= i < Z.of_nat n -> (replicate n x) .[ i ] = x.
Proof. unfold arr_get. intros. apply lookup_total_replicate_2. lia. Qed.

Lemma arr_get_Forall (P : A -> Prop) a i :
  Forall P a -> 0 <= i < zlen a -> P (a .[ i ]).
Proof.
  unfold arr_get, zlen. intros Ha ?. eapply Forall_lookup_1; [done|].
  apply list_lookup_lookup_total_lt. lia.
Qed.

Lemma arr_set_Forall (P : A -> Prop) a i x :
  Forall P a -> P x -> Forall P (a .[ i <- x ]).
Proof. intros. by apply Forall_insert. Qed.
End arrays.

#[export] Hint Rewrite @zlen_set @length_arr_set : word.
#[export] Hint Resolve arr_set_Forall : word.

(** ** Counted loops

    [for_range lo n f s] runs [f i s] for [i = lo], ..., [lo + n - 1];
    [find_range lo n p] is the first such [i] with [p i], the shape of a search
    loop that leaves by [break] or [return]. *)

Definition for_range {S} (lo n : Z) (f : Z -> S -> S) (s : S) : S :=
  foldl (fun s i => f i s) s (seqZ lo n).

Fixpoint find_from (p : Z -> bool) (i : Z) (fuel : nat) : option Z :=
  match fuel with
  | O => None
  | S fuel => if p i then Some i else find_from p (i + 1) fuel
  end.

Definition find_range (lo n : Z) (p : Z -> bool) : option Z :=
  find_from p lo (Z.to_nat n).

(** [for_while lo n cond f s] is [for (i = lo; i < lo + n && cond; ++i)]. *)
Fixpoint while_from {S} (cond : S -> bool) (f : Z -> S -> S) (i : Z) (fuel : nat)
    (s : S) : S :=
  match fuel with
  | O => s
  | Datatypes.S fuel =>
      if cond s then while_from cond f (i + 1) fuel (f i s) else s
  end.

Definition for_while {S} (lo n : Z) (cond : S -> bool) (f : Z -> S -> S) (s : S) : S :=
  while_from cond f lo (Z.to_nat n) s.

Section loops.
Context {S : Type}.

Lemma for_range_0 lo n (f : Z -> S -> S) s : n <= 0 -> for_range lo n f s = s.
Proof. intros. unfold for_range. by rewrite seqZ_nil. Qed.

Lemma for_range_snoc lo n (f : Z -> S -> S) s :
  0 <= n -> for_range lo (n + 1) f s = f (lo + n) (for_range lo n f s).
Proof.
  intros. unfold for_range. rewrite seqZ_app by lia.
  rewrite foldl_app, (seqZ_cons (lo + n)) by lia.
  by rewrite (seqZ_nil (Z.succ (lo + n))) by lia.
Qed.

Lemma for_range_cons lo n (f : Z -> S -> S) s :
  0 <= n -> for_range lo (n + 1) f s = for_range (lo + 1) n f (f lo s).
Proof.
  intros. unfold for_range. rewrite seqZ_cons by lia. simpl.
  by replace (Z.succ lo) with (lo + 1) by lia; replace (Z.pred (n + 1)) with n by lia.
Qed.

Lemma for_range_shift lo n (f : Z -> S -> S) s :
  for_range (lo + 1) n f s = for_range lo n (fun i => f (i + 1)) s.
Proof.
  unfold for_range, seqZ. revert s. generalize (seq 0 (Z.to_nat n)). intros l.
  induction l as [|k l IH]; intros s; [done|]. simpl. rewrite IH.
  do 2 f_equal. lia.
Qed.

Lemma for_range_ext lo n (f g : Z -> S -> S) s :
  (forall i s, lo <= i < lo + n -> f i s = g i s) -> for_range lo n f s = for_range lo n g s.
Proof.
  intros Hfg. unfold for_range.
  assert (Hin : forall i s, i ∈ seqZ lo n -> f i s = g i s).
  { intros i s' Hi. apply elem_of_seqZ in Hi. by apply Hfg. }
  revert s Hin. induction (seqZ lo n) as [|i l IH]; intros s Hin; [done|]. simpl.
  rewrite Hin by by constructor. apply IH. intros; apply Hin. by constructor.
Qed.

(** The invariant rule. *)
Lemma for_range_inv (P : Z -> S -> Prop) lo n f s :
  0 <= n -> P 0 s ->
  (forall i s, 0 <= i < n -> P i s -> P (i + 1) (f (lo + i) s)) ->
  P n (for_range lo n f s).
Proof.
  intros Hn H0 Hstep. revert Hstep. pattern n. apply natlike_ind; [..|exact Hn].
  - intros _. by rewrite for_range_0.
  - intros m Hm IH Hstep. rewrite <- Z.add_1_r, for_range_snoc by lia.

    apply Hstep; [lia|]. apply IH. intros; apply Hstep; [lia|done].
Qed.
End loops.

Lemma find_from_None p lo fuel :
  find_from p lo fuel = None <-> forall i, lo <= i < lo + Z.of_nat fuel -> p i = false.
Proof.
  revert lo. induction fuel as [|fuel IH]; intros lo; simpl; [split; [lia|done]|].
  destruct (p lo) eqn:Hp; [|rewrite IH]; split; intros H.
  - done.
  - rewrite H in Hp; [done|lia].
  - intros i ?. destruct (decide (i = lo)) as [->|]; [done|]. apply H; lia.
  - intros i ?. apply H; lia.
Qed.

Lemma find_from_Some p lo fuel i :
  find_from p lo fuel = Some i <->
  lo <= i < lo + Z.of_nat fuel /\ p i = true /\ forall j, lo <= j < i -> p j = false.
Proof.
  revert lo. induction fuel as [|fuel IH]; intros lo; simpl.
  { split; [done|lia]. }
  destruct (p lo) eqn:Hp; [|rewrite IH]; split.
  - intros [= <-]. split_and!; [lia|lia|done|lia].
  - intros (? & Hi & Hj). destruct (decide (i = lo)) as [->|]; [done|].
    specialize (Hj lo ltac:(lia)). congruence.
  - intros (? & ? & Hj). split_and!; [lia|lia|done|].
    intros j ?. destruct (decide (j = lo)) as [->|]; [done|]. apply Hj; lia.
  - intros (? & Hi & Hj). destruct (decide (i = lo)) as [->|]; [congruence|].
    split_and!; [lia|lia|done|]. intros; apply Hj; lia.
Qed.

Lemma find_range_Some lo n p i :
  find_range lo n p = Some i <->
  lo <= i < lo + n /\ p i = true /\ forall j, lo <= j < i -> p j = false.
Proof.
  unfold find_range. rewrite find_from_Some.
  split; intros (? & ? & ?); (split_and!; [lia|lia|done|done]).
Qed.

Lemma find_range_None lo n p :
  find_range lo n p = None <-> forall i, lo <= i < lo + n -> p i = false.
Proof.
  unfold find_range. rewrite find_from_None.
  split; intros H i ?; apply H; lia.
Qed.

(** ** Components as transition systems

    What every stateful component of the driver promises: initial states, a step
    relation with one rule per entry point, and an invariant that holds first and
    is kept by every step.  [reachable_inv] is proved once, against the class. *)

Class Component (St : Type) := {
  comp_init : St -> Prop;
  comp_step : St -> St -> Prop;
  comp_inv : St -> Prop;
  comp_init_inv : forall s, comp_init s -> comp_inv s;
  comp_step_inv : forall s s', comp_inv s -> comp_step s s' -> comp_inv s';
}.

Definition reachable `{Component St} (s : St) : Prop :=
  exists s0, comp_init s0 /\ rtc comp_step s0 s.

Lemma reachable_inv `{Component St} (s : St) : reachable s -> comp_inv s.
Proof.
  intros (s0 & Hinit & Hsteps). apply comp_init_inv in Hinit.
  induction Hsteps; eauto using comp_step_inv.
Qed.

Lemma reachable_step `{Component St} (s s' : St) :
  reachable s -> comp_step s s' -> reachable s'.
Proof. intros (s0 & ? & ?) ?. exists s0. eauto using rtc_r. Qed.

(** ** Tactics *)

(** [c_cases] splits on every branch of the code in the goal and hypotheses;
    [c_simpl] reduces struct updates. *)
Ltac c_simpl := cbn [set_field fst snd] in *.
Ltac c_cases := repeat (case_match; simplify_eq/=; try done).

(** Turns the boolean guards of the code into propositions. *)
Create Rewrite HintDb guards.
#[export] Hint Rewrite orb_true_iff orb_false_iff andb_true_iff andb_false_iff
  negb_true_iff negb_false_iff Z.eqb_eq Z.eqb_neq Z.ltb_lt Z.ltb_ge Z.leb_le
  Z.leb_gt bool_decide_eq_true bool_decide_eq_false : guards.
Ltac guards := autorewrite with guards in *; destruct_and?.
