(* ===== verification/Serial.v ===== *)
(** * Serial numbers

    Fence identifiers and completion stamps are free-running unsigned counters.
    The driver orders them by wrapped distance: [a] is after [b] when
    [0 < (a - b) mod 2^w < 2^(w-1)].  The relation is not transitive on the
    whole circle; it is a strict linear order on every half-circle window, which
    is what the queues of Scheduler.v and Submission.v rely on. *)

From stdpp Require Import sorting.
From S2P Require Import Prelude.

(** [serial_dist w base x] is the wrapped distance from [base] to [x]. *)
Definition serial_dist (w base x : Z) : Z := wrap w (x - base).

(** [Candidate - Reference != 0 && Candidate - Reference < 2^(w-1)]. *)
Definition serial_after (w candidate reference : Z) : bool :=
  negb (serial_dist w reference candidate =? 0) &&
  (serial_dist w reference candidate <? 2 ^ (w - 1)).

(** All of [xs] lie in the half circle that starts at [base]. *)
Definition in_window (w base x : Z) : Prop :=
  fits w x /\ serial_dist w base x < 2 ^ (w - 1).

#[export] Instance in_window_dec w base x : Decision (in_window w base x).
Proof. unfold in_window. apply _. Defined.

Lemma mod_small_signed x m :
  - m < x < m -> x mod m = if decide (x < 0) then x + m else x.
Proof.
  intros. case_decide.
  - rewrite <- (Z.mod_add x 1 m) by lia. rewrite Z.mul_1_l. apply Z.mod_small; lia.
  - apply Z.mod_small; lia.
Qed.

Section serial.
Context (w : Z) (Hw : 0 < w).
Implicit Types a b c base : Z.

Lemma serial_half : 2 ^ w = 2 * 2 ^ (w - 1).
Proof. rewrite <- Z.pow_succ_r by lia. f_equal. lia. Qed.

Lemma serial_half_pos : 0 < 2 ^ (w - 1).
Proof. apply Z.pow_pos_nonneg; lia. Qed.

Lemma serial_dist_bound base a : 0 <= serial_dist w base a < 2 ^ w.
Proof. apply Z.mod_pos_bound, Z.pow_pos_nonneg; lia. Qed.

Lemma serial_dist_self a : serial_dist w a a = 0.
Proof. unfold serial_dist, wrap. rewrite Z.sub_diag. apply Zmod_0_l. Qed.

Lemma serial_dist_via base a b :
  serial_dist w b a = (serial_dist w base a - serial_dist w base b) mod 2 ^ w.
Proof.
  unfold serial_dist, wrap. rewrite <- Zminus_mod. f_equal. lia.
Qed.

(** Distances from one base identify machine words. *)
Lemma serial_dist_inj base a b :
  fits w a -> fits w b -> serial_dist w base a = serial_dist w base b -> a = b.
Proof.
  intros Ha Hb Heq.
  assert (serial_dist w b a = 0) as H0.
  { rewrite (serial_dist_via base), Heq, Z.sub_diag. apply Zmod_0_l. }
  unfold serial_dist, wrap in H0. unfold fits in *.
  rewrite mod_small_signed in H0 by lia. case_decide; lia.
Qed.

Lemma serial_after_spec a b :
  serial_after w a b = true <-> 0 < serial_dist w b a < 2 ^ (w - 1).
Proof.
  unfold serial_after. pose proof (serial_dist_bound b a). guards. lia.
Qed.

Lemma serial_after_irrefl a : serial_after w a a = false.
Proof. unfold serial_after. by rewrite serial_dist_self. Qed.

Lemma serial_after_asym a b :
  serial_after w a b = true -> serial_after w b a = false.
Proof.
  pose proof serial_half. rewrite serial_after_spec. intros Hab.
  apply not_true_iff_false. rewrite serial_after_spec.
  rewrite (serial_dist_via b), serial_dist_self.
  rewrite mod_small_signed by lia. case_decide; lia.
Qed.

(** Inside a window the order is the order of the distances. *)
Lemma serial_after_window base a b :
  in_window w base a -> in_window w base b ->
  serial_after w a b = true <-> serial_dist w base b < serial_dist w base a.
Proof.
  intros [_ Ha] [_ Hb]. rewrite serial_after_spec, (serial_dist_via base).
  pose proof serial_half.
  pose proof (serial_dist_bound base a). pose proof (serial_dist_bound base b).
  rewrite mod_small_signed by lia. case_decide; lia.
Qed.

Lemma serial_after_trans base a b c :
  in_window w base a -> in_window w base b -> in_window w base c ->
  serial_after w a b = true -> serial_after w b c = true ->
  serial_after w a c = true.
Proof.
  intros Ha Hb Hc. rewrite !(serial_after_window base) by done. lia.
Qed.

Lemma serial_after_total base a b :
  in_window w base a -> in_window w base b -> a <> b ->
  serial_after w a b = true \/ serial_after w b a = true.
Proof.
  intros Ha Hb Hne. rewrite !(serial_after_window base) by done.
  destruct Ha as [Ha _], Hb as [Hb _].
  assert (serial_dist w base a <> serial_dist w base b)
    by eauto using serial_dist_inj.
  lia.
Qed.

(** A serial number after the base is in the base's window. *)
Lemma serial_after_in_window base a :
  fits w a -> serial_after w a base = true -> in_window w base a.
Proof. rewrite serial_after_spec. unfold in_window. tauto. Qed.

Lemma in_window_base base : fits w base -> in_window w base base.
Proof.
  intros. split; [done|]. rewrite serial_dist_self. apply serial_half_pos.
Qed.

(** Moving the base forward, to a member of the window, keeps what is at or
    after it. *)
Lemma in_window_advance base base' a :
  in_window w base base' -> in_window w base a ->
  a = base' \/ serial_after w a base' = true -> in_window w base' a.
Proof.
  intros Hb [Ha ?] [->|?]; [by apply in_window_base|].
  by apply serial_after_in_window.
Qed.
End serial.

(** ** Sorted lines of serial numbers *)

Section sorted.
Context {A B : Type} (R : relation A).

Lemma sorted_sublist l l' :
  l' `sublist_of` l -> StronglySorted R l -> StronglySorted R l'.
Proof.
  induction 1 as [|x l1 l2 Hl IH|x l1 l2 Hl IH]; intros H; [done|..];
    apply StronglySorted_cons in H as [Hx H]; [|by apply IH].
  apply StronglySorted_cons. split; [|by apply IH].
  apply Forall_forall. intros f Hf. rewrite Forall_forall in Hx.
  apply Hx. exact (elem_of_sublist _ _ _ Hf Hl).
Qed.

Lemma Forall_sublist_of (P : A -> Prop) l l' :
  l' `sublist_of` l -> Forall P l -> Forall P l'.
Proof.
  intros Hl H. apply Forall_forall. intros x Hx. rewrite Forall_forall in H.
  apply H. exact (elem_of_sublist _ _ _ Hx Hl).
Qed.

Lemma sorted_fmap (f : B -> A) l :
  StronglySorted R (f <$> l) <-> StronglySorted (fun x y => R (f x) (f y)) l.
Proof.
  induction l as [|x l IH]; [split; constructor|].
  rewrite fmap_cons, !StronglySorted_cons, IH. by rewrite Forall_fmap.
Qed.
End sorted.
