(* ===== verification/Ring.v ===== *)
(** * Ring buffers

    The fence queues of the driver are arrays used as rings: entry [i] of the
    queue is slot [(head + i) % capacity].  [ring_list] is the queue a ring
    stands for; the lemmas say that the code's index arithmetic is append at the
    tail, removal at the head and insertion in the middle of that list. *)

From S2P Require Import Prelude.

Definition ring_slot (cap head i : Z) : Z := (head + i) mod cap.

Definition ring_list `{Inhabited A} (cap : Z) (a : list A) (head count : Z) : list A :=
  (fun i => a .[ ring_slot cap head i ]) <$> seqZ 0 count.

Section ring.
Context {A : Type} `{!Inhabited A}.
Implicit Types (a : list A) (x : A).
Context (cap : Z) (Hcap : 0 < cap).

Lemma ring_slot_bound head i : 0 <= ring_slot cap head i < cap.
Proof. apply Z.mod_pos_bound. lia. Qed.

Lemma ring_slot_0 head : 0 <= head < cap -> ring_slot cap head 0 = head.
Proof. intros. unfold ring_slot. rewrite Z.add_0_r. by apply Z.mod_small. Qed.

Lemma ring_slot_succ head i :
  ring_slot cap (ring_slot cap head 1) i = ring_slot cap head (1 + i).
Proof.
  unfold ring_slot. rewrite Zplus_mod_idemp_l. f_equal. lia.
Qed.

Lemma ring_slot_inj head i j :
  0 <= i < cap -> 0 <= j < cap -> ring_slot cap head i = ring_slot cap head j ->
  i = j.
Proof.
  unfold ring_slot. intros Hi Hj Heq.
  assert (((head + i) - (head + j)) mod cap = 0) as H0.
  { rewrite Zminus_mod, Heq, Z.sub_diag. apply Zmod_0_l. }
  replace (head + i - (head + j)) with (i - j) in H0 by lia.
  apply Z.mod_divide in H0; [|lia]. destruct H0 as [k Hk].
  assert (k = 0) as -> by nia. lia.
Qed.

Lemma length_ring_list a head count :
  length (ring_list cap a head count) = Z.to_nat count.
Proof. unfold ring_list. by rewrite length_fmap, length_seqZ. Qed.

Lemma zlen_ring_list a head count :
  0 <= count -> zlen (ring_list cap a head count) = count.
Proof. intros. unfold zlen. rewrite length_ring_list. lia. Qed.

Lemma ring_list_nil a head : ring_list cap a head 0 = [].
Proof. done. Qed.

Lemma get_ring_list a head count i :
  0 <= i < count -> (ring_list cap a head count) .[ i ] = a .[ ring_slot cap head i ].
Proof.
  intros. unfold arr_get at 1, ring_list.
  rewrite list_lookup_total_alt, list_lookup_fmap, lookup_seqZ_lt by lia.
  simpl. do 2 f_equal. lia.
Qed.

Lemma ring_list_snoc a head count :
  0 <= count ->
  ring_list cap a head (count + 1) =
  ring_list cap a head count ++ [a .[ ring_slot cap head count ]].
Proof.
  intros. unfold ring_list. rewrite seqZ_app, fmap_app by lia.
  rewrite (seqZ_cons (0 + count)), (seqZ_nil (Z.succ _)) by lia. done.
Qed.

Lemma ring_list_cons a head count :
  0 < count ->
  ring_list cap a head count =
  a .[ ring_slot cap head 0 ] :: ring_list cap a (ring_slot cap head 1) (count - 1).
Proof.
  intros. unfold ring_list. rewrite seqZ_cons by lia. simpl. f_equal.
  replace (Z.succ 0) with (1 + 0) by lia.
  rewrite <- fmap_add_seqZ, <- list_fmap_compose.
  replace (Z.pred count) with (count - 1) by lia.
  apply list_fmap_ext. intros ? i _. simpl. by rewrite ring_slot_succ.
Qed.

(** Writing a slot outside the queue does not change the queue. *)
Lemma ring_list_set_out a head count i x :
  zlen a = cap -> 0 <= count <= i -> i < cap ->
  ring_list cap (a .[ ring_slot cap head i <- x ]) head count =
  ring_list cap a head count.
Proof.
  intros Ha ? ?. apply list_fmap_ext. intros k j Hj.
  apply lookup_seqZ in Hj as [-> ?].
  rewrite get_set_ne; [done|apply ring_slot_bound|apply ring_slot_bound|].
  intros Heq. apply ring_slot_inj in Heq; lia.
Qed.

(** Writing slot [i] of the queue is the update of its entry [i]. *)
Lemma ring_list_set_in a head count i x :
  zlen a = cap -> 0 <= i < count -> count <= cap ->
  ring_list cap (a .[ ring_slot cap head i <- x ]) head count =
  (ring_list cap a head count) .[ i <- x ].
Proof.
  intros Ha ? ?. apply arr_ext.
  { by rewrite zlen_set, !zlen_ring_list by lia. }
  rewrite zlen_ring_list by lia. intros j ?.
  rewrite get_ring_list by lia.
  rewrite !get_set by (rewrite ?zlen_ring_list, ?Ha by lia;
                       try apply ring_slot_bound; lia).
  rewrite get_ring_list by lia.
  destruct (decide (i = j)) as [->|Hne]; [by rewrite !decide_True|].
  rewrite !decide_False; [done..|]. intros Heq. apply Hne.
  by apply ring_slot_inj in Heq; [|lia..].
Qed.

(** [a[(head + count) % cap] = x; ++count] appends. *)
Lemma ring_push a head count x :
  zlen a = cap -> 0 <= count < cap ->
  ring_list cap (a .[ ring_slot cap head count <- x ]) head (count + 1) =
  ring_list cap a head count ++ [x].
Proof.
  intros Ha ?. rewrite ring_list_snoc, ring_list_set_out by lia.
  rewrite get_set_eq; [done|]. rewrite Ha. apply ring_slot_bound.
Qed.

(** [head = (head + 1) % cap; --count] removes the head. *)
Lemma ring_pop a head count :
  0 <= head < cap -> 0 < count ->
  ring_list cap a head count =
  a .[ head ] :: ring_list cap a (ring_slot cap head 1) (count - 1).
Proof. intros. rewrite ring_list_cons by lia. by rewrite ring_slot_0. Qed.

(** Insertion in the middle: the tail moves up one slot, last entry first. *)
Definition insert_at (off : Z) (x : A) (l : list A) : list A :=
  take (Z.to_nat off) l ++ x :: drop (Z.to_nat off) l.

Definition ring_shift (head count off : Z) (a : list A) : list A :=
  for_range 0 (count - off) (fun k a =>
    a .[ ring_slot cap head (count - k) <- a .[ ring_slot cap head (count - k - 1) ] ]) a.

Lemma ring_shift_spec a head count off :
  zlen a = cap -> 0 <= off <= count -> count < cap ->
  zlen (ring_shift head count off a) = cap /\
  forall j, 0 <= j < cap ->
    (ring_shift head count off a) .[ ring_slot cap head j ] =
    if decide (off < j <= count) then a .[ ring_slot cap head (j - 1) ]
    else a .[ ring_slot cap head j ].
Proof.
  intros Ha Hoff Hc. unfold ring_shift.
  destruct (for_range_inv (fun k b => zlen b = cap /\ forall j, 0 <= j < cap ->
    b .[ ring_slot cap head j ] =
      if decide (count - k < j <= count) then a .[ ring_slot cap head (j - 1) ]
      else a .[ ring_slot cap head j ]) 0 (count - off)
    (fun k a => a .[ ring_slot cap head (count - k) <-
                       a .[ ring_slot cap head (count - k - 1) ] ]) a) as [Hl Hs].
  - lia.
  - split; [done|]. intros. by rewrite decide_False by lia.
  - intros k b Hk [Hb Hj]. split; [by rewrite zlen_set|]. intros j ?.
    rewrite Z.add_0_l, get_set by (rewrite ?Hb; apply ring_slot_bound).
    rewrite !Hj by lia.
    destruct (decide (count - k = j)) as [<-|Hne].
    + rewrite decide_True by done. rewrite decide_False by lia.
      by rewrite decide_True by lia.
    + rewrite decide_False; [repeat case_decide; done || lia|].
      intros Heq. apply ring_slot_inj in Heq; lia.
  - split; [done|]. intros j ?. rewrite Hs by done. repeat case_decide; done || lia.
Qed.

Lemma get_insert_at l off x j :
  0 <= off <= zlen l -> 0 <= j ->
  (insert_at off x l) .[ j ] =
  if decide (j < off) then l .[ j ] else if decide (j = off) then x else l .[ j - 1 ].
Proof.
  unfold insert_at, zlen, arr_get. intros ? ?. rewrite !list_lookup_total_alt.
  destruct (decide (j < off)).
  - rewrite lookup_app_l by (rewrite length_take; lia).
    rewrite lookup_take, decide_True by lia. done.
  - rewrite lookup_app_r by (rewrite length_take; lia). rewrite length_take.
    case_decide.
    + by replace (Z.to_nat j - _)%nat with 0%nat by lia.
    + replace (Z.to_nat j - _)%nat with (S (Z.to_nat j - Z.to_nat off - 1)) by lia.
      simpl. rewrite lookup_drop. do 2 f_equal. lia.
Qed.

Lemma zlen_insert_at l off x : zlen (insert_at off x l) = zlen l + 1.
Proof.
  unfold insert_at, zlen. rewrite length_app. simpl. rewrite length_take, length_drop. lia.
Qed.

Lemma insert_at_end l x : insert_at (zlen l) x l = l ++ [x].
Proof.
  unfold insert_at, zlen. rewrite Nat2Z.id. by rewrite firstn_all, drop_all.
Qed.

Lemma ring_insert a head count off x :
  zlen a = cap -> 0 <= off <= count -> count < cap ->
  ring_list cap ((ring_shift head count off a) .[ ring_slot cap head off <- x ])
    head (count + 1) = insert_at off x (ring_list cap a head count).
Proof.
  intros Ha Hoff Hc. destruct (ring_shift_spec a head count off) as [Hl Hs]; [done..|].
  apply arr_ext.
  { rewrite zlen_insert_at, !zlen_ring_list by lia. done. }
  rewrite zlen_ring_list by lia. intros j ?.
  rewrite get_ring_list, get_insert_at by (rewrite ?zlen_ring_list; lia).
  rewrite get_set by (rewrite ?Hl; apply ring_slot_bound).
  destruct (decide (off = j)) as [<-|Hne].
  - rewrite decide_True by done. rewrite decide_False, decide_True by lia. done.
  - rewrite decide_False by (intros Heq; apply ring_slot_inj in Heq; lia).
    rewrite Hs by lia. repeat case_decide; try lia; by rewrite get_ring_list by lia.
Qed.

Lemma ring_last a head count :
  0 < count ->
  last (ring_list cap a head count) = Some (a .[ ring_slot cap head (count - 1) ]).
Proof.
  intros. replace count with (count - 1 + 1) at 1 by lia.
  rewrite ring_list_snoc by lia. apply last_snoc.
Qed.
End ring.

#[export] Hint Resolve ring_slot_bound : word.
