(* ===== verification/Arrays.v ===== *)
(** * Array loops

    The in-place loops the components share, as pointwise and list equations:
    clearing, shifting down over a removed entry, copying and shifting up. *)

From S2P Require Import Prelude.

(** [for (i = lo; i < lo + n; ++i) a[i] = v(i)]. *)
Definition fill_loop {A} (lo n : Z) (v : Z -> A) (a : list A) : list A :=
  for_range lo n (fun i a => a .[ i <- v i ]) a.

(** [for (; i + 1 < lo + n + 1; ++i) a[i] = a[i + 1]]. *)
Definition shift_down_loop `{Inhabited A} (lo n : Z) (a : list A) : list A :=
  for_range lo n (fun i a => a .[ i <- a .[ i + 1 ] ]) a.

(** [for (i = n; i-- > 0;) a[i + d] = a[i]]. *)
Definition shift_up_loop `{Inhabited A} (n d : Z) (a : list A) : list A :=
  for_range 0 n (fun k a => a .[ n - 1 - k + d <- a .[ n - 1 - k ] ]) a.

Section loops.
Context {A : Type} `{!Inhabited A}.
Implicit Types (a : list A) (i j : Z).

Lemma fill_loop_spec lo n v a :
  0 <= lo -> 0 <= n -> lo + n <= zlen a ->
  zlen (fill_loop lo n v a) = zlen a /\
  forall j, 0 <= j < zlen a ->
    (fill_loop lo n v a) .[ j ] = if decide (lo <= j < lo + n) then v j else a .[ j ].
Proof.
  intros Hlo Hn Hle. unfold fill_loop.
  refine (for_range_inv (fun k b => zlen b = zlen a /\ forall j, 0 <= j < zlen a ->
    b .[ j ] = if decide (lo <= j < lo + k) then v j else a .[ j ]) lo n _ a Hn _ _).
  { split; [done|]. intros. rewrite decide_False by lia. done. }
  intros i b Hi [Hb Hj]. split; [by rewrite zlen_set|]. intros j ?.
  rewrite get_set by lia. rewrite Hj by done.
  repeat case_decide; subst; try done; lia.
Qed.

Lemma zlen_fill lo n (v : Z -> A) a : 0 <= n -> zlen (fill_loop lo n v a) = zlen a.
Proof.
  intros Hn. refine (for_range_inv (fun _ b => zlen b = zlen a) lo n _ a Hn _ _); [done|].
  intros i b _ Hb. by rewrite zlen_set.
Qed.

Lemma zlen_zero_fill lo n (x : A) a :
  0 <= n -> zlen (for_range lo n (fun i a => a .[ i <- x ]) a) = zlen a.
Proof. apply (zlen_fill lo n (fun _ => x)). Qed.

Lemma shift_down_loop_spec lo n a :
  0 <= lo -> 0 <= n -> lo + n < zlen a ->
  zlen (shift_down_loop lo n a) = zlen a /\
  forall j, 0 <= j < zlen a ->
    (shift_down_loop lo n a) .[ j ] =
    if decide (lo <= j < lo + n) then a .[ j + 1 ] else a .[ j ].
Proof.
  intros Hlo Hn Hle. unfold shift_down_loop.
  refine (for_range_inv (fun k b => zlen b = zlen a /\ forall j, 0 <= j < zlen a ->
    b .[ j ] = if decide (lo <= j < lo + k) then a .[ j + 1 ] else a .[ j ]) lo n _ a Hn _ _).
  { split; [done|]. intros. rewrite decide_False by lia. done. }
  intros i b Hi [Hb Hj]. split; [by rewrite zlen_set|]. intros j ?.
  rewrite get_set, !Hj by lia.
  repeat case_decide; subst; try done; try lia.
Qed.

Lemma shift_up_loop_spec n d a :
  0 <= n -> 0 <= d -> n + d <= zlen a ->
  zlen (shift_up_loop n d a) = zlen a /\
  forall j, 0 <= j < zlen a ->
    (shift_up_loop n d a) .[ j ] =
    if decide (d <= j < n + d) then a .[ j - d ] else a .[ j ].
Proof.
  intros Hn Hd Hle. destruct (decide (d = 0)) as [->|].
  { unfold shift_up_loop.
    refine (for_range_inv (fun k b => zlen b = zlen a /\ forall j, 0 <= j < zlen a ->
      b .[ j ] = if decide (0 <= j < n + 0) then a .[ j - 0 ] else a .[ j ]) 0 n _ a Hn _ _).
    { split; [done|]. intros. rewrite Z.sub_0_r. by case_decide. }
    intros i b Hi [Hb Hj]. split; [by rewrite zlen_set|]. intros j ?.
    rewrite get_set, !Hj by lia. rewrite !Z.sub_0_r.
    repeat case_decide; subst; try done; try lia. f_equal. lia. }
  unfold shift_up_loop.
  destruct (for_range_inv (fun k b => zlen b = zlen a /\ forall j, 0 <= j < zlen a ->
    b .[ j ] = if decide (n + d - k <= j < n + d) then a .[ j - d ] else a .[ j ]) 0 n
    (fun k a => a .[ n - 1 - k + d <- a .[ n - 1 - k ] ]) a Hn) as [Hl Hs]; [split; [done|]; intros; by rewrite decide_False by lia| |].
  2: { split; [done|]. intros j ?. rewrite Hs by done. by replace (n + d - n) with d by lia. }
  intros i b Hi [Hb Hj]. split; [by rewrite zlen_set|]. intros j ?.
  rewrite get_set, !Hj by lia.
  repeat case_decide; subst; try done; try lia. f_equal. lia.
Qed.

(** ** Prefixes: the live part of a counted array *)

Definition prefix_list (a : list A) (n : Z) : list A := take (Z.to_nat n) a.

Lemma zlen_prefix a n : 0 <= n <= zlen a -> zlen (prefix_list a n) = n.
Proof. unfold zlen, prefix_list. intros. rewrite length_take. lia. Qed.

Lemma get_prefix a n j : 0 <= j < n -> (prefix_list a n) .[ j ] = a .[ j ].
Proof.
  unfold arr_get, prefix_list. intros.
  rewrite !list_lookup_total_alt, lookup_take by lia.
  rewrite decide_True by lia. done.
Qed.

Lemma get_app a b j :
  0 <= j ->
  (a ++ b) .[ j ] = if decide (j < zlen a) then a .[ j ] else b .[ j - zlen a ].
Proof.
  unfold arr_get, zlen. intros. rewrite !list_lookup_total_alt. case_decide.
  - by rewrite lookup_app_l by lia.
  - rewrite lookup_app_r by lia. do 2 f_equal. lia.
Qed.

Lemma zlen_app a b : zlen (a ++ b) = zlen a + zlen b.
Proof. unfold zlen. rewrite length_app. lia. Qed.

Lemma zlen_nonneg a : 0 <= zlen a.
Proof. unfold zlen. lia. Qed.

Lemma zlen_delete a i : 0 <= i < zlen a -> zlen (delete (Z.to_nat i) a) = zlen a - 1.
Proof.
  unfold zlen. intros.
  rewrite length_delete by (apply lookup_lt_is_Some_2; lia). lia.
Qed.

Lemma get_delete a i j :
  0 <= i -> 0 <= j ->
  (delete (Z.to_nat i) a) .[ j ] = if decide (j < i) then a .[ j ] else a .[ j + 1 ].
Proof.
  unfold arr_get. intros. rewrite !list_lookup_total_alt. case_decide.
  - by rewrite list_lookup_delete_lt by lia.
  - rewrite list_lookup_delete_ge by lia. do 2 f_equal. lia.
Qed.

(** Shifting down over entry [i] deletes it from the live prefix. *)
Lemma shift_down_delete a i n :
  0 <= i < n -> n <= zlen a ->
  prefix_list (shift_down_loop i (n - 1 - i) a) (n - 1) =
  delete (Z.to_nat i) (prefix_list a n).
Proof.
  intros Hi Hn.
  destruct (shift_down_loop_spec i (n - 1 - i) a) as [Hl Hs]; [lia..|].
  apply arr_ext.
  { rewrite zlen_delete; rewrite !zlen_prefix; lia. }
  rewrite zlen_prefix by lia. intros j ?.
  rewrite get_prefix, Hs, get_delete by lia.
  repeat case_decide; try lia; rewrite get_prefix by lia; done.
Qed.

Lemma prefix_set_snoc a n x :
  0 <= n < zlen a -> prefix_list (a .[ n <- x ]) (n + 1) = prefix_list a n ++ [x].
Proof.
  intros. apply arr_ext.
  { rewrite zlen_app, !zlen_prefix by (rewrite ?zlen_set; lia). done. }
  rewrite zlen_prefix by (rewrite zlen_set; lia). intros j ?.
  rewrite get_prefix, get_set, get_app, zlen_prefix by lia.
  repeat case_decide; subst; try lia.
  - by rewrite Z.sub_diag.
  - by rewrite get_prefix by lia.
Qed.

Lemma prefix_set_in a n j x :
  0 <= j < n -> n <= zlen a -> prefix_list (a .[ j <- x ]) n = (prefix_list a n) .[ j <- x ].
Proof.
  intros Hj Hn. apply arr_ext.
  { rewrite zlen_set, !zlen_prefix by (rewrite ?zlen_set; lia). done. }
  rewrite zlen_prefix by (rewrite zlen_set; lia). intros k ?.
  rewrite get_prefix, !get_set, get_prefix by (rewrite ?zlen_prefix; lia). done.
Qed.

Lemma prefix_set_out a n j x : 0 <= n <= j -> prefix_list (a .[ j <- x ]) n = prefix_list a n.
Proof.
  unfold prefix_list, arr_set. intros. by rewrite take_insert_ge by lia.
Qed.

Lemma prefix_of_prefix a n m : m <= n -> prefix_list (prefix_list a n) m = prefix_list a m.
Proof. unfold prefix_list. intros. rewrite take_take. f_equal. lia. Qed.

Lemma prefix_list_0 a : prefix_list a 0 = [].
Proof. done. Qed.

Lemma prefix_list_snoc a n :
  0 <= n < zlen a -> prefix_list a (n + 1) = prefix_list a n ++ [a .[ n ]].
Proof.
  intros. rewrite <- (prefix_set_snoc a n (a .[ n ])) by done. f_equal.
  apply arr_ext; [by rewrite zlen_set|]. intros j ?. rewrite get_set by lia.
  case_decide; congruence.
Qed.
End loops.

(** ** Filters that agree on a list *)

Lemma filter_ext_in {A} (P Q : A -> Prop) `{!forall x, Decision (P x)}
    `{!forall x, Decision (Q x)} (l : list A) :
  (forall x, x ∈ l -> P x <-> Q x) -> filter P l = filter Q l.
Proof.
  induction l as [|x l IH]; intros HP; [done|].
  assert (filter P l = filter Q l) as E by (apply IH; intros; apply HP; by constructor).
  assert (P x <-> Q x) as Hx by (apply HP; by constructor).
  destruct (decide (P x)).
  - rewrite !filter_cons_True by tauto. congruence.
  - rewrite !filter_cons_False by tauto. done.
Qed.

Lemma filter_all {A} (P : A -> Prop) `{!forall x, Decision (P x)} (l : list A) :
  (forall x, x ∈ l -> P x) -> filter P l = l.
Proof.
  induction l as [|x l IH]; intros HP; [done|].
  rewrite filter_cons_True by (apply HP; by constructor). f_equal.
  apply IH. intros; apply HP. by constructor.
Qed.
