(* ===== verification/Bytes.v ===== *)
(** * Bytes in memory

    A byte buffer is a list of [Z] in [0, 256).  [put_u16]/[put_u32]/[put_u64] are
    the little-endian stores the drivers write byte by byte, [get_...] the loads
    they assemble with shifts; each load returns what the store of the same width
    put there, and a store elsewhere does not change it. *)

From S2P Require Import Prelude Arrays.

Definition is_bytes (d : list Z) : Prop := Forall is_u8 d.

Definition put_u16 (d : list Z) (off v : Z) : list Z :=
  d .[ off <- Z.land v 0xff ] .[ off + 1 <- Z.land (Z.shiftr v 8) 0xff ].

Definition put_u32 (d : list Z) (off v : Z) : list Z :=
  d .[ off <- Z.land v 0xff ] .[ off + 1 <- Z.land (Z.shiftr v 8) 0xff ]
    .[ off + 2 <- Z.land (Z.shiftr v 16) 0xff ] .[ off + 3 <- Z.land (Z.shiftr v 24) 0xff ].

Definition put_u64 (d : list Z) (off v : Z) : list Z :=
  put_u32 (put_u32 d off (u32 v)) (off + 4) (u32 (Z.shiftr v 32)).

Definition get_u16 (d : list Z) (off : Z) : Z :=
  Z.lor d .[ off ] (Z.shiftl d .[ off + 1 ] 8).

Definition get_u32 (d : list Z) (off : Z) : Z :=
  Z.lor (Z.lor (Z.lor d .[ off ] (Z.shiftl d .[ off + 1 ] 8))
           (Z.shiftl d .[ off + 2 ] 16)) (Z.shiftl d .[ off + 3 ] 24).

Definition get_u64 (d : list Z) (off : Z) : Z :=
  Z.lor (get_u32 d off) (Z.shiftl (get_u32 d (off + 4)) 32).

(** ** Bit fields as arithmetic *)

Lemma land_mask n x : 0 <= n -> Z.land x (2 ^ n - 1) = x mod 2 ^ n.
Proof. intros. rewrite Z.sub_1_r, <- Z.ones_equiv. by apply Z.land_ones. Qed.

Lemma land_ff x : Z.land x 0xff = x mod 2 ^ 8.
Proof. by apply (land_mask 8). Qed.

Lemma land_low x n m : 0 <= n -> m = 2 ^ n - 1 -> Z.land x m = x mod 2 ^ n.
Proof. intros ? ->. by apply land_mask. Qed.

Lemma shiftr_low x k n m :
  0 <= n -> 0 <= k -> m = 2 ^ n - 1 -> Z.land (Z.shiftr x k) m = x / 2 ^ k mod 2 ^ n.
Proof. intros ?? ->. by rewrite land_mask, Z.shiftr_div_pow2. Qed.

(** [(w & (1 << k)) != 0] reads bit [k]. *)
Lemma land_bit w k : 0 <= k -> negb (Z.land w (Z.shiftl 1 k) =? 0) = Z.testbit w k.
Proof.
  intros Hk. rewrite Z.shiftl_1_l. destruct (Z.testbit w k) eqn:B.
  - apply negb_true_iff, Z.eqb_neq. intros E. apply (f_equal (fun x => Z.testbit x k)) in E.
    by rewrite Z.land_spec, B, Z.pow2_bits_true, Z.bits_0 in E by done.
  - apply negb_false_iff, Z.eqb_eq, Z.bits_inj'. intros i Hi.
    rewrite Z.land_spec, Z.bits_0, Z.pow2_bits_eqb by done.
    destruct (Z.eqb_spec k i) as [<-|]; [by rewrite B|apply andb_false_r].
Qed.

(** A field of [n] bits at bit [k], in place and shifted down. *)
Lemma land_field m n k :
  0 <= n -> 0 <= k -> Z.land m (Z.shiftl (2 ^ n - 1) k) = m / 2 ^ k mod 2 ^ n * 2 ^ k.
Proof.
  intros Hn Hk. rewrite <- Z.shiftl_mul_pow2, <- Z.shiftr_div_pow2 by done.
  rewrite <- (Z.land_ones (Z.shiftr m k)), Z.sub_1_r, <- Z.ones_equiv by done.
  apply Z.bits_inj'. intros i Hi.
  rewrite Z.land_spec, !Z.shiftl_spec, Z.land_spec by done.
  destruct (decide (i < k)).
  - by rewrite (Z.testbit_neg_r (Z.ones n)), !andb_false_r by lia.
  - rewrite Z.shiftr_spec by lia. by replace (i - k + k) with i by lia.
Qed.

Lemma field_shiftr m n k mask :
  0 <= n -> 0 <= k -> mask = Z.shiftl (2 ^ n - 1) k ->
  Z.shiftr (Z.land m mask) k = m / 2 ^ k mod 2 ^ n.
Proof.
  intros Hn Hk ->. rewrite land_field, <- Z.shiftl_mul_pow2, Z.shiftr_shiftl_l by done.
  rewrite Z.sub_diag. apply Z.shiftl_0_r.
Qed.

Lemma field_zero m n k :
  0 <= n -> 0 <= k -> Z.land m (Z.shiftl (2 ^ n - 1) k) = 0 <-> m / 2 ^ k mod 2 ^ n = 0.
Proof.
  intros Hn Hk. rewrite land_field by done.
  pose proof (Z.pow_pos_nonneg 2 k ltac:(lia) Hk). nia.
Qed.

(** Fields that do not overlap: [lor] is addition. *)
Lemma lor_shiftl a b n :
  0 <= n -> 0 <= a < 2 ^ n -> Z.lor a (Z.shiftl b n) = a + b * 2 ^ n.
Proof.
  intros Hn Ha. rewrite <- Z.shiftl_mul_pow2 by done.
  assert (Z.land a (Z.shiftl b n) = 0) as Hd.
  { apply Z.bits_inj'. intros i Hi. rewrite Z.land_spec, Z.shiftl_spec, Z.bits_0 by done.
    destruct (decide (i < n)).
    - by rewrite (Z.testbit_neg_r b) by lia; rewrite andb_false_r.
    - rewrite <- (Z.mod_small a (2 ^ n)) by done.
      by rewrite Z.mod_pow2_bits_high by lia. }
  rewrite Z.add_nocarry_lxor by done. by rewrite Z.lxor_lor.
Qed.

Lemma get_u16_arith d off :
  is_u8 d .[ off ] -> get_u16 d off = d .[ off ] + d .[ off + 1 ] * 2 ^ 8.
Proof. intros H. unfold get_u16. by rewrite lor_shiftl by (done || apply H). Qed.

Lemma get_u32_arith d off :
  is_u8 d .[ off ] -> is_u8 d .[ off + 1 ] -> is_u8 d .[ off + 2 ] ->
  get_u32 d off = d .[ off ] + d .[ off + 1 ] * 2 ^ 8 + d .[ off + 2 ] * 2 ^ 16 +
                  d .[ off + 3 ] * 2 ^ 24.
Proof.
  intros H0 H1 H2. unfold get_u32. unfold fits in *.
  rewrite (lor_shiftl d .[ off ]) by lia. rewrite (lor_shiftl _ d .[ off + 2 ]) by lia.
  rewrite lor_shiftl by lia. done.
Qed.

(** [x & (x - 1)] is 0 exactly for the powers of two. *)
Lemma land_pred_pow2 x : 0 < x -> Z.land x (x - 1) = 0 <-> x = 2 ^ Z.log2 x.
Proof.
  intros Hx. pose proof (Z.log2_spec x Hx) as [Hlo Hhi]. pose proof (Z.log2_nonneg x) as Hk.
  split.
  - intros H. destruct (decide (x = 2 ^ Z.log2 x)) as [|Hne]; [done|exfalso].
    assert (Z.log2 (x - 1) = Z.log2 x) as Hl by (apply Z.log2_unique; lia).
    assert (Z.testbit (Z.land x (x - 1)) (Z.log2 x) = true) as Hb.
    { rewrite Z.land_spec, Z.bit_log2 by done. rewrite <- Hl. apply Z.bit_log2. lia. }
    rewrite H, Z.bits_0 in Hb. done.
  - intros ->. rewrite land_mask by done. apply Z_mod_same_full.
Qed.

(** ** Stores and loads *)

Lemma zlen_put_u16 d off v : zlen (put_u16 d off v) = zlen d.
Proof. unfold put_u16. by rewrite !zlen_set. Qed.
Lemma zlen_put_u32 d off v : zlen (put_u32 d off v) = zlen d.
Proof. unfold put_u32. by rewrite !zlen_set. Qed.
Lemma zlen_put_u64 d off v : zlen (put_u64 d off v) = zlen d.
Proof. unfold put_u64. by rewrite !zlen_put_u32. Qed.

#[export] Hint Rewrite zlen_put_u16 zlen_put_u32 zlen_put_u64 : word.

(** What each byte is after a store. *)
Lemma get_put_u32 d off v j :
  0 <= off -> off + 4 <= zlen d -> 0 <= j ->
  (put_u32 d off v) .[ j ] =
    if decide (off <= j < off + 4) then Z.shiftr v (8 * (j - off)) mod 2 ^ 8 else d .[ j ].
Proof.
  intros Ho Hl Hj. unfold put_u32. rewrite !get_set by (rewrite ?zlen_set; lia).
  rewrite !land_ff. destruct (decide (off <= j < off + 4)).
  - assert (j = off \/ j = off + 1 \/ j = off + 2 \/ j = off + 3) as [->|[->|[->| ->]]] by lia;
      repeat case_decide; try lia; f_equal; try (f_equal; lia).
    by rewrite Z.sub_diag, Z.mul_0_r, Z.shiftr_0_r.
  - repeat case_decide; done || lia.
Qed.

Lemma get_put_u16 d off v j :
  0 <= off -> off + 2 <= zlen d -> 0 <= j ->
  (put_u16 d off v) .[ j ] =
    if decide (off <= j < off + 2) then Z.shiftr v (8 * (j - off)) mod 2 ^ 8 else d .[ j ].
Proof.
  intros Ho Hl Hj. unfold put_u16. rewrite !get_set by (rewrite ?zlen_set; lia).
  rewrite !land_ff. destruct (decide (off <= j < off + 2)).
  - assert (j = off \/ j = off + 1) as [->| ->] by lia;
      repeat case_decide; try lia; f_equal; try (f_equal; lia).
    by rewrite Z.sub_diag, Z.mul_0_r, Z.shiftr_0_r.
  - repeat case_decide; done || lia.
Qed.

Lemma load_store_u32 d off v :
  0 <= off -> off + 4 <= zlen d -> is_u32 v -> get_u32 (put_u32 d off v) off = v.
Proof.
  intros Ho Hl Hv. assert (forall k, 0 <= k < 4 ->
    (put_u32 d off v) .[ off + k ] = v / 2 ^ (8 * k) mod 2 ^ 8) as Hb.
  { intros k ?. rewrite get_put_u32 by lia. rewrite decide_True by lia.
    rewrite Z.shiftr_div_pow2 by lia. do 3 f_equal. lia. }
  pose proof (Hb 0 ltac:(lia)) as H0. rewrite Z.add_0_r in H0.
  pose proof (Hb 1 ltac:(lia)) as H1. pose proof (Hb 2 ltac:(lia)) as H2.
  pose proof (Hb 3 ltac:(lia)) as H3. clear Hb.
  rewrite get_u32_arith; rewrite ?H0, ?H1, ?H2, ?H3;
    try (apply Z.mod_pos_bound; lia). clear H0 H1 H2 H3.
  change (2 ^ (8 * 0)) with 1. change (2 ^ (8 * 1)) with 256.
  change (2 ^ (8 * 2)) with 65536. change (2 ^ (8 * 3)) with 16777216.
  change (2 ^ 8) with 256. change (2 ^ 16) with 65536. change (2 ^ 24) with 16777216.
  unfold fits in Hv. change (2 ^ 32) with 4294967296 in Hv.
  Z.to_euclidean_division_equations. lia.
Qed.

Lemma load_store_u16 d off v :
  0 <= off -> off + 2 <= zlen d -> is_u16 v -> get_u16 (put_u16 d off v) off = v.
Proof.
  intros Ho Hl Hv. rewrite get_u16_arith; rewrite !get_put_u16, !decide_True by lia;
    [|apply Z.mod_pos_bound; lia].
  rewrite !Z.shiftr_div_pow2 by lia.
  replace (8 * (off - off)) with 0 by lia. replace (8 * (off + 1 - off)) with 8 by lia.
  word_lia.
Qed.

Lemma load_put_u32_ne d off off' v :
  0 <= off -> off + 4 <= zlen d -> 0 <= off' -> off' + 4 <= off \/ off + 4 <= off' ->
  get_u32 (put_u32 d off v) off' = get_u32 d off'.
Proof.
  intros. unfold get_u32. rewrite !get_put_u32 by lia. by rewrite !decide_False by lia.
Qed.

Lemma load_store_u64 d off v :
  0 <= off -> off + 8 <= zlen d -> is_u64 v -> get_u64 (put_u64 d off v) off = v.
Proof.
  intros Ho Hl Hv. unfold get_u64, put_u64.
  assert (is_u32 (u32 v)) as H1 by (apply wrap_fits; lia).
  assert (is_u32 (u32 (Z.shiftr v 32))) as H2 by (apply wrap_fits; lia).
  rewrite load_put_u32_ne by (rewrite ?zlen_put_u32; lia).
  rewrite !load_store_u32 by (rewrite ?zlen_put_u32; done || lia).
  rewrite lor_shiftl by (lia || apply H1). rewrite Z.shiftr_div_pow2 by lia. word_lia.
Qed.

Lemma load64_put_u32_ne d off off' v :
  0 <= off -> off + 4 <= zlen d -> 0 <= off' -> off' + 8 <= off \/ off + 4 <= off' ->
  get_u64 (put_u32 d off v) off' = get_u64 d off'.
Proof. intros. unfold get_u64. rewrite !load_put_u32_ne by lia. done. Qed.

Lemma load32_put_u64_ne d off off' v :
  0 <= off -> off + 8 <= zlen d -> 0 <= off' -> off' + 4 <= off \/ off + 8 <= off' ->
  get_u32 (put_u64 d off v) off' = get_u32 d off'.
Proof. intros. unfold put_u64. rewrite !load_put_u32_ne by (rewrite ?zlen_put_u32; lia). done. Qed.

Lemma load64_put_u64_ne d off off' v :
  0 <= off -> off + 8 <= zlen d -> 0 <= off' -> off' + 8 <= off \/ off + 8 <= off' ->
  get_u64 (put_u64 d off v) off' = get_u64 d off'.
Proof. intros. unfold put_u64. rewrite !load64_put_u32_ne by (rewrite ?zlen_put_u32; lia). done. Qed.

Lemma is_bytes_put_u32 d off v : is_bytes d -> is_bytes (put_u32 d off v).
Proof.
  intros H. unfold put_u32, is_bytes. repeat apply arr_set_Forall; try done;
    rewrite land_ff; by apply wrap_fits.
Qed.
Lemma is_bytes_put_u64 d off v : is_bytes d -> is_bytes (put_u64 d off v).
Proof. intros. by apply is_bytes_put_u32, is_bytes_put_u32. Qed.

Lemma get_u32_fits d off :
  is_bytes d -> 0 <= off -> off + 4 <= zlen d -> is_u32 (get_u32 d off).
Proof.
  intros Hd ? ?. assert (forall k, 0 <= k < 4 -> is_u8 d .[ off + k ]) as Hb.
  { intros. apply arr_get_Forall; [done|lia]. }
  pose proof (Hb 0 ltac:(lia)) as Hb0. rewrite Z.add_0_r in Hb0.
  pose proof (Hb 1 ltac:(lia)). pose proof (Hb 2 ltac:(lia)). pose proof (Hb 3 ltac:(lia)).
  rewrite get_u32_arith by done. word_lia.
Qed.

Ltac byte_side := repeat (rewrite zlen_put_u32 || rewrite zlen_put_u64); done || lia.
(** Rewrites a load over a chain of stores at literal offsets. *)
Ltac byte_load :=
  repeat first
    [ rewrite load_store_u32 by byte_side
    | rewrite load_store_u64 by byte_side
    | rewrite load_put_u32_ne by byte_side
    | rewrite load64_put_u32_ne by byte_side
    | rewrite load32_put_u64_ne by byte_side
    | rewrite load64_put_u64_ne by byte_side ].

(** ** Pointers into a buffer, [memset] to 0 and [memcpy] *)

(** [advance p n] is the pointer [p + n]. *)
Definition advance (p : list Z) (n : Z) : list Z := drop (Z.to_nat n) p.

Definition memset0 (d : list Z) (n : Z) : list Z := fill_loop 0 n (fun _ => 0) d.

(** [memcpy(dst + off, src, n)]. *)
Definition memcpy (dst : list Z) (off : Z) (src : list Z) (n : Z) : list Z :=
  fill_loop off n (fun i => src .[ i - off ]) dst.

Lemma get_advance p n i : 0 <= n -> 0 <= i -> (advance p n) .[ i ] = p .[ n + i ].
Proof.
  unfold advance, arr_get. intros. rewrite !list_lookup_total_alt, lookup_drop.
  do 2 f_equal. lia.
Qed.

Lemma zlen_advance p n : 0 <= n <= zlen p -> zlen (advance p n) = zlen p - n.
Proof. unfold zlen, advance. intros. rewrite length_drop. lia. Qed.

Lemma advance_bytes p n : is_bytes p -> is_bytes (advance p n).
Proof. apply Forall_drop. Qed.

Lemma get_u16_advance p n i : 0 <= n -> 0 <= i -> get_u16 (advance p n) i = get_u16 p (n + i).
Proof. intros. unfold get_u16. rewrite !get_advance by lia. by rewrite Z.add_assoc. Qed.

Lemma memset0_all d : memset0 d (zlen d) = replicate (length d) 0.
Proof.
  destruct (fill_loop_spec 0 (zlen d) (fun _ => 0) d) as [Hl Hs]; [unfold zlen; lia..|].
  apply arr_ext; [unfold memset0; rewrite Hl; unfold zlen; by rewrite length_replicate|].
  unfold memset0. rewrite Hl. intros i Hi. rewrite Hs, decide_True by lia.
  unfold zlen in Hi. by rewrite get_replicate by lia.
Qed.

Lemma zlen_memcpy dst off src n : 0 <= n -> zlen (memcpy dst off src n) = zlen dst.
Proof. apply zlen_fill. Qed.

Lemma memcpy_bytes dst off src n :
  is_bytes dst -> is_bytes src -> 0 <= off -> 0 <= n -> off + n <= zlen dst -> n <= zlen src ->
  is_bytes (memcpy dst off src n).
Proof.
  intros Hd Hs ????. refine (for_range_inv (fun _ d => is_bytes d) off n _ dst ltac:(lia) Hd _).
  intros i d Hi Hd'. apply arr_set_Forall; [done|]. apply arr_get_Forall; [done|lia].
Qed.

(** Appending at the end of the live prefix. *)
Lemma memcpy_prefix dst off src n :
  0 <= off -> 0 <= n -> off + n <= zlen dst -> n <= zlen src ->
  prefix_list (memcpy dst off src n) (off + n) = prefix_list dst off ++ prefix_list src n.
Proof.
  intros Ho Hn Hd Hs.
  destruct (fill_loop_spec off n (fun i => src .[ i - off ]) dst) as [Hl Hv]; [lia..|].
  fold (memcpy dst off src n) in Hl, Hv. apply arr_ext.
  { rewrite zlen_app, !zlen_prefix; lia. }
  rewrite zlen_prefix by lia. intros j Hj.
  rewrite get_prefix, Hv, get_app, zlen_prefix by lia.
  repeat case_decide; try lia; by rewrite get_prefix by lia.
Qed.

Lemma put_u16_bytes d off v : is_bytes d -> is_bytes (put_u16 d off v).
Proof.
  intros H. unfold put_u16, is_bytes. repeat apply arr_set_Forall; try done;
    rewrite land_ff; by apply wrap_fits.
Qed.

Lemma get_u16_fits d off :
  is_bytes d -> 0 <= off -> off + 2 <= zlen d -> is_u16 (get_u16 d off).
Proof.
  intros Hd ? ?. assert (is_u8 d .[ off ]) as H1 by (apply arr_get_Forall; [done|lia]).
  assert (is_u8 d .[ off + 1 ]) by (apply arr_get_Forall; [done|lia]).
  rewrite get_u16_arith by done. word_lia.
Qed.

Lemma load_put_u16_ne d off off' v :
  0 <= off -> off + 2 <= zlen d -> 0 <= off' -> off' + 2 <= off \/ off + 2 <= off' ->
  get_u16 (put_u16 d off v) off' = get_u16 d off'.
Proof. intros. unfold get_u16. rewrite !get_put_u16 by lia. by rewrite !decide_False by lia. Qed.

Lemma load16_set_ne d k off v :
  0 <= k -> 0 <= off -> k < off \/ off + 1 < k -> get_u16 (d .[ k <- v ]) off = get_u16 d off.
Proof. intros. unfold get_u16. by rewrite !get_set_ne by lia. Qed.

Lemma get_put_u16_ne d off v j :
  0 <= off -> 0 <= j -> j < off \/ off + 1 < j -> (put_u16 d off v) .[ j ] = d .[ j ].
Proof. intros. unfold put_u16. by rewrite !get_set_ne by lia. Qed.

(** Reads bytes and 16-bit words over a chain of stores at literal offsets. *)
Ltac buffer_side := rewrite ?zlen_set, ?zlen_put_u16; repeat rewrite ?zlen_set, ?zlen_put_u16; done || lia.
Ltac buffer_read :=
  repeat first
    [ rewrite get_set_eq by buffer_side
    | rewrite get_set_ne by lia
    | rewrite get_put_u16_ne by lia
    | rewrite load_store_u16 by buffer_side
    | rewrite load_put_u16_ne by buffer_side
    | rewrite load16_set_ne by lia ].
Ltac buffer_bytes := repeat first [ apply put_u16_bytes | apply arr_set_Forall ]; try done.
