(* ===== verification/Scheduler.v ===== *)
(** * The fence scheduler (shared/src/apple_agx_scheduler.c)

    One engine, one ring of at most 64 accepted fences, at most one active fence,
    and the boundary-preemption protocol
    Idle -> WaitCurrentBoundary -> ReadyToNotify -> NotificationClaimed -> Idle.

    [Sched] holds the state and one definition per entry point; a pointer that
    the code compares with NULL is an [option].  The queue is then seen as a list
    ([queue]) and every operation is related to an operation on lists; [Spec] is
    the abstract scheduler those lists make up. *)

From S2P Require Import Prelude Serial Ring Arrays.

Module Sched.

(** ** Data *)

Definition APPLE_AGX_SCHEDULER_NODE_COUNT : Z := 1.
Definition APPLE_AGX_SCHEDULER_ENGINE_COUNT : Z := 1.
Definition APPLE_AGX_SCHEDULER_ENGINE_AFFINITY : Z := 1.
Definition APPLE_AGX_SCHEDULER_QUEUE_CAPACITY : Z := 64.
Abbreviation CAP := APPLE_AGX_SCHEDULER_QUEUE_CAPACITY.

Inductive APPLE_AGX_PREEMPTION_PHASE :=
  | AppleAgxPreemptionIdle
  | AppleAgxPreemptionWaitCurrentBoundary
  | AppleAgxPreemptionReadyToNotify
  | AppleAgxPreemptionNotificationClaimed.

#[export] Instance phase_eq_dec : EqDecision APPLE_AGX_PREEMPTION_PHASE.
Proof. solve_decision. Defined.

Record APPLE_AGX_SCHEDULER_CONTEXT := {
  NodeOrdinal : Z;
  EngineAffinity : Z;
  Active : bool;
}.
#[export] Instance context_eta : Eta APPLE_AGX_SCHEDULER_CONTEXT :=
  fun c => Build_APPLE_AGX_SCHEDULER_CONTEXT (NodeOrdinal c) (EngineAffinity c) (Active c).

Record APPLE_AGX_PREEMPTION := {
  PreemptionFence : Z;
  LastCompletedFence : Z;
}.
#[export] Instance preemption_eta : Eta APPLE_AGX_PREEMPTION :=
  fun p => Build_APPLE_AGX_PREEMPTION (PreemptionFence p) (LastCompletedFence p).

Record APPLE_AGX_SCHEDULER := {
  CompletedFence : Z;
  LastSubmittedFence : Z;
  QueuedFence : Z;
  QueueHead : Z;
  QueueCount : Z;
  FenceQueue : list Z;
  PreemptedFenceQueue : list Z;
  PreemptedFenceCount : Z;
  ActiveFence : Z;
  PendingPreemptionFence : Z;
  PreemptionCutoffFence : Z;
  PreemptionActiveFence : Z;
  PreemptionLastCompletedFence : Z;
  ContextCount : Z;
  PreemptionPending : bool;
  Responsive : bool;
  PreemptionPhase : APPLE_AGX_PREEMPTION_PHASE;
}.
#[export] Instance scheduler_eta : Eta APPLE_AGX_SCHEDULER :=
  fun s => Build_APPLE_AGX_SCHEDULER (CompletedFence s) (LastSubmittedFence s)
    (QueuedFence s) (QueueHead s) (QueueCount s) (FenceQueue s)
    (PreemptedFenceQueue s) (PreemptedFenceCount s) (ActiveFence s)
    (PendingPreemptionFence s) (PreemptionCutoffFence s) (PreemptionActiveFence s)
    (PreemptionLastCompletedFence s) (ContextCount s) (PreemptionPending s)
    (Responsive s) (PreemptionPhase s).

(** ** Operations *)

Definition AppleAgxSchedulerFenceAfter (Candidate Reference : Z) : bool :=
  let distance := u32 (Candidate - Reference) in
  negb (distance =? 0) && (distance <? 0x80000000).

Definition AppleAgxSchedulerFenceAtOrAfter (Candidate Reference : Z) : bool :=
  (Candidate =? Reference) || AppleAgxSchedulerFenceAfter Candidate Reference.

(** Initialize does not write PreemptedFenceQueue: only its count is reset. *)
Definition AppleAgxSchedulerInitialize (Scheduler : ptr APPLE_AGX_SCHEDULER)
    : ptr APPLE_AGX_SCHEDULER :=
  deref s := Scheduler else NULL in
  Some (s <| CompletedFence := 0 |> <| LastSubmittedFence := 0 |>
          <| QueuedFence := 0 |> <| QueueHead := 0 |> <| QueueCount := 0 |>
          <| PreemptedFenceCount := 0 |>
          <| FenceQueue := fill_loop 0 CAP (fun _ => 0) (FenceQueue s) |>
          <| ActiveFence := 0 |> <| PendingPreemptionFence := 0 |>
          <| PreemptionCutoffFence := 0 |> <| PreemptionActiveFence := 0 |>
          <| PreemptionLastCompletedFence := 0 |> <| ContextCount := 0 |>
          <| PreemptionPending := false |> <| Responsive := true |>
          <| PreemptionPhase := AppleAgxPreemptionIdle |>).

Definition AppleAgxSchedulerContextInitialize
    (Context : ptr APPLE_AGX_SCHEDULER_CONTEXT) : ptr APPLE_AGX_SCHEDULER_CONTEXT :=
  deref c := Context else NULL in
  Some (c <| NodeOrdinal := 0 |> <| EngineAffinity := 0 |> <| Active := false |>).

Definition AppleAgxSchedulerValidateEngine (Scheduler : ptr APPLE_AGX_SCHEDULER)
    (Node Engine : Z) : bool :=
  negb (is_null Scheduler || (APPLE_AGX_SCHEDULER_NODE_COUNT <=? Node) ||
        (APPLE_AGX_SCHEDULER_ENGINE_COUNT <=? Engine)).

Definition AppleAgxSchedulerEngineResponsive (Scheduler : ptr APPLE_AGX_SCHEDULER)
    (Node Engine : Z) : bool :=
  deref s := Scheduler else false in
  if negb (AppleAgxSchedulerValidateEngine Scheduler Node Engine) then false
  else Responsive s.

Definition AppleAgxSchedulerCreateContext (Scheduler : ptr APPLE_AGX_SCHEDULER)
    (Context : ptr APPLE_AGX_SCHEDULER_CONTEXT) (Node Affinity : Z)
    : bool * ptr APPLE_AGX_SCHEDULER * ptr APPLE_AGX_SCHEDULER_CONTEXT :=
  deref s := Scheduler else (false, Scheduler, Context) in
  deref c := Context else (false, Scheduler, Context) in
  if Active c || negb (Node =? 0) ||
     negb (Affinity =? APPLE_AGX_SCHEDULER_ENGINE_AFFINITY)
  then (false, Scheduler, Context)
  else (true, Some (s <| ContextCount := u32 (ContextCount s + 1) |>),
        Some (c <| NodeOrdinal := Node |> <| EngineAffinity := Affinity |>
                <| Active := true |>)).

Definition AppleAgxSchedulerDestroyContext (Scheduler : ptr APPLE_AGX_SCHEDULER)
    (Context : ptr APPLE_AGX_SCHEDULER_CONTEXT)
    : bool * ptr APPLE_AGX_SCHEDULER * ptr APPLE_AGX_SCHEDULER_CONTEXT :=
  deref s := Scheduler else (false, Scheduler, Context) in
  deref c := Context else (false, Scheduler, Context) in
  if negb (Active c) || (ContextCount s =? 0)
  then (false, Scheduler, Context)
  else (true, Some (s <| ContextCount := u32 (ContextCount s - 1) |>),
        Some (c <| NodeOrdinal := 0 |> <| EngineAffinity := 0 |>
                <| Active := false |>)).

Definition AppleAgxSchedulerCanCompleteFence (Scheduler : ptr APPLE_AGX_SCHEDULER)
    (Node Engine Fence : Z) : bool :=
  deref s := Scheduler else false in
  if negb (AppleAgxSchedulerValidateEngine Scheduler Node Engine) || (Fence =? 0)
  then false
  else if bool_decide (PreemptionPhase s = AppleAgxPreemptionWaitCurrentBoundary) &&
          negb (Fence =? PreemptionActiveFence s)
  then false
  else
    let distance := u32 (Fence - CompletedFence s) in
    negb (distance =? 0) && (distance <? 0x80000000).

Definition AppleAgxSchedulerCompleteFence (Scheduler : ptr APPLE_AGX_SCHEDULER)
    (Node Engine Fence : Z) : bool * ptr APPLE_AGX_SCHEDULER :=
  deref s := Scheduler else (false, Scheduler) in
  if negb (AppleAgxSchedulerCanCompleteFence Scheduler Node Engine Fence)
  then (false, Scheduler)
  else (true, Some (s <| CompletedFence := Fence |>)).

Definition AppleAgxSchedulerCurrentFence (Scheduler : ptr APPLE_AGX_SCHEDULER)
    (Node Engine : Z) : Z :=
  deref s := Scheduler else 0 in
  if negb (AppleAgxSchedulerValidateEngine Scheduler Node Engine) then 0
  else CompletedFence s.

Definition AppleAgxSchedulerAdmissionBlocked (Scheduler : ptr APPLE_AGX_SCHEDULER)
    : bool :=
  deref s := Scheduler else false in
  negb (bool_decide (PreemptionPhase s = AppleAgxPreemptionIdle)) &&
  negb (bool_decide (PreemptionPhase s = AppleAgxPreemptionNotificationClaimed)).

Definition AppleAgxSchedulerDispatchBlocked (Scheduler : ptr APPLE_AGX_SCHEDULER)
    : bool :=
  deref s := Scheduler else false in
  negb (bool_decide (PreemptionPhase s = AppleAgxPreemptionIdle)).

Definition AppleAgxSchedulerQueueFence (Scheduler : ptr APPLE_AGX_SCHEDULER)
    (Node Engine Fence : Z) : bool * ptr APPLE_AGX_SCHEDULER :=
  deref s := Scheduler else (false, Scheduler) in
  if negb (AppleAgxSchedulerValidateEngine Scheduler Node Engine) ||
     (Fence =? 0) || (CAP <=? QueueCount s) ||
     AppleAgxSchedulerAdmissionBlocked Scheduler ||
     negb (AppleAgxSchedulerFenceAfter Fence (LastSubmittedFence s))
  then (false, Scheduler)
  else
    (true, Some (s
      <| FenceQueue :=
           (FenceQueue s) .[ u32 (QueueHead s + QueueCount s) mod CAP <- Fence ] |>
      <| QueuedFence := if QueueCount s =? 0 then Fence else QueuedFence s |>
      <| QueueCount := u32 (QueueCount s + 1) |>
      <| LastSubmittedFence := Fence |>)).

Definition AppleAgxSchedulerQueueResubmittedPagingFence
    (Scheduler : ptr APPLE_AGX_SCHEDULER) (Node Engine Fence : Z)
    : bool * ptr APPLE_AGX_SCHEDULER :=
  deref s := Scheduler else (false, Scheduler) in
  if negb (AppleAgxSchedulerValidateEngine Scheduler Node Engine) ||
     (Fence =? 0) || (CAP <=? QueueCount s) ||
     AppleAgxSchedulerAdmissionBlocked Scheduler ||
     negb (AppleAgxSchedulerFenceAfter Fence (CompletedFence s)) ||
     (negb (ActiveFence s =? 0) &&
      negb (AppleAgxSchedulerFenceAfter Fence (ActiveFence s)))
  then (false, Scheduler)
  else if negb (QueueCount s =? 0) &&
          (let tail := (FenceQueue s)
             .[ u32 (u32 (QueueHead s + QueueCount s) - 1) mod CAP ] in
           negb (AppleAgxSchedulerFenceAfter Fence tail))
  then (false, Scheduler)
  else
    match find_range 0 (PreemptedFenceCount s)
            (fun index => (PreemptedFenceQueue s) .[ index ] =? Fence) with
    | None => (false, Scheduler)
    | Some index =>
        (true, Some (s
          <| PreemptedFenceQueue :=
               shift_down_loop index (PreemptedFenceCount s - 1 - index)
                 (PreemptedFenceQueue s) |>
          <| PreemptedFenceCount := u32 (PreemptedFenceCount s - 1) |>
          <| FenceQueue :=
               (FenceQueue s) .[ u32 (QueueHead s + QueueCount s) mod CAP <- Fence ] |>
          <| QueuedFence := if QueueCount s =? 0 then Fence else QueuedFence s |>
          <| QueueCount := u32 (QueueCount s + 1) |>))
    end.

Definition AppleAgxSchedulerActivateFence (Scheduler : ptr APPLE_AGX_SCHEDULER)
    (Node Engine Fence : Z) : bool * ptr APPLE_AGX_SCHEDULER :=
  deref s := Scheduler else (false, Scheduler) in
  if negb (AppleAgxSchedulerValidateEngine Scheduler Node Engine) ||
     (Fence =? 0) || (QueueCount s =? 0) || negb (QueuedFence s =? Fence) ||
     negb (ActiveFence s =? 0) || AppleAgxSchedulerDispatchBlocked Scheduler
  then (false, Scheduler)
  else
    let head := u32 (QueueHead s + 1) mod CAP in
    let count := u32 (QueueCount s - 1) in
    (true, Some (s
      <| QueueHead := head |>
      <| QueueCount := count |>
      <| QueuedFence := if negb (count =? 0) then (FenceQueue s) .[ head ] else 0 |>
      <| ActiveFence := Fence |>)).

Definition AppleAgxSchedulerCompleteActiveFence (Scheduler : ptr APPLE_AGX_SCHEDULER)
    (Node Engine Fence : Z) : bool * ptr APPLE_AGX_SCHEDULER :=
  deref s := Scheduler else (false, Scheduler) in
  if negb (AppleAgxSchedulerValidateEngine Scheduler Node Engine) ||
     (Fence =? 0) || negb (ActiveFence s =? Fence)
  then (false, Scheduler)
  else
    let '(ok, Scheduler) := AppleAgxSchedulerCompleteFence Scheduler Node Engine Fence in
    if negb ok then (false, Scheduler)
    else
      deref s := Scheduler else (false, Scheduler) in
      (true, Some (s <| ActiveFence := 0 |>)).

Definition AppleAgxSchedulerLastSubmittedFence (Scheduler : ptr APPLE_AGX_SCHEDULER)
    (Node Engine : Z) : Z :=
  deref s := Scheduler else 0 in
  if negb (AppleAgxSchedulerValidateEngine Scheduler Node Engine) then 0
  else LastSubmittedFence s.

Definition AppleAgxSchedulerQueuedFence (Scheduler : ptr APPLE_AGX_SCHEDULER)
    (Node Engine : Z) : Z :=
  deref s := Scheduler else 0 in
  if negb (AppleAgxSchedulerValidateEngine Scheduler Node Engine) then 0
  else QueuedFence s.

Definition AppleAgxSchedulerActiveFence (Scheduler : ptr APPLE_AGX_SCHEDULER)
    (Node Engine : Z) : Z :=
  deref s := Scheduler else 0 in
  if negb (AppleAgxSchedulerValidateEngine Scheduler Node Engine) then 0
  else ActiveFence s.

Definition AppleAgxSchedulerHasOutstandingFence (Scheduler : ptr APPLE_AGX_SCHEDULER)
    (Node Engine : Z) : bool :=
  deref s := Scheduler else false in
  if negb (AppleAgxSchedulerValidateEngine Scheduler Node Engine) then false
  else negb (QueuedFence s =? 0) || negb (ActiveFence s =? 0).

Definition AppleAgxSchedulerBeginBoundaryPreemption
    (Scheduler : ptr APPLE_AGX_SCHEDULER)
    (Node Engine Preemption CutoffFence Active : Z)
    : bool * ptr APPLE_AGX_SCHEDULER :=
  deref s := Scheduler else (false, Scheduler) in
  if negb (AppleAgxSchedulerValidateEngine Scheduler Node Engine) ||
     (Preemption =? 0) ||
     negb (bool_decide (PreemptionPhase s = AppleAgxPreemptionIdle)) ||
     negb (CutoffFence =? LastSubmittedFence s) ||
     negb (Active =? ActiveFence s) ||
     negb (AppleAgxSchedulerFenceAtOrAfter CutoffFence (CompletedFence s)) ||
     (negb (Active =? 0) &&
      (negb (AppleAgxSchedulerFenceAfter Active (CompletedFence s)) ||
       negb (AppleAgxSchedulerFenceAtOrAfter CutoffFence Active)))
  then (false, Scheduler)
  else
    (true, Some (s
      <| PreemptedFenceCount := QueueCount s |>
      <| PreemptedFenceQueue :=
           fill_loop 0 (QueueCount s)
             (fun index => (FenceQueue s) .[ u32 (QueueHead s + index) mod CAP ])
             (PreemptedFenceQueue s) |>
      <| QueuedFence := 0 |>
      <| QueueHead := 0 |>
      <| QueueCount := 0 |>
      <| PendingPreemptionFence := Preemption |>
      <| PreemptionCutoffFence := CutoffFence |>
      <| PreemptionActiveFence := Active |>
      <| PreemptionLastCompletedFence := CompletedFence s |>
      <| PreemptionPending := true |>
      <| PreemptionPhase := if Active =? 0 then AppleAgxPreemptionReadyToNotify
                            else AppleAgxPreemptionWaitCurrentBoundary |>)).

Definition AppleAgxSchedulerPreemptionPhase (Scheduler : ptr APPLE_AGX_SCHEDULER)
    : APPLE_AGX_PREEMPTION_PHASE :=
  deref s := Scheduler else AppleAgxPreemptionIdle in PreemptionPhase s.

Definition AppleAgxSchedulerPreemptionCutoffFence
    (Scheduler : ptr APPLE_AGX_SCHEDULER) : Z :=
  deref s := Scheduler else 0 in PreemptionCutoffFence s.

Definition AppleAgxSchedulerObserveBoundaryCompletion
    (Scheduler : ptr APPLE_AGX_SCHEDULER) (Node Engine Completed : Z)
    : bool * ptr APPLE_AGX_SCHEDULER :=
  deref s := Scheduler else (false, Scheduler) in
  if negb (AppleAgxSchedulerValidateEngine Scheduler Node Engine) ||
     negb (bool_decide (PreemptionPhase s = AppleAgxPreemptionWaitCurrentBoundary)) ||
     (Completed =? 0) || negb (PreemptionActiveFence s =? Completed) ||
     negb (CompletedFence s =? Completed)
  then (false, Scheduler)
  else
    (true, Some (s
      <| PreemptionActiveFence := 0 |>
      <| PreemptionLastCompletedFence := Completed |>
      <| PreemptionPhase := AppleAgxPreemptionReadyToNotify |>)).

Definition AppleAgxSchedulerClaimBoundaryPreemption
    (Scheduler : ptr APPLE_AGX_SCHEDULER) (Preemption : ptr APPLE_AGX_PREEMPTION)
    : bool * ptr APPLE_AGX_SCHEDULER * ptr APPLE_AGX_PREEMPTION :=
  deref s := Scheduler else (false, Scheduler, Preemption) in
  deref p := Preemption else (false, Scheduler, Preemption) in
  if negb (bool_decide (PreemptionPhase s = AppleAgxPreemptionReadyToNotify))
  then (false, Scheduler, Preemption)
  else
    (true,
     Some (s <| PreemptionPhase := AppleAgxPreemptionNotificationClaimed |>),
     Some (p <| PreemptionFence := PendingPreemptionFence s |>
             <| LastCompletedFence := PreemptionLastCompletedFence s |>)).

Definition AppleAgxSchedulerCommitBoundaryPreemption
    (Scheduler : ptr APPLE_AGX_SCHEDULER) (Preemption : Z)
    : bool * ptr APPLE_AGX_SCHEDULER :=
  deref s := Scheduler else (false, Scheduler) in
  if negb (bool_decide (PreemptionPhase s = AppleAgxPreemptionNotificationClaimed)) ||
     negb (PendingPreemptionFence s =? Preemption)
  then (false, Scheduler)
  else
    (true, Some (s
      <| PendingPreemptionFence := 0 |>
      <| PreemptionCutoffFence := 0 |>
      <| PreemptionActiveFence := 0 |>
      <| PreemptionLastCompletedFence := 0 |>
      <| PreemptionPending := false |>
      <| PreemptionPhase := AppleAgxPreemptionIdle |>)).

Definition AppleAgxSchedulerBeginPreemption
    (Scheduler : ptr APPLE_AGX_SCHEDULER) (Node Engine Fence : Z)
    (Preemption : ptr APPLE_AGX_PREEMPTION)
    : bool * ptr APPLE_AGX_SCHEDULER * ptr APPLE_AGX_PREEMPTION :=
  deref p := Preemption else (false, Scheduler, Preemption) in
  let '(begun, Scheduler) :=
    AppleAgxSchedulerBeginBoundaryPreemption Scheduler Node Engine Fence
      (deref s := Scheduler else 0 in CompletedFence s) 0 in
  if negb begun then (false, Scheduler, Preemption)
  else AppleAgxSchedulerClaimBoundaryPreemption Scheduler Preemption.

Definition AppleAgxSchedulerAcknowledgePreemption
    (Scheduler : ptr APPLE_AGX_SCHEDULER) (Preemption : Z)
    : bool * ptr APPLE_AGX_SCHEDULER :=
  AppleAgxSchedulerCommitBoundaryPreemption Scheduler Preemption.

Definition AppleAgxSchedulerAbortPreemption
    (Scheduler : ptr APPLE_AGX_SCHEDULER) (Preemption : Z)
    : bool * ptr APPLE_AGX_SCHEDULER :=
  deref s := Scheduler else (false, Scheduler) in
  if negb (PreemptionPending s) ||
     negb (PendingPreemptionFence s =? Preemption) ||
     bool_decide (PreemptionPhase s = AppleAgxPreemptionNotificationClaimed)
  then (false, Scheduler)
  else
    (true, Some (s
      <| PendingPreemptionFence := 0 |>
      <| PreemptionCutoffFence := 0 |>
      <| PreemptionActiveFence := 0 |>
      <| PreemptionLastCompletedFence := 0 |>
      <| PreemptedFenceCount := 0 |>
      <| PreemptionPending := false |>
      <| PreemptionPhase := AppleAgxPreemptionIdle |>)).

(** The compaction loop of ResetEngine: (array, kept, after). *)
Definition reset_keep_loop (QueueCount PreemptedFenceCount : Z) (after : Z)
    (PreemptedFenceQueue : list Z) : list Z * Z * Z :=
  for_while 0 PreemptedFenceCount
    (fun '(_, kept, _) => kept <? u32 (CAP - QueueCount))
    (fun index '(a, kept, after) =>
       if AppleAgxSchedulerFenceAfter (a .[ index ]) after
       then (a .[ kept <- a .[ index ] ], kept + 1, a .[ index ])
       else (a, kept, after))
    (PreemptedFenceQueue, 0, after).

Definition AppleAgxSchedulerResetEngine (Scheduler : ptr APPLE_AGX_SCHEDULER)
    (Node Engine : Z) (LastAbortedFence : ptr Z)
    : bool * ptr APPLE_AGX_SCHEDULER * ptr Z :=
  deref s := Scheduler else (false, Scheduler, LastAbortedFence) in
  if negb (AppleAgxSchedulerValidateEngine Scheduler Node Engine) ||
     is_null LastAbortedFence
  then (false, Scheduler, LastAbortedFence)
  else
    let aborted := if negb (ActiveFence s =? 0) then ActiveFence s
                   else CompletedFence s in
    let after := if negb (QueueCount s =? 0)
                 then (FenceQueue s)
                        .[ u32 (u32 (QueueHead s + QueueCount s) - 1) mod CAP ]
                 else aborted in
    let '(kept_queue, kept, _) :=
      reset_keep_loop (QueueCount s) (PreemptedFenceCount s) after
        (PreemptedFenceQueue s) in
    let shifted := shift_up_loop kept (QueueCount s) kept_queue in
    let copied :=
      fill_loop 0 (QueueCount s)
        (fun index => (FenceQueue s) .[ u32 (QueueHead s + index) mod CAP ]) shifted in
    (true, Some (s
      <| PreemptedFenceQueue := copied |>
      <| PreemptedFenceCount := u32 (QueueCount s + kept) |>
      <| QueuedFence := 0 |>
      <| QueueHead := 0 |>
      <| QueueCount := 0 |>
      <| ActiveFence := 0 |>
      <| PendingPreemptionFence := 0 |>
      <| PreemptionCutoffFence := 0 |>
      <| PreemptionActiveFence := 0 |>
      <| PreemptionLastCompletedFence := 0 |>
      <| PreemptionPending := false |>
      <| PreemptionPhase := AppleAgxPreemptionIdle |>
      <| Responsive := true |>), Some aborted).

(** ** The queue as a list *)

Definition queue (s : APPLE_AGX_SCHEDULER) : list Z :=
  ring_list CAP (FenceQueue s) (QueueHead s) (QueueCount s).

Definition preempted (s : APPLE_AGX_SCHEDULER) : list Z :=
  prefix_list (PreemptedFenceQueue s) (PreemptedFenceCount s).

(** One rule per entry point that writes the state, successful or not. *)
Inductive step (s s' : APPLE_AGX_SCHEDULER) : Prop :=
  | step_create c n a r c' :
      AppleAgxSchedulerCreateContext (Some s) c n a = (r, Some s', c') -> step s s'
  | step_destroy c r c' :
      AppleAgxSchedulerDestroyContext (Some s) c = (r, Some s', c') -> step s s'
  | step_complete n e f r : is_u32 f ->
      AppleAgxSchedulerCompleteFence (Some s) n e f = (r, Some s') -> step s s'
  | step_queue n e f r : is_u32 f ->
      AppleAgxSchedulerQueueFence (Some s) n e f = (r, Some s') -> step s s'
  | step_resubmit n e f r : is_u32 f ->
      AppleAgxSchedulerQueueResubmittedPagingFence (Some s) n e f = (r, Some s') ->
      step s s'
  | step_activate n e f r : is_u32 f ->
      AppleAgxSchedulerActivateFence (Some s) n e f = (r, Some s') -> step s s'
  | step_complete_active n e f r : is_u32 f ->
      AppleAgxSchedulerCompleteActiveFence (Some s) n e f = (r, Some s') -> step s s'
  | step_begin n e p c a r : is_u32 p ->
      AppleAgxSchedulerBeginBoundaryPreemption (Some s) n e p c a = (r, Some s') ->
      step s s'
  | step_observe n e f r : is_u32 f ->
      AppleAgxSchedulerObserveBoundaryCompletion (Some s) n e f = (r, Some s') ->
      step s s'
  | step_claim p r p' :
      AppleAgxSchedulerClaimBoundaryPreemption (Some s) p = (r, Some s', p') -> step s s'
  | step_commit f r :
      AppleAgxSchedulerCommitBoundaryPreemption (Some s) f = (r, Some s') -> step s s'
  | step_begin_now n e f p r p' : is_u32 f ->
      AppleAgxSchedulerBeginPreemption (Some s) n e f p = (r, Some s', p') -> step s s'
  | step_abort f r :
      AppleAgxSchedulerAbortPreemption (Some s) f = (r, Some s') -> step s s'
  | step_reset n e o r o' :
      AppleAgxSchedulerResetEngine (Some s) n e o = (r, Some s', o') -> step s s'.

(** Storage is two 64-entry arrays with arbitrary contents, then Initialize. *)
Definition storage_ok (s : APPLE_AGX_SCHEDULER) : Prop :=
  zlen (FenceQueue s) = CAP /\ zlen (PreemptedFenceQueue s) = CAP.

Definition initial (s : APPLE_AGX_SCHEDULER) : Prop :=
  exists raw, storage_ok raw /\ AppleAgxSchedulerInitialize (Some raw) = Some s.

Definition fence_ok (f : Z) : Prop := is_u32 f /\ f <> 0.

Record wf (s : APPLE_AGX_SCHEDULER) : Prop := {
  wf_queue_storage : zlen (FenceQueue s) = CAP;
  wf_preempted_storage : zlen (PreemptedFenceQueue s) = CAP;
  wf_head : 0 <= QueueHead s < CAP;
  wf_count : 0 <= QueueCount s <= CAP;
  wf_preempted_count : 0 <= PreemptedFenceCount s <= CAP;
  wf_completed : is_u32 (CompletedFence s);
  wf_last : is_u32 (LastSubmittedFence s);
  wf_active : is_u32 (ActiveFence s);
  wf_queued : QueuedFence s = default 0 (head (queue s));
  wf_queue : Forall fence_ok (queue s);
  wf_preempted : Forall fence_ok (preempted s);
  wf_pending : PreemptionPending s = negb (bool_decide (PreemptionPhase s = AppleAgxPreemptionIdle));
  wf_frozen : PreemptionPhase s = AppleAgxPreemptionWaitCurrentBoundary \/
              PreemptionPhase s = AppleAgxPreemptionReadyToNotify -> QueueCount s = 0;
  wf_wait : PreemptionPhase s = AppleAgxPreemptionWaitCurrentBoundary ->
            PreemptionActiveFence s <> 0 /\
            (ActiveFence s = PreemptionActiveFence s \/
             ActiveFence s = 0 /\ CompletedFence s = PreemptionActiveFence s);
}.

(** ** Lemmas *)

Ltac consts := unfold APPLE_AGX_SCHEDULER_QUEUE_CAPACITY,
  APPLE_AGX_SCHEDULER_NODE_COUNT, APPLE_AGX_SCHEDULER_ENGINE_COUNT in *.
Ltac clia := consts; word_lia.

Lemma fence_after_serial c r :
  AppleAgxSchedulerFenceAfter c r = serial_after 32 c r.
Proof. reflexivity. Qed.

Lemma slot_u32 h i :
  0 <= h < CAP -> 0 <= i <= CAP -> u32 (h + i) mod CAP = ring_slot CAP h i.
Proof. intros. unfold ring_slot. rewrite wrap_id; [done|clia]. Qed.

Lemma tail_slot_u32 h i :
  0 <= h < CAP -> 0 < i <= CAP -> u32 (u32 (h + i) - 1) mod CAP = ring_slot CAP h (i - 1).
Proof.
  intros. unfold ring_slot. rewrite (wrap_id _ (h + i)) by clia.
  rewrite wrap_id by clia. f_equal. lia.
Qed.

Lemma cap_pos : 0 < CAP.
Proof. done. Qed.

Lemma zlen_queue s : 0 <= QueueCount s -> zlen (queue s) = QueueCount s.
Proof. intros. by apply zlen_ring_list. Qed.

Lemma queue_empty s : QueueCount s = 0 -> queue s = [].
Proof. intros H. unfold queue. by rewrite H. Qed.

(** The abstract effect of storing a fence at the tail of the ring. *)
Definition push (s : APPLE_AGX_SCHEDULER) (f : Z) : APPLE_AGX_SCHEDULER :=
  s <| FenceQueue := (FenceQueue s) .[ ring_slot CAP (QueueHead s) (QueueCount s) <- f ] |>
    <| QueuedFence := if QueueCount s =? 0 then f else QueuedFence s |>
    <| QueueCount := QueueCount s + 1 |>.

Lemma queue_push s f :
  wf s -> QueueCount s < CAP -> queue (push s f) = queue s ++ [f].
Proof.
  intros W ?. unfold queue, push. simpl.
  apply ring_push; [done|apply W|]. pose proof (wf_count s W). lia.
Qed.

Lemma queued_push s f :
  wf s -> QueueCount s < CAP ->
  QueuedFence (push s f) = default 0 (head (queue s ++ [f])).
Proof.
  intros W ?. simpl. destruct (Z.eqb_spec (QueueCount s) 0) as [H0|].
  - by rewrite queue_empty.
  - rewrite (wf_queued s W). unfold queue. pose proof (wf_count s W).
    rewrite ring_list_cons by (done || lia). done.
Qed.

Lemma wf_push s f :
  wf s -> fence_ok f -> QueueCount s < CAP ->
  AppleAgxSchedulerAdmissionBlocked (Some s) = false -> wf (push s f).
Proof.
  intros W Hf Hc Hadm. pose proof (queue_push s f W Hc) as Hq.
  pose proof (queued_push s f W Hc) as Hh. pose proof (wf_count s W).
  split; try apply W; simpl.
  - rewrite zlen_set. apply W.
  - lia.
  - by rewrite Hq.
  - rewrite Hq. apply Forall_app. split; [apply W|by constructor].
  - simpl in Hadm. intros [E|E]; rewrite E in Hadm; done.
Qed.

(** Removing one preempted fence, by position. *)
Definition drop_preempted (s : APPLE_AGX_SCHEDULER) (i : Z) : APPLE_AGX_SCHEDULER :=
  s <| PreemptedFenceQueue :=
         shift_down_loop i (PreemptedFenceCount s - 1 - i) (PreemptedFenceQueue s) |>
    <| PreemptedFenceCount := PreemptedFenceCount s - 1 |>.

Lemma preempted_drop s i :
  wf s -> 0 <= i < PreemptedFenceCount s ->
  preempted (drop_preempted s i) = delete (Z.to_nat i) (preempted s).
Proof.
  intros W ?. unfold preempted, drop_preempted. simpl.
  apply shift_down_delete; [lia|]. rewrite (wf_preempted_storage s W). apply W.
Qed.

Lemma wf_drop_preempted s i :
  wf s -> 0 <= i < PreemptedFenceCount s -> wf (drop_preempted s i).
Proof.
  intros W Hi. pose proof (preempted_drop s i W Hi) as Hp.
  pose proof (wf_preempted_count s W). pose proof (wf_preempted_storage s W).
  split; try apply W; simpl.
  - destruct (shift_down_loop_spec i (PreemptedFenceCount s - 1 - i)
                (PreemptedFenceQueue s)); lia.
  - lia.
  - rewrite Hp. apply Forall_delete. apply W.
Qed.

(** Removing the head of the ring. *)
Definition pop (s : APPLE_AGX_SCHEDULER) : APPLE_AGX_SCHEDULER :=
  s <| QueueHead := ring_slot CAP (QueueHead s) 1 |>
    <| QueueCount := QueueCount s - 1 |>
    <| QueuedFence := if negb (QueueCount s - 1 =? 0)
         then (FenceQueue s) .[ ring_slot CAP (QueueHead s) 1 ] else 0 |>.

Lemma queue_pop s :
  wf s -> 0 < QueueCount s -> queue s = QueuedFence s :: queue (pop s).
Proof.
  intros W ?. rewrite (wf_queued s W). unfold queue at 1 2, pop. simpl.
  rewrite ring_pop by (done || lia || apply W). done.
Qed.

Lemma wf_pop s :
  wf s -> 0 < QueueCount s -> PreemptionPhase s = AppleAgxPreemptionIdle ->
  wf (pop s).
Proof.
  intros W ? Hidle. pose proof (queue_pop s W ltac:(done)) as Hq.
  pose proof (wf_count s W).
  split; try apply W; simpl.
  - apply ring_slot_bound. done.
  - lia.
  - unfold queue; simpl. destruct (Z.eqb_spec (QueueCount s - 1) 0) as [E|]; simpl.
    + by rewrite E.
    + rewrite ring_pop by (done || lia || (apply ring_slot_bound; done)). done.
  - pose proof (wf_queue s W) as Hall. rewrite Hq in Hall. by inversion Hall.
  - rewrite Hidle. intros [?|?]; done.
Qed.

(** ** Each operation as a guard and an effect *)

Definition engine_ok (n e : Z) : Prop := n < 1 /\ e < 1.
#[export] Instance engine_ok_dec n e : Decision (engine_ok n e).
Proof. unfold engine_ok. apply _. Defined.

Lemma validate_engine_spec s n e :
  AppleAgxSchedulerValidateEngine (Some s) n e = bool_decide (engine_ok n e).
Proof.
  unfold AppleAgxSchedulerValidateEngine, engine_ok. simpl.
  apply eq_true_iff_eq. consts. guards. lia.
Qed.

(** Phases in which Windows may queue new work. *)
Definition admits (s : APPLE_AGX_SCHEDULER) : Prop :=
  PreemptionPhase s = AppleAgxPreemptionIdle \/
  PreemptionPhase s = AppleAgxPreemptionNotificationClaimed.

Lemma admission_blocked_spec s :
  AppleAgxSchedulerAdmissionBlocked (Some s) = false <-> admits s.
Proof.
  unfold AppleAgxSchedulerAdmissionBlocked, admits. guards. tauto.
Qed.

Definition may_queue (s : APPLE_AGX_SCHEDULER) (n e f : Z) : Prop :=
  engine_ok n e /\ f <> 0 /\ zlen (queue s) < CAP /\ admits s /\
  serial_after 32 f (LastSubmittedFence s) = true.

Lemma queue_fence_cases s n e f r p :
  wf s -> AppleAgxSchedulerQueueFence (Some s) n e f = (r, p) ->
  (may_queue s n e f /\ r = true /\ p = Some ((push s f) <| LastSubmittedFence := f |>)) \/
  (~ may_queue s n e f /\ r = false /\ p = Some s).
Proof.
  intros W. unfold AppleAgxSchedulerQueueFence, may_queue.
  pose proof (wf_count s W). rewrite zlen_queue by lia.
  rewrite validate_engine_spec, <- admission_blocked_spec.
  change AppleAgxSchedulerFenceAfter with (serial_after 32).
  case_match eqn:G; intros [= <- <-].
  - right. split; [|done]. intros (? & ? & ? & Hb & Hs).
    rewrite Hb, Hs in G. guards. consts. intuition lia.
  - left. guards. split_and!; try done.
    unfold push. simpl. by rewrite slot_u32, (wrap_id _ (_ + 1)) by (clia || apply W).
Qed.

Definition may_resubmit (s : APPLE_AGX_SCHEDULER) (n e f : Z) : Prop :=
  engine_ok n e /\ f <> 0 /\ zlen (queue s) < CAP /\ admits s /\
  serial_after 32 f (CompletedFence s) = true /\
  (ActiveFence s <> 0 -> serial_after 32 f (ActiveFence s) = true) /\
  (forall t, last (queue s) = Some t -> serial_after 32 f t = true) /\
  f ∈ preempted s.

(** The position the search loop stops at. *)
Definition first_at (l : list Z) (f i : Z) : Prop :=
  0 <= i < zlen l /\ l .[ i ] = f /\ forall j, 0 <= j < i -> l .[ j ] <> f.

Lemma elem_of_arr (l : list Z) f : f ∈ l <-> exists i, 0 <= i < zlen l /\ l .[ i ] = f.
Proof.
  rewrite list_elem_of_lookup. unfold zlen, arr_get. split.
  - intros [i Hi]. exists (Z.of_nat i). pose proof (lookup_lt_Some _ _ _ Hi).
    rewrite Nat2Z.id. split; [lia|]. by apply list_lookup_total_correct.
  - intros (i & ? & <-). exists (Z.to_nat i). apply list_lookup_lookup_total_lt. lia.
Qed.

Lemma find_preempted s f :
  wf s ->
  match find_range 0 (PreemptedFenceCount s)
          (fun index => (PreemptedFenceQueue s) .[ index ] =? f) with
  | Some i => 0 <= i < PreemptedFenceCount s /\ first_at (preempted s) f i
  | None => f ∉ preempted s
  end.
Proof.
  intros W. pose proof (wf_preempted_count s W). pose proof (wf_preempted_storage s W).
  unfold first_at, preempted. case_match eqn:E.
  - apply find_range_Some in E as (? & ? & Hj). rewrite zlen_prefix by lia.
    split_and!; try lia; [rewrite get_prefix by lia; lia|].
    intros j ?. rewrite get_prefix by lia. specialize (Hj j). lia.
  - rewrite elem_of_arr, zlen_prefix by lia. intros (i & ? & Hi).
    rewrite get_prefix in Hi by lia.
    pose proof (proj1 (find_range_None _ _ _) E i). lia.
Qed.

Lemma queue_tail s t :
  wf s -> last (queue s) = Some t ->
  QueueCount s <> 0 /\
  t = (FenceQueue s) .[ u32 (u32 (QueueHead s + QueueCount s) - 1) mod CAP ].
Proof.
  intros W Hl. pose proof (wf_count s W).
  destruct (Z.eqb_spec (QueueCount s) 0) as [E|].
  { by rewrite queue_empty in Hl. }
  split; [done|]. rewrite tail_slot_u32 by (apply W || lia).
  unfold queue in Hl. rewrite ring_last in Hl by (done || lia). congruence.
Qed.

Lemma resubmit_cases s n e f r p :
  wf s ->
  AppleAgxSchedulerQueueResubmittedPagingFence (Some s) n e f = (r, p) ->
  (may_resubmit s n e f /\ r = true /\
   exists i, first_at (preempted s) f i /\ 0 <= i < PreemptedFenceCount s /\
     p = Some (drop_preempted (push s f) i)) \/
  (~ may_resubmit s n e f /\ r = false /\ p = Some s).
Proof.
  intros W. unfold AppleAgxSchedulerQueueResubmittedPagingFence, may_resubmit.
  pose proof (wf_count s W) as Hc. rewrite zlen_queue by lia.
  rewrite validate_engine_spec, <- admission_blocked_spec.
  change AppleAgxSchedulerFenceAfter with (serial_after 32).
  case_match eqn:G; [|case_match eqn:T; [|case_match eqn:F]]; intros [= <- <-];
    pose proof (find_preempted s f W) as Hf; try rewrite F in Hf.
  - right. split; [|done]. intros (? & ? & ? & Hb & Hs & Ha & _ & _).
    rewrite Hb, Hs in G. guards. consts.
    destruct (Z.eqb_spec (ActiveFence s) 0); [intuition lia|].
    rewrite Ha in G by done. guards. intuition lia.
  - right. split; [|done]. intros (_ & _ & _ & _ & _ & _ & Ht & _).
    apply andb_true_iff in T as [T1 T2]. apply negb_true_iff in T1, T2.
    apply Z.eqb_neq in T1.
    rewrite (Ht (FenceQueue s) .[ u32 (u32 (QueueHead s + QueueCount s) - 1) mod CAP ])
      in T2; [done|].
    unfold queue. rewrite ring_last by (done || lia).
    by rewrite tail_slot_u32 by (apply W || lia).
  - left. destruct Hf as [Hi Hat]. guards. split_and!; try done; try clia.
    + tauto.
    + intros t Ht. apply queue_tail in Ht as [? ->]; [|done].
      destruct T as [?|T]; [lia|done].
    + apply elem_of_arr. destruct Hat as (? & ? & _). eauto.
    + match type of F with _ = Some ?i => exists i end.
      split_and!; try done; try lia. f_equal.
      pose proof (wf_preempted_count s W) as Hpc.
      unfold drop_preempted, push. simpl.
      rewrite slot_u32, !(wrap_id 32) by (clia || apply W). done.
  - right. split; [|done]. intros (_ & _ & _ & _ & _ & _ & _ & ?). done.
Qed.

Definition may_activate (s : APPLE_AGX_SCHEDULER) (n e f : Z) : Prop :=
  engine_ok n e /\ head (queue s) = Some f /\ ActiveFence s = 0 /\
  PreemptionPhase s = AppleAgxPreemptionIdle.

Lemma queue_head s f :
  wf s -> head (queue s) = Some f <-> QueueCount s <> 0 /\ QueuedFence s = f.
Proof.
  intros W. pose proof (wf_count s W).
  destruct (Z.eqb_spec (QueueCount s) 0) as [E|]; [rewrite queue_empty by done|].
  - split; [done|lia].
  - rewrite queue_pop by (done || lia). simpl. split; [intros [= ->]; done|].
    by intros [_ ->].
Qed.

Lemma activate_cases s n e f r p :
  wf s -> AppleAgxSchedulerActivateFence (Some s) n e f = (r, p) ->
  (may_activate s n e f /\ r = true /\ p = Some ((pop s) <| ActiveFence := f |>)) \/
  (~ may_activate s n e f /\ r = false /\ p = Some s).
Proof.
  intros W. unfold AppleAgxSchedulerActivateFence, may_activate.
  rewrite queue_head, validate_engine_spec by done. simpl.
  pose proof (wf_count s W). pose proof (wf_head s W).
  case_match eqn:G; intros [= <- <-].
  - right. split; [|done]. intros (? & [? Hf] & ? & ?).
    assert (f <> 0).
    { pose proof (queue_pop s W ltac:(lia)) as Hq. pose proof (wf_queue s W) as Hall.
      rewrite Hq in Hall. inversion Hall as [|?? [_ ?] ?]. congruence. }
    guards. intuition lia.
  - left. guards. split_and!; try done. unfold pop. simpl.
    rewrite (wrap_id 32 (QueueCount s - 1)) by clia.
    by rewrite slot_u32 by (done || clia).
Qed.

Definition may_complete (s : APPLE_AGX_SCHEDULER) (n e f : Z) : Prop :=
  engine_ok n e /\ f <> 0 /\
  (PreemptionPhase s = AppleAgxPreemptionWaitCurrentBoundary ->
   f = PreemptionActiveFence s) /\
  serial_after 32 f (CompletedFence s) = true.

Lemma can_complete_spec s n e f :
  AppleAgxSchedulerCanCompleteFence (Some s) n e f = true <-> may_complete s n e f.
Proof.
  unfold AppleAgxSchedulerCanCompleteFence, may_complete.
  rewrite validate_engine_spec.
  change (negb (u32 (f - CompletedFence s) =? 0) &&
          (u32 (f - CompletedFence s) <? 0x80000000))
    with (serial_after 32 f (CompletedFence s)).
  case_match eqn:G; [|case_match eqn:T].
  - split; [done|]. guards. intuition.
  - split; [done|]. guards. intuition.
  - guards. split; [|tauto]. intros ->. split_and!; try done. tauto.
Qed.

Lemma complete_cases s n e f r p :
  AppleAgxSchedulerCompleteFence (Some s) n e f = (r, p) ->
  (may_complete s n e f /\ r = true /\ p = Some (s <| CompletedFence := f |>)) \/
  (~ may_complete s n e f /\ r = false /\ p = Some s).
Proof.
  unfold AppleAgxSchedulerCompleteFence. rewrite <- can_complete_spec.
  destruct (AppleAgxSchedulerCanCompleteFence (Some s) n e f); intros [= <- <-]; auto.
Qed.

Lemma complete_active_cases s n e f r p :
  AppleAgxSchedulerCompleteActiveFence (Some s) n e f = (r, p) ->
  (may_complete s n e f /\ ActiveFence s = f /\ r = true /\
   p = Some (s <| CompletedFence := f |> <| ActiveFence := 0 |>)) \/
  (~ (may_complete s n e f /\ ActiveFence s = f) /\ r = false /\ p = Some s).
Proof.
  unfold AppleAgxSchedulerCompleteActiveFence. rewrite validate_engine_spec.
  case_match eqn:G.
  - intros [= <- <-]. right. split; [|done]. unfold may_complete. guards. intuition.
  - destruct (AppleAgxSchedulerCompleteFence (Some s) n e f) as [ok q] eqn:C.
    apply complete_cases in C as [(Hm & -> & ->)|(Hm & -> & ->)];
      intros [= <- <-]; guards; [left|right]; tauto.
Qed.

Definition may_begin (s : APPLE_AGX_SCHEDULER) (n e p c a : Z) : Prop :=
  engine_ok n e /\ p <> 0 /\ PreemptionPhase s = AppleAgxPreemptionIdle /\
  c = LastSubmittedFence s /\ a = ActiveFence s /\
  AppleAgxSchedulerFenceAtOrAfter c (CompletedFence s) = true /\
  (a <> 0 -> serial_after 32 a (CompletedFence s) = true /\
             AppleAgxSchedulerFenceAtOrAfter c a = true).

(** Dispatch is frozen and the whole queue becomes resubmittable. *)
Definition begin (s : APPLE_AGX_SCHEDULER) (p c a : Z) : APPLE_AGX_SCHEDULER :=
  s <| PreemptedFenceCount := QueueCount s |>
    <| PreemptedFenceQueue :=
         fill_loop 0 (QueueCount s)
           (fun index => (FenceQueue s) .[ ring_slot CAP (QueueHead s) index ])
           (PreemptedFenceQueue s) |>
    <| QueuedFence := 0 |> <| QueueHead := 0 |> <| QueueCount := 0 |>
    <| PendingPreemptionFence := p |> <| PreemptionCutoffFence := c |>
    <| PreemptionActiveFence := a |>
    <| PreemptionLastCompletedFence := CompletedFence s |>
    <| PreemptionPending := true |>
    <| PreemptionPhase := if a =? 0 then AppleAgxPreemptionReadyToNotify
                          else AppleAgxPreemptionWaitCurrentBoundary |>.

Lemma fill_loop_ext {A} lo n (v1 v2 : Z -> A) a :
  (forall i, lo <= i < lo + n -> v1 i = v2 i) -> fill_loop lo n v1 a = fill_loop lo n v2 a.
Proof.
  intros Hv. apply for_range_ext. intros. by rewrite Hv.
Qed.

Lemma fill_from_queue s a :
  wf s ->
  fill_loop 0 (QueueCount s)
    (fun index => (FenceQueue s) .[ u32 (QueueHead s + index) mod CAP ]) a =
  fill_loop 0 (QueueCount s)
    (fun index => (FenceQueue s) .[ ring_slot CAP (QueueHead s) index ]) a.
Proof.
  intros W. apply fill_loop_ext. intros i Hi. pose proof (wf_count s W).
  by rewrite slot_u32 by (apply W || lia).
Qed.

Lemma begin_cases s n e p c a r q :
  wf s ->
  AppleAgxSchedulerBeginBoundaryPreemption (Some s) n e p c a = (r, q) ->
  (may_begin s n e p c a /\ r = true /\ q = Some (begin s p c a)) \/
  (~ may_begin s n e p c a /\ r = false /\ q = Some s).
Proof.
  intros W. unfold AppleAgxSchedulerBeginBoundaryPreemption, may_begin.
  rewrite validate_engine_spec.
  change (AppleAgxSchedulerFenceAfter a) with (serial_after 32 a).
  case_match eqn:G; intros [= <- <-].
  - right. split; [|done]. guards. intros (? & ? & ? & ? & ? & Hc & Ha).
    rewrite Hc in G. destruct (Z.eqb_spec a 0); [intuition congruence|].
    destruct Ha as [Ha1 Ha2]; [done|]. rewrite Ha1, Ha2 in G. intuition congruence.
  - left. guards. split_and!; try done; [tauto|]. f_equal. unfold begin. simpl.
    by rewrite fill_from_queue.
Qed.

Lemma fill_prefix_queue s a :
  wf s -> zlen a = CAP ->
  zlen (fill_loop 0 (QueueCount s)
    (fun index => (FenceQueue s) .[ ring_slot CAP (QueueHead s) index ]) a) = CAP /\
  prefix_list (fill_loop 0 (QueueCount s)
    (fun index => (FenceQueue s) .[ ring_slot CAP (QueueHead s) index ]) a)
    (QueueCount s) = queue s.
Proof.
  intros W Ha. pose proof (wf_count s W).
  destruct (fill_loop_spec 0 (QueueCount s)
    (fun index => (FenceQueue s) .[ ring_slot CAP (QueueHead s) index ]) a)
    as [Hl Hs]; [lia..|].
  split; [congruence|]. apply arr_ext.
  { rewrite zlen_prefix, zlen_queue; lia. }
  rewrite zlen_prefix by lia. intros j ?.
  rewrite get_prefix, Hs by lia. rewrite decide_True by lia.
  unfold queue. by rewrite get_ring_list by lia.
Qed.

Lemma preempted_begin s p c a : wf s -> preempted (begin s p c a) = queue s.
Proof.
  intros W. unfold preempted, begin. simpl. by apply fill_prefix_queue; [|apply W].
Qed.

Lemma wf_begin s n e p c a : wf s -> may_begin s n e p c a -> wf (begin s p c a).
Proof.
  intros W (_ & _ & _ & _ & Ha & _). pose proof (preempted_begin s p c a W) as Hp.
  pose proof (wf_active s W).
  split; try apply W; simpl; try done.
  - by apply fill_prefix_queue; [|apply W].
  - rewrite Hp. apply W.
  - by destruct (a =? 0).
  - destruct (Z.eqb_spec a 0); [done|]. intros _. split; [done|]. by left.
Qed.

(** ** Engine reset *)

(** Which of the still-resubmittable fences survive a reset, in one pass: each
    must be after its predecessor, and there must be room. *)
Fixpoint keep_after (room : nat) (after : Z) (l : list Z) : list Z :=
  match l, room with
  | [], _ | _, O => []
  | f :: l, S room' =>
      if serial_after 32 f after then f :: keep_after room' f l
      else keep_after room after l
  end.

Lemma keep_after_length room after l : (length (keep_after room after l) <= room)%nat.
Proof.
  revert room after. induction l as [|f l IH]; intros [|room] after; simpl; try lia.
  case_match; simpl; [specialize (IH room f)|specialize (IH (S room) after)]; lia.
Qed.

Lemma keep_after_length_le room after l :
  (length (keep_after room after l) <= length l)%nat.
Proof.
  revert room after. induction l as [|f l IH]; intros [|room] after; simpl; try lia.
  case_match; simpl; [specialize (IH room f)|specialize (IH (S room) after)]; lia.
Qed.

Lemma keep_after_sublist room after l : keep_after room after l `sublist_of` l.
Proof.
  revert room after. induction l as [|f l IH]; intros [|room] after; simpl;
    try apply sublist_nil_l. case_match; by constructor.
Qed.

(** The in-place compaction computes [keep_after]. *)
Lemma keep_loop_from cap fuel : forall i b kept after (l : list Z),
  zlen l = Z.of_nat fuel -> 0 <= kept <= i -> i + Z.of_nat fuel <= zlen b ->
  kept <= cap ->
  (forall k, 0 <= k < Z.of_nat fuel -> b .[ i + k ] = l .[ k ]) ->
  let '(b', kept', _) :=
    while_from (fun '(_, kept, _) => kept <? cap)
      (fun index '(a, kept, after) =>
         if AppleAgxSchedulerFenceAfter (a .[ index ]) after
         then (a .[ kept <- a .[ index ] ], kept + 1, a .[ index ])
         else (a, kept, after)) i fuel (b, kept, after) in
  zlen b' = zlen b /\ kept <= kept' <= cap /\ kept' <= zlen b /\
  prefix_list b' kept' =
    prefix_list b kept ++ keep_after (Z.to_nat (cap - kept)) after l.
Proof.
  change AppleAgxSchedulerFenceAfter with (serial_after 32).
  induction fuel as [|fuel IH]; intros i b kept after l Hl Hk Hb Hcap Hbl; simpl.
  { destruct l; [|unfold zlen in Hl; simpl in Hl; lia].
    split_and!; try lia. simpl. by rewrite app_nil_r. }
  destruct l as [|f l]; [unfold zlen in Hl; simpl in Hl; lia|].
  assert (Hf : b .[ i ] = f).
  { specialize (Hbl 0). rewrite Z.add_0_r in Hbl. by apply Hbl; lia. }
  assert (Htl : forall k, 0 <= k < Z.of_nat fuel -> b .[ i + 1 + k ] = l .[ k ]).
  { intros k ?. replace (i + 1 + k) with (i + (k + 1)) by lia.
    rewrite Hbl by lia. unfold arr_get.
    by replace (Z.to_nat (k + 1)) with (S (Z.to_nat k)) by lia. }
  unfold zlen in Hl; simpl in Hl.
  destruct (Z.ltb_spec kept cap) as [Hlt|Hge].
  2: { split_and!; try lia. replace (Z.to_nat (cap - kept)) with 0%nat by lia.
       simpl. by rewrite app_nil_r. }
  rewrite Hf. replace (Z.to_nat (cap - kept)) with (S (Z.to_nat (cap - kept - 1))) by lia.
  simpl. destruct (serial_after 32 f after).
  - specialize (IH (i + 1) (b .[ kept <- f ]) (kept + 1) f l).
    destruct (while_from _ _ _ _ _) as [[b' kept'] after'].
    destruct IH as (H1 & H2 & H3 & H4); rewrite ?zlen_set; unfold zlen; try lia.
    { unfold zlen in Hb. lia. }
    { intros k ?. rewrite get_set_ne by lia. by apply Htl. }
    rewrite zlen_set in H1, H3. unfold zlen in *. split_and!; try lia.
    rewrite H4, prefix_set_snoc by (unfold zlen; lia). rewrite <- app_assoc. simpl.
    by replace (cap - (kept + 1)) with (cap - kept - 1) by lia.
  - specialize (IH (i + 1) b kept after l).
    destruct (while_from _ _ _ _ _) as [[b' kept'] after'].
    destruct IH as (H1 & H2 & H3 & H4); unfold zlen in *; try lia; [done|].
    split_and!; try lia. rewrite H4.
    by replace (Z.to_nat (cap - kept)) with (S (Z.to_nat (cap - kept - 1))) by lia.
Qed.

Lemma keep_loop_spec qc n after a :
  0 <= qc <= CAP -> 0 <= n <= CAP -> zlen a = CAP ->
  let '(a', kept, _) := reset_keep_loop qc n after a in
  zlen a' = CAP /\ 0 <= kept <= CAP - qc /\
  prefix_list a' kept = keep_after (Z.to_nat (CAP - qc)) after (prefix_list a n).
Proof.
  intros Hq Hn Ha. unfold reset_keep_loop, for_while.
  rewrite (wrap_id 32 (CAP - qc)) by clia.
  pose proof (keep_loop_from (CAP - qc) (Z.to_nat n) 0 a 0 after (prefix_list a n)) as H.
  destruct (while_from _ _ _ _ _) as [[a' kept] after'].
  destruct H as (H1 & H2 & H3 & H4).
  - rewrite zlen_prefix; lia.
  - lia.
  - lia.
  - lia.
  - intros k ?. rewrite get_prefix by lia. done.
  - split_and!; try lia. rewrite H4, Z.sub_0_r. done.
Qed.

(** The reference point of the pass: the queue's tail, else the aborted fence. *)
Definition aborted_fence (s : APPLE_AGX_SCHEDULER) : Z :=
  if decide (ActiveFence s = 0) then CompletedFence s else ActiveFence s.

Definition reset_survivors (s : APPLE_AGX_SCHEDULER) : list Z :=
  queue s ++ keep_after (Z.to_nat (CAP - zlen (queue s)))
               (default (aborted_fence s) (last (queue s))) (preempted s).

Lemma copy_over_shifted (b : list Z) s kept :
  wf s -> zlen b = CAP -> 0 <= kept <= CAP - QueueCount s ->
  let copied := fill_loop 0 (QueueCount s)
    (fun index => (FenceQueue s) .[ ring_slot CAP (QueueHead s) index ])
    (shift_up_loop kept (QueueCount s) b) in
  zlen copied = CAP /\
  prefix_list copied (QueueCount s + kept) = queue s ++ prefix_list b kept.
Proof.
  intros W Hb Hk. pose proof (wf_count s W) as Hc. cbv zeta.
  destruct (shift_up_loop_spec kept (QueueCount s) b) as [Hl1 Hs1]; [lia..|].
  destruct (fill_loop_spec 0 (QueueCount s)
    (fun index => (FenceQueue s) .[ ring_slot CAP (QueueHead s) index ])
    (shift_up_loop kept (QueueCount s) b)) as [Hl2 Hs2]; [lia..|].
  split; [lia|]. apply arr_ext.
  { rewrite zlen_app, !zlen_prefix, zlen_queue; lia. }
  rewrite zlen_prefix by lia. intros j ?.
  rewrite get_prefix, Hs2, get_app, zlen_queue by lia.
  destruct (decide (j < QueueCount s)).
  - rewrite decide_True by lia. unfold queue. by rewrite get_ring_list by lia.
  - rewrite decide_False, Hs1, decide_True by lia. by rewrite get_prefix by lia.
Qed.

Lemma reset_cases s n e o r p o' :
  wf s -> AppleAgxSchedulerResetEngine (Some s) n e o = (r, p, o') ->
  (engine_ok n e /\ o <> NULL /\ r = true /\ o' = Some (aborted_fence s) /\
   exists s', p = Some s' /\ zlen (PreemptedFenceQueue s') = CAP /\
     0 <= PreemptedFenceCount s' <= CAP /\
     preempted s' = reset_survivors s /\
     s' = s <| PreemptedFenceQueue := PreemptedFenceQueue s' |>
            <| PreemptedFenceCount := PreemptedFenceCount s' |>
            <| QueuedFence := 0 |> <| QueueHead := 0 |> <| QueueCount := 0 |>
            <| ActiveFence := 0 |> <| PendingPreemptionFence := 0 |>
            <| PreemptionCutoffFence := 0 |> <| PreemptionActiveFence := 0 |>
            <| PreemptionLastCompletedFence := 0 |> <| PreemptionPending := false |>
            <| PreemptionPhase := AppleAgxPreemptionIdle |> <| Responsive := true |>) \/
  (~ (engine_ok n e /\ o <> NULL) /\ r = false /\ p = Some s /\ o' = o).
Proof.
  intros W. unfold AppleAgxSchedulerResetEngine. rewrite validate_engine_spec.
  case_match eqn:G.
  { intros [= <- <- <-]. right. split_and!; try done. guards.
    destruct o; simpl in G; intuition congruence. }
  guards. pose proof (wf_count s W) as Hc.
  set (after := if negb (QueueCount s =? 0) then _ else _).
  assert (after = default (aborted_fence s) (last (queue s))) as ->.
  { unfold after, aborted_fence. destruct (Z.eqb_spec (QueueCount s) 0) as [E|E]; simpl.
    - rewrite queue_empty by done. simpl.
      destruct (Z.eqb_spec (ActiveFence s) 0); case_decide; done.
    - unfold queue. rewrite ring_last by (done || lia). simpl.
      by rewrite tail_slot_u32 by (apply W || lia). }
  pose proof (keep_loop_spec (QueueCount s) (PreemptedFenceCount s)
    (default (aborted_fence s) (last (queue s))) (PreemptedFenceQueue s)
    ltac:(apply W) ltac:(apply W) ltac:(apply W)) as Hk.
  destruct (reset_keep_loop _ _ _ _) as [[b kept] after'].
  destruct Hk as (Hb & Hkept & Hpre). intros [= <- <- <-]. left.
  split_and!; try done.
  { destruct o; done. }
  { unfold aborted_fence. destruct (Z.eqb_spec (ActiveFence s) 0); case_decide; done. }
  destruct (copy_over_shifted b s kept W Hb ltac:(lia)) as [Hl Hcp].
  eexists. split; [reflexivity|]. simpl. rewrite fill_from_queue by done.
  rewrite (wrap_id 32 (QueueCount s + kept)) by clia.
  split_and!; [done|lia|lia| |done].
  unfold preempted, reset_survivors. simpl.
  rewrite zlen_queue, Hcp, Hpre by lia. done.
Qed.

(** ** The invariant *)

Lemma wf_initial s : initial s -> wf s.
Proof.
  intros (raw & [Hf Hp] & [= <-]).
  destruct (fill_loop_spec 0 CAP (fun _ => 0) (FenceQueue raw)) as [Hl _];
    [done|done|clia|].
  split; simpl; try done; try congruence; try (intros [?|?]; done).
Qed.

Lemma wf_complete s n e f :
  wf s -> is_u32 f -> may_complete s n e f ->
  wf (s <| CompletedFence := f |>) /\
  (ActiveFence s = f -> wf (s <| CompletedFence := f |> <| ActiveFence := 0 |>)).
Proof.
  intros W Hf (_ & _ & Hwait & _). split; [|intros Hact]; split; try apply W; simpl;
    try done; intros Hp; destruct (wf_wait s W Hp) as [? Hact']; specialize (Hwait Hp);
    (split; [done|]).
  - destruct Hact' as [?|[? _]]; [by left|by right].
  - by right.
Qed.

Lemma wf_thaw s :
  wf s ->
  wf (s <| PendingPreemptionFence := 0 |> <| PreemptionCutoffFence := 0 |>
        <| PreemptionActiveFence := 0 |> <| PreemptionLastCompletedFence := 0 |>
        <| PreemptionPending := false |> <| PreemptionPhase := AppleAgxPreemptionIdle |>).
Proof. intros W. split; try apply W; simpl; try done. intros [?|?]; done. Qed.

Lemma wf_ready_claim s ph :
  wf s -> ph = AppleAgxPreemptionReadyToNotify \/
          ph = AppleAgxPreemptionNotificationClaimed ->
  PreemptionPhase s = AppleAgxPreemptionWaitCurrentBoundary \/
  PreemptionPhase s = AppleAgxPreemptionReadyToNotify ->
  forall a l, wf (s <| PreemptionActiveFence := a |>
                    <| PreemptionLastCompletedFence := l |> <| PreemptionPhase := ph |>).
Proof.
  intros W Hph Hs a l. pose proof (wf_frozen s W Hs).
  assert (PreemptionPending s = true) as Hp.
  { rewrite (wf_pending s W). by destruct Hs as [->| ->]. }
  split; try apply W; simpl; try done.
  - rewrite Hp. by destruct Hph as [->| ->].
  - intros ->. destruct Hph; done.
Qed.

Lemma wf_reset s n e o r s' o' :
  wf s -> AppleAgxSchedulerResetEngine (Some s) n e o = (r, Some s', o') -> wf s'.
Proof.
  intros W Hr. apply reset_cases in Hr as
    [(_ & _ & _ & _ & s2 & [= <-] & Hl & Hc & Hp & Heq)|(_ & _ & [= ->] & _)]; [|done|done].
  assert (Forall fence_ok (preempted s')) as Hall.
  { rewrite Hp. unfold reset_survivors. apply Forall_app. split; [apply W|].
    apply Forall_forall. intros x Hx. pose proof (wf_preempted s W) as Hall.
    rewrite Forall_forall in Hall. apply Hall.
    exact (elem_of_sublist _ _ _ Hx (keep_after_sublist _ _ _)). }
  rewrite Heq. rewrite Heq in Hall, Hl, Hc. simpl in *.
  split; try apply W; simpl; try done.
Qed.

Lemma begin_now_cases s n e f p r q p' :
  wf s -> AppleAgxSchedulerBeginPreemption (Some s) n e f p = (r, q, p') ->
  (may_begin s n e f (CompletedFence s) 0 /\ r = true /\
   q = Some ((begin s f (CompletedFence s) 0)
               <| PreemptionPhase := AppleAgxPreemptionNotificationClaimed |>) /\
   p' = Some (Build_APPLE_AGX_PREEMPTION f (CompletedFence s))) \/
  (~ (may_begin s n e f (CompletedFence s) 0 /\ p <> NULL) /\ r = false /\
   q = Some s /\ p' = p).
Proof.
  intros W. unfold AppleAgxSchedulerBeginPreemption.
  destruct p as [p|]; [|intros [= <- <- <-]; right; tauto].
  destruct (AppleAgxSchedulerBeginBoundaryPreemption _ _ _ _ _ _) as [ok q'] eqn:B.
  apply begin_cases in B as [(Hm & -> & ->)|(Hm & -> & ->)]; [..|done];
    intros [= <- <- <-]; [by left|right; tauto].
Qed.

Lemma wf_step s s' : wf s -> step s s' -> wf s'.
Proof.
  intros W [c n a r c' H|c r c' H|n e f r Hf H|n e f r Hf H|n e f r Hf H|n e f r Hf H
    |n e f r Hf H|n e p c a r Hp H|n e f r Hf H|p r p' H|f r H|n e f p r p' Hf H|f r H
    |n e o r o' H].
  - unfold AppleAgxSchedulerCreateContext in H. c_cases. split; apply W.
  - unfold AppleAgxSchedulerDestroyContext in H. c_cases. split; apply W.
  - apply complete_cases in H as [(Hm & _ & [= ->])|(_ & _ & [= ->])]; [|done].
    by eapply wf_complete.
  - apply queue_fence_cases in H as [((_ & ? & Hc & Ha & _) & _ & [= ->])|(_ & _ & [= ->])];
      [|done|done].
    rewrite zlen_queue in Hc by apply W. apply admission_blocked_spec in Ha.
    pose proof (wf_push s f W ltac:(done) Hc Ha) as W'. split; try apply W'. done.
  - apply resubmit_cases in H as
      [((_ & ? & Hc & Ha & _) & _ & i & _ & Hi & [= ->])|(_ & _ & [= ->])]; [|done|done].
    rewrite zlen_queue in Hc by apply W. apply admission_blocked_spec in Ha.
    apply wf_drop_preempted; [|done]. by apply wf_push.
  - apply activate_cases in H as [((_ & Hh & Ha & Hi) & _ & [= ->])|(_ & _ & [= ->])];
      [|done|done].
    apply queue_head in Hh as [Hc _]; [|done]. pose proof (wf_count s W).
    pose proof (wf_pop s W ltac:(lia) Hi) as W'. split; try apply W'; simpl; [done|].
    rewrite Hi. done.
  - apply complete_active_cases in H as [(Hm & Ha & _ & [= ->])|(_ & _ & [= ->])]; [|done].
    by eapply wf_complete.
  - apply begin_cases in H as [(Hm & _ & [= ->])|(_ & _ & [= ->])]; [|done|done].
    by eapply wf_begin.
  - unfold AppleAgxSchedulerObserveBoundaryCompletion in H. c_cases. guards.
    by apply (wf_ready_claim s AppleAgxPreemptionReadyToNotify); auto.
  - unfold AppleAgxSchedulerClaimBoundaryPreemption in H. c_cases. guards.
    apply (wf_ready_claim s AppleAgxPreemptionNotificationClaimed); auto.
  - unfold AppleAgxSchedulerCommitBoundaryPreemption in H. c_cases. by apply wf_thaw.
  - apply begin_now_cases in H as [(Hm & _ & [= ->] & _)|(_ & _ & [= ->] & _)]; [|done|done].
    apply (wf_ready_claim _ AppleAgxPreemptionNotificationClaimed
             (wf_begin _ _ _ _ _ _ W Hm) ltac:(auto) ltac:(auto) 0 (CompletedFence s)).
  - unfold AppleAgxSchedulerAbortPreemption in H. c_cases.
    apply wf_thaw in W. split; try apply W; simpl; done.
  - by eapply wf_reset.
Qed.

End Sched.
