(* ===== verification/SchedulerSpec.v ===== *)
(** * The abstract scheduler and the refinement theorem

    [SchedSpec.spec] is the scheduler without its representation: two lists of
    fences, the active fence, the preemption phase.  [spec_run] says what each call
    that moves fences or a preemption does to it, results included, and [run] is the
    concrete code of Scheduler.v behind the same calls; the two commute with [abs].
    The other calls, and the queries, join them in SchedulerCalls.v.  The
    ordering guarantees for a client that numbers its fences serially are proved
    on the specification and carried to the code by the refinement. *)

From stdpp Require Import sorting.
From S2P Require Import Prelude Serial Ring Arrays Scheduler.
Import Sched.

Module SchedSpec.

(** ** Entry points *)

Inductive op :=
  | Queue (n e f : Z)
  | Resubmit (n e f : Z)
  | Activate (n e f : Z)
  | CompleteActive (n e f : Z)
  | Begin (n e p cutoff active : Z)
  | Observe (n e f : Z)
  | Claim
  | Commit (p : Z)
  | BeginNow (n e p : Z)
  | Abort (p : Z)
  | Reset (n e : Z).

(** What a call returns: the C boolean and the words written through its
    out-pointer (none when it fails). *)
Abbreviation result := (bool * list Z)%type.

Definition keep (s : APPLE_AGX_SCHEDULER) (p : ptr APPLE_AGX_SCHEDULER)
    : APPLE_AGX_SCHEDULER := default s p.

Definition no_preemption : APPLE_AGX_PREEMPTION := Build_APPLE_AGX_PREEMPTION 0 0.

Definition report (r : bool) (p : ptr APPLE_AGX_PREEMPTION) : result :=
  match p with
  | Some p => if r then (r, [PreemptionFence p; LastCompletedFence p]) else (r, [])
  | None => (r, [])
  end.

Definition run (o : op) (s : APPLE_AGX_SCHEDULER) : result * APPLE_AGX_SCHEDULER :=
  let plain '(r, p) := ((r, []), keep s p) in
  match o with
  | Queue n e f => plain (AppleAgxSchedulerQueueFence (Some s) n e f)
  | Resubmit n e f => plain (AppleAgxSchedulerQueueResubmittedPagingFence (Some s) n e f)
  | Activate n e f => plain (AppleAgxSchedulerActivateFence (Some s) n e f)
  | CompleteActive n e f => plain (AppleAgxSchedulerCompleteActiveFence (Some s) n e f)
  | Begin n e p c a => plain (AppleAgxSchedulerBeginBoundaryPreemption (Some s) n e p c a)
  | Observe n e f => plain (AppleAgxSchedulerObserveBoundaryCompletion (Some s) n e f)
  | Claim =>
      let '(r, p, out) :=
        AppleAgxSchedulerClaimBoundaryPreemption (Some s) (Some no_preemption) in
      (report r out, keep s p)
  | Commit f => plain (AppleAgxSchedulerCommitBoundaryPreemption (Some s) f)
  | BeginNow n e f =>
      let '(r, p, out) :=
        AppleAgxSchedulerBeginPreemption (Some s) n e f (Some no_preemption) in
      (report r out, keep s p)
  | Abort f => plain (AppleAgxSchedulerAbortPreemption (Some s) f)
  | Reset n e =>
      let '(r, p, out) := AppleAgxSchedulerResetEngine (Some s) n e (Some 0) in
      ((r, if r then [default 0 out] else []), keep s p)
  end.

(** ** The specification *)

Record spec := {
  completed : Z;
  submitted : Z;
  active : Z;              (** 0: nothing runs *)
  pending : list Z;        (** accepted, oldest first *)
  resubmittable : list Z;  (** preempted, never ran *)
  phase : APPLE_AGX_PREEMPTION_PHASE;
  preemption : Z;
  boundary : Z;
  reported : Z;
}.
#[export] Instance spec_eta : Eta spec :=
  fun a => Build_spec (completed a) (submitted a) (active a) (pending a)
    (resubmittable a) (phase a) (preemption a) (boundary a) (reported a).

Definition abs (s : APPLE_AGX_SCHEDULER) : spec := {|
  completed := CompletedFence s;
  submitted := LastSubmittedFence s;
  active := ActiveFence s;
  pending := queue s;
  resubmittable := preempted s;
  phase := PreemptionPhase s;
  preemption := PendingPreemptionFence s;
  boundary := PreemptionActiveFence s;
  reported := PreemptionLastCompletedFence s;
|}.

Definition after (f g : Z) : Prop := serial_after 32 f g = true.
Definition at_or_after (f g : Z) : Prop := f = g \/ after f g.

#[export] Instance after_dec f g : Decision (after f g) := decide (_ = true).
#[export] Instance at_or_after_dec f g : Decision (at_or_after f g).
Proof. unfold at_or_after. apply _. Defined.

Definition admitting (a : spec) : Prop :=
  phase a = AppleAgxPreemptionIdle \/ phase a = AppleAgxPreemptionNotificationClaimed.
#[export] Instance admitting_dec a : Decision (admitting a).
Proof. unfold admitting. apply _. Defined.

(** A newcomer must be after the tail of the queue, if there is one. *)
Definition after_tail (a : spec) (f : Z) : Prop :=
  match last (pending a) with None => True | Some t => after f t end.
#[export] Instance after_tail_dec a f : Decision (after_tail a f).
Proof. unfold after_tail. destruct (last _); apply _. Defined.

Fixpoint remove_first (f : Z) (l : list Z) : list Z :=
  match l with
  | [] => []
  | g :: l => if decide (g = f) then l else g :: remove_first f l
  end.

Definition begun (a : spec) (p : Z) : spec :=
  a <| resubmittable := pending a |> <| pending := [] |>
    <| preemption := p |> <| boundary := active a |> <| reported := completed a |>
    <| phase := if decide (active a = 0) then AppleAgxPreemptionReadyToNotify
                else AppleAgxPreemptionWaitCurrentBoundary |>.

Definition thawed (a : spec) : spec :=
  a <| preemption := 0 |> <| boundary := 0 |> <| reported := 0 |>
    <| phase := AppleAgxPreemptionIdle |>.

Definition can_begin (a : spec) (p : Z) : Prop :=
  p <> 0 /\ phase a = AppleAgxPreemptionIdle /\
  at_or_after (submitted a) (completed a) /\
  (active a = 0 \/
   after (active a) (completed a) /\ at_or_after (submitted a) (active a)).
#[export] Instance can_begin_dec a p : Decision (can_begin a p).
Proof. unfold can_begin. apply _. Defined.

Definition can_finish (a : spec) (f : Z) : Prop :=
  f <> 0 /\ active a = f /\ after f (completed a) /\
  (phase a <> AppleAgxPreemptionWaitCurrentBoundary \/ boundary a = f).
#[export] Instance can_finish_dec a f : Decision (can_finish a f).
Proof. unfold can_finish. apply _. Defined.

Definition survivors (a : spec) : list Z :=
  let aborted := if decide (active a = 0) then completed a else active a in
  pending a ++
  keep_after (Z.to_nat (CAP - zlen (pending a))) (default aborted (last (pending a)))
    (resubmittable a).

Definition spec_run (o : op) (a : spec) : result * spec :=
  let refuse := ((false, []), a) in
  let accept a' := ((true, []), a') in
  match o with
  | Queue n e f =>
      if decide (engine_ok n e /\ f <> 0 /\ zlen (pending a) < CAP /\ admitting a /\
                 after f (submitted a))
      then accept (a <| pending := pending a ++ [f] |> <| submitted := f |>)
      else refuse
  | Resubmit n e f =>
      if decide (engine_ok n e /\ f <> 0 /\ zlen (pending a) < CAP /\ admitting a /\
                 after f (completed a) /\ (active a = 0 \/ after f (active a)) /\
                 after_tail a f /\
                 f ∈ resubmittable a)
      then accept (a <| pending := pending a ++ [f] |>
                     <| resubmittable := remove_first f (resubmittable a) |>)
      else refuse
  | Activate n e f =>
      if decide (engine_ok n e /\ head (pending a) = Some f /\ active a = 0 /\
                 phase a = AppleAgxPreemptionIdle)
      then accept (a <| active := f |> <| pending := tail (pending a) |>)
      else refuse
  | CompleteActive n e f =>
      if decide (engine_ok n e /\ can_finish a f)
      then accept (a <| completed := f |> <| active := 0 |>)
      else refuse
  | Begin n e p c x =>
      if decide (engine_ok n e /\ c = submitted a /\ x = active a /\ can_begin a p)
      then accept (begun a p)
      else refuse
  | Observe n e f =>
      if decide (engine_ok n e /\ phase a = AppleAgxPreemptionWaitCurrentBoundary /\
                 f <> 0 /\ boundary a = f /\ completed a = f)
      then accept (a <| boundary := 0 |> <| reported := f |>
                     <| phase := AppleAgxPreemptionReadyToNotify |>)
      else refuse
  | Claim =>
      if decide (phase a = AppleAgxPreemptionReadyToNotify)
      then ((true, [preemption a; reported a]),
            a <| phase := AppleAgxPreemptionNotificationClaimed |>)
      else refuse
  | Commit p =>
      if decide (phase a = AppleAgxPreemptionNotificationClaimed /\ preemption a = p)
      then accept (thawed a)
      else refuse
  | BeginNow n e p =>
      if decide (engine_ok n e /\ active a = 0 /\ completed a = submitted a /\
                 can_begin a p)
      then ((true, [p; completed a]),
            (begun a p) <| phase := AppleAgxPreemptionNotificationClaimed |>)
      else refuse
  | Abort p =>
      if decide ((phase a = AppleAgxPreemptionWaitCurrentBoundary \/
                  phase a = AppleAgxPreemptionReadyToNotify) /\ preemption a = p)
      then accept ((thawed a) <| resubmittable := [] |>)
      else refuse
  | Reset n e =>
      if decide (engine_ok n e)
      then ((true, [if decide (active a = 0) then completed a else active a]),
            (thawed a) <| resubmittable := survivors a |> <| pending := [] |>
                       <| active := 0 |>)
      else refuse
  end.

(** ** Refinement *)

Lemma remove_first_at f l i :
  first_at l f i -> remove_first f l = delete (Z.to_nat i) l.
Proof.
  unfold first_at, arr_get, zlen. intros (Hi & Hf & Hj).
  assert (exists n, i = Z.of_nat n) as [n ->] by (exists (Z.to_nat i); lia).
  rewrite Nat2Z.id in *. revert l Hi Hf Hj.
  induction n as [|n IH]; intros [|g l] Hi Hf Hj; simpl in *; try lia.
  - by rewrite decide_True.
  - rewrite decide_False.
    2: { specialize (Hj 0 ltac:(lia)). done. }
    f_equal. apply IH; [lia|done|]. intros j ?. specialize (Hj (j + 1) ltac:(lia)).
    by replace (Z.to_nat (j + 1)) with (S (Z.to_nat j)) in Hj by lia.
Qed.

Lemma at_or_after_spec c r :
  AppleAgxSchedulerFenceAtOrAfter c r = true <-> at_or_after c r.
Proof.
  unfold AppleAgxSchedulerFenceAtOrAfter, at_or_after, after. guards.
  change AppleAgxSchedulerFenceAfter with (serial_after 32). done.
Qed.

Lemma may_begin_abs s n e p c x :
  may_begin s n e p c x <->
  engine_ok n e /\ c = submitted (abs s) /\ x = active (abs s) /\ can_begin (abs s) p.
Proof.
  unfold may_begin, can_begin. simpl. rewrite !at_or_after_spec. unfold after.
  destruct (decide (x = 0)); intuition congruence.
Qed.

Lemma may_finish_abs s n e f :
  may_complete s n e f /\ ActiveFence s = f <-> engine_ok n e /\ can_finish (abs s) f.
Proof.
  unfold may_complete, can_finish, after. simpl.
  destruct (decide (PreemptionPhase s = AppleAgxPreemptionWaitCurrentBoundary));
    intuition congruence.
Qed.

Lemma abs_begin s p :
  wf s -> abs (begin s p (LastSubmittedFence s) (ActiveFence s)) = begun (abs s) p.
Proof.
  intros W. unfold abs. rewrite preempted_begin by done. unfold begun. simpl.
  destruct (Z.eqb_spec (ActiveFence s) 0); case_decide; done.
Qed.

(** The commuting square of one entry point. *)
Definition square (o : op) (s : APPLE_AGX_SCHEDULER) : Prop :=
  spec_run o (abs s) = ((run o s).1, abs (run o s).2).

(** Splits a square into the accepted and the refused call. *)
Ltac accepted := rewrite decide_True by done; unfold keep; cbn [default fst snd].
Ltac refused := rewrite decide_False by done; done.
(** Splits on the guard of the code, which is boolean. *)
Ltac code_guard G :=
  match goal with
  | |- context [match ?c with true => _ | false => _ end] =>
      lazymatch c with
      | context [_ || _] => destruct c eqn:G
      | negb _ => destruct c eqn:G
      end
  end; guards; c_simpl.
Ltac call c := let E := fresh "E" in destruct c as [? ?] eqn:E.

Lemma square_queue s n e f : wf s -> square (Queue n e f) s.
Proof.
  intros W. unfold square. cbn [run spec_run].
  call (AppleAgxSchedulerQueueFence (Some s) n e f).
  apply queue_fence_cases in E as [(Hm & -> & ->)|(Hm & -> & ->)]; [..|done].
  - accepted. destruct Hm as (_ & _ & Hc & _). rewrite zlen_queue in Hc by apply W.
    pose proof (queue_push s f W Hc) as Hq. f_equal. unfold abs. simpl in *.
    unfold queue in *. simpl in *. by rewrite Hq.
  - refused.
Qed.

Lemma may_resubmit_abs s n e f :
  may_resubmit s n e f <->
  engine_ok n e /\ f <> 0 /\ zlen (pending (abs s)) < CAP /\ admitting (abs s) /\
  after f (completed (abs s)) /\ (active (abs s) = 0 \/ after f (active (abs s))) /\
  after_tail (abs s) f /\ f ∈ resubmittable (abs s).
Proof.
  unfold may_resubmit, after_tail, after, admits, admitting. simpl.
  assert ((forall t, last (queue s) = Some t -> serial_after 32 f t = true) <->
          match last (queue s) with None => True | Some t => serial_after 32 f t = true end)
    as ->.
  { destruct (last (queue s)); naive_solver. }
  destruct (decide (ActiveFence s = 0)); intuition congruence.
Qed.

Lemma square_resubmit s n e f : wf s -> square (Resubmit n e f) s.
Proof.
  intros W. unfold square. cbn [run spec_run].
  call (AppleAgxSchedulerQueueResubmittedPagingFence (Some s) n e f).
  apply resubmit_cases in E as
    [(Hm & -> & i & Hat & Hi & ->)|(Hm & -> & ->)]; [..|done]; rewrite may_resubmit_abs in Hm.
  - accepted. destruct Hm as (_ & _ & Hc & _). simpl in Hc.
    rewrite zlen_queue in Hc by apply W. pose proof (queue_push s f W Hc) as Hq.
    pose proof (preempted_drop s i W Hi) as Hp. f_equal. unfold abs. simpl in *.
    rewrite (remove_first_at f (preempted s) i Hat).
    rewrite <- Hp, <- Hq. done.
  - refused.
Qed.

Lemma square_activate s n e f : wf s -> square (Activate n e f) s.
Proof.
  intros W. unfold square. cbn [run spec_run].
  call (AppleAgxSchedulerActivateFence (Some s) n e f).
  apply activate_cases in E as [(Hm & -> & ->)|(Hm & -> & ->)]; [..|done].
  - accepted. destruct Hm as (_ & Hh & _). apply queue_head in Hh as [Hc _]; [|done].
    pose proof (wf_count s W). f_equal. unfold abs. simpl.
    rewrite (queue_pop s W) by lia. done.
  - refused.
Qed.

Lemma square_complete s n e f : wf s -> square (CompleteActive n e f) s.
Proof.
  intros W. unfold square. cbn [run spec_run].
  call (AppleAgxSchedulerCompleteActiveFence (Some s) n e f).
  apply complete_active_cases in E as [(Hm & Ha & -> & ->)|(Hm & -> & ->)].
  - apply (conj Hm), may_finish_abs in Ha. accepted. done.
  - rewrite may_finish_abs in Hm. refused.
Qed.

Lemma square_begin s n e p c x : wf s -> square (Begin n e p c x) s.
Proof.
  intros W. unfold square. cbn [run spec_run].
  call (AppleAgxSchedulerBeginBoundaryPreemption (Some s) n e p c x).
  apply begin_cases in E as [(Hm & -> & ->)|(Hm & -> & ->)]; [..|done];
    rewrite may_begin_abs in Hm.
  - accepted. destruct Hm as (_ & -> & -> & _). by rewrite <- abs_begin.
  - refused.
Qed.

Lemma square_observe s n e f : wf s -> square (Observe n e f) s.
Proof.
  intros W. unfold square. cbn [run spec_run].
  unfold AppleAgxSchedulerObserveBoundaryCompletion. rewrite validate_engine_spec.
  code_guard G.
  - rewrite decide_False; [done|]. simpl. intuition congruence.
  - rewrite decide_True; [done|]. simpl. intuition congruence.
Qed.

Lemma square_claim s : square Claim s.
Proof.
  unfold square. simpl. code_guard G.
  - by rewrite decide_False.
  - rewrite decide_True; [done|]. tauto.
Qed.

Lemma square_commit s p : square (Commit p) s.
Proof.
  unfold square. simpl. code_guard G.
  - rewrite decide_False; [done|]. intuition congruence.
  - rewrite decide_True; [done|]. intuition congruence.
Qed.

Lemma square_begin_now s n e p : wf s -> square (BeginNow n e p) s.
Proof.
  intros W. unfold square. cbn [run spec_run].
  call (AppleAgxSchedulerBeginPreemption (Some s) n e p (Some no_preemption)).
  match goal with H : _ = (?q, _) |- _ => destruct q as [? ?] end.
  apply begin_now_cases in E as [(Hm & -> & -> & ->)|(Hm & -> & -> & ->)]; [..|done].
  - pose proof Hm as (_ & _ & _ & Hl & Ha & _). apply may_begin_abs in Hm as (? & _ & _ & ?).
    rewrite decide_True by (simpl; intuition congruence). unfold keep.
    rewrite Hl, Ha. cbn [default fst snd]. f_equal; [simpl; congruence|].
    rewrite <- abs_begin by done. done.
  - rewrite decide_False; [done|]. rewrite may_begin_abs in Hm. simpl.
    intros (? & ? & ? & ?). apply Hm. simpl. intuition congruence.
Qed.

Lemma square_abort s p : wf s -> square (Abort p) s.
Proof.
  intros W. unfold square. simpl. rewrite (wf_pending s W).
  code_guard G.
  - rewrite decide_False; [done|]. destruct (PreemptionPhase s); intuition congruence.
  - rewrite decide_True; [done|]. destruct (PreemptionPhase s); intuition congruence.
Qed.

Lemma square_reset s n e : wf s -> square (Reset n e) s.
Proof.
  intros W. unfold square. cbn [run spec_run].
  call (AppleAgxSchedulerResetEngine (Some s) n e (Some 0)).
  match goal with H : _ = (?q, _) |- _ => destruct q as [? ?] end.
  apply reset_cases in E as
    [(Hn & _ & -> & -> & s' & -> & _ & _ & Hp & Heq)|(Hn & -> & -> & ->)]; [..|done].
  - accepted. f_equal. change (survivors (abs s)) with (reset_survivors s).
    rewrite <- Hp. symmetry. etransitivity; [rewrite Heq at 1; reflexivity|]. done.
  - rewrite decide_False; [done|]. intros ?. by apply Hn.
Qed.

Lemma run_square o s : wf s -> square o s.
Proof.
  intros W. destruct o; auto using square_queue, square_resubmit, square_activate,
    square_complete, square_begin, square_observe, square_claim, square_commit,
    square_begin_now, square_abort, square_reset.
Qed.

(** ** A client that numbers its fences serially *)

(** The words a call passes are machine words. *)
Definition op_words (o : op) : Prop :=
  match o with
  | Queue _ _ f | Resubmit _ _ f | Activate _ _ f | CompleteActive _ _ f
  | Observe _ _ f | Begin _ _ f _ _ | BeginNow _ _ f => is_u32 f
  | Claim | Commit _ | Abort _ | Reset _ _ => True
  end.

(** New fences stay within half the fence space of the completed one, and only
    fences already submitted are resubmitted. *)
Definition serial_client (o : op) (a : spec) : Prop :=
  match o with
  | Queue _ _ f => in_window 32 (completed a) f
  | Resubmit _ _ f => at_or_after (submitted a) f
  | _ => True
  end.

Definition line (a : spec) : list Z :=
  (if decide (active a = 0) then [] else [active a]) ++ pending a.

Record ordered (a : spec) : Prop := {
  ord_completed : is_u32 (completed a);
  ord_submitted : in_window 32 (completed a) (submitted a);
  ord_line : Forall (fun f => in_window 32 (completed a) f /\ after f (completed a) /\
                              at_or_after (submitted a) f) (line a);
  ord_sorted : StronglySorted (fun f g => after g f) (line a);
}.

Lemma w32 : 0 < 32. Proof. done. Qed.

(** A fence behind another in the line is after it. *)
Lemma after_line a f :
  in_window 32 (completed a) f -> ordered a ->
  after_tail a f -> (active a = 0 \/ after f (active a)) ->
  Forall (after f) (line a).
Proof.
  intros Hf O Ht Ha. pose proof (ord_line a O) as Hl. pose proof (ord_sorted a O) as Hs.
  unfold line in *. apply Forall_app. split.
  { case_decide; [done|]. constructor; [|done]. tauto. }
  apply Forall_app in Hl as [_ Hl].
  unfold after_tail in Ht. destruct (last (pending a)) as [t|] eqn:E.
  2: { apply last_None in E. by rewrite E. }
  apply last_Some in E as [l E]. rewrite E in Hl, Hs |- *.
  apply Forall_app in Hl as [Hl Hlt]. apply Forall_singleton in Hlt as [Hwt _].
  apply Forall_app. split; [|by constructor].
  apply Forall_forall. intros g Hg. rewrite Forall_forall in Hl.
  destruct (Hl g Hg) as [Hwg _].
  apply (serial_after_trans 32 w32 (completed a) f t g); try done.
  rewrite app_assoc in Hs. apply StronglySorted_app in Hs as (H & _ & _).
  apply (H g t); [apply elem_of_app; by right|by constructor].
Qed.

Lemma sorted_snoc l f :
  StronglySorted (fun f g => after g f) l -> Forall (after f) l ->
  StronglySorted (fun f g => after g f) (l ++ [f]).
Proof.
  intros Hs Hf. apply StronglySorted_app. split_and!; [|done|by repeat constructor].
  intros x y Hx Hy. apply list_elem_of_singleton in Hy as ->.
  rewrite Forall_forall in Hf. by apply Hf.
Qed.

Lemma ordered_push a f last :
  ordered a -> in_window 32 (completed a) f -> after f (completed a) ->
  Forall (after f) (line a) -> at_or_after last f ->
  in_window 32 (completed a) last ->
  (last = submitted a \/ last = f /\ after f (submitted a)) ->
  ordered (a <| pending := pending a ++ [f] |> <| submitted := last |>).
Proof.
  intros O Hw Hc Hl Hlast Hwl Hor. split; simpl; [apply O|done|..].
  - unfold line. simpl. rewrite app_assoc. apply Forall_app. split; [|by constructor].
    apply Forall_forall. intros g Hg.
    pose proof (ord_line a O) as HO. rewrite Forall_forall in HO.
    destruct (HO g Hg) as (? & ? & ?). split_and!; try done.
    destruct Hor as [->|[-> _]]; [done|]. right.
    rewrite Forall_forall in Hl. by apply Hl.
  - unfold line. simpl. rewrite app_assoc. apply sorted_snoc; [apply O|done].
Qed.

(** What the line is in each state the operations produce. *)
Lemma ordered_shorter a a' :
  ordered a -> completed a' = completed a -> submitted a' = submitted a ->
  line a' `sublist_of` line a -> ordered a'.
Proof.
  intros O Hc Hs Hl. split; rewrite ?Hc, ?Hs; [apply O..| |].
  - eapply Forall_sublist_of; [exact Hl|apply O].
  - eapply sorted_sublist; [exact Hl|apply O].
Qed.

Lemma ordered_complete a f :
  ordered a -> active a = f -> f <> 0 ->
  ordered (a <| completed := f |> <| active := 0 |>).
Proof.
  intros O Ha Hf. pose proof (ord_line a O) as Hl. pose proof (ord_sorted a O) as Hs.
  unfold line in Hl, Hs. rewrite decide_False in Hl, Hs by congruence.
  rewrite Ha in Hl, Hs. simpl in Hl, Hs.
  apply Forall_cons in Hl as [(Hwf & _ & Hsub) Hl].
  apply StronglySorted_cons in Hs as [Hfirst Hs].
  split; unfold line; simpl; [apply Hwf| | |done].
  - apply (in_window_advance 32 w32 (completed a)); [done|apply O|done].
  - rewrite Forall_forall in Hl, Hfirst |- *. intros g Hg.
    destruct (Hl g Hg) as (Hw & _ & ?). specialize (Hfirst g Hg).
    split_and!; [|done|done].
    apply (in_window_advance 32 w32 (completed a)); auto.
Qed.

Lemma ordered_activate a f :
  ordered a -> head (pending a) = Some f -> active a = 0 -> f <> 0 ->
  ordered (a <| active := f |> <| pending := tail (pending a) |>).
Proof.
  intros O Hh Ha Hf. apply (ordered_shorter a); [done..|].
  unfold line. simpl. rewrite decide_False, decide_True by done.
  destruct (pending a); simplify_eq/=. done.
Qed.

Lemma ordered_quiet a l a' :
  ordered a -> a' = a <| pending := l |> <| active := active a' |>
    <| resubmittable := resubmittable a' |> <| phase := phase a' |>
    <| preemption := preemption a' |> <| boundary := boundary a' |>
    <| reported := reported a' |> ->
  l = [] \/ l = pending a -> active a' = 0 \/ active a' = active a -> ordered a'.
Proof.
  intros O Ha Hl Hact. apply (ordered_shorter a); [done|by rewrite Ha..|].
  rewrite Ha. unfold line. simpl. apply sublist_app.
  - destruct Hact as [->| ->]; [apply sublist_nil_l|done].
  - destruct Hl as [->| ->]; [apply sublist_nil_l|done].
Qed.

Lemma window_at_or_after base f :
  is_u32 base -> in_window 32 base f -> at_or_after f base.
Proof.
  intros Hb Hf. destruct (decide (f = base)) as [|Hne]; [by left|right].
  apply (serial_after_window 32 w32 base); [done|by apply in_window_base|].
  rewrite serial_dist_self. pose proof (serial_dist_bound 32 w32 base f).
  destruct (decide (serial_dist 32 base f = 0)) as [E|]; [|lia].
  rewrite <- (serial_dist_self 32 base) in E.
  apply (serial_dist_inj 32 w32) in E; [done|apply Hf|done].
Qed.

Lemma submitted_at_or_after a : ordered a -> at_or_after (submitted a) (completed a).
Proof. intros O. apply window_at_or_after; apply O. Qed.

Lemma ordered_run o a :
  ordered a -> Forall (fun f => f <> 0) (pending a) ->
  op_words o -> serial_client o a -> ordered (spec_run o a).2.
Proof.
  intros O Hnz Hw Hc. destruct o; cbn [spec_run op_words serial_client] in *;
    case_decide as D; try done; cbn [snd]; destruct_and? D.
  - assert (Forall (fun g => at_or_after (submitted a) g) (line a)) as Hle.
    { eapply Forall_impl; [apply O|]. simpl. tauto. }
    assert (forall g, in_window 32 (completed a) g -> at_or_after (submitted a) g ->
              after f g) as Hafter.
    { intros g Hg [<-|?]; [done|].
      apply (serial_after_trans 32 w32 (completed a) f (submitted a) g); try done.
      apply O. }
    apply ordered_push; try done.
    + apply Hafter; [by apply in_window_base, O|].
      by apply submitted_at_or_after.
    + apply Forall_forall. intros g Hg. pose proof (ord_line a O) as HO.
      rewrite Forall_forall in HO, Hle. apply Hafter; [by apply HO|by apply Hle].
    + by left.
    + by right.
  - change (ordered ((a <| pending := pending a ++ [f] |> <| submitted := submitted a |>)
      <| resubmittable := remove_first f (resubmittable a) |>)).
    assert (in_window 32 (completed a) f) as Hwf by by apply serial_after_in_window.
    assert (ordered (a <| pending := pending a ++ [f] |> <| submitted := submitted a |>))
      as O'.
    { apply ordered_push; try done; [|apply O|by left]. by apply after_line. }
    split; apply O'.
  - apply ordered_activate; try done. destruct (pending a); simplify_eq/=.
    by inversion Hnz.
  - unfold can_finish in *. destruct_and?. by apply ordered_complete.
  - apply (ordered_quiet a []); auto.
  - apply (ordered_quiet a (pending a)); auto.
  - apply (ordered_quiet a (pending a)); auto.
  - apply (ordered_quiet a (pending a)); auto.
  - apply (ordered_quiet a []); auto.
  - apply (ordered_quiet a (pending a)); auto.
  - apply (ordered_quiet a []); auto.
Qed.

(** ** The code as a component *)

#[export] Program Instance scheduler_component : Component APPLE_AGX_SCHEDULER := {
  comp_init := initial;
  comp_step := step;
  comp_inv := wf;
}.
Next Obligation. apply wf_initial. Qed.
Next Obligation. apply wf_step. Qed.

(** Each entry point, on a scheduler, is a step. *)
Lemma run_step o s : wf s -> op_words o -> step s (run o s).2.
Proof.
  intros W Hw. destruct o as [n e f|n e f|n e f|n e f|n e p c x|n e f| |p|n e p|p|n e];
    cbn [run op_words] in *.
  - call (AppleAgxSchedulerQueueFence (Some s) n e f). pose proof E as E'.
    apply queue_fence_cases in E'; [|done].
    destruct E' as [(_ & _ & ->)|(_ & _ & ->)]; (eapply step_queue; eassumption).
  - call (AppleAgxSchedulerQueueResubmittedPagingFence (Some s) n e f). pose proof E as E'.
    apply resubmit_cases in E'; [|done].
    destruct E' as [(_ & _ & ? & _ & _ & ->)|(_ & _ & ->)]; (eapply step_resubmit; eassumption).
  - call (AppleAgxSchedulerActivateFence (Some s) n e f). pose proof E as E'.
    apply activate_cases in E'; [|done].
    destruct E' as [(_ & _ & ->)|(_ & _ & ->)]; (eapply step_activate; eassumption).
  - call (AppleAgxSchedulerCompleteActiveFence (Some s) n e f). pose proof E as E'.
    apply complete_active_cases in E' as [(_ & _ & _ & ->)|(_ & _ & ->)]; (eapply step_complete_active; eassumption).
  - call (AppleAgxSchedulerBeginBoundaryPreemption (Some s) n e p c x). pose proof E as E'.
    apply begin_cases in E'; [|done].
    destruct E' as [(_ & _ & ->)|(_ & _ & ->)]; (eapply step_begin; eassumption).
  - call (AppleAgxSchedulerObserveBoundaryCompletion (Some s) n e f). pose proof E as E'.
    unfold AppleAgxSchedulerObserveBoundaryCompletion in E'.
    enough (exists x, o = Some x) as [x ->] by (eapply step_observe; eassumption).
    clear E; c_cases; eauto.
  - call (AppleAgxSchedulerClaimBoundaryPreemption (Some s) (Some no_preemption)).
    match goal with H : _ = (?q, _) |- _ => destruct q as [? sch] end. pose proof E as E'.
    unfold AppleAgxSchedulerClaimBoundaryPreemption in E'.
    enough (exists x, sch = Some x) as [x ->] by (eapply step_claim; eassumption).
    clear E; c_cases; eauto.
  - call (AppleAgxSchedulerCommitBoundaryPreemption (Some s) p). pose proof E as E'.
    unfold AppleAgxSchedulerCommitBoundaryPreemption in E'.
    enough (exists x, o = Some x) as [x ->] by (eapply step_commit; eassumption).
    clear E; c_cases; eauto.
  - call (AppleAgxSchedulerBeginPreemption (Some s) n e p (Some no_preemption)).
    match goal with H : _ = (?q, _) |- _ => destruct q as [? ?] end. pose proof E as E'.
    apply begin_now_cases in E'; [|done].
    destruct E' as [(_ & _ & -> & _)|(_ & _ & -> & _)]; (eapply step_begin_now; eassumption).
  - call (AppleAgxSchedulerAbortPreemption (Some s) p). pose proof E as E'.
    unfold AppleAgxSchedulerAbortPreemption in E'.
    enough (exists x, o = Some x) as [x ->] by (eapply step_abort; eassumption).
    clear E; c_cases; eauto.
  - call (AppleAgxSchedulerResetEngine (Some s) n e (Some 0)).
    match goal with H : _ = (?q, _) |- _ => destruct q as [? ?] end. pose proof E as E'.
    apply reset_cases in E'; [|done]; destruct E' as [(_ & _ & _ & _ & ? & -> & _)|(_ & _ & -> & _)];
      (eapply step_reset; eassumption).
Qed.

(** States a serially numbering client can reach. *)
Inductive client : APPLE_AGX_SCHEDULER -> Prop :=
  | client_init s : initial s -> client s
  | client_call o s :
      client s -> op_words o -> serial_client o (abs s) -> client (run o s).2.

Lemma ordered_initial s : initial s -> ordered (abs s).
Proof.
  intros (raw & _ & [= <-]).
  split; unfold line, queue; simpl; try done; by constructor.
Qed.

Lemma pending_nonzero s : wf s -> Forall (fun f => f <> 0) (pending (abs s)).
Proof. intros W. eapply Forall_impl; [apply W|]. by intros f [_ ?]. Qed.

Lemma client_ok s : client s -> wf s /\ ordered (abs s).
Proof.
  induction 1 as [s Hi|o s Hc [W O] Hw Hs].
  - split; [by apply wf_initial|by apply ordered_initial].
  - split; [eapply wf_step; [done|by apply run_step]|].
    replace (abs (run o s).2) with (spec_run o (abs s)).2 by by rewrite run_square.
    apply ordered_run; try done. by apply pending_nonzero.
Qed.

(** Runs a sequence of calls and collects what they returned. *)
Fixpoint run_all (os : list op) (s : APPLE_AGX_SCHEDULER)
    : list result * APPLE_AGX_SCHEDULER :=
  match os with
  | [] => ([], s)
  | o :: os =>
      let '(r, s') := run o s in
      let '(rs, s'') := run_all os s' in (r :: rs, s'')
  end.

#[export] Instance op_words_dec o : Decision (op_words o).
Proof. destruct o; apply _. Defined.
#[export] Instance serial_client_dec o a : Decision (serial_client o a).
Proof. destruct o; apply _. Defined.

(** Whether a sequence of calls is one the client may make. *)
Fixpoint client_calls_ok (os : list op) (s : APPLE_AGX_SCHEDULER) : bool :=
  match os with
  | [] => true
  | o :: os =>
      bool_decide (op_words o) && bool_decide (serial_client o (abs s)) &&
      client_calls_ok os (run o s).2
  end.

Lemma client_run_all os s :
  client s -> client_calls_ok os s = true -> client (run_all os s).2.
Proof.
  revert s. induction os as [|o os IH]; intros s Hs Hok; [done|]. simpl in *.
  apply andb_true_iff in Hok as [Hok Hos]. guards.
  specialize (IH _ (client_call o s Hs ltac:(done) ltac:(done)) Hos).
  destruct (run o s) as [r s']. simpl in *. by destruct (run_all os s').
Qed.

Lemma client_reachable s : client s -> reachable s.
Proof.
  induction 1 as [s Hi|o s Hc IH Hw Hs]; [by exists s; split; [|apply rtc_refl]|].
  eapply reachable_step; [done|]. apply run_step; [by apply client_ok|done].
Qed.

Fixpoint spec_all (os : list op) (a : spec) : list result * spec :=
  match os with
  | [] => ([], a)
  | o :: os =>
      let '(r, a') := spec_run o a in
      let '(rs, a'') := spec_all os a' in (r :: rs, a'')
  end.

Lemma run_all_square os s :
  wf s -> Forall op_words os ->
  spec_all os (abs s) = ((run_all os s).1, abs (run_all os s).2).
Proof.
  intros W Hw. revert s W. induction Hw as [|o os Ho Hos IH]; intros s W; [done|].
  simpl. rewrite (run_square o s W).
  pose proof (run_step o s W Ho) as Hst. apply wf_step in Hst; [|done].
  destruct (run o s) as [r s']. simpl in *. rewrite (IH s' Hst).
  by destruct (run_all os s').
Qed.

(** ** What may change the active and the completed fence *)

Ltac by_cases H lem :=
  apply lem in H; [|done..]; destruct_or? H; destruct_and? H; simplify_eq/=.

Lemma active_changes s s' :
  wf s -> step s s' -> ActiveFence s' <> ActiveFence s ->
  ActiveFence s' = 0 \/
  (PreemptionPhase s = AppleAgxPreemptionIdle /\ ActiveFence s = 0 /\
   queue s = ActiveFence s' :: queue s').
Proof.
  intros W [c n a r c' H|c r c' H|n e f r Hf H|n e f r Hf H|n e f r Hf H|n e f r Hf H
    |n e f r Hf H|n e p c a r Hp H|n e f r Hf H|p r p' H|f r H|n e f p r p' Hf H|f r H
    |n e o r o' H] Hne.
  - unfold AppleAgxSchedulerCreateContext in H. c_cases.
  - unfold AppleAgxSchedulerDestroyContext in H. c_cases.
  - by_cases H complete_cases; done.
  - by_cases H queue_fence_cases; done.
  - apply resubmit_cases in H as [(_ & _ & i & _ & _ & [= ->])|(_ & _ & [= ->])]; done.
  - apply activate_cases in H as [((_ & Hh & ? & ?) & _ & [= ->])|(_ & _ & [= ->])];
      [|done..]. right. split_and!; [done..|]. simpl.
    apply queue_head in Hh as [Hc <-]; [|done]. pose proof (wf_count s W).
    rewrite (queue_pop s W) at 1 by lia. done.
  - apply complete_active_cases in H as [(_ & _ & _ & [= ->])|(_ & _ & [= ->])]; [by left|done].
  - by_cases H begin_cases; done.
  - unfold AppleAgxSchedulerObserveBoundaryCompletion in H. c_cases.
  - unfold AppleAgxSchedulerClaimBoundaryPreemption in H. c_cases.
  - unfold AppleAgxSchedulerCommitBoundaryPreemption in H. c_cases.
  - by_cases H begin_now_cases; done.
  - unfold AppleAgxSchedulerAbortPreemption in H. c_cases.
  - apply reset_cases in H as [(_ & _ & _ & _ & ? & [= <-] & _ & _ & _ & ->)|(_ & _ & [= ->] & _)];
      [by left|done|done].
Qed.

Lemma completed_changes s s' :
  wf s -> step s s' ->
  CompletedFence s' = CompletedFence s \/
  (after (CompletedFence s') (CompletedFence s) /\
   (PreemptionPhase s = AppleAgxPreemptionWaitCurrentBoundary ->
    CompletedFence s' = PreemptionActiveFence s)).
Proof.
  intros W [c n a r c' H|c r c' H|n e f r Hf H|n e f r Hf H|n e f r Hf H|n e f r Hf H
    |n e f r Hf H|n e p c a r Hp H|n e f r Hf H|p r p' H|f r H|n e f p r p' Hf H|f r H
    |n e o r o' H].
  - left. unfold AppleAgxSchedulerCreateContext in H. c_cases.
  - left. unfold AppleAgxSchedulerDestroyContext in H. c_cases.
  - apply complete_cases in H as [((_ & _ & ? & ?) & _ & [= ->])|(_ & _ & [= ->])];
      [by right|by left].
  - left. by_cases H queue_fence_cases; done.
  - left. apply resubmit_cases in H as [(_ & _ & i & _ & _ & [= ->])|(_ & _ & [= ->])]; done.
  - left. by_cases H activate_cases; done.
  - apply complete_active_cases in H as [((_ & _ & ? & ?) & _ & _ & [= ->])|(_ & _ & [= ->])];
      [by right|by left].
  - left. by_cases H begin_cases; done.
  - left. unfold AppleAgxSchedulerObserveBoundaryCompletion in H. c_cases.
  - left. unfold AppleAgxSchedulerClaimBoundaryPreemption in H. c_cases.
  - left. unfold AppleAgxSchedulerCommitBoundaryPreemption in H. c_cases.
  - left. by_cases H begin_now_cases; done.
  - left. unfold AppleAgxSchedulerAbortPreemption in H. c_cases.
  - left. apply reset_cases in H as [(_ & _ & _ & _ & ? & [= <-] & _ & _ & _ & ->)|(_ & _ & [= ->] & _)];
      done.
Qed.

(** ** Preemption and resubmission on the specification *)

Definition drained (a : spec) : Z := if decide (active a = 0) then completed a else active a.

(** The calls that take the engine through one preemption: with work running,
    the boundary is its completion. *)
Definition preempt_calls (a : spec) (p : Z) : list op :=
  [Begin 0 0 p (submitted a) (active a)] ++
  (if decide (active a = 0) then []
   else [CompleteActive 0 0 (active a); Observe 0 0 (active a)]) ++
  [Claim; Commit p].

Definition preempt_results (a : spec) (p : Z) : list result :=
  [(true, [])] ++
  (if decide (active a = 0) then [] else [(true, []); (true, [])]) ++
  [(true, [p; drained a]); (true, [])].

Definition after_preemption (a : spec) : spec :=
  (thawed a) <| completed := drained a |> <| active := 0 |>
    <| resubmittable := pending a |> <| pending := [] |>.

Lemma engine_00 : engine_ok 0 0.
Proof. done. Qed.

Lemma ordered_can_begin a p :
  ordered a -> phase a = AppleAgxPreemptionIdle -> p <> 0 -> can_begin a p.
Proof.
  intros O Hi Hp. split_and!; try done; [by apply submitted_at_or_after|].
  destruct (decide (active a = 0)); [by left|right].
  pose proof (ord_line a O) as Hl. unfold line in Hl. rewrite decide_False in Hl by done.
  apply Forall_cons in Hl. tauto.
Qed.

Lemma spec_preempt a p :
  ordered a -> phase a = AppleAgxPreemptionIdle -> p <> 0 ->
  spec_all (preempt_calls a p) a = (preempt_results a p, after_preemption a).
Proof.
  intros O Hi Hp. pose proof (ordered_can_begin a p O Hi Hp) as Hb.
  pose proof engine_00. unfold preempt_calls, preempt_results, after_preemption, drained.
  destruct (decide (active a = 0)) as [E|E]; cbn [app spec_all spec_run].
  - rewrite (decide_True (P := engine_ok 0 0 /\ _)) by done.
    unfold begun. simpl. rewrite (decide_True (P := active a = 0)) by done. simpl.
    rewrite (decide_True (P := _ /\ _)) by done. unfold thawed. simpl. by rewrite E.
  - destruct Hb as (_ & _ & _ & [?|[Hc Hs]]); [done|].
    rewrite (decide_True (P := engine_ok 0 0 /\ submitted a = _ /\ _))
      by (split_and!; auto using ordered_can_begin).
    unfold begun, can_finish. simpl. rewrite (decide_False (P := active a = 0)) by done.
    simpl. rewrite decide_True by (split_and!; auto). simpl.
    rewrite decide_True by (split_and!; auto). simpl.
    by rewrite decide_True by (split_and!; auto).
Qed.


Lemma ordered_can_finish s :
  wf s -> ordered (abs s) -> ActiveFence s <> 0 -> can_finish (abs s) (ActiveFence s).
Proof.
  intros W O Ha. pose proof (ord_line _ O) as Hl. unfold line in Hl. simpl in Hl.
  rewrite decide_False in Hl by done. apply Forall_cons in Hl as [(_ & ? & _) _].
  split_and!; try done. simpl.
  destruct (decide (PreemptionPhase s = AppleAgxPreemptionWaitCurrentBoundary)) as [E|];
    [right|by left].
  destruct (wf_wait s W E) as [_ [?|[? _]]]; congruence.
Qed.

Lemma preempt_calls_words s p :
  wf s -> is_u32 p -> Forall op_words (preempt_calls (abs s) p).
Proof.
  intros W Hp. unfold preempt_calls. pose proof (wf_active s W).
  case_decide; simpl; repeat constructor; done || apply W || apply Hp.
Qed.




(** ** Properties *)

(** A concrete scheduler for the witnesses: zeroed storage, initialised. *)
Definition raw_storage : APPLE_AGX_SCHEDULER :=
  Build_APPLE_AGX_SCHEDULER 0 0 0 0 0 (replicate 64 0) (replicate 64 0) 0 0 0 0 0 0 0
    false false AppleAgxPreemptionIdle.
Definition fresh : APPLE_AGX_SCHEDULER :=
  keep raw_storage (AppleAgxSchedulerInitialize (Some raw_storage)).

Lemma fresh_initial : initial fresh.
Proof. by exists raw_storage. Qed.
Lemma fresh_reachable : reachable fresh.
Proof. exists fresh. split; [apply fresh_initial|apply rtc_refl]. Qed.

(** Fences 1 and 2 queued; then 1 running. *)
Definition two_queued : APPLE_AGX_SCHEDULER :=
  (run_all [Queue 0 0 1; Queue 0 0 2] fresh).2.
Definition busy : APPLE_AGX_SCHEDULER := (run (Activate 0 0 1) two_queued).2.

Lemma two_queued_client : client two_queued.
Proof. apply client_run_all; [apply client_init, fresh_initial|by vm_compute]. Qed.

Lemma busy_client : client busy.
Proof.
  apply (client_call (Activate 0 0 1)); [apply two_queued_client|split; done|done].
Qed.

(** C18: in every state the scheduler can reach from initialised storage, under
    any calls in any order, indices and counts are in range, the cached QueuedFence
    is the head of the ring (0 when it is empty), every queued or resubmittable
    fence is a nonzero 32-bit word, the pending flag agrees with the phase, nothing
    is queued while admission is frozen, and the boundary being waited for is the
    running fence or has just completed. *)
Theorem scheduler_invariant s : reachable s -> wf s.
Proof. intros Hr. exact (reachable_inv s Hr). Qed.

Lemma scheduler_invariant_witness : wf fresh.
Proof. exact (scheduler_invariant fresh fresh_reachable). Defined.

(** The active fence only changes by completing (to 0) or, outside any
    preemption and with the engine idle, to the oldest queued fence. *)
Theorem activation_is_fifo_and_frozen s s' :
  reachable s -> step s s' -> ActiveFence s' <> ActiveFence s ->
  ActiveFence s' = 0 \/
  (PreemptionPhase s = AppleAgxPreemptionIdle /\ ActiveFence s = 0 /\
   queue s = ActiveFence s' :: queue s').
Proof.
  intros Hr Hs Hne. apply active_changes; [exact (reachable_inv s Hr)|done..].
Qed.

Lemma activation_is_fifo_and_frozen_witness :
  ActiveFence busy = 0 \/
  (PreemptionPhase two_queued = AppleAgxPreemptionIdle /\ ActiveFence two_queued = 0 /\
   queue two_queued = ActiveFence busy :: queue busy).
Proof.
  apply activation_is_fifo_and_frozen; [apply client_reachable, two_queued_client| |done].
  apply (run_step (Activate 0 0 1)); [apply client_ok, two_queued_client|split; done].
Defined.

(** the completed fence only moves forward in serial order, whatever the
    calls; while a boundary preemption waits it can only move to that boundary. *)
Theorem completed_fence_monotone s s' :
  reachable s -> step s s' ->
  CompletedFence s' = CompletedFence s \/
  (after (CompletedFence s') (CompletedFence s) /\
   (PreemptionPhase s = AppleAgxPreemptionWaitCurrentBoundary ->
    CompletedFence s' = PreemptionActiveFence s)).
Proof.
  intros Hr Hs. apply completed_changes; [exact (reachable_inv s Hr)|done].
Qed.

Lemma completed_fence_monotone_witness :
  let s' := (run (CompleteActive 0 0 1) busy).2 in
  CompletedFence s' = CompletedFence busy \/
  (after (CompletedFence s') (CompletedFence busy) /\
   (PreemptionPhase busy = AppleAgxPreemptionWaitCurrentBoundary ->
    CompletedFence s' = PreemptionActiveFence busy)).
Proof.
  apply completed_fence_monotone; [apply client_reachable, busy_client|].
  apply run_step; [apply client_ok, busy_client|]. split; done.
Defined.

(** for a client that numbers its fences serially, the running fence and the
    queue are strictly increasing, all after the completed fence and at or before
    the last submitted one: work runs in submission order. *)
Theorem client_line_ordered s :
  client s ->
  StronglySorted (fun f g => after g f) (line (abs s)) /\
  Forall (fun f => after f (CompletedFence s) /\ at_or_after (LastSubmittedFence s) f)
    (line (abs s)).
Proof.
  intros Hs. destruct (client_ok s Hs) as [_ O]. split; [apply O|].
  eapply Forall_impl; [apply O|]. simpl. tauto.
Qed.

Lemma client_line_ordered_witness :
  StronglySorted (fun f g => after g f) (line (abs busy)) /\
  Forall (fun f => after f (CompletedFence busy) /\
                   at_or_after (LastSubmittedFence busy) f) (line (abs busy)).
Proof. exact (client_line_ordered busy busy_client). Defined.

(** progress.  Whatever a serially numbering client has done, the completion
    of the running fence is accepted, and with the engine idle outside a preemption
    the oldest queued fence can be started. *)
Theorem client_progress s :
  client s ->
  (ActiveFence s <> 0 ->
   exists s', run (CompleteActive 0 0 (ActiveFence s)) s = ((true, []), s') /\
     ActiveFence s' = 0 /\ CompletedFence s' = ActiveFence s) /\
  (ActiveFence s = 0 -> PreemptionPhase s = AppleAgxPreemptionIdle ->
   forall f q, queue s = f :: q ->
   exists s', run (Activate 0 0 f) s = ((true, []), s') /\
     ActiveFence s' = f /\ queue s' = q).
Proof.
  intros Hs. destruct (client_ok s Hs) as [W O]. split.
  - intros Ha. pose proof (run_square (CompleteActive 0 0 (ActiveFence s)) s W) as Hsq.
    red in Hsq. cbn [spec_run] in Hsq. rewrite decide_True in Hsq.
    2: { split; [apply engine_00|]. by apply ordered_can_finish. }
    destruct (run _ s) as [r s']. simplify_eq/=. exists s'.
    rename select (_ = abs s') into Hab.
    split_and!; [congruence|by apply (f_equal active) in Hab
                |by apply (f_equal completed) in Hab].
  - intros Ha Hi f q Hq. pose proof (run_square (Activate 0 0 f) s W) as Hsq.
    red in Hsq. cbn [spec_run] in Hsq. rewrite decide_True in Hsq.
    2: { split_and!; try done. simpl. by rewrite Hq. }
    destruct (run _ s) as [r s']. simplify_eq/=. exists s'.
    rename select (_ = abs s') into Hab.
    split_and!; [congruence|by apply (f_equal active) in Hab|].
    apply (f_equal pending) in Hab. simpl in Hab. by rewrite <- Hab, Hq.
Qed.

Lemma client_progress_witness :
  exists s', run (CompleteActive 0 0 1) busy = ((true, []), s') /\
    ActiveFence s' = 0 /\ CompletedFence s' = 1.
Proof. apply (client_progress busy busy_client). done. Defined.

(** one whole boundary preemption.  From the idle phase the calls Begin, (the
    completion of the running fence and its observation,) Claim and Commit are all
    accepted; Claim reports the requested preemption fence and the last fence that
    completed; afterwards the phase is Idle again, the engine is idle, and every
    fence that had not started is resubmittable, in order. *)
Theorem preemption_completes s p :
  client s -> PreemptionPhase s = AppleAgxPreemptionIdle -> is_u32 p -> p <> 0 ->
  (run_all (preempt_calls (abs s) p) s).1 = preempt_results (abs s) p /\
  abs (run_all (preempt_calls (abs s) p) s).2 = after_preemption (abs s).
Proof.
  intros Hs Hi Hp Hnz. destruct (client_ok s Hs) as [W O].
  pose proof (run_all_square _ s W (preempt_calls_words s p W Hp)) as Hsq.
  rewrite spec_preempt in Hsq by done. by simplify_eq.
Qed.

Lemma preemption_completes_witness :
  (run_all (preempt_calls (abs busy) 9) busy).1 =
    [(true, []); (true, []); (true, []); (true, [9; 1]); (true, [])] /\
  preempted (run_all (preempt_calls (abs busy) 9) busy).2 = [2].
Proof.
  destruct (preemption_completes busy 9 busy_client) as [H1 H2]; [done..|].
  split; [exact H1|exact (f_equal resubmittable H2)].
Defined.






(** An engine reset keeps every fence that never ran resubmittable.  It
    reports the running fence (or the last completed one) as aborted, empties the
    queue and the engine, ends any preemption, and leaves as resubmittable the
    discarded queue followed by the preempted fences that still come after it, in
    order, as far as the 64 entries reach. *)
Theorem reset_keeps_unstarted_work s :
  reachable s ->
  exists s', run (Reset 0 0) s = ((true, [aborted_fence s]), s') /\
    preempted s' = reset_survivors s /\ queue s' = [] /\ ActiveFence s' = 0 /\
    CompletedFence s' = CompletedFence s /\
    LastSubmittedFence s' = LastSubmittedFence s /\
    PreemptionPhase s' = AppleAgxPreemptionIdle /\
    (exists stale, reset_survivors s = queue s ++ stale /\
                   stale `sublist_of` preempted s).
Proof.
  intros Hr. pose proof (reachable_inv s Hr) as W. cbn [comp_inv] in W.
  pose proof (run_square (Reset 0 0) s W) as Hsq. red in Hsq. cbn [spec_run] in Hsq.
  rewrite decide_True in Hsq by apply engine_00.
  destruct (run (Reset 0 0) s) as [r s']. simplify_eq/=. exists s'.
  rename select (_ = abs s') into Hab.
  split_and!; [done|by apply (f_equal resubmittable) in Hab
    |by apply (f_equal pending) in Hab|by apply (f_equal active) in Hab
    |by apply (f_equal completed) in Hab|by apply (f_equal submitted) in Hab
    |by apply (f_equal phase) in Hab|].
  eexists. split; [reflexivity|]. apply keep_after_sublist.
Qed.

Lemma reset_keeps_unstarted_work_witness :
  exists s', run (Reset 0 0) busy = ((true, [1]), s') /\ preempted s' = [2].
Proof.
  destruct (reset_keeps_unstarted_work busy (client_reachable _ busy_client))
    as (s' & H1 & H2 & _).
  exists s'. split; [exact H1|exact H2].
Defined.

End SchedSpec.
