(* ===== verification/SchedulerCalls.v ===== *)
(** * The whole interface of the scheduler against its specification

    [SchedCalls.entry] has every public call of apple_agx_scheduler.h that takes a scheduler:
    the calls of SchedulerSpec.v, CompleteFence and AcknowledgePreemption, the creation and
    destruction of contexts, the calls that were given no place for their result, and the
    queries.  [spec_entry] says what each does to the abstract scheduler and what it returns;
    the code commutes with it from every reachable state. *)

From S2P Require Import Prelude Serial Ring Arrays Scheduler SchedulerSpec.
Import Sched SchedSpec.

Module SchedCalls.

(** ** Entry points *)

Inductive entry :=
  | Call (o : op)
  | CompleteFence (n e f : Z)
  | AcknowledgePreemption (p : Z)
  | CreateContext (c : ptr APPLE_AGX_SCHEDULER_CONTEXT) (n affinity : Z)
  | DestroyContext (c : ptr APPLE_AGX_SCHEDULER_CONTEXT)
  | ClaimNowhere                      (** Claim with a null Preemption *)
  | BeginNowNowhere (n e p : Z)       (** BeginPreemption with a null Preemption *)
  | ResetNowhere (n e : Z)            (** ResetEngine with a null LastAbortedFence *)
  | ValidateEngine (n e : Z)
  | EngineResponsive (n e : Z)
  | CanCompleteFence (n e f : Z)
  | CurrentFence (n e : Z)
  | LastSubmitted (n e : Z)
  | QueuedHead (n e : Z)
  | Running (n e : Z)
  | HasOutstanding (n e : Z)
  | PreemptionPhaseOf
  | DispatchBlocked
  | CutoffFence.

Inductive answer :=
  | Did (r : bool * list Z)
  | Told (b : bool)
  | Fenced (f : Z)
  | InPhase (p : APPLE_AGX_PREEMPTION_PHASE)
  | OfContext (b : bool) (c : ptr APPLE_AGX_SCHEDULER_CONTEXT).

Definition run_entry (x : entry) (s : APPLE_AGX_SCHEDULER) : answer * APPLE_AGX_SCHEDULER :=
  let plain '(r, p) := (Did (r, []), keep s p) in
  let context '(r, p, c) := (OfContext r c, keep s p) in
  match x with
  | Call o => let '(r, s') := run o s in (Did r, s')
  | CompleteFence n e f => plain (AppleAgxSchedulerCompleteFence (Some s) n e f)
  | AcknowledgePreemption p => plain (AppleAgxSchedulerAcknowledgePreemption (Some s) p)
  | CreateContext c n a => context (AppleAgxSchedulerCreateContext (Some s) c n a)
  | DestroyContext c => context (AppleAgxSchedulerDestroyContext (Some s) c)
  | ClaimNowhere => plain (AppleAgxSchedulerClaimBoundaryPreemption (Some s) NULL).1
  | BeginNowNowhere n e p => plain (AppleAgxSchedulerBeginPreemption (Some s) n e p NULL).1
  | ResetNowhere n e => plain (AppleAgxSchedulerResetEngine (Some s) n e NULL).1
  | ValidateEngine n e => (Told (AppleAgxSchedulerValidateEngine (Some s) n e), s)
  | EngineResponsive n e => (Told (AppleAgxSchedulerEngineResponsive (Some s) n e), s)
  | CanCompleteFence n e f => (Told (AppleAgxSchedulerCanCompleteFence (Some s) n e f), s)
  | CurrentFence n e => (Fenced (AppleAgxSchedulerCurrentFence (Some s) n e), s)
  | LastSubmitted n e => (Fenced (AppleAgxSchedulerLastSubmittedFence (Some s) n e), s)
  | QueuedHead n e => (Fenced (AppleAgxSchedulerQueuedFence (Some s) n e), s)
  | Running n e => (Fenced (AppleAgxSchedulerActiveFence (Some s) n e), s)
  | HasOutstanding n e => (Told (AppleAgxSchedulerHasOutstandingFence (Some s) n e), s)
  | PreemptionPhaseOf => (InPhase (AppleAgxSchedulerPreemptionPhase (Some s)), s)
  | DispatchBlocked => (Told (AppleAgxSchedulerDispatchBlocked (Some s)), s)
  | CutoffFence => (Fenced (AppleAgxSchedulerPreemptionCutoffFence (Some s)), s)
  end.

(** ** The specification *)

(** The abstract scheduler with what the calls of SchedulerSpec.v do not return. *)
Record whole := {
  core : spec;
  cutoff : Z;        (** what was submitted last when the preemption began *)
  contexts : Z;      (** how many are alive *)
  responsive : bool;
}.
#[export] Instance whole_eta : Eta whole :=
  fun a => Build_whole (core a) (cutoff a) (contexts a) (responsive a).

Definition abs_whole (s : APPLE_AGX_SCHEDULER) : whole := {|
  core := abs s; cutoff := PreemptionCutoffFence s; contexts := ContextCount s;
  responsive := Responsive s |}.

Definition cutoff_after (o : op) (ok : bool) (a : whole) : Z :=
  if negb ok then cutoff a else
  match o with
  | Begin _ _ _ _ _ | BeginNow _ _ _ => submitted (core a)
  | Commit _ | Abort _ | Reset _ _ => 0
  | _ => cutoff a
  end.
Definition responsive_after (o : op) (ok : bool) (a : whole) : bool :=
  match o with Reset _ _ => ok || responsive a | _ => responsive a end.

Definition can_complete (a : spec) (f : Z) : Prop :=
  f <> 0 /\ after f (completed a) /\
  (phase a <> AppleAgxPreemptionWaitCurrentBoundary \/ boundary a = f).
#[export] Instance can_complete_dec a f : Decision (can_complete a f).
Proof. unfold can_complete. apply _. Defined.

(** An answer about an engine that is there. *)
Definition of_engine {A} (n e : Z) (none some : A) : A :=
  if decide (engine_ok n e) then some else none.

Definition spec_call (o : op) (a : whole) : (bool * list Z) * whole :=
  let '(r, c) := spec_run o (core a) in
  (r, {| core := c; cutoff := cutoff_after o r.1 a; contexts := contexts a;
         responsive := responsive_after o r.1 a |}).

Definition spec_entry (x : entry) (a : whole) : answer * whole :=
  let query r := (r, a) in
  match x with
  | Call o => let '(r, a') := spec_call o a in (Did r, a')
  | AcknowledgePreemption p => let '(r, a') := spec_call (Commit p) a in (Did r, a')
  | CompleteFence n e f =>
      if decide (engine_ok n e /\ can_complete (core a) f)
      then (Did (true, []), a <| core := (core a) <| completed := f |> |>)
      else query (Did (false, []))
  | CreateContext (Some c) n aff =>
      if decide (Active c = false /\ n = 0 /\ aff = 1)
      then (OfContext true (Some {| NodeOrdinal := 0; EngineAffinity := 1; Active := true |}),
            a <| contexts := u32 (contexts a + 1) |>)
      else query (OfContext false (Some c))
  | DestroyContext (Some c) =>
      if decide (Active c = true /\ contexts a <> 0)
      then (OfContext true (Some {| NodeOrdinal := 0; EngineAffinity := 0; Active := false |}),
            a <| contexts := u32 (contexts a - 1) |>)
      else query (OfContext false (Some c))
  | CreateContext NULL _ _ | DestroyContext NULL => query (OfContext false NULL)
  | ClaimNowhere | BeginNowNowhere _ _ _ | ResetNowhere _ _ => query (Did (false, []))
  | ValidateEngine n e => query (Told (of_engine n e false true))
  | EngineResponsive n e => query (Told (of_engine n e false (responsive a)))
  | CanCompleteFence n e f =>
      query (Told (bool_decide (engine_ok n e /\ can_complete (core a) f)))
  | CurrentFence n e => query (Fenced (of_engine n e 0 (completed (core a))))
  | LastSubmitted n e => query (Fenced (of_engine n e 0 (submitted (core a))))
  | QueuedHead n e => query (Fenced (of_engine n e 0 (default 0 (head (pending (core a))))))
  | Running n e => query (Fenced (of_engine n e 0 (active (core a))))
  | HasOutstanding n e =>
      query (Told (of_engine n e false
        (bool_decide (pending (core a) <> [] \/ active (core a) <> 0))))
  | PreemptionPhaseOf => query (InPhase (phase (core a)))
  | DispatchBlocked => query (Told (bool_decide (phase (core a) <> AppleAgxPreemptionIdle)))
  | CutoffFence => query (Fenced (cutoff a))
  end.

(** ** Refinement *)

(** What the calls of SchedulerSpec.v do to the rest of the state. *)
Lemma run_rest o s :
  wf s ->
  PreemptionCutoffFence (run o s).2 = cutoff_after o (run o s).1.1 (abs_whole s) /\
  ContextCount (run o s).2 = ContextCount s /\
  Responsive (run o s).2 = responsive_after o (run o s).1.1 (abs_whole s).
Proof.
  intros W. destruct o as [n e f|n e f|n e f|n e f|n e p c x|n e f| |p|n e p|p|n e]; cbn [run].
  - call (AppleAgxSchedulerQueueFence (Some s) n e f).
    by apply queue_fence_cases in E as [(_ & -> & ->)|(_ & -> & ->)].
  - call (AppleAgxSchedulerQueueResubmittedPagingFence (Some s) n e f).
    by apply resubmit_cases in E as [(_ & -> & ? & _ & _ & ->)|(_ & -> & ->)].
  - call (AppleAgxSchedulerActivateFence (Some s) n e f).
    by apply activate_cases in E as [(_ & -> & ->)|(_ & -> & ->)].
  - call (AppleAgxSchedulerCompleteActiveFence (Some s) n e f).
    by apply complete_active_cases in E as [(_ & _ & -> & ->)|(_ & -> & ->)].
  - call (AppleAgxSchedulerBeginBoundaryPreemption (Some s) n e p c x).
    apply begin_cases in E as [((_ & _ & _ & -> & _) & -> & ->)|(_ & -> & ->)]; done.
  - call (AppleAgxSchedulerObserveBoundaryCompletion (Some s) n e f).
    unfold AppleAgxSchedulerObserveBoundaryCompletion in E. by c_cases.
  - simpl. by destruct (bool_decide _).
  - simpl. by destruct (negb _ || _).
  - call (AppleAgxSchedulerBeginPreemption (Some s) n e p (Some no_preemption)).
    match goal with H : _ = (?q, _) |- _ => destruct q as [? ?] end.
    apply begin_now_cases in E as [((_ & _ & _ & Hl & _) & -> & -> & ->)|(_ & -> & -> & ->)]; done.
  - simpl. by destruct (_ || _).
  - call (AppleAgxSchedulerResetEngine (Some s) n e (Some 0)).
    match goal with H : _ = (?q, _) |- _ => destruct q as [? ?] end.
    apply reset_cases in E as
      [(_ & _ & -> & -> & s' & -> & _ & _ & _ & Heq)|(_ & -> & -> & ->)]; [|done..].
    unfold keep. cbn [default fst snd]. by rewrite Heq.
Qed.

Lemma call_square o s :
  wf s -> spec_call o (abs_whole s) = ((run o s).1, abs_whole (run o s).2).
Proof.
  intros W. pose proof (run_square o s W) as Hs. red in Hs. destruct (run_rest o s W) as (H1 & H2 & H3).
  unfold spec_call. cbn [core abs_whole]. rewrite Hs. f_equal. unfold abs_whole.
  by rewrite H1, H2, H3.
Qed.

Lemma can_complete_abs s n e f :
  may_complete s n e f <-> engine_ok n e /\ can_complete (abs s) f.
Proof.
  unfold may_complete, can_complete, after. simpl.
  destruct (decide (PreemptionPhase s = AppleAgxPreemptionWaitCurrentBoundary));
    intuition congruence.
Qed.

Lemma outstanding_spec s :
  wf s -> negb (QueuedFence s =? 0) || negb (ActiveFence s =? 0) =
    bool_decide (queue s <> [] \/ ActiveFence s <> 0).
Proof.
  intros W. rewrite (wf_queued s W). pose proof (wf_queue s W) as Hq.
  apply eq_true_iff_eq. rewrite bool_decide_eq_true, orb_true_iff, !negb_true_iff, !Z.eqb_neq.
  destruct (queue s) as [|f l]; simpl; [intuition congruence|].
  apply Forall_cons in Hq as [[_ ?] _]. intuition congruence.
Qed.

Lemma engine_case {A} s n e (x y : A) :
  (if negb (AppleAgxSchedulerValidateEngine (Some s) n e) then x else y) = of_engine n e x y.
Proof. rewrite validate_engine_spec. unfold of_engine. by case_decide; case_bool_decide. Qed.

Lemma entry_square x s :
  wf s -> spec_entry x (abs_whole s) = ((run_entry x s).1, abs_whole (run_entry x s).2).
Proof.
  intros W. destruct x as [o|n e f|p|c n aff|c| |n e p|n e|n e|n e|n e f|n e|n e|n e|n e|n e| | |];
    cbn [run_entry spec_entry].
  - rewrite (call_square o s W). by destruct (run o s).
  - call (AppleAgxSchedulerCompleteFence (Some s) n e f).
    apply complete_cases in E as [(Hm & -> & ->)|(Hm & -> & ->)]; rewrite can_complete_abs in Hm.
    + by rewrite decide_True.
    + by rewrite decide_False.
  - rewrite (call_square (Commit p) s W). unfold AppleAgxSchedulerAcknowledgePreemption.
    cbn [run]. by destruct (AppleAgxSchedulerCommitBoundaryPreemption (Some s) p).
  - destruct c as [c|]; [|done]. unfold AppleAgxSchedulerCreateContext. cbn [abs_whole contexts].
    change APPLE_AGX_SCHEDULER_ENGINE_AFFINITY with 1. destruct (Active c) eqn:Ha.
    { by rewrite decide_False by (by intros (? & _)). }
    destruct (Z.eqb_spec n 0) as [->|Hn]; cbn [orb negb].
    2: { by rewrite decide_False by (by intros (_ & ? & _)). }
    destruct (Z.eqb_spec aff 1) as [->|Haff]; cbn [negb].
    2: { by rewrite decide_False by (by intros (_ & _ & ?)). }
    by rewrite decide_True.
  - destruct c as [c|]; [|done]. unfold AppleAgxSchedulerDestroyContext. cbn [abs_whole contexts].
    destruct (Active c) eqn:Ha; cbn [negb orb].
    2: { by rewrite decide_False by (by intros (? & _)). }
    destruct (Z.eqb_spec (ContextCount s) 0) as [E|E].
    { by rewrite decide_False by (by intros (_ & ?)). }
    by rewrite decide_True.
  - done.
  - done.
  - unfold AppleAgxSchedulerResetEngine. by rewrite orb_true_r.
  - rewrite validate_engine_spec. unfold of_engine. by case_decide; case_bool_decide.
  - by rewrite <- (engine_case s).
  - cbn [fst snd]. do 2 f_equal. apply eq_true_iff_eq.
    by rewrite bool_decide_eq_true, can_complete_spec, can_complete_abs.
  - by rewrite <- (engine_case s).
  - by rewrite <- (engine_case s).
  - cbn [abs_whole core abs pending]. by rewrite <- (wf_queued s W), <- (engine_case s).
  - by rewrite <- (engine_case s).
  - cbn [abs_whole core abs pending active]. by rewrite <- outstanding_spec, <- (engine_case s).
  - done.
  - simpl. do 2 f_equal. by destruct (PreemptionPhase s).
  - done.
Qed.

(** ** Properties *)

(** C14: from every reachable state every public call on the scheduler does to the abstract
    lists, and returns to its caller, exactly what the specification says.  The calls are
    those that queue, resubmit, start and complete fences, both ways of completing one, those
    that begin, observe, claim, commit, acknowledge and abort a preemption, the engine reset,
    the creation and destruction of contexts, and every query; with a null pointer for a
    result they are refused.  Ring buffer, compacted preempted array, cached head fence and
    refused calls are included; a scheduler pointer is taken not to be null. *)
Theorem scheduler_refines_spec x s :
  reachable s -> spec_entry x (abs_whole s) = ((run_entry x s).1, abs_whole (run_entry x s).2).
Proof. intros H. apply entry_square. exact (reachable_inv s H). Qed.

Lemma scheduler_refines_spec_witness :
  spec_entry (CompleteFence 0 0 7) (abs_whole busy) =
    ((run_entry (CompleteFence 0 0 7) busy).1, abs_whole (run_entry (CompleteFence 0 0 7) busy).2) /\
  (run_entry (CompleteFence 0 0 7) busy).1 = Did (true, []).
Proof.
  split; [exact (scheduler_refines_spec _ _ (client_reachable _ busy_client))|by vm_compute].
Defined.

End SchedCalls.
