(* ===== verification/Submission.v ===== *)
(** * The submission queue (shared/src/apple_agx_submission.c)

    The scheduler's packets between DxgkDdiSubmitCommand and their completion: a
    ring of entries in caller storage, the ledger of paging fences that a
    preemption discarded and Windows must replay in order, and the receipt chain
    of one completion (the transaction).  [Subm] holds the code; [entries] and
    [replay] are the lists its two rings stand for. *)

From stdpp Require Import sorting.
From S2P Require Import Prelude Serial Ring Arrays.

Module Subm.

(** ** Data *)

Definition APPLE_AGX_SUBMISSION_FLAG_PAGING : Z := Z.shiftl 1 0.
Definition APPLE_AGX_SUBMISSION_FLAG_NULL_RENDERING : Z := Z.shiftl 1 3.
Definition APPLE_AGX_SUBMISSION_FLAG_CONTEXT_SWITCH : Z := Z.shiftl 1 6.
Definition APPLE_AGX_SUBMISSION_FLAG_RESUBMISSION : Z := Z.shiftl 1 7.
Definition APPLE_AGX_SUBMISSION_FLAGS_ALLOWED : Z := 0x1ff.

Inductive APPLE_AGX_SUBMISSION_KIND :=
  | AppleAgxSubmissionInvalid
  | AppleAgxSubmissionGdi
  | AppleAgxSubmissionPaging
  | AppleAgxSubmissionContextSwitch
  | AppleAgxSubmissionNull.
#[global] Instance kind_eq_dec : EqDecision APPLE_AGX_SUBMISSION_KIND.
Proof. solve_decision. Defined.

Record APPLE_AGX_SUBMISSION := {
  Kind : APPLE_AGX_SUBMISSION_KIND;
  Fence : Z;
  NodeOrdinal : Z;
  EngineOrdinal : Z;
  SegmentId : Z;
  Flags : Z;
  DmaAddress : Z;
  DmaBytes : Z;
  Reserved : Z;
}.
#[export] Instance submission_eta : Eta APPLE_AGX_SUBMISSION :=
  fun s => Build_APPLE_AGX_SUBMISSION (Kind s) (Fence s) (NodeOrdinal s)
    (EngineOrdinal s) (SegmentId s) (Flags s) (DmaAddress s) (DmaBytes s) (Reserved s).

Record APPLE_AGX_SUBMISSION_ENTRY := {
  Submission : APPLE_AGX_SUBMISSION;
  PrivateDataToken : Z;
  PrivateDataBytes : Z;
  PrivateDataStart : Z;
  PrivateDataEnd : Z;
  DmaSubmissionStart : Z;
  DmaSubmissionEnd : Z;
}.
#[export] Instance entry_eta : Eta APPLE_AGX_SUBMISSION_ENTRY :=
  fun e => Build_APPLE_AGX_SUBMISSION_ENTRY (Submission e) (PrivateDataToken e)
    (PrivateDataBytes e) (PrivateDataStart e) (PrivateDataEnd e)
    (DmaSubmissionStart e) (DmaSubmissionEnd e).

Record APPLE_AGX_SUBMISSION_QUEUE := {
  Entries : ptr (list APPLE_AGX_SUBMISSION_ENTRY);
  Capacity : Z;
  Head : Z;
  Count : Z;
  CompletedFence : Z;
  LastSubmittedFence : Z;
  PublishedFence : Z;
  ClaimedCompletionFence : Z;
  PagingReplayFences : ptr (list Z);
  PagingReplayCapacity : Z;
  PagingReplayHead : Z;
  PagingReplayCount : Z;
}.
#[export] Instance queue_eta : Eta APPLE_AGX_SUBMISSION_QUEUE :=
  fun q => Build_APPLE_AGX_SUBMISSION_QUEUE (Entries q) (Capacity q) (Head q) (Count q)
    (CompletedFence q) (LastSubmittedFence q) (PublishedFence q)
    (ClaimedCompletionFence q) (PagingReplayFences q) (PagingReplayCapacity q)
    (PagingReplayHead q) (PagingReplayCount q).

Inductive APPLE_AGX_COMPLETION_PHASE :=
  | AppleAgxCompletionIdle
  | AppleAgxCompletionClaimed
  | AppleAgxCompletionSchedulerCommitted
  | AppleAgxCompletionLocalCommitted
  | AppleAgxCompletionBackendRetired
  | AppleAgxCompletionReported.
#[export] Instance completion_phase_eq_dec : EqDecision APPLE_AGX_COMPLETION_PHASE.
Proof. solve_decision. Defined.

(** The last three fields are Fence, NodeOrdinal and EngineOrdinal in C. *)
Record APPLE_AGX_COMPLETION_TRANSACTION := {
  Phase : APPLE_AGX_COMPLETION_PHASE;
  TransactionFence : Z;
  TransactionNodeOrdinal : Z;
  TransactionEngineOrdinal : Z;
}.
#[export] Instance transaction_eta : Eta APPLE_AGX_COMPLETION_TRANSACTION :=
  fun t => Build_APPLE_AGX_COMPLETION_TRANSACTION (Phase t) (TransactionFence t)
    (TransactionNodeOrdinal t) (TransactionEngineOrdinal t).

(** ** Operations *)

Definition submission_zero (s : APPLE_AGX_SUBMISSION) : APPLE_AGX_SUBMISSION :=
  s <| Kind := AppleAgxSubmissionInvalid |> <| Fence := 0 |> <| NodeOrdinal := 0 |>
    <| EngineOrdinal := 0 |> <| SegmentId := 0 |> <| Flags := 0 |>
    <| DmaAddress := 0 |> <| DmaBytes := 0 |> <| Reserved := 0 |>.

Definition AppleAgxSubmissionZero (Submission : ptr APPLE_AGX_SUBMISSION)
    : ptr APPLE_AGX_SUBMISSION :=
  deref s := Submission else NULL in Some (submission_zero s).

Definition entry_zero (e : APPLE_AGX_SUBMISSION_ENTRY) : APPLE_AGX_SUBMISSION_ENTRY :=
  e <| Submission := submission_zero (Submission e) |> <| PrivateDataToken := 0 |>
    <| PrivateDataBytes := 0 |> <| PrivateDataStart := 0 |> <| PrivateDataEnd := 0 |>
    <| DmaSubmissionStart := 0 |> <| DmaSubmissionEnd := 0 |>.

Definition AppleAgxSubmissionEntryZero (Entry : ptr APPLE_AGX_SUBMISSION_ENTRY)
    : ptr APPLE_AGX_SUBMISSION_ENTRY :=
  deref e := Entry else NULL in Some (entry_zero e).

#[export] Instance entry_inhabited : Inhabited APPLE_AGX_SUBMISSION_ENTRY :=
  populate (Build_APPLE_AGX_SUBMISSION_ENTRY
    (Build_APPLE_AGX_SUBMISSION AppleAgxSubmissionInvalid 0 0 0 0 0 0 0 0) 0 0 0 0 0 0).

Definition AppleAgxFenceAfter (Candidate Reference : Z) : bool :=
  let distance := u32 (Candidate - Reference) in
  negb (distance =? 0) && (distance <? 0x80000000).

Definition AppleAgxFenceAtOrAfter (Candidate Reference : Z) : bool :=
  (Candidate =? Reference) || AppleAgxFenceAfter Candidate Reference.

(** Returns the queue and the entry array, both written. *)
Definition AppleAgxSubmissionQueueInitialize (Queue : ptr APPLE_AGX_SUBMISSION_QUEUE)
    (Entries_ : ptr (list APPLE_AGX_SUBMISSION_ENTRY)) (Capacity_ : Z)
    : bool * ptr APPLE_AGX_SUBMISSION_QUEUE :=
  deref q := Queue else (false, Queue) in
  let q := q <| Entries := NULL |> <| Capacity := 0 |> <| Head := 0 |> <| Count := 0 |>
             <| CompletedFence := 0 |> <| LastSubmittedFence := 0 |>
             <| PublishedFence := 0 |> <| ClaimedCompletionFence := 0 |>
             <| PagingReplayFences := NULL |> <| PagingReplayCapacity := 0 |>
             <| PagingReplayHead := 0 |> <| PagingReplayCount := 0 |> in
  deref a := Entries_ else (false, Some q) in
  if Capacity_ =? 0 then (false, Some q)
  else
    let a := for_range 0 Capacity_ (fun index a => a .[ index <- entry_zero a .[ index ] ]) a in
    (true, Some (q <| Entries := Some a |> <| Capacity := Capacity_ |>)).

Definition AppleAgxSubmissionQueueConfigurePagingReplay
    (Queue : ptr APPLE_AGX_SUBMISSION_QUEUE) (ReplayFences : ptr (list Z))
    (ReplayCapacity : Z) : bool * ptr APPLE_AGX_SUBMISSION_QUEUE :=
  deref q := Queue else (false, Queue) in
  deref r := ReplayFences else (false, Queue) in
  if is_null (Entries q) || (Capacity q =? 0) || negb (Count q =? 0) ||
     negb (PublishedFence q =? 0) || negb (ClaimedCompletionFence q =? 0) ||
     negb (is_null (PagingReplayFences q)) || (ReplayCapacity <? Capacity q)
  then (false, Queue)
  else (true, Some (q
    <| PagingReplayFences := Some (fill_loop 0 ReplayCapacity (fun _ => 0) r) |>
    <| PagingReplayCapacity := ReplayCapacity |>)).

Definition AppleAgxSubmissionQueuePagingReplayDebt
    (Queue : ptr APPLE_AGX_SUBMISSION_QUEUE) : Z :=
  deref q := Queue else 0 in PagingReplayCount q.

Definition AppleAgxSubmissionQueueReplayBlocked
    (Queue : ptr APPLE_AGX_SUBMISSION_QUEUE) : bool :=
  deref q := Queue else false in negb (PagingReplayCount q =? 0).

Definition flag (Flags bit : Z) : bool := negb (Z.land Flags bit =? 0).

Definition AppleAgxSubmissionDescribe
    (Fence_ Node Engine SegmentId_ DmaBufferAddress DmaBufferBytes
     SubmissionStart SubmissionEnd Flags_ : Z) (Submission : ptr APPLE_AGX_SUBMISSION)
    : bool * ptr APPLE_AGX_SUBMISSION :=
  deref s := Submission else (false, Submission) in
  let s := submission_zero s in
  let refuse := (false, Some s) in
  if (Fence_ =? 0) || negb (Node =? 0) || negb (Engine =? 0) ||
     negb (Z.ldiff Flags_ APPLE_AGX_SUBMISSION_FLAGS_ALLOWED =? 0) ||
     (SubmissionEnd <? SubmissionStart) || (DmaBufferBytes <? SubmissionEnd)
  then refuse
  else
    let bytes := u32 (SubmissionEnd - SubmissionStart) in
    let accept kind address :=
      (true, Some (s <| Kind := kind |> <| Fence := Fence_ |> <| NodeOrdinal := Node |>
                     <| EngineOrdinal := Engine |> <| SegmentId := SegmentId_ |>
                     <| Flags := Flags_ |> <| DmaAddress := address |>
                     <| DmaBytes := bytes |>)) in
    let place kind :=
      if negb (bytes =? 0) then
        if (DmaBufferAddress =? 0) ||
           (2 ^ 64 - 1 - SubmissionStart <? DmaBufferAddress)
        then refuse
        else accept kind (u64 (DmaBufferAddress + SubmissionStart))
      else if negb (bool_decide (kind = AppleAgxSubmissionContextSwitch)) &&
              negb (bool_decide (kind = AppleAgxSubmissionNull))
      then refuse
      else accept kind DmaBufferAddress in
    if flag Flags_ APPLE_AGX_SUBMISSION_FLAG_CONTEXT_SWITCH then
      if negb (bytes =? 0) ||
         negb (Z.ldiff Flags_ (Z.lor APPLE_AGX_SUBMISSION_FLAG_CONTEXT_SWITCH
                                 APPLE_AGX_SUBMISSION_FLAG_PAGING) =? 0)
      then refuse
      else place AppleAgxSubmissionContextSwitch
    else if flag Flags_ APPLE_AGX_SUBMISSION_FLAG_NULL_RENDERING
    then place AppleAgxSubmissionNull
    else if flag Flags_ APPLE_AGX_SUBMISSION_FLAG_PAGING
    then place AppleAgxSubmissionPaging
    else place AppleAgxSubmissionGdi.

Definition AppleAgxSubmissionMayCompleteInSoftware
    (Submission : ptr APPLE_AGX_SUBMISSION) : bool :=
  deref s := Submission else false in
  bool_decide (Kind s = AppleAgxSubmissionNull) ||
  (bool_decide (Kind s = AppleAgxSubmissionContextSwitch) && (DmaBytes s =? 0)).

(** The search of Accept: the offset to insert a replayed fence at, or [None]
    for the early return on a duplicate. *)
Fixpoint replay_scan (q : APPLE_AGX_SUBMISSION_QUEUE) (a : list APPLE_AGX_SUBMISSION_ENTRY)
    (fence : Z) (index : Z) (fuel : nat) (insertOffset : Z) : option Z :=
  match fuel with
  | O => Some insertOffset
  | S fuel =>
      let entry := a .[ u32 (Head q + index) mod Capacity q ] in
      if Fence (Submission entry) =? fence then None
      else replay_scan q a fence (index + 1) fuel
             (if (insertOffset =? Count q) &&
                 AppleAgxFenceAfter (Fence (Submission entry)) fence
              then index else insertOffset)
  end.

(** [for (index = Count; index > insertOffset; --index)]. *)
Definition replay_shift (q : APPLE_AGX_SUBMISSION_QUEUE) (insertOffset : Z)
    (a : list APPLE_AGX_SUBMISSION_ENTRY) : list APPLE_AGX_SUBMISSION_ENTRY :=
  for_range 0 (Count q - insertOffset)
    (fun k a =>
       let index := Count q - k in
       let destination := u32 (Head q + index) mod Capacity q in
       let source := u32 (u32 (Head q + index) - 1) mod Capacity q in
       a .[ destination <- a .[ source ] ]) a.

Definition paging_replay (s : APPLE_AGX_SUBMISSION) : bool :=
  bool_decide (Kind s = AppleAgxSubmissionPaging) &&
  flag (Flags s) APPLE_AGX_SUBMISSION_FLAG_RESUBMISSION.

Definition AppleAgxSubmissionQueueAccept (Queue : ptr APPLE_AGX_SUBMISSION_QUEUE)
    (Submission_ : ptr APPLE_AGX_SUBMISSION)
    (Token Bytes Start End DmaStart DmaEnd : Z)
    : bool * ptr APPLE_AGX_SUBMISSION_QUEUE :=
  deref q := Queue else (false, Queue) in
  deref s := Submission_ else (false, Queue) in
  deref a := Entries q else (false, Queue) in
  let pagingReplay := paging_replay s in
  if (Capacity q =? 0) || (Capacity q <=? Count q) ||
     bool_decide (Kind s = AppleAgxSubmissionInvalid) || negb (Reserved s =? 0) ||
     (negb (PagingReplayCount q =? 0) && negb pagingReplay) ||
     ((negb pagingReplay && negb (AppleAgxFenceAfter (Fence s) (LastSubmittedFence q))) ||
      (pagingReplay &&
       (negb (AppleAgxFenceAfter (Fence s) (CompletedFence q)) ||
        AppleAgxFenceAfter (Fence s) (LastSubmittedFence q)))) ||
     (End <? Start) || (Bytes <? End) || (DmaEnd <? DmaStart) ||
     negb (u32 (DmaEnd - DmaStart) =? DmaBytes s) ||
     (bool_decide (Kind s = AppleAgxSubmissionGdi) &&
      ((Token =? 0) || (Bytes =? 0) || negb (Start =? 0) || (End =? 0))) ||
     negb (Bool.eqb (Token =? 0) (Bytes =? 0))
  then (false, Queue)
  else if pagingReplay &&
          (deref r := PagingReplayFences q else true in
           (PagingReplayCount q =? 0) || negb (r .[ PagingReplayHead q ] =? Fence s))
  then (false, Queue)
  else
    match (if pagingReplay
           then replay_scan q a (Fence s) 0 (Z.to_nat (Count q)) (Count q)
           else Some (Count q)) with
    | None => (false, Queue)
    | Some insertOffset =>
        let a := if pagingReplay then replay_shift q insertOffset a else a in
        let slot := u32 (Head q + insertOffset) mod Capacity q in
        let entry := (entry_zero a .[ slot ])
          <| Submission := s |> <| PrivateDataToken := Token |>
          <| PrivateDataBytes := Bytes |> <| PrivateDataStart := Start |>
          <| PrivateDataEnd := End |> <| DmaSubmissionStart := DmaStart |>
          <| DmaSubmissionEnd := DmaEnd |> in
        let q := q <| Entries := Some (a .[ slot <- entry ]) |>
                   <| Count := u32 (Count q + 1) |> in
        if pagingReplay then
          let count := u32 (PagingReplayCount q - 1) in
          (true, Some (q
            <| PagingReplayFences :=
                 (fun r => r .[ PagingReplayHead q <- 0 ]) <$> PagingReplayFences q |>
            <| PagingReplayHead := if count =? 0 then 0
                 else u32 (PagingReplayHead q + 1) mod PagingReplayCapacity q |>
            <| PagingReplayCount := count |>))
        else (true, Some (q <| LastSubmittedFence := Fence s |>))
    end.

Definition AppleAgxSubmissionQueuePeek (Queue : ptr APPLE_AGX_SUBMISSION_QUEUE)
    (Entry : ptr APPLE_AGX_SUBMISSION_ENTRY) : bool * ptr APPLE_AGX_SUBMISSION_ENTRY :=
  deref q := Queue else (false, Entry) in
  deref e := Entry else (false, Entry) in
  deref a := Entries q else (false, Entry) in
  if (Capacity q =? 0) || (Count q =? 0) then (false, Entry)
  else (true, Some (a .[ Head q ])).

(** The fence of [Queue->Entries[Queue->Head]]. *)
Definition head_fence (a : list APPLE_AGX_SUBMISSION_ENTRY)
    (q : APPLE_AGX_SUBMISSION_QUEUE) : Z := Fence (Submission (a .[ Head q ])).

Definition AppleAgxSubmissionQueueMarkPublished (Queue : ptr APPLE_AGX_SUBMISSION_QUEUE)
    (Fence_ : Z) : bool * ptr APPLE_AGX_SUBMISSION_QUEUE :=
  deref q := Queue else (false, Queue) in
  deref a := Entries q else (false, Queue) in
  if (Fence_ =? 0) || (Capacity q =? 0) || (Count q =? 0) ||
     negb (PublishedFence q =? 0) || negb (PagingReplayCount q =? 0) ||
     negb (head_fence a q =? Fence_)
  then (false, Queue)
  else (true, Some (q <| PublishedFence := Fence_ |>)).

Definition AppleAgxSubmissionQueueClaimCompletion
    (Queue : ptr APPLE_AGX_SUBMISSION_QUEUE) (Fence_ : Z)
    : bool * ptr APPLE_AGX_SUBMISSION_QUEUE :=
  deref q := Queue else (false, Queue) in
  deref a := Entries q else (false, Queue) in
  if (Fence_ =? 0) || (Capacity q =? 0) || (Count q =? 0) ||
     negb (ClaimedCompletionFence q =? 0) || negb (head_fence a q =? Fence_)
  then (false, Queue)
  else (true, Some (q <| ClaimedCompletionFence := Fence_ |>)).

Definition AppleAgxSubmissionQueueReleaseCompletion
    (Queue : ptr APPLE_AGX_SUBMISSION_QUEUE) (Fence_ : Z)
    : bool * ptr APPLE_AGX_SUBMISSION_QUEUE :=
  deref q := Queue else (false, Queue) in
  if (Fence_ =? 0) || negb (ClaimedCompletionFence q =? Fence_)
  then (false, Queue)
  else (true, Some (q <| ClaimedCompletionFence := 0 |>)).

(** The tail the four removals of the head share: clear the published fence if it
    is this one, zero the entry, advance the ring. *)
Definition remove_head (q : APPLE_AGX_SUBMISSION_QUEUE)
    (a : list APPLE_AGX_SUBMISSION_ENTRY) (Fence_ : Z) : APPLE_AGX_SUBMISSION_QUEUE :=
  q <| PublishedFence := if PublishedFence q =? Fence_ then 0 else PublishedFence q |>
    <| Entries := Some (a .[ Head q <- entry_zero a .[ Head q ] ]) |>
    <| Head := u32 (Head q + 1) mod Capacity q |>
    <| Count := u32 (Count q - 1) |>.

Definition AppleAgxSubmissionQueueCommitCompletion
    (Queue : ptr APPLE_AGX_SUBMISSION_QUEUE) (Fence_ : Z)
    : bool * ptr APPLE_AGX_SUBMISSION_QUEUE :=
  deref q := Queue else (false, Queue) in
  deref a := Entries q else (false, Queue) in
  if (Fence_ =? 0) || (Capacity q =? 0) || (Count q =? 0) ||
     negb (ClaimedCompletionFence q =? Fence_)
  then (false, Queue)
  else if negb (head_fence a q =? Fence_) then (false, Queue)
  else (true, Some ((remove_head q a Fence_) <| CompletedFence := Fence_ |>
                                             <| ClaimedCompletionFence := 0 |>)).

Definition AppleAgxSubmissionQueueCommitRetirement
    (Queue : ptr APPLE_AGX_SUBMISSION_QUEUE) (Fence_ : Z)
    : bool * ptr APPLE_AGX_SUBMISSION_QUEUE :=
  deref q := Queue else (false, Queue) in
  deref a := Entries q else (false, Queue) in
  if (Fence_ =? 0) || (Capacity q =? 0) || (Count q =? 0) ||
     negb (ClaimedCompletionFence q =? Fence_)
  then (false, Queue)
  else if negb (head_fence a q =? Fence_) then (false, Queue)
  else (true, Some ((remove_head q a Fence_) <| ClaimedCompletionFence := 0 |>)).

(** The counting pass of Discard: how many paging packets it would drop. *)
Fixpoint count_paging (q : APPLE_AGX_SUBMISSION_QUEUE)
    (a : list APPLE_AGX_SUBMISSION_ENTRY) (CutoffFence : Z) (index : Z) (fuel : nat)
    (paging : Z) : Z :=
  match fuel with
  | O => paging
  | S fuel =>
      let entry := a .[ u32 (Head q + index) mod Capacity q ] in
      if AppleAgxFenceAfter (Fence (Submission entry)) CutoffFence then paging
      else count_paging q a CutoffFence (index + 1) fuel
             (if bool_decide (Kind (Submission entry) = AppleAgxSubmissionPaging)
              then u32 (paging + 1) else paging)
  end.

(** The removing pass: [while (Queue->Count != 0)]. *)
Fixpoint discard_loop (CutoffFence : Z) (fuel : nat) (q : APPLE_AGX_SUBMISSION_QUEUE)
    (a : list APPLE_AGX_SUBMISSION_ENTRY) (discarded : Z)
    : APPLE_AGX_SUBMISSION_QUEUE * Z :=
  match fuel with
  | O => (q, discarded)
  | S fuel =>
      if Count q =? 0 then (q, discarded)
      else
        let head := Head q in
        let entry := a .[ head ] in
        if AppleAgxFenceAfter (Fence (Submission entry)) CutoffFence then (q, discarded)
        else
          let q :=
            if bool_decide (Kind (Submission entry) = AppleAgxSubmissionPaging)
            then q <| PagingReplayFences :=
                        (fun r => r .[ PagingReplayCount q <- Fence (Submission entry) ])
                          <$> PagingReplayFences q |>
                   <| PagingReplayCount := u32 (PagingReplayCount q + 1) |>
            else q in
          let a := a .[ head <- entry_zero entry ] in
          discard_loop CutoffFence fuel
            (q <| Entries := Some a |>
               <| Head := u32 (Head q + 1) mod Capacity q |>
               <| Count := u32 (Count q - 1) |>) a (u32 (discarded + 1))
  end.

Definition AppleAgxSubmissionQueueDiscardPreemptedThrough
    (Queue : ptr APPLE_AGX_SUBMISSION_QUEUE) (CutoffFence : Z) (DiscardedCount : ptr Z)
    : bool * ptr APPLE_AGX_SUBMISSION_QUEUE * ptr Z :=
  let refuse := (false, Queue, DiscardedCount) in
  deref q := Queue else refuse in
  deref d := DiscardedCount else refuse in
  deref a := Entries q else refuse in
  if (Capacity q =? 0) || negb (ClaimedCompletionFence q =? 0) ||
     negb (PublishedFence q =? 0) || negb (PagingReplayCount q =? 0) ||
     negb (AppleAgxFenceAtOrAfter CutoffFence (CompletedFence q))
  then refuse
  else
    let paging := count_paging q a CutoffFence 0 (Z.to_nat (Count q)) 0 in
    if negb (paging =? 0) &&
       (is_null (PagingReplayFences q) || (PagingReplayCapacity q <? paging))
    then refuse
    else
      let '(q, discarded) := discard_loop CutoffFence (Z.to_nat (Count q)) q a 0 in
      (true, Some q, Some discarded).

Definition AppleAgxSubmissionQueueResetPagingReplay
    (Queue : ptr APPLE_AGX_SUBMISSION_QUEUE) (Quiesced : bool)
    : bool * ptr APPLE_AGX_SUBMISSION_QUEUE :=
  deref q := Queue else (false, Queue) in
  deref r := PagingReplayFences q else (false, Queue) in
  if negb Quiesced || (PagingReplayCapacity q =? 0) || negb (PublishedFence q =? 0) ||
     negb (ClaimedCompletionFence q =? 0)
  then (false, Queue)
  else (true, Some (q
    <| PagingReplayFences := Some (fill_loop 0 (PagingReplayCapacity q) (fun _ => 0) r) |>
    <| PagingReplayHead := 0 |> <| PagingReplayCount := 0 |>)).

Definition AppleAgxSubmissionQueueComplete (Queue : ptr APPLE_AGX_SUBMISSION_QUEUE)
    (Fence_ : Z) : bool * ptr APPLE_AGX_SUBMISSION_QUEUE :=
  deref q := Queue else (false, Queue) in
  deref a := Entries q else (false, Queue) in
  if (Capacity q =? 0) || (Count q =? 0) || negb (ClaimedCompletionFence q =? 0)
  then (false, Queue)
  else if negb (Fence_ =? head_fence a q) then (false, Queue)
  else (true, Some ((remove_head q a Fence_) <| CompletedFence := Fence_ |>)).

Definition AppleAgxSubmissionQueueFault (Queue : ptr APPLE_AGX_SUBMISSION_QUEUE)
    (Fence_ : Z) : bool * ptr APPLE_AGX_SUBMISSION_QUEUE :=
  deref q := Queue else (false, Queue) in
  deref a := Entries q else (false, Queue) in
  if (Capacity q =? 0) || (Count q =? 0) || negb (ClaimedCompletionFence q =? 0)
  then (false, Queue)
  else if negb (Fence_ =? head_fence a q) then (false, Queue)
  else (true, Some (remove_head q a Fence_)).

(** *** The completion transaction *)

Definition AppleAgxCompletionTransactionInitialize
    (Transaction : ptr APPLE_AGX_COMPLETION_TRANSACTION)
    : ptr APPLE_AGX_COMPLETION_TRANSACTION :=
  deref t := Transaction else NULL in
  Some (t <| Phase := AppleAgxCompletionIdle |> <| TransactionFence := 0 |>
          <| TransactionNodeOrdinal := 0 |> <| TransactionEngineOrdinal := 0 |>).

Definition AppleAgxCompletionTransactionBegin
    (Transaction : ptr APPLE_AGX_COMPLETION_TRANSACTION) (Fence_ Node Engine : Z)
    : bool * ptr APPLE_AGX_COMPLETION_TRANSACTION :=
  deref t := Transaction else (false, Transaction) in
  if (Fence_ =? 0) || negb (bool_decide (Phase t = AppleAgxCompletionIdle))
  then (false, Transaction)
  else (true, Some (t <| TransactionFence := Fence_ |> <| TransactionNodeOrdinal := Node |>
                      <| TransactionEngineOrdinal := Engine |>
                      <| Phase := AppleAgxCompletionClaimed |>)).

Definition AppleAgxCompletionTransactionMatches
    (Transaction : ptr APPLE_AGX_COMPLETION_TRANSACTION) (Fence_ Node Engine : Z) : bool :=
  deref t := Transaction else false in
  negb (Fence_ =? 0) && negb (bool_decide (Phase t = AppleAgxCompletionIdle)) &&
  (TransactionFence t =? Fence_) && (TransactionNodeOrdinal t =? Node) &&
  (TransactionEngineOrdinal t =? Engine).

Definition AppleAgxCompletionTransitionValid (Expected Next : APPLE_AGX_COMPLETION_PHASE)
    : bool :=
  (bool_decide (Expected = AppleAgxCompletionClaimed) &&
   bool_decide (Next = AppleAgxCompletionSchedulerCommitted)) ||
  (bool_decide (Expected = AppleAgxCompletionSchedulerCommitted) &&
   bool_decide (Next = AppleAgxCompletionLocalCommitted)) ||
  (bool_decide (Expected = AppleAgxCompletionLocalCommitted) &&
   bool_decide (Next = AppleAgxCompletionBackendRetired)).

Definition AppleAgxCompletionTransactionAdvance
    (Transaction : ptr APPLE_AGX_COMPLETION_TRANSACTION) (Fence_ Node Engine : Z)
    (Expected Next : APPLE_AGX_COMPLETION_PHASE)
    : bool * ptr APPLE_AGX_COMPLETION_TRANSACTION :=
  deref t := Transaction else (false, Transaction) in
  if negb (AppleAgxCompletionTransitionValid Expected Next) ||
     negb (AppleAgxCompletionTransactionMatches Transaction Fence_ Node Engine) ||
     negb (bool_decide (Phase t = Expected))
  then (false, Transaction)
  else (true, Some (t <| Phase := Next |>)).

Definition AppleAgxCompletionTransactionCanReport
    (Transaction : ptr APPLE_AGX_COMPLETION_TRANSACTION) (Fence_ Node Engine : Z) : bool :=
  deref t := Transaction else false in
  AppleAgxCompletionTransactionMatches Transaction Fence_ Node Engine &&
  bool_decide (Phase t = AppleAgxCompletionBackendRetired).

(** The caller passes a transaction, never NULL. *)
Definition AppleAgxCompletionTransactionMarkReported
    (Transaction : APPLE_AGX_COMPLETION_TRANSACTION) : APPLE_AGX_COMPLETION_TRANSACTION :=
  Transaction <| Phase := AppleAgxCompletionReported |>.

Definition AppleAgxCompletionTransactionFinish
    (Transaction : ptr APPLE_AGX_COMPLETION_TRANSACTION) (Fence_ Node Engine : Z)
    : bool * ptr APPLE_AGX_COMPLETION_TRANSACTION :=
  deref t := Transaction else (false, Transaction) in
  if negb (AppleAgxCompletionTransactionMatches Transaction Fence_ Node Engine) ||
     negb (bool_decide (Phase t = AppleAgxCompletionReported))
  then (false, Transaction)
  else (true, AppleAgxCompletionTransactionInitialize Transaction).

(** ** The two rings as lists *)

Definition entries (q : APPLE_AGX_SUBMISSION_QUEUE) : list APPLE_AGX_SUBMISSION_ENTRY :=
  match Entries q with
  | Some a => ring_list (Capacity q) a (Head q) (Count q)
  | None => []
  end.

Definition replay (q : APPLE_AGX_SUBMISSION_QUEUE) : list Z :=
  match PagingReplayFences q with
  | Some r => ring_list (PagingReplayCapacity q) r (PagingReplayHead q) (PagingReplayCount q)
  | None => []
  end.

Definition fence_of (e : APPLE_AGX_SUBMISSION_ENTRY) : Z := Fence (Submission e).
Definition is_paging (e : APPLE_AGX_SUBMISSION_ENTRY) : Prop :=
  Kind (Submission e) = AppleAgxSubmissionPaging.
#[export] Instance is_paging_dec e : Decision (is_paging e) :=
  decide (Kind (Submission e) = AppleAgxSubmissionPaging).

(** The entries in front of the first one after [f], and the rest. *)
Fixpoint upto (f : Z) (es : list APPLE_AGX_SUBMISSION_ENTRY)
    : list APPLE_AGX_SUBMISSION_ENTRY :=
  match es with
  | [] => []
  | e :: es => if serial_after 32 (fence_of e) f then [] else e :: upto f es
  end.

Fixpoint beyond (f : Z) (es : list APPLE_AGX_SUBMISSION_ENTRY)
    : list APPLE_AGX_SUBMISSION_ENTRY :=
  match es with
  | [] => []
  | e :: es' => if serial_after 32 (fence_of e) f then es else beyond f es'
  end.

Lemma upto_beyond f es : upto f es ++ beyond f es = es.
Proof. induction es as [|e es IH]; simpl; [done|]. case_match; simpl; congruence. Qed.

Definition paging_fences (es : list APPLE_AGX_SUBMISSION_ENTRY) : list Z :=
  fence_of <$> filter is_paging es.

(** ** Storage *)

Record storage (q : APPLE_AGX_SUBMISSION_QUEUE) (a : list APPLE_AGX_SUBMISSION_ENTRY)
    : Prop := {
  st_entries : Entries q = Some a;
  st_len : zlen a = Capacity q;
  st_cap : 0 < Capacity q <= 2 ^ 31;
  st_head : 0 <= Head q < Capacity q;
  st_count : 0 <= Count q <= Capacity q;
}.

Record ledger (q : APPLE_AGX_SUBMISSION_QUEUE) : Prop := {
  lg_fences : match PagingReplayFences q with
              | Some r => zlen r = PagingReplayCapacity q /\
                          Capacity q <= PagingReplayCapacity q
              | None => PagingReplayCount q = 0
              end;
  lg_cap : is_u32 (PagingReplayCapacity q);
  lg_head : 0 <= PagingReplayHead q <= PagingReplayCapacity q;
  lg_count : 0 <= PagingReplayCount q <= PagingReplayCapacity q;
  lg_live : PagingReplayCount q <> 0 -> PagingReplayHead q < PagingReplayCapacity q;
  lg_idle : PagingReplayCount q = 0 -> PagingReplayHead q = 0;
}.

Lemma entries_eq q a :
  storage q a -> entries q = ring_list (Capacity q) a (Head q) (Count q).
Proof. intros S. unfold entries. by rewrite (st_entries q a S). Qed.

Lemma zlen_entries q a : storage q a -> zlen (entries q) = Count q.
Proof.
  intros S. rewrite (entries_eq q a S). apply zlen_ring_list. apply S.
Qed.

Lemma slot_eq q a i :
  storage q a -> 0 <= i <= Capacity q ->
  u32 (Head q + i) mod Capacity q = ring_slot (Capacity q) (Head q) i.
Proof.
  intros S ?. unfold ring_slot. pose proof (st_head q a S). pose proof (st_cap q a S).
  rewrite wrap_id; [done|word_lia].
Qed.

Lemma slot_pred_eq q a i :
  storage q a -> 0 < i <= Capacity q ->
  u32 (u32 (Head q + i) - 1) mod Capacity q = ring_slot (Capacity q) (Head q) (i - 1).
Proof.
  intros S ?. unfold ring_slot. pose proof (st_head q a S). pose proof (st_cap q a S).
  rewrite (wrap_id 32 (Head q + i)) by word_lia. rewrite wrap_id by word_lia. f_equal. lia.
Qed.

(** The head entry and what removing it leaves. *)
Lemma entries_head q a :
  storage q a -> Count q <> 0 ->
  entries q = a .[ Head q ] ::
    ring_list (Capacity q) a (ring_slot (Capacity q) (Head q) 1) (Count q - 1).
Proof.
  intros S ?. rewrite (entries_eq q a S). pose proof (st_count q a S).
  apply ring_pop; [apply S|lia].
Qed.

Definition popped (q : APPLE_AGX_SUBMISSION_QUEUE) (a : list APPLE_AGX_SUBMISSION_ENTRY)
    : APPLE_AGX_SUBMISSION_QUEUE :=
  q <| Entries := Some (a .[ Head q <- entry_zero a .[ Head q ] ]) |>
    <| Head := u32 (Head q + 1) mod Capacity q |>
    <| Count := u32 (Count q - 1) |>.

Lemma storage_popped q a :
  storage q a -> Count q <> 0 ->
  storage (popped q a) (a .[ Head q <- entry_zero a .[ Head q ] ]).
Proof.
  intros S ?. pose proof (st_count q a S). pose proof (st_cap q a S).
  split; simpl; [done|rewrite zlen_set; apply S|apply S| |].
  - rewrite (slot_eq q a) by (done || lia). apply ring_slot_bound. lia.
  - rewrite wrap_id by word_lia. lia.
Qed.

Lemma entries_popped q a :
  storage q a -> Count q <> 0 -> entries q = a .[ Head q ] :: entries (popped q a).
Proof.
  intros S ?. pose proof (st_count q a S). pose proof (st_cap q a S).
  rewrite (entries_head q a S) by done. f_equal.
  rewrite (entries_eq _ _ (storage_popped q a S ltac:(done))). simpl.
  rewrite (wrap_id 32 (Count q - 1)) by word_lia.
  rewrite (slot_eq q a) by (done || lia).
  (* The zeroed slot is outside what remains. *)
  symmetry. apply list_fmap_ext. intros k j Hj. apply lookup_seqZ in Hj as [-> ?].
  apply get_set_ne; [apply S|apply ring_slot_bound; lia|].
  rewrite ring_slot_succ by lia. rewrite <- (ring_slot_0 (Capacity q) (Head q)) at 1
    by (lia || apply S).
  intros Heq. apply ring_slot_inj in Heq; lia.
Qed.

(** ** Accept *)

Lemma fence_in_entries (f : Z) (l : list APPLE_AGX_SUBMISSION_ENTRY) e :
  f ∈ fence_of <$> (e :: l) <-> fence_of e = f \/ f ∈ fence_of <$> l.
Proof. rewrite fmap_cons, elem_of_cons. split; intros [->|?]; auto. Qed.

Lemma replay_scan_spec q a f fuel : forall i off l,
  storage q a -> zlen l = Z.of_nat fuel -> 0 <= i -> i + Z.of_nat fuel = Count q ->
  (forall k, 0 <= k < Z.of_nat fuel ->
     a .[ ring_slot (Capacity q) (Head q) (i + k) ] = l .[ k ]) ->
  replay_scan q a f i fuel off =
    if decide (f ∈ fence_of <$> l) then None
    else Some (if off =? Count q then i + zlen (upto f l) else off).
Proof.
  induction fuel as [|fuel IH]; intros i off l S Hl Hi Hn Hk;
    cbn [replay_scan].
  { destruct l; [|unfold zlen in Hl; simpl in Hl; lia].
    rewrite decide_False by (by intros ?%elem_of_nil).
    unfold zlen. simpl. destruct (Z.eqb_spec off (Count q)); do 2 f_equal; lia. }
  destruct l as [|e l]; [unfold zlen in Hl; simpl in Hl; lia|].
  pose proof (st_count q a S) as Hc.
  assert (a .[ u32 (Head q + i) mod Capacity q ] = e) as ->.
  { rewrite (slot_eq q a) by (done || lia).
    specialize (Hk 0). rewrite Z.add_0_r in Hk. by apply Hk; lia. }
  fold (fence_of e). destruct (Z.eqb_spec (fence_of e) f) as [He|He].
  { rewrite decide_True; [done|]. apply fence_in_entries. by left. }
  rewrite (IH (i + 1) _ l); [|done|unfold zlen in *; simpl in Hl; lia|lia|lia|].
  2: { intros k ?. replace (i + 1 + k) with (i + (k + 1)) by lia. rewrite Hk by lia.
       unfold arr_get. by replace (Z.to_nat (k + 1)) with (Datatypes.S (Z.to_nat k)) by lia. }
  destruct (decide (f ∈ fence_of <$> l)) as [Hin|Hin].
  { rewrite decide_True; [done|]. apply fence_in_entries. by right. }
  rewrite decide_False by (rewrite fence_in_entries; tauto).
  change (AppleAgxFenceAfter (fence_of e) f) with (serial_after 32 (fence_of e) f).
  destruct (Z.eqb_spec off (Count q)) as [->|Hoff]; cbn [andb upto].
  - destruct (serial_after 32 (fence_of e) f) eqn:A.
    + destruct (Z.eqb_spec i (Count q)); [lia|]. unfold zlen. simpl. f_equal. lia.
    + rewrite Z.eqb_refl. unfold zlen. simpl. f_equal. lia.
  - destruct (Z.eqb_spec off (Count q)); [done|done].
Qed.

Lemma replay_shift_eq q a off :
  storage q a -> 0 <= off <= Count q -> Count q < Capacity q ->
  replay_shift q off a = ring_shift (Capacity q) (Head q) (Count q) off a.
Proof.
  intros S ? ?. apply for_range_ext. intros k b ?. cbv beta zeta.
  rewrite (slot_eq q a) by (done || lia). by rewrite (slot_pred_eq q a) by (done || lia).
Qed.

Lemma insert_at_upto f e es :
  insert_at (zlen (upto f es)) e es = upto f es ++ e :: beyond f es.
Proof.
  rewrite <- (upto_beyond f es) at 2. unfold insert_at, zlen. rewrite Nat2Z.id.
  by rewrite take_app_length, drop_app_length.
Qed.

Lemma zlen_upto f es : 0 <= zlen (upto f es) <= zlen es.
Proof.
  pose proof (f_equal zlen (upto_beyond f es)) as H. rewrite zlen_app in H.
  pose proof (zlen_nonneg (upto f es)). pose proof (zlen_nonneg (beyond f es)). lia.
Qed.

(** *** The replay ledger *)

Lemma replay_head q :
  ledger q -> head (replay q) =
    match PagingReplayFences q with
    | Some r => if PagingReplayCount q =? 0 then None else Some (r .[ PagingReplayHead q ])
    | None => None
    end.
Proof.
  intros L. unfold replay. destruct (PagingReplayFences q) as [r|]; [|done].
  destruct (Z.eqb_spec (PagingReplayCount q) 0) as [E|E].
  - by rewrite E.
  - pose proof (lg_live q L E). pose proof (lg_head q L). pose proof (lg_count q L).
    by rewrite ring_pop by lia.
Qed.

Lemma replay_nil q : ledger q -> replay q = [] <-> PagingReplayCount q = 0.
Proof.
  intros L. pose proof (lg_fences q L) as Hf. pose proof (lg_count q L). unfold replay.
  destruct (PagingReplayFences q) as [r|]; [|done]. split.
  - intros E. apply (f_equal zlen) in E. rewrite zlen_ring_list in E by lia. done.
  - by intros ->.
Qed.

(** Consuming the next fence of the ledger. *)
Definition replay_popped (q : APPLE_AGX_SUBMISSION_QUEUE) : APPLE_AGX_SUBMISSION_QUEUE :=
  let count := u32 (PagingReplayCount q - 1) in
  q <| PagingReplayFences :=
         (fun r => r .[ PagingReplayHead q <- 0 ]) <$> PagingReplayFences q |>
    <| PagingReplayHead := if count =? 0 then 0
         else u32 (PagingReplayHead q + 1) mod PagingReplayCapacity q |>
    <| PagingReplayCount := count |>.

Lemma replay_popped_spec q :
  ledger q -> PagingReplayCount q <> 0 ->
  ledger (replay_popped q) /\ replay (replay_popped q) = tail (replay q).
Proof.
  intros L Hc. pose proof (lg_fences q L) as Hf. pose proof (lg_count q L).
  pose proof (lg_live q L Hc). pose proof (lg_head q L). pose proof (lg_cap q L) as Hcap.
  unfold replay_popped, replay. destruct (PagingReplayFences q) as [r|] eqn:E; [|done].
  destruct Hf as [Hr Hle].
  rewrite (wrap_id 32 (PagingReplayCount q - 1)) by word_lia.
  rewrite (wrap_id 32 (PagingReplayHead q + 1)) by word_lia.
  change ((PagingReplayHead q + 1) mod PagingReplayCapacity q)
    with (ring_slot (PagingReplayCapacity q) (PagingReplayHead q) 1).
  pose proof (ring_slot_bound (PagingReplayCapacity q) ltac:(lia) (PagingReplayHead q) 1).
  destruct (Z.eqb_spec (PagingReplayCount q - 1) 0) as [E1|E1]; split.
  - split; simpl; rewrite ?E; simpl; rewrite ?zlen_set; done || lia.
  - simpl. rewrite (ring_pop _ _ _ (PagingReplayCount q)) by lia. by rewrite E1.
  - split; simpl; rewrite ?E; simpl; rewrite ?zlen_set; done || lia.
  - simpl. rewrite (ring_pop _ _ _ (PagingReplayCount q)) by lia. simpl.
    apply list_fmap_ext. intros k j Hj. apply lookup_seqZ in Hj as [-> ?].
    apply get_set_ne; [lia|apply ring_slot_bound; lia|].
    rewrite ring_slot_succ by lia.
    rewrite <- (ring_slot_0 (PagingReplayCapacity q) (PagingReplayHead q)) at 1 by lia.
    intros Heq. apply ring_slot_inj in Heq; lia.
Qed.

Definition packet_ok (s : APPLE_AGX_SUBMISSION) (T B St E Ds De : Z) : Prop :=
  Kind s <> AppleAgxSubmissionInvalid /\ Reserved s = 0 /\ St <= E <= B /\ Ds <= De /\
  u32 (De - Ds) = DmaBytes s /\
  (Kind s = AppleAgxSubmissionGdi -> T <> 0 /\ B <> 0 /\ St = 0 /\ E <> 0) /\
  (T = 0 <-> B = 0).

(** What the queue admits: a new packet when nothing is owed, or exactly the next
    fence owed. *)
Definition admissible (q : APPLE_AGX_SUBMISSION_QUEUE) (s : APPLE_AGX_SUBMISSION) : Prop :=
  if paging_replay s then
    serial_after 32 (Fence s) (CompletedFence q) = true /\
    serial_after 32 (Fence s) (LastSubmittedFence q) = false /\
    head (replay q) = Some (Fence s) /\ Fence s ∉ fence_of <$> entries q
  else replay q = [] /\ serial_after 32 (Fence s) (LastSubmittedFence q) = true.

Definition may_accept q s T B St E Ds De : Prop :=
  zlen (entries q) < Capacity q /\ packet_ok s T B St E Ds De /\ admissible q s.

Definition new_entry s T B St E Ds De : APPLE_AGX_SUBMISSION_ENTRY :=
  Build_APPLE_AGX_SUBMISSION_ENTRY s T B St E Ds De.

(** The queue after storing [e] at offset [off]. *)
Definition inserted q a off e : APPLE_AGX_SUBMISSION_QUEUE :=
  q <| Entries := Some (a .[ ring_slot (Capacity q) (Head q) off <- e ]) |>
    <| Count := Count q + 1 |>.

Lemma inserted_spec q a off e :
  storage q a -> 0 <= off <= Count q -> Count q < Capacity q ->
  let b := ring_shift (Capacity q) (Head q) (Count q) off a in
  storage (inserted q b off e) (b .[ ring_slot (Capacity q) (Head q) off <- e ]) /\
  entries (inserted q b off e) = insert_at off e (entries q).
Proof.
  intros S ? ?. cbv zeta. pose proof (st_cap q a S).
  destruct (ring_shift_spec (Capacity q) ltac:(lia) a (Head q) (Count q) off)
    as [Hl _]; [apply S|done..|].
  split.
  - split; simpl; [done|by rewrite zlen_set|apply S|apply S|lia].
  - rewrite (entries_eq q a S). unfold entries. simpl. apply ring_insert; [lia|apply S|done..].
Qed.

Lemma ring_shift_end {A} `{!Inhabited A} cap head count (a : list A) :
  ring_shift cap head count count a = a.
Proof. unfold ring_shift. rewrite Z.sub_diag. done. Qed.

(** The effect of an accepted packet. *)
Definition accepted q a s T B St E Ds De : APPLE_AGX_SUBMISSION_QUEUE :=
  let e := new_entry s T B St E Ds De in
  if paging_replay s then
    let off := zlen (upto (Fence s) (entries q)) in
    replay_popped (inserted q (ring_shift (Capacity q) (Head q) (Count q) off a) off e)
  else (inserted q a (Count q) e) <| LastSubmittedFence := Fence s |>.

(** The long guard of Accept, in the order of the code. *)
Lemma accept_guard_spec q s T B St E Ds De :
  Capacity q <> 0 ->
  ((Capacity q =? 0) || (Capacity q <=? Count q) ||
   bool_decide (Kind s = AppleAgxSubmissionInvalid) || negb (Reserved s =? 0) ||
   (negb (PagingReplayCount q =? 0) && negb (paging_replay s)) ||
   ((negb (paging_replay s) && negb (AppleAgxFenceAfter (Fence s) (LastSubmittedFence q))) ||
    (paging_replay s &&
     (negb (AppleAgxFenceAfter (Fence s) (CompletedFence q)) ||
      AppleAgxFenceAfter (Fence s) (LastSubmittedFence q)))) ||
   (E <? St) || (B <? E) || (De <? Ds) ||
   negb (u32 (De - Ds) =? DmaBytes s) ||
   (bool_decide (Kind s = AppleAgxSubmissionGdi) &&
    ((T =? 0) || (B =? 0) || negb (St =? 0) || (E =? 0))) ||
   negb (Bool.eqb (T =? 0) (B =? 0)) = false) <->
  (Count q < Capacity q /\ packet_ok s T B St E Ds De /\
   if paging_replay s then
     serial_after 32 (Fence s) (CompletedFence q) = true /\
     serial_after 32 (Fence s) (LastSubmittedFence q) = false
   else PagingReplayCount q = 0 /\ serial_after 32 (Fence s) (LastSubmittedFence q) = true).
Proof.
  intros Hcap. change AppleAgxFenceAfter with (serial_after 32). unfold packet_ok.
  assert (Bool.eqb (T =? 0) (B =? 0) = true <-> (T = 0 <-> B = 0)) as HT.
  { rewrite eqb_true_iff. destruct (Z.eqb_spec T 0), (Z.eqb_spec B 0);
      intuition congruence. }
  rewrite !orb_false_iff, !negb_false_iff, HT, !Z.eqb_neq, !Z.ltb_ge, !Z.leb_gt, !Z.eqb_eq,
    !bool_decide_eq_false.
  assert (bool_decide (Kind s = AppleAgxSubmissionGdi) &&
          ((T =? 0) || (B =? 0) || negb (St =? 0) || (E =? 0)) = false <->
          (Kind s = AppleAgxSubmissionGdi -> T <> 0 /\ B <> 0 /\ St = 0 /\ E <> 0)) as ->.
  { guards. destruct (decide (Kind s = AppleAgxSubmissionGdi)); intuition lia. }
  destruct (paging_replay s); simpl; guards; intuition congruence.
Qed.

Lemma replay_guard_spec q f :
  ledger q ->
  (deref r := PagingReplayFences q else true in
   (PagingReplayCount q =? 0) || negb (r .[ PagingReplayHead q ] =? f)) = false <->
  head (replay q) = Some f.
Proof.
  intros L. rewrite replay_head by done. destruct (PagingReplayFences q) as [r|]; [|done].
  destruct (Z.eqb_spec (PagingReplayCount q) 0); simpl; [done|]. guards.
  split; [by intros ->|by intros [= ->]].
Qed.

Lemma accept_cases q a s T B St E Ds De r p :
  storage q a -> ledger q ->
  AppleAgxSubmissionQueueAccept (Some q) (Some s) T B St E Ds De = (r, p) ->
  (may_accept q s T B St E Ds De /\ r = true /\ p = Some (accepted q a s T B St E Ds De)) \/
  (~ may_accept q s T B St E Ds De /\ r = false /\ p = Some q).
Proof.
  intros S L. unfold AppleAgxSubmissionQueueAccept, may_accept, admissible.
  pose proof (st_cap q a S) as Hcap. pose proof (st_count q a S) as Hcnt.
  rewrite (st_entries q a S), (zlen_entries q a S). cbv zeta.
  match goal with |- context [if ?g then (false, Some q) else _] =>
    pose proof (accept_guard_spec q s T B St E Ds De ltac:(lia)) as G; cbv zeta in G;
    destruct g end.
  { intros [= <- <-]. right. split; [|done]. pose proof (replay_nil q L).
    destruct (paging_replay s); intuition congruence. }
  apply proj1 in G. specialize (G eq_refl) as (Hlt & Hpk & G).
  destruct (paging_replay s) eqn:P; cbn [andb].
  - match goal with |- context [if ?g then (false, Some q) else _] =>
      pose proof (replay_guard_spec q (Fence s) L) as R; destruct g end.
    { intros [= <- <-]. right. split; [|done]. intuition congruence. }
    apply proj1 in R. specialize (R eq_refl).
    rewrite (replay_scan_spec q a (Fence s) (Z.to_nat (Count q)) 0 (Count q) (entries q));
      [|done|rewrite (zlen_entries q a S); lia|lia|lia|].
    2: { intros k ?. rewrite (entries_eq q a S), get_ring_list by lia. done. }
    case_decide as D; [intros [= <- <-]; right; tauto|].
    rewrite Z.eqb_refl, Z.add_0_l. intros [= <- <-]. left.
    split_and!; try done; try tauto. unfold accepted. rewrite P.
    pose proof (zlen_upto (Fence s) (entries q)) as Hu. rewrite (zlen_entries q a S) in Hu.
    rewrite (slot_eq q a), (replay_shift_eq q a), (wrap_id 32 (Count q + 1))
      by (done || word_lia || lia). done.
  - intros [= <- <-]. left. pose proof (replay_nil q L). split_and!; try done; try tauto.
    unfold accepted. rewrite P.
    rewrite (slot_eq q a), (wrap_id 32 (Count q + 1)) by (done || word_lia || lia). done.
Qed.

Lemma accepted_spec q a s T B St E Ds De :
  storage q a -> ledger q -> may_accept q s T B St E Ds De ->
  let q' := accepted q a s T B St E Ds De in
  let e := new_entry s T B St E Ds De in
  (exists a', storage q' a') /\ ledger q' /\
  entries q' = (if paging_replay s
                then upto (Fence s) (entries q) ++ e :: beyond (Fence s) (entries q)
                else entries q ++ [e]) /\
  replay q' = (if paging_replay s then tail (replay q) else replay q).
Proof.
  intros S L (Hlt & _ & Ha). rewrite (zlen_entries q a S) in Hlt.
  pose proof (st_count q a S). unfold accepted, admissible in *. cbv zeta.
  destruct (paging_replay s).
  - pose proof (zlen_upto (Fence s) (entries q)) as Hu. rewrite (zlen_entries q a S) in Hu.
    destruct (inserted_spec q a (zlen (upto (Fence s) (entries q)))
      (new_entry s T B St E Ds De) S Hu Hlt) as [S' He].
    rewrite insert_at_upto in He.
    set (b := ring_shift _ _ _ _ a) in *. set (off := zlen _) in *.
    assert (ledger (inserted q b off (new_entry s T B St E Ds De))) as L'
      by (split; apply L).
    destruct (replay_popped_spec _ L') as [L2 Hr].
    { simpl. destruct Ha as (_ & _ & Hh & _). rewrite <- (replay_nil q L).
      intros E0. by rewrite E0 in Hh. }
    split_and!; [|done|exact He|exact Hr].
    eexists. split; apply S'.
  - destruct (inserted_spec q a (Count q) (new_entry s T B St E Ds De) S
      ltac:(lia) Hlt) as [S' He].
    rewrite ring_shift_end in S', He.
    rewrite <- (zlen_entries q a S) in He at 2. rewrite insert_at_end in He.
    split_and!; [|split; apply L|exact He|done].
    eexists. split; apply S'.
Qed.

(** ** Removing the head *)

Definition head_is (q : APPLE_AGX_SUBMISSION_QUEUE) (f : Z) : Prop :=
  head (fence_of <$> entries q) = Some f.

Lemma head_is_spec q a f :
  storage q a -> head_is q f <-> Count q <> 0 /\ head_fence a q = f.
Proof.
  intros S. unfold head_is. destruct (decide (Count q = 0)) as [E|E].
  - rewrite (entries_eq q a S), E. split; [done|]. by intros [? _].
  - rewrite (entries_head q a S E). simpl. unfold head_fence, fence_of.
    split; [intros [= ->]; done|by intros [_ ->]].
Qed.

(** [f] leaves the head; the published mark goes with it. *)
Lemma remove_head_spec q a f :
  storage q a -> head_is q f ->
  (exists a', storage (remove_head q a f) a') /\
  (exists e, fence_of e = f /\ entries q = e :: entries (remove_head q a f)).
Proof.
  intros S Hh. apply (head_is_spec q a f S) in Hh as [Hc Hf].
  split.
  - eexists. pose proof (storage_popped q a S Hc) as S'. split; apply S'.
  - eexists. split; [exact Hf|]. by rewrite (entries_popped q a S Hc).
Qed.

(** A completion needs the claim, a plain completion or fault its absence. *)
Definition may_commit (q : APPLE_AGX_SUBMISSION_QUEUE) (f : Z) : Prop :=
  f <> 0 /\ ClaimedCompletionFence q = f /\ head_is q f.
Definition may_complete (q : APPLE_AGX_SUBMISSION_QUEUE) (f : Z) : Prop :=
  ClaimedCompletionFence q = 0 /\ head_is q f.

Section removals.
Context (q : APPLE_AGX_SUBMISSION_QUEUE) (a : list APPLE_AGX_SUBMISSION_ENTRY)
  (S : storage q a) (f : Z).

Ltac removal :=
  pose proof (head_is_spec q a f S); pose proof (st_cap q a S);
  rewrite (st_entries q a S);
  repeat case_match; intros [= <- <-]; guards; [..|left];
  try match goal with E : f = head_fence a q |- _ => symmetry in E end;
  first [right; split_and!; [intuition (congruence || lia)|done|done] | idtac].

Lemma commit_completion_cases r p :
  AppleAgxSubmissionQueueCommitCompletion (Some q) f = (r, p) ->
  (may_commit q f /\ r = true /\
   p = Some ((remove_head q a f) <| CompletedFence := f |>
                                 <| ClaimedCompletionFence := 0 |>)) \/
  (~ may_commit q f /\ r = false /\ p = Some q).
Proof.
  unfold AppleAgxSubmissionQueueCommitCompletion, may_commit. removal. tauto.
Qed.

Lemma commit_retirement_cases r p :
  AppleAgxSubmissionQueueCommitRetirement (Some q) f = (r, p) ->
  (may_commit q f /\ r = true /\
   p = Some ((remove_head q a f) <| ClaimedCompletionFence := 0 |>)) \/
  (~ may_commit q f /\ r = false /\ p = Some q).
Proof.
  unfold AppleAgxSubmissionQueueCommitRetirement, may_commit. removal. tauto.
Qed.

Lemma subm_complete_cases r p :
  AppleAgxSubmissionQueueComplete (Some q) f = (r, p) ->
  (may_complete q f /\ r = true /\
   p = Some ((remove_head q a f) <| CompletedFence := f |>)) \/
  (~ may_complete q f /\ r = false /\ p = Some q).
Proof.
  unfold AppleAgxSubmissionQueueComplete, may_complete. removal. split_and!; first [done|intuition congruence].
Qed.

Lemma fault_cases r p :
  AppleAgxSubmissionQueueFault (Some q) f = (r, p) ->
  (may_complete q f /\ r = true /\ p = Some (remove_head q a f)) \/
  (~ may_complete q f /\ r = false /\ p = Some q).
Proof.
  unfold AppleAgxSubmissionQueueFault, may_complete. removal. split_and!; first [done|intuition congruence].
Qed.

Lemma publish_cases r p :
  ledger q -> AppleAgxSubmissionQueueMarkPublished (Some q) f = (r, p) ->
  (f <> 0 /\ PublishedFence q = 0 /\ replay q = [] /\ head_is q f /\ r = true /\
   p = Some (q <| PublishedFence := f |>)) \/
  (~ (f <> 0 /\ PublishedFence q = 0 /\ replay q = [] /\ head_is q f) /\
   r = false /\ p = Some q).
Proof.
  intros L. unfold AppleAgxSubmissionQueueMarkPublished.
  pose proof (replay_nil q L). removal. split_and!; first [done|intuition congruence].
Qed.

Lemma claim_cases r p :
  AppleAgxSubmissionQueueClaimCompletion (Some q) f = (r, p) ->
  (f <> 0 /\ ClaimedCompletionFence q = 0 /\ head_is q f /\ r = true /\
   p = Some (q <| ClaimedCompletionFence := f |>)) \/
  (~ (f <> 0 /\ ClaimedCompletionFence q = 0 /\ head_is q f) /\
   r = false /\ p = Some q).
Proof.
  unfold AppleAgxSubmissionQueueClaimCompletion. removal. split_and!; first [done|intuition congruence].
Qed.
End removals.

(** ** Discarding the preempted prefix *)

Lemma filter_paging_cons e es :
  zlen (filter is_paging (e :: es)) =
  (if bool_decide (is_paging e) then 1 else 0) + zlen (filter is_paging es).
Proof.
  unfold zlen. destruct (decide (is_paging e)).
  - rewrite filter_cons_True, bool_decide_true by done. simpl. lia.
  - rewrite filter_cons_False, bool_decide_false by done. lia.
Qed.

Lemma zlen_filter_le es : 0 <= zlen (filter is_paging es) <= zlen es.
Proof. unfold zlen. pose proof (length_filter is_paging es). lia. Qed.

Lemma count_paging_spec q a cutoff fuel : forall i l n,
  storage q a -> zlen l = Z.of_nat fuel -> 0 <= i -> i + Z.of_nat fuel = Count q ->
  (forall k, 0 <= k < Z.of_nat fuel ->
     a .[ ring_slot (Capacity q) (Head q) (i + k) ] = l .[ k ]) ->
  0 <= n <= i ->
  count_paging q a cutoff i fuel n = n + zlen (filter is_paging (upto cutoff l)).
Proof.
  induction fuel as [|fuel IH]; intros i l n S Hl Hi Hn Hk Hni; cbn [count_paging].
  { destruct l; [|unfold zlen in Hl; simpl in Hl; lia]. unfold zlen. simpl. lia. }
  destruct l as [|e l]; [unfold zlen in Hl; simpl in Hl; lia|].
  pose proof (st_count q a S) as Hc. pose proof (st_cap q a S).
  assert (a .[ u32 (Head q + i) mod Capacity q ] = e) as ->.
  { rewrite (slot_eq q a) by (done || lia).
    specialize (Hk 0). rewrite Z.add_0_r in Hk. by apply Hk; lia. }
  change (AppleAgxFenceAfter (Fence (Submission e)) cutoff)
    with (serial_after 32 (fence_of e) cutoff).
  cbn [upto]. destruct (serial_after 32 (fence_of e) cutoff) eqn:A.
  { unfold zlen. simpl. lia. }
  rewrite filter_paging_cons.
  change (bool_decide (Kind (Submission e) = AppleAgxSubmissionPaging))
    with (bool_decide (is_paging e)).
  rewrite (IH (i + 1) l); [|done|unfold zlen in *; simpl in Hl; lia|lia|lia| |].
  - case_bool_decide; [rewrite wrap_id by word_lia|]; lia.
  - intros k ?. replace (i + 1 + k) with (i + (k + 1)) by lia. rewrite Hk by lia.
    unfold arr_get. by replace (Z.to_nat (k + 1)) with (Datatypes.S (Z.to_nat k)) by lia.
  - case_bool_decide; [rewrite wrap_id by word_lia|]; lia.
Qed.

(** One turn of the removing loop. *)
Definition discard_step (q : APPLE_AGX_SUBMISSION_QUEUE)
    (a : list APPLE_AGX_SUBMISSION_ENTRY) : APPLE_AGX_SUBMISSION_QUEUE :=
  let entry := a .[ Head q ] in
  let q' :=
    if bool_decide (is_paging entry)
    then q <| PagingReplayFences :=
                (fun r => r .[ PagingReplayCount q <- fence_of entry ])
                  <$> PagingReplayFences q |>
           <| PagingReplayCount := u32 (PagingReplayCount q + 1) |>
    else q in
  q' <| Entries := Some (a .[ Head q <- entry_zero entry ]) |>
     <| Head := u32 (Head q' + 1) mod Capacity q' |>
     <| Count := u32 (Count q' - 1) |>.

(** Room in the ledger for the paging fences of [es]. *)
Definition room (q : APPLE_AGX_SUBMISSION_QUEUE) (es : list APPLE_AGX_SUBMISSION_ENTRY)
    : Prop :=
  PagingReplayHead q = 0 /\
  (filter is_paging es = [] \/
   PagingReplayFences q <> None /\
   PagingReplayCount q + zlen (filter is_paging es) <= PagingReplayCapacity q).

Lemma discard_step_spec q a es :
  storage q a -> ledger q -> Count q <> 0 -> room q (a .[ Head q ] :: es) ->
  let q' := discard_step q a in
  storage q' (a .[ Head q <- entry_zero a .[ Head q ] ]) /\
  ledger q' /\ room q' es /\
  entries q = a .[ Head q ] :: entries q' /\
  replay q' = replay q ++ paging_fences [a .[ Head q ]] /\
  Count q' = Count q - 1 /\
  q' = q <| Entries := Entries q' |> <| Head := Head q' |> <| Count := Count q' |>
         <| PagingReplayFences := PagingReplayFences q' |>
         <| PagingReplayCount := PagingReplayCount q' |>.
Proof.
  intros S L Hc [Hh Hroom]. cbv zeta. set (e := a .[ Head q ]) in *.
  pose proof (lg_count q L). pose proof (lg_cap q L). pose proof (st_count q a S).
  pose proof (st_cap q a S). pose proof (lg_fences q L) as Hf.
  assert (u32 (Count q - 1) = Count q - 1) as Hc1 by (apply wrap_id; word_lia).
  unfold discard_step. fold e. unfold paging_fences.
  destruct (decide (is_paging e)) as [P|P].
  - rewrite bool_decide_true by done. rewrite filter_cons_True in Hroom by done.
    destruct Hroom as [?|[Hne Hle]]; [done|].
    destruct (PagingReplayFences q) as [r|] eqn:Er; [|done]. destruct Hf as [Hr Hle2].
    unfold zlen in Hle. simpl in Hle.
    assert (u32 (PagingReplayCount q + 1) = PagingReplayCount q + 1) as Hw
      by (apply wrap_id; word_lia).
    rewrite filter_cons_True by done. simpl.
    set (q1 := q <| PagingReplayFences := Some (r .[ PagingReplayCount q <- fence_of e ]) |>
                 <| PagingReplayCount := u32 (PagingReplayCount q + 1) |>).
    assert (storage q1 a) as S1 by (split; apply S).
    pose proof (storage_popped q1 a S1 Hc) as HS. unfold q1 in *. clear q1 S1.
    rewrite Hw in *. split_and!; try done.
    + split; simpl; rewrite ?zlen_set; try (done || lia); apply L.
    + split; [done|]. destruct (decide (filter is_paging es = [])); [by left|right].
      simpl. split; [done|]. unfold zlen. lia.
    + rewrite (entries_popped q a S Hc). fold e. f_equal.
    + unfold replay. simpl. rewrite Er, Hh.
      pose proof (ring_push (PagingReplayCapacity q) ltac:(lia) r 0 (PagingReplayCount q)
        (fence_of e) ltac:(lia) ltac:(lia)) as Hpush.
      unfold ring_slot in Hpush at 1. by rewrite Z.add_0_l, Z.mod_small in Hpush by lia.
  - rewrite bool_decide_false by done. rewrite filter_cons_False in Hroom by done.
    rewrite filter_cons_False by done. simpl. rewrite app_nil_r.
    split_and!; try done; [by apply storage_popped|..].
    + split; apply L.
    + rewrite (entries_popped q a S Hc). done.
Qed.

Lemma discard_loop_spec cutoff fuel : forall q a d,
  storage q a -> ledger q -> Count q <= Z.of_nat fuel ->
  room q (upto cutoff (entries q)) -> 0 <= d -> d + Count q <= Capacity q ->
  let '(q', d') := discard_loop cutoff fuel q a d in
  (exists a', storage q' a') /\ ledger q' /\
  entries q' = beyond cutoff (entries q) /\
  replay q' = replay q ++ paging_fences (upto cutoff (entries q)) /\
  d' = d + zlen (upto cutoff (entries q)) /\
  q' = q <| Entries := Entries q' |> <| Head := Head q' |> <| Count := Count q' |>
         <| PagingReplayFences := PagingReplayFences q' |>
         <| PagingReplayCount := PagingReplayCount q' |>.
Proof.
  assert (forall q a d, storage q a -> ledger q -> entries q = [] ->
    (exists a', storage q a') /\ ledger q /\ entries q = beyond cutoff (entries q) /\
    replay q = replay q ++ paging_fences (upto cutoff (entries q)) /\
    d = d + zlen (upto cutoff (entries q)) /\
    q = q <| Entries := Entries q |> <| Head := Head q |> <| Count := Count q |>
          <| PagingReplayFences := PagingReplayFences q |>
          <| PagingReplayCount := PagingReplayCount q |>) as Hempty.
  { intros q a d S L He. rewrite He. simpl. rewrite app_nil_r.
    split_and!; try done; [by eexists|unfold zlen; simpl; lia|by destruct q]. }
  induction fuel as [|fuel IH]; intros q a d S L Hfuel Hroom Hd Hdc; cbn [discard_loop].
  { apply (Hempty q a); [done..|]. rewrite (entries_eq q a S).
    pose proof (st_count q a S). by replace (Count q) with 0 by lia. }
  destruct (Z.eqb_spec (Count q) 0) as [E|E].
  { apply (Hempty q a); [done..|]. by rewrite (entries_eq q a S), E. }
  pose proof (entries_popped q a S E) as Hent.
  change (AppleAgxFenceAfter (Fence (Submission (a .[ Head q ]))) cutoff)
    with (serial_after 32 (fence_of a .[ Head q ]) cutoff).
  destruct (serial_after 32 (fence_of a .[ Head q ]) cutoff) eqn:A.
  { rewrite Hent. simpl. rewrite A. simpl. rewrite app_nil_r.
    split_and!; try done; [by eexists|unfold zlen; simpl; lia|by destruct q]. }
  rewrite Hent in Hroom. cbn [upto] in Hroom. rewrite A in Hroom.
  destruct (discard_step_spec q a _ S L E Hroom)
    as (S' & L' & Hroom' & He & Hr & Hcount & Heq).
  assert (entries (discard_step q a) = entries (popped q a)) as Hsame by congruence.
  rewrite <- Hsame in Hroom'.
  pose proof (st_count q a S). pose proof (st_cap q a S).
  assert (u32 (d + 1) = d + 1) as Hd1 by (apply wrap_id; word_lia). rewrite Hd1.
  specialize (IH (discard_step q a) _ (d + 1) S' L' ltac:(lia) Hroom' ltac:(lia)).
  match goal with |- context [discard_loop ?c ?n ?x ?y ?z] =>
    change (discard_loop c n x y z)
      with (discard_loop c n (discard_step q a)
              (a .[ Head q <- entry_zero a .[ Head q ] ]) (d + 1))
  end.
  destruct (discard_loop _ _ _ _ _) as [q' d'].
  destruct IH as (HS & HL & He' & Hr' & Hd' & Heq').
  { rewrite Hcount. rewrite Heq. simpl. lia. }
  rewrite He. cbn [upto beyond]. rewrite A. split_and!; try done.
  - rewrite Hr', Hr, <- app_assoc. f_equal. unfold paging_fences.
    by rewrite <- fmap_app, <- filter_app.
  - rewrite Hd'. unfold zlen. simpl. lia.
  - rewrite Heq'. rewrite Heq. done.
Qed.

Definition may_discard (q : APPLE_AGX_SUBMISSION_QUEUE) (cutoff : Z) : Prop :=
  ClaimedCompletionFence q = 0 /\ PublishedFence q = 0 /\ replay q = [] /\
  (cutoff = CompletedFence q \/ serial_after 32 cutoff (CompletedFence q) = true) /\
  (filter is_paging (upto cutoff (entries q)) = [] \/ PagingReplayFences q <> NULL).

Lemma zlen_paging_upto q a cutoff :
  storage q a -> zlen (filter is_paging (upto cutoff (entries q))) <= Count q.
Proof.
  intros S. pose proof (zlen_filter_le (upto cutoff (entries q))).
  pose proof (zlen_upto cutoff (entries q)) as Hu. rewrite (zlen_entries q a S) in Hu. lia.
Qed.

Lemma discard_room q a cutoff :
  storage q a -> ledger q -> may_discard q cutoff -> room q (upto cutoff (entries q)).
Proof.
  intros S L (_ & _ & Hr & _ & Hp). apply (replay_nil q L) in Hr.
  split; [by apply L|]. destruct Hp as [?|Hp]; [by left|right]. split; [done|].
  pose proof (lg_fences q L) as Hf. destruct (PagingReplayFences q); [|done].
  pose proof (zlen_paging_upto q a cutoff S). pose proof (st_count q a S). lia.
Qed.

Lemma discard_cases q a cutoff d r p d' :
  storage q a -> ledger q ->
  AppleAgxSubmissionQueueDiscardPreemptedThrough (Some q) cutoff d = (r, p, d') ->
  (may_discard q cutoff /\ d <> NULL /\ r = true /\
   d' = Some (zlen (upto cutoff (entries q))) /\
   exists q', p = Some q' /\ (exists a', storage q' a') /\ ledger q' /\
     entries q' = beyond cutoff (entries q) /\
     replay q' = paging_fences (upto cutoff (entries q)) /\
     q' = q <| Entries := Entries q' |> <| Head := Head q' |> <| Count := Count q' |>
            <| PagingReplayFences := PagingReplayFences q' |>
            <| PagingReplayCount := PagingReplayCount q' |>) \/
  (~ (may_discard q cutoff /\ d <> NULL) /\ r = false /\ p = Some q /\ d' = d).
Proof.
  intros S L. unfold AppleAgxSubmissionQueueDiscardPreemptedThrough.
  rewrite (st_entries q a S). pose proof (st_cap q a S) as Hcap.
  pose proof (replay_nil q L) as Hnil. pose proof (st_count q a S).
  destruct d as [d|]; [|intros [= <- <- <-]; right; tauto].
  assert (AppleAgxFenceAtOrAfter cutoff (CompletedFence q) = true <->
          cutoff = CompletedFence q \/ serial_after 32 cutoff (CompletedFence q) = true)
    as Hat.
  { unfold AppleAgxFenceAtOrAfter. guards. done. }
  pose proof (count_paging_spec q a cutoff (Z.to_nat (Count q)) 0 (entries q) 0 S) as Hcp.
  rewrite Hcp; clear Hcp; [|rewrite (zlen_entries q a S); lia|lia|lia| |lia].
  2: { intros k ?. by rewrite (entries_eq q a S), get_ring_list by lia. }
  pose proof (zlen_paging_upto q a cutoff S) as Hpu.
  pose proof (zlen_filter_le (upto cutoff (entries q))) as Hfl.
  assert (zlen (filter is_paging (upto cutoff (entries q))) = 0 <->
          filter is_paging (upto cutoff (entries q)) = []) as Hz.
  { unfold zlen. split; [|by intros ->]. intros ?. apply nil_length_inv. lia. }
  case_match eqn:G; [intros [= <- <- <-]; right; split; [|done]|].
  { unfold may_discard. guards. intuition (congruence || lia). }
  case_match eqn:G2; [intros [= <- <- <-]; right; split; [|done]|].
  { pose proof (lg_fences q L) as Hf. unfold may_discard. guards.
    destruct (PagingReplayFences q); simpl in *;
      intuition (congruence || lia). }
  assert (may_discard q cutoff) as Hm.
  { unfold may_discard. guards. split_and!; try tauto.
    destruct (PagingReplayFences q); [by right|left]. simpl in G2. intuition (congruence || lia). }
  pose proof (discard_loop_spec cutoff (Z.to_nat (Count q)) q a 0 S L ltac:(lia)
    (discard_room q a cutoff S L Hm) ltac:(lia) ltac:(lia)) as Hloop.
  destruct (discard_loop _ _ _ _ _) as [q' d2].
  destruct Hloop as (HS & HL & He & Hr & -> & Heq). intros [= <- <- <-]. left.
  split_and!; try done. exists q'. split_and!; try done.
  rewrite Hr. destruct Hm as (_ & _ & -> & _). done.
Qed.

(** ** The invariant *)

Record wf (q : APPLE_AGX_SUBMISSION_QUEUE) : Prop := {
  wf_storage : exists a, storage q a;
  wf_ledger : ledger q;
  wf_published : PublishedFence q <> 0 -> replay q = [] /\ head_is q (PublishedFence q);
  wf_claimed : ClaimedCompletionFence q <> 0 ->
               ClaimedCompletionFence q ∈ fence_of <$> entries q;
}.

(** Storage the caller hands over: arrays of the stated length, small enough for
    32-bit ring arithmetic. *)
Definition initial (q : APPLE_AGX_SUBMISSION_QUEUE) : Prop :=
  exists raw a, 0 < zlen a <= 2 ^ 31 /\
    AppleAgxSubmissionQueueInitialize (Some raw) (Some a) (zlen a) = (true, Some q).

Inductive step (q q' : APPLE_AGX_SUBMISSION_QUEUE) : Prop :=
  | step_configure a n r : zlen a = n -> is_u32 n ->
      AppleAgxSubmissionQueueConfigurePagingReplay (Some q) (Some a) n = (r, Some q') ->
      step q q'
  | step_accept s T B St E Ds De r :
      AppleAgxSubmissionQueueAccept (Some q) (Some s) T B St E Ds De = (r, Some q') ->
      step q q'
  | step_publish f r :
      AppleAgxSubmissionQueueMarkPublished (Some q) f = (r, Some q') -> step q q'
  | step_claim f r :
      AppleAgxSubmissionQueueClaimCompletion (Some q) f = (r, Some q') -> step q q'
  | step_release f r :
      AppleAgxSubmissionQueueReleaseCompletion (Some q) f = (r, Some q') -> step q q'
  | step_commit f r :
      AppleAgxSubmissionQueueCommitCompletion (Some q) f = (r, Some q') -> step q q'
  | step_retire f r :
      AppleAgxSubmissionQueueCommitRetirement (Some q) f = (r, Some q') -> step q q'
  | step_discard c d r d' :
      AppleAgxSubmissionQueueDiscardPreemptedThrough (Some q) c d = (r, Some q', d') ->
      step q q'
  | step_reset b r :
      AppleAgxSubmissionQueueResetPagingReplay (Some q) b = (r, Some q') -> step q q'
  | step_complete f r :
      AppleAgxSubmissionQueueComplete (Some q) f = (r, Some q') -> step q q'
  | step_fault f r :
      AppleAgxSubmissionQueueFault (Some q) f = (r, Some q') -> step q q'.

Lemma zlen_zero_loop n (a : list APPLE_AGX_SUBMISSION_ENTRY) :
  0 <= n ->
  zlen (for_range 0 n (fun index a => a .[ index <- entry_zero a .[ index ] ]) a) = zlen a.
Proof.
  intros Hn. refine (for_range_inv (fun _ b => zlen b = zlen a) 0 n _ a Hn _ _); [done|].
  intros i b _ Hb. by rewrite zlen_set.
Qed.

Lemma subm_wf_initial q : initial q -> wf q.
Proof.
  intros (raw & a & Hc & H). unfold AppleAgxSubmissionQueueInitialize in H.
  destruct (Z.eqb_spec (zlen a) 0); [lia|]. injection H as <-.
  split; simpl; try done.
  eexists. split; simpl; [done|apply zlen_zero_loop; lia|lia..].
Qed.

(** Parts of the invariant that removing the head keeps. *)
Lemma wf_remove_head q a f c claimed :
  wf q -> storage q a -> head_is q f ->
  (ClaimedCompletionFence q = 0 \/ ClaimedCompletionFence q = f) -> claimed = 0 ->
  wf ((remove_head q a f) <| CompletedFence := c |> <| ClaimedCompletionFence := claimed |>).
Proof.
  intros W S Hh Hcl ->. destruct (remove_head_spec q a f S Hh) as [[a' S'] (e & He & Hent)].
  split; simpl; [exists a'; split; apply S'|split; apply W| |done].
  destruct (Z.eqb_spec (PublishedFence q) f) as [E|E]; [done|].
  intros Hp. destruct (wf_published q W Hp) as [_ Hp2]. unfold head_is in *. congruence.
Qed.

Lemma remove_head_same q a f :
  (remove_head q a f) = (remove_head q a f) <| CompletedFence := CompletedFence q |>
    <| ClaimedCompletionFence := ClaimedCompletionFence q |>.
Proof. done. Qed.

Lemma wf_accepted q a s T B St E Ds De :
  wf q -> storage q a -> may_accept q s T B St E Ds De ->
  wf (accepted q a s T B St E Ds De).
Proof.
  intros W S Hm. destruct (accepted_spec q a s T B St E Ds De S (wf_ledger q W) Hm)
    as (HS & HL & He & Hr).
  assert (PublishedFence (accepted q a s T B St E Ds De) = PublishedFence q /\
          ClaimedCompletionFence (accepted q a s T B St E Ds De) =
            ClaimedCompletionFence q) as [Hp Hc].
  { unfold accepted. by destruct (paging_replay s). }
  split; [done|done|rewrite Hp|rewrite Hc].
  - intros Hpub. destruct (wf_published q W Hpub) as [Hnil Hhd].
    destruct Hm as (_ & _ & Ha). unfold admissible in Ha.
    destruct (paging_replay s).
    + destruct Ha as (_ & _ & Ha & _). by rewrite Hnil in Ha.
    + unfold head_is in *. rewrite Hr, He. split; [tauto|]. rewrite fmap_app.
      by destruct (fence_of <$> entries q).
  - intros Hcl. pose proof (wf_claimed q W Hcl) as Hin. rewrite He.
    destruct (paging_replay s).
    + rewrite <- (upto_beyond (Fence s) (entries q)), fmap_app, elem_of_app in Hin.
      rewrite fmap_app, fmap_cons, elem_of_app, elem_of_cons. tauto.
    + rewrite fmap_app, elem_of_app. by left.
Qed.

Lemma subm_wf_step q q' : wf q -> step q q' -> wf q'.
Proof.
  intros W H. destruct (wf_storage q W) as [a S]. pose proof (wf_ledger q W) as L.
  destruct H as [a2 n r Ha Hn H|s T B St E Ds De r H|f r H|f r H|f r H|f r H|f r H
    |c d r d' H|b r H|f r H|f r H].
  - unfold AppleAgxSubmissionQueueConfigurePagingReplay in H.
    match type of H with (if ?g then _ else _) = _ => destruct g eqn:G end;
      injection H as <- <-; [done|]. subst n. guards.
    pose proof (zlen_fill 0 (zlen a2) (fun _ => 0) a2 ltac:(apply Hn)) as Hl.
    pose proof (st_cap q a S). pose proof (lg_fences q L) as Hf.
    destruct (PagingReplayFences q) as [?|] eqn:EF; [done|].
    pose proof (lg_idle q L Hf).
    split; simpl; [exists a; split; apply S| |done|done].
    split; simpl; rewrite ?Hf, ?Hl; try done || lia.
  - destruct (accept_cases q a s T B St E Ds De r _ S L H) as
      [(Hm & _ & Hq)|(_ & _ & [= ->])]; [|done].
    injection Hq as ->. by apply wf_accepted.
  - apply (publish_cases q a S) in H as
      [(_ & _ & Hr & Hh & _ & [= ->])|(_ & _ & [= ->])]; [|done..].
    split; try apply W; simpl; [exists a; split; apply S|split; apply L|done].
  - apply (claim_cases q a S) in H as [(_ & _ & Hh & _ & [= ->])|(_ & _ & [= ->])]; [|done].
    split; simpl; [exists a; split; apply S|split; apply L|apply W|].
    intros _. change (f ∈ fence_of <$> entries q). by apply head_Some_elem_of.
  - unfold AppleAgxSubmissionQueueReleaseCompletion in H. c_cases.
    split; simpl; [exists a; split; apply S|split; apply L|apply W|done].
  - destruct (commit_completion_cases q a S f r _ H) as
      [((_ & Hcl & Hh) & _ & Hq)|(_ & _ & Hq)]; injection Hq as ->; [|done].
    by apply wf_remove_head; auto.
  - destruct (commit_retirement_cases q a S f r _ H) as
      [((_ & Hcl & Hh) & _ & Hq)|(_ & _ & Hq)]; injection Hq as ->; [|done].
    by apply (wf_remove_head q a f (CompletedFence q)); auto.
  - destruct (discard_cases q a c d r _ d' S L H) as
      [(Hm & _ & _ & _ & q2 & [= <-] & HS & HL & He & Hr & Heq)|(_ & _ & [= ->] & _)];
      [|done].
    destruct Hm as (Hcl & Hp & _). split; [done|done|..]; rewrite Heq; simpl; congruence.
  - unfold AppleAgxSubmissionQueueResetPagingReplay in H. c_cases. guards.
    pose proof (lg_fences q L) as Hf. rewrite H0 in Hf. destruct Hf as [Hf1 Hf2].
    pose proof (lg_cap q L). pose proof (lg_count q L).
    match goal with l : list Z |- _ =>
      pose proof (zlen_fill 0 (PagingReplayCapacity q) (fun _ => 0) l ltac:(lia)) as Hl end.
    split; simpl; [exists a; split; apply S| |intros ?; congruence|intros ?; congruence].
    split; simpl; rewrite ?Hl; try done || lia.
  - destruct (subm_complete_cases q a S f r _ H) as
      [((Hcl & Hh) & _ & Hq)|(_ & _ & Hq)]; injection Hq as ->; [|done].
    apply (wf_remove_head q a f f (ClaimedCompletionFence q)); auto.
  - destruct (fault_cases q a S f r _ H) as
      [((Hcl & Hh) & _ & Hq)|(_ & _ & Hq)]; injection Hq as ->; [|done].
    rewrite (remove_head_same q a f). by apply wf_remove_head; auto.
Qed.

#[export] Program Instance submission_component : Component APPLE_AGX_SUBMISSION_QUEUE := {
  comp_init := initial;
  comp_step := step;
  comp_inv := wf;
}.
Next Obligation. apply subm_wf_initial. Qed.
Next Obligation. apply subm_wf_step. Qed.

(** ** Replaying a discarded prefix *)

Lemma upto_app f l1 l2 :
  Forall (fun e => serial_after 32 (fence_of e) f = false) l1 ->
  upto f (l1 ++ l2) = l1 ++ upto f l2 /\ beyond f (l1 ++ l2) = beyond f l2.
Proof.
  induction 1 as [|e l1 He _ [IH1 IH2]]; [done|]. simpl. rewrite He, IH1. done.
Qed.

Lemma upto_after f l :
  Forall (fun e => serial_after 32 (fence_of e) f = true) l -> upto f l = [] /\ beyond f l = l.
Proof. intros H. destruct l as [|e l]; [done|]. apply Forall_cons in H as [He _]. simpl. by rewrite He. Qed.

(** A replayed packet goes between what precedes it and what follows it. *)
Lemma replay_insert f e l1 l2 :
  Forall (fun x => serial_after 32 f (fence_of x) = true) l1 ->
  Forall (fun x => serial_after 32 (fence_of x) f = true) l2 ->
  upto f (l1 ++ l2) ++ e :: beyond f (l1 ++ l2) = l1 ++ e :: l2.
Proof.
  intros H1 H2. destruct (upto_app f l1 l2) as [-> ->].
  { eapply Forall_impl; [exact H1|]. intros x. apply serial_after_asym. lia. }
  destruct (upto_after f l2 H2) as [-> ->]. by rewrite app_nil_r.
Qed.

(** Accepting a list of packets, each with its private data interval. *)
Definition accept_entry (q : APPLE_AGX_SUBMISSION_QUEUE) (e : APPLE_AGX_SUBMISSION_ENTRY)
    : bool * ptr APPLE_AGX_SUBMISSION_QUEUE :=
  AppleAgxSubmissionQueueAccept (Some q) (Some (Submission e)) (PrivateDataToken e)
    (PrivateDataBytes e) (PrivateDataStart e) (PrivateDataEnd e) (DmaSubmissionStart e)
    (DmaSubmissionEnd e).

Fixpoint accept_all (es : list APPLE_AGX_SUBMISSION_ENTRY) (q : APPLE_AGX_SUBMISSION_QUEUE)
    : bool * APPLE_AGX_SUBMISSION_QUEUE :=
  match es with
  | [] => (true, q)
  | e :: es =>
      match accept_entry q e with
      | (true, Some q) => accept_all es q
      | _ => (false, q)
      end
  end.

Definition entry_ok (e : APPLE_AGX_SUBMISSION_ENTRY) : Prop :=
  packet_ok (Submission e) (PrivateDataToken e) (PrivateDataBytes e) (PrivateDataStart e)
    (PrivateDataEnd e) (DmaSubmissionStart e) (DmaSubmissionEnd e).

Lemma new_entry_of e :
  new_entry (Submission e) (PrivateDataToken e) (PrivateDataBytes e) (PrivateDataStart e)
    (PrivateDataEnd e) (DmaSubmissionStart e) (DmaSubmissionEnd e) = e.
Proof. by destruct e. Qed.

(** Fences in serial order, all after the completed one and none after the last. *)
Definition serial_line (q : APPLE_AGX_SUBMISSION_QUEUE)
    (es : list APPLE_AGX_SUBMISSION_ENTRY) : Prop :=
  StronglySorted (fun e e' => serial_after 32 (fence_of e') (fence_of e) = true) es /\
  Forall (fun e => serial_after 32 (fence_of e) (CompletedFence q) = true /\
                   serial_after 32 (fence_of e) (LastSubmittedFence q) = false) es.

Lemma accept_all_replay l2 : forall es q l1,
  wf q -> entries q = l1 ++ l2 -> replay q = fence_of <$> es ->
  serial_line q (l1 ++ es ++ l2) -> zlen (l1 ++ es ++ l2) <= Capacity q ->
  Forall (fun e => entry_ok e /\ paging_replay (Submission e) = true) es ->
  exists q', accept_all es q = (true, q') /\ wf q' /\
    entries q' = l1 ++ es ++ l2 /\ replay q' = [] /\
    CompletedFence q' = CompletedFence q /\ LastSubmittedFence q' = LastSubmittedFence q.
Proof.
  induction es as [|e es IH]; intros q l1 W He Hr [Hsort Hall] Hlen Hok; cbn [accept_all].
  { by exists q. }
  apply Forall_cons in Hok as [[Hpk Hpr] Hok].
  destruct (wf_storage q W) as [a S]. pose proof (wf_ledger q W) as L.
  apply StronglySorted_app in Hsort as (H1e & Hs1 & Hs).
  pose proof Hs as Hs'. cbn [app] in Hs'. apply StronglySorted_cons in Hs' as [He2 Hs2].
  assert (Forall (fun x => serial_after 32 (fence_of e) (fence_of x) = true) l1) as Hbefore.
  { apply Forall_forall. intros x Hx. apply (H1e x e Hx). by constructor. }
  apply Forall_app in He2 as [He2 Hafter].
  assert (may_accept q (Submission e) (PrivateDataToken e) (PrivateDataBytes e)
    (PrivateDataStart e) (PrivateDataEnd e) (DmaSubmissionStart e) (DmaSubmissionEnd e)) as Hm.
  { rewrite !zlen_app in Hlen. split_and!.
    - rewrite He, zlen_app. unfold zlen at 2 in Hlen. simpl in Hlen.
      pose proof (zlen_nonneg l1). unfold zlen in *. lia.
    - exact Hpk.
    - unfold admissible. rewrite Hpr.
      apply Forall_app in Hall as [_ Hall]. cbn [app] in Hall.
      apply Forall_cons in Hall as [[? ?] _].
      split_and!; [done|done|by rewrite Hr|]. rewrite He, fmap_app, elem_of_app.
      intros [Hin|Hin]; apply list_elem_of_fmap in Hin as (x & Hx & Hin);
        [rewrite Forall_forall in Hbefore; specialize (Hbefore x Hin)
        |rewrite Forall_forall in Hafter; specialize (Hafter x Hin)];
        unfold fence_of in *; rewrite Hx in *; by rewrite serial_after_irrefl in *. }
  unfold accept_entry.
  destruct (AppleAgxSubmissionQueueAccept _ _ _ _ _ _ _ _) as [r p] eqn:EA.
  destruct (accept_cases q a _ _ _ _ _ _ _ r p S L EA) as [(_ & -> & ->)|(Hn & _)]; [|done].
  pose proof (wf_accepted q a _ _ _ _ _ _ _ W S Hm) as W'.
  destruct (accepted_spec q a _ _ _ _ _ _ _ S L Hm) as (_ & _ & He' & Hr').
  rewrite Hpr, He, new_entry_of in He'. fold (fence_of e) in He'.
  rewrite (replay_insert (fence_of e) e l1 l2 Hbefore Hafter) in He'.
  rewrite Hpr, Hr in Hr'. cbn [fmap list_fmap tail] in Hr'.
  set (q2 := accepted _ _ _ _ _ _ _ _ _) in *.
  assert (CompletedFence q2 = CompletedFence q /\ LastSubmittedFence q2 = LastSubmittedFence q
          /\ Capacity q2 = Capacity q) as (Hc2 & Hl2 & Hcap2).
  { unfold q2, accepted. by rewrite Hpr. }
  destruct (IH q2 (l1 ++ [e])) as (q' & Hacc & Wq' & Hent & Hrep & Hcf & Hlf).
  - exact W'.
  - rewrite He'. by rewrite <- app_assoc.
  - exact Hr'.
  - unfold serial_line. rewrite Hc2, Hl2, <- app_assoc. split; [|exact Hall].
    apply StronglySorted_app. split_and!; done.
  - rewrite Hcap2, <- app_assoc. exact Hlen.
  - exact Hok.
  - exists q'. rewrite <- app_assoc in Hent. split_and!; try done; congruence.
Qed.

Lemma serial_line_fences q q' es es' :
  fence_of <$> es = fence_of <$> es' -> CompletedFence q = CompletedFence q' ->
  LastSubmittedFence q = LastSubmittedFence q' -> serial_line q es -> serial_line q' es'.
Proof.
  unfold serial_line. intros Hf -> -> [Hs Ha]. split.
  - apply (sorted_fmap (fun f g => serial_after 32 g f = true) fence_of).
    rewrite <- Hf. by apply (sorted_fmap (fun f g => serial_after 32 g f = true) fence_of).
  - apply (Forall_fmap fence_of (fun f => serial_after 32 f _ = true /\
      serial_after 32 f _ = false)).
    rewrite <- Hf. by apply Forall_fmap.
Qed.

Lemma serial_line_sublist q es es' :
  es' `sublist_of` es -> serial_line q es -> serial_line q es'.
Proof.
  intros Hl [Hs Ha]. split; [by eapply sorted_sublist|by eapply Forall_sublist_of].
Qed.

(** Which calls move the completed fence. *)
Lemma completion_changes q q' a :
  wf q -> storage q a -> step q q' -> CompletedFence q' <> CompletedFence q ->
  head_is q (CompletedFence q') /\ entries q' = entries (remove_head q a (CompletedFence q')) /\
  (ClaimedCompletionFence q = 0 \/ ClaimedCompletionFence q = CompletedFence q').
Proof.
  intros W S H Hne. pose proof (wf_ledger q W) as L.
  destruct H as [a2 n r Ha Hn H|s T B St E Ds De r H|f r H|f r H|f r H|f r H|f r H
    |c d r d' H|b r H|f r H|f r H].
  - unfold AppleAgxSubmissionQueueConfigurePagingReplay in H. case_match; by simplify_eq/=.
  - destruct (accept_cases q a s T B St E Ds De r _ S L H) as
      [(Hm & _ & Hq)|(_ & _ & Hq)]; injection Hq as ->; [|done].
    unfold accepted in Hne. by destruct (paging_replay s).
  - destruct (publish_cases q a S f r _ L H) as [(_ & _ & _ & _ & _ & Hq)|(_ & _ & Hq)];
      by injection Hq as ->.
  - destruct (claim_cases q a S f r _ H) as [(_ & _ & _ & _ & Hq)|(_ & _ & Hq)];
      by injection Hq as ->.
  - unfold AppleAgxSubmissionQueueReleaseCompletion in H. case_match; by simplify_eq/=.
  - destruct (commit_completion_cases q a S f r _ H) as
      [((_ & Hcl & Hh) & _ & Hq)|(_ & _ & Hq)]; injection Hq as ->; [|done].
    split_and!; [done|done|by right].
  - destruct (commit_retirement_cases q a S f r _ H) as
      [(_ & _ & Hq)|(_ & _ & Hq)]; by injection Hq as ->.
  - destruct (discard_cases q a c d r _ d' S L H) as
      [(_ & _ & _ & _ & q2 & Hq & _ & _ & _ & _ & Heq)|(_ & _ & Hq & _)];
      injection Hq as <-; [by rewrite Heq in Hne|done].
  - unfold AppleAgxSubmissionQueueResetPagingReplay in H. repeat case_match; by simplify_eq/=.
  - destruct (subm_complete_cases q a S f r _ H) as
      [((Hcl & Hh) & _ & Hq)|(_ & _ & Hq)]; injection Hq as ->; [|done].
    split_and!; [done|done|by left].
  - destruct (fault_cases q a S f r _ H) as [(_ & _ & Hq)|(_ & _ & Hq)];
      by injection Hq as ->.
Qed.

(** Decidability of the guards, for the executable statements below. *)
#[export] Instance packet_ok_dec s T B St E Ds De : Decision (packet_ok s T B St E Ds De).
Proof. unfold packet_ok. apply _. Defined.
#[export] Instance entry_ok_dec e : Decision (entry_ok e).
Proof. unfold entry_ok. apply _. Defined.
#[export] Instance admissible_dec q s : Decision (admissible q s).
Proof. unfold admissible. destruct (paging_replay s); apply _. Defined.
#[export] Instance may_accept_dec q s T B St E Ds De : Decision (may_accept q s T B St E Ds De).
Proof. unfold may_accept. apply _. Defined.
#[export] Instance may_discard_dec q c : Decision (may_discard q c).
Proof. unfold may_discard, is_Some. apply _. Defined.

(** ** Properties *)

(** A queue of four entries with a ledger, and packets for it. *)
Definition demo_packet (kind : APPLE_AGX_SUBMISSION_KIND) (f flags : Z) : APPLE_AGX_SUBMISSION :=
  Build_APPLE_AGX_SUBMISSION kind f 0 0 0 flags 0x1000 16 0.
Definition demo_entry (s : APPLE_AGX_SUBMISSION) : APPLE_AGX_SUBMISSION_ENTRY :=
  new_entry s 5 64 0 8 0 16.
Definition raw_queue : APPLE_AGX_SUBMISSION_QUEUE :=
  Build_APPLE_AGX_SUBMISSION_QUEUE None 0 0 0 0 0 0 0 None 0 0 0.
Definition empty_queue : APPLE_AGX_SUBMISSION_QUEUE :=
  default raw_queue (AppleAgxSubmissionQueueInitialize (Some raw_queue)
    (Some (replicate 4 inhabitant)) 4).2.
Definition ready_queue : APPLE_AGX_SUBMISSION_QUEUE :=
  default empty_queue (AppleAgxSubmissionQueueConfigurePagingReplay (Some empty_queue)
    (Some (replicate 4 0)) 4).2.
Definition demo_entries : list APPLE_AGX_SUBMISSION_ENTRY :=
  [demo_entry (demo_packet AppleAgxSubmissionPaging 1 1);
   demo_entry (demo_packet AppleAgxSubmissionGdi 2 0);
   demo_entry (demo_packet AppleAgxSubmissionPaging 3 1);
   demo_entry (demo_packet AppleAgxSubmissionGdi 4 0)].
Definition full_queue : APPLE_AGX_SUBMISSION_QUEUE := (accept_all demo_entries ready_queue).2.

Lemma empty_queue_initial : initial empty_queue.
Proof. exists raw_queue, (replicate 4 inhabitant). by split; [|vm_compute]. Qed.

Lemma ready_queue_reachable : reachable ready_queue.
Proof.
  eapply reachable_step; [exists empty_queue; split; [apply empty_queue_initial|apply rtc_refl]|].
  eapply (step_configure _ _ (replicate 4 0) 4); [done|split; done|reflexivity].
Qed.

Lemma accept_all_reachable es : forall q q',
  reachable q -> accept_all es q = (true, q') -> reachable q'.
Proof.
  induction es as [|e es IH]; intros q q' Hr H; cbn [accept_all] in H.
  { by injection H as <-. }
  destruct (accept_entry q e) as [[] [q1|]] eqn:E; try done.
  apply (IH q1); [|done]. eapply reachable_step; [exact Hr|].
  unfold accept_entry in E. by eapply step_accept.
Qed.

Lemma full_queue_reachable : reachable full_queue.
Proof.
  apply (accept_all_reachable demo_entries ready_queue); [apply ready_queue_reachable|].
  by vm_compute.
Qed.

(** C19: in every state the submission queue can reach, ring and ledger indices stay
    inside their arrays, the published packet is the head of the queue while no
    replay is owed, and a claimed completion names a queued packet. *)
Theorem submission_invariant q : reachable q -> wf q.
Proof. intros H. exact (reachable_inv q H). Qed.

Lemma submission_invariant_witness : wf full_queue.
Proof. exact (submission_invariant full_queue full_queue_reachable). Defined.

(** C17: Accept on every branch.  The call succeeds exactly when there is room, the packet is
    well formed and it is admissible.  A new packet is admissible when no replay is owed and
    its fence is after the last one submitted.  A paging resubmission is admissible when its
    fence is the next one owed, is after the completed fence and not after the last one
    submitted, and no queued packet has it: an owed fence that the completed fence has come
    to or passed is refused, room or not.  A new packet goes to the tail and its fence
    becomes the last one submitted; a replayed one goes in front of the first packet after it
    and is struck off the ledger.  A refused call changes nothing. *)
Theorem accept_functional q s T B St E Ds De :
  reachable q ->
  exists q', AppleAgxSubmissionQueueAccept (Some q) (Some s) T B St E Ds De =
    (bool_decide (may_accept q s T B St E Ds De), Some q') /\
  (~ may_accept q s T B St E Ds De -> q' = q) /\
  (may_accept q s T B St E Ds De ->
   let e := new_entry s T B St E Ds De in
   if paging_replay s then
     entries q' = upto (Fence s) (entries q) ++ e :: beyond (Fence s) (entries q) /\
     replay q' = tail (replay q) /\ LastSubmittedFence q' = LastSubmittedFence q
   else
     entries q' = entries q ++ [e] /\ replay q' = replay q /\
     LastSubmittedFence q' = Fence s).
Proof.
  intros Hr. pose proof (reachable_inv q Hr : wf q) as W.
  destruct (wf_storage q W) as [a S]. pose proof (wf_ledger q W) as L.
  destruct (AppleAgxSubmissionQueueAccept _ _ _ _ _ _ _ _) as [r p] eqn:EA.
  destruct (accept_cases q a _ _ _ _ _ _ _ r p S L EA) as [(Hm & -> & ->)|(Hm & -> & ->)];
    eexists; rewrite ?bool_decide_true, ?bool_decide_false by done; (split; [done|]);
    (split; [done|]); [|done].
  intros _. destruct (accepted_spec q a _ _ _ _ _ _ _ S L Hm) as (_ & _ & He & Hrep).
  unfold accepted in *. by destruct (paging_replay s).
Qed.

Lemma accept_functional_witness :
  exists q', accept_entry ready_queue (demo_entry (demo_packet AppleAgxSubmissionGdi 2 0)) =
    (true, Some q') /\ fence_of <$> entries q' = [2].
Proof.
  destruct (accept_functional ready_queue (demo_packet AppleAgxSubmissionGdi 2 0)
    5 64 0 8 0 16 ready_queue_reachable) as (q' & H & _ & _).
  exists q'. split; [exact H|]. vm_compute in H. by injection H as <-.
Defined.

(** A preemption discards exactly the leading packets that are not after the
    cutoff, reports how many, records the paging ones in the ledger in order, and
    touches nothing else; it is refused while a packet is published or claimed, while
    a replay is owed, for a cutoff before the completed fence, or when paging packets
    would be lost for want of a ledger. *)
Theorem discard_functional q cutoff d :
  reachable q ->
  exists q', AppleAgxSubmissionQueueDiscardPreemptedThrough (Some q) cutoff (Some d) =
    (bool_decide (may_discard q cutoff), Some q',
     Some (if bool_decide (may_discard q cutoff) then zlen (upto cutoff (entries q)) else d)) /\
  (~ may_discard q cutoff -> q' = q) /\
  (may_discard q cutoff ->
   entries q = upto cutoff (entries q) ++ entries q' /\
   replay q' = paging_fences (upto cutoff (entries q)) /\
   CompletedFence q' = CompletedFence q /\ LastSubmittedFence q' = LastSubmittedFence q).
Proof.
  intros Hr. pose proof (reachable_inv q Hr : wf q) as W.
  destruct (wf_storage q W) as [a S]. pose proof (wf_ledger q W) as L.
  destruct (AppleAgxSubmissionQueueDiscardPreemptedThrough _ _ _) as [[r p] d'] eqn:ED.
  destruct (discard_cases q a cutoff _ r p d' S L ED) as
    [(Hm & _ & -> & -> & q' & -> & _ & _ & He & Hrep & Heq)|(Hn & -> & -> & ->)].
  - exists q'. rewrite !bool_decide_true by done. split_and!; [done|done|].
    intros _. rewrite He, upto_beyond. split_and!; [done|done|by rewrite Heq..].
  - assert (~ may_discard q cutoff) as Hm by (intros ?; by apply Hn).
    exists q. by rewrite !bool_decide_false by done.
Qed.

Lemma discard_functional_witness :
  exists q', AppleAgxSubmissionQueueDiscardPreemptedThrough (Some full_queue) 3 (Some 0) =
    (true, Some q', Some 3) /\ replay q' = [1; 3] /\ fence_of <$> entries q' = [4].
Proof.
  destruct (discard_functional full_queue 3 0 full_queue_reachable) as (q' & H & _ & _).
  exists q'. split; [exact H|]. vm_compute in H. by injection H as <-.
Defined.

(** The queue still holds what it held, and owes what it owed. *)
Definition waiting (q q' : APPLE_AGX_SUBMISSION_QUEUE) : Prop :=
  entries q' = entries q /\ replay q' = replay q /\ CompletedFence q' = CompletedFence q /\
  LastSubmittedFence q' = LastSubmittedFence q /\ Capacity q' = Capacity q.

(** Once the completed fence is no longer before the next fence owed, every packet is
    refused, new or replayed. *)
Lemma overtaken_refuses q f e :
  wf q -> head (replay q) = Some f -> serial_after 32 f (CompletedFence q) = false ->
  accept_entry q e = (false, Some q).
Proof.
  intros W Hh Hf. destruct (wf_storage q W) as [a S]. pose proof (wf_ledger q W) as L.
  unfold accept_entry. destruct (AppleAgxSubmissionQueueAccept _ _ _ _ _ _ _ _) as [r p] eqn:EA.
  destruct (accept_cases q a _ _ _ _ _ _ _ r p S L EA) as [((_ & _ & Hm) & _)|(_ & -> & ->)];
    [|done]. exfalso. unfold admissible in Hm. destruct (paging_replay (Submission e)).
  - destruct Hm as (Ha & _ & Hh' & _). rewrite Hh in Hh'. injection Hh' as ->. congruence.
  - destruct Hm as [Hn _]. by rewrite Hn in Hh.
Qed.

(** C16: the paging packets a preemption discards can be replayed, up to the completion of
    later work.  Take a queue whose packets are in serial order, all after the completed fence
    and none after the last one submitted, and a discard that succeeds.  However long the queue
    then waits, as long as it still holds the packets that were kept, owes the fences that were
    recorded and has the same completed and last fence: replaying the recorded fences in their
    order is accepted packet by packet, puts the paging packets back in front of the work that
    was kept, in serial order, and clears the ledger.  But if a kept packet completes first and
    the completed fence comes to the next fence owed or passes it, that replay and every other
    packet are refused while it is owed. *)
Theorem replay_restores_paging q cutoff d q1 n :
  reachable q -> serial_line q (entries q) ->
  AppleAgxSubmissionQueueDiscardPreemptedThrough (Some q) cutoff (Some d) =
    (true, Some q1, Some n) ->
  (forall q2 es, reachable q2 -> waiting q1 q2 ->
     fence_of <$> es = replay q1 ->
     Forall (fun e => entry_ok e /\ paging_replay (Submission e) = true) es ->
     exists q3, accept_all es q2 = (true, q3) /\ entries q3 = es ++ entries q1 /\
       replay q3 = [] /\ serial_line q3 (entries q3)) /\
  (forall q2 f, reachable q2 -> head (replay q2) = Some f ->
     serial_after 32 f (CompletedFence q2) = false ->
     forall e, accept_entry q2 e = (false, Some q2)).
Proof.
  intros Hr Hline HD. split.
  2: { intros q2 f Hr2 Hh Hf e. exact (overtaken_refuses q2 f e (reachable_inv q2 Hr2) Hh Hf). }
  intros q2 es Hr2 (We & Wr & Wc & Wl & Wcap) Hes Hok.
  pose proof (reachable_inv q Hr : wf q) as W. pose proof (reachable_inv q2 Hr2 : wf q2) as W2.
  destruct (wf_storage q W) as [a S]. pose proof (wf_ledger q W) as L.
  destruct (discard_cases q a cutoff _ _ _ _ S L HD) as
    [(Hm & _ & _ & _ & q' & Hq & _ & _ & He & Hrep & Heq)|(_ & ? & _)]; [|done].
  injection Hq as <-.
  set (kept := filter is_paging (upto cutoff (entries q)) ++ beyond cutoff (entries q)).
  assert (kept `sublist_of` entries q) as Hsub.
  { rewrite <- (upto_beyond cutoff (entries q)). apply sublist_app; [|done].
    apply sublist_filter. }
  assert (serial_line q2 ([] ++ es ++ entries q1)) as Hline1.
  { apply (serial_line_fences q q2 kept); [|by rewrite ?Wc, ?Wl, Heq..|by eapply serial_line_sublist].
    unfold kept. cbn [app]. rewrite !fmap_app, Hes, He, Hrep. done. }
  destruct (accept_all_replay (entries q1) es q2 [] W2) as
    (q3 & Hacc & _ & Hent & Hrep2 & Hc & Hl); [done|by rewrite Hes|done| |done|].
  { assert (zlen ([] ++ es ++ entries q1) = zlen kept) as ->.
    { unfold zlen, kept. cbn [app]. rewrite !length_app, He.
      apply (f_equal length) in Hes. rewrite length_fmap, Hrep in Hes.
      unfold paging_fences in Hes. rewrite length_fmap in Hes. lia. }
    apply sublist_length in Hsub. pose proof (zlen_entries q a S).
    pose proof (st_count q a S). unfold zlen in *.
    assert (Capacity q1 = Capacity q) as Hcap by by rewrite Heq. lia. }
  exists q3. split_and!; [done|done|done|]. rewrite Hent.
  by apply (serial_line_fences q2 q3 (es ++ entries q1)).
Qed.

Definition demo_replay : list APPLE_AGX_SUBMISSION_ENTRY :=
  [demo_entry (demo_packet AppleAgxSubmissionPaging 1 0x81);
   demo_entry (demo_packet AppleAgxSubmissionPaging 3 0x81)].
Definition preempted_queue : APPLE_AGX_SUBMISSION_QUEUE :=
  default full_queue
    (AppleAgxSubmissionQueueDiscardPreemptedThrough (Some full_queue) 3 (Some 0)).1.2.

Lemma full_queue_line : serial_line full_queue (entries full_queue).
Proof. unfold serial_line. apply (bool_decide_unpack _). by vm_compute. Qed.

Lemma demo_replay_ok :
  Forall (fun e => entry_ok e /\ paging_replay (Submission e) = true) demo_replay.
Proof. apply (bool_decide_unpack _). by vm_compute. Qed.

Lemma preempted_queue_reachable : reachable preempted_queue.
Proof.
  eapply reachable_step; [apply full_queue_reachable|].
  eapply (step_discard _ _ 3 (Some 0) true (Some 3)). by vm_compute.
Qed.

(** The kept packet is claimed before the replay, and released. *)
Definition claimed_queue : APPLE_AGX_SUBMISSION_QUEUE :=
  default preempted_queue (AppleAgxSubmissionQueueClaimCompletion (Some preempted_queue) 4).2.

Lemma claimed_queue_reachable : reachable claimed_queue.
Proof.
  eapply reachable_step; [apply preempted_queue_reachable|].
  eapply (step_claim _ _ 4 true). by vm_compute.
Qed.

(** The kept packet completes before the replay. *)
Definition overtaken_queue : APPLE_AGX_SUBMISSION_QUEUE :=
  default preempted_queue (AppleAgxSubmissionQueueComplete (Some preempted_queue) 4).2.

Lemma overtaken_queue_reachable : reachable overtaken_queue.
Proof.
  eapply reachable_step; [apply preempted_queue_reachable|].
  eapply (step_complete _ _ 4 true). by vm_compute.
Qed.

Lemma replay_restores_paging_witness :
  (exists q3, accept_all demo_replay claimed_queue = (true, q3) /\
     fence_of <$> entries q3 = [1; 3; 4]) /\
  forall e, accept_entry overtaken_queue e = (false, Some overtaken_queue).
Proof.
  destruct (replay_restores_paging full_queue 3 0 preempted_queue 3
    full_queue_reachable full_queue_line) as [H1 H2]; [by vm_compute|]. split.
  - destruct (H1 claimed_queue demo_replay claimed_queue_reachable) as (q3 & H & He & _);
      [by vm_compute|by vm_compute|apply demo_replay_ok|].
    exists q3. split; [exact H|]. rewrite He. by vm_compute.
  - apply (H2 overtaken_queue 1 overtaken_queue_reachable); by vm_compute.
Defined.

(** The completed fence only changes by the completion of the head of the
    queue: the packet that leaves is the oldest one and carries that fence. *)
Theorem completion_retires_head q q' :
  reachable q -> step q q' -> CompletedFence q' <> CompletedFence q ->
  exists e, entries q = e :: entries q' /\ fence_of e = CompletedFence q' /\
    (ClaimedCompletionFence q = 0 \/ ClaimedCompletionFence q = CompletedFence q').
Proof.
  intros Hr H Hne. pose proof (reachable_inv q Hr : wf q) as W.
  destruct (wf_storage q W) as [a S]. pose proof (wf_ledger q W) as L.
  destruct (completion_changes q q' a W S H Hne) as (Hh & He & Hcl).
  destruct (remove_head_spec q a _ S Hh) as [_ (e & Hf & Hent)].
  exists e. rewrite He. done.
Qed.

Lemma completion_retires_head_witness :
  let q' := default full_queue (AppleAgxSubmissionQueueComplete (Some full_queue) 1).2 in
  exists e, entries full_queue = e :: entries q' /\ fence_of e = 1 /\
    (ClaimedCompletionFence full_queue = 0 \/ ClaimedCompletionFence full_queue = 1).
Proof.
  intros q'. apply (completion_retires_head full_queue q' full_queue_reachable).
  - apply (step_complete _ _ 1 true). by vm_compute.
  - by vm_compute.
Defined.

(** ** The completion transaction *)

(** Every call on a transaction.  MarkReported is made only where its caller proved
    CanReport, as its comment in the source requires. *)
Inductive transaction_step (t t' : APPLE_AGX_COMPLETION_TRANSACTION) : Prop :=
  | transaction_begin f n e r :
      AppleAgxCompletionTransactionBegin (Some t) f n e = (r, Some t') ->
      transaction_step t t'
  | transaction_advance f n e x y r :
      AppleAgxCompletionTransactionAdvance (Some t) f n e x y = (r, Some t') ->
      transaction_step t t'
  | transaction_report f n e :
      AppleAgxCompletionTransactionCanReport (Some t) f n e = true ->
      AppleAgxCompletionTransactionMarkReported t = t' -> transaction_step t t'
  | transaction_finish f n e r :
      AppleAgxCompletionTransactionFinish (Some t) f n e = (r, Some t') ->
      transaction_step t t'.

(** The position of a phase in the receipt chain. *)
Definition rank (p : APPLE_AGX_COMPLETION_PHASE) : Z :=
  match p with
  | AppleAgxCompletionIdle => 0
  | AppleAgxCompletionClaimed => 1
  | AppleAgxCompletionSchedulerCommitted => 2
  | AppleAgxCompletionLocalCommitted => 3
  | AppleAgxCompletionBackendRetired => 4
  | AppleAgxCompletionReported => 5
  end.

Definition identity (t : APPLE_AGX_COMPLETION_TRANSACTION) : Z * Z * Z :=
  (TransactionFence t, TransactionNodeOrdinal t, TransactionEngineOrdinal t).

Lemma matches_spec t f n e :
  AppleAgxCompletionTransactionMatches (Some t) f n e = true <->
  f <> 0 /\ Phase t <> AppleAgxCompletionIdle /\ identity t = (f, n, e).
Proof.
  unfold AppleAgxCompletionTransactionMatches, identity. guards.
  split; [intros (((? & ?) & ?) & ?)|]; [intuition congruence|].
  intros (? & ? & [= ? ? ?]). intuition congruence.
Qed.

(** the receipt chain of a completion.  A call on a transaction either changes
    nothing or moves it exactly one phase forward (Idle, Claimed,
    SchedulerCommitted, LocalCommitted, BackendRetired, Reported, Idle again), and
    from the claim to the finish the fence, node and engine it names stay the same:
    no phase is skipped or repeated and no report is made for another completion. *)
Theorem transaction_advances_one_phase t t' :
  transaction_step t t' ->
  t' = t \/
  (rank (Phase t') = (rank (Phase t) + 1) mod 6 /\
   (Phase t <> AppleAgxCompletionIdle -> Phase t' <> AppleAgxCompletionIdle ->
    identity t' = identity t)).
Proof.
  intros [f n e r H|f n e x y r H|f n e H <-|f n e r H].
  - unfold AppleAgxCompletionTransactionBegin in H. case_match; simplify_eq/=; [by left|].
    guards. right. rename select (Phase t = _) into Hp. by rewrite Hp.
  - unfold AppleAgxCompletionTransactionAdvance in H. case_match eqn:G; simplify_eq/=; [by left|].
    guards. right. rename select (Phase t = _) into Hp. rewrite Hp.
    unfold AppleAgxCompletionTransitionValid in *. guards.
    split; [|done]. destruct_or!; destruct_and!; by subst.
  - unfold AppleAgxCompletionTransactionCanReport in H. guards. right.
    rename select (Phase t = _) into Hp. simpl. by rewrite Hp.
  - unfold AppleAgxCompletionTransactionFinish in H. case_match; simplify_eq/=; [by left|].
    guards. right. rename select (Phase t = _) into Hp. by rewrite Hp.
Qed.

Definition claimed_transaction : APPLE_AGX_COMPLETION_TRANSACTION :=
  Build_APPLE_AGX_COMPLETION_TRANSACTION AppleAgxCompletionClaimed 7 0 0.

Lemma transaction_advances_one_phase_witness :
  let t' := claimed_transaction <| Phase := AppleAgxCompletionSchedulerCommitted |> in
  t' = claimed_transaction \/
  (rank (Phase t') = (rank (Phase claimed_transaction) + 1) mod 6 /\
   (Phase claimed_transaction <> AppleAgxCompletionIdle ->
    Phase t' <> AppleAgxCompletionIdle -> identity t' = identity claimed_transaction)).
Proof.
  apply transaction_advances_one_phase.
  apply (transaction_advance _ _ 7 0 0 AppleAgxCompletionClaimed
    AppleAgxCompletionSchedulerCommitted true). by vm_compute.
Defined.

(** ** Describing a packet *)

Definition kind_of_flags (flags : Z) : APPLE_AGX_SUBMISSION_KIND :=
  if flag flags APPLE_AGX_SUBMISSION_FLAG_CONTEXT_SWITCH then AppleAgxSubmissionContextSwitch
  else if flag flags APPLE_AGX_SUBMISSION_FLAG_NULL_RENDERING then AppleAgxSubmissionNull
  else if flag flags APPLE_AGX_SUBMISSION_FLAG_PAGING then AppleAgxSubmissionPaging
  else AppleAgxSubmissionGdi.

(** What Describe takes: a nonzero fence for the one engine, known flags, an
    interval inside the DMA buffer, and bytes exactly where the kind needs them. *)
Definition describable (f n e base size st en flags : Z) : Prop :=
  f <> 0 /\ n = 0 /\ e = 0 /\ Z.ldiff flags APPLE_AGX_SUBMISSION_FLAGS_ALLOWED = 0 /\
  st <= en <= size /\
  (kind_of_flags flags = AppleAgxSubmissionContextSwitch ->
   st = en /\ Z.ldiff flags (Z.lor APPLE_AGX_SUBMISSION_FLAG_CONTEXT_SWITCH
                               APPLE_AGX_SUBMISSION_FLAG_PAGING) = 0) /\
  (st = en -> kind_of_flags flags = AppleAgxSubmissionContextSwitch \/
              kind_of_flags flags = AppleAgxSubmissionNull) /\
  (st <> en -> base <> 0 /\ base + st < 2 ^ 64).
#[export] Instance describable_dec f n e base size st en flags :
  Decision (describable f n e base size st en flags).
Proof. unfold describable. apply _. Defined.

Definition described (f seg base st en flags : Z) : APPLE_AGX_SUBMISSION :=
  Build_APPLE_AGX_SUBMISSION (kind_of_flags flags) f 0 0 seg flags
    (if decide (st = en) then base else base + st) (en - st) 0.

(** The placing of the interval, once the kind is known. *)
Lemma place_cases (k : APPLE_AGX_SUBMISSION_KIND) base st en
    (refuse : bool * ptr APPLE_AGX_SUBMISSION) accept :
  is_u32 st -> is_u32 en -> is_u64 base -> st <= en ->
  let r :=
    if negb (u32 (en - st) =? 0) then
      if (base =? 0) || (2 ^ 64 - 1 - st <? base) then refuse
      else accept (u64 (base + st))
    else if negb (bool_decide (k = AppleAgxSubmissionContextSwitch)) &&
            negb (bool_decide (k = AppleAgxSubmissionNull))
    then refuse else accept base in
  let ok := (st = en -> k = AppleAgxSubmissionContextSwitch \/ k = AppleAgxSubmissionNull) /\
            (st <> en -> base <> 0 /\ base + st < 2 ^ 64) in
  (ok /\ r = accept (if decide (st = en) then base else base + st)) \/ (~ ok /\ r = refuse).
Proof.
  intros Hst Hen Hb Hle. cbv zeta. rewrite (wrap_id 32 (en - st)) by word_lia.
  destruct (Z.eqb_spec (en - st) 0) as [E|E]; cbn [negb].
  - rewrite decide_True by lia. case_match eqn:G; guards; [right|left].
    + split; [|done]. intros [Hk _]. destruct Hk as [?|?]; [lia|done..].
    + split; [|done]. split; [|lia]. intros _. destruct G; [by left|by right].
  - rewrite decide_False by lia. case_match eqn:G; guards; [right|left].
    + split; [|done]. intros [_ Hk]. destruct Hk as [? ?]; lia.
    + split; [split; lia|]. f_equal. apply wrap_id. word_lia.
Qed.

Lemma describe_cases f n e seg base size st en flags s :
  is_u32 st -> is_u32 en -> is_u64 base ->
  (describable f n e base size st en flags /\
   AppleAgxSubmissionDescribe f n e seg base size st en flags (Some s) =
     (true, Some (described f seg base st en flags))) \/
  (~ describable f n e base size st en flags /\
   AppleAgxSubmissionDescribe f n e seg base size st en flags (Some s) =
     (false, Some (submission_zero s))).
Proof.
  intros Hst Hen Hb. unfold AppleAgxSubmissionDescribe, describable, described.
  case_match eqn:G; [right; split; [|done]|].
  { guards. intuition (congruence || lia). }
  guards. cbv zeta. unfold kind_of_flags.
  pose proof (fun k => place_cases k base st en (false, Some (submission_zero s))
    (fun address => (true, Some (Build_APPLE_AGX_SUBMISSION k f n e seg flags address
       (u32 (en - st)) 0))) Hst Hen Hb ltac:(lia)) as P. cbv zeta in P.
  assert (u32 (en - st) = en - st) as Hw by (apply wrap_id; word_lia).
  assert (n = 0 /\ e = 0) as [-> ->] by tauto. rewrite Hw in *.
  destruct (flag flags APPLE_AGX_SUBMISSION_FLAG_CONTEXT_SWITCH).
  { match goal with |- context [negb (en - st =? 0) || ?h] =>
      destruct (negb (en - st =? 0) || h) eqn:C end;
      [right; split; [|done]; guards; intuition (congruence || lia)|].
    destruct (P AppleAgxSubmissionContextSwitch) as [[Hok Hr]|[Hok Hr]];
      [left|right]; (split; [guards; intuition (congruence || lia)|exact Hr]). }
  destruct (flag flags APPLE_AGX_SUBMISSION_FLAG_NULL_RENDERING).
  { destruct (P AppleAgxSubmissionNull) as [[Hok Hr]|[Hok Hr]]; [left|right];
      (split; [intuition (done || lia)|exact Hr]). }
  destruct (flag flags APPLE_AGX_SUBMISSION_FLAG_PAGING).
  - destruct (P AppleAgxSubmissionPaging) as [[Hok Hr]|[Hok Hr]]; [left|right];
      (split; [intuition (done || lia)|exact Hr]).
  - destruct (P AppleAgxSubmissionGdi) as [[Hok Hr]|[Hok Hr]]; [left|right];
      (split; [intuition (done || lia)|exact Hr]).
Qed.

(** Describe on every branch.  It accepts exactly the describable requests; the
    packet then has the kind the flags select, the requested fence, and the interval
    [DmaBufferAddress + SubmissionStart, + SubmissionEnd - SubmissionStart), whose
    address does not wrap; a refused request leaves an all-zero packet. *)
Theorem describe_functional f n e seg base size st en flags s :
  is_u32 st -> is_u32 en -> is_u64 base ->
  AppleAgxSubmissionDescribe f n e seg base size st en flags (Some s) =
    (bool_decide (describable f n e base size st en flags),
     Some (if bool_decide (describable f n e base size st en flags)
           then described f seg base st en flags else submission_zero s)).
Proof.
  intros Hst Hen Hb.
  destruct (describe_cases f n e seg base size st en flags s Hst Hen Hb) as [[H ->]|[H ->]].
  - by rewrite bool_decide_true.
  - by rewrite bool_decide_false.
Qed.

Lemma describe_functional_witness :
  AppleAgxSubmissionDescribe 3 0 0 1 0x10000 0x100 0x20 0x60 1
    (Some (demo_packet AppleAgxSubmissionGdi 0 0)) =
    (true, Some (Build_APPLE_AGX_SUBMISSION AppleAgxSubmissionPaging 3 0 0 1 1 0x10020 0x40 0)).
Proof.
  etransitivity; [apply describe_functional; split; done|]. by vm_compute.
Defined.

(** The end of the described interval is not checked: a buffer that runs past the top
    of the address space is described by an interval that does. *)
Example described_interval_may_pass_the_top :
  exists p, AppleAgxSubmissionDescribe 1 0 0 0 (2 ^ 64 - 1) 16 0 16 1
              (Some (demo_packet AppleAgxSubmissionGdi 0 0)) = (true, Some p) /\
    2 ^ 64 < DmaAddress p + DmaBytes p.
Proof. eexists. split; [by vm_compute|by vm_compute]. Qed.

End Subm.
