(* ===== verification/WorkQueue.v ===== *)
(** * The firmware work queue (shared/src/apple_agx_work_queue.c)

    One ring of work-command addresses shared with the GPU firmware and at most one
    command in flight: Prepare makes a receipt, Commit publishes it, the run message
    rings the queue, ObserveCompletion retires it when the firmware's stamp and done
    pointer say so, Abort faults the queue.  [WorkQ.wq_wf] is the ring invariant;
    the theorems say what one whole cycle does and that nothing else completes. *)

From S2P Require Import Prelude Serial Arrays Bytes Submission.

Module WorkQ.

(** ** Data *)

Definition APPLE_AGX_WORK_QUEUE_RING_CAPACITY : Z := 0x500.
Definition APPLE_AGX_RUN_QUEUE_MESSAGE_SIZE : Z := 0x30.
(** [(APPLE_AGX_U32)AppleAgxWorkQueueCompute], the largest queue type. *)
Definition AppleAgxWorkQueueCompute : Z := 2.

Record APPLE_AGX_WORK_QUEUE_ITEM := {
  WorkCommandAddress : Z;
  Fence : Z;
  ItemExpectedStamp : Z;  (** ExpectedStamp *)
  RingIndex : Z;
  NextWritePointer : Z;
  ItemQueueType : Z;      (** QueueType *)
  ItemEventNumber : Z;    (** EventNumber *)
  NewQueue : Z;
}.

Record APPLE_AGX_WORK_QUEUE := {
  CommandQueueAddress : Z;
  Capacity : Z;
  CpuWritePointer : Z;
  GpuDonePointer : Z;
  QueueType : Z;
  EventNumber : Z;
  PendingFence : Z;
  ExpectedStamp : Z;
  FirstRun : bool;
  PendingNewQueue : bool;
  HasPending : bool;
  Faulted : bool;
}.
#[export] Instance work_queue_eta : Eta APPLE_AGX_WORK_QUEUE :=
  fun q => Build_APPLE_AGX_WORK_QUEUE (CommandQueueAddress q) (Capacity q)
    (CpuWritePointer q) (GpuDonePointer q) (QueueType q) (EventNumber q) (PendingFence q)
    (ExpectedStamp q) (FirstRun q) (PendingNewQueue q) (HasPending q) (Faulted q).

(** ** Operations *)

Definition AppleAgxPutU32 (Destination : list Z) (offset Value : Z) : list Z :=
  put_u32 Destination offset Value.
Definition AppleAgxPutU64 (Destination : list Z) (offset Value : Z) : list Z :=
  AppleAgxPutU32 (AppleAgxPutU32 Destination offset (u32 Value)) (offset + 4)
    (u32 (Z.shiftr Value 32)).

Definition AppleAgxStampReached (Observed Expected : Z) : bool :=
  u32 (Observed - Expected) <? 0x80000000.

Definition AppleAgxWorkQueueClearPending (Queue : APPLE_AGX_WORK_QUEUE)
    : APPLE_AGX_WORK_QUEUE :=
  Queue <| PendingFence := 0 |> <| ExpectedStamp := 0 |> <| PendingNewQueue := false |>
        <| HasPending := false |>.

Definition AppleAgxWorkQueueInitialize (Queue : ptr APPLE_AGX_WORK_QUEUE)
    (QueueType_ EventNumber_ CommandQueueAddress_ Capacity_ : Z)
    : bool * ptr APPLE_AGX_WORK_QUEUE :=
  deref q := Queue else (false, Queue) in
  if (AppleAgxWorkQueueCompute <? QueueType_) || (128 <=? EventNumber_) ||
     (CommandQueueAddress_ =? 0) || negb (Z.land CommandQueueAddress_ 7 =? 0) ||
     (Capacity_ <? 2) || (APPLE_AGX_WORK_QUEUE_RING_CAPACITY <? Capacity_)
  then (false, Queue)
  else
    (true, Some (AppleAgxWorkQueueClearPending (q
      <| CommandQueueAddress := CommandQueueAddress_ |> <| Capacity := Capacity_ |>
      <| CpuWritePointer := 0 |> <| GpuDonePointer := 0 |> <| QueueType := QueueType_ |>
      <| EventNumber := EventNumber_ |> <| FirstRun := true |> <| Faulted := false |>))).

(** The successor of a ring index, as both operations compute it. *)
Definition next_index (q : APPLE_AGX_WORK_QUEUE) : Z :=
  let next := u32 (CpuWritePointer q + 1) in
  if next =? Capacity q then 0 else next.

Definition AppleAgxWorkQueuePrepare (Queue : ptr APPLE_AGX_WORK_QUEUE)
    (Submission : ptr Subm.APPLE_AGX_SUBMISSION) (WorkCommandAddress_ ExpectedStamp_ : Z)
    (Item : ptr APPLE_AGX_WORK_QUEUE_ITEM) : bool * ptr APPLE_AGX_WORK_QUEUE_ITEM :=
  deref q := Queue else (false, Item) in
  deref s := Submission else (false, Item) in
  if is_null Item || HasPending q || Faulted q || (Capacity q <? 2) ||
     (Capacity q <=? CpuWritePointer q) || (Capacity q <=? GpuDonePointer q) ||
     negb (bool_decide (Subm.Kind s = Subm.AppleAgxSubmissionGdi)) ||
     (Subm.Fence s =? 0) || (WorkCommandAddress_ =? 0) ||
     negb (Z.land WorkCommandAddress_ 0x1f =? 0) || (ExpectedStamp_ =? 0)
  then (false, Item)
  else
    let next := next_index q in
    if next =? GpuDonePointer q then (false, Item)
    else (true, Some {|
      WorkCommandAddress := WorkCommandAddress_;
      Fence := Subm.Fence s;
      ItemExpectedStamp := ExpectedStamp_;
      RingIndex := CpuWritePointer q;
      NextWritePointer := next;
      ItemQueueType := QueueType q;
      ItemEventNumber := EventNumber q;
      NewQueue := if FirstRun q then 1 else 0;
    |}).

Definition AppleAgxWorkQueueCanCommit (Queue : ptr APPLE_AGX_WORK_QUEUE)
    (Item : ptr APPLE_AGX_WORK_QUEUE_ITEM) (RingSlotCount : Z) : bool :=
  deref q := Queue else false in
  if (Capacity q <? 2) || (Capacity q <=? CpuWritePointer q) then false
  else
    let expectedNext := next_index q in
    deref it := Item else false in
    negb (HasPending q || Faulted q || negb (RingSlotCount =? Capacity q) ||
          negb (RingIndex it =? CpuWritePointer q) || (RingSlotCount <=? RingIndex it) ||
          negb (ItemQueueType it =? QueueType q) ||
          negb (ItemEventNumber it =? EventNumber q) ||
          negb (NextWritePointer it =? expectedNext) ||
          (expectedNext =? GpuDonePointer q) ||
          negb (NewQueue it =? (if FirstRun q then 1 else 0)) ||
          (Fence it =? 0) || (ItemExpectedStamp it =? 0) ||
          (WorkCommandAddress it =? 0) ||
          negb (Z.land (WorkCommandAddress it) 0x1f =? 0)).

Definition AppleAgxWorkQueueCommit (Queue : ptr APPLE_AGX_WORK_QUEUE)
    (Item : ptr APPLE_AGX_WORK_QUEUE_ITEM) (RingSlots : ptr (list Z)) (RingSlotCount : Z)
    : bool * ptr APPLE_AGX_WORK_QUEUE * ptr (list Z) :=
  deref slots := RingSlots else (false, Queue, RingSlots) in
  if negb (AppleAgxWorkQueueCanCommit Queue Item RingSlotCount)
  then (false, Queue, RingSlots)
  else
    deref q := Queue else (false, Queue, RingSlots) in
    deref it := Item else (false, Queue, RingSlots) in
    (true,
     Some (q <| CpuWritePointer := NextWritePointer it |> <| PendingFence := Fence it |>
             <| ExpectedStamp := ItemExpectedStamp it |>
             <| PendingNewQueue := negb (NewQueue it =? 0) |>
             <| FirstRun := false |> <| HasPending := true |>),
     Some (slots .[ RingIndex it <- WorkCommandAddress it ])).

Definition AppleAgxWorkQueueEncodeRunMessageG13V13_5 (Queue : ptr APPLE_AGX_WORK_QUEUE)
    (Message : ptr (list Z)) : bool * ptr (list Z) :=
  deref q := Queue else (false, Message) in
  deref m := Message else (false, Message) in
  if negb (HasPending q) || Faulted q || (CommandQueueAddress q =? 0)
  then (false, Message)
  else
    let m := for_range 0 APPLE_AGX_RUN_QUEUE_MESSAGE_SIZE (fun index m => m .[ index <- 0 ]) m in
    let m := AppleAgxPutU32 m 0x00 (QueueType q) in
    let m := AppleAgxPutU64 m 0x04 (CommandQueueAddress q) in
    let m := AppleAgxPutU32 m 0x0c (CpuWritePointer q) in
    let m := AppleAgxPutU32 m 0x10 (EventNumber q) in
    let m := AppleAgxPutU32 m 0x14 (if PendingNewQueue q then 1 else 0) in
    (true, Some m).

Definition AppleAgxWorkQueueObserveCompletion (Queue : ptr APPLE_AGX_WORK_QUEUE)
    (EventNumber_ ObservedStamp GpuDonePointer_ : Z) (CompletedFence : ptr Z)
    : bool * ptr APPLE_AGX_WORK_QUEUE * ptr Z :=
  deref q := Queue else (false, Queue, CompletedFence) in
  if is_null CompletedFence || negb (HasPending q) || Faulted q ||
     negb (EventNumber_ =? EventNumber q) || negb (GpuDonePointer_ =? CpuWritePointer q) ||
     negb (AppleAgxStampReached ObservedStamp (ExpectedStamp q))
  then (false, Queue, CompletedFence)
  else
    (true,
     Some (AppleAgxWorkQueueClearPending (q <| GpuDonePointer := GpuDonePointer_ |>)),
     Some (PendingFence q)).

Definition AppleAgxWorkQueueAbort (Queue : ptr APPLE_AGX_WORK_QUEUE) (Fence_ : Z)
    : bool * ptr APPLE_AGX_WORK_QUEUE :=
  deref q := Queue else (false, Queue) in
  if negb (HasPending q) || negb (Fence_ =? PendingFence q) then (false, Queue)
  else (true, Some ((AppleAgxWorkQueueClearPending q) <| Faulted := true |>)).

(** ** The ring invariant *)

Record wq_wf (q : APPLE_AGX_WORK_QUEUE) : Prop := {
  wq_capacity : 2 <= Capacity q <= APPLE_AGX_WORK_QUEUE_RING_CAPACITY;
  wq_write : 0 <= CpuWritePointer q < Capacity q;
  wq_done : 0 <= GpuDonePointer q < Capacity q;
  wq_type : 0 <= QueueType q <= 2;
  wq_event : 0 <= EventNumber q < 128;
  wq_address : is_u64 (CommandQueueAddress q) /\ CommandQueueAddress q <> 0 /\
               Z.land (CommandQueueAddress q) 7 = 0;
  (** At most one entry is between the done and the write pointer. *)
  wq_gap : if HasPending q
           then CpuWritePointer q = (GpuDonePointer q + 1) mod Capacity q
           else Faulted q = false -> CpuWritePointer q = GpuDonePointer q;
  wq_pending : HasPending q = true -> Faulted q = false /\ PendingFence q <> 0 /\
                                      FirstRun q = false;
}.

Definition wq_initial (q : APPLE_AGX_WORK_QUEUE) : Prop :=
  exists raw t e a c, 0 <= t /\ 0 <= e /\ is_u64 a /\
    AppleAgxWorkQueueInitialize (Some raw) t e a c = (true, Some q).

(** Receipts are the items Prepare fills, possibly by an earlier state of the queue. *)
Inductive wq_step (q q' : APPLE_AGX_WORK_QUEUE) : Prop :=
  | wq_step_commit item slots n r slots' :
      AppleAgxWorkQueueCommit (Some q) item slots n = (r, Some q', slots') -> wq_step q q'
  | wq_step_observe e st d f r f' :
      AppleAgxWorkQueueObserveCompletion (Some q) e st d f = (r, Some q', f') ->
      wq_step q q'
  | wq_step_abort f r : AppleAgxWorkQueueAbort (Some q) f = (r, Some q') -> wq_step q q'.

Lemma next_index_spec q :
  2 <= Capacity q <= APPLE_AGX_WORK_QUEUE_RING_CAPACITY ->
  0 <= CpuWritePointer q < Capacity q ->
  next_index q = (CpuWritePointer q + 1) mod Capacity q.
Proof.
  intros Hc Hw. unfold next_index, APPLE_AGX_WORK_QUEUE_RING_CAPACITY in *.
  rewrite wrap_id by word_lia. destruct (Z.eqb_spec (CpuWritePointer q + 1) (Capacity q)) as [->|].
  - by rewrite Z_mod_same_full.
  - by rewrite Z.mod_small by lia.
Qed.

Lemma wq_wf_initial q : wq_initial q -> wq_wf q.
Proof.
  intros (raw & t & e & a & c & Ht & He & Ha & H).
  unfold AppleAgxWorkQueueInitialize in H. case_match eqn:G; simplify_eq/=. guards.
  split; simpl; try done; unfold APPLE_AGX_WORK_QUEUE_RING_CAPACITY,
    AppleAgxWorkQueueCompute in *; lia || tauto.
Qed.

Lemma can_commit_spec q it n :
  AppleAgxWorkQueueCanCommit (Some q) (Some it) n = true ->
  HasPending q = false /\ Faulted q = false /\ n = Capacity q /\
  RingIndex it = CpuWritePointer q /\ ItemQueueType it = QueueType q /\
  ItemEventNumber it = EventNumber q /\ NextWritePointer it = next_index q /\
  next_index q <> GpuDonePointer q /\ Fence it <> 0.
Proof.
  unfold AppleAgxWorkQueueCanCommit. case_match eqn:G; [done|]. guards. intuition.
Qed.

Lemma wq_wf_step q q' : wq_wf q -> wq_step q q' -> wq_wf q'.
Proof.
  intros W [item slots n r slots' H|e st d f r f' H|f r H].
  - unfold AppleAgxWorkQueueCommit in H. destruct slots as [slots|]; [|by simplify_eq].
    destruct item as [it|].
    2: { unfold AppleAgxWorkQueueCanCommit in H. by repeat case_match; simplify_eq/=. }
    destruct (AppleAgxWorkQueueCanCommit (Some q) (Some it) n) eqn:C; [|by simplify_eq/=].
    apply can_commit_spec in C as (Hp & Hf & _ & _ & _ & _ & Hn & _ & Hfe).
    injection H as <- <- <-. pose proof (wq_gap q W) as Hg. rewrite Hp in Hg.
    specialize (Hg Hf). rewrite next_index_spec in Hn by apply W.
    pose proof (wq_capacity q W).
    split; simpl; try apply W; try done; rewrite Hn.
    + apply Z.mod_pos_bound. lia.
    + by rewrite Hg.
  - unfold AppleAgxWorkQueueObserveCompletion in H. case_match eqn:G; simplify_eq/=; [done|].
    guards. split; simpl; try apply W; try done; subst; apply W || congruence.
  - unfold AppleAgxWorkQueueAbort in H. case_match eqn:G; simplify_eq/=; [done|].
    split; simpl; try apply W; done.
Qed.

#[global] Program Instance work_queue_component : Component APPLE_AGX_WORK_QUEUE := {
  comp_init := wq_initial;
  comp_step := wq_step;
  comp_inv := wq_wf;
}.
Next Obligation. apply wq_wf_initial. Qed.
Next Obligation. apply wq_wf_step. Qed.

(** ** Properties *)

(** A packet and address Prepare takes. *)
Definition preparable (s : Subm.APPLE_AGX_SUBMISSION) (address stamp : Z) : Prop :=
  Subm.Kind s = Subm.AppleAgxSubmissionGdi /\ Subm.Fence s <> 0 /\ address <> 0 /\
  Z.land address 0x1f = 0 /\ stamp <> 0.

Definition receipt (q : APPLE_AGX_WORK_QUEUE) (s : Subm.APPLE_AGX_SUBMISSION)
    (address stamp : Z) : APPLE_AGX_WORK_QUEUE_ITEM :=
  Build_APPLE_AGX_WORK_QUEUE_ITEM address (Subm.Fence s) stamp (CpuWritePointer q)
    ((CpuWritePointer q + 1) mod Capacity q) (QueueType q) (EventNumber q)
    (if FirstRun q then 1 else 0).

Definition committed (q : APPLE_AGX_WORK_QUEUE) (s : Subm.APPLE_AGX_SUBMISSION)
    (stamp : Z) : APPLE_AGX_WORK_QUEUE :=
  q <| CpuWritePointer := (CpuWritePointer q + 1) mod Capacity q |>
    <| PendingFence := Subm.Fence s |> <| ExpectedStamp := stamp |>
    <| PendingNewQueue := FirstRun q |> <| FirstRun := false |> <| HasPending := true |>.

(** The successor index is another one: the ring holds at least two entries. *)
Lemma next_ne q :
  wq_wf q -> (CpuWritePointer q + 1) mod Capacity q <> CpuWritePointer q.
Proof.
  intros W. pose proof (wq_capacity q W). pose proof (wq_write q W).
  destruct (decide (CpuWritePointer q + 1 = Capacity q)) as [E|].
  - rewrite E, Z_mod_same_full. lia.
  - rewrite Z.mod_small; lia.
Qed.

Lemma prepare_accepts q s address stamp it :
  wq_wf q -> HasPending q = false -> Faulted q = false -> preparable s address stamp ->
  AppleAgxWorkQueuePrepare (Some q) (Some s) address stamp (Some it) =
    (true, Some (receipt q s address stamp)).
Proof.
  intros W Hp Hf (Hk & Hfe & Ha & Hal & Hs). unfold AppleAgxWorkQueuePrepare.
  pose proof (wq_capacity q W). pose proof (wq_write q W). pose proof (wq_done q W).
  rewrite Hp, Hf, Hal, (bool_decide_true _ Hk).
  destruct (Z.ltb_spec (Capacity q) 2); [lia|].
  destruct (Z.leb_spec (Capacity q) (CpuWritePointer q)); [lia|].
  destruct (Z.leb_spec (Capacity q) (GpuDonePointer q)); [lia|].
  destruct (Z.eqb_spec (Subm.Fence s) 0), (Z.eqb_spec address 0), (Z.eqb_spec stamp 0);
    try done. simpl. rewrite next_index_spec by done.
  pose proof (wq_gap q W) as Hg. rewrite Hp in Hg. rewrite <- (Hg Hf).
  pose proof (next_ne q W). by rewrite (proj2 (Z.eqb_neq _ _)).
Qed.

Lemma commit_accepts q s address stamp slots :
  wq_wf q -> HasPending q = false -> Faulted q = false -> preparable s address stamp ->
  AppleAgxWorkQueueCommit (Some q) (Some (receipt q s address stamp)) (Some slots) (Capacity q) =
    (true, Some (committed q s stamp), Some (slots .[ CpuWritePointer q <- address ])).
Proof.
  intros W Hp Hf (Hk & Hfe & Ha & Hal & Hs). unfold AppleAgxWorkQueueCommit.
  pose proof (wq_capacity q W). pose proof (wq_write q W).
  assert (AppleAgxWorkQueueCanCommit (Some q) (Some (receipt q s address stamp)) (Capacity q)
          = true) as ->.
  { unfold AppleAgxWorkQueueCanCommit. rewrite next_index_spec by done.
    destruct (Z.ltb_spec (Capacity q) 2); [lia|].
    destruct (Z.leb_spec (Capacity q) (CpuWritePointer q)); [lia|]. simpl.
    pose proof (wq_gap q W) as Hg. rewrite Hp in Hg. rewrite <- (Hg Hf).
    pose proof (next_ne q W).
    rewrite Hp, Hf, Hal, !Z.eqb_refl, !(proj2 (Z.eqb_neq _ _)) by done.
    by destruct (Z.leb_spec (Capacity q) (CpuWritePointer q)); [lia|]. }
  simpl. unfold committed. by destruct (FirstRun q).
Qed.

(** The fields of a run message. *)
Definition run_message_fields (m : list Z) : list Z :=
  [get_u32 m 0x00; get_u64 m 0x04; get_u32 m 0x0c; get_u32 m 0x10; get_u32 m 0x14].

Lemma encode_accepts q m :
  wq_wf q -> HasPending q = true -> zlen m = APPLE_AGX_RUN_QUEUE_MESSAGE_SIZE ->
  exists m', AppleAgxWorkQueueEncodeRunMessageG13V13_5 (Some q) (Some m) = (true, Some m') /\
    run_message_fields m' = [QueueType q; CommandQueueAddress q; CpuWritePointer q;
                             EventNumber q; if PendingNewQueue q then 1 else 0].
Proof.
  intros W Hp Hm. unfold AppleAgxWorkQueueEncodeRunMessageG13V13_5.
  destruct (wq_pending q W Hp) as [Hf _]. destruct (wq_address q W) as (Ha & Ha0 & _).
  rewrite Hp, Hf. destruct (Z.eqb_spec (CommandQueueAddress q) 0); [done|]. simpl.
  eexists. split; [reflexivity|]. unfold run_message_fields.
  assert (zlen (for_range 0 APPLE_AGX_RUN_QUEUE_MESSAGE_SIZE
                  (fun index m => m .[ index <- 0 ]) m) = 0x30) as Hz.
  { etransitivity; [apply (zlen_zero_fill 0 APPLE_AGX_RUN_QUEUE_MESSAGE_SIZE)|]; done. }
  set (z := for_range _ _ _ m) in *. change AppleAgxPutU64 with put_u64.
  change AppleAgxPutU32 with put_u32.
  assert (is_u32 (QueueType q) /\ is_u32 (CpuWritePointer q) /\ is_u32 (EventNumber q) /\
          is_u32 (if PendingNewQueue q then 1 else 0)) as (? & ? & ? & ?).
  { pose proof (wq_type q W). pose proof (wq_write q W). pose proof (wq_event q W).
    pose proof (wq_capacity q W). unfold APPLE_AGX_WORK_QUEUE_RING_CAPACITY in *.
    split_and!; try word_lia. destruct (PendingNewQueue q); word_lia. }
  by byte_load.
Qed.

Lemma observe_accepts q s stamp observed f :
  wq_wf q -> Faulted q = false -> AppleAgxStampReached observed stamp = true ->
  let q1 := committed q s stamp in
  AppleAgxWorkQueueObserveCompletion (Some q1) (EventNumber q) observed (CpuWritePointer q1)
    (Some f) =
  (true, Some (AppleAgxWorkQueueClearPending (q1 <| GpuDonePointer := CpuWritePointer q1 |>)),
   Some (Subm.Fence s)).
Proof.
  intros W Hf Hst. unfold AppleAgxWorkQueueObserveCompletion. simpl.
  by rewrite Hf, !Z.eqb_refl, Hst.
Qed.

(** One whole command.  An idle queue takes every well-formed GDI packet: Prepare
    makes the receipt (the ring is never full), Commit stores the command address at
    the write pointer, the run message carries the queue's type, address, write pointer,
    event and new-queue flag, and when the firmware reports this event with the stamp
    reached and its done pointer at the write pointer, the packet's fence completes, the
    queue is idle and consistent again, and the spent receipt cannot be committed twice. *)
Theorem work_command_cycle q s address stamp it slots m observed f :
  reachable q -> HasPending q = false -> Faulted q = false ->
  preparable s address stamp -> zlen m = APPLE_AGX_RUN_QUEUE_MESSAGE_SIZE ->
  AppleAgxStampReached observed stamp = true ->
  exists receipt q1 m1 q2,
    AppleAgxWorkQueuePrepare (Some q) (Some s) address stamp (Some it) = (true, Some receipt) /\
    AppleAgxWorkQueueCommit (Some q) (Some receipt) (Some slots) (Capacity q) =
      (true, Some q1, Some (slots .[ CpuWritePointer q <- address ])) /\
    AppleAgxWorkQueueEncodeRunMessageG13V13_5 (Some q1) (Some m) = (true, Some m1) /\
    run_message_fields m1 = [QueueType q; CommandQueueAddress q;
      (CpuWritePointer q + 1) mod Capacity q; EventNumber q; if FirstRun q then 1 else 0] /\
    AppleAgxWorkQueueObserveCompletion (Some q1) (EventNumber q) observed
      (CpuWritePointer q1) (Some f) = (true, Some q2, Some (Subm.Fence s)) /\
    wq_wf q2 /\ HasPending q2 = false /\ Faulted q2 = false /\
    AppleAgxWorkQueueCanCommit (Some q2) (Some receipt) (Capacity q) = false.
Proof.
  intros Hr Hp Hf Hs Hm Hst. pose proof (reachable_inv q Hr : wq_wf q) as W.
  pose proof (commit_accepts q s address stamp slots W Hp Hf Hs) as HC.
  assert (wq_wf (committed q s stamp)) as W1.
  { eapply wq_wf_step; [exact W|]. by eapply wq_step_commit. }
  pose proof (observe_accepts q s stamp observed f W Hf Hst) as HO. cbv zeta in HO.
  destruct (encode_accepts (committed q s stamp) m W1 eq_refl Hm) as (m1 & He & Hfields).
  eexists (receipt q s address stamp), (committed q s stamp), m1, _.
  split_and!; [by apply prepare_accepts|exact HC|exact He|exact Hfields|exact HO| |done|done|].
  - eapply wq_wf_step; [exact W1|]. by eapply wq_step_observe.
  - apply not_true_iff_false. intros C. apply can_commit_spec in C.
    destruct C as (_ & _ & _ & C & _). simpl in C. by apply (next_ne q W).
Qed.

Definition demo_queue : APPLE_AGX_WORK_QUEUE :=
  default (Build_APPLE_AGX_WORK_QUEUE 0 0 0 0 0 0 0 0 false false false false)
    (AppleAgxWorkQueueInitialize
      (Some (Build_APPLE_AGX_WORK_QUEUE 0 0 0 0 0 0 0 0 false false false false))
      0 3 0x1000 4).2.
Definition demo_item : APPLE_AGX_WORK_QUEUE_ITEM :=
  Build_APPLE_AGX_WORK_QUEUE_ITEM 0 0 0 0 0 0 0 0.

Lemma demo_queue_reachable : reachable demo_queue.
Proof.
  exists demo_queue. split; [|apply rtc_refl].
  exists (Build_APPLE_AGX_WORK_QUEUE 0 0 0 0 0 0 0 0 false false false false), 0, 3, 0x1000, 4.
  split_and!; [done|done|done|by vm_compute..].
Qed.

Lemma work_command_cycle_witness :
  exists receipt q1,
    AppleAgxWorkQueuePrepare (Some demo_queue)
      (Some (Subm.demo_packet Subm.AppleAgxSubmissionGdi 9 0)) 0x2000 256 (Some demo_item) =
      (true, Some receipt) /\
    AppleAgxWorkQueueCommit (Some demo_queue) (Some receipt) (Some [0; 0; 0; 0]) 4 =
      (true, Some q1, Some [0x2000; 0; 0; 0]).
Proof.
  destruct (work_command_cycle demo_queue (Subm.demo_packet Subm.AppleAgxSubmissionGdi 9 0)
    0x2000 256 demo_item [0; 0; 0; 0] (replicate 48 0) 257 0 demo_queue_reachable)
    as (r & q1 & m1 & q2 & H1 & H2 & _); [done..|by split_and!|done|done|].
  by exists r, q1.
Defined.

(** a pending command leaves the queue only by completing or by an abort.  A
    completion needs the queue's own event, the firmware's done pointer at the write
    pointer and the expected stamp reached; it hands out the pending fence and closes
    the gap in the ring.  An abort faults the queue for good: a faulted queue commits
    and completes nothing. *)
Theorem work_queue_retirement q q' :
  reachable q -> wq_step q q' ->
  (Faulted q = true -> q' = q) /\
  (HasPending q = true -> HasPending q' = false ->
   (Faulted q' = true /\ GpuDonePointer q' = GpuDonePointer q) \/
   (Faulted q' = false /\ GpuDonePointer q' = CpuWritePointer q' /\
    CpuWritePointer q' = CpuWritePointer q)).
Proof.
  intros Hr Hs. pose proof (reachable_inv q Hr : wq_wf q) as W.
  pose proof (wq_pending q W) as HW.
  destruct Hs as [item slots n r slots' H|e st d f r f' H|f r H].
  - unfold AppleAgxWorkQueueCommit in H. destruct slots as [slots|]; [|simplify_eq/=; split; congruence].
    destruct item as [it|].
    2: { unfold AppleAgxWorkQueueCanCommit in H. repeat case_match; simplify_eq/=; split; congruence. }
    destruct (AppleAgxWorkQueueCanCommit (Some q) (Some it) n) eqn:C;
      [|simplify_eq/=; split; congruence].
    apply can_commit_spec in C as (Hp & Hf & _). simplify_eq/=. split; congruence.
  - unfold AppleAgxWorkQueueObserveCompletion in H.
    case_match eqn:G; simplify_eq/=; [split; congruence|]. guards.
    split; [congruence|]. intros _ _. right. split_and!; congruence.
  - unfold AppleAgxWorkQueueAbort in H. case_match eqn:G; simplify_eq/=; [split; congruence|].
    guards. split; [|by left]. intros Hf. destruct (HW ltac:(done)). congruence.
Qed.

Lemma work_queue_retirement_witness :
  let q := committed demo_queue (Subm.demo_packet Subm.AppleAgxSubmissionGdi 9 0) 256 in
  let q' := default q (AppleAgxWorkQueueAbort (Some q) 9).2 in
  (Faulted q = true -> q' = q) /\
  (HasPending q = true -> HasPending q' = false ->
   (Faulted q' = true /\ GpuDonePointer q' = GpuDonePointer q) \/
   (Faulted q' = false /\ GpuDonePointer q' = CpuWritePointer q' /\
    CpuWritePointer q' = CpuWritePointer q)).
Proof.
  intros q q'. apply work_queue_retirement.
  - eapply reachable_step; [apply demo_queue_reachable|].
    eapply (wq_step_commit _ _ (Some (receipt demo_queue
      (Subm.demo_packet Subm.AppleAgxSubmissionGdi 9 0) 0x2000 256)) (Some [0; 0; 0; 0]) 4).
    by vm_compute.
  - by apply (wq_step_abort _ _ 9 true).
Defined.

End WorkQ.
