(* ===== verification/EventAllocator.v ===== *)
(** * Firmware event numbers (shared/src/apple_agx_event_allocator.c)

    128 events as four 32-bit words of reservation bits, each reserved event stamped
    with a lease.  A job reserves the three lowest free events together and gives them
    back together.  [Events.free] is the list of free events; the theorems say which
    three a reservation takes, that a release undoes it exactly, and that a stale or
    forged triple releases nothing. *)

From S2P Require Import Prelude Arrays Bytes.

Module Events.

(** ** Data *)

Definition APPLE_AGX_EVENT_COUNT : Z := 128.
Definition APPLE_AGX_EVENT_WORD_COUNT : Z := APPLE_AGX_EVENT_COUNT / 32.

Record APPLE_AGX_EVENT_PAIR := {
  Ta : Z;
  D3 : Z;
  Compute : Z;
  Lease : Z;
}.

Record APPLE_AGX_EVENT_ALLOCATOR := {
  Reserved : list Z;
  Leases : list Z;
  NextLease : Z;
  Initialized : bool;
}.
#[export] Instance allocator_eta : Eta APPLE_AGX_EVENT_ALLOCATOR :=
  fun a => Build_APPLE_AGX_EVENT_ALLOCATOR (Reserved a) (Leases a) (NextLease a)
    (Initialized a).

(** ** Operations *)

(** Zeroing the bytes of an allocator. *)
Definition AppleAgxEventZero (a : APPLE_AGX_EVENT_ALLOCATOR) : APPLE_AGX_EVENT_ALLOCATOR :=
  a <| Reserved := replicate (Z.to_nat APPLE_AGX_EVENT_WORD_COUNT) 0 |>
    <| Leases := replicate (Z.to_nat APPLE_AGX_EVENT_COUNT) 0 |>
    <| NextLease := 0 |> <| Initialized := false |>.

Definition AppleAgxEventReserved (Allocator : APPLE_AGX_EVENT_ALLOCATOR) (Event : Z) : bool :=
  negb (Z.land (Reserved Allocator) .[ Event / 32 ] (Z.shiftl 1 (Event mod 32)) =? 0).

Definition AppleAgxEventSetReserved (Allocator : APPLE_AGX_EVENT_ALLOCATOR) (Event : Z)
    (Reserved_ : bool) : APPLE_AGX_EVENT_ALLOCATOR :=
  let mask := Z.shiftl 1 (Event mod 32) in
  let word := (Reserved Allocator) .[ Event / 32 ] in
  Allocator <| Reserved := (Reserved Allocator)
    .[ Event / 32 <- if Reserved_ then Z.lor word mask else Z.ldiff word mask ] |>.

Definition AppleAgxEventAllocatorInitialize (Allocator : ptr APPLE_AGX_EVENT_ALLOCATOR)
    : bool * ptr APPLE_AGX_EVENT_ALLOCATOR :=
  deref a := Allocator else (false, Allocator) in
  (true, Some ((AppleAgxEventZero a) <| NextLease := 1 |> <| Initialized := true |>)).

(** The search loop: [first], [second] and [third], APPLE_AGX_EVENT_COUNT if unset. *)
Fixpoint event_scan (a : APPLE_AGX_EVENT_ALLOCATOR) (event : Z) (fuel : nat)
    (first second : Z) : Z * Z * Z :=
  match fuel with
  | O => (first, second, APPLE_AGX_EVENT_COUNT)
  | S fuel =>
      if AppleAgxEventReserved a event then event_scan a (event + 1) fuel first second
      else if first =? APPLE_AGX_EVENT_COUNT then event_scan a (event + 1) fuel event second
      else if second =? APPLE_AGX_EVENT_COUNT then event_scan a (event + 1) fuel first event
      else (first, second, event)
  end.

Definition AppleAgxEventAllocatorReservePair (Allocator : ptr APPLE_AGX_EVENT_ALLOCATOR)
    (Pair : ptr APPLE_AGX_EVENT_PAIR)
    : bool * ptr APPLE_AGX_EVENT_ALLOCATOR * ptr APPLE_AGX_EVENT_PAIR :=
  deref a := Allocator else (false, Allocator, Pair) in
  if is_null Pair || negb (Initialized a) then (false, Allocator, Pair)
  else
    let '(first, second, third) :=
      event_scan a 0 (Z.to_nat APPLE_AGX_EVENT_COUNT) APPLE_AGX_EVENT_COUNT
        APPLE_AGX_EVENT_COUNT in
    if third =? APPLE_AGX_EVENT_COUNT then (false, Allocator, Pair)
    else
      let lease := if NextLease a =? 0 then 1 else NextLease a in
      let a := a <| NextLease := u32 (lease + 1) |> in
      let a := AppleAgxEventSetReserved a first true in
      let a := AppleAgxEventSetReserved a second true in
      let a := AppleAgxEventSetReserved a third true in
      let a := a <| Leases := (Leases a) .[ first <- lease ] .[ second <- lease ]
                                .[ third <- lease ] |> in
      (true, Some a, Some (Build_APPLE_AGX_EVENT_PAIR first second third lease)).

Definition AppleAgxEventAllocatorReleasePair (Allocator : ptr APPLE_AGX_EVENT_ALLOCATOR)
    (Pair : ptr APPLE_AGX_EVENT_PAIR) : bool * ptr APPLE_AGX_EVENT_ALLOCATOR :=
  deref a := Allocator else (false, Allocator) in
  deref p := Pair else (false, Allocator) in
  if negb (Initialized a) || (APPLE_AGX_EVENT_COUNT <=? Ta p) ||
     (APPLE_AGX_EVENT_COUNT <=? D3 p) || (APPLE_AGX_EVENT_COUNT <=? Compute p) ||
     (Ta p =? D3 p) || (Ta p =? Compute p) || (D3 p =? Compute p) || (Lease p =? 0) ||
     negb (AppleAgxEventReserved a (Ta p)) || negb (AppleAgxEventReserved a (D3 p)) ||
     negb ((Leases a) .[ Ta p ] =? Lease p) || negb ((Leases a) .[ D3 p ] =? Lease p)
  then (false, Allocator)
  else if negb (AppleAgxEventReserved a (Compute p)) ||
          negb ((Leases a) .[ Compute p ] =? Lease p)
  then (false, Allocator)
  else
    let a := AppleAgxEventSetReserved a (Ta p) false in
    let a := AppleAgxEventSetReserved a (D3 p) false in
    let a := AppleAgxEventSetReserved a (Compute p) false in
    (true, Some (a <| Leases := (Leases a) .[ Ta p <- 0 ] .[ D3 p <- 0 ]
                                  .[ Compute p <- 0 ] |>)).

(** ** Reservation bits *)

Definition event_in (e : Z) : Prop := 0 <= e < APPLE_AGX_EVENT_COUNT.

Record ev_wf (a : APPLE_AGX_EVENT_ALLOCATOR) : Prop := {
  ev_words : zlen (Reserved a) = APPLE_AGX_EVENT_WORD_COUNT;
  ev_leases : zlen (Leases a) = APPLE_AGX_EVENT_COUNT;
  ev_next : is_u32 (NextLease a);
  ev_init : Initialized a = true;
  (** An event carries a lease exactly while it is reserved. *)
  ev_lease : forall e, event_in e ->
    AppleAgxEventReserved a e = true <-> (Leases a) .[ e ] <> 0;
}.

Lemma reserved_testbit a e :
  event_in e -> AppleAgxEventReserved a e = Z.testbit (Reserved a) .[ e / 32 ] (e mod 32).
Proof. intros [? ?]. apply land_bit. apply Z.mod_pos_bound. lia. Qed.

Lemma set_reserved_spec a e e' b :
  zlen (Reserved a) = APPLE_AGX_EVENT_WORD_COUNT -> event_in e -> event_in e' ->
  AppleAgxEventReserved (AppleAgxEventSetReserved a e b) e' =
    if decide (e = e') then b else AppleAgxEventReserved a e'.
Proof.
  intros Hl He He'. rewrite !reserved_testbit by done. unfold event_in, APPLE_AGX_EVENT_COUNT in *.
  change APPLE_AGX_EVENT_WORD_COUNT with 4 in Hl. simpl.
  pose proof (Z.mod_pos_bound e 32 ltac:(lia)). pose proof (Z.mod_pos_bound e' 32 ltac:(lia)).
  rewrite get_set by (Z.to_euclidean_division_equations; lia).
  destruct (decide (e / 32 = e' / 32)) as [E|E].
  2: { rewrite decide_False; [done|]. congruence. }
  rewrite <- E, Z.shiftl_1_l.
  assert (Z.testbit (2 ^ (e mod 32)) (e' mod 32) = bool_decide (e = e')) as Hb.
  { rewrite Z.pow2_bits_eqb by lia. apply eq_true_iff_eq. guards.
    split; [|congruence]. intros Hm. rewrite (Z.div_mod e 32), (Z.div_mod e' 32) by lia.
    congruence. }
  destruct b; rewrite ?Z.lor_spec, ?Z.ldiff_spec, Hb; destruct (decide (e = e')) as [<-|];
    rewrite ?bool_decide_true, ?bool_decide_false by done; simpl;
    rewrite ?orb_true_r, ?orb_false_r, ?andb_false_r, ?andb_true_r; done.
Qed.

Lemma set_reserved_words a e b :
  zlen (Reserved (AppleAgxEventSetReserved a e b)) = zlen (Reserved a).
Proof. apply zlen_set. Qed.

(** ** The search *)

(** The free events from [lo] on, ascending. *)
Definition free_from (a : APPLE_AGX_EVENT_ALLOCATOR) (lo : Z) (fuel : nat) : list Z :=
  filter (fun e => AppleAgxEventReserved a e = false) (seqZ lo (Z.of_nat fuel)).
Definition free (a : APPLE_AGX_EVENT_ALLOCATOR) : list Z :=
  free_from a 0 (Z.to_nat APPLE_AGX_EVENT_COUNT).

Lemma event_scan_spec a fuel : forall lo first second,
  0 <= lo -> lo + Z.of_nat fuel <= APPLE_AGX_EVENT_COUNT ->
  let l := free_from a lo fuel in
  let nth i := default APPLE_AGX_EVENT_COUNT (l !! i) in
  event_scan a lo fuel first second =
    if first =? APPLE_AGX_EVENT_COUNT then
      if second =? APPLE_AGX_EVENT_COUNT then (nth 0%nat, nth 1%nat, nth 2%nat)
      else (nth 0%nat, second, nth 1%nat)
    else if second =? APPLE_AGX_EVENT_COUNT then (first, nth 0%nat, nth 1%nat)
    else (first, second, nth 0%nat).
Proof.
  induction fuel as [|fuel IH]; intros lo first second Hlo Hle; cbv zeta; cbn [event_scan].
  { unfold free_from. simpl.
    destruct (Z.eqb_spec first APPLE_AGX_EVENT_COUNT), (Z.eqb_spec second APPLE_AGX_EVENT_COUNT);
      by subst. }
  specialize (fun f s => IH (lo + 1) f s ltac:(lia) ltac:(lia)). cbv zeta in IH.
  unfold free_from. rewrite seqZ_cons by lia.
  replace (Z.pred (Z.of_nat (S fuel))) with (Z.of_nat fuel) by lia. fold (Z.succ lo).
  destruct (AppleAgxEventReserved a lo) eqn:R.
  - rewrite filter_cons_False by congruence. apply IH.
  - rewrite filter_cons_True by done. cbn [lookup list_lookup default].
    change (filter _ (seqZ (Z.succ lo) _)) with (free_from a (Z.succ lo) fuel).
    change (lo + 1) with (Z.succ lo) in *. rewrite !IH.
    destruct (Z.eqb_spec lo APPLE_AGX_EVENT_COUNT) as [->|]; [lia|].
    destruct (Z.eqb_spec first APPLE_AGX_EVENT_COUNT), (Z.eqb_spec second APPLE_AGX_EVENT_COUNT);
      done.
Qed.

Lemma elem_of_free a e :
  e ∈ free a <-> event_in e /\ AppleAgxEventReserved a e = false.
Proof.
  unfold free, free_from. rewrite list_elem_of_filter, elem_of_seqZ.
  unfold event_in, APPLE_AGX_EVENT_COUNT. rewrite Z2Nat.id by lia. tauto.
Qed.

(** ** Three events at once *)

(** Setting or clearing three distinct events, with a lease. *)
Definition with_three (a : APPLE_AGX_EVENT_ALLOCATOR) (x y z : Z) (b : bool) (lease : Z)
    : APPLE_AGX_EVENT_ALLOCATOR :=
  let a := AppleAgxEventSetReserved a x b in
  let a := AppleAgxEventSetReserved a y b in
  let a := AppleAgxEventSetReserved a z b in
  a <| Leases := (Leases a) .[ x <- lease ] .[ y <- lease ] .[ z <- lease ] |>.

Lemma with_three_spec a x y z b lease :
  zlen (Reserved a) = APPLE_AGX_EVENT_WORD_COUNT -> zlen (Leases a) = APPLE_AGX_EVENT_COUNT ->
  event_in x -> event_in y -> event_in z ->
  let a' := with_three a x y z b lease in
  zlen (Reserved a') = APPLE_AGX_EVENT_WORD_COUNT /\
  zlen (Leases a') = APPLE_AGX_EVENT_COUNT /\
  NextLease a' = NextLease a /\ Initialized a' = Initialized a /\
  forall e, event_in e ->
    AppleAgxEventReserved a' e =
      (if decide (e ∈ [x; y; z]) then b else AppleAgxEventReserved a e) /\
    (Leases a') .[ e ] = (if decide (e ∈ [x; y; z]) then lease else (Leases a) .[ e ]).
Proof.
  intros Hw Hl Hx Hy Hz. cbv zeta.
  split_and!; try done; [simpl; by rewrite !zlen_set..|].
  intros e He. split.
  - change (AppleAgxEventReserved (with_three a x y z b lease) e) with
      (AppleAgxEventReserved (AppleAgxEventSetReserved
        (AppleAgxEventSetReserved (AppleAgxEventSetReserved a x b) y b) z b) e).
    rewrite !set_reserved_spec by (rewrite ?set_reserved_words; done).
    destruct (decide (e ∈ [x; y; z])) as [Hin|Hin].
    + rewrite !elem_of_cons, elem_of_nil in Hin. repeat case_decide; try done. intuition congruence.
    + rewrite !elem_of_cons, elem_of_nil in Hin. rewrite !decide_False; intuition congruence.
  - simpl. unfold event_in in *. rewrite !get_set by (rewrite ?zlen_set; lia).
    destruct (decide (e ∈ [x; y; z])) as [Hin|Hin].
    + rewrite !elem_of_cons, elem_of_nil in Hin. repeat case_decide; try done. intuition congruence.
    + rewrite !elem_of_cons, elem_of_nil in Hin. rewrite !decide_False; intuition congruence.
Qed.

Lemma ev_wf_three a x y z b lease :
  ev_wf a -> event_in x -> event_in y -> event_in z -> (b = true <-> lease <> 0) ->
  ev_wf (with_three a x y z b lease).
Proof.
  intros W Hx Hy Hz Hb.
  destruct (with_three_spec a x y z b lease (ev_words a W) (ev_leases a W) Hx Hy Hz)
    as (H1 & H2 & H3 & H4 & H5).
  split; [done|done|rewrite H3; apply W|rewrite H4; apply W|].
  intros e He. destruct (H5 e He) as [-> ->]. case_decide; [done|]. by apply W.
Qed.

(** The lease the next reservation gets: never 0. *)
Definition next_lease (a : APPLE_AGX_EVENT_ALLOCATOR) : Z :=
  if NextLease a =? 0 then 1 else NextLease a.

Lemma next_lease_ok a : ev_wf a -> next_lease a <> 0 /\ is_u32 (next_lease a).
Proof.
  intros W. unfold next_lease. pose proof (ev_next a W).
  destruct (Z.eqb_spec (NextLease a) 0); split; try done; word_lia.
Qed.

Definition reserved_state (a : APPLE_AGX_EVENT_ALLOCATOR) (x y z : Z)
    : APPLE_AGX_EVENT_ALLOCATOR :=
  with_three (a <| NextLease := u32 (next_lease a + 1) |>) x y z true (next_lease a).

Lemma reserved_state_spec a x y z :
  ev_wf a -> event_in x -> event_in y -> event_in z ->
  forall e, event_in e ->
    AppleAgxEventReserved (reserved_state a x y z) e =
      (if decide (e ∈ [x; y; z]) then true else AppleAgxEventReserved a e) /\
    (Leases (reserved_state a x y z)) .[ e ] =
      (if decide (e ∈ [x; y; z]) then next_lease a else (Leases a) .[ e ]).
Proof.
  intros W Hx Hy Hz.
  destruct (with_three_spec (a <| NextLease := u32 (next_lease a + 1) |>) x y z true
    (next_lease a) (ev_words a W) (ev_leases a W) Hx Hy Hz) as (_ & _ & _ & _ & H).
  exact H.
Qed.

Lemma free_event_in a e l : free a = l -> e ∈ l -> event_in e /\ AppleAgxEventReserved a e = false.
Proof. intros <-. apply elem_of_free. Qed.

Lemma reserve_cases a p :
  ev_wf a ->
  AppleAgxEventAllocatorReservePair (Some a) (Some p) =
    match free a with
    | x :: y :: z :: _ =>
        (true, Some (reserved_state a x y z),
         Some (Build_APPLE_AGX_EVENT_PAIR x y z (next_lease a)))
    | _ => (false, Some a, Some p)
    end.
Proof.
  intros W. unfold AppleAgxEventAllocatorReservePair. rewrite (ev_init a W). cbn [is_null orb negb].
  pose proof (event_scan_spec a (Z.to_nat APPLE_AGX_EVENT_COUNT) 0 APPLE_AGX_EVENT_COUNT
    APPLE_AGX_EVENT_COUNT ltac:(lia) ltac:(done)) as Hs.
  cbv zeta in Hs. rewrite Hs, Z.eqb_refl. clear Hs. fold (free a).
  destruct (free a) as [|x [|y [|z l]]] eqn:F; cbn [lookup list_lookup default id];
    rewrite ?Z.eqb_refl; try done.
  destruct (free_event_in a z _ F) as [Hz _]; [by repeat constructor|].
  destruct (Z.eqb_spec z APPLE_AGX_EVENT_COUNT) as [->|]; [|done].
  destruct Hz. lia.
Qed.

(** A pair that names three distinct events, all under its own nonzero lease. *)
Definition owns (a : APPLE_AGX_EVENT_ALLOCATOR) (p : APPLE_AGX_EVENT_PAIR) : Prop :=
  (event_in (Ta p) /\ event_in (D3 p) /\ event_in (Compute p)) /\
  (Ta p <> D3 p /\ Ta p <> Compute p /\ D3 p <> Compute p) /\ Lease p <> 0 /\
  (Leases a) .[ Ta p ] = Lease p /\ (Leases a) .[ D3 p ] = Lease p /\
  (Leases a) .[ Compute p ] = Lease p.

Lemma release_cases a p :
  ev_wf a -> 0 <= Ta p -> 0 <= D3 p -> 0 <= Compute p ->
  (owns a p /\ AppleAgxEventAllocatorReleasePair (Some a) (Some p) =
     (true, Some (with_three a (Ta p) (D3 p) (Compute p) false 0))) \/
  (~ owns a p /\ AppleAgxEventAllocatorReleasePair (Some a) (Some p) = (false, Some a)).
Proof.
  intros W H1 H2 H3. unfold AppleAgxEventAllocatorReleasePair, owns.
  rewrite (ev_init a W). pose proof (ev_lease a W) as HL.
  pose proof (HL (Ta p)). pose proof (HL (D3 p)). pose proof (HL (Compute p)).
  unfold event_in in *. repeat case_match; guards;
    first [left; split; [|done]|right; split; [|done]]; intuition (congruence || lia).
Qed.

(** ** The free list *)

Lemma free_NoDup a : NoDup (free a).
Proof. apply NoDup_filter, NoDup_seqZ. Qed.

Lemma free_distinct a x y z l : free a = x :: y :: z :: l -> x <> y /\ x <> z /\ y <> z.
Proof.
  intros F. pose proof (free_NoDup a) as H. rewrite F, !NoDup_cons in H.
  destruct H as (Hx & Hy & _). split_and!; intros ->; [apply Hx|apply Hx|apply Hy];
    by repeat constructor.
Qed.

Lemma free_ext a a' :
  (forall e, event_in e -> AppleAgxEventReserved a e = AppleAgxEventReserved a' e) ->
  free a = free a'.
Proof.
  intros H. apply filter_ext_in. intros e He. apply elem_of_seqZ in He.
  rewrite Z2Nat.id in He by done. rewrite H; [done|]. unfold event_in. lia.
Qed.

Lemma filter_drop_three (x y z : Z) l :
  NoDup (x :: y :: z :: l) -> filter (fun e => e ∉ [x; y; z]) (x :: y :: z :: l) = l.
Proof.
  intros H. rewrite !NoDup_cons in H. destruct H as (Hx & Hy & Hz & Hl).
  rewrite !filter_cons_False by (intros Hn; apply Hn; set_solver).
  apply filter_all. intros e He. set_solver.
Qed.

Lemma free_reserved a x y z l :
  ev_wf a -> free a = x :: y :: z :: l -> free (reserved_state a x y z) = l.
Proof.
  intros W F. destruct (free_event_in a x _ F) as [Hx _]; [by repeat constructor|].
  destruct (free_event_in a y _ F) as [Hy _]; [by repeat constructor|].
  destruct (free_event_in a z _ F) as [Hz _]; [by repeat constructor|].
  pose proof (free_NoDup a) as Hnd. rewrite F in Hnd.
  rewrite <- (filter_drop_three x y z l Hnd), <- F. unfold free, free_from.
  rewrite list_filter_filter. apply filter_ext_in. intros e He.
  apply elem_of_seqZ in He. rewrite Z2Nat.id in He by done.
  destruct (reserved_state_spec a x y z W Hx Hy Hz e) as [-> _]; [unfold event_in; lia|].
  case_decide.
  - split; [done|]. intros [? _]. done.
  - split; [by intros ?|]. by intros [_ ?].
Qed.

(** ** The component *)

Definition ev_initial (a : APPLE_AGX_EVENT_ALLOCATOR) : Prop :=
  exists raw, AppleAgxEventAllocatorInitialize (Some raw) = (true, Some a).

(** The arguments of a call: release reads three unsigned event numbers. *)
Inductive ev_step (a a' : APPLE_AGX_EVENT_ALLOCATOR) : Prop :=
  | ev_step_reserve p r p' :
      AppleAgxEventAllocatorReservePair (Some a) p = (r, Some a', p') -> ev_step a a'
  | ev_step_release p r : 0 <= Ta p -> 0 <= D3 p -> 0 <= Compute p ->
      AppleAgxEventAllocatorReleasePair (Some a) (Some p) = (r, Some a') -> ev_step a a'.

Lemma ev_wf_initial a : ev_initial a -> ev_wf a.
Proof.
  intros (raw & [= <-]). split; try done. intros e [He1 He2].
  unfold APPLE_AGX_EVENT_COUNT in *. rewrite reserved_testbit by done.
  assert ((replicate 4 0) .[ e / 32 ] = 0) as Hw
    by (apply get_replicate; Z.to_euclidean_division_equations; lia).
  assert ((replicate 128 0) .[ e ] = 0) as Hl by (apply get_replicate; lia).
  change (Z.testbit (replicate 4 0) .[ e / 32 ] (e mod 32) = true <->
          (replicate 128 0) .[ e ] <> 0).
  by rewrite Hw, Hl, Z.bits_0.
Qed.

Lemma ev_wf_reserved a x y z l :
  ev_wf a -> free a = x :: y :: z :: l -> ev_wf (reserved_state a x y z).
Proof.
  intros W F. destruct (free_event_in a x _ F) as [Hx _]; [by repeat constructor|].
  destruct (free_event_in a y _ F) as [Hy _]; [by repeat constructor|].
  destruct (free_event_in a z _ F) as [Hz _]; [by repeat constructor|].
  apply ev_wf_three; try done; [|split; [intros _; by apply next_lease_ok|done]].
  split; try apply W. apply wrap_fits. lia.
Qed.

Lemma ev_wf_step a a' : ev_wf a -> ev_step a a' -> ev_wf a'.
Proof.
  intros W [p r p' H|p r H1 H2 H3 H].
  - destruct p as [p|].
    2: { unfold AppleAgxEventAllocatorReservePair in H. by simplify_eq/=. }
    rewrite reserve_cases in H by done.
    destruct (free a) as [|x [|y [|z l]]] eqn:F; simplify_eq; try done.
    by eapply ev_wf_reserved.
  - destruct (release_cases a p W H1 H2 H3) as [[(? & _) E]|[_ E]]; rewrite E in H;
      simplify_eq; [|done].
    apply ev_wf_three; try tauto. split; done.
Qed.

#[export] Program Instance event_component : Component APPLE_AGX_EVENT_ALLOCATOR := {
  comp_init := ev_initial;
  comp_step := ev_step;
  comp_inv := ev_wf;
}.
Next Obligation. apply ev_wf_initial. Qed.
Next Obligation. apply ev_wf_step. Qed.

(** ** Properties *)

(** a reservation takes the three lowest free events, whatever the history of the
    allocator, stamps them with one fresh nonzero lease and leaves every other event
    as it was; with fewer than three free events it is refused and nothing changes.
    Events held by different reservations are therefore never shared. *)
Theorem reservation_takes_three_lowest a p :
  reachable a ->
  match free a with
  | x :: y :: z :: rest =>
      exists a', AppleAgxEventAllocatorReservePair (Some a) (Some p) =
        (true, Some a', Some (Build_APPLE_AGX_EVENT_PAIR x y z (next_lease a))) /\
      x <> y /\ x <> z /\ y <> z /\ next_lease a <> 0 /\ free a' = rest /\
      (forall e, event_in e -> e ∉ [x; y; z] -> (Leases a') .[ e ] = (Leases a) .[ e ]) /\
      owns a' (Build_APPLE_AGX_EVENT_PAIR x y z (next_lease a))
  | _ => AppleAgxEventAllocatorReservePair (Some a) (Some p) = (false, Some a, Some p)
  end.
Proof.
  intros Hr. pose proof (reachable_inv a Hr : ev_wf a) as W.
  pose proof (reserve_cases a p W) as HR.
  destruct (free a) as [|x [|y [|z l]]] eqn:F; try done.
  destruct (free_event_in a x _ F) as [Hx _]; [by repeat constructor|].
  destruct (free_event_in a y _ F) as [Hy _]; [by repeat constructor|].
  destruct (free_event_in a z _ F) as [Hz _]; [by repeat constructor|].
  destruct (free_distinct a x y z l F) as (Hxy & Hxz & Hyz).
  destruct (next_lease_ok a W) as [Hnl _].
  exists (reserved_state a x y z). rewrite HR.
  split_and!; try done; [by apply free_reserved| |].
  all: pose proof (reserved_state_spec a x y z W Hx Hy Hz) as H5.
  - intros e He Hne. destruct (H5 e He) as [_ H]. by rewrite decide_False in H.
  - unfold owns. simpl. split_and!; try done.
    + destruct (H5 x Hx) as [_ H]. rewrite decide_True in H by (by repeat constructor). exact H.
    + destruct (H5 y Hy) as [_ H]. rewrite decide_True in H by (by repeat constructor). exact H.
    + destruct (H5 z Hz) as [_ H]. rewrite decide_True in H by (by repeat constructor). exact H.
Qed.

Definition raw_allocator : APPLE_AGX_EVENT_ALLOCATOR :=
  Build_APPLE_AGX_EVENT_ALLOCATOR [] [] 0 false.
Definition fresh_allocator : APPLE_AGX_EVENT_ALLOCATOR :=
  default raw_allocator (AppleAgxEventAllocatorInitialize (Some raw_allocator)).2.
Definition no_pair : APPLE_AGX_EVENT_PAIR := Build_APPLE_AGX_EVENT_PAIR 0 0 0 0.

Lemma fresh_allocator_reachable : reachable fresh_allocator.
Proof. exists fresh_allocator. split; [by exists raw_allocator|apply rtc_refl]. Qed.

Lemma reservation_takes_three_lowest_witness :
  exists a', AppleAgxEventAllocatorReservePair (Some fresh_allocator) (Some no_pair) =
    (true, Some a', Some (Build_APPLE_AGX_EVENT_PAIR 0 1 2 1)) /\ free a' = seqZ 3 125.
Proof.
  destruct (reservation_takes_three_lowest fresh_allocator no_pair
    fresh_allocator_reachable) as (a' & H & _ & _ & _ & _ & Hf & _).
  exists a'. split; [exact H|]. rewrite Hf. by vm_compute.
Defined.

(** Releasing undoes a reservation exactly.  The pair a reservation returned is
    accepted once: the same events are free again, in the same order, no lease is left
    on them, and a second release of the pair is refused. *)
Theorem release_undoes_reservation a p a1 pair :
  reachable a ->
  AppleAgxEventAllocatorReservePair (Some a) (Some p) = (true, Some a1, Some pair) ->
  exists a2, AppleAgxEventAllocatorReleasePair (Some a1) (Some pair) = (true, Some a2) /\
    free a2 = free a /\
    (forall e, event_in e -> (Leases a2) .[ e ] = (Leases a) .[ e ]) /\
    AppleAgxEventAllocatorReleasePair (Some a2) (Some pair) = (false, Some a2).
Proof.
  intros Hr H. pose proof (reachable_inv a Hr : ev_wf a) as W.
  rewrite reserve_cases in H by done.
  destruct (free a) as [|x [|y [|z l]]] eqn:F; simplify_eq.
  destruct (free_event_in a x _ F) as [Hx Rx]; [by repeat constructor|].
  destruct (free_event_in a y _ F) as [Hy Ry]; [by repeat constructor|].
  destruct (free_event_in a z _ F) as [Hz Rz]; [by repeat constructor|].
  pose proof (ev_wf_reserved a x y z l W F) as W1.
  destruct (next_lease_ok a W) as [Hnl _]. set (a1 := reserved_state a x y z) in *.
  set (pair := Build_APPLE_AGX_EVENT_PAIR x y z (next_lease a)).
  pose proof (reserved_state_spec a x y z W Hx Hy Hz) as H1. fold a1 in H1.
  destruct (with_three_spec a1 x y z false 0 (ev_words a1 W1) (ev_leases a1 W1) Hx Hy Hz)
    as (_ & _ & _ & _ & H2).
  assert (0 <= x /\ 0 <= y /\ 0 <= z) as (? & ? & ?) by (unfold event_in in *; lia).
  destruct (free_distinct a x y z l F) as (Hxy & Hxz & Hyz).
  destruct (release_cases a1 pair W1) as [[Ho E]|[Ho _]]; [done..| |].
  2: { exfalso. apply Ho. unfold owns, pair. simpl.
       destruct (H1 x Hx) as [_ L1]. destruct (H1 y Hy) as [_ L2].
       destruct (H1 z Hz) as [_ L3]. rewrite decide_True in L1 by (by repeat constructor).
       rewrite decide_True in L2 by (by repeat constructor).
       rewrite decide_True in L3 by (by repeat constructor).
       by split_and!. }
  exists (with_three a1 x y z false 0). split_and!; [exact E| | |].
  - rewrite <- F. apply free_ext. intros e He. destruct (H2 e He) as [-> _].
    destruct (H1 e He) as [H1e _]. case_decide as D; [|exact H1e].
    rewrite !elem_of_cons, elem_of_nil in D. intuition congruence.
  - intros e He. destruct (H2 e He) as [_ ->]. destruct (H1 e He) as [_ H1e].
    case_decide as D; [|exact H1e].
    destruct (decide ((Leases a) .[ e ] = 0)) as [|Hne]; [done|].
    apply (ev_lease a W e He) in Hne. rewrite !elem_of_cons, elem_of_nil in D.
    intuition congruence.
  - assert (ev_wf (with_three a1 x y z false 0)) as W2 by by apply ev_wf_three.
    destruct (release_cases (with_three a1 x y z false 0) pair W2) as [[Ho2 _]|[_ E2]];
      [done..| |exact E2].
    destruct Ho2 as (_ & _ & _ & L & _). destruct (H2 x Hx) as [_ L0].
    rewrite decide_True in L0 by (by repeat constructor).
    change ((Leases (with_three a1 x y z false 0)) .[ x ] = next_lease a) in L. congruence.
Qed.

Lemma release_undoes_reservation_witness :
  let '(_, a1, leased) :=
    AppleAgxEventAllocatorReservePair (Some fresh_allocator) (Some no_pair) in
  exists a2, AppleAgxEventAllocatorReleasePair a1 leased = (true, Some a2) /\
    free a2 = free fresh_allocator.
Proof.
  destruct (release_undoes_reservation fresh_allocator no_pair
    (reserved_state fresh_allocator 0 1 2) (Build_APPLE_AGX_EVENT_PAIR 0 1 2 1)
    fresh_allocator_reachable) as (a2 & H & Hf & _); [by vm_compute|].
  exists a2. split; [exact H|exact Hf].
Defined.

End Events.
