(* ===== verification/DeviceState.v ===== *)
(** * The device lifecycle (shared/src/apple_agx_state.c)

    Phases Off -> ResourcesValidated -> FirmwareOwned -> QueueReady -> Running, reset
    through Resetting -> Stopped, a table of 64 GPU mappings and the one outstanding
    64-bit fence.  [Device.dev_wf] is what holds in every state: mappings are page
    aligned, inside the address space, pairwise disjoint and never writable and
    executable at once, and the fence counter moves by one. *)

From S2P Require Import Prelude Arrays Bytes.

Module Device.

(** ** Data *)

Definition J313_AGX_G2_PAGE_SIZE : Z := 16384.
Definition J313_AGX_G2_ADDRESS_BITS : Z := 40.
Definition J313_AGX_G2_WORK_TIMEOUT_MS : Z := 500.
Definition APPLE_AGX_MAX_MAPPINGS : Z := 64.

Inductive APPLE_AGX_PHASE :=
  | AppleAgxPhaseOff
  | AppleAgxPhaseResourcesValidated
  | AppleAgxPhaseFirmwareOwned
  | AppleAgxPhaseQueueReady
  | AppleAgxPhaseRunning
  | AppleAgxPhaseResetting
  | AppleAgxPhaseStopped
  | AppleAgxPhaseFailed.
#[export] Instance agx_phase_eq_dec : EqDecision APPLE_AGX_PHASE.
Proof. solve_decision. Defined.

Definition AppleAgxMapRead : Z := Z.shiftl 1 0.
Definition AppleAgxMapWrite : Z := Z.shiftl 1 1.
Definition AppleAgxMapExecute : Z := Z.shiftl 1 2.

Record APPLE_AGX_MAPPING := {
  Base : Z;
  Size : Z;
  Permissions : Z;
  InUse : bool;
}.
#[export] Instance mapping_eta : Eta APPLE_AGX_MAPPING :=
  fun m => Build_APPLE_AGX_MAPPING (Base m) (Size m) (Permissions m) (InUse m).

Definition no_mapping : APPLE_AGX_MAPPING := Build_APPLE_AGX_MAPPING 0 0 0 false.
#[export] Instance mapping_inhabited : Inhabited APPLE_AGX_MAPPING := populate no_mapping.

Record APPLE_AGX_STATE := {
  Phase : APPLE_AGX_PHASE;
  Mappings : list APPLE_AGX_MAPPING;
  MappingCount : Z;
  CompletedFence : Z;
  SubmittedFence : Z;
  SubmitTimeMs : Z;
  FenceOutstanding : bool;
}.
#[export] Instance state_eta : Eta APPLE_AGX_STATE :=
  fun s => Build_APPLE_AGX_STATE (Phase s) (Mappings s) (MappingCount s) (CompletedFence s)
    (SubmittedFence s) (SubmitTimeMs s) (FenceOutstanding s).

(** ** Operations *)

Abbreviation phase_is s p := (bool_decide (Phase s = p)).

Definition AppleAgxPhaseMayMap (p : APPLE_AGX_PHASE) : bool :=
  bool_decide (p = AppleAgxPhaseFirmwareOwned) || bool_decide (p = AppleAgxPhaseQueueReady) ||
  bool_decide (p = AppleAgxPhaseRunning).

Definition AppleAgxRangeValid (Base_ Size_ : Z) : bool :=
  let page := J313_AGX_G2_PAGE_SIZE in
  let limit := Z.shiftl 1 J313_AGX_G2_ADDRESS_BITS in
  if (Size_ =? 0) || negb (Base_ mod page =? 0) || negb (Size_ mod page =? 0) then false
  else if (limit <=? Base_) || (u64 (limit - Base_) <? Size_) then false
  else true.

Definition AppleAgxRangesOverlap (LeftBase LeftSize RightBase RightSize : Z) : bool :=
  (LeftBase <? u64 (RightBase + RightSize)) && (RightBase <? u64 (LeftBase + LeftSize)).

Definition AppleAgxStateInitialize (State : ptr APPLE_AGX_STATE) : ptr APPLE_AGX_STATE :=
  deref s := State else NULL in
  Some (s <| Phase := AppleAgxPhaseOff |> <| MappingCount := 0 |> <| CompletedFence := 0 |>
          <| SubmittedFence := 0 |> <| SubmitTimeMs := 0 |> <| FenceOutstanding := false |>
          <| Mappings := fill_loop 0 APPLE_AGX_MAX_MAPPINGS (fun _ => no_mapping) (Mappings s) |>).

Definition AppleAgxStateValidateResources (State : ptr APPLE_AGX_STATE)
    : bool * ptr APPLE_AGX_STATE :=
  deref s := State else (false, State) in
  if negb (MappingCount s =? 0) || FenceOutstanding s then (false, State)
  else if negb (phase_is s AppleAgxPhaseOff) && negb (phase_is s AppleAgxPhaseStopped)
  then (false, State)
  else (true, Some (s <| Phase := AppleAgxPhaseResourcesValidated |>)).

Definition AppleAgxStateTakeFirmwareOwnership (State : ptr APPLE_AGX_STATE)
    : bool * ptr APPLE_AGX_STATE :=
  deref s := State else (false, State) in
  if negb (phase_is s AppleAgxPhaseResourcesValidated) then (false, State)
  else (true, Some (s <| Phase := AppleAgxPhaseFirmwareOwned |>)).

Definition AppleAgxStateMarkQueueReady (State : ptr APPLE_AGX_STATE)
    : bool * ptr APPLE_AGX_STATE :=
  deref s := State else (false, State) in
  if negb (phase_is s AppleAgxPhaseFirmwareOwned) then (false, State)
  else (true, Some (s <| Phase := AppleAgxPhaseQueueReady |>)).

Definition AppleAgxStateStart (State : ptr APPLE_AGX_STATE) : bool * ptr APPLE_AGX_STATE :=
  deref s := State else (false, State) in
  if negb (phase_is s AppleAgxPhaseQueueReady) then (false, State)
  else (true, Some (s <| Phase := AppleAgxPhaseRunning |>)).

(** The search loop of Map: [None] is the early return on an overlap. *)
Fixpoint map_scan (m : list APPLE_AGX_MAPPING) (Base_ Size_ : Z) (index : Z) (fuel : nat)
    (free_index : Z) : option Z :=
  match fuel with
  | O => Some free_index
  | S fuel =>
      let mapping := m .[ index ] in
      if negb (InUse mapping) then
        map_scan m Base_ Size_ (index + 1) fuel
          (if free_index =? APPLE_AGX_MAX_MAPPINGS then index else free_index)
      else if AppleAgxRangesOverlap Base_ Size_ (Base mapping) (Size mapping) then None
      else map_scan m Base_ Size_ (index + 1) fuel free_index
  end.

Definition AppleAgxStateMap (State : ptr APPLE_AGX_STATE) (Base_ Size_ Permissions_ : Z)
    : bool * ptr APPLE_AGX_STATE :=
  let allowed := Z.lor (Z.lor AppleAgxMapRead AppleAgxMapWrite) AppleAgxMapExecute in
  let write_execute := Z.lor AppleAgxMapWrite AppleAgxMapExecute in
  deref s := State else (false, State) in
  if negb (AppleAgxPhaseMayMap (Phase s)) || negb (AppleAgxRangeValid Base_ Size_) ||
     (Permissions_ =? 0) || negb (Z.ldiff Permissions_ allowed =? 0) ||
     (Z.land Permissions_ write_execute =? write_execute) ||
     (APPLE_AGX_MAX_MAPPINGS <=? MappingCount s)
  then (false, State)
  else
    match map_scan (Mappings s) Base_ Size_ 0 (Z.to_nat APPLE_AGX_MAX_MAPPINGS)
            APPLE_AGX_MAX_MAPPINGS with
    | None => (false, State)
    | Some free_index =>
        if free_index =? APPLE_AGX_MAX_MAPPINGS then (false, State)
        else (true, Some (s
          <| Mappings := (Mappings s)
               .[ free_index <- Build_APPLE_AGX_MAPPING Base_ Size_ Permissions_ true ] |>
          <| MappingCount := u32 (MappingCount s + 1) |>))
    end.

Definition AppleAgxStateUnmap (State : ptr APPLE_AGX_STATE) (Base_ Size_ : Z)
    : bool * ptr APPLE_AGX_STATE :=
  deref s := State else (false, State) in
  match find_range 0 APPLE_AGX_MAX_MAPPINGS
          (fun index => let mapping := (Mappings s) .[ index ] in
             negb (negb (InUse mapping) || negb (Base mapping =? Base_) ||
                   negb (Size mapping =? Size_))) with
  | None => (false, State)
  | Some index =>
      (true, Some (s <| Mappings := (Mappings s) .[ index <- no_mapping ] |>
                     <| MappingCount := u32 (MappingCount s - 1) |>))
  end.

Definition AppleAgxStateSubmitFence (State : ptr APPLE_AGX_STATE) (Fence NowMs : Z)
    : bool * ptr APPLE_AGX_STATE :=
  deref s := State else (false, State) in
  if negb (phase_is s AppleAgxPhaseRunning) || FenceOutstanding s || (Fence =? 0) ||
     negb (Fence =? u64 (CompletedFence s + 1))
  then (false, State)
  else (true, Some (s <| SubmittedFence := Fence |> <| SubmitTimeMs := NowMs |>
                      <| FenceOutstanding := true |>)).

Definition AppleAgxStateCompleteFence (State : ptr APPLE_AGX_STATE) (Fence : Z)
    : bool * ptr APPLE_AGX_STATE :=
  deref s := State else (false, State) in
  if negb (phase_is s AppleAgxPhaseRunning) || negb (FenceOutstanding s) ||
     negb (Fence =? SubmittedFence s)
  then (false, State)
  else (true, Some (s <| CompletedFence := Fence |> <| SubmitTimeMs := 0 |>
                      <| FenceOutstanding := false |>)).

Definition AppleAgxStateCheckTimeout (State : ptr APPLE_AGX_STATE) (NowMs : Z)
    : bool * ptr APPLE_AGX_STATE :=
  deref s := State else (false, State) in
  if negb (phase_is s AppleAgxPhaseRunning) || negb (FenceOutstanding s) then (false, State)
  else if NowMs <? SubmitTimeMs s
  then (true, Some (s <| Phase := AppleAgxPhaseResetting |>))
  else if u64 (NowMs - SubmitTimeMs s) <=? J313_AGX_G2_WORK_TIMEOUT_MS then (false, State)
  else (true, Some (s <| Phase := AppleAgxPhaseResetting |>)).

Definition AppleAgxStateDiscardOutstandingFence (State : ptr APPLE_AGX_STATE)
    : bool * ptr APPLE_AGX_STATE :=
  deref s := State else (false, State) in
  if negb (phase_is s AppleAgxPhaseResetting) || negb (FenceOutstanding s) then (false, State)
  else (true, Some (s <| SubmittedFence := CompletedFence s |> <| SubmitTimeMs := 0 |>
                      <| FenceOutstanding := false |>)).

Definition AppleAgxStateBeginReset (State : ptr APPLE_AGX_STATE)
    : bool * ptr APPLE_AGX_STATE :=
  deref s := State else (false, State) in
  if phase_is s AppleAgxPhaseOff || phase_is s AppleAgxPhaseStopped ||
     phase_is s AppleAgxPhaseResetting
  then (false, State)
  else (true, Some (s <| Phase := AppleAgxPhaseResetting |>)).

Definition AppleAgxStateCompleteReset (State : ptr APPLE_AGX_STATE)
    : bool * ptr APPLE_AGX_STATE :=
  deref s := State else (false, State) in
  if negb (phase_is s AppleAgxPhaseResetting) || negb (MappingCount s =? 0) ||
     FenceOutstanding s
  then (false, State)
  else (true, Some (s <| Phase := AppleAgxPhaseStopped |>)).

Definition AppleAgxStateFail (State : ptr APPLE_AGX_STATE) : ptr APPLE_AGX_STATE :=
  deref s := State else NULL in Some (s <| Phase := AppleAgxPhaseFailed |>).

(** ** The invariant *)

Definition covers (m : APPLE_AGX_MAPPING) (va : Z) : bool :=
  InUse m && (Base m <=? va) && (va <? Base m + Size m).

(** Page aligned, inside the address space, never writable and executable at once. *)
Definition range_ok (b n : Z) : Prop :=
  0 < n /\ b mod J313_AGX_G2_PAGE_SIZE = 0 /\ n mod J313_AGX_G2_PAGE_SIZE = 0 /\
  0 <= b /\ b + n <= 2 ^ J313_AGX_G2_ADDRESS_BITS.
Definition permissions_ok (p : Z) : Prop :=
  p <> 0 /\ Z.ldiff p 7 = 0 /\ Z.land p 6 <> 6.

Definition slot_ok (m : APPLE_AGX_MAPPING) : Prop :=
  if InUse m then range_ok (Base m) (Size m) /\ permissions_ok (Permissions m)
  else m = no_mapping.

Definition apart (b n : Z) (m : APPLE_AGX_MAPPING) : Prop :=
  InUse m = true -> b + n <= Base m \/ Base m + Size m <= b.

Record dev_wf (s : APPLE_AGX_STATE) : Prop := {
  dev_table : zlen (Mappings s) = APPLE_AGX_MAX_MAPPINGS;
  dev_slots : Forall slot_ok (Mappings s);
  dev_count : MappingCount s = zlen (filter (fun m => InUse m = true) (Mappings s));
  dev_apart : forall i j, 0 <= i < APPLE_AGX_MAX_MAPPINGS -> 0 <= j < APPLE_AGX_MAX_MAPPINGS ->
    i <> j -> InUse (Mappings s) .[ i ] = true ->
    apart (Base (Mappings s) .[ i ]) (Size (Mappings s) .[ i ]) (Mappings s) .[ j ];
  (** Only a device that owns the firmware, or is leaving it, has mappings. *)
  dev_mapped : AppleAgxPhaseMayMap (Phase s) = false ->
    Phase s <> AppleAgxPhaseResetting -> Phase s <> AppleAgxPhaseFailed -> MappingCount s = 0;
  dev_fence : if FenceOutstanding s
    then SubmittedFence s = u64 (CompletedFence s + 1) /\ SubmittedFence s <> 0 /\
         (Phase s = AppleAgxPhaseRunning \/ Phase s = AppleAgxPhaseResetting \/
          Phase s = AppleAgxPhaseFailed)
    else SubmittedFence s = CompletedFence s /\ SubmitTimeMs s = 0;
  dev_completed : is_u64 (CompletedFence s);
}.

Lemma range_valid_spec b n :
  is_u64 b -> is_u64 n -> AppleAgxRangeValid b n = true <-> range_ok b n.
Proof.
  unfold AppleAgxRangeValid, range_ok, J313_AGX_G2_PAGE_SIZE, J313_AGX_G2_ADDRESS_BITS.
  intros Hb Hn. rewrite Z.shiftl_1_l. change (2 ^ 40) with 1099511627776 in *.
  assert (b < 1099511627776 -> u64 (1099511627776 - b) = 1099511627776 - b) by word_lia.
  assert (0 <= b < 2 ^ 64 /\ 0 <= n < 2 ^ 64) as [? ?] by done.
  repeat case_match; guards; split; try done; intros; lia || intuition lia.
Qed.

Lemma overlap_spec b n b' n' :
  range_ok b n -> range_ok b' n' ->
  AppleAgxRangesOverlap b n b' n' = false <-> b + n <= b' \/ b' + n' <= b.
Proof.
  unfold range_ok, AppleAgxRangesOverlap, J313_AGX_G2_ADDRESS_BITS. intros H H'.
  change (2 ^ 40) with 1099511627776 in *.
  rewrite !wrap_id by word_lia. rewrite andb_false_iff, !Z.ltb_ge. lia.
Qed.

(** ** The slot search *)

Definition overlapping (m : list APPLE_AGX_MAPPING) (b n j : Z) : bool :=
  InUse m .[ j ] && AppleAgxRangesOverlap b n (Base m .[ j ]) (Size m .[ j ]).

Lemma map_scan_spec m b n fuel : forall i free_index,
  i + Z.of_nat fuel <= APPLE_AGX_MAX_MAPPINGS ->
  map_scan m b n i fuel free_index =
    match find_from (overlapping m b n) i fuel with
    | Some _ => None
    | None => Some (if free_index =? APPLE_AGX_MAX_MAPPINGS then
                      default APPLE_AGX_MAX_MAPPINGS
                        (find_from (fun j => negb (InUse m .[ j ])) i fuel)
                    else free_index)
    end.
Proof.
  induction fuel as [|fuel IH]; intros i fi Hi; simpl.
  { by destruct (Z.eqb_spec fi APPLE_AGX_MAX_MAPPINGS) as [->|]. }
  rewrite !IH by lia.
  change (overlapping m b n i) with
    (InUse m .[ i ] && AppleAgxRangesOverlap b n (Base m .[ i ]) (Size m .[ i ])).
  destruct (InUse m .[ i ]); simpl.
  - by destruct (AppleAgxRangesOverlap b n (Base m .[ i ]) (Size m .[ i ])).
  - destruct (Z.eqb_spec fi APPLE_AGX_MAX_MAPPINGS) as [->|Hne]; simpl.
    + by destruct (Z.eqb_spec i APPLE_AGX_MAX_MAPPINGS); [lia|].
    + by destruct (Z.eqb_spec fi APPLE_AGX_MAX_MAPPINGS).
Qed.

Lemma no_overlap_spec s b n :
  dev_wf s -> range_ok b n ->
  find_range 0 APPLE_AGX_MAX_MAPPINGS (overlapping (Mappings s) b n) = None <->
  forall j, 0 <= j < APPLE_AGX_MAX_MAPPINGS -> apart b n (Mappings s) .[ j ].
Proof.
  intros W Hr. rewrite find_range_None. simpl.
  split; intros H j Hj; specialize (H j Hj); unfold overlapping, apart in *;
    pose proof (arr_get_Forall _ _ j (dev_slots s W) ltac:(rewrite dev_table; done)) as Hs;
    unfold slot_ok in Hs; destruct (InUse (Mappings s) .[ j ]); try done; simpl in *.
  - intros _. by apply (overlap_spec _ _ _ _ Hr (proj1 Hs)).
  - apply (overlap_spec _ _ _ _ Hr (proj1 Hs)). auto.
Qed.

(** The free slot Map takes, when one is free. *)
Lemma free_slot s :
  dev_wf s -> MappingCount s < APPLE_AGX_MAX_MAPPINGS ->
  exists i, find_range 0 APPLE_AGX_MAX_MAPPINGS (fun j => negb (InUse (Mappings s) .[ j ]))
              = Some i /\
    0 <= i < APPLE_AGX_MAX_MAPPINGS /\ (Mappings s) .[ i ] = no_mapping.
Proof.
  intros W Hc. destruct (find_range _ _ _) as [i|] eqn:F.
  - exists i. apply find_range_Some in F as (Hi & Hu & _).
    split_and!; [done|lia|lia|]. guards.
    pose proof (arr_get_Forall _ _ i (dev_slots s W) ltac:(rewrite dev_table by done; lia)) as Hs.
    unfold slot_ok in Hs. by rewrite Hu in Hs.
  - exfalso. rewrite find_range_None in F. rewrite (dev_count s W), filter_all in Hc.
    + rewrite (dev_table s W) in Hc. lia.
    + intros x Hx. apply list_elem_of_lookup in Hx as [k Hk].
      pose proof (lookup_lt_Some _ _ _ Hk) as Hlt. pose proof (dev_table s W). unfold zlen in *.
      specialize (F (Z.of_nat k) ltac:(lia)). apply negb_false_iff in F.
      unfold arr_get in F. rewrite Nat2Z.id in F. by rewrite (list_lookup_total_correct _ _ _ Hk) in F.
Qed.

(** ** The table under Map and Unmap *)

(** The permissions a GPU address has. *)
Definition translate (s : APPLE_AGX_STATE) (va : Z) : option Z :=
  match find_range 0 APPLE_AGX_MAX_MAPPINGS (fun i => covers (Mappings s) .[ i ] va) with
  | Some i => Some (Permissions (Mappings s) .[ i ])
  | None => None
  end.

Lemma covers_unique s i j va :
  dev_wf s -> 0 <= i < APPLE_AGX_MAX_MAPPINGS -> 0 <= j < APPLE_AGX_MAX_MAPPINGS ->
  covers (Mappings s) .[ i ] va = true -> covers (Mappings s) .[ j ] va = true -> i = j.
Proof.
  intros W Hi Hj Ci Cj. destruct (decide (i = j)) as [|Hne]; [done|exfalso].
  pose proof (dev_apart s W i j Hi Hj Hne) as Ha. unfold covers, apart in *. guards.
  destruct Ha; done || lia.
Qed.

Lemma translate_Some s i va :
  dev_wf s -> 0 <= i < APPLE_AGX_MAX_MAPPINGS -> covers (Mappings s) .[ i ] va = true ->
  translate s va = Some (Permissions (Mappings s) .[ i ]).
Proof.
  intros W Hi Ci. unfold translate. destruct (find_range _ _ _) as [j|] eqn:F.
  - apply find_range_Some in F as (Hj & Cj & _).
    by rewrite (covers_unique s i j va W Hi Hj Ci Cj).
  - rewrite find_range_None in F. rewrite (F i) in Ci by lia. done.
Qed.

Lemma translate_None s va :
  (forall i, 0 <= i < APPLE_AGX_MAX_MAPPINGS -> covers (Mappings s) .[ i ] va = false) ->
  translate s va = None.
Proof. intros H. unfold translate. by rewrite (proj2 (find_range_None _ _ _)) by auto. Qed.

(** Two states that differ in slot [i], free in the first: their translations differ
    exactly on the range of the new mapping. *)
Lemma translate_change s s' i :
  dev_wf s -> dev_wf s' -> 0 <= i < APPLE_AGX_MAX_MAPPINGS ->
  (Mappings s) .[ i ] = no_mapping ->
  (forall j, 0 <= j -> j <> i -> (Mappings s') .[ j ] = (Mappings s) .[ j ]) ->
  forall va, translate s' va =
    if covers (Mappings s') .[ i ] va then Some (Permissions (Mappings s') .[ i ])
    else translate s va.
Proof.
  intros W W' Hi Hfree Hsame va. destruct (covers (Mappings s') .[ i ] va) eqn:C.
  { by apply translate_Some. }
  unfold translate at 2. destruct (find_range _ _ _) as [j|] eqn:F.
  - apply find_range_Some in F as (Hj & Cj & _). destruct (decide (j = i)) as [->|Hne].
    { rewrite Hfree in Cj. done. }
    rewrite <- Hsame in * by lia. by apply translate_Some.
  - rewrite find_range_None in F. apply translate_None. intros j Hj.
    destruct (decide (j = i)) as [->|Hne]; [done|]. rewrite Hsame by lia. apply F. lia.
Qed.

Definition count_used (m : list APPLE_AGX_MAPPING) : Z := zlen (filter (fun m => InUse m = true) m).

Lemma count_used_set m i x :
  0 <= i < zlen m ->
  count_used (m .[ i <- x ]) =
    count_used m - (if InUse m .[ i ] then 1 else 0) + (if InUse x then 1 else 0).
Proof.
  unfold count_used, zlen, arr_get, arr_set. intros Hi.
  assert (Z.to_nat i < length m)%nat as Hlt by lia.
  destruct (lookup_lt_is_Some_2 m _ Hlt) as [y Hy].
  rewrite (list_lookup_total_correct _ _ _ Hy).
  rewrite <- (take_drop_middle m _ y Hy) at 2. rewrite insert_take_drop by done.
  rewrite !filter_app, !filter_cons, !length_app.
  repeat case_decide; destruct (InUse x), (InUse y); simpl; try congruence; lia.
Qed.

Lemma count_used_bound m : 0 <= count_used m <= zlen m.
Proof. unfold count_used, zlen. pose proof (length_filter (fun m => InUse m = true) m). lia. Qed.

(** What Map asks for. *)
Definition mappable (s : APPLE_AGX_STATE) (b n p : Z) : Prop :=
  AppleAgxPhaseMayMap (Phase s) = true /\ range_ok b n /\ permissions_ok p /\
  MappingCount s < APPLE_AGX_MAX_MAPPINGS /\
  forall j, 0 <= j < APPLE_AGX_MAX_MAPPINGS -> apart b n (Mappings s) .[ j ].

Definition mapped (s : APPLE_AGX_STATE) (i b n p : Z) : APPLE_AGX_STATE :=
  s <| Mappings := (Mappings s) .[ i <- Build_APPLE_AGX_MAPPING b n p true ] |>
    <| MappingCount := u32 (MappingCount s + 1) |>.
Definition unmapped (s : APPLE_AGX_STATE) (i : Z) : APPLE_AGX_STATE :=
  s <| Mappings := (Mappings s) .[ i <- no_mapping ] |>
    <| MappingCount := u32 (MappingCount s - 1) |>.

Lemma dev_count_bound s : dev_wf s -> 0 <= MappingCount s <= APPLE_AGX_MAX_MAPPINGS.
Proof. intros W. rewrite (dev_count s W), <- (dev_table s W). apply count_used_bound. Qed.

Lemma map_cases s b n p :
  dev_wf s -> is_u64 b -> is_u64 n ->
  (mappable s b n p /\ exists i, 0 <= i < APPLE_AGX_MAX_MAPPINGS /\
     (Mappings s) .[ i ] = no_mapping /\
     AppleAgxStateMap (Some s) b n p = (true, Some (mapped s i b n p))) \/
  (~ mappable s b n p /\ AppleAgxStateMap (Some s) b n p = (false, Some s)).
Proof.
  intros W Hb Hn. unfold AppleAgxStateMap.
  change (Z.lor (Z.lor AppleAgxMapRead AppleAgxMapWrite) AppleAgxMapExecute) with 7.
  change (Z.lor AppleAgxMapWrite AppleAgxMapExecute) with 6. cbv zeta.
  pose proof (range_valid_spec b n Hb Hn) as HR.
  match goal with |- context [if ?c then _ else _] => destruct c eqn:G end.
  { right. split; [|done]. intros (H1 & H2 & (H3 & H4 & H5) & H6 & _). guards.
    apply HR in H2. intuition (congruence || lia). }
  guards. repeat match goal with H : _ /\ _ |- _ => destruct H end.
  assert (range_ok b n) as Hr by (apply HR; done).
  rewrite map_scan_spec by done.
  change (find_from ?p 0 (Z.to_nat APPLE_AGX_MAX_MAPPINGS)) with
    (find_range 0 APPLE_AGX_MAX_MAPPINGS p).
  pose proof (no_overlap_spec s b n W Hr) as Ho.
  destruct (find_range 0 _ (overlapping _ _ _)) as [j|].
  { right. split; [|done]. intros (_ & _ & _ & _ & Ha). by apply Ho in Ha. }
  destruct (free_slot s W ltac:(lia)) as (i & Hi & Hb' & Hf). rewrite Hi. simpl.
  destruct (Z.eqb_spec i APPLE_AGX_MAX_MAPPINGS); [lia|].
  left. split; [|by exists i]. split_and!; try done. by apply Ho.
Qed.

Lemma dev_wf_mapped s i b n p :
  dev_wf s -> mappable s b n p -> 0 <= i < APPLE_AGX_MAX_MAPPINGS ->
  (Mappings s) .[ i ] = no_mapping -> dev_wf (mapped s i b n p).
Proof.
  intros W (Hm & Hr & Hp & Hc & Ha) Hi Hf. pose proof (dev_table s W) as Ht.
  pose proof (dev_count_bound s W).
  split; simpl; try apply W.
  - by rewrite zlen_set.
  - apply arr_set_Forall; [apply W|done].
  - change (zlen (filter _ ?m)) with (count_used m). rewrite count_used_set, Hf by lia. simpl.
    unfold APPLE_AGX_MAX_MAPPINGS in *. rewrite wrap_id by word_lia.
    rewrite (dev_count s W). unfold count_used. lia.
  - intros j k Hj Hk Hne. rewrite !get_set by lia.
    destruct (decide (i = j)) as [<-|], (decide (i = k)) as [<-|]; try done; simpl.
    + intros _. by apply Ha.
    + intros Hu _. simpl. destruct (Ha j Hj Hu); lia.
    + intros Hu. by apply (dev_apart s W).
  - congruence.
Qed.

Lemma dev_wf_unmapped s i :
  dev_wf s -> 0 <= i < APPLE_AGX_MAX_MAPPINGS -> InUse (Mappings s) .[ i ] = true ->
  dev_wf (unmapped s i).
Proof.
  intros W Hi Hu. pose proof (dev_table s W) as Ht.
  assert (u32 (MappingCount s - 1) = count_used (Mappings s) .[ i <- no_mapping ]) as Hc.
  { pose proof (count_used_bound (Mappings s) .[ i <- no_mapping ]).
    pose proof (dev_count_bound s W). rewrite zlen_set in *.
    rewrite count_used_set, Hu in * by lia. simpl in *. rewrite (dev_count s W) in *.
    change (zlen (filter _ ?m)) with (count_used m) in *.
    unfold APPLE_AGX_MAX_MAPPINGS in *. rewrite wrap_id by word_lia. lia. }
  split; simpl; try apply W.
  - by rewrite zlen_set.
  - apply arr_set_Forall; [apply W|done].
  - exact Hc.
  - intros j k Hj Hk Hne. rewrite !get_set by lia.
    destruct (decide (i = j)) as [<-|]; [done|]. intros Hj'.
    destruct (decide (i = k)) as [<-|]; [done|]. by apply (dev_apart s W).
  - intros H1 H2 H3. exfalso. pose proof (dev_mapped s W H1 H2 H3) as H0.
    pose proof (count_used_bound (Mappings s) .[ i <- no_mapping ]).
    rewrite count_used_set, Hu in * by lia. simpl in *. rewrite (dev_count s W) in H0.
    unfold count_used in *. lia.
Qed.

Lemma unmapped_mapped s i b n p :
  dev_wf s -> MappingCount s < APPLE_AGX_MAX_MAPPINGS -> 0 <= i < APPLE_AGX_MAX_MAPPINGS ->
  (Mappings s) .[ i ] = no_mapping -> unmapped (mapped s i b n p) i = s.
Proof.
  intros W Hc Hi Hf. pose proof (dev_count_bound s W). pose proof (dev_table s W).
  unfold unmapped, mapped, APPLE_AGX_MAX_MAPPINGS in *.
  destruct s as [ph m c cf sf st o]. simpl in *.
  rewrite set_set_eq. f_equal; [|word_lia].
  apply arr_ext; [by rewrite zlen_set|]. intros j Hj. rewrite zlen_set in Hj.
  rewrite get_set by lia. case_decide; by subst.
Qed.

Lemma unmap_cases s b n :
  (exists i, 0 <= i < APPLE_AGX_MAX_MAPPINGS /\ InUse (Mappings s) .[ i ] = true /\
     Base (Mappings s) .[ i ] = b /\ Size (Mappings s) .[ i ] = n /\
     AppleAgxStateUnmap (Some s) b n = (true, Some (unmapped s i))) \/
  ((forall i, 0 <= i < APPLE_AGX_MAX_MAPPINGS -> InUse (Mappings s) .[ i ] = true ->
      ~ (Base (Mappings s) .[ i ] = b /\ Size (Mappings s) .[ i ] = n)) /\
   AppleAgxStateUnmap (Some s) b n = (false, Some s)).
Proof.
  unfold AppleAgxStateUnmap. destruct (find_range _ _ _) as [i|] eqn:F; [left|right].
  - apply find_range_Some in F as (Hi & Hu & _). exists i. guards.
    split_and!; done || lia.
  - split; [|done]. rewrite find_range_None in F. intros i Hi Hu [Hb Hn].
    specialize (F i ltac:(lia)). rewrite Hu, Hb, Hn, !Z.eqb_refl in F. done.
Qed.

(** ** The device as a transition system *)

Definition dev_initial (s : APPLE_AGX_STATE) : Prop :=
  exists raw, zlen (Mappings raw) = APPLE_AGX_MAX_MAPPINGS /\
    AppleAgxStateInitialize (Some raw) = Some s.

Inductive dev_step (s s' : APPLE_AGX_STATE) : Prop :=
  | dev_step_map b n p r : is_u64 b -> is_u64 n ->
      AppleAgxStateMap (Some s) b n p = (r, Some s') -> dev_step s s'
  | dev_step_unmap b n r : AppleAgxStateUnmap (Some s) b n = (r, Some s') -> dev_step s s'
  | dev_step_submit f now r :
      AppleAgxStateSubmitFence (Some s) f now = (r, Some s') -> dev_step s s'
  | dev_step_complete f r :
      AppleAgxStateCompleteFence (Some s) f = (r, Some s') -> dev_step s s'
  | dev_step_timeout now r :
      AppleAgxStateCheckTimeout (Some s) now = (r, Some s') -> dev_step s s'
  | dev_step_discard r :
      AppleAgxStateDiscardOutstandingFence (Some s) = (r, Some s') -> dev_step s s'
  | dev_step_phase op r :
      op ∈ [AppleAgxStateValidateResources; AppleAgxStateTakeFirmwareOwnership;
            AppleAgxStateMarkQueueReady; AppleAgxStateStart; AppleAgxStateBeginReset;
            AppleAgxStateCompleteReset] ->
      op (Some s) = (r, Some s') -> dev_step s s'
  | dev_step_fail : AppleAgxStateFail (Some s) = Some s' -> dev_step s s'.

Lemma dev_initial_value s :
  dev_initial s ->
  s = Build_APPLE_AGX_STATE AppleAgxPhaseOff (replicate 64 no_mapping) 0 0 0 0 false.
Proof.
  intros (raw & Ht & H). unfold AppleAgxStateInitialize in H. apply (inj Some) in H. subst s.
  unfold set_field, eta_expand, state_eta. f_equal.
  apply arr_ext; [by rewrite zlen_fill|]. intros i Hi. rewrite zlen_fill in Hi by done.
  rewrite Ht in Hi. change APPLE_AGX_MAX_MAPPINGS with 64 in *. rewrite get_replicate by lia.
  destruct (fill_loop_spec 0 64 (fun _ => no_mapping) (Mappings raw)) as [_ H]; [lia..|].
  by rewrite H, decide_True by lia.
Qed.

Lemma dev_wf_initial s : dev_initial s -> dev_wf s.
Proof.
  intros ->%dev_initial_value.
  split; unfold Phase, Mappings, MappingCount, CompletedFence, SubmittedFence, SubmitTimeMs,
    FenceOutstanding; [reflexivity| |reflexivity| |reflexivity|by split|by vm_compute].
  - by apply Forall_replicate.
  - intros i j Hi Hj _. change APPLE_AGX_MAX_MAPPINGS with 64 in *.
    by rewrite get_replicate by lia.
Qed.

(** A step that leaves the table alone. *)
Lemma dev_wf_phase s p :
  dev_wf s ->
  (AppleAgxPhaseMayMap p = false -> p <> AppleAgxPhaseResetting -> p <> AppleAgxPhaseFailed ->
   MappingCount s = 0) ->
  (FenceOutstanding s = true ->
   p = AppleAgxPhaseRunning \/ p = AppleAgxPhaseResetting \/ p = AppleAgxPhaseFailed) ->
  dev_wf (s <| Phase := p |>).
Proof.
  intros W Hp Ho. split; simpl; try apply W; [done|].
  pose proof (dev_fence s W) as Hf. destruct (FenceOutstanding s); [|done].
  split_and!; [apply Hf..|by apply Ho].
Qed.

Lemma dev_wf_step s s' : dev_wf s -> dev_step s s' -> dev_wf s'.
Proof.
  intros W. pose proof (dev_fence s W) as Hf. pose proof (dev_completed s W) as Hc.
  pose proof (dev_mapped s W) as Hm.
  intros [b n p r Hb Hn H|b n r H|f now r H|f r H|now r H|r H|op r Hop H|H].
  - destruct (map_cases s b n p W Hb Hn) as [(Hp & i & Hi & Hfree & E)|[_ E]];
      rewrite E in H; simplify_eq; [by apply dev_wf_mapped|done].
  - destruct (unmap_cases s b n) as [(i & Hi & Hu & _ & _ & E)|[_ E]];
      rewrite E in H; simplify_eq; [by apply dev_wf_unmapped|done].
  - unfold AppleAgxStateSubmitFence in H. case_match eqn:G; simplify_eq/=; [done|]. guards.
    split; simpl; try apply W. split_and!; [done|done|by left].
  - unfold AppleAgxStateCompleteFence in H. case_match eqn:G; simplify_eq/=; [done|]. guards.
    destruct (FenceOutstanding s); [|done]. subst f.
    split; simpl; try apply W; [done|]. destruct Hf as [-> _]. by apply wrap_fits.
  - unfold AppleAgxStateCheckTimeout in H. repeat case_match; simplify_eq/=; try done;
      (apply dev_wf_phase; [done|done|by right; left]).
  - unfold AppleAgxStateDiscardOutstandingFence in H. case_match eqn:G; simplify_eq/=; [done|].
    split; simpl; try apply W. done.
  - rewrite !elem_of_cons, elem_of_nil in Hop.
    destruct Hop as [->|[->|[->|[->|[->|[->|[]]]]]]]; cbv beta iota delta
      [AppleAgxStateValidateResources AppleAgxStateTakeFirmwareOwnership
       AppleAgxStateMarkQueueReady AppleAgxStateStart AppleAgxStateBeginReset
       AppleAgxStateCompleteReset] in H;
      repeat case_match; simplify_eq/=; try done; guards;
      repeat match goal with H : _ /\ _ |- _ => destruct H end;
      (apply dev_wf_phase; [done| |]); try (intuition congruence);
      destruct (FenceOutstanding s); try done; intuition congruence.
  - injection H as <-. apply dev_wf_phase; [done|done|by right; right].
Qed.

#[export] Program Instance device_component : Component APPLE_AGX_STATE := {
  comp_init := dev_initial;
  comp_step := dev_step;
  comp_inv := dev_wf;
}.
Next Obligation. apply dev_wf_initial. Qed.
Next Obligation. apply dev_wf_step. Qed.

(** ** Properties *)

(** Map takes a range exactly when the device may map, the range is page aligned,
    nonempty and inside the 40-bit address space, the permissions are nonempty and not
    write-and-execute, a slot is free and no mapping overlaps.  Then exactly the
    addresses of the range gain exactly those permissions, and Unmap of the range gives
    back the state before; otherwise nothing changes. *)
Theorem device_map_functional s b n p :
  reachable s -> is_u64 b -> is_u64 n ->
  (mappable s b n p /\ exists s', AppleAgxStateMap (Some s) b n p = (true, Some s') /\
     (forall va, translate s' va =
        if bool_decide (b <= va < b + n) then Some p else translate s va) /\
     AppleAgxStateUnmap (Some s') b n = (true, Some s)) \/
  (~ mappable s b n p /\ AppleAgxStateMap (Some s) b n p = (false, Some s)).
Proof.
  intros Hr Hb Hn. pose proof (reachable_inv s Hr : dev_wf s) as W.
  destruct (map_cases s b n p W Hb Hn) as [(Hm & i & Hi & Hf & E)|?]; [left|by right].
  split; [done|]. exists (mapped s i b n p). split; [exact E|].
  pose proof (dev_wf_mapped s i b n p W Hm Hi Hf) as W'.
  pose proof (dev_table s W) as Ht.
  assert ((Mappings (mapped s i b n p)) .[ i ] = Build_APPLE_AGX_MAPPING b n p true) as Hnew
    by (apply get_set_eq; lia).
  split.
  - intros va. rewrite (translate_change s (mapped s i b n p) i W W' Hi Hf).
    2: { intros j Hj Hne. apply get_set_ne; lia. }
    rewrite Hnew. unfold covers. simpl.
    destruct (Z.leb_spec b va), (Z.ltb_spec va (b + n)); simpl; case_bool_decide; done || lia.
  - destruct (unmap_cases (mapped s i b n p) b n) as [(j & Hj & Hu & Hbj & Hnj & Ej)|[Hno _]].
    2: { exfalso. apply (Hno i Hi); by rewrite Hnew. }
    rewrite Ej. assert (j = i) as ->.
    { destruct Hm as (_ & (Hpos & _) & _).
      apply (covers_unique (mapped s i b n p) j i b W' Hj Hi); unfold covers.
      - rewrite Hu, Hbj, Hnj. apply andb_true_iff. split; [simpl; lia|lia].
      - rewrite Hnew. simpl. lia. }
    rewrite unmapped_mapped; try done. by destruct Hm as (_ & _ & _ & ? & _).
Qed.

Definition fresh_device : APPLE_AGX_STATE :=
  Build_APPLE_AGX_STATE AppleAgxPhaseOff (replicate 64 no_mapping) 0 0 0 0 false.

Lemma fresh_device_initial : dev_initial fresh_device.
Proof. exists fresh_device. split; by vm_compute. Qed.

(** The calls that bring a stopped device up, each of which must succeed. *)
Definition bring_up : list (ptr APPLE_AGX_STATE -> bool * ptr APPLE_AGX_STATE) :=
  [AppleAgxStateValidateResources; AppleAgxStateTakeFirmwareOwnership;
   AppleAgxStateMarkQueueReady; AppleAgxStateStart].

Fixpoint run_calls (ops : list (ptr APPLE_AGX_STATE -> bool * ptr APPLE_AGX_STATE))
    (p : ptr APPLE_AGX_STATE) : option (ptr APPLE_AGX_STATE) :=
  match ops with
  | [] => Some p
  | op :: ops => let '(r, p) := op p in if r then run_calls ops p else None
  end.

Definition running_device : APPLE_AGX_STATE := fresh_device <| Phase := AppleAgxPhaseRunning |>.

Lemma running_device_reachable : reachable running_device.
Proof.
  exists fresh_device. split; [apply fresh_device_initial|].
  eapply rtc_l; [eapply (dev_step_phase _ _ AppleAgxStateValidateResources true);
                 [by repeat constructor|reflexivity]|].
  eapply rtc_l; [eapply (dev_step_phase _ _ AppleAgxStateTakeFirmwareOwnership true);
                 [by repeat constructor|reflexivity]|].
  eapply rtc_l; [eapply (dev_step_phase _ _ AppleAgxStateMarkQueueReady true);
                 [by repeat constructor|reflexivity]|].
  eapply rtc_l; [eapply (dev_step_phase _ _ AppleAgxStateStart true);
                 [by repeat constructor|reflexivity]|].
  apply rtc_refl.
Qed.

Lemma device_map_functional_witness :
  exists s', AppleAgxStateMap (Some running_device) 0x8000 0x4000 3 = (true, Some s') /\
    translate s' 0x9000 = Some 3 /\
    AppleAgxStateUnmap (Some s') 0x8000 0x4000 = (true, Some running_device).
Proof.
  destruct (device_map_functional running_device 0x8000 0x4000 3 running_device_reachable)
    as [(_ & s' & H & Ht & Hu)|[_ H]]; [by vm_compute..| |by vm_compute in H].
  exists s'. split; [exact H|]. split; [|exact Hu]. rewrite Ht. reflexivity.
Defined.

(** a step of the device is one of four things for its fence: nothing; a submission,
    while running and idle, of the successor of the completed fence; the completion of
    that fence, while running; or its discard, while resetting, after which the counter
    is back at the completed fence.  So completed fences are consecutive and no fence
    completes twice. *)
Theorem device_fence_steps s s' :
  reachable s -> dev_step s s' ->
  (FenceOutstanding s' = FenceOutstanding s /\ CompletedFence s' = CompletedFence s /\
   SubmittedFence s' = SubmittedFence s) \/
  (FenceOutstanding s = false /\ Phase s = AppleAgxPhaseRunning /\ FenceOutstanding s' = true /\
   CompletedFence s' = CompletedFence s /\ SubmittedFence s' = u64 (CompletedFence s + 1)) \/
  (FenceOutstanding s = true /\ Phase s = AppleAgxPhaseRunning /\ FenceOutstanding s' = false /\
   CompletedFence s' = SubmittedFence s /\ CompletedFence s' = u64 (CompletedFence s + 1)) \/
  (FenceOutstanding s = true /\ Phase s = AppleAgxPhaseResetting /\
   FenceOutstanding s' = false /\
   CompletedFence s' = CompletedFence s /\ SubmittedFence s' = CompletedFence s).
Proof.
  intros Hr Hs. pose proof (reachable_inv s Hr : dev_wf s) as W.  destruct Hs as [b n p r Hb Hn H|b n r H|f now r H|f r H|now r H|r H|op r Hop H|H].
  - destruct (map_cases s b n p W Hb Hn) as [(_ & i & _ & _ & E)|[_ E]];
      rewrite E in H; simplify_eq; by left.
  - destruct (unmap_cases s b n) as [(i & _ & _ & _ & _ & E)|[_ E]];
      rewrite E in H; simplify_eq; by left.
  - unfold AppleAgxStateSubmitFence in H. case_match eqn:G; simplify_eq/=; [by left|].
    right; left. guards. by split_and!.
  - unfold AppleAgxStateCompleteFence in H. case_match eqn:G; simplify_eq/=; [by left|].
    right; right; left. guards. pose proof (dev_fence s W) as Hf.
    destruct (FenceOutstanding s); [|done]. destruct Hf. split_and!; congruence.
  - unfold AppleAgxStateCheckTimeout in H. repeat case_match; simplify_eq/=; by left.
  - unfold AppleAgxStateDiscardOutstandingFence in H. case_match eqn:G; simplify_eq/=; [by left|].
    right; right; right. guards. by split_and!.
  - rewrite !elem_of_cons, elem_of_nil in Hop. left.
    destruct Hop as [->|[->|[->|[->|[->|[->|[]]]]]]]; cbv beta iota delta
      [AppleAgxStateValidateResources AppleAgxStateTakeFirmwareOwnership
       AppleAgxStateMarkQueueReady AppleAgxStateStart AppleAgxStateBeginReset
       AppleAgxStateCompleteReset] in H; repeat case_match; simplify_eq/=; done.
  - injection H as <-. by left.
Qed.

Definition submitted_device : APPLE_AGX_STATE :=
  running_device <| SubmittedFence := 1 |> <| SubmitTimeMs := 1000 |>
                 <| FenceOutstanding := true |>.

Lemma device_fence_steps_witness :
  dev_step running_device submitted_device /\ SubmittedFence submitted_device = 1.
Proof.
  assert (dev_step running_device submitted_device) as Hs
    by (by apply (dev_step_submit _ _ 1 1000 true)).
  split; [exact Hs|].
  by destruct (device_fence_steps running_device submitted_device running_device_reachable Hs)
    as [(H & _)|[(_ & _ & _ & _ & H)|[(H & _)|(H & _)]]].
Defined.

(** ** Recovery *)

Definition unmap_step (s s' : APPLE_AGX_STATE) : Prop :=
  exists b n, AppleAgxStateUnmap (Some s) b n = (true, Some s').

(** Unmapping empties the table and touches nothing else. *)
Lemma dev_drain s :
  dev_wf s -> exists s', rtc unmap_step s s' /\ dev_wf s' /\ MappingCount s' = 0 /\
    Phase s' = Phase s /\ CompletedFence s' = CompletedFence s /\
    FenceOutstanding s' = FenceOutstanding s.
Proof.
  remember (Z.to_nat (MappingCount s)) as k eqn:Hk. revert s Hk.
  induction k as [|k IH]; intros s Hk W; pose proof (dev_count_bound s W).
  { exists s. split_and!; done || lia || apply rtc_refl. }
  destruct (find_range 0 APPLE_AGX_MAX_MAPPINGS (fun j => InUse (Mappings s) .[ j ]))
    as [i|] eqn:F.
  - apply find_range_Some in F as (Hi & Hu & _).
    destruct (unmap_cases s (Base (Mappings s) .[ i ]) (Size (Mappings s) .[ i ]))
      as [(j & Hj & Huj & _ & _ & E)|[Hno _]]; [|by destruct (Hno i Hi Hu)].
    destruct (IH (unmapped s j)) as (s' & Hs & W' & H0 & Hp & Hc & Ho).
    + simpl. unfold APPLE_AGX_MAX_MAPPINGS in *. rewrite wrap_id by word_lia. lia.
    + by apply dev_wf_unmapped.
    + exists s'. split_and!; try done. eapply rtc_l; [by eexists _, _|done].
  - exfalso. rewrite find_range_None in F. rewrite (dev_count s W) in Hk.
    assert (filter (fun m => InUse m = true) (Mappings s) = []) as Hnil; [|by rewrite Hnil in Hk].
    destruct (filter _ (Mappings s)) as [|m l] eqn:Hf; [done|exfalso].
    assert (m ∈ filter (fun m => InUse m = true) (Mappings s)) as Hm
      by (rewrite Hf; constructor).
    apply list_elem_of_filter in Hm as [Hu Hm]. apply list_elem_of_lookup in Hm as [j Hj].
    pose proof (lookup_lt_Some _ _ _ Hj). pose proof (dev_table s W). unfold zlen in *.
    specialize (F (Z.of_nat j) ltac:(lia)). unfold arr_get in F. rewrite Nat2Z.id in F.
    rewrite (list_lookup_total_correct _ _ _ Hj) in F. congruence.
Qed.

(** The firmware has been silent for too long, or the clock went back. *)
Definition overdue (s : APPLE_AGX_STATE) (now : Z) : Prop :=
  now < SubmitTimeMs s \/ SubmitTimeMs s + J313_AGX_G2_WORK_TIMEOUT_MS < now.

Lemma check_timeout_spec s now :
  Phase s = AppleAgxPhaseRunning -> FenceOutstanding s = true ->
  is_u64 now -> is_u64 (SubmitTimeMs s) ->
  AppleAgxStateCheckTimeout (Some s) now =
    if bool_decide (now < SubmitTimeMs s \/ SubmitTimeMs s + 500 < now)
    then (true, Some (s <| Phase := AppleAgxPhaseResetting |>)) else (false, Some s).
Proof.
  intros Hp Ho Hn Ht. unfold AppleAgxStateCheckTimeout. rewrite (bool_decide_true _ Hp), Ho.
  unfold J313_AGX_G2_WORK_TIMEOUT_MS. simpl.
  destruct (Z.ltb_spec now (SubmitTimeMs s)) as [H|H];
    [rewrite bool_decide_true by lia; done|].
  rewrite wrap_id by word_lia.
  destruct (Z.leb_spec (now - SubmitTimeMs s) 500);
    [rewrite bool_decide_false by lia|rewrite bool_decide_true by lia]; done.
Qed.

(** C40: a silent firmware does not wedge the device.  While it runs with a fence out, the
    timeout fires exactly when more than 500 ms have passed or the clock went back; from
    there the fence can be discarded, the mappings removed, the reset completed, the
    device brought up again, and the fence whose work was lost is submitted again under
    the same number. *)
Theorem device_recovers_from_timeout s now later :
  reachable s -> Phase s = AppleAgxPhaseRunning -> FenceOutstanding s = true ->
  is_u64 now -> is_u64 (SubmitTimeMs s) ->
  (~ overdue s now /\ AppleAgxStateCheckTimeout (Some s) now = (false, Some s)) \/
  (overdue s now /\ exists s1 s2 s3 s4 s5 s6,
    AppleAgxStateCheckTimeout (Some s) now = (true, Some s1) /\
    AppleAgxStateDiscardOutstandingFence (Some s1) = (true, Some s2) /\
    rtc unmap_step s2 s3 /\
    AppleAgxStateCompleteReset (Some s3) = (true, Some s4) /\
    run_calls bring_up (Some s4) = Some (Some s5) /\
    AppleAgxStateSubmitFence (Some s5) (SubmittedFence s) later = (true, Some s6) /\
    Phase s6 = AppleAgxPhaseRunning /\ FenceOutstanding s6 = true /\
    SubmittedFence s6 = SubmittedFence s).
Proof.
  intros Hr Hp Ho Hn Ht. pose proof (reachable_inv s Hr : dev_wf s) as W.
  rewrite (check_timeout_spec s now Hp Ho Hn Ht). unfold overdue.
  change J313_AGX_G2_WORK_TIMEOUT_MS with 500. case_bool_decide as Hd; [right|by left].
  split; [done|]. set (s1 := s <| Phase := AppleAgxPhaseResetting |>).
  assert (exists s2, AppleAgxStateDiscardOutstandingFence (Some s1) = (true, Some s2) /\
    Phase s2 = AppleAgxPhaseResetting /\ CompletedFence s2 = CompletedFence s /\
    FenceOutstanding s2 = false) as (s2 & Hs2 & Hp2 & Hc2 & Ho2).
  { unfold AppleAgxStateDiscardOutstandingFence. simpl. rewrite Ho. simpl. by eexists. }
  assert (dev_wf s2) as W2.
  { eapply dev_wf_step; [|by eapply dev_step_discard]. apply dev_wf_phase; [done|done|].
    by right; left. }
  destruct (dev_drain s2 W2) as (s3 & Hs3 & _ & H0 & Hp3 & Hc3 & Ho3).
  pose proof (dev_fence s W) as Hf. rewrite Ho in Hf. destruct Hf as (Hsub & Hnz & _).
  destruct s3 as [ph m c cf sf st o]. simpl in *. subst c.
  eexists s1, s2, _, _, _, _. split_and!; [done|done|exact Hs3| | | | | |].
  - unfold AppleAgxStateCompleteReset. simpl. rewrite Hp3, Hp2, Ho3, Ho2. done.
  - cbn. rewrite Ho3, Ho2. done.
  - unfold AppleAgxStateSubmitFence. cbn. rewrite Ho3, Ho2, Hc3, Hc2, <- Hsub, Z.eqb_refl.
    by rewrite (proj2 (Z.eqb_neq _ _) Hnz).
  - done.
  - done.
  - done.
Qed.

Lemma submitted_device_reachable : reachable submitted_device.
Proof.
  eapply reachable_step; [apply running_device_reachable|].
  by apply (dev_step_submit _ _ 1 1000 true).
Qed.

Lemma device_recovers_from_timeout_witness :
  exists s1 s2, AppleAgxStateCheckTimeout (Some submitted_device) 1501 = (true, Some s1) /\
    AppleAgxStateDiscardOutstandingFence (Some s1) = (true, Some s2).
Proof.
  destruct (device_recovers_from_timeout submitted_device 1501 2000 submitted_device_reachable)
    as [(H & _)|(_ & s1 & s2 & _ & _ & _ & _ & H1 & H2 & _)]; [by vm_compute..| |].
  - exfalso. apply H. right. reflexivity.
  - by exists s1, s2.
Defined.

End Device.
