(* ===== verification/G13Codec.v ===== *)
(** * Firmware messages of the G13 work channels (shared/src/apple_agx_g13_codec.c)

    Run commands out, events in, and the test that a job is complete.  [G13.read_run]
    and [G13.write_event] are the firmware's side of the two message formats; the
    theorems are the round trips through them, the exact meaning of the completion
    window on the ring, and that the work queue of WorkQueue.v emits the same run
    message as this codec. *)

From S2P Require Import Prelude Arrays Serial Bytes Ring Submission WorkQueue.

Module G13.

(** ** Data *)

Definition APPLE_AGX_G13_RUN_MESSAGE_SIZE : Z := 0x30.
Definition APPLE_AGX_G13_EVENT_MESSAGE_SIZE : Z := 0x38.
Definition APPLE_AGX_G13_EVENT_COUNT : Z := 128.
Definition APPLE_AGX_G13_RING_CAPACITY : Z := 0x500.
Definition APPLE_AGX_G13_RING_SLOT_SIZE : Z := 8.

Definition AppleAgxG13QueueTa : Z := 0.
Definition AppleAgxG13Queue3d : Z := 1.
Definition AppleAgxG13QueueCompute : Z := 2.

Definition AppleAgxG13EventFault : Z := 0.
Definition AppleAgxG13EventFlag : Z := 1.
Definition AppleAgxG13EventTimeout : Z := 4.
Definition AppleAgxG13EventGrowTvb : Z := 7.
Definition AppleAgxG13EventChannelError : Z := 8.

Record APPLE_AGX_G13_RUN_COMMAND := {
  QueueType : Z;
  CommandQueueAddress : Z;
  Head : Z;
  EventNumber : Z;
  NewQueue : Z;
  Timestamp : Z;
}.

Record APPLE_AGX_G13_JOINED_RUN := {
  QueueOrder : list Z;
  Messages : list (list Z);
}.

Record APPLE_AGX_G13_QUEUE_PUBLICATION := {
  RingIndex : Z;
  NextWritePointer : Z;
  ExpectedDonePointer : Z;
  RingSlot : list Z;
}.

Record APPLE_AGX_G13_EVENT := {
  Kind : Z;
  TerminalFault : bool;
  RequiresHandler : bool;
  Firing : list Z;
  TimeoutCounter : Z;
  TimeoutStampIndex : Z;
  GrowTvbVmId : Z;
  GrowTvbBufferManagerId : Z;
  GrowTvbCounter : Z;
}.
#[export] Instance event_eta : Eta APPLE_AGX_G13_EVENT :=
  fun e => Build_APPLE_AGX_G13_EVENT (Kind e) (TerminalFault e) (RequiresHandler e)
    (Firing e) (TimeoutCounter e) (TimeoutStampIndex e) (GrowTvbVmId e)
    (GrowTvbBufferManagerId e) (GrowTvbCounter e).

(** ** Operations *)

Definition AppleAgxG13Zero (Buffer : list Z) (Bytes : Z) : list Z :=
  for_range 0 Bytes (fun index buffer => buffer .[ index <- 0 ]) Buffer.

Definition AppleAgxG13PutU32 (Destination : list Z) (offset Value : Z) : list Z :=
  put_u32 Destination offset Value.
Definition AppleAgxG13PutU64 (Destination : list Z) (offset Value : Z) : list Z :=
  AppleAgxG13PutU32 (AppleAgxG13PutU32 Destination offset (u32 Value)) (offset + 4)
    (u32 (Z.shiftr Value 32)).
Definition AppleAgxG13GetU32 (Source : list Z) (offset : Z) : Z := get_u32 Source offset.
Definition AppleAgxG13GetU64 (Source : list Z) (offset : Z) : Z :=
  Z.lor (AppleAgxG13GetU32 Source offset)
        (Z.shiftl (AppleAgxG13GetU32 Source (offset + 4)) 32).

Definition AppleAgxG13RunCommandValid (Command : ptr APPLE_AGX_G13_RUN_COMMAND) : bool :=
  deref c := Command else false in
  (QueueType c <=? AppleAgxG13QueueCompute) && negb (CommandQueueAddress c =? 0) &&
  (Z.land (CommandQueueAddress c) 7 =? 0) && (Head c <? APPLE_AGX_G13_RING_CAPACITY) &&
  (EventNumber c <? APPLE_AGX_G13_EVENT_COUNT) && (NewQueue c <=? 1).

Definition AppleAgxG13EncodeRunCommand (Command : ptr APPLE_AGX_G13_RUN_COMMAND)
    (Message : ptr (list Z)) : bool * ptr (list Z) :=
  if negb (AppleAgxG13RunCommandValid Command) || is_null Message then (false, Message)
  else
    deref c := Command else (false, Message) in
    deref m := Message else (false, Message) in
    let m := AppleAgxG13Zero m APPLE_AGX_G13_RUN_MESSAGE_SIZE in
    let m := AppleAgxG13PutU32 m 0 (QueueType c) in
    let m := AppleAgxG13PutU64 m 4 (CommandQueueAddress c) in
    let m := AppleAgxG13PutU32 m 12 (Head c) in
    let m := AppleAgxG13PutU32 m 16 (EventNumber c) in
    let m := AppleAgxG13PutU32 m 20 (NewQueue c) in
    (true, Some (AppleAgxG13PutU64 m 24 (Timestamp c))).

(** [stack] stands for the contents of the uninitialised local the code fills. *)
Definition AppleAgxG13PrepareQueuePublication (stack : list Z)
    (WorkCommandAddress CurrentWritePointer : Z)
    (Publication : ptr APPLE_AGX_G13_QUEUE_PUBLICATION)
    : bool * ptr APPLE_AGX_G13_QUEUE_PUBLICATION :=
  if is_null Publication || (WorkCommandAddress =? 0) ||
     (APPLE_AGX_G13_RING_CAPACITY <=? CurrentWritePointer)
  then (false, Publication)
  else
    let next := u32 (CurrentWritePointer + 1) mod APPLE_AGX_G13_RING_CAPACITY in
    (true, Some (Build_APPLE_AGX_G13_QUEUE_PUBLICATION CurrentWritePointer next next
                   (AppleAgxG13PutU64 stack 0 WorkCommandAddress))).

Definition AppleAgxG13BuildJoinedRun (stack : list Z)
    (D3 Ta : ptr APPLE_AGX_G13_RUN_COMMAND) (Joined : ptr APPLE_AGX_G13_JOINED_RUN)
    : bool * ptr APPLE_AGX_G13_JOINED_RUN :=
  if is_null Joined then (false, Joined)
  else
    deref d3 := D3 else (false, Joined) in
    deref ta := Ta else (false, Joined) in
    if negb (QueueType d3 =? AppleAgxG13Queue3d) || negb (QueueType ta =? AppleAgxG13QueueTa) ||
       (EventNumber d3 =? EventNumber ta)
    then (false, Joined)
    else
      let '(r0, m0) := AppleAgxG13EncodeRunCommand D3 (Some stack) in
      if negb r0 then (false, Joined)
      else
        let '(r1, m1) := AppleAgxG13EncodeRunCommand Ta (Some stack) in
        if negb r1 then (false, Joined)
        else (true, Some (Build_APPLE_AGX_G13_JOINED_RUN
                [AppleAgxG13Queue3d; AppleAgxG13QueueTa] [default [] m0; default [] m1])).

Definition event_zero : APPLE_AGX_G13_EVENT :=
  Build_APPLE_AGX_G13_EVENT 0 false false [0; 0] 0 0 0 0 0.

(** The conversion of a 32-bit word to a signed integer, as the code spells it. *)
Definition stamp_index (raw : Z) : Z :=
  if raw <=? 0x7fffffff then raw else - (u32 (0xffffffff - raw)) - 1.

Definition AppleAgxG13DecodeEvent (Message : ptr (list Z)) (MessageBytes : Z)
    (Event : ptr APPLE_AGX_G13_EVENT) : bool * ptr APPLE_AGX_G13_EVENT :=
  deref m := Message else (false, Event) in
  if is_null Event || negb (MessageBytes =? APPLE_AGX_G13_EVENT_MESSAGE_SIZE)
  then (false, Event)
  else
    let kind := AppleAgxG13GetU32 m 0 in
    let candidate := event_zero <| Kind := kind |> in
    if kind =? AppleAgxG13EventFlag then
      (true, Some (candidate
        <| Firing := (Firing candidate) .[ 0 <- AppleAgxG13GetU64 m 4 ]
                                        .[ 1 <- AppleAgxG13GetU64 m 12 ] |>))
    else if kind =? AppleAgxG13EventTimeout then
      (true, Some (candidate <| TerminalFault := true |>
        <| TimeoutCounter := AppleAgxG13GetU64 m 4 |>
        <| TimeoutStampIndex := stamp_index (AppleAgxG13GetU32 m 12) |>))
    else if kind =? AppleAgxG13EventGrowTvb then
      (true, Some (candidate <| RequiresHandler := true |>
        <| GrowTvbVmId := AppleAgxG13GetU32 m 4 |>
        <| GrowTvbBufferManagerId := AppleAgxG13GetU32 m 8 |>
        <| GrowTvbCounter := AppleAgxG13GetU32 m 12 |>))
    else if (kind =? AppleAgxG13EventFault) || (kind =? AppleAgxG13EventChannelError) then
      (true, Some (candidate <| TerminalFault := true |>))
    else (false, Event).

Definition AppleAgxG13EventHasNumber (Event : ptr APPLE_AGX_G13_EVENT) (EventNumber_ : Z)
    : bool :=
  deref e := Event else false in
  if negb (Kind e =? AppleAgxG13EventFlag) || (APPLE_AGX_G13_EVENT_COUNT <=? EventNumber_)
  then false
  else
    let word := EventNumber_ / 64 in
    let bit := EventNumber_ mod 64 in
    negb (Z.land (Firing e) .[ word ] (Z.shiftl 1 bit) =? 0).

Definition AppleAgxG13CompletionSatisfiedWindow (Event : ptr APPLE_AGX_G13_EVENT)
    (EventNumber_ ObservedStamp ExpectedStamp ObservedDonePointer ExpectedDonePointer_
     WritePointer Capacity : Z) : bool :=
  if (ExpectedStamp =? 0) || (Capacity =? 0) || (APPLE_AGX_G13_RING_CAPACITY <? Capacity) ||
     negb (AppleAgxG13EventHasNumber Event EventNumber_) ||
     (Capacity <=? ObservedDonePointer) || (Capacity <=? ExpectedDonePointer_) ||
     (Capacity <=? WritePointer) ||
     (u32 (WritePointer + Capacity - ExpectedDonePointer_) mod Capacity <?
      u32 (ObservedDonePointer + Capacity - ExpectedDonePointer_) mod Capacity)
  then false
  else u32 (ObservedStamp - ExpectedStamp) <? 0x80000000.

Definition AppleAgxG13CompletionSatisfied (Event : ptr APPLE_AGX_G13_EVENT)
    (EventNumber_ ObservedStamp ExpectedStamp ObservedDonePointer ExpectedDonePointer_ : Z)
    : bool :=
  if (ExpectedStamp =? 0) || negb (AppleAgxG13EventHasNumber Event EventNumber_) ||
     (APPLE_AGX_G13_RING_CAPACITY <=? ObservedDonePointer) ||
     (APPLE_AGX_G13_RING_CAPACITY <=? ExpectedDonePointer_) ||
     negb (ObservedDonePointer =? ExpectedDonePointer_)
  then false
  else u32 (ObservedStamp - ExpectedStamp) <? 0x80000000.

(** ** Run messages *)

Record run_typed (c : APPLE_AGX_G13_RUN_COMMAND) : Prop := {
  run_type : is_u32 (QueueType c);
  run_address : is_u64 (CommandQueueAddress c);
  run_head : is_u32 (Head c);
  run_event : is_u32 (EventNumber c);
  run_new : is_u32 (NewQueue c);
  run_timestamp : is_u64 (Timestamp c);
}.

(** The firmware's reading of a run message. *)
Definition read_run (m : list Z) : APPLE_AGX_G13_RUN_COMMAND :=
  Build_APPLE_AGX_G13_RUN_COMMAND (get_u32 m 0) (get_u64 m 4) (get_u32 m 12) (get_u32 m 16)
    (get_u32 m 20) (get_u64 m 24).

Lemma g13_zero_spec m :
  zlen m = APPLE_AGX_G13_RUN_MESSAGE_SIZE ->
  AppleAgxG13Zero m APPLE_AGX_G13_RUN_MESSAGE_SIZE = replicate 48 0.
Proof.
  intros Hm. change (AppleAgxG13Zero m APPLE_AGX_G13_RUN_MESSAGE_SIZE) with
    (fill_loop 0 APPLE_AGX_G13_RUN_MESSAGE_SIZE (fun _ => 0) m).
  apply arr_ext; [by rewrite zlen_fill|]. intros i Hi. rewrite zlen_fill, Hm in Hi by done.
  change APPLE_AGX_G13_RUN_MESSAGE_SIZE with 48 in *. rewrite get_replicate by lia.
  destruct (fill_loop_spec 0 48 (fun _ => 0) m) as [_ H]; [lia..|].
  by rewrite H, decide_True by lia.
Qed.

Definition run_message (c : APPLE_AGX_G13_RUN_COMMAND) : list Z :=
  put_u64 (put_u32 (put_u32 (put_u32 (put_u64 (put_u32 (replicate 48 0) 0 (QueueType c))
    4 (CommandQueueAddress c)) 12 (Head c)) 16 (EventNumber c)) 20 (NewQueue c))
    24 (Timestamp c).

Lemma encode_run_cases c m :
  zlen m = APPLE_AGX_G13_RUN_MESSAGE_SIZE ->
  AppleAgxG13EncodeRunCommand (Some c) (Some m) =
    if AppleAgxG13RunCommandValid (Some c) then (true, Some (run_message c))
    else (false, Some m).
Proof.
  intros Hm. unfold AppleAgxG13EncodeRunCommand. rewrite g13_zero_spec by done.
  by destruct (AppleAgxG13RunCommandValid (Some c)).
Qed.

Lemma zlen_run_message c : zlen (run_message c) = APPLE_AGX_G13_RUN_MESSAGE_SIZE.
Proof. unfold run_message. by repeat (rewrite zlen_put_u64 || rewrite zlen_put_u32). Qed.

Lemma read_run_message c : run_typed c -> read_run (run_message c) = c.
Proof.
  intros []. unfold read_run, run_message.
  assert (zlen (replicate 48 0) = 48) as Hz by done. revert Hz. generalize (replicate 48 0).
  intros z Hz. destruct c. simpl in *. f_equal; by byte_load.
Qed.

Lemma run_message_bytes c : is_bytes (run_message c).
Proof.
  unfold run_message. repeat apply is_bytes_put_u64 || apply is_bytes_put_u32.
  by apply Forall_replicate.
Qed.

Lemma run_message_tail c i : 32 <= i < 48 -> (run_message c) .[ i ] = 0.
Proof.
  intros Hi. unfold run_message, put_u64.
  rewrite !get_put_u32, !decide_False by (rewrite ?zlen_put_u32; done || lia).
  apply get_replicate. lia.
Qed.

(** the run message round trip.  Encode refuses exactly the commands with an unknown
    queue type, a null or misaligned queue address, a head or event out of range or a
    flag that is not 0 or 1, leaving the message alone; every other command becomes 48
    bytes, whatever the buffer held, from which the firmware reads back the command, the
    last 16 of them zero. *)
Theorem run_command_roundtrip c m :
  run_typed c -> zlen m = APPLE_AGX_G13_RUN_MESSAGE_SIZE ->
  if bool_decide (QueueType c <= 2 /\ CommandQueueAddress c <> 0 /\
                  CommandQueueAddress c mod 8 = 0 /\ Head c < 0x500 /\ EventNumber c < 128 /\
                  NewQueue c <= 1)
  then exists m', AppleAgxG13EncodeRunCommand (Some c) (Some m) = (true, Some m') /\
         zlen m' = APPLE_AGX_G13_RUN_MESSAGE_SIZE /\ is_bytes m' /\ read_run m' = c /\
         forall i, 32 <= i < 48 -> m' .[ i ] = 0
  else AppleAgxG13EncodeRunCommand (Some c) (Some m) = (false, Some m).
Proof.
  intros Hc Hm. rewrite encode_run_cases by done.
  assert (AppleAgxG13RunCommandValid (Some c) = bool_decide (QueueType c <= 2 /\
    CommandQueueAddress c <> 0 /\ CommandQueueAddress c mod 8 = 0 /\ Head c < 0x500 /\
    EventNumber c < 128 /\ NewQueue c <= 1)) as ->.
  { apply eq_true_iff_eq. unfold AppleAgxG13RunCommandValid. rewrite (land_mask 3) by done.
    rewrite bool_decide_eq_true, !andb_true_iff, negb_true_iff, Z.eqb_neq, Z.eqb_eq, !Z.leb_le,
      !Z.ltb_lt. change (2 ^ 3) with 8. unfold AppleAgxG13QueueCompute,
      APPLE_AGX_G13_RING_CAPACITY, APPLE_AGX_G13_EVENT_COUNT. tauto. }
  case_bool_decide; [|done]. exists (run_message c).
  split_and!; [done|apply zlen_run_message|apply run_message_bytes|by apply read_run_message|].
  apply run_message_tail.
Qed.

Definition demo_run : APPLE_AGX_G13_RUN_COMMAND :=
  Build_APPLE_AGX_G13_RUN_COMMAND 1 0x1122334455667788 0x4ff 127 1 0x99.

Lemma run_command_roundtrip_witness :
  exists m', AppleAgxG13EncodeRunCommand (Some demo_run) (Some (replicate 48 0xff)) =
    (true, Some m') /\ read_run m' = demo_run.
Proof.
  destruct (run_command_roundtrip demo_run (replicate 48 0xff)) as (m' & H & _ & _ & R & _).
  - by split; vm_compute.
  - reflexivity.
  - by exists m'.
Defined.

(** the two encoders of the driver agree: on a pending work queue, the run message of
    apple_agx_work_queue.c is, byte for byte, this codec's message for the queue's type,
    address, write pointer, event and new-queue flag, at timestamp 0. *)
Theorem work_queue_message_agrees q m :
  reachable q -> WorkQ.HasPending q = true -> zlen m = APPLE_AGX_G13_RUN_MESSAGE_SIZE ->
  WorkQ.AppleAgxWorkQueueEncodeRunMessageG13V13_5 (Some q) (Some m) =
  AppleAgxG13EncodeRunCommand (Some {|
    QueueType := WorkQ.QueueType q;
    CommandQueueAddress := WorkQ.CommandQueueAddress q;
    Head := WorkQ.CpuWritePointer q;
    EventNumber := WorkQ.EventNumber q;
    NewQueue := if WorkQ.PendingNewQueue q then 1 else 0;
    Timestamp := 0 |}) (Some m).
Proof.
  intros Hr Hp Hm. pose proof (reachable_inv q Hr : WorkQ.wq_wf q) as W.
  destruct (WorkQ.wq_pending q W Hp) as [Hf _].
  destruct (WorkQ.wq_address q W) as (Ha & Ha0 & Hal).
  rewrite encode_run_cases by done. unfold WorkQ.AppleAgxWorkQueueEncodeRunMessageG13V13_5.
  match goal with |- _ = (if AppleAgxG13RunCommandValid (Some ?c) then _ else _) =>
    set (run := c); assert (AppleAgxG13RunCommandValid (Some run) = true) as -> end.
  { unfold AppleAgxG13RunCommandValid. pose proof (WorkQ.wq_type q W).
    pose proof (WorkQ.wq_write q W). pose proof (WorkQ.wq_capacity q W).
    pose proof (WorkQ.wq_event q W). unfold run. cbn [QueueType CommandQueueAddress Head EventNumber NewQueue].
    unfold AppleAgxG13QueueCompute, APPLE_AGX_G13_RING_CAPACITY, APPLE_AGX_G13_EVENT_COUNT,
      WorkQ.APPLE_AGX_WORK_QUEUE_RING_CAPACITY in *.
    rewrite !andb_true_iff, negb_true_iff, Z.eqb_neq, Z.eqb_eq, !Z.leb_le, !Z.ltb_lt.
    destruct (WorkQ.PendingNewQueue q); split_and!; done || lia. }
  rewrite Hp, Hf, (proj2 (Z.eqb_neq _ _) Ha0). cbn [negb orb].
  change (for_range 0 WorkQ.APPLE_AGX_RUN_QUEUE_MESSAGE_SIZE _ m) with
    (AppleAgxG13Zero m APPLE_AGX_G13_RUN_MESSAGE_SIZE).
  rewrite g13_zero_spec by done. unfold run, run_message.
  cbn [QueueType CommandQueueAddress Head EventNumber NewQueue Timestamp].
  reflexivity.
Qed.

Lemma work_queue_message_agrees_witness :
  let q := WorkQ.committed WorkQ.demo_queue
             (Subm.demo_packet Subm.AppleAgxSubmissionGdi 9 0) 256 in
  (WorkQ.AppleAgxWorkQueueEncodeRunMessageG13V13_5 (Some q) (Some (replicate 48 0))).1 =
  (AppleAgxG13EncodeRunCommand (Some (Build_APPLE_AGX_G13_RUN_COMMAND 0 0x1000 1 3 1 0))
     (Some (replicate 48 0))).1.
Proof.
  intros q. assert (reachable q) as Hr.
  { eapply reachable_step; [apply WorkQ.demo_queue_reachable|].
    apply (WorkQ.wq_step_commit _ _ (Some (WorkQ.receipt WorkQ.demo_queue
      (Subm.demo_packet Subm.AppleAgxSubmissionGdi 9 0) 0x2000 256)) (Some [0; 0; 0; 0]) 4 true
      (Some [0x2000; 0; 0; 0])). by vm_compute. }
  rewrite (work_queue_message_agrees q (replicate 48 0) Hr); done.
Defined.

(** ** Events *)

(** What the firmware reports. *)
Inductive fw_event :=
  | FwFault
  | FwFlag (low high : Z)
  | FwTimeout (counter stamp : Z)
  | FwGrowTvb (vm manager counter : Z)
  | FwChannelError.

Definition fw_typed (e : fw_event) : Prop :=
  match e with
  | FwFault | FwChannelError => True
  | FwFlag low high => is_u64 low /\ is_u64 high
  | FwTimeout counter stamp => is_u64 counter /\ - 2 ^ 31 <= stamp < 2 ^ 31
  | FwGrowTvb vm manager counter => is_u32 vm /\ is_u32 manager /\ is_u32 counter
  end.

(** The message of an event, over whatever the other bytes hold. *)
Definition write_event (e : fw_event) (m : list Z) : list Z :=
  match e with
  | FwFault => put_u32 m 0 0
  | FwFlag low high => put_u64 (put_u64 (put_u32 m 0 1) 4 low) 12 high
  | FwTimeout counter stamp => put_u32 (put_u64 (put_u32 m 0 4) 4 counter) 12 (u32 stamp)
  | FwGrowTvb vm manager counter =>
      put_u32 (put_u32 (put_u32 (put_u32 m 0 7) 4 vm) 8 manager) 12 counter
  | FwChannelError => put_u32 m 0 8
  end.

(** The driver's view of it. *)
Definition event_of (e : fw_event) : APPLE_AGX_G13_EVENT :=
  match e with
  | FwFault => event_zero <| TerminalFault := true |>
  | FwFlag low high => event_zero <| Kind := 1 |> <| Firing := [low; high] |>
  | FwTimeout counter stamp => event_zero <| Kind := 4 |> <| TerminalFault := true |>
      <| TimeoutCounter := counter |> <| TimeoutStampIndex := stamp |>
  | FwGrowTvb vm manager counter => event_zero <| Kind := 7 |> <| RequiresHandler := true |>
      <| GrowTvbVmId := vm |> <| GrowTvbBufferManagerId := manager |>
      <| GrowTvbCounter := counter |>
  | FwChannelError => event_zero <| Kind := 8 |> <| TerminalFault := true |>
  end.

Lemma stamp_index_spec stamp : - 2 ^ 31 <= stamp < 2 ^ 31 -> stamp_index (u32 stamp) = stamp.
Proof.
  unfold stamp_index. intros H. change (2 ^ 31) with 2147483648 in H.
  destruct (Z.leb_spec (u32 stamp) 0x7fffffff); word_lia.
Qed.

Lemma stamp_index_range raw : is_u32 raw -> - 2 ^ 31 <= stamp_index raw < 2 ^ 31.
Proof.
  unfold stamp_index. intros H. change (2 ^ 31) with 2147483648.
  destruct (Z.leb_spec raw 0x7fffffff); word_lia.
Qed.

Lemma has_number_spec low high n :
  is_u64 low -> 0 <= n < 128 ->
  AppleAgxG13EventHasNumber (Some (event_of (FwFlag low high))) n =
    Z.testbit (low + high * 2 ^ 64) n.
Proof.
  intros Hl Hn. unfold AppleAgxG13EventHasNumber. simpl.
  unfold AppleAgxG13EventFlag, APPLE_AGX_G13_EVENT_COUNT. simpl.
  destruct (Z.leb_spec 128 n); [lia|].
  rewrite land_bit by (apply Z.mod_pos_bound; lia).
  rewrite <- lor_shiftl by (done || apply Hl). rewrite Z.lor_spec, Z.shiftl_spec by lia.
  assert (n < 64 \/ 64 <= n) as [Hlt|Hge] by lia.
  - rewrite Z.div_small, Z.mod_small, (Z.testbit_neg_r high) by lia.
    by rewrite orb_false_r.
  - replace (n / 64) with 1 by (Z.to_euclidean_division_equations; lia).
    replace (n mod 64) with (n - 64) by (Z.to_euclidean_division_equations; lia).
    rewrite <- (Z.mod_small low (2 ^ 64)) by apply Hl.
    by rewrite Z.mod_pow2_bits_high by lia.
Qed.

(** every event the firmware can report is decoded to what it says: a flag message to
    an event that has exactly the numbers whose bits are set, a timeout to its counter and
    signed stamp index, a TVB request to its three words, and fault, timeout and channel
    error, and only they, to a terminal fault. *)
Theorem event_roundtrip e m any :
  fw_typed e -> zlen m = APPLE_AGX_G13_EVENT_MESSAGE_SIZE ->
  AppleAgxG13DecodeEvent (Some (write_event e m)) APPLE_AGX_G13_EVENT_MESSAGE_SIZE (Some any) =
    (true, Some (event_of e)) /\
  (TerminalFault (event_of e) = true <->
     match e with FwFault | FwTimeout _ _ | FwChannelError => True | _ => False end) /\
  forall n, 0 <= n < 128 ->
    AppleAgxG13EventHasNumber (Some (event_of e)) n =
      match e with FwFlag low high => Z.testbit (low + high * 2 ^ 64) n | _ => false end.
Proof.
  intros He Hm. change APPLE_AGX_G13_EVENT_MESSAGE_SIZE with 56 in *.
  split_and!.
  - unfold AppleAgxG13DecodeEvent. change AppleAgxG13GetU32 with get_u32.
    change AppleAgxG13GetU64 with get_u64. simpl is_null. cbn [orb negb].
    destruct e as [|low high|counter stamp|vm manager counter|]; cbn [write_event fw_typed] in *;
      destruct_and?; byte_load; try done.
    cbn -[stamp_index put_u32 put_u64 get_u32 get_u64].
    assert (is_u32 (u32 stamp)) by (by apply wrap_fits). byte_load.
    by rewrite stamp_index_spec.
  - by destruct e.
  - intros n Hn. destruct e; try done. apply has_number_spec; [apply He|done].
Qed.

Lemma event_roundtrip_witness :
  AppleAgxG13DecodeEvent (Some (write_event (FwTimeout 77 (-2)) (replicate 56 0xff))) 56
    (Some event_zero) = (true, Some (event_of (FwTimeout 77 (-2)))).
Proof.
  destruct (event_roundtrip (FwTimeout 77 (-2)) (replicate 56 0xff) event_zero) as [H _].
  - by split; vm_compute.
  - reflexivity.
  - exact H.
Defined.

(** ** Completion *)

(** On a ring of [cap] entries, going forward from [want], [d] comes no later than
    [write]. *)
Definition done_in_window (cap want d write : Z) : Prop :=
  exists i j, 0 <= i <= j /\ j < cap /\ d = ring_slot cap want i /\ write = ring_slot cap want j.

Lemma ring_offset cap base x :
  0 < cap -> 0 <= base < cap -> 0 <= x < cap ->
  x = ring_slot cap base ((x + cap - base) mod cap).
Proof.
  intros Hc Hb Hx. unfold ring_slot. rewrite Zplus_mod_idemp_r.
  replace (base + (x + cap - base)) with (x + 1 * cap) by lia.
  rewrite Z_mod_plus_full. by rewrite Z.mod_small.
Qed.

Lemma ring_offset_unique cap base i :
  0 < cap -> 0 <= base < cap -> 0 <= i < cap ->
  (ring_slot cap base i + cap - base) mod cap = i.
Proof.
  intros Hc Hb Hi. unfold ring_slot.
  replace ((base + i) mod cap + cap - base) with ((base + i) mod cap + (cap - base)) by lia.
  rewrite Zplus_mod_idemp_l. replace (base + i + (cap - base)) with (i + 1 * cap) by lia.
  rewrite Z_mod_plus_full. by rewrite Z.mod_small.
Qed.

Lemma window_spec cap want d write :
  0 < cap -> 0 <= want < cap -> 0 <= d < cap -> 0 <= write < cap ->
  (d + cap - want) mod cap <= (write + cap - want) mod cap <-> done_in_window cap want d write.
Proof.
  intros Hc Hw Hd Hwr. pose proof (Z.mod_pos_bound (d + cap - want) cap Hc).
  pose proof (Z.mod_pos_bound (write + cap - want) cap Hc). split.
  - intros Hle. exists ((d + cap - want) mod cap), ((write + cap - want) mod cap).
    split_and!; try lia; by apply ring_offset.
  - intros (i & j & Hij & Hj & -> & ->). rewrite !ring_offset_unique by lia. lia.
Qed.

Lemma stamp_reached_spec observed expected :
  is_u32 observed -> is_u32 expected ->
  (u32 (observed - expected) <? 0x80000000) = true <->
  observed = expected \/ serial_after 32 observed expected = true.
Proof.
  intros Ho He. unfold serial_after, serial_dist. rewrite andb_true_iff, negb_true_iff,
    Z.eqb_neq, !Z.ltb_lt. change (2 ^ (32 - 1)) with 2147483648. word_lia.
Qed.

(** A job is complete exactly when its event number fired, its stamp is reached in
    serial order and the firmware's done pointer is, going round the ring from the job's
    expected pointer, at or past it but not past what the CPU published; the
    one-job test is the window that is only the expected pointer. *)
Theorem completion_window_exact e n observed expected d want write cap :
  is_u32 observed -> is_u32 expected -> is_u32 d -> is_u32 want -> is_u32 write ->
  is_u32 cap ->
  (AppleAgxG13CompletionSatisfiedWindow (Some e) n observed expected d want write cap = true <->
   expected <> 0 /\ 0 < cap <= APPLE_AGX_G13_RING_CAPACITY /\
   AppleAgxG13EventHasNumber (Some e) n = true /\
   (observed = expected \/ serial_after 32 observed expected = true) /\
   d < cap /\ want < cap /\ write < cap /\ done_in_window cap want d write) /\
  AppleAgxG13CompletionSatisfied (Some e) n observed expected d want =
    AppleAgxG13CompletionSatisfiedWindow (Some e) n observed expected d want want
      APPLE_AGX_G13_RING_CAPACITY.
Proof.
  intros Ho He Hd Hwa Hwr Hc. unfold APPLE_AGX_G13_RING_CAPACITY.
  assert (0 <= d /\ 0 <= want /\ 0 <= write /\ 0 <= cap) as (? & ? & ? & ?)
    by (unfold fits in *; lia).
  split.
  - rewrite <- stamp_reached_spec by done.
    unfold AppleAgxG13CompletionSatisfiedWindow, APPLE_AGX_G13_RING_CAPACITY.
    destruct (Z.eqb_spec expected 0); [split; [done|by intros [? _]]|].
    destruct (Z.eqb_spec cap 0); [split; [done|lia]|].
    destruct (Z.ltb_spec 0x500 cap); [split; [done|lia]|].
    destruct (AppleAgxG13EventHasNumber (Some e) n); [|split; [done|by intros (_ & _ & ? & _)]].
    destruct (Z.leb_spec cap d); [split; [done|lia]|].
    destruct (Z.leb_spec cap want); [split; [done|lia]|].
    destruct (Z.leb_spec cap write); [split; [done|lia]|]. cbn [orb negb].
    rewrite !wrap_id by word_lia. rewrite <- window_spec by lia.
    destruct (Z.ltb_spec ((write + cap - want) mod cap) ((d + cap - want) mod cap)).
    + split; [done|lia].
    + intuition lia.
  - unfold AppleAgxG13CompletionSatisfied, AppleAgxG13CompletionSatisfiedWindow,
      APPLE_AGX_G13_RING_CAPACITY.
    destruct (expected =? 0), (AppleAgxG13EventHasNumber (Some e) n); cbn [orb negb];
      rewrite ?orb_true_r; try done.
    destruct (Z.leb_spec 0x500 d); [done|]. destruct (Z.leb_spec 0x500 want); [done|].
    cbn [orb]. change (1280 =? 0) with false. change (1280 <? 1280) with false. cbn [orb].
    rewrite (wrap_id 32 (want + 1280 - want)), (wrap_id 32 (d + 1280 - want)) by word_lia.
    replace (want + 1280 - want) with 1280 by lia.
    change (1280 mod 1280) with 0.
    assert ((d =? want) = negb (0 <? (d + 1280 - want) mod 1280)) as ->; [|by rewrite negb_involutive].
    apply eq_true_iff_eq. rewrite negb_true_iff, Z.eqb_eq, Z.ltb_ge. word_lia.
Qed.

Lemma completion_window_exact_witness :
  done_in_window 4 3 1 2.
Proof.
  destruct (completion_window_exact (event_of (FwFlag 32 0)) 5 7 0xfffffff0 1 3 2 4)
    as [H _]; [by apply (bool_decide_unpack _); vm_compute..|].
  by apply H.
Defined.

(** a publication names the slot at the write pointer, whose eight bytes hold the
    command's address, and the successor index as the next write pointer and the done
    pointer to wait for: publishing along the ring visits the slots in order.  A joined
    run is accepted exactly for a valid 3D and a valid TA command with different events,
    and is their two messages, 3D first. *)
Theorem publication_and_joined_run stack address w pub d3 ta joined stack' :
  is_u64 address -> 0 <= w -> zlen stack = APPLE_AGX_G13_RING_SLOT_SIZE ->
  zlen stack' = APPLE_AGX_G13_RUN_MESSAGE_SIZE ->
  (if bool_decide (address <> 0 /\ w < APPLE_AGX_G13_RING_CAPACITY) then
     exists slot, AppleAgxG13PrepareQueuePublication stack address w (Some pub) =
       (true, Some (Build_APPLE_AGX_G13_QUEUE_PUBLICATION w
          (ring_slot APPLE_AGX_G13_RING_CAPACITY w 1) (ring_slot APPLE_AGX_G13_RING_CAPACITY w 1)
          slot)) /\ get_u64 slot 0 = address
   else AppleAgxG13PrepareQueuePublication stack address w (Some pub) = (false, Some pub)) /\
  AppleAgxG13BuildJoinedRun stack' (Some d3) (Some ta) (Some joined) =
    if bool_decide (QueueType d3 = 1 /\ QueueType ta = 0 /\ EventNumber d3 <> EventNumber ta /\
                    AppleAgxG13RunCommandValid (Some d3) = true /\
                    AppleAgxG13RunCommandValid (Some ta) = true)
    then (true, Some (Build_APPLE_AGX_G13_JOINED_RUN [1; 0] [run_message d3; run_message ta]))
    else (false, Some joined).
Proof.
  intros Ha Hw Hs Hs'. split.
  - unfold AppleAgxG13PrepareQueuePublication. case_bool_decide as Hd.
    + destruct Hd as [Hne Hlt]. rewrite (proj2 (Z.eqb_neq _ _) Hne), (proj2 (Z.leb_gt _ _) Hlt).
      cbn [is_null orb]. unfold APPLE_AGX_G13_RING_CAPACITY in *. rewrite wrap_id by word_lia.
      eexists. split; [reflexivity|]. change AppleAgxG13PutU64 with put_u64.
      apply load_store_u64; [done|by rewrite Hs|done].
    + destruct (Z.eqb_spec address 0); [done|].
      destruct (Z.leb_spec APPLE_AGX_G13_RING_CAPACITY w); [done|]. by destruct Hd.
  - unfold AppleAgxG13BuildJoinedRun. rewrite !encode_run_cases by done.
    cbn [is_null]. unfold AppleAgxG13Queue3d, AppleAgxG13QueueTa.
    destruct (AppleAgxG13RunCommandValid (Some d3)), (AppleAgxG13RunCommandValid (Some ta)),
      (Z.eqb_spec (QueueType d3) 1), (Z.eqb_spec (QueueType ta) 0),
      (Z.eqb_spec (EventNumber d3) (EventNumber ta)); cbn [orb negb default];
      case_bool_decide; done || intuition congruence.
Qed.

Lemma publication_and_joined_run_witness :
  exists slot, AppleAgxG13PrepareQueuePublication (replicate 8 0xaa) 0x1234 0x4ff
    (Some (Build_APPLE_AGX_G13_QUEUE_PUBLICATION 0 0 0 [])) =
    (true, Some (Build_APPLE_AGX_G13_QUEUE_PUBLICATION 0x4ff 0 0 slot)) /\
    get_u64 slot 0 = 0x1234.
Proof.
  destruct (publication_and_joined_run (replicate 8 0xaa) 0x1234 0x4ff
    (Build_APPLE_AGX_G13_QUEUE_PUBLICATION 0 0 0 []) demo_run demo_run
    (Build_APPLE_AGX_G13_JOINED_RUN [] []) (replicate 48 0)) as [H _];
    [by apply (bool_decide_unpack _); vm_compute..|].
  exact H.
Defined.

End G13.
