(* ===== verification/Memory.v ===== *)
(** * GPU memory objects (shared/src/apple_agx_memory.c)

    An object owns one allocation of the platform and walks Empty -> CpuOwned ->
    Prepared -> GpuMapped -> InFlight -> Completed -> (GpuMapped's unmapping) Prepared.
    The platform's allocator is the parameter [APPLE_AGX_MEMORY_IO]: its four entry
    points as functions on a platform state [World].  The theorems: an allocated view is
    aligned, inside its allocation and below the device limit, and a failed allocation
    gives its handle back; what each state says about mapping and fence; and that a job's
    cycle through the object ends where it began. *)

From S2P Require Import Prelude Arrays Bytes Serial.

Module Memory.

(** ** Data *)

Definition APPLE_AGX_MEMORY_PAGE_SIZE : Z := 0x4000.
Definition APPLE_AGX_MEMORY_DEVICE_ADDRESS_LIMIT : Z := Z.shiftl 1 40.

Inductive APPLE_AGX_MEMORY_RESULT :=
  | AppleAgxMemoryResultOk
  | AppleAgxMemoryResultInvalidArgument
  | AppleAgxMemoryResultAllocationFailed
  | AppleAgxMemoryResultOutOfRange
  | AppleAgxMemoryResultBusy
  | AppleAgxMemoryResultNotPrepared
  | AppleAgxMemoryResultStaleFence.

Inductive APPLE_AGX_MEMORY_STATE :=
  | AppleAgxMemoryEmpty
  | AppleAgxMemoryCpuOwned
  | AppleAgxMemoryPrepared
  | AppleAgxMemoryGpuMapped
  | AppleAgxMemoryInFlight
  | AppleAgxMemoryCompleted.
#[export] Instance memory_state_eq_dec : EqDecision APPLE_AGX_MEMORY_STATE.
Proof. solve_decision. Defined.

(** Opaque pointers are addresses, 0 for NULL; [DevicePages] is a list or NULL. *)
Record APPLE_AGX_MEMORY_OBJECT := {
  AllocationCpuBase : Z;
  CpuAddress : Z;
  AllocationHandle : Z;
  AllocationDeviceBase : Z;
  DeviceAddress : Z;
  AllocationLength : Z;
  Length : Z;
  DevicePages : ptr (list Z);
  DevicePageCount : Z;
  GpuVirtualAddress : Z;
  SubmittedFence : Z;
  Context : Z;
  State : APPLE_AGX_MEMORY_STATE;
}.
#[export] Instance object_eta : Eta APPLE_AGX_MEMORY_OBJECT :=
  fun o => Build_APPLE_AGX_MEMORY_OBJECT (AllocationCpuBase o) (CpuAddress o)
    (AllocationHandle o) (AllocationDeviceBase o) (DeviceAddress o) (AllocationLength o)
    (Length o) (DevicePages o) (DevicePageCount o) (GpuVirtualAddress o) (SubmittedFence o)
    (Context o) (State o).

(** The entry points return their status, their out-parameters and the platform's new
    state; an out-parameter a failing call leaves alone keeps the caller's zero. *)
Record APPLE_AGX_MEMORY_IO (World : Type) := {
  AllocateContiguous : ptr (World -> Z -> (bool * Z * Z * Z) * World);
  FreeContiguous : ptr (World -> Z -> bool * World);
  AllocatePageList : ptr (World -> Z -> (bool * Z * ptr (list Z) * Z * Z) * World);
  FreePageList : ptr (World -> Z -> bool * World);
}.
Arguments AllocateContiguous {World}.
Arguments FreeContiguous {World}.
Arguments AllocatePageList {World}.
Arguments FreePageList {World}.

(** ** Operations *)

Definition AppleAgxMemoryZero (Object : APPLE_AGX_MEMORY_OBJECT) : APPLE_AGX_MEMORY_OBJECT :=
  Object <| AllocationCpuBase := 0 |> <| CpuAddress := 0 |> <| AllocationHandle := 0 |>
    <| AllocationDeviceBase := 0 |> <| DeviceAddress := 0 |> <| AllocationLength := 0 |>
    <| Length := 0 |> <| DevicePages := NULL |> <| DevicePageCount := 0 |>
    <| GpuVirtualAddress := 0 |> <| SubmittedFence := 0 |> <| Context := 0 |>
    <| State := AppleAgxMemoryEmpty |>.

Definition AppleAgxMemoryFenceAfter (Candidate Reference : Z) : bool :=
  let distance := u64 (Candidate - Reference) in
  negb (distance =? 0) && (distance <? Z.shiftl 1 63).

Abbreviation state_is o s := (bool_decide (State o = s)).

Section io.
Context {World : Type}.
Implicit Types Io : ptr (APPLE_AGX_MEMORY_IO World).

Definition AppleAgxMemoryIoValid Io : bool :=
  deref io := Io else false in
  negb (is_null (AllocateContiguous io)) && negb (is_null (FreeContiguous io)) &&
  ((is_null (AllocatePageList io) && is_null (FreePageList io)) ||
   (negb (is_null (AllocatePageList io)) && negb (is_null (FreePageList io)))).

(** A call through a function pointer that the code has checked. *)
Definition call_free (f : ptr (World -> Z -> bool * World)) (w : World) (handle : Z)
    : bool * World :=
  deref f := f else (false, w) in f w handle.

Definition AppleAgxMemoryAllocateAligned Io (Length_ Alignment : Z)
    (Object : ptr APPLE_AGX_MEMORY_OBJECT) (w : World)
    : APPLE_AGX_MEMORY_RESULT * ptr APPLE_AGX_MEMORY_OBJECT * World :=
  deref o := Object else (AppleAgxMemoryResultInvalidArgument, Object, w) in
  if negb (AppleAgxMemoryIoValid Io) || (Length_ =? 0) ||
     negb (Z.land Length_ (APPLE_AGX_MEMORY_PAGE_SIZE - 1) =? 0) ||
     (Alignment <? APPLE_AGX_MEMORY_PAGE_SIZE) ||
     negb (Z.land Alignment (Alignment - 1) =? 0) ||
     negb (Z.land Alignment (APPLE_AGX_MEMORY_PAGE_SIZE - 1) =? 0) ||
     (u64 (u64 (Z.lnot 0) - Alignment) <? Length_)
  then (AppleAgxMemoryResultInvalidArgument, Object, w)
  else if negb (state_is o AppleAgxMemoryEmpty) then (AppleAgxMemoryResultBusy, Object, w)
  else
    deref io := Io else (AppleAgxMemoryResultInvalidArgument, Object, w) in
    match AllocatePageList io with
    | Some allocate_page_list =>
        let '((status, cpu_base, device_pages, device_page_count, handle), w) :=
          allocate_page_list w Length_ in
        if negb status || (cpu_base =? 0) || (handle =? 0) || is_null device_pages ||
           negb (device_page_count =? Length_ / APPLE_AGX_MEMORY_PAGE_SIZE) ||
           ((default [] device_pages) .[ 0 ] =? 0)
        then
          let w := if negb (handle =? 0) then (call_free (FreePageList io) w handle).2 else w in
          (AppleAgxMemoryResultAllocationFailed, Some (AppleAgxMemoryZero o), w)
        else
          (AppleAgxMemoryResultOk,
           Some (Build_APPLE_AGX_MEMORY_OBJECT cpu_base cpu_base handle
             (default [] device_pages) .[ 0 ] (default [] device_pages) .[ 0 ] Length_ Length_
             device_pages device_page_count 0 0 0 AppleAgxMemoryCpuOwned), w)
    | None =>
        let allocation_length := u64 (Length_ + Alignment) in
        deref allocate_contiguous := AllocateContiguous io
          else (AppleAgxMemoryResultInvalidArgument, Object, w) in
        let '((status, cpu_base, device_base, handle), w) :=
          allocate_contiguous w allocation_length in
        if negb status then
          (AppleAgxMemoryResultAllocationFailed, Some (AppleAgxMemoryZero o), w)
        else if (cpu_base =? 0) || (handle =? 0) || (device_base =? 0) ||
                (u64 (u64 (Z.lnot 0) - allocation_length) <? device_base)
        then
          let w := if negb (handle =? 0) then (call_free (FreeContiguous io) w handle).2 else w in
          (AppleAgxMemoryResultAllocationFailed, Some (AppleAgxMemoryZero o), w)
        else
          let alignment_offset :=
            Z.land (u64 (Alignment - Z.land device_base (Alignment - 1))) (Alignment - 1) in
          if (APPLE_AGX_MEMORY_DEVICE_ADDRESS_LIMIT <=? u64 (device_base + alignment_offset)) ||
             (u64 (APPLE_AGX_MEMORY_DEVICE_ADDRESS_LIMIT - u64 (device_base + alignment_offset))
                <? Length_)
          then
            (AppleAgxMemoryResultOutOfRange, Some (AppleAgxMemoryZero o),
             (call_free (FreeContiguous io) w handle).2)
          else
            (AppleAgxMemoryResultOk,
             Some (Build_APPLE_AGX_MEMORY_OBJECT cpu_base (cpu_base + alignment_offset) handle
               device_base (u64 (device_base + alignment_offset)) allocation_length Length_
               NULL 0 0 0 0 AppleAgxMemoryCpuOwned), w)
    end.

Definition AppleAgxMemoryAllocate Io (Length_ : Z) (Object : ptr APPLE_AGX_MEMORY_OBJECT)
    (w : World) : APPLE_AGX_MEMORY_RESULT * ptr APPLE_AGX_MEMORY_OBJECT * World :=
  AppleAgxMemoryAllocateAligned Io Length_ APPLE_AGX_MEMORY_PAGE_SIZE Object w.

Definition AppleAgxMemoryRelease Io (Object : ptr APPLE_AGX_MEMORY_OBJECT) (w : World)
    : APPLE_AGX_MEMORY_RESULT * ptr APPLE_AGX_MEMORY_OBJECT * World :=
  deref o := Object else (AppleAgxMemoryResultInvalidArgument, Object, w) in
  if negb (AppleAgxMemoryIoValid Io) then (AppleAgxMemoryResultInvalidArgument, Object, w)
  else if state_is o AppleAgxMemoryEmpty then (AppleAgxMemoryResultOk, Object, w)
  else if negb (state_is o AppleAgxMemoryCpuOwned) && negb (state_is o AppleAgxMemoryPrepared)
  then (AppleAgxMemoryResultBusy, Object, w)
  else
    deref io := Io else (AppleAgxMemoryResultInvalidArgument, Object, w) in
    let '(status, w) :=
      if negb (is_null (DevicePages o)) then call_free (FreePageList io) w (AllocationHandle o)
      else call_free (FreeContiguous io) w (AllocationHandle o) in
    if negb status then (AppleAgxMemoryResultAllocationFailed, Object, w)
    else (AppleAgxMemoryResultOk, Some (AppleAgxMemoryZero o), w).
End io.

Definition AppleAgxMemoryMarkCpuWritten (Object : ptr APPLE_AGX_MEMORY_OBJECT)
    : APPLE_AGX_MEMORY_RESULT * ptr APPLE_AGX_MEMORY_OBJECT :=
  deref o := Object else (AppleAgxMemoryResultInvalidArgument, Object) in
  if state_is o AppleAgxMemoryEmpty then (AppleAgxMemoryResultInvalidArgument, Object)
  else if state_is o AppleAgxMemoryInFlight || state_is o AppleAgxMemoryGpuMapped
  then (AppleAgxMemoryResultBusy, Object)
  else if negb (GpuVirtualAddress o =? 0) then (AppleAgxMemoryResultBusy, Object)
  else (AppleAgxMemoryResultOk,
        Some (o <| State := AppleAgxMemoryCpuOwned |> <| SubmittedFence := 0 |>)).

Definition AppleAgxMemoryMarkPrepared (Object : ptr APPLE_AGX_MEMORY_OBJECT)
    : APPLE_AGX_MEMORY_RESULT * ptr APPLE_AGX_MEMORY_OBJECT :=
  deref o := Object else (AppleAgxMemoryResultInvalidArgument, Object) in
  if state_is o AppleAgxMemoryEmpty then (AppleAgxMemoryResultInvalidArgument, Object)
  else if negb (state_is o AppleAgxMemoryCpuOwned) then (AppleAgxMemoryResultBusy, Object)
  else (AppleAgxMemoryResultOk, Some (o <| State := AppleAgxMemoryPrepared |>)).

Definition AppleAgxMemoryMarkGpuMapped (Object : ptr APPLE_AGX_MEMORY_OBJECT)
    (Context_ GpuVirtualAddress_ : Z) : APPLE_AGX_MEMORY_RESULT * ptr APPLE_AGX_MEMORY_OBJECT :=
  deref o := Object else (AppleAgxMemoryResultInvalidArgument, Object) in
  if (GpuVirtualAddress_ =? 0) ||
     negb (Z.land GpuVirtualAddress_ (APPLE_AGX_MEMORY_PAGE_SIZE - 1) =? 0) || (64 <=? Context_)
  then (AppleAgxMemoryResultInvalidArgument, Object)
  else if negb (state_is o AppleAgxMemoryPrepared) then (AppleAgxMemoryResultNotPrepared, Object)
  else (AppleAgxMemoryResultOk,
        Some (o <| Context := Context_ |> <| GpuVirtualAddress := GpuVirtualAddress_ |>
                <| State := AppleAgxMemoryGpuMapped |>)).

Definition AppleAgxMemoryMarkSubmitted (Object : ptr APPLE_AGX_MEMORY_OBJECT) (Fence : Z)
    : APPLE_AGX_MEMORY_RESULT * ptr APPLE_AGX_MEMORY_OBJECT :=
  deref o := Object else (AppleAgxMemoryResultInvalidArgument, Object) in
  if Fence =? 0 then (AppleAgxMemoryResultInvalidArgument, Object)
  else if negb (state_is o AppleAgxMemoryGpuMapped) && negb (state_is o AppleAgxMemoryCompleted)
  then (AppleAgxMemoryResultBusy, Object)
  else if state_is o AppleAgxMemoryCompleted &&
          negb (AppleAgxMemoryFenceAfter Fence (SubmittedFence o))
  then (AppleAgxMemoryResultStaleFence, Object)
  else (AppleAgxMemoryResultOk,
        Some (o <| SubmittedFence := Fence |> <| State := AppleAgxMemoryInFlight |>)).

Definition AppleAgxMemoryMarkCompleted (Object : ptr APPLE_AGX_MEMORY_OBJECT) (Fence : Z)
    : APPLE_AGX_MEMORY_RESULT * ptr APPLE_AGX_MEMORY_OBJECT :=
  deref o := Object else (AppleAgxMemoryResultInvalidArgument, Object) in
  if Fence =? 0 then (AppleAgxMemoryResultInvalidArgument, Object)
  else if negb (state_is o AppleAgxMemoryInFlight) then (AppleAgxMemoryResultBusy, Object)
  else if negb (Fence =? SubmittedFence o) then (AppleAgxMemoryResultStaleFence, Object)
  else (AppleAgxMemoryResultOk, Some (o <| State := AppleAgxMemoryCompleted |>)).

Definition AppleAgxMemoryMarkAborted (Object : ptr APPLE_AGX_MEMORY_OBJECT) (Fence : Z)
    : APPLE_AGX_MEMORY_RESULT * ptr APPLE_AGX_MEMORY_OBJECT :=
  AppleAgxMemoryMarkCompleted Object Fence.

Definition AppleAgxMemoryMarkGpuUnmapped (Object : ptr APPLE_AGX_MEMORY_OBJECT)
    : APPLE_AGX_MEMORY_RESULT * ptr APPLE_AGX_MEMORY_OBJECT :=
  deref o := Object else (AppleAgxMemoryResultInvalidArgument, Object) in
  if state_is o AppleAgxMemoryEmpty then (AppleAgxMemoryResultInvalidArgument, Object)
  else if state_is o AppleAgxMemoryInFlight then (AppleAgxMemoryResultBusy, Object)
  else if negb (state_is o AppleAgxMemoryGpuMapped) && negb (state_is o AppleAgxMemoryCompleted)
  then (AppleAgxMemoryResultInvalidArgument, Object)
  else (AppleAgxMemoryResultOk,
        Some (o <| Context := 0 |> <| GpuVirtualAddress := 0 |> <| SubmittedFence := 0 |>
                <| State := AppleAgxMemoryPrepared |>)).

(** ** Allocation *)

Definition empty_object : APPLE_AGX_MEMORY_OBJECT :=
  Build_APPLE_AGX_MEMORY_OBJECT 0 0 0 0 0 0 0 NULL 0 0 0 0 AppleAgxMemoryEmpty.

(** The least multiple of [a] that is not below [x]. *)
Definition align_up (x a : Z) : Z := (x + a - 1) / a * a.

(** A page-granular length and a power-of-two alignment whose sum is a 64-bit number. *)
Definition allocation_args (len al : Z) : Prop :=
  0 < len /\ len mod APPLE_AGX_MEMORY_PAGE_SIZE = 0 /\ APPLE_AGX_MEMORY_PAGE_SIZE <= al /\
  al = 2 ^ Z.log2 al /\ len + al < 2 ^ 64.
#[export] Instance allocation_args_dec len al : Decision (allocation_args len al).
Proof. unfold allocation_args. apply _. Defined.

Lemma align_up_spec x a :
  0 < a -> align_up x a mod a = 0 /\ x <= align_up x a < x + a.
Proof.
  intros Ha. unfold align_up. split; [by apply Z_mod_mult|].
  pose proof (Z.div_mod (x + a - 1) a ltac:(lia)). pose proof (Z.mod_pos_bound (x + a - 1) a Ha).
  lia.
Qed.

Lemma align_up_offset x k :
  0 <= k -> 0 <= x -> x + (2 ^ k - x mod 2 ^ k) mod 2 ^ k = align_up x (2 ^ k).
Proof.
  intros Hk Hx. pose proof (Z.pow_pos_nonneg 2 k ltac:(lia) Hk) as Hp.
  unfold align_up. pose proof (Z.div_mod x (2 ^ k) ltac:(lia)) as E.
  pose proof (Z.mod_pos_bound x (2 ^ k) Hp). set (q := x / 2 ^ k) in *. set (r := x mod 2 ^ k) in *.
  destruct (decide (r = 0)) as [Hr|Hr].
  - rewrite Hr, Z.sub_0_r, Z_mod_same_full.
    rewrite <- (Z.div_unique (x + 2 ^ k - 1) (2 ^ k) q (2 ^ k - 1)); lia.
  - rewrite (Z.mod_small (2 ^ k - r)) by lia.
    rewrite <- (Z.div_unique (x + 2 ^ k - 1) (2 ^ k) (q + 1) (r - 1)); lia.
Qed.

Lemma allocation_args_spec len al :
  is_u64 len -> is_u64 al ->
  (len =? 0) || negb (Z.land len (APPLE_AGX_MEMORY_PAGE_SIZE - 1) =? 0) ||
  (al <? APPLE_AGX_MEMORY_PAGE_SIZE) || negb (Z.land al (al - 1) =? 0) ||
  negb (Z.land al (APPLE_AGX_MEMORY_PAGE_SIZE - 1) =? 0) ||
  (u64 (u64 (Z.lnot 0) - al) <? len) = negb (bool_decide (allocation_args len al)).
Proof.
  intros Hl Ha. unfold allocation_args. change APPLE_AGX_MEMORY_PAGE_SIZE with (2 ^ 14).
  rewrite !(land_mask 14) by done. change (u64 (Z.lnot 0)) with (2 ^ 64 - 1).
  rewrite (wrap_id 64 (2 ^ 64 - 1 - al)) by word_lia. unfold fits in *.
  destruct (Z.eqb_spec len 0); [rewrite bool_decide_false by lia; done|].
  destruct (Z.eqb_spec (len mod 2 ^ 14) 0); [|rewrite bool_decide_false by lia; done].
  destruct (Z.ltb_spec al (2 ^ 14)); [rewrite bool_decide_false by lia; done|].
  pose proof (land_pred_pow2 al ltac:(lia)) as Hp.
  destruct (Z.eqb_spec (Z.land al (al - 1)) 0) as [E|E].
  2: { rewrite bool_decide_false; [done|]. intros (_ & _ & _ & H' & _). by apply E, Hp. }
  apply Hp in E. assert (al mod 2 ^ 14 = 0) as ->.
  { rewrite E. apply Z.mod_divide; [done|]. exists (2 ^ (Z.log2 al - 14)).
    rewrite <- Z.pow_add_r; [f_equal; lia| |done].
    apply Z.log2_le_mono in H. change (Z.log2 (2 ^ 14)) with 14 in H. lia. }
  cbn [orb negb Z.eqb]. destruct (Z.ltb_spec (2 ^ 64 - 1 - al) len).
  - rewrite bool_decide_false by lia. done.
  - rewrite bool_decide_true; [done|]. split_and!; done || lia.
Qed.

(** allocation of an aligned view, on every branch.  Bad arguments change nothing.
    Otherwise the platform is asked for the length plus one alignment unit; if it fails,
    gives a null address or a range that wraps, or the view would pass the 40-bit device
    limit, the object is left empty and a handle that was obtained goes back to the
    platform; else the object holds the allocation and a view that starts at the first
    multiple of the alignment, at the same offset for the CPU and the device, and lies
    inside the allocation. *)
Theorem memory_allocate_functional (World : Type) fa ff (w : World) o len al :
  is_u64 len -> is_u64 al -> State o = AppleAgxMemoryEmpty ->
  (forall w n, is_u64 (fa w n).1.1.2) ->
  let io := {| AllocateContiguous := Some fa; FreeContiguous := Some ff;
               AllocatePageList := NULL; FreePageList := NULL |} in
  let '((status, cpu, dev, handle), w1) := fa w (len + al) in
  let given_back := if handle =? 0 then w1 else (ff w1 handle).2 in
  AppleAgxMemoryAllocateAligned (Some io) len al (Some o) w =
    (if negb (bool_decide (allocation_args len al))
     then (AppleAgxMemoryResultInvalidArgument, Some o, w)
     else if negb status then (AppleAgxMemoryResultAllocationFailed, Some empty_object, w1)
     else if bool_decide (cpu = 0 \/ handle = 0 \/ dev = 0 \/ 2 ^ 64 <= dev + (len + al))
     then (AppleAgxMemoryResultAllocationFailed, Some empty_object, given_back)
     else if bool_decide (2 ^ 40 < align_up dev al + len)
     then (AppleAgxMemoryResultOutOfRange, Some empty_object, given_back)
     else (AppleAgxMemoryResultOk,
           Some (Build_APPLE_AGX_MEMORY_OBJECT cpu (cpu + (align_up dev al - dev)) handle dev
             (align_up dev al) (len + al) len NULL 0 0 0 0 AppleAgxMemoryCpuOwned), w1)) /\
  (0 < al -> align_up dev al mod al = 0 /\ dev <= align_up dev al /\
             align_up dev al + len <= dev + (len + al)).
Proof.
  intros Hl Ha He Hfa io.
  destruct (fa w (len + al)) as [[[[status cpu] dev] handle] w1] eqn:F.
  pose proof (Hfa w (len + al)) as Hd. rewrite F in Hd. cbn [fst snd] in Hd.
  split. 2: { intros Hp. pose proof (align_up_spec dev al Hp). lia. }
  unfold AppleAgxMemoryAllocateAligned.
  change (negb (AppleAgxMemoryIoValid (Some io))) with false. cbn [orb].
  rewrite allocation_args_spec by done. case_bool_decide as Hargs; [|done].
  rewrite (bool_decide_true _ He). cbn [negb io AllocatePageList AllocateContiguous].
  destruct Hargs as (H1 & H2 & H3 & H4 & H5). rewrite (wrap_id 64 (len + al)) by word_lia.
  rewrite F. destruct status; [|done]. cbn [negb]. unfold call_free. cbn [FreeContiguous io].
  assert ((cpu =? 0) || (handle =? 0) || (dev =? 0) || (u64 (u64 (Z.lnot 0) - (len + al)) <? dev)
    = bool_decide (cpu = 0 \/ handle = 0 \/ dev = 0 \/ 2 ^ 64 <= dev + (len + al))) as ->.
  { apply eq_true_iff_eq. rewrite !orb_true_iff, bool_decide_eq_true, !Z.eqb_eq, Z.ltb_lt.
    change (u64 (Z.lnot 0)) with (2 ^ 64 - 1). rewrite wrap_id by word_lia. lia. }
  case_bool_decide as Hbad; [by destruct (handle =? 0)|].
  rewrite H4, !land_mask, <- H4 by apply Z.log2_nonneg.
  assert (u64 (al - dev mod al) = al - dev mod al) as ->.
  { apply wrap_id. pose proof (Z.mod_pos_bound dev al ltac:(unfold APPLE_AGX_MEMORY_PAGE_SIZE in *; lia)).
    unfold fits in *. lia. }
  pose proof (align_up_offset dev (Z.log2 al) (Z.log2_nonneg _) ltac:(apply Hd)) as Ho.
  rewrite <- H4 in Ho. pose proof (align_up_spec dev al ltac:(unfold APPLE_AGX_MEMORY_PAGE_SIZE in *; lia)).
  rewrite !(wrap_id 64 (dev + _)) by (rewrite Ho; unfold fits in *; lia). rewrite Ho.
  change APPLE_AGX_MEMORY_DEVICE_ADDRESS_LIMIT with (2 ^ 40).
  assert ((2 ^ 40 <=? align_up dev al) || (u64 (2 ^ 40 - align_up dev al) <? len) =
    bool_decide (2 ^ 40 < align_up dev al + len)) as ->.
  { destruct (Z.leb_spec (2 ^ 40) (align_up dev al)); [rewrite bool_decide_true by lia; done|].
    rewrite wrap_id by (unfold fits in *; change (2 ^ 40) with 1099511627776 in *; word_lia).
    apply eq_true_iff_eq. cbn [orb]. rewrite bool_decide_eq_true, Z.ltb_lt. lia. }
  replace (handle =? 0) with false by (symmetry; apply Z.eqb_neq; lia).
  case_bool_decide; [done|].
  do 4 f_equal. lia.
Qed.

(** A platform that counts its calls, for the concrete instances. *)
Definition demo_alloc (w n : Z) : (bool * Z * Z * Z) * Z := ((true, 0x1000, 0x6000, 7), w + 1).
Definition demo_free (w handle : Z) : bool * Z := (true, w + 100).
Definition demo_io : APPLE_AGX_MEMORY_IO Z :=
  {| AllocateContiguous := Some demo_alloc; FreeContiguous := Some demo_free;
     AllocatePageList := NULL; FreePageList := NULL |}.
Definition demo_object : APPLE_AGX_MEMORY_OBJECT :=
  Build_APPLE_AGX_MEMORY_OBJECT 0x1000 0x3000 7 0x6000 0x8000 0xc000 0x4000 NULL 0 0 0 0
    AppleAgxMemoryCpuOwned.

Lemma memory_allocate_functional_witness :
  AppleAgxMemoryAllocateAligned (Some demo_io) 0x4000 0x8000 (Some empty_object) 0 =
    (AppleAgxMemoryResultOk, Some demo_object, 1).
Proof.
  destruct (memory_allocate_functional Z demo_alloc demo_free 0 empty_object 0x4000 0x8000)
    as [H _]; [by apply (bool_decide_unpack _); vm_compute..|done| |].
  - intros w n. by apply (bool_decide_unpack _); vm_compute.
  - exact H.
Defined.

(** ** The life of an object *)

Definition gpu_visible (s : APPLE_AGX_MEMORY_STATE) : bool :=
  match s with
  | AppleAgxMemoryGpuMapped | AppleAgxMemoryInFlight | AppleAgxMemoryCompleted => true
  | _ => false
  end.
Definition fenced (s : APPLE_AGX_MEMORY_STATE) : bool :=
  match s with AppleAgxMemoryInFlight | AppleAgxMemoryCompleted => true | _ => false end.

Record mem_wf (o : APPLE_AGX_MEMORY_OBJECT) : Prop := {
  mem_empty : State o = AppleAgxMemoryEmpty -> o = empty_object;
  mem_owned : State o <> AppleAgxMemoryEmpty -> AllocationHandle o <> 0 /\ Length o <> 0;
  mem_visible : if gpu_visible (State o)
    then GpuVirtualAddress o <> 0 /\
         Z.land (GpuVirtualAddress o) (APPLE_AGX_MEMORY_PAGE_SIZE - 1) = 0 /\ Context o < 64
    else GpuVirtualAddress o = 0 /\ Context o = 0;
  mem_fenced : if fenced (State o) then SubmittedFence o <> 0 else SubmittedFence o = 0;
}.

Inductive mem_step (o o' : APPLE_AGX_MEMORY_OBJECT) : Prop :=
  | mem_step_allocate (World : Type) (io : ptr (APPLE_AGX_MEMORY_IO World)) w w' len al r :
      AppleAgxMemoryAllocateAligned io len al (Some o) w = (r, Some o', w') -> mem_step o o'
  | mem_step_release (World : Type) (io : ptr (APPLE_AGX_MEMORY_IO World)) w w' r :
      AppleAgxMemoryRelease io (Some o) w = (r, Some o', w') -> mem_step o o'
  | mem_step_mark op r :
      op ∈ [AppleAgxMemoryMarkCpuWritten; AppleAgxMemoryMarkPrepared;
            AppleAgxMemoryMarkGpuUnmapped] ->
      op (Some o) = (r, Some o') -> mem_step o o'
  | mem_step_map c va r :
      AppleAgxMemoryMarkGpuMapped (Some o) c va = (r, Some o') -> mem_step o o'
  | mem_step_submit f r :
      AppleAgxMemoryMarkSubmitted (Some o) f = (r, Some o') -> mem_step o o'
  | mem_step_complete f r :
      AppleAgxMemoryMarkCompleted (Some o) f = (r, Some o') -> mem_step o o'
  | mem_step_abort f r :
      AppleAgxMemoryMarkAborted (Some o) f = (r, Some o') -> mem_step o o'.

(** An allocation leaves the object alone, empties it or fills an empty one. *)
Lemma allocate_outcome (World : Type) (io : ptr (APPLE_AGX_MEMORY_IO World)) w w' len al r o o' :
  AppleAgxMemoryAllocateAligned io len al (Some o) w = (r, Some o', w') ->
  o' = o \/ (State o = AppleAgxMemoryEmpty /\
    (o' = empty_object \/ (State o' = AppleAgxMemoryCpuOwned /\ AllocationHandle o' <> 0 /\
       Length o' <> 0 /\ GpuVirtualAddress o' = 0 /\ Context o' = 0 /\ SubmittedFence o' = 0))).
Proof.
  unfold AppleAgxMemoryAllocateAligned.
  match goal with |- context [if ?c then _ else _] => destruct c eqn:G end;
    [by intros; simplify_eq; left|]. apply orb_false_iff in G as [G _].
  rewrite !orb_false_iff, Z.eqb_neq in G.
  assert (len <> 0) as Hlen by tauto. clear G.
  case_bool_decide as He; cbn [negb]; [|by intros; simplify_eq; left].
  destruct io as [io|]; [|by intros; simplify_eq; left].
  destruct (AllocatePageList io) as [fp|].
  - destruct (fp w len) as [[[[[status cpu] pages] count] handle] w1].
    match goal with |- context [if ?c then _ else _] => destruct c eqn:G end; intros; simplify_eq.
    + right. split; [done|by left].
    + right. split; [done|right]. simpl. rewrite !orb_false_iff, !Z.eqb_neq in G. tauto.
  - destruct (AllocateContiguous io) as [fa|]; [|by intros; simplify_eq; left].
    destruct (fa w _) as [[[[status cpu] dev] handle] w1].
    destruct status; cbn [negb]; [|intros; simplify_eq; right; split; [done|by left]].
    match goal with |- context [if ?c then _ else _] => destruct c eqn:G end;
      [intros; simplify_eq; right; split; [done|by left]|].
    cbv zeta. match goal with |- context [if ?c then _ else _] => destruct c end;
      intros; simplify_eq; right; (split; [done|]); [by left|right].
    simpl. rewrite !orb_false_iff, !Z.eqb_neq in G. tauto.
Qed.

Lemma release_outcome (World : Type) (io : ptr (APPLE_AGX_MEMORY_IO World)) w w' r o o' :
  AppleAgxMemoryRelease io (Some o) w = (r, Some o', w') ->
  o' = o \/ ((State o = AppleAgxMemoryCpuOwned \/ State o = AppleAgxMemoryPrepared) /\
             r = AppleAgxMemoryResultOk /\ o' = empty_object).
Proof.
  unfold AppleAgxMemoryRelease.
  destruct (negb (AppleAgxMemoryIoValid io)); [by intros; simplify_eq; left|].
  case_bool_decide; [by intros; simplify_eq; left|].
  match goal with |- context [if ?c then _ else _] => destruct c eqn:G end;
    [by intros; simplify_eq; left|].
  destruct io as [io|]; [|by intros; simplify_eq; left].
  match goal with |- context [let '(_, _) := ?c in _] => destruct c as [status w1] end.
  destruct status; intros; simplify_eq/=; [|by left]. right.
  split; [|done]. apply andb_false_iff in G. guards. tauto.
Qed.

Ltac mark_unfold H :=
  unfold AppleAgxMemoryMarkCpuWritten, AppleAgxMemoryMarkPrepared, AppleAgxMemoryMarkGpuUnmapped,
    AppleAgxMemoryMarkGpuMapped, AppleAgxMemoryMarkSubmitted, AppleAgxMemoryMarkAborted,
    AppleAgxMemoryMarkCompleted in H.
(** Splits a transition into its branches; those that change nothing are left out. *)
Ltac mark_cases H :=
  mark_unfold H;
  repeat (match type of H with context [if ?c then _ else _] =>
            let G := fresh "G" in destruct c eqn:G; [by simplify_eq; auto|] end);
  injection H as <- <-; guards.

Lemma mem_wf_empty : mem_wf empty_object.
Proof. by split. Qed.

Lemma mem_wf_step o o' : mem_wf o -> mem_step o o' -> mem_wf o'.
Proof.
  intros W [World io w w' len al r H|World io w w' r H|op r Hop H|c va r H|f r H|f r H|f r H].
  - apply allocate_outcome in H as [->|(_ & [->|(Hs & Hh & Hl & Hv & Hc & Hf)])];
      [done|apply mem_wf_empty|].
    split; rewrite ?Hs; done.
  - apply release_outcome in H as [->|(_ & _ & ->)]; [done|apply mem_wf_empty].
  - pose proof (mem_owned o W) as Ho. pose proof (mem_visible o W) as Hv.
    pose proof (mem_fenced o W) as Hf. revert Ho Hv Hf.
    rewrite !elem_of_cons, elem_of_nil in Hop. destruct Hop as [->|[->|[->|[]]]]; mark_cases H.
    + destruct (State o) eqn:S; intros Ho Hv Hf; simpl in *; try (exfalso; intuition congruence);
        (split; simpl; [done|intros _; by apply Ho|intuition|intuition]).
    + rewrite G0. intros Ho Hv Hf. split; simpl; [done|intros _; by apply Ho|done|done].
    + destruct (State o) eqn:S; intros Ho Hv Hf; simpl in *; try (exfalso; intuition congruence);
        (split; simpl; [done|intros _; by apply Ho|intuition|intuition]).
  - pose proof (mem_owned o W) as Ho. pose proof (mem_visible o W) as Hv.
    pose proof (mem_fenced o W) as Hf. mark_cases H. rewrite G0 in *.
    split; simpl; [done|intros _; by apply Ho|tauto|done].
  - pose proof (mem_owned o W) as Ho. pose proof (mem_visible o W) as Hv.
    mark_cases H. revert Ho Hv.
    destruct (State o) eqn:S; intros Ho Hv; simpl in *; try (exfalso; intuition congruence);
      (split; simpl; [done|intros _; by apply Ho|intuition|intuition]).
  - pose proof (mem_owned o W) as Ho. pose proof (mem_visible o W) as Hv.
    pose proof (mem_fenced o W) as Hf. mark_cases H. rewrite G0 in *.
    split; simpl; [done|intros _; by apply Ho|done|done].
  - pose proof (mem_owned o W) as Ho. pose proof (mem_visible o W) as Hv.
    pose proof (mem_fenced o W) as Hf. mark_cases H. rewrite G0 in *.
    split; simpl; [done|intros _; by apply Ho|done|done].
Qed.

#[global] Program Instance memory_component : Component APPLE_AGX_MEMORY_OBJECT := {
  comp_init := fun o => o = empty_object;
  comp_step := mem_step;
  comp_inv := mem_wf;
}.
Next Obligation. intros o ->. apply mem_wf_empty. Qed.
Next Obligation. apply mem_wf_step. Qed.

(** While a job is in flight its object is pinned.  Whatever is called, with whatever
    allocator, the object stays as it is until its own fence is reported complete or
    aborted; it then keeps its mapping, and it is neither rewritten by the CPU, unmapped
    nor released before that.  An object the CPU may write or the platform take back has
    no GPU mapping and no fence. *)
Theorem memory_in_flight_is_pinned o o' :
  reachable o -> mem_step o o' ->
  (State o = AppleAgxMemoryInFlight ->
     o' = o \/ (o' = o <| State := AppleAgxMemoryCompleted |> /\ SubmittedFence o <> 0)) /\
  (AllocationHandle o <> 0 -> AllocationHandle o' = 0 ->
     GpuVirtualAddress o = 0 /\ SubmittedFence o = 0 /\
     (State o = AppleAgxMemoryCpuOwned \/ State o = AppleAgxMemoryPrepared)) /\
  (State o' = AppleAgxMemoryCpuOwned -> GpuVirtualAddress o' = 0 /\ SubmittedFence o' = 0).
Proof.
  intros Hr Hs. pose proof (reachable_inv o Hr : mem_wf o) as W.
  pose proof (mem_wf_step o o' W Hs) as W'.
  split_and!.
  - intros Hfl. pose proof (mem_fenced o W) as Hf. rewrite Hfl in Hf.
    destruct Hs as [World io w w' len al r H|World io w w' r H|op r Hop H|c va r H|f r H|f r H|f r H].
    + apply allocate_outcome in H as [->|(He & _)]; [by left|congruence].
    + apply release_outcome in H as [->|(He & _)]; [by left|].
      destruct He; congruence.
    + rewrite !elem_of_cons, elem_of_nil in Hop. left.
      destruct Hop as [->|[->|[->|[]]]]; mark_unfold H; rewrite Hfl in H;
        injection H as <- <-; done.
    + left. mark_unfold H. rewrite Hfl in H.
      match type of H with context [if ?c then _ else _] => destruct c end; by simplify_eq/=.
    + left. mark_unfold H. rewrite Hfl in H. destruct (f =? 0); by simplify_eq/=.
    + mark_cases H. by right.
    + mark_cases H. by right.
  - intros Hh Hh'. destruct (decide (State o = AppleAgxMemoryCpuOwned \/
      State o = AppleAgxMemoryPrepared)) as [Hst|Hst].
    { pose proof (mem_visible o W) as Hv. pose proof (mem_fenced o W) as Hf.
      destruct Hst as [E|E]; rewrite E in Hv, Hf; simpl in *; tauto. }
    exfalso. assert (State o' = State o -> False) as Hne.
    { intros E. destruct (decide (State o = AppleAgxMemoryEmpty)) as [He|He].
      - rewrite (mem_empty o W He) in Hh. done.
      - rewrite <- E in He. by apply (mem_owned o' W') in He as [? _]. }
    assert (State o' = AppleAgxMemoryEmpty) as He.
    { destruct (decide (State o' = AppleAgxMemoryEmpty)) as [|He]; [done|].
      by apply (mem_owned o' W') in He as [? _]. }
    destruct Hs as [World io w w' len al r H|World io w w' r H|op r Hop H|c va r H|f r H|f r H|f r H].
    + apply allocate_outcome in H as [->|(E & _)]; [done|]. by rewrite (mem_empty o W E) in Hh.
    + apply release_outcome in H as [->|(E & _)]; [done|]. tauto.
    + rewrite !elem_of_cons, elem_of_nil in Hop.
      destruct Hop as [->|[->|[->|[]]]]; mark_cases H; done.
    + by mark_cases H.
    + by mark_cases H.
    + by mark_cases H.
    + by mark_cases H.
  - intros E. pose proof (mem_visible o' W') as Hv. pose proof (mem_fenced o' W') as Hf.
    rewrite E in Hv, Hf. simpl in *. tauto.
Qed.

Lemma demo_object_reachable : reachable demo_object.
Proof.
  exists empty_object. split; [done|]. apply rtc_once.
  by apply (mem_step_allocate _ _ Z (Some demo_io) 0 1 0x4000 0x8000 AppleAgxMemoryResultOk).
Qed.

Lemma memory_in_flight_is_pinned_witness :
  mem_step demo_object empty_object /\ GpuVirtualAddress demo_object = 0.
Proof.
  assert (mem_step demo_object empty_object) as Hs
    by (by apply (mem_step_release _ _ Z (Some demo_io) 1 101 AppleAgxMemoryResultOk)).
  destruct (memory_in_flight_is_pinned demo_object empty_object demo_object_reachable Hs)
    as (_ & H & _).
  split; [exact Hs|]. by apply H.
Defined.

Lemma mem_fence_after_serial f g : AppleAgxMemoryFenceAfter f g = serial_after 64 f g.
Proof. reflexivity. Qed.

(** A job's way through a prepared object.  Mapping at a page-aligned address in a
    context below 64, submission of a nonzero fence, completion and unmapping all
    succeed and give back the object as it was; a report for any other fence is refused
    as stale; while the job is out the object cannot be released, rewritten or unmapped;
    and a completed object takes a new fence exactly when that is serially after the
    last one. *)
Theorem memory_job_cycle (World : Type) (io : ptr (APPLE_AGX_MEMORY_IO World)) (w : World)
    o c va fence fence' :
  reachable o -> State o = AppleAgxMemoryPrepared ->
  va <> 0 -> va mod APPLE_AGX_MEMORY_PAGE_SIZE = 0 -> 0 <= c < 64 -> fence <> 0 ->
  fence' <> 0 -> AppleAgxMemoryIoValid io = true ->
  exists o1 o2 o3,
    AppleAgxMemoryMarkGpuMapped (Some o) c va = (AppleAgxMemoryResultOk, Some o1) /\
    AppleAgxMemoryMarkSubmitted (Some o1) fence = (AppleAgxMemoryResultOk, Some o2) /\
    AppleAgxMemoryMarkCompleted (Some o2) fence = (AppleAgxMemoryResultOk, Some o3) /\
    AppleAgxMemoryMarkGpuUnmapped (Some o3) = (AppleAgxMemoryResultOk, Some o) /\
    (fence' <> fence -> AppleAgxMemoryMarkCompleted (Some o2) fence' =
       (AppleAgxMemoryResultStaleFence, Some o2)) /\
    AppleAgxMemoryRelease io (Some o2) w = (AppleAgxMemoryResultBusy, Some o2, w) /\
    AppleAgxMemoryMarkCpuWritten (Some o2) = (AppleAgxMemoryResultBusy, Some o2) /\
    AppleAgxMemoryMarkGpuUnmapped (Some o2) = (AppleAgxMemoryResultBusy, Some o2) /\
    AppleAgxMemoryMarkSubmitted (Some o3) fence' =
      if serial_after 64 fence' fence
      then (AppleAgxMemoryResultOk,
            Some (o3 <| SubmittedFence := fence' |> <| State := AppleAgxMemoryInFlight |>))
      else (AppleAgxMemoryResultStaleFence, Some o3).
Proof.
  intros Hr Hp Hva Hal Hc Hf Hf' Hio. pose proof (reachable_inv o Hr : mem_wf o) as W.
  pose proof (mem_visible o W) as Hv. pose proof (mem_fenced o W) as Hfe.
  rewrite Hp in Hv, Hfe. simpl in Hv, Hfe. destruct Hv as [Hv Hctx].
  set (o1 := o <| Context := c |> <| GpuVirtualAddress := va |> <| State := AppleAgxMemoryGpuMapped |>).
  set (o2 := o1 <| SubmittedFence := fence |> <| State := AppleAgxMemoryInFlight |>).
  exists o1, o2, (o2 <| State := AppleAgxMemoryCompleted |>). split_and!.
  - unfold AppleAgxMemoryMarkGpuMapped. change APPLE_AGX_MEMORY_PAGE_SIZE with (2 ^ 14) in *.
    rewrite (land_mask 14), Hal, (proj2 (Z.eqb_neq _ _) Hva), (proj2 (Z.leb_gt _ _)) by lia.
    by rewrite (bool_decide_true _ Hp).
  - unfold AppleAgxMemoryMarkSubmitted. by rewrite (proj2 (Z.eqb_neq _ _) Hf).
  - unfold AppleAgxMemoryMarkCompleted. rewrite (proj2 (Z.eqb_neq _ _) Hf). simpl.
    by rewrite Z.eqb_refl.
  - simpl. destruct o. simpl in *. by subst.
  - intros Hne. unfold AppleAgxMemoryMarkCompleted. rewrite (proj2 (Z.eqb_neq _ _) Hf'). simpl.
    by rewrite (proj2 (Z.eqb_neq _ _) Hne).
  - unfold AppleAgxMemoryRelease. by rewrite Hio.
  - done.
  - done.
  - unfold AppleAgxMemoryMarkSubmitted. rewrite (proj2 (Z.eqb_neq _ _) Hf').
    rewrite mem_fence_after_serial. simpl. by destruct (serial_after 64 fence' fence).
Qed.

Definition prepared_object : APPLE_AGX_MEMORY_OBJECT :=
  demo_object <| State := AppleAgxMemoryPrepared |>.

Lemma memory_job_cycle_witness :
  exists o1 o2, AppleAgxMemoryMarkGpuMapped (Some prepared_object) 3 0x4000 =
    (AppleAgxMemoryResultOk, Some o1) /\
    AppleAgxMemoryMarkSubmitted (Some o1) 17 = (AppleAgxMemoryResultOk, Some o2).
Proof.
  assert (reachable prepared_object) as Hr.
  { eapply reachable_step; [apply demo_object_reachable|].
    apply (mem_step_mark _ _ AppleAgxMemoryMarkPrepared AppleAgxMemoryResultOk);
      [by repeat constructor|reflexivity]. }
  destruct (memory_job_cycle Z (Some demo_io) 0 prepared_object 3 0x4000 17 18 Hr)
    as (o1 & o2 & o3 & H1 & H2 & _); [done..|].
  by exists o1, o2.
Defined.

End Memory.
