(* ===== verification/Uat.v ===== *)
(** * UAT descriptors and ranges (shared/src/apple_agx_uat.c)

    The GPU's page-table words: table and page descriptors, the TTBR pair of a context,
    and the validation of a range before it is mapped.  [Uat.read_pte] and
    [Uat.read_ttbr] read the words the way the MMU does; the theorems are that encoding
    then reading gives back the address and the protection, on every branch, and that
    validation accepts exactly the ranges inside one half of the address space. *)

From S2P Require Import Prelude Bytes.

Module Uat.

(** ** Data *)

Definition J313_AGX_G2_PAGE_SIZE : Z := 16384.
Definition J313_AGX_G2_UAT_INPUT_ADDRESS_BITS : Z := 39.
Definition J313_AGX_G2_UAT_OUTPUT_ADDRESS_BITS : Z := 40.
Definition J313_AGX_G2_UAT_CONTEXT_COUNT : Z := 64.
Definition J313_AGX_G2_UAT_FIRMWARE_CONTEXT : Z := 0.

Definition APPLE_AGX_UAT_BIT (b : Z) : Z := Z.shiftl 1 b.
Definition APPLE_AGX_UAT_PAGE_MASK : Z := J313_AGX_G2_PAGE_SIZE - 1.
Definition APPLE_AGX_UAT_PHYSICAL_LIMIT : Z := Z.shiftl 1 J313_AGX_G2_UAT_OUTPUT_ADDRESS_BITS.
Definition APPLE_AGX_UAT_LOW_LIMIT : Z := Z.shiftl 1 J313_AGX_G2_UAT_INPUT_ADDRESS_BITS.
Definition APPLE_AGX_UAT_HIGH_BASE : Z := u64 (Z.lnot (APPLE_AGX_UAT_LOW_LIMIT - 1)).

Definition APPLE_AGX_UAT_PTE_OWNER : Z := APPLE_AGX_UAT_BIT 55.
Definition APPLE_AGX_UAT_PTE_UXN : Z := APPLE_AGX_UAT_BIT 54.
Definition APPLE_AGX_UAT_PTE_PXN : Z := APPLE_AGX_UAT_BIT 53.
Definition APPLE_AGX_UAT_PTE_NON_GLOBAL : Z := APPLE_AGX_UAT_BIT 11.
Definition APPLE_AGX_UAT_PTE_ACCESS_FLAG : Z := APPLE_AGX_UAT_BIT 10.
Definition APPLE_AGX_UAT_PTE_AP (v : Z) : Z := Z.shiftl v 6.
Definition APPLE_AGX_UAT_PTE_ATTR (v : Z) : Z := Z.shiftl v 2.
Definition APPLE_AGX_UAT_PTE_LEAF_TABLE : Z := 3.
Definition APPLE_AGX_UAT_TTBR_VALID : Z := 1.
Definition APPLE_AGX_UAT_TTBR_ASID (context : Z) : Z := u64 (Z.shiftl context 48).

Definition APPLE_AGX_UAT_ATTR_CACHED : Z := 0.
Definition APPLE_AGX_UAT_ATTR_DEVICE : Z := 1.
Definition APPLE_AGX_UAT_ATTR_SHARED_INNER_NC : Z := 2.
Definition APPLE_AGX_UAT_AP_FIRMWARE_GPU : Z := 0.
Definition APPLE_AGX_UAT_AP_FIRMWARE : Z := 1.
Definition APPLE_AGX_UAT_AP_GPU : Z := 2.

Inductive APPLE_AGX_UAT_RESULT :=
  | AppleAgxUatResultOk
  | AppleAgxUatResultInvalidArgument
  | AppleAgxUatResultUnsupportedContext
  | AppleAgxUatResultMisaligned
  | AppleAgxUatResultOutOfRange
  | AppleAgxUatResultOverflow
  | AppleAgxUatResultUnsupportedProtection
  | AppleAgxUatResultAlreadyMapped
  | AppleAgxUatResultCapacity
  | AppleAgxUatResultAllocationFailed
  | AppleAgxUatResultNotMapped.
#[export] Instance uat_result_eq_dec : EqDecision APPLE_AGX_UAT_RESULT.
Proof. solve_decision. Defined.

(** APPLE_AGX_UAT_PROTECTION: any integer may be passed. *)
Definition AppleAgxUatFirmwareDeviceReadWrite : Z := 1.
Definition AppleAgxUatFirmwareSharedReadWrite : Z := 2.
Definition AppleAgxUatFirmwareGpuSharedReadWrite : Z := 3.
Definition AppleAgxUatFirmwarePrivateReadWrite : Z := 4.
Definition AppleAgxUatFirmwareGpuPrivateReadWrite : Z := 5.
Definition AppleAgxUatFirmwareReadWriteGpuReadOnly : Z := 6.
Definition AppleAgxUatGpuSharedReadOnly : Z := 7.
Definition AppleAgxUatGpuSharedWriteOnly : Z := 8.
Definition AppleAgxUatGpuSharedReadWrite : Z := 9.
Definition AppleAgxUatGpuPipelineShared : Z := 10.

Inductive APPLE_AGX_UAT_HALF := AppleAgxUatTtbr0 | AppleAgxUatTtbr1.

Record APPLE_AGX_UAT_ROOTS := {
  Ttbr0PhysicalAddress : Z;
  Ttbr1PhysicalAddress : Z;
}.
Record APPLE_AGX_UAT_TTBR_PAIR := { Ttbr0 : Z; Ttbr1 : Z }.

(** ** Operations *)

(** The switch: attribute, AP, UXN and PXN of a protection; [None] is its default case. *)
Definition protection_fields (Protection : Z) : option (Z * Z * bool * bool) :=
  if Protection =? AppleAgxUatFirmwareDeviceReadWrite then
    Some (APPLE_AGX_UAT_ATTR_DEVICE, APPLE_AGX_UAT_AP_FIRMWARE, true, false)
  else if Protection =? AppleAgxUatFirmwareSharedReadWrite then
    Some (APPLE_AGX_UAT_ATTR_SHARED_INNER_NC, APPLE_AGX_UAT_AP_FIRMWARE, true, false)
  else if Protection =? AppleAgxUatFirmwareGpuSharedReadWrite then
    Some (APPLE_AGX_UAT_ATTR_SHARED_INNER_NC, APPLE_AGX_UAT_AP_FIRMWARE_GPU, true, true)
  else if Protection =? AppleAgxUatFirmwarePrivateReadWrite then
    Some (APPLE_AGX_UAT_ATTR_CACHED, APPLE_AGX_UAT_AP_FIRMWARE, true, false)
  else if Protection =? AppleAgxUatFirmwareGpuPrivateReadWrite then
    Some (APPLE_AGX_UAT_ATTR_CACHED, APPLE_AGX_UAT_AP_FIRMWARE_GPU, true, true)
  else if Protection =? AppleAgxUatFirmwareReadWriteGpuReadOnly then
    Some (APPLE_AGX_UAT_ATTR_CACHED, APPLE_AGX_UAT_AP_FIRMWARE, true, true)
  else if Protection =? AppleAgxUatGpuSharedReadOnly then
    Some (APPLE_AGX_UAT_ATTR_SHARED_INNER_NC, APPLE_AGX_UAT_AP_GPU, false, false)
  else if Protection =? AppleAgxUatGpuSharedWriteOnly then
    Some (APPLE_AGX_UAT_ATTR_SHARED_INNER_NC, APPLE_AGX_UAT_AP_GPU, false, true)
  else if Protection =? AppleAgxUatGpuSharedReadWrite then
    Some (APPLE_AGX_UAT_ATTR_SHARED_INNER_NC, APPLE_AGX_UAT_AP_GPU, true, false)
  else if Protection =? AppleAgxUatGpuPipelineShared then
    Some (APPLE_AGX_UAT_ATTR_SHARED_INNER_NC, APPLE_AGX_UAT_AP_FIRMWARE_GPU, true, true)
  else None.

Definition AppleAgxUatProtectionBits (Context Protection : Z) (Bits : ptr Z)
    : APPLE_AGX_UAT_RESULT * ptr Z :=
  if J313_AGX_G2_UAT_CONTEXT_COUNT <=? Context then (AppleAgxUatResultUnsupportedContext, Bits)
  else if is_null Bits then (AppleAgxUatResultInvalidArgument, Bits)
  else
    match protection_fields Protection with
    | None => (AppleAgxUatResultUnsupportedProtection, Bits)
    | Some (attribute, ap, uxn, pxn) =>
        if ((Context =? J313_AGX_G2_UAT_FIRMWARE_CONTEXT) &&
            (AppleAgxUatGpuSharedReadOnly <=? Protection)) ||
           (negb (Context =? J313_AGX_G2_UAT_FIRMWARE_CONTEXT) &&
            (Protection <=? AppleAgxUatFirmwareReadWriteGpuReadOnly))
        then (AppleAgxUatResultUnsupportedProtection, Bits)
        else
          let bits :=
            Z.lor (Z.lor (Z.lor (Z.lor APPLE_AGX_UAT_PTE_OWNER APPLE_AGX_UAT_PTE_ACCESS_FLAG)
              (APPLE_AGX_UAT_PTE_AP ap)) (APPLE_AGX_UAT_PTE_ATTR attribute))
              APPLE_AGX_UAT_PTE_LEAF_TABLE in
          let bits := if (uxn : bool) then Z.lor bits APPLE_AGX_UAT_PTE_UXN else bits in
          let bits := if (pxn : bool) then Z.lor bits APPLE_AGX_UAT_PTE_PXN else bits in
          let bits := if negb (Context =? J313_AGX_G2_UAT_FIRMWARE_CONTEXT)
                      then Z.lor bits APPLE_AGX_UAT_PTE_NON_GLOBAL else bits in
          (AppleAgxUatResultOk, Some bits)
    end.

Definition AppleAgxUatEncodeTableDescriptor (PhysicalAddress : Z) (Descriptor : ptr Z)
    : APPLE_AGX_UAT_RESULT * ptr Z :=
  if is_null Descriptor then (AppleAgxUatResultInvalidArgument, Descriptor)
  else if negb (Z.land PhysicalAddress APPLE_AGX_UAT_PAGE_MASK =? 0)
  then (AppleAgxUatResultMisaligned, Descriptor)
  else if APPLE_AGX_UAT_PHYSICAL_LIMIT <=? PhysicalAddress
  then (AppleAgxUatResultOutOfRange, Descriptor)
  else (AppleAgxUatResultOk, Some (Z.lor PhysicalAddress APPLE_AGX_UAT_PTE_LEAF_TABLE)).

Definition AppleAgxUatEncodeTtbrPair (Context : Z) (Roots : ptr APPLE_AGX_UAT_ROOTS)
    (Pair : ptr APPLE_AGX_UAT_TTBR_PAIR) : APPLE_AGX_UAT_RESULT * ptr APPLE_AGX_UAT_TTBR_PAIR :=
  deref roots := Roots else (AppleAgxUatResultInvalidArgument, Pair) in
  if is_null Pair then (AppleAgxUatResultInvalidArgument, Pair)
  else if J313_AGX_G2_UAT_CONTEXT_COUNT <=? Context
  then (AppleAgxUatResultUnsupportedContext, Pair)
  else
    let ignored_descriptor := Some 0 in
    let '(result, ignored_descriptor) :=
      AppleAgxUatEncodeTableDescriptor (Ttbr0PhysicalAddress roots) ignored_descriptor in
    if negb (bool_decide (result = AppleAgxUatResultOk)) then (result, Pair)
    else
      let '(result, _) :=
        AppleAgxUatEncodeTableDescriptor (Ttbr1PhysicalAddress roots) ignored_descriptor in
      if negb (bool_decide (result = AppleAgxUatResultOk)) then (result, Pair)
      else
        let asid := APPLE_AGX_UAT_TTBR_ASID Context in
        (AppleAgxUatResultOk, Some {|
          Ttbr0 := Z.lor (Z.lor asid (Ttbr0PhysicalAddress roots)) APPLE_AGX_UAT_TTBR_VALID;
          Ttbr1 := Z.lor (Z.lor asid (Ttbr1PhysicalAddress roots)) APPLE_AGX_UAT_TTBR_VALID;
        |}).

Definition AppleAgxUatClearTtbrPair (Pair : ptr APPLE_AGX_UAT_TTBR_PAIR)
    : ptr APPLE_AGX_UAT_TTBR_PAIR :=
  deref _ := Pair else NULL in Some {| Ttbr0 := 0; Ttbr1 := 0 |}.

Definition AppleAgxUatEncodePageDescriptor (Context PhysicalAddress Protection : Z)
    (Descriptor : ptr Z) : APPLE_AGX_UAT_RESULT * ptr Z :=
  if is_null Descriptor then (AppleAgxUatResultInvalidArgument, Descriptor)
  else
    let '(result, bits) := AppleAgxUatProtectionBits Context Protection (Some 0) in
    if negb (bool_decide (result = AppleAgxUatResultOk)) then (result, Descriptor)
    else if negb (Z.land PhysicalAddress APPLE_AGX_UAT_PAGE_MASK =? 0)
    then (AppleAgxUatResultMisaligned, Descriptor)
    else if APPLE_AGX_UAT_PHYSICAL_LIMIT <=? PhysicalAddress
    then (AppleAgxUatResultOutOfRange, Descriptor)
    else (AppleAgxUatResultOk, Some (Z.lor PhysicalAddress (default 0 bits))).

Definition AppleAgxUatValidateRange (Context VirtualAddress PhysicalAddress Length Protection : Z)
    (Half : ptr APPLE_AGX_UAT_HALF) : APPLE_AGX_UAT_RESULT * ptr APPLE_AGX_UAT_HALF :=
  if is_null Half || (Length =? 0) then (AppleAgxUatResultInvalidArgument, Half)
  else
    let '(result, _) := AppleAgxUatProtectionBits Context Protection (Some 0) in
    if negb (bool_decide (result = AppleAgxUatResultOk)) then (result, Half)
    else if negb (Z.land (Z.lor (Z.lor VirtualAddress PhysicalAddress) Length)
                   APPLE_AGX_UAT_PAGE_MASK =? 0)
    then (AppleAgxUatResultMisaligned, Half)
    else if u64 (Z.lnot VirtualAddress) <? u64 (Length - 1)
    then (AppleAgxUatResultOverflow, Half)
    else
      let last_virtual := u64 (VirtualAddress + Length - 1) in
      if (APPLE_AGX_UAT_PHYSICAL_LIMIT <=? PhysicalAddress) ||
         (u64 (APPLE_AGX_UAT_PHYSICAL_LIMIT - PhysicalAddress) <? Length)
      then (AppleAgxUatResultOutOfRange, Half)
      else if (VirtualAddress <? APPLE_AGX_UAT_LOW_LIMIT) &&
              (last_virtual <? APPLE_AGX_UAT_LOW_LIMIT)
      then (AppleAgxUatResultOk, Some AppleAgxUatTtbr0)
      else if APPLE_AGX_UAT_HIGH_BASE <=? VirtualAddress
      then (AppleAgxUatResultOk, Some AppleAgxUatTtbr1)
      else (AppleAgxUatResultOutOfRange, Half).

(** ** The MMU's reading *)

Record pte := {
  pte_address : Z;
  pte_attribute : Z;
  pte_ap : Z;
  pte_uxn : bool;
  pte_pxn : bool;
  pte_non_global : bool;
  pte_accessed : bool;
  pte_owner : bool;
  pte_type : Z;
}.

Definition page_frame (d : Z) : Z := Z.land d (2 ^ 40 - 2 ^ 14).

Definition read_pte (d : Z) : pte :=
  let low := Z.land d (2 ^ 14 - 1) in
  let high := Z.shiftr d 40 in
  {| pte_address := page_frame d;
     pte_attribute := Z.land (Z.shiftr low 2) 7;
     pte_ap := Z.land (Z.shiftr low 6) 3;
     pte_uxn := Z.testbit high 14;
     pte_pxn := Z.testbit high 13;
     pte_non_global := Z.testbit low 11;
     pte_accessed := Z.testbit low 10;
     pte_owner := Z.testbit high 15;
     pte_type := Z.land low 3 |}.

(** Context number, root and valid bit of a TTBR. *)
Definition read_ttbr (t : Z) : Z * Z * bool :=
  (Z.shiftr t 48, page_frame t, Z.testbit (Z.land t (2 ^ 14 - 1)) 0).

Definition frame_ok (pa : Z) : Prop := 0 <= pa < 2 ^ 40 /\ pa mod 2 ^ 14 = 0.

(** The protections a context may use: 1-6 for the firmware's, 7-10 for the others. *)
Definition protection_allowed (context protection : Z) : Prop :=
  (context = 0 /\ 1 <= protection <= 6) \/ (context <> 0 /\ 7 <= protection <= 10).
#[export] Instance protection_allowed_dec c p : Decision (protection_allowed c p).
Proof. unfold protection_allowed. apply _. Defined.

#[export] Instance frame_ok_dec pa : Decision (frame_ok pa).
Proof. unfold frame_ok. apply _. Defined.

(** ** Words built from a frame address and control bits *)

Lemma frame_low pa c : frame_ok pa -> Z.land (Z.lor pa c) (2 ^ 14 - 1) = Z.land c (2 ^ 14 - 1).
Proof. intros [_ Hm]. by rewrite Z.land_lor_distr_l, (land_mask 14 pa), Hm by done. Qed.

Lemma frame_high pa c : frame_ok pa -> Z.shiftr (Z.lor pa c) 40 = Z.shiftr c 40.
Proof.
  intros [Hr _]. rewrite Z.shiftr_lor, (Z.shiftr_div_pow2 pa) by done. by rewrite Z.div_small.
Qed.

Lemma frame_address pa c :
  frame_ok pa -> Z.land c (2 ^ 40 - 2 ^ 14) = 0 -> page_frame (Z.lor pa c) = pa.
Proof.
  intros [Hr Hm] Hc. unfold page_frame. rewrite Z.land_lor_distr_l, Hc, Z.lor_0_r.
  change (2 ^ 40 - 2 ^ 14) with (Z.land (Z.ones 40) (Z.lnot (Z.ones 14))).
  rewrite Z.land_assoc, Z.land_ones, (Z.mod_small pa) by done.
  rewrite <- Z.ldiff_land, Z.ldiff_ones_r, Z.shiftr_div_pow2, Z.shiftl_mul_pow2 by done.
  pose proof (Z.div_mod pa (2 ^ 14) ltac:(done)). lia.
Qed.

(** The control bits of a protection, as the code computes them. *)
Definition protection_bits (context protection : Z) : Z :=
  default 0 (AppleAgxUatProtectionBits context protection (Some 0)).2.

Lemma protection_cases c p b :
  AppleAgxUatProtectionBits c p (Some b) =
    if 64 <=? c then (AppleAgxUatResultUnsupportedContext, Some b)
    else if bool_decide (protection_allowed c p)
    then (AppleAgxUatResultOk, Some (protection_bits c p))
    else (AppleAgxUatResultUnsupportedProtection, Some b).
Proof.
  unfold protection_bits, AppleAgxUatProtectionBits, J313_AGX_G2_UAT_CONTEXT_COUNT,
    J313_AGX_G2_UAT_FIRMWARE_CONTEXT, AppleAgxUatGpuSharedReadOnly,
    AppleAgxUatFirmwareReadWriteGpuReadOnly.
  destruct (64 <=? c); [done|]. cbn [is_null].
  assert (protection_fields p = None -> ~ (1 <= p <= 10)) as Hnone.
  { intros Hn Hp. assert (p = 1 \/ p = 2 \/ p = 3 \/ p = 4 \/ p = 5 \/ p = 6 \/ p = 7 \/ p = 8 \/
      p = 9 \/ p = 10) as Hc by lia. by repeat destruct Hc as [->|Hc]; [..|subst]. }
  assert (protection_fields p <> None -> 1 <= p <= 10) as Hsome.
  { unfold protection_fields. repeat case_match; guards; subst; try done; by intros _. }
  unfold protection_allowed. destruct (protection_fields p) as [[[[a ap] u] x]|].
  - specialize (Hsome ltac:(done)).
    destruct (Z.eqb_spec c 0), (Z.leb_spec 7 p), (Z.leb_spec p 6); cbn [andb orb negb];
      case_bool_decide; done || lia.
  - rewrite bool_decide_false; [done|]. specialize (Hnone eq_refl). lia.
Qed.

Lemma aligned_test pa :
  0 <= pa -> (Z.land pa APPLE_AGX_UAT_PAGE_MASK =? 0) = bool_decide (pa mod 2 ^ 14 = 0).
Proof.
  intros. change APPLE_AGX_UAT_PAGE_MASK with (2 ^ 14 - 1). rewrite land_mask by done.
  apply eq_true_iff_eq. by rewrite Z.eqb_eq, bool_decide_eq_true.
Qed.

(** What the MMU sees in the page descriptor of a frame. *)
Definition expected_pte (c pa p : Z) : pte :=
  let '(attribute, ap, uxn, pxn) := default (0, 0, false, false) (protection_fields p) in
  {| pte_address := pa; pte_attribute := attribute; pte_ap := ap; pte_uxn := uxn;
     pte_pxn := pxn; pte_non_global := negb (c =? 0); pte_accessed := true;
     pte_owner := true; pte_type := 3 |}.

Lemma protection_bits_context c p : c <> 0 -> 0 <= c < 64 -> protection_bits c p = protection_bits 1 p.
Proof.
  intros Hc Hr. unfold protection_bits, AppleAgxUatProtectionBits,
    J313_AGX_G2_UAT_CONTEXT_COUNT, J313_AGX_G2_UAT_FIRMWARE_CONTEXT.
  destruct (Z.leb_spec 64 c); [lia|]. by rewrite (proj2 (Z.eqb_neq _ _) Hc).
Qed.

Lemma read_page_descriptor c pa p :
  0 <= c < 64 -> protection_allowed c p -> frame_ok pa ->
  read_pte (Z.lor pa (protection_bits c p)) = expected_pte c pa p.
Proof.
  intros Hc Hp Hf. unfold read_pte. rewrite frame_low, frame_high by done.
  assert (exists c', (c = 0 <-> c' = 0) /\ (c' = 0 \/ c' = 1) /\
            protection_bits c p = protection_bits c' p) as (c' & Hcc & Hc' & ->).
  { destruct (decide (c = 0)) as [->|Hne]; [by exists 0; split_and!; [|left|]|].
    exists 1. split_and!; [lia|by right|by apply protection_bits_context]. }
  assert (expected_pte c pa p = expected_pte c' pa p) as ->.
  { unfold expected_pte. destruct (default _ _) as [[[? ?] ?] ?]. f_equal. f_equal.
    apply eq_true_iff_eq. rewrite !Z.eqb_eq. done. }
  assert (protection_allowed c' p) as Hp'.
  { unfold protection_allowed in *. tauto. }
  unfold protection_allowed in Hp'. clear Hp Hcc Hc.
  assert (p = 1 \/ p = 2 \/ p = 3 \/ p = 4 \/ p = 5 \/ p = 6 \/ p = 7 \/ p = 8 \/
    p = 9 \/ p = 10) as Hcases by lia.
  destruct Hc' as [->| ->]; simpl in Hp';
    repeat destruct Hcases as [->|Hcases]; subst; try (exfalso; lia);
    rewrite frame_address by done; reflexivity.
Qed.

Lemma page_descriptor_cases c pa p d :
  0 <= c -> 0 <= pa ->
  AppleAgxUatEncodePageDescriptor c pa p (Some d) =
    if bool_decide (64 <= c) then (AppleAgxUatResultUnsupportedContext, Some d)
    else if bool_decide (~ protection_allowed c p)
    then (AppleAgxUatResultUnsupportedProtection, Some d)
    else if bool_decide (pa mod 2 ^ 14 <> 0) then (AppleAgxUatResultMisaligned, Some d)
    else if bool_decide (2 ^ 40 <= pa) then (AppleAgxUatResultOutOfRange, Some d)
    else (AppleAgxUatResultOk, Some (Z.lor pa (protection_bits c p))).
Proof.
  intros Hc Hpa.
  unfold AppleAgxUatEncodePageDescriptor. cbn [is_null]. rewrite protection_cases.
  destruct (Z.leb_spec 64 c); [by rewrite (bool_decide_true (64 <= c)) by done|].
  rewrite (bool_decide_false (64 <= c)) by lia.
  destruct (decide (protection_allowed c p)) as [Ha|Ha].
  2: { by rewrite (bool_decide_false (protection_allowed c p)), (bool_decide_true (~ _)) by done. }
  rewrite (bool_decide_true (protection_allowed c p)), (bool_decide_false (~ _)) by tauto.
  cbn [negb]. rewrite (bool_decide_true (AppleAgxUatResultOk = _)) by done. cbn [negb].
  rewrite aligned_test by done.
  destruct (decide (pa mod 2 ^ 14 = 0)) as [Hm|Hm].
  2: { by rewrite (bool_decide_false (_ = 0)), (bool_decide_true (_ <> 0)) by done. }
  rewrite (bool_decide_true (_ = 0)), (bool_decide_false (_ <> 0)) by tauto. cbn [negb].
  change APPLE_AGX_UAT_PHYSICAL_LIMIT with (2 ^ 40).
  destruct (Z.leb_spec (2 ^ 40) pa); [by rewrite (bool_decide_true (2 ^ 40 <= pa))|].
  by rewrite (bool_decide_false (2 ^ 40 <= pa)) by lia.
Qed.

(** A page descriptor, on every branch.  The context, then the protection, then the
    alignment, then the range of the frame is refused, in that order and without writing
    anything; otherwise the MMU reads from the descriptor exactly the frame's address and
    the attribute, access and execute bits of the protection, non-global for every
    context but the firmware's.  Firmware protections are for the firmware's context and
    render protections for the others. *)
Theorem uat_page_descriptor_functional c pa p d :
  0 <= c -> 0 <= pa ->
  AppleAgxUatEncodePageDescriptor c pa p (Some d) =
    (if bool_decide (64 <= c) then (AppleAgxUatResultUnsupportedContext, Some d)
     else if bool_decide (~ protection_allowed c p)
     then (AppleAgxUatResultUnsupportedProtection, Some d)
     else if bool_decide (pa mod 2 ^ 14 <> 0) then (AppleAgxUatResultMisaligned, Some d)
     else if bool_decide (2 ^ 40 <= pa) then (AppleAgxUatResultOutOfRange, Some d)
     else (AppleAgxUatResultOk, Some (Z.lor pa (protection_bits c p)))) /\
  (c < 64 -> protection_allowed c p -> frame_ok pa ->
   read_pte (Z.lor pa (protection_bits c p)) = expected_pte c pa p).
Proof.
  intros Hc Hpa. split; [by apply page_descriptor_cases|]. by intros; apply read_page_descriptor.
Qed.

Lemma uat_page_descriptor_functional_witness :
  exists d, AppleAgxUatEncodePageDescriptor 1 0x12344000 AppleAgxUatGpuSharedReadWrite (Some 0) =
    (AppleAgxUatResultOk, Some d) /\
    read_pte d = expected_pte 1 0x12344000 AppleAgxUatGpuSharedReadWrite.
Proof.
  destruct (uat_page_descriptor_functional 1 0x12344000 AppleAgxUatGpuSharedReadWrite 0)
    as [H1 H2]; [done|done|].
  eexists. split; [exact H1|]. apply H2; [done|by apply (bool_decide_unpack _)|].
  by apply (bool_decide_unpack _).
Defined.

(** ** Ranges and roots *)

Lemma aligned3_test a b c :
  0 <= a -> 0 <= b -> 0 <= c ->
  (Z.land (Z.lor (Z.lor a b) c) APPLE_AGX_UAT_PAGE_MASK =? 0) =
    bool_decide (a mod 2 ^ 14 = 0 /\ b mod 2 ^ 14 = 0 /\ c mod 2 ^ 14 = 0).
Proof.
  intros. change APPLE_AGX_UAT_PAGE_MASK with (2 ^ 14 - 1).
  rewrite !Z.land_lor_distr_l, !land_mask by done.
  apply eq_true_iff_eq. rewrite Z.eqb_eq, bool_decide_eq_true, !Z.lor_eq_0_iff. tauto.
Qed.

Lemma validate_range_cases c va pa len p h :
  0 <= c -> is_u64 va -> is_u64 pa -> is_u64 len ->
  AppleAgxUatValidateRange c va pa len p (Some h) =
    if bool_decide (len = 0) then (AppleAgxUatResultInvalidArgument, Some h)
    else if bool_decide (64 <= c) then (AppleAgxUatResultUnsupportedContext, Some h)
    else if bool_decide (~ protection_allowed c p)
    then (AppleAgxUatResultUnsupportedProtection, Some h)
    else if bool_decide (~ (va mod 2 ^ 14 = 0 /\ pa mod 2 ^ 14 = 0 /\ len mod 2 ^ 14 = 0))
    then (AppleAgxUatResultMisaligned, Some h)
    else if bool_decide (2 ^ 64 < va + len) then (AppleAgxUatResultOverflow, Some h)
    else if bool_decide (2 ^ 40 < pa + len) then (AppleAgxUatResultOutOfRange, Some h)
    else if bool_decide (va + len <= 2 ^ 39) then (AppleAgxUatResultOk, Some AppleAgxUatTtbr0)
    else if bool_decide (2 ^ 64 - 2 ^ 39 <= va) then (AppleAgxUatResultOk, Some AppleAgxUatTtbr1)
    else (AppleAgxUatResultOutOfRange, Some h).
Proof.
  intros Hc Hv Hp Hl. unfold AppleAgxUatValidateRange. cbn [is_null orb].
  destruct (Z.eqb_spec len 0); [by rewrite (bool_decide_true (len = 0))|].
  rewrite (bool_decide_false (len = 0)) by done. rewrite protection_cases.
  destruct (Z.leb_spec 64 c); [by rewrite (bool_decide_true (64 <= c))|].
  rewrite (bool_decide_false (64 <= c)) by lia.
  destruct (decide (protection_allowed c p)) as [Ha|Ha].
  2: { by rewrite (bool_decide_false (protection_allowed c p)), (bool_decide_true (~ _)) by done. }
  rewrite (bool_decide_true (protection_allowed c p)),
    (bool_decide_false (~ protection_allowed c p)) by tauto.
  rewrite (bool_decide_true (AppleAgxUatResultOk = _)) by done. cbn [negb].
  rewrite aligned3_test, bool_decide_not by (apply Hv || apply Hp || apply Hl).
  destruct (bool_decide (va mod 2 ^ 14 = 0 /\ _)); cbn [negb]; [|done].
  replace (u64 (Z.lnot va)) with (2 ^ 64 - 1 - va)
    by (unfold Z.lnot; word_lia).
  rewrite (wrap_id 64 (len - 1)) by word_lia.
  destruct (Z.ltb_spec (2 ^ 64 - 1 - va) (len - 1));
    [by rewrite (bool_decide_true (2 ^ 64 < va + len)) by lia|].
  rewrite (bool_decide_false (2 ^ 64 < va + len)) by lia.
  rewrite (wrap_id 64 (va + len - 1)) by (unfold fits in *; lia).
  change APPLE_AGX_UAT_PHYSICAL_LIMIT with (2 ^ 40).
  change APPLE_AGX_UAT_LOW_LIMIT with (2 ^ 39).
  change APPLE_AGX_UAT_HIGH_BASE with (2 ^ 64 - 2 ^ 39).
  assert ((2 ^ 40 <=? pa) || (u64 (2 ^ 40 - pa) <? len) = bool_decide (2 ^ 40 < pa + len)) as ->.
  { unfold fits in *. destruct (Z.leb_spec (2 ^ 40) pa);
      [by rewrite bool_decide_true by lia|].
    rewrite wrap_id by (unfold fits; change (2 ^ 40) with 1099511627776 in *; word_lia).
    apply eq_true_iff_eq. cbn [orb]. rewrite bool_decide_eq_true, Z.ltb_lt. lia. }
  case_bool_decide; [done|].
  assert ((va <? 2 ^ 39) && (va + len - 1 <? 2 ^ 39) = bool_decide (va + len <= 2 ^ 39)) as ->.
  { apply eq_true_iff_eq. rewrite andb_true_iff, bool_decide_eq_true, !Z.ltb_lt.
    unfold fits in *. lia. }
  case_bool_decide; [done|].
  destruct (Z.leb_spec (2 ^ 64 - 2 ^ 39) va); [by rewrite bool_decide_true|].
  by rewrite bool_decide_false by lia.
Qed.

(** The ranges that are accepted. *)
Definition range_valid (c va pa len p : Z) (half : APPLE_AGX_UAT_HALF) : Prop :=
  0 < len /\ c < 64 /\ protection_allowed c p /\ va mod 2 ^ 14 = 0 /\ pa mod 2 ^ 14 = 0 /\
  len mod 2 ^ 14 = 0 /\ va + len <= 2 ^ 64 /\ pa + len <= 2 ^ 40 /\
  ((half = AppleAgxUatTtbr0 /\ va + len <= 2 ^ 39) \/
   (half = AppleAgxUatTtbr1 /\ 2 ^ 64 - 2 ^ 39 <= va)).

Lemma validate_range_ok c va pa len p h result half :
  0 <= c -> is_u64 va -> is_u64 pa -> is_u64 len ->
  AppleAgxUatValidateRange c va pa len p (Some h) = (result, half) ->
  (result = AppleAgxUatResultOk /\ exists half', half = Some half' /\ range_valid c va pa len p half') \/
  (result <> AppleAgxUatResultOk /\ half = Some h).
Proof.
  intros Hc Hv Hp Hl. rewrite validate_range_cases by done. unfold range_valid, fits in *.
  repeat case_bool_decide; intros [= <- <-]; try (by right); left; (split; [done|]);
    eexists; (split; [done|]); split_and!; try tauto || lia; apply dec_stable; tauto.
Qed.

(** Range validation, on every branch.  A range is accepted exactly when it is not
    empty, context and protection agree, both addresses and the length are page multiples,
    the virtual range does not wrap, the frames end inside the 40-bit output space, and
    the virtual range lies in the low half (TTBR0) or starts in the high half (TTBR1);
    otherwise the first failing check is reported and the half is not written. *)
Theorem uat_validate_range_exact c va pa len p h :
  0 <= c -> is_u64 va -> is_u64 pa -> is_u64 len ->
  AppleAgxUatValidateRange c va pa len p (Some h) =
    if bool_decide (len = 0) then (AppleAgxUatResultInvalidArgument, Some h)
    else if bool_decide (64 <= c) then (AppleAgxUatResultUnsupportedContext, Some h)
    else if bool_decide (~ protection_allowed c p)
    then (AppleAgxUatResultUnsupportedProtection, Some h)
    else if bool_decide (~ (va mod 2 ^ 14 = 0 /\ pa mod 2 ^ 14 = 0 /\ len mod 2 ^ 14 = 0))
    then (AppleAgxUatResultMisaligned, Some h)
    else if bool_decide (2 ^ 64 < va + len) then (AppleAgxUatResultOverflow, Some h)
    else if bool_decide (2 ^ 40 < pa + len) then (AppleAgxUatResultOutOfRange, Some h)
    else if bool_decide (va + len <= 2 ^ 39) then (AppleAgxUatResultOk, Some AppleAgxUatTtbr0)
    else if bool_decide (2 ^ 64 - 2 ^ 39 <= va) then (AppleAgxUatResultOk, Some AppleAgxUatTtbr1)
    else (AppleAgxUatResultOutOfRange, Some h).
Proof. apply validate_range_cases. Qed.

Lemma uat_validate_range_exact_witness :
  AppleAgxUatValidateRange 1 0xffffffc000000000 0x4000 0x8000 9 (Some AppleAgxUatTtbr0) =
    (AppleAgxUatResultOk, Some AppleAgxUatTtbr1).
Proof.
  rewrite (uat_validate_range_exact 1 0xffffffc000000000 0x4000 0x8000 9 AppleAgxUatTtbr0);
    [by vm_compute|by apply (bool_decide_unpack _); vm_compute..].
Defined.

Lemma table_descriptor_cases pa d :
  0 <= pa ->
  AppleAgxUatEncodeTableDescriptor pa (Some d) =
    if bool_decide (pa mod 2 ^ 14 <> 0) then (AppleAgxUatResultMisaligned, Some d)
    else if bool_decide (2 ^ 40 <= pa) then (AppleAgxUatResultOutOfRange, Some d)
    else (AppleAgxUatResultOk, Some (Z.lor pa 3)).
Proof.
  intros Hpa. unfold AppleAgxUatEncodeTableDescriptor. cbn [is_null].
  rewrite aligned_test, bool_decide_not by done. destruct (bool_decide (pa mod 2 ^ 14 = 0)); [|done].
  cbn [negb]. change APPLE_AGX_UAT_PHYSICAL_LIMIT with (2 ^ 40).
  destruct (Z.leb_spec (2 ^ 40) pa); [by rewrite bool_decide_true|].
  by rewrite bool_decide_false by lia.
Qed.

Lemma read_ttbr_word c pa :
  0 <= c < 64 -> frame_ok pa ->
  read_ttbr (Z.lor (Z.lor (APPLE_AGX_UAT_TTBR_ASID c) pa) 1) = (c, pa, true).
Proof.
  intros Hc Hf. unfold read_ttbr, APPLE_AGX_UAT_TTBR_ASID.
  rewrite wrap_id by (rewrite Z.shiftl_mul_pow2 by done; word_lia).
  rewrite (Z.lor_comm (Z.shiftl c 48)), <- Z.lor_assoc.
  assert (Z.land (Z.shiftl c 48) (2 ^ 14 - 1) = 0) as Hlow.
  { rewrite land_mask, Z.shiftl_mul_pow2 by done. apply Z.mod_divide; [done|].
    exists (c * 2 ^ 34). lia. }
  assert (Z.land (Z.shiftl c 48) (2 ^ 40 - 2 ^ 14) = 0) as Hmid.
  { change (2 ^ 40 - 2 ^ 14) with (Z.land (2 ^ 40 - 1) (Z.lnot (2 ^ 14 - 1))).
    rewrite Z.land_assoc, (land_mask 40), Z.shiftl_mul_pow2 by done.
    replace (c * 2 ^ 48) with (c * 2 ^ 8 * 2 ^ 40) by lia. by rewrite Z_mod_mult. }
  rewrite frame_address, frame_low by (rewrite ?Z.land_lor_distr_l, ?Hmid; done).
  rewrite Z.land_lor_distr_l, Hlow. f_equal. f_equal.
  assert (forall x, Z.shiftr x 48 = Z.shiftr (Z.shiftr x 40) 8) as H48
    by (intros; by rewrite Z.shiftr_shiftr).
  rewrite H48, frame_high, <- H48, Z.shiftr_lor, Z.shiftr_shiftl_l, Z.lor_0_r by done.
  apply Z.shiftl_0_r.
Qed.

(** the roots of a context.  A table descriptor is the frame's address marked as a
    table and refuses a misaligned frame before one out of range; a TTBR pair is written
    only when both roots would make a descriptor, and then the MMU reads from each word
    the context's number, the root and a valid bit; a cleared pair is invalid. *)
Theorem uat_roots_functional c roots pair d :
  0 <= c -> 0 <= Ttbr0PhysicalAddress roots -> 0 <= Ttbr1PhysicalAddress roots ->
  (forall pa, 0 <= pa -> frame_ok pa ->
     exists t, AppleAgxUatEncodeTableDescriptor pa (Some d) = (AppleAgxUatResultOk, Some t) /\
       page_frame t = pa /\ Z.land t 3 = 3) /\
  (c < 64 -> frame_ok (Ttbr0PhysicalAddress roots) -> frame_ok (Ttbr1PhysicalAddress roots) ->
     exists pair', AppleAgxUatEncodeTtbrPair c (Some roots) (Some pair) =
       (AppleAgxUatResultOk, Some pair') /\
       read_ttbr (Ttbr0 pair') = (c, Ttbr0PhysicalAddress roots, true) /\
       read_ttbr (Ttbr1 pair') = (c, Ttbr1PhysicalAddress roots, true)) /\
  (~ (c < 64 /\ frame_ok (Ttbr0PhysicalAddress roots) /\ frame_ok (Ttbr1PhysicalAddress roots)) ->
     exists r, r <> AppleAgxUatResultOk /\
       AppleAgxUatEncodeTtbrPair c (Some roots) (Some pair) = (r, Some pair)) /\
  (exists cleared, AppleAgxUatClearTtbrPair (Some pair) = Some cleared /\
     (read_ttbr (Ttbr0 cleared)).2 = false /\ (read_ttbr (Ttbr1 cleared)).2 = false).
Proof.
  intros Hc H0 H1.
  assert (forall pa d, 0 <= pa -> AppleAgxUatEncodeTableDescriptor pa (Some d) =
    if bool_decide (frame_ok pa) then (AppleAgxUatResultOk, Some (Z.lor pa 3))
    else (if bool_decide (pa mod 2 ^ 14 <> 0) then AppleAgxUatResultMisaligned
          else AppleAgxUatResultOutOfRange, Some d)) as Ht.
  { intros pa d' Hpa. rewrite table_descriptor_cases by done. unfold frame_ok.
    repeat case_bool_decide; try done; exfalso; tauto || lia. }
  split_and!.
  - intros pa Hpa Hf. exists (Z.lor pa 3). rewrite Ht, bool_decide_true by done.
    split_and!; [done|by apply frame_address|].
    rewrite Z.land_lor_distr_l, (land_mask 2 pa ltac:(done) : Z.land pa 3 = _). destruct Hf as [_ Hm].
    replace (pa mod 2 ^ 2) with 0; [done|]. change (2 ^ 14) with 16384 in Hm.
    change (2 ^ 2) with 4. Z.to_euclidean_division_equations. lia.
  - intros Hlt Hf0 Hf1. unfold AppleAgxUatEncodeTtbrPair. cbn [is_null].
    unfold J313_AGX_G2_UAT_CONTEXT_COUNT. destruct (Z.leb_spec 64 c); [lia|].
    rewrite !Ht, (bool_decide_true (frame_ok (Ttbr0PhysicalAddress _))) by done.
    rewrite (bool_decide_true (_ = AppleAgxUatResultOk)) by done. cbn [negb].
    rewrite Ht, (bool_decide_true (frame_ok (Ttbr1PhysicalAddress _))) by done.
    rewrite (bool_decide_true (_ = AppleAgxUatResultOk)) by done. cbn [negb].
    eexists. split; [reflexivity|]. split; by apply read_ttbr_word.
  - intros Hn. unfold AppleAgxUatEncodeTtbrPair. cbn [is_null].
    unfold J313_AGX_G2_UAT_CONTEXT_COUNT. destruct (Z.leb_spec 64 c).
    { by exists AppleAgxUatResultUnsupportedContext. }
    rewrite !Ht by done. destruct (decide (frame_ok (Ttbr0PhysicalAddress roots))) as [Hf0|Hf0].
    + rewrite (bool_decide_true (frame_ok (Ttbr0PhysicalAddress _))) by done.
      rewrite (bool_decide_true (_ = AppleAgxUatResultOk)) by done. cbn [negb].
      rewrite Ht, (bool_decide_false (frame_ok (Ttbr1PhysicalAddress _))) by (done || tauto).
      destruct (bool_decide (_ mod 2 ^ 14 <> 0)); (eexists; by split; [|reflexivity]).
    + rewrite (bool_decide_false (frame_ok (Ttbr0PhysicalAddress _))) by done.
      destruct (bool_decide (_ mod 2 ^ 14 <> 0)); (eexists; by split; [|reflexivity]).
  - eexists. split; [reflexivity|done].
Qed.

Lemma uat_roots_functional_witness :
  exists pair, AppleAgxUatEncodeTtbrPair 5
    (Some {| Ttbr0PhysicalAddress := 0x8000; Ttbr1PhysicalAddress := 0xc000 |})
    (Some {| Ttbr0 := 0; Ttbr1 := 0 |}) = (AppleAgxUatResultOk, Some pair) /\
    read_ttbr (Ttbr1 pair) = (5, 0xc000, true).
Proof.
  destruct (uat_roots_functional 5 {| Ttbr0PhysicalAddress := 0x8000;
    Ttbr1PhysicalAddress := 0xc000 |} {| Ttbr0 := 0; Ttbr1 := 0 |} 0) as (_ & H & _);
    [done..|].
  destruct H as (pair & H & _ & R); [by apply (bool_decide_unpack _); vm_compute..|].
  by exists pair.
Defined.

End Uat.
