(* ===== verification/ErrorState.v ===== *)
(** * Computations that change a state and may fail

    The page-table code threads one inventory through functions that return early with
    an error code and leave behind what they did before failing.  [E St Err A] is that
    kind of computation: it returns a value or an error, and a state in both cases.
    [wp m Q X s] says that [m] run from [s] ends in [Q] with a value or in [X] with an
    error; the rules below are the ones the proofs use instead of unfolding. *)

From S2P Require Import Prelude.

Definition E (St Err A : Type) : Type := St -> (Err + A) * St.

#[export] Instance E_ret {St Err} : MRet (E St Err) := fun A a s => (inr a, s).
#[export] Instance E_bind {St Err} : MBind (E St Err) := fun A B f m s =>
  match m s with
  | (inl e, s) => (inl e, s)
  | (inr a, s) => f a s
  end.

Section operations.
Context {St Err : Type}.

Definition fail {A} (e : Err) : E St Err A := fun s => (inl e, s).
Definition gets {A} (f : St -> A) : E St Err A := fun s => (inr (f s), s).
Definition modify (f : St -> St) : E St Err unit := fun s => (inr tt, f s).

(** [if (result != Ok) { handler; return result; }]. *)
Definition on_error {A} (m : E St Err A) (handler : St -> St) : E St Err A := fun s =>
  match m s with
  | (inl e, s) => (inl e, handler s)
  | ok => ok
  end.

(** [for (i = lo; i < lo + n; ++i)] with a loop-carried value and early returns. *)
Fixpoint for_from {X} (f : Z -> X -> E St Err X) (i : Z) (fuel : nat) (x : X) : E St Err X :=
  match fuel with
  | O => mret x
  | S fuel => x ← f i x; for_from f (i + 1) fuel x
  end.

Definition for_m {X} (lo n : Z) (f : Z -> X -> E St Err X) (x : X) : E St Err X :=
  for_from f lo (Z.to_nat n) x.

(** ** The rules *)

Definition wp {A} (m : E St Err A) (Q : A -> St -> Prop) (X : Err -> St -> Prop) (s : St)
    : Prop :=
  match m s with
  | (inr a, s) => Q a s
  | (inl e, s) => X e s
  end.

Lemma ewp_mono {A} (m : E St Err A) (Q Q' : A -> St -> Prop) (X X' : Err -> St -> Prop) s :
  wp m Q X s -> (forall a s, Q a s -> Q' a s) -> (forall e s, X e s -> X' e s) -> wp m Q' X' s.
Proof. unfold wp. destruct (m s) as [[e|a] s']; auto. Qed.

Lemma ewp_post {A} (m : E St Err A) (Q Q' : A -> St -> Prop) X s :
  wp m Q X s -> (forall a s, Q a s -> Q' a s) -> wp m Q' X s.
Proof. intros Hm HQ. by eapply ewp_mono. Qed.

Lemma ewp_ret {A} (a : A) Q X s : Q a s -> wp (mret a) Q X s.
Proof. done. Qed.

Lemma ewp_fail {A} e (Q : A -> St -> Prop) X s : X e s -> wp (fail e) Q X s.
Proof. done. Qed.

Lemma ewp_gets {A} (f : St -> A) Q X s : Q (f s) s -> wp (gets f) Q X s.
Proof. done. Qed.

Lemma ewp_modify f (Q : unit -> St -> Prop) X s : Q tt (f s) -> wp (modify f) Q X s.
Proof. done. Qed.

Lemma ewp_bind {A B} (m : E St Err A) (f : A -> E St Err B) Q X s :
  wp m (fun a s => wp (f a) Q X s) X s -> wp (m ≫= f) Q X s.
Proof. unfold wp, mbind, E_bind. by destruct (m s) as [[e|a] s']. Qed.

Lemma ewp_on_error {A} (m : E St Err A) h Q X s :
  wp m Q (fun e s => X e (h s)) s -> wp (on_error m h) Q X s.
Proof. unfold wp, on_error. by destruct (m s) as [[e|a] s']. Qed.

(** The loop rule: [P k x s] holds before round [k]. *)
Lemma ewp_for {Y} lo n (f : Z -> Y -> E St Err Y) (P : Z -> Y -> St -> Prop) X x s :
  0 <= n -> P 0 x s ->
  (forall k x s, 0 <= k < n -> P k x s -> wp (f (lo + k) x) (P (k + 1)) X s) ->
  wp (for_m lo n f x) (P n) X s.
Proof.
  unfold for_m. intros Hn H0 Hstep.
  assert (forall m k x s, 0 <= k -> k + Z.of_nat m = n -> P k x s ->
    wp (for_from f (lo + k) m x) (P n) X s) as Hgen.
  { induction m as [|m IH]; intros k y t Hk Hm HP; simpl.
    - apply ewp_ret. by replace n with k by lia.
    - apply ewp_bind. eapply ewp_mono; [apply Hstep; [lia|done]| |done].
      cbn beta. intros z t' Ht. rewrite <- Z.add_assoc. apply IH; [lia|lia|done]. }
  specialize (Hgen (Z.to_nat n) 0 x s ltac:(lia) ltac:(lia) H0).
  by rewrite Z.add_0_r in Hgen.
Qed.
End operations.
