(* ===== verification/UatTable.v ===== *)
(** * UAT page tables (shared/src/apple_agx_uat_table.c)

    The GPU's three-level page tables as the driver keeps them: an inventory of table
    pages, the words in them, and the list of mappings.  Pages come from an allocator
    that is an argument of every entry point; its two callbacks are functions on the
    allocator's own state [World].  A pointer to a page is its index in the inventory,
    a pointer to a leaf is that index and the index of the word.  The theorems are in
    UatHeap.v and UatCalls.v. *)

From S2P Require Import Prelude Arrays Bytes Uat ErrorState.
Import Uat.

Module Table.

(** ** Data *)

Definition J313_AGX_G2_UAT_LEVEL0_SHIFT : Z := 36.
Definition J313_AGX_G2_UAT_LEVEL1_SHIFT : Z := 25.
Definition J313_AGX_G2_UAT_LEVEL2_SHIFT : Z := 14.
Definition APPLE_AGX_UAT_TABLE_PAGE_MASK : Z := J313_AGX_G2_PAGE_SIZE - 1.
Definition APPLE_AGX_UAT_TABLE_ADDRESS_MASK : Z := 0x000000ffffffc000.
Definition APPLE_AGX_UAT_TABLE_DESCRIPTOR_MASK : Z := 3.
Definition APPLE_AGX_UAT_TABLE_ENTRY_COUNT : Z := 2048.
Definition APPLE_AGX_UAT_PHYSICAL_STRIDE_SCATTER : Z := u64 (Z.lnot 0).

(** What an [Entries] pointer points to: its address and the words there. *)
Record TABLE := { tb_address : Z; tb_words : list Z }.

Record APPLE_AGX_UAT_PAGE := {
  pg_PhysicalAddress : Z;
  Entries : ptr TABLE;
  Level : Z;
}.
#[export] Instance page_eta : Eta APPLE_AGX_UAT_PAGE :=
  fun p => Build_APPLE_AGX_UAT_PAGE (pg_PhysicalAddress p) (Entries p) (Level p).
Definition page_zero : APPLE_AGX_UAT_PAGE :=
  {| pg_PhysicalAddress := 0; Entries := NULL; Level := 0 |}.
#[export] Instance page_inhabited : Inhabited APPLE_AGX_UAT_PAGE := populate page_zero.

Record APPLE_AGX_UAT_MAPPING := {
  mp_Context : Z;
  mp_VirtualAddress : Z;
  mp_PhysicalAddress : Z;
  mp_Length : Z;
  mp_Protection : Z;
  PhysicalStride : Z;
}.
#[export] Instance mapping_eta : Eta APPLE_AGX_UAT_MAPPING :=
  fun m => Build_APPLE_AGX_UAT_MAPPING (mp_Context m) (mp_VirtualAddress m)
    (mp_PhysicalAddress m) (mp_Length m) (mp_Protection m) (PhysicalStride m).
Definition mapping_zero : APPLE_AGX_UAT_MAPPING :=
  {| mp_Context := 0; mp_VirtualAddress := 0; mp_PhysicalAddress := 0; mp_Length := 0;
     mp_Protection := 0; PhysicalStride := 0 |}.
#[export] Instance mapping_inhabited : Inhabited APPLE_AGX_UAT_MAPPING :=
  populate mapping_zero.

Record APPLE_AGX_UAT_RANGE := {
  rg_VirtualAddress : Z;
  rg_PhysicalAddress : Z;
  rg_Length : Z;
  rg_Protection : Z;
}.
#[export] Instance range_inhabited : Inhabited APPLE_AGX_UAT_RANGE :=
  populate {| rg_VirtualAddress := 0; rg_PhysicalAddress := 0; rg_Length := 0;
              rg_Protection := 0 |}.

Record APPLE_AGX_UAT_INVENTORY := {
  Pages : ptr (list APPLE_AGX_UAT_PAGE);
  PageCapacity : Z;
  PageCount : Z;
  Mappings : ptr (list APPLE_AGX_UAT_MAPPING);
  MappingCapacity : Z;
  MappingCount : Z;
}.
#[export] Instance inventory_eta : Eta APPLE_AGX_UAT_INVENTORY :=
  fun v => Build_APPLE_AGX_UAT_INVENTORY (Pages v) (PageCapacity v) (PageCount v)
    (Mappings v) (MappingCapacity v) (MappingCount v).

(** [AllocatePage] returns its status and the page record it filled in; [ReleasePage]
    returns nothing. *)
Record APPLE_AGX_UAT_ALLOCATOR (World : Type) := {
  AllocatePage : ptr (World -> APPLE_AGX_UAT_PAGE -> bool * APPLE_AGX_UAT_PAGE * World);
  ReleasePage : ptr (World -> APPLE_AGX_UAT_PAGE -> World);
}.
Arguments AllocatePage {World}.
Arguments ReleasePage {World}.

(** ** Reading and writing the inventory *)

Definition words (p : APPLE_AGX_UAT_PAGE) : list Z :=
  deref t := Entries p else [] in tb_words t.
Definition pages (v : APPLE_AGX_UAT_INVENTORY) : list APPLE_AGX_UAT_PAGE :=
  default [] (Pages v).
Definition mappings (v : APPLE_AGX_UAT_INVENTORY) : list APPLE_AGX_UAT_MAPPING :=
  default [] (Mappings v).

Definition set_page (i : Z) (p : APPLE_AGX_UAT_PAGE) (v : APPLE_AGX_UAT_INVENTORY) :=
  v <| Pages := Some ((pages v) .[ i <- p ]) |>.
Definition set_mapping (i : Z) (m : APPLE_AGX_UAT_MAPPING) (v : APPLE_AGX_UAT_INVENTORY) :=
  v <| Mappings := Some ((mappings v) .[ i <- m ]) |>.

(** [page->Entries[index]] and [page->Entries[index] = value]. *)
Definition entry (v : APPLE_AGX_UAT_INVENTORY) (page index : Z) : Z :=
  (words (pages v) .[ page ]) .[ index ].
Definition set_word (index value : Z) (p : APPLE_AGX_UAT_PAGE) : APPLE_AGX_UAT_PAGE :=
  deref t := Entries p else p in
  p <| Entries := Some {| tb_address := tb_address t;
                          tb_words := (tb_words t) .[ index <- value ] |} |>.
Definition store (page index value : Z) (v : APPLE_AGX_UAT_INVENTORY)
    : APPLE_AGX_UAT_INVENTORY :=
  set_page page (set_word index value (pages v) .[ page ]) v.

(** A leaf pointer: page and index; [*leaf = value]. *)
Abbreviation leaf_ptr := (Z * Z)%type.
Definition load_leaf (v : APPLE_AGX_UAT_INVENTORY) (leaf : leaf_ptr) : Z :=
  entry v leaf.1 leaf.2.
Definition store_leaf (leaf : ptr leaf_ptr) (value : Z) (v : APPLE_AGX_UAT_INVENTORY)
    : APPLE_AGX_UAT_INVENTORY :=
  deref l := leaf else v in store l.1 l.2 value v.

Definition level0_index (VirtualAddress : Z) : Z :=
  Z.land (Z.shiftr VirtualAddress J313_AGX_G2_UAT_LEVEL0_SHIFT) 7.
Definition level1_index (VirtualAddress : Z) : Z :=
  Z.land (Z.shiftr VirtualAddress J313_AGX_G2_UAT_LEVEL1_SHIFT) 2047.
Definition level2_index (VirtualAddress : Z) : Z :=
  Z.land (Z.shiftr VirtualAddress J313_AGX_G2_UAT_LEVEL2_SHIFT) 2047.

(** Rounds of [for (offset = 0; offset < Length; offset += J313_AGX_G2_PAGE_SIZE)]. *)
Definition page_steps (Length : Z) : Z :=
  (Length + J313_AGX_G2_PAGE_SIZE - 1) / J313_AGX_G2_PAGE_SIZE.
Definition step_offset (k : Z) : Z := k * J313_AGX_G2_PAGE_SIZE.

Abbreviation is_ok r := (bool_decide (r = AppleAgxUatResultOk)).

Definition AppleAgxUatFindPage (Inventory : APPLE_AGX_UAT_INVENTORY)
    (PhysicalAddress Level_ : Z) : ptr Z :=
  find_range 0 (PageCount Inventory) (fun index =>
    (pg_PhysicalAddress (pages Inventory) .[ index ] =? PhysicalAddress) &&
    (Level (pages Inventory) .[ index ] =? Level_)).

Definition AppleAgxUatPageIsZero (Page : APPLE_AGX_UAT_PAGE) : bool :=
  is_null (find_range 0 APPLE_AGX_UAT_TABLE_ENTRY_COUNT (fun index =>
    negb ((words Page) .[ index ] =? 0))).

(** The root of the half an address is in. *)
Definition root_of (Roots : APPLE_AGX_UAT_ROOTS) (half : APPLE_AGX_UAT_HALF) : Z :=
  match half with
  | AppleAgxUatTtbr0 => Ttbr0PhysicalAddress Roots
  | AppleAgxUatTtbr1 => Ttbr1PhysicalAddress Roots
  end.

Definition AppleAgxUatFindExistingLeaf (Root VirtualAddress : Z)
    (Inventory : APPLE_AGX_UAT_INVENTORY) : APPLE_AGX_UAT_RESULT * ptr leaf_ptr :=
  let descriptor := entry Inventory Root (level0_index VirtualAddress) in
  deref level1 :=
    AppleAgxUatFindPage Inventory (Z.land descriptor APPLE_AGX_UAT_TABLE_ADDRESS_MASK) 1
    else (AppleAgxUatResultInvalidArgument, NULL) in
  let descriptor := entry Inventory level1 (level1_index VirtualAddress) in
  deref level2 :=
    AppleAgxUatFindPage Inventory (Z.land descriptor APPLE_AGX_UAT_TABLE_ADDRESS_MASK) 2
    else (AppleAgxUatResultInvalidArgument, NULL) in
  (AppleAgxUatResultOk, Some (level2, level2_index VirtualAddress)).

(** The leaf exists and holds a descriptor. *)
Definition leaf_present (Inventory : APPLE_AGX_UAT_INVENTORY) (Root VirtualAddress : Z) : bool :=
  match AppleAgxUatFindExistingLeaf Root VirtualAddress Inventory with
  | (AppleAgxUatResultOk, Some leaf) => negb (load_leaf Inventory leaf =? 0)
  | _ => false
  end.

Definition AppleAgxUatResolvePage (Context : Z) (Roots : ptr APPLE_AGX_UAT_ROOTS)
    (VirtualAddress : Z) (Inventory : ptr APPLE_AGX_UAT_INVENTORY)
    (PhysicalAddress Descriptor : ptr Z) : APPLE_AGX_UAT_RESULT * ptr Z * ptr Z :=
  let inputLimit := Z.shiftl 1 J313_AGX_G2_UAT_INPUT_ADDRESS_BITS in
  let highBase := u64 (Z.lnot (inputLimit - 1)) in
  let PhysicalAddress := if is_null PhysicalAddress then NULL else Some 0 in
  let Descriptor := if is_null Descriptor then NULL else Some 0 in
  deref roots := Roots else (AppleAgxUatResultInvalidArgument, PhysicalAddress, Descriptor) in
  deref inventory := Inventory
    else (AppleAgxUatResultInvalidArgument, PhysicalAddress, Descriptor) in
  if is_null PhysicalAddress || is_null Descriptor || (J313_AGX_G2_UAT_CONTEXT_COUNT <=? Context)
  then (AppleAgxUatResultInvalidArgument, PhysicalAddress, Descriptor)
  else if negb (Z.land VirtualAddress APPLE_AGX_UAT_TABLE_PAGE_MASK =? 0)
  then (AppleAgxUatResultMisaligned, PhysicalAddress, Descriptor)
  else if (inputLimit <=? VirtualAddress) && (VirtualAddress <? highBase)
  then (AppleAgxUatResultOutOfRange, PhysicalAddress, Descriptor)
  else
    deref root := AppleAgxUatFindPage inventory
        (if VirtualAddress <? inputLimit then Ttbr0PhysicalAddress roots
         else Ttbr1PhysicalAddress roots) 0
      else (AppleAgxUatResultNotMapped, PhysicalAddress, Descriptor) in
    let '(result, leaf) := AppleAgxUatFindExistingLeaf root VirtualAddress inventory in
    if negb (is_ok result) then (AppleAgxUatResultNotMapped, PhysicalAddress, Descriptor)
    else
      deref leaf := leaf else (AppleAgxUatResultNotMapped, PhysicalAddress, Descriptor) in
      let value := load_leaf inventory leaf in
      if negb (Z.land value APPLE_AGX_UAT_TABLE_DESCRIPTOR_MASK =?
               APPLE_AGX_UAT_TABLE_DESCRIPTOR_MASK) ||
         (Z.land value APPLE_AGX_UAT_TABLE_ADDRESS_MASK =? 0)
      then (AppleAgxUatResultNotMapped, PhysicalAddress, Descriptor)
      else (AppleAgxUatResultOk, Some (Z.land value APPLE_AGX_UAT_TABLE_ADDRESS_MASK),
            Some value).

Definition AppleAgxUatClearNewParents (FirstPage : Z) (Inventory : APPLE_AGX_UAT_INVENTORY)
    : APPLE_AGX_UAT_INVENTORY :=
  for_range 0 (PageCount Inventory) (fun page_index v =>
    let level := Level (pages v) .[ page_index ] in
    let entry_count := if level =? 0 then 8 else 2048 in
    if 2 <=? level then v
    else
      for_range 0 entry_count (fun entry_index v =>
        let target := Z.land (entry v page_index entry_index) APPLE_AGX_UAT_TABLE_ADDRESS_MASK in
        match find_range FirstPage (PageCount v - FirstPage) (fun child_index =>
                negb (target =? 0) && (target =? pg_PhysicalAddress (pages v) .[ child_index ])) with
        | Some _ => store page_index entry_index 0 v
        | None => v
        end) v) Inventory.

Definition AppleAgxUatClearParentReference (ChildLevel ChildPhysicalAddress : Z)
    (Inventory : APPLE_AGX_UAT_INVENTORY) : APPLE_AGX_UAT_INVENTORY :=
  let entry_count page_index :=
    if Level (pages Inventory) .[ page_index ] =? 0 then 8
    else APPLE_AGX_UAT_TABLE_ENTRY_COUNT in
  let reference page_index :=
    find_range 0 (entry_count page_index) (fun entry_index =>
      Z.land (entry Inventory page_index entry_index) APPLE_AGX_UAT_TABLE_ADDRESS_MASK =?
        ChildPhysicalAddress) in
  match find_range 0 (PageCount Inventory) (fun page_index =>
          (u32 (Level (pages Inventory) .[ page_index ] + 1) =? ChildLevel) &&
          negb (is_null (reference page_index))) with
  | Some page_index => store page_index (default 0 (reference page_index)) 0 Inventory
  | None => Inventory
  end.

(** ** Operations that call the allocator *)

Section table.
Context {World : Type}.
(** Built with APPLE_AGX_FULL_CONTEXT0_BROKER: context 0 belongs to the broker. *)
Context (full_context0_broker : bool).
Implicit Types (A : APPLE_AGX_UAT_ALLOCATOR World) (Allocator : ptr (APPLE_AGX_UAT_ALLOCATOR World))
  (Inventory : ptr APPLE_AGX_UAT_INVENTORY) (Roots : ptr APPLE_AGX_UAT_ROOTS).

Definition owner : Type := APPLE_AGX_UAT_INVENTORY * World.
Abbreviation U := (E owner APPLE_AGX_UAT_RESULT).

Definition on_inventory (f : APPLE_AGX_UAT_INVENTORY -> APPLE_AGX_UAT_INVENTORY) (s : owner)
    : owner := (f s.1, s.2).
Definition inventory : U APPLE_AGX_UAT_INVENTORY := gets fst.
(** [if (result != AppleAgxUatResultOk) return result]. *)
Definition check_result (result : APPLE_AGX_UAT_RESULT) : U unit :=
  if is_ok result then mret tt else fail result.

Definition allocate_page A (candidate : APPLE_AGX_UAT_PAGE) : U (bool * APPLE_AGX_UAT_PAGE) :=
  fun s =>
    deref f := AllocatePage A else (inr (false, candidate), s) in
    let '(status, page, w) := f s.2 candidate in (inr (status, page), (s.1, w)).
Definition release_page A (page : APPLE_AGX_UAT_PAGE) (s : owner) : owner :=
  deref f := ReleasePage A else s in (s.1, f s.2 page).

Definition AppleAgxUatCheckOwnerArguments Allocator Inventory : APPLE_AGX_UAT_RESULT :=
  deref a := Allocator else AppleAgxUatResultInvalidArgument in
  deref v := Inventory else AppleAgxUatResultInvalidArgument in
  if is_null (AllocatePage a) || is_null (ReleasePage a) || is_null (Pages v) ||
     is_null (Mappings v) || (PageCapacity v <? PageCount v) ||
     (MappingCapacity v <? MappingCount v)
  then AppleAgxUatResultInvalidArgument
  else AppleAgxUatResultOk.

Definition AppleAgxUatAllocateRecordedPage (Level_ : Z) A : U Z :=
  v ← inventory;
  if PageCapacity v <=? PageCount v then fail AppleAgxUatResultCapacity
  else
    '(status, candidate) ← allocate_page A
       {| pg_PhysicalAddress := 0; Entries := NULL; Level := Level_ |};
    if negb status then fail AppleAgxUatResultAllocationFailed
    else if (pg_PhysicalAddress candidate =? 0) || is_null (Entries candidate) ||
       negb (Z.land (pg_PhysicalAddress candidate) APPLE_AGX_UAT_TABLE_PAGE_MASK =? 0) ||
       negb (Z.land (from_option tb_address 0 (Entries candidate)) (8 - 1) =? 0) ||
       (Z.shiftl 1 J313_AGX_G2_UAT_OUTPUT_ADDRESS_BITS <=? pg_PhysicalAddress candidate) ||
       negb (AppleAgxUatPageIsZero candidate)
    then modify (release_page A candidate);; fail AppleAgxUatResultAllocationFailed
    else
      modify (on_inventory (fun v =>
        (set_page (PageCount v) (candidate <| Level := Level_ |>) v)
          <| PageCount := u32 (PageCount v + 1) |>));;
      mret (PageCount v).

Definition release_last A (s : owner) : owner :=
  let last := PageCount s.1 - 1 in
  let s := release_page A (pages s.1) .[ last ] s in
  on_inventory (fun v => (set_page last page_zero v) <| PageCount := last |>) s.

Definition AppleAgxUatReleaseFrom (FirstPage : Z) A (s : owner) : owner :=
  for_range 0 (PageCount s.1 - FirstPage) (fun _ s => release_last A s) s.

Definition AppleAgxUatGetChild (Parent EntryIndex ChildLevel : Z) A : U Z :=
  v ← inventory;
  let descriptor := entry v Parent EntryIndex in
  if negb (descriptor =? 0) then
    if negb (Z.land descriptor APPLE_AGX_UAT_TABLE_DESCRIPTOR_MASK =?
             APPLE_AGX_UAT_TABLE_DESCRIPTOR_MASK)
    then fail AppleAgxUatResultAlreadyMapped
    else
      deref child :=
        AppleAgxUatFindPage v (Z.land descriptor APPLE_AGX_UAT_TABLE_ADDRESS_MASK) ChildLevel
        else fail AppleAgxUatResultInvalidArgument in
      mret child
  else
    child ← AppleAgxUatAllocateRecordedPage ChildLevel A;
    v ← inventory;
    let '(result, descriptor) :=
      AppleAgxUatEncodeTableDescriptor (pg_PhysicalAddress (pages v) .[ child ]) (Some descriptor) in
    check_result result;;
    modify (on_inventory (store Parent EntryIndex (default 0 descriptor)));;
    mret child.

Definition AppleAgxUatFindLeaf (Root VirtualAddress : Z) A : U leaf_ptr :=
  level1 ← AppleAgxUatGetChild Root (level0_index VirtualAddress) 1 A;
  level2 ← AppleAgxUatGetChild level1 (level1_index VirtualAddress) 2 A;
  mret (level2, level2_index VirtualAddress).

Definition clear_existing_leaf (Root VirtualAddress : Z) (v : APPLE_AGX_UAT_INVENTORY)
    : APPLE_AGX_UAT_INVENTORY :=
  match AppleAgxUatFindExistingLeaf Root VirtualAddress v with
  | (AppleAgxUatResultOk, leaf) => store_leaf leaf 0 v
  | _ => v
  end.

Definition AppleAgxUatRollbackMap (Root VirtualAddress MappedLength FirstPage : Z) A (s : owner)
    : owner :=
  let s := on_inventory (fun v =>
    for_range 0 (page_steps MappedLength) (fun k v =>
      clear_existing_leaf Root (u64 (VirtualAddress + step_offset k)) v) v) s in
  AppleAgxUatReleaseFrom FirstPage A (on_inventory (AppleAgxUatClearNewParents FirstPage) s).

(** A public entry point's return: its result, the inventory and the allocator's state. *)
Definition finish (m : U unit) (s : owner)
    : APPLE_AGX_UAT_RESULT * ptr APPLE_AGX_UAT_INVENTORY * World :=
  match m s with
  | (inl result, s) => (result, Some s.1, s.2)
  | (inr _, s) => (AppleAgxUatResultOk, Some s.1, s.2)
  end.

Definition AppleAgxUatCreateAddressSpace (Context : Z) Allocator Inventory Roots (w : World)
    : APPLE_AGX_UAT_RESULT * ptr APPLE_AGX_UAT_INVENTORY * ptr APPLE_AGX_UAT_ROOTS * World :=
  deref roots := Roots else (AppleAgxUatResultInvalidArgument, Inventory, Roots, w) in
  deref v := Inventory else (AppleAgxUatResultInvalidArgument, Inventory, Roots, w) in
  let cleared := {| Ttbr0PhysicalAddress := 0; Ttbr1PhysicalAddress := 0 |} in
  if full_context0_broker && (Context =? 0)
  then (AppleAgxUatResultUnsupportedContext, Inventory, Some cleared, w)
  else if J313_AGX_G2_UAT_CONTEXT_COUNT <=? Context
  then (AppleAgxUatResultUnsupportedContext, Inventory, Some cleared, w)
  else
    let result := AppleAgxUatCheckOwnerArguments Allocator Inventory in
    if negb (is_ok result) then (result, Inventory, Some cleared, w)
    else
      deref A := Allocator else (AppleAgxUatResultInvalidArgument, Inventory, Some cleared, w) in
      let first_page := PageCount v in
      match AppleAgxUatAllocateRecordedPage 0 A (v, w) with
      | (inl result, s) => (result, Some s.1, Some cleared, s.2)
      | (inr root0, s) =>
          let ttbr0 := pg_PhysicalAddress (pages s.1) .[ root0 ] in
          match AppleAgxUatAllocateRecordedPage 0 A s with
          | (inl result, s) =>
              let s := AppleAgxUatReleaseFrom first_page A s in
              (result, Some s.1, Some cleared, s.2)
          | (inr root1, s) =>
              (AppleAgxUatResultOk, Some s.1,
               Some {| Ttbr0PhysicalAddress := ttbr0;
                       Ttbr1PhysicalAddress := pg_PhysicalAddress (pages s.1) .[ root1 ] |}, s.2)
          end
      end.

(** The search for an overlapping mapping of the same context. *)
Definition overlaps (Context VirtualAddress Length : Z) (mapping : APPLE_AGX_UAT_MAPPING) : bool :=
  let last := u64 (VirtualAddress + Length - 1) in
  let mapping_last := u64 (mp_VirtualAddress mapping + mp_Length mapping - 1) in
  (mp_Context mapping =? Context) && (VirtualAddress <=? mapping_last) &&
  (mp_VirtualAddress mapping <=? last).
Definition find_overlap (Context VirtualAddress Length : Z) (v : APPLE_AGX_UAT_INVENTORY) : ptr Z :=
  find_range 0 (MappingCount v) (fun mapping_index =>
    overlaps Context VirtualAddress Length (mappings v) .[ mapping_index ]).

Definition record_mapping (mapping : APPLE_AGX_UAT_MAPPING) (v : APPLE_AGX_UAT_INVENTORY)
    : APPLE_AGX_UAT_INVENTORY :=
  (set_mapping (MappingCount v) mapping v) <| MappingCount := u32 (MappingCount v + 1) |>.

(** One round of the mapping loop; every error in it rolls the whole call back. *)
Definition map_page (Context Root VirtualAddress first_page : Z) A
    (va pa Protection mapped_length : Z) : U Z :=
  on_error
    (leaf ← AppleAgxUatFindLeaf Root va A;
     v ← inventory;
     if negb (load_leaf v leaf =? 0) then fail AppleAgxUatResultAlreadyMapped
     else
       let '(result, descriptor) :=
         AppleAgxUatEncodePageDescriptor Context pa Protection (Some 0) in
       check_result result;;
       modify (on_inventory (store_leaf (Some leaf) (default 0 descriptor)));;
       mret (u64 (mapped_length + J313_AGX_G2_PAGE_SIZE)))
    (AppleAgxUatRollbackMap Root VirtualAddress mapped_length first_page A).

Definition map_body (Context : Z) (roots : APPLE_AGX_UAT_ROOTS)
    (VirtualAddress PhysicalAddress Length Protection : Z) Allocator : U unit :=
  v ← inventory;
  check_result (AppleAgxUatCheckOwnerArguments Allocator (Some v));;
  deref A := Allocator else fail AppleAgxUatResultInvalidArgument in
  let '(result, half) :=
    AppleAgxUatValidateRange Context VirtualAddress PhysicalAddress Length Protection
      (Some AppleAgxUatTtbr0) in
  check_result result;;
  if MappingCapacity v <=? MappingCount v then fail AppleAgxUatResultCapacity
  else if negb (is_null (find_overlap Context VirtualAddress Length v))
  then fail AppleAgxUatResultAlreadyMapped
  else
    deref root :=
      AppleAgxUatFindPage v (root_of roots (default AppleAgxUatTtbr0 half)) 0
      else fail AppleAgxUatResultInvalidArgument in
    let first_page := PageCount v in
    mapped_length ← for_m 0 (page_steps Length) (fun k mapped_length =>
      map_page Context root VirtualAddress first_page A
        (u64 (VirtualAddress + step_offset k)) (u64 (PhysicalAddress + step_offset k))
        Protection mapped_length) 0;
    modify (on_inventory (record_mapping {|
      mp_Context := Context; mp_VirtualAddress := VirtualAddress;
      mp_PhysicalAddress := PhysicalAddress; mp_Length := Length;
      mp_Protection := Protection; PhysicalStride := J313_AGX_G2_PAGE_SIZE |})).

Definition AppleAgxUatMap (Context : Z) Roots
    (VirtualAddress PhysicalAddress Length Protection : Z) Allocator Inventory (w : World)
    : APPLE_AGX_UAT_RESULT * ptr APPLE_AGX_UAT_INVENTORY * World :=
  if full_context0_broker && (Context =? 0)
  then (AppleAgxUatResultUnsupportedContext, Inventory, w)
  else
    deref roots := Roots else (AppleAgxUatResultInvalidArgument, Inventory, w) in
    deref v := Inventory else (AppleAgxUatResultInvalidArgument, Inventory, w) in
    finish (map_body Context roots VirtualAddress PhysicalAddress Length Protection Allocator)
      (v, w).

Definition map_page_list_body (Context : Z) (roots : APPLE_AGX_UAT_ROOTS) (VirtualAddress : Z)
    (PhysicalPages : list Z) (PageCount_ Protection : Z) Allocator : U unit :=
  let length := u64 (PageCount_ * J313_AGX_G2_PAGE_SIZE) in
  v ← inventory;
  check_result (AppleAgxUatCheckOwnerArguments Allocator (Some v));;
  deref A := Allocator else fail AppleAgxUatResultInvalidArgument in
  let '(result, half) :=
    AppleAgxUatValidateRange Context VirtualAddress PhysicalPages .[ 0 ] length Protection
      (Some AppleAgxUatTtbr0) in
  check_result result;;
  half ← for_m 0 PageCount_ (fun index half =>
    let '(result, half) :=
      AppleAgxUatValidateRange Context (u64 (VirtualAddress + step_offset index))
        PhysicalPages .[ index ] J313_AGX_G2_PAGE_SIZE Protection half in
    check_result result;; mret half) half;
  if MappingCapacity v <=? MappingCount v then fail AppleAgxUatResultCapacity
  else if negb (is_null (find_overlap Context VirtualAddress length v))
  then fail AppleAgxUatResultAlreadyMapped
  else
    deref root :=
      AppleAgxUatFindPage v (root_of roots (default AppleAgxUatTtbr0 half)) 0
      else fail AppleAgxUatResultInvalidArgument in
    let first_page := PageCount v in
    mapped_length ← for_m 0 PageCount_ (fun index mapped_length =>
      map_page Context root VirtualAddress first_page A
        (u64 (VirtualAddress + step_offset index)) PhysicalPages .[ index ]
        Protection mapped_length) 0;
    modify (on_inventory (record_mapping {|
      mp_Context := Context; mp_VirtualAddress := VirtualAddress;
      mp_PhysicalAddress := PhysicalPages .[ 0 ]; mp_Length := length;
      mp_Protection := Protection;
      PhysicalStride := APPLE_AGX_UAT_PHYSICAL_STRIDE_SCATTER |})).

Definition AppleAgxUatMapPageList (Context : Z) Roots (VirtualAddress : Z)
    (PhysicalPages : ptr (list Z)) (PageCount_ Protection : Z) Allocator Inventory (w : World)
    : APPLE_AGX_UAT_RESULT * ptr APPLE_AGX_UAT_INVENTORY * World :=
  if full_context0_broker && (Context =? 0)
  then (AppleAgxUatResultUnsupportedContext, Inventory, w)
  else
    deref roots := Roots else (AppleAgxUatResultInvalidArgument, Inventory, w) in
    deref v := Inventory else (AppleAgxUatResultInvalidArgument, Inventory, w) in
    deref physical_pages := PhysicalPages else (AppleAgxUatResultInvalidArgument, Inventory, w) in
    if PageCount_ =? 0 then (AppleAgxUatResultInvalidArgument, Inventory, w)
    else
      finish (map_page_list_body Context roots VirtualAddress physical_pages PageCount_
                Protection Allocator) (v, w).

Definition AppleAgxUatReleaseInventoryPage (PageIndex : Z) A (s : owner) : owner :=
  let released := (pages s.1) .[ PageIndex ] in
  let last_index := u32 (PageCount s.1 - 1) in
  let s := release_page A released s in
  on_inventory (fun v =>
    let v := if negb (PageIndex =? last_index)
             then set_page PageIndex (pages v) .[ last_index ] v else v in
    (set_page last_index page_zero v) <| PageCount := u32 (PageCount v - 1) |>) s.

(** One round of the do-while: the first empty table of a level goes. *)
Definition find_empty (level : Z) (v : APPLE_AGX_UAT_INVENTORY) : ptr Z :=
  find_range 0 (PageCount v) (fun page_index =>
    (Level (pages v) .[ page_index ] =? level) && AppleAgxUatPageIsZero (pages v) .[ page_index ]).
Definition prune_page (level page_index : Z) A (s : owner) : owner :=
  let physical_address := pg_PhysicalAddress (pages s.1) .[ page_index ] in
  AppleAgxUatReleaseInventoryPage page_index A
    (on_inventory (AppleAgxUatClearParentReference level physical_address) s).

(** Each round but the last releases a page. *)
Fixpoint prune_rounds (fuel : nat) (level : Z) A (s : owner) : owner :=
  match fuel with
  | O => s
  | S fuel =>
      match find_empty level s.1 with
      | Some page_index => prune_rounds fuel level A (prune_page level page_index A s)
      | None => s
      end
  end.
Definition prune_level (level : Z) A (s : owner) : owner :=
  prune_rounds (S (Z.to_nat (PageCount s.1))) level A s.
Definition AppleAgxUatPruneEmptyTables A (s : owner) : owner :=
  prune_level 1 A (prune_level 2 A s).

(** Every leaf of the range is mapped. *)
Definition range_present (Root VirtualAddress Length : Z) (v : APPLE_AGX_UAT_INVENTORY) : bool :=
  is_null (find_range 0 (page_steps Length) (fun k =>
    negb (leaf_present v Root (u64 (VirtualAddress + step_offset k))))).

Definition remove_mapping (mapping_index : Z) (v : APPLE_AGX_UAT_INVENTORY)
    : APPLE_AGX_UAT_INVENTORY :=
  let v := v <| Mappings := Some (shift_down_loop mapping_index
                                    (MappingCount v - 1 - mapping_index) (mappings v)) |> in
  let v := v <| MappingCount := u32 (MappingCount v - 1) |> in
  set_mapping (MappingCount v) mapping_zero v.

Definition unmap_body (Context : Z) (roots : APPLE_AGX_UAT_ROOTS) (VirtualAddress Length : Z)
    Allocator : U unit :=
  v ← inventory;
  check_result (AppleAgxUatCheckOwnerArguments Allocator (Some v));;
  deref A := Allocator else fail AppleAgxUatResultInvalidArgument in
  deref mapping_index :=
    find_range 0 (MappingCount v) (fun mapping_index =>
      let candidate := (mappings v) .[ mapping_index ] in
      (mp_Context candidate =? Context) && (mp_VirtualAddress candidate =? VirtualAddress) &&
      (mp_Length candidate =? Length))
    else fail AppleAgxUatResultNotMapped in
  let mapping := (mappings v) .[ mapping_index ] in
  let '(result, half) :=
    AppleAgxUatValidateRange Context VirtualAddress (mp_PhysicalAddress mapping) Length
      (mp_Protection mapping) (Some AppleAgxUatTtbr0) in
  check_result result;;
  deref root :=
    AppleAgxUatFindPage v (root_of roots (default AppleAgxUatTtbr0 half)) 0
    else fail AppleAgxUatResultInvalidArgument in
  if negb (range_present root VirtualAddress Length v) then fail AppleAgxUatResultNotMapped
  else
    modify (on_inventory (fun v =>
      for_range 0 (page_steps Length) (fun k v =>
        store_leaf (AppleAgxUatFindExistingLeaf root (u64 (VirtualAddress + step_offset k)) v).2
          0 v) v));;
    modify (on_inventory (remove_mapping mapping_index));;
    modify (AppleAgxUatPruneEmptyTables A).

Definition AppleAgxUatUnmap (Context : Z) Roots (VirtualAddress Length : Z) Allocator Inventory
    (w : World) : APPLE_AGX_UAT_RESULT * ptr APPLE_AGX_UAT_INVENTORY * World :=
  if full_context0_broker && (Context =? 0)
  then (AppleAgxUatResultUnsupportedContext, Inventory, w)
  else
    deref roots := Roots else (AppleAgxUatResultInvalidArgument, Inventory, w) in
    deref v := Inventory else (AppleAgxUatResultInvalidArgument, Inventory, w) in
    finish (unmap_body Context roots VirtualAddress Length Allocator) (v, w).

(** The search for the mapping record of a range. *)
Definition is_mapping_of (Context : Z) (Range : APPLE_AGX_UAT_RANGE)
    (mapping : APPLE_AGX_UAT_MAPPING) : bool :=
  (mp_Context mapping =? Context) &&
  (mp_VirtualAddress mapping =? rg_VirtualAddress Range) &&
  (mp_PhysicalAddress mapping =? rg_PhysicalAddress Range) &&
  (mp_Length mapping =? rg_Length Range) &&
  (mp_Protection mapping =? rg_Protection Range).
Definition find_mapping (Context : Z) (Range : APPLE_AGX_UAT_RANGE)
    (v : APPLE_AGX_UAT_INVENTORY) : ptr Z :=
  find_range 0 (MappingCount v) (fun mapping_index =>
    is_mapping_of Context Range (mappings v) .[ mapping_index ]).

Definition AppleAgxUatValidateExactMapping (Context : Z) (roots : APPLE_AGX_UAT_ROOTS)
    (Range : APPLE_AGX_UAT_RANGE) (v : APPLE_AGX_UAT_INVENTORY) : APPLE_AGX_UAT_RESULT :=
  let '(result, half) :=
    AppleAgxUatValidateRange Context (rg_VirtualAddress Range) (rg_PhysicalAddress Range)
      (rg_Length Range) (rg_Protection Range) (Some AppleAgxUatTtbr0) in
  if negb (is_ok result) then result
  else if is_null (find_mapping Context Range v) then AppleAgxUatResultNotMapped
  else
    deref root :=
      AppleAgxUatFindPage v (root_of roots (default AppleAgxUatTtbr0 half)) 0
      else AppleAgxUatResultInvalidArgument in
    if negb (range_present root (rg_VirtualAddress Range) (rg_Length Range) v)
    then AppleAgxUatResultNotMapped
    else AppleAgxUatResultOk.

(** A call of an entry point inside another one. *)
Definition call (f : ptr APPLE_AGX_UAT_INVENTORY -> World ->
    APPLE_AGX_UAT_RESULT * ptr APPLE_AGX_UAT_INVENTORY * World) : U unit := fun s =>
  let '(result, v, w) := f (Some s.1) s.2 in
  let s := (default s.1 v, w) in
  if is_ok result then (inr tt, s) else (inl result, s).

(** [while (range_index > 0u) { --range_index; (void)AppleAgxUatUnmap(...); }]. *)
Definition unmap_ranges (Context : Z) (roots : APPLE_AGX_UAT_ROOTS)
    (Ranges : list APPLE_AGX_UAT_RANGE) (range_index : Z) Allocator (s : owner) : owner :=
  for_range 0 range_index (fun k s =>
    let range := Ranges .[ range_index - 1 - k ] in
    (call (AppleAgxUatUnmap Context (Some roots) (rg_VirtualAddress range) (rg_Length range)
             Allocator) s).2) s.

Definition map_batch_body (Context : Z) (roots : APPLE_AGX_UAT_ROOTS)
    (Ranges : list APPLE_AGX_UAT_RANGE) (RangeCount : Z) Allocator : U unit :=
  v ← inventory;
  check_result (AppleAgxUatCheckOwnerArguments Allocator (Some v));;
  if u32 (MappingCapacity v - MappingCount v) <? RangeCount then fail AppleAgxUatResultCapacity
  else
    for_m 0 RangeCount (fun range_index _ =>
      let range := Ranges .[ range_index ] in
      on_error
        (call (AppleAgxUatMap Context (Some roots) (rg_VirtualAddress range)
           (rg_PhysicalAddress range) (rg_Length range) (rg_Protection range) Allocator))
        (unmap_ranges Context roots Ranges range_index Allocator)) tt.

Definition AppleAgxUatMapBatch (Context : Z) Roots (Ranges : ptr (list APPLE_AGX_UAT_RANGE))
    (RangeCount : Z) Allocator Inventory (w : World)
    : APPLE_AGX_UAT_RESULT * ptr APPLE_AGX_UAT_INVENTORY * World :=
  if full_context0_broker && (Context =? 0)
  then (AppleAgxUatResultUnsupportedContext, Inventory, w)
  else
    deref roots := Roots else (AppleAgxUatResultInvalidArgument, Inventory, w) in
    deref ranges := Ranges else (AppleAgxUatResultInvalidArgument, Inventory, w) in
    deref v := Inventory else (AppleAgxUatResultInvalidArgument, Inventory, w) in
    if RangeCount =? 0 then (AppleAgxUatResultInvalidArgument, Inventory, w)
    else finish (map_batch_body Context roots ranges RangeCount Allocator) (v, w).

Definition unmap_batch_body (Context : Z) (roots : APPLE_AGX_UAT_ROOTS)
    (Ranges : list APPLE_AGX_UAT_RANGE) (RangeCount : Z) Allocator : U unit :=
  v ← inventory;
  check_result (AppleAgxUatCheckOwnerArguments Allocator (Some v));;
  _ ← for_m 0 RangeCount (fun range_index _ =>
    v ← inventory;
    check_result (AppleAgxUatValidateExactMapping Context roots Ranges .[ range_index ] v)) tt;
  for_m 0 RangeCount (fun range_index _ =>
    let range := Ranges .[ range_index ] in
    call (AppleAgxUatUnmap Context (Some roots) (rg_VirtualAddress range) (rg_Length range)
            Allocator)) tt.

Definition AppleAgxUatUnmapBatch (Context : Z) Roots (Ranges : ptr (list APPLE_AGX_UAT_RANGE))
    (RangeCount : Z) Allocator Inventory (w : World)
    : APPLE_AGX_UAT_RESULT * ptr APPLE_AGX_UAT_INVENTORY * World :=
  if full_context0_broker && (Context =? 0)
  then (AppleAgxUatResultUnsupportedContext, Inventory, w)
  else
    deref roots := Roots else (AppleAgxUatResultInvalidArgument, Inventory, w) in
    deref ranges := Ranges else (AppleAgxUatResultInvalidArgument, Inventory, w) in
    deref v := Inventory else (AppleAgxUatResultInvalidArgument, Inventory, w) in
    if RangeCount =? 0 then (AppleAgxUatResultInvalidArgument, Inventory, w)
    else finish (unmap_batch_body Context roots ranges RangeCount Allocator) (v, w).

(** An earlier range of the batch with the same address and length. *)
Definition repeated_range (Ranges : list APPLE_AGX_UAT_RANGE) (range_index : Z) : bool :=
  negb (is_null (find_range 0 range_index (fun earlier =>
    (rg_VirtualAddress Ranges .[ earlier ] =? rg_VirtualAddress Ranges .[ range_index ]) &&
    (rg_Length Ranges .[ earlier ] =? rg_Length Ranges .[ range_index ])))).

(** Rewriting the leaves of a range, and then its record. *)
Definition replace_leaf (Context Root va pa Protection : Z) (v : APPLE_AGX_UAT_INVENTORY)
    : APPLE_AGX_UAT_INVENTORY :=
  let leaf := (AppleAgxUatFindExistingLeaf Root va v).2 in
  let descriptor := (AppleAgxUatEncodePageDescriptor Context pa Protection (Some 0)).2 in
  store_leaf leaf (default 0 descriptor) v.
Definition replace_record (mapping_index PhysicalAddress Protection Stride : Z)
    (v : APPLE_AGX_UAT_INVENTORY) : APPLE_AGX_UAT_INVENTORY :=
  set_mapping mapping_index
    ((mappings v) .[ mapping_index ] <| mp_PhysicalAddress := PhysicalAddress |>
       <| mp_Protection := Protection |> <| PhysicalStride := Stride |>) v.

(** The second pass of both replacements for one range; page [k] of the range gets the
    frame [pa k]. *)
Definition replace_range (Context : Z) (roots : APPLE_AGX_UAT_ROOTS)
    (Old New : APPLE_AGX_UAT_RANGE) (pa : Z -> Z) (Stride : Z) : U unit :=
  v ← inventory;
  let half := (AppleAgxUatValidateRange Context (rg_VirtualAddress New) (rg_PhysicalAddress New)
                 (rg_Length New) (rg_Protection New) (Some AppleAgxUatTtbr0)).2 in
  let root := AppleAgxUatFindPage v (root_of roots (default AppleAgxUatTtbr0 half)) 0 in
  deref mapping_index := find_mapping Context Old v else fail AppleAgxUatResultNotMapped in
  modify (on_inventory (fun v =>
    for_range 0 (page_steps (rg_Length New)) (fun k v =>
      replace_leaf Context (default 0 root) (u64 (rg_VirtualAddress New + step_offset k)) (pa k)
        (rg_Protection New) v) v));;
  modify (on_inventory
    (replace_record mapping_index (rg_PhysicalAddress New) (rg_Protection New) Stride)).

Definition replace_batch_with_page_body (Context : Z) (roots : APPLE_AGX_UAT_ROOTS)
    (Ranges : list APPLE_AGX_UAT_RANGE) (RangeCount ReplacementPhysicalAddress
    ReplacementProtection : Z) Allocator : U unit :=
  v ← inventory;
  check_result (AppleAgxUatCheckOwnerArguments Allocator (Some v));;
  if negb (Z.land ReplacementPhysicalAddress (J313_AGX_G2_PAGE_SIZE - 1) =? 0)
  then fail AppleAgxUatResultMisaligned
  else
    let replacement range :=
      {| rg_VirtualAddress := rg_VirtualAddress range;
         rg_PhysicalAddress := ReplacementPhysicalAddress;
         rg_Length := rg_Length range; rg_Protection := ReplacementProtection |} in
    _ ← for_m 0 RangeCount (fun range_index _ =>
      let range := Ranges .[ range_index ] in
      check_result (AppleAgxUatValidateExactMapping Context roots range v);;
      check_result (AppleAgxUatValidateRange Context (rg_VirtualAddress range)
        ReplacementPhysicalAddress (rg_Length range) ReplacementProtection
        (Some AppleAgxUatTtbr0)).1;;
      if repeated_range Ranges range_index then fail AppleAgxUatResultInvalidArgument
      else mret tt) tt;
    for_m 0 RangeCount (fun range_index _ =>
      let range := Ranges .[ range_index ] in
      replace_range Context roots range (replacement range)
        (fun _ => ReplacementPhysicalAddress) 0) tt.

Definition AppleAgxUatReplaceBatchWithPage (Context : Z) Roots
    (Ranges : ptr (list APPLE_AGX_UAT_RANGE)) (RangeCount ReplacementPhysicalAddress
    ReplacementProtection : Z) Allocator Inventory (w : World)
    : APPLE_AGX_UAT_RESULT * ptr APPLE_AGX_UAT_INVENTORY * World :=
  if full_context0_broker && (Context =? 0)
  then (AppleAgxUatResultUnsupportedContext, Inventory, w)
  else
    deref roots := Roots else (AppleAgxUatResultInvalidArgument, Inventory, w) in
    deref ranges := Ranges else (AppleAgxUatResultInvalidArgument, Inventory, w) in
    deref v := Inventory else (AppleAgxUatResultInvalidArgument, Inventory, w) in
    if RangeCount =? 0 then (AppleAgxUatResultInvalidArgument, Inventory, w)
    else finish (replace_batch_with_page_body Context roots ranges RangeCount
                   ReplacementPhysicalAddress ReplacementProtection Allocator) (v, w).

Definition replace_batch_body (Context : Z) (roots : APPLE_AGX_UAT_ROOTS)
    (OldRanges NewRanges : list APPLE_AGX_UAT_RANGE) (RangeCount : Z) Allocator : U unit :=
  v ← inventory;
  check_result (AppleAgxUatCheckOwnerArguments Allocator (Some v));;
  _ ← for_m 0 RangeCount (fun range_index _ =>
    let old := OldRanges .[ range_index ] in
    let new := NewRanges .[ range_index ] in
    if negb (rg_VirtualAddress old =? rg_VirtualAddress new) ||
       negb (rg_Length old =? rg_Length new)
    then fail AppleAgxUatResultInvalidArgument
    else
      check_result (AppleAgxUatValidateExactMapping Context roots old v);;
      check_result (AppleAgxUatValidateRange Context (rg_VirtualAddress new)
        (rg_PhysicalAddress new) (rg_Length new) (rg_Protection new)
        (Some AppleAgxUatTtbr0)).1;;
      if repeated_range OldRanges range_index then fail AppleAgxUatResultInvalidArgument
      else mret tt) tt;
  for_m 0 RangeCount (fun range_index _ =>
    let new := NewRanges .[ range_index ] in
    replace_range Context roots OldRanges .[ range_index ] new
      (fun k => u64 (rg_PhysicalAddress new + step_offset k)) J313_AGX_G2_PAGE_SIZE) tt.

Definition AppleAgxUatReplaceBatch (Context : Z) Roots
    (OldRanges NewRanges : ptr (list APPLE_AGX_UAT_RANGE)) (RangeCount : Z) Allocator Inventory
    (w : World) : APPLE_AGX_UAT_RESULT * ptr APPLE_AGX_UAT_INVENTORY * World :=
  if full_context0_broker && (Context =? 0)
  then (AppleAgxUatResultUnsupportedContext, Inventory, w)
  else
    deref roots := Roots else (AppleAgxUatResultInvalidArgument, Inventory, w) in
    deref olds := OldRanges else (AppleAgxUatResultInvalidArgument, Inventory, w) in
    deref news := NewRanges else (AppleAgxUatResultInvalidArgument, Inventory, w) in
    deref v := Inventory else (AppleAgxUatResultInvalidArgument, Inventory, w) in
    if RangeCount =? 0 then (AppleAgxUatResultInvalidArgument, Inventory, w)
    else finish (replace_batch_body Context roots olds news RangeCount Allocator) (v, w).

Definition forget_last_mapping (v : APPLE_AGX_UAT_INVENTORY) : APPLE_AGX_UAT_INVENTORY :=
  (set_mapping (MappingCount v - 1) mapping_zero v) <| MappingCount := MappingCount v - 1 |>.

Definition AppleAgxUatDestroy Allocator Inventory (w : World)
    : ptr APPLE_AGX_UAT_INVENTORY * World :=
  deref A := Allocator else (Inventory, w) in
  deref v := Inventory else (Inventory, w) in
  if is_null (ReleasePage A) then (Inventory, w)
  else
    let s := AppleAgxUatReleaseFrom 0 A (v, w) in
    (Some (for_range 0 (MappingCount s.1) (fun _ => forget_last_mapping) s.1), s.2).
End table.

End Table.
