(* ===== verification/UatHeap.v ===== *)
(** * Page tables as a store of words

    What the inventory of UatTable.v means.  [word ps l pa i] is word [i] of the table
    of level [l] at address [pa], 0 when there is none; [view w root n] is the leaf the
    three-level walk from [root] finds for virtual page [n] (25 bits: 3, 11 and 11).
    [wf] says the tables form a forest: addresses differ, every entry of the first two
    levels is empty or points to a table of the next level, and no table has two
    parents.  The lemmas say what each elementary write does to the words, to the view
    and to [wf]; UatCalls.v uses only these. *)

From S2P Require Import Prelude Arrays Bytes Uat UatTable.
Import Uat Table.

Module Heap.

Implicit Types (p q : APPLE_AGX_UAT_PAGE) (ps qs : list APPLE_AGX_UAT_PAGE)
  (v : APPLE_AGX_UAT_INVENTORY) (l pa i n r c : Z).

Abbreviation addr := pg_PhysicalAddress.

(** ** Words *)

Fixpoint word ps l pa i : Z :=
  match ps with
  | [] => 0
  | p :: ps => if decide (Level p = l /\ addr p = pa) then (words p) .[ i ] else word ps l pa i
  end.

Definition has ps l pa : Prop := exists p, p ∈ ps /\ Level p = l /\ addr p = pa.

#[export] Instance has_dec ps l pa : Decision (has ps l pa).
Proof.
  refine (cast_if (decide (Exists (fun p => Level p = l /\ addr p = pa) ps)));
    unfold has; rewrite Exists_exists in *; naive_solver.
Defined.

Definition page_ok p : Prop :=
  frame_ok (addr p) /\ addr p <> 0 /\ 0 <= Level p <= 2 /\
  exists t, Entries p = Some t /\ zlen (tb_words t) = 2048.

Definition addresses ps : list Z := addr <$> ps.

Lemma word_in ps p i :
  NoDup (addresses ps) -> p ∈ ps -> word ps (Level p) (addr p) i = (words p) .[ i ].
Proof.
  unfold addresses. induction ps as [|q ps IH]; intros Hd Hp; [by apply not_elem_of_nil in Hp|].
  apply NoDup_cons in Hd as [Hq Hd]. simpl. case_decide as Hc.
  - apply elem_of_cons in Hp as [->|Hp]; [done|].
    destruct Hq. destruct Hc as [_ ->]. by apply list_elem_of_fmap_2.
  - apply IH; [done|]. apply elem_of_cons in Hp as [->|Hp]; [tauto|done].
Qed.

Lemma word_out ps l pa i : ~ has ps l pa -> word ps l pa i = 0.
Proof.
  induction ps as [|q ps IH]; intros Hn; [done|]. simpl. case_decide as Hc.
  - destruct Hn. exists q. split; [by left|done].
  - apply IH. intros (p & ? & ?). apply Hn. exists p. split; [by right|done].
Qed.

Lemma word_has ps l pa i : word ps l pa i <> 0 -> has ps l pa.
Proof. intros Hw. destruct (decide (has ps l pa)); [done|]. by rewrite word_out in Hw. Qed.

Lemma addresses_in ps p : p ∈ ps -> addr p ∈ addresses ps.
Proof. apply list_elem_of_fmap_2. Qed.

Lemma has_address ps l pa : has ps l pa -> pa ∈ addresses ps.
Proof. intros (p & Hp & _ & <-). by apply addresses_in. Qed.

Lemma has_get ps l pa :
  has ps l pa <-> exists j, 0 <= j < zlen ps /\ Level ps .[ j ] = l /\ addr ps .[ j ] = pa.
Proof.
  unfold has. setoid_rewrite list_elem_of_lookup. split.
  - intros (p & (j & Hj) & Hp). exists (Z.of_nat j). unfold arr_get, zlen. rewrite Nat2Z.id.
    rewrite (list_lookup_total_correct _ _ _ Hj). apply lookup_lt_Some in Hj. split; [lia|done].
  - intros (j & Hj & Hp). exists (ps .[ j ]). split; [|done]. exists (Z.to_nat j).
    unfold arr_get. apply list_lookup_lookup_total_lt. unfold zlen in Hj. lia.
Qed.

Lemma get_elem ps j : 0 <= j < zlen ps -> ps .[ j ] ∈ ps.
Proof.
  intros Hj. apply list_elem_of_lookup. exists (Z.to_nat j). unfold arr_get.
  apply list_lookup_lookup_total_lt. unfold zlen in Hj. lia.
Qed.

Lemma has_index ps j : 0 <= j < zlen ps -> has ps (Level ps .[ j ]) (addr ps .[ j ]).
Proof. intros Hj. exists (ps .[ j ]). split; [by apply get_elem|done]. Qed.

Lemma address_index ps j k :
  NoDup (addresses ps) -> 0 <= j < zlen ps -> 0 <= k < zlen ps ->
  addr ps .[ j ] = addr ps .[ k ] -> j = k.
Proof.
  unfold addresses, arr_get, zlen. intros Hd Hj Hk He.
  assert (Z.to_nat j = Z.to_nat k); [|lia].
  apply (NoDup_lookup (addr <$> ps) _ _ (addr (ps !!! Z.to_nat j)) Hd);
    rewrite list_lookup_fmap, list_lookup_lookup_total_lt by lia; [done|].
  simpl. by rewrite He.
Qed.

Lemma address_level ps l l' pa :
  NoDup (addresses ps) -> has ps l pa -> has ps l' pa -> l = l'.
Proof.
  rewrite !has_get. intros Hd (j & Hj & <- & <-) (k & Hk & <- & He).
  by rewrite (address_index ps k j) by done.
Qed.

(** *** A write *)

Lemma set_word_fields i x p : Level (set_word i x p) = Level p /\ addr (set_word i x p) = addr p.
Proof. unfold set_word. by destruct (Entries p). Qed.

Lemma addresses_set ps j p :
  0 <= j < zlen ps -> addr p = addr ps .[ j ] -> addresses (ps .[ j <- p ]) = addresses ps.
Proof.
  unfold addresses, arr_set, arr_get, zlen. intros Hj Hp. rewrite list_fmap_insert, Hp.
  apply list_insert_id. rewrite list_lookup_fmap, list_lookup_lookup_total_lt by lia. done.
Qed.

Lemma get_set_index ps j k p :
  0 <= j < zlen ps -> 0 <= k -> (ps .[ j <- p ]) .[ k ] = if decide (k = j) then p else ps .[ k ].
Proof. intros. rewrite get_set by lia. do 2 case_decide; done || lia. Qed.

Lemma words_set_word i x p k :
  (exists t, Entries p = Some t /\ zlen (tb_words t) = 2048) -> 0 <= i < 2048 -> 0 <= k ->
  (words (set_word i x p)) .[ k ] = if decide (k = i) then x else (words p) .[ k ].
Proof.
  intros (t & Ht & Hl) Hi Hk. unfold set_word, words. rewrite Ht. cbn.
  rewrite get_set by lia. do 2 case_decide; done || lia.
Qed.

Lemma has_set_word ps j i x l pa :
  0 <= j < zlen ps -> has (ps .[ j <- set_word i x ps .[ j ] ]) l pa <-> has ps l pa.
Proof.
  intros Hj. rewrite !has_get, zlen_set.
  destruct (set_word_fields i x (ps .[ j ])) as [Hl Ha].
  split; intros (k & Hk & Hp); exists k; (split; [done|]);
    rewrite ?get_set_index in * by lia; case_decide; subst; rewrite ?Hl, ?Ha in *; done.
Qed.

Lemma word_set_word ps j i x l pa k :
  NoDup (addresses ps) -> 0 <= j < zlen ps -> page_ok (ps .[ j ]) -> 0 <= i < 2048 -> 0 <= k ->
  word (ps .[ j <- set_word i x ps .[ j ] ]) l pa k =
    if decide (l = Level ps .[ j ] /\ pa = addr ps .[ j ] /\ k = i) then x else word ps l pa k.
Proof.
  intros Hd Hj (_ & _ & _ & Ht) Hi Hk.
  destruct (set_word_fields i x (ps .[ j ])) as [Hl Ha].
  set (qs := ps .[ j <- _ ]). assert (NoDup (addresses qs)) as Hd'.
  { unfold qs. by rewrite addresses_set. }
  destruct (decide (has ps l pa)) as [Hh|Hh].
  2: { rewrite !word_out; [|done|by unfold qs; rewrite has_set_word].
       rewrite decide_False; [done|]. intros (-> & -> & _). apply Hh. by apply has_index. }
  apply has_get in Hh as (m & Hm & <- & <-).
  rewrite (word_in ps (ps .[ m ])) by (try apply get_elem; done).
  assert (word qs (Level ps .[ m ]) (addr ps .[ m ]) k = (words qs .[ m ]) .[ k ]) as ->.
  { rewrite <- (word_in qs _ k Hd' (get_elem qs m ltac:(unfold qs; rewrite zlen_set; lia))).
    f_equal; unfold qs; rewrite get_set_index by lia; case_decide; subst; done. }
  unfold qs. rewrite get_set_index by lia.
  destruct (decide (m = j)) as [->|Hne].
  - rewrite words_set_word by done. do 2 case_decide; tauto.
  - rewrite decide_False; [done|]. intros (_ & He & _). by apply address_index in He.
Qed.

(** *** A page more, a page less *)

Definition page_empty p : Prop := forall i, (words p) .[ i ] = 0.

Lemma word_snoc ps p l pa i : page_empty p -> word (ps ++ [p]) l pa i = word ps l pa i.
Proof.
  intros He. induction ps as [|q ps IH]; simpl; [|by rewrite IH]. by case_decide.
Qed.

Lemma has_snoc ps p l pa :
  has (ps ++ [p]) l pa <-> has ps l pa \/ (Level p = l /\ addr p = pa).
Proof.
  unfold has. setoid_rewrite elem_of_app. setoid_rewrite list_elem_of_singleton. naive_solver.
Qed.

Lemma word_remove ps p qs l pa i :
  NoDup (addresses ps) -> ps ≡ₚ p :: qs ->
  word qs l pa i = if decide (pa = addr p) then 0 else word ps l pa i.
Proof.
  intros Hd Hp. assert (NoDup (addresses (p :: qs))) as Hd'.
  { unfold addresses. by rewrite <- Hp. }
  assert (Hd'' := Hd'). apply NoDup_cons in Hd'' as [Hn Hd''].
  case_decide as Ha.
  - apply word_out. intros Hh. apply has_address in Hh. subst. done.
  - destruct (decide (has qs l pa)) as [(q & Hq & <- & <-)|Hh].
    + rewrite !word_in; [done|done| |done|done]. rewrite Hp. by right.
    + rewrite !word_out; [done| |done]. intros (q & Hq & Hlq & Haq).
      rewrite Hp in Hq. apply elem_of_cons in Hq as [->|Hq]; [done|].
      apply Hh. by exists q.
Qed.

Lemma has_remove ps p qs l pa :
  NoDup (addresses ps) -> ps ≡ₚ p :: qs -> has qs l pa <-> has ps l pa /\ pa <> addr p.
Proof.
  intros Hd Hp. assert (NoDup (addresses (p :: qs))) as Hd'.
  { unfold addresses. by rewrite <- Hp. }
  apply NoDup_cons in Hd' as [Hn _]. unfold has. setoid_rewrite Hp. setoid_rewrite elem_of_cons.
  split.
  - intros (q & Hq & Hl & Ha). split; [by exists q; auto|]. intros ->.
    apply Hn. rewrite <- Ha. by apply list_elem_of_fmap_2.
  - intros [(q & [->|Hq] & Hl & Ha) Hne]; [done|]. by exists q.
Qed.

(** ** Descriptors of tables *)

Definition link c : Z := Z.lor c APPLE_AGX_UAT_PTE_LEAF_TABLE.
Definition frame (d : Z) : Z := Z.land d APPLE_AGX_UAT_TABLE_ADDRESS_MASK.

Lemma frame_0 : frame 0 = 0.
Proof. done. Qed.

Lemma frame_link c : frame_ok c -> frame (link c) = c.
Proof. intros Hc. by apply (frame_address c 3). Qed.

Lemma link_nonzero c : link c <> 0.
Proof. unfold link. rewrite Z.lor_eq_0_iff. by intros []. Qed.

Lemma link_type c : frame_ok c -> Z.land (link c) 3 = 3.
Proof.
  intros Hc. change 3 with (Z.land (2 ^ 14 - 1) 3) at 1. rewrite Z.land_assoc.
  unfold link. by rewrite (frame_low c _ Hc).
Qed.

Lemma link_inj c c' : frame_ok c -> frame_ok c' -> link c = link c' -> c = c'.
Proof. intros Hc Hc' He. by rewrite <- (frame_link c), He, frame_link. Qed.

Definition width l : Z := if l =? 0 then 8 else 2048.

Lemma width_bound l : width l <= 2048.
Proof. unfold width. by destruct (l =? 0). Qed.

(** ** Well-formed inventories *)

Record wf ps : Prop := {
  wf_nodup : NoDup (addresses ps);
  wf_pages : Forall page_ok ps;
  wf_link : forall l pa i, 0 <= l < 2 -> 0 <= i < width l -> word ps l pa i <> 0 ->
    exists c, has ps (l + 1) c /\ word ps l pa i = link c;
  wf_parent : forall l pa i pa' i', 0 <= l < 2 -> 0 <= i < width l -> 0 <= i' < width l ->
    word ps l pa i <> 0 -> word ps l pa i = word ps l pa' i' -> pa = pa' /\ i = i';
}.

Lemma page_ok_get ps j : Forall page_ok ps -> 0 <= j < zlen ps -> page_ok (ps .[ j ]).
Proof. intros Hf Hj. rewrite Forall_forall in Hf. by apply Hf, get_elem. Qed.

Lemma has_frame ps l pa : Forall page_ok ps -> has ps l pa -> frame_ok pa /\ pa <> 0 /\ 0 <= l <= 2.
Proof. rewrite Forall_forall. intros Hf (p & Hp & <- & <-). by destruct (Hf p Hp) as (? & ? & ? & _). Qed.

Lemma word_null ps l i : Forall page_ok ps -> word ps l 0 i = 0.
Proof. intros Hf. apply word_out. intros Hh. by apply has_frame in Hh as (_ & ? & _). Qed.

(** ** The walk *)

Definition index0 n : Z := n / 2 ^ 22.
Definition index1 n : Z := (n / 2 ^ 11) mod 2 ^ 11.
Definition index2 n : Z := n mod 2 ^ 11.
Definition page_number (va : Z) : Z := (va / 2 ^ 14) mod 2 ^ 25.
Definition is_page n : Prop := 0 <= n < 2 ^ 25.

Definition table1 ps r n : Z := frame (word ps 0 r (index0 n)).
Definition table2 ps r n : Z := frame (word ps 1 (table1 ps r n) (index1 n)).
Definition view ps r n : Z := word ps 2 (table2 ps r n) (index2 n).

Lemma index_bounds n :
  is_page n -> 0 <= index0 n < 8 /\ 0 <= index1 n < 2048 /\ 0 <= index2 n < 2048.
Proof.
  unfold is_page, index0, index1, index2.
  change (2 ^ 25) with 33554432. change (2 ^ 22) with 4194304. change (2 ^ 11) with 2048.
  intros. Z.to_euclidean_division_equations; lia.
Qed.

Lemma index_inj n n' :
  is_page n -> is_page n' -> index0 n = index0 n' -> index1 n = index1 n' ->
  index2 n = index2 n' -> n = n'.
Proof.
  unfold is_page, index0, index1, index2.
  change (2 ^ 25) with 33554432. change (2 ^ 22) with 4194304. change (2 ^ 11) with 2048.
  intros. Z.to_euclidean_division_equations; lia.
Qed.

Lemma page_number_page va : is_page (page_number va).
Proof. by apply Z.mod_pos_bound. Qed.

Lemma level_indices va :
  0 <= va ->
  level0_index va = index0 (page_number va) /\ level1_index va = index1 (page_number va) /\
  level2_index va = index2 (page_number va).
Proof.
  intros Hva. unfold level0_index, level1_index, level2_index, index0, index1, index2, page_number.
  change 7 with (2 ^ 3 - 1). change 2047 with (2 ^ 11 - 1).
  unfold J313_AGX_G2_UAT_LEVEL0_SHIFT, J313_AGX_G2_UAT_LEVEL1_SHIFT,
    J313_AGX_G2_UAT_LEVEL2_SHIFT.
  rewrite !(land_mask _ _) by done. rewrite !Z.shiftr_div_pow2 by done.
  assert (va / 2 ^ 36 = va / 2 ^ 14 / 2 ^ 22) as -> by by rewrite Z.div_div by done.
  assert (va / 2 ^ 25 = va / 2 ^ 14 / 2 ^ 11) as -> by by rewrite Z.div_div by done.
  generalize (va / 2 ^ 14). clear. intros x.
  change (2 ^ 25) with 33554432. change (2 ^ 22) with 4194304. change (2 ^ 11) with 2048.
  change (2 ^ 3) with 8.
  split_and!; Z.to_euclidean_division_equations; lia.
Qed.

Lemma view_present ps r n :
  Forall page_ok ps -> view ps r n <> 0 ->
  has ps 0 r /\ has ps 1 (table1 ps r n) /\ has ps 2 (table2 ps r n) /\
  word ps 0 r (index0 n) <> 0 /\ word ps 1 (table1 ps r n) (index1 n) <> 0.
Proof.
  intros Hf Hv. assert (H2 := word_has _ _ _ _ Hv).
  assert (word ps 1 (table1 ps r n) (index1 n) <> 0) as H1.
  { intros He. apply Hv. unfold view, table2. rewrite He, frame_0. by apply word_null. }
  assert (word ps 0 r (index0 n) <> 0) as H0.
  { intros He. apply H1. unfold table1. rewrite He, frame_0. by apply word_null. }
  split_and!; try done; by eapply word_has.
Qed.

(** A leaf word is reached by one walk. *)
Lemma table2_inj ps r n r' n' :
  wf ps -> is_page n -> is_page n' -> table2 ps r n <> 0 -> table2 ps r n = table2 ps r' n' ->
  r = r' /\ index0 n = index0 n' /\ index1 n = index1 n'.
Proof.
  intros Hwf Hn Hn' Hz He.
  destruct (index_bounds n Hn) as (B0 & B1 & _), (index_bounds n' Hn') as (B0' & B1' & _).
  assert (forall l pa i pa' i', 0 <= l < 2 -> 0 <= i < width l -> 0 <= i' < width l ->
    frame (word ps l pa i) <> 0 -> frame (word ps l pa i) = frame (word ps l pa' i') ->
    pa = pa' /\ i = i') as Hinj.
  { intros l pa i pa' i' Hl Hi Hi' Hnz Heq.
    assert (word ps l pa i <> 0) as Hw by (intros E; rewrite E in Hnz; done).
    assert (word ps l pa' i' <> 0) as Hw' by (intros E; rewrite Heq, E in Hnz; done).
    apply (wf_parent ps Hwf l); try done.
    destruct (wf_link ps Hwf l pa i Hl Hi Hw) as (c & Hc & Ec).
    destruct (wf_link ps Hwf l pa' i' Hl Hi' Hw') as (c' & Hc' & Ec').
    apply (has_frame ps) in Hc as (Hc & _); [|apply Hwf].
    apply (has_frame ps) in Hc' as (Hc' & _); [|apply Hwf].
    rewrite Ec, Ec' in *. rewrite !frame_link in Heq by done. by subst. }
  destruct (Hinj 1 (table1 ps r n) (index1 n) (table1 ps r' n') (index1 n')) as [H1 Hi1]; try done.
  destruct (Hinj 0 r (index0 n) r' (index0 n')) as [-> Hi0]; try done.
  intros E. apply Hz. unfold table2, table1. rewrite E, word_null by apply Hwf. done.
Qed.

Lemma walk_inj ps r n r' n' :
  wf ps -> is_page n -> is_page n' -> table2 ps r n <> 0 ->
  table2 ps r n = table2 ps r' n' -> index2 n = index2 n' -> r = r' /\ n = n'.
Proof.
  intros Hwf Hn Hn' Hz He H2. destruct (table2_inj ps r n r' n') as (Hr & H0 & H1); try done.
  split; [done|]. by apply index_inj.
Qed.

(** The walk depends on the words only. *)
Lemma walk_ext ps qs r n :
  is_page n -> (forall l pa i, 0 <= i -> word ps l pa i = word qs l pa i) ->
  table1 ps r n = table1 qs r n /\ table2 ps r n = table2 qs r n /\ view ps r n = view qs r n.
Proof.
  intros Hn Hw. destruct (index_bounds n Hn) as (? & ? & ?).
  assert (table1 ps r n = table1 qs r n) as E1 by (unfold table1; rewrite Hw by lia; done).
  assert (table2 ps r n = table2 qs r n) as E2 by (unfold table2; rewrite E1, Hw by lia; done).
  split_and!; [done|done|]. unfold view. by rewrite E2, Hw by lia.
Qed.

(** Writing a leaf. *)
Lemma walk_leaf ps qs r n x :
  wf ps -> is_page n -> table2 ps r n <> 0 ->
  (forall l pa i, 0 <= i -> word qs l pa i =
     if decide (l = 2 /\ pa = table2 ps r n /\ i = index2 n) then x else word ps l pa i) ->
  forall r' n', is_page n' ->
    table2 qs r' n' = table2 ps r' n' /\
    view qs r' n' = if decide (r' = r /\ n' = n) then x else view ps r' n'.
Proof.
  intros Hwf Hn Hz Hw r' n' Hn'. destruct (index_bounds n' Hn') as (? & ? & ?).
  assert (table2 qs r' n' = table2 ps r' n') as E.
  { unfold table2, table1. rewrite !Hw, !decide_False by (lia || intros (? & _); done). done. }
  split; [done|]. unfold view. rewrite E, Hw by lia.
  destruct (decide (r' = r /\ n' = n)) as [[-> ->]|Hne].
  - by rewrite decide_True.
  - rewrite decide_False; [done|]. intros (_ & Ht & Hi). apply Hne.
    destruct (walk_inj ps r n r' n') as [-> ->]; done.
Qed.

(** A link to an empty table, written over an empty entry, changes no translation. *)
Lemma walk_link ps qs l a j c :
  Forall page_ok ps -> frame_ok c -> 0 <= l < 2 -> word ps l a j = 0 ->
  (forall i, word ps (l + 1) c i = 0) ->
  (forall l' pa i, 0 <= i -> word qs l' pa i =
     if decide (l' = l /\ pa = a /\ i = j) then link c else word ps l' pa i) ->
  forall r n, is_page n -> view qs r n = view ps r n.
Proof.
  intros Hf Hc Hl H0 Hcz Hw r n Hn. destruct (index_bounds n Hn) as (? & ? & ?).
  assert (forall pa i, 0 <= i -> word qs 2 pa i = word ps 2 pa i) as W2.
  { intros pa i Hi. rewrite Hw, decide_False by lia. done. }
  destruct (decide (l = 0)) as [->|].
  - change (0 + 1) with 1 in Hcz.
    assert (forall pa i, 0 <= i -> word qs 1 pa i = word ps 1 pa i) as W1.
    { intros pa i Hi. rewrite Hw, decide_False by lia. done. }
    unfold view. rewrite W2 by lia. unfold table2. rewrite W1 by lia. unfold table1.
    rewrite Hw by lia. case_decide as Hd; [|done]. destruct Hd as (_ & -> & ->).
    by rewrite frame_link, Hcz, H0, !frame_0, (word_null ps 1), frame_0 by done.
  - assert (l = 1) as -> by lia.
    assert (table1 qs r n = table1 ps r n) as E1.
    { unfold table1. rewrite Hw, decide_False by lia. done. }
    unfold view. rewrite W2 by lia. unfold table2. rewrite E1, Hw by lia.
    case_decide as Hd; [|done]. destruct Hd as (_ & -> & ->).
    change (1 + 1) with 2 in Hcz. by rewrite frame_link, Hcz, H0, frame_0, word_null by done.
Qed.

(** ** Shapes: what writes leave alone *)

Definition shape p : Z * Z * option (Z * nat) :=
  (Level p, addr p, (fun t => (tb_address t, length (tb_words t))) <$> Entries p).
Definition shapes ps : list (Z * Z * option (Z * nat)) := shape <$> ps.

Lemma shape_set_word i x p : shape (set_word i x p) = shape p.
Proof.
  unfold set_word. destruct (Entries p) as [t|] eqn:Ht; [|done].
  unfold shape. cbn. by rewrite Ht, length_arr_set.
Qed.

Lemma shapes_addresses ps qs : shapes ps = shapes qs -> addresses ps = addresses qs.
Proof.
  intros He. assert (forall ps, addresses ps = (fun s => s.1.2) <$> shapes ps) as H.
  { intros ts. unfold addresses, shapes. by rewrite <- list_fmap_compose. }
  by rewrite !H, He.
Qed.

Lemma shapes_zlen ps qs : shapes ps = shapes qs -> zlen ps = zlen qs.
Proof.
  intros He. apply (f_equal length) in He. unfold shapes in He. rewrite !length_fmap in He.
  unfold zlen. by rewrite He.
Qed.

Lemma shapes_elem ps qs p : shapes ps = shapes qs -> p ∈ ps -> exists q, q ∈ qs /\ shape q = shape p.
Proof.
  intros He Hp. apply (list_elem_of_fmap_2 shape) in Hp. unfold shapes in He. rewrite He in Hp.
  apply list_elem_of_fmap in Hp as (q & Hq & ?). by exists q.
Qed.

Lemma shapes_has ps qs l pa : shapes ps = shapes qs -> has ps l pa -> has qs l pa.
Proof.
  intros He (p & Hp & <- & <-). destruct (shapes_elem ps qs p He Hp) as (q & Hq & Hs).
  exists q. split; [done|]. unfold shape in Hs. by injection Hs.
Qed.

Lemma shape_page_ok p q : shape p = shape q -> page_ok q -> page_ok p.
Proof.
  unfold shape, page_ok. intros Hs (Hf & Hz & Hl & t & Ht & Hw). injection Hs as -> -> He.
  split_and!; [done|done|lia|lia|]. rewrite Ht in He.
  destruct (Entries p) as [t'|]; [|done]. cbn in He. injection He as _ He.
  exists t'. split; [done|]. unfold zlen in *. lia.
Qed.

Lemma shapes_pages_ok ps qs : shapes ps = shapes qs -> Forall page_ok qs -> Forall page_ok ps.
Proof.
  rewrite !Forall_forall. intros He Hf p Hp. destruct (shapes_elem ps qs p He Hp) as (q & Hq & Hs).
  by apply (shape_page_ok p q); [|apply Hf].
Qed.

Lemma shapes_get ps qs j : shapes ps = shapes qs -> 0 <= j < zlen ps -> shape (ps .[ j ]) = shape (qs .[ j ]).
Proof.
  intros He Hj. assert (Hl := shapes_zlen _ _ He).
  assert (shapes ps !! Z.to_nat j = shapes qs !! Z.to_nat j) as Hg by by rewrite He.
  unfold shapes in Hg. rewrite !list_lookup_fmap in Hg. unfold zlen, arr_get in *.
  rewrite (list_lookup_lookup_total_lt ps), (list_lookup_lookup_total_lt qs) in Hg by lia.
  cbn in Hg. congruence.
Qed.

Lemma shapes_set ps j i x : shapes (ps .[ j <- set_word i x ps .[ j ] ]) = shapes ps.
Proof.
  unfold shapes, arr_set. rewrite list_fmap_insert, shape_set_word.
  destruct (decide (Z.to_nat j < length ps)%nat) as [Hj|Hj].
  - apply list_insert_id. rewrite list_lookup_fmap. unfold arr_get.
    by rewrite list_lookup_lookup_total_lt.
  - by rewrite list_insert_ge by (rewrite length_fmap; lia).
Qed.

(** Same shapes and same words: the same pages. *)
Lemma page_ext p q :
  page_ok p -> shape p = shape q ->
  (forall i, 0 <= i < 2048 -> (words p) .[ i ] = (words q) .[ i ]) -> p = q.
Proof.
  intros (_ & _ & _ & t & Ht & Hlt) Hs Hw. destruct p as [a e l], q as [a' e' l'].
  unfold shape, words in *. cbn in *. subst e. injection Hs as -> -> He.
  destruct e' as [[ta' tw']|]; [|done]. destruct t as [ta tw]. cbn in *. injection He as -> He.
  do 3 f_equal. apply arr_ext; [unfold zlen; lia|]. intros i Hi. apply Hw; lia.
Qed.

Lemma pages_ext ps qs :
  Forall page_ok ps -> shapes ps = shapes qs ->
  (forall j i, 0 <= j < zlen ps -> 0 <= i < 2048 -> (words ps .[ j ]) .[ i ] = (words qs .[ j ]) .[ i ]) ->
  ps = qs.
Proof.
  intros Hf Hs Hw. apply arr_ext; [by apply shapes_zlen|]. intros j Hj.
  apply page_ext; [by apply page_ok_get|by apply shapes_get|]. intros i Hi. by apply Hw.
Qed.

Lemma page_empty_words ps p :
  NoDup (addresses ps) -> p ∈ ps -> (forall i, 0 <= i -> word ps (Level p) (addr p) i = 0) ->
  page_empty p.
Proof.
  intros Hd Hp Hz i. destruct (decide (0 <= i)) as [Hi|Hi].
  - rewrite <- (word_in ps) by done. by apply Hz.
  - replace ((words p) .[ i ]) with ((words p) .[ 0 ]) by (unfold arr_get; f_equal; lia).
    rewrite <- (word_in ps) by done. by apply Hz.
Qed.

Lemma word_beyond ps l pa i : Forall page_ok ps -> 2048 <= i -> word ps l pa i = 0.
Proof.
  rewrite Forall_forall. intros Hf Hi. induction ps as [|p ps IH]; [done|]. simpl. case_decide.
  - destruct (Hf p ltac:(by left)) as (_ & _ & _ & t & Ht & Hl). unfold words, zlen, arr_get in *.
    rewrite Ht, list_lookup_total_alt, lookup_ge_None_2 by lia. done.
  - apply IH. intros q Hq. apply Hf. by right.
Qed.

(** ** What keeps an inventory well-formed *)

(** Clearing entries, or writing leaves. *)
Lemma wf_shrink ps qs :
  wf ps -> shapes qs = shapes ps ->
  (forall l pa i, 0 <= l < 2 -> 0 <= i < width l ->
     word qs l pa i = word ps l pa i \/ word qs l pa i = 0) -> wf qs.
Proof.
  intros Hwf Hs Hw. split.
  - rewrite (shapes_addresses _ _ Hs). apply Hwf.
  - by eapply shapes_pages_ok; [|apply Hwf].
  - intros l pa i Hl Hi Hnz. destruct (Hw l pa i Hl Hi) as [E|E]; [|done].
    rewrite E in *. destruct (wf_link ps Hwf l pa i Hl Hi Hnz) as (c & Hc & He).
    exists c. split; [|done]. by eapply shapes_has.
  - intros l pa i pa' i' Hl Hi Hi' Hnz He. destruct (Hw l pa i Hl Hi) as [E|E]; [|done].
    destruct (Hw l pa' i' Hl Hi') as [E'|E']; [|congruence].
    apply (wf_parent ps Hwf l); congruence.
Qed.

(** Linking a table nothing points to. *)
Lemma wf_new_link ps qs l a j c :
  wf ps -> shapes qs = shapes ps -> has ps (l + 1) c ->
  (forall pa i, 0 <= i < width l -> word ps l pa i <> link c) ->
  (forall l' pa i, 0 <= i -> word qs l' pa i =
     if decide (l' = l /\ pa = a /\ i = j) then link c else word ps l' pa i) -> wf qs.
Proof.
  intros Hwf Hs Hc Hfresh Hw. split.
  - rewrite (shapes_addresses _ _ Hs). apply Hwf.
  - by eapply shapes_pages_ok; [|apply Hwf].
  - intros l' pa i Hl Hi. rewrite Hw by lia. case_decide as Hd.
    + intros _. destruct Hd as (-> & _). exists c. split; [|done]. by eapply shapes_has.
    + intros Hnz. destruct (wf_link ps Hwf l' pa i Hl Hi Hnz) as (c' & Hc' & He).
      exists c'. split; [|done]. by eapply shapes_has.
  - intros l' pa i pa' i' Hl Hi Hi'. rewrite !Hw by lia. intros Hnz He.
    case_decide as H1; case_decide as H2.
    + destruct H1 as (_ & -> & ->), H2 as (_ & -> & ->). done.
    + destruct H1 as (-> & -> & ->). exfalso. by apply (Hfresh pa' i').
    + destruct H2 as (-> & -> & ->). exfalso. by apply (Hfresh pa i).
    + by apply (wf_parent ps Hwf l').
Qed.

Lemma wf_snoc ps p :
  wf ps -> page_ok p -> page_empty p -> addr p ∉ addresses ps -> wf (ps ++ [p]).
Proof.
  intros Hwf Hp He Hn. split.
  - unfold addresses. rewrite fmap_app. apply NoDup_app. split_and!; [apply Hwf| |apply NoDup_singleton].
    intros a Ha Ha'. apply list_elem_of_singleton in Ha'. subst. done.
  - apply Forall_app. split; [apply Hwf|]. by constructor.
  - intros l pa i Hl Hi. rewrite word_snoc by done. intros Hnz.
    destruct (wf_link ps Hwf l pa i Hl Hi Hnz) as (c & Hc & E). exists c.
    rewrite has_snoc. auto.
  - intros l pa i pa' i' Hl Hi Hi'. rewrite !word_snoc by done. by apply Hwf.
Qed.

Lemma wf_remove ps p qs :
  wf ps -> ps ≡ₚ p :: qs ->
  (forall l pa i, 0 <= l < 2 -> 0 <= i < width l -> word ps l pa i <> link (addr p)) -> wf qs.
Proof.
  intros Hwf Hp Hn. assert (Hd := wf_nodup ps Hwf).
  assert (Forall page_ok (p :: qs)) as Hf by (rewrite <- Hp; apply Hwf).
  assert (NoDup (addresses (p :: qs))) as Hd' by (unfold addresses; rewrite <- Hp; done).
  apply Forall_cons in Hf as [_ Hf]. apply NoDup_cons in Hd' as [_ Hd'].
  split; [done|done|..].
  - intros l pa i Hl Hi. rewrite (word_remove ps p qs) by done. case_decide; [done|]. intros Hnz.
    destruct (wf_link ps Hwf l pa i Hl Hi Hnz) as (c & Hc & E). exists c. split; [|done].
    rewrite (has_remove ps p qs) by done. split; [done|]. intros ->. by apply (Hn l pa i).
  - intros l pa i pa' i' Hl Hi Hi'. rewrite !(word_remove ps p qs) by done.
    intros Hnz E. repeat case_decide; try congruence. by apply (wf_parent ps Hwf l).
Qed.

Lemma has_permutation ps qs l pa : ps ≡ₚ qs -> has ps l pa <-> has qs l pa.
Proof. intros Hp. unfold has. by setoid_rewrite Hp. Qed.

Lemma word_permutation ps qs l pa i :
  NoDup (addresses ps) -> ps ≡ₚ qs -> word ps l pa i = word qs l pa i.
Proof.
  intros Hd Hp. assert (NoDup (addresses qs)) as Hd' by (unfold addresses; by rewrite <- Hp).
  destruct (decide (has ps l pa)) as [(p & Hi & <- & <-)|Hn].
  - rewrite !word_in; [done|done|by rewrite <- Hp|done|done].
  - rewrite !word_out; [done| |done]. by rewrite <- (has_permutation ps).
Qed.

Lemma table2_permutation ps qs r n :
  NoDup (addresses ps) -> ps ≡ₚ qs -> table2 ps r n = table2 qs r n.
Proof. intros Hd Hp. unfold table2, table1. by rewrite !(word_permutation ps qs). Qed.

Lemma view_permutation ps qs r n :
  NoDup (addresses ps) -> ps ≡ₚ qs -> view ps r n = view qs r n.
Proof.
  intros Hd Hp. unfold view. by rewrite (table2_permutation ps qs), (word_permutation ps qs).
Qed.

Lemma wf_permutation ps qs : wf ps -> ps ≡ₚ qs -> wf qs.
Proof.
  intros Hwf Hp. assert (Hh := fun l pa => has_permutation ps qs l pa Hp).
  assert (Hw := fun l pa i => word_permutation ps qs l pa i (wf_nodup _ Hwf) Hp).
  split; [unfold addresses; rewrite <- Hp; apply Hwf|rewrite <- Hp; apply Hwf|..].
  - intros l pa i. rewrite <- Hw. setoid_rewrite <- Hh. apply Hwf.
  - intros l pa i pa' i'. rewrite <- !Hw. apply Hwf.
Qed.

(** ** The live part of an inventory *)

Definition live v : list APPLE_AGX_UAT_PAGE := prefix_list (pages v) (PageCount v).
Definition live_mappings v : list APPLE_AGX_UAT_MAPPING := prefix_list (mappings v) (MappingCount v).

Record inv_ok v : Prop := {
  ok_Pages : Pages v = Some (pages v);
  ok_Mappings : Mappings v = Some (mappings v);
  ok_page_array : zlen (pages v) = PageCapacity v;
  ok_mapping_array : zlen (mappings v) = MappingCapacity v;
  ok_page_count : 0 <= PageCount v <= PageCapacity v;
  ok_mapping_count : 0 <= MappingCount v <= MappingCapacity v;
  ok_capacities : PageCapacity v < 2 ^ 32 /\ MappingCapacity v < 2 ^ 32;
}.

(** Everything but the pages is the same. *)
Definition same_mappings v v' : Prop :=
  Mappings v' = Mappings v /\ MappingCapacity v' = MappingCapacity v /\
  MappingCount v' = MappingCount v /\ PageCapacity v' = PageCapacity v.

Lemma zlen_live v : inv_ok v -> zlen (live v) = PageCount v.
Proof. intros Hok. apply zlen_prefix. destruct Hok. lia. Qed.

Lemma live_get v j : 0 <= j < PageCount v -> (live v) .[ j ] = (pages v) .[ j ].
Proof. apply get_prefix. Qed.

Lemma store_frame v j i x :
  same_mappings v (store j i x v) /\ PageCount (store j i x v) = PageCount v.
Proof. done. Qed.

Lemma pages_store v j i x :
  pages (store j i x v) = (pages v) .[ j <- set_word i x (pages v) .[ j ] ].
Proof. done. Qed.

Lemma store_ok v j i x : inv_ok v -> inv_ok (store j i x v).
Proof.
  intros []. split; try done. unfold store, set_page, pages. cbn. by rewrite zlen_set.
Qed.

Lemma live_store v j i x :
  inv_ok v -> 0 <= j < PageCount v ->
  live (store j i x v) = (live v) .[ j <- set_word i x (live v) .[ j ] ].
Proof.
  intros Hok Hj. unfold live. rewrite get_prefix by done.
  rewrite pages_store. apply prefix_set_in; destruct Hok; lia.
Qed.

Lemma find_page_Some v pa l j :
  inv_ok v -> NoDup (addresses (live v)) ->
  AppleAgxUatFindPage v pa l = Some j <->
  0 <= j < PageCount v /\ addr (live v) .[ j ] = pa /\ Level (live v) .[ j ] = l.
Proof.
  intros Hok Hd. unfold AppleAgxUatFindPage. rewrite find_range_Some. split.
  - intros (Hj & Hp & _). guards. rewrite live_get by lia. split; [lia|done].
  - intros (Hj & Ha & Hl). rewrite live_get in Ha, Hl by lia. split_and!; [lia|lia|..].
    + by rewrite Ha, Hl, !Z.eqb_refl.
    + intros k Hk. apply andb_false_iff. left. apply Z.eqb_neq. intros Hk'.
      assert (k = j); [|lia]. apply (address_index (live v)); try done;
        rewrite ?zlen_live by done; [lia|lia|]. rewrite !live_get by lia. congruence.
Qed.

Lemma find_page_None v pa l :
  inv_ok v -> NoDup (addresses (live v)) ->
  AppleAgxUatFindPage v pa l = None <-> ~ has (live v) l pa.
Proof.
  intros Hok Hd. rewrite has_get, zlen_live by done. split.
  - intros Hn (j & Hj & Hl & Ha).
    assert (AppleAgxUatFindPage v pa l = Some j) as E by (by apply find_page_Some). congruence.
  - intros Hn. destruct (AppleAgxUatFindPage v pa l) as [j|] eqn:E; [|done].
    apply find_page_Some in E as (Hj & Ha & Hl); [|done|done]. destruct Hn. by exists j.
Qed.

Lemma find_page_has v pa l :
  inv_ok v -> NoDup (addresses (live v)) -> has (live v) l pa ->
  exists j, AppleAgxUatFindPage v pa l = Some j /\
    0 <= j < PageCount v /\ addr (live v) .[ j ] = pa /\ Level (live v) .[ j ] = l.
Proof.
  intros Hok Hd Hh. destruct (AppleAgxUatFindPage v pa l) as [j|] eqn:E.
  - exists j. split; [done|]. by apply find_page_Some.
  - by apply find_page_None in E.
Qed.

Lemma entry_word v j i :
  inv_ok v -> NoDup (addresses (live v)) -> 0 <= j < PageCount v ->
  entry v j i = word (live v) (Level (live v) .[ j ]) (addr (live v) .[ j ]) i.
Proof.
  intros Hok Hd Hj. rewrite word_in; [|done|].
  - unfold entry. by rewrite live_get.
  - apply get_elem. by rewrite zlen_live.
Qed.

(** A write to a live page, as the words see it. *)
Lemma word_store v j i x l pa k :
  inv_ok v -> NoDup (addresses (live v)) -> Forall page_ok (live v) ->
  0 <= j < PageCount v -> 0 <= i < 2048 -> 0 <= k ->
  word (live (store j i x v)) l pa k =
    if decide (l = Level (live v) .[ j ] /\ pa = addr (live v) .[ j ] /\ k = i) then x
    else word (live v) l pa k.
Proof.
  intros Hok Hd Hf Hj Hi Hk. rewrite live_store by done.
  apply word_set_word; rewrite ?zlen_live by done; try done.
  apply page_ok_get; [done|]. by rewrite zlen_live.
Qed.

Lemma shapes_store v j i x :
  inv_ok v -> 0 <= j < PageCount v -> shapes (live (store j i x v)) = shapes (live v).
Proof. intros. by rewrite live_store, shapes_set. Qed.

Lemma existing_leaf v root va :
  inv_ok v -> wf (live v) -> 0 <= root < PageCount v -> Level (live v) .[ root ] = 0 -> 0 <= va ->
  let r := addr (live v) .[ root ] in let n := page_number va in
  (exists k, AppleAgxUatFindExistingLeaf root va v = (AppleAgxUatResultOk, Some (k, index2 n)) /\
     0 <= k < PageCount v /\ Level (live v) .[ k ] = 2 /\
     addr (live v) .[ k ] = table2 (live v) r n) \/
  (AppleAgxUatFindExistingLeaf root va v = (AppleAgxUatResultInvalidArgument, NULL) /\
     ~ has (live v) 2 (table2 (live v) r n)).
Proof.
  intros Hok Hwf Hr Hl0 Hva r n. assert (Hd := wf_nodup _ Hwf).
  destruct (level_indices va Hva) as (E0 & E1 & E2). fold n in E0, E1, E2.
  unfold AppleAgxUatFindExistingLeaf. rewrite E0, E1, E2, entry_word, Hl0 by done. fold r.
  change (Z.land (word (live v) 0 r (index0 n)) APPLE_AGX_UAT_TABLE_ADDRESS_MASK)
    with (table1 (live v) r n).
  destruct (AppleAgxUatFindPage v (table1 (live v) r n) 1) as [j|] eqn:F1.
  - apply find_page_Some in F1 as (Hj & Ha & Hlj); [|done|done].
    rewrite entry_word, Hlj, Ha by done.
    change (Z.land (word (live v) 1 (table1 (live v) r n) (index1 n))
              APPLE_AGX_UAT_TABLE_ADDRESS_MASK) with (table2 (live v) r n).
    destruct (AppleAgxUatFindPage v (table2 (live v) r n) 2) as [k|] eqn:F2.
    + left. apply find_page_Some in F2 as (Hk & Hak & Hlk); [|done|done]. by exists k.
    + right. split; [done|]. by apply find_page_None in F2.
  - right. split; [done|]. apply find_page_None in F1; [|done|done]. intros Hh.
    apply has_frame in Hh as (_ & Hz & _); [|apply Hwf]. apply Hz. unfold table2.
    by rewrite (word_out _ 1), frame_0 by done.
Qed.

Lemma page_is_zero p :
  (exists t, Entries p = Some t /\ zlen (tb_words t) = 2048) ->
  AppleAgxUatPageIsZero p = true <-> page_empty p.
Proof.
  intros (t & Ht & Hl). unfold AppleAgxUatPageIsZero, page_empty, words. rewrite Ht.
  destruct (find_range _ _ _) as [i|] eqn:E.
  - apply find_range_Some in E as (_ & Hi & _). guards. split; [done|]. intros H. by rewrite H in Hi.
  - rewrite find_range_None in E. split; [|done]. intros _ i.
    destruct (decide (Z.to_nat i < length (tb_words t))%nat) as [Hi|Hi].
    + specialize (E (Z.of_nat (Z.to_nat i))). unfold zlen, APPLE_AGX_UAT_TABLE_ENTRY_COUNT in *.
      specialize (E ltac:(lia)). guards. unfold arr_get in *. by rewrite Nat2Z.id in E.
    + unfold arr_get. rewrite list_lookup_total_alt, lookup_ge_None_2 by lia. done.
Qed.

Lemma page_nonempty_word ps p :
  NoDup (addresses ps) -> p ∈ ps -> page_ok p -> ~ page_empty p ->
  exists i, 0 <= i < 2048 /\ word ps (Level p) (addr p) i <> 0.
Proof.
  intros Hd Hp (_ & _ & _ & Ht) Hne. assert (Hz := page_is_zero p Ht).
  unfold AppleAgxUatPageIsZero in Hz. destruct (find_range _ _ _) as [i|] eqn:E; cbn [is_null] in Hz.
  - apply find_range_Some in E as (Hi & Hi' & _). unfold APPLE_AGX_UAT_TABLE_ENTRY_COUNT in Hi. guards.
    exists i. rewrite word_in by done. split; [lia|done].
  - destruct Hne. by apply Hz.
Qed.


End Heap.
