(* ===== verification/UatOps.v ===== *)
(** * The steps of the page-table code, one by one

    What each static function of apple_agx_uat_table.c does to the words, the pages the
    inventory owns and the pages the allocator has given out.  The allocator is known
    by [AllocatorLaws] only: a page it returns was free and has 2048 words, a page it
    is given back is free again, and it need only answer for pages it gave out. *)

From stdpp Require Import gmap sets.
From S2P Require Import Prelude Arrays Bytes Uat ErrorState UatTable UatHeap.
Import Uat Table Heap.

Module Ops.

(** ** The allocator's promise *)

Class AllocatorLaws {World : Type} (A : APPLE_AGX_UAT_ALLOCATOR World) (held : World -> gset Z)
    : Prop := {
  law_allocate : exists f, AllocatePage A = Some f /\
    forall w candidate status page w', f w candidate = (status, page, w') ->
      if (status : bool)
      then is_u64 (pg_PhysicalAddress page) /\ pg_PhysicalAddress page ∉ held w /\
           held w' = {[ pg_PhysicalAddress page ]} ∪ held w /\
           (forall t, Entries page = Some t -> zlen (tb_words t) = 2048)
      else held w' = held w;
  law_release : exists f, ReleasePage A = Some f /\
    forall w page, pg_PhysicalAddress page ∈ held w ->
      held (f w page) = held w ∖ {[ pg_PhysicalAddress page ]};
}.

Abbreviation page_shape := (Z * Z * option (Z * nat))%type.

Section ops.
Context {World : Type} (A : APPLE_AGX_UAT_ALLOCATOR World) (held : World -> gset Z).
Context `{!AllocatorLaws A held}.
Implicit Types (s : APPLE_AGX_UAT_INVENTORY * World) (v : APPLE_AGX_UAT_INVENTORY)
  (p : APPLE_AGX_UAT_PAGE) (ps : list APPLE_AGX_UAT_PAGE) (l pa i j n r c va : Z).

Definition owned_by ps : gset Z := list_to_set (addresses ps).

(** The inventory is in order and its pages are among those given out. *)
Record good s : Prop := {
  good_ok : inv_ok s.1;
  good_wf : wf (live s.1);
  good_owned : owned_by (live s.1) ⊆ held s.2;
}.

Lemma owned_elem ps a : a ∈ owned_by ps <-> a ∈ addresses ps.
Proof. apply elem_of_list_to_set. Qed.

Lemma owned_app ps qs : owned_by (ps ++ qs) = owned_by ps ∪ owned_by qs.
Proof. unfold owned_by, addresses. by rewrite fmap_app, list_to_set_app_L. Qed.

Lemma good_nodup s : good s -> NoDup (addresses (live s.1)).
Proof. intros []. by apply wf_nodup. Qed.

(** ** Allocating *)

Lemma inv_ok_set_page v j p c :
  inv_ok v -> 0 <= c <= PageCapacity v -> inv_ok ((set_page j p v) <| PageCount := c |>).
Proof.
  intros [] Hc. split; try done. unfold set_page, pages. cbn. by rewrite zlen_set.
Qed.

Lemma same_mappings_refl v : same_mappings v v.
Proof. done. Qed.

Lemma same_mappings_trans v1 v2 v3 :
  same_mappings v1 v2 -> same_mappings v2 v3 -> same_mappings v1 v3.
Proof. unfold same_mappings. intuition congruence. Qed.

Definition unchanged s s' : Prop := s'.1 = s.1 /\ held s'.2 = held s.2.
Definition out_of_pages (e : APPLE_AGX_UAT_RESULT) : Prop :=
  e = AppleAgxUatResultCapacity \/ e = AppleAgxUatResultAllocationFailed.

Record allocated (l : Z) s (j : Z) s' : Prop := {
  al_index : j = PageCount s.1;
  al_ok : inv_ok s'.1;
  al_same : same_mappings s.1 s'.1;
  al_page : exists p, page_ok p /\ page_empty p /\ Level p = l /\ addr p ∉ held s.2 /\
    live s'.1 = live s.1 ++ [p] /\ held s'.2 = {[ addr p ]} ∪ held s.2;
}.

Lemma allocate_recorded l s :
  inv_ok s.1 -> 0 <= l <= 2 ->
  wp (AppleAgxUatAllocateRecordedPage l A) (allocated l s)
    (fun e s' => unchanged s s' /\ out_of_pages e) s.
Proof.
  intros Hok Hl. destruct law_allocate as (f & Hf & Hlaw), law_release as (g & Hg & Hrel).
  unfold AppleAgxUatAllocateRecordedPage. apply ewp_bind, ewp_gets.
  destruct (Z.leb_spec (PageCapacity s.1) (PageCount s.1)) as [|Hcap].
  { apply ewp_fail. split; [done|by left]. }
  apply ewp_bind. unfold wp at 1, allocate_page. rewrite Hf.
  destruct (f s.2 _) as [[status p] w'] eqn:Ef. specialize (Hlaw _ _ _ _ _ Ef).
  destruct status; cbn [negb].
  2: { apply ewp_fail. split; [done|by right]. }
  destruct Hlaw as (Hu64 & Hfresh & Hheld & Hwords).
  case_match eqn:Hbad.
  { apply ewp_bind, ewp_modify, ewp_fail. unfold release_page. rewrite Hg. cbn.
    split; [|by right]. split; [done|]. cbn. rewrite Hrel by (rewrite Hheld; set_solver).
    rewrite Hheld. set_solver. }
  guards. apply ewp_bind, ewp_modify, ewp_ret. cbn [on_inventory fst snd].
  destruct (Entries p) as [t|] eqn:Ht; [|done]. specialize (Hwords t eq_refl).
  change (Z.shiftl 1 J313_AGX_G2_UAT_OUTPUT_ADDRESS_BITS) with (2 ^ 40) in *.
  change APPLE_AGX_UAT_TABLE_PAGE_MASK with (2 ^ 14 - 1) in *.
  assert (0 <= addr p) as Hnn by apply Hu64. rewrite land_mask in * by done.
  destruct (page_is_zero p) as [Hempty _]; [by exists t|]. specialize (Hempty ltac:(done)).
  assert (Hc := ok_page_count _ Hok). assert (Hc' := ok_capacities _ Hok).
  unfold on_inventory. cbn [fst snd]. rewrite wrap_id by (unfold fits; lia).
  split; [done|by apply inv_ok_set_page; [|lia]|done|].
  exists (p <| Level := l |>). split_and!; try done.
  - unfold page_ok, frame_ok. cbn. split_and!; try done; try lia. by exists t.
  - cbn. unfold live. change (pages (set_field _ _ _)) with
      ((pages s.1) .[ PageCount s.1 <- p <| Level := l |> ]).
    apply prefix_set_snoc. rewrite (ok_page_array _ Hok). lia.
Qed.

Lemma allocated_good l s j s' : good s -> allocated l s j s' -> good s'.
Proof.
  intros [Hok Hwf Ho] [_ Hok' _ (p & Hp & He & _ & Hf & Hl & Hh)]. split; [done|..].
  - rewrite Hl. apply wf_snoc; try done. rewrite <- owned_elem. set_solver.
  - rewrite Hl, owned_app, Hh. unfold owned_by at 2. cbn. set_solver.
Qed.

(** ** Growing: what the walk that creates tables may change *)

Definition shape_addresses (ex : list page_shape) : list Z := (fun sh => sh.1.2) <$> ex.

Record grows s (ex : list page_shape) s' : Prop := {
  gr_shapes : shapes (live s'.1) = shapes (live s.1) ++ ex;
  gr_same : same_mappings s.1 s'.1;
  gr_held : held s'.2 = list_to_set (shape_addresses ex) ∪ held s.2;
  gr_fresh : forall c, c ∈ shape_addresses ex -> c ∉ held s.2;
  gr_levels : forall sh, sh ∈ ex -> 1 <= sh.1.1 <= 2;
  gr_words : forall l pa i, 0 <= i ->
    word (live s'.1) l pa i = word (live s.1) l pa i \/
    (word (live s.1) l pa i = 0 /\ 0 <= l < 2 /\ i < width l /\
     exists c, c ∈ shape_addresses ex /\ word (live s'.1) l pa i = link c);
  gr_view : forall r n, is_page n -> view (live s'.1) r n = view (live s.1) r n;
}.

Lemma grows_refl s : grows s [] s.
Proof.
  split; try done; [by rewrite app_nil_r|set_solver|by intros ? ?%elem_of_nil|
    by intros ? ?%elem_of_nil|auto].
Qed.

Lemma grows_trans s ex s1 ex' s2 :
  grows s ex s1 -> grows s1 ex' s2 -> grows s (ex ++ ex') s2.
Proof.
  intros [Hs Hm Hh Hf Hl Hw Hv] [Hs' Hm' Hh' Hf' Hl' Hw' Hv'].
  assert (forall c, c ∈ shape_addresses (ex ++ ex') <->
    c ∈ shape_addresses ex \/ c ∈ shape_addresses ex') as Hin.
  { intros c. unfold shape_addresses. by rewrite fmap_app, elem_of_app. }
  split.
  - by rewrite Hs', Hs, app_assoc.
  - by eapply same_mappings_trans.
  - rewrite Hh', Hh. apply set_eq. intros c. rewrite !elem_of_union, !elem_of_list_to_set, Hin. tauto.
  - intros c [Hc|Hc]%Hin; [by apply Hf|]. apply Hf' in Hc. rewrite Hh in Hc. set_solver.
  - intros sh [?|?]%elem_of_app; auto.
  - intros l pa i Hi. setoid_rewrite Hin.
    destruct (Hw l pa i Hi) as [E|(E & Hlw & Hiw & c & Hc & E1)],
      (Hw' l pa i Hi) as [E'|(E' & Hlw' & Hiw' & c' & Hc' & E1')].
    + left. congruence.
    + right. split_and!; try tauto; [congruence|]. exists c'. auto.
    + right. split_and!; try tauto. exists c. split; [auto|congruence].
    + exfalso. rewrite E1 in E'. by apply link_nonzero in E'.
  - intros r n Hn. by rewrite Hv', Hv.
Qed.

Lemma grows_count s ex s' :
  good s -> inv_ok s'.1 -> grows s ex s' -> PageCount s'.1 = PageCount s.1 + zlen ex.
Proof.
  intros Hg Hok' Hgr. apply gr_shapes in Hgr. apply (f_equal zlen) in Hgr.
  rewrite zlen_app in Hgr. unfold shapes in Hgr. unfold zlen in Hgr at 1 2.
  rewrite !length_fmap in Hgr. fold (zlen (live s'.1)) (zlen (live s.1)) in Hgr.
  by rewrite !zlen_live in Hgr by (done || apply Hg).
Qed.

Lemma shapes_app_get ps qs ex j :
  shapes qs = shapes ps ++ ex -> 0 <= j < zlen ps ->
  Level (qs .[ j ]) = Level (ps .[ j ]) /\ addr (qs .[ j ]) = addr (ps .[ j ]).
Proof.
  intros He Hj. assert (Z.to_nat j < length ps)%nat as Hn by (unfold zlen in Hj; lia).
  assert (shapes qs !! Z.to_nat j = shapes ps !! Z.to_nat j) as Hg.
  { rewrite He, lookup_app_l by (unfold shapes; by rewrite length_fmap). done. }
  unfold shapes in Hg. rewrite !list_lookup_fmap in Hg. unfold arr_get.
  rewrite (list_lookup_lookup_total_lt ps) in Hg by lia. rewrite !list_lookup_total_alt.
  destruct (qs !! Z.to_nat j) as [q|] eqn:Hq; [|done].
  rewrite (list_lookup_lookup_total_lt ps) by lia. cbn in *. unfold shape in Hg.
  injection Hg as -> -> _. done.
Qed.

Lemma grows_get s ex s' j :
  good s -> grows s ex s' -> 0 <= j < PageCount s.1 ->
  Level (live s'.1) .[ j ] = Level (live s.1) .[ j ] /\
  addr (live s'.1) .[ j ] = addr (live s.1) .[ j ].
Proof.
  intros Hg Hgr Hj. eapply shapes_app_get; [apply Hgr|]. by rewrite zlen_live by apply Hg.
Qed.

Lemma grows_word s ex s' l pa i :
  grows s ex s' -> 0 <= i -> word (live s.1) l pa i <> 0 ->
  word (live s'.1) l pa i = word (live s.1) l pa i.
Proof. intros Hgr Hi Hnz. by destruct (gr_words _ _ _ Hgr l pa i Hi) as [|[? _]]. Qed.

Lemma grows_tables s ex s' r n :
  good s -> grows s ex s' -> is_page n -> table2 (live s.1) r n <> 0 ->
  table1 (live s'.1) r n = table1 (live s.1) r n /\
  table2 (live s'.1) r n = table2 (live s.1) r n.
Proof.
  intros Hg Hgr Hn Hz. destruct (index_bounds n Hn) as (B0 & B1 & B2).
  assert (word (live s.1) 1 (table1 (live s.1) r n) (index1 n) <> 0) as H1.
  { intros E. apply Hz. unfold table2. by rewrite E. }
  assert (word (live s.1) 0 r (index0 n) <> 0) as H0.
  { intros E. apply H1. unfold table1. rewrite E, frame_0. apply word_null, Hg. }
  assert (table1 (live s'.1) r n = table1 (live s.1) r n) as E1.
  { unfold table1. by rewrite (grows_word s ex s') by (done || lia). }
  split; [done|]. unfold table2. rewrite E1. by rewrite (grows_word s ex s') by (done || lia).
Qed.

(** ** The walk that creates tables *)

Record child_found s j l i (k : Z) s' : Prop := {
  cf_good : good s';
  cf_index : 0 <= k < PageCount s'.1;
  cf_level : Level (live s'.1) .[ k ] = l + 1;
  cf_link : word (live s'.1) l (addr (live s.1) .[ j ]) i = link (addr (live s'.1) .[ k ]);
  cf_grows : exists ex, grows s ex s' /\
    forall c, c ∈ shape_addresses ex -> c = addr (live s'.1) .[ k ];
}.

Lemma existing_child s j l i :
  good s -> 0 <= j < PageCount s.1 -> Level (live s.1) .[ j ] = l -> 0 <= l < 2 ->
  0 <= i < width l -> entry s.1 j i <> 0 ->
  Z.land (entry s.1 j i) 3 = 3 /\
  exists k, AppleAgxUatFindPage s.1 (frame (entry s.1 j i)) (l + 1) = Some k /\
    child_found s j l i k s.
Proof.
  intros Hg Hj Hlj Hl Hi Hnz. assert (Hd := good_nodup s Hg). destruct (Hg) as [Hok Hwf _].
  rewrite entry_word, Hlj in * by done.
  destruct (wf_link _ Hwf l _ i Hl Hi Hnz) as (c & Hc & E). rewrite E.
  assert (Hfc := has_frame _ _ _ (wf_pages _ Hwf) Hc). destruct Hfc as (Hfc & _ & _).
  rewrite frame_link by done. split; [by apply link_type|].
  destruct (find_page_has s.1 c (l + 1) Hok Hd Hc) as (k & Hk & Hkb & Hak & Hlk).
  exists k. split; [done|]. split; [done|done|done|by rewrite Hak|].
  exists []. split; [apply grows_refl|]. by intros ? ?%elem_of_nil.
Qed.

Lemma link_unused ps l pa i p :
  wf ps -> page_ok p -> addr p ∉ addresses ps -> 0 <= l < 2 -> 0 <= i < width l ->
  word ps l pa i <> link (addr p).
Proof.
  intros Hwf Hp Hn Hl Hi E. destruct (wf_link ps Hwf l pa i Hl Hi) as (c & Hc & E').
  { rewrite E. apply link_nonzero. }
  assert (Hfc := has_frame _ _ _ (wf_pages _ Hwf) Hc). destruct Hfc as (Hfc & _ & _).
  apply Hn. rewrite E in E'. apply link_inj in E'; [|apply Hp|done]. subst.
  by eapply has_address.
Qed.

(** Recording a page and linking it from an empty entry. *)
Lemma linked_child s j l i k s1 :
  good s -> 0 <= j < PageCount s.1 -> Level (live s.1) .[ j ] = l -> 0 <= l < 2 ->
  0 <= i < width l -> entry s.1 j i = 0 -> allocated (l + 1) s k s1 ->
  child_found s j l i k
    (on_inventory (store j i (link (pg_PhysicalAddress (pages s1.1) .[ k ]))) s1).
Proof.
  intros Hg Hj Hlj Hl Hi Hz Hal. assert (Hg1 := allocated_good _ _ _ _ Hg Hal).
  assert (Hd := good_nodup s Hg). assert (Hd1 := good_nodup s1 Hg1).
  destruct Hal as [-> Hok1 Hsame (p & Hp & He & Hlp & Hfr & Hlive & Hheld)].
  assert (Hok := good_ok s Hg). assert (Hwf1 := good_wf s1 Hg1).
  rewrite entry_word, Hlj in Hz by done. set (a := addr (live s.1) .[ j ]) in *.
  assert (PageCount s1.1 = PageCount s.1 + 1) as Hpc.
  { rewrite <- (zlen_live s1.1), Hlive, zlen_app, zlen_live by done. done. }
  assert (Hcount := ok_page_count _ Hok).
  assert ((live s1.1) .[ PageCount s.1 ] = p) as Hk.
  { rewrite Hlive, get_app, zlen_live by (done || lia). rewrite decide_False by lia.
    by rewrite Z.sub_diag. }
  assert (forall m, 0 <= m < PageCount s.1 -> (live s1.1) .[ m ] = (live s.1) .[ m ]) as Hold.
  { intros m Hm. rewrite Hlive, get_app, zlen_live by (done || lia). by rewrite decide_True by lia. }
  assert (addr p ∉ addresses (live s.1)) as Hnew.
  { rewrite <- owned_elem. intros Hin. apply Hfr. by apply (good_owned s Hg). }
  rewrite <- (live_get s1.1), Hk by lia. assert (Hwb := width_bound l).
  set (v2 := store j i (link (addr p)) s1.1).
  assert (inv_ok v2) as Hok2 by by apply store_ok.
  assert (shapes (live v2) = shapes (live s1.1)) as Hsh by (apply shapes_store; [done|lia]).
  assert (forall l' pa i', 0 <= i' -> word (live v2) l' pa i' =
    if decide (l' = l /\ pa = a /\ i' = i) then link (addr p) else word (live s.1) l' pa i') as Hw.
  { intros l' pa i' Hi'. unfold v2. rewrite word_store; try done; try lia; [|apply Hwf1].
    rewrite Hold, Hlj by done. fold a. case_decide; [done|]. by rewrite Hlive, word_snoc. }
  assert (wf (live v2)) as Hwf2.
  { apply (wf_new_link (live s1.1) _ l a i (addr p)); try done.
    - exists p. rewrite Hlive. split; [apply elem_of_app; right; by left|done].
    - intros pa i' Hi'. rewrite Hlive, word_snoc by done. apply link_unused; try done. apply Hg.
    - intros. rewrite Hw by done. by rewrite Hlive, word_snoc. }
  assert (Hsk := shapes_get (live v2) (live s1.1) (PageCount s.1) Hsh
    ltac:(rewrite zlen_live by done; change (PageCount v2) with (PageCount s1.1); lia)).
  rewrite Hk in Hsk. unfold shape in Hsk. injection Hsk as Hlk Hak _.
  split; cbn [on_inventory fst snd]; fold v2.
  - split; [done|done|]. unfold owned_by. cbn [on_inventory fst snd]. fold v2.
    rewrite (shapes_addresses _ _ Hsh). apply Hg1.
  - change (PageCount v2) with (PageCount s1.1). lia.
  - by rewrite Hlk.
  - by rewrite Hw, Hak, decide_True by (done || lia).
  - exists [shape p]. split.
    + split; cbn [on_inventory fst snd]; fold v2.
      * rewrite Hsh, Hlive. unfold shapes. by rewrite fmap_app.
      * by eapply same_mappings_trans.
      * rewrite Hheld. cbn. by rewrite union_empty_r_L.
      * by intros c ->%list_elem_of_singleton.
      * intros sh ->%list_elem_of_singleton. cbn. lia.
      * intros l' pa i' Hi'. rewrite Hw by done. case_decide as Hc; [|by left]. right.
        destruct Hc as (-> & -> & ->). split_and!; [done|lia|lia|lia|]. exists (addr p).
        split; [by left|done].
      * intros r n Hn. apply (walk_link (live s.1) (live v2) l a i (addr p)); try done;
          [apply Hg|apply Hp|].
        intros i'. apply word_out. intros Hh. by apply has_address in Hh.
    + intros c Hc. rewrite Hak. by apply list_elem_of_singleton in Hc.
Qed.

Lemma get_child s j l i :
  good s -> 0 <= j < PageCount s.1 -> Level (live s.1) .[ j ] = l -> 0 <= l < 2 ->
  0 <= i < width l ->
  wp (AppleAgxUatGetChild j i (l + 1) A) (child_found s j l i)
    (fun e s' => unchanged s s' /\ out_of_pages e) s.
Proof.
  intros Hg Hj Hlj Hl Hi. unfold AppleAgxUatGetChild. apply ewp_bind, ewp_gets.
  destruct (Z.eqb_spec (entry s.1 j i) 0) as [E|E]; cbn [negb].
  - apply ewp_bind. eapply ewp_mono; [apply allocate_recorded; [apply Hg|lia]| |done].
    intros k s1 Hal. apply ewp_bind, ewp_gets. cbn beta.
    assert (Hg1 := allocated_good _ _ _ _ Hg Hal).
    assert (frame_ok (pg_PhysicalAddress (pages s1.1) .[ k ])) as Hf.
    { destruct Hal as [-> Hok1 _ (p & Hp & _ & _ & _ & Hlive & _)].
      assert (PageCount s1.1 = PageCount s.1 + 1) as Hpc.
      { rewrite <- (zlen_live s1.1), Hlive, zlen_app, zlen_live by (done || apply Hg). done. }
      assert (Hcount := ok_page_count _ (good_ok s Hg)).
      rewrite <- live_get by lia. apply (page_ok_get (live s1.1)); [apply Hg1|].
      rewrite zlen_live by done. lia. }
    rewrite table_descriptor_cases by apply Hf.
    rewrite bool_decide_false by (destruct Hf as [_ Hf]; lia).
    rewrite bool_decide_false by (destruct Hf; lia).
    apply ewp_bind, ewp_ret, ewp_bind, ewp_modify, ewp_ret. by apply linked_child.
  - destruct (existing_child s j l i) as (Ht & k & Hk & Hcf); try done.
    change APPLE_AGX_UAT_TABLE_DESCRIPTOR_MASK with 3. rewrite Ht. unfold frame in Hk.
    rewrite Hk. by apply ewp_ret.
Qed.

Record leaf_found s (root va : Z) (leaf : leaf_ptr) s' : Prop := {
  lf_good : good s';
  lf_page : 0 <= leaf.1 < PageCount s'.1 /\ Level (live s'.1) .[ leaf.1 ] = 2;
  lf_table : addr (live s'.1) .[ leaf.1 ] =
    table2 (live s'.1) (addr (live s.1) .[ root ]) (page_number va);
  lf_index : leaf.2 = index2 (page_number va);
  lf_link : word (live s'.1) 1 (table1 (live s'.1) (addr (live s.1) .[ root ]) (page_number va))
    (index1 (page_number va)) <> 0;
  lf_grows : exists ex, grows s ex s' /\ forall c, c ∈ shape_addresses ex ->
    c = table1 (live s'.1) (addr (live s.1) .[ root ]) (page_number va) \/
    c = table2 (live s'.1) (addr (live s.1) .[ root ]) (page_number va);
}.

Lemma page_frame_ok s k : good s -> 0 <= k < PageCount s.1 -> frame_ok (addr (live s.1) .[ k ]).
Proof.
  intros Hg Hk. apply (page_ok_get (live s.1)); [apply Hg|]. by rewrite zlen_live by apply Hg.
Qed.

Lemma find_leaf s root va :
  good s -> 0 <= root < PageCount s.1 -> Level (live s.1) .[ root ] = 0 -> 0 <= va ->
  wp (AppleAgxUatFindLeaf root va A) (leaf_found s root va)
    (fun e s' => good s' /\ (exists ex, grows s ex s') /\ out_of_pages e) s.
Proof.
  intros Hg Hr Hl0 Hva. unfold AppleAgxUatFindLeaf.
  destruct (level_indices va Hva) as (-> & -> & ->).
  set (n := page_number va). set (r := addr (live s.1) .[ root ]).
  destruct (index_bounds n (page_number_page va)) as (B0 & B1 & B2).
  apply ewp_bind. eapply ewp_mono; [by apply (get_child s root 0)| |].
  2: { intros e s' [[Heq Hh] He]. split_and!; [|exists []|done].
       - destruct s as [v w], s' as [v' w']. cbn in *. subst. destruct Hg. split; try done.
         cbn in *. by rewrite Hh.
       - destruct s as [v w], s' as [v' w']. cbn in *. subst. destruct (grows_refl (v, w)).
         split; try done. cbn in *. rewrite Hh. set_solver. }
  intros k1 s1 [Hg1 Hk1 Hlk1 Hlink1 (ex1 & Hgr1 & Hex1)]. cbn beta. fold r in Hlink1.
  set (c1 := addr (live s1.1) .[ k1 ]) in *. assert (frame_ok c1) as Hf1 by by apply page_frame_ok.
  assert (table1 (live s1.1) r n = c1) as Ht1 by (unfold table1; by rewrite Hlink1, frame_link).
  apply ewp_bind. eapply ewp_mono; [by apply (get_child s1 k1 1)| |].
  2: { intros e s' [[Heq Hh] He].
       assert (good s' /\ grows s ex1 s') as [? ?]; [|by split_and!; [|exists ex1|]].
       destruct s1 as [v w], s' as [v' w']. cbn in *. subst. split.
       - destruct Hg1. split; try done. cbn in *. by rewrite Hh.
       - destruct Hgr1. split; try done. cbn in *. by rewrite Hh. }
  intros k2 s2 [Hg2 Hk2 Hlk2 Hlink2 (ex2 & Hgr2 & Hex2)]. apply ewp_ret. fold c1 in Hlink2.
  set (c2 := addr (live s2.1) .[ k2 ]) in *. assert (frame_ok c2) as Hf2 by by apply page_frame_ok.
  assert (table1 (live s2.1) r n = c1) as Ht1'.
  { unfold table1. rewrite (grows_word s1 ex2 s2), Hlink1, frame_link; try done; try lia.
    rewrite Hlink1. apply link_nonzero. }
  assert (table2 (live s2.1) r n = c2) as Ht2.
  { unfold table2. by rewrite Ht1', Hlink2, frame_link. }
  split; cbn [fst snd]; try done.
  - fold r n. rewrite Ht1', Hlink2. apply link_nonzero.
  - fold r n. exists (ex1 ++ ex2). split; [by eapply grows_trans|]. intros c.
    unfold shape_addresses. rewrite fmap_app, elem_of_app.
    rewrite Ht1', Ht2. intros [Hc|Hc]; [left; by apply Hex1|right; by apply Hex2].
Qed.

(** ** Writing leaves *)

Lemma owned_shapes ps qs : shapes ps = shapes qs -> owned_by ps = owned_by qs.
Proof. intros He. unfold owned_by. by rewrite (shapes_addresses _ _ He). Qed.

Lemma store_leaf_good s k n r x :
  good s -> 0 <= k < PageCount s.1 -> Level (live s.1) .[ k ] = 2 -> is_page n ->
  addr (live s.1) .[ k ] = table2 (live s.1) r n ->
  let s' := on_inventory (store_leaf (Some (k, index2 n)) x) s in
  good s' /\ shapes (live s'.1) = shapes (live s.1) /\ same_mappings s.1 s'.1 /\
  (forall l pa i, 0 <= i -> word (live s'.1) l pa i =
     if decide (l = 2 /\ pa = table2 (live s.1) r n /\ i = index2 n) then x
     else word (live s.1) l pa i) /\
  (forall r' n', is_page n' -> table2 (live s'.1) r' n' = table2 (live s.1) r' n' /\
     view (live s'.1) r' n' = if decide (r' = r /\ n' = n) then x else view (live s.1) r' n').
Proof.
  intros Hg Hk Hl Hn Ht s'. destruct (index_bounds n Hn) as (_ & _ & B2).
  assert (Hd := good_nodup s Hg). destruct (Hg) as [Hok Hwf Ho].
  assert (shapes (live s'.1) = shapes (live s.1)) as Hsh by by apply shapes_store.
  assert (forall l pa i, 0 <= i -> word (live s'.1) l pa i =
    if decide (l = 2 /\ pa = table2 (live s.1) r n /\ i = index2 n) then x
    else word (live s.1) l pa i) as Hw.
  { intros l pa i Hi. rewrite <- Ht, <- Hl. by apply word_store; try apply Hwf. }
  assert (table2 (live s.1) r n <> 0) as Hz.
  { rewrite <- Ht. apply (page_ok_get (live s.1)); [apply Hwf|]. by rewrite zlen_live. }
  split_and!; try done.
  - split; [by apply store_ok| |by rewrite (owned_shapes _ _ Hsh)].
    apply (wf_shrink (live s.1)); [done|done|]. intros l pa i Hll Hi. left.
    rewrite Hw by lia. rewrite decide_False by lia. done.
  - by apply (walk_leaf (live s.1) (live s'.1) r n x).
Qed.

(** ** Giving pages back *)

Lemma release_page_held p s :
  addr p ∈ held s.2 ->
  (release_page A p s).1 = s.1 /\ held (release_page A p s).2 = held s.2 ∖ {[ addr p ]}.
Proof.
  intros Hp. destruct law_release as (g & Hg & Hrel). unfold release_page. rewrite Hg. cbn.
  split; [done|]. by apply Hrel.
Qed.

Lemma live_last v ps p :
  inv_ok v -> live v = ps ++ [p] ->
  PageCount v = zlen ps + 1 /\ (pages v) .[ PageCount v - 1 ] = p /\ prefix_list (pages v) (zlen ps) = ps.
Proof.
  intros Hok Hl. assert (PageCount v = zlen ps + 1) as Hc.
  { rewrite <- (zlen_live v Hok), Hl. by rewrite zlen_app. }
  assert (0 <= zlen ps) by (unfold zlen; lia). split_and!; [done|..].
  - rewrite <- live_get by lia. rewrite Hl, get_app by lia. rewrite decide_False by lia.
    by replace (PageCount v - 1 - zlen ps) with 0 by lia.
  - rewrite <- (prefix_of_prefix (pages v) (PageCount v)) by lia. fold (live v). rewrite Hl.
    unfold prefix_list, zlen. rewrite Nat2Z.id. apply take_app_length.
Qed.

Lemma release_last_spec s ps p :
  inv_ok s.1 -> live s.1 = ps ++ [p] -> addr p ∈ held s.2 ->
  let s' := release_last A s in
  inv_ok s'.1 /\ live s'.1 = ps /\ same_mappings s.1 s'.1 /\
  held s'.2 = held s.2 ∖ {[ addr p ]}.
Proof.
  intros Hok Hl Hp s'. destruct (live_last _ _ _ Hok Hl) as (Hc & Hlast & Hpre).
  assert (0 <= zlen ps) by (unfold zlen; lia). unfold s', release_last. rewrite Hlast.
  destruct (release_page_held p s Hp) as [E Hh]. unfold on_inventory. rewrite E.
  assert (Hcount := ok_page_count _ Hok). split_and!; [|..|done|done].
  - apply inv_ok_set_page; [done|lia].
  - unfold live. change (pages (fst (?v, _))) with (pages v). cbn [fst].
    change (pages (set_field _ _ _)) with ((pages s.1) .[ PageCount s.1 - 1 <- page_zero ]).
    change (PageCount (set_field _ _ _)) with (PageCount s.1 - 1).
    rewrite Hc, Z.add_simpl_r, prefix_set_out by lia. done.
Qed.

Lemma release_from s ps ex :
  inv_ok s.1 -> live s.1 = ps ++ ex -> NoDup (addresses (live s.1)) ->
  owned_by (live s.1) ⊆ held s.2 ->
  let s' := AppleAgxUatReleaseFrom (zlen ps) A s in
  inv_ok s'.1 /\ live s'.1 = ps /\ same_mappings s.1 s'.1 /\
  held s'.2 = held s.2 ∖ owned_by ex.
Proof.
  intros Hok Hl Hd Ho. unfold AppleAgxUatReleaseFrom.
  assert (PageCount s.1 - zlen ps = zlen ex) as ->.
  { rewrite <- (zlen_live _ Hok), Hl, zlen_app. lia. }
  rewrite Hl in Hd, Ho. rewrite owned_app in Ho. unfold addresses in Hd. rewrite fmap_app in Hd.
  apply NoDup_app in Hd as (_ & _ & Hd).
  refine (_ (for_range_inv (fun k s' => exists ex1 ex2, ex = ex1 ++ ex2 /\ zlen ex2 = k /\
    inv_ok s'.1 /\ live s'.1 = ps ++ ex1 /\ same_mappings s.1 s'.1 /\
    held s'.2 = held s.2 ∖ owned_by ex2) 0 (zlen ex) (fun _ s => release_last A s) s _ _ _)).
  - intros (ex1 & ex2 & He & Hz & Hok' & Hl' & Hs & Hh).
    assert (ex1 = []) as ->.
    { rewrite He, zlen_app in Hz. destruct ex1; [done|]. unfold zlen in Hz. simpl in Hz. lia. }
    rewrite app_nil_r in Hl'. simpl in He. by subst.
  - unfold zlen. lia.
  - exists ex, []. rewrite app_nil_r. split_and!; try done. unfold owned_by. cbn. set_solver.
  - intros k s' Hk (ex1 & ex2 & He & Hz & Hok' & Hl' & Hs & Hh).
    destruct ex1 as [|p ex1 _] using rev_ind; [subst; simpl in Hk; lia|].
    rewrite app_assoc in Hl'. subst ex.
    assert (addr p ∉ addresses ex2) as Hnp.
    { rewrite !fmap_app in Hd. apply NoDup_app in Hd as (_ & Hd & _). apply Hd.
      rewrite elem_of_app. right. by apply list_elem_of_singleton. }
    destruct (release_last_spec s' (ps ++ ex1) p Hok' Hl') as (Hok1 & Hl1 & Hs1 & Hh1).
    { rewrite Hh. apply elem_of_difference. rewrite owned_elem. split; [|done].
      apply Ho. rewrite elem_of_union. right. rewrite owned_elem. unfold addresses.
      rewrite !fmap_app, !elem_of_app. left. right. by apply list_elem_of_singleton. }
    exists ex1, (p :: ex2). split_and!; [by rewrite <- app_assoc|..|done|done|by eapply same_mappings_trans|].
    + unfold zlen in *. simpl. lia.
    + rewrite Hh1, Hh. unfold owned_by. cbn. set_solver.
Qed.

(** ** Clearing the links to new pages *)

Lemma entry_store v j i x m k :
  inv_ok v -> Forall page_ok (live v) -> 0 <= j < PageCount v -> 0 <= i < 2048 ->
  0 <= m < PageCount v -> 0 <= k ->
  entry (store j i x v) m k = if decide (m = j /\ k = i) then x else entry v m k.
Proof.
  intros Hok Hf Hj Hi Hm Hk. unfold entry. rewrite pages_store.
  assert (Hc := ok_page_count _ Hok). assert (Ha := ok_page_array _ Hok).
  rewrite get_set_index by lia. destruct (decide (m = j)) as [->|].
  - rewrite words_set_word; [|..|done|done].
    + do 2 case_decide; tauto.
    + assert (Hp := page_ok_get _ j Hf ltac:(rewrite zlen_live by done; lia)).
      rewrite live_get in Hp by lia. by destruct Hp as (_ & _ & _ & ?).
  - by rewrite decide_False by tauto.
Qed.

(** [v'] is [v] with the selected words cleared. *)
Record sweeps v (sel : Z -> Z -> Prop) `{!forall m i, Decision (sel m i)} v' : Prop := {
  sw_ok : inv_ok v';
  sw_count : PageCount v' = PageCount v;
  sw_shapes : shapes (live v') = shapes (live v);
  sw_same : same_mappings v v';
  sw_entry : forall m i, 0 <= m < PageCount v -> 0 <= i < 2048 ->
    entry v' m i = if decide (sel m i) then 0 else entry v m i;
}.

Lemma sweeps_store v sel `{!forall m i, Decision (sel m i)}
    sel' `{!forall m i, Decision (sel' m i)} v' j t :
  sweeps v sel v' -> Forall page_ok (live v) -> 0 <= j < PageCount v -> 0 <= t < 2048 ->
  (forall m i, sel' m i <-> sel m i \/ (m = j /\ i = t)) ->
  sweeps v sel' (store j t 0 v').
Proof.
  intros [Hok Hc Hs Hsame He] Hf Hj Ht Hsel. split.
  - by apply store_ok.
  - done.
  - rewrite shapes_store; [done|done|lia].
  - done.
  - intros m i Hm Hi. rewrite entry_store; try done; try lia.
    + rewrite He by done. repeat case_decide; try done; naive_solver.
    + by eapply shapes_pages_ok.
Qed.

Lemma sweeps_ext v sel `{!forall m i, Decision (sel m i)}
    sel' `{!forall m i, Decision (sel' m i)} v' :
  sweeps v sel v' ->
  (forall m i, 0 <= m < PageCount v -> 0 <= i < 2048 -> sel' m i <-> sel m i) ->
  sweeps v sel' v'.
Proof.
  intros [Hok Hc Hs Hsame He] Hsel. split; try done. intros m i Hm Hi. rewrite He by done.
  specialize (Hsel m i Hm Hi). do 2 case_decide; tauto.
Qed.

(** An entry the code clears: it points to one of the pages from [first] on. *)
Definition stale v (first m i : Z) : Prop :=
  Level (live v) .[ m ] < 2 /\ i < width (Level (live v) .[ m ]) /\
  frame (entry v m i) ∈ addresses (drop (Z.to_nat first) (live v)).

#[local] Instance stale_dec v first m i : Decision (stale v first m i).
Proof. unfold stale. apply _. Defined.

Lemma addresses_drop v first a :
  inv_ok v -> 0 <= first ->
  a ∈ addresses (drop (Z.to_nat first) (live v)) <->
  exists c, first <= c < PageCount v /\ addr (pages v) .[ c ] = a.
Proof.
  intros Hok Hfirst. assert (Hl := zlen_live v Hok). unfold zlen in Hl. unfold addresses.
  rewrite list_elem_of_fmap. setoid_rewrite list_elem_of_lookup. setoid_rewrite lookup_drop. split.
  - intros (p & -> & c & Hc). exists (first + Z.of_nat c).
    assert (Hlt := lookup_lt_Some _ _ _ Hc). split; [lia|].
    rewrite <- live_get by lia. unfold arr_get. replace (Z.to_nat (first + Z.of_nat c))
      with (Z.to_nat first + c)%nat by lia. by rewrite (list_lookup_total_correct _ _ _ Hc).
  - intros (c & Hc & <-). exists ((live v) .[ c ]). split; [by rewrite live_get by lia|].
    exists (Z.to_nat c - Z.to_nat first)%nat. replace (Z.to_nat first + _)%nat with (Z.to_nat c) by lia.
    unfold arr_get. apply list_lookup_lookup_total_lt. lia.
Qed.

Lemma stale_found v v' first j t :
  inv_ok v -> inv_ok v' -> PageCount v' = PageCount v -> shapes (live v') = shapes (live v) ->
  Forall page_ok (live v) -> 0 <= first ->
  is_null (find_range first (PageCount v' - first) (fun child_index =>
    negb (frame (entry v' j t) =? 0) &&
    (frame (entry v' j t) =? pg_PhysicalAddress (pages v') .[ child_index ]))) = false <->
  frame (entry v' j t) ∈ addresses (drop (Z.to_nat first) (live v)).
Proof.
  intros Hok Hok' Hc Hs Hf Hfirst. assert (Hf' := shapes_pages_ok _ _ Hs Hf).
  assert (addresses (drop (Z.to_nat first) (live v)) = addresses (drop (Z.to_nat first) (live v'))) as ->.
  { apply shapes_addresses. unfold shapes in *. by rewrite !fmap_drop, Hs. }
  rewrite addresses_drop by done. destruct (find_range _ _ _) as [c|] eqn:E; cbn [is_null].
  - apply find_range_Some in E as (Hr & Hp & _). guards. split; [|done]. intros _.
    exists c. split; [lia|done].
  - rewrite find_range_None in E. split; [done|]. intros (c & Hr & Ha).
    specialize (E c ltac:(lia)). rewrite Ha, Z.eqb_refl, andb_true_r in E. guards.
    assert (Hp := page_ok_get (live v') c Hf' ltac:(rewrite zlen_live by done; lia)).
    rewrite live_get in Hp by lia. destruct Hp as (_ & Hp & _). congruence.
Qed.

Definition swept v first (j t : Z) (m i : Z) : Prop :=
  (m < j \/ (m = j /\ i < t)) /\ stale v first m i.
#[local] Instance swept_dec v first j t m i : Decision (swept v first j t m i).
Proof. unfold swept. apply _. Defined.

Lemma sweep_entry v first j t v' :
  inv_ok v -> Forall page_ok (live v) -> 0 <= first -> 0 <= j < PageCount v ->
  Level (live v) .[ j ] < 2 -> 0 <= t < width (Level (live v) .[ j ]) ->
  sweeps v (swept v first j t) v' ->
  sweeps v (swept v first j (t + 1))
    (match find_range first (PageCount v' - first) (fun child_index =>
       negb (frame (entry v' j t) =? 0) &&
       (frame (entry v' j t) =? pg_PhysicalAddress (pages v') .[ child_index ])) with
     | Some _ => store j t 0 v'
     | None => v'
     end).
Proof.
  intros Hok Hf Hfirst Hj Hl Ht Hsw. assert (Hw := width_bound (Level (live v) .[ j ])).
  assert (Hf' := stale_found v v' first j t Hok (sw_ok _ _ _ Hsw) (sw_count _ _ _ Hsw)
    (sw_shapes _ _ _ Hsw) Hf Hfirst).
  assert (entry v' j t = entry v j t) as He.
  { rewrite (sw_entry _ _ _ Hsw) by lia. rewrite decide_False; [done|]. unfold swept. lia. }
  assert (stale v first j t <-> frame (entry v' j t) ∈ addresses (drop (Z.to_nat first) (live v)))
    as Hst by (rewrite He; unfold stale; intuition lia).
  destruct (find_range _ _ _) as [c|] eqn:E; cbn [is_null] in Hf'.
  - apply (sweeps_store v (swept v first j t)); try done; [lia|].
    intros m i. unfold swept. destruct (decide (m = j /\ i = t)) as [[-> ->]|]; [|intuition lia].
    assert (stale v first j t) by tauto. intuition lia.
  - apply (sweeps_ext v (swept v first j t)); [done|]. intros m i _ _. unfold swept.
    destruct (decide (m = j /\ i = t)) as [[-> ->]|]; [|intuition lia].
    assert (~ stale v first j t) by (rewrite Hst, <- Hf'; done). tauto.
Qed.

Lemma clear_new_parents v first :
  inv_ok v -> Forall page_ok (live v) -> 0 <= first ->
  sweeps v (stale v first) (AppleAgxUatClearNewParents first v).
Proof.
  intros Hok Hf Hfirst. assert (Hcount := ok_page_count _ Hok). unfold AppleAgxUatClearNewParents.
  apply (sweeps_ext v (swept v first (PageCount v) 0)).
  2: { intros m i Hm Hi. unfold swept. intuition lia. }
  apply (for_range_inv (fun j v' => @sweeps v (swept v first j 0) (swept_dec v first j 0) v'));
    [lia|..].
  { split; try done. intros m i Hm Hi. rewrite decide_False; [done|]. unfold swept. lia. }
  intros j v' Hj Hsw. rewrite Z.add_0_l. cbn beta.
  assert (Level (pages v') .[ j ] = Level (live v) .[ j ]) as ->.
  { assert (Hs := shapes_get (live v') (live v) j (sw_shapes _ _ _ Hsw)
      ltac:(rewrite zlen_live by apply Hsw; rewrite (sw_count _ _ _ Hsw); lia)).
    rewrite live_get in Hs by (rewrite (sw_count _ _ _ Hsw); lia). unfold shape in Hs.
    by injection Hs. }
  fold (width (Level (live v) .[ j ])).
  destruct (Z.leb_spec 2 (Level (live v) .[ j ])) as [Hl|Hl].
  { apply (sweeps_ext v (swept v first j 0)); [done|]. intros m i Hm Hi. unfold swept, stale.
    destruct (decide (m = j)) as [->|]; intuition lia. }
  assert (Hw := width_bound (Level (live v) .[ j ])).
  apply (sweeps_ext v (swept v first j (width (Level (live v) .[ j ])))).
  2: { intros m i Hm Hi. unfold swept, stale. destruct (decide (m = j)) as [->|]; intuition lia. }
  apply (for_range_inv (fun t v'' => @sweeps v (swept v first j t) (swept_dec v first j t) v''));
    [|done|].
  { unfold width. destruct (_ =? 0); lia. }
  intros t v'' Ht Hsw'. rewrite Z.add_0_l. by apply sweep_entry.
Qed.

Lemma sweeps_word v sel `{!forall m i, Decision (sel m i)} v' m i :
  inv_ok v -> wf (live v) -> sweeps v sel v' -> 0 <= m < PageCount v -> 0 <= i < 2048 ->
  word (live v') (Level (live v) .[ m ]) (addr (live v) .[ m ]) i =
    if decide (sel m i) then 0 else entry v m i.
Proof.
  intros Hok Hwf Hsw Hm Hi. rewrite <- (sw_entry _ _ _ Hsw) by done.
  assert (Hc := sw_count _ _ _ Hsw). assert (Hok' := sw_ok _ _ _ Hsw).
  rewrite entry_word; [|done|rewrite (shapes_addresses _ _ (sw_shapes _ _ _ Hsw)); apply Hwf|lia].
  assert (Hs := shapes_get (live v') (live v) m (sw_shapes _ _ _ Hsw)
    ltac:(rewrite zlen_live by done; lia)).
  unfold shape in Hs. by injection Hs as -> ->.
Qed.

End ops.

End Ops.
