(* ===== verification/UatMap.v ===== *)
(** * Mapping and its rollback

    AppleAgxUatMap and AppleAgxUatMapPageList write one leaf per round and undo the
    whole call when a round fails.  [progress] relates the state after [k] rounds to
    the state before the first: what it adds (pages [ex], links to them, leaves) and
    what it leaves alone; [rollback_restores] says that undoing takes away exactly that. *)

From stdpp Require Import gmap sets.
From S2P Require Import Prelude Arrays Bytes Uat ErrorState UatTable UatHeap UatOps.
Import Uat Table Heap Ops.

Module Map.

Section map.
Context {World : Type} (A : APPLE_AGX_UAT_ALLOCATOR World) (held : World -> gset Z).
Context `{!AllocatorLaws A held}.
Implicit Types (s : APPLE_AGX_UAT_INVENTORY * World) (v : APPLE_AGX_UAT_INVENTORY)
  (l pa i j n r c va : Z) (ex : list page_shape).

Abbreviation good := (good held).
Abbreviation grows := (grows held).

(** Word [i] of the table at [pa] is the leaf of one of the first [k] pages. *)
Definition leaf_of s r n k pa i : Prop :=
  exists m, 0 <= m < k /\ pa = table2 (live s.1) r (n + m) /\ i = index2 (n + m).

Record progress s0 r n (d : Z -> Z) (k : Z) ex s : Prop := {
  pr_good : good s;
  pr_same : same_mappings s0.1 s.1;
  pr_shapes : shapes (live s.1) = shapes (live s0.1) ++ ex;
  pr_held : held s.2 = list_to_set (shape_addresses ex) ∪ held s0.2;
  pr_fresh : forall c, c ∈ shape_addresses ex -> c ∉ held s0.2;
  pr_levels : forall sh, sh ∈ ex -> 1 <= sh.1.1 <= 2;
  pr_words : forall l pa i, 0 <= i ->
    word (live s.1) l pa i = word (live s0.1) l pa i \/
    (word (live s0.1) l pa i = 0 /\
     ((0 <= l < 2 /\ i < width l /\
       exists c, c ∈ shape_addresses ex /\ word (live s.1) l pa i = link c) \/
      (l = 2 /\ leaf_of s r n k pa i)));
  pr_done : forall m, 0 <= m < k -> view (live s.1) r (n + m) = d m;
  pr_empty : forall m, 0 <= m < k -> view (live s0.1) r (n + m) = 0 /\
    word (live s0.1) 2 (table2 (live s.1) r (n + m)) (index2 (n + m)) = 0;
  pr_rest : forall r' n', is_page n' -> ~ (r' = r /\ n <= n' < n + k) ->
    view (live s.1) r' n' = view (live s0.1) r' n';
}.

Lemma progress_refl s r n d : good s -> progress s r n d 0 [] s.
Proof.
  intros Hg. split; try done; try (intros; lia);
    [by rewrite app_nil_r|set_solver|by intros ? ?%elem_of_nil|by intros ? ?%elem_of_nil].
Qed.

Lemma view_table ps r n : Forall page_ok ps -> view ps r n <> 0 -> table2 ps r n <> 0.
Proof. intros Hf Hv E. apply Hv. unfold view. rewrite E. by apply word_null. Qed.

Section one.
Context (s0 : APPLE_AGX_UAT_INVENTORY * World) (r n K : Z) (d : Z -> Z).
Hypothesis (Hpages : 0 <= n /\ n + K <= 2 ^ 25).
Hypothesis (Hdesc : forall m, 0 <= m < K -> d m <> 0).

Lemma range_page m : 0 <= m < K -> is_page (n + m).
Proof. unfold is_page. lia. Qed.

Lemma progress_grows k ex s ex' s' :
  k <= K -> progress s0 r n d k ex s -> grows s ex' s' -> good s' ->
  progress s0 r n d k (ex ++ ex') s'.
Proof.
  intros Hk Hp Hgr Hg'. assert (Hg := pr_good _ _ _ _ _ _ _ Hp).
  assert (forall c, c ∈ shape_addresses (ex ++ ex') <->
    c ∈ shape_addresses ex \/ c ∈ shape_addresses ex') as Hin.
  { intros c. unfold shape_addresses. by rewrite fmap_app, elem_of_app. }
  assert (forall m, 0 <= m < k -> table2 (live s'.1) r (n + m) = table2 (live s.1) r (n + m)) as Ht.
  { intros m Hm. apply (grows_tables held s ex' s'); try done; [apply range_page; lia|].
    apply view_table; [apply Hg|]. rewrite (pr_done _ _ _ _ _ _ _ Hp) by done. apply Hdesc. lia. }
  assert (forall m, 0 <= m < k -> is_page (n + m)) as Hpg by (intros; apply range_page; lia).
  destruct Hp as [_ Hm Hs Hh Hf Hl Hw Hd He Hr], Hgr as [Hs' Hm' Hh' Hf' Hl' Hw' Hv']. split.
  - done.
  - by eapply same_mappings_trans.
  - by rewrite Hs', Hs, app_assoc.
  - rewrite Hh', Hh. apply set_eq. intros c. rewrite !elem_of_union, !elem_of_list_to_set, Hin. tauto.
  - intros c [Hc|Hc]%Hin; [by apply Hf|]. apply Hf' in Hc. rewrite Hh in Hc. set_solver.
  - intros sh [?|?]%elem_of_app; auto.
  - intros l pa i Hi. setoid_rewrite Hin.
    assert (leaf_of s r n k pa i -> leaf_of s' r n k pa i) as Hlf.
    { intros (m & Hmk & -> & ->). exists m. by rewrite Ht. }
    destruct (Hw' l pa i Hi) as [E'|(E' & Hlw' & Hiw' & c' & Hc' & E1')].
    + rewrite E'. destruct (Hw l pa i Hi) as [E|(E & [(Hlw & Hiw & c & Hc & E1)|[-> Hlk]])].
      * by left.
      * right. split; [done|]. left. split_and!; try tauto. exists c. auto.
      * right. auto.
    + right. split.
      * destruct (Hw l pa i Hi) as [E|[E _]]; congruence.
      * left. split_and!; try tauto. exists c'. auto.
  - intros m Hmk. by rewrite Hv', Hd by auto.
  - intros m Hmk. rewrite Ht by done. by apply He.
  - intros r' n' Hn' Hne. by rewrite Hv', Hr.
Qed.

Lemma progress_leaf k ex s j :
  0 <= k < K -> progress s0 r n d k ex s -> 0 <= j < PageCount s.1 ->
  Level (live s.1) .[ j ] = 2 -> addr (live s.1) .[ j ] = table2 (live s.1) r (n + k) ->
  view (live s.1) r (n + k) = 0 ->
  progress s0 r n d (k + 1) ex (on_inventory (store_leaf (Some (j, index2 (n + k))) (d k)) s).
Proof.
  intros Hk Hp Hj Hl Ht Hz. assert (Hg := pr_good _ _ _ _ _ _ _ Hp).
  assert (is_page (n + k)) as Hn by (apply range_page; lia).
  destruct (store_leaf_good held s j (n + k) r (d k) Hg Hj Hl Hn Ht) as (Hg' & Hs' & Hm' & Hw' & Hv').
  set (s' := on_inventory _ s) in *.
  assert (forall m, 0 <= m < k + 1 -> is_page (n + m)) as Hpg by (intros; apply range_page; lia).
  assert (word (live s0.1) 2 (table2 (live s.1) r (n + k)) (index2 (n + k)) = 0) as Hz0.
  { destruct (index_bounds _ Hn) as (_ & _ & B2).
    destruct (pr_words _ _ _ _ _ _ _ Hp 2 (table2 (live s.1) r (n + k)) (index2 (n + k)))
      as [E|[E _]]; [lia| |done]. rewrite <- E. done. }
  destruct Hp as [_ Hm Hs Hh Hf Hlv Hw Hd He Hr]. split; try done.
  - by rewrite Hs'.
  - intros l pa i Hi. rewrite Hw' by done. case_decide as Hc.
    + right. destruct Hc as (-> & -> & ->). split; [done|]. right. split; [done|]. exists k.
      split; [lia|]. split; [|done]. symmetry. by apply Hv'.
    + destruct (Hw l pa i Hi) as [E|(E & [?|[-> (m & Hmk & -> & ->)]])]; [auto|auto|].
      right. split; [done|]. right. split; [done|]. exists m. split; [lia|].
      split; [|done]. symmetry. apply Hv', Hpg. lia.
  - intros m Hm1. destruct (Hv' r (n + m)) as [_ ->]; [by apply Hpg|].
    case_decide as Hc; [by replace k with m by lia|]. apply Hd. lia.
  - intros m Hm1. destruct (Hv' r (n + m)) as [-> _]; [by apply Hpg|].
    destruct (decide (m = k)) as [->|]; [|apply He; lia].
    split; [|done]. rewrite <- (Hr r (n + k)); [done|done|lia].
  - intros r' n' Hn' Hne. destruct (Hv' r' n' Hn') as [_ ->].
    rewrite decide_False by (intros [-> ->]; apply Hne; lia). apply Hr; [done|]. intros [? ?].
    apply Hne. lia.
Qed.
End one.

(** ** Writing the existing leaves of a range *)

Lemma clear_existing_leaf_store root va v :
  clear_existing_leaf root va v =
  store_leaf (AppleAgxUatFindExistingLeaf root va v).2 0 v.
Proof.
  unfold clear_existing_leaf, AppleAgxUatFindExistingLeaf.
  destruct (AppleAgxUatFindPage v _ 1) as [j|]; [|done].
  by destruct (AppleAgxUatFindPage v _ 2) as [k|].
Qed.

(** [for (k = 0; k < count; ++k) *leaf(va + k pages) = x(k)]. *)
Definition write_leaves (root va count : Z) (x : Z -> Z) v : APPLE_AGX_UAT_INVENTORY :=
  for_range 0 count (fun k v =>
    store_leaf (AppleAgxUatFindExistingLeaf root (u64 (va + step_offset k)) v).2 (x k) v) v.

Record leaves_written s r n k (x : Z -> Z) s' : Prop := {
  lw_good : good s';
  lw_shapes : shapes (live s'.1) = shapes (live s.1);
  lw_same : same_mappings s.1 s'.1;
  lw_world : s'.2 = s.2;
  lw_words : forall l pa i, 0 <= i ->
    word (live s'.1) l pa i = word (live s.1) l pa i \/ (l = 2 /\ leaf_of s r n k pa i);
  lw_at : forall m, 0 <= m < k ->
    word (live s'.1) 2 (table2 (live s.1) r (n + m)) (index2 (n + m)) = x m;
  lw_walk : forall r' n', is_page n' -> table2 (live s'.1) r' n' = table2 (live s.1) r' n' /\
    view (live s'.1) r' n' =
      if decide (r' = r /\ n <= n' < n + k) then x (n' - n) else view (live s.1) r' n';
}.

Lemma shapes_index s s' j :
  inv_ok s.1 -> shapes (live s'.1) = shapes (live s.1) -> 0 <= j < PageCount s.1 ->
  Level (live s'.1) .[ j ] = Level (live s.1) .[ j ] /\
  addr (live s'.1) .[ j ] = addr (live s.1) .[ j ].
Proof.
  intros Hok Hs Hj. eapply (shapes_app_get _ _ []); [by rewrite app_nil_r|]. by rewrite zlen_live.
Qed.

Lemma shapes_count s s' :
  inv_ok s.1 -> inv_ok s'.1 -> shapes (live s'.1) = shapes (live s.1) -> PageCount s'.1 = PageCount s.1.
Proof.
  intros Hok Hok' Hs. apply shapes_zlen in Hs. by rewrite !zlen_live in Hs.
Qed.

Lemma leaves_written_step s r n k x s1 root va :
  good s -> leaves_written s r n k x s1 -> 0 <= k -> 0 <= n ->
  0 <= root < PageCount s.1 -> Level (live s.1) .[ root ] = 0 -> addr (live s.1) .[ root ] = r ->
  0 <= va -> page_number va = n + k -> has (live s.1) 2 (table2 (live s.1) r (n + k)) ->
  leaves_written s r n (k + 1) x
    (on_inventory (fun v => store_leaf (AppleAgxUatFindExistingLeaf root va v).2 (x k) v) s1).
Proof.
  intros Hg Hlw Hk Hn0 Hr Hl0 Ha Hva Hpn Hhas. destruct Hlw as [Hg1 Hs1 Hm1 Hw1 Hwd1 Hat1 Hwalk1].
  assert (is_page (n + k)) as Hn by (rewrite <- Hpn; apply page_number_page).
  assert (Hcnt := shapes_count s s1 (good_ok _ _ Hg) (good_ok _ _ Hg1) Hs1).
  destruct (shapes_index s s1 root (good_ok _ _ Hg) Hs1 Hr) as [El Ea].
  destruct (existing_leaf s1.1 root va) as [(j & Hj & Hjb & Hlj & Haj)|[_ Hno]];
    [apply Hg1|apply Hg1|lia|congruence|done|..].
  2: { destruct Hno. rewrite Ea, Ha, Hpn. destruct (Hwalk1 r (n + k) Hn) as [-> _].
       by eapply shapes_has. }
  rewrite Ea, Ha, Hpn in Haj. rewrite Hpn in Hj.
  unfold on_inventory. rewrite Hj. cbn [snd]. fold (on_inventory (store_leaf (Some (j, index2 (n + k))) (x k)) s1).
  destruct (store_leaf_good held s1 j (n + k) r (x k) Hg1 Hjb Hlj Hn Haj)
    as (Hg2 & Hs2 & Hm2 & Hwd2 & Hwalk2).
  set (s2 := on_inventory _ s1) in *.
  destruct (Hwalk1 r (n + k) Hn) as [Et _].
  rewrite Et in Hwd2. split; try done.
  - by rewrite Hs2.
  - intros l pa i Hi. rewrite Hwd2 by done. case_decide as Hc.
    + right. destruct Hc as (-> & -> & ->). split; [done|]. exists k. split_and!; [lia|lia|done|done].
    + destruct (Hwd1 l pa i Hi) as [E|(-> & m & Hm & -> & ->)]; [by left|]. right. split; [done|].
      exists m. split_and!; [lia|lia|done|done].
  - intros m Hm. assert (0 <= index2 (n + m)) as Hi2 by (by apply Z.mod_pos_bound).
    rewrite Hwd2 by done. case_decide as Hc.
    + destruct (decide (m = k)) as [->|]; [done|]. destruct Hc as (_ & Ht & Hi).
      exfalso. assert (n + m = n + k); [|lia].
      apply (walk_inj (live s.1) r (n + m) r (n + k)); try done; [apply Hg| |].
      * unfold is_page in *. lia.
      * rewrite Ht. by apply (has_frame (live s.1) 2); [apply Hg|].
    + destruct (decide (m = k)) as [->|]; [exfalso; by apply Hc|]. apply Hat1. lia.
  - intros r' n' Hn'. destruct (Hwalk2 r' n' Hn') as [Et2 Ev2], (Hwalk1 r' n' Hn') as [Et1 Ev1].
    split; [congruence|]. rewrite Ev2, Ev1. destruct (decide (r' = r /\ n' = n + k)) as [Hc|Hc].
    + destruct Hc as [-> ->]. rewrite decide_True by lia. f_equal. lia.
    + repeat case_decide; try done; lia.
Qed.

(** The addresses of a range and the pages they are in. *)
Definition range_at va n (count : Z) : Prop :=
  0 <= n /\ forall k, 0 <= k < count -> page_number (u64 (va + step_offset k)) = n + k.

Lemma write_leaves_spec s root va n count x :
  good s -> 0 <= count -> range_at va n count ->
  0 <= root < PageCount s.1 -> Level (live s.1) .[ root ] = 0 ->
  (forall k, 0 <= k < count ->
     has (live s.1) 2 (table2 (live s.1) (addr (live s.1) .[ root ]) (n + k))) ->
  leaves_written s (addr (live s.1) .[ root ]) n count x
    (on_inventory (write_leaves root va count x) s).
Proof.
  intros Hg Hc [Hn Hva] Hr Hl0 Hhas. unfold write_leaves, on_inventory.
  apply (for_range_inv (fun k v => leaves_written s (addr (live s.1) .[ root ]) n k x (v, s.2)));
    [done|..].
  { destruct s as [v w]. split; try done; auto; [lia|]. intros r' n' _. split; [done|].
    by rewrite decide_False by lia. }
  intros k v Hk Hlw. rewrite Z.add_0_l.
  apply (leaves_written_step s _ n k x (v, s.2) root (u64 (va + step_offset k))); try done; try lia.
  - apply wrap_fits. lia.
  - by apply Hva.
  - by apply Hhas.
Qed.

Lemma page_steps_offset k : page_steps (step_offset k) = k.
Proof.
  unfold page_steps, step_offset, J313_AGX_G2_PAGE_SIZE. Z.to_euclidean_division_equations. lia.
Qed.

(** ** Rolling back *)

(** The inventory and the allocator as they were. *)
Record restored s0 s : Prop := {
  rs_ok : inv_ok s.1;
  rs_live : live s.1 = live s0.1;
  rs_same : same_mappings s0.1 s.1;
  rs_held : held s.2 = held s0.2;
}.

Lemma drop_shapes ps qs ex :
  shapes qs = shapes ps ++ ex -> addresses (drop (length ps) qs) = shape_addresses ex.
Proof.
  intros Hs. unfold addresses, shape_addresses.
  replace ex with (drop (length ps) (shapes qs)).
  - unfold shapes. rewrite <- fmap_drop, <- list_fmap_compose. done.
  - rewrite Hs. rewrite drop_app_length'; [done|]. unfold shapes. by rewrite length_fmap.
Qed.

Section rollback.
Context (s0 : APPLE_AGX_UAT_INVENTORY * World) (r n K : Z) (d : Z -> Z) (root va : Z).
Hypothesis (Hg0 : good s0).
Hypothesis (Hpages : 0 <= n /\ n + K <= 2 ^ 25).
Hypothesis (Hdesc : forall m, 0 <= m < K -> d m <> 0).
Hypothesis (Hrange : range_at va n K).
Hypothesis (Hroot : 0 <= root < PageCount s0.1).
Hypothesis (Hlevel : Level (live s0.1) .[ root ] = 0).
Hypothesis (Haddr : addr (live s0.1) .[ root ] = r).

(** A word of an old page after clearing the leaves and the links to new pages. *)
Lemma old_word k ex s s1 l pa i :
  progress s0 r n d k ex s -> leaves_written s r n k (fun _ => 0) s1 ->
  has (live s0.1) l pa -> 0 <= i < 2048 ->
  (if decide (l < 2 /\ i < width l /\ frame (word (live s1.1) l pa i) ∈ shape_addresses ex)
   then 0 else word (live s1.1) l pa i) = word (live s0.1) l pa i.
Proof.
  intros Hp Hlw Hhas Hi. assert (Hf0 := has_frame _ _ _ (wf_pages _ (good_wf _ _ Hg0)) Hhas).
  assert (word (live s0.1) l pa i <> 0 -> l < 2 -> i < width l ->
    frame (word (live s0.1) l pa i) ∉ shape_addresses ex) as Hold.
  { intros Hnz Hl Hw Hin.
    destruct (wf_link _ (good_wf _ _ Hg0) l pa i ltac:(lia) ltac:(lia) Hnz) as (c & Hc & E).
    assert (Hfc := has_frame _ _ _ (wf_pages _ (good_wf _ _ Hg0)) Hc).
    rewrite E, frame_link in Hin by apply Hfc. apply (pr_fresh _ _ _ _ _ _ _ Hp c Hin).
    apply (good_owned _ _ Hg0). rewrite owned_elem. by eapply has_address. }
  destruct (lw_words _ _ _ _ _ _ Hlw l pa i) as [E|(-> & m & Hm & -> & ->)]; [lia|..].
  - rewrite E. destruct (pr_words _ _ _ _ _ _ _ Hp l pa i)
      as [E0|(E0 & [(Hl & Hw & c & Hc & E1)|[-> (m & Hm & -> & ->)]])]; [lia|..].
    + rewrite E0. case_decide as Hd; [|done]. destruct Hd as (Hl & Hw & Hin).
      destruct (decide (word (live s0.1) l pa i = 0)); [done|]. exfalso. by apply Hold.
    + rewrite E0, E1, decide_True; [done|]. split_and!; [lia|done|].
      assert (frame_ok c) as Hfc; [|by rewrite frame_link].
      assert (c ∈ addresses (live s.1)) as Hca.
      { assert (addresses (live s.1) = addresses (live s0.1) ++ shape_addresses ex) as ->.
        { unfold addresses, shape_addresses.
          assert (forall ps, addr <$> ps = (fun sh : page_shape => sh.1.2) <$> shapes ps) as Hmap.
          { intros ps. unfold shapes. by rewrite <- list_fmap_compose. }
          by rewrite !Hmap, (pr_shapes _ _ _ _ _ _ _ Hp), fmap_app. }
        rewrite elem_of_app. auto. }
      unfold addresses in Hca. apply list_elem_of_fmap in Hca as (q & -> & Hq).
      assert (Hfs := wf_pages _ (good_wf _ _ (pr_good _ _ _ _ _ _ _ Hp))).
      rewrite Forall_forall in Hfs. by destruct (Hfs q Hq).
    + rewrite decide_False by lia. rewrite E0, <- E. by apply (lw_at _ _ _ _ _ _ Hlw).
  - rewrite decide_False by lia. rewrite (lw_at _ _ _ _ _ _ Hlw) by done.
    symmetry. by apply (pr_empty _ _ _ _ _ _ _ Hp).
Qed.

Lemma progress_root k ex s :
  progress s0 r n d k ex s ->
  0 <= root < PageCount s.1 /\ Level (live s.1) .[ root ] = 0 /\ addr (live s.1) .[ root ] = r.
Proof.
  intros Hp. assert (Hsh := pr_shapes _ _ _ _ _ _ _ Hp). assert (Hl0 := zlen_live _ (good_ok _ _ Hg0)).
  destruct (shapes_app_get _ _ _ root Hsh) as [-> ->]; [by rewrite Hl0|]. split; [|done].
  apply (f_equal zlen) in Hsh. rewrite zlen_app in Hsh. unfold shapes, zlen in Hsh.
  rewrite !length_fmap in Hsh.
  assert (Hl := zlen_live _ (good_ok _ _ (pr_good _ _ _ _ _ _ _ Hp))). unfold zlen in *. lia.
Qed.

Lemma rollback_restores k ex s :
  progress s0 r n d k ex s -> 0 <= k <= K ->
  restored s0 (AppleAgxUatRollbackMap root va (step_offset k) (PageCount s0.1) A s).
Proof.
  intros Hp Hk. assert (Hg := pr_good _ _ _ _ _ _ _ Hp). assert (Hsh := pr_shapes _ _ _ _ _ _ _ Hp).
  assert (Hok0 := good_ok _ _ Hg0). assert (Hl0 := zlen_live _ Hok0).
  assert (length (live s0.1) = Z.to_nat (PageCount s0.1)) as Hlen by (unfold zlen in Hl0; lia).
  destruct (progress_root k ex s Hp) as (Hroot' & Hlevel' & Haddr').
  unfold AppleAgxUatRollbackMap. rewrite page_steps_offset.
  assert (leaves_written s r n k (fun _ => 0) (on_inventory (write_leaves root va k (fun _ => 0)) s)) as Hlw.
  { rewrite <- Haddr'. apply write_leaves_spec; try done; [lia| |].
    - split; [lia|]. intros m Hm. apply Hrange. lia.
    - intros m Hm. rewrite Haddr'. apply (view_present (live s.1) r (n + m)); [apply Hg|].
      rewrite (pr_done _ _ _ _ _ _ _ Hp) by done. apply Hdesc. lia. }
  assert (on_inventory (fun v => for_range 0 k (fun k v =>
      clear_existing_leaf root (u64 (va + step_offset k)) v) v) s =
    on_inventory (write_leaves root va k (fun _ => 0)) s) as ->.
  { unfold on_inventory, write_leaves. f_equal. apply for_range_ext. intros.
    by rewrite clear_existing_leaf_store. }
  set (s1 := on_inventory (write_leaves root va k (fun _ => 0)) s) in *.
  assert (Hg1 := lw_good _ _ _ _ _ _ Hlw). assert (Hok1 := good_ok _ _ Hg1).
  assert (Hsw := clear_new_parents s1.1 (PageCount s0.1) Hok1 (wf_pages _ (good_wf _ _ Hg1)) ltac:(lia)).
  set (s2 := on_inventory (AppleAgxUatClearNewParents (PageCount s0.1)) s1).
  change (AppleAgxUatClearNewParents (PageCount s0.1) s1.1) with s2.1 in Hsw.
  assert (Hok2 := sw_ok _ _ _ Hsw).
  assert (shapes (live s2.1) = shapes (live s0.1) ++ ex) as Hs2.
  { by rewrite (sw_shapes _ _ _ Hsw), (lw_shapes _ _ _ _ _ _ Hlw). }
  assert (owned_by (drop (length (live s0.1)) (live s2.1)) = list_to_set (shape_addresses ex)) as Hdrop.
  { unfold owned_by. by rewrite (drop_shapes _ _ _ Hs2). }
  destruct (release_from A held s2 (prefix_list (live s2.1) (PageCount s0.1))
    (drop (length (live s0.1)) (live s2.1))) as (Hok3 & Hl3 & Hm3 & Hh3); [done|..].
  - unfold prefix_list. rewrite <- Hlen. by rewrite take_drop.
  - rewrite (shapes_addresses _ _ (sw_shapes _ _ _ Hsw)). apply Hg1.
  - rewrite (owned_shapes _ _ (sw_shapes _ _ _ Hsw)). apply Hg1.
  - assert (zlen (live s0.1) <= zlen (live s2.1)) as Hle.
    { apply (f_equal zlen) in Hs2. rewrite zlen_app in Hs2. unfold shapes, zlen in *.
      rewrite !length_fmap in Hs2. lia. }
    rewrite zlen_prefix in * by lia. rewrite Hl0 in Hle.
    set (s3 := AppleAgxUatReleaseFrom (PageCount s0.1) A s2) in *. split; [done|..].
    + rewrite Hl3. apply pages_ext.
      * apply Forall_take. eapply shapes_pages_ok; [apply Hsw|]. apply Hg1.
      * unfold prefix_list. unfold shapes in *. rewrite <- Hlen, fmap_take, Hs2.
        apply take_app_length'. by rewrite length_fmap.
      * rewrite zlen_prefix by lia. intros j i Hj Hi. rewrite get_prefix by lia.
        assert (Hc2 := sw_count _ _ _ Hsw). rewrite zlen_live in Hle by done.
        destruct (shapes_app_get _ _ _ j (eq_trans (lw_shapes _ _ _ _ _ _ Hlw) Hsh)) as [El Ea]; [lia|].
        rewrite live_get, live_get by lia.
        change ((words (pages s2.1) .[ j ]) .[ i ]) with (entry s2.1 j i).
        change ((words (pages s0.1) .[ j ]) .[ i ]) with (entry s0.1 j i).
        rewrite (sw_entry _ _ _ Hsw) by lia.
        rewrite !entry_word by (done || apply Hg1 || apply Hg0 || lia). rewrite El, Ea.
        rewrite <- (old_word k ex s s1 _ _ i Hp Hlw (has_index (live s0.1) j ltac:(lia)) Hi).
        apply decide_ext. unfold stale. rewrite El, entry_word, El, Ea by (done || apply Hg1 || lia).
        by rewrite <- Hlen, (drop_shapes _ _ _ (eq_trans (lw_shapes _ _ _ _ _ _ Hlw) Hsh)).
    + eapply same_mappings_trans; [apply Hp|]. eapply same_mappings_trans; [apply Hlw|].
      eapply same_mappings_trans; [apply Hsw|done].
    + rewrite Hh3, Hdrop. change (held s2.2) with (held s1.2). rewrite (lw_world _ _ _ _ _ _ Hlw).
      rewrite (pr_held _ _ _ _ _ _ _ Hp). assert (Hfr := pr_fresh _ _ _ _ _ _ _ Hp).
      apply set_eq. intros c. rewrite elem_of_difference, elem_of_union, elem_of_list_to_set.
      specialize (Hfr c). tauto.
Qed.

(** ** The mapping loop *)

Lemma progress_step k ex s ex' s' :
  progress s0 r n d k ex s -> grows s ex' s' -> good s' -> 0 <= k < K ->
  progress s0 r n d k (ex ++ ex') s'.
Proof. intros. eapply (progress_grows s0 r n K d Hpages Hdesc); [lia|done..]. Qed.

(** No new table is empty. *)
Definition filled ex s : Prop := forall c, c ∈ shape_addresses ex ->
  exists l i, 0 <= i < 2048 /\ word (live s.1) l c i <> 0.

Lemma map_page_spec Context pa Protection first k ex s :
  progress s0 r n d k ex s -> filled ex s -> 0 <= k < K -> first = PageCount s0.1 ->
  AppleAgxUatEncodePageDescriptor Context pa Protection (Some 0) =
    (AppleAgxUatResultOk, Some (d k)) ->
  wp (map_page Context root va first A (u64 (va + step_offset k)) pa Protection (step_offset k))
    (fun mapped s' => mapped = step_offset (k + 1) /\
       exists ex', progress s0 r n d (k + 1) ex' s' /\ filled ex' s')
    (fun e s' => restored s0 s' /\
       (out_of_pages e \/ (e = AppleAgxUatResultAlreadyMapped /\ view (live s0.1) r (n + k) <> 0))) s.
Proof.
  intros Hp Hfill Hk -> Henc. destruct (progress_root k ex s Hp) as (Hr & Hl & Ha).
  assert (Hg := pr_good _ _ _ _ _ _ _ Hp). destruct (proj2 Hrange k Hk).
  unfold map_page. apply ewp_on_error, ewp_bind.
  eapply ewp_mono; [apply (find_leaf A held s root (u64 (va + step_offset k)) Hg Hr Hl);
    apply wrap_fits; lia| |].
  2: { intros e s' (Hg' & (ex' & Hgr) & He). split; [|by left].
       apply (rollback_restores k (ex ++ ex')); [|lia]. by apply (progress_step k ex s). }
  intros leaf s1 [Hg1 [Hj Hlj] Htab Hidx Hlink (ex' & Hgr & Hex')]. cbn beta.
  rewrite (proj2 Hrange k Hk), Ha in *.
  assert (progress s0 r n d k (ex ++ ex') s1) as Hp1 by by apply (progress_step k ex s).
  assert (is_page (n + k)) as Hn by (unfold is_page; lia).
  assert (load_leaf s1.1 leaf = view (live s1.1) r (n + k)) as Hload.
  { unfold load_leaf. rewrite entry_word by (apply Hg1 || by apply (good_nodup held) || done).
    by rewrite Hlj, Htab, Hidx. }
  assert (view (live s1.1) r (n + k) = view (live s0.1) r (n + k)) as Hv.
  { apply (pr_rest _ _ _ _ _ _ _ Hp1); [done|lia]. }
  apply ewp_bind, ewp_gets. rewrite Hload, Hv.
  destruct (Z.eqb_spec (view (live s0.1) r (n + k)) 0) as [Hz|Hnz]; cbn [negb].
  2: { apply ewp_fail. split; [|right; done]. by apply (rollback_restores k (ex ++ ex')); [|lia]. }
  rewrite Henc. apply ewp_bind, ewp_ret, ewp_bind, ewp_modify, ewp_ret. split.
  { unfold step_offset, J313_AGX_G2_PAGE_SIZE. rewrite wrap_id; [lia|]. unfold fits.
    change (2 ^ 25) with 33554432 in *. change (2 ^ 64) with 18446744073709551616. lia. }
  exists (ex ++ ex'). destruct leaf as [j idx]. cbn [fst snd] in *. subst idx.
  split; [by apply (progress_leaf s0 r n K d); [..|congruence]|].
  destruct (store_leaf_good held s1 j (n + k) r (d k) Hg1 Hj Hlj Hn Htab) as (_ & _ & _ & Hw & _).
  assert (0 <= index1 (n + k) /\ 0 <= index2 (n + k) < 2048) as [Hi1 Hi2].
  { destruct (index_bounds _ Hn). lia. }
  assert (forall l c i, 0 <= i < 2048 -> word (live s1.1) l c i <> 0 -> word (live
    (on_inventory (store_leaf (Some (j, index2 (n + k))) (default 0 (Some (d k)))) s1).1) l c i <> 0) as Hkeep.
  { intros l c i Hi Hnz. cbn [default]. rewrite Hw by lia. case_decide; [by apply Hdesc|done]. }
  intros c Hc. unfold shape_addresses in Hc. rewrite fmap_app, elem_of_app in Hc.
  destruct Hc as [Hc|Hc].
  - destruct (Hfill c Hc) as (l & i & Hi & Hnz). exists l, i. split; [done|]. apply Hkeep; [done|].
    by rewrite (grows_word held s ex' s1) by (done || lia).
  - destruct (Hex' c Hc) as [->| ->].
    + exists 1, (index1 (n + k)). destruct (index_bounds _ Hn) as (_ & ? & _).
      split; [done|]. by apply Hkeep.
    + exists 2, (index2 (n + k)). split; [done|]. cbn [default]. rewrite Hw by lia.
      rewrite decide_True by done. by apply Hdesc.
Qed.

Lemma map_loop_spec Context (pa : Z -> Z) Protection :
  0 <= K ->
  (forall k, 0 <= k < K -> AppleAgxUatEncodePageDescriptor Context (pa k) Protection (Some 0) =
    (AppleAgxUatResultOk, Some (d k))) ->
  wp (for_m 0 K (fun k mapped => map_page Context root va (PageCount s0.1) A
        (u64 (va + step_offset k)) (pa k) Protection mapped) 0)
    (fun _ s' => exists ex, progress s0 r n d K ex s' /\ filled ex s')
    (fun e s' => restored s0 s' /\ (out_of_pages e \/ (e = AppleAgxUatResultAlreadyMapped /\
       exists k, 0 <= k < K /\ view (live s0.1) r (n + k) <> 0))) s0.
Proof.
  intros HK Henc. eapply ewp_post; [apply (ewp_for _ _ _ (fun k mapped s' => mapped = step_offset k /\
    exists ex, progress s0 r n d k ex s' /\ filled ex s'))|..]; [done|..].
  - split; [done|]. exists []. split; [by apply progress_refl|]. by intros ? ?%elem_of_nil.
  - intros k mapped s Hk (-> & ex & Hp & Hfill). rewrite Z.add_0_l.
    eapply ewp_mono; [by eapply map_page_spec; auto|done|]. cbn beta.
    intros e s' [Hr [He|[He Hv]]]; (split; [done|]); [by left|]. right. split; [done|]. by exists k.
  - by intros mapped s [_ Hp].
Qed.
End rollback.

End map.

End Map.
