(* ===== verification/UatSpace.v ===== *)
(** * Address spaces: what the mapping calls do

    The state an owner of page tables can be in ([consistent]: a forest of tables in
    use, none of them empty, and mappings that do not overlap), and the two calls that
    map: they either map the whole range, in the tables and in the list of mappings, or
    leave everything as it was. *)

From stdpp Require Import gmap sets.
From S2P Require Import Prelude Arrays Bytes Uat ErrorState UatTable UatHeap UatOps UatMap.
Import Uat Table Heap Ops Map.

Module Space.

Implicit Types (v : APPLE_AGX_UAT_INVENTORY) (m : APPLE_AGX_UAT_MAPPING)
  (ms : list APPLE_AGX_UAT_MAPPING) (l pa i j n r c va : Z).

(** ** Mappings *)

Definition mapping_ok m : Prop :=
  is_u64 (mp_VirtualAddress m) /\ 0 < mp_Length m /\
  mp_VirtualAddress m + mp_Length m <= 2 ^ 64 /\ is_u64 (mp_PhysicalAddress m).

Definition apart m1 m2 : Prop :=
  mp_Context m1 = mp_Context m2 ->
  mp_VirtualAddress m1 + mp_Length m1 <= mp_VirtualAddress m2 \/
  mp_VirtualAddress m2 + mp_Length m2 <= mp_VirtualAddress m1.

Record maps_ok ms : Prop := {
  maps_each : Forall mapping_ok ms;
  maps_apart : forall (i j : nat) m1 m2, i <> j -> ms !! i = Some m1 -> ms !! j = Some m2 -> apart m1 m2;
}.

Lemma maps_ok_nil : maps_ok [].
Proof. split; [constructor|]. intros i j m1 m2 _ Hi. by rewrite lookup_nil in Hi. Qed.

Lemma apart_sym m1 m2 : apart m1 m2 -> apart m2 m1.
Proof. unfold apart. intros H He. specialize (H (eq_sym He)). tauto. Qed.

Lemma maps_ok_snoc ms m :
  maps_ok ms -> mapping_ok m -> (forall m', m' ∈ ms -> apart m m') -> maps_ok (ms ++ [m]).
Proof.
  intros [Hf Ha] Hm Hn. split; [apply Forall_app; split; [done|by apply Forall_singleton]|].
  intros i j m1 m2 Hne Hi Hj. apply lookup_snoc_Some in Hi as [[_ Hi]|[-> <-]];
    apply lookup_snoc_Some in Hj as [[_ Hj]|[-> <-]].
  - by apply (Ha i j).
  - apply apart_sym, Hn. by eapply list_elem_of_lookup_2.
  - apply Hn. by eapply list_elem_of_lookup_2.
  - done.
Qed.

Lemma overlaps_apart c va len m p q t :
  is_u64 va -> 0 < len -> va + len <= 2 ^ 64 -> mapping_ok m ->
  overlaps c va len m = false <->
  apart {| mp_Context := c; mp_VirtualAddress := va; mp_PhysicalAddress := p; mp_Length := len;
           mp_Protection := q; PhysicalStride := t |} m.
Proof.
  intros Hva Hlen Hend (Hm & Hml & Hme & _). unfold overlaps, apart, fits in *. cbn.
  rewrite !wrap_id by (unfold fits; lia). destruct (Z.eqb_spec (mp_Context m) c); cbn [andb].
  - rewrite andb_false_iff, !Z.leb_gt. split; [intros; lia|].
    intros H. specialize (H ltac:(done)). lia.
  - split; [|done]. intros _ E. congruence.
Qed.

Lemma live_mapping_get v j :
  inv_ok v -> 0 <= j < MappingCount v ->
  (mappings v) .[ j ] ∈ live_mappings v.
Proof.
  intros Hok Hj. unfold live_mappings. rewrite <- (get_prefix (mappings v) (MappingCount v)) by done.
  apply list_elem_of_lookup. exists (Z.to_nat j). unfold arr_get. apply list_lookup_lookup_total_lt.
  unfold prefix_list. rewrite length_take. assert (H := ok_mapping_array _ Hok).
  assert (H' := ok_mapping_count _ Hok). unfold zlen in H. lia.
Qed.

Lemma live_mapping_index v m :
  inv_ok v -> m ∈ live_mappings v -> exists j, 0 <= j < MappingCount v /\ (mappings v) .[ j ] = m.
Proof.
  intros Hok (j & Hj)%list_elem_of_lookup. exists (Z.of_nat j).
  assert (Hlt := lookup_lt_Some _ _ _ Hj). unfold live_mappings, prefix_list in *.
  rewrite length_take in Hlt. assert (H := ok_mapping_array _ Hok). unfold zlen in H. split; [lia|].
  unfold arr_get. rewrite Nat2Z.id. rewrite lookup_take in Hj by lia.
  rewrite decide_True in Hj by lia. by apply list_lookup_total_correct.
Qed.

Lemma find_overlap_None c va len v p q t :
  inv_ok v -> Forall mapping_ok (live_mappings v) -> is_u64 va -> 0 < len -> va + len <= 2 ^ 64 ->
  find_overlap c va len v = None <->
  forall m, m ∈ live_mappings v ->
    apart {| mp_Context := c; mp_VirtualAddress := va; mp_PhysicalAddress := p; mp_Length := len;
             mp_Protection := q; PhysicalStride := t |} m.
Proof.
  intros Hok Hf Hva Hlen Hend. rewrite Forall_forall in Hf. unfold find_overlap.
  rewrite find_range_None. split.
  - intros Hn m Hm. apply overlaps_apart; auto.
    destruct (live_mapping_index v m Hok Hm) as (j & Hj & <-). apply Hn. lia.
  - intros Ha i Hi. assert (Hm := live_mapping_get v i Hok ltac:(lia)).
    apply (overlaps_apart c va len _ p q t); auto.
Qed.

Section space.
Context {World : Type} (full_context0_broker : bool).
Context (A : APPLE_AGX_UAT_ALLOCATOR World) (held : World -> gset Z) `{!AllocatorLaws A held}.
Implicit Types (s : APPLE_AGX_UAT_INVENTORY * World).

(** ** Consistent owners *)

Definition pruned (ps : list APPLE_AGX_UAT_PAGE) : Prop :=
  forall p, p ∈ ps -> Level p <> 0 -> ~ page_empty p.

Record consistent s : Prop := {
  co_good : good held s;
  co_maps : maps_ok (live_mappings s.1);
  co_pruned : pruned (live s.1);
}.

(** Pages the allocator has given to somebody else. *)
Definition others s : gset Z := held s.2 ∖ owned_by (live s.1).

(** How the tables grew: new tables linked from entries that were empty, and leaves. *)
Definition tables_grown s r n count s' : Prop :=
  exists ex, shapes (live s'.1) ≡ₚ shapes (live s.1) ++ ex /\
    (forall c, c ∈ shape_addresses ex -> c ∉ held s.2) /\
    (forall sh, sh ∈ ex -> 1 <= sh.1.1 <= 2) /\
    (forall l pa i, 0 <= i ->
       word (live s'.1) l pa i = word (live s.1) l pa i \/
       (word (live s.1) l pa i = 0 /\
        ((0 <= l < 2 /\ i < width l /\
          exists c, c ∈ shape_addresses ex /\ word (live s'.1) l pa i = link c) \/
         (l = 2 /\ leaf_of s' r n count pa i)))) /\
    (forall k, 0 <= k < count ->
       word (live s.1) 2 (table2 (live s'.1) r (n + k)) (index2 (n + k)) = 0).

Record mapped s r n count (d : Z -> Z) m s' : Prop := {
  mp_consistent : consistent s';
  mp_view : forall r' n', is_page n' -> view (live s'.1) r' n' =
    if decide (r' = r /\ n <= n' < n + count) then d (n' - n) else view (live s.1) r' n';
  mp_maps : live_mappings s'.1 = live_mappings s.1 ++ [m];
  mp_roots : forall r', has (live s'.1) 0 r' <-> has (live s.1) 0 r';
  mp_others : others s' = others s;
  mp_tables : tables_grown s r n count s';
  mp_capacity : PageCapacity s'.1 = PageCapacity s.1 /\ MappingCapacity s'.1 = MappingCapacity s.1;
}.

Lemma record_mapping_live v m :
  inv_ok v -> MappingCount v < MappingCapacity v ->
  inv_ok (record_mapping m v) /\ live (record_mapping m v) = live v /\
  live_mappings (record_mapping m v) = live_mappings v ++ [m] /\
  PageCapacity (record_mapping m v) = PageCapacity v /\
  MappingCapacity (record_mapping m v) = MappingCapacity v.
Proof.
  intros [H1 H2 H3 H4 H5 H6 H7] Hlt. unfold record_mapping.
  assert (u32 (MappingCount v + 1) = MappingCount v + 1) as E
    by (apply wrap_id; unfold fits; lia).
  split_and!; try done.
  - split; try done; cbn; rewrite ?E; try lia.
    unfold mappings at 1. cbn. by rewrite zlen_set.
  - unfold live_mappings. change (MappingCount (set_field _ _ _)) with (u32 (MappingCount v + 1)).
    rewrite E. change (mappings (set_field _ _ _)) with ((mappings v) .[ MappingCount v <- m ]).
    apply prefix_set_snoc. lia.
Qed.

Lemma progress_maps s0 r n d k ex s :
  progress held s0 r n d k ex s -> live_mappings s.1 = live_mappings s0.1.
Proof.
  intros Hp. destruct (pr_same _ _ _ _ _ _ _ _ Hp) as (Hm & _ & Hc & _).
  unfold live_mappings, mappings. by rewrite Hm, Hc.
Qed.

Lemma progress_addresses s0 r n d k ex s :
  progress held s0 r n d k ex s ->
  addresses (live s.1) = addresses (live s0.1) ++ shape_addresses ex.
Proof.
  intros Hp. unfold addresses, shape_addresses.
  assert (forall ps, addr <$> ps = (fun sh : page_shape => sh.1.2) <$> shapes ps) as Hmap.
  { intros ps. unfold shapes. by rewrite <- list_fmap_compose. }
  by rewrite !Hmap, (pr_shapes _ _ _ _ _ _ _ _ Hp), fmap_app.
Qed.

Lemma progress_roots s0 r n d k ex s r' :
  progress held s0 r n d k ex s -> has (live s.1) 0 r' <-> has (live s0.1) 0 r'.
Proof.
  intros Hp. assert (Hs := pr_shapes _ _ _ _ _ _ _ _ Hp).
  assert (forall ps l a, has ps l a <-> exists e, (l, a, e) ∈ shapes ps) as Hsh.
  { intros ps l a. unfold has, shapes. setoid_rewrite list_elem_of_fmap. split.
    - intros (p & Hin & <- & <-). eexists. by exists p.
    - intros (e & p & He & Hin). exists p. unfold shape in He. by injection He as -> -> ->. }
  rewrite !Hsh, Hs. setoid_rewrite elem_of_app. split; [|naive_solver].
  intros (e & [He|He]); [by exists e|]. apply (pr_levels _ _ _ _ _ _ _ _ Hp) in He. cbn in He. lia.
Qed.

Lemma progress_pruned s0 r n d k ex s :
  progress held s0 r n d k ex s -> filled ex s -> good held s0 -> pruned (live s0.1) ->
  pruned (live s.1).
Proof.
  intros Hp Hfill Hg0 Hpr p Hin Hl He. assert (Hg := pr_good _ _ _ _ _ _ _ _ Hp).
  assert (Hd := good_nodup held s Hg).
  assert (forall i, word (live s.1) (Level p) (addr p) i = 0) as Hz.
  { intros i. by rewrite word_in. }
  assert (Ha := addresses_in _ _ Hin). rewrite (progress_addresses _ _ _ _ _ _ _ Hp) in Ha.
  apply elem_of_app in Ha as [Ha|Ha].
  - unfold addresses in Ha. apply list_elem_of_fmap in Ha as (q & Haq & Hq).
    assert (exists q', q' ∈ live s.1 /\ shape q' = shape q) as (q' & Hq' & Hsq).
    { apply (list_elem_of_fmap_2 shape) in Hq. fold (shapes (live s0.1)) in Hq.
      assert (shape q ∈ shapes (live s.1)) as Hqs.
      { rewrite (pr_shapes _ _ _ _ _ _ _ _ Hp). apply elem_of_app. by left. }
      apply list_elem_of_fmap in Hqs as (q' & ? & ?). by exists q'. }
    unfold shape in Hsq. injection Hsq as Hlq Haq' _.
    assert (Level p = Level q) as Elq.
    { rewrite <- Hlq. apply (address_level (live s.1) _ _ (addr p)); [done|by exists p|].
      exists q'. split_and!; congruence. }
    apply (Hpr q Hq); [congruence|].
    apply (page_empty_words (live s0.1)); [by apply (good_nodup held)|done|]. intros i Hi.
    destruct (pr_words _ _ _ _ _ _ _ _ Hp (Level q) (addr q) i Hi) as [E|[E _]]; [|done].
    rewrite <- E, <- Haq, <- Elq. apply Hz.
  - destruct (Hfill _ Ha) as (l & i & Hi & Hnz). assert (Hh := word_has _ _ _ _ Hnz).
    assert (l = Level p) as ->.
    { apply (address_level (live s.1) _ _ (addr p)); [done|done|by exists p]. }
    by rewrite Hz in Hnz.
Qed.

(** The end of a mapping call that went through. *)
Lemma mapping_commit s0 r n count d ex s m :
  consistent s0 -> progress held s0 r n d count ex s -> filled ex s ->
  MappingCount s0.1 < MappingCapacity s0.1 -> mapping_ok m ->
  (forall m', m' ∈ live_mappings s0.1 -> apart m m') ->
  mapped s0 r n count d m (on_inventory (record_mapping m) s).
Proof.
  intros [Hg0 Hm0 Hpr0] Hp Hfill Hroom Hm Hap. assert (Hg := pr_good _ _ _ _ _ _ _ _ Hp).
  destruct (pr_same _ _ _ _ _ _ _ _ Hp) as (_ & Hcap & Hcnt & Hpcap).
  destruct (record_mapping_live s.1 m) as (Hok' & Hl' & Hml' & Hc1 & Hc2); [apply Hg|congruence|].
  assert (live_mappings (record_mapping m s.1) = live_mappings s0.1 ++ [m]) as Hml.
  { by rewrite Hml', (progress_maps _ _ _ _ _ _ _ Hp). }
  split; cbn [on_inventory fst snd].
  - split; cbn [on_inventory fst snd].
    + destruct Hg as [_ Hwf Ho]. by split; cbn [on_inventory fst snd]; rewrite ?Hl'.
    + rewrite Hml. by apply maps_ok_snoc.
    + rewrite Hl'. by eapply progress_pruned.
  - intros r' n' Hn'. rewrite Hl'. case_decide as Hc.
    + destruct Hc as [-> Hn]. rewrite <- (pr_done _ _ _ _ _ _ _ _ Hp) by lia. f_equal. lia.
    + by apply (pr_rest _ _ _ _ _ _ _ _ Hp).
  - done.
  - intros r'. rewrite Hl'. by eapply progress_roots.
  - unfold others. cbn [on_inventory fst snd]. rewrite Hl'. unfold owned_by.
    rewrite (progress_addresses _ _ _ _ _ _ _ Hp), list_to_set_app_L, (pr_held _ _ _ _ _ _ _ _ Hp).
    assert (Hfr := pr_fresh _ _ _ _ _ _ _ _ Hp). apply set_eq. intros x.
    rewrite !elem_of_difference, !elem_of_union, !elem_of_list_to_set. specialize (Hfr x). tauto.
  - exists ex. unfold leaf_of. cbn [on_inventory fst snd]. rewrite Hl'.
    destruct Hp as [_ _ Hsh _ Hfr Hlv Hw _ Hz _]. rewrite Hsh. split_and!; try done.
    intros k Hk. by apply Hz.
  - split; congruence.
Qed.

(** ** Ranges *)

Definition page_pte (c pa p : Z) : Z := Z.lor pa (protection_bits c p).

Lemma page_pte_nonzero c pa p :
  0 <= c < 64 -> protection_allowed c p -> frame_ok pa -> page_pte c pa p <> 0.
Proof.
  intros Hc Hp Hf E. assert (Hr := read_page_descriptor c pa p Hc Hp Hf).
  unfold page_pte in E. rewrite E in Hr. apply (f_equal pte_type) in Hr.
  unfold expected_pte in Hr. by destruct (default _ _) as [[[? ?] ?] ?].
Qed.

Lemma page_descriptor_ok c pa p d :
  0 <= c < 64 -> protection_allowed c p -> frame_ok pa ->
  AppleAgxUatEncodePageDescriptor c pa p (Some d) =
    (AppleAgxUatResultOk, Some (page_pte c pa p)).
Proof.
  intros Hc Hp [Hr Hm]. rewrite page_descriptor_cases by lia.
  rewrite bool_decide_false by lia. rewrite bool_decide_false by tauto.
  rewrite bool_decide_false by tauto. by rewrite bool_decide_false by lia.
Qed.

Definition page_count (len : Z) : Z := len / 2 ^ 14.

Section range.
Context (c va pa len p : Z) (half : APPLE_AGX_UAT_HALF).
Hypothesis (Hc : 0 <= c) (Hva : is_u64 va) (Hpa : is_u64 pa).
Hypothesis (Hvalid : range_valid c va pa len p half).

Ltac range_unfold :=
  unfold range_valid, range_at, fits, page_number, page_steps, step_offset, page_count,
    J313_AGX_G2_PAGE_SIZE, wrap in *;
  change (2 ^ 14) with 16384 in *; change (2 ^ 25) with 33554432 in *;
  change (2 ^ 39) with 549755813888 in *; change (2 ^ 40) with 1099511627776 in *;
  change (2 ^ 64) with 18446744073709551616 in *.

Lemma range_steps : page_steps len = page_count len /\ 0 < page_count len /\ len = step_offset (page_count len).
Proof. range_unfold. clear Hva Hpa. Z.to_euclidean_division_equations; lia. Qed.

Lemma range_offset k :
  0 <= k < page_count len -> u64 (va + step_offset k) = va + step_offset k /\
  u64 (pa + step_offset k) = pa + step_offset k.
Proof.
  intros Hk. assert (step_offset k < len) as Hlt.
  { destruct range_steps as (_ & _ & ->). unfold step_offset, J313_AGX_G2_PAGE_SIZE. lia. }
  assert (0 <= step_offset k) by (unfold step_offset, J313_AGX_G2_PAGE_SIZE; lia).
  unfold range_valid in Hvalid. split; apply wrap_id; unfold fits in *; lia.
Qed.

Lemma range_pages : range_at va (page_number va) (page_count len) /\
  page_number va + page_count len <= 2 ^ 25.
Proof.
  assert (0 <= page_number va) as Hn by apply page_number_page.
  assert (forall k, 0 <= k < page_count len -> page_number (va + step_offset k) = page_number va + k)
    as Hk.
  { intros k Hk. range_unfold. clear Hpa. destruct Hvalid as (? & _ & _ & ? & _ & ? & ? & _ & Hh).
    destruct Hh as [[_ ?]|[_ ?]]; Z.to_euclidean_division_equations; nia. }
  split.
  - split; [done|]. intros k Hkb. destruct (range_offset k Hkb) as [-> _]. by apply Hk.
  - destruct range_steps as (_ & Hpos & _). specialize (Hk (page_count len - 1) ltac:(lia)).
    assert (Hb := page_number_page (va + step_offset (page_count len - 1))). unfold is_page in Hb. lia.
Qed.

Lemma range_frame k : 0 <= k < page_count len -> frame_ok (pa + step_offset k).
Proof.
  intros Hk. assert (step_offset k < len) as Hlt.
  { destruct range_steps as (_ & _ & ->). unfold step_offset, J313_AGX_G2_PAGE_SIZE. lia. }
  unfold frame_ok, range_valid, step_offset, J313_AGX_G2_PAGE_SIZE, fits in *.
  split; [lia|]. change (2 ^ 14) with 16384 in *. rewrite Z_mod_plus_full. tauto.
Qed.

Lemma range_context : 0 <= c < 64 /\ protection_allowed c p.
Proof. unfold range_valid in Hvalid. split; [lia|tauto]. Qed.

Lemma range_encode k :
  0 <= k < page_count len ->
  page_pte c (pa + step_offset k) p <> 0 /\
  AppleAgxUatEncodePageDescriptor c (u64 (pa + step_offset k)) p (Some 0) =
    (AppleAgxUatResultOk, Some (page_pte c (pa + step_offset k) p)).
Proof.
  intros Hk. destruct (range_offset k Hk) as [_ ->], range_context as [Hc64 Hp].
  assert (Hf := range_frame k Hk). split; [by apply page_pte_nonzero|by apply page_descriptor_ok].
Qed.
End range.

Lemma range_half_unique c va pa len p half1 half2 :
  is_u64 va -> range_valid c va pa len p half1 -> range_valid c va pa len p half2 -> half1 = half2.
Proof.
  intros Hva (Hl & _ & _ & _ & _ & _ & _ & _ & Hh1) (_ & _ & _ & _ & _ & _ & _ & _ & Hh2).
  unfold fits in Hva. destruct Hh1 as [[-> ?]|[-> ?]], Hh2 as [[-> ?]|[-> ?]]; try done;
    change (2 ^ 64) with 18446744073709551616 in *; change (2 ^ 39) with 549755813888 in *; lia.
Qed.

Lemma validate_range_refuses c va pa len p h result half half' :
  AppleAgxUatValidateRange c va pa len p (Some h) = (result, half) ->
  range_valid c va pa len p half' -> result <> AppleAgxUatResultOk ->
  0 <= c -> is_u64 va -> is_u64 pa -> is_u64 len -> False.
Proof.
  intros Hv Hm Hne Hc Hva Hpa Hlen. rewrite validate_range_cases in Hv by done.
  destruct Hm as (H1 & H2 & H3 & H4 & H5 & H6 & H7 & H8 & H9).
  rewrite !bool_decide_false in Hv by (tauto || lia).
  destruct H9 as [[_ H9]|[_ H9]].
  - rewrite bool_decide_true in Hv by done. congruence.
  - case_bool_decide; [congruence|]. rewrite bool_decide_true in Hv by done. congruence.
Qed.

(** ** Mapping a contiguous range *)

(** What a mapping call needs. *)
Record mappable s (c : Z) roots va pa len p half : Prop := {
  ma_broker : full_context0_broker = true -> c <> 0;
  ma_range : range_valid c va pa len p half;
  ma_room : MappingCount s.1 < MappingCapacity s.1;
  ma_apart : forall m, m ∈ live_mappings s.1 -> mp_Context m = c ->
    va + len <= mp_VirtualAddress m \/ mp_VirtualAddress m + mp_Length m <= va;
  ma_root : has (live s.1) 0 (root_of roots half);
  ma_free : forall k, 0 <= k < page_count len ->
    view (live s.1) (root_of roots half) (page_number va + k) = 0;
}.

Lemma check_owner_ok s :
  inv_ok s.1 -> AppleAgxUatCheckOwnerArguments (Some A) (Some s.1) = AppleAgxUatResultOk.
Proof.
  intros Hok. destruct law_allocate as (f & Hf & _), law_release as (g & Hg & _).
  unfold AppleAgxUatCheckOwnerArguments. rewrite Hf, Hg, (ok_Pages _ Hok), (ok_Mappings _ Hok).
  cbn [is_null orb]. assert (H1 := ok_page_count _ Hok). assert (H2 := ok_mapping_count _ Hok).
  destruct (Z.ltb_spec (PageCapacity s.1) (PageCount s.1)); [lia|].
  by destruct (Z.ltb_spec (MappingCapacity s.1) (MappingCount s.1)); [lia|].
Qed.

Lemma consistent_restored s0 s : consistent s0 -> restored held s0 s -> consistent s.
Proof.
  intros [[Hok Hwf Ho] Hm Hpr] [Hok' Hl (Hmm & _ & Hmc & _) Hh].
  assert (live_mappings s.1 = live_mappings s0.1) as E.
  { unfold live_mappings, mappings. by rewrite Hmm, Hmc. }
  split; [split; [done|by rewrite Hl|by rewrite Hl, Hh]|by rewrite E|by rewrite Hl].
Qed.

Lemma restored_refl s : inv_ok s.1 -> restored held s s.
Proof. by split. Qed.

(** [finish] as the rules see it. *)
Lemma finish_wp (m : E (owner (World := World)) APPLE_AGX_UAT_RESULT unit) s Q X :
  wp m Q X s ->
  exists result v' w', finish m s = (result, Some v', w') /\
    ((result = AppleAgxUatResultOk /\ Q tt (v', w')) \/ X result (v', w')).
Proof.
  unfold wp, finish. destruct (m s) as [[e|[]] [v' w']]; intros H; by eexists _, _, _; eauto.
Qed.

(** The refusals of a mapping call, and its last step. *)
Definition map_outcome s c roots va pa len p (K : Z) (d : Z -> Z) (m : APPLE_AGX_UAT_MAPPING)
    (result : APPLE_AGX_UAT_RESULT) s' : Prop :=
  (result = AppleAgxUatResultOk /\ exists half, mappable s c roots va pa len p half /\
     mapped s (root_of roots half) (page_number va) K d m s') \/
  (result <> AppleAgxUatResultOk /\ restored held s s' /\
   (out_of_pages result \/ ~ exists half, mappable s c roots va pa len p half)).

Definition contiguous (c va pa len p : Z) : APPLE_AGX_UAT_MAPPING :=
  {| mp_Context := c; mp_VirtualAddress := va; mp_PhysicalAddress := pa; mp_Length := len;
     mp_Protection := p; PhysicalStride := J313_AGX_G2_PAGE_SIZE |}.


(** What both mapping bodies do once the range is validated. *)
Lemma map_tail_spec s c roots va pa0 len p half (K : Z) (pa d : Z -> Z) m :
  consistent s -> is_u64 va -> 0 <= c -> is_u64 pa0 ->
  range_valid c va pa0 len p half -> (full_context0_broker = true -> c <> 0) ->
  K = page_count len ->
  (forall k, 0 <= k < K -> d k <> 0 /\
     AppleAgxUatEncodePageDescriptor c (pa k) p (Some 0) = (AppleAgxUatResultOk, Some (d k))) ->
  mp_Context m = c -> mp_VirtualAddress m = va -> mp_PhysicalAddress m = pa0 -> mp_Length m = len ->
  wp (if MappingCapacity s.1 <=? MappingCount s.1 then fail AppleAgxUatResultCapacity
      else if negb (is_null (find_overlap c va len s.1)) then fail AppleAgxUatResultAlreadyMapped
      else
        deref root :=
          AppleAgxUatFindPage s.1 (root_of roots half) 0
          else fail AppleAgxUatResultInvalidArgument in
        mapped_length ← for_m 0 K (fun k mapped_length =>
          map_page c root va (PageCount s.1) A (u64 (va + step_offset k)) (pa k) p mapped_length) 0;
        modify (on_inventory (record_mapping m)))
    (fun _ s' => map_outcome s c roots va pa0 len p K d m AppleAgxUatResultOk s')
    (fun e s' => map_outcome s c roots va pa0 len p K d m e s') s.
Proof.
  intros Hco Hva Hc Hpa Hvalid Hbroker -> Hd Hmc Hmv Hmp Hml. destruct (Hco) as [Hg Hmaps Hpr].
  assert (Hok := good_ok _ _ Hg). assert (Hvalid' := Hvalid).
  destruct Hvalid' as (Hlen & _ & _ & _ & _ & _ & Hend & _ & Hhalf).
  destruct (range_pages c va pa0 len p half) as [Hrange Hpages]; [done..|].
  assert (Huniq : forall half', range_valid c va pa0 len p half' -> half' = half).
  { intros half' Hv'. by apply (range_half_unique c va pa0 len p). }
  assert (forall e, e <> AppleAgxUatResultOk ->
    (~ exists half', mappable s c roots va pa0 len p half') ->
    map_outcome s c roots va pa0 len p (page_count len) d m e s) as Href.
  { intros e He Hn. right. split_and!; [done|by apply restored_refl|by right]. }
  destruct (Z.leb_spec (MappingCapacity s.1) (MappingCount s.1)) as [Hroom|Hroom].
  { apply ewp_fail, Href; [done|]. intros (half' & Hm). apply ma_room in Hm. lia. }
  destruct m as [mc mva mpa mlen mprot mstr]. cbn in Hmc, Hmv, Hmp, Hml. subst mc mva mpa mlen.
  assert (Hov := find_overlap_None c va len s.1 pa0 mprot mstr Hok (maps_each _ Hmaps) Hva Hlen Hend).
  destruct (find_overlap c va len s.1) as [j|]; cbn [is_null negb].
  { apply ewp_fail, Href; [done|]. intros (half' & Hm). enough (Some j = None) by done.
    apply Hov. intros m Hin E. cbn in E. cbn. symmetry in E. by apply (ma_apart _ _ _ _ _ _ _ _ Hm). }
  assert (Hapart := proj1 Hov eq_refl). clear Hov.
  destruct (AppleAgxUatFindPage s.1 (root_of roots half) 0) as [root|] eqn:Hroot.
  2: { apply ewp_fail, Href; [done|]. intros (half' & Hm).
       rewrite (Huniq half') in Hm by apply (ma_range _ _ _ _ _ _ _ _ Hm).
       apply find_page_None in Hroot; [|done|by apply (good_nodup held)]. apply Hroot, Hm. }
  apply find_page_Some in Hroot as (Hrb & Hra & Hrl); [|done|by apply (good_nodup held)].
  apply ewp_bind.
  eapply ewp_mono; [apply (map_loop_spec A held s (root_of roots half) (page_number va)
    (page_count len) d root va); try done; [split; [apply page_number_page|done]|..]| |].
  - intros k Hk. by apply Hd.
  - destruct (range_steps c va pa0 len p half) as (_ & ? & _); [done..|lia].
  - intros k Hk. by apply Hd.
  - intros _ s1 (ex & Hp & Hfill). apply ewp_modify. left. split; [done|]. exists half. split.
    + split; try done.
      * intros m Hin E. destruct (Hapart m Hin (eq_sym E)); auto.
      * apply has_get. exists root. rewrite zlen_live by done. done.
      * intros k Hk. by apply (pr_empty _ _ _ _ _ _ _ _ Hp).
    + by apply (mapping_commit s _ _ _ d ex).
  - intros e s1 [Hr He]. right. split_and!; [|done|].
    + destruct He as [[-> | ->]|[-> _]]; done.
    + destruct He as [He|(_ & k & Hk & Hv)]; [by left|]. right. intros (half' & Hm).
      rewrite (Huniq half') in Hm by apply (ma_range _ _ _ _ _ _ _ _ Hm).
      apply Hv. by apply (ma_free _ _ _ _ _ _ _ _ Hm).
Qed.

Lemma map_body_spec s c roots va pa len p :
  consistent s -> 0 <= c -> is_u64 va -> is_u64 pa -> is_u64 len ->
  (full_context0_broker = true -> c <> 0) ->
  let d k := page_pte c (pa + step_offset k) p in
  wp (map_body c roots va pa len p (Some A))
    (fun _ s' => map_outcome s c roots va pa len p (page_count len) d (contiguous c va pa len p)
                   AppleAgxUatResultOk s')
    (fun e s' => map_outcome s c roots va pa len p (page_count len) d (contiguous c va pa len p) e s') s.
Proof.
  intros Hco Hc Hva Hpa Hlen Hbroker d. assert (Hok := good_ok _ _ (co_good _ Hco)).
  unfold map_body. apply ewp_bind, ewp_gets. cbn beta. rewrite check_owner_ok by done.
  apply ewp_bind, ewp_ret.
  destruct (AppleAgxUatValidateRange c va pa len p (Some AppleAgxUatTtbr0)) as [result half] eqn:Hv.
  destruct (validate_range_ok c va pa len p AppleAgxUatTtbr0 result half Hc Hva Hpa Hlen Hv)
    as [[-> (half' & -> & Hvalid)]|[Hne _]].
  - apply ewp_bind, ewp_ret. cbn [default from_option].
    destruct (range_steps c va pa len p half') as (-> & _ & _); [done..|].
    eapply ewp_mono; [apply (map_tail_spec s c roots va pa len p half' (page_count len)
      (fun k => u64 (pa + step_offset k)) d (contiguous c va pa len p)); try done|done|done].
    intros k Hk. by apply (range_encode c va pa len p half').
  - unfold check_result. rewrite bool_decide_false by done. apply ewp_bind, ewp_fail. right.
    split_and!; [done|by apply restored_refl|right]. intros (half' & Hm).
    apply ma_range in Hm. by apply (validate_range_refuses _ _ _ _ _ _ _ _ _ Hv Hm).
Qed.

Lemma restored_pair v w : inv_ok v -> restored held (v, w) (v, w).
Proof. by split. Qed.

Lemma map_spec v w c roots va pa len p :
  consistent (v, w) -> 0 <= c -> is_u64 va -> is_u64 pa -> is_u64 len ->
  exists result v' w',
    AppleAgxUatMap full_context0_broker c (Some roots) va pa len p (Some A) (Some v) w =
      (result, Some v', w') /\
    map_outcome (v, w) c roots va pa len p (page_count len)
      (fun k => page_pte c (pa + step_offset k) p) (contiguous c va pa len p) result (v', w').
Proof.
  intros Hco Hc Hva Hpa Hlen. unfold AppleAgxUatMap. case_match eqn:Hb.
  - guards. subst c. eexists _, v, w. split; [done|]. right.
    split_and!; [done|apply restored_pair, (co_good _ Hco)|right]. intros (half & Hm).
    by apply (ma_broker _ _ _ _ _ _ _ _ Hm).
  - assert (full_context0_broker = true -> c <> 0) as Hbroker.
    { intros E. rewrite E in Hb. cbn in Hb. by guards. }
    destruct (finish_wp _ _ _ _ (map_body_spec (v, w) c roots va pa len p Hco Hc Hva Hpa Hlen Hbroker))
      as (result & v' & w' & -> & H).
    exists result, v', w'. split; [done|]. by destruct H as [[-> H]|H].
Qed.

(** ** Mapping a list of pages *)

Definition scattered (c va : Z) (frames : list Z) (count p : Z) : APPLE_AGX_UAT_MAPPING :=
  {| mp_Context := c; mp_VirtualAddress := va; mp_PhysicalAddress := frames .[ 0 ];
     mp_Length := step_offset count; mp_Protection := p;
     PhysicalStride := APPLE_AGX_UAT_PHYSICAL_STRIDE_SCATTER |}.

Definition list_outcome s c roots va (frames : list Z) (count p : Z)
    (result : APPLE_AGX_UAT_RESULT) s' : Prop :=
  let good_list := forall k, 0 <= k < count -> frame_ok (frames .[ k ]) in
  (result = AppleAgxUatResultOk /\ good_list /\
   exists half, mappable s c roots va (frames .[ 0 ]) (step_offset count) p half /\
     mapped s (root_of roots half) (page_number va) count
       (fun k => page_pte c (frames .[ k ]) p) (scattered c va frames count p) s') \/
  (result <> AppleAgxUatResultOk /\ restored held s s' /\
   (out_of_pages result \/ ~ good_list \/
    ~ exists half, mappable s c roots va (frames .[ 0 ]) (step_offset count) p half)).

Lemma step_valid c va pa0 count p half k f h :
  0 <= c -> is_u64 va -> is_u64 pa0 -> range_valid c va pa0 (step_offset count) p half ->
  0 <= k < count -> is_u64 f ->
  AppleAgxUatValidateRange c (u64 (va + step_offset k)) f J313_AGX_G2_PAGE_SIZE p (Some h) =
    if bool_decide (frame_ok f) then (AppleAgxUatResultOk, Some half)
    else (if bool_decide (f mod 2 ^ 14 = 0) then AppleAgxUatResultOutOfRange
          else AppleAgxUatResultMisaligned, Some h).
Proof.
  intros Hc Hva Hpa0 Hvalid Hk Hf.
  assert (page_count (step_offset count) = count) as Hcount.
  { unfold page_count, step_offset, J313_AGX_G2_PAGE_SIZE. change (2 ^ 14) with 16384.
    apply Z_div_mult_full. done. }
  destruct (range_offset c va pa0 (step_offset count) p half) with (k := k) as [-> _]; try done;
    [by rewrite Hcount|].
  destruct Hvalid as (H1 & H2 & H3 & H4 & H5 & H6 & H7 & H8 & H9).
  unfold step_offset, J313_AGX_G2_PAGE_SIZE, frame_ok, fits in *.
  change (2 ^ 14) with 16384 in *. change (2 ^ 39) with 549755813888 in *.
  change (2 ^ 40) with 1099511627776 in *. change (2 ^ 64) with 18446744073709551616 in *.
  rewrite validate_range_cases by (unfold fits; lia).
  rewrite (bool_decide_false (16384 = 0)) by done. rewrite (bool_decide_false (64 <= c)) by lia.
  rewrite (bool_decide_false (~ protection_allowed c p)) by tauto.
  change (2 ^ 14) with 16384. change (2 ^ 39) with 549755813888.
  change (2 ^ 40) with 1099511627776. change (2 ^ 64) with 18446744073709551616.
  assert ((va + k * 16384) mod 16384 = 0) as Hal by (rewrite Z_mod_plus_full; done).
  destruct (decide (f mod 16384 = 0)) as [Hm|Hm].
  2: { rewrite (bool_decide_true (~ _)), (bool_decide_false (_ /\ _)) by tauto.
       by rewrite (bool_decide_false (f mod 16384 = 0)). }
  rewrite (bool_decide_false (~ _)) by tauto.
  rewrite (bool_decide_false (18446744073709551616 < _)) by lia.
  rewrite (bool_decide_true (f mod 16384 = 0)) by done.
  destruct (decide (f < 1099511627776)) as [Hlt|Hlt].
  - rewrite (bool_decide_true (0 <= f < _ /\ _)) by lia.
    assert (Hq := Z_div_exact_full_2 f 16384 ltac:(done) Hm).
    rewrite bool_decide_false by lia.
    destruct H9 as [[-> H9]|[-> H9]].
    + by rewrite bool_decide_true by lia.
    + rewrite bool_decide_false by lia. by rewrite bool_decide_true by lia.
  - rewrite (bool_decide_false (0 <= f < _ /\ _)) by lia. by rewrite bool_decide_true by lia.
Qed.

Lemma page_list_body_spec s c roots va frames count p :
  consistent s -> 0 <= c -> is_u64 va -> 0 < count < 2 ^ 32 ->
  (forall k, 0 <= k < count -> is_u64 (frames .[ k ])) ->
  (full_context0_broker = true -> c <> 0) ->
  wp (map_page_list_body c roots va frames count p (Some A))
    (fun _ s' => list_outcome s c roots va frames count p AppleAgxUatResultOk s')
    (fun e s' => list_outcome s c roots va frames count p e s') s.
Proof.
  intros Hco Hc Hva Hcount Hf Hbroker. assert (Hok := good_ok _ _ (co_good _ Hco)).
  assert (u64 (count * J313_AGX_G2_PAGE_SIZE) = step_offset count) as Hlen.
  { apply wrap_id. unfold fits, step_offset, J313_AGX_G2_PAGE_SIZE. change (2 ^ 32) with 4294967296 in *.
    change (2 ^ 64) with 18446744073709551616. lia. }
  assert (is_u64 (step_offset count)) as Hlenb by (rewrite <- Hlen; apply wrap_fits; lia).
  assert (page_count (step_offset count) = count) as Hpc.
  { unfold page_count, step_offset, J313_AGX_G2_PAGE_SIZE. change (2 ^ 14) with 16384.
    apply Z_div_mult_full. done. }
  assert (Href : forall e, e <> AppleAgxUatResultOk ->
    (~ forall k, 0 <= k < count -> frame_ok (frames .[ k ])) \/
    (~ exists half, mappable s c roots va (frames .[ 0 ]) (step_offset count) p half) ->
    list_outcome s c roots va frames count p e s).
  { intros e He Hn. right. split_and!; [done|by apply restored_refl|by right]. }
  unfold map_page_list_body. rewrite Hlen. apply ewp_bind, ewp_gets. cbn beta.
  rewrite check_owner_ok by done. apply ewp_bind, ewp_ret.
  destruct (AppleAgxUatValidateRange c va _ _ p _) as [result half] eqn:Hv.
  destruct (validate_range_ok c va (frames .[ 0 ]) (step_offset count) p AppleAgxUatTtbr0 result half)
    as [[-> (half' & -> & Hvalid)]|[Hne _]]; try done; [apply Hf; lia|..].
  2: { unfold check_result. rewrite bool_decide_false by done. apply ewp_bind, ewp_fail, Href; [done|].
       right. intros (half' & Hm). apply ma_range in Hm.
       apply (validate_range_refuses _ _ _ _ _ _ _ _ _ Hv Hm); try done. apply Hf. lia. }
  apply ewp_bind, ewp_ret, ewp_bind.
  eapply ewp_post; [apply (ewp_for _ _ _ (fun k h s' => s' = s /\ h = Some half' /\
    forall j, 0 <= j < k -> frame_ok (frames .[ j ])))|]; [lia|split_and!; [done|done|lia]|..].
  { intros k h s' Hk (-> & -> & Hsofar). rewrite Z.add_0_l.
    rewrite (step_valid c va (frames .[ 0 ]) count p half') by (try done; apply Hf; lia).
    destruct (decide (frame_ok (frames .[ k ]))) as [Hfk|Hfk].
    - rewrite bool_decide_true by done. apply ewp_bind, ewp_ret, ewp_ret. split_and!; [done|done|].
      intros j Hj. destruct (decide (j = k)) as [->|]; [done|]. apply Hsofar. lia.
    - rewrite bool_decide_false by done. unfold check_result.
      rewrite bool_decide_false by (by case_bool_decide). apply ewp_bind, ewp_fail, Href.
      + by case_bool_decide.
      + left. intros Hall. by apply Hfk, Hall. }
  intros h s' (-> & -> & Hall). cbn [default from_option].
  eapply ewp_mono; [apply (map_tail_spec s c roots va (frames .[ 0 ]) (step_offset count) p half' count
      (fun k => frames .[ k ]) (fun k => page_pte c (frames .[ k ]) p) (scattered c va frames count p));
      try done; [apply Hf; lia|]| |].
  - intros k Hk. assert (Hcp := range_context c va (frames .[ 0 ]) (step_offset count) p half').
    destruct Hcp as [Hc64 Hp]; try done.
    split; [by apply page_pte_nonzero; auto|by apply page_descriptor_ok; auto].
  - intros _ s' [(_ & H)|(? & _)]; [|done]. left. done.
  - intros e s' [(-> & H)|(He & Hr & Hn)]; [by left|]. right. split_and!; [done|done|tauto].
Qed.

End space.

End Space.
