(* ===== verification/UatPrune.v ===== *)
(** * Pruning empty tables

    AppleAgxUatPruneEmptyTables gives back the empty tables of the third level and then
    those of the second, clearing their parents' entries.  [prunes] says what may have
    changed: no translation, only links to tables that are gone, and only tables left
    with nothing else in them. *)

From stdpp Require Import gmap sets.
From S2P Require Import Prelude Arrays Bytes Uat ErrorState UatTable UatHeap UatOps UatMap UatSpace.
Import Uat Table Heap Ops Map Space.

Module Prune.

(** ** Removing by moving the last element *)

Lemma swap_remove_permutation {T} `{!Inhabited T} (qs : list T) (x : T) (j : Z) :
  0 <= j < zlen qs -> qs ++ [x] ≡ₚ qs .[ j ] :: qs .[ j <- x ].
Proof.
  intros Hj. assert (Z.to_nat j < length qs)%nat as Hn by (unfold zlen in Hj; lia).
  assert (Hg := list_lookup_lookup_total_lt qs (Z.to_nat j) Hn).
  assert (qs ≡ₚ qs .[ j ] :: delete (Z.to_nat j) qs) as Hq by by apply delete_Permutation.
  assert (qs .[ j <- x ] ≡ₚ x :: delete (Z.to_nat j) qs) as Hx.
  { unfold arr_set. rewrite (delete_Permutation (<[Z.to_nat j:=x]> qs) (Z.to_nat j) x)
      by by rewrite list_lookup_insert_eq.
    by rewrite !delete_take_drop, take_insert_ge, drop_insert_lt by lia. }
  rewrite Hx, Permutation_app_comm. simpl. rewrite Hq at 1. by constructor.
Qed.

Section prune.
Context {World : Type} (A : APPLE_AGX_UAT_ALLOCATOR World) (held : World -> gset Z).
Context `{!AllocatorLaws A held}.
Implicit Types (s : APPLE_AGX_UAT_INVENTORY * World) (v : APPLE_AGX_UAT_INVENTORY)
  (p : APPLE_AGX_UAT_PAGE) (ps : list APPLE_AGX_UAT_PAGE) (l pa i j n r c : Z).

Abbreviation good := (good held).

(** ** Clearing the reference to a table *)

Lemma entry_links v j i :
  inv_ok v -> wf (live v) -> 0 <= j < PageCount v -> Level (live v) .[ j ] < 2 ->
  0 <= i < width (Level (live v) .[ j ]) -> forall c, c <> 0 -> frame_ok c ->
  frame (entry v j i) = c <-> entry v j i = link c.
Proof.
  intros Hok Hwf Hj Hl Hi c Hc Hf. split; [|by intros ->; apply frame_link].
  assert (0 <= Level (live v) .[ j ]) as Hl0.
  { apply (page_ok_get (live v)); [apply Hwf|]. by rewrite zlen_live. }
  rewrite entry_word by (done || apply Hwf). intros E.
  destruct (wf_link _ Hwf (Level (live v) .[ j ]) (addr (live v) .[ j ]) i) as (c' & Hc' & E');
    [lia|done|by intros E0; rewrite E0 in E|].
  apply (has_frame _ _ _ (wf_pages _ Hwf)) in Hc' as (Hf' & _ & _).
  rewrite E' in E. rewrite frame_link in E by done. by subst.
Qed.

Record unreferenced v l c v' : Prop := {
  un_ok : inv_ok v';
  un_wf : wf (live v');
  un_shapes : shapes (live v') = shapes (live v);
  un_same : same_mappings v v';
  un_words : forall l' pa i, 0 <= i -> word (live v') l' pa i = word (live v) l' pa i \/
    (word (live v') l' pa i = 0 /\ l' + 1 = l /\ i < width l' /\ word (live v) l' pa i = link c);
  un_none : forall pa i, 0 <= i < width (l - 1) -> word (live v') (l - 1) pa i <> link c;
  un_view : forall r n, is_page n -> view (live v') r n = view (live v) r n;
}.

Lemma clear_parent_reference v l c :
  inv_ok v -> wf (live v) -> has (live v) l c -> 1 <= l <= 2 ->
  (forall i, word (live v) l c i = 0) ->
  unreferenced v l c (AppleAgxUatClearParentReference l c v).
Proof.
  intros Hok Hwf Hh Hl Hempty. assert (Hd := wf_nodup _ Hwf). assert (Hf := wf_pages _ Hwf).
  destruct (has_frame _ _ _ Hf Hh) as (Hfc & Hc0 & _).
  assert (forall j, 0 <= j < PageCount v ->
    u32 (Level (pages v) .[ j ] + 1) = Level (live v) .[ j ] + 1 /\ 0 <= Level (live v) .[ j ]) as Hlev.
  { intros j Hj. destruct (page_ok_get _ j Hf) as (_ & _ & Hb & _); [by rewrite zlen_live|].
    rewrite live_get in * by done. split; [|lia]. apply wrap_id. unfold fits. lia. }
  unfold AppleAgxUatClearParentReference.
  pose (count j := if Level (pages v) .[ j ] =? 0 then 8 else APPLE_AGX_UAT_TABLE_ENTRY_COUNT).
  assert (forall j, 0 <= j < PageCount v -> count j = width (Level (live v) .[ j ])) as Hcount.
  { intros j Hj. unfold count, width. by rewrite live_get. }
  pose (reference j := find_range 0 (count j) (fun entry_index =>
    Z.land (entry v j entry_index) APPLE_AGX_UAT_TABLE_ADDRESS_MASK =? c)).
  destruct (find_range 0 (PageCount v) _) as [j|] eqn:Hfind.
  - apply find_range_Some in Hfind as (Hj & Hp & _). rewrite Z.add_0_l in Hj.
    change ((u32 (Level (pages v) .[ j ] + 1) =? l) && negb (is_null (reference j)) = true) in Hp.
    change (unreferenced v l c (store j (default 0 (reference j)) 0 v)).
    apply andb_true_iff in Hp as [Hpl Hpr]. apply Z.eqb_eq in Hpl. apply negb_true_iff in Hpr.
    destruct (Hlev j Hj) as [El Hlj]. rewrite El in Hpl.
    assert (Level (live v) .[ j ] = l - 1) as Hlv by lia.
    destruct (reference j) as [i|] eqn:Hi; [|done]. cbn [default from_option id].
    unfold reference in Hi. apply find_range_Some in Hi as (Hib & Hic & _). apply Z.eqb_eq in Hic.
    rewrite Z.add_0_l, Hcount in Hib by done.
    fold (frame (entry v j i)) in Hic. assert (Hwb := width_bound (Level (live v) .[ j ])).
    apply entry_links in Hic; try done; [|lia].
    rewrite entry_word in Hic by done. rewrite Hlv in Hic.
    set (a := addr (live v) .[ j ]) in *.
    assert (forall l' pa i', 0 <= i' -> word (live (store j i 0 v)) l' pa i' =
      if decide (l' = l - 1 /\ pa = a /\ i' = i) then 0 else word (live v) l' pa i') as Hw.
    { intros l' pa i' Hi'. rewrite word_store by (done || lia). by rewrite Hlv. }
    assert (shapes (live (store j i 0 v)) = shapes (live v)) as Hs by by apply shapes_store.
    assert (wf (live (store j i 0 v))) as Hwf'.
    { apply (wf_shrink (live v)); [done|done|]. intros l' pa i' _ Hi'. rewrite Hw by lia.
      case_decide; auto. }
    split; try done.
    + by apply store_ok.
    + intros l' pa i' Hi'. rewrite Hw by done. case_decide as Hc; [|by left]. right.
      destruct Hc as (-> & -> & ->). split_and!; [done|lia|rewrite <- Hlv; lia|done].
    + intros pa i' Hi'. rewrite Hw by lia. case_decide as Hc.
      * intros E. symmetry in E. by apply link_nonzero in E.
      * intros E. apply Hc. split; [done|]. rewrite Hlv in Hib.
        apply (wf_parent _ Hwf (l - 1)); [lia|done|done| |congruence].
        rewrite E. apply link_nonzero.
    + intros r n Hn. symmetry.
      apply (walk_link (live (store j i 0 v)) (live v) (l - 1) a i c); try done.
      * apply Hwf'.
      * lia.
      * rewrite Hw by lia. by rewrite decide_True.
      * intros i'. replace (l - 1 + 1) with l by lia.
        destruct (decide (0 <= i')) as [Hi'|Hi'].
        -- rewrite Hw, decide_False by lia. apply Hempty.
        -- apply shapes_has with (qs := live (store j i 0 v)) in Hh; [|done].
           destruct Hh as (q & Hq & <- & <-). rewrite word_in; [|apply Hwf'|done].
           replace ((words q) .[ i' ]) with ((words q) .[ 0 ])
             by (unfold arr_get; f_equal; lia).
           rewrite <- (word_in (live (store j i 0 v))); [|apply Hwf'|done].
           rewrite Hw, decide_False by lia. apply Hempty.
      * intros l' pa i' Hi'. rewrite Hw by done. case_decide as Hc; [|done].
        destruct Hc as (-> & -> & ->). done.
  - rewrite find_range_None in Hfind. split; try done; [auto|].
    intros pa i Hi E.
    assert (has (live v) (l - 1) pa) as Hpa.
    { eapply word_has. rewrite E. apply link_nonzero. }
    apply has_get in Hpa as (j & Hj & Hlj & <-). rewrite zlen_live in Hj by done.
    specialize (Hfind j ltac:(lia)).
    change ((u32 (Level (pages v) .[ j ] + 1) =? l) && negb (is_null (reference j)) = false) in Hfind.
    destruct (Hlev j Hj) as [El _]. rewrite El, Hlj in Hfind.
    replace (l - 1 + 1) with l in Hfind by lia. rewrite Z.eqb_refl in Hfind. cbn [andb] in Hfind.
    apply negb_false_iff in Hfind. destruct (reference j) as [i'|] eqn:Hr; [done|].
    unfold reference in Hr. rewrite find_range_None in Hr.
    specialize (Hr i). rewrite Hcount, Hlj in Hr by done. specialize (Hr ltac:(lia)).
    apply Z.eqb_neq in Hr. apply Hr. fold (frame (entry v j i)). rewrite entry_word by done. rewrite Hlj, E.
    by apply frame_link.
Qed.
(** ** Giving a page back from the middle of the inventory *)

Lemma release_inventory_page s j :
  inv_ok s.1 -> NoDup (addresses (live s.1)) -> 0 <= j < PageCount s.1 ->
  addr (live s.1) .[ j ] ∈ held s.2 ->
  let s' := AppleAgxUatReleaseInventoryPage j A s in
  inv_ok s'.1 /\ live s.1 ≡ₚ (live s.1) .[ j ] :: live s'.1 /\ same_mappings s.1 s'.1 /\
  held s'.2 = held s.2 ∖ {[ addr (live s.1) .[ j ] ]} /\ PageCount s'.1 = PageCount s.1 - 1.
Proof.
  intros Hok Hd Hj Hh s'. assert (Hc := ok_page_count _ Hok). assert (Hcap := ok_capacities _ Hok).
  assert (Harr := ok_page_array _ Hok).
  assert (u32 (PageCount s.1 - 1) = PageCount s.1 - 1) as El by (apply wrap_id; unfold fits; lia).
  unfold s', AppleAgxUatReleaseInventoryPage. rewrite El. rewrite <- live_get by done.
  destruct (release_page_held A held _ s Hh) as [E Hh']. unfold on_inventory. rewrite E. cbn [fst snd].
  set (v1 := if negb (j =? PageCount s.1 - 1)
             then set_page j (pages s.1) .[ PageCount s.1 - 1 ] s.1 else s.1).
  assert (inv_ok v1 /\ PageCount v1 = PageCount s.1 /\ PageCapacity v1 = PageCapacity s.1 /\
    same_mappings s.1 v1) as (Hok1 & Hc1 & Hp1 & Hs1).
  { unfold v1. destruct (negb _); [|done]. split; [|done].
    assert (H := inv_ok_set_page s.1 j (pages s.1) .[ PageCount s.1 - 1 ] (PageCount s.1) Hok Hc).
    by destruct s.1. }
  rewrite Hc1, El. split_and!; try done; [by apply inv_ok_set_page; [|lia]|].
  change (live (set_field PageCount ?n (set_page ?i ?p v1))) with
    (prefix_list ((pages v1) .[ i <- p ]) n).
  rewrite prefix_set_out by lia.
  assert (live s.1 = prefix_list (pages s.1) (PageCount s.1 - 1) ++ [(pages s.1) .[ PageCount s.1 - 1 ]]) as Hl.
  { unfold live. replace (PageCount s.1) with (PageCount s.1 - 1 + 1) at 1 by lia.
    by rewrite prefix_list_snoc by lia. }
  assert (zlen (prefix_list (pages s.1) (PageCount s.1 - 1)) = PageCount s.1 - 1) as Hz
    by (apply zlen_prefix; lia).
  unfold v1. destruct (Z.eqb_spec j (PageCount s.1 - 1)) as [->|Hne]; cbn [negb].
  - rewrite live_get by lia. rewrite Hl. by rewrite Permutation_app_comm.
  - change (pages (set_page ?i ?p ?v)) with ((pages v) .[ i <- p ]).
    rewrite prefix_set_in by lia. rewrite Hl at 1. rewrite live_get by done.
    rewrite <- (get_prefix (pages s.1) (PageCount s.1 - 1) j) by lia.
    apply swap_remove_permutation. lia.
Qed.

(** ** Pruning *)

Record prunes s s' : Prop := {
  pn_good : good s';
  pn_same : same_mappings s.1 s'.1;
  pn_view : forall r n, is_page n -> view (live s'.1) r n = view (live s.1) r n;
  pn_roots : forall r, has (live s'.1) 0 r <-> has (live s.1) 0 r;
  pn_pages : forall p', p' ∈ live s'.1 -> exists p, p ∈ live s.1 /\ shape p' = shape p;
  pn_words : forall l pa i, 0 <= i -> has (live s'.1) l pa ->
    word (live s'.1) l pa i = word (live s.1) l pa i \/
    (word (live s'.1) l pa i = 0 /\ 0 <= l < 2 /\ i < width l /\
     ~ has (live s'.1) (l + 1) (frame (word (live s.1) l pa i)));
  pn_gone : forall l pa, has (live s.1) l pa -> ~ has (live s'.1) l pa -> 1 <= l /\
    forall i, 0 <= i -> word (live s.1) l pa i = 0 \/
      (l < 2 /\ ~ has (live s'.1) (l + 1) (frame (word (live s.1) l pa i)));
  pn_others : held s'.2 ∖ owned_by (live s'.1) = held s.2 ∖ owned_by (live s.1);
}.

Lemma prunes_refl s : good s -> prunes s s.
Proof.
  intros Hg. split; try done; [intros p' Hp'; by exists p'|auto].
Qed.

Lemma prunes_has s s' l pa : prunes s s' -> has (live s'.1) l pa -> has (live s.1) l pa.
Proof.
  intros Hp (p' & Hp' & <- & <-). destruct (pn_pages _ _ Hp p' Hp') as (p & Hin & Hs).
  exists p. unfold shape in Hs. by injection Hs as -> ->.
Qed.

Lemma prunes_trans s s1 s2 : prunes s s1 -> prunes s1 s2 -> prunes s s2.
Proof.
  intros H1 H2. split.
  - apply H2.
  - by eapply same_mappings_trans; [apply H1|apply H2].
  - intros r n Hn. by rewrite (pn_view _ _ H2), (pn_view _ _ H1).
  - intros r. by rewrite (pn_roots _ _ H2), (pn_roots _ _ H1).
  - intros p2 Hp2. destruct (pn_pages _ _ H2 p2 Hp2) as (p1 & Hp1 & E2).
    destruct (pn_pages _ _ H1 p1 Hp1) as (p & Hp & E1). exists p. split; [done|congruence].
  - intros l pa i Hi Hh. assert (Hh1 := prunes_has _ _ _ _ H2 Hh).
    destruct (pn_words _ _ H1 l pa i Hi Hh1) as [E1|(E1 & Hl' & Hil' & Hc')].
    + rewrite <- E1. by apply (pn_words _ _ H2).
    + right. split_and!; try lia.
      * destruct (pn_words _ _ H2 l pa i Hi Hh) as [E2|[E2 _]]; congruence.
      * intros Hx. by apply Hc', (prunes_has _ _ _ _ H2).
  - intros l pa Hh Hn. destruct (decide (has (live s1.1) l pa)) as [Hh1|Hn1].
    + destruct (pn_gone _ _ H2 l pa Hh1 Hn) as [Hl Hw]. split; [done|]. intros i Hi.
      destruct (pn_words _ _ H1 l pa i Hi Hh1) as [E1|(E1 & Hl' & _ & Hc')].
      * rewrite <- E1. by apply Hw.
      * right. split; [lia|]. intros Hx. by apply Hc', (prunes_has _ _ _ _ H2).
    + destruct (pn_gone _ _ H1 l pa Hh Hn1) as [Hl Hw]. split; [done|]. intros i Hi.
      destruct (Hw i Hi) as [E|[Hl2 Hc]]; [by left|]. right. split; [done|].
      intros Hx. by apply Hc, (prunes_has _ _ _ _ H2).
  - by rewrite (pn_others _ _ H2), (pn_others _ _ H1).
Qed.

Lemma shapes_has_iff ps qs l pa : shapes ps = shapes qs -> has ps l pa <-> has qs l pa.
Proof. intros Hs. split; apply shapes_has; done. Qed.

(** One round. *)
Lemma prune_page_spec s l j :
  good s -> 1 <= l <= 2 -> 0 <= j < PageCount s.1 -> Level (live s.1) .[ j ] = l ->
  page_empty (live s.1) .[ j ] ->
  prunes s (prune_page l j A s) /\ PageCount (prune_page l j A s).1 = PageCount s.1 - 1.
Proof.
  intros Hg Hl Hj Hlj He. destruct (Hg) as [Hok Hwf Ho]. assert (Hd := wf_nodup _ Hwf).
  unfold prune_page. rewrite <- live_get by done. set (c := addr (live s.1) .[ j ]).
  assert (has (live s.1) l c) as Hc by (rewrite <- Hlj; apply has_index; by rewrite zlen_live).
  assert (forall i, word (live s.1) l c i = 0) as Hcz.
  { intros i. rewrite <- Hlj. unfold c. rewrite word_in; [apply He|done|].
    apply get_elem. by rewrite zlen_live. }
  assert (Hun := clear_parent_reference s.1 l c Hok Hwf Hc Hl Hcz).
  set (s1 := on_inventory (AppleAgxUatClearParentReference l c) s).
  change (unreferenced s.1 l c s1.1) in Hun. destruct Hun as [Hok1 Hwf1 Hs1 Hm1 Hw1 Hn1 Hv1].
  assert (PageCount s1.1 = PageCount s.1) as Hc1 by (by apply shapes_count; [done|done|done]).
  destruct (shapes_index s s1 j Hok Hs1 Hj) as [Hl1 Ha1].
  assert (Hd1 := wf_nodup _ Hwf1).
  destruct (release_inventory_page s1 j Hok1 Hd1) as (Hok2 & Hperm & Hm2 & Hh2 & Hc2); [lia| |].
  { rewrite Ha1. change s1.2 with s.2. apply Ho. rewrite owned_elem. apply addresses_in, get_elem.
    by rewrite zlen_live. }
  set (s2 := AppleAgxUatReleaseInventoryPage j A s1) in *. rewrite Ha1 in Hh2. fold c in Hh2, Ha1.
  split; [|lia]. set (p := (live s1.1) .[ j ]) in *.
  assert (forall l' pa i, word (live s2.1) l' pa i = if decide (pa = c) then 0 else word (live s1.1) l' pa i) as Hw2.
  { intros l' pa i. rewrite (word_remove _ p _ l' pa i Hd1 Hperm). by rewrite Ha1. }
  assert (forall l' pa, has (live s2.1) l' pa <-> has (live s.1) l' pa /\ pa <> c) as Hh.
  { intros l' pa. rewrite (has_remove _ p _ l' pa Hd1 Hperm), Ha1.
    by rewrite (shapes_has_iff _ _ l' pa Hs1). }
  assert (wf (live s2.1)) as Hwf2.
  { apply (wf_remove (live s1.1) p); [done|done|]. rewrite Ha1. intros l' pa i Hl' Hi E.
    destruct (decide (l' = l - 1)) as [->|Hne]; [by apply (Hn1 pa i)|].
    destruct (wf_link _ Hwf1 l' pa i Hl' Hi) as (c' & Hc' & E').
    { rewrite E. apply link_nonzero. }
    assert (Hf' := has_frame _ _ _ (wf_pages _ Hwf1) Hc'). assert (Hfc := has_frame _ _ _ (wf_pages _ Hwf) Hc).
    rewrite E in E'. apply link_inj in E'; [|apply Hfc|apply Hf']. subst c'.
    apply (shapes_has_iff _ _ (l' + 1) c Hs1) in Hc'.
    assert (l' + 1 = l) by by apply (address_level (live s.1) _ _ c). lia. }
  assert (owned_by (live s1.1) = owned_by (live s.1)) as Ho1 by by apply owned_shapes.
  assert (owned_by (live s2.1) = owned_by (live s.1) ∖ {[ c ]}) as Ho2.
  { apply set_eq. intros a. rewrite <- Ho1, elem_of_difference, !owned_elem, elem_of_singleton.
    assert (NoDup (addresses (p :: live s2.1))) as Hd' by (unfold addresses; by rewrite <- Hperm).
    apply NoDup_cons in Hd' as [Hnp _]. unfold addresses in *. rewrite Hperm. cbn.
    rewrite elem_of_cons, Ha1 in *. split; [|naive_solver]. intros Ha. split; [auto|].
    intros ->. by apply Hnp. }
  assert (c ∈ owned_by (live s.1)) as Hco by (rewrite owned_elem; by eapply has_address).
  split.
  - split; [done|done|]. rewrite Ho2, Hh2. change s1.2 with s.2. set_solver.
  - by eapply same_mappings_trans.
  - intros r n Hn. rewrite <- Hv1 by done. symmetry.
    apply walk_ext; [done|]. intros l' pa i Hi. rewrite Hw2. case_decide as Hpa; [|done]. subst pa.
    destruct (decide (l' = l)) as [->|Hne].
    + destruct (Hw1 l c i Hi) as [E|[E _]]; [by rewrite E|done].
    + apply word_out. intros Hx. apply (shapes_has_iff _ _ l' c Hs1) in Hx.
      apply Hne. by apply (address_level (live s.1) _ _ c).
  - intros r. rewrite Hh. split; [tauto|]. intros Hr. split; [done|]. intros ->.
    assert (0 = l) by by apply (address_level (live s.1) _ _ c). lia.
  - intros p' Hp'. destruct (shapes_elem (live s1.1) (live s.1) p' Hs1) as (q & Hq & Hsq);
      [rewrite Hperm; by right|]. by exists q.
  - intros l' pa i Hi Hx. apply Hh in Hx as [Hx Hne]. rewrite Hw2, decide_False by done.
    destruct (Hw1 l' pa i Hi) as [E|(E & Hl' & Hil & E')]; [by left|]. right.
    split_and!; [done| |lia|done|]; [apply (has_frame _ _ _ (wf_pages _ Hwf)) in Hx; lia|].
    rewrite E', frame_link by apply (has_frame _ _ _ (wf_pages _ Hwf) Hc). rewrite Hh. tauto.
  - intros l' pa Hx Hn. rewrite Hh in Hn.
    assert (pa = c) as -> by (apply dec_stable; tauto).
    assert (l' = l) as -> by by apply (address_level (live s.1) _ _ c).
    split; [lia|]. auto.
  - rewrite Ho2, Hh2. change s1.2 with s.2. set_solver.
Qed.

Lemma find_empty_spec v l :
  inv_ok v -> Forall page_ok (live v) ->
  match find_empty l v with
  | Some j => 0 <= j < PageCount v /\ Level (live v) .[ j ] = l /\ page_empty (live v) .[ j ]
  | None => forall p, p ∈ live v -> Level p = l -> ~ page_empty p
  end.
Proof.
  intros Hok Hf. unfold find_empty. destruct (find_range _ _ _) as [j|] eqn:E.
  - apply find_range_Some in E as (Hj & Hp & _). apply andb_true_iff in Hp as [Hp Hz].
    apply Z.eqb_eq in Hp. rewrite live_get by lia. split_and!; [lia|lia|done|].
    apply page_is_zero; [|done]. rewrite <- live_get by lia.
    apply (page_ok_get (live v)); [done|]. rewrite zlen_live by done. lia.
  - rewrite find_range_None in E. intros p Hp Hl He.
    assert (has (live v) l (addr p)) as Hh by by exists p.
    apply list_elem_of_lookup in Hp as (k & Hk). assert (Hlt := lookup_lt_Some _ _ _ Hk).
    assert (Hlv := zlen_live v Hok). unfold zlen in Hlv. specialize (E (Z.of_nat k) ltac:(lia)).
    assert ((pages v) .[ Z.of_nat k ] = p) as Hg.
    { rewrite <- live_get by lia. unfold arr_get. rewrite Nat2Z.id. by apply list_lookup_total_correct. }
    rewrite Hg, Hl, Z.eqb_refl in E. cbn [andb] in E.
    assert (AppleAgxUatPageIsZero p = true) as Ht; [|congruence].
    apply page_is_zero; [|done]. rewrite Forall_forall in Hf. apply Hf.
    by eapply list_elem_of_lookup_2.
Qed.

Definition no_empty l ps : Prop := forall p, p ∈ ps -> Level p = l -> ~ page_empty p.

(** The rounds end with no empty table of the level: the fuel is enough. *)
Lemma prune_rounds_spec fuel s l :
  good s -> 1 <= l <= 2 -> (Z.to_nat (PageCount s.1) < fuel)%nat ->
  prunes s (prune_rounds fuel l A s) /\ no_empty l (live (prune_rounds fuel l A s).1).
Proof.
  revert s. induction fuel as [|fuel IH]; intros s Hg Hl Hfuel; [lia|]. cbn [prune_rounds].
  assert (Hfe := find_empty_spec s.1 l (good_ok _ _ Hg) (wf_pages _ (good_wf _ _ Hg))).
  destruct (find_empty l s.1) as [j|].
  - destruct Hfe as (Hj & Hlj & He). destruct (prune_page_spec s l j Hg Hl Hj Hlj He) as [Hp Hc].
    destruct (IH (prune_page l j A s)) as [Hp' Hn]; [apply Hp|done|lia|].
    split; [by eapply prunes_trans|done].
  - split; [by apply prunes_refl|done].
Qed.

Lemma prune_empty_tables s :
  good s ->
  prunes s (AppleAgxUatPruneEmptyTables A s) /\ pruned (live (AppleAgxUatPruneEmptyTables A s).1).
Proof.
  intros Hg. unfold AppleAgxUatPruneEmptyTables, prune_level.
  destruct (prune_rounds_spec (S (Z.to_nat (PageCount s.1))) s 2 Hg) as [Hp2 Hn2]; [lia|lia|].
  set (s2 := prune_rounds _ 2 A s) in *.
  destruct (prune_rounds_spec (S (Z.to_nat (PageCount s2.1))) s2 1) as [Hp1 Hn1]; [apply Hp2|lia|lia|].
  set (s1 := prune_rounds _ 1 A s2) in *. split; [by eapply prunes_trans|].
  intros p Hp Hl He. assert (Hwf1 := good_wf _ _ (pn_good _ _ Hp1)).
  assert (0 <= Level p <= 2) as Hb.
  { assert (Hf := wf_pages _ Hwf1). rewrite Forall_forall in Hf. by destruct (Hf p Hp) as (_ & _ & ? & _). }
  destruct (decide (Level p = 1)) as [H1|H1]; [by apply (Hn1 p)|].
  assert (Level p = 2) as H2 by lia.
  assert (has (live s1.1) 2 (addr p)) as Hh by by exists p.
  assert (Hh2 := prunes_has _ _ _ _ Hp1 Hh). destruct Hh2 as (q & Hq & Hlq & Haq).
  apply (Hn2 q Hq Hlq). apply (page_empty_words (live s2.1)); [apply (good_wf _ _ (pn_good _ _ Hp2))|done|].
  intros i Hi. rewrite Hlq, Haq.
  destruct (pn_words _ _ Hp1 2 (addr p) i Hi Hh) as [E|(_ & ? & _)]; [|lia].
  rewrite <- E, <- H2, word_in; [apply He|apply Hwf1|done].
Qed.



End prune.

End Prune.
