(* ===== verification/UatUnmap.v ===== *)
(** * Unmapping, and the round trip

    AppleAgxUatUnmap removes a mapping the list records, provided every page of it is
    still there; after that the tables translate everything else as before and hold no
    empty page.  Unmapping what was just mapped gives back the very tables there were. *)

From stdpp Require Import gmap sets.
From S2P Require Import Prelude Arrays Bytes Uat ErrorState UatTable.
From S2P Require Import UatHeap UatOps UatMap UatSpace UatPrune.
Import Uat Table Heap Ops Map Space Prune.

Module Unmap.

Section unmap.
Context {World : Type} (full_context0_broker : bool).
Context (A : APPLE_AGX_UAT_ALLOCATOR World) (held : World -> gset Z) `{!AllocatorLaws A held}.
Implicit Types (s : APPLE_AGX_UAT_INVENTORY * World) (v : APPLE_AGX_UAT_INVENTORY)
  (m : APPLE_AGX_UAT_MAPPING) (l pa n r c va : Z).

Abbreviation good := (good held).
Abbreviation consistent := (consistent held).
Abbreviation restored := (restored held).

(** ** The range is there *)

Lemma leaf_present_view v root va :
  inv_ok v -> wf (live v) -> 0 <= root < PageCount v -> Level (live v) .[ root ] = 0 -> 0 <= va ->
  leaf_present v root va = negb (view (live v) (addr (live v) .[ root ]) (page_number va) =? 0).
Proof.
  intros Hok Hwf Hr Hl Hva. unfold leaf_present.
  destruct (existing_leaf v root va Hok Hwf Hr Hl Hva) as [(k & -> & Hk & Hlk & Hak)|[-> Hn]].
  - unfold load_leaf. cbn [fst snd]. rewrite entry_word by (done || apply Hwf).
    by rewrite Hlk, Hak.
  - unfold view. rewrite word_out by done. done.
Qed.

Lemma range_present_view v root va n count :
  inv_ok v -> wf (live v) -> 0 <= root < PageCount v -> Level (live v) .[ root ] = 0 ->
  range_at va n count ->
  range_present root va (step_offset count) v = true <->
  forall k, 0 <= k < count -> view (live v) (addr (live v) .[ root ]) (n + k) <> 0.
Proof.
  intros Hok Hwf Hr Hl [Hn Hva]. unfold range_present. rewrite page_steps_offset.
  assert (forall k, 0 <= k < count -> leaf_present v root (u64 (va + step_offset k)) =
    negb (view (live v) (addr (live v) .[ root ]) (n + k) =? 0)) as Hlp.
  { intros k Hk. rewrite leaf_present_view; try done; [by rewrite Hva|]. apply wrap_fits. lia. }
  destruct (find_range _ _ _) as [k|] eqn:E; cbn [is_null].
  - apply find_range_Some in E as (Hk & Hp & _). rewrite Hlp in Hp by lia. guards.
    split; [done|]. intros Hall. exfalso. by apply (Hall k); [lia|].
  - rewrite find_range_None in E. split; [|done]. intros _ k Hk. specialize (E k ltac:(lia)).
    rewrite Hlp in E by done. by guards.
Qed.

(** ** Removing the record *)

Lemma remove_mapping_live v j :
  inv_ok v -> 0 <= j < MappingCount v ->
  inv_ok (remove_mapping j v) /\ live (remove_mapping j v) = live v /\
  live_mappings (remove_mapping j v) = delete (Z.to_nat j) (live_mappings v) /\
  PageCapacity (remove_mapping j v) = PageCapacity v /\
  MappingCapacity (remove_mapping j v) = MappingCapacity v.
Proof.
  intros [H1 H2 H3 H4 H5 H6 H7] Hj. unfold remove_mapping.
  destruct (shift_down_loop_spec j (MappingCount v - 1 - j) (mappings v)) as [Hl _]; [lia..|].
  assert (u32 (MappingCount v - 1) = MappingCount v - 1) as E by (apply wrap_id; unfold fits; lia).
  cbn [set_field MappingCount]. split_and!; try done.
  - assert (zlen ((shift_down_loop j (MappingCount v - 1 - j) (mappings v))
        .[ u32 (MappingCount v - 1) <- mapping_zero ]) = MappingCapacity v) as Hz by (rewrite zlen_set; lia).
    split; try done; try exact Hz; cbn; rewrite ?E; lia.
  - unfold live_mappings.
    change (prefix_list ((shift_down_loop j (MappingCount v - 1 - j) (mappings v))
              .[ u32 (MappingCount v - 1) <- mapping_zero ]) (u32 (MappingCount v - 1)) =
            delete (Z.to_nat j) (prefix_list (mappings v) (MappingCount v))).
    rewrite E, prefix_set_out by lia. apply shift_down_delete; lia.
Qed.

Lemma maps_ok_delete ms (j : nat) : maps_ok ms -> maps_ok (delete j ms).
Proof.
  intros [Hf Ha]. split; [by apply Forall_delete|]. intros i k m1 m2 Hne Hi Hk.
  assert (forall x m, delete j ms !! x = Some m -> ms !! (if decide (x < j)%nat then x else S x) = Some m)
    as Hlk.
  { intros x m Hx. case_decide.
    - by rewrite list_lookup_delete_lt in Hx by lia.
    - by rewrite list_lookup_delete_ge in Hx by lia. }
  apply Hlk in Hi, Hk. eapply Ha; [|exact Hi|exact Hk]. repeat case_decide; lia.
Qed.

(** ** What unmapping does *)

Record unmapped s r n (count : Z) (j : nat) s' : Prop := {
  um_consistent : consistent s';
  um_view : forall r' n', is_page n' -> view (live s'.1) r' n' =
    if decide (r' = r /\ n <= n' < n + count) then 0 else view (live s.1) r' n';
  um_maps : live_mappings s'.1 = delete j (live_mappings s.1);
  um_roots : forall r', has (live s'.1) 0 r' <-> has (live s.1) 0 r';
  um_others : others held s' = others held s;
  um_tables : exists s1 s2, leaves_written held s r n count (fun _ => 0) s1 /\
    live s2.1 = live s1.1 /\ prunes held s2 s';
  um_capacity : PageCapacity s'.1 = PageCapacity s.1 /\ MappingCapacity s'.1 = MappingCapacity s.1;
}.

(** What an unmapping call needs. *)
Record unmappable s (c : Z) roots va len (j : nat) half : Prop := {
  ua_broker : full_context0_broker = true -> c <> 0;
  ua_record : exists m, live_mappings s.1 !! j = Some m /\ mp_Context m = c /\
    mp_VirtualAddress m = va /\ mp_Length m = len /\
    range_valid c va (mp_PhysicalAddress m) len (mp_Protection m) half;
  ua_root : has (live s.1) 0 (root_of roots half);
  ua_present : forall k, 0 <= k < page_count len ->
    view (live s.1) (root_of roots half) (page_number va + k) <> 0;
}.

Lemma unmap_end s r n count (j : nat) s1 :
  consistent s -> leaves_written held s r n count (fun _ => 0) s1 -> (j < length (live_mappings s.1))%nat ->
  unmapped s r n count j
    (AppleAgxUatPruneEmptyTables A (on_inventory (remove_mapping (Z.of_nat j)) s1)).
Proof.
  intros [Hg Hm Hpr] Hlw Hj. destruct (Hlw) as [Hg1 Hs1 (Hsm & Hmcap & Hcnt & Hpcap) Hwd1 Hw1 Hat1 Hwalk1].
  assert (live_mappings s1.1 = live_mappings s.1) as Elm by (unfold live_mappings, mappings; congruence).
  assert (Z.of_nat j < MappingCount s1.1) as Hjb.
  { rewrite <- Elm in Hj. unfold live_mappings, prefix_list in Hj. rewrite length_take in Hj. lia. }
  destruct (remove_mapping_live s1.1 (Z.of_nat j) (good_ok _ _ Hg1)) as (Hok2 & Hl2 & Hm2 & Hc2 & Hd2); [lia|].
  set (s2 := on_inventory _ s1). rewrite Nat2Z.id, Elm in Hm2.
  assert (good s2) as Hg2.
  { destruct Hg1 as [_ Hwf Ho]. split; [done|..]; cbn [s2 on_inventory fst snd]; by rewrite Hl2. }
  destruct (prune_empty_tables A held s2 Hg2) as [Hp Hpr3]. set (s3 := AppleAgxUatPruneEmptyTables A s2) in *.
  destruct (pn_same _ _ _ Hp) as (Hsm3 & Hmc3 & Hcn3 & Hpc3).
  assert (live_mappings s3.1 = delete j (live_mappings s.1)) as Elm3.
  { rewrite <- Hm2. unfold live_mappings, mappings. by rewrite Hsm3, Hcn3. }
  split.
  - split; [apply Hp|by rewrite Elm3; apply maps_ok_delete|done].
  - intros r' n' Hn'. rewrite (pn_view _ _ _ Hp) by done. cbn [s2 on_inventory fst]. rewrite Hl2.
    by destruct (Hwalk1 r' n' Hn') as [_ ->].
  - done.
  - intros r'. rewrite (pn_roots _ _ _ Hp). cbn [s2 on_inventory fst]. rewrite Hl2.
    by apply shapes_has_iff.
  - unfold others. rewrite (pn_others _ _ _ Hp). cbn [s2 on_inventory fst snd].
    by rewrite Hl2, Hwd1, (owned_shapes _ _ Hs1).
  - by exists s1, s2.
  - cbn [s2 on_inventory fst] in *. split; congruence.
Qed.

Definition unmap_outcome s c roots va len (result : APPLE_AGX_UAT_RESULT) s' : Prop :=
  (result = AppleAgxUatResultOk /\ exists j half, unmappable s c roots va len j half /\
     unmapped s (root_of roots half) (page_number va) (page_count len) j s') \/
  (result <> AppleAgxUatResultOk /\ s' = s /\ ~ exists j half, unmappable s c roots va len j half).

Lemma record_unique ms (i j : nat) m1 m2 :
  maps_ok ms -> ms !! i = Some m1 -> ms !! j = Some m2 -> mp_Context m1 = mp_Context m2 ->
  mp_VirtualAddress m1 = mp_VirtualAddress m2 -> i = j.
Proof.
  intros [Hf Ha] Hi Hj Hc Hv. destruct (decide (i = j)) as [|Hne]; [done|]. exfalso.
  assert (Hap := Ha i j m1 m2 Hne Hi Hj Hc). rewrite Forall_lookup in Hf.
  destruct (Hf i m1 Hi) as (_ & H1 & _), (Hf j m2 Hj) as (_ & H2 & _). lia.
Qed.

Lemma live_mapping_lookup v (j : nat) m :
  inv_ok v -> live_mappings v !! j = Some m <->
  Z.of_nat j < MappingCount v /\ (mappings v) .[ Z.of_nat j ] = m.
Proof.
  intros Hok. assert (H := ok_mapping_array _ Hok). assert (H' := ok_mapping_count _ Hok).
  unfold zlen in H. unfold live_mappings, prefix_list, arr_get. rewrite Nat2Z.id. split.
  - intros Hj. assert (Hlt := lookup_lt_Some _ _ _ Hj). rewrite length_take in Hlt.
    split; [lia|]. rewrite lookup_take in Hj by lia. rewrite decide_True in Hj by lia.
    by apply list_lookup_total_correct.
  - intros [Hlt <-]. rewrite lookup_take by lia. rewrite decide_True by lia.
    apply list_lookup_lookup_total_lt. lia.
Qed.

Lemma unmap_body_spec s c roots va len :
  consistent s -> 0 <= c -> is_u64 va -> is_u64 len -> (full_context0_broker = true -> c <> 0) ->
  wp (unmap_body c roots va len (Some A))
    (fun _ s' => unmap_outcome s c roots va len AppleAgxUatResultOk s')
    (fun e s' => unmap_outcome s c roots va len e s') s.
Proof.
  intros Hco Hc Hva Hlen Hbroker. destruct (Hco) as [Hg Hmaps Hpr]. assert (Hok := good_ok _ _ Hg).
  assert (Hd := good_nodup held s Hg).
  assert (Href : forall e, e <> AppleAgxUatResultOk -> (~ exists j half, unmappable s c roots va len j half) ->
    unmap_outcome s c roots va len e s) by (intros; right; done).
  unfold unmap_body. apply ewp_bind, ewp_gets. cbn beta. rewrite (check_owner_ok A held) by done.
  apply ewp_bind, ewp_ret. destruct (find_range _ _ _) as [jz|] eqn:Hfind.
  2: { apply ewp_fail, Href; [done|]. intros (j & half & Hu). rewrite find_range_None in Hfind.
       destruct (ua_record _ _ _ _ _ _ _ Hu) as (m & Hm & H1 & H2 & H3 & _).
       apply live_mapping_lookup in Hm as [Hj Hm]; [|done]. specialize (Hfind (Z.of_nat j) ltac:(lia)).
       rewrite Hm, H1, H2, H3, !Z.eqb_refl in Hfind. done. }
  apply find_range_Some in Hfind as (Hj & Hm & _). rewrite Z.add_0_l in Hj. guards.
  set (m := (mappings s.1) .[ jz ]) in *.
  assert (live_mappings s.1 !! Z.to_nat jz = Some m) as Hlk.
  { apply live_mapping_lookup; [done|]. by rewrite Z2Nat.id by lia. }
  assert (mapping_ok m) as (_ & _ & _ & Hpa).
  { assert (Hf := maps_each _ Hmaps). rewrite Forall_lookup in Hf. by apply (Hf (Z.to_nat jz)). }
  assert (Huniq : forall j half, unmappable s c roots va len j half -> j = Z.to_nat jz /\
    range_valid c va (mp_PhysicalAddress m) len (mp_Protection m) half).
  { intros j half Hu. destruct (ua_record _ _ _ _ _ _ _ Hu) as (m' & Hm' & E1 & E2 & E3 & Hv).
    assert (j = Z.to_nat jz) as -> by (eapply record_unique; eauto; congruence). split; [done|].
    rewrite Hlk in Hm'. by injection Hm' as <-. }
  destruct (AppleAgxUatValidateRange _ _ _ _ _ _) as [result half] eqn:Hv.
  destruct (validate_range_ok c va (mp_PhysicalAddress m) len (mp_Protection m) AppleAgxUatTtbr0 result half)
    as [[-> (half' & -> & Hvalid)]|[Hne _]]; try done.
  2: { unfold check_result. rewrite bool_decide_false by done. apply ewp_bind, ewp_fail, Href; [done|].
       intros (j & half' & Hu). apply Huniq in Hu as [_ Hu].
       by apply (validate_range_refuses _ _ _ _ _ _ _ _ _ Hv Hu). }
  apply ewp_bind, ewp_ret. cbn [default from_option id].
  assert (Hhalf : forall half2, range_valid c va (mp_PhysicalAddress m) len (mp_Protection m) half2 -> half2 = half')
    by (intros half2 Hv2; by apply (range_half_unique c va (mp_PhysicalAddress m) len (mp_Protection m))).
  destruct (AppleAgxUatFindPage s.1 (root_of roots half') 0) as [root|] eqn:Hroot.
  2: { apply ewp_fail, Href; [done|]. intros (j & half2 & Hu). destruct (Huniq _ _ Hu) as [_ Hv2].
       apply Hhalf in Hv2. subst half2. apply find_page_None in Hroot; [|done|done]. apply Hroot, Hu. }
  apply find_page_Some in Hroot as (Hrb & Hra & Hrl); [|done|done].
  destruct (range_steps c va (mp_PhysicalAddress m) len (mp_Protection m) half') as (Hsteps & Hpos & Hlen'); [done..|].
  destruct (range_pages c va (mp_PhysicalAddress m) len (mp_Protection m) half') as [Hrange Hpages]; [done..|].
  assert (Hpres := range_present_view s.1 root va (page_number va) (page_count len) Hok (good_wf _ _ Hg) Hrb Hrl Hrange).
  rewrite <- Hlen', Hra in Hpres. destruct (range_present root va len s.1); cbn [negb].
  2: { apply ewp_fail, Href; [done|]. intros (j & half2 & Hu). destruct (Huniq _ _ Hu) as [_ Hv2].
       apply Hhalf in Hv2. subst half2. enough (false = true) by done. apply Hpres. apply Hu. }
  assert (Hp := proj1 Hpres eq_refl). apply ewp_bind, ewp_modify, ewp_bind, ewp_modify, ewp_modify.
  left. split; [done|]. exists (Z.to_nat jz), half'. split.
  - split; try done.
    + exists m. done.
    + apply has_get. exists root. by rewrite zlen_live.
  - rewrite Hsteps. change (for_range 0 (page_count len) _) with
      (fun v => write_leaves root va (page_count len) (fun _ => 0) v).
    rewrite <- (Z2Nat.id jz) at 2 by lia. apply unmap_end; [done| |].
    + rewrite <- Hra. apply write_leaves_spec; try done; [lia|].
      intros k Hk. rewrite Hra. apply (view_present (live s.1)); [apply Hg|]. by apply Hp.
    + by eapply lookup_lt_Some.
Qed.

Lemma unmap_spec v w c roots va len :
  consistent (v, w) -> 0 <= c -> is_u64 va -> is_u64 len ->
  exists result v' w',
    AppleAgxUatUnmap full_context0_broker c (Some roots) va len (Some A) (Some v) w =
      (result, Some v', w') /\ unmap_outcome (v, w) c roots va len result (v', w').
Proof.
  intros Hco Hc Hva Hlen. unfold AppleAgxUatUnmap. case_match eqn:Hb.
  - guards. subst c. eexists _, v, w. split; [done|]. right. split_and!; [done|done|].
    intros (j & half & Hu). by apply (ua_broker _ _ _ _ _ _ _ Hu).
  - assert (full_context0_broker = true -> c <> 0) as Hbroker.
    { intros E. rewrite E in Hb. cbn in Hb. by guards. }
    destruct (finish_wp _ _ _ _ (unmap_body_spec (v, w) c roots va len Hco Hc Hva Hlen Hbroker))
      as (result & v' & w' & -> & H).
    exists result, v', w'. split; [done|]. by destruct H as [[-> H]|H].
Qed.

(** ** Mapping and unmapping again *)

Section return_trip.
Context (s0 s1 s2 s2' s3 : APPLE_AGX_UAT_INVENTORY * World) (r n count : Z).
Hypothesis (Hco0 : consistent s0) (Hgrown : tables_grown held s0 r n count s1).
Hypothesis (Hleaves : leaves_written held s1 r n count (fun _ => 0) s2).
Hypothesis (Hlive : live s2'.1 = live s2.1) (Hprunes : prunes held s2' s3).
Hypothesis (Hpruned : pruned (live s3.1)).

Definition grown_by (ex : list page_shape) : Prop :=
  shapes (live s2.1) ≡ₚ shapes (live s0.1) ++ ex /\
  (forall c, c ∈ shape_addresses ex -> c ∉ addresses (live s0.1)) /\
  (forall sh, sh ∈ ex -> 1 <= sh.1.1 <= 2) /\
  forall l pa i, 0 <= i -> word (live s2.1) l pa i = word (live s0.1) l pa i \/
    (word (live s0.1) l pa i = 0 /\ 0 <= l < 2 /\ i < width l /\
     exists c, c ∈ shape_addresses ex /\ word (live s2.1) l pa i = link c).

(** With its leaves cleared, the mapping has left only new tables and links to them. *)
Lemma cleared_grown : exists ex, grown_by ex.
Proof.
  destruct Hgrown as (ex & Hs & Hfr & Hl & Hw & Hz). exists ex. split_and!.
  - by rewrite (lw_shapes _ _ _ _ _ _ _ Hleaves).
  - intros c Hc Hin. apply (Hfr c Hc), (good_owned _ _ (co_good _ _ Hco0)). by rewrite owned_elem.
  - done.
  - intros l pa i Hi.
    assert (leaf_of s1 r n count pa i -> word (live s2.1) 2 pa i = word (live s0.1) 2 pa i) as Hleaf.
    { intros (m & Hm & -> & ->). by rewrite (lw_at _ _ _ _ _ _ _ Hleaves), Hz. }
    destruct (lw_words _ _ _ _ _ _ _ Hleaves l pa i Hi) as [E|[-> Hlf]]; [|left; auto].
    destruct (Hw l pa i Hi) as [E0|(E0 & [(Hl2 & Hil & c & Hc & E1)|[-> Hlf]])].
    + left. congruence.
    + right. split_and!; try lia. exists c. split; [done|congruence].
    + left. auto.
Qed.

Context (ex : list page_shape) (Hex : grown_by ex).

Let good0 : good s0 := co_good _ _ Hco0.
Let good3 : good s3 := pn_good _ _ _ Hprunes.

Lemma page3_words p i : p ∈ live s3.1 -> 0 <= i -> word (live s3.1) (Level p) (addr p) i <> 0 ->
  word (live s3.1) (Level p) (addr p) i = word (live s2.1) (Level p) (addr p) i.
Proof.
  intros Hp Hi Hnz. destruct (pn_words _ _ _ Hprunes (Level p) (addr p) i Hi) as [E|[E _]];
    [by exists p|by rewrite Hlive in E|done].
Qed.

(** A table of [s3] has a word. *)
Lemma page3_nonempty l c : has (live s3.1) l c -> 1 <= l ->
  exists i, 0 <= i < 2048 /\ word (live s3.1) l c i <> 0 /\ word (live s3.1) l c i = word (live s2.1) l c i.
Proof.
  intros (p & Hp & <- & <-) Hl.
  destruct (page_nonempty_word (live s3.1) p) as (i & Hi & Hnz).
  - by apply (good_nodup held).
  - done.
  - assert (Hf := wf_pages _ (good_wf _ _ good3)). rewrite Forall_forall in Hf. by apply Hf.
  - apply Hpruned; [done|lia].
  - exists i. split_and!; [lia|lia|done|]. apply page3_words; [done|lia|done].
Qed.

Lemma new_table_ok c : c ∈ shape_addresses ex -> frame_ok c /\ exists l, has (live s2.1) l c /\ 1 <= l.
Proof.
  destruct Hex as (Hs & _ & Hlv & _). intros Hc. unfold shape_addresses in Hc.
  apply list_elem_of_fmap in Hc as (sh & -> & Hsh). assert (Hl := Hlv sh Hsh).
  assert (sh ∈ shapes (live s2.1)) as Hin by (rewrite Hs, elem_of_app; auto).
  apply list_elem_of_fmap in Hin as (p & -> & Hp). cbn in *.
  assert (has (live s2.1) (Level p) (addr p)) as Hh by by exists p. split.
  - apply (has_frame (live s2.1) (Level p)); [|done]. apply (lw_good _ _ _ _ _ _ _ Hleaves).
  - exists (Level p). split; [done|lia].
Qed.

(** No new table is left: the leaves were cleared, and then the links to empty tables. *)
Lemma no_new_table l c : c ∈ shape_addresses ex -> ~ has (live s3.1) l c.
Proof.
  destruct Hex as (_ & Hfr & _ & Hw). intros Hc Hh.
  assert (forall l' i, 0 <= i -> word (live s0.1) l' c i = 0) as Hz0.
  { intros l' i Hi. apply word_out. intros Hx. by apply (Hfr c Hc), (has_address _ l'). }
  assert (forall c', c' ∈ shape_addresses ex -> ~ has (live s3.1) 2 c') as H2.
  { intros c' Hc' Hh'. destruct (page3_nonempty 2 c' Hh') as (i & Hi & Hnz & E); [done|].
    destruct (Hw 2 c' i) as [E'|(_ & ? & _)]; [lia| |lia].
    rewrite E, E' in Hnz. apply Hnz. apply word_out. intros Hx. by apply (Hfr c' Hc'), (has_address _ 2). }
  assert (Hb := has_frame _ _ _ (wf_pages _ (good_wf _ _ good3)) Hh). destruct Hb as (_ & _ & Hb).
  destruct (decide (l = 2)) as [->|]; [by apply (H2 c)|].
  destruct (decide (l = 0)) as [->|].
  - destruct Hex as (Hs & _ & Hlv & _).
    assert (has (live s2.1) 0 c) as Hh2 by (rewrite <- Hlive; by apply (prunes_has held _ s3)).
    destruct Hh2 as (p & Hp & Hlp & Hap). apply (list_elem_of_fmap_2 shape) in Hp.
    change (shape p ∈ shapes (live s2.1)) in Hp. rewrite Hs in Hp. apply elem_of_app in Hp as [Hp|Hp].
    + apply list_elem_of_fmap in Hp as (q & Hq & Hin). unfold shape in Hq. injection Hq as _ Hq _.
      apply (Hfr c Hc). rewrite <- Hap, Hq. by apply addresses_in.
    + apply Hlv in Hp. cbn in Hp. lia.
  - assert (l = 1) as -> by lia. destruct (page3_nonempty 1 c Hh) as (i & Hi & Hnz & E); [done|].
    destruct (Hw 1 c i) as [E'|(_ & _ & _ & c' & Hc' & E')]; [lia|by rewrite E, E', Hz0 in Hnz by lia|].
    destruct (wf_link _ (good_wf _ _ good3) 1 c i) as (c3 & Hc3 & E3); [lia| |done|].
    { unfold width. cbn. lia. }
    rewrite E, E' in E3. apply (H2 c' Hc').
    assert (frame_ok c3) as Hf3 by by apply (has_frame (live s3.1) (1 + 1)); [apply good3|].
    assert (c' = c3) as ->; [|done]. apply (f_equal frame) in E3. rewrite (frame_link c3) in E3 by done.
    rewrite <- E3. symmetry. apply frame_link.
    destruct (new_table_ok c' Hc') as [? _]. done.
Qed.
Lemma old_has2 l pa : has (live s0.1) l pa -> has (live s2'.1) l pa.
Proof.
  destruct Hex as (Hs & _). intros (p & Hp & Hlp & Hap). rewrite Hlive.
  apply (list_elem_of_fmap_2 shape) in Hp.
  assert (shape p ∈ shapes (live s2.1)) as Hin by (rewrite Hs, elem_of_app; by left).
  apply list_elem_of_fmap in Hin as (q & Hq & Hin). exists q. unfold shape in Hq.
  injection Hq as E1 E2 _. split_and!; congruence.
Qed.

Lemma old_table_has_word p :
  p ∈ live s0.1 -> 1 <= Level p ->
  exists i, 0 <= i < 2048 /\ word (live s0.1) (Level p) (addr p) i <> 0 /\
    word (live s2.1) (Level p) (addr p) i = word (live s0.1) (Level p) (addr p) i.
Proof.
  intros Hp Hl. destruct (page_nonempty_word (live s0.1) p) as (i & Hi & Hnz).
  - by apply (good_nodup held).
  - done.
  - assert (Hf := wf_pages _ (good_wf _ _ good0)). rewrite Forall_forall in Hf. by apply Hf.
  - apply (co_pruned _ _ Hco0); [done|lia].
  - exists i. split_and!; [lia|lia|done|]. destruct Hex as (_ & _ & _ & Hw).
    destruct (Hw (Level p) (addr p) i) as [E|[E _]]; [lia|done|done].
Qed.

(** The tables that were there stay. *)
Lemma old_table_stays l pa : has (live s0.1) l pa -> has (live s3.1) l pa.
Proof.
  intros Hh. assert (Hb := has_frame _ _ _ (wf_pages _ (good_wf _ _ good0)) Hh).
  destruct Hb as (_ & _ & Hb).
  assert (forall pa, has (live s0.1) 2 pa -> has (live s3.1) 2 pa) as H2.
  { intros a Ha. destruct (decide (has (live s3.1) 2 a)) as [|Hn]; [done|]. exfalso.
    destruct (pn_gone _ _ _ Hprunes 2 a (old_has2 _ _ Ha) Hn) as [_ Hg].
    destruct Ha as (p & Hp & Hlp & <-). destruct (old_table_has_word p Hp) as (i & Hi & Hnz & E); [lia|].
    rewrite Hlp in *. destruct (Hg i) as [Ez|[? _]]; [lia| |lia]. rewrite Hlive in Ez. congruence. }
  destruct (decide (l = 2)) as [->|]; [by apply H2|]. destruct (decide (l = 0)) as [->|].
  { apply (pn_roots _ _ _ Hprunes). by apply old_has2. }
  assert (l = 1) as -> by lia. destruct (decide (has (live s3.1) 1 pa)) as [|Hn]; [done|]. exfalso.
  destruct (pn_gone _ _ _ Hprunes 1 pa (old_has2 _ _ Hh) Hn) as [_ Hg].
  destruct Hh as (p & Hp & Hlp & <-). destruct (old_table_has_word p Hp) as (i & Hi & Hnz & E); [lia|].
  rewrite Hlp in *. destruct (wf_link _ (good_wf _ _ good0) 1 (addr p) i) as (c & Hc & Ec);
    [lia|unfold width; cbn; lia|done|].
  destruct (Hg i) as [Ez|(_ & Hgone)]; [lia|rewrite Hlive in Ez; congruence|].
  rewrite Hlive, E, Ec, frame_link in Hgone; [by apply Hgone, H2|].
  by apply (has_frame (live s0.1) (1 + 1)); [apply good0|].
Qed.

Lemma left_has_old l pa : has (live s3.1) l pa -> has (live s0.1) l pa.
Proof.
  intros Hh. assert (Hh2 := prunes_has _ _ _ _ _ Hprunes Hh). rewrite Hlive in Hh2.
  destruct Hex as (Hs & _). destruct Hh2 as (p & Hp & <- & <-).
  apply (list_elem_of_fmap_2 shape) in Hp. change (shape p ∈ shapes (live s2.1)) in Hp.
  rewrite Hs in Hp. apply elem_of_app in Hp as [Hp|Hp].
  - apply list_elem_of_fmap in Hp as (q & Hq & Hin). unfold shape in Hq.
    injection Hq as E1 E2 _. exists q. split_and!; congruence.
  - exfalso. apply (no_new_table (Level p) (addr p)); [|done].
    unfold shape_addresses. apply list_elem_of_fmap. by exists (shape p).
Qed.

Lemma words_return l pa i :
  has (live s3.1) l pa -> 0 <= i < 2048 -> word (live s3.1) l pa i = word (live s0.1) l pa i.
Proof.
  intros Hh Hi. assert (Hex' := Hex). destruct Hex' as (_ & _ & _ & Hw).
  destruct (pn_words _ _ _ Hprunes l pa i) as [E|(E & Hl & Hil & Hgone)]; [lia|done|..];
    rewrite Hlive in *; (destruct (Hw l pa i) as [E2|(E2 & Hl2 & Hil2 & c & Hc & E2')]; [lia|..]).
  - congruence.
  - destruct (new_table_ok c Hc) as [Hfc _].
    destruct (wf_link _ (good_wf _ _ good3) l pa i) as (c' & Hc' & Ec'); [lia|lia| |].
    { rewrite E, E2'. apply link_nonzero. }
    exfalso. apply (no_new_table (l + 1) c Hc).
    assert (c = c') as ->; [|done]. apply link_inj; [done| |congruence].
    by apply (has_frame (live s3.1) (l + 1)); [apply good3|].
  - rewrite E. destruct (decide (word (live s0.1) l pa i = 0)) as [|Hnz]; [done|]. exfalso.
    destruct (wf_link _ (good_wf _ _ good0) l pa i) as (c & Hc & Ec); [lia|lia|done|].
    apply Hgone, old_table_stays. rewrite E2, Ec, frame_link; [done|].
    by apply (has_frame (live s0.1) (l + 1)); [apply good0|].
  - congruence.
Qed.

Lemma page_returns p : p ∈ live s3.1 -> p ∈ live s0.1.
Proof.
  intros Hp. assert (Hex' := Hex). destruct Hex' as (Hs & _).
  destruct (pn_pages _ _ _ Hprunes p Hp) as (q & Hq & Esq). rewrite Hlive in Hq.
  apply (list_elem_of_fmap_2 shape) in Hq. change (shape q ∈ shapes (live s2.1)) in Hq.
  rewrite Hs in Hq. apply elem_of_app in Hq as [Hq|Hq].
  - apply list_elem_of_fmap in Hq as (p0 & Ep & Hp0). assert (p = p0) as ->; [|done].
    assert (Hf := wf_pages _ (good_wf _ _ good3)). rewrite Forall_forall in Hf.
    apply page_ext; [by apply Hf|congruence|]. intros i Hi.
    rewrite <- (word_in (live s3.1)); [|by apply (good_nodup held)|done].
    rewrite <- (word_in (live s0.1)); [|by apply (good_nodup held)|done].
    assert (shape p = shape p0) as Es by congruence. unfold shape in Es. injection Es as <- <- _.
    apply words_return; [by exists p|done].
  - exfalso. apply (no_new_table (Level p) (addr p)); [|by exists p].
    unfold shape in Esq. injection Esq as _ Ea _. rewrite Ea.
    unfold shape_addresses. apply list_elem_of_fmap. by exists (shape q).
Qed.

Lemma NoDup_pages ps : NoDup (addresses ps) -> NoDup ps.
Proof. apply NoDup_fmap_1. Qed.

(** The tables are the ones there were; pruning may have moved them. *)
Lemma tables_return : live s3.1 ≡ₚ live s0.1.
Proof.
  apply NoDup_Permutation.
  - apply NoDup_pages. by apply (good_nodup held).
  - apply NoDup_pages. by apply (good_nodup held).
  - intros p. split; [apply page_returns|]. intros Hp.
    destruct (old_table_stays (Level p) (addr p)) as (q & Hq & Hlq & Haq); [by exists p|].
    assert (Hq0 := page_returns q Hq). assert (q = p) as ->; [|done].
    apply list_elem_of_lookup in Hp as (i & Hi), Hq0 as (j & Hj).
    assert (i = j) as ->; [|congruence].
    apply (NoDup_lookup (addresses (live s0.1)) _ _ (addr p)); [by apply (good_nodup held)|..];
      unfold addresses; rewrite list_lookup_fmap; [by rewrite Hi|by rewrite Hj, <- Haq].
Qed.
End return_trip.



End unmap.

End Unmap.
