(* ===== verification/UatSpec.v ===== *)
(** * Address spaces, abstractly

    What the owner of an inventory of page tables sees: the leaf each root holds for
    each of the 2^25 pages of an address half, the recorded mappings, the roots.  The
    operations of UatTable.v are stated on these ([space]); [same_space] is the finer
    equivalence of two states with the same tables in another order. *)

From stdpp Require Import gmap sets.
From S2P Require Import Prelude Arrays Bytes Uat ErrorState UatTable.
From S2P Require Import UatHeap UatOps UatMap UatSpace UatPrune UatUnmap.
Import Uat Table Heap Ops Map Space Prune Unmap.

Module Spec.

(** ** Spaces *)

Record space := {
  sp_view : Z -> Z -> Z;
  sp_mappings : list APPLE_AGX_UAT_MAPPING;
  sp_root : Z -> Prop;
  sp_room : Z;
}.

#[export] Instance space_equiv : Equiv space := fun a b =>
  (forall r n, is_page n -> sp_view a r n = sp_view b r n) /\ sp_mappings a = sp_mappings b /\
  (forall r, sp_root a r <-> sp_root b r) /\ sp_room a = sp_room b.

#[export] Instance space_equivalence : Equivalence (≡@{space}).
Proof.
  split.
  - intros a. by split_and!.
  - intros a b (H1 & H2 & H3 & H4). split_and!; [intros; symmetry; auto|done| |done].
    intros r. by rewrite H3.
  - intros a b c (H1 & H2 & H3 & H4) (K1 & K2 & K3 & K4). split_and!; try congruence.
    + intros r n Hn. by rewrite H1, K1.
    + intros r. by rewrite H3.
Qed.

(** The half of an address, and the pages of a range under the root of its half. *)
Definition half_of (va : Z) : APPLE_AGX_UAT_HALF :=
  if va <? 2 ^ 39 then AppleAgxUatTtbr0 else AppleAgxUatTtbr1.
Definition base_of (roots : APPLE_AGX_UAT_ROOTS) (va : Z) : Z := root_of roots (half_of va).
Definition in_pages (roots : APPLE_AGX_UAT_ROOTS) (va len r n : Z) : Prop :=
  r = base_of roots va /\ page_number va <= n < page_number va + page_count len.
#[export] Instance in_pages_dec roots va len r n : Decision (in_pages roots va len r n).
Proof. unfold in_pages. apply _. Defined.

(** Leaf [k] of the range becomes [d k]. *)
Definition sp_write roots (va len : Z) (d : Z -> Z) (sp : space) : Z -> Z -> Z := fun r n =>
  if decide (in_pages roots va len r n) then d (n - page_number va) else sp_view sp r n.

Definition sp_map roots (va len : Z) (d : Z -> Z) (mapping : APPLE_AGX_UAT_MAPPING) (sp : space)
    : space :=
  {| sp_view := sp_write roots va len d sp; sp_mappings := sp_mappings sp ++ [mapping];
     sp_root := sp_root sp; sp_room := sp_room sp |}.

(** A mapping of context [c] at [va]: there is at most one. *)
Definition at_address (c va : Z) (mapping : APPLE_AGX_UAT_MAPPING) : Prop :=
  mp_Context mapping = c /\ mp_VirtualAddress mapping = va.
#[export] Instance at_address_dec c va m : Decision (at_address c va m).
Proof. unfold at_address. apply _. Defined.

Definition sp_unmap (c : Z) roots (va len : Z) (sp : space) : space :=
  {| sp_view := sp_write roots va len (fun _ => 0) sp;
     sp_mappings := filter (fun m => ~ at_address c va m) (sp_mappings sp);
     sp_root := sp_root sp; sp_room := sp_room sp |}.

Definition sp_replace (c : Z) roots (va len : Z) (d : Z -> Z) (mapping : APPLE_AGX_UAT_MAPPING)
    (sp : space) : space :=
  {| sp_view := sp_write roots va len d sp;
     sp_mappings := (fun m => if decide (at_address c va m) then mapping else m) <$> sp_mappings sp;
     sp_root := sp_root sp; sp_room := sp_room sp |}.

Section enabled.
Context (full_context0_broker : bool).

(** When a range can be mapped. *)
Record sp_mappable (c : Z) roots (va pa len p : Z) (sp : space) : Prop := {
  sm_broker : full_context0_broker = true -> c <> 0;
  sm_range : range_valid c va pa len p (half_of va);
  sm_room : zlen (sp_mappings sp) < sp_room sp;
  sm_apart : forall m, m ∈ sp_mappings sp -> mp_Context m = c ->
    va + len <= mp_VirtualAddress m \/ mp_VirtualAddress m + mp_Length m <= va;
  sm_root : sp_root sp (base_of roots va);
  sm_free : forall n, is_page n -> in_pages roots va len (base_of roots va) n -> sp_view sp (base_of roots va) n = 0;
}.

(** When a mapping can be taken back; [ok] is what the call asks of its record. *)
Record sp_unmappable (c : Z) roots (va len : Z) (ok : APPLE_AGX_UAT_MAPPING -> Prop) (sp : space)
    : Prop := {
  su_broker : full_context0_broker = true -> c <> 0;
  su_record : exists m, m ∈ sp_mappings sp /\ at_address c va m /\ mp_Length m = len /\ ok m /\
    range_valid c va (mp_PhysicalAddress m) len (mp_Protection m) (half_of va);
  su_root : sp_root sp (base_of roots va);
  su_present : forall n, is_page n -> in_pages roots va len (base_of roots va) n -> sp_view sp (base_of roots va) n <> 0;
}.
End enabled.

Lemma half_of_valid c va pa len p half :
  is_u64 va -> range_valid c va pa len p half -> half = half_of va.
Proof.
  intros Hva (Hl & _ & _ & _ & _ & _ & _ & _ & Hh). unfold half_of, fits in *.
  change (2 ^ 64) with 18446744073709551616 in *. change (2 ^ 39) with 549755813888 in *.
  destruct Hh as [[-> ?]|[-> ?]]; (destruct (Z.ltb_spec va 549755813888)); done || lia.
Qed.

(** ** The operations respect the equivalence *)


Lemma sp_write_equiv roots va len d sp sp' r n :
  sp ≡ sp' -> is_page n -> sp_write roots va len d sp r n = sp_write roots va len d sp' r n.
Proof. intros (Hv & _) Hn. unfold sp_write. case_decide; [done|by apply Hv]. Qed.

#[export] Instance sp_map_proper roots va len d m : Proper ((≡) ==> (≡)) (sp_map roots va len d m).
Proof.
  intros sp sp' He. assert (He' := He). destruct He' as (_ & Hm & Hr & Hc).
  split_and!; [|cbn; congruence|done|done]. intros. by apply sp_write_equiv.
Qed.

#[export] Instance sp_unmap_proper c roots va len : Proper ((≡) ==> (≡)) (sp_unmap c roots va len).
Proof.
  intros sp sp' He. assert (He' := He). destruct He' as (_ & Hm & Hr & Hc).
  split_and!; [|cbn; congruence|done|done]. intros. by apply sp_write_equiv.
Qed.

#[export] Instance sp_replace_proper c roots va len d m :
  Proper ((≡) ==> (≡)) (sp_replace c roots va len d m).
Proof.
  intros sp sp' He. assert (He' := He). destruct He' as (_ & Hm & Hr & Hc).
  split_and!; [|cbn; congruence|done|done]. intros. by apply sp_write_equiv.
Qed.

#[export] Instance sp_mappable_proper b c roots va pa len p :
  Proper ((≡) ==> iff) (sp_mappable b c roots va pa len p).
Proof.
  assert (forall sp sp', sp ≡ sp' -> sp_mappable b c roots va pa len p sp ->
    sp_mappable b c roots va pa len p sp') as H.
  { intros sp sp' (Hv & Hm & Hr & Hc) [H1 H2 H3 H4 H5 H6].
    split; rewrite <- ?Hm, <- ?Hc, <- ?Hr; try done.
    intros n Hn Hin. rewrite <- Hv by done. by apply H6. }
  intros sp sp' He. split; apply H; [done|by symmetry].
Qed.

#[export] Instance sp_unmappable_proper b c roots va len ok :
  Proper ((≡) ==> iff) (sp_unmappable b c roots va len ok).
Proof.
  assert (forall sp sp', sp ≡ sp' -> sp_unmappable b c roots va len ok sp ->
    sp_unmappable b c roots va len ok sp') as H.
  { intros sp sp' (Hv & Hm & Hr & Hc) [H1 H2 H3 H4].
    split; rewrite <- ?Hm, <- ?Hc, <- ?Hr; try done.
    intros n Hn Hin. rewrite <- Hv by done. by apply H4. }
  intros sp sp' He. split; apply H; [done|by symmetry].
Qed.

Lemma in_pages_page roots c va pa len p half r n :
  is_u64 va -> is_u64 pa -> range_valid c va pa len p half -> in_pages roots va len r n -> is_page n.
Proof.
  intros Hva Hpa Hv [_ Hn]. destruct (range_pages c va pa len p half) as [[? _] ?]; [done..|].
  unfold is_page. lia.
Qed.

Section spec.
Context {World : Type} (full_context0_broker : bool).
Context (A : APPLE_AGX_UAT_ALLOCATOR World) (held : World -> gset Z) `{!AllocatorLaws A held}.
Implicit Types (s : APPLE_AGX_UAT_INVENTORY * World) (v : APPLE_AGX_UAT_INVENTORY)
  (m : APPLE_AGX_UAT_MAPPING) (l pa n r c va : Z) (rg : APPLE_AGX_UAT_RANGE).

Abbreviation good := (good held).
Abbreviation consistent := (consistent held).
Abbreviation restored := (restored held).
Abbreviation mapped := (mapped held).
Abbreviation unmapped := (unmapped held).
Abbreviation mappable := (mappable full_context0_broker).
Abbreviation unmappable := (unmappable full_context0_broker).

(** ** The same space *)

(** The same tables and mappings, and the same pages given out. *)
Record same_space s s' : Prop := {
  ss_tables : live s'.1 ≡ₚ live s.1;
  ss_maps : live_mappings s'.1 = live_mappings s.1;
  ss_held : held s'.2 = held s.2;
  ss_capacity : PageCapacity s'.1 = PageCapacity s.1 /\ MappingCapacity s'.1 = MappingCapacity s.1;
}.

#[export] Instance same_space_equivalence : Equivalence same_space.
Proof.
  split.
  - intros s. by split.
  - intros s s' [H1 H2 H3 H4]. split; [by symmetry|done..|]. by destruct H4.
  - intros s1 s2 s3 [H1 H2 H3 [H4 H5]] [K1 K2 K3 [K4 K5]].
    split; [by etrans|congruence..|split; congruence].
Qed.

Lemma restored_same s s' : restored s s' -> same_space s s'.
Proof.
  intros [Hok Hl (Hm & Hmc & Hc & Hpc) Hh]. split; [by rewrite Hl| |done|done].
  unfold live_mappings, mappings. by rewrite Hm, Hc.
Qed.

Lemma same_words s s' l pa i : good s -> same_space s s' ->
  word (live s'.1) l pa i = word (live s.1) l pa i.
Proof.
  intros Hg Hs. symmetry. apply word_permutation; [by apply (good_nodup held)|].
  symmetry. apply Hs.
Qed.

Lemma same_view s s' r n : good s -> same_space s s' -> view (live s'.1) r n = view (live s.1) r n.
Proof.
  intros Hg Hs. symmetry. apply view_permutation; [by apply (good_nodup held)|].
  symmetry. apply Hs.
Qed.

Lemma same_table2 s s' r n : good s -> same_space s s' ->
  table2 (live s'.1) r n = table2 (live s.1) r n.
Proof.
  intros Hg Hs. symmetry. apply table2_permutation; [by apply (good_nodup held)|].
  symmetry. apply Hs.
Qed.

Lemma same_has s s' l pa : same_space s s' -> has (live s'.1) l pa <-> has (live s.1) l pa.
Proof. intros Hs. apply has_permutation, Hs. Qed.

Lemma same_owned s s' : same_space s s' -> owned_by (live s'.1) = owned_by (live s.1).
Proof.
  intros Hs. apply set_eq. intros a. rewrite !owned_elem. unfold addresses.
  by rewrite (ss_tables _ _ Hs).
Qed.

Lemma same_others s s' : same_space s s' -> others held s' = others held s.
Proof. intros Hs. unfold others. by rewrite (same_owned s s'), (ss_held _ _ Hs). Qed.

Lemma same_mapped s r n count d m s1 s2 :
  mapped s r n count d m s1 -> same_space s1 s2 -> consistent s2 -> mapped s r n count d m s2.
Proof.
  intros [Hco Hv Hm Hr Ho (ex & Hsh & Hfr & Hlv & Hw & Hz) Hcap] Hs Hco2. assert (Hg := co_good _ _ Hco).
  assert (Ht := fun r n => same_table2 s1 s2 r n Hg Hs).
  assert (Hw2 := fun l pa i => same_words s1 s2 l pa i Hg Hs). split; [done|..].
  - intros r' n' Hn'. rewrite (same_view s1 s2) by done. by apply Hv.
  - rewrite (ss_maps _ _ Hs). done.
  - intros r'. rewrite (same_has s1 s2) by done. done.
  - by rewrite (same_others s1 s2).
  - exists ex. split_and!; [|done|done| |].
    + unfold shapes. rewrite (ss_tables _ _ Hs). done.
    + intros l pa i Hi. unfold leaf_of. rewrite Hw2. setoid_rewrite Ht. by apply Hw.
    + intros k Hk. rewrite Ht. by apply Hz.
  - destruct (ss_capacity _ _ Hs). split; [etrans; [done|]; apply Hcap..].
Qed.

(** ** Unmapping what was mapped *)

Lemma unmapped_returns s r n count d m s1 s2 :
  consistent s -> mapped s r n count d m s1 ->
  unmapped s1 r n count (length (live_mappings s.1)) s2 -> same_space s s2.
Proof.
  intros Hco Hmp [Hco2 Hv2 Hm2 Hr2 Ho2 (s3 & s4 & Hlw & Hl & Hpr) Hcap2].
  destruct Hmp as [Hco1 Hv1 Hm1 Hr1 Ho1 Ht1 Hcap1].
  destruct (cleared_grown held s s1 s3 r n count Hco Ht1 Hlw) as (ex & Hex).
  assert (live s2.1 ≡ₚ live s.1) as Hp.
  { by apply (tables_return held s s1 s3 s4 s2 r n count Hco Hlw Hl Hpr (co_pruned _ _ Hco2) ex). }
  split; [done|..].
  - rewrite Hm2, Hm1. by rewrite delete_take_drop, take_app_length, drop_app_ge, Nat.sub_succ_l,
      Nat.sub_diag, app_nil_r by lia.
  - assert (owned_by (live s2.1) = owned_by (live s.1)) as Ho.
    { apply set_eq. intros a. rewrite !owned_elem. unfold addresses. by rewrite Hp. }
    assert (Hin := good_owned _ _ (co_good _ _ Hco)).
    assert (Hin2 := good_owned _ _ (co_good _ _ Hco2)).
    rewrite (union_difference_L (owned_by (live s2.1)) (held s2.2)) by done.
    rewrite (union_difference_L (owned_by (live s.1)) (held s.2)) by done.
    fold (others held s2) (others held s). by rewrite Ho, Ho2, Ho1.
  - destruct Hcap1, Hcap2. split; congruence.
Qed.

(** ** The inventory as a space *)

Definition space_of v : space :=
  {| sp_view := view (live v); sp_mappings := live_mappings v; sp_root := has (live v) 0;
     sp_room := MappingCapacity v |}.

Lemma same_space_of s s' : good s -> same_space s s' -> space_of s'.1 ≡ space_of s.1.
Proof.
  intros Hg Hs. split_and!; cbn.
  - intros r n _. by apply same_view.
  - apply Hs.
  - intros r. by apply same_has.
  - by destruct (ss_capacity _ _ Hs).
Qed.

Lemma zlen_live_mappings v : inv_ok v -> zlen (live_mappings v) = MappingCount v.
Proof. intros Hok. apply zlen_prefix. destruct Hok. lia. Qed.

(** A range by pages counted from its first. *)
Lemma in_pages_each roots c va pa len p half (P : Z -> Prop) :
  is_u64 va -> is_u64 pa -> range_valid c va pa len p half ->
  (forall n, is_page n -> in_pages roots va len (base_of roots va) n -> P n) <->
  (forall k, 0 <= k < page_count len -> P (page_number va + k)).
Proof.
  intros Hva Hpa Hv. split.
  - intros H k Hk. assert (in_pages roots va len (base_of roots va) (page_number va + k)) as Hin.
    { split; [done|lia]. }
    apply H; [by apply (in_pages_page roots c va pa len p half (base_of roots va))|done].
  - intros H n _ [_ Hn]. replace n with (page_number va + (n - page_number va)) by lia. apply H. lia.
Qed.

Lemma mappable_space s c roots va pa len p :
  inv_ok s.1 -> is_u64 va -> is_u64 pa ->
  (exists half, mappable s c roots va pa len p half) <->
  sp_mappable full_context0_broker c roots va pa len p (space_of s.1).
Proof.
  intros Hok Hva Hpa. assert (Hz := zlen_live_mappings _ Hok). split.
  - intros (half & [H1 H2 H3 H4 H5 H6]).
    assert (half = half_of va) as -> by by eapply half_of_valid.
    split; cbn; try done; [lia|]. by eapply in_pages_each.
  - intros [H1 H2 H3 H4 H5 H6]. exists (half_of va). cbn in *. split; try done; [lia|].
    by apply (in_pages_each roots c va pa len p (half_of va) (fun n => view (live s.1) (base_of roots va) n = 0)).
Qed.

Lemma mapped_space s c roots va pa len p d m s' half :
  is_u64 va -> range_valid c va pa len p half ->
  mapped s (root_of roots half) (page_number va) (page_count len) d m s' ->
  space_of s'.1 ≡ sp_map roots va len d m (space_of s.1).
Proof.
  intros Hva Hv Hm. assert (half = half_of va) as -> by by eapply half_of_valid.
  destruct Hm as [_ Hview Hmaps Hr _ _ [_ Hcap]]. split_and!; [|done|done|done].
  intros r n Hn. cbn. rewrite Hview by done. unfold sp_write. cbn.
  by apply decide_ext.
Qed.

Lemma mapping_pa s (j : nat) m :
  consistent s -> live_mappings s.1 !! j = Some m -> is_u64 (mp_PhysicalAddress m).
Proof.
  intros Hco Hj. assert (Hf := maps_each _ (co_maps _ _ Hco)). rewrite Forall_lookup in Hf.
  by destruct (Hf j m Hj) as (_ & _ & _ & ?).
Qed.

Lemma unmappable_space s c roots va len :
  consistent s -> is_u64 va ->
  (exists j half, unmappable s c roots va len j half) <->
  sp_unmappable full_context0_broker c roots va len (fun _ => True) (space_of s.1).
Proof.
  intros Hco Hva. split.
  - intros (j & half & [H1 (m & Hj & E1 & E2 & E3 & Hv) H3 H4]).
    assert (half = half_of va) as -> by by eapply half_of_valid.
    assert (is_u64 (mp_PhysicalAddress m)) as Hpa by by eapply mapping_pa.
    split; cbn; try done.
    + exists m. split; [by eapply list_elem_of_lookup_2|]. done.
    + by eapply in_pages_each.
  - intros [H1 (m & Hm & [E1 E2] & E3 & _ & Hv) H3 H4]. cbn in *.
    apply list_elem_of_lookup in Hm as (j & Hj). exists j, (half_of va). split; try done; [by exists m|].
    assert (is_u64 (mp_PhysicalAddress m)) as Hpa by by eapply mapping_pa.
    by apply (in_pages_each roots c va (mp_PhysicalAddress m) len (mp_Protection m) (half_of va) (fun n => view (live s.1) (base_of roots va) n <> 0)).
Qed.

(** With one mapping per address, removing by address is removing by index. *)
Lemma filter_delete ms (j : nat) m c va :
  maps_ok ms -> ms !! j = Some m -> at_address c va m ->
  filter (fun m => ~ at_address c va m) ms = delete j ms.
Proof.
  intros Hok Hj [Hc Hv]. rewrite delete_take_drop. rewrite <- (take_drop_middle ms j m Hj) at 1.
  rewrite filter_app, filter_cons_False by (intros H; by apply H).
  assert (forall i m', ms !! i = Some m' -> i <> j -> ~ at_address c va m') as Hne.
  { intros i m' Hi Hij [E1 E2]. apply Hij. by eapply record_unique; [done|done|done|congruence..]. }
  f_equal; apply filter_all; intros m' (i & Hi)%list_elem_of_lookup.
  - apply lookup_take_Some in Hi as [Hi ?]. apply (Hne i); [done|lia].
  - rewrite lookup_drop in Hi. apply (Hne _ m' Hi). lia.
Qed.

Lemma unmapped_space s c roots va len j half s' :
  consistent s -> is_u64 va -> unmappable s c roots va len j half ->
  unmapped s (root_of roots half) (page_number va) (page_count len) j s' ->
  space_of s'.1 ≡ sp_unmap c roots va len (space_of s.1).
Proof.
  intros Hco Hva [_ (m & Hj & E1 & E2 & E3 & Hv) _ _] Hm.
  assert (half = half_of va) as -> by by eapply half_of_valid.
  destruct Hm as [_ Hview Hmaps Hr _ _ [_ Hcap]]. split_and!; [| |done|done].
  - intros r n Hn. cbn. rewrite Hview by done. unfold sp_write. cbn. by apply decide_ext.
  - cbn. rewrite Hmaps. symmetry. by eapply filter_delete; [apply Hco|done|].
Qed.

(** ** What a call does to the space *)

(** A call succeeds exactly when it is enabled, up to running out of pages or records,
    and then has its effect; a failing call leaves the space as it was.  Either way the
    owner stays consistent and the pages of others are left alone. *)
Definition behaves s (enabled : Prop) (effect : space -> space) (result : APPLE_AGX_UAT_RESULT) s'
    : Prop :=
  consistent s' /\ others held s' = others held s /\
  ((result = AppleAgxUatResultOk /\ enabled /\ space_of s'.1 ≡ effect (space_of s.1)) \/
   (result <> AppleAgxUatResultOk /\ same_space s s' /\ (out_of_pages result \/ ~ enabled))).

Lemma behaves_refused s enabled effect result s' :
  consistent s' -> same_space s s' -> result <> AppleAgxUatResultOk ->
  out_of_pages result \/ ~ enabled -> behaves s enabled effect result s'.
Proof. intros Hco Hs He Hn. split_and!; [done|by apply same_others|by right]. Qed.

Lemma behaves_done s (enabled : Prop) effect s' :
  consistent s' -> others held s' = others held s -> enabled ->
  space_of s'.1 ≡ effect (space_of s.1) -> behaves s enabled effect AppleAgxUatResultOk s'.
Proof. intros. split_and!; [done|done|by left]. Qed.

Lemma map_outcome_behaves s c roots va pa len p d m result s' :
  consistent s -> is_u64 va -> is_u64 pa ->
  map_outcome full_context0_broker held s c roots va pa len p (page_count len) d m result s' ->
  behaves s (sp_mappable full_context0_broker c roots va pa len p (space_of s.1))
    (sp_map roots va len d m) result s'.
Proof.
  intros Hco Hva Hpa Hm. assert (Hok := good_ok _ _ (co_good _ _ Hco)).
  destruct Hm as [(-> & half & Hm & Hmp)|(He & Hr & Hn)].
  - apply behaves_done; try apply Hmp.
    + apply mappable_space; [done..|]. by exists half.
    + eapply mapped_space; [done|apply Hm|done].
  - apply behaves_refused; [by eapply consistent_restored|by apply restored_same|done|].
    destruct Hn as [|Hn]; [by left|right]. by rewrite <- mappable_space.
Qed.

Lemma unmap_outcome_behaves s c roots va len result s' :
  consistent s -> is_u64 va -> unmap_outcome full_context0_broker held s c roots va len result s' ->
  behaves s (sp_unmappable full_context0_broker c roots va len (fun _ => True) (space_of s.1))
    (sp_unmap c roots va len) result s'.
Proof.
  intros Hco Hva [(-> & j & half & Hu & Hum)|(He & -> & Hn)].
  - apply behaves_done; try apply Hum.
    + apply unmappable_space; eauto.
    + by eapply unmapped_space.
  - apply behaves_refused; [done|done|done|]. right. by rewrite <- unmappable_space.
Qed.



End spec.

End Spec.
