(* ===== verification/UatBatch.v ===== *)
(** * Batches of mappings

    AppleAgxUatMapBatch maps all its ranges or, when one cannot be mapped, unmaps the
    ones before it; AppleAgxUatUnmapBatch checks every range before it unmaps the first
    one.  The unwinding rests on the round trip of UatSpec.v: unmapping what was just
    mapped always succeeds and gives back the same tables. *)

From stdpp Require Import gmap sets.
From S2P Require Import Prelude Arrays Bytes Uat ErrorState UatTable.
From S2P Require Import UatHeap UatOps UatMap UatSpace UatPrune UatUnmap UatSpec.
Import Uat Table Heap Ops Map Space Prune Unmap Spec.

Module Batch.

(** The first [k] ranges of an array. *)
Definition listed (Ranges : list APPLE_AGX_UAT_RANGE) (k : Z) : list APPLE_AGX_UAT_RANGE :=
  (fun i => Ranges .[ i ]) <$> seqZ 0 k.

Lemma listed_snoc Ranges k : 0 <= k -> listed Ranges (k + 1) = listed Ranges k ++ [Ranges .[ k ]].
Proof. intros Hk. unfold listed. by rewrite seqZ_app, fmap_app by lia. Qed.

Definition range_typed (rg : APPLE_AGX_UAT_RANGE) : Prop :=
  is_u64 (rg_VirtualAddress rg) /\ is_u64 (rg_PhysicalAddress rg) /\ is_u64 (rg_Length rg).

Section batch.
Context {World : Type} (full_context0_broker : bool).
Context (A : APPLE_AGX_UAT_ALLOCATOR World) (held : World -> gset Z) `{!AllocatorLaws A held}.
Implicit Types (s : APPLE_AGX_UAT_INVENTORY * World) (v : APPLE_AGX_UAT_INVENTORY)
  (m : APPLE_AGX_UAT_MAPPING) (l pa n r c va : Z) (rg : APPLE_AGX_UAT_RANGE).

Abbreviation good := (good held).
Abbreviation consistent := (consistent held).
Abbreviation restored := (restored held).
Abbreviation mapped := (mapped held).
Abbreviation unmapped := (unmapped held).
Abbreviation mappable := (mappable full_context0_broker).
Abbreviation unmappable := (unmappable full_context0_broker).

Abbreviation same_space := (same_space held).

(** One range mapped. *)
Definition range_mapping c rg : APPLE_AGX_UAT_MAPPING :=
  contiguous c (rg_VirtualAddress rg) (rg_PhysicalAddress rg) (rg_Length rg) (rg_Protection rg).
Definition range_pte c rg (k : Z) : Z :=
  page_pte c (rg_PhysicalAddress rg + step_offset k) (rg_Protection rg).
Definition map_step c roots rg s s' : Prop := exists half,
  mappable s c roots (rg_VirtualAddress rg) (rg_PhysicalAddress rg) (rg_Length rg)
    (rg_Protection rg) half /\
  mapped s (root_of roots half) (page_number (rg_VirtualAddress rg)) (page_count (rg_Length rg))
    (range_pte c rg) (range_mapping c rg) s'.

Lemma map_step_same c roots rg s s1 s2 :
  map_step c roots rg s s1 -> same_space s1 s2 -> consistent s2 -> map_step c roots rg s s2.
Proof. intros (half & Hm & Hmp) Hs Hco. exists half. split; [done|]. by eapply same_mapped. Qed.

(** The mapping made last can be unmapped. *)
Lemma mapped_unmappable c roots rg s s' :
  0 <= c -> range_typed rg -> map_step c roots rg s s' -> exists half,
  mapped s (root_of roots half) (page_number (rg_VirtualAddress rg)) (page_count (rg_Length rg))
    (range_pte c rg) (range_mapping c rg) s' /\
  unmappable s' c roots (rg_VirtualAddress rg) (rg_Length rg) (length (live_mappings s.1)) half.
Proof.
  intros Hc (Hva & Hpa & Hlen) (half & Hm & Hmp). exists half. split; [done|].
  assert (Hv := ma_range _ _ _ _ _ _ _ _ _ Hm).
  split; [apply Hm|..].
  - exists (range_mapping c rg). rewrite (mp_maps _ _ _ _ _ _ _ _ Hmp).
    rewrite lookup_app_r, Nat.sub_diag by lia. done.
  - apply (mp_roots _ _ _ _ _ _ _ _ Hmp). apply Hm.
  - intros k Hk. destruct (range_pages c (rg_VirtualAddress rg) (rg_PhysicalAddress rg)
      (rg_Length rg) (rg_Protection rg) half) as [[Hn _] Hend]; [done..|].
    rewrite (mp_view _ _ _ _ _ _ _ _ Hmp) by (unfold is_page; lia).
    rewrite decide_True by lia.
    apply (range_encode c (rg_VirtualAddress rg) _ (rg_Length rg) _ half); done || lia.
Qed.

(** ** Calls inside a batch *)

Lemma call_map s c roots rg :
  consistent s -> 0 <= c -> range_typed rg ->
  wp (call (AppleAgxUatMap full_context0_broker c (Some roots) (rg_VirtualAddress rg)
        (rg_PhysicalAddress rg) (rg_Length rg) (rg_Protection rg) (Some A)))
    (fun _ s' => map_step c roots rg s s')
    (fun e s' => e <> AppleAgxUatResultOk /\ restored s s' /\
       (out_of_pages e \/ ~ exists half, mappable s c roots (rg_VirtualAddress rg)
          (rg_PhysicalAddress rg) (rg_Length rg) (rg_Protection rg) half)) s.
Proof.
  destruct s as [v w]. intros Hco Hc (Hva & Hpa & Hlen). unfold wp, call.
  cbn [fst snd].
  destruct (map_spec full_context0_broker A held v w c roots _ _ _ (rg_Protection rg) Hco Hc Hva Hpa Hlen)
    as (result & v' & w' & -> & [(-> & Hm)|(He & Hr & Hn)]); cbn; [done|].
  by rewrite bool_decide_false by done.
Qed.

Lemma call_unmap s c roots va len :
  consistent s -> 0 <= c -> is_u64 va -> is_u64 len ->
  wp (call (AppleAgxUatUnmap full_context0_broker c (Some roots) va len (Some A)))
    (fun _ s' => exists j half, unmappable s c roots va len j half /\
       unmapped s (root_of roots half) (page_number va) (page_count len) j s')
    (fun e s' => e <> AppleAgxUatResultOk /\ s' = s /\
       ~ exists j half, unmappable s c roots va len j half) s.
Proof.
  destruct s as [v w]. intros Hco Hc Hva Hlen. unfold wp, call.
  cbn [fst snd].
  destruct (unmap_spec full_context0_broker A held v w c roots va len Hco Hc Hva Hlen)
    as (result & v' & w' & -> & [(-> & Hm)|(He & Es & Hn)]); cbn; [done|].
  injection Es as -> ->. by rewrite bool_decide_false by done.
Qed.

Lemma unmappable_unique s c roots va len j half j' half' :
  consistent s -> 0 <= c -> is_u64 va -> unmappable s c roots va len j half ->
  unmappable s c roots va len j' half' -> j = j' /\ half = half'.
Proof.
  intros Hco Hc Hva Hu Hu'. destruct (ua_record _ _ _ _ _ _ _ _ Hu) as (m & Hm & E1 & E2 & E3 & Hv).
  destruct (ua_record _ _ _ _ _ _ _ _ Hu') as (m' & Hm' & E1' & E2' & E3' & Hv').
  assert (j = j') as ->.
  { eapply record_unique; [apply Hco|done|done|congruence|congruence]. }
  split; [done|]. rewrite Hm in Hm'. injection Hm' as <-. by eapply range_half_unique.
Qed.

(** The call that undoes the last mapping. *)
Lemma undo_map s c roots rg s1 :
  consistent s -> 0 <= c -> range_typed rg -> map_step c roots rg s s1 ->
  exists s2, call (AppleAgxUatUnmap full_context0_broker c (Some roots) (rg_VirtualAddress rg)
      (rg_Length rg) (Some A)) s1 = (inr tt, s2) /\ same_space s s2 /\ consistent s2.
Proof.
  intros Hco Hc Hrg Hstep. destruct (mapped_unmappable _ _ _ _ _ Hc Hrg Hstep) as (half & Hmp & Hu).
  destruct Hrg as (Hva & Hpa & Hlen). assert (Hco1 := mp_consistent _ _ _ _ _ _ _ _ Hmp).
  assert (Hcall := call_unmap s1 c roots _ _ Hco1 Hc Hva Hlen). unfold wp in Hcall.
  destruct (call _ s1) as [[e|[]] s2].
  { destruct Hcall as (_ & _ & Hn). destruct Hn. eauto. }
  exists s2. split; [done|]. destruct Hcall as (j' & half' & Hu' & Hum).
  destruct (unmappable_unique _ _ _ _ _ _ _ _ _ Hco1 Hc Hva Hu Hu') as [<- <-].
  split; [by eapply unmapped_returns|apply Hum].
Qed.

(** ** Mapping a batch *)

(** The ranges mapped one after the other. *)
Inductive maps_chain c roots : list APPLE_AGX_UAT_RANGE -> owner (World := World) -> owner (World := World) -> Prop :=
| chain_nil s : maps_chain c roots [] s s
| chain_snoc rs rg s s1 s2 :
    maps_chain c roots rs s s1 -> map_step c roots rg s1 s2 -> maps_chain c roots (rs ++ [rg]) s s2.

Lemma chain_snoc_inv c roots rs rg s s2 :
  maps_chain c roots (rs ++ [rg]) s s2 ->
  exists s1, maps_chain c roots rs s s1 /\ map_step c roots rg s1 s2.
Proof.
  inversion 1 as [? E|rs' rg' ? s1 ? Hch Hst E].
  - by apply app_cons_not_nil in E.
  - apply app_inj_tail in E as [-> ->]. by exists s1.
Qed.

Lemma chain_consistent c roots rs s s' :
  consistent s -> maps_chain c roots rs s s' -> consistent s'.
Proof. intros Hco. induction 1 as [|rs rg s s1 s2 _ _ (half & _ & Hmp)]; [done|apply Hmp]. Qed.

Lemma unmap_ranges_succ c roots Ranges k s :
  0 <= k ->
  unmap_ranges full_context0_broker c roots Ranges (k + 1) (Some A) s =
  unmap_ranges full_context0_broker c roots Ranges k (Some A)
    (call (AppleAgxUatUnmap full_context0_broker c (Some roots) (rg_VirtualAddress Ranges .[ k ])
       (rg_Length Ranges .[ k ]) (Some A)) s).2.
Proof.
  intros Hk. unfold unmap_ranges. rewrite for_range_cons, for_range_shift by done.
  replace (k + 1 - 1 - 0) with k by lia. apply for_range_ext. intros i s' _.
  by replace (k + 1 - 1 - (i + 1)) with (k - 1 - i) by lia.
Qed.

(** Unmapping the ranges of a chain, last first, gives the first space back. *)
Lemma unwind c roots Ranges k s sk s' :
  0 <= k -> 0 <= c -> (forall i, 0 <= i < k -> range_typed (Ranges .[ i ])) ->
  consistent s -> maps_chain c roots (listed Ranges k) s sk -> same_space sk s' -> consistent s' ->
  same_space s (unmap_ranges full_context0_broker c roots Ranges k (Some A) s') /\
  consistent (unmap_ranges full_context0_broker c roots Ranges k (Some A) s').
Proof.
  intros Hk Hc Htyped Hco. revert sk s' Htyped. pattern k. apply natlike_ind; [..|exact Hk]; clear k Hk.
  - intros sk s' _ Hch Hs Hco'. inversion Hch as [? E|? ? ? ? ? _ _ E]; subst; [by split|].
    by symmetry in E; apply app_cons_not_nil in E.
  - intros k Hk IH sk s' Htyped Hch Hs Hco'. rewrite <- Z.add_1_r in *.
    rewrite listed_snoc in Hch by done. apply chain_snoc_inv in Hch as (s1 & Hch & Hst).
    rewrite unmap_ranges_succ by done.
    destruct (undo_map s1 c roots (Ranges .[ k ]) s') as (s2 & -> & Hs2 & Hco2); try done.
    + by apply (chain_consistent c roots (listed Ranges k) s).
    + apply Htyped. lia.
    + by apply (map_step_same c roots _ s1 sk).
    + cbn [snd]. apply (IH s1); [intros; apply Htyped; lia|done..].
Qed.

(** *** The abstract batch *)

Definition sp_map_range c roots rg : space -> space :=
  sp_map roots (rg_VirtualAddress rg) (rg_Length rg) (range_pte c rg) (range_mapping c rg).
Definition sp_maps c roots (rs : list APPLE_AGX_UAT_RANGE) (sp : space) : space :=
  foldl (fun sp rg => sp_map_range c roots rg sp) sp rs.
Definition range_mappable c roots rg (sp : space) : Prop :=
  sp_mappable full_context0_broker c roots (rg_VirtualAddress rg) (rg_PhysicalAddress rg)
    (rg_Length rg) (rg_Protection rg) sp.
Fixpoint sp_all_mappable c roots (rs : list APPLE_AGX_UAT_RANGE) (sp : space) : Prop :=
  match rs with
  | [] => True
  | rg :: rs => range_mappable c roots rg sp /\ sp_all_mappable c roots rs (sp_map_range c roots rg sp)
  end.

Lemma sp_all_mappable_app c roots rs rs' sp :
  sp_all_mappable c roots (rs ++ rs') sp <->
  sp_all_mappable c roots rs sp /\ sp_all_mappable c roots rs' (sp_maps c roots rs sp).
Proof.
  revert sp. induction rs as [|rg rs IH]; intros sp; cbn; [tauto|]. rewrite IH. tauto.
Qed.

(** A batch that can be mapped can be mapped at each of its ranges. *)
Lemma sp_all_mappable_at c roots Ranges count k sp :
  0 <= k < count -> sp_all_mappable c roots (listed Ranges count) sp ->
  range_mappable c roots (Ranges .[ k ]) (sp_maps c roots (listed Ranges k) sp).
Proof.
  intros Hk. unfold listed. replace count with (k + (1 + (count - k - 1))) by lia.
  rewrite !seqZ_app, !fmap_app, !sp_all_mappable_app by lia.
  rewrite (seqZ_cons _ 1) by lia. cbn. tauto.
Qed.

#[local] Instance range_mappable_proper c roots rg : Proper ((≡) ==> iff) (range_mappable c roots rg).
Proof. intros sp sp' He. unfold range_mappable. by rewrite He. Qed.

Lemma chain_space c roots rs s s' :
  0 <= c -> Forall range_typed rs -> consistent s -> maps_chain c roots rs s s' ->
  sp_all_mappable c roots rs (space_of s.1) /\ space_of s'.1 ≡ sp_maps c roots rs (space_of s.1) /\
  others held s' = others held s.
Proof.
  intros Hc Htyped Hco Hch. induction Hch as [|rs rg s s1 s2 Hch IH (half & Hm & Hmp)].
  { done. }
  apply Forall_app in Htyped as [Hty (Hva & Hpa & Hlen)%Forall_singleton].
  destruct IH as (H1 & H2 & H3); [done|done|].
  assert (Hok := good_ok _ _ (co_good _ _ (chain_consistent _ _ _ _ _ Hco Hch))).
  split_and!.
  - rewrite sp_all_mappable_app. cbn. split_and!; [done| |done]. rewrite <- H2.
    apply mappable_space; [done..|by exists half].
  - unfold sp_maps. rewrite foldl_app. cbn. fold (sp_maps c roots rs (space_of s.1)).
    rewrite (mapped_space held s1 c roots (rg_VirtualAddress rg) (rg_PhysicalAddress rg) (rg_Length rg)
      (rg_Protection rg) (range_pte c rg) (range_mapping c rg) s2 half); [|done|apply Hm|done].
    unfold sp_map_range. by rewrite H2.
  - rewrite <- H3. apply Hmp.
Qed.

Abbreviation behaves := (behaves held).

Definition ranges_typed (Ranges : list APPLE_AGX_UAT_RANGE) (count : Z) : Prop :=
  0 < count < 2 ^ 32 /\ forall i, 0 <= i < count -> range_typed (Ranges .[ i ]).

Lemma listed_typed Ranges count k :
  ranges_typed Ranges count -> k <= count -> Forall range_typed (listed Ranges k).
Proof.
  intros [_ Ht] Hk. apply Forall_fmap, Forall_forall. intros i Hi%elem_of_seqZ. apply Ht. lia.
Qed.

Lemma refused_same s s' enabled effect result :
  consistent s' -> s' = s -> result <> AppleAgxUatResultOk -> out_of_pages result \/ ~ enabled ->
  behaves s enabled effect result s'.
Proof. intros Hco -> He Hn. by apply behaves_refused. Qed.

Lemma map_batch_body_spec s c roots Ranges count :
  consistent s -> 0 <= c -> ranges_typed Ranges count ->
  let enabled := sp_all_mappable c roots (listed Ranges count) (space_of s.1) in
  let effect := sp_maps c roots (listed Ranges count) in
  wp (map_batch_body full_context0_broker c roots Ranges count (Some A))
    (fun _ s' => behaves s enabled effect AppleAgxUatResultOk s')
    (fun e s' => behaves s enabled effect e s') s.
Proof.
  intros Hco Hc Hty enabled effect. destruct (Hty) as [Hcount Htyped].
  assert (Hok := good_ok _ _ (co_good _ _ Hco)). unfold map_batch_body.
  apply ewp_bind, ewp_gets. rewrite (check_owner_ok A held) by done. apply ewp_bind, ewp_ret.
  destruct (_ <? count).
  { apply ewp_fail, refused_same; [done|done|done|]. left. by left. }
  eapply ewp_mono; [apply (ewp_for _ _ _ (fun k _ s' => maps_chain c roots (listed Ranges k) s s')
    (fun e s' => behaves s enabled effect e s'))| |]; [lia|constructor|..].
  - intros k [] s1 Hk Hch. rewrite Z.add_0_l. apply ewp_on_error.
    assert (Hco1 := chain_consistent _ _ _ _ _ Hco Hch).
    eapply ewp_mono; [apply call_map; [done|done|by apply Htyped]|..].
    + intros [] s2 Hst. cbn beta. rewrite listed_snoc by lia. by econstructor.
    + cbn beta. intros e s2 (He & Hr & Hn).
      destruct (unwind c roots Ranges k s s1 s2) as [Hs Hco2]; try done; [lia|intros; apply Htyped; lia| | |].
      * by apply restored_same.
      * by eapply consistent_restored.
      * apply behaves_refused; [done|done|done|]. destruct Hn as [|Hn]; [by left|right].
        intros Hall. apply (sp_all_mappable_at c roots Ranges count k) in Hall; [|done].
        destruct (chain_space c roots (listed Ranges k) s s1) as (_ & Hsp & _); try done.
        { eapply listed_typed; [done|lia]. }
        rewrite <- Hsp in Hall. destruct (Htyped k Hk) as (Hva & Hpa & _).
        apply mappable_space in Hall; [done|by apply Hco1|done|done].
  - intros [] s' Hch. destruct (chain_space c roots (listed Ranges count) s s') as (H1 & H2 & H3); try done.
    { eapply listed_typed; [done|lia]. }
    apply behaves_done; try done. by eapply chain_consistent.
  - done.
Qed.

Lemma map_batch_spec v w c roots Ranges count :
  consistent (v, w) -> 0 <= c -> ranges_typed Ranges count ->
  exists result v' w',
    AppleAgxUatMapBatch full_context0_broker c (Some roots) (Some Ranges) count (Some A) (Some v) w =
      (result, Some v', w') /\
    behaves (v, w) (sp_all_mappable c roots (listed Ranges count) (space_of v))
      (sp_maps c roots (listed Ranges count)) result (v', w').
Proof.
  intros Hco Hc Hty. unfold AppleAgxUatMapBatch. destruct (Hty) as [Hcount _]. case_match eqn:Hb.
  - guards. eexists _, v, w. split; [done|]. apply refused_same; [done|done|done|]. right.
    intros Hall. apply (sp_all_mappable_at c roots Ranges count 0) in Hall; [|lia].
    by apply (sm_broker _ _ _ _ _ _ _ _ Hall).
  - destruct (Z.eqb_spec count 0); [lia|].
    destruct (finish_wp _ _ _ _ (map_batch_body_spec (v, w) c roots Ranges count Hco Hc Hty))
      as (result & v' & w' & -> & H).
    exists result, v', w'. split; [done|]. by destruct H as [[-> H]|H].
Qed.

(** ** Unmapping a batch *)

(** The record the batch calls ask for. *)
Definition exact_record rg m : Prop :=
  mp_PhysicalAddress m = rg_PhysicalAddress rg /\ mp_Protection m = rg_Protection rg.
Definition range_unmappable c roots rg (sp : space) : Prop :=
  sp_unmappable full_context0_broker c roots (rg_VirtualAddress rg) (rg_Length rg) (exact_record rg) sp.
Definition sp_unmaps c roots (rs : list APPLE_AGX_UAT_RANGE) (sp : space) : space :=
  foldl (fun sp rg => sp_unmap c roots (rg_VirtualAddress rg) (rg_Length rg) sp) sp rs.

Lemma find_mapping_Some c rg v j :
  inv_ok v -> find_mapping c rg v = Some j ->
  exists m, live_mappings v !! Z.to_nat j = Some m /\ 0 <= j < MappingCount v /\
    at_address c (rg_VirtualAddress rg) m /\ mp_Length m = rg_Length rg /\ exact_record rg m.
Proof.
  intros Hok Hf. apply find_range_Some in Hf as (Hj & Hm & _). exists ((mappings v) .[ j ]).
  unfold is_mapping_of in Hm. rewrite !andb_true_iff, !Z.eqb_eq in Hm.
  destruct Hm as ((((E1 & E2) & E3) & E4) & E5). split_and!; try done; try lia.
  apply live_mapping_lookup; [done|]. rewrite Z2Nat.id by lia. split; [lia|done].
Qed.

Lemma find_mapping_None c rg v m :
  inv_ok v -> find_mapping c rg v = None -> m ∈ live_mappings v -> at_address c (rg_VirtualAddress rg) m ->
  mp_Length m = rg_Length rg -> exact_record rg m -> False.
Proof.
  intros Hok Hf Hm [E1 E2] E4 [E3 E5]. apply list_elem_of_lookup in Hm as (j & Hj).
  apply live_mapping_lookup in Hj as [Hlt Hj]; [|done]. unfold find_mapping in Hf.
  rewrite find_range_None in Hf. specialize (Hf (Z.of_nat j) ltac:(lia)).
  unfold is_mapping_of in Hf. rewrite Hj, E1, E2, E3, E4, E5, !Z.eqb_refl in Hf. done.
Qed.

Lemma validate_exact s c roots rg :
  consistent s -> 0 <= c -> range_typed rg -> (full_context0_broker = true -> c <> 0) ->
  AppleAgxUatValidateExactMapping c roots rg s.1 = AppleAgxUatResultOk <->
  range_unmappable c roots rg (space_of s.1).
Proof.
  intros Hco Hc (Hva & Hpa & Hlen) Hbroker. assert (Hg := co_good _ _ Hco). assert (Hok := good_ok _ _ Hg).
  unfold AppleAgxUatValidateExactMapping, range_unmappable.
  destruct (AppleAgxUatValidateRange _ _ _ _ _ _) as [result half] eqn:Hv.
  destruct (validate_range_ok c _ _ _ _ AppleAgxUatTtbr0 result half Hc Hva Hpa Hlen Hv)
    as [[-> (half' & -> & Hvalid)]|[Hne _]].
  2: { rewrite bool_decide_false by done. cbn [negb]. split; [done|]. intros [_ (m & _ & _ & _ & [E1 E2] & Hr) _ _].
       rewrite E1, E2 in Hr. exfalso.
       by eapply validate_range_refuses. }
  rewrite bool_decide_true by done. cbn [negb default from_option id].
  assert (half' = half_of (rg_VirtualAddress rg)) as -> by by eapply half_of_valid.
  destruct (find_mapping c rg s.1) as [j|] eqn:Hf; cbn [is_null].
  2: { split; [done|]. intros [_ (m & Hm & Hat & Hl & Hex & _) _ _]. exfalso. by eapply find_mapping_None. }
  apply find_mapping_Some in Hf as (m & Hm & Hj & Hat & Hl & Hex); [|done].
  destruct (AppleAgxUatFindPage s.1 _ 0) as [root|] eqn:Hroot.
  2: { split; [done|]. intros [_ _ Hr _]. exfalso.
       by apply (find_page_None _ _ _ Hok (good_nodup held s Hg)) in Hroot. }
  apply find_page_Some in Hroot as (Hrb & Hra & Hrl); [|done|by apply (good_nodup held)].
  destruct (range_pages c (rg_VirtualAddress rg) (rg_PhysicalAddress rg) (rg_Length rg)
    (rg_Protection rg) (half_of (rg_VirtualAddress rg))) as [Hrange Hpages]; [done..|].
  destruct (range_steps c (rg_VirtualAddress rg) (rg_PhysicalAddress rg) (rg_Length rg)
    (rg_Protection rg) (half_of (rg_VirtualAddress rg))) as (Hsteps & Hpos & Hlen'); [done..|].
  assert (Hpres := range_present_view s.1 root _ _ _ Hok (good_wf _ _ Hg) Hrb Hrl Hrange).
  rewrite <- Hlen', Hra in Hpres. fold (base_of roots (rg_VirtualAddress rg)) in Hpres.
  rewrite <- (in_pages_each roots c _ _ _ _ _ (fun n => view _ _ n <> 0) Hva Hpa Hvalid) in Hpres.
  destruct Hex as [E1 E2]. destruct (range_present _ _ _ _); cbn [negb].
  - split; [|done]. intros _. split; [done| | |by apply Hpres].
    + exists m. rewrite E1, E2. split_and!; try done. by eapply list_elem_of_lookup_2.
    + apply has_get. exists root. by rewrite zlen_live.
  - split; [done|]. intros [_ _ _ Hp]. by apply Hpres in Hp.
Qed.

Lemma range_unmappable_plain c roots rg sp :
  range_unmappable c roots rg sp ->
  sp_unmappable full_context0_broker c roots (rg_VirtualAddress rg) (rg_Length rg) (fun _ => True) sp.
Proof. intros [H1 (m & Ha & Hb & Hl & _ & Hr) H3 H4]. split; try done. by exists m. Qed.

(** Ranges that lie apart have no page in common, when the halves have different roots. *)
Lemma pages_apart roots c c' va len va' len' pa pa' p p' r n :
  is_u64 va -> is_u64 va' -> Ttbr0PhysicalAddress roots <> Ttbr1PhysicalAddress roots ->
  range_valid c va pa len p (half_of va) -> range_valid c' va' pa' len' p' (half_of va') ->
  va + len <= va' \/ va' + len' <= va ->
  in_pages roots va len r n -> in_pages roots va' len' r n -> False.
Proof.
  intros Hva Hva' Hroots Hv Hv' Hap [E1 Hn] [E2 Hn'].
  assert (half_of va = half_of va') as E.
  { rewrite E1 in E2. unfold base_of in E2. destruct (half_of va), (half_of va'); try done;
      cbn in E2; congruence. }
  destruct Hv as (? & _ & _ & Hm & _ & Hl & He & _ & Hh), Hv' as (? & _ & _ & Hm' & _ & Hl' & He' & _ & Hh').
  rewrite <- E in Hh'. clear E E1 E2 Hroots.
  unfold page_number, page_count, fits in *.
  change (2 ^ 14) with 16384 in *. change (2 ^ 25) with 33554432 in *.
  change (2 ^ 39) with 549755813888 in *. change (2 ^ 64) with 18446744073709551616 in *.
  destruct Hh as [[Hh ?]|[Hh ?]], Hh' as [[Hh' ?]|[Hh' ?]]; rewrite Hh in *; try done;
    Z.to_euclidean_division_equations; nia.
Qed.

Lemma maps_ok_apart ms m m' : maps_ok ms -> m ∈ ms -> m' ∈ ms -> m <> m' -> apart m m'.
Proof.
  intros Hok (i & Hi)%list_elem_of_lookup (j & Hj)%list_elem_of_lookup Hne.
  apply (maps_apart _ Hok i j); [congruence|done|done].
Qed.

(** Taking one range out leaves the others mapped. *)
Lemma unmappable_after c roots rg rg' sp :
  maps_ok (sp_mappings sp) -> range_typed rg -> range_typed rg' ->
  Ttbr0PhysicalAddress roots <> Ttbr1PhysicalAddress roots ->
  rg_VirtualAddress rg <> rg_VirtualAddress rg' ->
  sp_unmappable full_context0_broker c roots (rg_VirtualAddress rg') (rg_Length rg')
    (fun _ => True) sp ->
  range_unmappable c roots rg sp ->
  range_unmappable c roots rg (sp_unmap c roots (rg_VirtualAddress rg') (rg_Length rg') sp).
Proof.
  intros Hmaps (Hva & Hpa & _) (Hva' & Hpa' & _) Hroots Hne [_ (m' & Hm' & Hat' & Hl' & _ & Hv') _ _]
    [H1 (m & Hm & Hat & Hl & Hex & Hv) H3 H4]. split; [done| |done|].
  - exists m. split_and!; try done; try apply Hat. cbn. apply list_elem_of_filter. split; [|done].
    intros [_ E]. apply Hne. by rewrite <- E, (proj2 Hat).
  - intros n Hn Hin. cbn. unfold sp_write. rewrite decide_False; [by apply H4|]. intros Hin'.
    refine (pages_apart roots c c _ _ _ _ _ _ _ _ _ n Hva Hva' Hroots Hv Hv' _ Hin Hin').
    assert (m <> m') as Hmm. { intros ->. apply Hne. by rewrite <- (proj2 Hat), (proj2 Hat'). }
    destruct Hat as [E1 E2], Hat' as [E1' E2']. rewrite <- E2, <- E2', <- Hl, <- Hl'.
    apply (maps_ok_apart _ _ _ Hmaps Hm Hm' Hmm). congruence.
Qed.

Definition all_unmappable c roots Ranges (count : Z) (sp : space) : Prop :=
  forall i, 0 <= i < count -> range_unmappable c roots (Ranges .[ i ]) sp.
(** The validating pass of the batch calls. *)
Lemma validate_all s c roots Ranges count Q :
  consistent s -> 0 <= c -> ranges_typed Ranges count -> (full_context0_broker = true -> c <> 0) ->
  (forall e, e <> AppleAgxUatResultOk -> ~ all_unmappable c roots Ranges count (space_of s.1) -> Q e s) ->
  wp (for_m 0 count (fun range_index _ =>
        v ← inventory;
        check_result (AppleAgxUatValidateExactMapping c roots Ranges .[ range_index ] v)) tt)
    (fun _ s' => s' = s /\ all_unmappable c roots Ranges count (space_of s.1)) Q s.
Proof.
  intros Hco Hc [Hcount Hty] Hbroker HQ.
  eapply ewp_post; [apply (ewp_for _ _ _ (fun k _ s' => s' = s /\ all_unmappable c roots Ranges k (space_of s.1)))|done];
    [lia|split; [done|intros i; lia]|].
  intros k [] s' Hk [-> Hall]. rewrite Z.add_0_l. apply ewp_bind, ewp_gets. cbn beta.
  assert (Hv := validate_exact s c roots (Ranges .[ k ]) Hco Hc (Hty k Hk) Hbroker).
  unfold check_result. case_bool_decide as Hok.
  - apply ewp_ret. split; [done|]. intros i Hi. destruct (decide (i = k)) as [->|]; [by apply Hv|].
    apply Hall. lia.
  - apply ewp_fail, HQ; [done|]. intros Hn. apply Hok, Hv, Hn. lia.
Qed.

(** A batch that stopped part of the way: its ranges were all there when it began, those
    before the [k]th are unmapped and the [k]th is no longer there.  When the roots differ
    that is because its address is one of those before it. *)
Definition cut_short c roots Ranges (count : Z) s e s' : Prop :=
  e <> AppleAgxUatResultOk /\ consistent s' /\ others held s' = others held s /\
  all_unmappable c roots Ranges count (space_of s.1) /\
  exists k, 0 < k < count /\
    space_of s'.1 ≡ sp_unmaps c roots (listed Ranges k) (space_of s.1) /\
    ~ range_unmappable c roots (Ranges .[ k ]) (space_of s'.1) /\
    (Ttbr0PhysicalAddress roots <> Ttbr1PhysicalAddress roots ->
     rg_VirtualAddress (Ranges .[ k ]) ∈ rg_VirtualAddress <$> listed Ranges k).

(** After the first [k] ranges: they are unmapped, and what is not one of them is as it was. *)
Definition first_unmapped c roots Ranges (count : Z) s (k : Z) s' : Prop :=
  consistent s' /\ others held s' = others held s /\
  space_of s'.1 ≡ sp_unmaps c roots (listed Ranges k) (space_of s.1) /\
  (Ttbr0PhysicalAddress roots <> Ttbr1PhysicalAddress roots -> forall i, k <= i < count ->
     rg_VirtualAddress (Ranges .[ i ]) ∉ rg_VirtualAddress <$> listed Ranges k ->
     range_unmappable c roots (Ranges .[ i ]) (space_of s'.1)).

Lemma first_unmapped_start s c roots Ranges count :
  consistent s -> all_unmappable c roots Ranges count (space_of s.1) ->
  first_unmapped c roots Ranges count s 0 s.
Proof. intros Hco Hall. split_and!; [done|done|done|]. intros _ i Hi _. by apply Hall. Qed.

Lemma first_unmapped_next s c roots Ranges count k s1 j half s2 :
  0 <= k < count -> ranges_typed Ranges count ->
  first_unmapped c roots Ranges count s k s1 ->
  unmappable s1 c roots (rg_VirtualAddress (Ranges .[ k ])) (rg_Length (Ranges .[ k ])) j half ->
  unmapped s1 (root_of roots half) (page_number (rg_VirtualAddress (Ranges .[ k ])))
    (page_count (rg_Length (Ranges .[ k ]))) j s2 ->
  first_unmapped c roots Ranges count s (k + 1) s2.
Proof.
  intros Hk [_ Hty] (Hco1 & Ho1 & Hsp1 & Hrest) Hu Hum.
  destruct (Hty k Hk) as (Hva & Hpa & Hlen).
  assert (space_of s2.1 ≡ sp_unmap c roots (rg_VirtualAddress (Ranges .[ k ]))
    (rg_Length (Ranges .[ k ])) (space_of s1.1)) as Hsp2 by by eapply unmapped_space.
  assert (sp_unmappable full_context0_broker c roots (rg_VirtualAddress (Ranges .[ k ]))
    (rg_Length (Ranges .[ k ])) (fun _ => True) (space_of s1.1)) as Hplain
    by (apply (unmappable_space _ held); [done|done|eauto]).
  split_and!; [apply Hum|rewrite <- Ho1; apply Hum| |].
  - rewrite listed_snoc by lia. unfold sp_unmaps. rewrite foldl_app. cbn.
    fold (sp_unmaps c roots (listed Ranges k) (space_of s.1)). by rewrite Hsp2, Hsp1.
  - intros Hroots i Hi Hnin. rewrite listed_snoc, fmap_app in Hnin by lia.
    apply not_elem_of_app in Hnin as [Hnin Hne]. unfold range_unmappable. rewrite Hsp2.
    apply unmappable_after; auto with lia.
    + apply Hco1.
    + intros E. apply Hne. rewrite E. by constructor.
Qed.

Lemma unmap_some_spec s c roots Ranges count :
  consistent s -> 0 <= c -> ranges_typed Ranges count ->
  all_unmappable c roots Ranges count (space_of s.1) ->
  wp (for_m 0 count (fun range_index _ =>
        let range := Ranges .[ range_index ] in
        call (AppleAgxUatUnmap full_context0_broker c (Some roots) (rg_VirtualAddress range)
                (rg_Length range) (Some A))) tt)
    (fun _ s' => first_unmapped c roots Ranges count s count s')
    (fun e s' => cut_short c roots Ranges count s e s') s.
Proof.
  intros Hco Hc Hr Hall. destruct (Hr) as [Hcount Hty].
  apply (ewp_for _ _ _ (fun k _ s' => first_unmapped c roots Ranges count s k s'));
    [lia|by apply first_unmapped_start|].
  intros k [] s1 Hk Hf. rewrite Z.add_0_l. cbv zeta. destruct (Hty k Hk) as (Hva & Hpa & Hlen).
  destruct (Hf) as (Hco1 & Ho1 & Hsp1 & Hrest).
  eapply ewp_mono; [by apply call_unmap| |].
  - intros [] s2 (j & half & Hu & Hum). by eapply first_unmapped_next.
  - intros e s2 (He & -> & Hn).
    assert (~ range_unmappable c roots (Ranges .[ k ]) (space_of s1.1)) as Hgone.
    { intros Hu%range_unmappable_plain. apply Hn. by apply (unmappable_space _ held). }
    split_and!; [done|done|done|done|]. exists k. split_and!; [|lia|done|done|].
    + destruct (decide (k = 0)) as [->|]; [|lia]. exfalso. apply Hgone.
      unfold range_unmappable. rewrite Hsp1. by apply Hall.
    + intros Hroots. destruct (decide (rg_VirtualAddress (Ranges .[ k ]) ∈
        rg_VirtualAddress <$> listed Ranges k)) as [|Hnin]; [done|].
      exfalso. apply Hgone. apply Hrest; auto with lia.
Qed.

Lemma unmap_batch_spec v w c roots Ranges count :
  consistent (v, w) -> 0 <= c -> ranges_typed Ranges count ->
  exists result v' w',
    AppleAgxUatUnmapBatch full_context0_broker c (Some roots) (Some Ranges) count (Some A) (Some v) w =
      (result, Some v', w') /\
    (behaves (v, w) (all_unmappable c roots Ranges count (space_of v))
       (sp_unmaps c roots (listed Ranges count)) result (v', w') \/
     cut_short c roots Ranges count (v, w) result (v', w')).
Proof.
  intros Hco Hc Hty. unfold AppleAgxUatUnmapBatch. destruct (Hty) as [Hcount _].
  case_match eqn:Hb.
  - guards. eexists _, v, w. split; [done|]. left. apply refused_same; [done|done|done|]. right.
    intros Hall. by apply (su_broker _ _ _ _ _ _ _ (Hall 0 ltac:(lia))).
  - assert (full_context0_broker = true -> c <> 0) as Hbroker.
    { intros E. rewrite E in Hb. cbn in Hb. by guards. }
    destruct (Z.eqb_spec count 0); [lia|].
    set (ends e s' := behaves (v, w) (all_unmappable c roots Ranges count (space_of v))
        (sp_unmaps c roots (listed Ranges count)) e s' \/ cut_short c roots Ranges count (v, w) e s').
    assert (Hwp : wp (unmap_batch_body full_context0_broker c roots Ranges count (Some A))
      (fun _ s' => ends AppleAgxUatResultOk s') (fun e s' => ends e s') (v, w)).
    { unfold unmap_batch_body. apply ewp_bind, ewp_gets. cbn beta.
      rewrite (check_owner_ok A held) by apply (co_good _ _ Hco).
      apply ewp_bind, ewp_ret, ewp_bind. eapply ewp_mono; [apply validate_all; try done| |done].
      - intros e He Hn. left. apply refused_same; [done|done|done|by right].
      - intros [] s' [-> Hall]. eapply ewp_mono; [by apply unmap_some_spec| |].
        + intros [] s' (Hco' & Ho & Hsp & _). left. by apply behaves_done.
        + intros e s' Hcut. by right. }
    destruct (finish_wp _ _ _ _ Hwp) as (result & v' & w' & -> & H).
    exists result, v', w'. split; [done|]. by destruct H as [[-> H]|H].
Qed.

End batch.

End Batch.
