(* ===== verification/UatReplace.v ===== *)
(** * Replacing the frames of mapped ranges

    AppleAgxUatReplaceBatch and AppleAgxUatReplaceBatchWithPage point mapped ranges to
    other frames without unmapping them.  Both validate the whole batch before the first
    write, so they either replace every range or change nothing. *)

From stdpp Require Import gmap sets.
From S2P Require Import Prelude Arrays Bytes Uat ErrorState UatTable.
From S2P Require Import UatHeap UatOps UatMap UatSpace UatPrune UatUnmap UatSpec UatBatch.
Import Uat Table Heap Ops Map Space Prune Unmap Spec Batch.

Module Replace.

Section replace.
Context {World : Type} (full_context0_broker : bool).
Context (A : APPLE_AGX_UAT_ALLOCATOR World) (held : World -> gset Z) `{!AllocatorLaws A held}.
Implicit Types (s : APPLE_AGX_UAT_INVENTORY * World) (v : APPLE_AGX_UAT_INVENTORY)
  (m : APPLE_AGX_UAT_MAPPING) (l pa n r c va : Z) (rg : APPLE_AGX_UAT_RANGE).

Abbreviation good := (good held).
Abbreviation consistent := (consistent held).
Abbreviation behaves := (behaves held).
Abbreviation range_unmappable := (range_unmappable full_context0_broker).

(** ** Rewriting leaves *)

(** Overwriting leaves that are in use keeps every table in use. *)
Lemma rewritten_pruned s r n count d s' :
  good s -> leaves_written held s r n count d s' -> (forall k, 0 <= k < count -> d k <> 0) ->
  pruned (live s.1) -> pruned (live s'.1).
Proof.
  intros Hg Hlw Hd Hpr p Hp Hl He. assert (Hg' := lw_good _ _ _ _ _ _ _ Hlw).
  assert (forall i, word (live s'.1) (Level p) (addr p) i = 0) as Hz.
  { intros i. rewrite word_in; [done|by apply (good_nodup held)|done]. }
  destruct (shapes_elem _ _ p (lw_shapes _ _ _ _ _ _ _ Hlw) Hp) as (q & Hq & Es).
  unfold shape in Es. injection Es as El Ea _.
  apply (Hpr q Hq); [by rewrite El|].
  apply (page_empty_words (live s.1)); [by apply (good_nodup held)|done|]. intros i Hi.
  rewrite El, Ea. destruct (lw_words _ _ _ _ _ _ _ Hlw (Level p) (addr p) i Hi) as [E|[Hl2 (m & Hm & Epa & Ei)]].
  - by rewrite <- E.
  - exfalso. apply (Hd m Hm). rewrite <- (lw_at _ _ _ _ _ _ _ Hlw m Hm), <- Epa, <- Ei, <- Hl2. apply Hz.
Qed.

Lemma replace_record_live v (j : nat) pa p stride :
  inv_ok v -> Z.of_nat j < MappingCount v ->
  let m' := (mappings v) .[ Z.of_nat j ] <| mp_PhysicalAddress := pa |> <| mp_Protection := p |>
              <| PhysicalStride := stride |> in
  inv_ok (replace_record (Z.of_nat j) pa p stride v) /\
  live (replace_record (Z.of_nat j) pa p stride v) = live v /\
  live_mappings (replace_record (Z.of_nat j) pa p stride v) = <[j := m']> (live_mappings v).
Proof.
  intros Hok Hj m'. assert (Hok' := Hok). destruct Hok' as [H1 H2 H3 H4 H5 H6 H7].
  unfold replace_record. fold m'. split_and!; [|done|].
  - split; try done. unfold mappings at 1. cbn. by rewrite zlen_set.
  - unfold live_mappings. change (MappingCount (set_mapping _ _ _)) with (MappingCount v).
    change (mappings (set_mapping (Z.of_nat j) m' v)) with ((mappings v) .[ Z.of_nat j <- m' ]).
    rewrite prefix_set_in by lia. unfold arr_set. by rewrite Nat2Z.id.
Qed.

(** With one mapping per address, updating by index is updating by address. *)
Lemma insert_by_address ms (j : nat) m m' c va :
  maps_ok ms -> ms !! j = Some m -> at_address c va m ->
  <[j := m']> ms = (fun m => if decide (at_address c va m) then m' else m) <$> ms.
Proof.
  intros Hok Hj [Ec Ev]. apply list_eq. intros i. rewrite list_lookup_fmap.
  destruct (decide (i = j)) as [->|Hne].
  - rewrite list_lookup_insert_eq by (by eapply lookup_lt_Some). rewrite Hj. cbn.
    by rewrite decide_True.
  - rewrite list_lookup_insert_ne by done. destruct (ms !! i) as [mi|] eqn:Hi; [|done]. cbn.
    rewrite decide_False; [done|]. intros [E1 E2]. apply Hne. eapply record_unique; try done; congruence.
Qed.

Lemma maps_ok_replace ms (j : nat) m m' :
  maps_ok ms -> ms !! j = Some m -> mapping_ok m' -> mp_Context m' = mp_Context m ->
  mp_VirtualAddress m' = mp_VirtualAddress m -> mp_Length m' = mp_Length m -> maps_ok (<[j := m']> ms).
Proof.
  intros [Hf Ha] Hj Hm Ec Ev El. split; [by apply Forall_insert|].
  assert (forall i mi, <[j := m']> ms !! i = Some mi -> exists mo, ms !! i = Some mo /\
    mp_Context mi = mp_Context mo /\ mp_VirtualAddress mi = mp_VirtualAddress mo /\ mp_Length mi = mp_Length mo)
    as Hold.
  { intros i mi Hi. destruct (decide (i = j)) as [->|Hne].
    - rewrite list_lookup_insert_eq in Hi by (by eapply lookup_lt_Some). injection Hi as <-. by exists m.
    - rewrite list_lookup_insert_ne in Hi by done. by exists mi. }
  intros i k m1 m2 Hne Hi Hk. destruct (Hold _ _ Hi) as (o1 & Ho1 & E1 & E2 & E3).
  destruct (Hold _ _ Hk) as (o2 & Ho2 & F1 & F2 & F3). assert (Hap := Ha i k o1 o2 Hne Ho1 Ho2).
  unfold apart in *. by rewrite E1, E2, E3, F1, F2, F3.
Qed.

(** ** One range *)

(** What a range becomes. *)
Definition new_record c (new : APPLE_AGX_UAT_RANGE) (stride : Z) : APPLE_AGX_UAT_MAPPING :=
  {| mp_Context := c; mp_VirtualAddress := rg_VirtualAddress new;
     mp_PhysicalAddress := rg_PhysicalAddress new; mp_Length := rg_Length new;
     mp_Protection := rg_Protection new; PhysicalStride := stride |}.

(** The new range covers the old one's addresses and is valid. *)
Definition same_addresses (old new : APPLE_AGX_UAT_RANGE) : Prop :=
  rg_VirtualAddress old = rg_VirtualAddress new /\ rg_Length old = rg_Length new.
Definition new_valid c (new : APPLE_AGX_UAT_RANGE) : Prop :=
  range_valid c (rg_VirtualAddress new) (rg_PhysicalAddress new) (rg_Length new) (rg_Protection new)
    (half_of (rg_VirtualAddress new)).

Section one.
Context (s : APPLE_AGX_UAT_INVENTORY * World) (c : Z) (roots : APPLE_AGX_UAT_ROOTS)
  (old new : APPLE_AGX_UAT_RANGE) (pa d : Z -> Z) (stride : Z).
Hypothesis (Hco : consistent s) (Hc : 0 <= c) (Hnew : range_typed new).
Hypothesis (Hsame : same_addresses old new) (Hvalid : new_valid c new).
Hypothesis (Hmapped : range_unmappable c roots old (space_of s.1)).
Hypothesis (Henc : forall k, 0 <= k < page_count (rg_Length new) -> d k <> 0 /\
  AppleAgxUatEncodePageDescriptor c (pa k) (rg_Protection new) (Some 0) =
    (AppleAgxUatResultOk, Some (d k))).

(** The record and the leaves once they are rewritten. *)
Lemma replaced_space (j : nat) m s1 :
  live_mappings s.1 !! j = Some m -> at_address c (rg_VirtualAddress new) m ->
  mp_Length m = rg_Length new ->
  leaves_written held s (base_of roots (rg_VirtualAddress new)) (page_number (rg_VirtualAddress new))
    (page_count (rg_Length new)) d s1 ->
  let s' := on_inventory (replace_record (Z.of_nat j) (rg_PhysicalAddress new) (rg_Protection new) stride) s1 in
  consistent s' /\ others held s' = others held s /\
  space_of s'.1 ≡ sp_replace c roots (rg_VirtualAddress new) (rg_Length new) d (new_record c new stride)
    (space_of s.1).
Proof.
  intros Hj Hat Hl Hlw. destruct Hlw as [Hg1 Hs1 (Hsm & Hmcap & Hcnt & Hpcap) Hwd1 Hw1 Hat1 Hwalk1] eqn:Elw.
  clear Elw. cbv zeta.
  assert (Hok1 := good_ok _ _ Hg1). assert (Hok := good_ok _ _ (co_good _ _ Hco)).
  assert (live_mappings s1.1 = live_mappings s.1) as Elm by (unfold live_mappings, mappings; congruence).
  assert (Hj' := Hj). apply live_mapping_lookup in Hj' as [Hjb Hget]; [|done].
  destruct (replace_record_live s1.1 j (rg_PhysicalAddress new) (rg_Protection new) stride) as (Hok2 & Hl2 & Hm2);
    [done|by rewrite Hcnt|].
  assert (mappings s1.1 = mappings s.1) as Em by (unfold mappings; congruence).
  rewrite Em, Hget, Elm in Hm2.
  assert (m <| mp_PhysicalAddress := rg_PhysicalAddress new |> <| mp_Protection := rg_Protection new |>
      <| PhysicalStride := stride |> = new_record c new stride) as Erec.
  { destruct Hat as [E1 E2]. unfold new_record. rewrite <- Hl, <- E1, <- E2. by destruct m. }
  rewrite Erec in Hm2. destruct Hnew as (Hva & Hpa & Hlen).
  assert (mapping_ok (new_record c new stride)) as Hmok.
  { destruct Hvalid as (? & _ & _ & _ & _ & _ & ? & _). unfold mapping_ok. cbn. split_and!; done || lia. }
  split_and!.
  - split; cbn [on_inventory fst snd].
    + destruct Hg1 as [_ Hwf Ho]. split; cbn [on_inventory fst snd]; by rewrite ?Hl2.
    + rewrite Hm2. destruct Hat. eapply maps_ok_replace; [apply Hco|done|done|..]; cbn; congruence.
    + rewrite Hl2. eapply rewritten_pruned; [apply Hco| |intros k Hk; by apply Henc|apply Hco].
      by split.
  - unfold others. cbn [on_inventory fst snd]. by rewrite Hl2, Hwd1, (owned_shapes _ _ Hs1).
  - split_and!; cbn [on_inventory fst snd space_of sp_view sp_mappings sp_root sp_room sp_replace].
    + intros r n Hn. rewrite Hl2. destruct (Hwalk1 r n Hn) as [_ ->]. unfold sp_write, in_pages. done.
    + rewrite Hm2. by eapply insert_by_address; [apply Hco|..].
    + intros r. rewrite Hl2. by apply shapes_has_iff.
    + cbn. congruence.
Qed.

Lemma replace_range_spec X :
  wp (replace_range c roots old new pa stride)
    (fun _ s' => consistent s' /\ others held s' = others held s /\
       space_of s'.1 ≡ sp_replace c roots (rg_VirtualAddress new) (rg_Length new) d
         (new_record c new stride) (space_of s.1)) X s.
Proof.
  destruct Hsame as [Eva Elen]. destruct Hnew as (Hva & Hpa & Hlen).
  assert (Hok := good_ok _ _ (co_good _ _ Hco)). assert (Hwf := good_wf _ _ (co_good _ _ Hco)).
  unfold replace_range. apply ewp_bind, ewp_gets. cbv beta zeta.
  destruct (AppleAgxUatValidateRange _ _ _ _ _ _) as [result half] eqn:Hv.
  destruct (validate_range_ok c _ _ _ _ AppleAgxUatTtbr0 result half Hc Hva Hpa Hlen Hv)
    as [[-> (half' & -> & Hvalid')]|[Hne _]].
  2: { exfalso. by eapply validate_range_refuses. }
  assert (half' = half_of (rg_VirtualAddress new)) as -> by by eapply half_of_valid.
  cbn [snd default from_option id]. fold (base_of roots (rg_VirtualAddress new)).
  destruct Hmapped as [_ (m & Hm & Hat & Hl & Hex & _) Hroot Hpres]. rewrite Eva in Hroot, Hpres, Hat.
  rewrite Elen in Hpres, Hl.
  destruct (find_mapping c old s.1) as [j|] eqn:Hf.
  2: { exfalso. eapply find_mapping_None; try done; by rewrite ?Eva, ?Elen. }
  apply find_mapping_Some in Hf as (m' & Hj & Hjb & Hat' & Hl' & _); [|done].
  rewrite Eva in Hat'. rewrite Elen in Hl'.
  destruct (AppleAgxUatFindPage s.1 _ 0) as [root|] eqn:Hfr.
  2: { exfalso. by apply (find_page_None _ _ _ Hok (wf_nodup _ Hwf)) in Hfr. }
  apply find_page_Some in Hfr as (Hrb & Hra & Hrl); [|done|apply Hwf].
  destruct (range_pages c (rg_VirtualAddress new) (rg_PhysicalAddress new) (rg_Length new)
    (rg_Protection new) (half_of (rg_VirtualAddress new))) as [Hrange Hpages]; [done..|].
  destruct (range_steps c (rg_VirtualAddress new) (rg_PhysicalAddress new) (rg_Length new)
    (rg_Protection new) (half_of (rg_VirtualAddress new))) as (Hsteps & Hpos & Hlen'); [done..|].
  apply ewp_bind, ewp_modify, ewp_modify. cbn [default from_option id]. rewrite Hsteps.
  rewrite <- (Z2Nat.id j) by lia. eapply replaced_space; [done|done|done|].
  assert (for_range 0 (page_count (rg_Length new)) (fun k v => replace_leaf c root
      (u64 (rg_VirtualAddress new + step_offset k)) (pa k) (rg_Protection new) v) s.1 =
    write_leaves root (rg_VirtualAddress new) (page_count (rg_Length new)) d s.1) as Hwrite.
  { apply for_range_ext. intros k v Hk. unfold replace_leaf.
    destruct (Henc k) as [_ ->]; [lia|]. done. }
  unfold on_inventory at 1. rewrite Hwrite, <- Hra. apply write_leaves_spec; try done; [apply Hco|lia|].
  intros k Hk. rewrite Hra. apply (view_present (live s.1)); [apply Hwf|].
  exact (proj1 (in_pages_each roots c _ _ _ _ _
    (fun n => view (live s.1) (base_of roots (rg_VirtualAddress new)) n <> 0) Hva Hpa Hvalid) Hpres k Hk).
Qed.

End one.

(** ** The validating pass *)

(** A loop of checks that leave the state alone. *)
Lemma check_loop count (f : Z -> E (owner (World := World)) APPLE_AGX_UAT_RESULT unit) (V : Z -> Prop) s :
  0 <= count ->
  (forall k, 0 <= k < count -> (forall j, 0 <= j < k -> V j) ->
     wp (f k) (fun _ s' => s' = s /\ V k) (fun e s' => s' = s /\ e <> AppleAgxUatResultOk /\ ~ V k) s) ->
  wp (for_m 0 count (fun k _ => f k) tt)
    (fun _ s' => s' = s /\ forall k, 0 <= k < count -> V k)
    (fun e s' => s' = s /\ e <> AppleAgxUatResultOk /\ ~ forall k, 0 <= k < count -> V k) s.
Proof.
  intros Hcount Hf.
  eapply ewp_post; [apply (ewp_for _ _ _ (fun k _ s' => s' = s /\ forall j, 0 <= j < k -> V j))|done];
    [lia|split; [done|intros j; lia]|].
  intros k [] s' Hk [-> Hall]. rewrite Z.add_0_l. eapply ewp_mono; [by apply Hf|..]; cbn beta.
  - intros [] s' [-> Hv]. split; [done|]. intros j Hj. destruct (decide (j = k)) as [->|]; [done|].
    apply Hall. lia.
  - intros e s' (-> & He & Hn). split_and!; [done|done|]. intros H. by apply Hn, H.
Qed.

Section batch.
Context (s : APPLE_AGX_UAT_INVENTORY * World) (c : Z) (roots : APPLE_AGX_UAT_ROOTS)
  (olds : list APPLE_AGX_UAT_RANGE) (new : Z -> APPLE_AGX_UAT_RANGE) (count : Z).
Hypothesis (Hco : consistent s) (Hc : 0 <= c) (Htyped : ranges_typed olds count).
Hypothesis (Hnews : forall i, 0 <= i < count -> range_typed (new i)).
Hypothesis (Hbroker : full_context0_broker = true -> c <> 0).

Definition valid_at (sp : space) (k : Z) : Prop :=
  same_addresses (olds .[ k ]) (new k) /\ range_unmappable c roots (olds .[ k ]) sp /\
  new_valid c (new k) /\
  forall j, 0 <= j < k -> rg_VirtualAddress (olds .[ j ]) <> rg_VirtualAddress (olds .[ k ]).

Definition replaceable (sp : space) : Prop := forall k, 0 <= k < count -> valid_at sp k.

(** The same address twice means the same record, hence the same length. *)
Lemma same_length sp i j :
  maps_ok (sp_mappings sp) -> range_unmappable c roots (olds .[ i ]) sp ->
  range_unmappable c roots (olds .[ j ]) sp ->
  rg_VirtualAddress (olds .[ i ]) = rg_VirtualAddress (olds .[ j ]) ->
  rg_Length (olds .[ i ]) = rg_Length (olds .[ j ]).
Proof.
  intros Hok [_ (m & Hm & [E1 E2] & El & _) _ _] [_ (m' & Hm' & [E1' E2'] & El' & _) _ _] E.
  apply list_elem_of_lookup in Hm as (a & Ha), Hm' as (b & Hb).
  assert (a = b) as -> by (eapply record_unique; try done; congruence).
  rewrite Ha in Hb. injection Hb as ->. congruence.
Qed.

Lemma repeated_range_spec k :
  0 <= k -> (forall j, 0 <= j <= k -> range_unmappable c roots (olds .[ j ]) (space_of s.1)) ->
  repeated_range olds k = false <->
  forall j, 0 <= j < k -> rg_VirtualAddress (olds .[ j ]) <> rg_VirtualAddress (olds .[ k ]).
Proof.
  intros Hk Hu. unfold repeated_range. destruct (find_range _ _ _) as [j|] eqn:E; cbn [is_null negb].
  - apply find_range_Some in E as (Hj & Hp & _). rewrite andb_true_iff, !Z.eqb_eq in Hp.
    split; [done|]. intros H. exfalso. apply (H j); [lia|by destruct Hp].
  - rewrite find_range_None in E. split; [|done]. intros _ j Hj Eva.
    specialize (E j ltac:(lia)). rewrite Eva, Z.eqb_refl in E. cbn in E.
    rewrite (same_length (space_of s.1) j k), Z.eqb_refl in E; [done| |apply Hu; lia|apply Hu; lia|done].
    apply Hco.
Qed.

Lemma validate_new k :
  0 <= k < count ->
  (AppleAgxUatValidateRange c (rg_VirtualAddress (new k)) (rg_PhysicalAddress (new k))
    (rg_Length (new k)) (rg_Protection (new k)) (Some AppleAgxUatTtbr0)).1 = AppleAgxUatResultOk <->
  new_valid c (new k).
Proof.
  intros Hk. destruct (Hnews k Hk) as (Hva & Hpa & Hlen).
  destruct (AppleAgxUatValidateRange _ _ _ _ _ _) as [result half] eqn:Hv. cbn.
  destruct (validate_range_ok c _ _ _ _ AppleAgxUatTtbr0 result half Hc Hva Hpa Hlen Hv)
    as [[-> (half' & -> & Hvalid)]|[Hne _]].
  - split; [|done]. intros _. unfold new_valid. by rewrite <- (half_of_valid _ _ _ _ _ _ Hva Hvalid).
  - split; [done|]. intros Hvalid. exfalso. by eapply validate_range_refuses.
Qed.

(** The three checks both calls make on range [k]. *)
Lemma validate_at k :
  0 <= k < count -> (forall j, 0 <= j < k -> valid_at (space_of s.1) j) ->
  same_addresses (olds .[ k ]) (new k) ->
  wp (check_result (AppleAgxUatValidateExactMapping c roots (olds .[ k ]) s.1);;
      check_result (AppleAgxUatValidateRange c (rg_VirtualAddress (new k)) (rg_PhysicalAddress (new k))
        (rg_Length (new k)) (rg_Protection (new k)) (Some AppleAgxUatTtbr0)).1;;
      if repeated_range olds k then fail AppleAgxUatResultInvalidArgument else mret tt)
    (fun _ s' => s' = s /\ valid_at (space_of s.1) k)
    (fun e s' => s' = s /\ e <> AppleAgxUatResultOk /\ ~ valid_at (space_of s.1) k) s.
Proof.
  intros Hk Hbefore Hsame. destruct Htyped as [_ Hty].
  assert (Hex := validate_exact full_context0_broker held s c roots (olds .[ k ]) Hco Hc (Hty k Hk) Hbroker).
  assert (Hnew := validate_new k Hk). unfold valid_at. apply ewp_bind. unfold check_result.
  case_bool_decide as H1; [|apply ewp_fail; tauto]. apply ewp_ret, ewp_bind.
  case_bool_decide as H2; [|apply ewp_fail; tauto]. apply ewp_ret.
  assert (Hrep := repeated_range_spec k ltac:(lia)). destruct (repeated_range olds k).
  - apply ewp_fail. split_and!; [done|done|]. intros (_ & Hu & _ & Hd).
    enough (true = false) by done. apply Hrep; [|done]. intros j Hj.
    destruct (decide (j = k)) as [->|]; [done|]. apply Hbefore. lia.
  - apply ewp_ret. split_and!; try done; [by apply Hex|by apply Hnew|]. apply Hrep; [|done]. intros j Hj.
    destruct (decide (j = k)) as [->|]; [by apply Hex|]. apply Hbefore. lia.
Qed.

(** ** The writing pass *)

Lemma unmappable_replaced rg va' len' d' m' sp :
  (forall k, 0 <= k < page_count len' -> d' k <> 0) -> rg_VirtualAddress rg <> va' ->
  range_unmappable c roots rg sp -> range_unmappable c roots rg (sp_replace c roots va' len' d' m' sp).
Proof.
  intros Hd Hne [H1 (m & Hm & Hat & Hl & Hex & Hv) H3 H4]. split; [done| |done|].
  - exists m. split_and!; try done; try apply Hat; try apply Hex. cbn. apply list_elem_of_fmap.
    exists m. split; [|done]. rewrite decide_False; [done|]. intros [_ E]. apply Hne.
    by rewrite <- E, (proj2 Hat).
  - intros n Hn Hin. cbn. unfold sp_write. case_decide as Hp; [|by apply H4].
    apply Hd. destruct Hp as [_ Hp]. lia.
Qed.

Context (pa d : Z -> Z -> Z) (stride : Z).
Hypothesis (Henc : forall i k, 0 <= i < count -> 0 <= k < page_count (rg_Length (new i)) ->
  new_valid c (new i) -> d i k <> 0 /\
  AppleAgxUatEncodePageDescriptor c (pa i k) (rg_Protection (new i)) (Some 0) =
    (AppleAgxUatResultOk, Some (d i k))).

Definition sp_replaces (k : Z) (sp : space) : space :=
  foldl (fun sp i => sp_replace c roots (rg_VirtualAddress (new i)) (rg_Length (new i)) (d i)
    (new_record c (new i) stride) sp) sp (seqZ 0 k).

Lemma sp_replaces_snoc k sp : 0 <= k ->
  sp_replaces (k + 1) sp = sp_replace c roots (rg_VirtualAddress (new k)) (rg_Length (new k)) (d k)
    (new_record c (new k) stride) (sp_replaces k sp).
Proof. intros Hk. unfold sp_replaces. by rewrite seqZ_app, foldl_app by lia. Qed.

Lemma replace_all_spec X :
  replaceable (space_of s.1) ->
  wp (for_m 0 count (fun i _ => replace_range c roots (olds .[ i ]) (new i) (pa i) stride) tt)
    (fun _ s' => consistent s' /\ others held s' = others held s /\
       space_of s'.1 ≡ sp_replaces count (space_of s.1)) X s.
Proof.
  intros Hall. destruct Htyped as [Hcount Hty].
  eapply ewp_post; [apply (ewp_for _ _ _ (fun k _ s' => (consistent s' /\ others held s' = others held s /\
    space_of s'.1 ≡ sp_replaces k (space_of s.1)) /\
    forall i, k <= i < count -> range_unmappable c roots (olds .[ i ]) (space_of s'.1)))|];
    [lia|split; [done|intros i Hi; apply Hall; lia]| |by intros [] s' [? _]].
  intros k [] s1 Hk [(Hco1 & Ho1 & Hsp1) Hu1]. rewrite Z.add_0_l.
  destruct (Hall k Hk) as (Hsame & _ & Hvalid & _).
  eapply ewp_post; [apply (replace_range_spec s1 c roots (olds .[ k ]) (new k) (pa k) (d k)); try done|].
  - by apply Hnews.
  - apply Hu1. lia.
  - intros j Hj. by apply Henc.
  - intros [] s2 (Hco2 & Ho2 & Hsp2). split_and!; [done|congruence| |].
    + by rewrite sp_replaces_snoc, Hsp2, Hsp1 by lia.
    + intros i Hi. unfold range_unmappable. rewrite Hsp2. apply unmappable_replaced.
      * intros j Hj. by apply Henc.
      * destruct Hsame as [<- _]. destruct (Hall i) as (_ & _ & _ & Hd); [lia|].
        intros E. apply (Hd k); [lia|done].
      * apply Hu1. lia.
Qed.

(** A validating pass [f] and the writing pass together. *)
Lemma replace_body_spec (f : Z -> E (owner (World := World)) APPLE_AGX_UAT_RESULT unit) :
  (forall k, 0 <= k < count -> (forall j, 0 <= j < k -> valid_at (space_of s.1) j) ->
     wp (f k) (fun _ s' => s' = s /\ valid_at (space_of s.1) k)
       (fun e s' => s' = s /\ e <> AppleAgxUatResultOk /\ ~ valid_at (space_of s.1) k) s) ->
  let behaves := behaves s (replaceable (space_of s.1)) (sp_replaces count) in
  wp (_ ← for_m 0 count (fun k _ => f k) tt;
      for_m 0 count (fun i _ => replace_range c roots (olds .[ i ]) (new i) (pa i) stride) tt)
    (fun _ s' => behaves AppleAgxUatResultOk s') (fun e s' => behaves e s') s.
Proof.
  intros Hf b. destruct Htyped as [Hcount _].
  apply ewp_bind. eapply ewp_mono; [by apply (check_loop count f (valid_at (space_of s.1)) s); [lia|]|..]; cbn beta.
  - intros [] s' [-> Hall]. eapply ewp_mono; [by apply replace_all_spec| |done].
    intros [] s' (Hco' & Ho & Hsp). by apply behaves_done.
  - intros e s' (-> & He & Hn). apply behaves_refused; [done|done|done|by right].
Qed.

End batch.

(** ** The two calls *)

(** The range with another frame. *)
Definition repointed (pa p : Z) rg : APPLE_AGX_UAT_RANGE :=
  {| rg_VirtualAddress := rg_VirtualAddress rg; rg_PhysicalAddress := pa;
     rg_Length := rg_Length rg; rg_Protection := p |}.

Lemma not_broker c : full_context0_broker && (c =? 0) = false -> full_context0_broker = true -> c <> 0.
Proof. intros Hb E. rewrite E in Hb. cbn in Hb. by guards. Qed.

Lemma replace_batch_spec v w c roots olds news count :
  consistent (v, w) -> 0 <= c -> ranges_typed olds count -> ranges_typed news count ->
  exists result v' w',
    AppleAgxUatReplaceBatch full_context0_broker c (Some roots) (Some olds) (Some news) count (Some A)
      (Some v) w = (result, Some v', w') /\
    behaves (v, w) (replaceable c roots olds (fun i => news .[ i ]) count (space_of v))
      (sp_replaces c roots (fun i => news .[ i ]) (fun i => range_pte c (news .[ i ]))
         J313_AGX_G2_PAGE_SIZE count) result (v', w').
Proof.
  intros Hco Hc Hold Hnew. unfold AppleAgxUatReplaceBatch. destruct (Hold) as [Hcount _].
  destruct Hnew as [_ Hnews]. case_match eqn:Hb.
  { guards. eexists _, v, w. split; [done|]. apply behaves_refused; [done|done|done|right].
    intros Hall. destruct (Hall 0) as (_ & Hu & _); [lia|]. by apply (su_broker _ _ _ _ _ _ _ Hu). }
  assert (Hbroker := not_broker c Hb). destruct (Z.eqb_spec count 0); [lia|].
  assert (Hwp : wp (replace_batch_body c roots olds news count (Some A))
    (fun _ s' => behaves (v, w) (replaceable c roots olds (fun i => news .[ i ]) count (space_of v))
      (sp_replaces c roots (fun i => news .[ i ]) (fun i => range_pte c (news .[ i ]))
         J313_AGX_G2_PAGE_SIZE count) AppleAgxUatResultOk s')
    (fun e s' => behaves (v, w) (replaceable c roots olds (fun i => news .[ i ]) count (space_of v))
      (sp_replaces c roots (fun i => news .[ i ]) (fun i => range_pte c (news .[ i ]))
         J313_AGX_G2_PAGE_SIZE count) e s') (v, w)).
  { unfold replace_batch_body. apply ewp_bind, ewp_gets. cbv beta.
    rewrite (check_owner_ok A held) by apply (co_good _ _ Hco). apply ewp_bind, ewp_ret.
    apply (replace_body_spec (v, w) c roots olds (fun i => news .[ i ]) count Hco Hc Hold Hnews
      (fun i k => u64 (rg_PhysicalAddress (news .[ i ]) + step_offset k))
      (fun i => range_pte c (news .[ i ])) J313_AGX_G2_PAGE_SIZE).
    - intros i k Hi Hk Hv. destruct (Hnews i Hi) as (Hva & Hpa & _).
      by apply (range_encode c (rg_VirtualAddress (news .[ i ])) _ (rg_Length (news .[ i ])) _
        (half_of (rg_VirtualAddress (news .[ i ])))).
    - intros k Hk Hbefore. cbv zeta.
      destruct (Z.eqb_spec (rg_VirtualAddress (olds .[ k ])) (rg_VirtualAddress (news .[ k ])));
        destruct (Z.eqb_spec (rg_Length (olds .[ k ])) (rg_Length (news .[ k ]))); cbn [negb orb];
        [by apply (validate_at (v, w) c roots olds (fun i => news .[ i ]) count)|..];
        (apply ewp_fail; split_and!; [done|done|]; intros ((? & ?) & _); done). }
  destruct (finish_wp _ _ _ _ Hwp) as (result & v' & w' & -> & H).
  exists result, v', w'. split; [done|]. by destruct H as [[-> H]|H].
Qed.

Lemma replace_batch_with_page_spec v w c roots Ranges count pa p :
  consistent (v, w) -> 0 <= c -> ranges_typed Ranges count -> is_u64 pa ->
  exists result v' w',
    AppleAgxUatReplaceBatchWithPage full_context0_broker c (Some roots) (Some Ranges) count pa p (Some A)
      (Some v) w = (result, Some v', w') /\
    behaves (v, w) (replaceable c roots Ranges (fun i => repointed pa p (Ranges .[ i ])) count (space_of v))
      (sp_replaces c roots (fun i => repointed pa p (Ranges .[ i ])) (fun _ _ => page_pte c pa p) 0 count)
      result (v', w').
Proof.
  intros Hco Hc Hty Hpa. unfold AppleAgxUatReplaceBatchWithPage. destruct (Hty) as [Hcount Htyped].
  set (new i := repointed pa p (Ranges .[ i ])). case_match eqn:Hb.
  { guards. eexists _, v, w. split; [done|]. apply behaves_refused; [done|done|done|right].
    intros Hall. destruct (Hall 0) as (_ & Hu & _); [lia|]. by apply (su_broker _ _ _ _ _ _ _ Hu). }
  assert (Hbroker := not_broker c Hb). destruct (Z.eqb_spec count 0); [lia|].
  assert (Hnews : forall i, 0 <= i < count -> range_typed (new i)).
  { intros i Hi. destruct (Htyped i Hi) as (? & _ & ?). done. }
  assert (Hwp : wp (replace_batch_with_page_body c roots Ranges count pa p (Some A))
    (fun _ s' => behaves (v, w) (replaceable c roots Ranges new count (space_of v))
      (sp_replaces c roots new (fun _ _ => page_pte c pa p) 0 count) AppleAgxUatResultOk s')
    (fun e s' => behaves (v, w) (replaceable c roots Ranges new count (space_of v))
      (sp_replaces c roots new (fun _ _ => page_pte c pa p) 0 count) e s') (v, w)).
  { unfold replace_batch_with_page_body. apply ewp_bind, ewp_gets. cbv beta.
    rewrite (check_owner_ok A held) by apply (co_good _ _ Hco). apply ewp_bind, ewp_ret.
    change (J313_AGX_G2_PAGE_SIZE - 1) with (2 ^ 14 - 1). rewrite land_mask by done.
    destruct (Z.eqb_spec (pa mod 2 ^ 14) 0) as [Hal|Hal]; cbn [negb].
    2: { apply ewp_fail, behaves_refused; [done|done|done|right]. intros Hall.
         destruct (Hall 0) as (_ & _ & (_ & _ & _ & _ & Hm & _) & _); [lia|]. done. }
    cbv zeta. apply (replace_body_spec (v, w) c roots Ranges new count Hco Hc Hty Hnews
      (fun _ _ => pa) (fun _ _ => page_pte c pa p) 0).
    - intros i k Hi Hk Hv. destruct (Hnews i Hi) as (Hva & _ & _).
      assert (Hr := range_encode c (rg_VirtualAddress (new i)) pa (rg_Length (new i)) p
        (half_of (rg_VirtualAddress (new i))) Hc Hva Hpa Hv 0 ltac:(lia)).
      unfold step_offset in Hr. rewrite Z.mul_0_l, Z.add_0_r, (wrap_id 64) in Hr by done. done.
    - intros k Hk Hbefore. by apply (validate_at (v, w) c roots Ranges new count). }
  destruct (finish_wp _ _ _ _ Hwp) as (result & v' & w' & -> & H).
  exists result, v', w'. split; [done|]. by destruct H as [[-> H]|H].
Qed.
End replace.

End Replace.
