(* ===== verification/UatOwner.v ===== *)
(** * The life of an address space

    Creating the two roots of a context, looking a page up, destroying the inventory,
    and the public call that maps a list of pages. *)

From stdpp Require Import gmap sets.
From S2P Require Import Prelude Arrays Bytes Uat ErrorState UatTable.
From S2P Require Import UatHeap UatOps UatMap UatSpace UatPrune UatUnmap UatSpec.
Import Uat Table Heap Ops Map Space Prune Unmap Spec.

Module Owner.

Section owner.
Context {World : Type} (full_context0_broker : bool).
Context (A : APPLE_AGX_UAT_ALLOCATOR World) (held : World -> gset Z) `{!AllocatorLaws A held}.
Implicit Types (s : APPLE_AGX_UAT_INVENTORY * World) (v : APPLE_AGX_UAT_INVENTORY)
  (m : APPLE_AGX_UAT_MAPPING) (l pa n r c va : Z).

Abbreviation good := (good held).
Abbreviation consistent := (consistent held).
Abbreviation behaves := (behaves held).

(** ** Creating *)

(** Two empty tables more. *)
Record created s roots s' : Prop := {
  cs_consistent : consistent s';
  cs_fresh : Ttbr0PhysicalAddress roots ∉ held s.2 /\ Ttbr1PhysicalAddress roots ∉ held s.2 /\
    Ttbr0PhysicalAddress roots <> Ttbr1PhysicalAddress roots;
  cs_roots : forall r, has (live s'.1) 0 r <-> has (live s.1) 0 r \/
    r = Ttbr0PhysicalAddress roots \/ r = Ttbr1PhysicalAddress roots;
  cs_view : forall r n, view (live s'.1) r n = view (live s.1) r n;
  cs_empty : forall n, view (live s'.1) (Ttbr0PhysicalAddress roots) n = 0 /\
    view (live s'.1) (Ttbr1PhysicalAddress roots) n = 0;
  cs_maps : live_mappings s'.1 = live_mappings s.1;
  cs_others : others held s' = others held s;
}.

Lemma same_live_mappings v v' : same_mappings v v' -> live_mappings v' = live_mappings v.
Proof. intros (Hm & _ & Hc & _). unfold live_mappings, mappings. by rewrite Hm, Hc. Qed.

(** One root more. *)
Lemma allocated_root s j s' p :
  consistent s -> allocated held 0 s j s' -> live s'.1 = live s.1 ++ [p] -> page_empty p ->
  Level p = 0 -> addr p ∉ held s.2 -> held s'.2 = {[ addr p ]} ∪ held s.2 ->
  consistent s' /\ others held s' = others held s.
Proof.
  intros [Hg Hm Hpr] Hal Hl He Hl0 Hfr Hh. split.
  - split.
    + by eapply allocated_good.
    + by rewrite (same_live_mappings s.1) by apply (al_same _ _ _ _ _ Hal).
    + rewrite Hl. intros q Hq Hlq. apply elem_of_app in Hq as [Hq|Hq%list_elem_of_singleton].
      * by apply Hpr.
      * by subst q.
  - unfold others. rewrite Hl, owned_app, Hh. unfold owned_by at 2. cbn.
    assert (Ho := good_owned _ _ Hg). apply set_eq. intros a. specialize (Ho a). set_solver.
Qed.

Lemma view_new_root ps p n : page_empty p -> NoDup (addresses ps) -> Forall page_ok ps ->
  addr p ∉ addresses ps -> view (ps ++ [p]) (addr p) n = 0.
Proof.
  intros He Hd Hf Hn. unfold view, table2, table1. rewrite !word_snoc by done.
  rewrite (word_out ps 0) by (intros Hh; by apply Hn, (has_address _ 0)).
  rewrite frame_0, word_null by done. rewrite frame_0. by apply word_null.
Qed.

Lemma view_snoc ps p r n : page_empty p -> view (ps ++ [p]) r n = view ps r n.
Proof. intros He. unfold view, table2, table1. by rewrite !word_snoc. Qed.

Definition create_outcome s c (result : APPLE_AGX_UAT_RESULT) (roots : APPLE_AGX_UAT_ROOTS) s' : Prop :=
  (result = AppleAgxUatResultOk /\ created s roots s') \/
  (result <> AppleAgxUatResultOk /\ same_space held s s' /\ consistent s' /\
   roots = {| Ttbr0PhysicalAddress := 0; Ttbr1PhysicalAddress := 0 |} /\
   (out_of_pages result \/ 64 <= c \/ (full_context0_broker = true /\ c = 0))).

Lemma allocated_page l s j s' p :
  inv_ok s.1 -> allocated held l s j s' -> live s'.1 = live s.1 ++ [p] -> (pages s'.1) .[ j ] = p.
Proof.
  intros Hok Hal Hl. rewrite (al_index _ _ _ _ _ Hal).
  destruct (live_last s'.1 (live s.1) p (al_ok _ _ _ _ _ Hal) Hl) as (Hc & Hlast & _).
  by rewrite Hc, Z.add_simpl_r, zlen_live in Hlast.
Qed.

(** The second allocation failed: the first page goes back. *)
Lemma create_undone s root0 s1 s2 :
  consistent s -> allocated held 0 s root0 s1 -> unchanged held s1 s2 ->
  restored held s (AppleAgxUatReleaseFrom (PageCount s.1) A s2).
Proof.
  intros Hco Hal [E Hh]. assert (Hok := good_ok _ _ (co_good _ _ Hco)).
  destruct (al_page _ _ _ _ _ Hal) as (p0 & Hp0 & He0 & Hl0 & Hf0 & Hlive0 & Hh0).
  assert (Hg1 := allocated_good A held 0 s root0 s1 (co_good _ _ Hco) Hal).
  destruct (release_from A held s2 (live s.1) [p0]) as (Hok3 & Hlive3 & Hsm3 & Hh3).
  - rewrite E. apply Hal.
  - by rewrite E.
  - rewrite E. by apply (good_nodup held).
  - rewrite E, Hh. apply Hg1.
  - rewrite zlen_live in * by done. split; try done.
    + eapply same_mappings_trans; [apply (al_same _ _ _ _ _ Hal)|]. by rewrite <- E.
    + rewrite Hh3, Hh, Hh0. unfold owned_by. cbn. set_solver.
Qed.

Lemma view_absent v w a n : consistent (v, w) -> a ∉ held w -> view (live v) a n = 0.
Proof.
  intros Hco Ha. assert (Hwf := good_wf _ _ (co_good _ _ Hco)). unfold view, table2, table1.
  rewrite (word_out (live v) 0), frame_0, word_null, frame_0; [by apply word_null; apply Hwf|apply Hwf|].
  intros Hh%has_address. apply Ha, (good_owned _ _ (co_good _ _ Hco)). by rewrite owned_elem.
Qed.

Lemma create_done s root0 s1 root1 s2 :
  consistent s -> allocated held 0 s root0 s1 -> allocated held 0 s1 root1 s2 ->
  created s {| Ttbr0PhysicalAddress := addr (pages s1.1) .[ root0 ];
               Ttbr1PhysicalAddress := addr (pages s2.1) .[ root1 ] |} s2.
Proof.
  intros Hco H1 H2. assert (Hok := good_ok _ _ (co_good _ _ Hco)).
  destruct (al_page _ _ _ _ _ H1) as (p0 & Hp0 & He0 & Hl0 & Hf0 & Hlive0 & Hh0).
  destruct (allocated_root s root0 s1 p0) as [Hco1 Ho1]; try done.
  destruct (al_page _ _ _ _ _ H2) as (p1 & Hp1 & He1 & Hl1 & Hf1 & Hlive1 & Hh1).
  destruct (allocated_root s1 root1 s2 p1) as [Hco2 Ho2]; try done.
  rewrite (allocated_page 0 s root0 s1 p0), (allocated_page 0 s1 root1 s2 p1) by (done || apply H1).
  assert (forall r n, view (live s2.1) r n = view (live s.1) r n) as Hview.
  { intros r n. by rewrite Hlive1, view_snoc, Hlive0, view_snoc by done. }
  assert (addr p1 ∉ held s.2) as Hf1' by (rewrite Hh0 in Hf1; set_solver).
  split; cbn [Ttbr0PhysicalAddress Ttbr1PhysicalAddress].
  - done.
  - split_and!; [done|done|]. intros E. rewrite Hh0, <- E in Hf1. set_solver.
  - intros r. rewrite Hlive1, has_snoc, Hlive0, has_snoc, Hl0, Hl1. naive_solver.
  - done.
  - intros n. rewrite !Hview. destruct s as [v w]. split; by apply (view_absent v w).
  - rewrite (same_live_mappings s1.1), (same_live_mappings s.1); [done| |];
      [apply (al_same _ _ _ _ _ H1)|apply (al_same _ _ _ _ _ H2)].
  - by rewrite Ho2, Ho1.
Qed.

Definition no_roots : APPLE_AGX_UAT_ROOTS := {| Ttbr0PhysicalAddress := 0; Ttbr1PhysicalAddress := 0 |}.

Lemma create_refused s c e s' :
  consistent s -> restored held s s' -> e <> AppleAgxUatResultOk ->
  (out_of_pages e \/ 64 <= c \/ (full_context0_broker = true /\ c = 0)) ->
  create_outcome s c e no_roots s'.
Proof.
  intros Hco Hr He Hn. right. split_and!; [done|by apply restored_same|by eapply consistent_restored|done|done].
Qed.

Lemma out_of_pages_error e : out_of_pages e -> e <> AppleAgxUatResultOk.
Proof. by intros [-> | ->]. Qed.

Lemma create_spec v w c roots0 :
  consistent (v, w) -> 0 <= c ->
  exists result v' roots w',
    AppleAgxUatCreateAddressSpace full_context0_broker c (Some A) (Some v) (Some roots0) w =
      (result, Some v', Some roots, w') /\ create_outcome (v, w) c result roots (v', w').
Proof.
  intros Hco Hc. unfold AppleAgxUatCreateAddressSpace. assert (Hok := good_ok _ _ (co_good _ _ Hco)).
  assert (Hrefl := restored_refl held (v, w) Hok). case_match eqn:Hb.
  { guards. eexists _, v, _, w. split; [done|]. apply create_refused; [done..|auto]. }
  destruct (Z.leb_spec J313_AGX_G2_UAT_CONTEXT_COUNT c) as [H64|H64].
  { eexists _, v, _, w. split; [done|]. apply create_refused; [done..|auto]. }
  assert (AppleAgxUatCheckOwnerArguments (Some A) (Some v) = AppleAgxUatResultOk) as ->
    by by apply (check_owner_ok A held (v, w)).
  rewrite bool_decide_true by done. cbn [negb].
  assert (H1 := allocate_recorded A held 0 (v, w) Hok ltac:(lia)). unfold wp in H1.
  destruct (AppleAgxUatAllocateRecordedPage 0 A (v, w)) as [[e|root0] [v1 w1]].
  { destruct H1 as [[E Hh] He]. cbn in E. subst v1. eexists e, v, _, w1. split; [done|].
    apply create_refused; [done|by split|by apply out_of_pages_error|by left]. }
  assert (H2 := allocate_recorded A held 0 (v1, w1) (al_ok _ _ _ _ _ H1) ltac:(lia)). unfold wp in H2.
  destruct (AppleAgxUatAllocateRecordedPage 0 A (v1, w1)) as [[e|root1] [v2 w2]].
  - destruct H2 as [Hun He]. assert (Hr := create_undone (v, w) root0 (v1, w1) (v2, w2) Hco H1 Hun).
    cbv zeta. cbn [fst] in Hr. destruct (AppleAgxUatReleaseFrom _ A _) as [v3 w3].
    eexists e, v3, _, w3. split; [done|]. apply create_refused; [done|done|by apply out_of_pages_error|by left].
  - eexists _, v2, _, w2. split; [done|]. left. split; [done|]. by apply (create_done _ root0 (v1, w1) root1).
Qed.

(** ** Destroying *)

Lemma forget_mappings v :
  inv_ok v ->
  let v' := for_range 0 (MappingCount v) (fun _ => forget_last_mapping) v in
  inv_ok v' /\ live v' = live v /\ MappingCount v' = 0 /\ PageCapacity v' = PageCapacity v /\
  MappingCapacity v' = MappingCapacity v.
Proof.
  intros Hok. assert (Hc := ok_mapping_count _ Hok).
  refine (_ (for_range_inv (fun k v' => inv_ok v' /\ live v' = live v /\ MappingCount v' = MappingCount v - k /\
    PageCapacity v' = PageCapacity v /\ MappingCapacity v' = MappingCapacity v)
    0 (MappingCount v) (fun _ => forget_last_mapping) v _ _ _)).
  - intros (H1 & H2 & H3 & H4). split_and!; try done; lia || apply H4.
  - lia.
  - split_and!; done || lia.
  - intros k v' Hk (Hok' & Hl & Hm & Hp & Hmc). unfold forget_last_mapping.
    split_and!; [|done|cbn; lia|done|done].
    destruct Hok' as [K1 K2 K3 K4 K5 K6 K7]. split; try done; cbn; try lia.
    unfold mappings at 1. cbn. by rewrite zlen_set.
Qed.

Lemma destroy_spec v w :
  consistent (v, w) ->
  exists v' w', AppleAgxUatDestroy (Some A) (Some v) w = (Some v', w') /\
    consistent (v', w') /\ PageCount v' = 0 /\ MappingCount v' = 0 /\ held w' = others held (v, w) /\
    PageCapacity v' = PageCapacity v /\ MappingCapacity v' = MappingCapacity v.
Proof.
  intros Hco. assert (Hg := co_good _ _ Hco). assert (Hok := good_ok _ _ Hg).
  destruct law_release as (g & Hgr & _). unfold AppleAgxUatDestroy. rewrite Hgr. cbn [is_null].
  destruct (release_from A held (v, w) [] (live v)) as (Hok1 & Hl1 & Hsm & Hh1); try done;
    [by apply (good_nodup held (v, w))|apply Hg|].
  change (zlen []) with 0 in *. set (s := AppleAgxUatReleaseFrom 0 A (v, w)) in *. cbv zeta.
  destruct (forget_mappings s.1 Hok1) as (Hok2 & Hl2 & Hm2 & Hp2 & Hmc2).
  set (v' := for_range _ _ _ s.1) in *. rewrite Hl1 in Hl2. exists v', s.2.
  assert (live_mappings v' = []) as Hlm by (unfold live_mappings, prefix_list; by rewrite Hm2).
  destruct Hsm as (_ & Hsmc & _ & Hspc). split_and!; [done| | |done|done| |].
  - split; cbn [fst].
    + split; cbn [fst snd]; [done|rewrite Hl2|rewrite Hl2; set_solver].
      split; [constructor|constructor|..]; intros l pa i *; cbn; intros; done.
    + rewrite Hlm. apply maps_ok_nil.
    + rewrite Hl2. intros p Hp. by apply not_elem_of_nil in Hp.
  - by rewrite <- (zlen_live v'), Hl2.
  - by rewrite Hp2.
  - by rewrite Hmc2.
Qed.

(** ** Looking a page up *)

Definition high_base : Z := 2 ^ 64 - 2 ^ 39.

(** What looking up leaf [d] gives. *)
Definition resolved (d : Z) : APPLE_AGX_UAT_RESULT * ptr Z * ptr Z :=
  if bool_decide (Z.land d 3 = 3 /\ frame d <> 0)
  then (AppleAgxUatResultOk, Some (frame d), Some d)
  else (AppleAgxUatResultNotMapped, Some 0, Some 0).

Lemma resolve_spec v w c roots va x y :
  consistent (v, w) -> is_u64 va ->
  AppleAgxUatResolvePage c (Some roots) va (Some v) (Some x) (Some y) =
    if bool_decide (64 <= c) then (AppleAgxUatResultInvalidArgument, Some 0, Some 0)
    else if bool_decide (va mod 2 ^ 14 <> 0) then (AppleAgxUatResultMisaligned, Some 0, Some 0)
    else if bool_decide (2 ^ 39 <= va < high_base) then (AppleAgxUatResultOutOfRange, Some 0, Some 0)
    else resolved (view (live v) (base_of roots va) (page_number va)).
Proof.
  intros Hco Hva. assert (Hok := good_ok _ _ (co_good _ _ Hco)). assert (Hwf := good_wf _ _ (co_good _ _ Hco)).
  cbn [fst] in Hok, Hwf. unfold AppleAgxUatResolvePage. cbn [is_null orb].
  change J313_AGX_G2_UAT_CONTEXT_COUNT with 64.
  change APPLE_AGX_UAT_TABLE_PAGE_MASK with (2 ^ 14 - 1). rewrite land_mask by done.
  change (Z.shiftl 1 J313_AGX_G2_UAT_INPUT_ADDRESS_BITS) with (2 ^ 39).
  change (u64 (Z.lnot (2 ^ 39 - 1))) with high_base.
  destruct (Z.leb_spec 64 c); [by rewrite bool_decide_true by lia|rewrite bool_decide_false by lia].
  destruct (Z.eqb_spec (va mod 2 ^ 14) 0); cbn [negb]; [rewrite bool_decide_false by tauto|by rewrite bool_decide_true].
  destruct (decide (2 ^ 39 <= va < high_base)) as [Hh|Hh].
  { rewrite bool_decide_true by done. destruct (Z.leb_spec (2 ^ 39) va); [|lia].
    by destruct (Z.ltb_spec va high_base); [|lia]. }
  rewrite (bool_decide_false (2 ^ 39 <= _ < _)) by done.
  assert ((2 ^ 39 <=? va) && (va <? high_base) = false) as ->.
  { destruct (Z.leb_spec (2 ^ 39) va), (Z.ltb_spec va high_base); done || lia. }
  assert ((if va <? 2 ^ 39 then Ttbr0PhysicalAddress roots else Ttbr1PhysicalAddress roots) =
    base_of roots va) as ->.
  { unfold base_of, half_of. by destruct (va <? 2 ^ 39). }
  destruct (AppleAgxUatFindPage v (base_of roots va) 0) as [root|] eqn:Hroot.
  2: { apply find_page_None in Hroot; [|done|apply Hwf]. unfold view, table2, table1.
       rewrite (word_out (live v) 0), frame_0, word_null, frame_0, word_null by (done || apply Hwf). done. }
  apply find_page_Some in Hroot as (Hrb & Hra & Hrl); [|done|apply Hwf].
  destruct (existing_leaf v root va Hok Hwf Hrb Hrl (proj1 Hva)) as [(k & -> & Hk & Hlk & Hak)|[-> Hn]].
  - rewrite bool_decide_true by done. cbn [negb]. unfold load_leaf. cbn [fst snd].
    rewrite entry_word by (done || apply Hwf). rewrite Hlk, Hak, Hra. fold (view (live v) (base_of roots va) (page_number va)).
    set (d := view _ _ _). unfold resolved. fold (frame d).
    change APPLE_AGX_UAT_TABLE_DESCRIPTOR_MASK with 3.
    destruct (Z.eqb_spec (Z.land d 3) 3), (Z.eqb_spec (frame d) 0); cbn [negb orb];
      first [rewrite bool_decide_true by done|rewrite bool_decide_false by tauto]; done.
  - rewrite bool_decide_false by done. cbn [negb]. unfold view. rewrite Hra in Hn.
    by rewrite word_out.
Qed.

Lemma resolved_pte c pa p :
  0 <= c < 64 -> protection_allowed c p -> frame_ok pa -> pa <> 0 ->
  resolved (page_pte c pa p) = (AppleAgxUatResultOk, Some pa, Some (page_pte c pa p)).
Proof.
  intros Hc Hp Hf Hne. assert (Hr := read_page_descriptor c pa p Hc Hp Hf).
  unfold read_pte, expected_pte in Hr. fold (page_pte c pa p) in Hr.
  destruct (default _ _) as [[[a b] d] e].
  assert (H3 := f_equal pte_type Hr). assert (Hfr := f_equal pte_address Hr). cbn in H3, Hfr.
  rewrite <- Z.land_assoc in H3. change (Z.land (2 ^ 14 - 1) 3) with 3 in H3.
  unfold resolved. change (frame (page_pte c pa p)) with (page_frame (page_pte c pa p)).
  by rewrite H3, Hfr, bool_decide_true.
Qed.

(** ** Mapping a list of pages *)

Definition frames_typed (frames : list Z) (count : Z) : Prop :=
  0 < count < 2 ^ 32 /\ forall k, 0 <= k < count -> is_u64 (frames .[ k ]).

(** When a list of frames can be mapped. *)
Definition list_mappable c roots va (frames : list Z) (count p : Z) (sp : space) : Prop :=
  (forall k, 0 <= k < count -> frame_ok (frames .[ k ])) /\
  sp_mappable full_context0_broker c roots va (frames .[ 0 ]) (step_offset count) p sp.

Lemma page_list_spec v w c roots va frames count p :
  consistent (v, w) -> 0 <= c -> is_u64 va -> frames_typed frames count ->
  exists result v' w',
    AppleAgxUatMapPageList full_context0_broker c (Some roots) va (Some frames) count p (Some A) (Some v) w =
      (result, Some v', w') /\
    behaves (v, w) (list_mappable c roots va frames count p (space_of v))
      (sp_map roots va (step_offset count) (fun k => page_pte c (frames .[ k ]) p)
         (scattered c va frames count p)) result (v', w').
Proof.
  intros Hco Hc Hva [Hcount Hf]. unfold AppleAgxUatMapPageList.
  assert (is_u64 (frames .[ 0 ])) as Hf0 by (apply Hf; lia).
  assert (page_count (step_offset count) = count) as Hpc.
  { unfold page_count, step_offset, J313_AGX_G2_PAGE_SIZE. change (2 ^ 14) with 16384.
    by apply Z_div_mult_full. }
  case_match eqn:Hb.
  { guards. eexists _, v, w. split; [done|]. apply behaves_refused; [done|done|done|right].
    intros [_ Hm]. by apply (sm_broker _ _ _ _ _ _ _ _ Hm). }
  assert (full_context0_broker = true -> c <> 0) as Hbroker.
  { intros E. rewrite E in Hb. cbn in Hb. by guards. }
  destruct (Z.eqb_spec count 0); [lia|].
  destruct (finish_wp _ _ _ _ (page_list_body_spec full_context0_broker A held (v, w) c roots va frames
    count p Hco Hc Hva Hcount Hf Hbroker)) as (result & v' & w' & -> & H).
  exists result, v', w'. split; [done|]. assert (list_outcome full_context0_broker held (v, w) c roots va
    frames count p result (v', w')) as Ho by (by destruct H as [[-> H]|H]). clear H.
  assert (Hok := good_ok _ _ (co_good _ _ Hco)).
  destruct Ho as [(-> & Hall & half & Hm & Hmp)|(He & Hr & Hn)].
  - apply behaves_done; try apply Hmp.
    + split; [done|]. apply (mappable_space full_context0_broker (v, w)); [done..|by exists half].
    + eapply mapped_space; [done|apply Hm|]. by rewrite Hpc.
  - apply behaves_refused; [by eapply consistent_restored|by apply restored_same|done|].
    destruct Hn as [?|[Hn|Hn]]; [by left|right; by intros [? _]|right]. intros [_ Hm].
    apply Hn. by apply (mappable_space full_context0_broker (v, w)).
Qed.

(** An address inside a mapped range. *)
Lemma range_address c va pa len p k :
  0 <= c -> is_u64 va -> is_u64 pa -> range_valid c va pa len p (half_of va) -> 0 <= k < page_count len ->
  is_u64 (va + step_offset k) /\ (va + step_offset k) mod 2 ^ 14 = 0 /\
  ~ (2 ^ 39 <= va + step_offset k < high_base) /\ half_of (va + step_offset k) = half_of va /\
  page_number (va + step_offset k) = page_number va + k.
Proof.
  intros Hc Hva Hpa Hv Hk.
  destruct (range_pages c va pa len p (half_of va)) as [[_ Hpn] _]; [done..|].
  destruct (range_offset c va pa len p (half_of va)) with (k := k) as [Eo _]; [done..|].
  specialize (Hpn k Hk). rewrite Eo in Hpn.
  destruct (range_steps c va pa len p (half_of va)) as (_ & _ & Hlen); [done..|].
  assert (0 <= step_offset k < len) as Hlt.
  { rewrite Hlen. unfold step_offset, J313_AGX_G2_PAGE_SIZE. lia. }
  destruct Hv as (_ & _ & _ & Hal & _ & _ & Hend & _ & Hh). split_and!; [|..|done].
  - unfold fits in *. lia.
  - unfold step_offset, J313_AGX_G2_PAGE_SIZE. change (2 ^ 14) with 16384 in *. by rewrite Z_mod_plus_full.
  - unfold high_base, half_of, fits in *. change (2 ^ 39) with 549755813888 in *.
    change (2 ^ 64) with 18446744073709551616 in *. destruct Hh as [[_ ?]|[_ ?]]; lia.
  - unfold half_of in *. change (2 ^ 39) with 549755813888 in *. unfold fits in *.
    change (2 ^ 64) with 18446744073709551616 in *.
    destruct (Z.ltb_spec va 549755813888), (Z.ltb_spec (va + step_offset k) 549755813888); try done;
      destruct Hh as [[? ?]|[? ?]]; done || lia.
Qed.

(** Looking up a page that was just mapped. *)
Lemma resolve_mapped s c roots va pa len p m v1 w1 k x y :
  0 <= c -> is_u64 va -> is_u64 pa -> range_valid c va pa len p (half_of va) ->
  mapped held s (base_of roots va) (page_number va) (page_count len)
    (fun k => page_pte c (pa + step_offset k) p) m (v1, w1) ->
  0 <= k < page_count len -> pa + step_offset k <> 0 ->
  AppleAgxUatResolvePage c (Some roots) (va + step_offset k) (Some v1) (Some x) (Some y) =
    (AppleAgxUatResultOk, Some (pa + step_offset k), Some (page_pte c (pa + step_offset k) p)).
Proof.
  intros Hc Hva Hpa Hv Hmp Hk Hne.
  destruct (range_address c va pa len p k Hc Hva Hpa Hv Hk) as (Hu & Hal & Hhole & Hhalf & Hpn).
  destruct (range_context c va pa len p (half_of va)) as [Hc64 Hp]; [done..|].
  destruct (range_pages c va pa len p (half_of va)) as [[Hn _] Hend]; [done..|].
  rewrite (resolve_spec v1 w1) by (done || apply Hmp).
  rewrite !bool_decide_false by (done || lia || tauto). unfold base_of. rewrite Hhalf, Hpn.
  fold (base_of roots va). assert (Hview := mp_view _ _ _ _ _ _ _ _ Hmp). cbn [fst] in Hview.
  rewrite Hview by (unfold is_page; lia). rewrite decide_True by lia.
  replace (page_number va + k - page_number va) with k by lia.
  apply resolved_pte; try done. by apply (range_frame c va pa len p (half_of va)).
Qed.




End owner.

End Owner.
