(* ===== verification/UatDemo.v ===== *)
(** * A page allocator that keeps its promise

    The concrete allocator the witnesses of UatCalls.v run: it hands out consecutive
    page frames, zeroed, and remembers which are out. *)

From stdpp Require Import gmap sets.
From S2P Require Import Prelude Arrays Bytes Uat ErrorState UatTable UatHeap UatOps.
Import Uat Table Heap Ops.

Module Demo.

(** The frames given out, and the next one. *)
Definition bump_state : Type := list Z * Z.
Definition bump_held (w : bump_state) : gset Z := list_to_set w.1.

Definition bump_page (pa : Z) (candidate : APPLE_AGX_UAT_PAGE) : APPLE_AGX_UAT_PAGE :=
  {| pg_PhysicalAddress := pa; Entries := Some {| tb_address := pa; tb_words := replicate 2048 0 |};
     Level := Level candidate |}.

Definition bump : APPLE_AGX_UAT_ALLOCATOR bump_state := {|
  AllocatePage := Some (fun w candidate =>
    if bool_decide (w.2 ∈ w.1) || negb ((0 <=? w.2) && (w.2 <? 2 ^ 40)) then (false, candidate, w)
    else (true, bump_page w.2 candidate, (w.2 :: w.1, w.2 + 0x4000)));
  ReleasePage := Some (fun w page => (filter (fun pa => pa <> pg_PhysicalAddress page) w.1, w.2));
|}.

#[export] Instance bump_laws : AllocatorLaws bump bump_held.
Proof.
  split.
  - eexists. split; [done|]. intros w candidate status page w'. cbv beta.
    destruct (bool_decide (w.2 ∈ w.1)) eqn:Hin; cbn [orb]; [by intros [= <- <- <-]|].
    destruct (Z.leb_spec 0 w.2), (Z.ltb_spec w.2 (2 ^ 40)); cbn [andb negb];
      intros [= <- <- <-]; try done.
    apply bool_decide_eq_false in Hin. split_and!.
    + unfold fits. cbn. change (2 ^ 40) with 1099511627776 in *. change (2 ^ 64) with 18446744073709551616. lia.
    + unfold bump_held. cbn. by rewrite elem_of_list_to_set.
    + done.
    + intros t Ht. cbn [bump_page Entries] in Ht. injection Ht as <-. by vm_compute.
  - eexists. split; [done|]. intros w page _. unfold bump_held. cbn. apply set_eq. intros a.
    rewrite elem_of_difference, !elem_of_list_to_set, list_elem_of_filter. set_solver.
Qed.

(** An inventory of eight pages and four mappings, empty. *)
Definition blank : APPLE_AGX_UAT_INVENTORY :=
  {| Pages := Some (replicate 8 page_zero); PageCapacity := 8; PageCount := 0;
     Mappings := Some (replicate 4 mapping_zero); MappingCapacity := 4; MappingCount := 0 |}.
Definition bump_start : bump_state := ([], 0x800000000).

Definition demo_create := AppleAgxUatCreateAddressSpace false 1 (Some bump) (Some blank)
  (Some {| Ttbr0PhysicalAddress := 7; Ttbr1PhysicalAddress := 7 |}) bump_start.
Definition demo_roots : APPLE_AGX_UAT_ROOTS :=
  {| Ttbr0PhysicalAddress := 0x800000000; Ttbr1PhysicalAddress := 0x800004000 |}.
Definition demo_inventory : APPLE_AGX_UAT_INVENTORY := default blank demo_create.1.1.2.
Definition demo_world : bump_state := demo_create.2.

(** Three pages across a table boundary, and a range in the other half. *)
Definition demo_range : APPLE_AGX_UAT_RANGE :=
  {| rg_VirtualAddress := 0x1ffc000; rg_PhysicalAddress := 0x900000000; rg_Length := 0xc000;
     rg_Protection := AppleAgxUatGpuSharedReadWrite |}.
Definition demo_high : APPLE_AGX_UAT_RANGE :=
  {| rg_VirtualAddress := 0xffffff8000000000; rg_PhysicalAddress := 0x910000000; rg_Length := 0x4000;
     rg_Protection := AppleAgxUatGpuSharedReadWrite |}.
End Demo.
