(* ===== verification/UatCalls.v ===== *)
(** * The entry points of the page tables

    Every public call of apple_agx_uat_table.c against one specification: what it needs
    ([enabled]) and what it does to the abstract space ([effect]).  The theorems: each
    call refines it, errors change nothing, every reachable owner is consistent and owns
    exactly its own pages, mapping then unmapping is the identity, a mapped page
    resolves to its frame, and destroying gives every page back. *)

From stdpp Require Import gmap sets.
From S2P Require Import Prelude Arrays Bytes Uat ErrorState UatTable.
From S2P Require Import UatHeap UatOps UatMap UatSpace UatPrune UatUnmap UatSpec UatBatch UatReplace UatOwner UatDemo.
Import Uat Table Heap Ops Map Space Prune Unmap Spec Batch Replace Owner Demo.

Module Calls.

(** ** Calls *)

Inductive uat_call :=
  | MapCall (c : Z) (roots : APPLE_AGX_UAT_ROOTS) (rg : APPLE_AGX_UAT_RANGE)
  | MapPageListCall (c : Z) (roots : APPLE_AGX_UAT_ROOTS) (va : Z) (frames : list Z) (count p : Z)
  | UnmapCall (c : Z) (roots : APPLE_AGX_UAT_ROOTS) (va len : Z)
  | MapBatchCall (c : Z) (roots : APPLE_AGX_UAT_ROOTS) (rs : list APPLE_AGX_UAT_RANGE) (count : Z)
  | UnmapBatchCall (c : Z) (roots : APPLE_AGX_UAT_ROOTS) (rs : list APPLE_AGX_UAT_RANGE) (count : Z)
  | ReplaceBatchCall (c : Z) (roots : APPLE_AGX_UAT_ROOTS) (olds news : list APPLE_AGX_UAT_RANGE) (count : Z)
  | ReplacePageCall (c : Z) (roots : APPLE_AGX_UAT_ROOTS) (rs : list APPLE_AGX_UAT_RANGE) (count pa p : Z).

(** The C types of the arguments. *)
Definition call_typed (x : uat_call) : Prop :=
  match x with
  | MapCall c _ rg => 0 <= c /\ range_typed rg
  | MapPageListCall c _ va frames count _ => 0 <= c /\ is_u64 va /\ frames_typed frames count
  | UnmapCall c _ va len => 0 <= c /\ is_u64 va /\ is_u64 len
  | MapBatchCall c _ rs count | UnmapBatchCall c _ rs count => 0 <= c /\ ranges_typed rs count
  | ReplaceBatchCall c _ olds news count => 0 <= c /\ ranges_typed olds count /\ ranges_typed news count
  | ReplacePageCall c _ rs count pa _ => 0 <= c /\ ranges_typed rs count /\ is_u64 pa
  end.

Definition enabled (full_context0_broker : bool) (x : uat_call) : space -> Prop :=
  match x with
  | MapCall c roots rg => range_mappable full_context0_broker c roots rg
  | MapPageListCall c roots va frames count p =>
      list_mappable full_context0_broker c roots va frames count p
  | UnmapCall c roots va len => sp_unmappable full_context0_broker c roots va len (fun _ => True)
  | MapBatchCall c roots rs count => sp_all_mappable full_context0_broker c roots (listed rs count)
  | UnmapBatchCall c roots rs count => all_unmappable full_context0_broker c roots rs count
  | ReplaceBatchCall c roots olds news count =>
      replaceable full_context0_broker c roots olds (fun i => news .[ i ]) count
  | ReplacePageCall c roots rs count pa p =>
      replaceable full_context0_broker c roots rs (fun i => repointed pa p (rs .[ i ])) count
  end.

Definition effect (x : uat_call) : space -> space :=
  match x with
  | MapCall c roots rg => sp_map_range c roots rg
  | MapPageListCall c roots va frames count p =>
      sp_map roots va (step_offset count) (fun k => page_pte c (frames .[ k ]) p)
        (scattered c va frames count p)
  | UnmapCall c roots va len => sp_unmap c roots va len
  | MapBatchCall c roots rs count => sp_maps c roots (listed rs count)
  | UnmapBatchCall c roots rs count => sp_unmaps c roots (listed rs count)
  | ReplaceBatchCall c roots olds news count =>
      sp_replaces c roots (fun i => news .[ i ]) (fun i => range_pte c (news .[ i ]))
        J313_AGX_G2_PAGE_SIZE count
  | ReplacePageCall c roots rs count pa p =>
      sp_replaces c roots (fun i => repointed pa p (rs .[ i ])) (fun _ _ => page_pte c pa p) 0 count
  end.

Section calls.
Context {World : Type} (full_context0_broker : bool).
Context (A : APPLE_AGX_UAT_ALLOCATOR World) (held : World -> gset Z) `{!AllocatorLaws A held}.
Implicit Types (v : APPLE_AGX_UAT_INVENTORY) (w : World) (x : uat_call).

Definition run x v w : APPLE_AGX_UAT_RESULT * ptr APPLE_AGX_UAT_INVENTORY * World :=
  match x with
  | MapCall c roots rg =>
      AppleAgxUatMap full_context0_broker c (Some roots) (rg_VirtualAddress rg) (rg_PhysicalAddress rg)
        (rg_Length rg) (rg_Protection rg) (Some A) (Some v) w
  | MapPageListCall c roots va frames count p =>
      AppleAgxUatMapPageList full_context0_broker c (Some roots) va (Some frames) count p (Some A) (Some v) w
  | UnmapCall c roots va len =>
      AppleAgxUatUnmap full_context0_broker c (Some roots) va len (Some A) (Some v) w
  | MapBatchCall c roots rs count =>
      AppleAgxUatMapBatch full_context0_broker c (Some roots) (Some rs) count (Some A) (Some v) w
  | UnmapBatchCall c roots rs count =>
      AppleAgxUatUnmapBatch full_context0_broker c (Some roots) (Some rs) count (Some A) (Some v) w
  | ReplaceBatchCall c roots olds news count =>
      AppleAgxUatReplaceBatch full_context0_broker c (Some roots) (Some olds) (Some news) count (Some A)
        (Some v) w
  | ReplacePageCall c roots rs count pa p =>
      AppleAgxUatReplaceBatchWithPage full_context0_broker c (Some roots) (Some rs) count pa p (Some A)
        (Some v) w
  end.

(** The one call that can stop part of the way. *)
Definition partly_done x (s : owner (World := World)) (result : APPLE_AGX_UAT_RESULT)
    (s' : owner (World := World)) : Prop :=
  match x with
  | UnmapBatchCall c roots rs count =>
      cut_short full_context0_broker held c roots rs count s result s'
  | _ => False
  end.

Lemma run_behaves x v w :
  consistent held (v, w) -> call_typed x ->
  exists result v' w', run x v w = (result, Some v', w') /\
    (behaves held (v, w) (enabled full_context0_broker x (space_of v)) (effect x) result (v', w') \/
     partly_done x (v, w) result (v', w')).
Proof.
  intros Hco.
  assert (forall r0 e f, (exists result v' w', r0 = (result, Some v', w') /\
      behaves held (v, w) e f result (v', w')) ->
    exists result v' w', r0 = (result, Some v', w') /\
      (behaves held (v, w) e f result (v', w') \/ partly_done x (v, w) result (v', w'))) as Hleft.
  { intros r0 e f (result & v' & w' & E & H). exists result, v', w'. split; [done|by left]. }
  destruct x; cbn [call_typed run enabled effect].
  - intros [Hc (Hva & Hpa & Hlen)]. apply Hleft.
    destruct (map_spec full_context0_broker A held v w c roots _ _ _
      (rg_Protection rg) Hco Hc Hva Hpa Hlen) as (result & v' & w' & -> & H).
    exists result, v', w'. split; [done|]. by apply map_outcome_behaves in H.
  - intros (Hc & Hva & Hf). apply Hleft. by apply page_list_spec.
  - intros (Hc & Hva & Hlen). apply Hleft.
    destruct (unmap_spec full_context0_broker A held v w c roots _ _ Hco Hc Hva Hlen)
      as (result & v' & w' & -> & H).
    exists result, v', w'. split; [done|]. by apply unmap_outcome_behaves in H.
  - intros [Hc Hr]. apply Hleft. by apply map_batch_spec.
  - intros [Hc Hr]. by apply unmap_batch_spec.
  - intros (Hc & Ho & Hn). apply Hleft. by apply replace_batch_spec.
  - intros (Hc & Hr & Hpa). apply Hleft. by apply replace_batch_with_page_spec.
Qed.

Lemma run_keeps x v w :
  consistent held (v, w) -> call_typed x ->
  exists result v' w', run x v w = (result, Some v', w') /\ consistent held (v', w') /\
    others held (v', w') = others held (v, w).
Proof.
  intros Hco Hty. destruct (run_behaves x v w Hco Hty) as (result & v' & w' & E & H).
  exists result, v', w'. split; [done|]. destruct H as [(Hco' & Ho & _)|H]; [done|].
  destruct x; try done. by destruct H as (_ & Hco' & Ho & _).
Qed.

(** ** Owners as a component *)

Definition empty_owner (given_out : gset Z) (s : owner (World := World)) : Prop :=
  inv_ok s.1 /\ PageCount s.1 = 0 /\ MappingCount s.1 = 0 /\ held s.2 = given_out.

Inductive owner_step (s s' : owner (World := World)) : Prop :=
  | create_step c roots result roots' :
      0 <= c ->
      AppleAgxUatCreateAddressSpace full_context0_broker c (Some A) (Some s.1) (Some roots) s.2 =
        (result, Some s'.1, Some roots', s'.2) -> owner_step s s'
  | call_step x result :
      call_typed x -> run x s.1 s.2 = (result, Some s'.1, s'.2) -> owner_step s s'
  | destroy_step :
      AppleAgxUatDestroy (Some A) (Some s.1) s.2 = (Some s'.1, s'.2) -> owner_step s s'.

(** Consistent, with every page but its own left to whoever had it at the start. *)
Definition owner_inv (given_out : gset Z) (s : owner (World := World)) : Prop :=
  consistent held s /\ others held s = given_out.

Lemma empty_owner_inv given_out s : empty_owner given_out s -> owner_inv given_out s.
Proof.
  intros (Hok & Hp & Hm & Hh).
  assert (live s.1 = []) as Hl by (unfold live, prefix_list; by rewrite Hp).
  assert (live_mappings s.1 = []) as Hlm by (unfold live_mappings, prefix_list; by rewrite Hm).
  split; [split; [split|..]|].
  - done.
  - rewrite Hl. split; [constructor|constructor|..]; intros l pa i *; cbn; intros; done.
  - rewrite Hl. unfold owned_by. cbn. set_solver.
  - rewrite Hlm. apply maps_ok_nil.
  - rewrite Hl. intros p Hin. by apply not_elem_of_nil in Hin.
  - unfold others. rewrite Hl, Hh. unfold owned_by. cbn. set_solver.
Qed.

Lemma owner_step_inv given_out s s' : owner_inv given_out s -> owner_step s s' -> owner_inv given_out s'.
Proof.
  destruct s as [v w], s' as [v' w']. intros [Hco Ho] [c roots result roots' Hc E|x result Hty E|E]; cbn [fst snd] in E.
  - destruct (create_spec full_context0_broker A held v w c roots Hco Hc) as (result2 & v2 & roots2 & w2 & E2 & Hout).
    rewrite E in E2. injection E2 as <- <- <- <-. destruct Hout as [[_ Hcr]|(_ & Hs & Hco' & _)].
    + split; [apply Hcr|]. by rewrite (cs_others _ _ _ _ Hcr).
    + split; [done|]. by rewrite (same_others held (v, w)).
  - destruct (run_keeps x v w Hco Hty) as (result2 & v2 & w2 & E2 & Hco' & Ho').
    rewrite E in E2. injection E2 as <- <- <-. split; [done|congruence].
  - destruct (destroy_spec A held v w Hco) as (v2 & w2 & E2 & Hco' & Hp & _ & Hh & _).
    rewrite E in E2. injection E2 as <- <-. split; [done|]. rewrite <- Ho, <- Hh. unfold others. cbn [fst snd].
    assert (live v' = []) as -> by (unfold live, prefix_list; by rewrite Hp). unfold owned_by. cbn. set_solver.
Qed.

Definition owner_component (given_out : gset Z) : Component (owner (World := World)) := {|
  comp_init := empty_owner given_out;
  comp_step := owner_step;
  comp_inv := owner_inv given_out;
  comp_init_inv := empty_owner_inv given_out;
  comp_step_inv := owner_step_inv given_out;
|}.
End calls.

(** ** Properties *)

Section properties.
Context {World : Type} (full_context0_broker : bool).
Context (A : APPLE_AGX_UAT_ALLOCATOR World) (held : World -> gset Z) `{!AllocatorLaws A held}.
Implicit Types (v : APPLE_AGX_UAT_INVENTORY) (w : World) (x : uat_call).

Abbreviation run := (run full_context0_broker A).

(** C1: every mapping, unmapping, batch and replacement call refines the abstract space.
    Run on a consistent owner it always returns, with the owner consistent and the pages
    of others untouched.  If it returns Ok the call was enabled (the range valid, the
    records and roots there, the target pages free or present as the call needs) and the
    leaves, the recorded mappings and the roots changed by exactly its effect.  Otherwise
    the tables, the mappings and the pages given out are what they were, and either pages
    or records ran out or the call was not enabled, with one exception: a batch of
    unmappings whose ranges are all mapped when it begins can fail at a later range, which is
    mapped no more by then.  The ranges before it are then unmapped and nothing else has
    changed; and that range repeats the address of one before it, unless both halves of the
    address space have the same root. *)
Theorem uat_calls_refine x v w :
  consistent held (v, w) -> call_typed x ->
  exists result v' w', run x v w = (result, Some v', w') /\
    (behaves held (v, w) (enabled full_context0_broker x (space_of v)) (effect x) result (v', w') \/
     partly_done full_context0_broker held x (v, w) result (v', w')).
Proof. apply (run_behaves full_context0_broker A held). Qed.

(** C2: whatever calls are made, in whatever order and whether they fail or not, the
    tables are a forest (every entry empty or the link to one table of the next level, no
    table with two parents), no table below a root is empty, the recorded mappings of a
    context do not overlap, every table page is one the allocator gave out, and all the
    other pages given out are those that were out at the start: nothing leaks and nothing
    is released twice. *)
Theorem uat_owner_invariant given_out (s : owner (World := World)) :
  @reachable _ (owner_component full_context0_broker A held given_out) s ->
  wf (live s.1) /\ pruned (live s.1) /\ maps_ok (live_mappings s.1) /\
  owned_by (live s.1) ⊆ held s.2 /\ held s.2 ∖ owned_by (live s.1) = given_out.
Proof.
  intros Hr. apply reachable_inv in Hr as [Hco Ho]. destruct Hco as [[_ Hwf Hown] Hm Hp].
  by split_and!.
Qed.

(** C3: a range that was mapped can be unmapped, and that gives back the very tables,
    mappings and pages given out there were before, up to the order of the pages in the
    inventory; tables the mapping created are released again. *)
Theorem map_unmap_roundtrip v w c roots rg v1 w1 :
  consistent held (v, w) -> 0 <= c -> range_typed rg ->
  run (MapCall c roots rg) v w = (AppleAgxUatResultOk, Some v1, w1) ->
  exists v2 w2,
    run (UnmapCall c roots (rg_VirtualAddress rg) (rg_Length rg)) v1 w1 =
      (AppleAgxUatResultOk, Some v2, w2) /\
    live v2 ≡ₚ live v /\ live_mappings v2 = live_mappings v /\ held w2 = held w /\
    consistent held (v2, w2).
Proof.
  intros Hco Hc Hrg Hrun. destruct (Hrg) as (Hva & Hpa & Hlen). cbn [Calls.run] in Hrun |- *.
  destruct (map_spec full_context0_broker A held v w c roots _ _ _ (rg_Protection rg) Hco Hc Hva Hpa Hlen)
    as (result & v' & w' & E & Hm).
  rewrite E in Hrun. injection Hrun as -> -> ->. destruct Hm as [(_ & half & Hma & Hmp)|(? & _)]; [|done].
  destruct (mapped_unmappable full_context0_broker held c roots rg (v, w) (v1, w1)) as (half' & Hmp' & Hu);
    [done|done|by exists half|].
  assert (Hco1 := mp_consistent _ _ _ _ _ _ _ _ Hmp).
  destruct (unmap_spec full_context0_broker A held v1 w1 c roots _ _ Hco1 Hc Hva Hlen)
    as (result & v2 & w2 & E2 & [(-> & j & half2 & Hu2 & Hum)|(_ & _ & Hn)]).
  2: { exfalso. apply Hn. eauto. }
  destruct (unmappable_unique full_context0_broker held _ _ _ _ _ _ _ _ _ Hco1 Hc Hva Hu Hu2) as [<- <-].
  destruct (unmapped_returns held (v, w) _ _ _ _ _ (v1, w1) (v2, w2) Hco Hmp' Hum) as [H1 H2 H3 _].
  exists v2, w2. split_and!; try done. apply Hum.
Qed.

(** After a successful map, looking up any page of the range gives its frame and the
    descriptor encoded for it.  (Frame 0 is mapped but never resolves.) *)
Theorem mapped_page_resolves v w c roots rg v1 w1 k (out_pa out_pte : Z) :
  consistent held (v, w) -> 0 <= c -> range_typed rg ->
  run (MapCall c roots rg) v w = (AppleAgxUatResultOk, Some v1, w1) ->
  0 <= k < page_count (rg_Length rg) -> rg_PhysicalAddress rg + k * J313_AGX_G2_PAGE_SIZE <> 0 ->
  AppleAgxUatResolvePage c (Some roots) (rg_VirtualAddress rg + k * J313_AGX_G2_PAGE_SIZE)
    (Some v1) (Some out_pa) (Some out_pte) =
  (AppleAgxUatResultOk, Some (rg_PhysicalAddress rg + k * J313_AGX_G2_PAGE_SIZE),
   Some (page_pte c (rg_PhysicalAddress rg + k * J313_AGX_G2_PAGE_SIZE) (rg_Protection rg))).
Proof.
  intros Hco Hc (Hva & Hpa & Hlen) Hrun Hk Hne. cbn [Calls.run] in Hrun.
  destruct (map_spec full_context0_broker A held v w c roots _ _ _ (rg_Protection rg) Hco Hc Hva Hpa Hlen)
    as (result & v' & w' & E & Hm).
  rewrite E in Hrun. injection Hrun as -> -> ->. destruct Hm as [(_ & half & Hma & Hmp)|(? & _)]; [|done].
  assert (Hv := ma_range _ _ _ _ _ _ _ _ _ Hma). assert (half = half_of (rg_VirtualAddress rg)) as ->
    by by eapply half_of_valid.
  by apply (resolve_mapped held (v, w) c roots _ _ (rg_Length rg) _ (range_mapping c rg) v1 w1).
Qed.
(** Creating a context's roots either adds two distinct empty tables, fresh from the
    allocator, that become roots without changing any other lookup or mapping, or fails
    with cleared roots, the first page given back and everything as it was; it fails only
    for want of pages or for a context that is not supported. *)
Theorem create_address_space_exact v w c roots0 :
  consistent held (v, w) -> 0 <= c ->
  exists result v' roots w',
    AppleAgxUatCreateAddressSpace full_context0_broker c (Some A) (Some v) (Some roots0) w =
      (result, Some v', Some roots, w') /\
    create_outcome full_context0_broker held (v, w) c result roots (v', w').
Proof. apply (create_spec full_context0_broker A held). Qed.

(** destroying an inventory empties it and gives back exactly the pages it owned. *)
Theorem destroy_returns_every_page v w :
  consistent held (v, w) ->
  exists v' w', AppleAgxUatDestroy (Some A) (Some v) w = (Some v', w') /\
    PageCount v' = 0 /\ MappingCount v' = 0 /\ held w' = held w ∖ owned_by (live v).
Proof.
  intros Hco. destruct (destroy_spec A held v w Hco) as (v' & w' & E & _ & Hp & Hm & Hh & _).
  by exists v', w'.
Qed.

(** pruning stops, with no empty table of level 1 or 2 left, for any well-formed
    inventory; every lookup and mapping stays, and only own pages are released. *)
Theorem prune_leaves_no_empty_table (s : owner (World := World)) :
  good held s ->
  let s' := AppleAgxUatPruneEmptyTables A s in
  find_empty 1 s'.1 = None /\ find_empty 2 s'.1 = None /\
  (forall r n, is_page n -> view (live s'.1) r n = view (live s.1) r n) /\
  live_mappings s'.1 = live_mappings s.1 /\
  held s'.2 ∖ owned_by (live s'.1) = held s.2 ∖ owned_by (live s.1).
Proof.
  intros Hg s'. destruct (prune_empty_tables A held s Hg) as [Hp Hpr]. fold s' in Hp, Hpr.
  assert (Hnone : forall l, l <> 0 -> find_empty l s'.1 = None).
  { intros l Hl. assert (Hg' := pn_good _ _ _ Hp).
    assert (Hf := find_empty_spec s'.1 l (good_ok _ _ Hg') (wf_pages _ (good_wf _ _ Hg'))).
    destruct (find_empty l s'.1) as [j|]; [|done]. destruct Hf as (Hj & Hlj & He). exfalso.
    apply (Hpr (live s'.1) .[ j ]); [|by rewrite Hlj|done]. apply get_elem.
    by rewrite zlen_live by apply Hg'. }
  split_and!; [by apply Hnone|by apply Hnone|apply Hp| |apply Hp].
  apply same_live_mappings, Hp.
Qed.

End properties.

(** *** Witnesses *)

Abbreviation demo_run := (run false bump).

Lemma blank_empty : empty_owner bump_held ∅ (blank, bump_start).
Proof.
  unfold empty_owner, bump_held. cbn. by split_and!.
Qed.

Lemma demo_consistent : consistent bump_held (demo_inventory, demo_world).
Proof.
  assert (Hi := empty_owner_inv bump bump_held ∅ (blank, bump_start) blank_empty).
  destruct (owner_step_inv false bump bump_held ∅ (blank, bump_start) (demo_inventory, demo_world) Hi)
    as [Hco _]; [|done].
  apply (create_step false bump _ (demo_inventory, demo_world) 1
    {| Ttbr0PhysicalAddress := 7; Ttbr1PhysicalAddress := 7 |} AppleAgxUatResultOk demo_roots);
    [done|by vm_compute].
Qed.

Lemma demo_range_typed : range_typed demo_range.
Proof. unfold range_typed, fits. cbn. change (2 ^ 64) with 18446744073709551616. lia. Qed.

Lemma demo_ranges_typed : ranges_typed [demo_range; demo_high] 2.
Proof.
  split; [by vm_compute|]. intros i Hi. assert (i = 0 \/ i = 1) as [-> | ->] by lia.
  - apply demo_range_typed.
  - split_and!; split; by vm_compute.
Qed.

Definition demo_mapped := Eval vm_compute in demo_run (MapCall 1 demo_roots demo_range) demo_inventory demo_world.
Definition demo_mapped_inventory : APPLE_AGX_UAT_INVENTORY := default blank demo_mapped.1.2.

Lemma demo_mapped_ok :
  demo_run (MapCall 1 demo_roots demo_range) demo_inventory demo_world =
  (AppleAgxUatResultOk, Some demo_mapped_inventory, demo_mapped.2).
Proof. by vm_compute. Qed.

Lemma demo_twice_typed : ranges_typed [demo_range; demo_range] 2.
Proof.
  split; [by vm_compute|]. intros i Hi. assert (i = 0 \/ i = 1) as [-> | ->] by lia;
    apply demo_range_typed.
Qed.

Lemma demo_mapped_consistent : consistent bump_held (demo_mapped_inventory, demo_mapped.2).
Proof.
  destruct (run_keeps false bump bump_held (MapCall 1 demo_roots demo_range)
    demo_inventory demo_world demo_consistent) as (result & v' & w' & E & Hco & _).
  { split; [done|apply demo_range_typed]. }
  assert (demo_run (MapCall 1 demo_roots demo_range) demo_inventory demo_world =
    (result, Some v', w')) as E' by exact E.
  rewrite demo_mapped_ok in E'. by injection E' as _ <- <-.
Qed.

(** A batch that names one range twice is cut short. *)
Lemma uat_calls_refine_witness : exists result v' w',
  demo_run (UnmapBatchCall 1 demo_roots [demo_range; demo_range] 2) demo_mapped_inventory
    demo_mapped.2 = (result, Some v', w') /\
  (behaves bump_held (demo_mapped_inventory, demo_mapped.2)
     (all_unmappable false 1 demo_roots [demo_range; demo_range] 2 (space_of demo_mapped_inventory))
     (sp_unmaps 1 demo_roots (listed [demo_range; demo_range] 2)) result (v', w') \/
   cut_short false bump_held 1 demo_roots [demo_range; demo_range] 2
     (demo_mapped_inventory, demo_mapped.2) result (v', w')).
Proof.
  apply (uat_calls_refine false bump bump_held
    (UnmapBatchCall 1 demo_roots [demo_range; demo_range] 2)).
  - apply demo_mapped_consistent.
  - split; [done|apply demo_twice_typed].
Defined.

Lemma uat_owner_invariant_witness :
  wf (live demo_mapped_inventory) /\ pruned (live demo_mapped_inventory) /\
  maps_ok (live_mappings demo_mapped_inventory) /\
  owned_by (live demo_mapped_inventory) ⊆ bump_held demo_mapped.2 /\
  bump_held demo_mapped.2 ∖ owned_by (live demo_mapped_inventory) = ∅.
Proof.
  apply (uat_owner_invariant false bump bump_held ∅ (demo_mapped_inventory, demo_mapped.2)).
  exists (blank, bump_start). split; [apply blank_empty|].
  eapply rtc_l; [|apply rtc_once].
  - apply (create_step false bump _ (demo_inventory, demo_world) 1
      {| Ttbr0PhysicalAddress := 7; Ttbr1PhysicalAddress := 7 |} AppleAgxUatResultOk demo_roots);
      [done|by vm_compute].
  - apply (call_step false bump _ _ (MapCall 1 demo_roots demo_range) AppleAgxUatResultOk).
    + split; [done|apply demo_range_typed].
    + apply demo_mapped_ok.
Defined.

Lemma map_unmap_roundtrip_witness : exists v2 w2,
  demo_run (UnmapCall 1 demo_roots 0x1ffc000 0xc000) demo_mapped_inventory demo_mapped.2 =
    (AppleAgxUatResultOk, Some v2, w2) /\
  live v2 ≡ₚ live demo_inventory /\ live_mappings v2 = live_mappings demo_inventory /\
  bump_held w2 = bump_held demo_world /\ consistent bump_held (v2, w2).
Proof.
  apply (map_unmap_roundtrip false bump bump_held demo_inventory demo_world 1 demo_roots demo_range).
  - apply demo_consistent.
  - done.
  - apply demo_range_typed.
  - apply demo_mapped_ok.
Defined.

Lemma mapped_page_resolves_witness :
  AppleAgxUatResolvePage 1 (Some demo_roots) 0x2004000 (Some demo_mapped_inventory) (Some 0) (Some 0) =
    (AppleAgxUatResultOk, Some 0x900008000, Some (page_pte 1 0x900008000 AppleAgxUatGpuSharedReadWrite)).
Proof.
  apply (mapped_page_resolves false bump bump_held demo_inventory demo_world 1 demo_roots demo_range
    demo_mapped_inventory demo_mapped.2 2 0 0).
  - apply demo_consistent.
  - done.
  - apply demo_range_typed.
  - apply demo_mapped_ok.
  - by vm_compute.
  - done.
Defined.

Lemma create_address_space_exact_witness : exists result v' roots w',
  AppleAgxUatCreateAddressSpace false 2 (Some bump) (Some demo_inventory) (Some demo_roots) demo_world =
    (result, Some v', Some roots, w') /\
  create_outcome false bump_held (demo_inventory, demo_world) 2 result roots (v', w').
Proof.
  apply (create_address_space_exact false bump bump_held demo_inventory demo_world 2 demo_roots).
  - apply demo_consistent.
  - done.
Defined.

Lemma destroy_returns_every_page_witness : exists v' w',
  AppleAgxUatDestroy (Some bump) (Some demo_inventory) demo_world = (Some v', w') /\
  PageCount v' = 0 /\ MappingCount v' = 0 /\
  bump_held w' = bump_held demo_world ∖ owned_by (live demo_inventory).
Proof.
  apply (destroy_returns_every_page bump bump_held demo_inventory demo_world), demo_consistent.
Defined.

Lemma prune_leaves_no_empty_table_witness :
  let s := (demo_inventory, demo_world) in
  let s' := AppleAgxUatPruneEmptyTables bump s in
  find_empty 1 s'.1 = None /\ find_empty 2 s'.1 = None /\
  (forall r n, is_page n -> view (live s'.1) r n = view (live s.1) r n) /\
  live_mappings s'.1 = live_mappings s.1 /\
  bump_held s'.2 ∖ owned_by (live s'.1) = bump_held s.2 ∖ owned_by (live s.1).
Proof.
  apply (prune_leaves_no_empty_table bump bump_held (demo_inventory, demo_world)), demo_consistent.
Defined.

End Calls.
