(* ===== verification/Rtkit.v ===== *)
(** * RTKit management messages (shared/src/apple_agx_rtkit.c)

    [Rtkit] packs and unpacks the 64-bit management words exchanged with the GPU's
    coprocessor.  The theorems: the decoder accepts exactly the words that carry a
    management message and nothing in the bits between its fields, it loses no bit of
    them, and every encoder's word decodes to what was encoded. *)

From S2P Require Import Prelude Arrays Bytes.

Module Rtkit.

(** ** Data *)

Definition APPLE_AGX_RTKIT_INVALID_MESSAGE : Z := u64 (Z.lnot 0).
Definition APPLE_AGX_RTKIT_MANAGEMENT_TYPE_SHIFT : Z := 52.
Definition APPLE_AGX_RTKIT_MANAGEMENT_TYPE_MASK : Z := Z.shiftl 0xff 52.
Definition APPLE_AGX_RTKIT_STATE_MASK : Z := 0xffff.
Definition APPLE_AGX_RTKIT_ENDPOINT_MASK : Z := 0xff.
Definition APPLE_AGX_RTKIT_ENDPOINT_SHIFT : Z := 32.
Definition APPLE_AGX_RTKIT_FLAG_MASK : Z := 0x3.
Definition APPLE_AGX_RTKIT_HELLO_MASK : Z := 0xffffffff.
Definition APPLE_AGX_RTKIT_EPMAP_LAST_MASK : Z := Z.shiftl 1 51.
Definition APPLE_AGX_RTKIT_EPMAP_BASE_MASK : Z := Z.shiftl 0x7 32.
Definition APPLE_AGX_RTKIT_EPMAP_BITMAP_MASK : Z := 0xffffffff.
Definition APPLE_AGX_RTKIT_INITDATA_TYPE : Z := Z.shiftl 0x81 48.
Definition APPLE_AGX_RTKIT_INITDATA_ADDRESS_MASK : Z := Z.shiftl 1 44 - 1.
Definition APPLE_AGX_RTKIT_DOORBELL_TYPE : Z := Z.shiftl 0x83 48.
Definition APPLE_AGX_RTKIT_DOORBELL_CHANNEL_MASK : Z := 0xffff.

(** APPLE_AGX_RTKIT_MANAGEMENT_TYPE, which the code casts from any 8-bit field. *)
Definition AppleAgxRtkitManagementHello : Z := 1.
Definition AppleAgxRtkitManagementHelloAck : Z := 2.
Definition AppleAgxRtkitManagementPing : Z := 3.
Definition AppleAgxRtkitManagementPong : Z := 4.
Definition AppleAgxRtkitManagementStartEndpoint : Z := 5.
Definition AppleAgxRtkitManagementSetIopPower : Z := 6.
Definition AppleAgxRtkitManagementIopPowerAck : Z := 7.
Definition AppleAgxRtkitManagementEndpointMap : Z := 8.
Definition AppleAgxRtkitManagementSetApPower : Z := 0x0b.

Record APPLE_AGX_RTKIT_MANAGEMENT := {
  Type_ : Z;
  State : Z;
  Endpoint : Z;
  Flag : Z;
  MinVersion : Z;
  MaxVersion : Z;
  Last : Z;
  Base : Z;
  Bitmap : Z;
}.
#[export] Instance management_eta : Eta APPLE_AGX_RTKIT_MANAGEMENT :=
  fun d => Build_APPLE_AGX_RTKIT_MANAGEMENT (Type_ d) (State d) (Endpoint d) (Flag d)
    (MinVersion d) (MaxVersion d) (Last d) (Base d) (Bitmap d).

(** ** Operations *)

Definition AppleAgxRtkitManagementType (Type_ : Z) : Z :=
  u64 (Z.shiftl Type_ APPLE_AGX_RTKIT_MANAGEMENT_TYPE_SHIFT).

Definition AppleAgxRtkitHelloAck (MinVersion_ MaxVersion_ : Z) : Z :=
  if (MaxVersion_ <? MinVersion_) || (0xffff <? MaxVersion_)
  then APPLE_AGX_RTKIT_INVALID_MESSAGE
  else Z.lor (Z.lor (AppleAgxRtkitManagementType AppleAgxRtkitManagementHelloAck)
               (u64 (Z.shiftl MaxVersion_ 16))) MinVersion_.

Definition AppleAgxRtkitEndpointMapAck (Base_ Last_ More : Z) : Z :=
  if (7 <? Base_) || (1 <? Last_) || (1 <? More) then APPLE_AGX_RTKIT_INVALID_MESSAGE
  else Z.lor (Z.lor (Z.lor (AppleAgxRtkitManagementType AppleAgxRtkitManagementEndpointMap)
               (u64 (Z.shiftl Last_ 51))) (u64 (Z.shiftl Base_ 32))) More.

Definition AppleAgxRtkitClearManagement (Decoded : APPLE_AGX_RTKIT_MANAGEMENT)
    : APPLE_AGX_RTKIT_MANAGEMENT :=
  Decoded <| Type_ := 0 |> <| State := 0 |> <| Endpoint := 0 |> <| Flag := 0 |>
    <| MinVersion := 0 |> <| MaxVersion := 0 |> <| Last := 0 |> <| Base := 0 |>
    <| Bitmap := 0 |>.

Definition AppleAgxRtkitSetIopPower (State_ : Z) : Z :=
  if APPLE_AGX_RTKIT_STATE_MASK <? State_ then APPLE_AGX_RTKIT_INVALID_MESSAGE
  else Z.lor (AppleAgxRtkitManagementType AppleAgxRtkitManagementSetIopPower) State_.

Definition AppleAgxRtkitSetApPower (State_ : Z) : Z :=
  if APPLE_AGX_RTKIT_STATE_MASK <? State_ then APPLE_AGX_RTKIT_INVALID_MESSAGE
  else Z.lor (AppleAgxRtkitManagementType AppleAgxRtkitManagementSetApPower) State_.

Definition AppleAgxRtkitStartEndpoint (Endpoint_ Flag_ : Z) : Z :=
  if (APPLE_AGX_RTKIT_ENDPOINT_MASK <? Endpoint_) || (APPLE_AGX_RTKIT_FLAG_MASK <? Flag_)
  then APPLE_AGX_RTKIT_INVALID_MESSAGE
  else Z.lor (Z.lor (AppleAgxRtkitManagementType AppleAgxRtkitManagementStartEndpoint)
               (u64 (Z.shiftl Endpoint_ APPLE_AGX_RTKIT_ENDPOINT_SHIFT))) Flag_.

Definition AppleAgxRtkitStopEndpoint (Endpoint_ : Z) : Z :=
  AppleAgxRtkitStartEndpoint Endpoint_ 1.

Definition AppleAgxRtkitPing : Z := AppleAgxRtkitManagementType AppleAgxRtkitManagementPing.

Definition AppleAgxRtkitDoorbell (Channel : Z) : Z :=
  if APPLE_AGX_RTKIT_DOORBELL_CHANNEL_MASK <? Channel then APPLE_AGX_RTKIT_INVALID_MESSAGE
  else Z.lor APPLE_AGX_RTKIT_DOORBELL_TYPE Channel.

Definition AppleAgxRtkitInitdata (Address : Z) : Z :=
  if APPLE_AGX_RTKIT_INITDATA_ADDRESS_MASK <? Address then APPLE_AGX_RTKIT_INVALID_MESSAGE
  else Z.lor APPLE_AGX_RTKIT_INITDATA_TYPE Address.

(** [(Message & ~allowed) != 0]. *)
Definition extra_bits (Message allowed : Z) : bool :=
  negb (Z.land Message (u64 (Z.lnot allowed)) =? 0).

Definition AppleAgxRtkitDecodeManagement (Message : Z)
    (Decoded : ptr APPLE_AGX_RTKIT_MANAGEMENT) : bool * ptr APPLE_AGX_RTKIT_MANAGEMENT :=
  deref d := Decoded else (false, Decoded) in
  let d := AppleAgxRtkitClearManagement d in
  let type := Z.shiftr (Z.land Message APPLE_AGX_RTKIT_MANAGEMENT_TYPE_MASK)
                APPLE_AGX_RTKIT_MANAGEMENT_TYPE_SHIFT in
  let d := d <| Type_ := type |> in
  if (type =? AppleAgxRtkitManagementHello) || (type =? AppleAgxRtkitManagementHelloAck) then
    let allowed := Z.lor APPLE_AGX_RTKIT_MANAGEMENT_TYPE_MASK APPLE_AGX_RTKIT_HELLO_MASK in
    if extra_bits Message allowed then (false, Some d)
    else (true, Some (d <| MinVersion := Z.land Message 0xffff |>
                        <| MaxVersion := Z.land (Z.shiftr Message 16) 0xffff |>))
  else if (type =? AppleAgxRtkitManagementPing) || (type =? AppleAgxRtkitManagementPong) then
    (Message =? AppleAgxRtkitManagementType type, Some d)
  else if type =? AppleAgxRtkitManagementStartEndpoint then
    let allowed := Z.lor (Z.lor APPLE_AGX_RTKIT_MANAGEMENT_TYPE_MASK
      (Z.shiftl APPLE_AGX_RTKIT_ENDPOINT_MASK APPLE_AGX_RTKIT_ENDPOINT_SHIFT))
      APPLE_AGX_RTKIT_FLAG_MASK in
    if extra_bits Message allowed then (false, Some d)
    else (true, Some (d
      <| Endpoint := Z.land (Z.shiftr Message APPLE_AGX_RTKIT_ENDPOINT_SHIFT)
                            APPLE_AGX_RTKIT_ENDPOINT_MASK |>
      <| Flag := Z.land Message APPLE_AGX_RTKIT_FLAG_MASK |>))
  else if (type =? AppleAgxRtkitManagementSetIopPower) ||
          (type =? AppleAgxRtkitManagementIopPowerAck) ||
          (type =? AppleAgxRtkitManagementSetApPower) then
    let allowed := Z.lor APPLE_AGX_RTKIT_MANAGEMENT_TYPE_MASK APPLE_AGX_RTKIT_STATE_MASK in
    if extra_bits Message allowed then (false, Some d)
    else (true, Some (d <| State := Z.land Message APPLE_AGX_RTKIT_STATE_MASK |>))
  else if type =? AppleAgxRtkitManagementEndpointMap then
    let allowed := Z.lor (Z.lor (Z.lor APPLE_AGX_RTKIT_MANAGEMENT_TYPE_MASK
      APPLE_AGX_RTKIT_EPMAP_LAST_MASK) APPLE_AGX_RTKIT_EPMAP_BASE_MASK)
      APPLE_AGX_RTKIT_EPMAP_BITMAP_MASK in
    if extra_bits Message allowed then (false, Some d)
    else (true, Some (d
      <| Last := if negb (Z.land Message APPLE_AGX_RTKIT_EPMAP_LAST_MASK =? 0) then 1 else 0 |>
      <| Base := Z.shiftr (Z.land Message APPLE_AGX_RTKIT_EPMAP_BASE_MASK) 32 |>
      <| Bitmap := Z.land Message APPLE_AGX_RTKIT_EPMAP_BITMAP_MASK |>))
  else (false, Some (AppleAgxRtkitClearManagement d)).

Definition AppleAgxRtkitDecodeEndpoint (Selector : Z) (Endpoint_ : ptr Z) : bool * ptr Z :=
  if is_null Endpoint_ || extra_bits Selector APPLE_AGX_RTKIT_ENDPOINT_MASK
  then (false, Endpoint_)
  else (true, Some (u32 Selector)).

(** ** The message format *)

Definition cleared : APPLE_AGX_RTKIT_MANAGEMENT :=
  Build_APPLE_AGX_RTKIT_MANAGEMENT 0 0 0 0 0 0 0 0 0.

(** A management message by its meaning. *)
Inductive management :=
  | Hello (min max : Z)
  | HelloAck (min max : Z)
  | Ping
  | Pong
  | StartEndpoint (endpoint flag : Z)
  | SetIopPower (state : Z)
  | IopPowerAck (state : Z)
  | EndpointMap (last base bitmap : Z)
  | SetApPower (state : Z).

Definition management_typed (m : management) : Prop :=
  match m with
  | Hello min max | HelloAck min max => is_u16 min /\ is_u16 max
  | Ping | Pong => True
  | StartEndpoint endpoint flag => is_u8 endpoint /\ 0 <= flag < 4
  | SetIopPower state | IopPowerAck state | SetApPower state => is_u16 state
  | EndpointMap last base bitmap => 0 <= last < 2 /\ 0 <= base < 8 /\ is_u32 bitmap
  end.

(** Its word: the type at bit 52 and the fields, which do not overlap. *)
Definition management_word (m : management) : Z :=
  match m with
  | Hello min max => 1 * 2 ^ 52 + max * 2 ^ 16 + min
  | HelloAck min max => 2 * 2 ^ 52 + max * 2 ^ 16 + min
  | Ping => 3 * 2 ^ 52
  | Pong => 4 * 2 ^ 52
  | StartEndpoint endpoint flag => 5 * 2 ^ 52 + endpoint * 2 ^ 32 + flag
  | SetIopPower state => 6 * 2 ^ 52 + state
  | IopPowerAck state => 7 * 2 ^ 52 + state
  | EndpointMap last base bitmap => 8 * 2 ^ 52 + last * 2 ^ 51 + base * 2 ^ 32 + bitmap
  | SetApPower state => 11 * 2 ^ 52 + state
  end.

(** The struct the decoder fills for it. *)
Definition management_struct (m : management) : APPLE_AGX_RTKIT_MANAGEMENT :=
  match m with
  | Hello min max => cleared <| Type_ := 1 |> <| MinVersion := min |> <| MaxVersion := max |>
  | HelloAck min max => cleared <| Type_ := 2 |> <| MinVersion := min |> <| MaxVersion := max |>
  | Ping => cleared <| Type_ := 3 |>
  | Pong => cleared <| Type_ := 4 |>
  | StartEndpoint endpoint flag =>
      cleared <| Type_ := 5 |> <| Endpoint := endpoint |> <| Flag := flag |>
  | SetIopPower state => cleared <| Type_ := 6 |> <| State := state |>
  | IopPowerAck state => cleared <| Type_ := 7 |> <| State := state |>
  | EndpointMap last base bitmap =>
      cleared <| Type_ := 8 |> <| Last := last |> <| Base := base |> <| Bitmap := bitmap |>
  | SetApPower state => cleared <| Type_ := 11 |> <| State := state |>
  end.

(** ** Decoding as arithmetic *)

Definition gap_mask (l : list (Z * Z)) : Z :=
  foldr (fun '(k, n) acc => Z.lor (Z.shiftl (2 ^ n - 1) k) acc) 0 l.

(** No extra bits: every gap between the allowed fields reads zero. *)
Lemma extra_bits_spec w allowed l :
  u64 (Z.lnot allowed) = gap_mask l -> Forall (fun '(k, n) => 0 <= k /\ 0 <= n) l ->
  extra_bits w allowed = false <-> Forall (fun '(k, n) => w / 2 ^ k mod 2 ^ n = 0) l.
Proof.
  unfold extra_bits. intros ->. rewrite negb_false_iff, Z.eqb_eq.
  induction 1 as [|[k n] l [Hk Hn] Hl IH]; simpl.
  - rewrite Z.land_0_r. split; [by constructor|done].
  - rewrite Z.land_lor_distr_r, Z.lor_eq_0_iff, field_zero, Forall_cons, IH by done. done.
Qed.

Definition hello_gaps : list (Z * Z) := [(32, 20); (60, 4)].
Definition power_gaps : list (Z * Z) := [(16, 36); (60, 4)].
Definition endpoint_gaps : list (Z * Z) := [(2, 30); (40, 12); (60, 4)].
Definition map_gaps : list (Z * Z) := [(35, 16); (60, 4)].
Definition gaps_clear (w : Z) (l : list (Z * Z)) : Prop :=
  Forall (fun '(k, n) => w / 2 ^ k mod 2 ^ n = 0) l.
#[export] Instance gaps_clear_dec w l : Decision (gaps_clear w l).
Proof. unfold gaps_clear. apply Forall_dec. intros [k n]. apply _. Defined.

(** The decoder, with its masks read as quotients and remainders. *)
Definition decode_arith (w : Z) : option management :=
  let t := w / 2 ^ 52 mod 2 ^ 8 in
  if (t =? 1) || (t =? 2) then
    if bool_decide (gaps_clear w hello_gaps) then
      Some ((if t =? 1 then Hello else HelloAck) (w mod 2 ^ 16) (w / 2 ^ 16 mod 2 ^ 16))
    else None
  else if (t =? 3) || (t =? 4) then
    if w =? t * 2 ^ 52 then Some (if t =? 3 then Ping else Pong) else None
  else if t =? 5 then
    if bool_decide (gaps_clear w endpoint_gaps) then
      Some (StartEndpoint (w / 2 ^ 32 mod 2 ^ 8) (w mod 2 ^ 2))
    else None
  else if (t =? 6) || (t =? 7) || (t =? 11) then
    if bool_decide (gaps_clear w power_gaps) then
      Some ((if t =? 6 then SetIopPower
             else if t =? 7 then IopPowerAck else SetApPower) (w mod 2 ^ 16))
    else None
  else if t =? 8 then
    if bool_decide (gaps_clear w map_gaps) then
      Some (EndpointMap (w / 2 ^ 51 mod 2) (w / 2 ^ 32 mod 2 ^ 3) (w mod 2 ^ 32))
    else None
  else None.

Lemma extra_bits_decide w allowed l :
  u64 (Z.lnot allowed) = gap_mask l -> Forall (fun '(k, n) => 0 <= k /\ 0 <= n) l ->
  extra_bits w allowed = negb (bool_decide (gaps_clear w l)).
Proof.
  intros Hl Hg. pose proof (extra_bits_spec w allowed l Hl Hg) as Hs.
  case_bool_decide as Hd; simpl; [by apply Hs|]. apply not_false_iff_true. by rewrite Hs.
Qed.

Lemma gaps_nonneg l : bool_decide (Forall (fun p => 0 <= p.1 /\ 0 <= p.2) l) = true ->
  Forall (fun '(k, n) => 0 <= k /\ 0 <= n) l.
Proof.
  intros H%bool_decide_eq_true. induction H as [|[k n] l Hp Hl IH]; by constructor.
Qed.

(** A refused word may leave the type in the struct; an accepted one leaves its meaning. *)
Lemma decode_spec w d :
  is_u64 w ->
  match decode_arith w with
  | Some m => AppleAgxRtkitDecodeManagement w (Some d) = (true, Some (management_struct m))
  | None => (AppleAgxRtkitDecodeManagement w (Some d)).1 = false
  end.
Proof.
  intros Hw. unfold AppleAgxRtkitDecodeManagement, decode_arith, APPLE_AGX_RTKIT_MANAGEMENT_TYPE_SHIFT.
  rewrite (field_shiftr w 8 52 APPLE_AGX_RTKIT_MANAGEMENT_TYPE_MASK) by done.
  pose proof (Z.mod_pos_bound (w / 2 ^ 52) (2 ^ 8) ltac:(done)) as Ht.
  set (t := w / 2 ^ 52 mod 2 ^ 8) in *. clearbody t.
  rewrite (extra_bits_decide w (Z.lor _ APPLE_AGX_RTKIT_HELLO_MASK) hello_gaps),
    (extra_bits_decide w (Z.lor _ APPLE_AGX_RTKIT_FLAG_MASK) endpoint_gaps),
    (extra_bits_decide w (Z.lor _ APPLE_AGX_RTKIT_STATE_MASK) power_gaps),
    (extra_bits_decide w (Z.lor _ APPLE_AGX_RTKIT_EPMAP_BITMAP_MASK) map_gaps)
    by (reflexivity || by apply gaps_nonneg).
  unfold AppleAgxRtkitManagementHello, AppleAgxRtkitManagementHelloAck,
    AppleAgxRtkitManagementPing, AppleAgxRtkitManagementPong,
    AppleAgxRtkitManagementStartEndpoint, AppleAgxRtkitManagementSetIopPower,
    AppleAgxRtkitManagementIopPowerAck, AppleAgxRtkitManagementSetApPower,
    AppleAgxRtkitManagementEndpointMap, AppleAgxRtkitManagementType,
    APPLE_AGX_RTKIT_MANAGEMENT_TYPE_SHIFT.
  rewrite (land_low w 16 0xffff), (land_low w 16 APPLE_AGX_RTKIT_STATE_MASK),
    (land_low w 2 APPLE_AGX_RTKIT_FLAG_MASK), (land_low w 32 APPLE_AGX_RTKIT_EPMAP_BITMAP_MASK),
    (shiftr_low w 16 16), (shiftr_low w APPLE_AGX_RTKIT_ENDPOINT_SHIFT 8),
    (field_shiftr w 3 32 APPLE_AGX_RTKIT_EPMAP_BASE_MASK) by done.
  assert ((if negb (Z.land w APPLE_AGX_RTKIT_EPMAP_LAST_MASK =? 0) then 1 else 0) =
            w / 2 ^ 51 mod 2) as ->.
  { unfold APPLE_AGX_RTKIT_EPMAP_LAST_MASK. rewrite land_bit, <- Z.testbit_spec' by done.
    by destruct (Z.testbit w 51). }
  change APPLE_AGX_RTKIT_ENDPOINT_SHIFT with 32.
  assert (t = 3 \/ t = 4 -> u64 (Z.shiftl t 52) = t * 2 ^ 52) as H34
    by (intros [->| ->]; reflexivity).
  destruct (Z.eqb_spec t 1) as [->|]; [cbn [orb]; by case_bool_decide|].
  destruct (Z.eqb_spec t 2) as [->|]; [cbn [orb]; by case_bool_decide|].
  destruct (Z.eqb_spec t 3) as [->|]; [by rewrite H34 by lia; simpl; destruct (w =? _)|].
  destruct (Z.eqb_spec t 4) as [->|]; [by rewrite H34 by lia; simpl; destruct (w =? _)|].
  destruct (Z.eqb_spec t 5) as [->|]; [cbn [orb]; by case_bool_decide|].
  destruct (Z.eqb_spec t 6) as [->|]; [cbn [orb]; by case_bool_decide|].
  destruct (Z.eqb_spec t 7) as [->|]; [cbn [orb]; by case_bool_decide|].
  destruct (Z.eqb_spec t 11) as [->|]; [cbn [orb]; by case_bool_decide|].
  destruct (Z.eqb_spec t 8) as [->|]; [cbn [orb]; by case_bool_decide|done].
Qed.

Lemma gaps_clear_2 w k n k' n' :
  gaps_clear w [(k, n); (k', n')] <-> w / 2 ^ k mod 2 ^ n = 0 /\ w / 2 ^ k' mod 2 ^ n' = 0.
Proof. unfold gaps_clear. rewrite !Forall_cons. intuition. Qed.
Lemma gaps_clear_3 w k n k' n' k'' n'' :
  gaps_clear w [(k, n); (k', n'); (k'', n'')] <->
  w / 2 ^ k mod 2 ^ n = 0 /\ w / 2 ^ k' mod 2 ^ n' = 0 /\ w / 2 ^ k'' mod 2 ^ n'' = 0.
Proof. unfold gaps_clear. rewrite !Forall_cons. intuition. Qed.

(** Powers of two as literals, for lia. *)
Ltac field_pow :=
  change (2 ^ 2) with 4 in *; change (2 ^ 3) with 8 in *; change (2 ^ 4) with 16 in *;
  change (2 ^ 8) with 256 in *; change (2 ^ 12) with 4096 in *;
  change (2 ^ 16) with 65536 in *; change (2 ^ 20) with 1048576 in *;
  change (2 ^ 30) with 1073741824 in *; change (2 ^ 32) with 4294967296 in *;
  change (2 ^ 35) with 34359738368 in *; change (2 ^ 36) with 68719476736 in *;
  change (2 ^ 40) with 1099511627776 in *; change (2 ^ 44) with 17592186044416 in *;
  change (2 ^ 48) with 281474976710656 in *; change (2 ^ 51) with 2251799813685248 in *;
  change (2 ^ 52) with 4503599627370496 in *; change (2 ^ 60) with 1152921504606846976 in *;
  change (2 ^ 64) with 18446744073709551616 in *.
Ltac field_lia := unfold fits in *; field_pow; Z.to_euclidean_division_equations; lia.

Lemma decode_word m : management_typed m -> decode_arith (management_word m) = Some m.
Proof.
  unfold decode_arith.
  destruct m as [min max|min max| | |endpoint flag|state|state|last base bitmap|state];
    cbn [management_typed management_word]; intros Hm; try reflexivity.
  - replace ((1 * 2 ^ 52 + max * 2 ^ 16 + min) / 2 ^ 52 mod 2 ^ 8) with 1 by field_lia.
    cbn [Z.eqb Pos.eqb orb]. rewrite bool_decide_true by (apply gaps_clear_2; field_lia).
    do 2 f_equal; field_lia.
  - replace ((2 * 2 ^ 52 + max * 2 ^ 16 + min) / 2 ^ 52 mod 2 ^ 8) with 2 by field_lia.
    cbn [Z.eqb Pos.eqb orb]. rewrite bool_decide_true by (apply gaps_clear_2; field_lia).
    do 2 f_equal; field_lia.
  - replace ((5 * 2 ^ 52 + endpoint * 2 ^ 32 + flag) / 2 ^ 52 mod 2 ^ 8) with 5 by field_lia.
    cbn [Z.eqb Pos.eqb orb]. rewrite bool_decide_true by (apply gaps_clear_3; field_lia).
    do 2 f_equal; field_lia.
  - replace ((6 * 2 ^ 52 + state) / 2 ^ 52 mod 2 ^ 8) with 6 by field_lia.
    cbn [Z.eqb Pos.eqb orb]. rewrite bool_decide_true by (apply gaps_clear_2; field_lia).
    do 2 f_equal; field_lia.
  - replace ((7 * 2 ^ 52 + state) / 2 ^ 52 mod 2 ^ 8) with 7 by field_lia.
    cbn [Z.eqb Pos.eqb orb]. rewrite bool_decide_true by (apply gaps_clear_2; field_lia).
    do 2 f_equal; field_lia.
  - replace ((8 * 2 ^ 52 + last * 2 ^ 51 + base * 2 ^ 32 + bitmap) / 2 ^ 52 mod 2 ^ 8)
      with 8 by field_lia.
    cbn [Z.eqb Pos.eqb orb]. rewrite bool_decide_true by (apply gaps_clear_2; field_lia).
    do 2 f_equal; field_lia.
  - replace ((11 * 2 ^ 52 + state) / 2 ^ 52 mod 2 ^ 8) with 11 by field_lia.
    cbn [Z.eqb Pos.eqb orb]. rewrite bool_decide_true by (apply gaps_clear_2; field_lia).
    do 2 f_equal; field_lia.
Qed.

Lemma decode_exact w m :
  is_u64 w -> decode_arith w = Some m -> management_typed m /\ management_word m = w.
Proof.
  intros Hw. unfold decode_arith. remember (w / 2 ^ 52 mod 2 ^ 8) as t eqn:Ht.
  destruct (Z.eqb_spec t 1) as [->|]; [|destruct (Z.eqb_spec t 2) as [->|]];
    [..|destruct (Z.eqb_spec t 3) as [->|]; [|destruct (Z.eqb_spec t 4) as [->|]]];
    [..|destruct (Z.eqb_spec t 5) as [->|]; [|destruct (Z.eqb_spec t 6) as [->|]]];
    [..|destruct (Z.eqb_spec t 7) as [->|]; [|destruct (Z.eqb_spec t 11) as [->|]]];
    [..|destruct (Z.eqb_spec t 8) as [->|]; [|done]]; cbn [orb];
    (case_bool_decide as Hg || (match goal with |- context [w =? ?x] =>
       destruct (Z.eqb_spec w x) as [Hg|Hg] end)); try done;
    intros [= <-]; cbn [management_typed management_word];
    try (apply gaps_clear_2 in Hg); try (apply gaps_clear_3 in Hg); split; try done; field_lia.
Qed.

(** ** Properties *)

Lemma management_word_u64 m : management_typed m -> is_u64 (management_word m).
Proof. destruct m; cbn [management_typed management_word]; intros; field_lia. Qed.

(** the decoder and the message format agree exactly.  Every well-formed management
    message decodes to its meaning, and every 64-bit word that decodes is the word of a
    well-formed message with that meaning: no accepted word has a bit the driver does not
    look at. *)
Theorem rtkit_decode_exact w d :
  is_u64 w ->
  (forall m, management_typed m -> w = management_word m ->
     AppleAgxRtkitDecodeManagement w (Some d) = (true, Some (management_struct m))) /\
  (forall r, AppleAgxRtkitDecodeManagement w (Some d) = (true, r) ->
     exists m, management_typed m /\ w = management_word m /\ r = Some (management_struct m)).
Proof.
  intros Hw. pose proof (decode_spec w d Hw) as Hd. split.
  - intros m Hm ->. by rewrite decode_word in Hd.
  - intros r Hr. destruct (decode_arith w) as [m|] eqn:E.
    + rewrite Hr in Hd. injection Hd as ->. apply decode_exact in E as [??]; [|done].
      by exists m.
    + by rewrite Hr in Hd.
Qed.

Lemma rtkit_decode_exact_witness :
  AppleAgxRtkitDecodeManagement (management_word (EndpointMap 1 3 0xdeadbeef)) (Some cleared) =
    (true, Some (management_struct (EndpointMap 1 3 0xdeadbeef))).
Proof.
  apply (rtkit_decode_exact (management_word (EndpointMap 1 3 0xdeadbeef)) cleared);
    [by apply (bool_decide_unpack _); vm_compute|by split_and!|done].
Defined.

Lemma lor_high_low a b n :
  0 <= n -> a mod 2 ^ n = 0 -> 0 <= b < 2 ^ n -> Z.lor a b = a + b.
Proof.
  intros Hn Ha Hb. pose proof (Z.div_mod a (2 ^ n) ltac:(lia)) as E.
  rewrite Ha, Z.add_0_r in E. rewrite Z.lor_comm.
  rewrite E at 1. rewrite Z.mul_comm, <- Z.shiftl_mul_pow2, lor_shiftl by done.
  rewrite E at 2. lia.
Qed.

Lemma management_type_word t : 0 <= t < 2 ^ 8 -> AppleAgxRtkitManagementType t = t * 2 ^ 52.
Proof.
  intros. unfold AppleAgxRtkitManagementType, APPLE_AGX_RTKIT_MANAGEMENT_TYPE_SHIFT.
  rewrite Z.shiftl_mul_pow2 by done. apply wrap_id. field_lia.
Qed.

Lemma hello_ack_spec a b :
  0 <= a -> 0 <= b ->
  AppleAgxRtkitHelloAck a b =
    (if bool_decide (a <= b <= 0xffff) then management_word (HelloAck a b)
     else APPLE_AGX_RTKIT_INVALID_MESSAGE).
Proof.
  intros Ha Hb. unfold AppleAgxRtkitHelloAck. rewrite management_type_word by done.
  case_bool_decide as H.
  - destruct (Z.ltb_spec b a); [lia|]. destruct (Z.ltb_spec 0xffff b); [lia|]. cbn [orb].
    rewrite Z.shiftl_mul_pow2, (wrap_id 64 (b * _)) by (done || field_lia).
    rewrite (lor_high_low _ (b * 2 ^ 16) 52), (lor_high_low _ a 16) by field_lia. done.
  - destruct (Z.ltb_spec b a); [done|]. destruct (Z.ltb_spec 0xffff b); [done|lia].
Qed.

Lemma endpoint_map_ack_spec a b c :
  0 <= a -> 0 <= b -> 0 <= c ->
  AppleAgxRtkitEndpointMapAck a b c =
    (if bool_decide (a < 8 /\ b < 2 /\ c < 2) then management_word (EndpointMap b a c)
     else APPLE_AGX_RTKIT_INVALID_MESSAGE).
Proof.
  intros Ha Hb Hc. unfold AppleAgxRtkitEndpointMapAck. rewrite management_type_word by done.
  case_bool_decide as H.
  - destruct (Z.ltb_spec 7 a); [lia|]. destruct (Z.ltb_spec 1 b); [lia|].
    destruct (Z.ltb_spec 1 c); [lia|]. cbn [orb].
    rewrite !Z.shiftl_mul_pow2, (wrap_id 64 (b * _)), (wrap_id 64 (a * _))
      by (done || field_lia).
    rewrite (lor_high_low _ (b * 2 ^ 51) 52), (lor_high_low _ (a * 2 ^ 32) 35),
      (lor_high_low _ c 32) by field_lia. done.
  - destruct (Z.ltb_spec 7 a); [done|]. destruct (Z.ltb_spec 1 b); [done|].
    destruct (Z.ltb_spec 1 c); [done|lia].
Qed.

Lemma set_iop_power_spec a :
  0 <= a ->
  AppleAgxRtkitSetIopPower a =
    (if bool_decide (a <= 0xffff) then management_word (SetIopPower a)
     else APPLE_AGX_RTKIT_INVALID_MESSAGE).
Proof.
  intros Ha. unfold AppleAgxRtkitSetIopPower, APPLE_AGX_RTKIT_STATE_MASK.
  rewrite management_type_word by done.
  destruct (Z.ltb_spec 0xffff a); case_bool_decide; try lia.
  by rewrite (lor_high_low _ a 16) by field_lia.
Qed.

Lemma set_ap_power_spec a :
  0 <= a ->
  AppleAgxRtkitSetApPower a =
    (if bool_decide (a <= 0xffff) then management_word (SetApPower a)
     else APPLE_AGX_RTKIT_INVALID_MESSAGE).
Proof.
  intros Ha. unfold AppleAgxRtkitSetApPower, APPLE_AGX_RTKIT_STATE_MASK.
  rewrite management_type_word by done.
  destruct (Z.ltb_spec 0xffff a); case_bool_decide; try lia.
  by rewrite (lor_high_low _ a 16) by field_lia.
Qed.

Lemma start_endpoint_spec a b :
  0 <= a -> 0 <= b ->
  AppleAgxRtkitStartEndpoint a b =
    (if bool_decide (a <= 0xff /\ b <= 3) then management_word (StartEndpoint a b)
     else APPLE_AGX_RTKIT_INVALID_MESSAGE).
Proof.
  intros Ha Hb. unfold AppleAgxRtkitStartEndpoint, APPLE_AGX_RTKIT_ENDPOINT_MASK, APPLE_AGX_RTKIT_FLAG_MASK,
    APPLE_AGX_RTKIT_ENDPOINT_SHIFT. rewrite management_type_word by done.
  destruct (Z.ltb_spec 0xff a), (Z.ltb_spec 3 b); case_bool_decide; try lia; try done.
  cbn [orb]. rewrite Z.shiftl_mul_pow2, (wrap_id 64 (a * _)) by (done || field_lia).
  by rewrite (lor_high_low _ (a * 2 ^ 32) 40), (lor_high_low _ b 32) by field_lia.
Qed.

Lemma doorbell_spec a :
  0 <= a ->
  AppleAgxRtkitDoorbell a =
    (if bool_decide (a <= 0xffff) then 0x83 * 2 ^ 48 + a else APPLE_AGX_RTKIT_INVALID_MESSAGE).
Proof.
  intros Ha. unfold AppleAgxRtkitDoorbell, APPLE_AGX_RTKIT_DOORBELL_CHANNEL_MASK.
  change APPLE_AGX_RTKIT_DOORBELL_TYPE with (0x83 * 2 ^ 48).
  destruct (Z.ltb_spec 0xffff a); case_bool_decide; try lia.
  apply (lor_high_low _ a 16); done || field_lia.
Qed.

Lemma initdata_spec a :
  0 <= a ->
  AppleAgxRtkitInitdata a =
    (if bool_decide (a < 2 ^ 44) then 0x81 * 2 ^ 48 + a else APPLE_AGX_RTKIT_INVALID_MESSAGE).
Proof.
  intros Ha. unfold AppleAgxRtkitInitdata.
  change APPLE_AGX_RTKIT_INITDATA_TYPE with (0x81 * 2 ^ 48).
  change APPLE_AGX_RTKIT_INITDATA_ADDRESS_MASK with (2 ^ 44 - 1).
  destruct (Z.ltb_spec (2 ^ 44 - 1) a); case_bool_decide; try lia.
  apply (lor_high_low _ a 44); done || field_lia.
Qed.

(** every encoder yields, for arguments in range, the word of the message it is named
    after (a stop is a start with flag 1), and the all-ones word otherwise, which the
    management decoder refuses; Doorbell and Initdata put their argument under the AGX
    types 0x83 and 0x81. *)
Theorem rtkit_encoders_functional a b c d :
  0 <= a -> 0 <= b -> 0 <= c ->
  AppleAgxRtkitHelloAck a b =
    (if bool_decide (a <= b <= 0xffff) then management_word (HelloAck a b)
     else APPLE_AGX_RTKIT_INVALID_MESSAGE) /\
  AppleAgxRtkitEndpointMapAck a b c =
    (if bool_decide (a < 8 /\ b < 2 /\ c < 2) then management_word (EndpointMap b a c)
     else APPLE_AGX_RTKIT_INVALID_MESSAGE) /\
  AppleAgxRtkitSetIopPower a =
    (if bool_decide (a <= 0xffff) then management_word (SetIopPower a)
     else APPLE_AGX_RTKIT_INVALID_MESSAGE) /\
  AppleAgxRtkitSetApPower a =
    (if bool_decide (a <= 0xffff) then management_word (SetApPower a)
     else APPLE_AGX_RTKIT_INVALID_MESSAGE) /\
  AppleAgxRtkitStartEndpoint a b =
    (if bool_decide (a <= 0xff /\ b <= 3) then management_word (StartEndpoint a b)
     else APPLE_AGX_RTKIT_INVALID_MESSAGE) /\
  AppleAgxRtkitStopEndpoint a = AppleAgxRtkitStartEndpoint a 1 /\
  AppleAgxRtkitPing = management_word Ping /\
  AppleAgxRtkitDoorbell a =
    (if bool_decide (a <= 0xffff) then 0x83 * 2 ^ 48 + a else APPLE_AGX_RTKIT_INVALID_MESSAGE) /\
  AppleAgxRtkitInitdata a =
    (if bool_decide (a < 2 ^ 44) then 0x81 * 2 ^ 48 + a else APPLE_AGX_RTKIT_INVALID_MESSAGE) /\
  (AppleAgxRtkitDecodeManagement APPLE_AGX_RTKIT_INVALID_MESSAGE (Some d)).1 = false.
Proof.
  intros Ha Hb Hc. split_and!.
  - by apply hello_ack_spec.
  - by apply endpoint_map_ack_spec.
  - by apply set_iop_power_spec.
  - by apply set_ap_power_spec.
  - by apply start_endpoint_spec.
  - done.
  - reflexivity.
  - by apply doorbell_spec.
  - by apply initdata_spec.
  - pose proof (decode_spec APPLE_AGX_RTKIT_INVALID_MESSAGE d
      ltac:(by apply (bool_decide_unpack _); vm_compute)) as H.
    change (decode_arith APPLE_AGX_RTKIT_INVALID_MESSAGE) with (@None management) in H. exact H.
Qed.

Lemma rtkit_encoders_functional_witness :
  AppleAgxRtkitStartEndpoint 0x20 2 = management_word (StartEndpoint 0x20 2).
Proof.
  destruct (rtkit_encoders_functional 0x20 2 0 cleared) as (_ & _ & _ & _ & H & _); [done..|].
  exact H.
Defined.

End Rtkit.
