(* ===== verification/RtkitBoot.v ===== *)
(** * The RTKit boot handshake (shared/src/apple_agx_rtkit_boot.c)

    Begin asks for coprocessor power; Handle takes the firmware's hello, endpoint maps and
    power acknowledgements, one word at a time, answers each and tracks what is still
    missing.  [Boot.shake] is the abstract handshake, four facts and the rule of when each
    may be learned; the theorems are that Handle implements it, that its answers fit the
    eight-message output buffer, and which conversations make the boot ready. *)

From S2P Require Import Prelude Arrays Bytes Rtkit.

Module Boot.
Import Rtkit.

(** ** Data *)

Inductive APPLE_AGX_RTKIT_BOOT_PHASE :=
  | AppleAgxRtkitBootOff
  | AppleAgxRtkitBootAwaitingHello
  | AppleAgxRtkitBootAwaitingEndpointMap
  | AppleAgxRtkitBootAwaitingPower
  | AppleAgxRtkitBootReady
  | AppleAgxRtkitBootFailed.
#[export] Instance boot_phase_eq_dec : EqDecision APPLE_AGX_RTKIT_BOOT_PHASE.
Proof. solve_decision. Defined.

Inductive APPLE_AGX_RTKIT_BOOT_RESULT :=
  | AppleAgxRtkitBootResultOk
  | AppleAgxRtkitBootResultInvalidArgument
  | AppleAgxRtkitBootResultInvalidState
  | AppleAgxRtkitBootResultProtocolViolation.

Record APPLE_AGX_RTKIT_BOOT_OUTPUT := { Count : Z; Message : list Z }.
#[export] Instance output_eta : Eta APPLE_AGX_RTKIT_BOOT_OUTPUT :=
  fun o => Build_APPLE_AGX_RTKIT_BOOT_OUTPUT (Count o) (Message o).

Record APPLE_AGX_RTKIT_BOOT := {
  Phase : APPLE_AGX_RTKIT_BOOT_PHASE;
  NegotiatedVersion : Z;
  EndpointMap_ : list Z;
  Begun : bool;
  HelloSeen : bool;
  EndpointMapComplete : bool;
  IopPowerReady : bool;
  ApPowerRequested : bool;
  ApPowerReady : bool;
}.
#[export] Instance boot_eta : Eta APPLE_AGX_RTKIT_BOOT :=
  fun b => Build_APPLE_AGX_RTKIT_BOOT (Phase b) (NegotiatedVersion b) (EndpointMap_ b)
    (Begun b) (HelloSeen b) (EndpointMapComplete b) (IopPowerReady b) (ApPowerRequested b)
    (ApPowerReady b).

(** ** Operations *)

Definition AppleAgxRtkitBootClearOutput (Output : APPLE_AGX_RTKIT_BOOT_OUTPUT)
    : APPLE_AGX_RTKIT_BOOT_OUTPUT :=
  Output <| Count := 0 |> <| Message := fill_loop 0 8 (fun _ => 0) (Message Output) |>.

Definition AppleAgxRtkitBootFail (Boot : APPLE_AGX_RTKIT_BOOT)
    : APPLE_AGX_RTKIT_BOOT_RESULT * APPLE_AGX_RTKIT_BOOT :=
  (AppleAgxRtkitBootResultProtocolViolation, Boot <| Phase := AppleAgxRtkitBootFailed |>).

Definition AppleAgxRtkitBootUpdatePhase (Boot : APPLE_AGX_RTKIT_BOOT) : APPLE_AGX_RTKIT_BOOT :=
  if negb (HelloSeen Boot) then Boot <| Phase := AppleAgxRtkitBootAwaitingHello |>
  else if negb (EndpointMapComplete Boot)
  then Boot <| Phase := AppleAgxRtkitBootAwaitingEndpointMap |>
  else if negb (IopPowerReady Boot) || negb (ApPowerReady Boot)
  then Boot <| Phase := AppleAgxRtkitBootAwaitingPower |>
  else Boot <| Phase := AppleAgxRtkitBootReady |>.

Definition AppleAgxRtkitBootInitialize (Boot : ptr APPLE_AGX_RTKIT_BOOT)
    : ptr APPLE_AGX_RTKIT_BOOT :=
  deref b := Boot else NULL in
  Some (b <| Phase := AppleAgxRtkitBootAwaitingHello |> <| NegotiatedVersion := 0 |>
          <| EndpointMap_ := fill_loop 0 8 (fun _ => 0) (EndpointMap_ b) |>
          <| Begun := false |> <| HelloSeen := false |> <| EndpointMapComplete := false |>
          <| IopPowerReady := false |> <| ApPowerRequested := false |>
          <| ApPowerReady := false |>).

Definition AppleAgxRtkitBootBegin (Boot : ptr APPLE_AGX_RTKIT_BOOT)
    (Output : ptr APPLE_AGX_RTKIT_BOOT_OUTPUT)
    : APPLE_AGX_RTKIT_BOOT_RESULT * ptr APPLE_AGX_RTKIT_BOOT * ptr APPLE_AGX_RTKIT_BOOT_OUTPUT :=
  deref b := Boot else (AppleAgxRtkitBootResultInvalidArgument, Boot, Output) in
  deref o := Output else (AppleAgxRtkitBootResultInvalidArgument, Boot, Output) in
  let o := AppleAgxRtkitBootClearOutput o in
  if Begun b || negb (bool_decide (Phase b = AppleAgxRtkitBootAwaitingHello))
  then (AppleAgxRtkitBootResultInvalidState, Boot, Some o)
  else (AppleAgxRtkitBootResultOk, Some (b <| Begun := true |>),
        Some (o <| Message := (Message o) .[ 0 <- AppleAgxRtkitSetIopPower 0x220 ] |>
                <| Count := 1 |>)).

(** [Output->Message[Output->Count++] = m]. *)
Definition emit (o : APPLE_AGX_RTKIT_BOOT_OUTPUT) (m : Z) : APPLE_AGX_RTKIT_BOOT_OUTPUT :=
  o <| Message := (Message o) .[ Count o <- m ] |> <| Count := u32 (Count o + 1) |>.

Definition supported_system_endpoints : Z := 0x51e.

(** The loop that starts the advertised system endpoints. *)
Definition start_endpoints (map0 : Z) (o : APPLE_AGX_RTKIT_BOOT_OUTPUT)
    : APPLE_AGX_RTKIT_BOOT_OUTPUT :=
  for_range 1 15 (fun endpoint o =>
    let bit := Z.shiftl 1 endpoint in
    if negb (Z.land (Z.land map0 supported_system_endpoints) bit =? 0)
    then emit o (AppleAgxRtkitStartEndpoint endpoint 2) else o) o.

Definition AppleAgxRtkitBootHandle (Boot : ptr APPLE_AGX_RTKIT_BOOT) (Payload Endpoint_ : Z)
    (Output : ptr APPLE_AGX_RTKIT_BOOT_OUTPUT)
    : APPLE_AGX_RTKIT_BOOT_RESULT * ptr APPLE_AGX_RTKIT_BOOT * ptr APPLE_AGX_RTKIT_BOOT_OUTPUT :=
  deref b := Boot else (AppleAgxRtkitBootResultInvalidArgument, Boot, Output) in
  deref o := Output else (AppleAgxRtkitBootResultInvalidArgument, Boot, Output) in
  let o := AppleAgxRtkitBootClearOutput o in
  let fail o := let '(r, b) := AppleAgxRtkitBootFail b in (r, Some b, Some o) in
  let done b o := (AppleAgxRtkitBootResultOk, Some (AppleAgxRtkitBootUpdatePhase b), Some o) in
  if negb (Begun b) || bool_decide (Phase b = AppleAgxRtkitBootReady) ||
     bool_decide (Phase b = AppleAgxRtkitBootFailed)
  then (AppleAgxRtkitBootResultInvalidState, Boot, Some o)
  else if negb (Endpoint_ =? 0) then fail o
  else
    let '(decoded, message) := AppleAgxRtkitDecodeManagement Payload (Some cleared) in
    if negb decoded then fail o
    else
      let message := default cleared message in
      if Type_ message =? AppleAgxRtkitManagementHello then
        if HelloSeen b || (MaxVersion message <? MinVersion message) then fail o
        else
          let version := MaxVersion message in
          let o := o <| Message := (Message o) .[ 0 <- AppleAgxRtkitHelloAck version version ] |> in
          if (Message o) .[ 0 ] =? APPLE_AGX_RTKIT_INVALID_MESSAGE then fail o
          else done (b <| NegotiatedVersion := version |> <| HelloSeen := true |>)
                    (o <| Count := 1 |>)
      else if Type_ message =? AppleAgxRtkitManagementEndpointMap then
        if negb (HelloSeen b) || EndpointMapComplete b then fail o
        else
          let b := b <| EndpointMap_ := (EndpointMap_ b) .[ Base message <- Bitmap message ] |> in
          let o := o <| Message := (Message o)
            .[ 0 <- AppleAgxRtkitEndpointMapAck (Base message) (Last message)
                      (if negb (Last message =? 0) then 0 else 1) ] |> <| Count := 1 |> in
          if negb (Last message =? 0) then
            let b := b <| EndpointMapComplete := true |> in
            let o := start_endpoints (EndpointMap_ b) .[ 0 ] o in
            let b := b <| ApPowerRequested := true |> in
            done b (emit o (AppleAgxRtkitSetApPower 0x20))
          else done b o
      else if Type_ message =? AppleAgxRtkitManagementIopPowerAck then
        if IopPowerReady b || negb (State message =? 0x20) then fail o
        else done (b <| IopPowerReady := true |>) o
      else if Type_ message =? AppleAgxRtkitManagementSetApPower then
        if negb (ApPowerRequested b) || ApPowerReady b || negb (State message =? 0x20) then fail o
        else done (b <| ApPowerReady := true |>) o
      else fail o.

Definition AppleAgxRtkitBootIsReady (Boot : ptr APPLE_AGX_RTKIT_BOOT) : bool :=
  deref b := Boot else false in bool_decide (Phase b = AppleAgxRtkitBootReady).

(** ** The abstract handshake *)

(** What has been learned; [None] below is the failed handshake. *)
Record shake := { hello : bool; mapped : bool; iop : bool; ap : bool }.

Definition shake_ready (s : shake) : bool := hello s && mapped s && iop s && ap s.

Definition shake_message (s : shake) (m : management) : option shake :=
  match m with
  | Hello min max =>
      if negb (hello s) && (min <=? max) then Some (Build_shake true (mapped s) (iop s) (ap s))
      else None
  | EndpointMap last _ _ =>
      if hello s && negb (mapped s) then Some (Build_shake true (last =? 1) (iop s) (ap s))
      else None
  | IopPowerAck state =>
      if negb (iop s) && (state =? 0x20) then Some (Build_shake (hello s) (mapped s) true (ap s))
      else None
  | SetApPower state =>
      if mapped s && negb (ap s) && (state =? 0x20)
      then Some (Build_shake (hello s) (mapped s) (iop s) true) else None
  | _ => None
  end.

(** A word on an endpoint: a finished handshake ignores it, a live one takes it or fails. *)
Definition shake_word (s : option shake) (w : Z * Z) : option shake :=
  match s with
  | None => None
  | Some s =>
      if shake_ready s then Some s
      else if negb (w.2 =? 0) then None
      else match decode_arith w.1 with Some m => shake_message s m | None => None end
  end.

Definition shake_of (b : APPLE_AGX_RTKIT_BOOT) : option shake :=
  if bool_decide (Phase b = AppleAgxRtkitBootFailed) then None
  else Some {| hello := HelloSeen b; mapped := EndpointMapComplete b; iop := IopPowerReady b;
               ap := ApPowerReady b |}.

Record boot_wf (b : APPLE_AGX_RTKIT_BOOT) : Prop := {
  boot_map : zlen (EndpointMap_ b) = 8;
  boot_phase : Phase b = AppleAgxRtkitBootFailed \/
    Phase b = Phase (AppleAgxRtkitBootUpdatePhase b);
  boot_requested : ApPowerRequested b = EndpointMapComplete b;
  boot_map_hello : EndpointMapComplete b = true -> HelloSeen b = true;
  boot_ap : ApPowerReady b = true -> EndpointMapComplete b = true;
  boot_idle : Begun b = false -> HelloSeen b = false /\ EndpointMapComplete b = false;
}.

(** ** The output buffer *)

(** The system endpoints an endpoint map advertises, in the order they are started. *)
Definition advertised (map0 : Z) (n : Z) : list Z :=
  filter (fun e => Z.testbit (Z.land map0 supported_system_endpoints) e = true) (seqZ 1 n).

(** The live messages of an output buffer. *)
Definition outputs (o : APPLE_AGX_RTKIT_BOOT_OUTPUT) (l : list Z) : Prop :=
  zlen (Message o) = 8 /\ Count o = zlen l /\ prefix_list (Message o) (Count o) = l.

Lemma emit_outputs o l m : outputs o l -> zlen l < 8 -> outputs (emit o m) (l ++ [m]).
Proof.
  intros (Hl & Hc & Hp) Hlt. pose proof (zlen_nonneg l).
  assert (u32 (Count o + 1) = Count o + 1) as E by word_lia.
  split_and!; simpl; rewrite ?E.
  - by rewrite zlen_set.
  - rewrite zlen_app, Hc. done.
  - rewrite prefix_set_snoc by lia. by rewrite Hp.
Qed.

Lemma length_filter_impl {A} (P Q : A -> Prop) `{!forall x, Decision (P x)}
    `{!forall x, Decision (Q x)} (l : list A) :
  (forall x, P x -> Q x) -> (length (filter P l) <= length (filter Q l))%nat.
Proof.
  intros HPQ. induction l as [|x l IH]; [done|]. rewrite !filter_cons.
  repeat case_decide; simpl; try lia. exfalso. auto.
Qed.

Lemma advertised_bound map0 n : 0 <= n <= 15 -> zlen (advertised map0 n) <= 6.
Proof.
  intros Hn. unfold zlen, advertised.
  pose proof (length_filter_impl
    (fun e => Z.testbit (Z.land map0 supported_system_endpoints) e = true)
    (fun e => Z.testbit supported_system_endpoints e = true) (seqZ 1 n)) as H.
  assert (length (filter (fun e => Z.testbit supported_system_endpoints e = true) (seqZ 1 n))
            <= 6)%nat.
  2: { etrans; [apply inj_le, H|lia]. intros e. rewrite Z.land_spec, andb_true_iff. tauto. }
  assert (length (filter (fun e => Z.testbit supported_system_endpoints e = true) (seqZ 1 15))
            = 6%nat) as H6 by reflexivity.
  replace 15 with (n + (15 - n)) in H6 by lia.
  rewrite seqZ_app, filter_app, length_app in H6 by lia. lia.
Qed.

Lemma advertised_snoc map0 n :
  0 <= n -> advertised map0 (n + 1) = advertised map0 n ++
    (if Z.testbit (Z.land map0 supported_system_endpoints) (1 + n) then [1 + n] else []).
Proof.
  intros Hn. unfold advertised. rewrite seqZ_app, filter_app by lia. f_equal.
  rewrite seqZ_cons, (seqZ_nil _ (Z.pred 1)) by lia. rewrite filter_cons.
  by destruct (Z.testbit _ (1 + n)).
Qed.

Lemma start_endpoints_spec map0 o l :
  outputs o l -> zlen l = 1 ->
  outputs (start_endpoints map0 o)
    (l ++ map (fun e => AppleAgxRtkitStartEndpoint e 2) (advertised map0 15)).
Proof.
  intros Ho Hl. unfold start_endpoints.
  apply (for_range_inv (fun n o => outputs o
    (l ++ map (fun e => AppleAgxRtkitStartEndpoint e 2) (advertised map0 n)))); [done| |].
  - by rewrite app_nil_r.
  - intros n o' Hn Ho'. cbv zeta. rewrite land_bit, advertised_snoc by lia.
    destruct (Z.testbit _ (1 + n)); [|by rewrite app_nil_r].
    rewrite map_app, app_assoc. apply emit_outputs; [done|].
    pose proof (advertised_bound map0 n ltac:(lia)).
    rewrite zlen_app, Hl. unfold zlen in *. rewrite length_map. lia.
Qed.

Lemma clear_outputs o :
  zlen (Message o) = 8 -> outputs (AppleAgxRtkitBootClearOutput o) [].
Proof. intros Hl. split_and!; [by simpl; rewrite zlen_fill|done..]. Qed.

Lemma first_output o m :
  outputs o [] -> outputs (o <| Message := (Message o) .[ 0 <- m ] |> <| Count := 1 |>) [m].
Proof.
  intros (Hl & Hc & _). split_and!; simpl; [by rewrite zlen_set|done|].
  rewrite (prefix_set_snoc _ 0) by lia. done.
Qed.

(** ** One step of the handshake *)

(** The answer to an accepted message, in the state that takes it. *)
Definition answer (b : APPLE_AGX_RTKIT_BOOT) (m : management) : list Z :=
  match m with
  | Hello _ max => [management_word (HelloAck max max)]
  | EndpointMap last base bitmap =>
      management_word (EndpointMap last base (1 - last)) ::
      (if last =? 1
       then map (fun e => AppleAgxRtkitStartEndpoint e 2)
              (advertised ((EndpointMap_ b) .[ base <- bitmap ]) .[ 0 ] 15) ++
            [management_word (SetApPower 0x20)]
       else [])
  | _ => []
  end.

(** A handshake that can still go on. *)
Definition live (b : APPLE_AGX_RTKIT_BOOT) : Prop :=
  Begun b = true /\ Phase b <> AppleAgxRtkitBootReady /\ Phase b <> AppleAgxRtkitBootFailed.

Lemma update_phase_flags b :
  HelloSeen (AppleAgxRtkitBootUpdatePhase b) = HelloSeen b /\
  EndpointMapComplete (AppleAgxRtkitBootUpdatePhase b) = EndpointMapComplete b /\
  IopPowerReady (AppleAgxRtkitBootUpdatePhase b) = IopPowerReady b /\
  ApPowerReady (AppleAgxRtkitBootUpdatePhase b) = ApPowerReady b /\
  ApPowerRequested (AppleAgxRtkitBootUpdatePhase b) = ApPowerRequested b /\
  Begun (AppleAgxRtkitBootUpdatePhase b) = Begun b /\
  EndpointMap_ (AppleAgxRtkitBootUpdatePhase b) = EndpointMap_ b /\
  Phase (AppleAgxRtkitBootUpdatePhase b) <> AppleAgxRtkitBootFailed.
Proof.
  by destruct b as [? ? ? ? [] [] [] ? []]; split_and!.
Qed.

Lemma shake_of_update b :
  shake_of (AppleAgxRtkitBootUpdatePhase b) =
    Some {| hello := HelloSeen b; mapped := EndpointMapComplete b; iop := IopPowerReady b;
            ap := ApPowerReady b |}.
Proof.
  destruct (update_phase_flags b) as (H1 & H2 & H3 & H4 & _ & _ & _ & H5).
  unfold shake_of. by rewrite bool_decide_false, H1, H2, H3, H4.
Qed.

Lemma phase_ready b :
  boot_wf b -> Phase b <> AppleAgxRtkitBootFailed ->
  Phase b = AppleAgxRtkitBootReady <->
  HelloSeen b && EndpointMapComplete b && IopPowerReady b && ApPowerReady b = true.
Proof.
  intros W Hf. destruct (boot_phase b W) as [?| ->]; [done|].
  unfold AppleAgxRtkitBootUpdatePhase.
  destruct (HelloSeen b), (EndpointMapComplete b), (IopPowerReady b), (ApPowerReady b);
    simpl; by split.
Qed.

(** What the handshake makes of a word. *)
Definition heard (w e : Z) : option management := if e =? 0 then decode_arith w else None.

Definition facts (b : APPLE_AGX_RTKIT_BOOT) : shake :=
  {| hello := HelloSeen b; mapped := EndpointMapComplete b; iop := IopPowerReady b;
     ap := ApPowerReady b |}.

(** The new state of an accepted message, before the phase is brought up to date. *)
Definition take (b : APPLE_AGX_RTKIT_BOOT) (m : management) : APPLE_AGX_RTKIT_BOOT :=
  match m with
  | Hello _ max => b <| NegotiatedVersion := max |> <| HelloSeen := true |>
  | EndpointMap last base bitmap =>
      let b := b <| EndpointMap_ := (EndpointMap_ b) .[ base <- bitmap ] |> in
      if last =? 1 then b <| EndpointMapComplete := true |> <| ApPowerRequested := true |> else b
  | IopPowerAck _ => b <| IopPowerReady := true |>
  | SetApPower _ => b <| ApPowerReady := true |>
  | _ => b
  end.

Lemma boot_wf_update b :
  zlen (EndpointMap_ b) = 8 -> ApPowerRequested b = EndpointMapComplete b ->
  (EndpointMapComplete b = true -> HelloSeen b = true) ->
  (ApPowerReady b = true -> EndpointMapComplete b = true) -> Begun b = true ->
  boot_wf (AppleAgxRtkitBootUpdatePhase b).
Proof.
  intros H1 H2 H3 H4 H5.
  destruct (update_phase_flags b) as (E1 & E2 & E3 & E4 & E5 & E6 & E7 & _).
  split; rewrite ?E1, ?E2, ?E4, ?E5, ?E6, ?E7; try done; [|by rewrite H5].
  right. unfold AppleAgxRtkitBootUpdatePhase at 2. rewrite E1, E2, E3, E4.
  by destruct b as [? ? ? ? [] [] [] ? []].
Qed.

Lemma take_wf b m s :
  boot_wf b -> Begun b = true -> shake_message (facts b) m = Some s -> management_typed m ->
  boot_wf (AppleAgxRtkitBootUpdatePhase (take b m)) /\ facts (take b m) = s /\
  Begun (take b m) = true.
Proof.
  intros W Hb Hs Hm. pose proof (boot_map_hello b W). pose proof (boot_ap b W).
  pose proof (boot_requested b W). pose proof (boot_map b W).
  destruct m as [min max|min max| | |endpoint flag|state|state|last base bitmap|state];
    simpl in Hs; try done;
    match type of Hs with (if ?c then _ else _) = _ => destruct c eqn:G end; try done;
    injection Hs as <-; guards; simpl in *.
  - split_and!; [|done|done]. apply boot_wf_update; simpl; auto.
  - split_and!; [|done|done]. apply boot_wf_update; simpl; auto.
  - destruct (Z.eqb_spec last 1) as [->|Hl].
    + split_and!; [|unfold facts; simpl; congruence|done].
      apply boot_wf_update; simpl; rewrite ?zlen_set; auto.
    + split_and!; [|unfold facts; simpl; congruence|done].
      apply boot_wf_update; simpl; rewrite ?zlen_set; auto.
  - split_and!; [|done|done]. apply boot_wf_update; simpl; auto.
Qed.

Lemma handle_cases b o w e :
  ApPowerRequested b = EndpointMapComplete b -> live b -> is_u64 w -> zlen (Message o) = 8 ->
  match match heard w e with Some m => shake_message (facts b) m | None => None end with
  | Some s => exists m o', heard w e = Some m /\
      AppleAgxRtkitBootHandle (Some b) w e (Some o) =
        (AppleAgxRtkitBootResultOk, Some (AppleAgxRtkitBootUpdatePhase (take b m)), Some o') /\
      outputs o' (answer b m)
  | None => exists o', AppleAgxRtkitBootHandle (Some b) w e (Some o) =
      (AppleAgxRtkitBootResultProtocolViolation, Some (b <| Phase := AppleAgxRtkitBootFailed |>),
       Some o') /\ Count o' = 0
  end.
Proof.
  intros Hreq (Hb & Hr & Hf) Hw Ho. unfold AppleAgxRtkitBootHandle, heard.
  rewrite Hb, (bool_decide_false _ Hr), (bool_decide_false _ Hf). cbn [negb orb].
  destruct (e =? 0); cbn [negb]; [|by (eexists; split)].
  pose proof (decode_spec w cleared Hw) as Hd.
  destruct (decode_arith w) as [m|] eqn:Em.
  2: { destruct (AppleAgxRtkitDecodeManagement w (Some cleared)) as [r d]. simpl in Hd. subst r.
       by (eexists; split). }
  rewrite Hd. cbn [negb default from_option id]. apply decode_exact in Em as [Hm _]; [|done].
  pose proof (clear_outputs o Ho) as Hc. set (oc := AppleAgxRtkitBootClearOutput o) in *.
  assert (Count oc = 0) as Hc0 by done. clearbody oc.
  destruct b as [ph version map begun hs mc ir ar apr].
  cbn [HelloSeen EndpointMapComplete IopPowerReady ApPowerReady ApPowerRequested EndpointMap_] in *.
  destruct m as [min max|min max| | |endpoint flag|state|state|last base bitmap|state];
    cbn [management_struct shake_message facts hello mapped iop ap management_typed
         Type_ State Endpoint Flag MinVersion MaxVersion Last Base Bitmap
         set_field eta_expand management_eta cleared] in *;
    try by (eexists; split).
  - change (1 =? AppleAgxRtkitManagementHello) with true. cbv iota.
    rewrite hello_ack_spec by apply Hm.
    rewrite (bool_decide_true (max <= max <= 0xffff)) by (destruct Hm; field_lia).
    destruct hs, (Z.leb_spec min max), (Z.ltb_spec max min); try lia;
      cbn [orb negb andb]; try by (eexists; split).
    cbn [Message Count set_field eta_expand output_eta].
    rewrite get_set_eq by (destruct Hc as [-> _]; lia).
    destruct (Z.eqb_spec (management_word (HelloAck max max)) APPLE_AGX_RTKIT_INVALID_MESSAGE)
      as [E|_]; [exfalso; cbn [management_word] in E;
      change APPLE_AGX_RTKIT_INVALID_MESSAGE with (2 ^ 64 - 1) in E; field_lia|].
    eexists _, _. split_and!; [reflexivity|reflexivity|].
    by apply first_output.
  - change (7 =? AppleAgxRtkitManagementHello) with false.
    change (7 =? AppleAgxRtkitManagementEndpointMap) with false.
    change (7 =? AppleAgxRtkitManagementIopPowerAck) with true. cbv iota.
    destruct ir, (state =? 0x20); cbn [orb negb andb]; try by (eexists; split).
    by eexists _, _.
  - change (8 =? AppleAgxRtkitManagementHello) with false.
    change (8 =? AppleAgxRtkitManagementEndpointMap) with true. cbv iota.
    destruct hs, mc; cbn [orb negb andb]; try by (eexists; split).
    assert (last = 0 \/ last = 1) as [->| ->] by lia; cbn [Z.eqb negb].
    + eexists _, _. split_and!; [reflexivity|reflexivity|].
      rewrite endpoint_map_ack_spec by lia. rewrite bool_decide_true by lia.
      by apply first_output.
    + eexists _, _. split_and!; [reflexivity|reflexivity|].
      rewrite endpoint_map_ack_spec by lia. rewrite bool_decide_true by lia.
      cbn [answer Z.eqb Pos.eqb EndpointMap_]. rewrite app_comm_cons. apply emit_outputs.
      * apply (start_endpoints_spec _ _ [management_word (EndpointMap 1 base 0)]); [|done].
        by apply first_output.
      * pose proof (advertised_bound (map .[ base <- bitmap ]) .[ 0 ] 15 ltac:(lia)).
        unfold zlen in *. cbn [length]. rewrite length_map. lia.
  - change (11 =? AppleAgxRtkitManagementHello) with false.
    change (11 =? AppleAgxRtkitManagementEndpointMap) with false.
    change (11 =? AppleAgxRtkitManagementIopPowerAck) with false.
    change (11 =? AppleAgxRtkitManagementSetApPower) with true. cbv iota.
    subst ar. destruct mc, apr, (state =? 0x20); cbn [orb negb andb]; try by (eexists; split).
    all: try by eexists _, _.
Qed.

(** ** Reachable handshakes *)

Definition boot_initial (b : APPLE_AGX_RTKIT_BOOT) : Prop :=
  exists raw, zlen (EndpointMap_ raw) = 8 /\ AppleAgxRtkitBootInitialize (Some raw) = Some b.

Inductive boot_step (b b' : APPLE_AGX_RTKIT_BOOT) : Prop :=
  | boot_step_begin o r o' :
      AppleAgxRtkitBootBegin (Some b) o = (r, Some b', o') -> boot_step b b'
  | boot_step_handle w e o r o' : is_u64 w -> zlen (Message o) = 8 ->
      AppleAgxRtkitBootHandle (Some b) w e (Some o) = (r, Some b', o') -> boot_step b b'.

Lemma boot_wf_initial b : boot_initial b -> boot_wf b.
Proof.
  intros (raw & Hl & H). unfold AppleAgxRtkitBootInitialize in H. apply (inj Some) in H. subst b.
  split; try done; [|by right]. cbn [EndpointMap_ set_field eta_expand boot_eta].
  by rewrite zlen_fill.
Qed.

Lemma boot_wf_failed b : boot_wf b -> boot_wf (b <| Phase := AppleAgxRtkitBootFailed |>).
Proof. intros W. split; try apply W. by left. Qed.

Lemma handle_not_live b o w e :
  ~ live b -> exists o', AppleAgxRtkitBootHandle (Some b) w e (Some o) =
    (AppleAgxRtkitBootResultInvalidState, Some b, Some o') /\ Count o' = 0.
Proof.
  intros Hn. unfold AppleAgxRtkitBootHandle, live in *.
  destruct (Begun b); cbn [negb orb]; [|by (eexists; split)].
  case_bool_decide; cbn [orb]; [by (eexists; split)|].
  case_bool_decide; [by (eexists; split)|]. by destruct Hn.
Qed.

Lemma live_dec b : {live b} + {~ live b}.
Proof.
  destruct (decide (Begun b = true)), (decide (Phase b = AppleAgxRtkitBootReady)),
    (decide (Phase b = AppleAgxRtkitBootFailed)); unfold live; tauto.
Qed.

Lemma heard_typed w e m : is_u64 w -> heard w e = Some m -> management_typed m.
Proof.
  unfold heard. intros Hw H. destruct (e =? 0); [|done]. by apply decode_exact in H as [? _].
Qed.

Lemma boot_wf_step b b' : boot_wf b -> boot_step b b' -> boot_wf b'.
Proof.
  intros W [o r o' H|w e o r o' Hw Ho H].
  - unfold AppleAgxRtkitBootBegin in H. destruct o as [o|]; [|by simplify_eq].
    destruct (Begun b || _) eqn:G; simplify_eq/=; [done|]. guards.
    split; simpl; try apply W; [|done]. destruct (boot_phase b W) as [?|E]; [by left|right].
    rewrite E. by destruct b as [? ? ? ? [] [] [] ? []].
  - destruct (live_dec b) as [Hl|Hl].
    2: { destruct (handle_not_live b o w e Hl) as (o1 & E & _). rewrite E in H. by simplify_eq. }
    pose proof (handle_cases b o w e (boot_requested b W) Hl Hw Ho) as Hc.
    destruct (heard w e) as [m|] eqn:Eh.
    + destruct (shake_message (facts b) m) as [s|] eqn:Es.
      * destruct Hc as (m' & o1 & Em & E & _). rewrite E in H. simplify_eq.
        apply (take_wf b m' s W (proj1 Hl) Es). by eapply heard_typed.
      * destruct Hc as (o1 & E & _). rewrite E in H. simplify_eq. by apply boot_wf_failed.
    + destruct Hc as (o1 & E & _). rewrite E in H. simplify_eq. by apply boot_wf_failed.
Qed.

#[global] Program Instance boot_component : Component APPLE_AGX_RTKIT_BOOT := {
  comp_init := boot_initial;
  comp_step := boot_step;
  comp_inv := boot_wf;
}.
Next Obligation. apply boot_wf_initial. Qed.
Next Obligation. apply boot_wf_step. Qed.

Lemma shake_of_live b :
  boot_wf b -> live b -> shake_of b = Some (facts b) /\ shake_ready (facts b) = false.
Proof.
  intros W (_ & Hr & Hf). unfold shake_of. rewrite bool_decide_false by done. split; [done|].
  apply not_true_iff_false. intros H. apply Hr. by apply phase_ready.
Qed.

Lemma shake_of_not_live b w :
  boot_wf b -> Begun b = true -> ~ live b -> shake_word (shake_of b) w = shake_of b.
Proof.
  intros W Hb Hl. unfold shake_of. case_bool_decide as Hf; [done|]. simpl.
  assert (Phase b = AppleAgxRtkitBootReady) as Hr.
  { destruct (decide (Phase b = AppleAgxRtkitBootReady)) as [|Hr]; [done|].
    by destruct Hl. }
  apply (phase_ready b W Hf) in Hr. unfold shake_ready. cbn [hello mapped iop ap].
  by rewrite Hr.
Qed.

Lemma handle_refines b o w e :
  boot_wf b -> Begun b = true -> is_u64 w -> zlen (Message o) = 8 ->
  exists r b' o', AppleAgxRtkitBootHandle (Some b) w e (Some o) = (r, Some b', Some o') /\
    shake_of b' = shake_word (shake_of b) (w, e) /\ boot_wf b' /\ Begun b' = true /\
    (r = AppleAgxRtkitBootResultOk -> exists m, heard w e = Some m /\ outputs o' (answer b m)).
Proof.
  intros W Hb Hw Ho. destruct (live_dec b) as [Hl|Hl].
  2: { destruct (handle_not_live b o w e Hl) as (o1 & E & _). eexists _, _, _.
       split_and!; [exact E|by rewrite shake_of_not_live|done|done|done]. }
  destruct (shake_of_live b W Hl) as [-> Hr].
  pose proof (handle_cases b o w e (boot_requested b W) Hl Hw Ho) as Hc.
  unfold shake_word. rewrite Hr. cbn [fst snd].
  assert ((if negb (e =? 0) then None else match decode_arith w with
           | Some m => shake_message (facts b) m | None => None end) =
          match heard w e with Some m => shake_message (facts b) m | None => None end) as ->
    by (unfold heard; by destruct (e =? 0)).
  assert (forall o1, AppleAgxRtkitBootHandle (Some b) w e (Some o) =
    (AppleAgxRtkitBootResultProtocolViolation, Some (b <| Phase := AppleAgxRtkitBootFailed |>),
     Some o1) -> exists r b' o', AppleAgxRtkitBootHandle (Some b) w e (Some o) =
       (r, Some b', Some o') /\ shake_of b' = None /\ boot_wf b' /\ Begun b' = true /\
       (r = AppleAgxRtkitBootResultOk ->
        exists m, heard w e = Some m /\ outputs o' (answer b m))) as Hfail.
  { intros o1 E. eexists _, _, _. split_and!; [exact E|done|by apply boot_wf_failed|done|done]. }
  destruct (heard w e) as [m|] eqn:Eh; [|by destruct Hc as (o1 & E & _); eapply Hfail].
  destruct (shake_message (facts b) m) as [s|] eqn:Es; [|by destruct Hc as (o1 & E & _); eapply Hfail].
  destruct Hc as (m' & o1 & Em & E & Hout). injection Em as <-.
  destruct (take_wf b m s W Hb Es) as (W' & Hs & Hb'); [by eapply heard_typed|].
  eexists _, _, _. split_and!; [exact E| |exact W'| |by exists m].
  - rewrite shake_of_update. change (Some (facts (take b m)) = Some s). by rewrite Hs.
  - by destruct (update_phase_flags (take b m)) as (_ & _ & _ & _ & _ & -> & _).
Qed.

(** ** Properties *)

Definition raw_boot : APPLE_AGX_RTKIT_BOOT :=
  Build_APPLE_AGX_RTKIT_BOOT AppleAgxRtkitBootOff 0 (replicate 8 7) true true true true true true.
Definition raw_output : APPLE_AGX_RTKIT_BOOT_OUTPUT :=
  Build_APPLE_AGX_RTKIT_BOOT_OUTPUT 5 (replicate 8 9).

(** A boot that has been initialised and begun. *)
Definition begin_boot (raw : APPLE_AGX_RTKIT_BOOT) (o : APPLE_AGX_RTKIT_BOOT_OUTPUT)
    : ptr APPLE_AGX_RTKIT_BOOT :=
  (AppleAgxRtkitBootBegin (AppleAgxRtkitBootInitialize (Some raw)) (Some o)).1.2.

Lemma begin_boot_spec raw o :
  zlen (EndpointMap_ raw) = 8 ->
  exists b, begin_boot raw o = Some b /\ reachable b /\ Begun b = true /\
    shake_of b = Some (Build_shake false false false false).
Proof.
  intros Hl. eexists. split; [reflexivity|]. split_and!; [|done|done].
  eexists. split; [exists raw; by split|]. apply rtc_once.
  by eapply (boot_step_begin _ _ (Some o)).
Qed.

(** The conversation: every word in turn, with a fresh output buffer each time. *)
Fixpoint converse (o : APPLE_AGX_RTKIT_BOOT_OUTPUT) (ws : list (Z * Z))
    (p : ptr APPLE_AGX_RTKIT_BOOT) : ptr APPLE_AGX_RTKIT_BOOT :=
  match ws with
  | [] => p
  | (w, e) :: ws => converse o ws (AppleAgxRtkitBootHandle p w e (Some o)).1.2
  end.

Lemma converse_shake o ws : forall b,
  boot_wf b -> Begun b = true -> zlen (Message o) = 8 -> Forall (fun p => is_u64 p.1) ws ->
  exists b', converse o ws (Some b) = Some b' /\ boot_wf b' /\
    shake_of b' = foldl shake_word (shake_of b) ws.
Proof.
  induction ws as [|[w e] ws IH]; intros b W Hb Ho Hw; [by exists b|].
  inversion Hw; subst.
  destruct (handle_refines b o w e W Hb) as (r & b1 & o1 & E & Hs & W1 & Hb1 & _); [done..|].
  cbn [converse foldl]. rewrite E. cbn [fst snd]. destruct (IH b1 W1 Hb1 Ho) as (b' & E' & W' & Hs'); [done|].
  exists b'. by rewrite Hs', Hs.
Qed.

(** what makes a boot ready.  After any conversation with the firmware, whatever the
    words, endpoints and output buffers, the boot is ready exactly when the abstract
    handshake has learned all four facts, each in its order: the hello, the endpoint
    maps up to the last one, and the two power acknowledgements, the AP's not before the
    last map. *)
Theorem boot_ready_exact raw o ws :
  zlen (EndpointMap_ raw) = 8 -> zlen (Message o) = 8 -> Forall (fun p => is_u64 p.1) ws ->
  AppleAgxRtkitBootIsReady (converse o ws (begin_boot raw o)) =
    match foldl shake_word (Some (Build_shake false false false false)) ws with
    | Some s => shake_ready s
    | None => false
    end.
Proof.
  intros Hl Ho Hw. destruct (begin_boot_spec raw o Hl) as (b & -> & Hr & Hb & Hs).
  pose proof (reachable_inv b Hr : boot_wf b) as W.
  destruct (converse_shake o ws b W Hb Ho Hw) as (b' & -> & W' & Hs').
  rewrite <- Hs, <- Hs'. unfold shake_of. simpl. case_bool_decide as Hp.
  - case_bool_decide as Hf; [congruence|]. symmetry. by apply (phase_ready b' W' Hf).
  - case_bool_decide as Hf; [done|]. symmetry. apply not_true_iff_false. intros Hn.
    by apply Hp, (phase_ready b' W' Hf).
Qed.

Lemma boot_ready_exact_witness :
  AppleAgxRtkitBootIsReady (converse raw_output
    (map (fun m => (management_word m, 0))
      [IopPowerAck 0x20; Hello 11 12; EndpointMap 0 0 0x10e; EndpointMap 1 1 5; SetApPower 0x20])
    (begin_boot raw_boot raw_output)) = true.
Proof.
  rewrite (boot_ready_exact raw_boot raw_output); [by vm_compute|reflexivity|reflexivity|].
  by apply (bool_decide_unpack _); vm_compute.
Defined.

(** ** The conversation, word by word *)

(** What the firmware has said so far, and what has been learned from it. *)
Record told := { learned : shake; said : list management }.

(** The bitmap that was said last for a page of the endpoint map. *)
Definition page (ms : list management) (base : Z) : Z :=
  foldl (fun v m => match m with EndpointMap _ b bitmap => if b =? base then bitmap else v
                               | _ => v end) 0 ms.
(** The version that was agreed on. *)
Definition version (ms : list management) : Z :=
  foldl (fun v m => match m with Hello _ max => max | _ => v end) 0 ms.

(** The answer to the last thing said. *)
Definition reply (ms : list management) (m : management) : list Z :=
  match m with
  | Hello _ max => [management_word (HelloAck max max)]
  | EndpointMap last base bitmap =>
      management_word (EndpointMap last base (1 - last)) ::
      (if last =? 1
       then map (fun e => AppleAgxRtkitStartEndpoint e 2) (advertised (page ms 0) 15) ++
            [management_word (SetApPower 0x20)]
       else [])
  | _ => []
  end.

(** What a word is answered with, and what is learned: [None] is the failed handshake. *)
Definition prescribed_word (t : option told) (w e : Z)
    : APPLE_AGX_RTKIT_BOOT_RESULT * list Z * option told :=
  match t with
  | None => (AppleAgxRtkitBootResultInvalidState, [], None)
  | Some t =>
      if shake_ready (learned t) then (AppleAgxRtkitBootResultInvalidState, [], Some t) else
      match heard w e with
      | None => (AppleAgxRtkitBootResultProtocolViolation, [], None)
      | Some m =>
          match shake_message (learned t) m with
          | None => (AppleAgxRtkitBootResultProtocolViolation, [], None)
          | Some s => (AppleAgxRtkitBootResultOk, reply (said t ++ [m]) m,
                       Some {| learned := s; said := said t ++ [m] |})
          end
      end
  end.
Fixpoint prescribed (t : option told) (ws : list (Z * Z * APPLE_AGX_RTKIT_BOOT_OUTPUT))
    : list (APPLE_AGX_RTKIT_BOOT_RESULT * list Z) * option told :=
  match ws with
  | [] => ([], t)
  | (w, e, _) :: ws =>
      let '(a, t) := prescribed_word t w e in
      let '(l, t) := prescribed t ws in (a :: l, t)
  end.

(** The same of the code: every word with an output buffer, whatever it holds. *)
Fixpoint hear_all (ws : list (Z * Z * APPLE_AGX_RTKIT_BOOT_OUTPUT)) (p : ptr APPLE_AGX_RTKIT_BOOT)
    : list (APPLE_AGX_RTKIT_BOOT_RESULT * list Z) * ptr APPLE_AGX_RTKIT_BOOT :=
  match ws with
  | [] => ([], p)
  | (w, e, o) :: ws =>
      let '(r, p, o) := AppleAgxRtkitBootHandle p w e (Some o) in
      let '(l, p) := hear_all ws p in
      ((r, deref o := o else [] in prefix_list (Message o) (Count o)) :: l, p)
  end.

(** The boot knows what it was told. *)
Definition tells (b : APPLE_AGX_RTKIT_BOOT) (t : option told) : Prop :=
  match t with
  | None => Phase b = AppleAgxRtkitBootFailed
  | Some t => Phase b <> AppleAgxRtkitBootFailed /\ facts b = learned t /\
      NegotiatedVersion b = version (said t) /\
      forall i, 0 <= i < 8 -> (EndpointMap_ b) .[ i ] = page (said t) i
  end.

Lemma no_messages o : Count o = 0 -> prefix_list (Message o) (Count o) = [].
Proof. intros ->. done. Qed.

(** A message that is taken. *)
Lemma take_tells b t m s :
  boot_wf b -> tells b (Some t) -> shake_message (learned t) m = Some s -> management_typed m ->
  facts (take b m) = s -> Begun b = true ->
  tells (AppleAgxRtkitBootUpdatePhase (take b m)) (Some {| learned := s; said := said t ++ [m] |}) /\
  answer b m = reply (said t ++ [m]) m.
Proof.
  intros W (Hp & Hf & Hv & Hm) Hs Hty Ht Hb.
  destruct (update_phase_flags (take b m)) as (E1 & E2 & E3 & E4 & _ & _ & E7 & E8).
  assert (NegotiatedVersion (AppleAgxRtkitBootUpdatePhase (take b m)) =
    NegotiatedVersion (take b m)) as E9 by (by destruct (take b m) as [? ? ? ? [] [] [] ? []]).
  assert (facts (AppleAgxRtkitBootUpdatePhase (take b m)) = s) as Ef
    by (rewrite <- Ht; unfold facts; by rewrite E1, E2, E3, E4).
  pose proof (boot_map b W) as Hl. unfold tells. cbn [learned said]. rewrite E7, E9.
  unfold page, version in *. setoid_rewrite foldl_app. cbn [foldl].
  destruct m as [min max|min max| | |endpoint flag|state|state|last base bitmap|state];
    try done; cbn [take answer reply].
  destruct Hty as (Hlast & Hbase & _).
  assert (forall i, 0 <= i < 8 -> ((EndpointMap_ b) .[ base <- bitmap ]) .[ i ] =
    if base =? i then bitmap else foldl (fun v m => match m with
      EndpointMap _ b bitmap => if b =? i then bitmap else v | _ => v end) 0 (said t)) as Hpage.
  { intros i Hi. rewrite get_set, <- Hm by lia. case_decide; destruct (Z.eqb_spec base i); try lia; done. }
  split.
  - split; [done|]. split; [done|]. split; [by destruct (last =? 1)|].
    intros i Hi. rewrite <- Hpage by done. by destruct (last =? 1).
  - f_equal. destruct (last =? 1); [|done]. rewrite Hpage by lia.
    unfold page. by rewrite foldl_app.
Qed.

Lemma word_tells b t w e o :
  boot_wf b -> Begun b = true -> tells b t -> is_u64 w -> zlen (Message o) = 8 ->
  exists r b' o', AppleAgxRtkitBootHandle (Some b) w e (Some o) = (r, Some b', Some o') /\
    prescribed_word t w e = (r, prefix_list (Message o') (Count o'), snd (prescribed_word t w e)) /\
    tells b' (snd (prescribed_word t w e)) /\ boot_wf b' /\ Begun b' = true /\
    zlen (prefix_list (Message o') (Count o')) <= 8.
Proof.
  intros W Hb Ht Hw Ho. destruct (live_dec b) as [Hl|Hl].
  2: { destruct (handle_not_live b o w e Hl) as (o' & E & Hc). exists AppleAgxRtkitBootResultInvalidState, b, o'.
       rewrite (no_messages o' Hc). split; [done|].
       assert (prescribed_word t w e = (AppleAgxRtkitBootResultInvalidState, [], t)) as ->; [|done].
       destruct t as [t|]; [|done]. destruct Ht as (Hp & Hf & _). simpl.
       assert (Phase b = AppleAgxRtkitBootReady) as Hr.
       { destruct (decide (Phase b = AppleAgxRtkitBootReady)); [done|]. by destruct Hl. }
       apply (phase_ready b W Hp) in Hr. unfold shake_ready. rewrite <- Hf.
       cbn [facts hello mapped iop ap]. by rewrite Hr. }
  destruct t as [t|]; [|by destruct Hl as (_ & _ & Hn)].
  destruct (shake_of_live b W Hl) as [_ Hr]. pose proof Ht as (_ & Hf & _).
  pose proof (handle_cases b o w e (boot_requested b W) Hl Hw Ho) as Hc.
  rewrite Hf in Hr, Hc. cbn [prescribed_word]. rewrite Hr.
  assert (forall o', Count o' = 0 -> AppleAgxRtkitBootHandle (Some b) w e (Some o) =
    (AppleAgxRtkitBootResultProtocolViolation, Some (b <| Phase := AppleAgxRtkitBootFailed |>), Some o') ->
    exists r b' o', AppleAgxRtkitBootHandle (Some b) w e (Some o) = (r, Some b', Some o') /\
      (AppleAgxRtkitBootResultProtocolViolation, [], @None told) =
        (r, prefix_list (Message o') (Count o'), None) /\
      tells b' None /\ boot_wf b' /\ Begun b' = true /\
      zlen (prefix_list (Message o') (Count o')) <= 8) as Hfail.
  { intros o' Hc0 E. eexists _, _, o'. rewrite (no_messages o' Hc0).
    split_and!; [exact E|done|done|by apply boot_wf_failed|done|done]. }
  destruct (heard w e) as [m|] eqn:Eh; [|destruct Hc as (o' & E & Hc0); by eapply Hfail].
  destruct (shake_message (learned t) m) as [s|] eqn:Es;
    [|destruct Hc as (o' & E & Hc0); by eapply Hfail].
  destruct Hc as (m' & o' & Em & E & Hl8 & Hc & Hout). injection Em as <-.
  assert (management_typed m) as Hty by by eapply heard_typed.
  destruct (take_wf b m s W Hb) as (W' & Hs & Hb'); [by rewrite Hf|done|].
  destruct (take_tells b t m s W Ht Es Hty Hs Hb) as [Ht' Ha].
  eexists _, _, o'. split; [exact E|]. rewrite Hout, Ha. cbn [snd]. split_and!; [done|done|done| |].
  - by destruct (update_phase_flags (take b m)) as (_ & _ & _ & _ & _ & -> & _).
  - rewrite <- Ha, <- Hout. unfold zlen, prefix_list in *. rewrite length_take. lia.
Qed.

Lemma hear_all_tells ws : forall b t,
  boot_wf b -> Begun b = true -> tells b t ->
  Forall (fun p => is_u64 p.1.1 /\ zlen (Message p.2) = 8) ws ->
  exists b', hear_all ws (Some b) = ((prescribed t ws).1, Some b') /\ boot_wf b' /\
    tells b' (prescribed t ws).2 /\ Forall (fun a => zlen a.2 <= 8) (prescribed t ws).1.
Proof.
  induction ws as [|[[w e] o] ws IH]; intros b t W Hb Ht Hws.
  { exists b. split_and!; [done|done|done|constructor]. }
  apply Forall_cons in Hws as [[Hw Ho] Hws]. cbn [fst snd] in Hw, Ho.
  destruct (word_tells b t w e o W Hb Ht Hw Ho) as (r & b1 & o1 & E & Ep & Ht1 & W1 & Hb1 & Hle).
  destruct (IH b1 _ W1 Hb1 Ht1 Hws) as (b' & E' & W' & Ht' & Hall).
  exists b'. cbn [hear_all prescribed]. rewrite E, Ep. cbn [snd]. rewrite E'.
  destruct (prescribed (prescribed_word t w e).2 ws) as [l t'] eqn:El.
  split_and!; [done|done|done|]. by constructor.
Qed.

(** C24: a boot holds the prescribed conversation.  After Begin, give Handle any 64-bit words
    from any endpoints, with any output buffers.  Its result and the messages in the buffer are
    for each word those of the abstract handshake.  A word that is due is learned and the
    result is Ok: the hello, acknowledged at the offered maximum version; the pages of the
    endpoint map, each acknowledged, the last one with one start for every system endpoint of
    1 to 15 that the bitmap said last for page 0 advertises, in ascending order, and the
    request for AP power; the two power acknowledgements.  A word on another endpoint, one that
    does not decode or is not due is a protocol violation, answered with nothing, and fails the
    boot for good; a failed or finished boot refuses every word.  No answer has more than the
    eight messages the buffer holds.  At the end the version and the eight pages of the map
    are those that were said last, and the boot is ready exactly if all was learned. *)
Theorem boot_handle_refines raw o ws :
  zlen (EndpointMap_ raw) = 8 ->
  Forall (fun p => is_u64 p.1.1 /\ zlen (Message p.2) = 8) ws ->
  let '(answers, t) :=
    prescribed (Some {| learned := Build_shake false false false false; said := [] |}) ws in
  exists b, hear_all ws (begin_boot raw o) = (answers, Some b) /\ tells b t /\
    Forall (fun a => zlen a.2 <= 8) answers /\
    AppleAgxRtkitBootIsReady (Some b) =
      match t with Some t => shake_ready (learned t) | None => false end.
Proof.
  intros Hl Hws. destruct (begin_boot_spec raw o Hl) as (b & Eb & Hr & Hb & Hs).
  pose proof (reachable_inv b Hr : boot_wf b) as W.
  assert (tells b (Some {| learned := Build_shake false false false false; said := [] |})) as Ht.
  { unfold begin_boot, AppleAgxRtkitBootInitialize, AppleAgxRtkitBootBegin in Eb. simpl in Eb.
    apply (inj Some) in Eb. subst b. split; [done|]. split; [done|]. split; [done|].
    intros i Hi. cbn [EndpointMap_ set_field eta_expand boot_eta said].
    destruct (fill_loop_spec 0 8 (fun _ => 0) (EndpointMap_ raw)) as [_ Hfill]; [lia..|].
    rewrite Hfill by lia. by rewrite decide_True by lia. }
  destruct (hear_all_tells ws b _ W Hb Ht Hws) as (b' & E & W' & Ht' & Hall).
  destruct (prescribed _ ws) as [answers t]. cbn [fst snd] in *.
  exists b'. rewrite Eb. split_and!; [done|done|done|].
  simpl. destruct t as [t|]; simpl in Ht'.
  - destruct Ht' as (Hp & Hf & _). apply eq_true_iff_eq. rewrite bool_decide_eq_true.
    rewrite (phase_ready b' W' Hp), <- Hf. done.
  - by rewrite Ht'.
Qed.

(** Two pages of endpoints: those that are started are those of page 0. *)
Definition demo_words : list (Z * Z * APPLE_AGX_RTKIT_BOOT_OUTPUT) :=
  map (fun m => (management_word m, 0, raw_output))
    [IopPowerAck 0x20; Hello 11 12; EndpointMap 0 0 0x10e; EndpointMap 1 1 5; SetApPower 0x20].

Lemma boot_handle_refines_witness :
  exists b, hear_all demo_words (begin_boot raw_boot raw_output) =
    ([(AppleAgxRtkitBootResultOk, []);
      (AppleAgxRtkitBootResultOk, [management_word (HelloAck 12 12)]);
      (AppleAgxRtkitBootResultOk, [management_word (EndpointMap 0 0 1)]);
      (AppleAgxRtkitBootResultOk,
        management_word (EndpointMap 1 1 0) ::
        map (fun e => AppleAgxRtkitStartEndpoint e 2) [1; 2; 3; 8] ++
        [management_word (SetApPower 0x20)]);
      (AppleAgxRtkitBootResultOk, [])], Some b) /\
    AppleAgxRtkitBootIsReady (Some b) = true.
Proof.
  pose proof (boot_handle_refines raw_boot raw_output demo_words eq_refl) as H.
  specialize (H ltac:(by apply (bool_decide_unpack _); vm_compute)).
  destruct (prescribed _ demo_words) as [answers t] eqn:E. vm_compute in E.
  injection E as <- <-. destruct H as (b & H & _ & _ & Hr). exists b. by split.
Defined.

End Boot.
