(* ===== verification/Interact.v ===== *)
(** * Code that talks to its environment

    The parts of the driver that poll registers, wait for a clock and call the platform
    are commands: functions on the state [W] of everything outside the driver.  A command
    that has no result ran out of fuel or called a NULL callback; the rules of [wp] are
    for total correctness, so a proof of [wp] excludes both.  A C loop is [iterate]. *)

From S2P Require Import Prelude.

Module Interact.

Definition M (W A : Type) : Type := W -> option (A * W).

#[export] Instance M_ret W : MRet (M W) := fun A a w => Some (a, w).
#[export] Instance M_bind W : MBind (M W) := fun A B k m w =>
  match m w with Some (a, w') => k a w' | None => None end.

(** A callback that is there. *)
Definition call {W A} (f : W -> A * W) : M W A := fun w => Some (f w).

(** The call of a NULL callback: undefined in C. *)
Definition undefined {W A} : M W A := fun _ => None.

(** [for (;;) body]: the body goes on with a new loop state or leaves with a result. *)
Fixpoint iterate {W S A} (fuel : nat) (body : S -> M W (S + A)) (s : S) : M W A :=
  match fuel with
  | O => fun _ => None
  | Datatypes.S fuel =>
      r ← body s;
      match r with inl s => iterate fuel body s | inr a => mret a end
  end.

(** [for (i = lo; i < lo + n; ++i) body]: the body goes on with a new loop state or leaves
    the function with a result. *)
Fixpoint for_each {W S A} (n : nat) (i : Z) (body : Z -> S -> M W (S + A)) (s : S)
    : M W (S + A) :=
  match n with
  | O => mret (inl s)
  | Datatypes.S n =>
      r ← body i s;
      match r with inl s => for_each n (i + 1) body s | inr a => mret (inr a) end
  end.

(** The weakest precondition of a command for a total-correctness postcondition. *)
Definition wp {W A} (m : M W A) (Q : A -> W -> Prop) (w : W) : Prop :=
  match m w with Some (a, w') => Q a w' | None => False end.

Section rules.
Context {W : Type}.

Lemma wp_ret {A} (a : A) (Q : A -> W -> Prop) w : Q a w -> wp (mret a) Q w.
Proof. done. Qed.

Lemma wp_call {A} (f : W -> A * W) (Q : A -> W -> Prop) w :
  (forall a w', f w = (a, w') -> Q a w') -> wp (call f) Q w.
Proof. unfold wp, call. destruct (f w) as [a w']. auto. Qed.

Lemma wp_bind {A B} (m : M W A) (k : A -> M W B) (Q : B -> W -> Prop) w :
  wp m (fun a => wp (k a) Q) w -> wp (m ≫= k) Q w.
Proof. unfold wp, mbind, M_bind. by destruct (m w) as [[a w']|]. Qed.

Lemma wp_mono {A} (m : M W A) (P Q : A -> W -> Prop) w :
  wp m P w -> (forall a w', P a w' -> Q a w') -> wp m Q w.
Proof. unfold wp. destruct (m w) as [[a w']|]; auto. Qed.

(** A command with a postcondition, then the rest. *)
Lemma wp_seq {A B} (m : M W A) (k : A -> M W B) (P : A -> W -> Prop) (Q : B -> W -> Prop) w :
  wp m P w -> (forall a w', P a w' -> wp (k a) Q w') -> wp (m ≫= k) Q w.
Proof. intros Hm Hk. by apply wp_bind, (wp_mono _ P). Qed.

Lemma wp_and {A} (m : M W A) (P Q : A -> W -> Prop) w :
  wp m P w -> wp m Q w -> wp m (fun a w => P a w /\ Q a w) w.
Proof. unfold wp. by destruct (m w) as [[a w']|]. Qed.

(** What [wp] says of the command's result. *)
Lemma wp_result {A} (m : M W A) (Q : A -> W -> Prop) w :
  wp m Q w <-> exists a w', m w = Some (a, w') /\ Q a w'.
Proof.
  unfold wp. destruct (m w) as [[a w']|]; [|split; [done|by intros (? & ? & ? & _)]].
  split; [by exists a, w'|]. intros (? & ? & [= -> ->] & ?). done.
Qed.

(** The rule of loops: an invariant, and a measure that every round which goes on
    decreases and that the fuel bounds. *)
Lemma wp_iterate {S A} (I : S -> W -> Prop) (mu : S -> W -> nat) fuel
    (body : S -> M W (S + A)) (Q : A -> W -> Prop) s w :
  I s w -> (mu s w < fuel)%nat ->
  (forall s w, I s w -> wp (body s) (fun r w' =>
     match r with inl s' => I s' w' /\ (mu s' w' < mu s w)%nat | inr a => Q a w' end) w) ->
  wp (iterate fuel body s) Q w.
Proof.
  intros HI Hmu Hbody. revert s w HI Hmu.
  induction fuel as [|fuel IH]; intros s w HI Hmu; [lia|].
  cbn [iterate]. eapply wp_seq; [by apply Hbody|].
  intros [s'|a] w'; [|by intros]. intros [? ?]. apply IH; [done|lia].
Qed.

(** The rule of counted loops: the invariant counts the rounds. *)
Lemma wp_for_each {S A} (I : Z -> S -> W -> Prop) n lo (body : Z -> S -> M W (S + A))
    (Q : S + A -> W -> Prop) s w :
  I 0 s w ->
  (forall i s w, 0 <= i < Z.of_nat n -> I i s w -> wp (body (lo + i) s) (fun r w' =>
     match r with inl s' => I (i + 1) s' w' | inr a => Q (inr a) w' end) w) ->
  (forall s w, I (Z.of_nat n) s w -> Q (inl s) w) ->
  wp (for_each n lo body s) Q w.
Proof.
  intros H0 Hbody Hend.
  enough (forall m k s w, (k + m = n)%nat -> I (Z.of_nat k) s w ->
    wp (for_each m (lo + Z.of_nat k) body s) Q w) as H.
  { specialize (H n 0%nat s w ltac:(lia) H0). by replace (lo + Z.of_nat 0) with lo in H by lia. }
  clear s w H0. induction m as [|m IH]; intros k s w Hk HI; cbn [for_each].
  - apply wp_ret, Hend. by replace n with k by lia.
  - eapply wp_seq; [apply Hbody; [lia|done]|]. intros [s'|a] w' Hr; [|done].
    replace (lo + Z.of_nat k + 1) with (lo + Z.of_nat (k + 1)) by lia.
    apply IH; [lia|]. by replace (Z.of_nat (k + 1)) with (Z.of_nat k + 1) by lia.
Qed.
End rules.

End Interact.
