(* ===== verification/AscTransport.v ===== *)
(** * The coprocessor's mailbox (shared/src/apple_agx_asc_transport.c)

    [Asc] polls and writes the registers of the coprocessor through six callbacks: start
    and stop it, wait until it runs, send a message, receive one.  The callbacks are an
    argument and may answer anything.  [watched] puts an observer in front of them, who
    sees what the coprocessor sees ([signal]s: runs, sends, receives) and whether the
    mailbox was ever written when full or read when empty; the theorems speak of the
    observer's log.  A clock may stand still or go back, but it may say only finitely
    often that there is time left ([Clock]). *)

From S2P Require Import Prelude Arrays Bytes Interact.
Import Interact.

Module Asc.

(** ** Data *)

Definition J313_AGX_G2_ASC_CPU_CONTROL_OFFSET : Z := 0x44.
Definition J313_AGX_G2_ASC_CPU_STATUS_OFFSET : Z := 0x48.
Definition J313_AGX_G2_ASC_INBOX_CTRL_OFFSET : Z := 0x8110.
Definition J313_AGX_G2_ASC_OUTBOX_CTRL_OFFSET : Z := 0x8114.
Definition J313_AGX_G2_ASC_INBOX0_OFFSET : Z := 0x8800.
Definition J313_AGX_G2_ASC_INBOX1_OFFSET : Z := 0x8808.
Definition J313_AGX_G2_ASC_OUTBOX0_OFFSET : Z := 0x8830.
Definition J313_AGX_G2_ASC_OUTBOX1_OFFSET : Z := 0x8838.

Definition APPLE_AGX_ASC_FALSE : Z := 0.
Definition APPLE_AGX_ASC_TRUE : Z := 1.
Definition APPLE_AGX_ASC_CPU_RUN : Z := Z.shiftl 1 4.
Definition APPLE_AGX_ASC_CPU_RUNNING : Z := Z.shiftl 1 0.
Definition APPLE_AGX_ASC_CPU_STOPPED : Z := Z.shiftl 1 1.
Definition APPLE_AGX_ASC_MAILBOX_FULL : Z := Z.shiftl 1 16.
Definition APPLE_AGX_ASC_MAILBOX_EMPTY : Z := Z.shiftl 1 17.

Inductive APPLE_AGX_ASC_RESULT :=
  | AppleAgxAscResultOk
  | AppleAgxAscResultInvalidArgument
  | AppleAgxAscResultTimeout
  | AppleAgxAscResultClockRegression
  | AppleAgxAscResultTransportFailed.
#[export] Instance asc_result_eq_dec : EqDecision APPLE_AGX_ASC_RESULT.
Proof. solve_decision. Defined.

Record APPLE_AGX_ASC_MESSAGE := { am_Payload : Z; am_Endpoint : Z }.
#[export] Instance asc_message_eta : Eta APPLE_AGX_ASC_MESSAGE :=
  fun m => Build_APPLE_AGX_ASC_MESSAGE (am_Payload m) (am_Endpoint m).

(** The callbacks.  A read gets the old contents of the place it is to fill and returns
    the new ones, whether it succeeds or not. *)
Record APPLE_AGX_ASC_IO (W : Type) := {
  NowMs : ptr (W -> Z * W);
  Read32 : ptr (Z -> Z -> W -> (bool * Z) * W);
  Read64 : ptr (Z -> Z -> W -> (bool * Z) * W);
  Write32 : ptr (Z -> Z -> W -> bool * W);
  Write64 : ptr (Z -> Z -> W -> bool * W);
  Pause : ptr (W -> bool * W);
}.
Arguments NowMs {W} _.
Arguments Read32 {W} _.
Arguments Read64 {W} _.
Arguments Write32 {W} _.
Arguments Write64 {W} _.
Arguments Pause {W} _.

(** ** Operations *)

Section operations.
Context {W : Type}.
Implicit Types (Io : ptr (APPLE_AGX_ASC_IO W)).

(** [Io->NowMs(Io->Context)] and its siblings; the types of the C values are the widths. *)
Definition now_ms Io : M W Z :=
  deref io := Io else undefined in deref f := NowMs io else undefined in
  t ← call f; mret (u64 t).
Definition read32 Io (offset old : Z) : M W (bool * Z) :=
  deref io := Io else undefined in deref f := Read32 io else undefined in
  '(ok, v) ← call (f offset old); mret (ok, u32 v).
Definition read64 Io (offset old : Z) : M W (bool * Z) :=
  deref io := Io else undefined in deref f := Read64 io else undefined in
  '(ok, v) ← call (f offset old); mret (ok, u64 v).
Definition write32 Io (offset v : Z) : M W bool :=
  deref io := Io else undefined in deref f := Write32 io else undefined in call (f offset v).
Definition write64 Io (offset v : Z) : M W bool :=
  deref io := Io else undefined in deref f := Write64 io else undefined in call (f offset v).

(** [Io->Pause == NULL || Io->Pause(Io->Context)]. *)
Definition pause Io : M W bool :=
  deref io := Io else undefined in deref f := Pause io else mret true in call f.

Definition has {A} (field : APPLE_AGX_ASC_IO W -> ptr A) Io : bool :=
  deref io := Io else false in negb (is_null (field io)).

Definition AppleAgxAscReadIoValid Io : bool := has Read32 Io.
Definition AppleAgxAscSendIoValid Io : bool := has NowMs Io && has Read32 Io && has Write64 Io.
Definition AppleAgxAscReceiveIoValid Io : bool :=
  has NowMs Io && has Read32 Io && has Read64 Io.

Definition AppleAgxAscCheckDeadline Io (StartMs DeadlineMs : Z) : M W APPLE_AGX_ASC_RESULT :=
  now ← now_ms Io;
  mret (if now <? StartMs then AppleAgxAscResultClockRegression
        else if DeadlineMs <? now then AppleAgxAscResultTimeout
        else AppleAgxAscResultOk).

Definition AppleAgxAscReadCpuStatus Io (Status : ptr Z) : M W (APPLE_AGX_ASC_RESULT * ptr Z) :=
  if negb (AppleAgxAscReadIoValid Io) then mret (AppleAgxAscResultInvalidArgument, Status)
  else deref status := Status else mret (AppleAgxAscResultInvalidArgument, Status) in
  '(ok, status) ← read32 Io J313_AGX_G2_ASC_CPU_STATUS_OFFSET status;
  if negb ok then mret (AppleAgxAscResultTransportFailed, Some status)
  else mret (AppleAgxAscResultOk, Some status).

Definition AppleAgxAscReadInboxControl Io (Control : ptr Z) : M W (APPLE_AGX_ASC_RESULT * ptr Z) :=
  if negb (AppleAgxAscReadIoValid Io) then mret (AppleAgxAscResultInvalidArgument, Control)
  else deref control := Control else mret (AppleAgxAscResultInvalidArgument, Control) in
  '(ok, control) ← read32 Io J313_AGX_G2_ASC_INBOX_CTRL_OFFSET control;
  if negb ok then mret (AppleAgxAscResultTransportFailed, Some control)
  else mret (AppleAgxAscResultOk, Some control).

Definition AppleAgxAscReadOutboxControl Io (Control : ptr Z)
    : M W (APPLE_AGX_ASC_RESULT * ptr Z) :=
  if negb (AppleAgxAscReadIoValid Io) then mret (AppleAgxAscResultInvalidArgument, Control)
  else deref control := Control else mret (AppleAgxAscResultInvalidArgument, Control) in
  '(ok, control) ← read32 Io J313_AGX_G2_ASC_OUTBOX_CTRL_OFFSET control;
  if negb ok then mret (AppleAgxAscResultTransportFailed, Some control)
  else mret (AppleAgxAscResultOk, Some control).

Definition AppleAgxAscSetRun Io (Run_ : Z) : M W APPLE_AGX_ASC_RESULT :=
  if negb (AppleAgxAscReadIoValid Io) || negb (has Write32 Io) || (APPLE_AGX_ASC_TRUE <? Run_)
  then mret AppleAgxAscResultInvalidArgument
  else
    '(ok, control) ← read32 Io J313_AGX_G2_ASC_CPU_CONTROL_OFFSET 0;
    if negb ok then mret AppleAgxAscResultTransportFailed
    else
      let control :=
        if negb (Run_ =? APPLE_AGX_ASC_FALSE) then Z.lor control APPLE_AGX_ASC_CPU_RUN
        else Z.land control (u32 (Z.lnot APPLE_AGX_ASC_CPU_RUN)) in
      ok ← write32 Io J313_AGX_G2_ASC_CPU_CONTROL_OFFSET control;
      if negb ok then mret AppleAgxAscResultTransportFailed
      else mret AppleAgxAscResultOk.

Definition AppleAgxAscWaitRunning (fuel : nat) Io (DeadlineMs : Z) (Status : ptr Z)
    : M W (APPLE_AGX_ASC_RESULT * ptr Z) :=
  if negb (has NowMs Io) || negb (has Read32 Io) || is_null Status
  then mret (AppleAgxAscResultInvalidArgument, Status)
  else
    start_ms ← now_ms Io;
    if DeadlineMs <? start_ms then mret (AppleAgxAscResultTimeout, Status)
    else iterate fuel (fun Status =>
      '(result, Status) ← AppleAgxAscReadCpuStatus Io Status;
      match result with
      | AppleAgxAscResultOk =>
          if negb (Z.land (default 0 Status) APPLE_AGX_ASC_CPU_RUNNING =? 0) &&
             (Z.land (default 0 Status) APPLE_AGX_ASC_CPU_STOPPED =? 0)
          then mret (inr (AppleAgxAscResultOk, Status))
          else
            ok ← pause Io;
            if negb ok then mret (inr (AppleAgxAscResultTransportFailed, Status))
            else
              result ← AppleAgxAscCheckDeadline Io start_ms DeadlineMs;
              match result with
              | AppleAgxAscResultOk => mret (inl Status)
              | _ => mret (inr (result, Status))
              end
      | _ => mret (inr (result, Status))
      end) Status.

(** The polling loop of Send and of Receive: until [blocked] is clear in the control
    word at [offset]. *)
Definition poll (fuel : nat) Io (offset blocked start_ms DeadlineMs : Z)
    : M W APPLE_AGX_ASC_RESULT :=
  iterate fuel (fun control =>
    '(ok, control) ← read32 Io offset control;
    if negb ok then mret (inr AppleAgxAscResultTransportFailed)
    else if Z.land control blocked =? 0 then mret (inr AppleAgxAscResultOk)
    else
      ok ← pause Io;
      if negb ok then mret (inr AppleAgxAscResultTransportFailed)
      else
        result ← AppleAgxAscCheckDeadline Io start_ms DeadlineMs;
        match result with
        | AppleAgxAscResultOk => mret (inl control)
        | _ => mret (inr result)
        end) 0.

Definition AppleAgxAscSend (fuel : nat) Io (Payload Endpoint DeadlineMs : Z)
    : M W APPLE_AGX_ASC_RESULT :=
  if negb (AppleAgxAscSendIoValid Io) || (0xff <? Endpoint)
  then mret AppleAgxAscResultInvalidArgument
  else
    start_ms ← now_ms Io;
    if DeadlineMs <? start_ms then mret AppleAgxAscResultTimeout
    else
      result ← poll fuel Io J313_AGX_G2_ASC_INBOX_CTRL_OFFSET APPLE_AGX_ASC_MAILBOX_FULL
                 start_ms DeadlineMs;
      match result with
      | AppleAgxAscResultOk =>
          ok ← write64 Io J313_AGX_G2_ASC_INBOX0_OFFSET Payload;
          if negb ok then mret AppleAgxAscResultTransportFailed
          else
            ok ← write64 Io J313_AGX_G2_ASC_INBOX1_OFFSET Endpoint;
            if negb ok then mret AppleAgxAscResultTransportFailed
            else mret AppleAgxAscResultOk
      | _ => mret result
      end.

(** The two reads that take a message out of the outbox. *)
Definition fetch Io (m : APPLE_AGX_ASC_MESSAGE)
    : M W (APPLE_AGX_ASC_RESULT * APPLE_AGX_ASC_MESSAGE) :=
  '(ok, payload) ← read64 Io J313_AGX_G2_ASC_OUTBOX0_OFFSET (am_Payload m);
  let m := m <| am_Payload := payload |> in
  if negb ok then mret (AppleAgxAscResultTransportFailed, m)
  else
    '(ok, selector) ← read64 Io J313_AGX_G2_ASC_OUTBOX1_OFFSET 0;
    if negb ok then mret (AppleAgxAscResultTransportFailed, m)
    else mret (AppleAgxAscResultOk, m <| am_Endpoint := Z.land selector 0xff |>).

Definition AppleAgxAscTryReceive Io (Message : ptr APPLE_AGX_ASC_MESSAGE) (Available : ptr bool)
    : M W (APPLE_AGX_ASC_RESULT * ptr APPLE_AGX_ASC_MESSAGE * ptr bool) :=
  let Available := if is_null Available then Available else Some false in
  if negb (has Read32 Io) || negb (has Read64 Io) || is_null Available
  then mret (AppleAgxAscResultInvalidArgument, Message, Available)
  else deref m := Message
    else mret (AppleAgxAscResultInvalidArgument, Message, Available) in
  '(ok, control) ← read32 Io J313_AGX_G2_ASC_OUTBOX_CTRL_OFFSET 0;
  if negb ok then mret (AppleAgxAscResultTransportFailed, Message, Available)
  else if negb (Z.land control APPLE_AGX_ASC_MAILBOX_EMPTY =? 0)
  then mret (AppleAgxAscResultOk, Message, Available)
  else
    '(result, m) ← fetch Io m;
    match result with
    | AppleAgxAscResultOk => mret (AppleAgxAscResultOk, Some m, Some true)
    | _ => mret (result, Some m, Available)
    end.

Definition AppleAgxAscReceive (fuel : nat) Io (Message : ptr APPLE_AGX_ASC_MESSAGE)
    (DeadlineMs : Z) : M W (APPLE_AGX_ASC_RESULT * ptr APPLE_AGX_ASC_MESSAGE) :=
  if negb (AppleAgxAscReceiveIoValid Io) then mret (AppleAgxAscResultInvalidArgument, Message)
  else deref m := Message else mret (AppleAgxAscResultInvalidArgument, Message) in
  start_ms ← now_ms Io;
  if DeadlineMs <? start_ms then mret (AppleAgxAscResultTimeout, Message)
  else
    result ← poll fuel Io J313_AGX_G2_ASC_OUTBOX_CTRL_OFFSET APPLE_AGX_ASC_MAILBOX_EMPTY
               start_ms DeadlineMs;
    match result with
    | AppleAgxAscResultOk =>
        '(result, m) ← fetch Io m;
        mret (result, Some m)
    | _ => mret (result, Message)
    end.
End operations.

(** ** The observer *)

(** What passes between the driver and the coprocessor. *)
Inductive signal :=
  | Run (run : bool)
  | Send (payload endpoint : Z)
  | Recv (payload endpoint : Z).
#[export] Instance signal_eq_dec : EqDecision signal.
Proof. solve_decision. Defined.

(** The two mailboxes as the accesses show them: the latched first words, whether the last
    look at a control word allows the next access, whether an access was ever made that
    was not allowed, and the signals so far. *)
Record mailbox := {
  mb_inbox0 : Z;
  mb_outbox0 : Z;
  mb_room : bool;
  mb_filled : bool;
  mb_abused : bool;
  mb_log : list signal;
}.
#[export] Instance mailbox_eta : Eta mailbox :=
  fun b => Build_mailbox (mb_inbox0 b) (mb_outbox0 b) (mb_room b) (mb_filled b) (mb_abused b)
    (mb_log b).

Definition signals (l : list signal) (b : mailbox) : mailbox := b <| mb_log := mb_log b ++ l |>.

(** A successful read of a control word tells whether the next access is allowed. *)
Definition see_read32 (offset : Z) (ok : bool) (v : Z) (b : mailbox) : mailbox :=
  if offset =? J313_AGX_G2_ASC_INBOX_CTRL_OFFSET then b <| mb_room := ok && negb (Z.testbit v 16) |>
  else if offset =? J313_AGX_G2_ASC_OUTBOX_CTRL_OFFSET
  then b <| mb_filled := ok && negb (Z.testbit v 17) |>
  else b.

(** The second word's read empties the outbox. *)
Definition see_read64 (offset : Z) (ok : bool) (v : Z) (b : mailbox) : mailbox :=
  let b := b <| mb_abused := mb_abused b || negb (mb_filled b) |> in
  if offset =? J313_AGX_G2_ASC_OUTBOX0_OFFSET then if ok then b <| mb_outbox0 := v |> else b
  else if offset =? J313_AGX_G2_ASC_OUTBOX1_OFFSET
  then if ok then signals [Recv (mb_outbox0 b) (Z.land v 0xff)] (b <| mb_filled := false |>) else b
  else b.

Definition see_write32 (offset : Z) (ok : bool) (v : Z) (b : mailbox) : mailbox :=
  if (offset =? J313_AGX_G2_ASC_CPU_CONTROL_OFFSET) && ok then signals [Run (Z.testbit v 4)] b
  else b.

(** The second word's write posts the message. *)
Definition see_write64 (offset : Z) (ok : bool) (v : Z) (b : mailbox) : mailbox :=
  let b := b <| mb_abused := mb_abused b || negb (mb_room b) |> in
  if offset =? J313_AGX_G2_ASC_INBOX0_OFFSET then if ok then b <| mb_inbox0 := v |> else b
  else if offset =? J313_AGX_G2_ASC_INBOX1_OFFSET
  then if ok then signals [Send (mb_inbox0 b) v] (b <| mb_room := false |>) else b
  else b.

(** The callbacks of [io] with the observer in between. *)
Definition watched {W} (io : APPLE_AGX_ASC_IO W) : APPLE_AGX_ASC_IO (W * mailbox) := {|
  NowMs := (fun f s => let '(t, w) := f s.1 in (t, (w, s.2))) <$> NowMs io;
  Read32 := (fun f offset old s => let '((ok, v), w) := f offset old s.1 in
    ((ok, v), (w, see_read32 offset ok (u32 v) s.2))) <$> Read32 io;
  Read64 := (fun f offset old s => let '((ok, v), w) := f offset old s.1 in
    ((ok, v), (w, see_read64 offset ok (u64 v) s.2))) <$> Read64 io;
  Write32 := (fun f offset v s => let '(ok, w) := f offset v s.1 in
    (ok, (w, see_write32 offset ok v s.2))) <$> Write32 io;
  Write64 := (fun f offset v s => let '(ok, w) := f offset v s.1 in
    (ok, (w, see_write64 offset ok v s.2))) <$> Write64 io;
  Pause := (fun f s => let '(ok, w) := f s.1 in (ok, (w, s.2))) <$> Pause io;
|}.

(** The clock and what the polls need of it: in a row it says at most [patience] times that
    it is before [limit]; [within] counts what is left of such a row, and nothing but a
    look at the clock after [limit] begins a new one. *)
Class Clock {W} (io : APPLE_AGX_ASC_IO W) (limit : Z) (within : W -> nat) (patience : nat)
    : Prop := {
  clock_patience : forall w, (within w <= patience)%nat;
  clock_now : forall f w t w', NowMs io = Some f -> f w = (t, w') -> u64 t < limit ->
    (within w' < within w)%nat;
  clock_read32 : forall f offset old w r w', Read32 io = Some f -> f offset old w = (r, w') ->
    (within w' <= within w)%nat;
  clock_read64 : forall f offset old w r w', Read64 io = Some f -> f offset old w = (r, w') ->
    (within w' <= within w)%nat;
  clock_write32 : forall f offset v w r w', Write32 io = Some f -> f offset v w = (r, w') ->
    (within w' <= within w)%nat;
  clock_write64 : forall f offset v w r w', Write64 io = Some f -> f offset v w = (r, w') ->
    (within w' <= within w)%nat;
  clock_pause : forall f w r w', Pause io = Some f -> f w = (r, w') ->
    (within w' <= within w)%nat;
}.

Section watching.
Context {W : Type} (io : APPLE_AGX_ASC_IO W) (limit : Z) (within : W -> nat) (patience : nat)
  `{!Clock io limit within patience}.
Notation St := (W * mailbox)%type.
Implicit Types (s : St) (l : list signal) (D : Z).

(** From [s] to [s'] exactly the signals [l] passed and the mailbox was not abused. *)
Record passes l s s' : Prop := {
  passes_log : mb_log s'.2 = mb_log s.2 ++ l;
  passes_fair : mb_abused s'.2 = mb_abused s.2;
}.

Lemma passes_refl s : passes [] s s.
Proof. split; [|done]. by rewrite app_nil_r. Qed.

Lemma passes_trans l1 l2 s1 s2 s3 :
  passes l1 s1 s2 -> passes l2 s2 s3 -> passes (l1 ++ l2) s1 s3.
Proof.
  intros [L1 F1] [L2 F2]. split.
  - by rewrite L2, L1, app_assoc.
  - by rewrite F2.
Qed.

Lemma passes_quiet_l l s1 s2 s3 : passes [] s1 s2 -> passes l s2 s3 -> passes l s1 s3.
Proof. apply (passes_trans []). Qed.

Lemma passes_quiet_r l s1 s2 s3 : passes l s1 s2 -> passes [] s2 s3 -> passes l s1 s3.
Proof. intros H1 H2. rewrite <- (app_nil_r l). by eapply passes_trans. Qed.
Notation Io := (Some (watched io)).

Lemma has_watched :
  has NowMs Io = has NowMs (Some io) /\ has Read32 Io = has Read32 (Some io) /\
  has Read64 Io = has Read64 (Some io) /\ has Write32 Io = has Write32 (Some io) /\
  has Write64 Io = has Write64 (Some io).
Proof.
  unfold has. simpl.
  by destruct (NowMs io), (Read32 io), (Read64 io), (Write32 io), (Write64 io).
Qed.

(** The world went on without a look at the clock. *)
Definition later (w w' : W) : Prop := (within w' <= within w)%nat.

Lemma wp_now_ms s (Q : Z -> St -> Prop) :
  has NowMs Io = true ->
  (forall t w', is_u64 t -> (t < limit -> (within w' < within s.1)%nat) -> Q t (w', s.2)) ->
  wp (now_ms Io) Q s.
Proof.
  destruct has_watched as (-> & _). unfold has, now_ms. simpl.
  destruct (NowMs io) as [f|] eqn:E; [|done]. intros _ HQ. apply wp_bind, wp_call.
  intros t s'. destruct (f s.1) as [t' w'] eqn:Ef. intros [= <- <-]. apply wp_ret, HQ.
  - apply Z.mod_pos_bound. lia.
  - by eapply clock_now.
Qed.

Lemma wp_read32 offset old s (Q : bool * Z -> St -> Prop) :
  has Read32 Io = true ->
  (forall ok v w', is_u32 v -> later s.1 w' -> Q (ok, v) (w', see_read32 offset ok v s.2)) ->
  wp (read32 Io offset old) Q s.
Proof.
  destruct has_watched as (_ & -> & _). unfold has, read32. simpl.
  destruct (Read32 io) as [f|] eqn:E; [|done]. intros _ HQ. apply wp_bind, wp_call.
  intros [ok v] s'. destruct (f offset old s.1) as [[ok' v'] w'] eqn:Ef. intros [= <- <- <-].
  apply wp_ret, HQ; [apply Z.mod_pos_bound; lia|].
  by eapply clock_read32.
Qed.

Lemma wp_read64 offset old s (Q : bool * Z -> St -> Prop) :
  has Read64 Io = true ->
  (forall ok v w', is_u64 v -> later s.1 w' -> Q (ok, v) (w', see_read64 offset ok v s.2)) ->
  wp (read64 Io offset old) Q s.
Proof.
  destruct has_watched as (_ & _ & -> & _). unfold has, read64. simpl.
  destruct (Read64 io) as [f|] eqn:E; [|done]. intros _ HQ. apply wp_bind, wp_call.
  intros [ok v] s'. destruct (f offset old s.1) as [[ok' v'] w'] eqn:Ef. intros [= <- <- <-].
  apply wp_ret, HQ; [apply Z.mod_pos_bound; lia|].
  by eapply clock_read64.
Qed.

Lemma wp_write32 offset v s (Q : bool -> St -> Prop) :
  has Write32 Io = true ->
  (forall ok w', later s.1 w' -> Q ok (w', see_write32 offset ok v s.2)) ->
  wp (write32 Io offset v) Q s.
Proof.
  destruct has_watched as (_ & _ & _ & -> & _). unfold has, write32. simpl.
  destruct (Write32 io) as [f|] eqn:E; [|done]. intros _ HQ. apply wp_call.
  intros ok s'. destruct (f offset v s.1) as [ok' w'] eqn:Ef. intros [= <- <-].
  apply HQ. by eapply clock_write32.
Qed.

Lemma wp_write64 offset v s (Q : bool -> St -> Prop) :
  has Write64 Io = true ->
  (forall ok w', later s.1 w' -> Q ok (w', see_write64 offset ok v s.2)) ->
  wp (write64 Io offset v) Q s.
Proof.
  destruct has_watched as (_ & _ & _ & _ & ->). unfold has, write64. simpl.
  destruct (Write64 io) as [f|] eqn:E; [|done]. intros _ HQ. apply wp_call.
  intros ok s'. destruct (f offset v s.1) as [ok' w'] eqn:Ef. intros [= <- <-].
  apply HQ. by eapply clock_write64.
Qed.

Lemma wp_pause s (Q : bool -> St -> Prop) :
  (forall ok w', later s.1 w' -> Q ok (w', s.2)) -> wp (pause Io) Q s.
Proof.
  unfold pause. simpl. destruct (Pause io) as [f|] eqn:E; simpl; intros HQ.
  - apply wp_call. intros ok s'. destruct (f s.1) as [ok' w'] eqn:Ef. intros [= <- <-].
    apply HQ. by eapply clock_pause.
  - apply wp_ret. destruct s. apply HQ. unfold later. simpl. lia.
Qed.

Lemma see_room v b :
  mb_room (see_read32 J313_AGX_G2_ASC_INBOX_CTRL_OFFSET true v b) = negb (Z.testbit v 16).
Proof. reflexivity. Qed.
Lemma see_filled v b :
  mb_filled (see_read32 J313_AGX_G2_ASC_OUTBOX_CTRL_OFFSET true v b) = negb (Z.testbit v 17).
Proof. reflexivity. Qed.

(** Looking at a control register is no signal. *)
Lemma passes_look s w' offset ok v : passes [] s (w', see_read32 offset ok v s.2).
Proof.
  split; simpl; unfold see_read32; repeat case_match; simpl; by rewrite ?app_nil_r.
Qed.

Lemma passes_wait s w' : passes [] s (w', s.2).
Proof. split; [simpl; by rewrite app_nil_r|done]. Qed.

(** Every look at the clock that says there is time costs time. *)
Lemma check_deadline_spec s start D :
  D < limit -> has NowMs Io = true ->
  wp (AppleAgxAscCheckDeadline Io start D) (fun r s' => passes [] s s' /\
    (r = AppleAgxAscResultOk -> (within s'.1 < within s.1)%nat)) s.
Proof.
  intros HD Hn. apply wp_bind, wp_now_ms; [done|]. intros t w' Ht Hlt. apply wp_ret.
  split; [by apply passes_wait|]. destruct (Z.ltb_spec t start), (Z.ltb_spec D t); try done.
  intros _. apply Hlt. lia.
Qed.

(** ** What the operations do *)

Lemma poll_spec fuel offset b start D s :
  D < limit -> has NowMs Io = true -> has Read32 Io = true -> 0 <= b -> (patience < fuel)%nat ->
  wp (poll fuel Io offset (Z.shiftl 1 b) start D) (fun r s' => passes [] s s' /\
    (r = AppleAgxAscResultOk ->
     (within s'.1 <= within s.1)%nat /\
     exists seen v, s'.2 = see_read32 offset true v seen /\ Z.testbit v b = false)) s.
Proof.
  intros HD Hn Hr Hb Hfuel. pose proof (clock_patience s.1) as Hpat.
  apply (wp_iterate (fun _ s' => passes [] s s' /\ (within s'.1 <= within s.1)%nat)
    (fun _ s' => within s'.1)); [split; [apply passes_refl|lia]|lia|].
  clear Hfuel Hpat. intros old s1 [H1 Hc]. apply wp_bind, wp_read32; [done|]. intros ok v w1 Hv Hw1.
  pose proof (passes_quiet_l _ _ _ _ H1 (passes_look _ w1 offset ok v)) as H2.
  unfold later in *. destruct ok; cbn [negb]; [|by apply wp_ret].
  rewrite <- (negb_involutive (Z.land v _ =? 0)), land_bit by done.
  destruct (Z.testbit v b) eqn:Ev; cbn [negb].
  2: { apply wp_ret. split; [done|]. intros _. split; [simpl; lia|eauto]. }
  apply wp_bind, wp_pause. intros ok w2 Hw2. unfold later in *.
  pose proof (passes_quiet_l _ _ _ _ H2 (passes_wait _ w2)) as H3.
  destruct ok; cbn [negb]; [|by apply wp_ret].
  eapply wp_seq; [by apply check_deadline_spec|]. intros r s3 (H4 & Hlt).
  pose proof (passes_quiet_l _ _ _ _ H3 H4) as H5. cbn [fst] in *.
  destruct r; apply wp_ret; try done. specialize (Hlt eq_refl). split; [split; [done|]|]; lia.
Qed.

(** The signals of an operation that gives them only if it succeeds. *)
Definition if_ok (r : APPLE_AGX_ASC_RESULT) (l : list signal) : list signal :=
  match r with AppleAgxAscResultOk => l | _ => [] end.

Lemma send_spec fuel payload endpoint D s :
  D < limit -> (patience < fuel)%nat ->
  wp (AppleAgxAscSend fuel Io payload endpoint D)
    (fun r s' => passes (if_ok r [Send payload endpoint]) s s' /\
       (r = AppleAgxAscResultOk -> (within s'.1 < within s.1)%nat)) s.
Proof.
  intros HD Hfuel. unfold AppleAgxAscSend, AppleAgxAscSendIoValid.
  destruct (has NowMs Io) eqn:Hn, (has Read32 Io) eqn:Hr, (has Write64 Io) eqn:Hw;
    try (apply wp_ret; split; [apply passes_refl|done]).
  destruct (0xff <? endpoint); [apply wp_ret; split; [apply passes_refl|done]|].
  cbn [andb negb orb]. apply wp_bind, wp_now_ms; [done|]. intros t w1 _ Hlt.
  pose proof (passes_wait s w1) as H1. destruct (Z.ltb_spec D t); [by apply wp_ret|].
  specialize (Hlt ltac:(lia)). eapply wp_seq; [by apply (poll_spec _ _ 16)|].
  intros r s2 (H2 & Hopen). pose proof (passes_quiet_l _ _ _ _ H1 H2) as H3.
  destruct r; try (by apply wp_ret). destruct (Hopen eq_refl) as (Hc & seen & v & Es & Ev).
  assert (mb_room s2.2 = true) as Hroom by (by rewrite Es, see_room, Ev).
  clear Es Ev Hopen H1 H2. destruct H3 as [Hl Hf]. destruct s2 as [w2 b2]. simpl in *.
  apply wp_bind, wp_write64; [done|]. intros ok w3 Hw3. unfold later in *.
  destruct ok; cbn [negb]; [apply wp_bind, wp_write64; [done|]; intros ok w4 Hw4; destruct ok|];
    cbn [negb]; apply wp_ret; unfold later in *; (split; [split|]);
    simpl in *; rewrite ?Hroom, ?orb_false_r; try done; try (intros _; lia).
  by rewrite Hl, app_nil_r.
Qed.

Lemma fetch_spec m s :
  has Read64 Io = true -> mb_filled s.2 = true ->
  wp (fetch Io m) (fun r s' =>
    passes (if_ok r.1 [Recv (am_Payload r.2) (am_Endpoint r.2)]) s s' /\
    (r.1 = AppleAgxAscResultOk -> is_u64 (am_Payload r.2) /\ is_u8 (am_Endpoint r.2) /\
       (within s'.1 <= within s.1)%nat)) s.
Proof.
  intros Hr Hfill. destruct s as [w b]. simpl in *.
  apply wp_bind, wp_read64; [done|]. intros ok p w1 Hp Hw1. unfold later in *. simpl in *.
  destruct ok; cbn [negb]; [apply wp_bind, wp_read64; [done|]; intros ok sel w2 Hsel Hw2;
    destruct ok|]; cbn [negb]; apply wp_ret; unfold later in *; cbn [fst snd];
    (split; [split|]); simpl in *; rewrite ?Hfill, ?orb_false_r, ?app_nil_r; try done.
  intros _. rewrite land_ff. split_and!; [done..|by apply Z.mod_pos_bound|]. lia.
Qed.

(** What a receive leaves in the message it was given. *)
Definition received (r : APPLE_AGX_ASC_RESULT) (m : ptr APPLE_AGX_ASC_MESSAGE) s s' : Prop :=
  exists m', m = Some m' /\ passes (if_ok r [Recv (am_Payload m') (am_Endpoint m')]) s s' /\
    (r = AppleAgxAscResultOk -> is_u64 (am_Payload m') /\ is_u8 (am_Endpoint m')).

Lemma receive_spec fuel m D s :
  D < limit -> (patience < fuel)%nat ->
  wp (AppleAgxAscReceive fuel Io (Some m) D) (fun r s' => received r.1 r.2 s s' /\
    (r.1 = AppleAgxAscResultOk -> (within s'.1 < within s.1)%nat)) s.
Proof.
  intros HD Hfuel. unfold AppleAgxAscReceive, AppleAgxAscReceiveIoValid.
  assert (forall s' r, passes [] s s' -> r <> AppleAgxAscResultOk -> received r (Some m) s s' /\
    (r = AppleAgxAscResultOk -> (within s'.1 < within s.1)%nat)) as Hno.
  { intros s' r Hs Hr. split; [|done]. exists m. by destruct r. }
  destruct (has NowMs Io) eqn:Hn, (has Read32 Io) eqn:Hr, (has Read64 Io) eqn:Hr6;
    try (apply wp_ret; apply Hno; [apply passes_refl|done]).
  cbn [andb negb]. apply wp_bind, wp_now_ms; [done|]. intros t w1 _ Hlt.
  pose proof (passes_wait s w1) as H1. destruct (Z.ltb_spec D t); [by apply wp_ret, Hno|].
  specialize (Hlt ltac:(lia)). eapply wp_seq; [by apply (poll_spec _ _ 17)|].
  intros r s2 (H2 & Hopen). pose proof (passes_quiet_l _ _ _ _ H1 H2) as H3.
  destruct r; try (by apply wp_ret, Hno). destruct (Hopen eq_refl) as (Hc & seen & v & Es & Ev).
  eapply wp_seq; [apply fetch_spec; [done|by rewrite Es, see_filled, Ev]|].
  intros [r m'] s3 [H4 Ht]. cbn [fst snd] in *. apply wp_ret. cbn [fst snd]. split.
  - exists m'. split_and!; [done|by eapply passes_quiet_l|]. intros Hok.
    by destruct (Ht Hok) as (? & ? & _).
  - intros Hok. destruct (Ht Hok) as (_ & _ & ?). lia.
Qed.

Lemma try_receive_spec m available s :
  wp (AppleAgxAscTryReceive Io (Some m) (Some available)) (fun r s' =>
    (exists m', r.1.2 = Some m' /\
      match r.1.1, r.2 with
      | AppleAgxAscResultOk, Some true =>
          passes [Recv (am_Payload m') (am_Endpoint m')] s s' /\
          is_u64 (am_Payload m') /\ is_u8 (am_Endpoint m')
      | _, Some false => passes [] s s'
      | _, _ => False
      end)) s.
Proof.
  unfold AppleAgxAscTryReceive. cbn [is_null].
  destruct (has Read32 Io) eqn:Hr, (has Read64 Io) eqn:Hr6;
    try (apply wp_ret; exists m; split; [done|]; apply passes_refl).
  cbn [negb orb]. apply wp_bind, wp_read32; [done|]. intros ok v w1 Hv Hw1.
  pose proof (passes_look s w1 J313_AGX_G2_ASC_OUTBOX_CTRL_OFFSET ok v) as H1.
  destruct ok; cbn [negb]; [|apply wp_ret; by exists m].
  unfold APPLE_AGX_ASC_MAILBOX_EMPTY. rewrite land_bit by done.
  destruct (Z.testbit v 17) eqn:Ev; [apply wp_ret; by exists m|].
  eapply wp_seq; [apply fetch_spec; [done|cbn [snd]; by rewrite see_filled, Ev]|].
  intros [r m'] s2 [H2 Ht]. cbn [fst snd] in *. pose proof (passes_quiet_l _ _ _ _ H1 H2).
  destruct r; apply wp_ret; exists m'; split; try done. split; [done|].
  by destruct (Ht eq_refl) as (? & ? & _).
Qed.

(** The control word with the run bit set or cleared. *)
Lemma see_run v (run : bool) :
  Z.testbit (if negb ((if run then APPLE_AGX_ASC_TRUE else APPLE_AGX_ASC_FALSE)
                       =? APPLE_AGX_ASC_FALSE)
             then Z.lor v APPLE_AGX_ASC_CPU_RUN
             else Z.land v (u32 (Z.lnot APPLE_AGX_ASC_CPU_RUN))) 4 = run.
Proof.
  destruct run.
  - change (negb _) with true. cbv iota. rewrite Z.lor_spec. apply orb_true_r.
  - change (negb _) with false. cbv iota. rewrite Z.land_spec. apply andb_false_r.
Qed.

Lemma set_run_spec (run : bool) s :
  wp (AppleAgxAscSetRun Io (if run then APPLE_AGX_ASC_TRUE else APPLE_AGX_ASC_FALSE))
    (fun r s' => passes (if_ok r [Run run]) s s') s.
Proof.
  unfold AppleAgxAscSetRun, AppleAgxAscReadIoValid.
  destruct (has Read32 Io) eqn:Hr, (has Write32 Io) eqn:Hw;
    try (apply wp_ret; apply passes_refl).
  replace (APPLE_AGX_ASC_TRUE <? _) with false by by destruct run. cbn [negb orb].
  apply wp_bind, wp_read32; [done|]. intros ok v w1 Hv Hw1.
  pose proof (passes_look s w1 J313_AGX_G2_ASC_CPU_CONTROL_OFFSET ok v) as H1.
  destruct ok; cbn [negb]; [|by apply wp_ret].
  apply wp_bind, wp_write32; [done|]. intros ok w2 Hw2.
  destruct ok; cbn [negb]; apply wp_ret; cbn [if_ok].
  2: { eapply passes_quiet_l; [done|]. split; [|done].
       unfold see_write32. rewrite andb_false_r. simpl. by rewrite app_nil_r. }
  eapply passes_quiet_l; [done|]. split; [|done].
  unfold see_write32. rewrite Z.eqb_refl. cbn [andb snd signals mb_log set_field].
  rewrite see_run. by destruct run.
Qed.

Lemma read_cpu_status_spec status s :
  wp (AppleAgxAscReadCpuStatus Io (Some status))
    (fun r s' => passes [] s s' /\ is_Some r.2 /\ (within s'.1 <= within s.1)%nat) s.
Proof.
  unfold AppleAgxAscReadCpuStatus, AppleAgxAscReadIoValid.
  destruct (has Read32 Io) eqn:Hr; cbn [negb]; [|apply wp_ret; by split; [apply passes_refl|]].
  apply wp_bind, wp_read32; [done|]. intros ok v w1 Hv Hw1.
  destruct ok; apply wp_ret; (split; [by apply passes_look|done]).
Qed.

Lemma read_inbox_control_spec control s :
  wp (AppleAgxAscReadInboxControl Io (Some control))
    (fun r s' => passes [] s s' /\ exists v, r.2 = Some v) s.
Proof.
  unfold AppleAgxAscReadInboxControl, AppleAgxAscReadIoValid.
  destruct (has Read32 Io) eqn:Hr; cbn [negb];
    [|apply wp_ret; split; [apply passes_refl|by eexists]].
  apply wp_bind, wp_read32; [done|]. intros ok v w1 Hv Hw1.
  destruct ok; apply wp_ret; (split; [by apply passes_look|by eexists]).
Qed.

Lemma read_outbox_control_spec control s :
  wp (AppleAgxAscReadOutboxControl Io (Some control))
    (fun r s' => passes [] s s' /\ exists v, r.2 = Some v) s.
Proof.
  unfold AppleAgxAscReadOutboxControl, AppleAgxAscReadIoValid.
  destruct (has Read32 Io) eqn:Hr; cbn [negb];
    [|apply wp_ret; split; [apply passes_refl|by eexists]].
  apply wp_bind, wp_read32; [done|]. intros ok v w1 Hv Hw1.
  destruct ok; apply wp_ret; (split; [by apply passes_look|by eexists]).
Qed.

Lemma wait_running_spec fuel D status s :
  D < limit -> (patience < fuel)%nat ->
  wp (AppleAgxAscWaitRunning fuel Io D (Some status)) (fun _ s' => passes [] s s') s.
Proof.
  intros HD Hfuel. unfold AppleAgxAscWaitRunning.
  destruct (has NowMs Io) eqn:Hn, (has Read32 Io) eqn:Hr; cbn [negb orb is_null];
    try (apply wp_ret; apply passes_refl).
  apply wp_bind, wp_now_ms; [done|]. intros t w1 _ _. pose proof (passes_wait s w1) as H1.
  destruct (D <? t); [by apply wp_ret|]. pose proof (clock_patience w1).
  apply (wp_iterate (fun p s' => passes [] s s' /\ is_Some p) (fun _ s' => within s'.1));
    [by eauto|simpl; lia|].
  clear H H1. intros p s1 [H1 [v ->]]. eapply wp_seq; [by apply read_cpu_status_spec|].
  intros [r p] s2 (H2 & Hp & Hc). cbn [snd] in *. pose proof (passes_quiet_l _ _ _ _ H1 H2) as H3.
  destruct r; try (by apply wp_ret). destruct (_ && _); [by apply wp_ret|].
  apply wp_bind, wp_pause. intros ok w3 Hw3.
  pose proof (passes_quiet_l _ _ _ _ H3 (passes_wait _ w3)) as H4.
  destruct ok; cbn [negb]; [|by apply wp_ret].
  eapply wp_seq; [by apply check_deadline_spec|]. intros r s4 (H5 & Hlt).
  pose proof (passes_quiet_l _ _ _ _ H4 H5) as H6. unfold later in *. cbn [fst] in *.
  destruct r; apply wp_ret; try done. specialize (Hlt eq_refl). split; [done|]. lia.
Qed.
End watching.

End Asc.
