(* ===== verification/GfxHandoff.v ===== *)
(** * The lock shared with the firmware (shared/src/apple_agx_gfx_handoff.c)

    [Handoff] is the processor's side of a two-party lock in shared memory: a flag of each
    side and a turn, in Dekker's manner, and the exchange of magic words that sets it up.
    The firmware is the environment: while the driver is between two accesses it may move
    by [fw_step].  The theorems: while the driver holds the lock the firmware is not in its
    critical section, and an attempt to take the lock ends, with the flag lowered unless
    it succeeded. *)

From S2P Require Import Prelude Arrays Interact.
Import Interact.

Module Handoff.

(** ** Data *)

Definition APPLE_AGX_GFX_HANDOFF_MAGIC_AP_OFFSET : Z := 0x000.
Definition APPLE_AGX_GFX_HANDOFF_MAGIC_FW_OFFSET : Z := 0x008.
Definition APPLE_AGX_GFX_HANDOFF_LOCK_AP_OFFSET : Z := 0x010.
Definition APPLE_AGX_GFX_HANDOFF_LOCK_FW_OFFSET : Z := 0x011.
Definition APPLE_AGX_GFX_HANDOFF_TURN_OFFSET : Z := 0x014.
Definition APPLE_AGX_GFX_HANDOFF_FLUSH_STATE_OFFSET : Z := 0x020.
Definition APPLE_AGX_GFX_HANDOFF_FLUSH_ADDR_OFFSET : Z := 0x028.
Definition APPLE_AGX_GFX_HANDOFF_FLUSH_SIZE_OFFSET : Z := 0x030.
Definition APPLE_AGX_GFX_HANDOFF_FLUSH_STRIDE : Z := 0x018.
Definition APPLE_AGX_GFX_HANDOFF_FLUSH_COUNT : Z := 0x041.
Definition APPLE_AGX_GFX_HANDOFF_PPL_MAGIC : Z := 0x4b1d000000000002.
Definition APPLE_AGX_GFX_HANDOFF_MINIMUM_SIZE : Z := 0x648.
Definition J313_AGX_G2_HANDOFF_BASE : Z := 0x9fff70000.
Definition J313_AGX_G2_HANDOFF_SIZE : Z := 0x4000.

Inductive APPLE_AGX_GFX_HANDOFF_RESULT :=
  | AppleAgxGfxHandoffResultOk
  | AppleAgxGfxHandoffResultInvalidArgument
  | AppleAgxGfxHandoffResultInvalidGeometry
  | AppleAgxGfxHandoffResultInvalidState
  | AppleAgxGfxHandoffResultAccessFailed
  | AppleAgxGfxHandoffResultTimeout.
#[export] Instance handoff_result_eq_dec : EqDecision APPLE_AGX_GFX_HANDOFF_RESULT.
Proof. solve_decision. Defined.

Record APPLE_AGX_GFX_HANDOFF_REGION := { PhysicalBase : Z; Length : Z }.

Record APPLE_AGX_GFX_HANDOFF_IO (W : Type) := {
  Read8 : ptr (Z -> Z -> W -> (bool * Z) * W);
  Read32 : ptr (Z -> Z -> W -> (bool * Z) * W);
  Read64 : ptr (Z -> Z -> W -> (bool * Z) * W);
  Write8 : ptr (Z -> Z -> W -> bool * W);
  Write32 : ptr (Z -> Z -> W -> bool * W);
  Write64 : ptr (Z -> Z -> W -> bool * W);
  Barrier : ptr (W -> unit * W);
  Relax : ptr (W -> unit * W);
  Now : ptr (W -> Z * W);
}.
Arguments Read8 {W} _.
Arguments Read32 {W} _.
Arguments Read64 {W} _.
Arguments Write8 {W} _.
Arguments Write32 {W} _.
Arguments Write64 {W} _.
Arguments Barrier {W} _.
Arguments Relax {W} _.
Arguments Now {W} _.

Record APPLE_AGX_GFX_HANDOFF_STATE (W : Type) := {
  Region : APPLE_AGX_GFX_HANDOFF_REGION;
  Io : APPLE_AGX_GFX_HANDOFF_IO W;
  Bound : bool;
  Locked : bool;
  Initialized : bool;
}.
Arguments Region {W} _.
Arguments Io {W} _.
Arguments Bound {W} _.
Arguments Locked {W} _.
Arguments Initialized {W} _.
#[export] Instance handoff_state_eta {W} : Eta (APPLE_AGX_GFX_HANDOFF_STATE W) :=
  fun s => Build_APPLE_AGX_GFX_HANDOFF_STATE W (Region s) (Io s) (Bound s) (Locked s)
    (Initialized s).

(** ** Operations *)

Section operations.
Context {W : Type}.
Notation IO := (APPLE_AGX_GFX_HANDOFF_IO W).
Notation STATE := (APPLE_AGX_GFX_HANDOFF_STATE W).
Implicit Types (s : STATE).

Definition io_valid (io : ptr IO) : bool :=
  deref io := io else false in
  negb (is_null (Read8 io)) && negb (is_null (Read32 io)) && negb (is_null (Read64 io)) &&
  negb (is_null (Write8 io)) && negb (is_null (Write32 io)) && negb (is_null (Write64 io)) &&
  negb (is_null (Barrier io)) && negb (is_null (Relax io)) && negb (is_null (Now io)).

Definition barrier s : M W unit := deref f := Barrier (Io s) else undefined in call f.
Definition relax s : M W unit := deref f := Relax (Io s) else undefined in call f.
Definition now s : M W Z := deref f := Now (Io s) else undefined in t ← call f; mret (u64 t).

Definition read8 s (o v : Z) : M W (bool * Z) :=
  deref f := Read8 (Io s) else undefined in
  '(ok, v) ← call (f o v);
  if negb ok then mret (false, u8 v) else barrier s;; mret (true, u8 v).
Definition read32 s (o v : Z) : M W (bool * Z) :=
  deref f := Read32 (Io s) else undefined in
  '(ok, v) ← call (f o v);
  if negb ok then mret (false, u32 v) else barrier s;; mret (true, u32 v).
Definition write8 s (o v : Z) : M W bool :=
  deref f := Write8 (Io s) else undefined in
  ok ← call (f o v);
  if negb ok then mret false else barrier s;; mret true.
Definition write32 s (o v : Z) : M W bool :=
  deref f := Write32 (Io s) else undefined in
  ok ← call (f o v);
  if negb ok then mret false else barrier s;; mret true.
Definition read64 s (o v : Z) : M W (bool * Z) :=
  deref f := Read64 (Io s) else undefined in
  '(ok, v) ← call (f o v);
  if negb ok then mret (false, u64 v) else barrier s;; mret (true, u64 v).
Definition write64 s (o v : Z) : M W bool :=
  deref f := Write64 (Io s) else undefined in
  ok ← call (f o v);
  if negb ok then mret false else barrier s;; mret true.

Definition timed_out s (start timeout : Z) : M W bool :=
  t ← now s; mret (timeout <=? u64 (t - start)).

Definition relinquish s (result : APPLE_AGX_GFX_HANDOFF_RESULT)
    : M W APPLE_AGX_GFX_HANDOFF_RESULT :=
  ok ← write8 s APPLE_AGX_GFX_HANDOFF_LOCK_AP_OFFSET 0;
  mret (if negb ok then AppleAgxGfxHandoffResultAccessFailed else result).

Definition AppleAgxGfxHandoffBindJ313 (s : ptr STATE) (r : ptr APPLE_AGX_GFX_HANDOFF_REGION)
    (io : ptr IO) : APPLE_AGX_GFX_HANDOFF_RESULT * ptr STATE :=
  deref s' := s else (AppleAgxGfxHandoffResultInvalidArgument, s) in
  deref r := r else (AppleAgxGfxHandoffResultInvalidArgument, s) in
  deref io' := io else (AppleAgxGfxHandoffResultInvalidArgument, s) in
  if negb (io_valid io) || Bound s' then (AppleAgxGfxHandoffResultInvalidArgument, s)
  else if negb (PhysicalBase r =? J313_AGX_G2_HANDOFF_BASE) ||
          negb (Length r =? J313_AGX_G2_HANDOFF_SIZE) ||
          (Length r <? APPLE_AGX_GFX_HANDOFF_MINIMUM_SIZE)
  then (AppleAgxGfxHandoffResultInvalidGeometry, s)
  else (AppleAgxGfxHandoffResultOk,
        Some (s' <| Region := r |> <| Io := io' |> <| Locked := false |>
                 <| Initialized := false |> <| Bound := true |>)).

(** The inner loop of Acquire, with the flag down until it is the processor's turn:
    [None] once it is, or the result Acquire returns. *)
Definition await_turn (fuel : nat) s (start timeout : Z)
    : M W (option APPLE_AGX_GFX_HANDOFF_RESULT) :=
  iterate fuel (fun turn =>
    '(ok, turn) ← read32 s APPLE_AGX_GFX_HANDOFF_TURN_OFFSET turn;
    if negb ok then mret (inr (Some AppleAgxGfxHandoffResultAccessFailed))
    else if turn =? 0 then mret (inr None)
    else
      late ← timed_out s start timeout;
      if late : bool then mret (inr (Some AppleAgxGfxHandoffResultTimeout))
      else relax s;; mret (inl turn)) 0.

(** The two ways to wait in Acquire's loop, by whose turn it is: with the flag down until
    the turn comes, or with the flag up for another round. *)
Definition give_way (fuel : nat) s (start timeout : Z)
    : M W (unit + APPLE_AGX_GFX_HANDOFF_RESULT) :=
  ok ← write8 s APPLE_AGX_GFX_HANDOFF_LOCK_AP_OFFSET 0;
  if negb ok then mret (inr AppleAgxGfxHandoffResultAccessFailed)
  else
    left_ ← await_turn fuel s start timeout;
    match left_ with
    | Some result => mret (inr result)
    | None =>
        ok ← write8 s APPLE_AGX_GFX_HANDOFF_LOCK_AP_OFFSET 1;
        if negb ok then mret (inr AppleAgxGfxHandoffResultAccessFailed)
        else mret (inl tt)
    end.

Definition insist s (start timeout : Z) : M W (unit + APPLE_AGX_GFX_HANDOFF_RESULT) :=
  late ← timed_out s start timeout;
  if late : bool then
    result ← relinquish s AppleAgxGfxHandoffResultTimeout; mret (inr result)
  else relax s;; mret (inl tt).

(** A round of Acquire's loop; Ok when the firmware's flag is down. *)
Definition acquire_round (fuel : nat) s (start timeout : Z)
    : M W (unit + APPLE_AGX_GFX_HANDOFF_RESULT) :=
  '(ok, fw) ← read8 s APPLE_AGX_GFX_HANDOFF_LOCK_FW_OFFSET 0;
  if negb ok then
    result ← relinquish s AppleAgxGfxHandoffResultAccessFailed; mret (inr result)
  else if fw =? 0 then mret (inr AppleAgxGfxHandoffResultOk)
  else
    '(ok, turn) ← read32 s APPLE_AGX_GFX_HANDOFF_TURN_OFFSET 0;
    if negb ok then
      result ← relinquish s AppleAgxGfxHandoffResultAccessFailed; mret (inr result)
    else if negb (turn =? 0) then give_way fuel s start timeout
    else insist s start timeout.

Definition AppleAgxGfxHandoffAcquire (fuel : nat) (s : ptr STATE) (timeout : Z)
    : M W (APPLE_AGX_GFX_HANDOFF_RESULT * ptr STATE) :=
  deref s' := s else mret (AppleAgxGfxHandoffResultInvalidState, s) in
  if negb (Bound s') || Locked s' then mret (AppleAgxGfxHandoffResultInvalidState, s)
  else
    start ← now s';
    ok ← write8 s' APPLE_AGX_GFX_HANDOFF_LOCK_AP_OFFSET 1;
    if negb ok then mret (AppleAgxGfxHandoffResultAccessFailed, s)
    else
      result ← iterate fuel (fun _ => acquire_round fuel s' start timeout) tt;
      mret (result, if bool_decide (result = AppleAgxGfxHandoffResultOk)
                    then Some (s' <| Locked := true |>) else s).

Definition AppleAgxGfxHandoffRelease (s : ptr STATE)
    : M W (APPLE_AGX_GFX_HANDOFF_RESULT * ptr STATE) :=
  deref s' := s else mret (AppleAgxGfxHandoffResultInvalidState, s) in
  if negb (Bound s') || negb (Locked s') then mret (AppleAgxGfxHandoffResultInvalidState, s)
  else
    ok ← write32 s' APPLE_AGX_GFX_HANDOFF_TURN_OFFSET 1;
    if negb ok then mret (AppleAgxGfxHandoffResultAccessFailed, s)
    else
      ok ← write8 s' APPLE_AGX_GFX_HANDOFF_LOCK_AP_OFFSET 0;
      if negb ok then mret (AppleAgxGfxHandoffResultAccessFailed, s)
      else mret (AppleAgxGfxHandoffResultOk, Some (s' <| Locked := false |>)).

(** Initialize's loop, under the lock: until the firmware's magic word appears. *)
Definition await_magic (fuel : nat) s (deadline : Z) : M W APPLE_AGX_GFX_HANDOFF_RESULT :=
  iterate fuel (fun magic =>
    '(ok, magic) ← read64 s APPLE_AGX_GFX_HANDOFF_MAGIC_FW_OFFSET magic;
    if negb ok then mret (inr AppleAgxGfxHandoffResultAccessFailed)
    else if magic =? APPLE_AGX_GFX_HANDOFF_PPL_MAGIC
    then mret (inr AppleAgxGfxHandoffResultOk)
    else
      t ← now s;
      if deadline <=? t then mret (inr AppleAgxGfxHandoffResultTimeout)
      else relax s;; mret (inl magic)) 0.

(** Initialize's second loop clears the flush records. *)
Definition clear_flush s : M W (unit + APPLE_AGX_GFX_HANDOFF_RESULT) :=
  for_each (Z.to_nat APPLE_AGX_GFX_HANDOFF_FLUSH_COUNT) 0 (fun index _ =>
    let offset := index * APPLE_AGX_GFX_HANDOFF_FLUSH_STRIDE in
    ok ← write64 s (APPLE_AGX_GFX_HANDOFF_FLUSH_STATE_OFFSET + offset) 0;
    if negb ok then mret (inr AppleAgxGfxHandoffResultAccessFailed)
    else
      ok ← write64 s (APPLE_AGX_GFX_HANDOFF_FLUSH_ADDR_OFFSET + offset) 0;
      if negb ok then mret (inr AppleAgxGfxHandoffResultAccessFailed)
      else
        ok ← write64 s (APPLE_AGX_GFX_HANDOFF_FLUSH_SIZE_OFFSET + offset) 0;
        if negb ok then mret (inr AppleAgxGfxHandoffResultAccessFailed)
        else mret (inl tt)) tt.

(** Initialize under the lock: the firmware's magic word, the release and the records. *)
Definition greet (fuel : nat) s (deadline : Z)
    : M W (APPLE_AGX_GFX_HANDOFF_RESULT * ptr STATE) :=
  result ← await_magic fuel s deadline;
  match result with
  | AppleAgxGfxHandoffResultOk =>
      '(result, s') ← AppleAgxGfxHandoffRelease (Some s);
      match result with
      | AppleAgxGfxHandoffResultOk =>
          cleared ← clear_flush (default s s');
          match cleared with
          | inr result => mret (result, s')
          | inl _ => mret (AppleAgxGfxHandoffResultOk,
                           (fun s => s <| Initialized := true |>) <$> s')
          end
      | _ => mret (result, s')
      end
  | _ =>
      '(_, s') ← AppleAgxGfxHandoffRelease (Some s);
      mret (result, s')
  end.

Definition AppleAgxGfxHandoffInitialize (fuel : nat) (s : ptr STATE) (deadline : Z)
    : M W (APPLE_AGX_GFX_HANDOFF_RESULT * ptr STATE) :=
  deref s' := s else mret (AppleAgxGfxHandoffResultInvalidState, s) in
  if negb (Bound s') || Locked s' then mret (AppleAgxGfxHandoffResultInvalidState, s)
  else if Initialized s' then mret (AppleAgxGfxHandoffResultOk, s)
  else
    t ← now s';
    if deadline <=? t then mret (AppleAgxGfxHandoffResultTimeout, s)
    else
      ok ← write64 s' APPLE_AGX_GFX_HANDOFF_MAGIC_AP_OFFSET APPLE_AGX_GFX_HANDOFF_PPL_MAGIC;
      if negb ok then mret (AppleAgxGfxHandoffResultAccessFailed, s)
      else
        '(result, s) ← AppleAgxGfxHandoffAcquire fuel s (deadline - t);
        match result, s with
        | AppleAgxGfxHandoffResultOk, Some s' => greet fuel s' deadline
        | _, _ => mret (result, s)
        end.
End operations.

(** ** The firmware *)

(** The shared words the lock is made of, and whether the firmware is in its critical
    section. *)
Record lock := { lock_ap : bool; lock_fw : bool; turn : bool; inside : bool }.
#[export] Instance lock_eta : Eta lock :=
  fun p => Build_lock (lock_ap p) (lock_fw p) (turn p) (inside p).

(** What the firmware may do between two accesses of the driver: its half of the protocol.
    It never writes the driver's flag, enters only under its own flag and when it sees the
    driver's flag down, and lowers its flag only when it has left. *)
Inductive fw_step (p : lock) : lock -> Prop :=
  | fw_raise : fw_step p (p <| lock_fw := true |>)
  | fw_lower : inside p = false -> fw_step p (p <| lock_fw := false |>)
  | fw_enter : lock_fw p = true -> lock_ap p = false -> fw_step p (p <| inside := true |>)
  | fw_leave : fw_step p (p <| inside := false |>)
  | fw_turn t : fw_step p (p <| turn := t |>).

Definition fw_ok (p : lock) : Prop := inside p = true -> lock_fw p = true.

Lemma fw_steps_ok p p' : rtc fw_step p p' -> fw_ok p -> fw_ok p' /\ lock_ap p' = lock_ap p.
Proof.
  induction 1 as [|p p1 p2 Hs _ IH]; [done|]. intros Hp.
  destruct IH as [? IH2]; [by destruct Hs; unfold fw_ok in *; simpl; intros; auto; congruence|].
  split; [done|]. rewrite IH2. by destruct Hs.
Qed.

(** With the driver's flag up and the firmware outside, the firmware stays outside. *)
Definition shut (p : lock) : Prop := fw_ok p /\ lock_ap p = true /\ inside p = false.

Lemma fw_steps_shut p p' : rtc fw_step p p' -> shut p -> shut p'.
Proof.
  intros Hs (Hok & Hap & Hin). destruct (fw_steps_ok p p' Hs Hok) as [Hok' Hap'].
  split_and!; [done|congruence|]. clear Hok' Hap'.
  induction Hs as [|p p1 p2 Hs _ IH]; [done|].
  apply IH; destruct Hs; unfold fw_ok in *; simpl; auto; congruence.
Qed.

(** What the driver relies on of its callbacks on a world [W].  [view] is the lock in it;
    [env] holds from one world to a later one while only the firmware moves, [frame] also
    across the driver's own writes.  An access happens at one moment, with moves of the
    firmware before and after; one that reports failure has changed nothing.  The firmware
    gives the turn away only finitely often ([handovers]).  The clock says in a row at most
    [patience] times that less than [limit] has passed since [start]; [within start] counts
    what is left of such a row, and only a look at the clock begins a new one. *)
Class Shared {W} (io : APPLE_AGX_GFX_HANDOFF_IO W) (view : W -> lock) (env frame : relation W)
    (handovers : W -> nat) (limit : Z) (within : Z -> W -> nat) (patience : nat) : Prop := {
  shared_valid : io_valid (Some io) = true;
  env_preorder : PreOrder env;
  frame_preorder : PreOrder frame;
  env_frame : forall w w', env w w' -> frame w w';
  frame_handovers : forall w w', frame w w' -> (handovers w' <= handovers w)%nat;
  env_moves : forall w w', env w w' -> rtc fw_step (view w) (view w');
  env_turn : forall w w', env w w' -> turn (view w) = true -> turn (view w') = false ->
    (handovers w' < handovers w)%nat;
  within_patience : forall start w, (within start w <= patience)%nat;
  shared_read8 : forall f offset old w ok v w', Read8 io = Some f ->
    f offset old w = ((ok, v), w') -> exists w1, env w w1 /\ env w1 w' /\
      (forall start, (within start w' <= within start w)%nat) /\
      (ok = true -> offset = APPLE_AGX_GFX_HANDOFF_LOCK_FW_OFFSET ->
       (u8 v =? 0) = negb (lock_fw (view w1)));
  shared_read32 : forall f offset old w ok v w', Read32 io = Some f ->
    f offset old w = ((ok, v), w') -> exists w1, env w w1 /\ env w1 w' /\
      (forall start, (within start w' <= within start w)%nat) /\
      (ok = true -> offset = APPLE_AGX_GFX_HANDOFF_TURN_OFFSET ->
       (u32 v =? 0) = negb (turn (view w1)));
  shared_read64 : forall f offset old w r w', Read64 io = Some f ->
    f offset old w = (r, w') ->
    env w w' /\ forall start, (within start w' <= within start w)%nat;
  shared_write8 : forall f v w ok w', Write8 io = Some f ->
    f APPLE_AGX_GFX_HANDOFF_LOCK_AP_OFFSET v w = (ok, w') ->
    exists w1 w2, env w w1 /\ frame w1 w2 /\ env w2 w' /\
      (forall start, (within start w' <= within start w)%nat) /\
      view w2 = (if ok then (view w1) <| lock_ap := negb (u8 v =? 0) |> else view w1);
  shared_write32 : forall f v w ok w', Write32 io = Some f ->
    f APPLE_AGX_GFX_HANDOFF_TURN_OFFSET v w = (ok, w') ->
    exists w1 w2, env w w1 /\ frame w1 w2 /\ env w2 w' /\
      (forall start, (within start w' <= within start w)%nat) /\
      view w2 = (if ok then (view w1) <| turn := negb (u32 v =? 0) |> else view w1);
  shared_write64 : forall f offset v w ok w', Write64 io = Some f ->
    f offset v w = (ok, w') ->
    exists w1 w2, env w w1 /\ frame w1 w2 /\ env w2 w' /\ view w2 = view w1;
  shared_barrier : forall f w r w', Barrier io = Some f -> f w = (r, w') ->
    env w w' /\ forall start, (within start w' <= within start w)%nat;
  shared_relax : forall f w r w', Relax io = Some f -> f w = (r, w') ->
    env w w' /\ forall start, (within start w' <= within start w)%nat;
  shared_now : forall f w t w', Now io = Some f -> f w = (t, w') -> env w w' /\
    (forall start, u64 (u64 t - start) < limit -> (within start w' < within start w)%nat);
}.

Section exclusion.
Context {W : Type} (io : APPLE_AGX_GFX_HANDOFF_IO W) (view : W -> lock) (env frame : relation W)
  (handovers : W -> nat) (limit : Z) (within : Z -> W -> nat) (patience : nat)
  `{!Shared io view env frame handovers limit within patience}.
Notation STATE := (APPLE_AGX_GFX_HANDOFF_STATE W).
Implicit Types (s : STATE) (w : W).

#[local] Instance env_pre : PreOrder env := env_preorder.
#[local] Instance frame_pre : PreOrder frame := frame_preorder.

Lemma env_in_frame w w' : env w w' -> frame w w'.
Proof. apply env_frame. Qed.
#[local] Hint Resolve env_in_frame : core.

Lemma env_ok w w' : env w w' -> fw_ok (view w) ->
  fw_ok (view w') /\ lock_ap (view w') = lock_ap (view w).
Proof. intros He. apply fw_steps_ok. by apply env_moves. Qed.

Lemma env_shut w w' : env w w' -> shut (view w) -> shut (view w').
Proof. intros He. apply fw_steps_shut. by apply env_moves. Qed.

(** No look at the clock in between. *)
Definition timeless w w' : Prop := forall start, (within start w' <= within start w)%nat.
Lemma timeless_trans w1 w2 w3 : timeless w1 w2 -> timeless w2 w3 -> timeless w1 w3.
Proof. intros H1 H2 start. specialize (H1 start). specialize (H2 start). lia. Qed.

(** The callbacks are all there. *)
Lemma valid_fields :
  is_Some (Read8 io) /\ is_Some (Read32 io) /\ is_Some (Read64 io) /\ is_Some (Write8 io) /\
  is_Some (Write32 io) /\ is_Some (Write64 io) /\ is_Some (Barrier io) /\ is_Some (Relax io) /\
  is_Some (Now io).
Proof.
  pose proof shared_valid as H. unfold io_valid in H. guards.
  destruct (Read8 io), (Read32 io), (Read64 io), (Write8 io), (Write32 io), (Write64 io),
    (Barrier io), (Relax io), (Now io); done.
Qed.

(** One access of the driver, with the firmware's moves around it. *)
Lemma frame_access w w1 w2 w' : env w w1 -> frame w1 w2 -> env w2 w' -> frame w w'.
Proof. intros H1 H2 H3. etrans; [by apply env_frame|]. etrans; [done|by apply env_frame]. Qed.

Lemma env_trans w1 w2 w3 : env w1 w2 -> env w2 w3 -> env w1 w3.
Proof. intros. by etrans. Qed.

Lemma frame_env w w1 w2 : frame w w1 -> env w1 w2 -> frame w w2.
Proof. intros H1 H2. etrans; [done|by apply env_frame]. Qed.

(** *** One access *)

Section accesses.
Context (s : STATE) (Hio : Io s = io).

Lemma wp_barrier w (Q : unit -> W -> Prop) :
  (forall w', env w w' -> timeless w w' -> Q tt w') -> wp (barrier s) Q w.
Proof using All.
  intros HQ. unfold barrier. rewrite Hio. destruct valid_fields as (_&_&_&_&_&_&[f E]&_).
  rewrite E. apply wp_call. intros [] w' Hf.
  destruct (shared_barrier f _ _ _ E Hf). by apply HQ.
Qed.

Lemma wp_relax w (Q : unit -> W -> Prop) :
  (forall w', env w w' -> timeless w w' -> Q tt w') -> wp (relax s) Q w.
Proof using All.
  intros HQ. unfold relax. rewrite Hio. destruct valid_fields as (_&_&_&_&_&_&_&[f E]&_).
  rewrite E. apply wp_call. intros [] w' Hf.
  destruct (shared_relax f _ _ _ E Hf). by apply HQ.
Qed.

Lemma wp_now w (Q : Z -> W -> Prop) :
  (forall t w', is_u64 t -> env w w' ->
     (forall start, u64 (t - start) < limit -> (within start w' < within start w)%nat) ->
     Q t w') ->
  wp (now s) Q w.
Proof using All.
  intros HQ. unfold now. rewrite Hio. destruct valid_fields as (_&_&_&_&_&_&_&_&[f E]).
  rewrite E. apply wp_bind, wp_call. intros t w' Hf.
  destruct (shared_now f w t w' E Hf) as (He & Hw).
  apply wp_ret, HQ; [apply Z.mod_pos_bound; lia|done..].
Qed.

Lemma wp_timed_out start timeout w (Q : bool -> W -> Prop) :
  timeout <= limit ->
  (forall (late : bool) w', env w w' ->
     (late = false -> (within start w' < within start w)%nat) -> Q late w') ->
  wp (timed_out s start timeout) Q w.
Proof using All.
  intros Hto HQ. apply wp_bind, wp_now. intros t w' _ He Hw. apply wp_ret, HQ; [done|].
  destruct (Z.leb_spec timeout (u64 (t - start))); [done|]. intros _. apply Hw. lia.
Qed.

(** The barrier after an access. *)
Lemma wp_fenced {A} (ok : bool) (a b : A) w (Q : A -> W -> Prop) :
  (forall w', env w w' -> timeless w w' -> Q (if ok then b else a) w') ->
  wp (if negb ok then mret a else barrier s;; mret b) Q w.
Proof using All.
  intros HQ. destruct ok; cbn [negb]; [|by apply wp_ret, HQ; [|intros start]].
  apply wp_bind, wp_barrier. intros w' Hw Ht. by apply wp_ret, HQ.
Qed.

Lemma wp_read_fw v w (Q : bool * Z -> W -> Prop) :
  (forall ok v w1 w', env w w1 -> env w1 w' -> timeless w w' ->
     (ok = true -> (v =? 0) = negb (lock_fw (view w1))) -> Q (ok, v) w') ->
  wp (read8 s APPLE_AGX_GFX_HANDOFF_LOCK_FW_OFFSET v) Q w.
Proof using All.
  intros HQ. unfold read8. rewrite Hio. destruct valid_fields as ([f E]&_).
  rewrite E. apply wp_bind, wp_call. intros [ok v'] w' Hf.
  destruct (shared_read8 f _ _ _ _ _ _ E Hf) as (w1 & H1 & H2 & Ht & Hv).
  apply wp_fenced. intros w2 Hw Ht2. pose proof (timeless_trans _ _ _ Ht Ht2).
  destruct ok; apply (HQ _ _ w1); try done; try by etrans.
  intros _. by apply Hv.
Qed.

Lemma wp_read_turn v w (Q : bool * Z -> W -> Prop) :
  (forall ok v w1 w', env w w1 -> env w1 w' -> timeless w w' ->
     (ok = true -> (v =? 0) = negb (turn (view w1))) -> Q (ok, v) w') ->
  wp (read32 s APPLE_AGX_GFX_HANDOFF_TURN_OFFSET v) Q w.
Proof using All.
  intros HQ. unfold read32. rewrite Hio. destruct valid_fields as (_&[f E]&_).
  rewrite E. apply wp_bind, wp_call. intros [ok v'] w' Hf.
  destruct (shared_read32 f _ _ _ _ _ _ E Hf) as (w1 & H1 & H2 & Ht & Hv).
  apply wp_fenced. intros w2 Hw Ht2. pose proof (timeless_trans _ _ _ Ht Ht2).
  destruct ok; apply (HQ _ _ w1); try done; try by etrans.
  intros _. by apply Hv.
Qed.

Lemma wp_lock_read64 o v w (Q : bool * Z -> W -> Prop) :
  (forall r w', env w w' -> timeless w w' -> Q r w') -> wp (read64 s o v) Q w.
Proof using All.
  intros HQ. unfold read64. rewrite Hio. destruct valid_fields as (_&_&[f E]&_).
  rewrite E. apply wp_bind, wp_call. intros [ok v'] w' Hf.
  destruct (shared_read64 f _ _ _ _ _ E Hf) as [He Ht].
  apply wp_fenced. intros w2 Hw Ht2. apply HQ; [by etrans|by eapply timeless_trans].
Qed.

Lemma wp_write_flag v w (Q : bool -> W -> Prop) :
  (forall (ok : bool) w1 w2 w', env w w1 -> frame w1 w2 -> env w2 w' -> timeless w w' ->
     view w2 = (if ok then (view w1) <| lock_ap := negb (u8 v =? 0) |> else view w1) ->
     Q ok w') ->
  wp (write8 s APPLE_AGX_GFX_HANDOFF_LOCK_AP_OFFSET v) Q w.
Proof using All.
  intros HQ. unfold write8. rewrite Hio. destruct valid_fields as (_&_&_&[f E]&_).
  rewrite E. apply wp_bind, wp_call. intros ok w' Hf.
  destruct (shared_write8 f _ _ _ _ E Hf) as (w1 & w2 & H1 & H2 & H3 & Ht & Hv).
  apply wp_fenced. intros w3 Hw Ht2. pose proof (timeless_trans _ _ _ Ht Ht2).
  destruct ok; apply (HQ _ w1 w2); try done; by etrans.
Qed.

Lemma wp_write_turn v w (Q : bool -> W -> Prop) :
  (forall (ok : bool) w1 w2 w', env w w1 -> frame w1 w2 -> env w2 w' ->
     view w2 = (if ok then (view w1) <| turn := negb (u32 v =? 0) |> else view w1) ->
     Q ok w') ->
  wp (write32 s APPLE_AGX_GFX_HANDOFF_TURN_OFFSET v) Q w.
Proof using All.
  intros HQ. unfold write32. rewrite Hio. destruct valid_fields as (_&_&_&_&[f E]&_).
  rewrite E. apply wp_bind, wp_call. intros ok w' Hf.
  destruct (shared_write32 f _ _ _ _ E Hf) as (w1 & w2 & H1 & H2 & H3 & _ & Hv).
  apply wp_fenced. intros w3 Hw _. destruct ok; apply (HQ _ w1 w2); try done; by etrans.
Qed.

Lemma wp_lock_write64 o v w (Q : bool -> W -> Prop) :
  (forall ok w1 w2 w', env w w1 -> frame w1 w2 -> env w2 w' -> view w2 = view w1 -> Q ok w') ->
  wp (write64 s o v) Q w.
Proof using All.
  intros HQ. unfold write64. rewrite Hio. destruct valid_fields as (_&_&_&_&_&[f E]&_).
  rewrite E. apply wp_bind, wp_call. intros ok w' Hf.
  destruct (shared_write64 f _ _ _ _ _ E Hf) as (w1 & w2 & H1 & H2 & H3 & Hv).
  apply wp_fenced. intros w3 Hw _. destruct ok; apply (HQ _ w1 w2); try done; by etrans.
Qed.
End accesses.

(** *** The lock *)

(** The driver's flag is [up]; and the firmware has yet to use one of its [k] handovers of
    the turn. *)
Definition flag (up : bool) w : Prop := fw_ok (view w) /\ lock_ap (view w) = up.
Definition owed (k : nat) w : Prop :=
  (handovers w < k)%nat \/ (handovers w <= k)%nat /\ turn (view w) = true.

Lemma env_flag up w w' : env w w' -> flag up w -> flag up w'.
Proof. intros He [Hok <-]. by apply env_ok. Qed.

Lemma env_owed k w w' : env w w' -> owed k w -> owed k w'.
Proof.
  intros He. pose proof (frame_handovers _ _ (env_frame _ _ He)).
  intros [Ho|[Ho Ht]]; [left; lia|]. destruct (turn (view w')) eqn:E; [right; split; [lia|done]|].
  left. pose proof (env_turn _ _ He Ht E). lia.
Qed.

Section lock.
Context (s : STATE) (Hio : Io s = io).

Lemma write_flag_spec up v w k :
  flag up w -> owed k w ->
  wp (write8 s APPLE_AGX_GFX_HANDOFF_LOCK_AP_OFFSET v) (fun ok w' =>
    (frame w w' /\ timeless w w') /\ owed k w' /\
    flag (if ok then negb (u8 v =? 0) else up) w') w.
Proof using All.
  intros Hf Ho. apply wp_write_flag; [done|]. intros ok w1 w2 w' H1 H2 H3 Ht Hv.
  pose proof (env_flag _ _ _ H1 Hf) as [Hok Hap]. split; [|split].
  - split; [by eauto using frame_access|done].
  - apply (env_owed _ _ _ H3). pose proof (frame_handovers _ _ H2).
    destruct (env_owed _ _ _ H1 Ho) as [?|[? Htn]]; [left; lia|right].
    split; [lia|]. rewrite Hv. by destruct ok.
  - apply (env_flag _ _ _ H3). unfold flag. rewrite Hv. by destruct ok.
Qed.

Lemma relinquish_spec up r w :
  flag up w ->
  wp (relinquish s r) (fun r' w' => frame w w' /\ fw_ok (view w') /\
    (r' = AppleAgxGfxHandoffResultAccessFailed \/ r' = r /\ flag false w')) w.
Proof using All.
  intros Hf. eapply wp_seq; [apply (write_flag_spec up _ _ (handovers w + 1)); [done|left; lia]|].
  intros ok w' ([H1 _] & _ & H2). apply wp_ret. split_and!; [done|apply H2|].
  destruct ok; [by right|by left].
Qed.

Lemma await_turn_spec fuel start timeout k w :
  timeout <= limit -> (patience < fuel)%nat -> flag false w -> owed k w ->
  wp (await_turn fuel s start timeout) (fun r w' => frame w w' /\ flag false w' /\
    match r with
    | None => (handovers w' < k)%nat /\ (within start w' <= within start w)%nat
    | Some r => r = AppleAgxGfxHandoffResultAccessFailed \/ r = AppleAgxGfxHandoffResultTimeout
    end) w.
Proof using All.
  intros Hto Hfuel Hf Ho. pose proof (within_patience start w) as Hp.
  apply (wp_iterate (fun _ w' => frame w w' /\ flag false w' /\ owed k w' /\
      (within start w' <= within start w)%nat)
    (fun _ w' => within start w')); [done|lia|].
  clear Hfuel Hp Hf Ho. intros old w1 (H1 & Hf & Ho & Hc).
  apply wp_bind, wp_read_turn; [done|]. intros ok v w2 w3 H2 H3 Ht3 Hv. specialize (Ht3 start).
  pose proof (env_flag _ _ _ H3 (env_flag _ _ _ H2 Hf)) as Hf3.
  assert (frame w w3) as H03 by (eapply frame_env; [done|by etrans]).
  destruct ok; cbn [negb]; [|apply wp_ret; auto]. specialize (Hv eq_refl).
  destruct (v =? 0).
  - apply wp_ret. pose proof (frame_handovers _ _ (env_frame _ _ H3)).
    destruct (env_owed _ _ _ H2 Ho) as [?|[? Ht]]; [|by rewrite Ht in Hv].
    split; [done|]. split; [done|]. lia.
  - apply wp_bind, wp_timed_out; [done|done|]. intros late w4 H4 Hlt.
    assert (env w2 w4) as H24 by eauto using env_trans.
    pose proof (env_flag _ _ _ H4 Hf3) as Hf4.
    destruct late; [apply wp_ret; simpl; split; [by eapply frame_env|auto]|].
    apply wp_bind, wp_relax; [done|]. intros w5 H5 Ht5. apply wp_ret. simpl.
    specialize (Hlt eq_refl). specialize (Ht5 start).
    assert (env w1 w5) as H15 by eauto using env_trans.
    split; [|lia]. split; [by eapply (frame_env w w1)|].
    split; [by eapply env_flag|]. split; [by eapply (env_owed _ w1)|]. lia.
Qed.

(** What an attempt to take the lock leaves behind. *)
Definition attempted (r : APPLE_AGX_GFX_HANDOFF_RESULT) w : Prop :=
  fw_ok (view w) /\
  match r with
  | AppleAgxGfxHandoffResultOk => shut (view w)
  | AppleAgxGfxHandoffResultTimeout => flag false w
  | AppleAgxGfxHandoffResultAccessFailed => True
  | _ => False
  end.

Lemma relinquish_attempted r up w :
  flag up w ->
  r = AppleAgxGfxHandoffResultAccessFailed \/ r = AppleAgxGfxHandoffResultTimeout ->
  wp (relinquish s r) (fun r' w' => frame w w' /\ attempted r' w') w.
Proof using All.
  intros Hf Hr. eapply wp_mono; [by eapply relinquish_spec|].
  intros r' w' (H1 & H2 & H3). split; [done|]. split; [done|].
  destruct H3 as [->|[-> Hlow]]; [done|]. by destruct Hr as [->| ->].
Qed.

Lemma read_fw_spec w :
  flag true w ->
  wp (read8 s APPLE_AGX_GFX_HANDOFF_LOCK_FW_OFFSET 0) (fun r w' => (env w w' /\ timeless w w') /\
    flag true w' /\ (r.1 = true -> r.2 = 0 -> shut (view w'))) w.
Proof using All.
  intros Hf. apply wp_read_fw; [done|]. intros ok v w1 w2 H1 H2 Ht Hv.
  split; [split; [by etrans|done]|]. split; [by eapply env_flag, env_flag|]. simpl. intros -> ->.
  specialize (Hv eq_refl). apply (env_shut _ _ H2).
  destruct (env_flag _ _ _ H1 Hf) as [Hok Hap]. split_and!; [done..|].
  destruct (inside (view w1)) eqn:E; [|done]. by rewrite (Hok E) in Hv.
Qed.

(** A wait goes on with the flag up and less hope left, or ends the attempt. *)
Definition hope (start : Z) w : nat := (handovers w + within start w)%nat.
Definition waited (start : Z) (n : nat) w (r : unit + APPLE_AGX_GFX_HANDOFF_RESULT) w' : Prop :=
  frame w w' /\
  match r with
  | inl _ => flag true w' /\ (hope start w' < n)%nat
  | inr r => attempted r w'
  end.

Lemma insist_spec start timeout n w :
  timeout <= limit -> flag true w -> (hope start w <= n)%nat ->
  wp (insist s start timeout) (waited start n w) w.
Proof using All.
  intros Hto Hf Hn. apply wp_bind, wp_timed_out; [done|done|]. intros late w1 H1 Hlt.
  pose proof (env_flag _ _ _ H1 Hf) as Hf1. destruct late.
  - eapply wp_seq; [eapply relinquish_attempted; [done|by right]|]. intros r w2 [H2 Hr].
    apply wp_ret. split; [etrans; [by apply env_frame|done]|done].
  - apply wp_bind, wp_relax; [done|]. intros w2 H2 Ht2. apply wp_ret.
    assert (env w w2) as H02 by eauto using env_trans.
    split; [by apply env_frame|]. split; [by eapply env_flag|].
    pose proof (frame_handovers _ _ (env_frame _ _ H02)). specialize (Hlt eq_refl).
    specialize (Ht2 start). unfold hope in *. lia.
Qed.

Lemma give_way_spec fuel start timeout k n w :
  timeout <= limit -> (patience < fuel)%nat -> flag true w -> owed k w ->
  (k + within start w <= n)%nat ->
  wp (give_way fuel s start timeout) (waited start n w) w.
Proof using All.
  intros Hto Hfuel Hf Ho Hn. eapply wp_seq; [by eapply write_flag_spec|].
  intros ok w1 ([H1 Ht1] & Ho1 & Hf1). specialize (Ht1 start).
  destruct ok; cbn [negb]; [|apply wp_ret; split; [done|by split; [apply Hf1|]]].
  change (negb (u8 0 =? 0)) with false in Hf1.
  eapply wp_seq; [by eapply (await_turn_spec fuel _ _ k)|].
  intros r w2 (H2 & Hf2 & Hr). assert (frame w w2) as H02 by (by etrans).
  destruct r as [r|].
  { apply wp_ret. split; [done|]. split; [apply Hf2|]. by destruct Hr as [->| ->]. }
  destruct Hr as [Hr Hc]. eapply wp_seq; [apply (write_flag_spec _ _ _ k Hf2); by left|].
  intros ok w3 ([H3 Ht3] & _ & Hf3). assert (frame w w3) as H03 by (by etrans).
  specialize (Ht3 start).
  destruct ok; cbn [negb]; apply wp_ret; (split; [done|]); [|by split; [apply Hf3|]].
  split; [done|]. unfold hope. pose proof (frame_handovers _ _ H3). lia.
Qed.

Lemma acquire_round_spec fuel start timeout w :
  timeout <= limit -> (patience < fuel)%nat -> flag true w ->
  wp (acquire_round fuel s start timeout) (waited start (hope start w) w) w.
Proof using All.
  intros Hto Hfuel Hf. eapply wp_seq; [by apply read_fw_spec|].
  intros [ok fw] w1 ([H1 Ht1] & Hf1 & Hshut). cbn [fst snd] in *. specialize (Ht1 start).
  assert (forall w2 (m : M W (unit + APPLE_AGX_GFX_HANDOFF_RESULT)), frame w w2 ->
    wp m (waited start (hope start w) w2) w2 ->
    wp m (waited start (hope start w) w) w2) as Hlater.
  { intros w2 m H2 Hm. apply (wp_mono _ _ _ _ Hm). intros r w3 [H3 Hr]. split; [by etrans|done]. }
  assert (forall r w2, flag true w2 -> frame w w2 -> r = AppleAgxGfxHandoffResultAccessFailed ->
    wp (r ← relinquish s r; mret (inr r)) (waited start (hope start w) w) w2) as Hfail.
  { intros r w2 Hf2 H2 ->. eapply wp_seq; [by eapply relinquish_attempted; [|left]|].
    intros r w3 [H3 ?]. apply wp_ret. split; [by etrans|done]. }
  destruct ok; cbn [negb]; [|by apply Hfail; [|apply env_frame|]].
  destruct (Z.eqb_spec fw 0) as [->|_].
  { apply wp_ret. split; [by apply env_frame|]. split; [apply Hf1|by apply Hshut]. }
  apply wp_bind, wp_read_turn; [done|]. intros ok turn_ w2 w3 H2 H3 Ht3 Ht. specialize (Ht3 start).
  assert (env w w2) as H02 by eauto using env_trans. assert (env w w3) as H03 by eauto using env_trans.
  assert (flag true w3) as Hf3 by (by eapply env_flag, env_flag, env_flag).
  destruct ok; cbn [negb]; [|by apply Hfail; [|apply env_frame|]]. specialize (Ht eq_refl).
  pose proof (env_frame _ _ H03) as HF. pose proof (frame_handovers _ _ HF).
  destruct (turn_ =? 0); cbn [negb]; (apply Hlater; [done|]).
  - apply insist_spec; [done..|]. unfold hope. lia.
  - eapply (give_way_spec _ _ _ (handovers w)); [done..| |unfold hope; lia].
    apply (env_owed _ _ _ H3). right. split; [by apply frame_handovers, env_frame|].
    by destruct (turn (view w2)).
Qed.

Lemma acquire_spec fuel timeout w :
  Bound s = true -> Locked s = false -> fw_ok (view w) ->
  timeout <= limit -> (handovers w + patience < fuel)%nat ->
  wp (AppleAgxGfxHandoffAcquire fuel (Some s) timeout) (fun r w' =>
    frame w w' /\ attempted r.1 w' /\
    r.2 = Some (if bool_decide (r.1 = AppleAgxGfxHandoffResultOk)
                then s <| Locked := true |> else s)) w.
Proof using All.
  intros Hb Hl Hok Hto Hfuel. unfold AppleAgxGfxHandoffAcquire. rewrite Hb, Hl. cbn [negb orb].
  apply wp_bind, wp_now; [done|]. intros start w1 _ H1 _.
  assert (flag (lock_ap (view w1)) w1) as Hf1 by (split; [by apply (env_ok _ _ H1)|done]).
  eapply wp_seq; [apply (write_flag_spec _ _ _ (handovers w1 + 1) Hf1); left; lia|].
  intros ok w2 ([H2 _] & _ & Hf2).
  assert (frame w w2) as H02 by (etrans; [by apply env_frame|done]).
  destruct ok; cbn [negb]; [|by apply wp_ret; split; [|split; [split; [apply Hf2|]|]]].
  apply (wp_seq _ _ (fun r w' => frame w w' /\ attempted r w')).
  2: { intros r w3 [H3 Hr]. apply wp_ret. split; [done|]. split; [apply Hr|].
       simpl. by case_bool_decide. }
  apply (wp_iterate (fun _ w' => frame w w' /\ flag true w')
    (fun _ w' => hope start w')); [done|..].
  { pose proof (frame_handovers _ _ H02). pose proof (within_patience start w2). unfold hope. lia. }
  clear H1 H2 H02 Hf1 Hf2 w1 w2. intros _ w1 [H1 Hf1].
  eapply wp_mono; [apply acquire_round_spec; [done|lia|done]|].
  intros [[]|r] w2 [H2 Hr]; (split; [|apply Hr]); [split; [|apply Hr]|]; by etrans.
Qed.

Lemma release_spec w :
  Bound s = true -> Locked s = true -> shut (view w) ->
  wp (AppleAgxGfxHandoffRelease (Some s)) (fun r w' => frame w w' /\ fw_ok (view w') /\
    (r = (AppleAgxGfxHandoffResultOk, Some (s <| Locked := false |>)) /\ flag false w' \/
     r = (AppleAgxGfxHandoffResultAccessFailed, Some s) /\ shut (view w'))) w.
Proof using All.
  intros Hb Hl Hs. unfold AppleAgxGfxHandoffRelease. rewrite Hb, Hl. cbn [negb orb].
  apply wp_bind, wp_write_turn; [done|]. intros ok w1 w2 w3 H1 H2 H3 Hv.
  pose proof (frame_access _ _ _ _ H1 H2 H3) as H03.
  assert (shut (view w3)) as Hs3.
  { apply (env_shut _ _ H3). destruct (env_shut _ _ H1 Hs) as (? & ? & ?).
    rewrite Hv. by destruct ok. }
  destruct ok; cbn [negb].
  2: { apply wp_ret. split; [done|]. split; [apply Hs3|by right]. }
  apply wp_bind, wp_write_flag; [done|]. intros ok w4 w5 w6 H4 H5 H6 _ Hv6.
  assert (frame w w6) as H06 by (etrans; [done|by eapply frame_access]).
  destruct (env_shut _ _ H4 Hs3) as (Hok4 & Hap4 & Hin4).
  destruct ok; cbn [negb]; apply wp_ret.
  - assert (flag false w6) as Hf6 by (apply (env_flag _ _ _ H6); by split; rewrite Hv6).
    split; [done|]. split; [apply Hf6|by left].
  - assert (shut (view w6)) as Hs6 by (apply (env_shut _ _ H6); by rewrite Hv6).
    split; [done|]. split; [apply Hs6|by right].
Qed.
Lemma await_magic_spec fuel deadline w :
  deadline <= limit -> (patience < fuel)%nat -> shut (view w) ->
  wp (await_magic fuel s deadline) (fun _ w' => frame w w' /\ shut (view w')) w.
Proof using All.
  intros Hd Hfuel Hs. pose proof (within_patience 0 w) as Hp.
  apply (wp_iterate (fun _ w' => frame w w' /\ shut (view w')) (fun _ w' => within 0 w'));
    [done|lia|].
  clear Hfuel Hp Hs. intros old w1 [H1 Hs].
  apply wp_bind, wp_lock_read64; [done|]. intros [ok magic] w2 H2 Ht2. specialize (Ht2 0).
  pose proof (frame_env _ _ _ H1 H2) as H02. pose proof (env_shut _ _ H2 Hs) as Hs2.
  destruct ok; cbn [negb]; [|by apply wp_ret].
  destruct (magic =? _); [by apply wp_ret|].
  apply wp_bind, wp_now; [done|]. intros t w3 Ht H3 Hlt. specialize (Hlt 0).
  rewrite Z.sub_0_r in Hlt. pose proof (frame_env _ _ _ H02 H3) as H03.
  pose proof (env_shut _ _ H3 Hs2) as Hs3.
  destruct (Z.leb_spec deadline t); [by apply wp_ret|].
  apply wp_bind, wp_relax; [done|]. intros w4 H4 Ht4. specialize (Ht4 0). apply wp_ret.
  split; [split; [by eapply frame_env|by eapply env_shut]|].
  assert (u64 t < limit) as Hl by (unfold wrap; rewrite Z.mod_small by done; lia).
  specialize (Hlt Hl). lia.
Qed.

Lemma write64_spec o v w :
  fw_ok (view w) -> wp (write64 s o v) (fun _ w' => frame w w' /\ fw_ok (view w')) w.
Proof using All.
  intros Hok. apply wp_lock_write64; [done|]. intros ok w1 w2 w3 H1 H2 H3 Hv.
  split; [by eapply frame_access|]. destruct (env_ok _ _ H1 Hok) as [Hok1 _].
  rewrite <- Hv in Hok1. by apply (env_ok _ _ H3).
Qed.

Lemma clear_flush_spec w :
  fw_ok (view w) -> wp (clear_flush s) (fun r w' => frame w w' /\ fw_ok (view w') /\
    r <> inr AppleAgxGfxHandoffResultOk) w.
Proof using All.
  intros Hok. apply (wp_for_each (fun _ _ w' => frame w w' /\ fw_ok (view w')));
    [done| |by intros [] w' [? ?]].
  clear Hok. intros i [] w1 _ [H1 Hok1].
  eapply wp_seq; [by apply write64_spec|]. intros ok w2 [H2 Hok2].
  assert (frame w w2) by (by etrans). destruct ok; cbn [negb]; [|by apply wp_ret].
  eapply wp_seq; [by apply write64_spec|]. intros ok w3 [H3 Hok3].
  assert (frame w w3) by (by etrans). destruct ok; cbn [negb]; [|by apply wp_ret].
  eapply wp_seq; [by apply write64_spec|]. intros ok w4 [H4 Hok4].
  assert (frame w w4) by (by etrans). destruct ok; cbn [negb]; by apply wp_ret.
Qed.
End lock.

(** *** The state of the lock *)

(** The callbacks are the bound ones, and a lock that is held is shut. *)
Definition sound s w : Prop :=
  fw_ok (view w) /\ (Bound s = true -> Io s = io) /\
  (Locked s = true -> Bound s = true /\ shut (view w)).

(** An operation keeps that, and the world moves on. *)
Definition keeps s w (r : ptr STATE) w' : Prop :=
  frame w w' /\ exists s', r = Some s' /\ sound s' w' /\ Bound s' = Bound s.

Lemma keeps_refl s w : sound s w -> keeps s w (Some s) w.
Proof. intros Hs. split; [done|]. by exists s. Qed.

Lemma keeps_trans s w s1 w1 r w2 :
  keeps s w (Some s1) w1 -> keeps s1 w1 r w2 -> keeps s w r w2.
Proof.
  intros [H1 (s1' & [= <-] & _ & Hb1)] [H2 (s2 & -> & Hs2 & Hb2)].
  split; [by etrans|]. exists s2. by rewrite Hb2.
Qed.

Lemma acquire_keeps fuel timeout s w :
  sound s w -> timeout <= limit -> (handovers w + patience < fuel)%nat ->
  wp (AppleAgxGfxHandoffAcquire fuel (Some s) timeout) (fun r w' => keeps s w r.2 w' /\
    match r.1 with
    | AppleAgxGfxHandoffResultOk => exists s', r.2 = Some s' /\ Locked s' = true
    | AppleAgxGfxHandoffResultTimeout => lock_ap (view w') = false
    | _ => True
    end) w.
Proof.
  intros (Hok & Hio & Hl) Hto Hfuel.
  destruct (Bound s) eqn:Eb, (Locked s) eqn:El; cycle 1.
  { eapply wp_mono; [by apply acquire_spec; try apply Hio|]. intros [r s'] w' (H1 & H2 & H3).
    cbn [fst snd] in *. split; [split; [done|]|].
    - eexists. split; [done|]. case_bool_decide as Er.
      + subst r. split; [|done]. split; [apply H2|]. split; [by intros _; apply Hio|]. intros _. split; [exact Eb|].
        apply H2.
      + split; [|done]. split; [apply H2|]. split; [by intros _; apply Hio|]. by rewrite El.
    - destruct r; try done; [|by destruct H2 as [_ [_ ?]]]. by eexists. }
  all: unfold AppleAgxGfxHandoffAcquire; rewrite Eb, El; cbn [negb orb]; apply wp_ret;
    split; [apply keeps_refl; split; [done|]; rewrite ?Eb, ?El; auto|done].
Qed.

Lemma release_keeps s w :
  sound s w ->
  wp (AppleAgxGfxHandoffRelease (Some s)) (fun r w' => keeps s w r.2 w' /\
    (r.1 = AppleAgxGfxHandoffResultOk -> exists s', r.2 = Some s' /\ Locked s' = false /\
       lock_ap (view w') = false)) w.
Proof.
  intros (Hok & Hio & Hl). destruct (Locked s) eqn:El.
  - destruct (Hl eq_refl) as [Hb Hs].
    eapply wp_mono; [apply release_spec; auto|].
    intros r w' (H1 & H2 & [[-> [_ Hf]]|[-> Hs']]); cbn [fst snd].
    + split; [|by intros _; eexists]. split; [done|]. eexists. split; [done|].
      split; [|done]. by split.
    + split; [|done]. split; [done|]. eexists. split; [done|]. split; [|done].
      split; [done|]. split; [done|]. by intros _.
  - unfold AppleAgxGfxHandoffRelease. rewrite El, orb_true_r. apply wp_ret.
    split; [|done]. apply keeps_refl. split; [done|]. by rewrite El.
Qed.

(** What an initialised lock is left like. *)
Definition greeted r w : Prop :=
  r.1 = AppleAgxGfxHandoffResultOk ->
  exists s', r.2 = Some s' /\ Locked s' = false /\ Initialized s' = true.

Lemma greet_keeps fuel deadline s w :
  sound s w -> Locked s = true -> deadline <= limit -> (patience < fuel)%nat ->
  wp (greet fuel s deadline) (fun r w' => keeps s w r.2 w' /\ greeted r w') w.
Proof.
  intros (Hok & Hio & Hsh) Hl Hd Hfuel. destruct (Hsh Hl) as [Hb Hs].
  eapply wp_seq; [apply (await_magic_spec s); auto|]. intros r w1 [H1 Hs1].
  assert (sound s w1) as Hso1 by (split; [apply Hs1|split; [exact Hio|by intros _]]).
  assert (keeps s w (Some s) w1) as K1 by (split; [done|by exists s]).
  assert (forall r', r' <> AppleAgxGfxHandoffResultOk ->
    wp ('(_, s') ← AppleAgxGfxHandoffRelease (Some s); mret (r', s'))
      (fun r w' => keeps s w r.2 w' /\ greeted r w') w1) as Hgive.
  { intros r' Hr'. eapply wp_seq; [by apply release_keeps|]. intros [r2 s2] w2 [K2 _]. apply wp_ret.
    split; [by eapply keeps_trans|by intros ?]. }
  destruct r; try (by apply Hgive). clear Hgive.
  eapply wp_seq; [by apply release_keeps|]. intros [r s2] w2 [K2 Hr]. cbn [fst snd] in *.
  pose proof (keeps_trans _ _ _ _ _ _ K1 K2) as K02.
  destruct r; try (apply wp_ret; split; [exact K02|done]).
  destruct (Hr eq_refl) as (s2' & -> & Hl2 & _).
  destruct K02 as [H02 (? & [= <-] & (Hok2 & Hio2 & _) & Hb2)]. cbn [default from_option id].
  eapply wp_seq; [apply (clear_flush_spec s2'); [apply Hio2; by rewrite Hb2|exact Hok2]|].
  intros r w3 (H3 & Hok3 & Hne). assert (frame w w3) as H03 by (by etrans).
  assert (forall init, sound (s2' <| Initialized := init |>) w3) as Hso3.
  { intros init. split; [done|]. split; [exact Hio2|]. simpl. by rewrite Hl2. }
  destruct r as [[]|r]; apply wp_ret; cbn [fst snd]; split.
  - split; [done|]. eexists. split; [done|]. by split; [apply Hso3|].
  - intros _. by eexists.
  - split; [done|]. exists s2'. split; [done|]. split; [|done].
    split; [done|]. split; [exact Hio2|]. by rewrite Hl2.
  - intros Er. cbn [fst] in Er. by subst r.
Qed.

Lemma initialize_keeps fuel deadline s w :
  sound s w -> deadline <= limit -> (handovers w + patience < fuel)%nat ->
  wp (AppleAgxGfxHandoffInitialize fuel (Some s) deadline)
    (fun r w' => keeps s w r.2 w' /\ greeted r w') w.
Proof.
  intros Hs Hd Hfuel. unfold AppleAgxGfxHandoffInitialize.
  destruct (Bound s) eqn:Eb; cbn [negb orb]; [|apply wp_ret; split; [by apply keeps_refl|done]].
  destruct (Locked s) eqn:El; [apply wp_ret; split; [by apply keeps_refl|done]|].
  destruct (Initialized s) eqn:Ei.
  { apply wp_ret; split; [by apply keeps_refl|]. intros _. by exists s. }
  assert (Io s = io) as Hio by (by apply Hs). destruct Hs as (Hok & Hs).
  assert (forall w', frame w w' -> fw_ok (view w') -> keeps s w (Some s) w') as Hsame.
  { intros w' H1 H2. split; [done|]. exists s. split; [done|]. split; [|done].
    split; [done|]. split; [done|]. by rewrite El. }
  apply wp_bind, wp_now; [done|]. intros t w1 Ht H1 _.
  destruct (env_ok _ _ H1 Hok) as [Hok1 _]. pose proof (env_in_frame _ _ H1) as H01.
  destruct (Z.leb_spec deadline t); [apply wp_ret; split; [by apply Hsame|done]|].
  eapply wp_seq; [by apply (write64_spec s)|]. intros ok w2 [H2 Hok2].
  assert (frame w w2) as H02 by (by etrans).
  destruct ok; cbn [negb]; [|apply wp_ret; split; [by apply Hsame|done]].
  pose proof (frame_handovers _ _ H02). pose proof (Hsame w2 H02 Hok2) as K2.
  destruct K2 as [_ (? & [= <-] & Hs2 & _)].
  eapply wp_seq; [apply (acquire_keeps fuel (deadline - t) s w2); [done|destruct Ht; lia|lia]|].
  intros [r s3] w3 [K3 Hr]. cbn [fst snd] in *.
  pose proof (keeps_trans _ _ _ _ _ _ (Hsame w2 H02 Hok2) K3) as K03.
  destruct K3 as [H3 (s3' & Es & Hs3 & Hb3)]. subst s3.
  destruct r; try (apply wp_ret; split; [exact K03|done]). destruct Hr as (? & [= <-] & Hl3).
  eapply wp_mono; [apply greet_keeps; [done..|lia]|].
  intros r w4 [K4 Hg]. split; [by eapply keeps_trans|done].
Qed.
(** *** The lock and its firmware as a transition system *)

Inductive handoff_step : STATE * W -> STATE * W -> Prop :=
  | handoff_env s w w' : env w w' -> handoff_step (s, w) (s, w')
  | handoff_bind s w region r s' :
      AppleAgxGfxHandoffBindJ313 (Some s) region (Some io) = (r, Some s') ->
      handoff_step (s, w) (s', w)
  | handoff_initialize fuel deadline s w r s' w' :
      deadline <= limit -> (handovers w + patience < fuel)%nat ->
      AppleAgxGfxHandoffInitialize fuel (Some s) deadline w = Some ((r, Some s'), w') ->
      handoff_step (s, w) (s', w')
  | handoff_acquire fuel timeout s w r s' w' :
      timeout <= limit -> (handovers w + patience < fuel)%nat ->
      AppleAgxGfxHandoffAcquire fuel (Some s) timeout w = Some ((r, Some s'), w') ->
      handoff_step (s, w) (s', w')
  | handoff_release s w r s' w' :
      AppleAgxGfxHandoffRelease (Some s) w = Some ((r, Some s'), w') ->
      handoff_step (s, w) (s', w').

Definition handoff_initial (p : STATE * W) : Prop :=
  Bound p.1 = false /\ Locked p.1 = false /\ fw_ok (view p.2).

Lemma sound_initial p : handoff_initial p -> sound p.1 p.2.
Proof. intros (Hb & Hl & Hok). split; [done|]. by rewrite Hb, Hl. Qed.

Lemma keeps_sound s w (r : APPLE_AGX_GFX_HANDOFF_RESULT) s' w'
    (m : M W (APPLE_AGX_GFX_HANDOFF_RESULT * ptr STATE)) (Q : _ -> W -> Prop) :
  wp m (fun r w' => keeps s w r.2 w' /\ Q r w') w -> m w = Some ((r, Some s'), w') ->
  sound s' w'.
Proof.
  unfold wp. intros H E. rewrite E in H. by destruct H as [[_ (s1 & [= <-] & ? & _)] _].
Qed.

Lemma sound_step p p' : sound p.1 p.2 -> handoff_step p p' -> sound p'.1 p'.2.
Proof.
  intros Hs Hstep.
  destruct Hstep as [s w w' He|s w region r s' E|fuel deadline s w r s' w' Hd Hf E
    |fuel timeout s w r s' w' Ht Hf E|s w r s' w' E]; cbn [fst snd] in *.
  - destruct Hs as (Hok & Hio & Hl). split; [by apply (env_ok _ _ He)|]. split; [done|].
    intros HL. destruct (Hl HL) as [? Hsh]. split; [done|by eapply env_shut].
  - unfold AppleAgxGfxHandoffBindJ313 in E. destruct region as [region|]; [|by injection E as _ <-].
    destruct (negb (io_valid (Some io)) || Bound s); [by injection E as _ <-|].
    destruct (_ || _ || _); injection E as _ <-; [done|]. split; [exact (proj1 Hs)|by split].
  - exact (keeps_sound _ _ _ _ _ _ _ (initialize_keeps fuel deadline s w Hs Hd Hf) E).
  - exact (keeps_sound _ _ _ _ _ _ _ (acquire_keeps fuel timeout s w Hs Ht Hf) E).
  - exact (keeps_sound _ _ _ _ _ _ _ (release_keeps s w Hs) E).
Qed.

#[local] Program Instance handoff_component : Component (STATE * W) := {
  comp_init := handoff_initial;
  comp_step := handoff_step;
  comp_inv := fun p => sound p.1 p.2;
}.
Next Obligation. by apply sound_initial. Qed.
Next Obligation. by eapply sound_step. Qed.

(** C13: mutual exclusion with the firmware.  Whatever calls have been made and however
    the firmware moved in between and during them, while the driver holds the lock its
    flag is up and the firmware is outside its critical section, and it stays outside for
    as long as the driver does nothing. *)
Theorem handoff_exclusive p :
  reachable p -> Locked p.1 = true ->
  lock_ap (view p.2) = true /\ inside (view p.2) = false /\
  forall w', env p.2 w' -> inside (view w') = false.
Proof.
  intros Hr Hl. pose proof (reachable_inv p Hr) as (_ & _ & Hs). destruct (Hs Hl) as [_ Hsh].
  split_and!; [apply Hsh..|]. intros w' He. by apply (env_shut _ _ He).
Qed.

(** C27: an attempt to take the lock ends, and ends well.  From any reachable state with
    fuel for the firmware's handovers and the clock's patience, Acquire returns; with Ok
    the lock is held, with Timeout the driver's flag is down again so that the firmware
    is not kept waiting. *)
Theorem handoff_acquire_ends fuel timeout s w :
  reachable (s, w) -> timeout <= limit -> (handovers w + patience < fuel)%nat ->
  exists r s' w', AppleAgxGfxHandoffAcquire fuel (Some s) timeout w = Some ((r, Some s'), w') /\
    (r = AppleAgxGfxHandoffResultOk -> Locked s' = true /\ inside (view w') = false) /\
    (r = AppleAgxGfxHandoffResultTimeout -> lock_ap (view w') = false).
Proof.
  intros Hr Ht Hf. pose proof (reachable_inv _ Hr) as Hs.
  pose proof (acquire_keeps fuel timeout s w Hs Ht Hf) as H.
  apply wp_result in H as ([r s'] & w' & E & [[_ (s1 & Es & (_ & _ & Hsh) & _)] H]).
  cbn [fst snd] in *. subst s'. exists r, s1, w'. split; [done|]. split; intros ->; [|exact H].
  destruct H as (? & [= <-] & Hl). split; [done|]. by apply Hsh.
Qed.
End exclusion.

(** ** A firmware with a script

    A concrete world for the witnesses: the firmware makes the next move of a script at
    every barrier and pause, and the clock runs in steps of 2^60 milliseconds. *)

Inductive fw_act := Raise | Lower | Enter | Leave | Turn (t : bool).

Definition act (p : lock) (a : fw_act) : lock :=
  match a with
  | Raise => p <| lock_fw := true |>
  | Lower => if inside p then p else p <| lock_fw := false |>
  | Enter => if lock_fw p && negb (lock_ap p) then p <| inside := true |> else p
  | Leave => p <| inside := false |>
  | Turn t => p <| turn := t |>
  end.

Record demo := { dm_lock : lock; dm_ticks : Z; dm_script : list fw_act }.
#[export] Instance demo_eta : Eta demo :=
  fun w => Build_demo (dm_lock w) (dm_ticks w) (dm_script w).

Definition dm_move (w : demo) : demo :=
  match dm_script w with
  | [] => w
  | a :: l => w <| dm_lock := act (dm_lock w) a |> <| dm_script := l |>
  end.

Definition demo_io : APPLE_AGX_GFX_HANDOFF_IO demo := {|
  Read8 := Some (fun o _ w =>
    ((true, Z.b2z ((o =? APPLE_AGX_GFX_HANDOFF_LOCK_FW_OFFSET) && lock_fw (dm_lock w))), w));
  Read32 := Some (fun o _ w =>
    ((true, Z.b2z ((o =? APPLE_AGX_GFX_HANDOFF_TURN_OFFSET) && turn (dm_lock w))), w));
  Read64 := Some (fun _ _ w => ((true, APPLE_AGX_GFX_HANDOFF_PPL_MAGIC), w));
  Write8 := Some (fun o v w =>
    (true, if o =? APPLE_AGX_GFX_HANDOFF_LOCK_AP_OFFSET
           then w <| dm_lock := (dm_lock w) <| lock_ap := negb (u8 v =? 0) |> |> else w));
  Write32 := Some (fun o v w =>
    (true, if o =? APPLE_AGX_GFX_HANDOFF_TURN_OFFSET
           then w <| dm_lock := (dm_lock w) <| turn := negb (u32 v =? 0) |> |> else w));
  Write64 := Some (fun _ _ w => (true, w));
  Barrier := Some (fun w => (tt, dm_move w));
  Relax := Some (fun w => (tt, dm_move w));
  Now := Some (fun w => (dm_ticks w * 2 ^ 60, w <| dm_ticks := dm_ticks w + 1 |>));
|}.

Definition demo_env (w w' : demo) : Prop :=
  exists k, dm_script w' = drop k (dm_script w) /\
    dm_lock w' = foldl act (dm_lock w) (take k (dm_script w)).
Definition demo_frame (w w' : demo) : Prop :=
  exists k, dm_script w' = drop k (dm_script w).

Definition is_handover (a : fw_act) : bool := match a with Turn false => true | _ => false end.
Definition demo_handovers (w : demo) : nat :=
  length (filter (fun a => is_handover a = true) (dm_script w)).
Definition demo_within (start : Z) (w : demo) : nat :=
  let d := u64 (dm_ticks w * 2 ^ 60 - start) in
  if d <? 2 ^ 63 then Z.to_nat (8 - d / 2 ^ 60) else 0%nat.

Lemma act_moves p l : rtc fw_step p (foldl act p l).
Proof.
  revert p. induction l as [|a l IH]; intros p; [done|]. simpl. etrans; [|apply IH].
  destruct a; simpl; try (apply rtc_once; by constructor).
  - destruct (inside p) eqn:E; [done|]. pose proof (fw_lower p E) as H. simpl in H.
    rewrite E in H. by apply rtc_once.
  - destruct (lock_fw p) eqn:E, (lock_ap p) eqn:E2; simpl; try done.
    pose proof (fw_enter p E E2) as H. simpl in H. rewrite E, E2 in H. by apply rtc_once.
Qed.

Lemma demo_env_trans w1 w2 w3 : demo_env w1 w2 -> demo_env w2 w3 -> demo_env w1 w3.
Proof.
  intros (k1 & S1 & L1) (k2 & S2 & L2). exists (k1 + k2)%nat. rewrite S2, L2, S1, L1.
  rewrite drop_drop, <- foldl_app. split; [done|]. f_equal.
  by rewrite <- take_take_drop.
Qed.

Lemma demo_frame_trans w1 w2 w3 : demo_frame w1 w2 -> demo_frame w2 w3 -> demo_frame w1 w3.
Proof.
  intros (k1 & S1) (k2 & S2). exists (k1 + k2)%nat. by rewrite S2, S1, drop_drop.
Qed.

Lemma demo_move w : demo_env w (dm_move w).
Proof.
  unfold dm_move. destruct (dm_script w) as [|a l] eqn:E.
  - exists 0%nat. by rewrite drop_0.
  - exists 1%nat. by rewrite E.
Qed.

Lemma demo_stay w w' :
  dm_lock w' = dm_lock w -> dm_script w' = dm_script w -> demo_env w w'.
Proof. intros HL HS. exists 0%nat. by rewrite drop_0. Qed.

Lemma handovers_drop k l :
  (length (filter (fun a => is_handover a = true) (drop k l)) <=
   length (filter (fun a => is_handover a = true) l))%nat.
Proof. rewrite <- (take_drop k l) at 2. rewrite filter_app, length_app. lia. Qed.

Lemma turn_act l p :
  turn p = true -> turn (foldl act p l) = false ->
  (0 < length (filter (fun a => is_handover a = true) l))%nat.
Proof.
  revert p. induction l as [|a l IH]; intros p Hp Hl; simpl in *; [congruence|].
  rewrite filter_cons. case_decide; simpl; [lia|]. apply (IH (act p a)); [|done].
  destruct a as [| | | |[]]; simpl in *; repeat case_match; done.
Qed.

Lemma demo_tick start w :
  u64 (u64 (dm_ticks w * 2 ^ 60) - start) < 2 ^ 63 ->
  (demo_within start (w <| dm_ticks := (dm_ticks w + 1)%Z |>) < demo_within start w)%nat.
Proof.
  unfold demo_within, wrap. cbn [dm_ticks set_field]. rewrite Zminus_mod_idemp_l.
  set (x := dm_ticks w * 2 ^ 60 - start). intros Hd.
  replace ((dm_ticks w + 1) * 2 ^ 60 - start) with (x + 2 ^ 60) by lia.
  rewrite <- (Zplus_mod_idemp_l x). set (d := x mod 2 ^ 64) in *.
  assert (0 <= d) as H0 by (apply Z.mod_pos_bound; lia).
  rewrite (Z.mod_small (d + 2 ^ 60)) by lia.
  rewrite (proj2 (Z.ltb_lt d (2 ^ 63))) by done.
  assert (d / 2 ^ 60 < 8) by (apply Z.div_lt_upper_bound; lia).
  destruct (Z.ltb_spec (d + 2 ^ 60) (2 ^ 63)); [|lia].
  replace (d + 2 ^ 60) with (d + 1 * 2 ^ 60) by lia. rewrite Z.div_add by done. lia.
Qed.

Lemma demo_env_frame w w' : demo_env w w' -> demo_frame w w'.
Proof. intros (k & HS & _). by exists k. Qed.

Lemma demo_env_pre : PreOrder demo_env.
Proof. split; [by intros w; apply demo_stay|exact demo_env_trans]. Qed.

Lemma demo_frame_pre : PreOrder demo_frame.
Proof. split; [by intros w; apply demo_env_frame, demo_stay|exact demo_frame_trans]. Qed.

Lemma demo_env_turn w w' :
  demo_env w w' -> turn (dm_lock w) = true -> turn (dm_lock w') = false ->
  (demo_handovers w' < demo_handovers w)%nat.
Proof.
  intros (k & HS & HL) Ht Hf. unfold demo_handovers. rewrite HS, HL in *.
  pose proof (turn_act _ _ Ht Hf). rewrite <- (take_drop k (dm_script w)) at 2.
  rewrite filter_app, length_app. lia.
Qed.

Lemma demo_within_ticks start w w' :
  dm_ticks w' = dm_ticks w -> demo_within start w' = demo_within start w.
Proof. unfold demo_within. by intros ->. Qed.

Lemma dm_move_ticks w : dm_ticks (dm_move w) = dm_ticks w.
Proof. unfold dm_move. by destruct (dm_script w). Qed.

Lemma demo_shared :
  Shared demo_io dm_lock demo_env demo_frame demo_handovers (2 ^ 63) demo_within 8.
Proof.
  split; try exact demo_env_pre; try exact demo_frame_pre; try exact demo_env_frame;
    try exact demo_env_turn; [done|..].
  - intros w w' (k & HS). unfold demo_handovers. rewrite HS. apply handovers_drop.
  - intros w w' (k & HS & ->). apply act_moves.
  - intros start w. unfold demo_within. destruct (_ <? _); [|lia].
    pose proof (Z.div_pos (u64 (dm_ticks w * 2 ^ 60 - start)) (2 ^ 60)) as H.
    assert (0 <= u64 (dm_ticks w * 2 ^ 60 - start)) by (apply Z.mod_pos_bound; lia). lia.
  - intros f offset old w ok v w' [= <-] [= <- <- <-]. exists w.
    split; [by apply demo_stay|]. split; [by apply demo_stay|]. split; [by intros start|].
    intros _ ->.
    by destruct (lock_fw (dm_lock w)).
  - intros f offset old w ok v w' [= <-] [= <- <- <-]. exists w.
    split; [by apply demo_stay|]. split; [by apply demo_stay|]. split; [by intros start|].
    intros _ ->.
    by destruct (turn (dm_lock w)).
  - intros f offset old w r w' [= <-] [= <- <-]. split; [by apply demo_stay|by intros start].
  - intros f v w ok w' [= <-] [= <- E]. exists w, w'.
    split; [by apply demo_stay|]. split; [by exists 0%nat; rewrite <- E, drop_0|].
    split; [by apply demo_stay|]. by split; [intros start|]; rewrite <- E.
  - intros f v w ok w' [= <-] [= <- E]. exists w, w'.
    split; [by apply demo_stay|]. split; [by exists 0%nat; rewrite <- E, drop_0|].
    split; [by apply demo_stay|]. by split; [intros start|]; rewrite <- E.
  - intros f offset v w ok w' [= <-] [= <- <-]. exists w, w.
    split; [by apply demo_stay|]. split; [by apply demo_env_frame, demo_stay|].
    split; [by apply demo_stay|done].
  - intros f w r w' [= <-] [= <- <-]. split; [apply demo_move|]. intros start.
    by rewrite (demo_within_ticks start w (dm_move w)) by apply dm_move_ticks.
  - intros f w r w' [= <-] [= <- <-]. split; [apply demo_move|]. intros start.
    by rewrite (demo_within_ticks start w (dm_move w)) by apply dm_move_ticks.
  - intros f w t w' [= <-] [= <- <-]. split; [by apply demo_stay|]. intros start. apply demo_tick.
Qed.

(** The firmware is inside with the turn, leaves, and gives the turn away. *)
Definition demo_world : demo := {|
  dm_lock := {| lock_ap := false; lock_fw := true; turn := true; inside := true |};
  dm_ticks := 5;
  dm_script := [Raise; Turn true; Raise; Leave; Turn false; Raise; Lower];
|}.
Definition demo_unbound : APPLE_AGX_GFX_HANDOFF_STATE demo := {|
  Region := {| PhysicalBase := 0; Length := 0 |};
  Io := {| Read8 := NULL; Read32 := NULL; Read64 := NULL; Write8 := NULL; Write32 := NULL;
           Write64 := NULL; Barrier := NULL; Relax := NULL; Now := NULL |};
  Bound := false; Locked := false; Initialized := false;
|}.
Definition demo_region : APPLE_AGX_GFX_HANDOFF_REGION :=
  {| PhysicalBase := J313_AGX_G2_HANDOFF_BASE; Length := J313_AGX_G2_HANDOFF_SIZE |}.
Definition demo_bound : APPLE_AGX_GFX_HANDOFF_STATE demo :=
  default demo_unbound
    (AppleAgxGfxHandoffBindJ313 (Some demo_unbound) (Some demo_region) (Some demo_io)).2.
Definition demo_acquired : option
    ((APPLE_AGX_GFX_HANDOFF_RESULT * ptr (APPLE_AGX_GFX_HANDOFF_STATE demo)) * demo) :=
  AppleAgxGfxHandoffAcquire 20 (Some demo_bound) (2 ^ 62) demo_world.

Example demo_acquire_ok :
  match demo_acquired with
  | Some ((r, Some s), w) => r = AppleAgxGfxHandoffResultOk /\ Locked s = true /\
      lock_ap (dm_lock w) = true /\ inside (dm_lock w) = false
  | _ => False
  end.
Proof. by vm_compute. Qed.

Lemma demo_reachable :
  reachable (H := handoff_component demo_io dm_lock demo_env demo_frame demo_handovers
    (2 ^ 63) demo_within 8 (Shared0 := demo_shared)) (demo_bound, demo_world).
Proof.
  exists (demo_unbound, demo_world). split; [by split_and!|]. apply rtc_once.
  by apply handoff_bind with (region := Some demo_region) (r := AppleAgxGfxHandoffResultOk).
Qed.

Lemma handoff_acquire_ends_witness :
  exists r s' w', demo_acquired = Some ((r, Some s'), w') /\
    (r = AppleAgxGfxHandoffResultOk -> Locked s' = true /\ inside (dm_lock w') = false) /\
    (r = AppleAgxGfxHandoffResultTimeout -> lock_ap (dm_lock w') = false).
Proof.
  exact (@handoff_acquire_ends demo demo_io dm_lock demo_env demo_frame demo_handovers (2 ^ 63)
    demo_within 8 demo_shared 20 (2 ^ 62) demo_bound demo_world demo_reachable
    ltac:(done) ltac:(vm_compute; lia)).
Defined.

(** The state and the world the acquisition leads to. *)
Definition demo_locked : APPLE_AGX_GFX_HANDOFF_STATE demo := demo_bound <| Locked := true |>.
Definition demo_later : demo := default demo_world (snd <$> demo_acquired).

Lemma demo_acquired_eq :
  demo_acquired = Some ((AppleAgxGfxHandoffResultOk, Some demo_locked), demo_later).
Proof.
  pose proof (acquire_spec demo_io dm_lock demo_env demo_frame demo_handovers (2 ^ 63) demo_within 8
    (Shared0 := demo_shared) demo_bound eq_refl 20 (2 ^ 62) demo_world eq_refl eq_refl
    (fun _ => eq_refl) ltac:(done) ltac:(apply Nat.ltb_lt; by vm_compute)) as H.
  apply wp_result in H as ([r s'] & w' & E & _ & _ & Hs).
  change (demo_acquired = Some ((r, s'), w')) in E. unfold demo_later.
  assert ((fun p => p.1.1) <$> demo_acquired = Some AppleAgxGfxHandoffResultOk) as Hr
    by (by vm_compute).
  rewrite E in Hr |- *. injection Hr as ->. cbn [fst snd] in Hs. by rewrite Hs.
Qed.

Lemma handoff_exclusive_witness :
  lock_ap (dm_lock demo_later) = true /\ inside (dm_lock demo_later) = false /\
  forall w', demo_env demo_later w' -> inside (dm_lock w') = false.
Proof.
  refine (@handoff_exclusive demo demo_io dm_lock demo_env demo_frame demo_handovers (2 ^ 63)
    demo_within 8 demo_shared (demo_locked, demo_later) _ eq_refl).
  apply (reachable_step (H := handoff_component demo_io dm_lock demo_env demo_frame
    demo_handovers (2 ^ 63) demo_within 8 (Shared0 := demo_shared)) _ _ demo_reachable).
  apply handoff_acquire with (fuel := 20%nat) (timeout := 2 ^ 62)
    (r := AppleAgxGfxHandoffResultOk); [done|apply Nat.ltb_lt; by vm_compute|].
  exact demo_acquired_eq.
Defined.

End Handoff.
