(* ===== verification/RtkitSession.v ===== *)
(** * The session with the coprocessor (shared/src/apple_agx_rtkit_session.c)

    [Session] starts the coprocessor's processor, sets up the shared lock, conducts the
    boot handshake over the mailbox, serves its messages while it runs, and stops it.  The
    theorems are in SessionTalk.v, SessionRun.v and SessionLife.v; they speak of the log
    that the observer of AscTransport.v keeps. *)

From S2P Require Import Prelude Arrays Bytes Rtkit RtkitBoot Interact AscTransport GfxHandoff.
Import Interact.

Module Session.
Import Rtkit Boot Asc.

(** ** Data *)

Inductive APPLE_AGX_RTKIT_SESSION_RESULT :=
  | AppleAgxRtkitSessionResultOk
  | AppleAgxRtkitSessionResultInvalidArgument
  | AppleAgxRtkitSessionResultInvalidState
  | AppleAgxRtkitSessionResultTimeout
  | AppleAgxRtkitSessionResultClockRegression
  | AppleAgxRtkitSessionResultTransportFailed
  | AppleAgxRtkitSessionResultProtocolViolation
  | AppleAgxRtkitSessionResultCleanupFailed
  | AppleAgxRtkitSessionResultFirmwareCrashed.
#[export] Instance session_result_eq_dec : EqDecision APPLE_AGX_RTKIT_SESSION_RESULT.
Proof. solve_decision. Defined.

Inductive APPLE_AGX_RTKIT_STOP_PHASE :=
  | AppleAgxRtkitStopIdle
  | AppleAgxRtkitStopApRequested
  | AppleAgxRtkitStopApAcknowledged
  | AppleAgxRtkitStopIopRequested
  | AppleAgxRtkitStopIopAcknowledged
  | AppleAgxRtkitStopComplete.
#[export] Instance stop_phase_eq_dec : EqDecision APPLE_AGX_RTKIT_STOP_PHASE.
Proof. solve_decision. Defined.

Record APPLE_AGX_RTKIT_SESSION := {
  Boot_ : APPLE_AGX_RTKIT_BOOT;
  Running : bool;
  CpuReady : bool;
  InboxBeforeInitValid : bool;
  InboxAfterInitValid : bool;
  InboxAtFailureValid : bool;
  OutboxAtFailureValid : bool;
  StopPhase : APPLE_AGX_RTKIT_STOP_PHASE;
  InboxControlBeforeInit : Z;
  InboxControlAfterInit : Z;
  InboxControlAtFailure : Z;
  OutboxControlAtFailure : Z;
  ReceivedCount : Z;
  LastRxEndpoint : Z;
  LastRxPayload : Z;
  CrashlogGpuAddress : Z;
  CrashlogCapacityBytes : Z;
  CrashlogRequestedBytes : Z;
  CrashlogReplySent : bool;
  CrashlogCrashed : bool;
}.
#[export] Instance session_eta : Eta APPLE_AGX_RTKIT_SESSION :=
  fun s => Build_APPLE_AGX_RTKIT_SESSION (Boot_ s) (Running s) (CpuReady s)
    (InboxBeforeInitValid s) (InboxAfterInitValid s) (InboxAtFailureValid s)
    (OutboxAtFailureValid s) (StopPhase s) (InboxControlBeforeInit s)
    (InboxControlAfterInit s) (InboxControlAtFailure s) (OutboxControlAtFailure s)
    (ReceivedCount s) (LastRxEndpoint s) (LastRxPayload s) (CrashlogGpuAddress s)
    (CrashlogCapacityBytes s) (CrashlogRequestedBytes s) (CrashlogReplySent s)
    (CrashlogCrashed s).

Definition J313_AGX_G2_UAT_INPUT_ADDRESS_BITS : Z := 39.
Definition APPLE_AGX_RTKIT_RUNTIME_DRAIN_LIMIT : Z := 64.

(** Local variables before the call that fills them. *)
Definition blank_message : APPLE_AGX_ASC_MESSAGE :=
  {| am_Payload := 0; am_Endpoint := 0 |}.
Definition blank_output : APPLE_AGX_RTKIT_BOOT_OUTPUT :=
  {| Count := 0; Message := replicate 8 0 |}.

(** [AppleAgxRtkitBootInitialize(&Session->Boot)]. *)
Definition boot_initialized (b : APPLE_AGX_RTKIT_BOOT) : APPLE_AGX_RTKIT_BOOT :=
  default b (AppleAgxRtkitBootInitialize (Some b)).

(** The decoded message is a management message of type [Type_] (and state [State_]). *)
Definition decodes_type (Payload Type__ : Z) : bool :=
  let '(ok, decoded) := AppleAgxRtkitDecodeManagement Payload (Some cleared) in
  ok && (Type_ (default cleared decoded) =? Type__).

(** ** Operations *)

Section operations.
Context {W : Type}.
Notation IO := (ptr (APPLE_AGX_ASC_IO W)).
Notation HANDOFF := (ptr (Handoff.APPLE_AGX_GFX_HANDOFF_STATE W)).
Notation SESSION := APPLE_AGX_RTKIT_SESSION.
Notation RESULT := APPLE_AGX_RTKIT_SESSION_RESULT.
Implicit Types (Io : IO).

Definition AppleAgxRtkitSessionAscResult (Result : APPLE_AGX_ASC_RESULT) : RESULT :=
  match Result with
  | AppleAgxAscResultOk => AppleAgxRtkitSessionResultOk
  | AppleAgxAscResultInvalidArgument => AppleAgxRtkitSessionResultInvalidArgument
  | AppleAgxAscResultTimeout => AppleAgxRtkitSessionResultTimeout
  | AppleAgxAscResultClockRegression => AppleAgxRtkitSessionResultClockRegression
  | AppleAgxAscResultTransportFailed => AppleAgxRtkitSessionResultTransportFailed
  end.

Definition AppleAgxRtkitSessionMessageIsEventWake (Message_ : ptr APPLE_AGX_ASC_MESSAGE)
    : bool :=
  deref m := Message_ else false in
  (am_Endpoint m =? 0x20) && (Z.land (Z.shiftr (am_Payload m) 48) 0xffff =? 0x42).

Definition AppleAgxRtkitSessionSendOutput (fuel : nat) Io (Output : APPLE_AGX_RTKIT_BOOT_OUTPUT)
    (DeadlineMs : Z) : M W RESULT :=
  r ← for_each (Z.to_nat (Count Output)) 0 (fun index _ =>
    r ← AppleAgxAscSend fuel Io (Message Output) .[ index ] 0 DeadlineMs;
    match AppleAgxRtkitSessionAscResult r with
    | AppleAgxRtkitSessionResultOk => mret (inl tt)
    | result => mret (inr result)
    end) tt;
  mret (match r with inl _ => AppleAgxRtkitSessionResultOk | inr result => result end).

Definition AppleAgxRtkitSessionForceRunOff (Session : SESSION) Io (OriginalResult : RESULT)
    : M W (RESULT * SESSION) :=
  stop_result ← AppleAgxAscSetRun Io APPLE_AGX_ASC_FALSE;
  match stop_result with
  | AppleAgxAscResultOk =>
      mret (OriginalResult, Session <| Running := false |>
                                    <| StopPhase := AppleAgxRtkitStopComplete |>)
  | _ => mret (AppleAgxRtkitSessionResultCleanupFailed, Session)
  end.

Definition AppleAgxRtkitSessionInitialize (Session : ptr SESSION) : ptr SESSION :=
  deref s := Session else Session in
  Some (s <| Boot_ := boot_initialized (Boot_ s) |>
    <| Running := false |> <| CpuReady := false |>
    <| InboxBeforeInitValid := false |> <| InboxAfterInitValid := false |>
    <| InboxAtFailureValid := false |> <| OutboxAtFailureValid := false |>
    <| InboxControlBeforeInit := 0 |> <| InboxControlAfterInit := 0 |>
    <| InboxControlAtFailure := 0 |> <| OutboxControlAtFailure := 0 |>
    <| ReceivedCount := 0 |> <| LastRxEndpoint := 0 |> <| LastRxPayload := 0 |>
    <| CrashlogGpuAddress := 0 |> <| CrashlogCapacityBytes := 0 |>
    <| CrashlogRequestedBytes := 0 |> <| CrashlogReplySent := false |>
    <| CrashlogCrashed := false |> <| StopPhase := AppleAgxRtkitStopIdle |>).

Definition AppleAgxRtkitSessionCaptureFailureMailbox (Session : SESSION) Io : M W SESSION :=
  '(r, control) ← AppleAgxAscReadInboxControl Io (Some (InboxControlAtFailure Session));
  let Session := Session <| InboxControlAtFailure :=
    default (InboxControlAtFailure Session) control |> in
  let Session := if bool_decide (r = AppleAgxAscResultOk)
    then Session <| InboxAtFailureValid := true |> else Session in
  '(r, control) ← AppleAgxAscReadOutboxControl Io (Some (OutboxControlAtFailure Session));
  let Session := Session <| OutboxControlAtFailure :=
    default (OutboxControlAtFailure Session) control |> in
  mret (if bool_decide (r = AppleAgxAscResultOk)
        then Session <| OutboxAtFailureValid := true |> else Session).

(** [++Session->ReceivedCount] and the copy of the last message. *)
Definition note_received (Session : SESSION) (m : APPLE_AGX_ASC_MESSAGE) : SESSION :=
  Session <| ReceivedCount := u32 (ReceivedCount Session + 1) |>
    <| LastRxEndpoint := am_Endpoint m |> <| LastRxPayload := am_Payload m |>.

(** The session's fields at the beginning of a start. *)
Definition fresh_start (Session : SESSION) : SESSION :=
  Session <| StopPhase := AppleAgxRtkitStopIdle |> <| CpuReady := false |>
    <| ReceivedCount := 0 |> <| LastRxEndpoint := 0 |> <| LastRxPayload := 0 |>
    <| CrashlogRequestedBytes := 0 |> <| CrashlogReplySent := false |>
    <| CrashlogCrashed := false |> <| Boot_ := boot_initialized (Boot_ Session) |>.

Definition AppleAgxRtkitSessionStartCpuAndInitializeHandoff (fuel : nat) (Session : ptr SESSION)
    Io (Handoff : HANDOFF) (DeadlineMs : Z) : M W (RESULT * ptr SESSION * HANDOFF) :=
  deref s := Session
    else mret (AppleAgxRtkitSessionResultInvalidArgument, Session, Handoff) in
  if is_null Io then mret (AppleAgxRtkitSessionResultInvalidArgument, Session, Handoff)
  else if Running s then mret (AppleAgxRtkitSessionResultInvalidState, Session, Handoff)
  else if negb (bool_decide (StopPhase s = AppleAgxRtkitStopIdle)) &&
          negb (bool_decide (StopPhase s = AppleAgxRtkitStopComplete))
  then mret (AppleAgxRtkitSessionResultInvalidState, Session, Handoff)
  else
    let s := fresh_start s in
    r ← AppleAgxAscSetRun Io APPLE_AGX_ASC_TRUE;
    match AppleAgxRtkitSessionAscResult r with
    | AppleAgxRtkitSessionResultOk =>
        let s := s <| Running := true |> in
        '(r, _) ← AppleAgxAscWaitRunning fuel Io DeadlineMs (Some 0);
        match AppleAgxRtkitSessionAscResult r with
        | AppleAgxRtkitSessionResultOk =>
            let s := s <| CpuReady := true |> in
            if is_null Handoff then mret (AppleAgxRtkitSessionResultOk, Some s, Handoff)
            else
              '(r, Handoff) ← Handoff.AppleAgxGfxHandoffInitialize fuel Handoff DeadlineMs;
              match r with
              | Handoff.AppleAgxGfxHandoffResultOk =>
                  mret (AppleAgxRtkitSessionResultOk, Some s, Handoff)
              | _ =>
                  '(result, s) ← AppleAgxRtkitSessionForceRunOff s Io
                                   AppleAgxRtkitSessionResultTimeout;
                  mret (result, Some s, Handoff)
              end
        | result =>
            '(result, s) ← AppleAgxRtkitSessionForceRunOff s Io result;
            mret (result, Some s, Handoff)
        end
    | result => mret (result, Some s, Handoff)
    end.

(** The conditions under which a crash-log grant is refused. *)
Definition crashlog_refused (Session : SESSION) (Payload : Z) : bool :=
  negb (Z.land Payload (Z.shiftl 1 44 - 1) =? 0) ||
  (CrashlogRequestedBytes Session =? 0) ||
  (CrashlogCapacityBytes Session <? CrashlogRequestedBytes Session) ||
  (CrashlogGpuAddress Session <?
     Z.shiftl 1 44 - Z.shiftl 1 J313_AGX_G2_UAT_INPUT_ADDRESS_BITS) ||
  (Z.shiftl 1 44 <=? CrashlogGpuAddress Session) ||
  negb (Z.land (CrashlogGpuAddress Session) 0x3fff =? 0) ||
  (CrashlogCapacityBytes Session =? 0) ||
  (0xff000 <? CrashlogCapacityBytes Session) ||
  negb (Z.land (CrashlogCapacityBytes Session) 0x3fff =? 0) ||
  (u64 (Z.shiftl 1 44 - CrashlogGpuAddress Session) <? CrashlogCapacityBytes Session).

Definition AppleAgxRtkitSessionCrashlog (fuel : nat) (Session : SESSION) Io
    (Payload DeadlineMs : Z) : M W (RESULT * SESSION) :=
  if negb (Z.shiftr Payload 52 =? 1)
  then mret (AppleAgxRtkitSessionResultProtocolViolation, Session)
  else if CrashlogReplySent Session
  then mret (AppleAgxRtkitSessionResultFirmwareCrashed, Session <| CrashlogCrashed := true |>)
  else
    let Session := Session <| CrashlogRequestedBytes :=
      u32 (Z.shiftl (Z.land (Z.shiftr Payload 44) 0xff) 12) |> in
    if crashlog_refused Session Payload
    then mret (AppleAgxRtkitSessionResultProtocolViolation, Session)
    else
      let reply := Z.lor (Z.lor (Z.shiftl 1 52)
        (u64 (Z.shiftl (Z.shiftr (CrashlogCapacityBytes Session) 12) 44)))
        (CrashlogGpuAddress Session) in
      r ← AppleAgxAscSend fuel Io reply 1 DeadlineMs;
      match AppleAgxRtkitSessionAscResult r with
      | AppleAgxRtkitSessionResultOk =>
          mret (AppleAgxRtkitSessionResultOk, Session <| CrashlogReplySent := true |>)
      | result => mret (result, Session)
      end.
(** A turn of the bootstrap loop that has not ended: the session with one message more. *)
Definition bootstrap_message (fuel : nat) (Session : SESSION) Io (m : APPLE_AGX_ASC_MESSAGE)
    (DeadlineMs : Z) : M W (SESSION + RESULT * SESSION) :=
  let Session := note_received Session m in
  if am_Endpoint m =? 1 then
    '(result, Session) ← AppleAgxRtkitSessionCrashlog fuel Session Io (am_Payload m) DeadlineMs;
    match result with
    | AppleAgxRtkitSessionResultOk => mret (inl Session)
    | _ =>
        let Session := Session <| Boot_ := (Boot_ Session) <| Phase := AppleAgxRtkitBootFailed |> |> in
        r ← AppleAgxRtkitSessionForceRunOff Session Io result;
        mret (inr r)
    end
  else
    let '(boot_result, boot, output) := AppleAgxRtkitBootHandle (Some (Boot_ Session))
      (am_Payload m) (am_Endpoint m) (Some blank_output) in
    let Session := Session <| Boot_ := default (Boot_ Session) boot |> in
    match boot_result with
    | AppleAgxRtkitBootResultOk =>
        result ← AppleAgxRtkitSessionSendOutput fuel Io (default blank_output output) DeadlineMs;
        match result with
        | AppleAgxRtkitSessionResultOk => mret (inl Session)
        | _ =>
            r ← AppleAgxRtkitSessionForceRunOff Session Io result;
            mret (inr r)
        end
    | _ =>
        r ← AppleAgxRtkitSessionForceRunOff Session Io
              AppleAgxRtkitSessionResultProtocolViolation;
        mret (inr r)
    end.

(** The bootstrap loop. *)
Definition bootstrap_loop (fuel : nat) (Session : SESSION) Io (DeadlineMs : Z)
    : M W (RESULT * SESSION) :=
  iterate fuel (fun Session =>
    if AppleAgxRtkitBootIsReady (Some (Boot_ Session))
    then mret (inr (AppleAgxRtkitSessionResultOk, Session))
    else
      '(r, m) ← AppleAgxAscReceive fuel Io (Some blank_message) DeadlineMs;
      match AppleAgxRtkitSessionAscResult r with
      | AppleAgxRtkitSessionResultOk =>
          bootstrap_message fuel Session Io (default blank_message m) DeadlineMs
      | result =>
          Session ← AppleAgxRtkitSessionCaptureFailureMailbox Session Io;
          r ← AppleAgxRtkitSessionForceRunOff Session Io result;
          mret (inr r)
      end) Session.

(** What a read of the inbox control word, before and after the first messages, leaves in
    the session. *)
Definition note_before (s : SESSION) (r : APPLE_AGX_ASC_RESULT) (control : ptr Z) : SESSION :=
  let s := s <| InboxControlBeforeInit := default (InboxControlBeforeInit s) control |> in
  if bool_decide (r = AppleAgxAscResultOk) then s <| InboxBeforeInitValid := true |> else s.
Definition note_after (s : SESSION) (r : APPLE_AGX_ASC_RESULT) (control : ptr Z) : SESSION :=
  let s := s <| InboxControlAfterInit := default (InboxControlAfterInit s) control |> in
  if bool_decide (r = AppleAgxAscResultOk) then s <| InboxAfterInitValid := true |> else s.

(** The bootstrap once the boot has begun, with its first output. *)
Definition bootstrap_begun (fuel : nat) (s : SESSION) (output : APPLE_AGX_RTKIT_BOOT_OUTPUT) Io
    (DeadlineMs : Z) : M W (RESULT * SESSION) :=
  '(r, control) ← AppleAgxAscReadInboxControl Io (Some (InboxControlBeforeInit s));
  let s := note_before s r control in
  result ← AppleAgxRtkitSessionSendOutput fuel Io output DeadlineMs;
  match result with
  | AppleAgxRtkitSessionResultOk =>
      '(r, control) ← AppleAgxAscReadInboxControl Io (Some (InboxControlAfterInit s));
      let s := note_after s r control in
      bootstrap_loop fuel s Io DeadlineMs
  | _ => AppleAgxRtkitSessionForceRunOff s Io result
  end.

Definition AppleAgxRtkitSessionCompleteManagementBootstrap (fuel : nat) (Session : ptr SESSION)
    Io (DeadlineMs : Z) : M W (RESULT * ptr SESSION) :=
  deref s := Session else mret (AppleAgxRtkitSessionResultInvalidArgument, Session) in
  if is_null Io then mret (AppleAgxRtkitSessionResultInvalidArgument, Session)
  else if negb (Running s) || negb (CpuReady s) ||
          negb (bool_decide (StopPhase s = AppleAgxRtkitStopIdle)) ||
          AppleAgxRtkitBootIsReady (Some (Boot_ s))
  then mret (AppleAgxRtkitSessionResultInvalidState, Session)
  else
    let boot := boot_initialized (Boot_ s) in
    let '(boot_result, boot', output) := AppleAgxRtkitBootBegin (Some boot) (Some blank_output) in
    let s := s <| Boot_ := default boot boot' |> in
    '(result, s) ←
      match boot_result with
      | AppleAgxRtkitBootResultOk =>
          bootstrap_begun fuel s (default blank_output output) Io DeadlineMs
      | _ => AppleAgxRtkitSessionForceRunOff s Io AppleAgxRtkitSessionResultInvalidState
      end;
    mret (result, Some s).

Definition AppleAgxRtkitSessionBoot (fuel : nat) (Session : ptr SESSION) Io (Handoff : HANDOFF)
    (Prepare : ptr (Z -> W -> bool * W)) (DeadlineMs : Z)
    : M W (RESULT * ptr SESSION * HANDOFF) :=
  '(result, Session, Handoff) ← AppleAgxRtkitSessionStartCpuAndInitializeHandoff fuel Session Io
    Handoff DeadlineMs;
  match result with
  | AppleAgxRtkitSessionResultOk =>
      deref s := Session else undefined in
      prepared ← (deref f := Prepare else mret true in call (f DeadlineMs));
      if negb prepared then
        '(result, s) ← AppleAgxRtkitSessionForceRunOff s Io
                         AppleAgxRtkitSessionResultTransportFailed;
        mret (result, Some s, Handoff)
      else
        '(result, Session) ← AppleAgxRtkitSessionCompleteManagementBootstrap fuel Session Io
                               DeadlineMs;
        mret (result, Session, Handoff)
  | _ => mret (result, Session, Handoff)
  end.

(** A round of the drain: the session and the number of messages drained so far. *)
Definition drain_round Io (Session : SESSION) (drained : Z)
    : M W (SESSION * Z + RESULT * SESSION * Z) :=
  '(r, m, available) ← AppleAgxAscTryReceive Io (Some blank_message) (Some false);
  match AppleAgxRtkitSessionAscResult r with
  | AppleAgxRtkitSessionResultOk =>
      if negb (default false available)
      then mret (inr (AppleAgxRtkitSessionResultOk, Session, drained))
      else
        let m := default blank_message m in
        let drained := u32 (drained + 1) in
        let s := note_received Session m in
        if AppleAgxRtkitSessionMessageIsEventWake (Some m) then mret (inl (s, drained))
        else if (am_Endpoint m =? 0) && decodes_type (am_Payload m) AppleAgxRtkitManagementPong
        then mret (inl (s, drained))
        else if (am_Endpoint m =? 1) && (Z.shiftr (am_Payload m) 52 =? 1) && CrashlogReplySent s
        then
          let s := s <| CrashlogCrashed := true |> in
          s ← AppleAgxRtkitSessionCaptureFailureMailbox s Io;
          mret (inr (AppleAgxRtkitSessionResultFirmwareCrashed, s, drained))
        else
          s ← AppleAgxRtkitSessionCaptureFailureMailbox s Io;
          mret (inr (AppleAgxRtkitSessionResultProtocolViolation, s, drained))
  | result =>
      s ← AppleAgxRtkitSessionCaptureFailureMailbox Session Io;
      mret (inr (result, s, drained))
  end.

Definition AppleAgxRtkitSessionDrainRuntime (Session : ptr SESSION) Io (MaxMessages : Z)
    (Drained : ptr Z) : M W (RESULT * ptr SESSION * ptr Z) :=
  let Drained := if is_null Drained then Drained else Some 0 in
  deref s := Session
    else mret (AppleAgxRtkitSessionResultInvalidArgument, Session, Drained) in
  deref drained := Drained
    else mret (AppleAgxRtkitSessionResultInvalidArgument, Session, Drained) in
  if is_null Io || (MaxMessages =? 0) || (APPLE_AGX_RTKIT_RUNTIME_DRAIN_LIMIT <? MaxMessages)
  then mret (AppleAgxRtkitSessionResultInvalidArgument, Session, Drained)
  else if CrashlogCrashed s
  then mret (AppleAgxRtkitSessionResultFirmwareCrashed, Session, Drained)
  else if negb (Running s) || negb (CpuReady s) ||
          negb (AppleAgxRtkitBootIsReady (Some (Boot_ s))) ||
          negb (bool_decide (StopPhase s = AppleAgxRtkitStopIdle))
  then mret (AppleAgxRtkitSessionResultInvalidState, Session, Drained)
  else
    r ← for_each (Z.to_nat MaxMessages) 0 (fun _ p => drain_round Io p.1 p.2) (s, drained);
    mret (match r with
          | inl (s, drained) => (AppleAgxRtkitSessionResultOk, Some s, Some drained)
          | inr (result, s, drained) => (result, Some s, Some drained)
          end).

(** A round of the wait for the answer to a heartbeat. *)
Definition heartbeat_round (fuel : nat) Io (DeadlineMs : Z) (s : SESSION)
    : M W (SESSION + RESULT * SESSION) :=
  '(r, m) ← AppleAgxAscReceive fuel Io (Some blank_message) DeadlineMs;
  match AppleAgxRtkitSessionAscResult r with
  | AppleAgxRtkitSessionResultOk =>
      let m := default blank_message m in
      let s := note_received s m in
      if (am_Endpoint m =? 0) && decodes_type (am_Payload m) AppleAgxRtkitManagementPong
      then mret (inr (AppleAgxRtkitSessionResultOk, s))
      else if negb (AppleAgxRtkitSessionMessageIsEventWake (Some m))
      then mret (inr (AppleAgxRtkitSessionResultProtocolViolation, s))
      else mret (inl s)
  | result =>
      s ← AppleAgxRtkitSessionCaptureFailureMailbox s Io;
      mret (inr (result, s))
  end.

Definition AppleAgxRtkitSessionHeartbeat (fuel : nat) (Session : ptr SESSION) Io
    (DeadlineMs : Z) : M W (RESULT * ptr SESSION) :=
  deref s := Session else mret (AppleAgxRtkitSessionResultInvalidArgument, Session) in
  if is_null Io then mret (AppleAgxRtkitSessionResultInvalidArgument, Session)
  else if negb (Running s) || negb (CpuReady s) ||
          negb (AppleAgxRtkitBootIsReady (Some (Boot_ s))) ||
          negb (bool_decide (StopPhase s = AppleAgxRtkitStopIdle))
  then mret (AppleAgxRtkitSessionResultInvalidState, Session)
  else
    r ← AppleAgxAscSend fuel Io AppleAgxRtkitPing 0 DeadlineMs;
    match AppleAgxRtkitSessionAscResult r with
    | AppleAgxRtkitSessionResultOk =>
        '(result, s) ← iterate fuel (heartbeat_round fuel Io DeadlineMs) s;
        mret (result, Some s)
    | result => mret (result, Session)
    end.

(** The loop of the code returns in its first round, whatever it receives. *)
Definition AppleAgxRtkitSessionWaitPower (fuel : nat) Io (Type__ State__ DeadlineMs : Z)
    : M W RESULT :=
  '(r, m) ← AppleAgxAscReceive fuel Io (Some blank_message) DeadlineMs;
  match AppleAgxRtkitSessionAscResult r with
  | AppleAgxRtkitSessionResultOk =>
      let m := default blank_message m in
      let '(ok, decoded) := AppleAgxRtkitDecodeManagement (am_Payload m) (Some cleared) in
      let decoded := default cleared decoded in
      if negb (am_Endpoint m =? 0) || negb ok
      then mret AppleAgxRtkitSessionResultProtocolViolation
      else if (Type_ decoded =? Type__) && (State decoded =? State__)
      then mret AppleAgxRtkitSessionResultOk
      else mret AppleAgxRtkitSessionResultProtocolViolation
  | result => mret result
  end.

(** A step of the orderly stop, taken in [phase] only: an exchange that must succeed for the
    phase to become [next]. *)
Definition stop_step (phase next : APPLE_AGX_RTKIT_STOP_PHASE) (m : M W RESULT) (s : SESSION)
    : M W (RESULT * SESSION) :=
  if bool_decide (StopPhase s = phase) then
    result ← m;
    match result with
    | AppleAgxRtkitSessionResultOk =>
        mret (AppleAgxRtkitSessionResultOk, s <| StopPhase := next |>)
    | _ => mret (result, s)
    end
  else mret (AppleAgxRtkitSessionResultOk, s).

(** [if (result != Ok) return result] between the steps. *)
Definition stop_then (m : M W (RESULT * SESSION)) (k : SESSION -> M W (RESULT * SESSION))
    : M W (RESULT * SESSION) :=
  '(result, s) ← m;
  match result with
  | AppleAgxRtkitSessionResultOk => k s
  | _ => mret (result, s)
  end.

Definition request_power (fuel : nat) Io (Payload DeadlineMs : Z) : M W RESULT :=
  r ← AppleAgxAscSend fuel Io Payload 0 DeadlineMs; mret (AppleAgxRtkitSessionAscResult r).

Definition AppleAgxRtkitSessionStop (fuel : nat) (Session : ptr SESSION) Io (DeadlineMs : Z)
    : M W (RESULT * ptr SESSION) :=
  deref s := Session else mret (AppleAgxRtkitSessionResultInvalidArgument, Session) in
  if is_null Io then mret (AppleAgxRtkitSessionResultInvalidArgument, Session)
  else if negb (Running s) then mret (AppleAgxRtkitSessionResultOk, Session)
  else if negb (AppleAgxRtkitBootIsReady (Some (Boot_ s))) then
    '(result, s) ← AppleAgxRtkitSessionForceRunOff s Io AppleAgxRtkitSessionResultOk;
    mret (result, Some s)
  else if bool_decide (StopPhase s = AppleAgxRtkitStopComplete)
  then mret (AppleAgxRtkitSessionResultInvalidState, Session)
  else
    '(result, s) ← stop_then
      (stop_step AppleAgxRtkitStopIdle AppleAgxRtkitStopApRequested
         (request_power fuel Io (AppleAgxRtkitSetApPower 0x10) DeadlineMs) s) (fun s => stop_then
      (stop_step AppleAgxRtkitStopApRequested AppleAgxRtkitStopApAcknowledged
         (AppleAgxRtkitSessionWaitPower fuel Io AppleAgxRtkitManagementSetApPower 0x10
            DeadlineMs) s) (fun s => stop_then
      (stop_step AppleAgxRtkitStopApAcknowledged AppleAgxRtkitStopIopRequested
         (request_power fuel Io (AppleAgxRtkitSetIopPower 0x10) DeadlineMs) s) (fun s => stop_then
      (stop_step AppleAgxRtkitStopIopRequested AppleAgxRtkitStopIopAcknowledged
         (AppleAgxRtkitSessionWaitPower fuel Io AppleAgxRtkitManagementIopPowerAck 0x10
            DeadlineMs) s) (fun s =>
      r ← AppleAgxAscSetRun Io APPLE_AGX_ASC_FALSE;
      match AppleAgxRtkitSessionAscResult r with
      | AppleAgxRtkitSessionResultOk =>
          mret (AppleAgxRtkitSessionResultOk,
                s <| Running := false |> <| Boot_ := boot_initialized (Boot_ s) |>
                  <| StopPhase := AppleAgxRtkitStopComplete |>)
      | _ => mret (AppleAgxRtkitSessionResultCleanupFailed, s)
      end))));
    mret (result, Some s).
End operations.

End Session.
