(* ===== verification/SessionDemo.v ===== *)
(** * A coprocessor with a script

    A concrete world for the witnesses of the session's theorems: registers that always
    answer, an inbox that always has room, an outbox that holds a list of messages, and a
    clock that advances by a millisecond whenever it is read. *)

From S2P Require Import Prelude Arrays Bytes Interact Rtkit RtkitBoot AscTransport.
Import Interact.

Module Demo.
Import Asc.

Record demo := { dm_control : Z; dm_queue : list (Z * Z); dm_ticks : Z }.
#[export] Instance demo_eta : Eta demo :=
  fun w => Build_demo (dm_control w) (dm_queue w) (dm_ticks w).

(** What a register reads as. *)
Definition dm_read (offset : Z) (w : demo) : Z :=
  if offset =? J313_AGX_G2_ASC_CPU_CONTROL_OFFSET then dm_control w
  else if offset =? J313_AGX_G2_ASC_CPU_STATUS_OFFSET
  then if Z.testbit (dm_control w) 4 then 1 else 2
  else if offset =? J313_AGX_G2_ASC_OUTBOX_CTRL_OFFSET
  then match dm_queue w with [] => APPLE_AGX_ASC_MAILBOX_EMPTY | _ => 0 end
  else if offset =? J313_AGX_G2_ASC_OUTBOX0_OFFSET
  then match dm_queue w with (p, _) :: _ => p | [] => 0 end
  else if offset =? J313_AGX_G2_ASC_OUTBOX1_OFFSET
  then match dm_queue w with (_, e) :: _ => e | [] => 0 end
  else 0.

(** The second word's read takes the message away. *)
Definition dm_after_read (offset : Z) (w : demo) : demo :=
  if offset =? J313_AGX_G2_ASC_OUTBOX1_OFFSET then w <| dm_queue := tail (dm_queue w) |> else w.

Definition demo_io : APPLE_AGX_ASC_IO demo := {|
  NowMs := Some (fun w => (dm_ticks w, w <| dm_ticks := dm_ticks w + 1 |>));
  Read32 := Some (fun offset _ w => ((true, dm_read offset w), w));
  Read64 := Some (fun offset _ w => ((true, dm_read offset w), dm_after_read offset w));
  Write32 := Some (fun offset v w =>
    (true, if offset =? J313_AGX_G2_ASC_CPU_CONTROL_OFFSET then w <| dm_control := v |> else w));
  Write64 := Some (fun _ _ w => (true, w));
  Pause := NULL;
|}.

Definition demo_limit : Z := 100.
Definition demo_within (w : demo) : nat := Z.to_nat (demo_limit - u64 (dm_ticks w)).

Lemma script_within_ticks w w' : dm_ticks w' = dm_ticks w -> (demo_within w' <= demo_within w)%nat.
Proof. unfold demo_within. intros ->. lia. Qed.

#[export] Instance demo_clock : Clock demo_io demo_limit demo_within 100.
Proof.
  split.
  - intros w. unfold demo_within, demo_limit.
    assert (0 <= u64 (dm_ticks w)) by (apply Z.mod_pos_bound; lia). lia.
  - intros f w t w' [= <-] [= <- <-] Ht. unfold demo_within, demo_limit in *.
    cbn [dm_ticks set_field eta_expand demo_eta].
    assert (0 <= u64 (dm_ticks w)) by (apply Z.mod_pos_bound; lia).
    assert (u64 (dm_ticks w + 1) = u64 (dm_ticks w) + 1) as ->; [|lia].
    unfold wrap in *. rewrite <- Zplus_mod_idemp_l. apply Z.mod_small. lia.
  - intros f offset old w r w' [= <-] [= <- <-]. by apply script_within_ticks.
  - intros f offset old w r w' [= <-] [= <- <-]. apply script_within_ticks.
    unfold dm_after_read. by destruct (_ =? _).
  - intros f offset v w r w' [= <-] [= <- <-]. apply script_within_ticks. by destruct (_ =? _).
  - intros f offset v w r w' [= <-] [= <- <-]. by apply script_within_ticks.
  - intros f w r w' [=].
Qed.

(** A mailbox before anything has passed. *)
Definition no_mailbox : mailbox := {|
  mb_inbox0 := 0; mb_outbox0 := 0; mb_room := false; mb_filled := false; mb_abused := false;
  mb_log := [];
|}.

(** A firmware that has all its messages ready. *)
Definition demo_world (control : Z) (queue : list (Z * Z)) : demo * mailbox :=
  ({| dm_control := control; dm_queue := queue; dm_ticks := 5 |}, no_mailbox).

(** The messages of a boot: power, hello, a crash-log request of 16 pages, two endpoint maps
    and the acknowledgement of the processor's power. *)
Definition demo_boot : list (Z * Z) :=
  map (fun m => (Rtkit.management_word m, 0)) [Rtkit.IopPowerAck 0x20; Rtkit.Hello 11 12] ++
  [(2 ^ 52 + 16 * 2 ^ 44, 1)] ++
  map (fun m => (Rtkit.management_word m, 0))
    [Rtkit.EndpointMap 0 0 0x10e; Rtkit.EndpointMap 1 1 5; Rtkit.SetApPower 0x20].

End Demo.
