(* ===== verification/SessionTalk.v ===== *)
(** * The bootstrap conversation (shared/src/apple_agx_rtkit_session.c)

    [Talk.hear] is what the driver answers to a message of the firmware while it boots: a
    function of the abstract handshake of RtkitBoot.v and of the one grant of a crash-log
    buffer.  The bootstrap loop over polled mailboxes, deadlines and failing accesses
    refines the conversation this function makes. *)

From S2P Require Import Prelude Arrays Bytes Rtkit RtkitBoot Interact AscTransport GfxHandoff.
From S2P Require Import RtkitSession SessionDemo.
Import Interact.

Module Talk.
Import Rtkit Boot Asc Session.

(** ** The conversation *)

(** What the driver knows: the handshake, the first endpoint map, and whether the crash-log
    buffer has been granted. *)
Record talk := { tk_shake : shake; tk_bitmap : Z; tk_granted : bool }.

Definition talk_start (bitmap : Z) (granted : bool) : talk :=
  {| tk_shake := Build_shake false false false false; tk_bitmap := bitmap;
     tk_granted := granted |}.
Definition talk_ready (t : talk) : bool := shake_ready (tk_shake t).

Definition talk_answer (t : talk) (m : management) : list Z :=
  match m with
  | Hello _ max => [management_word (HelloAck max max)]
  | EndpointMap last base bitmap =>
      management_word (EndpointMap last base (1 - last)) ::
      (if last =? 1
       then map (fun e => AppleAgxRtkitStartEndpoint e 2)
              (advertised (if base =? 0 then bitmap else tk_bitmap t) 15) ++
            [management_word (SetApPower 0x20)]
       else [])
  | _ => []
  end.

(** A buffer the driver may grant: 16K-aligned, of at most 0xff000 bytes, in the upper half
    of the 39-bit address space as the firmware writes it in 44 bits. *)
Definition grantable (address capacity : Z) : Prop :=
  2 ^ 44 - 2 ^ 39 <= address < 2 ^ 44 /\ address mod 2 ^ 14 = 0 /\
  0 < capacity <= 0xff000 /\ capacity mod 2 ^ 14 = 0 /\ capacity <= 2 ^ 44 - address.
#[export] Instance grantable_dec address capacity : Decision (grantable address capacity).
Proof. unfold grantable. apply _. Defined.

(** A request for a number of pages, with no address of the firmware's own. *)
Definition requested (p : Z) : Z := (p / 2 ^ 44) mod 2 ^ 8 * 2 ^ 12.
Definition requests (p capacity : Z) : Prop :=
  p mod 2 ^ 44 = 0 /\ 0 < requested p <= capacity.
#[export] Instance requests_dec p capacity : Decision (requests p capacity).
Proof. unfold requests. apply _. Defined.

Definition grant (address capacity : Z) : Z := 2 ^ 52 + capacity / 2 ^ 12 * 2 ^ 44 + address.

(** The answer to a message: what is sent, and how the conversation goes on or ends. *)
Definition hear (address capacity : Z) (t : talk) (w : Z * Z)
    : list signal * (talk + APPLE_AGX_RTKIT_SESSION_RESULT) :=
  let '(p, e) := w in
  if e =? 1 then
    if negb (p / 2 ^ 52 =? 1) then ([], inr AppleAgxRtkitSessionResultProtocolViolation)
    else if tk_granted t then ([], inr AppleAgxRtkitSessionResultFirmwareCrashed)
    else if bool_decide (requests p capacity) && bool_decide (grantable address capacity)
    then ([Send (grant address capacity) 1],
          inl {| tk_shake := tk_shake t; tk_bitmap := tk_bitmap t; tk_granted := true |})
    else ([], inr AppleAgxRtkitSessionResultProtocolViolation)
  else
    match heard p e with
    | None => ([], inr AppleAgxRtkitSessionResultProtocolViolation)
    | Some m =>
        match shake_message (tk_shake t) m with
        | None => ([], inr AppleAgxRtkitSessionResultProtocolViolation)
        | Some s =>
            (map (fun a => Send a 0) (talk_answer t m),
             inl {| tk_shake := s;
                    tk_bitmap := match m with
                                 | EndpointMap _ base bitmap =>
                                     if base =? 0 then bitmap else tk_bitmap t
                                 | _ => tk_bitmap t
                                 end;
                    tk_granted := tk_granted t |})
        end
    end.

(** The conversation over a list of messages: it is over when an answer ends it, and nobody
    listens any more once the handshake is ready. *)
Definition converse_step (address capacity : Z)
    (c : list signal * (talk + APPLE_AGX_RTKIT_SESSION_RESULT)) (w : Z * Z)
    : list signal * (talk + APPLE_AGX_RTKIT_SESSION_RESULT) :=
  match c with
  | (l, inl t) =>
      if talk_ready t then c
      else let '(out, r) := hear address capacity t w in (l ++ Recv w.1 w.2 :: out, r)
  | _ => c
  end.

Definition conversation (address capacity : Z) (t : talk) (ws : list (Z * Z))
    : list signal * (talk + APPLE_AGX_RTKIT_SESSION_RESULT) :=
  foldl (converse_step address capacity)
    ([Send (management_word (SetIopPower 0x220)) 0], inl t) ws.

(** ** The session's view of it *)

Definition talk_of (s : APPLE_AGX_RTKIT_SESSION) : talk :=
  {| tk_shake := facts (Boot_ s); tk_bitmap := (EndpointMap_ (Boot_ s)) .[ 0 ];
     tk_granted := CrashlogReplySent s |}.

(** A session in the bootstrap loop. *)
Record talking (s : APPLE_AGX_RTKIT_SESSION) : Prop := {
  talking_wf : boot_wf (Boot_ s);
  talking_begun : Begun (Boot_ s) = true;
  talking_live : Phase (Boot_ s) <> AppleAgxRtkitBootFailed;
  talking_running : Running s = true;
  talking_cpu : CpuReady s = true;
  talking_idle : StopPhase s = AppleAgxRtkitStopIdle;
  talking_address : is_u64 (CrashlogGpuAddress s);
  talking_capacity : is_u32 (CrashlogCapacityBytes s);
}.

Lemma talk_ready_spec s :
  talking s -> AppleAgxRtkitBootIsReady (Some (Boot_ s)) = talk_ready (talk_of s).
Proof.
  intros T. unfold AppleAgxRtkitBootIsReady, talk_ready, talk_of, shake_ready, facts. simpl.
  apply eq_true_iff_eq. rewrite bool_decide_eq_true. apply phase_ready; apply T.
Qed.

Lemma answer_talk s m :
  boot_wf (Boot_ s) -> management_typed m -> answer (Boot_ s) m = talk_answer (talk_of s) m.
Proof.
  intros W Hm. destruct m as [| | | | | | |last base bitmap|]; try done. simpl.
  destruct (last =? 1); [|done]. do 4 f_equal. destruct Hm as (_ & Hb & _).
  rewrite get_set by (rewrite ?(boot_map _ W); lia).
  destruct (Z.eqb_spec base 0); case_decide; try done; lia.
Qed.

(** ** The grant *)

Lemma crashlog_refused_spec s p :
  is_u64 p -> p / 2 ^ 52 = 1 -> is_u64 (CrashlogGpuAddress s) ->
  is_u32 (CrashlogCapacityBytes s) -> CrashlogRequestedBytes s = requested p ->
  crashlog_refused s p =
    negb (bool_decide (requests p (CrashlogCapacityBytes s)) &&
          bool_decide (grantable (CrashlogGpuAddress s) (CrashlogCapacityBytes s))).
Proof.
  intros Hp Ht Ha Hc Hr. unfold crashlog_refused. rewrite Hr. clear Hr.
  set (a := CrashlogGpuAddress s) in *. set (c := CrashlogCapacityBytes s) in *. clearbody a c.
  change (Z.shiftl 1 44) with (2 ^ 44).
  change (Z.shiftl 1 J313_AGX_G2_UAT_INPUT_ADDRESS_BITS) with (2 ^ 39).
  change 0x3fff with (2 ^ 14 - 1). rewrite !land_mask by done.
  assert (0 <= requested p) by (unfold requested; pose proof (Z.mod_pos_bound (p / 2 ^ 44) (2 ^ 8));
    lia).
  unfold requests, grantable. apply eq_true_iff_eq. rewrite negb_true_iff.
  rewrite <- not_true_iff_false, andb_true_iff, !bool_decide_eq_true.
  rewrite !orb_true_iff, !negb_true_iff, !Z.ltb_lt, !Z.leb_le, !Z.eqb_eq, !Z.eqb_neq.
  assert (a < 2 ^ 44 -> u64 (2 ^ 44 - a) = 2 ^ 44 - a) as Hu.
  { intros ?. apply Z.mod_small. destruct Ha. lia. }
  destruct (Z.lt_ge_cases a (2 ^ 44)); [rewrite Hu by done|]; lia.
Qed.

Lemma requested_spec p : u32 (Z.shiftl (Z.land (Z.shiftr p 44) 0xff) 12) = requested p.
Proof.
  rewrite land_ff, Z.shiftr_div_pow2, Z.shiftl_mul_pow2 by done. apply Z.mod_small.
  pose proof (Z.mod_pos_bound (p / 2 ^ 44) (2 ^ 8)). unfold requested. lia.
Qed.

Lemma grant_spec a c :
  grantable a c ->
  Z.lor (Z.lor (Z.shiftl 1 52) (u64 (Z.shiftl (Z.shiftr c 12) 44))) a = grant a c.
Proof.
  intros (Ha & _ & Hc & _). rewrite Z.shiftr_div_pow2 by done.
  assert (0 <= c / 2 ^ 12 < 2 ^ 8) as Hq.
  { split; [apply Z.div_pos; lia|apply Z.div_lt_upper_bound; lia]. }
  unfold grant. set (q := c / 2 ^ 12) in *. clearbody q.
  assert (u64 (Z.shiftl q 44) = q * 2 ^ 44) as ->.
  { rewrite Z.shiftl_mul_pow2 by done. apply Z.mod_small. lia. }
  rewrite (Z.lor_comm (Z.shiftl 1 52)), lor_shiftl by lia.
  replace (q * 2 ^ 44 + 1 * 2 ^ 52) with (Z.shiftl (q + 2 ^ 8) 44)
    by (rewrite Z.shiftl_mul_pow2 by done; lia).
  rewrite Z.lor_comm, lor_shiftl by lia. lia.
Qed.

(** ** What the operations do to the log *)

Section conversing.
Context {W : Type} (io : APPLE_AGX_ASC_IO W) (limit : Z) (within : W -> nat) (patience : nat)
  `{!Clock io limit within patience}.
Notation St := (W * mailbox)%type.
Notation Io := (Some (watched io)).
Notation SESSION := APPLE_AGX_RTKIT_SESSION.
Notation RESULT := APPLE_AGX_RTKIT_SESSION_RESULT.
Implicit Types (S : St) (s : SESSION) (D : Z).

(** A result the transport gave. *)
Definition transport_result (r : RESULT) : Prop := exists a, r = AppleAgxRtkitSessionAscResult a.

(** Some of the messages go out, all of them if nothing fails. *)
Lemma send_output_spec fuel o l D S :
  D < limit -> (patience < fuel)%nat -> outputs o l ->
  wp (AppleAgxRtkitSessionSendOutput fuel Io o D) (fun r S' => transport_result r /\
    exists l', l' `prefix_of` l /\ passes (map (fun a => Send a 0) l') S S' /\
      (r = AppleAgxRtkitSessionResultOk -> l' = l /\ (within S'.1 <= within S.1)%nat)) S.
Proof.
  intros HD Hfuel (Hlen & Hc & Hp). unfold AppleAgxRtkitSessionSendOutput. rewrite Hc.
  replace (Z.to_nat (zlen l)) with (length l) by (unfold zlen; lia).
  assert (forall i, 0 <= i < zlen l -> (Message o) .[ i ] = l .[ i ]) as Hget.
  { intros i Hi. rewrite <- Hp, get_prefix by lia. done. }
  eapply wp_seq; [apply (wp_for_each (fun i _ S' =>
      passes (map (fun a => Send a 0) (firstn (Z.to_nat i) l)) S S' /\
      (within S'.1 <= within S.1)%nat) _ _ _ (fun r S' =>
        match r with
        | inl _ => passes (map (fun a => Send a 0) l) S S' /\ (within S'.1 <= within S.1)%nat
        | inr r => transport_result r /\ r <> AppleAgxRtkitSessionResultOk /\
            exists l', l' `prefix_of` l /\ passes (map (fun a => Send a 0) l') S S'
        end)) |].
  - split; [apply passes_refl|lia].
  - intros i [] S1 Hi [H1 Hc1]. rewrite Z.add_0_l, Hget by (unfold zlen; lia).
    eapply wp_seq; [by eapply send_spec|]. intros a S2 [H2 Hc2].
    assert (exists b, b = a) as [b Eb] by eauto.
    destruct a; apply wp_ret.
    2-5: split; [exists b; by rewrite Eb|]; split; [done|]; exists (firstn (Z.to_nat i) l);
      split; [apply prefix_take|by eapply passes_quiet_r].
    simpl in *. split; [|specialize (Hc2 eq_refl); lia].
    rewrite Z2Nat.inj_add, Nat.add_1_r by lia.
    erewrite take_S_r; [|apply list_lookup_lookup_total_lt; lia].
    rewrite map_app. by eapply passes_trans.
  - intros [] S1 [H1 Hc1]. by rewrite Nat2Z.id, firstn_all in H1.
  - intros [[]|r] S1 H1; apply wp_ret.
    + destruct H1 as [H1 Hc1]. split; [by exists AppleAgxAscResultOk|]. by exists l.
    + destruct H1 as (Ht & Hne & l' & Hpre & H1). split; [done|]. by exists l'.
Qed.

Lemma force_run_off_spec s r0 S :
  wp (AppleAgxRtkitSessionForceRunOff s Io r0) (fun r S' =>
    r = (r0, s <| Running := false |> <| StopPhase := AppleAgxRtkitStopComplete |>) /\
      passes [Run false] S S' \/
    r = (AppleAgxRtkitSessionResultCleanupFailed, s) /\ passes [] S S') S.
Proof.
  eapply wp_seq; [by apply (set_run_spec io limit within patience false)|]. intros r S' HS.
  destruct r; apply wp_ret; [by left|by right..].
Qed.

(** A session of which only the samples of the control words have changed. *)
Definition sampled s s' : Prop := exists a b c d,
  s' = s <| InboxControlAtFailure := a |> <| InboxAtFailureValid := b |>
         <| OutboxControlAtFailure := c |> <| OutboxAtFailureValid := d |>.

Lemma capture_spec s S :
  wp (AppleAgxRtkitSessionCaptureFailureMailbox s Io) (fun s' S' =>
    sampled s s' /\ passes [] S S') S.
Proof.
  eapply wp_seq; [by apply (read_inbox_control_spec io limit within patience)|].
  intros [r v] S1 (H1 & c & Ev). cbn [snd] in Ev. subst v.
  eapply wp_seq; [by apply (read_outbox_control_spec io limit within patience)|].
  intros [r2 v] S2 (H2 & d & Ev). cbn [snd] in Ev. subst v. apply wp_ret.
  split; [|by eapply passes_quiet_l].
  destruct s, (bool_decide (r = _)), (bool_decide (r2 = _)); eexists _, _, _, _; simpl; reflexivity.
Qed.

(** The crash-log request: answered as [hear] says, or the answer does not get out. *)
Lemma crashlog_spec fuel s p D S :
  D < limit -> (patience < fuel)%nat -> talking s -> is_u64 p ->
  let '(out, o) := hear (CrashlogGpuAddress s) (CrashlogCapacityBytes s) (talk_of s) (p, 1) in
  wp (AppleAgxRtkitSessionCrashlog fuel s Io p D) (fun r S' =>
    (Running r.2 = Running s /\ StopPhase r.2 = StopPhase s /\ Boot_ r.2 = Boot_ s /\
     CrashlogGpuAddress r.2 = CrashlogGpuAddress s /\
     CrashlogCapacityBytes r.2 = CrashlogCapacityBytes s) /\
    match o with
    | inr x => r.1 = x /\ out = [] /\ passes [] S S'
    | inl t =>
        r.1 = AppleAgxRtkitSessionResultOk /\ passes out S S' /\
          (within S'.1 <= within S.1)%nat /\ talking r.2 /\ talk_of r.2 = t \/
        (exists a, r.1 = AppleAgxRtkitSessionAscResult a /\ a <> AppleAgxAscResultOk) /\
          passes [] S S'
    end) S.
Proof.
  intros HD Hfuel T Hp. unfold hear, AppleAgxRtkitSessionCrashlog. change (1 =? 1) with true.
  cbv iota. rewrite (Z.shiftr_div_pow2 p 52) by done.
  destruct (Z.eqb_spec (p / 2 ^ 52) 1) as [Ht|_]; cbn [negb]; [|apply wp_ret; by split_and!; [..|apply passes_refl]].
  cbn [talk_of tk_granted]. destruct (CrashlogReplySent s) eqn:Eg; [apply wp_ret; by split_and!; [..|apply passes_refl]|].
  rewrite requested_spec. set (s1 := s <| CrashlogRequestedBytes := requested p |>).
  assert (talking s1) as T1 by (destruct T; by split).
  rewrite (crashlog_refused_spec s1 p) by (done || apply T).
  change (CrashlogCapacityBytes s1) with (CrashlogCapacityBytes s).
  change (CrashlogGpuAddress s1) with (CrashlogGpuAddress s).
  case_bool_decide as Hq; cbn [andb negb]; [|apply wp_ret; by split_and!; [..|apply passes_refl]].
  case_bool_decide as Hg; cbn [andb negb]; [|apply wp_ret; by split_and!; [..|apply passes_refl]].
  rewrite grant_spec by done. eapply wp_seq; [by eapply send_spec|]. intros r S' [HS Hc].
  assert (exists a, a = r) as [a Ea] by eauto.
  destruct r; apply wp_ret; (split; [done|]); [left|right; split; [exists a; by rewrite Ea|done]..].
  split_and!; try done; [by specialize (Hc eq_refl); lia|destruct T1; by split].
Qed.

(** What every operation keeps: a well-formed handshake and a typed offer. *)
Definition steady s : Prop :=
  boot_wf (Boot_ s) /\ is_u64 (CrashlogGpuAddress s) /\ is_u32 (CrashlogCapacityBytes s).

Lemma talking_steady s : talking s -> steady s.
Proof. intros T. split_and!; apply T. Qed.

(** How a bootstrap that fails leaves the session: switched off, or still on if that fails
    too. *)
Definition closed (x : RESULT) s (tail : list signal) : Prop :=
  x <> AppleAgxRtkitSessionResultOk /\ steady s /\
  (if bool_decide (x = AppleAgxRtkitSessionResultCleanupFailed)
   then tail = [] /\ Running s = true /\ StopPhase s = AppleAgxRtkitStopIdle
   else tail = [Run false] /\ Running s = false /\ StopPhase s = AppleAgxRtkitStopComplete).

Lemma closing s x l S0 S :
  passes l S0 S -> Running s = true -> StopPhase s = AppleAgxRtkitStopIdle -> steady s ->
  x <> AppleAgxRtkitSessionResultOk -> x <> AppleAgxRtkitSessionResultCleanupFailed ->
  wp (AppleAgxRtkitSessionForceRunOff s Io x) (fun r S' => exists tail,
    passes (l ++ tail) S0 S' /\ closed r.1 r.2 tail /\
    (r.1 = x \/ r.1 = AppleAgxRtkitSessionResultCleanupFailed)) S.
Proof.
  intros HS Hr Hi Hst Hx Hc. eapply wp_mono; [by apply force_run_off_spec|].
  intros r S' [[-> H]|[-> H]]; cbn [fst snd].
  - exists [Run false]. split; [by eapply passes_trans|]. split; [|by left].
    split; [done|]. split; [done|]. by rewrite bool_decide_false.
  - exists []. split; [by eapply passes_trans|]. split; [|by right]. by split.
Qed.

(** A message that is not a crash-log request. *)
Lemma handle_talk s p e :
  talking s -> talk_ready (talk_of s) = false -> is_u64 p -> (e =? 1) = false ->
  let '(out, o) := hear (CrashlogGpuAddress s) (CrashlogCapacityBytes s) (talk_of s) (p, e) in
  let '(r, b, output) := AppleAgxRtkitBootHandle (Some (Boot_ s)) p e (Some blank_output) in
  let s' := s <| Boot_ := default (Boot_ s) b |> in
  match o with
  | inl t => r = AppleAgxRtkitBootResultOk /\ talking s' /\ talk_of s' = t /\
      exists l, out = map (fun a => Send a 0) l /\ outputs (default blank_output output) l
  | inr x => (r = AppleAgxRtkitBootResultProtocolViolation /\ steady s') /\ out = [] /\
      x = AppleAgxRtkitSessionResultProtocolViolation
  end.
Proof.
  intros T Hr Hp He. unfold hear. rewrite He. pose proof (talk_ready_spec s T) as Er.
  rewrite Hr in Er. simpl in Er. apply bool_decide_eq_false in Er.
  assert (live (Boot_ s)) as Hl by (split_and!; [apply T|done|apply T]).
  pose proof (handle_cases (Boot_ s) blank_output p e (boot_requested _ (talking_wf s T)) Hl Hp
    eq_refl) as Hh.
  change (tk_shake (talk_of s)) with (facts (Boot_ s)).
  assert (steady (s <| Boot_ := (Boot_ s) <| Phase := AppleAgxRtkitBootFailed |> |>)) as Hst
    by (split_and!; [apply boot_wf_failed, T|apply T|apply T]).
  destruct (heard p e) as [m|] eqn:Em; [|by destruct Hh as (o' & -> & _)].
  pose proof (heard_typed p e m Hp Em) as Hm.
  destruct (shake_message (facts (Boot_ s)) m) as [sh|] eqn:Es; [|by destruct Hh as (o' & -> & _)].
  destruct Hh as (m' & o' & [= <-] & -> & Hout).
  destruct (take_wf _ m sh (talking_wf s T) (talking_begun s T) Es Hm) as (Hwf & Hf & Hb).
  destruct (update_phase_flags (take (Boot_ s) m)) as (E1 & E2 & E3 & E4 & E5 & E6 & E7 & E8).
  cbn [default from_option id]. split; [done|]. split; [|split].
  - destruct T. split; simpl; try done. by rewrite E6.
  - unfold talk_of. simpl. rewrite E7. f_equal.
    + rewrite <- Hf. unfold facts. by rewrite E1, E2, E3, E4.
    + destruct m as [| | | | | | |last base bitmap|]; try done. cbn [take]. destruct Hm as (_ & Hbs & _).
      assert (((EndpointMap_ (Boot_ s)) .[ base <- bitmap ]) .[ 0 ] =
        if base =? 0 then bitmap else (EndpointMap_ (Boot_ s)) .[ 0 ]) as Hg.
      { rewrite get_set by (rewrite ?(boot_map _ (talking_wf s T)); lia).
        destruct (Z.eqb_spec base 0); case_decide; try done; lia. }
      by destruct (last =? 1).
  - eexists. split; [by rewrite <- (answer_talk s m (talking_wf s T) Hm)|done].
Qed.

(** A turn of the loop whose message is answered by [out] and ends as [o]. *)
Definition turned s (out : list signal) (o : talk + RESULT) S (r : SESSION + RESULT * SESSION) S'
    : Prop :=
  match r with
  | inl s' => passes out S S' /\ (within S'.1 <= within S.1)%nat /\ talking s' /\
      o = inl (talk_of s') /\ CrashlogGpuAddress s' = CrashlogGpuAddress s /\
      CrashlogCapacityBytes s' = CrashlogCapacityBytes s
  | inr (x, s') => exists l tail, l `prefix_of` out /\ passes (l ++ tail) S S' /\
      closed x s' tail /\
      (transport_result x \/ x = AppleAgxRtkitSessionResultCleanupFailed \/ o = inr x)
  end.

Lemma turn_closing s0 s x l out o S0 S :
  l `prefix_of` out -> passes l S0 S -> Running s = true ->
  StopPhase s = AppleAgxRtkitStopIdle -> steady s -> x <> AppleAgxRtkitSessionResultOk ->
  x <> AppleAgxRtkitSessionResultCleanupFailed -> transport_result x \/ o = inr x ->
  wp (r ← AppleAgxRtkitSessionForceRunOff s Io x; mret (inr r)) (turned s0 out o S0) S.
Proof.
  intros Hl HS Hr Hi Hst Hx Hc Ho. eapply wp_seq; [by apply (closing s x l S0 S)|].
  intros [y s'] S2 (tail & Ht & Hcl & Hy). apply wp_ret. exists l, tail.
  split; [done|]. split; [done|]. split; [done|]. cbn [fst snd] in *.
  destruct Hy as [->| ->]; [destruct Ho; auto|auto].
Qed.

Lemma transport_failure a :
  a <> AppleAgxAscResultOk -> let x := AppleAgxRtkitSessionAscResult a in
  x <> AppleAgxRtkitSessionResultOk /\ x <> AppleAgxRtkitSessionResultCleanupFailed /\
  transport_result x.
Proof. intros Ha. split_and!; [by destruct a..|by exists a]. Qed.

(** What [hear] refuses is refused with one of two results. *)
Lemma hear_refusal A C t w out x :
  hear A C t w = (out, inr x) ->
  x = AppleAgxRtkitSessionResultProtocolViolation \/
  x = AppleAgxRtkitSessionResultFirmwareCrashed.
Proof.
  unfold hear. destruct w as [p e]. intros H. repeat case_match; simplify_eq; auto.
Qed.

Lemma bootstrap_message_spec fuel s m D S out o :
  D < limit -> (patience < fuel)%nat -> talking s -> talk_ready (talk_of s) = false ->
  is_u64 (am_Payload m) ->
  hear (CrashlogGpuAddress s) (CrashlogCapacityBytes s) (talk_of s)
    (am_Payload m, am_Endpoint m) = (out, o) ->
  wp (bootstrap_message fuel s Io m D) (turned s out o S) S.
Proof.
  intros HD Hfuel T Hr Hp Eh. unfold bootstrap_message.
  assert (talking (note_received s m)) as T1 by (destruct T; by split).
  change (hear (CrashlogGpuAddress (note_received s m)) (CrashlogCapacityBytes (note_received s m))
    (talk_of (note_received s m)) (am_Payload m, am_Endpoint m) = (out, o)) in Eh.
  change (turned s) with (turned (note_received s m)).
  change (talk_of s) with (talk_of (note_received s m)) in Hr.
  revert T1 Hr Eh. generalize (note_received s m). clear s T. intros s T Hr Eh.
  destruct (am_Endpoint m =? 1) eqn:He.
  - apply Z.eqb_eq in He. rewrite He in Eh.
    pose proof (crashlog_spec fuel s (am_Payload m) D S HD Hfuel T Hp) as H. rewrite Eh in H.
    eapply wp_seq; [exact H|]. clear H.
    intros [r s1] S1 [(Hrun & Hph & Hbt & HA & HC) H]. cbn [fst snd] in *.
    rewrite (talking_running s T) in Hrun. rewrite (talking_idle s T) in Hph.
    set (s2 := s1 <| Boot_ := (Boot_ s1) <| Phase := AppleAgxRtkitBootFailed |> |>).
    assert (steady s2) as Hst.
    { split_and!; simpl; rewrite ?HA, ?HC; try apply T. rewrite Hbt. apply boot_wf_failed, T. }
    destruct o as [t|x].
    + destruct H as [(-> & H1 & Hc & T1 & <-)|[(a & -> & Ha) H1]]; [by apply wp_ret|].
      destruct (transport_failure a Ha) as (? & ? & ?).
      destruct (AppleAgxRtkitSessionAscResult a); try done; apply (turn_closing _ s2 _ []);
        auto; apply prefix_nil.
    + destruct H as (-> & -> & H1). destruct (hear_refusal _ _ _ _ _ _ Eh) as [->| ->];
        by apply (turn_closing _ s2 _ []); auto.
  - pose proof (handle_talk s (am_Payload m) (am_Endpoint m) T Hr Hp He) as H. rewrite Eh in H.
    destruct (AppleAgxRtkitBootHandle _ _ _ _) as [[r b] output].
    set (s1 := s <| Boot_ := default (Boot_ s) b |>) in *.
    destruct o as [t|x].
    2: { destruct H as ((-> & Hst) & -> & ->). apply (turn_closing _ s1 _ []); auto;
           [apply passes_refl|apply T|apply T]. }
    destruct H as (-> & T1 & Et & l & -> & Hout).
    eapply wp_seq; [by apply (send_output_spec fuel _ l)|]. intros r S1 ([a ->] & l' & Hl' & H1 & Hok).
    destruct (decide (a = AppleAgxAscResultOk)) as [->|Ha].
    + destruct (Hok eq_refl) as [-> Hc]. apply wp_ret. by rewrite <- Et.
    + destruct (transport_failure a Ha) as (? & ? & ?).
      assert (map (fun a => Send a 0) l' `prefix_of` map (fun a => Send a 0) l) as Hpre.
      { destruct Hl' as [k ->]. rewrite map_app. apply prefix_app_r. done. }
      destruct (AppleAgxRtkitSessionAscResult a); try done;
        apply (turn_closing _ _ _ (map (fun a => Send a 0) l')); auto;
        solve [apply T1|by apply talking_steady].
Qed.

(** The loop's way out when nothing could be received. *)
Lemma sample_closing s x l S0 S :
  passes l S0 S -> talking s -> x <> AppleAgxRtkitSessionResultOk ->
  x <> AppleAgxRtkitSessionResultCleanupFailed ->
  wp (s ← AppleAgxRtkitSessionCaptureFailureMailbox s Io;
      r ← AppleAgxRtkitSessionForceRunOff s Io x; mret (inr r))
    (fun (r : SESSION + RESULT * SESSION) S' =>
     match r with
     | inl _ => False
     | inr r => exists tail, passes (l ++ tail) S0 S' /\ closed r.1 r.2 tail /\
         (r.1 = x \/ r.1 = AppleAgxRtkitSessionResultCleanupFailed)
     end) S.
Proof.
  intros HS T Hx Hc. eapply wp_seq; [by apply capture_spec|]. intros s1 S1 [Hsam H1].
  assert (passes l S0 S1) as H01 by by eapply passes_quiet_r.
  destruct Hsam as (? & ? & ? & ? & ->). eapply wp_seq.
  - apply (closing _ x _ _ _ H01); [apply T|apply T|exact (talking_steady _ T)|done..].
  - by intros r S2 H; apply wp_ret.
Qed.

Lemma hear_refusal_silent A C t w out x : hear A C t w = (out, inr x) -> out = [].
Proof. unfold hear. destruct w as [p e]. intros H. by repeat case_match; simplify_eq. Qed.

Lemma conversation_snoc A C t ws w :
  conversation A C t (ws ++ [w]) = converse_step A C (conversation A C t ws) w.
Proof. unfold conversation. by rewrite foldl_app. Qed.

(** How the bootstrap ends: the signals are those of a conversation with the messages that
    came in, complete if the bootstrap succeeds (the handshake is ready) or is given up
    because of the last message, and cut short if the transport failed. *)
Definition concluded A C t (r : RESULT) s' S S' : Prop := exists ws l tail,
  l `prefix_of` (conversation A C t ws).1 /\ passes (l ++ tail) S S' /\
  ((r = AppleAgxRtkitSessionResultOk /\ l = (conversation A C t ws).1 /\ tail = [] /\
    talking s' /\ talk_ready (talk_of s') = true /\
    (conversation A C t ws).2 = inl (talk_of s')) \/
   closed r s' tail /\
   (transport_result r \/ r = AppleAgxRtkitSessionResultCleanupFailed \/
    l = (conversation A C t ws).1 /\ (conversation A C t ws).2 = inr r)).

Lemma bootstrap_loop_spec fuel A C t ws s D S0 S :
  D < limit -> (patience < fuel)%nat -> talking s -> A = CrashlogGpuAddress s ->
  C = CrashlogCapacityBytes s -> (conversation A C t ws).2 = inl (talk_of s) ->
  passes (conversation A C t ws).1 S0 S ->
  wp (bootstrap_loop fuel s Io D) (fun r S' => concluded A C t r.1 r.2 S0 S') S.
Proof.
  intros HD Hfuel T EA EC Hc HS. pose proof (clock_patience S.1) as Hp.
  apply (wp_iterate (fun s' S' => talking s' /\ A = CrashlogGpuAddress s' /\
      C = CrashlogCapacityBytes s' /\ exists ws, (conversation A C t ws).2 = inl (talk_of s') /\
      passes (conversation A C t ws).1 S0 S') (fun _ S' => within S'.1)); [by eauto 10|lia|].
  clear s S ws T EA EC Hc HS Hp. intros s S (T & EA & EC & ws & Hc & HS).
  rewrite (talk_ready_spec s T). destruct (talk_ready (talk_of s)) eqn:Hr.
  { apply wp_ret. exists ws, (conversation A C t ws).1, []. rewrite app_nil_r.
    split; [done|]. split; [done|]. by left. }
  eapply wp_seq; [by eapply receive_spec|]. intros [a p] S1 [(m & Em & H1 & Ht) Hlt].
  cbn [fst snd] in *. subst p. destruct (decide (a = AppleAgxAscResultOk)) as [->|Ha].
  - destruct (Ht eq_refl) as [Hp He]. specialize (Hlt eq_refl). cbn [AppleAgxRtkitSessionAscResult].
    change (default blank_message (Some m)) with m.
    destruct (hear A C (talk_of s) (am_Payload m, am_Endpoint m)) as [out o] eqn:Eh.
    pose proof (conversation_snoc A C t ws (am_Payload m, am_Endpoint m)) as Es.
    unfold converse_step in Es. destruct (conversation A C t ws) as [l c] eqn:El.
    cbn [fst snd] in *. subst c. rewrite Hr, Eh in Es.
    eapply wp_mono; [eapply bootstrap_message_spec; try done; by rewrite <- EA, <- EC|].
    intros [s'|[x s']] S2; cbn [turned].
    + intros (H2 & Hw & T' & -> & EA' & EC'). split; [|lia].
      split; [done|]. split; [congruence|]. split; [congruence|].
      exists (ws ++ [(am_Payload m, am_Endpoint m)]). rewrite Es. split; [done|].
      eapply passes_trans; [done|]. by apply (passes_trans [_]) with S1.
    + intros (l' & tail & Hl' & H2 & Hcl & Hx). cbn [fst snd].
      exists (ws ++ [(am_Payload m, am_Endpoint m)]), (l ++ Recv (am_Payload m) (am_Endpoint m) :: l'),
        tail. rewrite Es. cbn [fst snd]. split; [|split].
      * apply prefix_app. by apply prefix_cons.
      * rewrite <- app_assoc. eapply passes_trans; [done|]. by apply (passes_trans [_]) with S1.
      * right. split; [done|]. destruct Hx as [?|[?| ->]]; [auto|auto|]. right; right.
        rewrite (hear_refusal_silent _ _ _ _ _ _ Eh) in Hl' |- *.
        by apply prefix_nil_inv in Hl' as ->.
  - destruct (transport_failure a Ha) as (Hx1 & Hx2 & Hx3).
    assert (passes [] S S1) as H1' by by destruct a.
    assert (passes (conversation A C t ws).1 S0 S1) as H01 by by eapply passes_quiet_r.
    destruct a; try done; (eapply wp_mono; [by apply (sample_closing _ _ _ _ _ H01)|]);
      intros [?|r] S2; try done; intros (tail & H2 & Hcl & Hr');
      (exists ws, (conversation A C t ws).1, tail; split; [done|]; split; [done|]; right);
      (split; [done|]); destruct Hr' as [->| ->]; auto.
Qed.

(** A session whose coprocessor runs and has not been spoken to. *)
Record bootable s : Prop := {
  bootable_map : zlen (EndpointMap_ (Boot_ s)) = 8;
  bootable_running : Running s = true;
  bootable_cpu : CpuReady s = true;
  bootable_idle : StopPhase s = AppleAgxRtkitStopIdle;
  bootable_boot : AppleAgxRtkitBootIsReady (Some (Boot_ s)) = false;
  bootable_address : is_u64 (CrashlogGpuAddress s);
  bootable_capacity : is_u32 (CrashlogCapacityBytes s);
}.

Lemma bootstrap_begin s :
  bootable s -> exists b o,
    AppleAgxRtkitBootBegin (Some (boot_initialized (Boot_ s))) (Some blank_output) =
      (AppleAgxRtkitBootResultOk, Some b, Some o) /\
    outputs o [management_word (SetIopPower 0x220)] /\
    forall s', Boot_ s' = b -> Running s' = true -> CpuReady s' = true ->
      StopPhase s' = AppleAgxRtkitStopIdle -> is_u64 (CrashlogGpuAddress s') ->
      is_u32 (CrashlogCapacityBytes s') ->
      talking s' /\ talk_of s' = talk_start 0 (CrashlogReplySent s').
Proof.
  intros B. pose proof (bootable_map s B) as Hm.
  destruct (begin_boot_spec (Boot_ s) blank_output Hm) as (b & Eb & Hr & Hb & Hs).
  exists b. eexists. split; [rewrite <- Eb; reflexivity|]. split; [by split_and!|].
  intros s' Es. rewrite <- Es in Hr, Hb, Hs.
  pose proof (reachable_inv _ Hr : boot_wf _) as Hwf. intros. split.
  - split; try done. unfold shake_of in Hs. intros Hf. by rewrite bool_decide_true in Hs.
  - unfold talk_of, talk_start. f_equal.
    + unfold shake_of in Hs. case_bool_decide; [done|].
      injection Hs. unfold facts. congruence.
    + rewrite Es. clear Hr Hb Hs Hwf. unfold begin_boot in Eb. simpl in Eb. injection Eb as <-.
      cbn [EndpointMap_].
      destruct (fill_loop_spec 0 8 (fun _ : Z => 0) (EndpointMap_ (Boot_ s))) as [_ Hf]; [lia..|].
      by rewrite Hf by lia.
Qed.

Lemma note_before_talking s r c :
  talking s -> talking (note_before s r c) /\ talk_of (note_before s r c) = talk_of s /\
  CrashlogGpuAddress (note_before s r c) = CrashlogGpuAddress s /\
  CrashlogCapacityBytes (note_before s r c) = CrashlogCapacityBytes s.
Proof. intros []. unfold note_before. by case_bool_decide; split. Qed.

Lemma note_after_talking s r c :
  talking s -> talking (note_after s r c) /\ talk_of (note_after s r c) = talk_of s /\
  CrashlogGpuAddress (note_after s r c) = CrashlogGpuAddress s /\
  CrashlogCapacityBytes (note_after s r c) = CrashlogCapacityBytes s.
Proof. intros []. unfold note_after. by case_bool_decide; split. Qed.

Lemma bootstrap_begun_spec fuel s o D S :
  D < limit -> (patience < fuel)%nat -> talking s ->
  outputs o [management_word (SetIopPower 0x220)] ->
  wp (bootstrap_begun fuel s o Io D) (fun r S' =>
    concluded (CrashlogGpuAddress s) (CrashlogCapacityBytes s) (talk_of s) r.1 r.2 S S') S.
Proof.
  intros HD Hfuel T Ho. unfold bootstrap_begun.
  eapply wp_seq; [by apply (read_inbox_control_spec io limit within patience)|].
  intros [r1 v1] S1 (H1 & c1 & Ev). cbn [snd] in Ev. subst v1.
  destruct (note_before_talking s r1 (Some c1) T) as (T1 & E1 & EA1 & EC1). cbv zeta.
  revert T1 E1 EA1 EC1. generalize (note_before s r1 (Some c1)). intros s1 T1 E1 EA1 EC1.
  eapply wp_seq; [by apply send_output_spec|]. intros r S2 ([a ->] & l & Hl & H2 & Hok).
  assert (passes (map (fun a => Send a 0) l) S S2) as H02 by by eapply passes_quiet_l.
  assert (map (fun a => Send a 0) l `prefix_of`
    (conversation (CrashlogGpuAddress s) (CrashlogCapacityBytes s) (talk_of s) []).1) as Hpre.
  { destruct Hl as [k E]. exists (map (fun a => Send a 0) k). by rewrite <- map_app, <- E. }
  destruct (decide (a = AppleAgxAscResultOk)) as [->|Ha].
  - destruct (Hok eq_refl) as [-> _]. cbn [AppleAgxRtkitSessionAscResult].
    eapply wp_seq; [by apply (read_inbox_control_spec io limit within patience)|].
    intros [r2 v2] S3 (H3 & c2 & Ev). cbn [snd] in Ev. subst v2.
    destruct (note_after_talking s1 r2 (Some c2) T1) as (T2 & E2 & EA2 & EC2). cbv zeta.
    eapply (bootstrap_loop_spec _ _ _ _ []); try done; try congruence.
    + cbn. congruence.
    + by eapply passes_quiet_r.
  - destruct (transport_failure a Ha) as (Hx1 & Hx2 & Hx3).
    assert (wp (AppleAgxRtkitSessionForceRunOff s1 Io (AppleAgxRtkitSessionAscResult a))
      (fun r S' => concluded (CrashlogGpuAddress s) (CrashlogCapacityBytes s) (talk_of s)
         r.1 r.2 S S') S2) as H.
    { eapply wp_mono; [apply (closing s1 _ _ _ _ H02); [apply T1|apply T1|by apply talking_steady|done..]|].
      intros r S3 (tail & H3 & Hcl & Hr). exists [], (map (fun a => Send a 0) l), tail.
      split; [done|]. split; [done|]. right. split; [done|]. destruct Hr as [->| ->]; auto. }
    by destruct a.
Qed.

Lemma bootstrap_spec fuel s D S :
  D < limit -> (patience < fuel)%nat -> bootable s ->
  wp (AppleAgxRtkitSessionCompleteManagementBootstrap fuel (Some s) Io D) (fun r S' =>
    exists s', r.2 = Some s' /\
      concluded (CrashlogGpuAddress s) (CrashlogCapacityBytes s)
        (talk_start 0 (CrashlogReplySent s)) r.1 s' S S') S.
Proof.
  intros HD Hfuel B. unfold AppleAgxRtkitSessionCompleteManagementBootstrap. cbn [is_null].
  rewrite (bootable_running s B), (bootable_cpu s B), (bootable_boot s B).
  rewrite bool_decide_true by apply B. cbn [negb orb]. cbv zeta.
  destruct (bootstrap_begin s B) as (b & o & E & Ho & Hb).
  revert E. generalize (boot_initialized (Boot_ s)). intros b0 E. rewrite E.
  cbn [default from_option id].
  destruct (Hb (s <| Boot_ := b |>)) as [T Et]; try done; try apply B.
  eapply wp_seq; [by apply bootstrap_begun_spec|]. intros [r s'] S' H. apply wp_ret.
  exists s'. split; [done|]. by rewrite Et in H.
Qed.
End conversing.

(** ** Properties *)

(** C4: the bootstrap refines the conversation.  From a session whose coprocessor runs
    and has not been spoken to, with any callbacks, any firmware and any deadline before
    the clock's limit, the bootstrap returns.  What passed is the prescribed conversation
    with the messages that came in: the power request, then for each message its answers
    in order.  With Ok the conversation is complete and the handshake ready; a protocol
    violation or a crash is reported exactly for a message the conversation refuses; on
    any other result it is cut short.  Unless Ok is returned the coprocessor has been
    switched off, or CleanupFailed says that it could not be.  The inbox was never
    written when full, nor the outbox read when empty. *)
Theorem session_bootstrap_refines {W} (io : APPLE_AGX_ASC_IO W) limit within patience
    `{!Clock io limit within patience} fuel s D S :
  D < limit -> (patience < fuel)%nat -> bootable s ->
  exists r s' S', AppleAgxRtkitSessionCompleteManagementBootstrap fuel (Some s)
      (Some (watched io)) D S = Some ((r, Some s'), S') /\
    concluded (CrashlogGpuAddress s) (CrashlogCapacityBytes s)
      (talk_start 0 (CrashlogReplySent s)) r s' S S'.
Proof.
  intros HD Hfuel B.
  pose proof (bootstrap_spec io limit within patience fuel s D S HD Hfuel B) as H.
  apply wp_result in H as ([r p] & S' & E & s' & Ep & H). cbn [fst snd] in *. subst p. eauto.
Qed.

(** The signals to the crash-log endpoint. *)
Definition is_grant (g : signal) : bool :=
  match g with Send _ e => e =? 1 | _ => false end.

Lemma grants_app (l1 l2 : list signal) :
  filter (fun g => is_grant g = true) (l1 ++ l2) =
  filter (fun g => is_grant g = true) l1 ++ filter (fun g => is_grant g = true) l2.
Proof. apply filter_app. Qed.

Lemma sends_no_grant l :
  filter (fun g => is_grant g = true) (map (fun a => Send a 0) l) = [].
Proof. induction l as [|a l IH]; [done|]. simpl. by rewrite filter_cons, decide_False. Qed.

Lemma hear_grants A C t p e out o :
  hear A C t (p, e) = (out, o) ->
  filter (fun g => is_grant g = true) out =
    match o with
    | inl t' => if tk_granted t' && negb (tk_granted t) then [Send (grant A C) 1] else []
    | inr _ => []
    end /\
  (forall t', o = inl t' -> tk_granted t = true -> tk_granted t' = true) /\
  (forall t', o = inl t' -> tk_granted t' = true -> tk_granted t = false -> grantable A C).
Proof.
  unfold hear. intros H. destruct (e =? 1).
  - destruct (negb _); [by simplify_eq|]. destruct (tk_granted t) eqn:Eg; [by simplify_eq|].
    case_bool_decide; [case_bool_decide|]; cbn [andb] in H; injection H as <- <-;
      split_and!; try done; by intros t' [= <-].
  - destruct (heard p e) as [m|]; [|by simplify_eq].
    destruct (shake_message (tk_shake t) m) as [s|]; [|by simplify_eq]. simplify_eq. simpl.
    split_and!; [|by intros t' [= <-]|intros t' [= <-]; simpl; congruence].
    rewrite andb_negb_r. apply sends_no_grant.
Qed.

Lemma conversation_grants A C t ws :
  tk_granted t = false ->
  let g := filter (fun g => is_grant g = true) (conversation A C t ws).1 in
  (g = [] \/ g = [Send (grant A C) 1] /\ grantable A C) /\
  forall t', (conversation A C t ws).2 = inl t' -> tk_granted t' = false -> g = [].
Proof.
  intros Ht. induction ws as [|[p e] ws IH] using rev_ind; [by split; [left|]|].
  rewrite conversation_snoc. unfold converse_step.
  destruct (conversation A C t ws) as [l [t1|x]]; [|exact IH].
  destruct (talk_ready t1); [exact IH|].
  destruct (hear A C t1 (p, e)) as [out o] eqn:Eh.
  destruct (hear_grants _ _ _ _ _ _ _ Eh) as (Hout & Hmono & Hnew). cbn [fst snd] in *.
  rewrite grants_app, filter_cons, decide_False, Hout by done. cbv zeta in *.
  destruct IH as [IH1 IH2]. destruct o as [t2|x].
  - destruct (tk_granted t1) eqn:E1; cbn [negb]; rewrite ?andb_false_r, ?andb_true_r, ?app_nil_r.
    + split; [done|]. intros t' [= <-]. by rewrite (Hmono t2).
    + rewrite (IH2 t1 eq_refl E1). destruct (tk_granted t2) eqn:E2; simpl.
      * split; [right; split; [done|by eapply Hnew]|]. intros t' [= <-]. congruence.
      * by split; [left|].
  - rewrite app_nil_r. by split.
Qed.

(** the crash-log buffer.  During a bootstrap the driver grants at most one buffer,
    it is the one the session was provisioned with, and only if that is a 16K-aligned
    buffer inside the upper half of the address space; nothing the firmware says makes the
    driver grant another address or size. *)
Theorem session_grants_provisioned {W} (io : APPLE_AGX_ASC_IO W) limit within patience
    `{!Clock io limit within patience} fuel s D S :
  D < limit -> (patience < fuel)%nat -> bootable s -> CrashlogReplySent s = false ->
  exists r S' l, AppleAgxRtkitSessionCompleteManagementBootstrap fuel (Some s)
      (Some (watched io)) D S = Some (r, S') /\ mb_log S'.2 = mb_log S.2 ++ l /\
    (filter (fun g => is_grant g = true) l = [] \/
     filter (fun g => is_grant g = true) l =
       [Send (grant (CrashlogGpuAddress s) (CrashlogCapacityBytes s)) 1] /\
     grantable (CrashlogGpuAddress s) (CrashlogCapacityBytes s)).
Proof.
  intros HD Hfuel B Hg.
  pose proof (bootstrap_spec io limit within patience fuel s D S HD Hfuel B) as H.
  apply wp_result in H as (r & S' & E & s' & _ & ws & l & tail & Hl & Hp & Hend).
  exists r, S', (l ++ tail). split; [done|]. split; [apply Hp|].
  assert (filter (fun g => is_grant g = true) tail = []) as Ht.
  { destruct Hend as [(_ & _ & -> & _)|[(_ & _ & Hcl) _]]; [done|].
    case_bool_decide; by destruct Hcl as [-> _]. }
  rewrite grants_app, Ht, app_nil_r.
  destruct (conversation_grants (CrashlogGpuAddress s) (CrashlogCapacityBytes s)
    (talk_start 0 (CrashlogReplySent s)) ws Hg) as [Hc _].
  destruct Hl as [k Ek]. cbv zeta in Hc. rewrite Ek, grants_app in Hc.
  destruct (filter _ l) as [|g l1]; [by left|]. destruct Hc as [|[Hc Hok]]; [done|].
  right. split; [|done]. injection Hc as -> Hc. by apply app_nil in Hc as [-> _].
Qed.

(** ** A boot *)

Definition demo_raw : APPLE_AGX_RTKIT_SESSION := {|
  Boot_ := raw_boot; Running := true; CpuReady := true; InboxBeforeInitValid := true;
  InboxAfterInitValid := true; InboxAtFailureValid := true; OutboxAtFailureValid := true;
  StopPhase := AppleAgxRtkitStopIopRequested; InboxControlBeforeInit := 1;
  InboxControlAfterInit := 1; InboxControlAtFailure := 1; OutboxControlAtFailure := 1;
  ReceivedCount := 1; LastRxEndpoint := 1; LastRxPayload := 1; CrashlogGpuAddress := 1;
  CrashlogCapacityBytes := 1; CrashlogRequestedBytes := 1; CrashlogReplySent := true;
  CrashlogCrashed := true;
|}.

(** Initialised, provisioned with a crash-log buffer of 64K, and started. *)
Definition demo_session : APPLE_AGX_RTKIT_SESSION :=
  (default demo_raw (AppleAgxRtkitSessionInitialize (Some demo_raw)))
    <| CrashlogGpuAddress := 2 ^ 44 - 2 ^ 38 |> <| CrashlogCapacityBytes := 65536 |>.
Definition demo_started : APPLE_AGX_RTKIT_SESSION :=
  default demo_session
    (default (AppleAgxRtkitSessionResultOk, NULL, NULL)
      (fst <$> AppleAgxRtkitSessionStartCpuAndInitializeHandoff 101 (Some demo_session)
        (Some (watched Demo.demo_io)) NULL 50 (Demo.demo_world 0 [])))
    .1.2.

#[local] Existing Instance Demo.demo_clock.

Lemma demo_bootable : bootable demo_started.
Proof. split; try by vm_compute. all: by apply (bool_decide_unpack _); vm_compute. Qed.

Lemma demo_offer :
  CrashlogGpuAddress demo_started = 2 ^ 44 - 2 ^ 38 /\
  CrashlogCapacityBytes demo_started = 65536 /\ CrashlogReplySent demo_started = false.
Proof. by vm_compute. Qed.

Lemma session_bootstrap_refines_witness :
  exists s' S', AppleAgxRtkitSessionCompleteManagementBootstrap 101 (Some demo_started)
      (Some (watched Demo.demo_io)) 50 (Demo.demo_world 16 Demo.demo_boot) =
      Some ((AppleAgxRtkitSessionResultOk, Some s'), S') /\
    concluded (2 ^ 44 - 2 ^ 38) 65536 (talk_start 0 false) AppleAgxRtkitSessionResultOk s'
      (Demo.demo_world 16 Demo.demo_boot) S'.
Proof.
  destruct (session_bootstrap_refines Demo.demo_io Demo.demo_limit Demo.demo_within 100 101
    demo_started 50 (Demo.demo_world 16 Demo.demo_boot)) as (r & s' & S' & E & H);
    [done|lia|apply demo_bootable|].
  assert (r = AppleAgxRtkitSessionResultOk) as ->.
  { apply (f_equal (fmap (fun p => p.1.1))) in E. vm_compute in E. by injection E as ->. }
  destruct demo_offer as (EA & EC & Eg). rewrite EA, EC, Eg in H. exists s', S'. by split.
Defined.

Lemma session_grants_provisioned_witness :
  exists r S' l, AppleAgxRtkitSessionCompleteManagementBootstrap 101 (Some demo_started)
      (Some (watched Demo.demo_io)) 50 (Demo.demo_world 16 Demo.demo_boot) = Some (r, S') /\
    mb_log S'.2 = l /\
    (filter (fun g => is_grant g = true) l = [] \/
     filter (fun g => is_grant g = true) l = [Send (grant (2 ^ 44 - 2 ^ 38) 65536) 1] /\
     grantable (2 ^ 44 - 2 ^ 38) 65536).
Proof.
  destruct demo_offer as (EA & EC & Eg). rewrite <- EA, <- EC.
  exact (session_grants_provisioned Demo.demo_io Demo.demo_limit Demo.demo_within 100 101
    demo_started 50 (Demo.demo_world 16 Demo.demo_boot) ltac:(done) ltac:(lia) demo_bootable Eg).
Defined.

(** The whole dialogue of that boot. *)
Example demo_boot_log :
  (fun p => (p.1.1, mb_log p.2.2)) <$> AppleAgxRtkitSessionCompleteManagementBootstrap 101
      (Some demo_started) (Some (watched Demo.demo_io)) 50 (Demo.demo_world 16 Demo.demo_boot) =
  Some (AppleAgxRtkitSessionResultOk,
        (conversation (2 ^ 44 - 2 ^ 38) 65536 (talk_start 0 false) Demo.demo_boot).1).
Proof. by vm_compute. Qed.

End Talk.
