(* ===== verification/SessionRun.v ===== *)
(** * The life of a session (shared/src/apple_agx_rtkit_session.c)

    Start, bootstrap, service, heartbeat and stop, in any order and with any outcome: the
    session's idea of whether the coprocessor runs is what was last written to its control
    register, the orderly stop sends each of its two requests once however often it is
    resumed, and servicing the mailbox takes no more messages than it was allowed. *)

From S2P Require Import Prelude Arrays Bytes Rtkit RtkitBoot Interact AscTransport GfxHandoff.
From S2P Require Import RtkitSession SessionDemo SessionTalk.
Import Interact.

Module Life.
Import Rtkit Boot Asc Session Talk.

(** ** The power of the coprocessor *)

(** The run bit that was written last. *)
Definition power_step (on : bool) (g : signal) : bool :=
  match g with Run run => run | _ => on end.
Definition powered (l : list signal) : bool := foldl power_step false l.

Definition no_run (g : signal) : Prop := match g with Run _ => False | _ => True end.

Lemma power_quiet on l : Forall no_run l -> foldl power_step on l = on.
Proof.
  revert on. induction l as [|g l IH]; intros on Hl; [done|].
  apply Forall_cons in Hl as [Hg Hl]. simpl. rewrite IH by done. by destruct g.
Qed.

Lemma powered_app l1 l2 : powered (l1 ++ l2) = foldl power_step (powered l1) l2.
Proof. apply foldl_app. Qed.

Lemma sends_no_run l e : Forall no_run (map (fun a => Send a e) l).
Proof. by induction l as [|a l IH]; constructor. Qed.

Lemma hear_no_run A C t p e out o : hear A C t (p, e) = (out, o) -> Forall no_run out.
Proof.
  unfold hear. intros H. destruct (e =? 1).
  - repeat case_match; simplify_eq; by repeat constructor.
  - destruct (heard p e) as [m|]; [|by simplify_eq].
    destruct (shake_message (tk_shake t) m); simplify_eq; [apply sends_no_run|constructor].
Qed.

Lemma conversation_no_run A C t ws : Forall no_run (conversation A C t ws).1.
Proof.
  induction ws as [|[p e] ws IH] using rev_ind; [by repeat constructor|].
  rewrite conversation_snoc. unfold converse_step.
  destruct (conversation A C t ws) as [l [t1|x]]; [|exact IH].
  destruct (talk_ready t1); [exact IH|].
  destruct (hear A C t1 (p, e)) as [out o] eqn:Eh. cbn [fst] in *.
  apply Forall_app. split; [done|]. constructor; [done|]. by eapply hear_no_run.
Qed.

(** What holds of a session between calls. *)
Record good (s : APPLE_AGX_RTKIT_SESSION) (b : mailbox) : Prop := {
  good_steady : steady s;
  good_power : Running s = powered (mb_log b);
  good_fair : mb_abused b = false;
  good_off : Running s = false ->
    StopPhase s = AppleAgxRtkitStopIdle \/ StopPhase s = AppleAgxRtkitStopComplete;
  good_complete : StopPhase s = AppleAgxRtkitStopComplete -> Running s = false;
  good_stopping : StopPhase s <> AppleAgxRtkitStopIdle -> Running s = true ->
    AppleAgxRtkitBootIsReady (Some (Boot_ s)) = true;
}.

Lemma boot_initialized_wf b : boot_wf b -> boot_wf (boot_initialized b).
Proof.
  intros Hb. apply boot_wf_initial. exists b. split; [apply Hb|].
  unfold boot_initialized, AppleAgxRtkitBootInitialize. done.
Qed.

Lemma boot_initialized_waits b : AppleAgxRtkitBootIsReady (Some (boot_initialized b)) = false.
Proof. reflexivity. Qed.

(** ** The interface of the lock *)

(** What the start needs of the shared lock: its initialisation returns, in any world, and
    leaves the mailbox alone. *)
Class Lockable {W} (limit : Z) (fuel : nat)
    (lock_ok : Handoff.APPLE_AGX_GFX_HANDOFF_STATE (W * mailbox) -> Prop) : Prop :=
  lock_initialize : forall h D S, D < limit -> lock_ok h ->
    wp (Handoff.AppleAgxGfxHandoffInitialize fuel (Some h) D)
      (fun r S' => passes [] S S' /\ is_Some r.2) S.

(** The lock of GfxHandoff.v is such a lock while it is free, for firmware that keeps its
    protocol, when the callbacks leave the mailbox alone. *)
Lemma handoff_lockable {W} hio view env frame handovers limit hwithin hpatience
    `{!Handoff.Shared (W := W * mailbox) hio view env frame handovers limit hwithin hpatience} fuel :
  (forall S, Handoff.fw_ok (view S)) -> (forall S, (handovers S + hpatience < fuel)%nat) ->
  (forall S S', frame S S' -> passes [] S S') ->
  Lockable limit fuel (fun h =>
    Handoff.Locked h = false /\ (Handoff.Bound h = true -> Handoff.Io h = hio)).
Proof.
  intros Hok Hf Hframe h D S HD [Hl Hio]. eapply wp_mono.
  - eapply (Handoff.initialize_keeps hio view env frame handovers limit hwithin hpatience fuel D h S);
      [|lia|done]. split; [done|]. split; [done|]. by rewrite Hl.
  - intros r S' [[HS (h' & -> & _)] _]. split; [by apply Hframe|done].
Qed.

(** ** What the operations keep *)

Section running.
Context {W : Type} (io : APPLE_AGX_ASC_IO W) (limit : Z) (within : W -> nat) (patience : nat)
  `{!Clock io limit within patience}.
Notation St := (W * mailbox)%type.
Notation Io := (Some (watched io)).
Notation SESSION := APPLE_AGX_RTKIT_SESSION.
Notation RESULT := APPLE_AGX_RTKIT_SESSION_RESULT.
Implicit Types (S : St) (s : SESSION) (D : Z).

(** A session between calls whose fields that matter are the same. *)
Lemma good_same s s' l S S' :
  good s S.2 -> passes l S S' -> Forall no_run l -> steady s' -> Running s' = Running s ->
  StopPhase s' = StopPhase s -> Boot_ s' = Boot_ s -> good s' S'.2.
Proof.
  intros [] [Hl Hf] Hn Hs Er Ep Eb. split; rewrite ?Er, ?Ep, ?Eb, ?Hl, ?Hf; try done.
  by rewrite powered_app, power_quiet.
Qed.

(** A session that is stopped. *)
Lemma good_stopped s l S S' :
  passes l S S' -> mb_abused S.2 = false -> steady s -> Running s = false ->
  StopPhase s = AppleAgxRtkitStopIdle \/ StopPhase s = AppleAgxRtkitStopComplete ->
  powered (mb_log S.2 ++ l) = false -> good s S'.2.
Proof.
  intros [Hl Hf] Ha Hs Er Ep Hp. split; rewrite ?Er, ?Hl, ?Hf; try done.
Qed.

(** A session that runs and has not begun to stop. *)
Lemma good_running s l S S' :
  passes l S S' -> mb_abused S.2 = false -> steady s -> Running s = true ->
  StopPhase s = AppleAgxRtkitStopIdle -> powered (mb_log S.2 ++ l) = true -> good s S'.2.
Proof.
  intros [Hl Hf] Ha Hs Er Ep Hp. split; rewrite ?Er, ?Ep, ?Hl, ?Hf; try done.
Qed.

Lemma force_off_good s x l S0 S :
  passes l S0 S -> mb_abused S0.2 = false -> steady s -> Running s = true ->
  StopPhase s = AppleAgxRtkitStopIdle -> powered (mb_log S0.2 ++ l) = true ->
  wp (AppleAgxRtkitSessionForceRunOff s Io x) (fun r S' => good r.2 S'.2 /\
    (r.1 = x /\ Running r.2 = false \/
     r.1 = AppleAgxRtkitSessionResultCleanupFailed /\ Running r.2 = true)) S.
Proof.
  intros HS Ha Hs Hr Hi Hp. eapply wp_mono; [by apply (force_run_off_spec io limit within patience)|].
  intros r S' [[-> H]|[-> H]]; cbn [fst snd]; (split; [|auto]).
  - apply (good_stopped _ (l ++ [Run false]) S0); [by eapply passes_trans|done|done|done|by right|].
    by rewrite app_assoc, powered_app.
  - apply (good_running _ l S0); [by eapply passes_quiet_r|done..].
Qed.

Lemma fresh_steady s : steady s -> steady (fresh_start s).
Proof. intros (Hb & Ha & Hc). split_and!; [by apply boot_initialized_wf|done..]. Qed.

(** What a result of starting or booting says of the power. *)
Definition settled (r : RESULT) s s' : Prop :=
  match r with
  | AppleAgxRtkitSessionResultOk | AppleAgxRtkitSessionResultCleanupFailed => Running s' = true
  | AppleAgxRtkitSessionResultInvalidState => s' = s
  | _ => Running s' = false
  end.

Lemma force_off_settled s0 s x l S0 S :
  passes l S0 S -> mb_abused S0.2 = false -> steady s -> Running s = true ->
  StopPhase s = AppleAgxRtkitStopIdle -> powered (mb_log S0.2 ++ l) = true ->
  x <> AppleAgxRtkitSessionResultOk -> x <> AppleAgxRtkitSessionResultInvalidState ->
  x <> AppleAgxRtkitSessionResultCleanupFailed ->
  wp (AppleAgxRtkitSessionForceRunOff s Io x) (fun r S' =>
    good r.2 S'.2 /\ settled r.1 s0 r.2 /\ r.1 <> AppleAgxRtkitSessionResultOk) S.
Proof.
  intros HS Ha Hs Hr Hi Hp Hx1 Hx2 Hx3. eapply wp_mono; [by eapply force_off_good|].
  intros r S' [Hg [[-> Hoff]|[-> Hon]]]; split; try exact Hg; split; try done.
  by destruct x.
Qed.

(** What a call that starts or boots leaves. *)
Definition started s (r : RESULT) s' S' : Prop := good s' S'.2 /\ settled r s s'.

Lemma start_off_spec {A} s0 s x l S0 S (f : RESULT -> SESSION -> A) (Q : A -> St -> Prop) :
  passes l S0 S -> mb_abused S0.2 = false -> steady s -> Running s = true ->
  StopPhase s = AppleAgxRtkitStopIdle -> powered (mb_log S0.2 ++ l) = true ->
  x <> AppleAgxRtkitSessionResultOk -> x <> AppleAgxRtkitSessionResultInvalidState ->
  x <> AppleAgxRtkitSessionResultCleanupFailed ->
  (forall r s' S', started s0 r s' S' -> r <> AppleAgxRtkitSessionResultOk -> Q (f r s') S') ->
  wp ('(r, s) ← AppleAgxRtkitSessionForceRunOff s Io x; mret (f r s)) Q S.
Proof.
  intros HS Ha Hs Hr Hi Hp Hx1 Hx2 Hx3 HQ. eapply wp_seq; [by eapply (force_off_settled s0)|].
  intros [r s'] S' (Hg & Hset & Hok). apply wp_ret, HQ; [by split|done].
Qed.

(** The start: refused as it was, or the coprocessor runs, or it is off again. *)
Lemma start_spec fuel lock_ok s h D S :
  Lockable limit fuel lock_ok -> D < limit -> (patience < fuel)%nat -> good s S.2 ->
  match h with None => True | Some h => lock_ok h end ->
  wp (AppleAgxRtkitSessionStartCpuAndInitializeHandoff fuel (Some s) Io h D) (fun r S' =>
    exists s', r.1.2 = Some s' /\ started s r.1.1 s' S' /\
      (r.1.1 = AppleAgxRtkitSessionResultOk ->
         s' = (fresh_start s) <| Running := true |> <| CpuReady := true |>)) S.
Proof.
  intros Hlock HD Hfuel G Hh. unfold AppleAgxRtkitSessionStartCpuAndInitializeHandoff.
  cbn [is_null]. assert (started s AppleAgxRtkitSessionResultInvalidState s S) as Hno by done.
  destruct (Running s) eqn:Er; [apply wp_ret; exists s; by split_and!|].
  destruct (_ && _); [apply wp_ret; exists s; by split_and!|]. cbv zeta.
  pose proof (good_power s S.2 G) as Hpow. pose proof (good_fair s S.2 G) as Hfair.
  rewrite Er in Hpow. pose proof (fresh_steady s (good_steady s S.2 G)) as Hst.
  assert (StopPhase (fresh_start s) = AppleAgxRtkitStopIdle) as Hidle by done.
  assert (Running (fresh_start s) = false) as Hoff by exact Er.
  revert Hst Hidle Hoff. generalize (fresh_start s). intros f Hst Hidle Hoff.
  eapply wp_seq; [by apply (set_run_spec io limit within patience true)|]. intros a S1 H1.
  destruct (decide (a = AppleAgxAscResultOk)) as [->|Ha].
  2: { assert (passes [] S S1) as H1' by by destruct a.
    assert (started s (AppleAgxRtkitSessionAscResult a) f S1 /\
      AppleAgxRtkitSessionAscResult a <> AppleAgxRtkitSessionResultOk) as [Hf Hx].
    { split; [|by destruct a]. split; [|by destruct a].
      by apply (good_stopped _ [] S); auto; rewrite app_nil_r. }
    destruct a; try done; apply wp_ret; exists f; by split_and!. }
  cbn [AppleAgxRtkitSessionAscResult if_ok] in *.
  assert (powered (mb_log S.2 ++ [Run true]) = true) as Hon by by rewrite powered_app.
  eapply wp_seq; [by apply (wait_running_spec io limit within patience)|].
  intros [a p] S2 H2. assert (passes [Run true] S S2) as H02 by by eapply passes_quiet_r.
  destruct (decide (a = AppleAgxAscResultOk)) as [->|Ha].
  2: { destruct (transport_failure a Ha) as (Hx1 & _ & _).
    assert (AppleAgxRtkitSessionAscResult a <> AppleAgxRtkitSessionResultInvalidState)
      by by destruct a.
    destruct a; try done; (eapply (start_off_spec s); [exact H02|done..|]);
      intros r s' S' Hr Hne; exists s'; by split_and!. }
  cbn [AppleAgxRtkitSessionAscResult].
  set (s1 := f <| Running := true |> <| CpuReady := true |>).
  assert (steady s1) as Hst1 by exact Hst.
  assert (forall S', passes [Run true] S S' -> started s AppleAgxRtkitSessionResultOk s1 S')
    as Hyes by (intros S' HS'; split; [by apply (good_running _ [Run true] S)|done]).
  destruct h as [h|]; cbn [is_null]; [|apply wp_ret; exists s1; split; [done|]; split; [by apply Hyes|done]].
  eapply wp_seq; [by apply lock_initialize|]. intros [r h'] S3 [H3 _].
  assert (passes [Run true] S S3) as H03 by by eapply passes_quiet_r.
  destruct r; [apply wp_ret; exists s1; by split_and!; [|apply Hyes|]|..];
    (eapply (start_off_spec s _ AppleAgxRtkitSessionResultTimeout); [exact H03|done..|]);
    intros r s' S' Hr Hne; exists s'; by split_and!.
Qed.

(** The bootstrap of a session that was just started. *)
Lemma booted_spec fuel s D S :
  D < limit -> (patience < fuel)%nat -> good s S.2 -> bootable s ->
  wp (AppleAgxRtkitSessionCompleteManagementBootstrap fuel (Some s) Io D) (fun r S' =>
    exists s', r.2 = Some s' /\ started s r.1 s' S' /\
      r.1 <> AppleAgxRtkitSessionResultInvalidState) S.
Proof.
  intros HD Hfuel G B. eapply wp_mono; [by eapply (bootstrap_spec io limit within patience)|].
  intros [r p] S' (s' & Ep & ws & l & tail & Hpre & HS & Hend). cbn [fst snd] in *. subst p.
  exists s'. split; [done|].
  assert (Forall no_run l) as Hl.
  { destruct Hpre as [k Ek].
    pose proof (conversation_no_run (CrashlogGpuAddress s) (CrashlogCapacityBytes s)
      (talk_start 0 (CrashlogReplySent s)) ws) as H. rewrite Ek in H. by apply Forall_app in H as [? _]. }
  assert (powered (mb_log S.2 ++ l) = true) as Hon.
  { rewrite powered_app, power_quiet, <- (good_power s S.2 G) by done. apply B. }
  assert (mb_abused S.2 = false) as Hfair by apply G.
  destruct Hend as [(-> & _ & -> & T & _)|[(Hne & Hst & Hcl) Hwhy]].
  - split; [|done]. rewrite app_nil_r in HS. split; [|apply T].
    by apply (good_running _ l S); auto; [apply talking_steady|apply T..].
  - assert (r <> AppleAgxRtkitSessionResultInvalidState) as Hv.
    { destruct Hwhy as [[a ->]|[->|[_ Hc]]]; [by destruct a|done|]. intros ->.
      clear -Hc. revert Hc. generalize (talk_start 0 (CrashlogReplySent s)). intros t Hc.
      induction ws as [|w ws IH] using rev_ind; [done|]. rewrite conversation_snoc in Hc.
      unfold converse_step in Hc. destruct (conversation _ _ t ws) as [l1 [t1|x]]; [|by apply IH].
      destruct (talk_ready t1); [done|]. destruct (hear _ _ t1 w) as [out o] eqn:Eh.
      cbn [snd] in Hc. subst o. by destruct (hear_refusal _ _ _ _ _ _ Eh). }
    split; [|done]. case_bool_decide as Hcf; destruct Hcl as (-> & Hrun & Hph).
    + subst r. rewrite app_nil_r in HS. split; [|done]. by apply (good_running _ l S).
    + split; [|by destruct r].
      apply (good_stopped _ (l ++ [Run false]) S); auto. by rewrite app_assoc, powered_app.
Qed.

Lemma good_bootable s b :
  good s b -> Running s = true -> CpuReady s = true -> StopPhase s = AppleAgxRtkitStopIdle ->
  AppleAgxRtkitBootIsReady (Some (Boot_ s)) = false -> bootable s.
Proof.
  intros G Hr Hc Hi Hb. destruct (good_steady s b G) as (Hw & Ha & Hcap).
  split; try done. apply (boot_map _ Hw).
Qed.

Lemma bootstrap_life fuel s D S :
  D < limit -> (patience < fuel)%nat -> good s S.2 ->
  wp (AppleAgxRtkitSessionCompleteManagementBootstrap fuel (Some s) Io D) (fun r S' =>
    exists s', r.2 = Some s' /\ started s r.1 s' S') S.
Proof.
  intros HD Hfuel G.
  destruct (Running s && CpuReady s && bool_decide (StopPhase s = AppleAgxRtkitStopIdle) &&
    negb (AppleAgxRtkitBootIsReady (Some (Boot_ s)))) eqn:E.
  - apply andb_true_iff in E as [[[Er Ec]%andb_true_iff Ei]%andb_true_iff Eb].
    apply bool_decide_eq_true in Ei. apply negb_true_iff in Eb.
    eapply wp_mono; [apply booted_spec; auto; by eapply good_bootable|].
    intros r S' (s' & Er' & H & _). by exists s'.
  - unfold AppleAgxRtkitSessionCompleteManagementBootstrap. cbn [is_null].
    replace (_ || _ || _ || _) with true; [apply wp_ret; by exists s|].
    destruct (Running s), (CpuReady s), (bool_decide _), (AppleAgxRtkitBootIsReady _); done.
Qed.

(** The boot: start, prepare, bootstrap. *)
Lemma boot_spec fuel lock_ok s h prepare D S :
  Lockable limit fuel lock_ok -> D < limit -> (patience < fuel)%nat -> good s S.2 ->
  match h with None => True | Some h => lock_ok h end ->
  match prepare with
  | None => True
  | Some f => forall D S r S', f D S = (r, S') -> passes [] S S'
  end ->
  wp (AppleAgxRtkitSessionBoot fuel (Some s) Io h prepare D) (fun r S' =>
    exists s', r.1.2 = Some s' /\ started s r.1.1 s' S') S.
Proof.
  intros Hlock HD Hfuel G Hh Hf. unfold AppleAgxRtkitSessionBoot.
  eapply wp_seq; [by eapply start_spec|]. intros [[r p] h'] S1 (s1 & Ep & [G1 Hset] & Hok).
  cbn [fst snd] in *. subst p. destruct (decide (r = AppleAgxRtkitSessionResultOk)) as [->|Hr].
  2: { assert (started s r s1 S1) as H by done. destruct r; try done; apply wp_ret; by exists s1. }
  specialize (Hok eq_refl).
  assert (StopPhase s1 = AppleAgxRtkitStopIdle) as Hi by by rewrite Hok.
  assert (CpuReady s1 = true) as Hc by by rewrite Hok.
  assert (AppleAgxRtkitBootIsReady (Some (Boot_ s1)) = false) as Hb by by rewrite Hok.
  clear Hok. cbn [settled] in Hset.
  apply wp_bind. apply (wp_mono _ (fun _ S2 => passes [] S1 S2)).
  { destruct prepare as [f|]; [|apply wp_ret, passes_refl]. apply wp_call. intros a S2. apply Hf. }
  intros [] S2 H12; cbn [negb].
  - assert (good s1 S2.2) as G2 by (eapply good_same; eauto; apply G1).
    eapply wp_seq; [apply booted_spec; auto; by eapply good_bootable|].
    intros [r p] S3 (s3 & Ep & [G3 Hs3] & Hne). cbn [fst snd] in *. subst p.
    apply wp_ret. exists s3. split; [done|]. split; [done|]. by destruct r.
  - eapply (start_off_spec s s1 _ [] S1 S2 (fun r s => (r, Some s, h'))); auto; try apply G1.
    + rewrite app_nil_r. by rewrite <- (good_power s1 S1.2 G1).
    + intros r s' S' Hst _. by exists s'.
Qed.

(** ** Serving the mailbox *)

(** What serving leaves alone. *)
Definition kept s s' : Prop :=
  (steady s -> steady s') /\ Running s' = Running s /\ StopPhase s' = StopPhase s /\
  Boot_ s' = Boot_ s /\ CrashlogReplySent s' = CrashlogReplySent s.

Lemma kept_refl s : kept s s.
Proof. by split_and!. Qed.

Lemma kept_trans s1 s2 s3 : kept s1 s2 -> kept s2 s3 -> kept s1 s3.
Proof.
  intros (H1 & E1 & P1 & B1 & C1) (H2 & E2 & P2 & B2 & C2).
  split; [auto|]. by rewrite E2, P2, B2, C2.
Qed.

Lemma note_received_kept s m : kept s (note_received s m).
Proof. by split_and!. Qed.

Lemma sampled_kept s s' : sampled s s' -> kept s s' /\ CrashlogCrashed s' = CrashlogCrashed s.
Proof. intros (? & ? & ? & ? & ->). by split_and!. Qed.

Lemma good_kept s s' l S S' :
  good s S.2 -> kept s s' -> passes l S S' -> Forall no_run l -> good s' S'.2.
Proof. intros G (H & ? & ? & ? & _) HS Hl. eapply good_same; eauto. apply H, G. Qed.

Definition recvs (ws : list (Z * Z)) : list signal := map (fun w => Recv w.1 w.2) ws.

Lemma recvs_app ws1 ws2 : recvs (ws1 ++ ws2) = recvs ws1 ++ recvs ws2.
Proof. apply map_app. Qed.

Lemma recvs_no_run ws : Forall no_run (recvs ws).
Proof. by induction ws as [|w ws IH]; constructor. Qed.

(** Messages the runtime expects: the wake-up of an event, the answer to a heartbeat. *)
Definition benign (w : Z * Z) : bool :=
  (w.2 =? 0x20) && ((w.1 / 2 ^ 48) mod 2 ^ 16 =? 0x42) ||
  (w.2 =? 0) && decodes_type w.1 AppleAgxRtkitManagementPong.

(** The firmware fills the crash-log buffer it was granted. *)
Definition alarming (granted : bool) (w : Z * Z) : bool :=
  (w.2 =? 1) && (w.1 / 2 ^ 52 =? 1) && granted.

(** Why serving ends: the messages taken, and the result. *)
Definition served (s : SESSION) (ws : list (Z * Z)) (r : RESULT) s' : Prop :=
  match r with
  | AppleAgxRtkitSessionResultFirmwareCrashed => CrashlogCrashed s' = true /\
      exists ws0 w, ws = ws0 ++ [w] /\ Forall benign ws0 /\ benign w = false /\
        alarming (CrashlogReplySent s) w = true
  | AppleAgxRtkitSessionResultProtocolViolation => CrashlogCrashed s' = CrashlogCrashed s /\
      exists ws0 w, ws = ws0 ++ [w] /\ Forall benign ws0 /\ benign w = false /\
        alarming (CrashlogReplySent s) w = false
  | _ => CrashlogCrashed s' = CrashlogCrashed s /\ transport_result r /\ Forall benign ws
  end.

Lemma event_wake_spec m :
  AppleAgxRtkitSessionMessageIsEventWake (Some m) =
  (am_Endpoint m =? 0x20) && ((am_Payload m / 2 ^ 48) mod 2 ^ 16 =? 0x42).
Proof.
  unfold AppleAgxRtkitSessionMessageIsEventWake. change 0xffff with (2 ^ 16 - 1).
  by rewrite land_mask, Z.shiftr_div_pow2 by done.
Qed.

(** The state of the loop after some messages. *)
Definition serving s S (ws : list (Z * Z)) (p : SESSION * Z) S' : Prop :=
  kept s p.1 /\ CrashlogCrashed p.1 = CrashlogCrashed s /\ p.2 = zlen ws /\
  Forall benign ws /\ passes (recvs ws) S S'.

(** The loop is over. *)
Definition finished s S (Max : Z) (r : RESULT * SESSION * Z) S' : Prop :=
  exists ws, r.2 = zlen ws /\ zlen ws <= Max /\ kept s r.1.2 /\ passes (recvs ws) S S' /\
    served s ws r.1.1 r.1.2.

Lemma leave_finished s0 S0 Max s x (n : Z) S ws :
  kept s0 s -> n = zlen ws -> zlen ws <= Max -> passes (recvs ws) S0 S ->
  (forall s', kept s0 s' -> CrashlogCrashed s' = CrashlogCrashed s -> served s0 ws x s') ->
  wp (s ← AppleAgxRtkitSessionCaptureFailureMailbox s Io;
      mret (inr (x, s, n) : SESSION * Z + RESULT * SESSION * Z))
    (fun r S' => match r with inl _ => False | inr r => finished s0 S0 Max r S' end) S.
Proof.
  intros Hk Hn Hmax HS Hserved. eapply wp_seq; [by apply (capture_spec io limit within patience)|].
  intros s' S' [Hs H]. destruct (sampled_kept s s' Hs) as [Hk' Hc].
  assert (kept s0 s') by by eapply kept_trans.
  apply wp_ret. exists ws. cbn [fst snd]. split_and!; [done..|by eapply passes_quiet_r|by apply Hserved].
Qed.

(** What has been served when one more message has come in. *)
Lemma serve_last s ws w s' :
  Forall benign ws -> benign w = false ->
  (if alarming (CrashlogReplySent s) w then CrashlogCrashed s' = true
   else CrashlogCrashed s' = CrashlogCrashed s) ->
  served s (ws ++ [w])
    (if alarming (CrashlogReplySent s) w then AppleAgxRtkitSessionResultFirmwareCrashed
     else AppleAgxRtkitSessionResultProtocolViolation) s'.
Proof.
  intros Hws Hw Hc. destruct (alarming _ w) eqn:Ea; (split; [done|]); by exists ws, w.
Qed.

Lemma refused_served s ws a s' :
  a <> AppleAgxAscResultOk -> Forall benign ws -> CrashlogCrashed s' = CrashlogCrashed s ->
  served s ws (AppleAgxRtkitSessionAscResult a) s'.
Proof.
  intros Ha Hws Hc. destruct a; try done; (split; [done|]; split; [|done]).
  - by exists AppleAgxAscResultInvalidArgument.
  - by exists AppleAgxAscResultTimeout.
  - by exists AppleAgxAscResultClockRegression.
  - by exists AppleAgxAscResultTransportFailed.
Qed.

Lemma zlen_snoc {A} (l : list A) a : zlen (l ++ [a]) = zlen l + 1.
Proof. unfold zlen. rewrite length_app. simpl. lia. Qed.

(** Refused before anything is done. *)
Definition drain_refused s (r : RESULT) : Prop :=
  r = AppleAgxRtkitSessionResultInvalidArgument \/ r = AppleAgxRtkitSessionResultInvalidState \/
  r = AppleAgxRtkitSessionResultFirmwareCrashed /\ CrashlogCrashed s = true.

Lemma drain_round_spec s Max ws p S S1 :
  zlen ws < Max -> Max <= 64 -> serving s S ws p S1 ->
  wp (drain_round Io p.1 p.2) (fun r S' =>
    match r with
    | inl p' => exists w, serving s S (ws ++ [w]) p' S'
    | inr r => finished s S Max r S'
    end) S1.
Proof.
  intros Hmax H64 (Hk & Hc & Hd & Hws & HS). destruct p as [s1 d]. cbn [fst snd] in *. subst d.
  eapply wp_seq; [by apply (try_receive_spec io limit within patience)|].
  intros [[a p] available] S2 (m & Ep & H). cbn [fst snd] in *. subst p.
  destruct (decide (a = AppleAgxAscResultOk)) as [->|Ha].
  2: { assert (passes [] S1 S2) as H12 by (destruct a, available as [[]|]; done).
    assert (wp (s0 ← AppleAgxRtkitSessionCaptureFailureMailbox s1 Io;
      mret (inr (AppleAgxRtkitSessionAscResult a, s0, zlen ws) : SESSION * Z + RESULT * SESSION * Z))
      (fun r S' => match r with inl _ => False | inr r => finished s S Max r S' end) S2) as Hl.
    { eapply (leave_finished s S Max s1); try done; [lia|by eapply passes_quiet_r|].
      intros s' _ Hc'. apply refused_served; [done..|]. by rewrite Hc'. }
    destruct a; try done; (eapply wp_mono; [exact Hl|by intros []]). }
  cbn [AppleAgxRtkitSessionAscResult]. destruct available as [[]|]; [| |done].
  2: { apply wp_ret. exists ws. cbn [fst snd]. split; [done|]. split; [lia|]. split; [done|].
       split; [by eapply passes_quiet_r|]. split; [done|]. split; [by exists AppleAgxAscResultOk|done]. }
  destruct H as (H12 & Hp & He). cbn [default from_option id negb].
  set (w := (am_Payload m, am_Endpoint m)).
  assert (passes (recvs (ws ++ [w])) S S2) as HS2.
  { rewrite recvs_app. by eapply passes_trans. }
  assert (u32 (zlen ws + 1) = zlen (ws ++ [w])) as Hn.
  { rewrite zlen_snoc. apply Z.mod_small. unfold zlen in *. lia. }
  assert (zlen (ws ++ [w]) <= Max) as Hle by (rewrite zlen_snoc; lia).
  rewrite Hn, event_wake_spec. set (s2 := note_received s1 m).
  assert (kept s s2) as Hk2 by (eapply kept_trans; [done|apply note_received_kept]).
  assert (CrashlogCrashed s2 = CrashlogCrashed s) as Hc2 by exact Hc.
  destruct (benign w) eqn:Eb; pose proof Eb as Ew; unfold benign in Ew; cbn [fst snd w] in Ew.
  { assert (serving s S (ws ++ [w]) (s2, zlen (ws ++ [w])) S2).
    { split; [done|]. split; [done|]. split; [done|]. split; [|done].
      apply Forall_app. split; [done|]. constructor; [by rewrite Eb|done]. }
    destruct (_ && _); [apply wp_ret; by exists w|]. cbn [orb] in Ew. rewrite Ew.
    apply wp_ret. by exists w. }
  apply orb_false_iff in Ew as [-> ->].
  pose proof (serve_last s ws w) as Hlast. unfold alarming in Hlast. cbn [fst snd w] in Hlast.
  destruct Hk2 as (Hst & Hr & Hph & Hb & Hg). rewrite Hg, Z.shiftr_div_pow2 by done.
  destruct (_ && CrashlogReplySent s).
  - eapply wp_mono; [eapply (leave_finished s S Max (s2 <| CrashlogCrashed := true |>)); try done|
      by intros []].
    intros s' _ Hc'. apply Hlast; [done..|]. by rewrite Hc'.
  - eapply wp_mono; [eapply (leave_finished s S Max s2); try done|by intros []].
    intros s' _ Hc'. apply Hlast; [done..|]. by rewrite Hc'.
Qed.

Lemma drain_spec s n Max S :
  0 <= Max ->
  wp (AppleAgxRtkitSessionDrainRuntime (Some s) Io Max (Some n)) (fun r S' =>
    (exists x, r = (x, Some s, Some 0) /\ drain_refused s x /\ S' = S) \/
    exists x s' n', r = (x, Some s', Some n') /\ finished s S Max (x, s', n') S') S.
Proof.
  intros HM. unfold AppleAgxRtkitSessionDrainRuntime. cbn [is_null orb].
  destruct ((Max =? 0) || _) eqn:EM; [apply wp_ret; left; eexists; split_and!; [done|by left|done]|].
  destruct (CrashlogCrashed s) eqn:Ec.
  { apply wp_ret. left. eexists. split_and!; [done| |done]. right. by right. }
  destruct (_ || _ || _ || _); [apply wp_ret; left; eexists; split_and!; [done|right; by left|done]|].
  apply orb_false_iff in EM as [_ EM]. unfold APPLE_AGX_RTKIT_RUNTIME_DRAIN_LIMIT in EM.
  apply Z.ltb_ge in EM.
  eapply wp_seq; [apply (wp_for_each (fun i p S' => exists ws, i = zlen ws /\ serving s S ws p S')
    _ _ _ (fun r S' => finished s S Max (match r with
       | inl p => (AppleAgxRtkitSessionResultOk, p.1, p.2) | inr r => r end) S'))|].
  - exists []. split; [done|]. split_and!; try done; apply passes_refl.
  - intros i p S1 Hi (ws & -> & Hs). eapply wp_mono; [eapply drain_round_spec; [|done..]; lia|].
    intros [p'|r] S2 H; [|done]. destruct H as [w H]. exists (ws ++ [w]). by rewrite zlen_snoc.
  - intros p S1 (ws & Hn & Hk & Hc & Hd & Hws & HS). exists ws. cbn [fst snd].
    split; [done|]. split; [lia|]. split; [done|]. split; [done|]. split; [done|].
    split; [by exists AppleAgxAscResultOk|done].
  - intros [[s' n']|[[x s'] n']] S1 H; apply wp_ret; right; eauto.
Qed.

(** ** The orderly stop *)

(** An acknowledgement of a power request. *)
Definition acks (Type__ State__ p e : Z) : bool :=
  let '(ok, decoded) := AppleAgxRtkitDecodeManagement p (Some cleared) in
  negb (negb (e =? 0) || negb ok) &&
  ((Type_ (default cleared decoded) =? Type__) && (State (default cleared decoded) =? State__)).

(** What has to pass for a stop, in this order. *)
Definition stop_script : list (signal -> Prop) := [
  fun g => g = Send (AppleAgxRtkitSetApPower 0x10) 0;
  fun g => exists p e, g = Recv p e /\ acks AppleAgxRtkitManagementSetApPower 0x10 p e = true;
  fun g => g = Send (AppleAgxRtkitSetIopPower 0x10) 0;
  fun g => exists p e, g = Recv p e /\ acks AppleAgxRtkitManagementIopPowerAck 0x10 p e = true;
  fun g => g = Run false].

(** How far a stop has got. *)
Definition stop_index (phase : APPLE_AGX_RTKIT_STOP_PHASE) : nat :=
  match phase with
  | AppleAgxRtkitStopIdle => 0
  | AppleAgxRtkitStopApRequested => 1
  | AppleAgxRtkitStopApAcknowledged => 2
  | AppleAgxRtkitStopIopRequested => 3
  | AppleAgxRtkitStopIopAcknowledged => 4
  | AppleAgxRtkitStopComplete => 5
  end%nat.

(** Signals that are the part of the script from [i] to [j]. *)
Inductive advances : nat -> nat -> list signal -> Prop :=
  | advances_none i : advances i i []
  | advances_step i j P g l :
      stop_script !! i = Some P -> P g -> advances (Datatypes.S i) j l -> advances i j (g :: l).

Lemma advances_snoc i j P g l :
  advances i j l -> stop_script !! j = Some P -> P g -> advances i (Datatypes.S j) (l ++ [g]).
Proof.
  intros H HP Hg. induction H as [i|i j P' g' l HP' Hg' H IH]; simpl.
  - eapply advances_step; [done..|]. apply advances_none.
  - eapply advances_step; [done..|]. by apply IH.
Qed.

Lemma advances_le i j l : advances i j l -> (i <= j)%nat.
Proof. induction 1; lia. Qed.

Lemma advances_no_run i j l : advances i j l -> (j < 5)%nat -> Forall no_run l.
Proof.
  induction 1 as [i|i j P g l HP Hg H IH]; intros Hj; constructor; [|by apply IH].
  apply advances_le in H. destruct i as [|[|[|[|i]]]]; [injection HP as <-..|lia].
  - by subst g.
  - by destruct Hg as (? & ? & -> & _).
  - by subst g.
  - by destruct Hg as (? & ? & -> & _).
Qed.

Lemma advances_off i j l on :
  advances i j l -> j = 5%nat -> (i < j)%nat -> foldl power_step on l = false.
Proof.
  intros H. revert on. induction H as [i|i j P g l HP Hg H IH]; intros on Hj Hi; [lia|]. simpl.
  destruct (decide (Datatypes.S i = j)) as [E|Hne];
    [|apply IH; [done|apply advances_le in H; lia]].
  assert (i = 4%nat) as -> by lia. injection HP as <-. subst g j.
  inversion H as [|? ? ? ? ? HP']; [done|]. done.
Qed.

(** An exchange of the stop: what the script wants has passed, or it failed and at most one
    message was taken. *)
Definition stray (l : list signal) : Prop := l = [] \/ exists p e, l = [Recv p e].
Definition exchange (P : signal -> Prop) (m : M St RESULT) : Prop := forall S,
  wp m (fun r S' => exists l, passes l S S' /\
    match r with
    | AppleAgxRtkitSessionResultOk => exists g, l = [g] /\ P g
    | _ => stray l
    end) S.

Lemma request_exchange fuel p D :
  D < limit -> (patience < fuel)%nat ->
  exchange (fun g => g = Send p 0) (request_power fuel Io p D).
Proof.
  intros HD Hfuel S. eapply wp_seq; [by eapply (send_spec io limit within patience)|].
  intros r S' [HS _]. apply wp_ret. eexists. split; [done|]. destruct r; [by eexists|by left..].
Qed.

Lemma wait_exchange fuel Type__ State__ D :
  D < limit -> (patience < fuel)%nat ->
  exchange (fun g => exists p e, g = Recv p e /\ acks Type__ State__ p e = true)
    (AppleAgxRtkitSessionWaitPower fuel Io Type__ State__ D).
Proof.
  intros HD Hfuel S. eapply wp_seq; [by eapply (receive_spec io limit within patience)|].
  intros [r p] S' [(m & Ep & HS & _) _]. cbn [fst snd] in *. subst p.
  destruct r; [|apply wp_ret; exists []; by split; [|left]..].
  cbn [AppleAgxRtkitSessionAscResult default from_option id if_ok] in *.
  pose proof (fun H => ex_intro _ (am_Payload m) (ex_intro _ (am_Endpoint m) (conj eq_refl H)) :
    exists p e, Recv (am_Payload m) (am_Endpoint m) = Recv p e /\ acks Type__ State__ p e = true)
    as Hack.
  assert (acks Type__ State__ (am_Payload m) (am_Endpoint m) = true -> exists g,
    [Recv (am_Payload m) (am_Endpoint m)] = [g] /\
    exists p e, g = Recv p e /\ acks Type__ State__ p e = true) as Hyes by eauto.
  assert (stray [Recv (am_Payload m) (am_Endpoint m)]) as Hno by (right; eauto).
  clear Hack. unfold acks in Hyes. destruct (AppleAgxRtkitDecodeManagement _ _) as [ok d].
  destruct (_ || _); [apply wp_ret; eauto|]. destruct (_ && _); apply wp_ret; eauto.
Qed.

(** A stop so far: the script has been followed from where the session was. *)
Definition stop_so_far s0 S0 s S : Prop := exists l,
  passes l S0 S /\ advances (stop_index (StopPhase s0)) (stop_index (StopPhase s)) l /\
  s = s0 <| StopPhase := StopPhase s |> /\ StopPhase s <> AppleAgxRtkitStopComplete.

(** How a stop ends: complete, or where it got stuck. *)
Definition stopped s0 S0 (r : RESULT) s S : Prop := exists l l',
  passes (l ++ l') S0 S /\
  advances (stop_index (StopPhase s0)) (stop_index (StopPhase s)) l /\
  match r with
  | AppleAgxRtkitSessionResultOk => l' = [] /\
      s = s0 <| Running := false |> <| Boot_ := boot_initialized (Boot_ s0) |>
             <| StopPhase := AppleAgxRtkitStopComplete |>
  | _ => stray l' /\ s = s0 <| StopPhase := StopPhase s |> /\
      StopPhase s <> AppleAgxRtkitStopComplete
  end.

Lemma stop_index_inj p q : stop_index p = stop_index q -> p = q.
Proof. by destruct p, q. Qed.

Lemma stop_step_exchange P phase next m s S :
  exchange P m -> StopPhase s = phase ->
  wp (stop_step phase next m s) (fun r S' => exists l, passes l S S' /\
    match r.1 with
    | AppleAgxRtkitSessionResultOk => r.2 = s <| StopPhase := next |> /\ exists g, l = [g] /\ P g
    | _ => r.2 = s /\ stray l
    end) S.
Proof.
  intros Hm Hp. unfold stop_step. rewrite bool_decide_true by done.
  eapply wp_seq; [apply Hm|]. intros r S' (l & HS & Hr).
  destruct r; apply wp_ret; by exists l.
Qed.

Lemma stop_step_spec P phase next m k s0 s S0 S :
  stop_so_far s0 S0 s S -> exchange P m -> stop_script !! stop_index phase = Some P ->
  stop_index next = Datatypes.S (stop_index phase) -> next <> AppleAgxRtkitStopComplete ->
  (stop_index phase <= stop_index (StopPhase s))%nat ->
  (forall s S, stop_so_far s0 S0 s S -> (stop_index next <= stop_index (StopPhase s))%nat ->
    wp (k s) (fun r S' => stopped s0 S0 r.1 r.2 S') S) ->
  wp (stop_then (stop_step phase next m s) k) (fun r S' => stopped s0 S0 r.1 r.2 S') S.
Proof.
  intros Hs Hm HP Hnext Hcomplete Hle Hk. destruct (decide (StopPhase s = phase)) as [Hp|Hp].
  2: { unfold stop_step. rewrite bool_decide_false by done.
       apply (Hk s S); [done|]. rewrite Hnext.
       enough (stop_index phase <> stop_index (StopPhase s)) by lia.
       intros E. by apply stop_index_inj in E. }
  destruct Hs as (l & HS & Hl & Es & Hn).
  eapply wp_seq; [by apply (stop_step_exchange P)|].
  intros [r s1] S1 (l' & H1 & Hr). cbn [fst snd] in *.
  assert (passes (l ++ l') S0 S1) as H01 by by eapply passes_trans.
  assert (stray l' /\ s1 = s -> stopped s0 S0 r s1 S1 \/ r = AppleAgxRtkitSessionResultOk) as Hno.
  { intros [? ->]. destruct r; [by right|..]; left; exists l, l'; split_and!; done. }
  destruct r; [destruct Hr as (-> & g & -> & Hg); apply Hk
    |by apply wp_ret; destruct (Hno (conj (proj2 Hr) (proj1 Hr)))..].
  - exists (l ++ [g]). split; [done|]. split; [|split; [by rewrite Es|done]].
    cbn [StopPhase set_field eta_expand session_eta].
    rewrite Hnext, <- Hp in *. by eapply advances_snoc.
  - done.
Qed.

(** A running coprocessor whose boot is done is stopped by the script. *)
Lemma stop_spec fuel s D S :
  D < limit -> (patience < fuel)%nat -> Running s = true ->
  AppleAgxRtkitBootIsReady (Some (Boot_ s)) = true -> StopPhase s <> AppleAgxRtkitStopComplete ->
  wp (AppleAgxRtkitSessionStop fuel (Some s) Io D) (fun r S' =>
    exists s', r.2 = Some s' /\ stopped s S r.1 s' S') S.
Proof.
  intros HD Hfuel Hr Hb Hc. unfold AppleAgxRtkitSessionStop. cbn [is_null].
  rewrite Hr, Hb, bool_decide_false by done. cbn [negb].
  eapply (wp_seq _ _ (fun r S' => stopped s S r.1 r.2 S'));
    [|intros [r s'] S' H; apply wp_ret; by exists s'].
  assert (stop_so_far s S s S) as H0.
  { exists []. split; [apply passes_refl|]. split; [constructor|]. split; [by destruct s|done]. }
  eapply stop_step_spec; [exact H0|by apply request_exchange|done..|simpl; lia|].
  intros s1 S1 H1 Hi1.
  eapply stop_step_spec; [exact H1|by apply wait_exchange|done..|].
  intros s2 S2 H2 Hi2.
  eapply stop_step_spec; [exact H2|by apply request_exchange|done..|].
  intros s3 S3 H3 Hi3.
  eapply stop_step_spec; [exact H3|by apply wait_exchange|done..|].
  intros s4 S4 (l & HS & Hl & Es & Hn) Hi4. cbn [stop_index] in Hi4.
  assert (StopPhase s4 = AppleAgxRtkitStopIopAcknowledged) as Hp
    by (destruct (StopPhase s4); simpl in Hi4; (lia || done)).
  eapply wp_seq; [by apply (set_run_spec io limit within patience false)|]. intros a S5 H5.
  destruct (decide (a = AppleAgxAscResultOk)) as [->|Ha].
  - apply wp_ret. exists (l ++ [Run false]), []. rewrite app_nil_r.
    split; [by eapply passes_trans|]. split; [|split; [done|]].
    + cbn [fst snd StopPhase set_field eta_expand session_eta stop_index].
      rewrite Hp in Hl. by eapply advances_snoc.
    + cbn [snd]. rewrite Es. done.
  - assert (stopped s S AppleAgxRtkitSessionResultCleanupFailed s4 S5) as H.
    { exists l, []. split; [rewrite app_nil_r; eapply passes_quiet_r; [done|by destruct a]|].
      split; [done|]. split; [by left|done]. }
    destruct a; try done; by apply wp_ret.
Qed.

Lemma stopped_good s r s' S S' :
  good s S.2 -> Running s = true -> AppleAgxRtkitBootIsReady (Some (Boot_ s)) = true ->
  stopped s S r s' S' ->
  good s' S'.2 /\ Running s' = bool_decide (r <> AppleAgxRtkitSessionResultOk).
Proof.
  intros G Hr Hb (l & l' & HS & Hl & H).
  destruct (good_steady s S.2 G) as (Hw & Ha & Hc). pose proof (good_fair s S.2 G) as Hfair.
  destruct (decide (r = AppleAgxRtkitSessionResultOk)) as [->|Hok].
  - destruct H as [-> ->]. rewrite app_nil_r in HS. split; [|done].
    apply (good_stopped _ l S); [done|done| |done|by right|].
    + split_and!; [by apply boot_initialized_wf|done..].
    + rewrite powered_app. apply (advances_off _ _ _ _ Hl); [done|].
      cbn [StopPhase set_field eta_expand session_eta stop_index].
      assert (StopPhase s <> AppleAgxRtkitStopComplete) as Hn.
      { intros E. by rewrite (good_complete s S.2 G E) in Hr. }
      destruct (StopPhase s); simpl; (lia || done).
  - rewrite bool_decide_true by done.
    assert (stray l' /\ s' = s <| StopPhase := StopPhase s' |> /\
      StopPhase s' <> AppleAgxRtkitStopComplete) as (Hs & Es & Hn) by by destruct r.
    assert (Forall no_run (l ++ l')) as Hno.
    { apply Forall_app. split.
      - apply (advances_no_run _ _ _ Hl). destruct (StopPhase s'); simpl; (lia || done).
      - destruct Hs as [->|(p & e & ->)]; by repeat constructor. }
    destruct HS as [HL HF].
    assert (Running s' = true) as Hr' by by rewrite Es.
    split; [|done]. split; try done.
    + by rewrite Es.
    + by rewrite Hr', HL, powered_app, power_quiet, <- (good_power s S.2 G).
    + by rewrite HF.
    + by rewrite Hr'.
    + intros _ _. by rewrite Es.
Qed.

(** Every stop: nothing to do, the script, or the hard way. *)
Lemma stop_life fuel s D S :
  D < limit -> (patience < fuel)%nat -> good s S.2 ->
  wp (AppleAgxRtkitSessionStop fuel (Some s) Io D) (fun r S' =>
    exists s', r.2 = Some s' /\ good s' S'.2 /\
      (r.1 = AppleAgxRtkitSessionResultOk -> Running s' = false)) S.
Proof.
  intros HD Hfuel G. destruct (Running s) eqn:Hr.
  2: { unfold AppleAgxRtkitSessionStop. cbn [is_null]. rewrite Hr. apply wp_ret. by exists s. }
  destruct (AppleAgxRtkitBootIsReady (Some (Boot_ s))) eqn:Hb.
  - assert (StopPhase s <> AppleAgxRtkitStopComplete) as Hn.
    { intros E. by rewrite (good_complete s S.2 G E) in Hr. }
    eapply wp_mono; [by apply stop_spec|]. intros r S' (s' & Es & H).
    destruct (stopped_good s r.1 s' S S' G Hr Hb H) as [G' Hoff]. exists s'. split; [done|].
    split; [done|]. intros E. by rewrite Hoff, E.
  - unfold AppleAgxRtkitSessionStop. cbn [is_null]. rewrite Hr, Hb. cbn [negb].
    assert (StopPhase s = AppleAgxRtkitStopIdle) as Hi.
    { destruct (decide (StopPhase s = AppleAgxRtkitStopIdle)); [done|].
      by rewrite (good_stopping s S.2 G) in Hb. }
    eapply wp_seq; [apply (force_off_good s AppleAgxRtkitSessionResultOk [] S S);
      auto; try apply G; [apply passes_refl|by rewrite app_nil_r, <- (good_power s S.2 G)]|].
    intros [r s'] S' [G' Hout]. apply wp_ret. exists s'. split; [done|]. split; [done|].
    cbn [fst snd] in *. intros ->. by destruct Hout as [[_ ?]|[? _]].
Qed.

(** ** The heartbeat *)

Definition pong (w : Z * Z) : bool :=
  (w.2 =? 0) && decodes_type w.1 AppleAgxRtkitManagementPong.

(** What passes in a heartbeat that ends with a result. *)
Definition beat (r : RESULT) (l : list signal) : Prop :=
  match r with
  | AppleAgxRtkitSessionResultOk => exists ws w,
      l = Send AppleAgxRtkitPing 0 :: recvs (ws ++ [w]) /\
      Forall benign ws /\ Forall (fun w => pong w = false) ws /\ pong w = true
  | AppleAgxRtkitSessionResultProtocolViolation => exists ws w,
      l = Send AppleAgxRtkitPing 0 :: recvs (ws ++ [w]) /\
      Forall benign ws /\ Forall (fun w => pong w = false) ws /\ benign w = false
  | AppleAgxRtkitSessionResultInvalidState => l = []
  | _ => transport_result r /\ (l = [] \/ exists ws,
      l = Send AppleAgxRtkitPing 0 :: recvs ws /\
      Forall benign ws /\ Forall (fun w => pong w = false) ws)
  end.

Lemma beat_no_run r l : beat r l -> Forall no_run l.
Proof.
  assert (forall ws, Forall no_run (Send AppleAgxRtkitPing 0 :: recvs ws)) as H
    by (intros ws; constructor; [done|apply recvs_no_run]).
  destruct r; cbn [beat];
    first [by intros (ws & w & -> & _)|by intros [_ [->|(ws & -> & _)]]|by intros ->].
Qed.

(** A heartbeat that is waiting: only wake-ups have come in. *)
Definition waiting s S s' S' : Prop := exists ws,
  passes (Send AppleAgxRtkitPing 0 :: recvs ws) S S' /\ kept s s' /\ Forall benign ws /\
  Forall (fun w => pong w = false) ws.

Lemma heartbeat_round_spec fuel s0 S0 s D S :
  D < limit -> (patience < fuel)%nat -> waiting s0 S0 s S ->
  wp (heartbeat_round fuel Io D s) (fun r S' =>
    match r with
    | inl s' => waiting s0 S0 s' S' /\ (within S'.1 < within S.1)%nat
    | inr (x, s') => kept s0 s' /\ exists l, passes l S0 S' /\ beat x l
    end) S.
Proof.
  intros HD Hfuel (ws & HS & Hk & Hws & Hnp).
  eapply wp_seq; [by eapply (receive_spec io limit within patience)|].
  intros [a p] S1 [(m & Ep & H1 & Hty) Hlt]. cbn [fst snd] in *. subst p.
  destruct (decide (a = AppleAgxAscResultOk)) as [->|Ha].
  - specialize (Hlt eq_refl). cbn [AppleAgxRtkitSessionAscResult default from_option id if_ok] in *.
    set (w := (am_Payload m, am_Endpoint m)).
    assert (passes (Send AppleAgxRtkitPing 0 :: recvs (ws ++ [w])) S0 S1) as H01.
    { rewrite recvs_app. by apply (passes_trans (_ :: recvs ws) _ _ S). }
    assert (kept s0 (note_received s m)) as Hk1
      by (eapply kept_trans; [done|apply note_received_kept]).
    change (_ && decodes_type _ _) with (pong w). rewrite event_wake_spec.
    destruct (pong w) eqn:Epong; [apply wp_ret; split; [done|]; eexists; split; [done|]; by exists ws, w|].
    assert (benign w = (am_Endpoint m =? 0x20) && ((am_Payload m / 2 ^ 48) mod 2 ^ 16 =? 0x42))
      as Eb by (unfold benign; change (_ && decodes_type _ _) with (pong w); by rewrite Epong, orb_false_r).
    rewrite <- Eb. destruct (benign w) eqn:Ew; cbn [negb]; apply wp_ret.
    + split; [|done]. exists (ws ++ [w]). split; [done|]. split; [done|].
      split; apply Forall_app; (split; [done|]); constructor; rewrite ?Ew; done.
    + split; [done|]. eexists. split; [done|]. by exists ws, w.
  - assert (passes [] S S1) as H1' by by destruct a.
    assert (wp (s ← AppleAgxRtkitSessionCaptureFailureMailbox s Io;
        mret (inr (AppleAgxRtkitSessionAscResult a, s) : SESSION + RESULT * SESSION))
      (fun r S' => match r with
       | inl s' => waiting s0 S0 s' S' /\ (within S'.1 < within S.1)%nat
       | inr (x, s') => kept s0 s' /\ exists l, passes l S0 S' /\ beat x l end) S1) as H.
    { eapply wp_seq; [by apply (capture_spec io limit within patience)|].
      intros s' S2 [Hs H2]. destruct (sampled_kept s s' Hs) as [Hk' _]. apply wp_ret.
      split; [by eapply kept_trans|]. exists (Send AppleAgxRtkitPing 0 :: recvs ws).
      split; [eapply passes_quiet_r; [done|by eapply passes_quiet_l]|].
      destruct (transport_failure a Ha) as (_ & _ & Ht). destruct a; try done; by split; [|right; exists ws]. }
    by destruct a.
Qed.

Lemma heartbeat_spec fuel s D S :
  D < limit -> (patience < fuel)%nat ->
  wp (AppleAgxRtkitSessionHeartbeat fuel (Some s) Io D) (fun r S' =>
    exists s', r.2 = Some s' /\ kept s s' /\ exists l, passes l S S' /\ beat r.1 l) S.
Proof.
  intros HD Hfuel. unfold AppleAgxRtkitSessionHeartbeat. cbn [is_null].
  destruct (_ || _ || _ || _).
  { apply wp_ret. exists s. split; [done|]. split; [apply kept_refl|]. exists [].
    by split; [apply passes_refl|]. }
  eapply wp_seq; [by eapply (send_spec io limit within patience)|]. intros a S1 [H1 Hlt].
  destruct (decide (a = AppleAgxAscResultOk)) as [->|Ha].
  - cbn [AppleAgxRtkitSessionAscResult if_ok] in *. pose proof (clock_patience S1.1) as Hp.
    eapply wp_seq; [apply (wp_iterate (fun s' S' => waiting s S s' S') (fun _ S' => within S'.1) _ _
      (fun r S' => kept s r.2 /\ exists l, passes l S S' /\ beat r.1 l))|].
    + exists []. split; [done|]. split; [apply kept_refl|]. by split.
    + lia.
    + intros s' S' H. eapply wp_mono; [by apply heartbeat_round_spec|]. by intros [?|[? ?]].
    + intros [r s'] S' [Hk Hl]. apply wp_ret. by exists s'.
  - assert (passes [] S S1) as H1' by by destruct a.
    destruct (transport_failure a Ha) as (_ & _ & Ht).
    assert (kept s s) by apply kept_refl.
    destruct a; try done; apply wp_ret; exists s; (split; [done|]); (split; [done|]); exists [];
      (split; [done|]); by split; [|left].
Qed.
End running.

End Life.
