(* ===== verification/SessionLife.v ===== *)
(** * The session as a component (shared/src/apple_agx_rtkit_session.c)

    All entry points of the session as the steps of a transition system, over any
    callbacks and any firmware, and what holds in every state it can reach. *)

From S2P Require Import Prelude Arrays Bytes Rtkit RtkitBoot Interact AscTransport GfxHandoff.
From S2P Require Import RtkitSession SessionDemo SessionTalk SessionRun.
Import Interact.

Module Whole.
Import Rtkit Boot Asc Session Talk Life.

Section whole.
Context {W : Type} (io : APPLE_AGX_ASC_IO W) (limit : Z) (within : W -> nat) (patience : nat)
  `{!Clock io limit within patience}.
Context (fuel : nat) (lock_ok : Handoff.APPLE_AGX_GFX_HANDOFF_STATE (W * mailbox) -> Prop)
  `{!Lockable limit fuel lock_ok}.
Notation St := (W * mailbox)%type.
Notation Io := (Some (watched io)).
Notation SESSION := APPLE_AGX_RTKIT_SESSION.
Notation RESULT := APPLE_AGX_RTKIT_SESSION_RESULT.
Implicit Types (S : St) (s : SESSION) (D : Z).

(** The lock a caller passes, and the callback that prepares the bootstrap. *)
Definition lock_fits (h : ptr (Handoff.APPLE_AGX_GFX_HANDOFF_STATE St)) : Prop :=
  match h with None => True | Some h => lock_ok h end.
Definition leaves_mailbox (prepare : ptr (Z -> St -> bool * St)) : Prop :=
  match prepare with
  | None => True
  | Some f => forall D S r S', f D S = (r, S') -> passes [] S S'
  end.

Inductive session_step : SESSION * St -> SESSION * St -> Prop :=
  | session_world s w w' b : session_step (s, (w, b)) (s, (w', b))
  | session_provision s S a c :
      is_u64 a -> is_u32 c ->
      session_step (s, S)
        (s <| CrashlogGpuAddress := a |> <| CrashlogCapacityBytes := c |>, S)
  | session_start s S h D r s' h' S' :
      D < limit -> lock_fits h ->
      AppleAgxRtkitSessionStartCpuAndInitializeHandoff fuel (Some s) Io h D S =
        Some ((r, Some s', h'), S') ->
      session_step (s, S) (s', S')
  | session_bootstrap s S D r s' S' :
      D < limit ->
      AppleAgxRtkitSessionCompleteManagementBootstrap fuel (Some s) Io D S =
        Some ((r, Some s'), S') ->
      session_step (s, S) (s', S')
  | session_boot s S h prepare D r s' h' S' :
      D < limit -> lock_fits h -> leaves_mailbox prepare ->
      AppleAgxRtkitSessionBoot fuel (Some s) Io h prepare D S = Some ((r, Some s', h'), S') ->
      session_step (s, S) (s', S')
  | session_drain s S Max n r s' n' S' :
      0 <= Max ->
      AppleAgxRtkitSessionDrainRuntime (Some s) Io Max (Some n) S =
        Some ((r, Some s', n'), S') ->
      session_step (s, S) (s', S')
  | session_heartbeat s S D r s' S' :
      D < limit ->
      AppleAgxRtkitSessionHeartbeat fuel (Some s) Io D S = Some ((r, Some s'), S') ->
      session_step (s, S) (s', S')
  | session_stop s S D r s' S' :
      D < limit ->
      AppleAgxRtkitSessionStop fuel (Some s) Io D S = Some ((r, Some s'), S') ->
      session_step (s, S) (s', S').

(** Initialised over any memory, before any signal has passed. *)
Definition session_initial (p : SESSION * St) : Prop :=
  (exists s, zlen (EndpointMap_ (Boot_ s)) = 8 /\
     AppleAgxRtkitSessionInitialize (Some s) = Some p.1) /\
  mb_log p.2.2 = [] /\ mb_abused p.2.2 = false.

Lemma initial_good p : session_initial p -> good p.1 p.2.2.
Proof.
  intros [(s & Hm & [= E]) [Hl Hf]]. rewrite <- E. split; rewrite ?Hl; try done.
  - split_and!; try done. apply boot_wf_initial. exists (Boot_ s). split; [done|].
    unfold boot_initialized, AppleAgxRtkitBootInitialize. done.
  - by left.
Qed.

Hypothesis Hfuel : (patience < fuel)%nat.

(** A call that returns has the postcondition it was proved to have. *)
Lemma returned {A} (m : M St A) (Q : A -> St -> Prop) S a S' :
  wp m Q S -> m S = Some (a, S') -> Q a S'.
Proof. unfold wp. intros H E. by rewrite E in H. Qed.

Lemma step_good p p' : good p.1 p.2.2 -> session_step p p' -> good p'.1 p'.2.2.
Proof.
  intros G Hstep. destruct Hstep as [s w w' b|s S a c Ha Hc|s S h D r s' h' S' HD Hh E
    |s S D r s' S' HD E|s S h f D r s' h' S' HD Hh Hf E|s S Max n r s' n' S' HM E
    |s S D r s' S' HD E|s S D r s' S' HD E]; cbn [fst snd] in *.
  - exact G.
  - destruct (good_steady s S.2 G) as (Hw & _ & _).
    eapply good_same; [exact G|apply passes_refl|by constructor|by split_and!|done..].
  - destruct (returned _ _ _ _ _ (start_spec io limit within patience fuel lock_ok s h D S
      _ HD Hfuel G Hh) E) as (s1 & Es & [G' _] & _). by injection Es as ->.
  - destruct (returned _ _ _ _ _ (bootstrap_life io limit within patience fuel s D S
      HD Hfuel G) E) as (s1 & Es & [G' _]). by injection Es as ->.
  - destruct (returned _ _ _ _ _ (boot_spec io limit within patience fuel lock_ok s h f D S
      _ HD Hfuel G Hh Hf) E) as (s1 & Es & [G' _]). by injection Es as ->.
  - destruct (returned _ _ _ _ _ (drain_spec io limit within patience s n Max S HM) E)
      as [(x & Er & _ & ->)|(x & s1 & n1 & Er & ws & _ & _ & Hk & HS & _)].
    + by injection Er as _ -> _.
    + injection Er as _ -> _. eapply good_kept; eauto. apply recvs_no_run.
  - destruct (returned _ _ _ _ _ (heartbeat_spec io limit within patience fuel s D S
      HD Hfuel) E) as (s1 & Es & Hk & l & HS & Hb). injection Es as ->.
    eapply good_kept; eauto. by eapply beat_no_run.
  - destruct (returned _ _ _ _ _ (stop_life io limit within patience fuel s D S
      HD Hfuel G) E) as (s1 & Es & G' & _). by injection Es as ->.
Qed.

#[local] Program Instance session_component : Component (SESSION * St) := {
  comp_init := session_initial;
  comp_step := session_step;
  comp_inv := fun p => good p.1 p.2.2;
}.
Next Obligation. by apply initial_good. Qed.
Next Obligation. by eapply step_good. Qed.

(** C5: the session knows whether the coprocessor runs.  After any calls in any order,
    whatever their results, whatever the firmware and the callbacks did: the session's
    Running flag is the run bit that was last written to the control register, the inbox
    was never written when full nor the outbox read when empty, and a session that is
    not running is ready to be started again. *)
Theorem session_power_safe p :
  reachable p ->
  Running p.1 = powered (mb_log p.2.2) /\ mb_abused p.2.2 = false /\
  (Running p.1 = false -> StopPhase p.1 = AppleAgxRtkitStopIdle \/
     StopPhase p.1 = AppleAgxRtkitStopComplete).
Proof. intros Hr. destruct (reachable_inv p Hr). auto. Qed.

(** a boot returns and settles the power.  In any reachable state Boot returns: with
    Ok the coprocessor runs and the handshake is done, with InvalidState nothing has
    changed, with CleanupFailed it may still run, and after every other failure (no
    clock, a lock that stays taken, a preparation that fails, a protocol violation, a
    crash) it has been switched off. *)
Theorem session_boot_settles p h prepare D :
  reachable p -> D < limit -> lock_fits h -> leaves_mailbox prepare ->
  exists r s' h' S',
    AppleAgxRtkitSessionBoot fuel (Some p.1) Io h prepare D p.2 = Some ((r, Some s', h'), S') /\
    match r with
    | AppleAgxRtkitSessionResultOk | AppleAgxRtkitSessionResultCleanupFailed =>
        powered (mb_log S'.2) = true
    | AppleAgxRtkitSessionResultInvalidState => s' = p.1
    | _ => powered (mb_log S'.2) = false
    end.
Proof.
  intros Hr HD Hh Hf. pose proof (reachable_inv p Hr) as G.
  pose proof (boot_spec io limit within patience fuel lock_ok p.1 h prepare D p.2 _ HD Hfuel G
    Hh Hf) as H.
  apply wp_result in H as ([[r q] h'] & S' & E & s' & Eq & G' & Hs). cbn [fst snd] in *. subst q.
  exists r, s', h', S'. split; [done|]. rewrite <- (good_power s' S'.2 G'). by destruct r.
Qed.
End whole.

Section calls.
Context {W : Type} (io : APPLE_AGX_ASC_IO W) (limit : Z) (within : W -> nat) (patience : nat)
  `{!Clock io limit within patience}.
Notation Io := (Some (watched io)).
Implicit Types (S : W * mailbox) (s : APPLE_AGX_RTKIT_SESSION) (D : Z).

(** C35: an orderly stop can be resumed.  Stop returns, and from whatever phase earlier
    calls have reached it follows the one script: request the application processor's
    power, await its acknowledgement, request the coprocessor's power, await its
    acknowledgement, clear the run bit.  What passes is the part of the script between
    the two phases, in order, and at most one message that did not fit; so over any
    number of resumed calls each request is sent exactly once.  Ok is returned exactly
    when the script is complete. *)
Theorem session_stop_resumes fuel s D S :
  D < limit -> (patience < fuel)%nat -> Running s = true ->
  AppleAgxRtkitBootIsReady (Some (Boot_ s)) = true -> StopPhase s <> AppleAgxRtkitStopComplete ->
  exists r s' S', AppleAgxRtkitSessionStop fuel (Some s) Io D S = Some ((r, Some s'), S') /\
    stopped s S r s' S'.
Proof.
  intros HD Hfuel Hr Hb Hc.
  pose proof (stop_spec io limit within patience fuel s D S HD Hfuel Hr Hb Hc) as H.
  apply wp_result in H as ([r q] & S' & E & s' & Eq & H). cbn [fst snd] in *. subst q. eauto.
Qed.

(** C36: servicing the mailbox.  DrainRuntime returns without waiting.  Unless it is refused
    with nothing done, the count it gives is the number of messages taken from the
    mailbox, at most the number allowed; nothing is sent; every message but the last was
    expected; the firmware's crash is reported, and remembered, exactly when the last one
    is the signal that the granted crash-log buffer has been filled, and a violation
    exactly when it is anything else that is not expected. *)
Theorem session_drain_bounded s n Max S :
  0 <= Max ->
  exists x s' n' S', AppleAgxRtkitSessionDrainRuntime (Some s) Io Max (Some n) S =
      Some ((x, Some s', Some n'), S') /\
    (drain_refused s x /\ s' = s /\ n' = 0 /\ S' = S \/ finished s S Max (x, s', n') S').
Proof.
  intros HM. pose proof (drain_spec io limit within patience s n Max S HM) as H.
  apply wp_result in H as (r & S' & E & [(x & -> & Hx & ->)|(x & s' & n' & -> & H)]); eauto 10.
Qed.

(** a heartbeat.  Heartbeat returns; it sends one ping, and Ok means that a pong came in
    after nothing but wake-ups of events. *)
Theorem session_heartbeat_exact fuel s D S :
  D < limit -> (patience < fuel)%nat ->
  exists r s' S' l, AppleAgxRtkitSessionHeartbeat fuel (Some s) Io D S = Some ((r, Some s'), S') /\
    passes l S S' /\ beat r l.
Proof.
  intros HD Hfuel. pose proof (heartbeat_spec io limit within patience fuel s D S HD Hfuel) as H.
  apply wp_result in H as ([r q] & S' & E & s' & Eq & _ & l & HS & Hb). cbn [fst snd] in *.
  subst q. eauto 10.
Qed.
End calls.

(** ** A life *)

#[local] Existing Instance Demo.demo_clock.

Definition no_lock (h : Handoff.APPLE_AGX_GFX_HANDOFF_STATE (Demo.demo * mailbox)) : Prop := False.
#[local] Instance no_lockable : Lockable Demo.demo_limit 101 no_lock.
Proof. by intros h D S _ []. Qed.

Lemma demo_patient : (100 < 101)%nat.
Proof. lia. Qed.
Notation demo_reachable := (reachable (H := session_component Demo.demo_io Demo.demo_limit
  Demo.demo_within 100 101 no_lock demo_patient)).

(** Initialised, provisioned, and booted with a firmware that plays its part. *)
Definition demo_new : APPLE_AGX_RTKIT_SESSION :=
  default demo_raw (AppleAgxRtkitSessionInitialize (Some demo_raw)).
Notation demo_boot_run := (AppleAgxRtkitSessionBoot 101 (Some demo_session)
  (Some (watched Demo.demo_io)) NULL NULL 50 (Demo.demo_world 0 Demo.demo_boot)).
Definition demo_booted : APPLE_AGX_RTKIT_SESSION :=
  default demo_session (default NULL ((fun p => p.1.1.2) <$> demo_boot_run)).

Lemma demo_booted_ready :
  Running demo_booted = true /\ CpuReady demo_booted = true /\
  AppleAgxRtkitBootIsReady (Some (Boot_ demo_booted)) = true /\
  StopPhase demo_booted = AppleAgxRtkitStopIdle /\ CrashlogCrashed demo_booted = false.
Proof. by vm_compute. Qed.

(** What comes in while the coprocessor is stopped. *)
Definition demo_acks : list (Z * Z) :=
  [(Rtkit.management_word (Rtkit.SetApPower 0x10), 0);
   (Rtkit.management_word (Rtkit.IopPowerAck 0x10), 0)].

Example demo_stop_log :
  (fun p => (p.1.1, mb_log p.2.2)) <$> AppleAgxRtkitSessionStop 101 (Some demo_booted)
      (Some (watched Demo.demo_io)) 50 (Demo.demo_world 16 demo_acks) =
  Some (AppleAgxRtkitSessionResultOk,
    [Send (AppleAgxRtkitSetApPower 0x10) 0; Recv (Rtkit.management_word (Rtkit.SetApPower 0x10)) 0;
     Send (AppleAgxRtkitSetIopPower 0x10) 0; Recv (Rtkit.management_word (Rtkit.IopPowerAck 0x10)) 0;
     Run false]).
Proof. by vm_compute. Qed.

Lemma session_stop_resumes_witness :
  exists r s' S', AppleAgxRtkitSessionStop 101 (Some demo_booted) (Some (watched Demo.demo_io)) 50
      (Demo.demo_world 16 demo_acks) = Some ((r, Some s'), S') /\
    stopped demo_booted (Demo.demo_world 16 demo_acks) r s' S'.
Proof.
  destruct demo_booted_ready as (Hr & _ & Hb & Hi & _).
  refine (session_stop_resumes Demo.demo_io Demo.demo_limit Demo.demo_within 100 101 demo_booted 50
    (Demo.demo_world 16 demo_acks) ltac:(done) ltac:(lia) Hr Hb _).
  by rewrite Hi.
Defined.

Lemma session_drain_bounded_witness :
  exists x s' n' S', AppleAgxRtkitSessionDrainRuntime (Some demo_booted)
      (Some (watched Demo.demo_io)) 64 (Some 9) (Demo.demo_world 16 [(2 ^ 52, 1)]) =
      Some ((x, Some s', Some n'), S') /\
    (drain_refused demo_booted x /\ s' = demo_booted /\ n' = 0 /\
       S' = Demo.demo_world 16 [(2 ^ 52, 1)] \/
     finished demo_booted (Demo.demo_world 16 [(2 ^ 52, 1)]) 64 (x, s', n') S').
Proof.
  exact (session_drain_bounded Demo.demo_io Demo.demo_limit Demo.demo_within 100 demo_booted 9 64
    (Demo.demo_world 16 [(2 ^ 52, 1)]) ltac:(done)).
Defined.

Lemma session_heartbeat_exact_witness :
  exists r s' S' l, AppleAgxRtkitSessionHeartbeat 101 (Some demo_booted)
      (Some (watched Demo.demo_io)) 50 (Demo.demo_world 16 [(Rtkit.management_word Rtkit.Pong, 0)]) =
      Some ((r, Some s'), S') /\
    passes l (Demo.demo_world 16 [(Rtkit.management_word Rtkit.Pong, 0)]) S' /\ beat r l.
Proof.
  exact (session_heartbeat_exact Demo.demo_io Demo.demo_limit Demo.demo_within 100 101 demo_booted
    50 (Demo.demo_world 16 [(Rtkit.management_word Rtkit.Pong, 0)]) ltac:(done) ltac:(lia)).
Defined.

Lemma demo_provisioned S :
  mb_log S.2 = [] -> mb_abused S.2 = false -> demo_reachable (demo_session, S).
Proof.
  intros Hl Ha. exists (demo_new, S). split.
  - split; [|by split]. by exists demo_raw.
  - apply rtc_once. by apply session_provision.
Qed.

Lemma demo_boot_returns :
  (fun p => bool_decide (is_Some p.1.1.2)) <$> demo_boot_run = Some true.
Proof. by vm_compute. Qed.

Lemma session_power_safe_witness :
  exists r s' h' S', demo_boot_run = Some ((r, Some s', h'), S') /\
    Running s' = powered (mb_log S'.2) /\ mb_abused S'.2 = false /\
    (Running s' = false -> StopPhase s' = AppleAgxRtkitStopIdle \/
       StopPhase s' = AppleAgxRtkitStopComplete).
Proof.
  destruct demo_boot_run as [[[[r [s'|]] h'] S']|] eqn:E.
  2: by pose proof demo_boot_returns as H; rewrite E in H.
  2: by pose proof demo_boot_returns as H; rewrite E in H.
  exists r, s', h', S'. split; [done|].
  apply (session_power_safe Demo.demo_io Demo.demo_limit Demo.demo_within 100 101 no_lock
    demo_patient (s', S')).
  apply (reachable_step (H := session_component Demo.demo_io Demo.demo_limit Demo.demo_within 100
    101 no_lock demo_patient) (demo_session, Demo.demo_world 0 Demo.demo_boot));
    [by apply demo_provisioned|].
  exact (session_boot Demo.demo_io Demo.demo_limit 101 no_lock demo_session _ NULL NULL 50 r s' h'
    S' eq_refl I I E).
Defined.

Lemma session_boot_settles_witness :
  exists r s' h' S', demo_boot_run = Some ((r, Some s', h'), S') /\
    match r with
    | AppleAgxRtkitSessionResultOk | AppleAgxRtkitSessionResultCleanupFailed =>
        powered (mb_log S'.2) = true
    | AppleAgxRtkitSessionResultInvalidState => s' = demo_session
    | _ => powered (mb_log S'.2) = false
    end.
Proof.
  apply (session_boot_settles Demo.demo_io Demo.demo_limit Demo.demo_within 100 101 no_lock
    demo_patient (demo_session, Demo.demo_world 0 Demo.demo_boot) NULL NULL 50).
  - by apply demo_provisioned.
  - done.
  - done.
  - done.
Defined.

End Whole.
