(* ===== verification/QueueRuntime.v ===== *)
(** * The runtime of the work queues (shared/src/apple_agx_g13_queue_runtime.c)

    [Queue] submits a job to the firmware: it puts the job's work items and their ring
    entries in memory, moves the write pointers, sends the run messages, and then waits
    for events until every queue of the job is done.  The platform's callbacks are an
    argument and may answer anything; memory that the driver writes itself is a map from
    addresses to bytes, next to the rest of the world.  The theorems are in QueueScript.v
    and QueueLife.v. *)

From S2P Require Import Prelude Arrays Bytes G13Codec Interact.
Import Interact.

Module Queue.

(** ** Memory *)

Definition ram : Type := Z -> Z.
Definition store8 (address v : Z) (m : ram) : ram := fun a => if a =? address then u8 v else m a.
Definition store64 (address v : Z) (m : ram) : ram :=
  for_range 0 8 (fun i => store8 (address + i) (Z.shiftr v (8 * i))) m.

(** ** Data *)

Definition APPLE_AGX_BACKEND_QUEUE_WORK_COUNT : Z := 2.
Definition APPLE_AGX_G13_QUEUE_PUBLISH_MAX : Z := APPLE_AGX_BACKEND_QUEUE_WORK_COUNT + 1.

Inductive APPLE_AGX_G13_QUEUE_RUNTIME_PHASE :=
  | AppleAgxG13QueueRuntimeReady
  | AppleAgxG13QueueRuntimeComputeSubmitted
  | AppleAgxG13QueueRuntimeComputeComplete
  | AppleAgxG13QueueRuntimeSubmitted
  | AppleAgxG13QueueRuntimeCompletionPending
  | AppleAgxG13QueueRuntimeFaulted.
#[export] Instance runtime_phase_eq_dec : EqDecision APPLE_AGX_G13_QUEUE_RUNTIME_PHASE.
Proof. solve_decision. Defined.

Inductive APPLE_AGX_G13_QUEUE_RUNTIME_RESULT :=
  | AppleAgxG13QueueRuntimeResultOk
  | AppleAgxG13QueueRuntimeResultInvalidArgument
  | AppleAgxG13QueueRuntimeResultInvalidState
  | AppleAgxG13QueueRuntimeResultBusy
  | AppleAgxG13QueueRuntimeResultMemoryFailed
  | AppleAgxG13QueueRuntimeResultTransportFailed
  | AppleAgxG13QueueRuntimeResultFaulted
  | AppleAgxG13QueueRuntimeResultTimedOut
  | AppleAgxG13QueueRuntimeResultCancelled
  | AppleAgxG13QueueRuntimeResultResetFailed.
#[export] Instance runtime_result_eq_dec : EqDecision APPLE_AGX_G13_QUEUE_RUNTIME_RESULT.
Proof. solve_decision. Defined.

Inductive APPLE_AGX_G13_QUEUE_COMPLETION_STATUS :=
  | AppleAgxG13QueueCompletionSuccess
  | AppleAgxG13QueueCompletionFaulted
  | AppleAgxG13QueueCompletionTimedOut
  | AppleAgxG13QueueCompletionCancelled
  | AppleAgxG13QueueCompletionRecovered.
#[export] Instance completion_status_eq_dec : EqDecision APPLE_AGX_G13_QUEUE_COMPLETION_STATUS.
Proof. solve_decision. Defined.

Record APPLE_AGX_G13_QUEUE_BINDING := {
  QueueType : Z;
  QueueInfoGpuAddress : Z;
  RingCpuAddress : ptr Z;
  RingCapacity : Z;
  CpuWritePointer : ptr Z;
  GpuDonePointer : ptr Z;
  Stamp : ptr Z;
  EventNumber : Z;
}.

Record APPLE_AGX_G13_QUEUE_RUNTIME_CONFIG := {
  cfg_Ta : APPLE_AGX_G13_QUEUE_BINDING;
  cfg_D3 : APPLE_AGX_G13_QUEUE_BINDING;
  cfg_Compute : APPLE_AGX_G13_QUEUE_BINDING;
  HasCompute : bool;
  TimeoutTicks : Z;
}.

(** The callbacks, over the world and the memory.  A read gets the old contents of the
    place it is to fill and returns the new ones, whether it succeeds or not. *)
Record APPLE_AGX_G13_QUEUE_RUNTIME_IO (W : Type) := {
  FlushForDevice : ptr (ptr Z -> Z -> W * ram -> bool * (W * ram));
  MemoryBarrier : ptr (W * ram -> W * ram);
  PublishU32 : ptr (ptr Z -> Z -> W * ram -> bool * (W * ram));
  ReadU32 : ptr (ptr Z -> Z -> W * ram -> (bool * Z) * (W * ram));
  SendRunMessage : ptr (Z -> list Z -> W * ram -> bool * (W * ram));
  Quiesce : ptr (Z -> W * ram -> bool * (W * ram));
  Recover : ptr (Z -> Z -> W * ram -> bool * (W * ram));
}.
Arguments FlushForDevice {W} _.
Arguments MemoryBarrier {W} _.
Arguments PublishU32 {W} _.
Arguments ReadU32 {W} _.
Arguments SendRunMessage {W} _.
Arguments Quiesce {W} _.
Arguments Recover {W} _.

(** [PreparedRanges[i]]. *)
Record prepared_range := { rng_Address : ptr Z; rng_Bytes : Z }.
#[export] Instance prepared_range_inhabited : Inhabited prepared_range :=
  populate {| rng_Address := NULL; rng_Bytes := 0 |}.

Record APPLE_AGX_G13_WORK_PUBLICATION := {
  PreparedRanges : list prepared_range;
  PreparedRangeCount : Z;
  Source : ptr Z;
  Destination : ptr Z;
  Bytes_ : Z;
  GpuAddresses : list Z;
  GpuAddressCount : Z;
  wp_ExpectedStamp : Z;
}.

Record APPLE_AGX_G13_QUEUE_RUNTIME_SUBMISSION := {
  sub_Fence : Z;
  sub_Timestamp : Z;
  NowTicks : Z;
  sub_Ta : APPLE_AGX_G13_WORK_PUBLICATION;
  sub_D3 : APPLE_AGX_G13_WORK_PUBLICATION;
  sub_Compute : APPLE_AGX_G13_WORK_PUBLICATION;
  ComputeOnly : bool;
  TaLeadingBarrier : bool;
}.

Record APPLE_AGX_G13_QUEUE_RUNTIME_COMPLETION := {
  cmp_Fence : Z;
  Status : APPLE_AGX_G13_QUEUE_COMPLETION_STATUS;
}.

Record APPLE_AGX_G13_QUEUE_PENDING := {
  pnd_EventNumber : Z;
  ExpectedStamp : Z;
  pnd_ExpectedDonePointer : Z;
  EventSeen : bool;
  Complete : bool;
}.
#[export] Instance pending_eta : Eta APPLE_AGX_G13_QUEUE_PENDING :=
  fun p => Build_APPLE_AGX_G13_QUEUE_PENDING (pnd_EventNumber p) (ExpectedStamp p)
    (pnd_ExpectedDonePointer p) (EventSeen p) (Complete p).

Record APPLE_AGX_G13_QUEUE_RUNTIME (W : Type) := {
  Phase : APPLE_AGX_G13_QUEUE_RUNTIME_PHASE;
  Config : APPLE_AGX_G13_QUEUE_RUNTIME_CONFIG;
  Io : APPLE_AGX_G13_QUEUE_RUNTIME_IO W;
  PendingFence : Z;
  DeadlineTicks : Z;
  BufferManagerInitialized : bool;
  TaFirstRun : bool;
  D3FirstRun : bool;
  ComputeFirstRun : bool;
  CompletionAvailable : bool;
  Completion : APPLE_AGX_G13_QUEUE_RUNTIME_COMPLETION;
  TaPending : APPLE_AGX_G13_QUEUE_PENDING;
  D3Pending : APPLE_AGX_G13_QUEUE_PENDING;
  ComputePending : APPLE_AGX_G13_QUEUE_PENDING;
  ComputeTerminal : bool;
  ComputeInRender : bool;
  RecoveredFaults : Z;
  LastRecoveredEventKind : Z;
  DeadlinePassed : bool;
  DeadlineExpiries : Z;
}.
Arguments Phase {W} _.
Arguments Config {W} _.
Arguments Io {W} _.
Arguments PendingFence {W} _.
Arguments DeadlineTicks {W} _.
Arguments BufferManagerInitialized {W} _.
Arguments TaFirstRun {W} _.
Arguments D3FirstRun {W} _.
Arguments ComputeFirstRun {W} _.
Arguments CompletionAvailable {W} _.
Arguments Completion {W} _.
Arguments TaPending {W} _.
Arguments D3Pending {W} _.
Arguments ComputePending {W} _.
Arguments ComputeTerminal {W} _.
Arguments ComputeInRender {W} _.
Arguments RecoveredFaults {W} _.
Arguments LastRecoveredEventKind {W} _.
Arguments DeadlinePassed {W} _.
Arguments DeadlineExpiries {W} _.
#[export] Instance runtime_eta W : Eta (APPLE_AGX_G13_QUEUE_RUNTIME W) :=
  fun r => Build_APPLE_AGX_G13_QUEUE_RUNTIME W (Phase r) (Config r) (Io r) (PendingFence r)
    (DeadlineTicks r) (BufferManagerInitialized r) (TaFirstRun r) (D3FirstRun r)
    (ComputeFirstRun r) (CompletionAvailable r) (Completion r) (TaPending r) (D3Pending r)
    (ComputePending r) (ComputeTerminal r) (ComputeInRender r) (RecoveredFaults r)
    (LastRecoveredEventKind r) (DeadlinePassed r) (DeadlineExpiries r).

Record APPLE_AGX_G13_QUEUE_BATCH_PUBLICATION := {
  RingIndices : list Z;
  NextWritePointer : Z;
  ExpectedDonePointer : Z;
}.
#[export] Instance batch_publication_eta : Eta APPLE_AGX_G13_QUEUE_BATCH_PUBLICATION :=
  fun p => Build_APPLE_AGX_G13_QUEUE_BATCH_PUBLICATION (RingIndices p) (NextWritePointer p)
    (ExpectedDonePointer p).

(** Local variables before the call that fills them, and zeroed structs. *)
Definition blank_publication : APPLE_AGX_G13_QUEUE_BATCH_PUBLICATION :=
  {| RingIndices := [0; 0; 0]; NextWritePointer := 0; ExpectedDonePointer := 0 |}.
Definition blank_run : G13.APPLE_AGX_G13_RUN_COMMAND :=
  G13.Build_APPLE_AGX_G13_RUN_COMMAND 0 0 0 0 0 0.
Definition blank_joined : G13.APPLE_AGX_G13_JOINED_RUN :=
  {| G13.QueueOrder := [0; 0]; G13.Messages := [[]; []] |}.
Definition blank_bytes : list Z := replicate 48 0.
Definition pending_zero : APPLE_AGX_G13_QUEUE_PENDING :=
  {| pnd_EventNumber := 0; ExpectedStamp := 0; pnd_ExpectedDonePointer := 0;
     EventSeen := false; Complete := false |}.
Definition completion_zero : APPLE_AGX_G13_QUEUE_RUNTIME_COMPLETION :=
  {| cmp_Fence := 0; Status := AppleAgxG13QueueCompletionSuccess |}.

(** ** Operations *)

Definition AppleAgxG13QueueRuntimeCopy (Destination Source_ Bytes : Z) (m : ram) : ram :=
  for_range 0 Bytes (fun index m => store8 (Destination + index) (m (Source_ + index)) m) m.

Definition AppleAgxG13QueueBindingValid (Queue : ptr APPLE_AGX_G13_QUEUE_BINDING)
    (ExpectedType : Z) : bool :=
  deref q := Queue else false in
  (QueueType q =? ExpectedType) && negb (QueueInfoGpuAddress q =? 0) &&
  (Z.land (QueueInfoGpuAddress q) 7 =? 0) && negb (is_null (RingCpuAddress q)) &&
  (APPLE_AGX_BACKEND_QUEUE_WORK_COUNT <? RingCapacity q) &&
  (RingCapacity q <=? G13.APPLE_AGX_G13_RING_CAPACITY) &&
  negb (is_null (CpuWritePointer q)) && negb (is_null (GpuDonePointer q)) &&
  negb (is_null (Stamp q)) && (EventNumber q <? G13.APPLE_AGX_G13_EVENT_COUNT).

Definition AppleAgxG13WorkValid (Work : ptr APPLE_AGX_G13_WORK_PUBLICATION) : bool :=
  deref w := Work else false in
  if (GpuAddressCount w =? 0) || (APPLE_AGX_G13_QUEUE_PUBLISH_MAX <? GpuAddressCount w) ||
     (wp_ExpectedStamp w =? 0)
  then false
  else
    let prepared := PreparedRangeCount w =? GpuAddressCount w in
    let legacy := (PreparedRangeCount w =? 0) && negb (is_null (Source w)) &&
                  negb (is_null (Destination w)) && negb (Bytes_ w =? 0) in
    if negb prepared && negb legacy then false
    else
      match find_range 0 (GpuAddressCount w) (fun index =>
        ((GpuAddresses w) .[ index ] =? 0) ||
        negb (Z.land (GpuAddresses w) .[ index ] 0x1f =? 0) ||
        (prepared &&
         (is_null (rng_Address (PreparedRanges w) .[ index ]) ||
          (rng_Bytes (PreparedRanges w) .[ index ] =? 0))))
      with Some _ => false | None => true end.

Section operations.
Context {W : Type}.
Notation RT := (APPLE_AGX_G13_QUEUE_RUNTIME W).
Notation RESULT := APPLE_AGX_G13_QUEUE_RUNTIME_RESULT.
Notation IO := (APPLE_AGX_G13_QUEUE_RUNTIME_IO W).
Notation C := (M (W * ram)).
Implicit Types (io : IO).

Definition AppleAgxG13QueueIoValid (Io_ : ptr IO) : bool :=
  deref io := Io_ else false in
  negb (is_null (FlushForDevice io)) && negb (is_null (MemoryBarrier io)) &&
  negb (is_null (PublishU32 io)) && negb (is_null (ReadU32 io)) &&
  negb (is_null (SendRunMessage io)) && negb (is_null (Quiesce io)).

(** [Io.FlushForDevice(Io.Context, ...)] and its siblings. *)
Definition flush io (address : ptr Z) (bytes : Z) : C bool :=
  deref f := FlushForDevice io else undefined in call (f address bytes).
Definition barrier io : C unit :=
  deref f := MemoryBarrier io else undefined in call (fun s => (tt, f s)).
Definition publish io (address : ptr Z) (v : Z) : C bool :=
  deref f := PublishU32 io else undefined in call (f address v).
Definition read_u32 io (address : ptr Z) (old : Z) : C (bool * Z) :=
  deref f := ReadU32 io else undefined in
  '(ok, v) ← call (f address old); mret (ok, u32 v).
Definition send_run io (queue : Z) (message : list Z) : C bool :=
  deref f := SendRunMessage io else undefined in call (f queue message).
Definition quiesce io (fence : Z) : C bool :=
  deref f := Quiesce io else undefined in call (f fence).

(** [&Binding->RingCpuAddress[index]] and a store to it. *)
Definition slot_address (b : APPLE_AGX_G13_QUEUE_BINDING) (index : Z) : ptr Z :=
  (fun ring => ring + 8 * index) <$> RingCpuAddress b.
Definition store_slot (b : APPLE_AGX_G13_QUEUE_BINDING) (index v : Z) : C unit :=
  deref address := slot_address b index else undefined in
  call (fun s => (tt, (s.1, store64 address v s.2))).

Definition AppleAgxG13PublishPreparedWork io (Work : APPLE_AGX_G13_WORK_PUBLICATION) : C bool :=
  if negb (PreparedRangeCount Work =? 0) then
    r ← for_each (Z.to_nat (PreparedRangeCount Work)) 0 (fun index _ =>
      ok ← flush io (rng_Address (PreparedRanges Work) .[ index ])
                    (rng_Bytes (PreparedRanges Work) .[ index ]);
      mret (if ok : bool then inl tt else inr tt)) tt;
    mret (match r with inl _ => true | inr _ => false end)
  else
    deref destination := Destination Work else undefined in
    deref source := Source Work else undefined in
    call (fun s => (tt, (s.1, AppleAgxG13QueueRuntimeCopy destination source (Bytes_ Work) s.2)));;
    flush io (Some destination) (Bytes_ Work).

Definition AppleAgxG13ClearPending (Runtime : RT) : RT :=
  Runtime <| PendingFence := 0 |> <| DeadlineTicks := 0 |> <| DeadlinePassed := false |>
    <| CompletionAvailable := false |> <| TaPending := pending_zero |>
    <| D3Pending := pending_zero |> <| ComputePending := pending_zero |>
    <| ComputeTerminal := false |> <| ComputeInRender := false |>.

(** The reads of Initialize and Reset, until one fails: the values read so far. *)
Definition read_all io (addresses : list (ptr Z)) : C (bool * list Z) :=
  r ← for_each (length addresses) 0 (fun i values =>
    '(ok, v) ← read_u32 io (default NULL (addresses !! Z.to_nat i)) 0;
    if ok : bool then mret (inl (values ++ [v])) else mret (inr tt)) [];
  mret (match r with inl values => (true, values) | inr _ => (false, []) end).

Definition runtime_zero (config : APPLE_AGX_G13_QUEUE_RUNTIME_CONFIG) io : RT := {|
  Phase := AppleAgxG13QueueRuntimeReady; Config := config; Io := io; PendingFence := 0;
  DeadlineTicks := 0; BufferManagerInitialized := false; TaFirstRun := true;
  D3FirstRun := true; ComputeFirstRun := true; CompletionAvailable := false;
  Completion := completion_zero; TaPending := pending_zero; D3Pending := pending_zero;
  ComputePending := pending_zero; ComputeTerminal := false; ComputeInRender := false;
  RecoveredFaults := 0; LastRecoveredEventKind := 0; DeadlinePassed := false;
  DeadlineExpiries := 0;
|}.

(** Initialize's check of its arguments. *)
Definition config_valid (c : APPLE_AGX_G13_QUEUE_RUNTIME_CONFIG) : bool :=
  negb (TimeoutTicks c =? 0) &&
  AppleAgxG13QueueBindingValid (Some (cfg_Ta c)) G13.AppleAgxG13QueueTa &&
  AppleAgxG13QueueBindingValid (Some (cfg_D3 c)) G13.AppleAgxG13Queue3d &&
  (negb (HasCompute c) ||
   AppleAgxG13QueueBindingValid (Some (cfg_Compute c)) G13.AppleAgxG13QueueCompute) &&
  negb (EventNumber (cfg_Ta c) =? EventNumber (cfg_D3 c)) &&
  negb (HasCompute c &&
        ((EventNumber (cfg_Compute c) =? EventNumber (cfg_Ta c)) ||
         (EventNumber (cfg_Compute c) =? EventNumber (cfg_D3 c)))).

Definition AppleAgxG13QueueRuntimeInitialize (Runtime : ptr RT)
    (Config_ : ptr APPLE_AGX_G13_QUEUE_RUNTIME_CONFIG) (Io_ : ptr IO)
    : C (RESULT * ptr RT) :=
  let invalid := mret (AppleAgxG13QueueRuntimeResultInvalidArgument, Runtime) in
  if is_null Runtime then invalid
  else deref c := Config_ else invalid in
  if negb (AppleAgxG13QueueIoValid Io_) || negb (config_valid c) then invalid
  else deref io := Io_ else invalid in
    let pointers b := [CpuWritePointer b; GpuDonePointer b] in
    '(ok, v) ← read_all io (pointers (cfg_Ta c) ++ pointers (cfg_D3 c) ++
      if HasCompute c then pointers (cfg_Compute c) else []);
    if negb ok then mret (AppleAgxG13QueueRuntimeResultTransportFailed, Runtime)
    else if (RingCapacity (cfg_Ta c) <=? v .[ 0 ]) || (RingCapacity (cfg_Ta c) <=? v .[ 1 ]) ||
            (RingCapacity (cfg_D3 c) <=? v .[ 2 ]) || (RingCapacity (cfg_D3 c) <=? v .[ 3 ]) ||
            (HasCompute c && ((RingCapacity (cfg_Compute c) <=? v .[ 4 ]) ||
                              (RingCapacity (cfg_Compute c) <=? v .[ 5 ])))
    then invalid
    else mret (AppleAgxG13QueueRuntimeResultOk, Some (runtime_zero c io)).

(** The loop of PrepareQueue: the ring indices of the entries and the pointer behind them,
    unless the ring is full. *)
Definition take_slots (capacity done count : Z) (start : list Z * Z) : option (list Z * Z) :=
  for_range 0 count (fun index st =>
    match st with
    | None => None
    | Some (indices, next) =>
        let indices := indices .[ index <- next ] in
        let next := u32 (next + 1) in
        let next := if capacity <=? next then 0 else next in
        if next =? done then None else Some (indices, next)
    end) (Some start).

Definition AppleAgxG13PrepareQueue io (Binding : APPLE_AGX_G13_QUEUE_BINDING)
    (Work : APPLE_AGX_G13_WORK_PUBLICATION) (FirstRun : bool) (Timestamp : Z)
    (Publication : APPLE_AGX_G13_QUEUE_BATCH_PUBLICATION) (Run : G13.APPLE_AGX_G13_RUN_COMMAND)
    : C (bool * APPLE_AGX_G13_QUEUE_BATCH_PUBLICATION * G13.APPLE_AGX_G13_RUN_COMMAND) :=
  '(ok, current) ← read_u32 io (CpuWritePointer Binding) 0;
  if negb ok then mret (false, Publication, Run)
  else
    '(ok, done) ← read_u32 io (GpuDonePointer Binding) 0;
    if negb ok then mret (false, Publication, Run)
    else if (RingCapacity Binding <=? current) || (RingCapacity Binding <=? done)
    then mret (false, Publication, Run)
    else
      mret (match take_slots (RingCapacity Binding) done (GpuAddressCount Work)
                    (RingIndices Publication, current) with
      | None => (false, Publication, Run)
      | Some (indices, next) =>
          (true,
           {| RingIndices := indices; NextWritePointer := next; ExpectedDonePointer := next |},
           {| G13.QueueType := QueueType Binding;
              G13.CommandQueueAddress := QueueInfoGpuAddress Binding;
              G13.Head := next;
              G13.EventNumber := EventNumber Binding;
              G13.NewQueue := if FirstRun then 1 else 0;
              G13.Timestamp := Timestamp |})
      end).

Definition AppleAgxG13SubmitFailure (Runtime : RT) (Result : RESULT) (VisibleToFirmware : bool)
    : C (RESULT * RT) :=
  if VisibleToFirmware then
    ok ← quiesce (Io Runtime) (PendingFence Runtime);
    if negb ok
    then mret (AppleAgxG13QueueRuntimeResultResetFailed,
               Runtime <| Phase := AppleAgxG13QueueRuntimeFaulted |>)
    else mret (Result, AppleAgxG13ClearPending
                         (Runtime <| Phase := AppleAgxG13QueueRuntimeFaulted |>))
  else mret (Result, AppleAgxG13ClearPending
                       (Runtime <| Phase := AppleAgxG13QueueRuntimeReady |>)).

(** A ring entry, stored and flushed. *)
Definition write_entry io (Binding : APPLE_AGX_G13_QUEUE_BINDING) (slot v : Z) : C bool :=
  store_slot Binding slot v;;
  flush io (slot_address Binding slot) G13.APPLE_AGX_G13_RING_SLOT_SIZE.

(** Writes one queue's prepared ring entries. *)
Definition AppleAgxG13WriteRing io (Binding : APPLE_AGX_G13_QUEUE_BINDING)
    (Work : APPLE_AGX_G13_WORK_PUBLICATION)
    (Publication : APPLE_AGX_G13_QUEUE_BATCH_PUBLICATION) : C bool :=
  r ← for_each (Z.to_nat (GpuAddressCount Work)) 0 (fun index _ =>
    ok ← write_entry io Binding (RingIndices Publication) .[ index ] (GpuAddresses Work) .[ index ];
    mret (if ok : bool then inl tt else inr tt)) tt;
  mret (match r with inl _ => true | inr _ => false end).

(** The message of a run command. *)
Definition encoded (run : G13.APPLE_AGX_G13_RUN_COMMAND) : bool * list Z :=
  let '(ok, m) := G13.AppleAgxG13EncodeRunCommand (Some run) (Some blank_bytes) in
  (ok, default blank_bytes m).

(** Both commands of a render. *)
Definition joined_run (d3 ta : G13.APPLE_AGX_G13_RUN_COMMAND) : bool * list (list Z) :=
  let '(ok, j) := G13.AppleAgxG13BuildJoinedRun blank_bytes (Some d3) (Some ta)
                    (Some blank_joined) in
  (ok, G13.Messages (default blank_joined j)).

(** [*->PendingFence = ...; DeadlineTicks = ...; DeadlinePassed = FALSE]. *)
Definition begin_job (Runtime : RT) (s : APPLE_AGX_G13_QUEUE_RUNTIME_SUBMISSION) : RT :=
  Runtime <| PendingFence := sub_Fence s |>
    <| DeadlineTicks := u64 (NowTicks s + TimeoutTicks (Config Runtime)) |>
    <| DeadlinePassed := false |>.

(** The three stores to a pending record. *)
Definition await (p : APPLE_AGX_G13_QUEUE_PENDING) (b : APPLE_AGX_G13_QUEUE_BINDING)
    (w : APPLE_AGX_G13_WORK_PUBLICATION) (publication : APPLE_AGX_G13_QUEUE_BATCH_PUBLICATION)
    : APPLE_AGX_G13_QUEUE_PENDING :=
  p <| pnd_EventNumber := EventNumber b |> <| ExpectedStamp := wp_ExpectedStamp w |>
    <| pnd_ExpectedDonePointer := ExpectedDonePointer publication |>.

Definition MemoryFailed : RESULT := AppleAgxG13QueueRuntimeResultMemoryFailed.
Definition TransportFailed : RESULT := AppleAgxG13QueueRuntimeResultTransportFailed.

(** What the three kinds of submission do once their job has begun: the work items are put
    in memory, then the ring entries that name them, then the write pointers become visible
    to the firmware one after the other, then the run messages are sent. *)
Fixpoint publish_works (r : RT) (works : list APPLE_AGX_G13_WORK_PUBLICATION)
    (k : C (RESULT * RT)) : C (RESULT * RT) :=
  match works with
  | [] => k
  | w :: works =>
      ok ← AppleAgxG13PublishPreparedWork (Io r) w;
      if negb ok then AppleAgxG13SubmitFailure r MemoryFailed false else publish_works r works k
  end.

Definition ring_job : Type :=
  APPLE_AGX_G13_QUEUE_BINDING * APPLE_AGX_G13_WORK_PUBLICATION *
  APPLE_AGX_G13_QUEUE_BATCH_PUBLICATION.
Fixpoint write_rings (r : RT) (rings : list ring_job) (k : C (RESULT * RT)) : C (RESULT * RT) :=
  match rings with
  | [] => k
  | (b, w, publication) :: rings =>
      ok ← AppleAgxG13WriteRing (Io r) b w publication;
      if negb ok then AppleAgxG13SubmitFailure r MemoryFailed false else write_rings r rings k
  end.
Fixpoint publish_pointers (r : RT) (visible : bool) (rings : list ring_job)
    (k : C (RESULT * RT)) : C (RESULT * RT) :=
  match rings with
  | [] => k
  | (b, _, publication) :: rings =>
      ok ← publish (Io r) (CpuWritePointer b) (NextWritePointer publication);
      if negb ok then AppleAgxG13SubmitFailure r MemoryFailed visible
      else publish_pointers r true rings k
  end.
Fixpoint send_runs (r : RT) (runs : list (Z * list Z)) (k : C (RESULT * RT))
    : C (RESULT * RT) :=
  match runs with
  | [] => k
  | (queue, message) :: runs =>
      ok ← send_run (Io r) queue message;
      if negb ok then AppleAgxG13SubmitFailure r TransportFailed true else send_runs r runs k
  end.

Definition submit_job (r : RT) (rings : list ring_job) (runs : list (Z * list Z)) (submitted : RT)
    : C (RESULT * RT) :=
  publish_works r (map (fun j => j.1.2) rings)
    (write_rings r rings
      (barrier (Io r);;
       publish_pointers r false rings
         (barrier (Io r);;
          send_runs r runs (mret (AppleAgxG13QueueRuntimeResultOk, submitted))))).

Definition compute_invalid (r : RT) (s : APPLE_AGX_G13_QUEUE_RUNTIME_SUBMISSION) : bool :=
  negb (HasCompute (Config r)) || negb (bool_decide (Phase r = AppleAgxG13QueueRuntimeReady)) ||
  (sub_Fence s =? 0) || (NowTicks s =? 0) || negb (AppleAgxG13WorkValid (Some (sub_Compute s))) ||
  negb (GpuAddressCount (sub_Compute s) =? 1) || negb (ComputeOnly s) || TaLeadingBarrier s.

Definition compute_submitted (r : RT) (s : APPLE_AGX_G13_QUEUE_RUNTIME_SUBMISSION)
    (publication : APPLE_AGX_G13_QUEUE_BATCH_PUBLICATION) : RT :=
  r <| ComputePending := await (ComputePending r) (cfg_Compute (Config r)) (sub_Compute s)
                           publication |>
    <| ComputeTerminal := true |> <| ComputeFirstRun := false |>
    <| Phase := AppleAgxG13QueueRuntimeComputeSubmitted |>.

Definition AppleAgxG13QueueRuntimeSubmitCompute (Runtime : ptr RT)
    (Submission : ptr APPLE_AGX_G13_QUEUE_RUNTIME_SUBMISSION) : C (RESULT * ptr RT) :=
  deref r := Runtime else mret (AppleAgxG13QueueRuntimeResultInvalidArgument, Runtime) in
  deref s := Submission else mret (AppleAgxG13QueueRuntimeResultInvalidArgument, Runtime) in
  if compute_invalid r s then mret (AppleAgxG13QueueRuntimeResultInvalidArgument, Runtime)
  else
    let b := cfg_Compute (Config r) in
    '(ok, publication, run) ← AppleAgxG13PrepareQueue (Io r) b (sub_Compute s)
      (ComputeFirstRun r) (sub_Timestamp s) blank_publication blank_run;
    if negb ok || negb (encoded run).1 then mret (AppleAgxG13QueueRuntimeResultBusy, Runtime)
    else
      let r := begin_job r s in
      '(result, r) ← submit_job r [(b, sub_Compute s, publication)]
        [(G13.AppleAgxG13QueueCompute, (encoded run).2)] (compute_submitted r s publication);
      mret (result, Some r).

(** The number of entries a TA job has: InitBM leads the first one. *)
Definition ta_entries (r : RT) : Z :=
  if BufferManagerInitialized r then 1 else APPLE_AGX_BACKEND_QUEUE_WORK_COUNT.

Definition render_submitted (r : RT) (s : APPLE_AGX_G13_QUEUE_RUNTIME_SUBMISSION)
    (d3_publication ta_publication : APPLE_AGX_G13_QUEUE_BATCH_PUBLICATION) : RT :=
  r <| D3Pending := await (D3Pending r) (cfg_D3 (Config r)) (sub_D3 s) d3_publication |>
    <| TaPending := await (TaPending r) (cfg_Ta (Config r)) (sub_Ta s) ta_publication |>
    <| D3FirstRun := false |> <| TaFirstRun := false |> <| BufferManagerInitialized := true |>
    <| Phase := AppleAgxG13QueueRuntimeSubmitted |>.

Definition joint_invalid (r : RT) (s : APPLE_AGX_G13_QUEUE_RUNTIME_SUBMISSION) : bool :=
  negb (HasCompute (Config r)) || (sub_Fence s =? 0) || (NowTicks s =? 0) || ComputeOnly s ||
  negb (TaLeadingBarrier s) || negb (AppleAgxG13WorkValid (Some (sub_Ta s))) ||
  negb (AppleAgxG13WorkValid (Some (sub_D3 s))) ||
  negb (AppleAgxG13WorkValid (Some (sub_Compute s))) ||
  negb (GpuAddressCount (sub_Compute s) =? 1) ||
  negb (GpuAddressCount (sub_D3 s) =? APPLE_AGX_BACKEND_QUEUE_WORK_COUNT) ||
  negb (GpuAddressCount (sub_Ta s) =? ta_entries r + 1).

Definition AppleAgxG13QueueRuntimeSubmitRenderWithCompute (Runtime : ptr RT)
    (Submission : ptr APPLE_AGX_G13_QUEUE_RUNTIME_SUBMISSION) : C (RESULT * ptr RT) :=
  deref r := Runtime else mret (AppleAgxG13QueueRuntimeResultInvalidArgument, Runtime) in
  deref s := Submission else mret (AppleAgxG13QueueRuntimeResultInvalidArgument, Runtime) in
  let busy := mret (AppleAgxG13QueueRuntimeResultBusy, Runtime) in
  if joint_invalid r s then mret (AppleAgxG13QueueRuntimeResultInvalidArgument, Runtime)
  else
    match Phase r with
    | AppleAgxG13QueueRuntimeSubmitted | AppleAgxG13QueueRuntimeComputeSubmitted
    | AppleAgxG13QueueRuntimeCompletionPending => busy
    | AppleAgxG13QueueRuntimeReady =>
        let c := Config r in
        '(ok, compute_publication, compute_run) ← AppleAgxG13PrepareQueue (Io r) (cfg_Compute c)
          (sub_Compute s) (ComputeFirstRun r) (sub_Timestamp s) blank_publication blank_run;
        if negb ok || negb (encoded compute_run).1 then busy
        else
          '(ok, ta_publication, ta_run) ← AppleAgxG13PrepareQueue (Io r) (cfg_Ta c)
            (sub_Ta s) (TaFirstRun r) (sub_Timestamp s) blank_publication blank_run;
          if negb ok then busy
          else
            '(ok, d3_publication, d3_run) ← AppleAgxG13PrepareQueue (Io r) (cfg_D3 c)
              (sub_D3 s) (D3FirstRun r) (sub_Timestamp s) blank_publication blank_run;
            let '(joins, messages) := joined_run d3_run ta_run in
            if negb ok || negb joins then busy
            else
              let r := begin_job r s in
              '(result, r) ← submit_job r
                [(cfg_Compute c, sub_Compute s, compute_publication);
                 (cfg_D3 c, sub_D3 s, d3_publication); (cfg_Ta c, sub_Ta s, ta_publication)]
                [(G13.AppleAgxG13QueueCompute, (encoded compute_run).2);
                 (G13.AppleAgxG13Queue3d, messages .[ 0 ]);
                 (G13.AppleAgxG13QueueTa, messages .[ 1 ])]
                (render_submitted
                  (r <| ComputePending := await (ComputePending r) (cfg_Compute c)
                                            (sub_Compute s) compute_publication |>
                     <| ComputeTerminal := false |> <| ComputeInRender := true |>
                     <| ComputeFirstRun := false |>) s d3_publication ta_publication);
              mret (result, Some r)
    | _ => mret (AppleAgxG13QueueRuntimeResultInvalidState, Runtime)
    end.

Definition render_invalid (r : RT) (s : APPLE_AGX_G13_QUEUE_RUNTIME_SUBMISSION) : bool :=
  (sub_Fence s =? 0) || (NowTicks s =? 0) || TaLeadingBarrier s ||
  negb (AppleAgxG13WorkValid (Some (sub_Ta s))) || negb (AppleAgxG13WorkValid (Some (sub_D3 s))) ||
  negb (GpuAddressCount (sub_D3 s) =? APPLE_AGX_BACKEND_QUEUE_WORK_COUNT) ||
  negb (GpuAddressCount (sub_Ta s) =? ta_entries r).

Definition AppleAgxG13QueueRuntimeSubmit (Runtime : ptr RT)
    (Submission : ptr APPLE_AGX_G13_QUEUE_RUNTIME_SUBMISSION) : C (RESULT * ptr RT) :=
  deref r := Runtime else mret (AppleAgxG13QueueRuntimeResultInvalidArgument, Runtime) in
  deref s := Submission else mret (AppleAgxG13QueueRuntimeResultInvalidArgument, Runtime) in
  let busy := mret (AppleAgxG13QueueRuntimeResultBusy, Runtime) in
  if render_invalid r s then mret (AppleAgxG13QueueRuntimeResultInvalidArgument, Runtime)
  else
    match Phase r with
    | AppleAgxG13QueueRuntimeSubmitted | AppleAgxG13QueueRuntimeCompletionPending => busy
    | AppleAgxG13QueueRuntimeReady =>
        let c := Config r in
        '(ok, ta_publication, ta_run) ← AppleAgxG13PrepareQueue (Io r) (cfg_Ta c)
          (sub_Ta s) (TaFirstRun r) (sub_Timestamp s) blank_publication blank_run;
        if negb ok then busy
        else
          '(ok, d3_publication, d3_run) ← AppleAgxG13PrepareQueue (Io r) (cfg_D3 c)
            (sub_D3 s) (D3FirstRun r) (sub_Timestamp s) blank_publication blank_run;
          let '(joins, messages) := joined_run d3_run ta_run in
          if negb ok || negb joins then busy
          else
            let r := begin_job r s in
            '(result, r) ← submit_job r
              [(cfg_D3 c, sub_D3 s, d3_publication); (cfg_Ta c, sub_Ta s, ta_publication)]
              [(G13.AppleAgxG13Queue3d, messages .[ 0 ]);
               (G13.AppleAgxG13QueueTa, messages .[ 1 ])]
              (render_submitted r s d3_publication ta_publication);
            mret (result, Some r)
    | _ => mret (AppleAgxG13QueueRuntimeResultInvalidState, Runtime)
    end.

(** ** Completion *)

Definition AppleAgxG13SetCompletion (Runtime : RT)
    (Status_ : APPLE_AGX_G13_QUEUE_COMPLETION_STATUS) : RT :=
  Runtime <| Completion := {| cmp_Fence := PendingFence Runtime; Status := Status_ |} |>
    <| CompletionAvailable := true |> <| Phase := AppleAgxG13QueueRuntimeCompletionPending |>.

Definition AppleAgxG13ObserveQueue io (Event : G13.APPLE_AGX_G13_EVENT)
    (Binding : APPLE_AGX_G13_QUEUE_BINDING) (Pending : APPLE_AGX_G13_QUEUE_PENDING)
    : C (bool * APPLE_AGX_G13_QUEUE_PENDING) :=
  if Complete Pending then mret (true, Pending)
  else
    let Pending := if G13.AppleAgxG13EventHasNumber (Some Event) (pnd_EventNumber Pending)
                   then Pending <| EventSeen := true |> else Pending in
    if negb (EventSeen Pending) then mret (true, Pending)
    else
      '(ok, stamp) ← read_u32 io (Stamp Binding) 0;
      if negb ok then mret (false, Pending)
      else
        '(ok, done) ← read_u32 io (GpuDonePointer Binding) 0;
        if negb ok then mret (false, Pending)
        else
          '(ok, write) ← read_u32 io (CpuWritePointer Binding) 0;
          if negb ok then mret (false, Pending)
          else
            mret (true,
              if G13.AppleAgxG13CompletionSatisfiedWindow (Some Event) (pnd_EventNumber Pending)
                   stamp (ExpectedStamp Pending) done (pnd_ExpectedDonePointer Pending) write
                   (RingCapacity Binding)
              then Pending <| Complete := true |> else Pending).

Definition AppleAgxG13TerminalFailure (Runtime : RT)
    (Status_ : APPLE_AGX_G13_QUEUE_COMPLETION_STATUS) (Result : RESULT) : C (RESULT * RT) :=
  ok ← quiesce (Io Runtime) (PendingFence Runtime);
  if negb ok
  then mret (AppleAgxG13QueueRuntimeResultResetFailed,
             Runtime <| Phase := AppleAgxG13QueueRuntimeFaulted |>
                     <| CompletionAvailable := false |>)
  else mret (Result, AppleAgxG13SetCompletion Runtime Status_).

Definition AppleAgxG13RecoverFirmware (Runtime : RT) (Event : G13.APPLE_AGX_G13_EVENT)
    : C (bool * RT) :=
  if negb (G13.Kind Event =? G13.AppleAgxG13EventTimeout) &&
     negb (G13.Kind Event =? G13.AppleAgxG13EventFault)
  then mret (false, Runtime)
  else deref f := Recover (Io Runtime) else mret (false, Runtime) in
    ok ← call (f (PendingFence Runtime) (G13.Kind Event));
    if negb ok then mret (false, Runtime)
    else
      mret (true, AppleAgxG13SetCompletion
        (Runtime <| RecoveredFaults := u32 (RecoveredFaults Runtime + 1) |>
                 <| LastRecoveredEventKind := G13.Kind Event |>)
        AppleAgxG13QueueCompletionRecovered).

(** An event that is a terminal fault. *)
Definition handle_fault (Runtime : RT) (event : G13.APPLE_AGX_G13_EVENT) : C (RESULT * RT) :=
  '(recovered, Runtime) ← AppleAgxG13RecoverFirmware Runtime event;
  if recovered : bool then mret (AppleAgxG13QueueRuntimeResultOk, Runtime)
  else AppleAgxG13TerminalFailure Runtime AppleAgxG13QueueCompletionFaulted
         AppleAgxG13QueueRuntimeResultFaulted.

(** The end of the job when something could not be read. *)
Definition observe_failed (Runtime : RT) : C (RESULT * RT) :=
  AppleAgxG13TerminalFailure Runtime AppleAgxG13QueueCompletionFaulted TransportFailed.

(** A flag event while a standalone compute job is pending. *)
Definition handle_compute_flag (Runtime : RT) (event : G13.APPLE_AGX_G13_EVENT)
    : C (RESULT * RT) :=
  '(ok, p) ← AppleAgxG13ObserveQueue (Io Runtime) event (cfg_Compute (Config Runtime))
               (ComputePending Runtime);
  let Runtime := Runtime <| ComputePending := p |> in
  if negb ok then observe_failed Runtime
  else
    mret (AppleAgxG13QueueRuntimeResultOk,
      if Complete (ComputePending Runtime) && ComputeTerminal Runtime
      then AppleAgxG13SetCompletion Runtime AppleAgxG13QueueCompletionSuccess else Runtime).

(** A flag event while a render is pending. *)
Definition handle_render_flag (Runtime : RT) (event : G13.APPLE_AGX_G13_EVENT)
    : C (RESULT * RT) :=
  let c := Config Runtime in
  '(ok, p) ← AppleAgxG13ObserveQueue (Io Runtime) event (cfg_D3 c) (D3Pending Runtime);
  let Runtime := Runtime <| D3Pending := p |> in
  if negb ok then observe_failed Runtime
  else
    '(ok, p) ← AppleAgxG13ObserveQueue (Io Runtime) event (cfg_Ta c) (TaPending Runtime);
    let Runtime := Runtime <| TaPending := p |> in
    if negb ok then observe_failed Runtime
    else
      '(ok, p) ←
        (if ComputeInRender Runtime
         then AppleAgxG13ObserveQueue (Io Runtime) event (cfg_Compute c) (ComputePending Runtime)
         else mret (true, ComputePending Runtime));
      let Runtime := Runtime <| ComputePending := p |> in
      if negb ok then observe_failed Runtime
      else
        mret (AppleAgxG13QueueRuntimeResultOk,
          if Complete (D3Pending Runtime) && Complete (TaPending Runtime) &&
             (negb (ComputeInRender Runtime) || Complete (ComputePending Runtime))
          then AppleAgxG13SetCompletion Runtime AppleAgxG13QueueCompletionSuccess else Runtime).

(** An event while a job is pending. *)
Definition handle_event (Runtime : RT) (Message : list Z) (MessageBytes : Z)
    (flag : RT -> G13.APPLE_AGX_G13_EVENT -> C (RESULT * RT)) : C (RESULT * RT) :=
  let '(decodes, event) := G13.AppleAgxG13DecodeEvent (Some Message) MessageBytes
                             (Some G13.event_zero) in
  let event := default G13.event_zero event in
  if negb decodes then mret (AppleAgxG13QueueRuntimeResultInvalidArgument, Runtime)
  else if G13.TerminalFault event then handle_fault Runtime event
  else if negb (G13.Kind event =? G13.AppleAgxG13EventFlag)
  then mret (AppleAgxG13QueueRuntimeResultOk, Runtime)
  else flag Runtime event.

Definition AppleAgxG13QueueRuntimeHandleEvent (Runtime : ptr RT) (Message : ptr (list Z))
    (MessageBytes : Z) : C (RESULT * ptr RT) :=
  deref r := Runtime else mret (AppleAgxG13QueueRuntimeResultInvalidArgument, Runtime) in
  deref m := Message else mret (AppleAgxG13QueueRuntimeResultInvalidArgument, Runtime) in
  match Phase r with
  | AppleAgxG13QueueRuntimeComputeSubmitted =>
      '(result, r) ← handle_event r m MessageBytes handle_compute_flag; mret (result, Some r)
  | AppleAgxG13QueueRuntimeSubmitted =>
      '(result, r) ← handle_event r m MessageBytes handle_render_flag; mret (result, Some r)
  | _ => mret (AppleAgxG13QueueRuntimeResultInvalidState, Runtime)
  end.

(** A job is pending. *)
Definition in_flight (r : RT) : bool :=
  bool_decide (Phase r = AppleAgxG13QueueRuntimeSubmitted) ||
  bool_decide (Phase r = AppleAgxG13QueueRuntimeComputeSubmitted).

Definition AppleAgxG13QueueRuntimeCheckTimeout (Runtime : ptr RT) (NowTicks_ : Z)
    : RESULT * ptr RT :=
  deref r := Runtime else (AppleAgxG13QueueRuntimeResultInvalidArgument, Runtime) in
  if NowTicks_ =? 0 then (AppleAgxG13QueueRuntimeResultInvalidArgument, Runtime)
  else if negb (in_flight r) then (AppleAgxG13QueueRuntimeResultInvalidState, Runtime)
  else if Z.shiftl 1 63 <=? u64 (NowTicks_ - DeadlineTicks r)
  then (AppleAgxG13QueueRuntimeResultOk, Runtime)
  else
    (AppleAgxG13QueueRuntimeResultOk,
     Some (if negb (DeadlinePassed r)
           then r <| DeadlinePassed := true |>
                  <| DeadlineExpiries := u32 (DeadlineExpiries r + 1) |>
           else r)).

Definition AppleAgxG13QueueRuntimeCancel (Runtime : ptr RT) (Fence : Z) : C (RESULT * ptr RT) :=
  deref r := Runtime else mret (AppleAgxG13QueueRuntimeResultInvalidArgument, Runtime) in
  if Fence =? 0 then mret (AppleAgxG13QueueRuntimeResultInvalidArgument, Runtime)
  else if negb (in_flight r) || negb (PendingFence r =? Fence)
  then mret (AppleAgxG13QueueRuntimeResultInvalidState, Runtime)
  else
    '(result, r) ← AppleAgxG13TerminalFailure r AppleAgxG13QueueCompletionCancelled
      AppleAgxG13QueueRuntimeResultCancelled;
    mret (result, Some r).

(** The publications of Reset, until one fails. *)
Fixpoint rebase (io : IO) (pointers : list (ptr Z * Z)) : C bool :=
  match pointers with
  | [] => mret true
  | (address, v) :: pointers =>
      ok ← publish io address v;
      if ok : bool then rebase io pointers else mret false
  end.

(** Reset once the queues are quiet. *)
Definition reset_queues (r : RT) : C (RESULT * RT) :=
  let c := Config r in
  let failed := (AppleAgxG13QueueRuntimeResultResetFailed,
                 r <| Phase := AppleAgxG13QueueRuntimeFaulted |>) in
  let queues := [cfg_Ta c; cfg_D3 c] ++ if HasCompute c then [cfg_Compute c] else [] in
  '(ok, v) ← read_all (Io r) (map GpuDonePointer queues);
  if negb ok then mret failed
  else if (RingCapacity (cfg_Ta c) <=? v .[ 0 ]) || (RingCapacity (cfg_D3 c) <=? v .[ 1 ]) ||
          (HasCompute c && (RingCapacity (cfg_Compute c) <=? v .[ 2 ]))
  then mret failed
  else
    ok ← rebase (Io r) (zip (map CpuWritePointer queues) v);
    if negb ok then mret failed
    else
      barrier (Io r);;
      mret (AppleAgxG13QueueRuntimeResultOk,
        (AppleAgxG13ClearPending r) <| TaFirstRun := true |> <| D3FirstRun := true |>
          <| ComputeFirstRun := true |> <| BufferManagerInitialized := false |>
          <| Phase := AppleAgxG13QueueRuntimeReady |>).

Definition AppleAgxG13QueueRuntimeReset (Runtime : ptr RT) : C (RESULT * ptr RT) :=
  deref r := Runtime else mret (AppleAgxG13QueueRuntimeResultInvalidArgument, Runtime) in
  if bool_decide (Phase r = AppleAgxG13QueueRuntimeCompletionPending)
  then mret (AppleAgxG13QueueRuntimeResultInvalidState, Runtime)
  else
    quiet ← (if in_flight r then quiesce (Io r) (PendingFence r) else mret true);
    if negb quiet then mret (AppleAgxG13QueueRuntimeResultResetFailed, Runtime)
    else '(result, r) ← reset_queues r; mret (result, Some r).

Definition AppleAgxG13QueueRuntimeTakeCompletion (Runtime : ptr RT)
    (Completion_ : ptr APPLE_AGX_G13_QUEUE_RUNTIME_COMPLETION)
    : bool * ptr RT * ptr APPLE_AGX_G13_QUEUE_RUNTIME_COMPLETION :=
  deref r := Runtime else (false, Runtime, Completion_) in
  if is_null Completion_ ||
     negb (bool_decide (Phase r = AppleAgxG13QueueRuntimeCompletionPending)) ||
     negb (CompletionAvailable r)
  then (false, Runtime, Completion_)
  else
    (true,
     Some ((AppleAgxG13ClearPending r)
       <| Phase := match Status (Completion r) with
                   | AppleAgxG13QueueCompletionSuccess
                   | AppleAgxG13QueueCompletionRecovered => AppleAgxG13QueueRuntimeReady
                   | _ => AppleAgxG13QueueRuntimeFaulted
                   end |>),
     Some (Completion r)).
End operations.

End Queue.
