(* ===== verification/QueueScript.v ===== *)
(** * Submitting a job (shared/src/apple_agx_g13_queue_runtime.c)

    [Script.watched] puts an observer behind the platform's callbacks, who logs what the
    device sees: which bytes are flushed to it, which pointers and messages are published,
    and what is read back.  A submission follows a script: all work items, then all ring
    entries, then the write pointers, then the run messages; when it fails it has followed
    a prefix, and it is undone as far as the firmware can have noticed. *)

From S2P Require Import Prelude Arrays Bytes G13Codec Interact QueueRuntime.
Import Interact.

Module Script.
Import Queue.

(** ** The observer *)

Inductive signal :=
  | Flushed (address : ptr Z) (content : list Z)
  | Ordered
  | Published (address : ptr Z) (v : Z)
  | Kicked (queue : Z) (message : list Z)
  | Saw (address : ptr Z) (v : Z)
  | Quieted (fence : Z)
  | Resumed (fence kind : Z).

(** The bytes at an address. *)
Definition contents (m : ram) (address : ptr Z) (bytes : Z) : list Z :=
  deref a := address else [] in map (fun i => m (a + i)) (seqZ 0 bytes).

(** A callback's answer with the signals it gives in a world that keeps a log. *)
Definition noting {W A} (p : A * (W * ram)) (l : list signal) : A * ((W * list signal) * ram) :=
  (p.1, ((p.2.1, l), p.2.2)).
Definition unlogged {W} (s : (W * list signal) * ram) : W * ram := (s.1.1, s.2).

Definition watched {W} (io : APPLE_AGX_G13_QUEUE_RUNTIME_IO W)
    : APPLE_AGX_G13_QUEUE_RUNTIME_IO (W * list signal) := {|
  FlushForDevice := (fun f a n s => let p := f a n (unlogged s) in
    noting p (s.1.2 ++ if p.1 : bool then [Flushed a (contents s.2 a n)] else []))
    <$> FlushForDevice io;
  MemoryBarrier := (fun f s =>
    let p := f (unlogged s) in ((p.1, s.1.2 ++ [Ordered]), p.2)) <$> MemoryBarrier io;
  PublishU32 := (fun f a v s => let p := f a v (unlogged s) in
    noting p (s.1.2 ++ if p.1 : bool then [Published a v] else [])) <$> PublishU32 io;
  ReadU32 := (fun f a old s => let p := f a old (unlogged s) in
    noting p (s.1.2 ++ if p.1.1 : bool then [Saw a (u32 p.1.2)] else [])) <$> ReadU32 io;
  SendRunMessage := (fun f q m s => let p := f q m (unlogged s) in
    noting p (s.1.2 ++ if p.1 : bool then [Kicked q m] else [])) <$> SendRunMessage io;
  Quiesce := (fun f fence s => let p := f fence (unlogged s) in
    noting p (s.1.2 ++ if p.1 : bool then [Quieted fence] else [])) <$> Quiesce io;
  Recover := (fun f fence kind s => let p := f fence kind (unlogged s) in
    noting p (s.1.2 ++ if p.1 : bool then [Resumed fence kind] else [])) <$> Recover io;
|}.

(** ** Scripts *)

(** What a submission is to do. *)
Inductive act :=
  | Work (address : ptr Z) (content : list Z)
  | Entry (address : ptr Z) (v : Z)
  | Order
  | Point (address : ptr Z) (v : Z)
  | Kick (queue : Z) (message : list Z).

Definition le64 (v : Z) : list Z := map (fun i => u8 (Z.shiftr v (8 * i))) (seqZ 0 8).

(** The device sees that an act is done.  What it sees of a work item is what the script says
    if only the CPU writes memory meanwhile; otherwise as many bytes. *)
Definition obeys (quiet : Prop) (a : act) (g : signal) : Prop :=
  match a, g with
  | Work address content, Flushed address' content' =>
      address' = address /\ length content' = length content /\ (quiet -> content' = content)
  | Entry address v, Flushed address' content => address' = address /\ content = le64 v
  | Order, Ordered => True
  | Point address v, Published address' v' => address' = address /\ v' = v
  | Kick queue message, Kicked queue' message' => queue' = queue /\ message' = message
  | _, _ => False
  end.
Definition followed (quiet : Prop) : list act -> list signal -> Prop := Forall2 (obeys quiet).

(** Something of the job has become visible to the firmware. *)
Definition is_point (a : act) : bool := match a with Point _ _ => true | _ => false end.
Definition visible (acts : list act) : bool := existsb is_point acts.

(** Memory once a work has been put where the firmware looks for it: either it is prepared
    there, or it is copied there. *)
Definition placed_work (w : APPLE_AGX_G13_WORK_PUBLICATION) (m : ram) : ram :=
  if negb (PreparedRangeCount w =? 0) then m else
  deref destination := Destination w else m in
  deref source := Source w else m in
  AppleAgxG13QueueRuntimeCopy destination source (Bytes_ w) m.

Definition work_script (m : ram) (w : APPLE_AGX_G13_WORK_PUBLICATION) : list act :=
  if PreparedRangeCount w =? 0
  then [Work (Destination w) (contents (placed_work w m) (Destination w) (Bytes_ w))]
  else map (fun i =>
         let r := (PreparedRanges w) .[ i ] in
         Work (rng_Address r) (contents m (rng_Address r) (rng_Bytes r)))
       (seqZ 0 (PreparedRangeCount w)).
Fixpoint works_script (m : ram) (works : list APPLE_AGX_G13_WORK_PUBLICATION) : list act :=
  match works with
  | [] => []
  | w :: works => work_script m w ++ works_script (placed_work w m) works
  end.
Definition ring_script (j : ring_job) : list act :=
  let '(b, w, p) := j in
  map (fun i => Entry (slot_address b (RingIndices p) .[ i ]) (GpuAddresses w) .[ i ])
    (seqZ 0 (GpuAddressCount w)).
Definition point_script (j : ring_job) : act :=
  let '(b, _, p) := j in Point (CpuWritePointer b) (NextWritePointer p).

Definition job_script (m : ram) (rings : list ring_job) (runs : list (Z * list Z)) : list act :=
  works_script m (map (fun j => j.1.2) rings) ++ concat (map ring_script rings) ++
  Order :: map point_script rings ++ Order :: map (fun r => Kick r.1 r.2) runs.

Lemma visible_app l1 l2 : visible (l1 ++ l2) = visible l1 || visible l2.
Proof. apply existsb_app. Qed.

Lemma visible_work m w : visible (work_script m w) = false.
Proof.
  unfold work_script. destruct (_ =? _); [done|]. generalize (seqZ 0 (PreparedRangeCount w)).
  intros l. by induction l.
Qed.

Lemma visible_ring j : visible (ring_script j) = false.
Proof.
  destruct j as [[b w] p]. unfold ring_script. generalize (seqZ 0 (GpuAddressCount w)).
  intros l. by induction l.
Qed.

Lemma followed_app quiet s1 s2 l1 l2 :
  followed quiet s1 l1 -> followed quiet s2 l2 -> followed quiet (s1 ++ s2) (l1 ++ l2).
Proof. apply Forall2_app. Qed.

(** ** Memory *)

Lemma store8_ne a b v m : a <> b -> store8 b v m a = m a.
Proof. intros. unfold store8. by destruct (Z.eqb_spec a b). Qed.

Lemma length_contents m m' a n : length (contents m a n) = length (contents m' a n).
Proof. destruct a; [|done]. unfold contents. by rewrite !length_map. Qed.

Lemma contents_store64 a v m : contents (store64 a v m) (Some a) 8 = le64 v.
Proof.
  unfold contents, le64. apply map_ext_in. intros i Hi.
  apply list_elem_of_In, elem_of_seqZ in Hi. unfold store64.
  refine (for_range_inv (fun k m => forall i, 0 <= i < k -> m (a + i) = u8 (Z.shiftr v (8 * i)))
    0 8 _ m _ _ _ i _); [lia|intros; lia| |lia].
  clear i Hi. intros i m' Hi H j Hj. rewrite Z.add_0_l. destruct (decide (j = i)) as [->|].
  - unfold store8. by rewrite Z.eqb_refl.
  - rewrite store8_ne by lia. apply H. lia.
Qed.

(** ** What passes *)

(** ** The ring entries *)

(** The entries that are free when the firmware has read up to [done]: one is left
    unused. *)
Definition room (b : APPLE_AGX_G13_QUEUE_BINDING) (current done : Z) : Z :=
  (done - current - 1) mod RingCapacity b.

(** The entries handed out are those that follow the write pointer, and all are free. *)
Record slots_after (b : APPLE_AGX_G13_QUEUE_BINDING) (current done count : Z)
    (p : APPLE_AGX_G13_QUEUE_BATCH_PUBLICATION) : Prop := {
  slots_current : 0 <= current < RingCapacity b;
  slots_done : 0 <= done < RingCapacity b;
  slots_room : count <= room b current done;
  slots_index : forall i, 0 <= i < count ->
    (RingIndices p) .[ i ] = (current + i) mod RingCapacity b;
  slots_next : NextWritePointer p = (current + count) mod RingCapacity b;
  slots_expected : ExpectedDonePointer p = NextWritePointer p;
}.

Lemma next_index cap x :
  0 < cap <= 0x500 -> 0 <= x ->
  (if cap <=? u32 (x mod cap + 1) then 0 else u32 (x mod cap + 1)) = (x + 1) mod cap.
Proof.
  intros Hc Hx. pose proof (Z.mod_pos_bound x cap ltac:(lia)) as Hm.
  rewrite (wrap_id 32) by (unfold fits; lia). rewrite <- (Zplus_mod_idemp_l x 1 cap).
  revert Hm. generalize (x mod cap). intros m Hm. destruct (Z.leb_spec cap (m + 1)).
  - assert (m + 1 = cap) as -> by lia. by rewrite Z_mod_same_full.
  - by rewrite Z.mod_small by lia.
Qed.

Lemma meets_done cap start done k :
  0 < cap -> 0 <= done < cap -> 0 <= k <= (done - start - 1) mod cap ->
  (start + k + 1) mod cap = done <-> k = (done - start - 1) mod cap.
Proof.
  intros Hc Hd Hk. pose proof (Z.mod_pos_bound (done - start - 1) cap Hc) as Hm. split.
  - intros E. rewrite <- (Z.mod_small k cap) by lia.
    replace (done - start - 1) with (done + (- start - 1)) by lia.
    rewrite <- E, Zplus_mod_idemp_l. f_equal. lia.
  - intros ->. replace (start + (done - start - 1) mod cap + 1)
      with ((done - start - 1) mod cap + (start + 1)) by lia.
    rewrite Zplus_mod_idemp_l. replace (done - start - 1 + (start + 1)) with done by lia.
    by apply Z.mod_small.
Qed.

Lemma take_slots_spec cap start done count ind :
  0 < cap <= 0x500 -> 0 <= start < cap -> 0 <= done < cap -> 0 <= count <= zlen ind ->
  match take_slots cap done count (ind, start) with
  | None => (done - start - 1) mod cap < count
  | Some (ind', next) => count <= (done - start - 1) mod cap /\ zlen ind' = zlen ind /\
      next = (start + count) mod cap /\
      forall i, 0 <= i < count -> ind' .[ i ] = (start + i) mod cap
  end.
Proof.
  intros Hc Hs Hd Hn. unfold take_slots.
  refine (for_range_inv (fun k st => match st with
    | None => (done - start - 1) mod cap < k
    | Some (ind', next) => k <= (done - start - 1) mod cap /\ zlen ind' = zlen ind /\
        next = (start + k) mod cap /\
        forall i, 0 <= i < k -> ind' .[ i ] = (start + i) mod cap
    end) 0 count _ (Some (ind, start)) _ _ _); [lia| |].
  - split; [pose proof (Z.mod_pos_bound (done - start - 1) cap); lia|]. split; [done|].
    rewrite Z.add_0_r, Z.mod_small by done. split; [done|]. lia.
  - intros k [[ind' next]|] Hk; [|lia]. intros (Hle & Hz & -> & Hi). rewrite Z.add_0_l.
    rewrite next_index by lia.
    pose proof (meets_done cap start done k ltac:(lia) Hd ltac:(lia)) as Hmeet.
    revert Hle Hmeet. generalize ((done - start - 1) mod cap). intros m Hle Hmeet.
    destruct (Z.eqb_spec ((start + k + 1) mod cap) done) as [E|E].
    + apply Hmeet in E. lia.
    + split; [|split; [by rewrite zlen_set|split; [f_equal; lia|]]].
      { destruct (decide (k = m)) as [Ek|]; [|lia]. by apply Hmeet in Ek. }
      intros i Hi'. rewrite get_set by lia. case_decide; [by subst|]. apply Hi. lia.
Qed.
Section passing.
Context {W : Type} (io : APPLE_AGX_G13_QUEUE_RUNTIME_IO W).
Notation St := ((W * list signal) * ram)%type.
Notation Wio := (watched io).
Notation RT := (APPLE_AGX_G13_QUEUE_RUNTIME (W * list signal)).
Notation RESULT := APPLE_AGX_G13_QUEUE_RUNTIME_RESULT.
Implicit Types (S : St) (l : list signal) (r : RT).

(** Flushing memory to the device leaves it as it is. *)
Definition calm : Prop :=
  forall f a n s, FlushForDevice io = Some f -> (f a n s).2.2 = s.2.
Abbreviation obeys := (obeys calm).
Abbreviation followed := (followed calm).

(** From [S] to [S'] exactly these signals passed. *)
Definition passes l S S' : Prop := S'.1.2 = S.1.2 ++ l.

Lemma passes_nil S : passes [] S S.
Proof. unfold passes. by rewrite app_nil_r. Qed.

Lemma passes_app l1 l2 S1 S2 S3 : passes l1 S1 S2 -> passes l2 S2 S3 -> passes (l1 ++ l2) S1 S3.
Proof. unfold passes. intros H1 H2. by rewrite H2, H1, app_assoc. Qed.

Context (Hio : AppleAgxG13QueueIoValid (Some io) = true).

Lemma io_there :
  is_Some (FlushForDevice io) /\ is_Some (MemoryBarrier io) /\ is_Some (PublishU32 io) /\
  is_Some (ReadU32 io) /\ is_Some (SendRunMessage io) /\ is_Some (Quiesce io).
Proof.
  unfold AppleAgxG13QueueIoValid in Hio. rewrite !andb_true_iff, !negb_true_iff in Hio.
  by destruct (FlushForDevice io), (MemoryBarrier io), (PublishU32 io), (ReadU32 io),
    (SendRunMessage io), (Quiesce io), Hio as [[[[[? ?] ?] ?] ?] ?]; split_and!.
Qed.

Lemma flush_spec a n S :
  wp (flush Wio a n) (fun ok S' =>
    passes (if ok then [Flushed a (contents S.2 a n)] else []) S S' /\ (calm -> S'.2 = S.2)) S.
Proof.
  destruct io_there as ([f E] & _). unfold flush. simpl. rewrite E. simpl.
  apply wp_call. intros ok S' [= <- <-]. split; [done|]. intros Hcalm.
  exact (Hcalm f a n (unlogged S) E).
Qed.

Lemma barrier_spec S : wp (barrier Wio) (fun _ S' => passes [Ordered] S S') S.
Proof.
  destruct io_there as (_ & [f E] & _). unfold barrier. simpl. rewrite E. simpl.
  apply wp_call. by intros [] S' [= <-].
Qed.

Lemma publish_u32_spec a v S :
  wp (publish Wio a v) (fun ok S' => passes (if ok then [Published a v] else []) S S') S.
Proof.
  destruct io_there as (_ & _ & [f E] & _). unfold publish. simpl. rewrite E. simpl.
  apply wp_call. by intros ok S' [= <- <-].
Qed.

Lemma read_spec a old S :
  wp (read_u32 Wio a old) (fun p S' =>
    passes (if p.1 then [Saw a p.2] else []) S S' /\ is_u32 p.2) S.
Proof.
  destruct io_there as (_ & _ & _ & [f E] & _). unfold read_u32. simpl. rewrite E. simpl.
  apply wp_bind, wp_call. intros [ok v] S' H. unfold noting in H. simpl in H.
  destruct (f a old (unlogged S)) as [[ok' v'] s']. injection H as -> -> <-.
  apply wp_ret. split; [done|]. apply wrap_fits. lia.
Qed.

Lemma send_run_spec q m S :
  wp (send_run Wio q m) (fun ok S' => passes (if ok then [Kicked q m] else []) S S') S.
Proof.
  destruct io_there as (_ & _ & _ & _ & [f E] & _). unfold send_run. simpl. rewrite E. simpl.
  apply wp_call. by intros ok S' [= <- <-].
Qed.

Lemma quiesce_spec fence S :
  wp (quiesce Wio fence) (fun ok S' => passes (if ok then [Quieted fence] else []) S S') S.
Proof.
  destruct io_there as (_ & _ & _ & _ & _ & [f E]). unfold quiesce. simpl. rewrite E. simpl.
  apply wp_call. by intros ok S' [= <- <-].
Qed.

(** ** A stage of a submission *)

(** The script is followed to its end, or up to the act that failed. *)
Definition performs (script : list act) (ok : bool) S S' : Prop := exists l done rest,
  passes l S S' /\ script = done ++ rest /\ followed done l /\ (ok = true -> rest = []).

Lemma flush_each n (m : Z -> M St bool) (script : Z -> act) (R : St -> Prop) S :
  0 <= n -> R S ->
  (forall i S, 0 <= i < n -> R S -> wp (m i) (fun ok S' => (exists l, passes l S S' /\
     if ok : bool then followed [script i] l else l = []) /\ R S') S) ->
  wp (x ← for_each (Z.to_nat n) 0 (fun i _ =>
        ok ← m i; mret (if ok : bool then inl tt else inr tt)) tt;
      mret (match x with inl _ => true | inr _ => false end))
    (fun ok S' => performs (map script (seqZ 0 n)) ok S S' /\ R S') S.
Proof.
  intros Hn HR Hm. eapply wp_seq; [apply (wp_for_each (fun i _ S' => (exists l,
      passes l S S' /\ followed (map script (seqZ 0 i)) l) /\ R S') _ _ _ (fun x S' =>
        performs (map script (seqZ 0 n)) (match x with inl _ => true | inr _ => false end) S S' /\
        R S'))|].
  - split; [|done]. exists []. split; [apply passes_nil|constructor].
  - intros i [] S1 Hi [(l & H1 & Hl) HR1]. rewrite Z.add_0_l. rewrite Z2Nat.id in Hi by done.
    eapply wp_seq; [by apply Hm|]. intros [] S2 [(l' & H2 & Hl') HR2]; apply wp_ret; (split; [|done]).
    + exists (l ++ l'). split; [by eapply passes_app|].
      rewrite seqZ_app, Z.add_0_l, map_app by lia. by apply followed_app.
    + subst l'. exists l, (map script (seqZ 0 i)), (map script (seqZ i (n - i))).
      split; [rewrite <- (app_nil_r l); by eapply passes_app|]. split; [|done].
      rewrite <- map_app. f_equal. replace n with (i + (n - i)) at 1 by lia.
      by rewrite seqZ_app by lia.
  - intros [] S1 [(l & H1 & Hl) HR1]. rewrite Z2Nat.id in Hl by done. split; [|done].
    exists l, (map script (seqZ 0 n)), []. by rewrite app_nil_r.
  - intros [[]|[]] S1 H; by apply wp_ret.
Qed.

(** The memory of [S], if nobody but the CPU writes, is [m]. *)
Definition holds (m : ram) S : Prop := calm -> S.2 = m.

Lemma obeys_work m S a n :
  holds m S -> obeys (Work a (contents m a n)) (Flushed a (contents S.2 a n)).
Proof. intros Hm. split; [done|]. split; [apply length_contents|]. intros Hc. by rewrite (Hm Hc). Qed.

Lemma prepared_work_spec m w S :
  0 <= PreparedRangeCount w ->
  (PreparedRangeCount w = 0 -> is_Some (Source w) /\ is_Some (Destination w)) ->
  holds m S ->
  wp (AppleAgxG13PublishPreparedWork Wio w) (fun ok S' =>
    performs (work_script m w) ok S S' /\ holds (placed_work w m) S') S.
Proof.
  intros Hn Hl Hm. unfold AppleAgxG13PublishPreparedWork, work_script, placed_work.
  destruct (Z.eqb_spec (PreparedRangeCount w) 0) as [E|E]; cbn [negb].
  - destruct (Hl E) as [[src ->] [dst ->]]. apply wp_bind, wp_call. intros [] S1 [= <-].
    eapply wp_mono; [apply flush_spec|]. intros ok S2 [H2 Hc2]. cbn [snd] in H2, Hc2.
    set (m1 := AppleAgxG13QueueRuntimeCopy dst src (Bytes_ w) m).
    set (m2 := AppleAgxG13QueueRuntimeCopy dst src (Bytes_ w) S.2) in *.
    assert (calm -> m2 = m1) as Hm12 by (intros Hc; unfold m1, m2; by rewrite (Hm Hc)).
    split; [|by intros Hc; rewrite Hc2, Hm12].
    exists (if ok then [Flushed (Some dst) (contents m2 (Some dst) (Bytes_ w))] else []).
    destruct ok; [exists [Work (Some dst) (contents m1 (Some dst) (Bytes_ w))], []
                 |exists [], [Work (Some dst) (contents m1 (Some dst) (Bytes_ w))]];
      (split; [exact H2|]); (split; [done|]); (split; [|done]); [|constructor].
    constructor; [|constructor]. split; [done|]. split; [apply length_contents|].
    intros Hc. by rewrite (Hm12 Hc).
  - apply (flush_each _ (fun i => flush Wio _ _)); [done|done|].
    intros i S1 Hi Hm1. eapply wp_mono; [apply flush_spec|]. intros ok S2 [H2 Hc2].
    split; [|intros Hc; rewrite Hc2 by done; by apply Hm1]. eexists.
    split; [exact H2|]. destruct ok; [|done]. constructor; [|constructor]. by apply obeys_work.
Qed.

Lemma write_ring_spec b w p S :
  0 <= GpuAddressCount w -> is_Some (RingCpuAddress b) ->
  wp (AppleAgxG13WriteRing Wio b w p) (fun ok S' =>
    performs (ring_script (b, w, p)) ok S S' /\ True) S.
Proof.
  intros Hn [ring Hring].
  apply (flush_each _ (fun i => write_entry Wio b _ _)
    (fun i => Entry (slot_address b (RingIndices p) .[ i ]) (GpuAddresses w) .[ i ])
    (fun _ => True)); [done|done|].
  intros i S1 Hi _. unfold write_entry, store_slot, slot_address. rewrite Hring.
  cbn [fmap option_fmap option_map]. apply wp_bind, wp_call. intros [] S2 [= <-].
  eapply wp_mono; [apply flush_spec|]. intros ok S2 [H2 _]. cbn [snd] in H2. split; [|done]. eexists.
  split; [exact H2|]. destruct ok; [|done]. constructor; [|constructor]. split; [done|].
  apply contents_store64.
Qed.

(** ** A submission *)

(** How a submission that failed after some acts leaves the runtime: as if nothing had
    happened if nothing was visible; otherwise out of order, with the firmware stopped and
    nothing pending, or with the firmware not stopped and the job still pending. *)
Definition undone r (acts : list act) (x : RESULT) r' (tail : list signal) : Prop :=
  if visible acts
  then tail = [Quieted (PendingFence r)] /\ (x = MemoryFailed \/ x = TransportFailed) /\
         r' = AppleAgxG13ClearPending (r <| Phase := AppleAgxG13QueueRuntimeFaulted |>) \/
       tail = [] /\ x = AppleAgxG13QueueRuntimeResultResetFailed /\
         r' = r <| Phase := AppleAgxG13QueueRuntimeFaulted |>
  else tail = [] /\ x = MemoryFailed /\
       r' = AppleAgxG13ClearPending (r <| Phase := AppleAgxG13QueueRuntimeReady |>).

Definition attempted r (script : list act) submitted (x : RESULT) r' S S' : Prop :=
  exists l tail done rest, passes (l ++ tail) S S' /\ script = done ++ rest /\ followed done l /\
    (x = AppleAgxG13QueueRuntimeResultOk /\ rest = [] /\ tail = [] /\ r' = submitted \/
     undone r done x r' tail).

Definition so_far (done : list act) S S' : Prop := exists l, passes l S S' /\ followed done l.

Section submitting.
Context (r submitted : RT) (script : list act) (S0 : St) (Hr : Io r = Wio).
Notation Q := (fun p S' => attempted r script submitted p.1 p.2 S0 S').

Lemma failure_spec done rest x v S :
  so_far done S0 S -> script = done ++ rest -> visible done = v ->
  (if v : bool then x = MemoryFailed \/ x = TransportFailed else x = MemoryFailed) ->
  wp (AppleAgxG13SubmitFailure r x v) Q S.
Proof.
  intros (l & HS & Hl) -> Hv Hx. unfold AppleAgxG13SubmitFailure. destruct v.
  - rewrite Hr. eapply wp_seq; [apply quiesce_spec|]. intros [] S1 H1; apply wp_ret.
    + exists l, [Quieted (PendingFence r)], done, rest. split; [by eapply passes_app|].
      split; [done|]. split; [done|]. right. unfold undone. rewrite Hv. by left.
    + exists l, [], done, rest. split; [by eapply passes_app|].
      split; [done|]. split; [done|]. right. unfold undone. rewrite Hv. by right.
  - apply wp_ret. exists l, [], done, rest. rewrite app_nil_r. split; [done|].
    split; [done|]. split; [done|]. right. unfold undone. rewrite Hv. by subst x.
Qed.

(** A stage of several acts that nobody sees. *)
Lemma stage_spec (m : M St bool) part (R : St -> Prop) done rest k S :
  wp m (fun ok S' => performs part ok S S' /\ R S') S -> visible part = false ->
  visible done = false -> so_far done S0 S -> script = done ++ part ++ rest ->
  (forall S', R S' -> so_far (done ++ part) S0 S' -> wp k Q S') ->
  wp (ok ← m; if negb ok then AppleAgxG13SubmitFailure r MemoryFailed false else k) Q S.
Proof.
  intros Hm Hpart Hdone (l & HS & Hl) Hs Hk. eapply wp_seq; [exact Hm|].
  intros ok S1 [(l1 & d & e & H1 & -> & Hd & He) HR]. rewrite visible_app in Hpart.
  apply orb_false_iff in Hpart as [Hvd _].
  assert (so_far (done ++ d) S0 S1) as H01
    by (exists (l ++ l1); split; [by eapply passes_app|by apply followed_app]).
  destruct ok; cbn [negb].
  - rewrite (He eq_refl), app_nil_r in *. by apply Hk.
  - apply (failure_spec (done ++ d) (e ++ rest)); [done|by rewrite Hs, <- !app_assoc| |done].
    by rewrite visible_app, Hdone.
Qed.

(** A stage of one act. *)
Lemma act_spec (m : M St bool) a g x v done rest k S :
  wp m (fun ok S' => passes (if ok : bool then [g] else []) S S') S -> obeys a g ->
  visible done = v -> (if v : bool then x = MemoryFailed \/ x = TransportFailed else x = MemoryFailed) ->
  so_far done S0 S -> script = done ++ a :: rest ->
  (forall S', so_far (done ++ [a]) S0 S' -> wp k Q S') ->
  wp (ok ← m; if negb ok then AppleAgxG13SubmitFailure r x v else k) Q S.
Proof.
  intros Hm Ha Hv Hx (l & HS & Hl) Hs Hk. eapply wp_seq; [exact Hm|].
  intros [] S1 H1; cbn [negb].
  - apply Hk. exists (l ++ [g]). split; [by eapply passes_app|]. apply followed_app; [done|].
    by constructor.
  - eapply failure_spec; [|exact Hs|done..]. exists l. split; [|done].
    rewrite <- (app_nil_r l). by eapply passes_app.
Qed.

Lemma order_spec done k S :
  so_far done S0 S -> (forall S', so_far (done ++ [Order]) S0 S' -> wp k Q S') ->
  wp (barrier (Io r);; k) Q S.
Proof.
  intros (l & HS & Hl) Hk. rewrite Hr. eapply wp_seq; [apply barrier_spec|]. intros [] S1 H1.
  apply Hk. exists (l ++ [Ordered]). split; [by eapply passes_app|].
  apply followed_app; [done|]. by repeat constructor.
Qed.

(** Works a submission may be made of. *)
Definition publishable (w : APPLE_AGX_G13_WORK_PUBLICATION) : Prop :=
  0 <= PreparedRangeCount w /\ 0 <= GpuAddressCount w /\
  (PreparedRangeCount w = 0 -> is_Some (Source w) /\ is_Some (Destination w)).

Lemma publish_works_spec works m done rest k S :
  Forall publishable works -> holds m S -> visible done = false -> so_far done S0 S ->
  script = done ++ works_script m works ++ rest ->
  (forall done S, visible done = false -> so_far done S0 S -> script = done ++ rest -> wp k Q S) ->
  wp (publish_works r works k) Q S.
Proof.
  intros Hw. revert m done S. induction Hw as [|w works (Hn & _ & Hl) _ IH];
    intros m done S Hm Hv HS Hs Hk; [by eapply Hk|]. cbn [publish_works works_script] in *. rewrite Hr.
  eapply (stage_spec _ (work_script m w) (holds (placed_work w m)));
    [by apply prepared_work_spec|apply visible_work|done..| |].
  - by rewrite Hs, <- !app_assoc.
  - intros S1 Hm1 H1. eapply IH; [exact Hm1| |exact H1| |done].
    + by rewrite visible_app, Hv, visible_work.
    + by rewrite Hs, <- !app_assoc.
Qed.

Lemma write_rings_spec (rings : list ring_job) done rest k S :
  Forall (fun j => publishable j.1.2 /\ is_Some (RingCpuAddress j.1.1)) rings ->
  visible done = false -> so_far done S0 S ->
  script = done ++ concat (map ring_script rings) ++ rest ->
  (forall done S, visible done = false -> so_far done S0 S -> script = done ++ rest -> wp k Q S) ->
  wp (write_rings r rings k) Q S.
Proof.
  intros Hw. revert done S. induction Hw as [|[[b w] p] rings [(_ & Hn & _) Hb] _ IH];
    intros done S Hv HS Hs Hk; [by eapply Hk|]. cbn [write_rings map concat fst snd] in *. rewrite Hr.
  eapply (stage_spec _ (ring_script (b, w, p)) (fun _ => True));
    [by apply write_ring_spec|apply visible_ring|done..| |].
  - by rewrite Hs, <- !app_assoc.
  - intros S1 _ H1. eapply IH; [|exact H1| |done].
    + by rewrite visible_app, Hv, visible_ring.
    + by rewrite Hs, <- !app_assoc.
Qed.

Lemma publish_pointers_spec (rings : list ring_job) done rest v k S :
  visible done = v -> so_far done S0 S -> script = done ++ map point_script rings ++ rest ->
  (forall done S, (v = true \/ rings <> [] -> visible done = true) -> so_far done S0 S ->
     script = done ++ rest -> wp k Q S) ->
  wp (publish_pointers r v rings k) Q S.
Proof.
  revert done v S. induction rings as [|[[b w] p] rings IH]; intros done v S Hv HS Hs Hk.
  { eapply Hk; [|done..]. intros [->|]; done. }
  cbn [publish_pointers map] in *. rewrite Hr.
  eapply (act_spec _ (point_script (b, w, p)) (Published (CpuWritePointer b) (NextWritePointer p)));
    [apply publish_u32_spec|done|exact Hv| |exact HS|exact Hs|].
  { destruct v; [by left|done]. }
  intros S1 H1. eapply (IH (done ++ [point_script (b, w, p)]));
    [by rewrite visible_app, orb_true_r|done|by rewrite Hs, <- app_assoc|].
  intros done' S2 Hv' HS' Hs'. eapply Hk; [|done..]. intros _. apply Hv'. by left.
Qed.

Lemma send_runs_spec runs done S :
  visible done = true -> so_far done S0 S -> script = done ++ map (fun p => Kick p.1 p.2) runs ->
  wp (send_runs r runs (mret (AppleAgxG13QueueRuntimeResultOk, submitted))) Q S.
Proof.
  revert done S. induction runs as [|[q m] runs IH]; intros done S Hv HS Hs.
  - destruct HS as (l & HS & Hl). apply wp_ret. exists l, [], done, [].
    rewrite app_nil_r. split; [done|]. split; [done|]. split; [done|]. by left.
  - cbn [send_runs map] in *. rewrite Hr.
    eapply (act_spec _ (Kick q m) (Kicked q m));
      [apply send_run_spec|done|exact Hv|by right|exact HS|exact Hs|].
    intros S1 H1. apply (IH (done ++ [Kick q m])); [|done|by rewrite Hs, <- app_assoc].
    by rewrite visible_app, Hv.
Qed.
End submitting.

(** A submission follows its script, or is undone. *)
Lemma submit_job_spec r submitted (rings : list ring_job) runs S :
  Io r = Wio -> rings <> [] ->
  Forall (fun j => publishable j.1.2 /\ is_Some (RingCpuAddress j.1.1)) rings ->
  wp (submit_job r rings runs submitted) (fun p S' =>
    attempted r (job_script S.2 rings runs) submitted p.1 p.2 S S') S.
Proof.
  intros Hr Hne Hj. unfold submit_job.
  eapply (publish_works_spec r submitted (job_script S.2 rings runs) S Hr _ S.2 []); try done.
  - apply Forall_map. eapply Forall_impl; [exact Hj|]. by intros j [? _].
  - exists []. by split; [apply passes_nil|constructor].
  - intros done S1 Hv H1 Hs.
    eapply (write_rings_spec r submitted _ S Hr rings done); [exact Hj|done..|].
    clear done S1 Hv H1 Hs. intros done S1 Hv H1 Hs.
    apply (order_spec r submitted _ S Hr done); [done|]. intros S2 H2.
    eapply (publish_pointers_spec r submitted _ S Hr rings (done ++ [Order]));
      [by rewrite visible_app, Hv|done|by rewrite Hs, <- app_assoc|].
    clear done S1 S2 Hv H1 H2 Hs. intros done S1 Hv H1 Hs.
    apply (order_spec r submitted _ S Hr done); [done|]. intros S2 H2.
    eapply (send_runs_spec r submitted _ S Hr _ (done ++ [Order]));
      [|done|by rewrite Hs, <- app_assoc].
    rewrite visible_app, Hv by by right. done.
Qed.

(** ** Preparing *)

(** A binding the runtime has accepted. *)
Definition bound (b : APPLE_AGX_G13_QUEUE_BINDING) : Prop :=
  AppleAgxG13QueueBindingValid (Some b) (QueueType b) = true /\
  0 <= QueueType b <= G13.AppleAgxG13QueueCompute.

Lemma bound_spec b :
  bound b -> QueueInfoGpuAddress b <> 0 /\ Z.land (QueueInfoGpuAddress b) 7 = 0 /\
  2 < RingCapacity b <= 0x500 /\ is_Some (RingCpuAddress b) /\ EventNumber b < 128.
Proof.
  intros [Hb _]. unfold AppleAgxG13QueueBindingValid in Hb.
  rewrite !andb_true_iff, !negb_true_iff, Z.eqb_neq, !Z.eqb_eq, !Z.ltb_lt, Z.leb_le in Hb.
  destruct Hb as [[[[[[[[[_ ?] ?] Hr] ?] ?] _] _] _] ?]. split; [done|]. split; [done|].
  split; [done|]. split; [|done]. by destruct (RingCpuAddress b).
Qed.

Definition run_for (b : APPLE_AGX_G13_QUEUE_BINDING) (first : bool) (timestamp next : Z)
    : G13.APPLE_AGX_G13_RUN_COMMAND := {|
  G13.QueueType := QueueType b; G13.CommandQueueAddress := QueueInfoGpuAddress b;
  G13.Head := next; G13.EventNumber := EventNumber b;
  G13.NewQueue := if first then 1 else 0; G13.Timestamp := timestamp |}.

Lemma run_for_valid b first timestamp next :
  bound b -> next < RingCapacity b ->
  G13.AppleAgxG13RunCommandValid (Some (run_for b first timestamp next)) = true.
Proof.
  intros Hb Hn. destruct (bound_spec b Hb) as (H0 & Ha & Hc & _ & He). destruct Hb as [_ Ht].
  unfold G13.AppleAgxG13RunCommandValid, run_for. cbn [G13.QueueType G13.CommandQueueAddress
    G13.Head G13.EventNumber G13.NewQueue].
  rewrite Ha. apply Z.eqb_neq in H0. rewrite H0.
  unfold G13.APPLE_AGX_G13_RING_CAPACITY, G13.APPLE_AGX_G13_EVENT_COUNT.
  rewrite (proj2 (Z.leb_le _ _)), !(proj2 (Z.ltb_lt _ _)) by lia. by destruct first.
Qed.

Lemma encoded_run b first timestamp next :
  bound b -> next < RingCapacity b ->
  encoded (run_for b first timestamp next) =
    (true, G13.run_message (run_for b first timestamp next)).
Proof.
  intros Hb Hn. unfold encoded. rewrite G13.encode_run_cases by done.
  by rewrite run_for_valid.
Qed.

Lemma joined_runs d3 ta first first' timestamp next next' :
  bound d3 -> bound ta -> QueueType d3 = 1 -> QueueType ta = 0 ->
  EventNumber d3 <> EventNumber ta -> next < RingCapacity d3 -> next' < RingCapacity ta ->
  joined_run (run_for d3 first timestamp next) (run_for ta first' timestamp next') =
    (true, [G13.run_message (run_for d3 first timestamp next);
            G13.run_message (run_for ta first' timestamp next')]).
Proof.
  intros Hd Ha Ed Ea Hne Hn Hn'. unfold joined_run, G13.AppleAgxG13BuildJoinedRun.
  rewrite !G13.encode_run_cases, !run_for_valid by done. cbn [is_null G13.QueueType run_for
    G13.EventNumber]. rewrite Ed, Ea, (proj2 (Z.eqb_neq (EventNumber d3) (EventNumber ta)) Hne). done.
Qed.

(** Only looks. *)
Definition is_saw (g : signal) : Prop := match g with Saw _ _ => True | _ => False end.
Definition looks S S' : Prop := exists l, passes l S S' /\ Forall is_saw l.

Lemma looks_refl S : looks S S.
Proof. exists []. by split; [apply passes_nil|]. Qed.

Lemma looks_trans S1 S2 S3 : looks S1 S2 -> looks S2 S3 -> looks S1 S3.
Proof.
  intros (l1 & H1 & F1) (l2 & H2 & F2). exists (l1 ++ l2).
  split; [by eapply passes_app|by apply Forall_app].
Qed.

(** What preparing a queue for a work gives: entries after the write pointer that was read,
    or a refusal because a pointer could not be read or is out of range, or because the ring
    has no room. *)
Definition prepares b count first timestamp
    (p : bool * APPLE_AGX_G13_QUEUE_BATCH_PUBLICATION * G13.APPLE_AGX_G13_RUN_COMMAND) S S'
    : Prop :=
  let seen current done :=
    passes [Saw (CpuWritePointer b) current; Saw (GpuDonePointer b) done] S S' in
  if p.1.1 then exists current done, seen current done /\
    slots_after b current done count p.1.2 /\
    p.2 = run_for b first timestamp (NextWritePointer p.1.2)
  else looks S S' /\ forall current done, seen current done ->
    RingCapacity b <= current \/ RingCapacity b <= done \/ room b current done < count.

Lemma prepare_spec b w first timestamp run S :
  bound b -> 0 <= GpuAddressCount w <= 3 ->
  wp (AppleAgxG13PrepareQueue Wio b w first timestamp blank_publication run)
    (fun p S' => prepares b (GpuAddressCount w) first timestamp p S S') S.
Proof.
  intros Hb Hn. destruct (bound_spec b Hb) as (_ & _ & Hc & _ & _).
  unfold AppleAgxG13PrepareQueue.
  assert (forall l S', passes l S S' -> Forall is_saw l -> (length l < 2)%nat ->
    prepares b (GpuAddressCount w) first timestamp (false, blank_publication, run) S S') as Hno.
  { intros l S' HS Hl Hlen. split; [by exists l|]. intros current done H.
    unfold passes in *. rewrite HS in H. apply app_inv_head in H. by subst l; simpl in Hlen; lia. }
  eapply wp_seq; [apply read_spec|]. intros [ok current] S1 [H1 Hcur]. cbn [fst snd] in *.
  destruct ok; cbn [negb]; [|apply wp_ret; apply (Hno [] S1); [exact H1|done|simpl; lia]].
  eapply wp_seq; [apply read_spec|]. intros [ok done_] S2 [H2 Hdone]. cbn [fst snd] in *.
  assert (forall l, passes l S1 S2 -> passes (Saw (CpuWritePointer b) current :: l) S S2) as H12
    by (intros l Hl; by eapply (passes_app [_])).
  destruct ok; cbn [negb]; 
    [|apply wp_ret, (Hno [Saw (CpuWritePointer b) current] S2);
      [by apply H12|by repeat constructor|simpl; lia]].
  apply H12 in H2.
  assert ((RingCapacity b <= current \/ RingCapacity b <= done_ \/
    room b current done_ < GpuAddressCount w) ->
    prepares b (GpuAddressCount w) first timestamp (false, blank_publication, run) S S2) as Hfull.
  { intros Hf. split; [eexists; split; [exact H2|by repeat constructor]|].
    intros current' done' H. unfold passes in *. rewrite H2 in H. apply app_inv_head in H.
    by injection H as <- <-. }
  destruct (Z.leb_spec (RingCapacity b) current); [apply wp_ret, Hfull; by left|].
  destruct (Z.leb_spec (RingCapacity b) done_); [apply wp_ret, Hfull; right; by left|].
  cbn [orb]. unfold fits in *.
  pose proof (take_slots_spec (RingCapacity b) current done_ (GpuAddressCount w)
    (RingIndices blank_publication) ltac:(lia) ltac:(lia) ltac:(lia) ltac:(done)) as Ht.
  destruct (take_slots _ _ _ _) as [[ind next]|]; [|apply wp_ret, Hfull; right; by right].
  destruct Ht as (Hr & _ & Hx & Hi). apply wp_ret. exists current, done_.
  split; [exact H2|]. split; [|done]. split; done || lia.
Qed.

Lemma prepared_next b current done_ count p :
  slots_after b current done_ count p -> NextWritePointer p < RingCapacity b.
Proof.
  intros []. rewrite slots_next0. apply Z.mod_pos_bound. lia.
Qed.

(** ** The three kinds of job *)

Inductive job_kind := RenderJob | JointJob | ComputeJob.

Definition submit_of (k : job_kind) : ptr RT -> ptr APPLE_AGX_G13_QUEUE_RUNTIME_SUBMISSION ->
    M St (RESULT * ptr RT) :=
  match k with
  | RenderJob => AppleAgxG13QueueRuntimeSubmit
  | JointJob => AppleAgxG13QueueRuntimeSubmitRenderWithCompute
  | ComputeJob => AppleAgxG13QueueRuntimeSubmitCompute
  end.

(** The queues of a job in the order in which they are published: each with its work and
    whether it runs for the first time. *)
Definition job_queues (k : job_kind) r (s : APPLE_AGX_G13_QUEUE_RUNTIME_SUBMISSION)
    : list (APPLE_AGX_G13_QUEUE_BINDING * APPLE_AGX_G13_WORK_PUBLICATION * bool) :=
  let compute := (cfg_Compute (Config r), sub_Compute s, ComputeFirstRun r) in
  let render := [(cfg_D3 (Config r), sub_D3 s, D3FirstRun r);
                 (cfg_Ta (Config r), sub_Ta s, TaFirstRun r)] in
  match k with
  | RenderJob => render | JointJob => compute :: render | ComputeJob => [compute]
  end.

Definition job_rings k r s (pubs : list APPLE_AGX_G13_QUEUE_BATCH_PUBLICATION) : list ring_job :=
  zip_with (fun q p => (q.1, p)) (job_queues k r s) pubs.
Definition job_runs k r s (pubs : list APPLE_AGX_G13_QUEUE_BATCH_PUBLICATION)
    : list (Z * list Z) :=
  zip_with (fun q p => (QueueType q.1.1,
    G13.run_message (run_for q.1.1 q.2 (sub_Timestamp s) (NextWritePointer p))))
    (job_queues k r s) pubs.

(** The runtime once the job is with the firmware. *)
Definition job_submitted k r s (pubs : list APPLE_AGX_G13_QUEUE_BATCH_PUBLICATION) : RT :=
  match k, pubs with
  | RenderJob, [d3; ta] => render_submitted r s d3 ta
  | JointJob, [compute; d3; ta] =>
      render_submitted
        (r <| ComputePending := await (ComputePending r) (cfg_Compute (Config r))
                                  (sub_Compute s) compute |>
           <| ComputeTerminal := false |> <| ComputeInRender := true |>
           <| ComputeFirstRun := false |>) s d3 ta
  | ComputeJob, [compute] => compute_submitted r s compute
  | _, _ => r
  end.

(** A runtime that was initialised, and a submission with values of their types. *)
Definition configured r : Prop := config_valid (Config r) = true /\ Io r = Wio.
Definition work_typed (w : APPLE_AGX_G13_WORK_PUBLICATION) : Prop :=
  is_u32 (GpuAddressCount w) /\ is_u32 (PreparedRangeCount w) /\ is_u32 (wp_ExpectedStamp w).
Definition submission_typed (s : APPLE_AGX_G13_QUEUE_RUNTIME_SUBMISSION) : Prop :=
  work_typed (sub_Ta s) /\ work_typed (sub_D3 s) /\ work_typed (sub_Compute s).

(** The pointers of a queue were read, and its entries follow from them. *)
Definition placed (l : list signal)
    (q : APPLE_AGX_G13_QUEUE_BINDING * APPLE_AGX_G13_WORK_PUBLICATION * bool)
    (p : APPLE_AGX_G13_QUEUE_BATCH_PUBLICATION) : Prop :=
  exists current done, Saw (CpuWritePointer q.1.1) current ∈ l /\
    Saw (GpuDonePointer q.1.1) done ∈ l /\
    slots_after q.1.1 current done (GpuAddressCount q.1.2) p.

(** A submission is refused, or attempted. *)
Definition submits k r s (x : RESULT) r' S S' : Prop :=
  (r' = r /\ looks S S' /\
   (x = AppleAgxG13QueueRuntimeResultInvalidArgument \/
    x = AppleAgxG13QueueRuntimeResultInvalidState \/ x = AppleAgxG13QueueRuntimeResultBusy)) \/
  exists S1 l pubs, passes l S S1 /\ Forall is_saw l /\
    Phase r = AppleAgxG13QueueRuntimeReady /\ sub_Fence s <> 0 /\
    Forall2 (placed l) (job_queues k r s) pubs /\
    attempted (begin_job r s) (job_script S1.2 (job_rings k r s pubs) (job_runs k r s pubs))
      (job_submitted k (begin_job r s) s pubs) x r' S1 S'.

Lemma configured_queues r :
  configured r ->
  bound (cfg_Ta (Config r)) /\ QueueType (cfg_Ta (Config r)) = 0 /\
  bound (cfg_D3 (Config r)) /\ QueueType (cfg_D3 (Config r)) = 1 /\
  EventNumber (cfg_D3 (Config r)) <> EventNumber (cfg_Ta (Config r)) /\
  (HasCompute (Config r) = true ->
     bound (cfg_Compute (Config r)) /\ QueueType (cfg_Compute (Config r)) = 2).
Proof.
  assert (forall b t, AppleAgxG13QueueBindingValid (Some b) t = true ->
    0 <= t <= G13.AppleAgxG13QueueCompute -> bound b /\ QueueType b = t) as Hb.
  { intros b t H Ht. assert (QueueType b = t) as <-; [|done].
    unfold AppleAgxG13QueueBindingValid in H.
    rewrite !andb_true_iff, Z.eqb_eq in H. by destruct H as [[[[[[[[[? ?] ?] ?] ?] ?] ?] ?] ?] ?]. }
  intros [H _]. unfold config_valid in H. rewrite !andb_true_iff in H.
  destruct H as [[[[[_ Ha] Hd] Hc] Hne] _].
  destruct (Hb _ _ Ha), (Hb _ _ Hd); [done..|]. apply negb_true_iff, Z.eqb_neq in Hne.
  split_and!; auto. intros Hh. rewrite Hh in Hc. by apply Hb.
Qed.

Lemma work_valid_spec w :
  AppleAgxG13WorkValid (Some w) = true -> work_typed w -> 0 <= GpuAddressCount w <= 3 /\ publishable w.
Proof.
  unfold AppleAgxG13WorkValid, work_typed, publishable, fits. intros H (Hc & Hp & _).
  destruct (_ || _ || _) eqn:E; [done|]. rewrite !orb_false_iff, Z.ltb_ge in E.
  change APPLE_AGX_G13_QUEUE_PUBLISH_MAX with 3 in E. split; [lia|]. split; [lia|]. split; [lia|].
  intros Hz. destruct (Z.eqb_spec (PreparedRangeCount w) (GpuAddressCount w)) as [Ec|];
    [destruct E as [[E _] _]; apply Z.eqb_neq in E; lia|].
  cbn [negb andb] in H. destruct (Source w), (Destination w); try done;
    rewrite !andb_false_r in H; done.
Qed.

(** The end of a submission that has prepared its queues. *)
Lemma attempt_spec k r s rings runs submitted l pubs S S1 :
  configured r -> Phase r = AppleAgxG13QueueRuntimeReady -> sub_Fence s <> 0 ->
  passes l S S1 -> Forall is_saw l -> Forall2 (placed l) (job_queues k r s) pubs ->
  rings = job_rings k r s pubs -> runs = job_runs k r s pubs ->
  submitted = job_submitted k (begin_job r s) s pubs -> rings <> [] ->
  Forall (fun j => publishable j.1.2 /\ is_Some (RingCpuAddress j.1.1)) rings ->
  wp ('(x, r') ← submit_job (begin_job r s) rings runs submitted; mret (x, Some r'))
    (fun p S' => exists r', p.2 = Some r' /\ submits k r s p.1 r' S S') S1.
Proof.
  intros [_ Hr] Hp Hf HS Hl Hpl -> -> -> Hne Hj.
  eapply wp_seq; [by apply submit_job_spec|]. intros [x r'] S2 H. apply wp_ret. exists r'.
  split; [done|]. right. by exists S1, l, pubs.
Qed.

Lemma refused_spec k r s x S1 S :
  looks S S1 ->
  (x = AppleAgxG13QueueRuntimeResultInvalidArgument \/
   x = AppleAgxG13QueueRuntimeResultInvalidState \/ x = AppleAgxG13QueueRuntimeResultBusy) ->
  wp (mret (x, Some r)) (fun p S' => exists r', p.2 = Some r' /\ submits k r s p.1 r' S S') S1.
Proof. intros HS Hx. apply wp_ret. exists r. split; [done|]. by left. Qed.

Lemma prepared_looks b count first timestamp p S S' :
  prepares b count first timestamp p S S' -> looks S S'.
Proof.
  unfold prepares. destruct p.1.1; [|by intros [? _]].
  intros (current & done_ & HS & _). eexists. split; [exact HS|]. by repeat constructor.
Qed.

Lemma placed_weaken l l' q p : l ⊆ l' -> placed l q p -> placed l' q p.
Proof. intros Hl (c & d & Hc & Hd & Hs). exists c, d. auto. Qed.

(** A queue of the job is prepared, and the rest goes on. *)
Lemma prepare_seq {A} b w first timestamp l S0 S (k : _ -> M St A) (Q : A -> St -> Prop) :
  bound b -> 0 <= GpuAddressCount w <= 3 -> passes l S0 S -> Forall is_saw l ->
  (forall p run S', looks S0 S' -> wp (k (false, p, run)) Q S') ->
  (forall p l' S', passes l' S0 S' -> Forall is_saw l' -> l ⊆ l' -> placed l' (b, w, first) p ->
     NextWritePointer p < RingCapacity b ->
     wp (k (true, p, run_for b first timestamp (NextWritePointer p))) Q S') ->
  wp (AppleAgxG13PrepareQueue Wio b w first timestamp blank_publication blank_run ≫= k) Q S.
Proof.
  intros Hb Hn HS Hl Hno Hyes. eapply wp_seq; [by apply prepare_spec|].
  intros [[[] p] run] S1 H.
  - destruct H as (current & done_ & H1 & Hs & Er). cbn [fst snd] in *. rewrite Er.
    apply (Hyes p (l ++ [Saw (CpuWritePointer b) current; Saw (GpuDonePointer b) done_])).
    + by eapply passes_app.
    + apply Forall_app. split; [done|]. by repeat constructor.
    + intros g Hg. apply elem_of_app. by left.
    + exists current, done_. split_and!; [set_solver|set_solver|done].
    + by eapply prepared_next.
  - apply Hno. eapply looks_trans; [by exists l|by eapply prepared_looks].
Qed.

Lemma render_valid_spec r s :
  render_invalid r s = false -> submission_typed s ->
  sub_Fence s <> 0 /\ 0 <= GpuAddressCount (sub_Ta s) <= 3 /\ publishable (sub_Ta s) /\
  0 <= GpuAddressCount (sub_D3 s) <= 3 /\ publishable (sub_D3 s).
Proof.
  unfold render_invalid. intros H (Ha & Hd & _).
  rewrite !orb_false_iff, !negb_false_iff, Z.eqb_neq in H.
  destruct H as [[[[[[Hf _] _] Va] Vd] _] _].
  destruct (work_valid_spec _ Va Ha), (work_valid_spec _ Vd Hd). done.
Qed.

Lemma joint_valid_spec r s :
  joint_invalid r s = false -> submission_typed s ->
  HasCompute (Config r) = true /\ sub_Fence s <> 0 /\
  0 <= GpuAddressCount (sub_Ta s) <= 3 /\ publishable (sub_Ta s) /\
  0 <= GpuAddressCount (sub_D3 s) <= 3 /\ publishable (sub_D3 s) /\
  0 <= GpuAddressCount (sub_Compute s) <= 3 /\ publishable (sub_Compute s).
Proof.
  unfold joint_invalid. intros H (Ha & Hd & Hc).
  rewrite !orb_false_iff, !negb_false_iff, Z.eqb_neq in H.
  destruct H as [[[[[[[[[[Hh Hf] _] _] _] Va] Vd] Vc] _] _] _].
  destruct (work_valid_spec _ Va Ha), (work_valid_spec _ Vd Hd), (work_valid_spec _ Vc Hc). done.
Qed.

Lemma compute_valid_spec r s :
  compute_invalid r s = false -> submission_typed s ->
  HasCompute (Config r) = true /\ Phase r = AppleAgxG13QueueRuntimeReady /\ sub_Fence s <> 0 /\
  0 <= GpuAddressCount (sub_Compute s) <= 3 /\ publishable (sub_Compute s).
Proof.
  unfold compute_invalid. intros H (_ & _ & Hc).
  rewrite !orb_false_iff, !negb_false_iff, Z.eqb_neq, bool_decide_eq_true in H.
  destruct H as [[[[[[[Hh Hp] Hf] _] Vc] _] _] _]. by destruct (work_valid_spec _ Vc Hc).
Qed.

Lemma submit_compute_spec r s S :
  configured r -> submission_typed s ->
  wp (AppleAgxG13QueueRuntimeSubmitCompute (Some r) (Some s)) (fun p S' =>
    exists r', p.2 = Some r' /\ submits ComputeJob r s p.1 r' S S') S.
Proof.
  intros Hr Hs. unfold AppleAgxG13QueueRuntimeSubmitCompute.
  destruct (compute_invalid r s) eqn:Hv; [apply refused_spec; [apply looks_refl|by left]|].
  destruct (compute_valid_spec r s Hv Hs) as (Hh & Hp & Hf & Hn & Hw). cbv zeta.
  destruct (configured_queues r Hr) as (_ & _ & _ & _ & _ & Hc). destruct (Hc Hh) as [Hb Ht].
  rewrite (proj2 Hr).
  apply (prepare_seq _ _ _ _ [] S); [done|done|apply passes_nil|done| |].
  { intros p run S' HS. cbn [negb orb]. apply refused_spec; auto. }
  intros p l S1 HS Hl _ Hpl Hnext. rewrite encoded_run by done. cbn [fst snd negb orb].
  eapply (attempt_spec ComputeJob r s _ _ _ l [p]); try done; [by constructor| |].
  - unfold job_runs. simpl. by rewrite Ht.
  - constructor; [|done]. split; [done|]. apply bound_spec in Hb. apply Hb.
Qed.

Lemma submit_render_spec r s S :
  configured r -> submission_typed s ->
  wp (AppleAgxG13QueueRuntimeSubmit (Some r) (Some s)) (fun p S' =>
    exists r', p.2 = Some r' /\ submits RenderJob r s p.1 r' S S') S.
Proof.
  intros Hr Hs. unfold AppleAgxG13QueueRuntimeSubmit.
  destruct (render_invalid r s) eqn:Hv; [apply refused_spec; [apply looks_refl|by left]|].
  destruct (render_valid_spec r s Hv Hs) as (Hf & Hna & Hwa & Hnd & Hwd). cbv zeta.
  destruct (configured_queues r Hr) as (Ha & Hta & Hd & Htd & Hne & _). rewrite (proj2 Hr).
  destruct (Phase r) eqn:Hp; try (apply refused_spec; [apply looks_refl|auto]).
  apply (prepare_seq _ _ _ _ [] S); [done|done|apply passes_nil|done| |].
  { intros p run S' HS. cbn [negb orb]. apply refused_spec; auto. }
  intros pa l S1 HS Hl _ Hpa Hxa. cbn [negb].
  apply (prepare_seq _ _ _ _ l S); [done..| |].
  { intros p run S' HS'. cbn [negb orb]. case_match. apply refused_spec; auto. }
  intros pd l' S2 HS' Hl' Hll Hpd Hxd. rewrite joined_runs by done. cbn [negb orb].
  eapply (attempt_spec RenderJob r s _ _ _ l' [pd; pa]); try done.
  - constructor; [done|]. constructor; [by eapply placed_weaken|constructor].
  - unfold job_runs. simpl. by rewrite Hta, Htd.
  - apply bound_spec in Ha as (_ & _ & _ & ? & _), Hd as (_ & _ & _ & ? & _).
    constructor; [by split|]. constructor; [by split|constructor].
Qed.

Lemma submit_joint_spec r s S :
  configured r -> submission_typed s ->
  wp (AppleAgxG13QueueRuntimeSubmitRenderWithCompute (Some r) (Some s)) (fun p S' =>
    exists r', p.2 = Some r' /\ submits JointJob r s p.1 r' S S') S.
Proof.
  intros Hr Hs. unfold AppleAgxG13QueueRuntimeSubmitRenderWithCompute.
  destruct (joint_invalid r s) eqn:Hv; [apply refused_spec; [apply looks_refl|by left]|].
  destruct (joint_valid_spec r s Hv Hs) as (Hh & Hf & Hna & Hwa & Hnd & Hwd & Hnc & Hwc). cbv zeta.
  destruct (configured_queues r Hr) as (Ha & Hta & Hd & Htd & Hne & Hc).
  destruct (Hc Hh) as [Hb Htc]. rewrite (proj2 Hr).
  destruct (Phase r) eqn:Hp; try (apply refused_spec; [apply looks_refl|auto]).
  apply (prepare_seq _ _ _ _ [] S); [done|done|apply passes_nil|done| |].
  { intros p run S' HS. cbn [negb orb]. apply refused_spec; auto. }
  intros pc l S1 HS Hl _ Hpc Hxc. rewrite encoded_run by done. cbn [fst snd negb orb].
  apply (prepare_seq _ _ _ _ l S); [done..| |].
  { intros p run S' HS'. cbn [negb orb]. apply refused_spec; auto. }
  intros pa l1 S2 HS1 Hl1 Hll1 Hpa Hxa. cbn [negb].
  apply (prepare_seq _ _ _ _ l1 S); [done..| |].
  { intros p run S' HS'. cbn [negb orb]. case_match. apply refused_spec; auto. }
  intros pd l2 S3 HS2 Hl2 Hll2 Hpd Hxd. rewrite joined_runs by done. cbn [negb orb].
  eapply (attempt_spec JointJob r s _ _ _ l2 [pc; pd; pa]); try done.
  - constructor; [eapply placed_weaken, placed_weaken; done|].
    constructor; [done|]. constructor; [by eapply placed_weaken|constructor].
  - unfold job_runs. simpl. by rewrite Hta, Htd, Htc.
  - apply bound_spec in Ha as (_ & _ & _ & ? & _), Hd as (_ & _ & _ & ? & _),
      Hb as (_ & _ & _ & ? & _).
    constructor; [by split|]. constructor; [by split|]. constructor; [by split|constructor].
Qed.

(** Every submission ends. *)
Lemma submit_spec k r s S :
  configured r -> submission_typed s ->
  wp (submit_of k (Some r) (Some s)) (fun p S' =>
    exists r', p.2 = Some r' /\ submits k r s p.1 r' S S') S.
Proof.
  destruct k; [apply submit_render_spec|apply submit_joint_spec|apply submit_compute_spec].
Qed.

(** C6: a submission follows its script.  Every submission returns.  It is refused, having
    only read pointers and changed nothing, or it is attempted: every queue's entries lie
    behind the write pointer that was read and are free; then the device sees, in this
    order and without anything between, every work item, every ring entry with the address
    of its work, a barrier, the new write pointers, a barrier and the run messages.  A work
    item is seen with the bytes memory holds for it once the pointers have been read and the
    works before it and it itself have been copied to where they go, if flushing leaves
    memory as it is; in any case with its length.  With Ok the whole script has been followed
    and the job is pending.  When a step fails nothing of the script after it is done.  If no
    write pointer had been published, the result is MemoryFailed, the firmware is told nothing,
    and the runtime is Ready with every record of a pending job or an untaken completion
    cleared.  If one had been, the runtime is Faulted, in one of two ways: Quiesce has stopped
    the firmware for the job's fence, the result is MemoryFailed or TransportFailed and nothing
    is pending any more; or it has not, the result is ResetFailed, and the job's fence stays
    pending. *)
Theorem queue_submit_scripted k r s S :
  configured r -> submission_typed s ->
  exists x r' S', submit_of k (Some r) (Some s) S = Some ((x, Some r'), S') /\
    submits k r s x r' S S'.
Proof.
  intros Hr Hs. pose proof (submit_spec k r s S Hr Hs) as H.
  apply wp_result in H as ([x q] & S' & E & r' & Eq & H). cbn in Eq. subst q. eauto.
Qed.
End passing.

(** ** A machine *)

Module Demo.

(** Words that the firmware shares, at their addresses. *)
Definition words : Type := Z -> Z.
Definition put_word (a v : Z) (w : words) : words := fun b => if b =? a then v else w b.

Definition io : APPLE_AGX_G13_QUEUE_RUNTIME_IO words := {|
  FlushForDevice := Some (fun _ _ s => (true, s));
  MemoryBarrier := Some (fun s => s);
  PublishU32 := Some (fun a v s => (true, (put_word (default 0 a) v s.1, s.2)));
  ReadU32 := Some (fun a _ s => ((true, s.1 (default 0 a)), s));
  SendRunMessage := Some (fun _ _ s => (true, s));
  Quiesce := Some (fun _ s => (true, s));
  Recover := Some (fun _ _ s => (true, s));
|}.

Definition queue (type base event : Z) : APPLE_AGX_G13_QUEUE_BINDING := {|
  QueueType := type; QueueInfoGpuAddress := 0x1000 * base; RingCpuAddress := Some (0x10000 * base);
  RingCapacity := 8; CpuWritePointer := Some (0x100 * base); GpuDonePointer := Some (0x100 * base + 4);
  Stamp := Some (0x100 * base + 8); EventNumber := event |}.
Definition config : APPLE_AGX_G13_QUEUE_RUNTIME_CONFIG := {|
  cfg_Ta := queue 0 1 3; cfg_D3 := queue 1 2 5; cfg_Compute := queue 2 3 7; HasCompute := true;
  TimeoutTicks := 1000 |}.

Definition work (base count : Z) : APPLE_AGX_G13_WORK_PUBLICATION := {|
  PreparedRanges := replicate 3 {| rng_Address := Some base; rng_Bytes := 4 |};
  PreparedRangeCount := count; Source := NULL; Destination := NULL; Bytes_ := 0;
  GpuAddresses := [0x2000 * base; 0x4000 * base; 0x6000 * base]; GpuAddressCount := count;
  wp_ExpectedStamp := 7 |}.
Definition render : APPLE_AGX_G13_QUEUE_RUNTIME_SUBMISSION := {|
  sub_Fence := 9; sub_Timestamp := 1; NowTicks := 100; sub_Ta := work 1 2; sub_D3 := work 2 2;
  sub_Compute := work 3 1; ComputeOnly := false; TaLeadingBarrier := false |}.

Definition start : (words * list signal) * ram := ((fun _ => 0, []), fun _ => 0).
Definition ready : APPLE_AGX_G13_QUEUE_RUNTIME (words * list signal) :=
  runtime_zero config (watched io).

Lemma io_valid : AppleAgxG13QueueIoValid (Some io) = true.
Proof. reflexivity. Qed.

Lemma ready_configured : configured io ready.
Proof. by split. Qed.

Lemma render_typed : submission_typed render.
Proof. repeat split; unfold fits; simpl; lia. Qed.

(** The render runs, and this is what the device sees. *)
Example render_log :
  (fun p => (p.1.1, skipn 4 p.2.1.2)) <$> submit_of RenderJob (Some ready) (Some render) start =
  Some (AppleAgxG13QueueRuntimeResultOk,
    [Flushed (Some 2) [0; 0; 0; 0]; Flushed (Some 2) [0; 0; 0; 0];
     Flushed (Some 1) [0; 0; 0; 0]; Flushed (Some 1) [0; 0; 0; 0];
     Flushed (Some 0x20000) (le64 0x4000); Flushed (Some 0x20008) (le64 0x8000);
     Flushed (Some 0x10000) (le64 0x2000); Flushed (Some 0x10008) (le64 0x4000);
     Ordered; Published (Some 0x200) 2; Published (Some 0x100) 2; Ordered;
     Kicked 1 (G13.run_message (run_for (queue 1 2 5) true 1 2));
     Kicked 0 (G13.run_message (run_for (queue 0 1 3) true 1 2))]).
Proof. by vm_compute. Qed.
End Demo.

Lemma queue_submit_scripted_witness :
  exists x r' S', submit_of RenderJob (Some Demo.ready) (Some Demo.render) Demo.start =
      Some ((x, Some r'), S') /\
    submits Demo.io RenderJob Demo.ready Demo.render x r' Demo.start S'.
Proof.
  exact (queue_submit_scripted Demo.io Demo.io_valid RenderJob Demo.ready Demo.render Demo.start
    Demo.ready_configured Demo.render_typed).
Defined.
End Script.
