(* ===== verification/QueueLife.v ===== *)
(** * The life of the work queues (shared/src/apple_agx_g13_queue_runtime.c)

    The entry points of the queue runtime as the steps of a transition system, over any
    callbacks and any firmware: every call returns and moves the runtime along the edges
    of a small state machine; a job that is reported done has been seen to be done on each
    of its queues; no job is completed twice, and none is lost unless stopping it failed. *)

From S2P Require Import Prelude Arrays Bytes Ring Serial G13Codec Interact QueueRuntime.
From S2P Require Import QueueScript.
Import Interact.

Module Life.
Import Queue Script.

(** ** Calls *)

Inductive op :=
  | Submit (k : job_kind) (s : APPLE_AGX_G13_QUEUE_RUNTIME_SUBMISSION)
  | Event (message : list Z) (bytes : Z)
  | Timer (now : Z)
  | Cancel (fence : Z)
  | Reset
  | Take.

Inductive answer :=
  | Answered (x : APPLE_AGX_G13_QUEUE_RUNTIME_RESULT)
  | Taken (c : option APPLE_AGX_G13_QUEUE_RUNTIME_COMPLETION).

(** What a call did: its answer, and the signals that passed. *)
Definition call_record : Type := op * answer * list signal.

(** ** The state machine *)

(** The runtime as its client sees it. *)
Inductive view :=
  | Idle
  | Busy (fence : Z)
  | Finished (fence : Z) (status : APPLE_AGX_G13_QUEUE_COMPLETION_STATUS)
  | Broken.

Definition usable (status : APPLE_AGX_G13_QUEUE_COMPLETION_STATUS) : bool :=
  match status with
  | AppleAgxG13QueueCompletionSuccess | AppleAgxG13QueueCompletionRecovered => true
  | _ => false
  end.

Definition Ok : APPLE_AGX_G13_QUEUE_RUNTIME_RESULT := AppleAgxG13QueueRuntimeResultOk.
Definition ResetFailed : APPLE_AGX_G13_QUEUE_RUNTIME_RESULT :=
  AppleAgxG13QueueRuntimeResultResetFailed.
Definition refusal (x : APPLE_AGX_G13_QUEUE_RUNTIME_RESULT) : Prop :=
  x = AppleAgxG13QueueRuntimeResultInvalidArgument \/
  x = AppleAgxG13QueueRuntimeResultInvalidState \/ x = AppleAgxG13QueueRuntimeResultBusy.

Inductive edge : view -> op -> answer -> view -> Prop :=
  | edge_refused v o x : refusal x -> o <> Take -> edge v o (Answered x) v
  | edge_accepted k s :
      sub_Fence s <> 0 -> edge Idle (Submit k s) (Answered Ok) (Busy (sub_Fence s))
  | edge_undone k s : edge Idle (Submit k s) (Answered MemoryFailed) Idle
  | edge_broken k s x :
      x = MemoryFailed \/ x = TransportFailed \/ x = ResetFailed ->
      edge Idle (Submit k s) (Answered x) Broken
  | edge_event f m n : edge (Busy f) (Event m n) (Answered Ok) (Busy f)
  | edge_done f m n status :
      usable status = true -> edge (Busy f) (Event m n) (Answered Ok) (Finished f status)
  | edge_faulted f m n x :
      x = AppleAgxG13QueueRuntimeResultFaulted \/ x = TransportFailed ->
      edge (Busy f) (Event m n) (Answered x) (Finished f AppleAgxG13QueueCompletionFaulted)
  | edge_event_lost f m n : edge (Busy f) (Event m n) (Answered ResetFailed) Broken
  | edge_timer f now : edge (Busy f) (Timer now) (Answered Ok) (Busy f)
  | edge_cancelled f :
      edge (Busy f) (Cancel f) (Answered AppleAgxG13QueueRuntimeResultCancelled)
        (Finished f AppleAgxG13QueueCompletionCancelled)
  | edge_cancel_lost f : edge (Busy f) (Cancel f) (Answered ResetFailed) Broken
  | edge_reset v : (forall f status, v <> Finished f status) -> edge v Reset (Answered Ok) Idle
  | edge_reset_failed v :
      (forall f status, v <> Finished f status) -> edge v Reset (Answered ResetFailed) Broken
  | edge_not_quiet f : edge (Busy f) Reset (Answered ResetFailed) (Busy f)
  | edge_taken f status :
      edge (Finished f status) Take (Taken (Some {| cmp_Fence := f; Status := status |}))
        (if usable status then Idle else Broken)
  | edge_nothing v : (forall f status, v <> Finished f status) -> edge v Take (Taken None) v.

(** ** Histories *)

(** The last submission that was accepted, with what passed in it, and the calls since. *)
Definition current_job (h : list call_record)
    : option (job_kind * APPLE_AGX_G13_QUEUE_RUNTIME_SUBMISSION * list signal * list call_record) :=
  fold_left (fun job (e : call_record) =>
    match e with
    | (Submit k s, Answered AppleAgxG13QueueRuntimeResultOk, l) => Some (k, s, l, [])
    | _ => (fun '(k, s, l, later) => (k, s, l, later ++ [e])) <$> job
    end) h None.

(** The fences of the jobs that were accepted and of the completions that were taken. *)
Definition accepted_by (e : call_record) : list Z :=
  match e with
  | (Submit _ s, Answered AppleAgxG13QueueRuntimeResultOk, _) => [sub_Fence s]
  | _ => []
  end.
Definition taken_by (e : call_record) : list Z :=
  match e with (_, Taken (Some c), _) => [cmp_Fence c] | _ => [] end.
Definition accepted (h : list call_record) : list Z := concat (map accepted_by h).
Definition taken (h : list call_record) : list Z := concat (map taken_by h).

(** Calls that may give up a job. *)
Definition gives_up (e : call_record) : bool :=
  match e with
  | (Reset, _, _) | (_, Answered AppleAgxG13QueueRuntimeResultResetFailed, _) => true
  | _ => false
  end.

(** A queue was seen to be done: in one call an event with the queue's number came in, and
    the stamp that was read had reached the expected one, and the done pointer the end
    of the job's entries without passing the write pointer. *)
Definition seen_done (later : list call_record) (b : APPLE_AGX_G13_QUEUE_BINDING)
    (stamp_wanted pointer_wanted : Z) : Prop :=
  exists m n x l e stamp done write,
    (Event m n, x, l) ∈ later /\
    G13.AppleAgxG13DecodeEvent (Some m) n (Some G13.event_zero) = (true, Some e) /\
    G13.AppleAgxG13EventHasNumber (Some e) (EventNumber b) = true /\
    [Saw (Stamp b) stamp; Saw (GpuDonePointer b) done; Saw (CpuWritePointer b) write] ⊆ l /\
    (stamp = stamp_wanted \/ serial_after 32 stamp stamp_wanted = true) /\
    G13.done_in_window (RingCapacity b) pointer_wanted done write.

Section living.
Context {W : Type} (io : APPLE_AGX_G13_QUEUE_RUNTIME_IO W).
Notation St := ((W * list signal) * ram)%type.
Notation Wio := (watched io).
Notation RT := (APPLE_AGX_G13_QUEUE_RUNTIME (W * list signal)).
Notation RESULT := APPLE_AGX_G13_QUEUE_RUNTIME_RESULT.
Abbreviation submits := (submits io).
Abbreviation attempted := (attempted io).
Implicit Types (S : St) (l : list signal) (r : RT) (o : op).

Definition answered (m : M St (RESULT * ptr RT)) r : M St (answer * RT) :=
  '(x, r') ← m; mret (Answered x, default r r').

Definition execute o r : M St (answer * RT) :=
  match o with
  | Submit k s => answered (submit_of k (Some r) (Some s)) r
  | Event m n => answered (AppleAgxG13QueueRuntimeHandleEvent (Some r) (Some m) n) r
  | Timer now => answered (mret (AppleAgxG13QueueRuntimeCheckTimeout (Some r) now)) r
  | Cancel fence => answered (AppleAgxG13QueueRuntimeCancel (Some r) fence) r
  | Reset => answered (AppleAgxG13QueueRuntimeReset (Some r)) r
  | Take =>
      let '(ok, r', c) := AppleAgxG13QueueRuntimeTakeCompletion (Some r) (Some completion_zero) in
      mret (Taken (if ok : bool then c else None), default r r')
  end.

Definition op_typed o : Prop := match o with Submit _ s => submission_typed s | _ => True end.

Definition view_of r : view :=
  match Phase r with
  | AppleAgxG13QueueRuntimeReady => Idle
  | AppleAgxG13QueueRuntimeSubmitted | AppleAgxG13QueueRuntimeComputeSubmitted =>
      Busy (PendingFence r)
  | AppleAgxG13QueueRuntimeCompletionPending =>
      Finished (cmp_Fence (Completion r)) (Status (Completion r))
  | _ => Broken
  end.

(** Nothing is pending. *)
Record idle r : Prop := {
  idle_fence : PendingFence r = 0;
  idle_completion : CompletionAvailable r = false;
  idle_ta : TaPending r = pending_zero;
  idle_d3 : D3Pending r = pending_zero;
  idle_compute : ComputePending r = pending_zero;
  idle_terminal : ComputeTerminal r = false;
  idle_joint : ComputeInRender r = false;
}.

(** The invariant of the runtime. *)
Record healthy r : Prop := {
  healthy_config : configured io r;
  healthy_phase :
    match Phase r with
    | AppleAgxG13QueueRuntimeReady => idle r
    | AppleAgxG13QueueRuntimeSubmitted => PendingFence r <> 0 /\ CompletionAvailable r = false
    | AppleAgxG13QueueRuntimeComputeSubmitted =>
        PendingFence r <> 0 /\ CompletionAvailable r = false /\ ComputeTerminal r = true
    | AppleAgxG13QueueRuntimeCompletionPending =>
        PendingFence r <> 0 /\ CompletionAvailable r = true /\
        cmp_Fence (Completion r) = PendingFence r
    | AppleAgxG13QueueRuntimeFaulted => CompletionAvailable r = false
    | AppleAgxG13QueueRuntimeComputeComplete => False
    end;
}.

Lemma idle_cleared r phase :
  idle (AppleAgxG13ClearPending (r <| Phase := phase |>)).
Proof. by constructor. Qed.

Context (Hio : AppleAgxG13QueueIoValid (Some io) = true).

(** *** Submissions *)

Lemma job_submitted_cases k r s l pubs :
  Forall2 (placed l) (job_queues k r s) pubs ->
  Config (job_submitted k r s pubs) = Config r /\ Io (job_submitted k r s pubs) = Io r /\
  PendingFence (job_submitted k r s pubs) = PendingFence r /\
  CompletionAvailable (job_submitted k r s pubs) = CompletionAvailable r /\
  ComputeInRender (job_submitted k r s pubs) =
    (match k with JointJob => true | _ => ComputeInRender r end) /\
  (k = ComputeJob -> ComputeTerminal (job_submitted k r s pubs) = true) /\
  Phase (job_submitted k r s pubs) =
    match k with
    | ComputeJob => AppleAgxG13QueueRuntimeComputeSubmitted
    | _ => AppleAgxG13QueueRuntimeSubmitted
    end.
Proof.
  intros H. apply Forall2_length in H.
  destruct k, pubs as [|p1 [|p2 [|p3 [|]]]]; try done; by split_and!.
Qed.

Lemma submitted_step k r s x r' S S' :
  healthy r -> submits k r s x r' S S' ->
  healthy r' /\ edge (view_of r) (Submit k s) (Answered x) (view_of r').
Proof.
  intros [Hc Hp] [(-> & _ & Hx)|(S1 & l & pubs & _ & _ & Hready & Hf & Hpl & H)].
  { split; [done|]. by constructor. }
  rewrite Hready in Hp. destruct H as (l' & tail & done_ & rest & _ & _ & _ & [H|H]).
  - destruct H as (-> & _ & _ & ->).
    destruct (job_submitted_cases k (begin_job r s) s l pubs) as (Ec & Ei & Ef & Ea & _ & Et & Eph).
    { by destruct k. }
    split.
    + constructor; [by split; rewrite ?Ec, ?Ei; apply Hc|]. rewrite Eph, Ef, Ea.
      destruct k; split_and!; try done; try apply Hp. by apply Et.
    + replace (view_of (job_submitted k (begin_job r s) s pubs)) with (Busy (sub_Fence s))
        by (unfold view_of; rewrite Eph, Ef; by destruct k).
      unfold view_of at 1. rewrite Hready. by constructor.
  - unfold view_of at 1. rewrite Hready. unfold undone in H. destruct (visible done_).
    + destruct H as [(_ & Hx & ->)|(_ & -> & ->)].
      * split; [by split|]. apply edge_broken. tauto.
      * split; [split; [done|]|apply edge_broken; tauto]. cbn. apply Hp.
    + destruct H as (_ & -> & ->). split; [split; [done|apply idle_cleared]|]. apply edge_undone.
Qed.

(** *** Events *)

(** What a queue shows while an event is handled. *)
Definition proven (e : G13.APPLE_AGX_G13_EVENT) (b : APPLE_AGX_G13_QUEUE_BINDING)
    (p : APPLE_AGX_G13_QUEUE_PENDING) l : Prop :=
  exists stamp done write,
    l = [Saw (Stamp b) stamp; Saw (GpuDonePointer b) done; Saw (CpuWritePointer b) write] /\
    is_u32 stamp /\ is_u32 done /\ is_u32 write /\
    G13.AppleAgxG13CompletionSatisfiedWindow (Some e) (pnd_EventNumber p) stamp (ExpectedStamp p)
      done (pnd_ExpectedDonePointer p) write (RingCapacity b) = true.

(** A pending record moves on. *)
Definition advances e b (p p' : APPLE_AGX_G13_QUEUE_PENDING) l : Prop :=
  pnd_EventNumber p' = pnd_EventNumber p /\ ExpectedStamp p' = ExpectedStamp p /\
  pnd_ExpectedDonePointer p' = pnd_ExpectedDonePointer p /\
  (Complete p' = true -> Complete p = true \/ proven e b p l).

Lemma advances_refl e b p l : advances e b p p l.
Proof. split_and!; auto. Qed.

Definition observed e b p S (x : bool * APPLE_AGX_G13_QUEUE_PENDING) S' : Prop :=
  exists l, passes l S S' /\ advances e b p x.2 l.

Lemma observe_spec e b p S :
  wp (AppleAgxG13ObserveQueue Wio e b p) (observed e b p S) S.
Proof.
  unfold AppleAgxG13ObserveQueue.
  assert (forall l S' ok, passes l S S' -> wp (mret (ok, p)) (observed e b p S) S') as Hstay
    by (intros l S' ok HS; apply wp_ret; exists l; split; [done|apply advances_refl]).
  destruct (Complete p) eqn:Hc; [apply (Hstay []), passes_nil|].
  set (q := if G13.AppleAgxG13EventHasNumber _ _ then _ else p).
  assert (forall l, advances e b p q l) as Hq.
  { intros l. unfold q, advances. case_match; cbn; auto. }
  assert (forall l S' ok, passes l S S' -> wp (mret (ok, q)) (observed e b p S) S') as Hmove
    by (intros l S' ok HS; apply wp_ret; exists l; split; [done|apply Hq]).
  destruct (EventSeen q); cbn [negb]; [|apply (Hmove []), passes_nil].
  eapply wp_seq; [by apply read_spec|]. intros [[] stamp] S1 [H1 U1]; cbn [fst snd negb] in *;
    [|by apply (Hmove [])].
  eapply wp_seq; [by apply read_spec|]. intros [[] done_] S2 [H2 U2]; cbn [fst snd negb] in *;
    [|by eapply Hmove, (passes_app _ [])].
  eapply wp_seq; [by apply read_spec|]. intros [[] write] S3 [H3 U3]; cbn [fst snd negb] in *;
    [|by eapply Hmove, (passes_app _ []), H3; eapply passes_app].
  apply wp_ret. exists [Saw (Stamp b) stamp; Saw (GpuDonePointer b) done_; Saw (CpuWritePointer b) write].
  split; [eapply (passes_app [_]); [exact H1|]; by eapply (passes_app [_])|].
  destruct (G13.AppleAgxG13CompletionSatisfiedWindow _ _ _ _ _ _ _ _) eqn:Hw; [|apply Hq].
  destruct (Hq []) as (E1 & E2 & E3 & _). split_and!; [done..|]. intros _. right.
  exists stamp, done_, write. rewrite E1, E2, E3 in Hw. done.
Qed.

(** A call that stops the job for good. *)
Definition stops r status (x : RESULT) (p : RESULT * RT) l : Prop :=
  l = [Quieted (PendingFence r)] /\ p = (x, AppleAgxG13SetCompletion r status) \/
  l = [] /\ p = (ResetFailed, r <| Phase := AppleAgxG13QueueRuntimeFaulted |>
                                <| CompletionAvailable := false |>).

Lemma terminal_spec r status x S :
  Io r = Wio ->
  wp (AppleAgxG13TerminalFailure r status x) (fun p S' => exists l, passes l S S' /\
    stops r status x p l) S.
Proof.
  intros Hr. unfold AppleAgxG13TerminalFailure. rewrite Hr.
  eapply wp_seq; [by apply quiesce_spec|]. intros [] S1 H1; apply wp_ret; eexists;
    (split; [exact H1|]); [by left|by right].
Qed.

(** The queues of the job have been looked at. *)
Definition observes e r r' l : Prop := exists d3 ta compute,
  r' = r <| D3Pending := d3 |> <| TaPending := ta |> <| ComputePending := compute |> /\
  exists l1 l2 l3, l = l1 ++ l2 ++ l3 /\
    advances e (cfg_D3 (Config r)) (D3Pending r) d3 l1 /\
    advances e (cfg_Ta (Config r)) (TaPending r) ta l2 /\
    advances e (cfg_Compute (Config r)) (ComputePending r) compute l3.

Lemma observes_intro e r d3 ta compute l1 l2 l3 :
  advances e (cfg_D3 (Config r)) (D3Pending r) d3 l1 ->
  advances e (cfg_Ta (Config r)) (TaPending r) ta l2 ->
  advances e (cfg_Compute (Config r)) (ComputePending r) compute l3 ->
  observes e r (r <| D3Pending := d3 |> <| TaPending := ta |> <| ComputePending := compute |>)
    (l1 ++ l2 ++ l3).
Proof. intros. exists d3, ta, compute. split; [done|]. by exists l1, l2, l3. Qed.

(** Every queue of the job is done. *)
Definition all_complete r : bool :=
  match Phase r with
  | AppleAgxG13QueueRuntimeComputeSubmitted => Complete (ComputePending r) && ComputeTerminal r
  | _ => Complete (D3Pending r) && Complete (TaPending r) &&
         (negb (ComputeInRender r) || Complete (ComputePending r))
  end.

(** What a flag event does to a pending job. *)
Definition flagged e r (p : RESULT * RT) l : Prop := exists r1 l1, observes e r r1 l1 /\
  (l = l1 /\ p = (Ok, if all_complete r1
                      then AppleAgxG13SetCompletion r1 AppleAgxG13QueueCompletionSuccess else r1) \/
   exists tail, l = l1 ++ tail /\
     stops r1 AppleAgxG13QueueCompletionFaulted TransportFailed p tail).

Lemma observe_failed_spec e r r1 l1 S S1 :
  Io r1 = Wio -> passes l1 S S1 -> observes e r r1 l1 ->
  wp (observe_failed r1) (fun p S' => exists l, passes l S S' /\ flagged e r p l) S1.
Proof.
  intros Hr HS Ho. eapply wp_mono; [by apply terminal_spec|]. intros p S2 (tail & H2 & Hst).
  exists (l1 ++ tail). split; [by eapply passes_app|]. exists r1, l1. split; [done|]. right. eauto.
Qed.

Lemma compute_flag_spec e r S :
  Io r = Wio -> Phase r = AppleAgxG13QueueRuntimeComputeSubmitted ->
  wp (handle_compute_flag r e) (fun p S' => exists l, passes l S S' /\ flagged e r p l) S.
Proof.
  intros Hr Hp. unfold handle_compute_flag. rewrite Hr.
  eapply wp_seq; [by apply observe_spec|]. intros [ok p] S1 (l & H1 & Ha). cbn [snd] in Ha.
  assert (observes e r (r <| ComputePending := p |>) l) as Ho
    by exact (observes_intro e r _ _ p [] [] l (advances_refl _ _ _ _) (advances_refl _ _ _ _) Ha).
  destruct ok; cbn [negb]; [|by eapply observe_failed_spec].
  apply wp_ret. exists l. split; [done|]. eexists _, l. split; [exact Ho|]. left.
  split; [done|]. unfold all_complete. cbn. by rewrite Hp.
Qed.

Lemma render_flag_spec e r S :
  Io r = Wio -> Phase r = AppleAgxG13QueueRuntimeSubmitted ->
  wp (handle_render_flag r e) (fun p S' => exists l, passes l S S' /\ flagged e r p l) S.
Proof.
  intros Hr Hp. unfold handle_render_flag. rewrite Hr.
  eapply wp_seq; [by apply observe_spec|]. intros [ok d3] S1 (l1 & H1 & H1a). cbn [snd] in H1a.
  destruct ok; cbn [negb].
  2: { eapply (observe_failed_spec e r (r <| D3Pending := d3 |>) l1); [done..|].
       pose proof (observes_intro e r d3 _ _ l1 [] [] H1a (advances_refl _ _ _ _)
         (advances_refl _ _ _ _)) as Ho. by rewrite app_nil_r in Ho. }
  eapply wp_seq; [cbn; rewrite Hr; by apply observe_spec|]. intros [ok ta] S2 (l2 & H2 & H2a).
  cbn [snd] in H2a. assert (passes (l1 ++ l2) S S2) as H12 by (by eapply passes_app).
  destruct ok; cbn [negb].
  2: { eapply (observe_failed_spec e r (r <| D3Pending := d3 |> <| TaPending := ta |>)
         (l1 ++ l2)); [done..|].
       pose proof (observes_intro e r d3 ta _ l1 l2 [] H1a H2a (advances_refl _ _ _ _)) as Ho.
       by rewrite app_nil_r in Ho. }
  eapply (wp_seq _ _ (fun x S3 => exists l3, passes l3 S2 S3 /\
    advances e (cfg_Compute (Config r)) (ComputePending r) x.2 l3)).
  { cbn. destruct (ComputeInRender r); [rewrite Hr; by apply observe_spec|].
    apply wp_ret. exists []. split; [apply passes_nil|apply advances_refl]. }
  intros [ok compute] S3 (l3 & H3 & H3a). cbn [snd] in H3a.
  assert (passes (l1 ++ l2 ++ l3) S S3) as H123
    by (rewrite app_assoc; by eapply passes_app).
  pose proof (observes_intro e r d3 ta compute l1 l2 l3 H1a H2a H3a) as Ho.
  destruct ok; cbn [negb]; [|by eapply observe_failed_spec].
  apply wp_ret. exists (l1 ++ l2 ++ l3). split; [done|]. eexists _, _. split; [exact Ho|]. left.
  split; [done|]. unfold all_complete. cbn. by rewrite Hp.
Qed.

(** What an event does to a pending job. *)
Definition handled m n r (p : RESULT * RT) l : Prop :=
  l = [] /\ (p = (Ok, r) \/ p = (AppleAgxG13QueueRuntimeResultInvalidArgument, r)) \/
  exists e, G13.AppleAgxG13DecodeEvent (Some m) n (Some G13.event_zero) = (true, Some e) /\
    ((G13.TerminalFault e = true /\
      ((l = [Resumed (PendingFence r) (G13.Kind e)] /\ p = (Ok, AppleAgxG13SetCompletion
          (r <| RecoveredFaults := u32 (RecoveredFaults r + 1) |>
             <| LastRecoveredEventKind := G13.Kind e |>) AppleAgxG13QueueCompletionRecovered)) \/
       stops r AppleAgxG13QueueCompletionFaulted AppleAgxG13QueueRuntimeResultFaulted p l)) \/
     (G13.TerminalFault e = false /\ flagged e r p l)).

Lemma fault_spec e r S :
  Io r = Wio ->
  wp (handle_fault r e) (fun p S' => exists l, passes l S S' /\
    ((l = [Resumed (PendingFence r) (G13.Kind e)] /\ p = (Ok, AppleAgxG13SetCompletion
        (r <| RecoveredFaults := u32 (RecoveredFaults r + 1) |>
           <| LastRecoveredEventKind := G13.Kind e |>) AppleAgxG13QueueCompletionRecovered)) \/
     stops r AppleAgxG13QueueCompletionFaulted AppleAgxG13QueueRuntimeResultFaulted p l)) S.
Proof.
  intros Hr. unfold handle_fault.
  eapply (wp_seq _ _ (fun x S1 => x = (false, r) /\ passes [] S S1 \/
    x = (true, AppleAgxG13SetCompletion (r <| RecoveredFaults := u32 (RecoveredFaults r + 1) |>
      <| LastRecoveredEventKind := G13.Kind e |>) AppleAgxG13QueueCompletionRecovered) /\
    passes [Resumed (PendingFence r) (G13.Kind e)] S S1)).
  - unfold AppleAgxG13RecoverFirmware.
    destruct (_ && _); [apply wp_ret; left; split; [done|apply passes_nil]|].
    rewrite Hr. cbn [Recover watched]. destruct (Recover io) as [f|];
      [|apply wp_ret; left; split; [done|apply passes_nil]]. cbn [fmap option_fmap option_map].
    apply wp_bind, wp_call. intros ok S1 [= Eok <-]. rewrite Eok. destruct ok; cbn [negb];
      apply wp_ret; [right|left]; done.
  - intros [b r1] S1 [[[= -> ->] H1]|[[= -> ->] H1]].
    + eapply wp_mono; [by apply terminal_spec|]. intros p S2 (l & H2 & Hs). exists l.
      split; [by eapply (passes_app [])|]. by right.
    + apply wp_ret. eexists. split; [exact H1|]. by left.
Qed.

Lemma handle_event_spec m n r S flag :
  Io r = Wio ->
  (forall e S, wp (flag r e) (fun p S' => exists l, passes l S S' /\ flagged e r p l) S) ->
  wp (handle_event r m n flag) (fun p S' => exists l, passes l S S' /\ handled m n r p l) S.
Proof.
  intros Hr Hflag. unfold handle_event.
  assert (forall p, p = (Ok, r) \/ p = (AppleAgxG13QueueRuntimeResultInvalidArgument, r) ->
    wp (mret p : M St _) (fun p S' => exists l, passes l S S' /\ handled m n r p l) S) as Hstay.
  { intros p Hp. apply wp_ret. exists []. split; [apply passes_nil|]. by left. }
  destruct (G13.AppleAgxG13DecodeEvent _ _ _) as [d oe] eqn:Hd.
  destruct d; cbn [negb]; [|apply Hstay; by right].
  assert (oe = Some (default G13.event_zero oe)) as Eoe.
  { unfold G13.AppleAgxG13DecodeEvent in Hd. revert Hd. case_match; [done|].
    repeat (case_match; try done); by intros [= <-]. }
  rewrite Eoe in Hd. set (e := default G13.event_zero oe) in *.
  destruct (G13.TerminalFault e) eqn:Ht.
  - eapply wp_mono; [by apply fault_spec|]. intros p S1 (l & H1 & Hl). exists l. split; [done|].
    right. exists e. split; [done|]. by left.
  - destruct (negb (_ =? _)); [apply Hstay; by left|].
    eapply wp_mono; [apply Hflag|]. intros p S1 (l & H1 & Hl). exists l. split; [done|].
    right. exists e. split; [done|]. by right.
Qed.

(** *** Reset *)

Definition reset_queues_of r : list APPLE_AGX_G13_QUEUE_BINDING :=
  [cfg_Ta (Config r); cfg_D3 (Config r)] ++
  if HasCompute (Config r) then [cfg_Compute (Config r)] else [].
Definition done_seen r (dones : list Z) : list signal :=
  zip_with (fun b d => Saw (GpuDonePointer b) d) (reset_queues_of r) dones.
Definition rebased r (dones : list Z) : list signal :=
  zip_with (fun b d => Published (CpuWritePointer b) d) (reset_queues_of r) dones.
Definition on_rings r (dones : list Z) : Prop :=
  Forall2 (fun b d => 0 <= d < RingCapacity b) (reset_queues_of r) dones.
Definition stopping r : list signal := if in_flight r then [Quieted (PendingFence r)] else [].

(** The runtime is as it was when it was initialised. *)
Definition renewed r : RT :=
  (AppleAgxG13ClearPending r) <| TaFirstRun := true |> <| D3FirstRun := true |>
    <| ComputeFirstRun := true |> <| BufferManagerInitialized := false |>
    <| Phase := AppleAgxG13QueueRuntimeReady |>.

(** It did not come to an end: no pointer was moved before all of them had been read and
    were in range. *)
Definition left_off r l : Prop := exists seen moved, l = seen ++ moved /\ Forall is_saw seen /\
  (moved = [] \/ exists dones, seen = done_seen r dones /\ on_rings r dones /\
     moved `prefix_of` rebased r dones).

(** What Reset does: it stops the pending job, reads where the firmware is on each ring, and
    moves the write pointers there. *)
Definition resets r (x : RESULT) r' l : Prop :=
  match Phase r with
  | AppleAgxG13QueueRuntimeCompletionPending =>
      x = AppleAgxG13QueueRuntimeResultInvalidState /\ r' = r /\ l = []
  | _ =>
      in_flight r = true /\ x = ResetFailed /\ r' = r /\ l = [] \/
      (exists dones, x = Ok /\ r' = renewed r /\ on_rings r dones /\
         l = stopping r ++ done_seen r dones ++ rebased r dones ++ [Ordered]) \/
      (exists l', x = ResetFailed /\ r' = r <| Phase := AppleAgxG13QueueRuntimeFaulted |> /\
         l = stopping r ++ l' /\ left_off r l')
  end.

Lemma read_all_spec addresses S :
  wp (read_all Wio addresses) (fun p S' => exists l, passes l S S' /\ Forall is_saw l /\
    (p.1 = true -> l = zip_with Saw addresses p.2 /\ length p.2 = length addresses /\
       Forall is_u32 p.2)) S.
Proof.
  unfold read_all.
  eapply wp_seq; [apply (wp_for_each (fun i vs S' => exists l, passes l S S' /\ Forall is_saw l /\
      l = zip_with Saw (firstn (Z.to_nat i) addresses) vs /\ length vs = Z.to_nat i /\
      Forall is_u32 vs) _ _ _
    (fun x S' => exists l, passes l S S' /\ Forall is_saw l /\ forall vs, x = inl vs ->
      l = zip_with Saw addresses vs /\ length vs = length addresses /\ Forall is_u32 vs))|].
  - exists []. split; [apply passes_nil|]. by split_and!.
  - intros i vs S1 Hi (l & H1 & Hs & El & Hlen & Hu). rewrite Z.add_0_l.
    destruct (lookup_lt_is_Some_2 addresses (Z.to_nat i) ltac:(lia)) as [a Ea]. rewrite Ea.
    eapply wp_seq; [by apply read_spec|]. intros [[] v] S2 [H2 Uv]; cbn [fst snd] in *; apply wp_ret.
    + exists (l ++ [Saw a v]). split; [by eapply passes_app|].
      split; [apply Forall_app; split; [done|by repeat constructor]|].
      replace (Z.to_nat (i + 1)) with (Datatypes.S (Z.to_nat i)) by lia.
      rewrite (take_S_r _ _ a Ea), zip_with_app, El, length_app, Hlen by
        (rewrite length_take; lia).
      split; [done|]. split; [simpl; lia|]. apply Forall_app. by split; [|constructor].
    + exists l. split; [rewrite <- (app_nil_r l); by eapply passes_app|]. by split.
  - intros vs S1 (l & H1 & Hs & -> & Hlen & Hu). rewrite Nat2Z.id in *.
    eexists. split; [exact H1|]. split; [done|]. intros vs' [= <-].
    by rewrite firstn_all.
  - intros [vs|[]] S1 (l & H1 & Hs & Hl); apply wp_ret; exists l; (split; [done|]);
      (split; [done|]); cbn [fst snd]; [|done]. intros _. by apply Hl.
Qed.

Lemma rebase_spec pointers S :
  wp (rebase Wio pointers) (fun ok S' => exists done rest, pointers = done ++ rest /\
    passes (map (fun p => Published p.1 p.2) done) S S' /\ (ok = true -> rest = [])) S.
Proof.
  revert S. induction pointers as [|[a v] pointers IH]; intros S; cbn [rebase].
  - apply wp_ret. exists [], []. split; [done|]. split; [apply passes_nil|done].
  - eapply wp_seq; [by apply publish_u32_spec|]. intros [] S1 H1; cbn [fst snd].
    + eapply wp_mono; [apply IH|]. intros ok S2 (d & rest & -> & H2 & Hok).
      exists ((a, v) :: d), rest. split; [done|]. split; [by eapply (passes_app [_])|done].
    + apply wp_ret. by exists [], ((a, v) :: pointers).
Qed.

(** The bounds that are tested are those of the queues. *)
Lemma rings_tested r dones :
  length dones = length (reset_queues_of r) -> Forall is_u32 dones ->
  (RingCapacity (cfg_Ta (Config r)) <=? dones .[ 0 ]) ||
  (RingCapacity (cfg_D3 (Config r)) <=? dones .[ 1 ]) ||
  (HasCompute (Config r) && (RingCapacity (cfg_Compute (Config r)) <=? dones .[ 2 ])) = false ->
  on_rings r dones.
Proof.
  unfold on_rings, reset_queues_of. intros Hlen Hu H.
  rewrite !orb_false_iff, andb_false_iff, !Z.leb_gt in H. destruct H as [[H0 H1] H2].
  destruct (HasCompute (Config r)); destruct dones as [|d0 [|d1 [|d2 [|]]]]; try done;
    rewrite ?Forall_cons in Hu; unfold fits in Hu; destruct_and?;
    change (d0 < RingCapacity (cfg_Ta (Config r))) in H0;
    change (d1 < RingCapacity (cfg_D3 (Config r))) in H1.
  - destruct H2 as [?|H2]; [done|]. change (d2 < RingCapacity (cfg_Compute (Config r))) in H2.
    do 3 (apply Forall2_cons; split; [lia|]). constructor.
  - do 2 (apply Forall2_cons; split; [lia|]). constructor.
Qed.

Lemma zip_published r dones :
  map (fun p => Published p.1 p.2) (zip (map CpuWritePointer (reset_queues_of r)) dones) =
  rebased r dones.
Proof.
  unfold rebased. generalize (reset_queues_of r). intros bs. revert dones.
  induction bs as [|b bs IH]; intros [|d dones]; try done. simpl. by rewrite IH.
Qed.

Lemma reset_queues_spec r S :
  Io r = Wio ->
  wp (reset_queues r) (fun p S' => exists l, passes l S S' /\
    ((exists dones, p = (Ok, renewed r) /\ on_rings r dones /\
        l = done_seen r dones ++ rebased r dones ++ [Ordered]) \/
     p = (ResetFailed, r <| Phase := AppleAgxG13QueueRuntimeFaulted |>) /\ left_off r l)) S.
Proof.
  intros Hr. unfold reset_queues. fold (reset_queues_of r). rewrite Hr.
  eapply wp_seq; [apply read_all_spec|]. intros [ok vs] S1 (l & H1 & Hs & Hl). cbn [fst snd] in Hl.
  assert (forall moved S2, passes moved S1 S2 -> (moved = [] \/ exists dones,
      l = done_seen r dones /\ on_rings r dones /\ moved `prefix_of` rebased r dones) ->
    exists l', passes l' S S2 /\ left_off r l') as Hfail.
  { intros moved S2 H2 Hm. exists (l ++ moved). split; [by eapply passes_app|].
    by exists l, moved. }
  destruct (Hfail [] S1 (passes_nil _) (or_introl eq_refl)) as (l0 & H0 & Hl0).
  destruct ok; cbn [negb].
  2: { apply wp_ret. eauto. }
  destruct (Hl eq_refl) as (El & Hlen & Hu). rewrite length_map in Hlen.
  destruct (_ || _ || _) eqn:Hb.
  { apply wp_ret. eauto. }
  pose proof (rings_tested r vs Hlen Hu Hb) as Hon.
  assert (l = done_seen r vs) as -> by (rewrite El; unfold done_seen; by rewrite zip_with_fmap_l).
  eapply wp_seq; [apply rebase_spec|]. intros ok S2 (d & rest & Ed & H2 & Hok).
  assert (rebased r vs = map (fun p => Published p.1 p.2) d ++ map (fun p => Published p.1 p.2) rest)
    as Epub by (by rewrite <- map_app, <- Ed, zip_published).
  destruct ok; cbn [negb].
  - rewrite (Hok eq_refl), app_nil_r in Epub. rewrite <- Epub in H2.
    eapply wp_seq; [by apply barrier_spec|]. intros [] S3 H3. apply wp_ret.
    exists (done_seen r vs ++ rebased r vs ++ [Ordered]).
    split; [eapply passes_app; [exact H1|]; by eapply passes_app|]. left. eauto.
  - apply wp_ret. destruct (Hfail _ _ H2) as (l' & ? & ?); [|eauto]. right. exists vs.
    split; [done|]. split; [done|]. rewrite Epub. by eexists.
Qed.

Lemma reset_spec r S :
  Io r = Wio ->
  wp (AppleAgxG13QueueRuntimeReset (Some r)) (fun p S' => exists r' l, p.2 = Some r' /\
    passes l S S' /\ resets r p.1 r' l) S.
Proof.
  intros Hr. unfold AppleAgxG13QueueRuntimeReset.
  destruct (bool_decide_reflect (Phase r = AppleAgxG13QueueRuntimeCompletionPending)) as [Hp|Hp].
  { apply wp_ret. exists r, []. split; [done|]. split; [apply passes_nil|]. unfold resets.
    by rewrite Hp. }
  eapply (wp_seq _ _ (fun quiet S1 => if quiet : bool then passes (stopping r) S S1
    else in_flight r = true /\ passes [] S S1)).
  { unfold stopping. destruct (in_flight r); [|apply wp_ret, passes_nil]. rewrite Hr.
    eapply wp_mono; [by apply quiesce_spec|]. by intros [] S1 H1. }
  assert (forall x r' l, (in_flight r = true /\ x = ResetFailed /\ r' = r /\ l = [] \/
      (exists dones, x = Ok /\ r' = renewed r /\ on_rings r dones /\
         l = stopping r ++ done_seen r dones ++ rebased r dones ++ [Ordered]) \/
      (exists l', x = ResetFailed /\ r' = r <| Phase := AppleAgxG13QueueRuntimeFaulted |> /\
         l = stopping r ++ l' /\ left_off r l')) -> resets r x r' l) as Hreset
    by (intros x r' l H; unfold resets; by destruct (Phase r)).
  intros [] S1 H1; cbn [negb].
  - eapply wp_seq; [by apply reset_queues_spec|]. intros p S2 (l & H2 & Hl). apply wp_ret.
    destruct Hl as [(dones & -> & Hon & ->)|[-> Hl]]; cbn [fst snd];
      eexists _, _; (split; [done|]); (split; [by eapply passes_app|]); apply Hreset; right.
    + left. eauto.
    + right. eauto.
  - apply wp_ret. destruct H1 as [Hi H1]. exists r, []. split; [done|]. split; [done|].
    apply Hreset. by left.
Qed.

(** *** Any call *)

Definition overdue r : RT :=
  r <| DeadlinePassed := true |> <| DeadlineExpiries := u32 (DeadlineExpiries r + 1) |>.

(** What a call does. *)
Definition acts o r (a : answer) r' l S S' : Prop :=
  match o, a with
  | Submit k s, Answered x => submits k r s x r' S S'
  | Event m n, Answered x =>
      if in_flight r then handled m n r (x, r') l
      else x = AppleAgxG13QueueRuntimeResultInvalidState /\ r' = r /\ l = []
  | Timer now, Answered x =>
      l = [] /\ (refusal x /\ r' = r \/
        in_flight r = true /\ x = Ok /\
        r' = if (Z.shiftl 1 63 <=? u64 (now - DeadlineTicks r)) || DeadlinePassed r then r
             else overdue r)
  | Cancel fence, Answered x =>
      l = [] /\ refusal x /\ r' = r \/
      in_flight r = true /\ PendingFence r = fence /\
        stops r AppleAgxG13QueueCompletionCancelled AppleAgxG13QueueRuntimeResultCancelled (x, r') l
  | Reset, Answered x => resets r x r' l
  | Take, Taken c =>
      l = [] /\
      if bool_decide (Phase r = AppleAgxG13QueueRuntimeCompletionPending) && CompletionAvailable r
      then c = Some (Completion r) /\
           r' = (AppleAgxG13ClearPending r)
             <| Phase := if usable (Status (Completion r)) then AppleAgxG13QueueRuntimeReady
                         else AppleAgxG13QueueRuntimeFaulted |>
      else c = None /\ r' = r
  | _, _ => False
  end.

Definition acted o r S (p : answer * RT) S' : Prop :=
  exists l, passes l S S' /\ acts o r p.1 p.2 l S S'.

Lemma attempted_passes r script submitted x r' S S' :
  attempted r script submitted x r' S S' -> exists l, passes l S S'.
Proof. intros (l & tail & _ & _ & H & _). eauto. Qed.

Lemma submits_passes k r s x r' S S' : submits k r s x r' S S' -> exists l, passes l S S'.
Proof.
  intros [(_ & (l & H & _) & _)|(S1 & l & pubs & H1 & _ & _ & _ & _ & H)]; [eauto|].
  apply attempted_passes in H as [l2 H2]. exists (l ++ l2). by eapply passes_app.
Qed.

Lemma event_spec m n r S : configured io r -> wp (execute (Event m n) r) (acted (Event m n) r S) S.
Proof.
  intros [_ Hr]. unfold execute, answered, AppleAgxG13QueueRuntimeHandleEvent.
  assert (forall flag, in_flight r = true ->
    (forall e S, wp (flag r e) (fun p S' => exists l, passes l S S' /\ flagged e r p l) S) ->
    wp ('(x, r') ← ('(x, r') ← handle_event r m n flag; mret (x, Some r'));
        mret (Answered x, default r r')) (acted (Event m n) r S) S) as Hflag.
  { intros flag Hi Hf. apply wp_bind, wp_bind. eapply wp_mono; [by apply handle_event_spec|].
    intros [x r'] S1 (l & H1 & Hl). apply wp_ret, wp_ret. exists l. split; [done|].
    unfold acts. by rewrite Hi. }
  assert (in_flight r = false -> wp ('(x, r') ← mret (AppleAgxG13QueueRuntimeResultInvalidState, Some r);
    mret (Answered x, default r r')) (acted (Event m n) r S) S) as Hno.
  { intros Hi. apply wp_bind, wp_ret, wp_ret. exists []. split; [apply passes_nil|].
    unfold acts. by rewrite Hi. }
  unfold in_flight in Hflag, Hno. destruct (Phase r) eqn:Hp;
    try (apply Hno; reflexivity); apply Hflag; try reflexivity; intros e S1.
  - by apply compute_flag_spec.
  - by apply render_flag_spec.
Qed.

Lemma timer_spec now r S : wp (execute (Timer now) r) (acted (Timer now) r S) S.
Proof.
  apply wp_bind, wp_ret. unfold AppleAgxG13QueueRuntimeCheckTimeout.
  assert (forall x, refusal x -> wp (mret (Answered x, r)) (acted (Timer now) r S) S) as Hno.
  { intros x Hx. apply wp_ret. exists []. split; [apply passes_nil|]. split; [done|]. by left. }
  destruct (now =? 0); [apply Hno; by left|].
  destruct (in_flight r) eqn:Hi; cbn [negb]; [|apply Hno; right; by left].
  destruct (_ <=? _) eqn:Hle; [|destruct (DeadlinePassed r) eqn:Hd]; cbn [negb]; apply wp_ret;
    exists []; (split; [apply passes_nil|]); (split; [done|]); right; (split; [done|]);
    (split; [done|]); rewrite Hle, ?Hd; done.
Qed.

Lemma cancel_spec fence r S :
  configured io r -> wp (execute (Cancel fence) r) (acted (Cancel fence) r S) S.
Proof.
  intros [_ Hr]. unfold execute, answered, AppleAgxG13QueueRuntimeCancel.
  assert (forall x, refusal x -> wp ('(x, r') ← mret (x, Some r); mret (Answered x, default r r'))
    (acted (Cancel fence) r S) S) as Hno.
  { intros x Hx. apply wp_bind, wp_ret, wp_ret. exists []. split; [apply passes_nil|]. by left. }
  destruct (fence =? 0); [apply Hno; by left|].
  destruct (in_flight r) eqn:Hi; cbn [negb orb]; [|apply Hno; right; by left].
  destruct (Z.eqb_spec (PendingFence r) fence) as [Ef|]; cbn [negb]; [|apply Hno; right; by left].
  eapply wp_bind, wp_seq; [by apply terminal_spec|]. intros [x r'] S1 (l & H1 & Hs).
  apply wp_ret, wp_ret. exists l. split; [done|]. right. by split.
Qed.

Lemma take_spec r S : wp (execute Take r) (acted Take r S) S.
Proof.
  unfold execute, AppleAgxG13QueueRuntimeTakeCompletion. cbn [is_null orb].
  unfold acted, acts.
  destruct (bool_decide _), (CompletionAvailable r); cbn [negb orb andb]; apply wp_ret;
    exists []; (split; [apply passes_nil|]); (split; [done|]); try done.
  split; [done|]. by destruct (Status (Completion r)).
Qed.

(** Every call returns, and does what is said of it. *)
Lemma execute_spec o r S : configured io r -> op_typed o -> wp (execute o r) (acted o r S) S.
Proof.
  intros Hr Ho. destruct o as [k s|m n|now|fence| |].
  - unfold execute, answered. eapply wp_seq; [by apply (submit_spec io Hio)|].
    intros [x q] S1 (r' & Eq & H). cbn in Eq. subst q. apply wp_ret.
    destruct (submits_passes _ _ _ _ _ _ _ H) as [l Hl]. by exists l.
  - by apply event_spec.
  - apply timer_spec.
  - by apply cancel_spec.
  - unfold execute, answered. eapply wp_seq; [apply reset_spec, Hr|].
    intros [x q] S1 (r' & l & Eq & Hl & H). cbn in Eq. subst q. apply wp_ret. by exists l.
  - apply take_spec.
Qed.

(** *** The invariant and the state machine *)

Lemma stopped_step o r status x x' r' l :
  healthy r -> in_flight r = true -> stops r status x (x', r') l ->
  edge (view_of r) o (Answered x) (Finished (PendingFence r) status) ->
  edge (view_of r) o (Answered ResetFailed) Broken ->
  healthy r' /\ edge (view_of r) o (Answered x') (view_of r').
Proof.
  intros [Hc Hp] Hi Hs He Hl. destruct Hs as [[_ [= -> ->]]|[_ [= -> ->]]].
  - split; [split; [done|]|done]. cbn. unfold in_flight in Hi. destruct (Phase r); try done; naive_solver.
  - split; [by split|done].
Qed.

Lemma in_flight_view r : in_flight r = true -> view_of r = Busy (PendingFence r).
Proof. unfold in_flight, view_of. by destruct (Phase r). Qed.

(** What is looked at is only noted. *)
Lemma observes_same e r r1 l :
  observes e r r1 l -> Phase r1 = Phase r /\ PendingFence r1 = PendingFence r /\
    Config r1 = Config r /\ Io r1 = Io r /\ CompletionAvailable r1 = CompletionAvailable r /\
    ComputeTerminal r1 = ComputeTerminal r /\ ComputeInRender r1 = ComputeInRender r.
Proof. by intros (d3 & ta & c & -> & _). Qed.

(** A pending job stays well whatever else is noted. *)
Lemma pending_healthy r r1 :
  Phase r1 = Phase r -> PendingFence r1 = PendingFence r -> Config r1 = Config r ->
  Io r1 = Io r -> CompletionAvailable r1 = CompletionAvailable r ->
  ComputeTerminal r1 = ComputeTerminal r -> in_flight r = true -> healthy r ->
  healthy r1 /\ in_flight r1 = true /\ view_of r1 = view_of r.
Proof.
  intros E1 E2 E3 E4 E5 E6 Hi [[Hc Hio'] Hp]. unfold in_flight, view_of in *.
  rewrite E1, E2. split; [|split; [done|by destruct (Phase r)]]. split.
  - split; congruence.
  - rewrite E1, E2, E5, E6. by destruct (Phase r).
Qed.

Lemma observes_healthy e r r1 l :
  observes e r r1 l -> in_flight r = true -> healthy r ->
  healthy r1 /\ in_flight r1 = true /\ view_of r1 = view_of r.
Proof.
  intros Ho Hi Hr. destruct (observes_same _ _ _ _ Ho) as (? & ? & ? & ? & ? & ? & _).
  by apply pending_healthy.
Qed.

Lemma finishing_healthy r status :
  healthy r -> in_flight r = true -> healthy (AppleAgxG13SetCompletion r status).
Proof.
  intros [Hc Hp] Hi. split; [done|]. unfold in_flight in Hi. cbn.
  destruct (Phase r); try done; naive_solver.
Qed.

Lemma event_step m n r x r' l :
  healthy r -> in_flight r = true -> handled m n r (x, r') l ->
  healthy r' /\ edge (view_of r) (Event m n) (Answered x) (view_of r').
Proof.
  intros Hr Hi [[_ [[= -> ->]|[= -> ->]]]|(e & _ & [[_ [[_ [= -> ->]]|Hs]]|[_ Hf]])].
  - split; [done|]. rewrite (in_flight_view r) by done. apply edge_event.
  - split; [done|]. apply edge_refused; [by left|done].
  - split; [|rewrite (in_flight_view r) by done; by apply edge_done].
    apply finishing_healthy; [|done]. by apply (pending_healthy r).
  - eapply stopped_step; [done..| |]; rewrite in_flight_view by done;
      [apply edge_faulted; by left|apply edge_event_lost].
  - destruct Hf as (r1 & l1 & Ho & Hf).
    destruct (observes_healthy _ _ _ _ Ho Hi Hr) as (Hr1 & Hi1 & Hv). rewrite <- Hv.
    rewrite (in_flight_view r1) by done.
    destruct Hf as [[_ [= -> ->]]|(tail & _ & Hs)].
    + destruct (all_complete r1).
      * split; [by apply finishing_healthy|]. by apply edge_done.
      * split; [done|]. rewrite in_flight_view by done. apply edge_event.
    + rewrite <- in_flight_view by done. eapply stopped_step; [done..| |];
        rewrite in_flight_view by done;
        [apply edge_faulted; by right|apply edge_event_lost].
Qed.

Lemma reset_step r x r' l :
  healthy r -> resets r x r' l -> healthy r' /\ edge (view_of r) Reset (Answered x) (view_of r').
Proof.
  intros [Hc Hp] H. unfold resets in H.
  destruct (decide (Phase r = AppleAgxG13QueueRuntimeCompletionPending)) as [E|E].
  { rewrite E in H. destruct H as (-> & -> & _). split; [by split|].
    apply edge_refused; [right; by left|done]. }
  assert (forall f status, view_of r <> Finished f status) as Hv
    by (intros f status; unfold view_of; by destruct (Phase r)).
  assert (CompletionAvailable r = false) as Ha by (destruct (Phase r); try done; apply Hp).
  assert (in_flight r = true /\ x = ResetFailed /\ r' = r /\ l = [] \/
      (exists dones, x = Ok /\ r' = renewed r /\ on_rings r dones /\
         l = stopping r ++ done_seen r dones ++ rebased r dones ++ [Ordered]) \/
      (exists l', x = ResetFailed /\ r' = r <| Phase := AppleAgxG13QueueRuntimeFaulted |> /\
         l = stopping r ++ l' /\ left_off r l')) as [H1|[H1|H1]] by (by destruct (Phase r)); clear H.
  - destruct H1 as (Hi & -> & -> & _). split; [by split|].
    rewrite in_flight_view by done. apply edge_not_quiet.
  - destruct H1 as (dones & -> & -> & _). split; [split; [done|by constructor]|]. by apply edge_reset.
  - destruct H1 as (l' & -> & -> & _). split; [by split|]. by apply edge_reset_failed.
Qed.

Lemma acts_step o r a r' l S S' :
  healthy r -> acts o r a r' l S S' -> healthy r' /\ edge (view_of r) o a (view_of r').
Proof.
  intros Hr H. destruct o as [k s|m n|now|fence| |], a as [x|c]; try done; cbn [acts] in H.
  - by eapply submitted_step.
  - destruct (in_flight r) eqn:Hi; [by eapply event_step|]. destruct H as (-> & -> & _).
    split; [done|]. apply edge_refused; [right; by left|done].
  - destruct H as [_ [[Hx ->]|(Hi & -> & ->)]]; [split; [done|]; by apply edge_refused|].
    assert (healthy (overdue r)) by (by apply (pending_healthy r)).
    assert (view_of (overdue r) = view_of r) as Ev by done.
    destruct (_ || _); (split; [done|]); rewrite ?Ev, in_flight_view by done; apply edge_timer.
  - destruct H as [(_ & Hx & ->)|(Hi & <- & Hs)]; [split; [done|]; by apply edge_refused|].
    eapply stopped_step; [done..| |]; rewrite in_flight_view by done;
      [apply edge_cancelled|apply edge_cancel_lost].
  - by eapply reset_step.
  - destruct H as [_ H]. destruct Hr as [Hc Hp].
    destruct (decide (Phase r = AppleAgxG13QueueRuntimeCompletionPending)) as [E|E].
    + rewrite bool_decide_true in H by done. rewrite E in Hp. destruct Hp as (_ & Ha & Ef).
      rewrite Ha in H. cbn [andb] in H. destruct H as [-> ->]. split.
      * split; [done|]. cbn. destruct (usable _); [by constructor|done].
      * unfold view_of at 1. rewrite E.
        replace (view_of _) with (if usable (Status (Completion r)) then Idle else Broken)
          by (by destruct (usable (Status (Completion r)))).
        destruct (Completion r) as [f status]. apply edge_taken.
    + rewrite bool_decide_false in H by done. destruct H as [-> ->]. split; [by split|].
      apply edge_nothing. intros f status. unfold view_of. by destruct (Phase r).
Qed.

(** *** The pending job *)

Definition job_pendings k r : list APPLE_AGX_G13_QUEUE_PENDING :=
  match k with
  | RenderJob => [D3Pending r; TaPending r]
  | JointJob => [ComputePending r; D3Pending r; TaPending r]
  | ComputeJob => [ComputePending r]
  end.
Definition job_phase k : APPLE_AGX_G13_QUEUE_RUNTIME_PHASE :=
  match k with
  | ComputeJob => AppleAgxG13QueueRuntimeComputeSubmitted
  | _ => AppleAgxG13QueueRuntimeSubmitted
  end.

(** A queue of the job was seen to be done. *)
Definition queue_done later
    (q : APPLE_AGX_G13_QUEUE_BINDING * APPLE_AGX_G13_WORK_PUBLICATION * bool)
    (p : APPLE_AGX_G13_QUEUE_BATCH_PUBLICATION) : Prop :=
  seen_done later q.1.1 (wp_ExpectedStamp q.1.2) (ExpectedDonePointer p).

(** A pending record is that of a queue of the job, and is right about it. *)
Definition keeps_watch later
    (q : APPLE_AGX_G13_QUEUE_BINDING * APPLE_AGX_G13_WORK_PUBLICATION * bool)
    (x : APPLE_AGX_G13_QUEUE_BATCH_PUBLICATION * APPLE_AGX_G13_QUEUE_PENDING) : Prop :=
  pnd_EventNumber x.2 = EventNumber q.1.1 /\ ExpectedStamp x.2 = wp_ExpectedStamp q.1.2 /\
  pnd_ExpectedDonePointer x.2 = ExpectedDonePointer x.1 /\
  (Complete x.2 = true -> queue_done later q x.1).

(** The runtime has the job [k], [s], whose submission passed [l], and knows no more of it
    than has been seen later. *)
Definition has_job k s l later r : Prop :=
  PendingFence r = sub_Fence s /\ submission_typed s /\
  exists pubs, Forall2 (placed l) (job_queues k r s) pubs /\
    match Phase r with
    | AppleAgxG13QueueRuntimeCompletionPending =>
        Status (Completion r) = AppleAgxG13QueueCompletionSuccess ->
        Forall2 (queue_done later) (job_queues k r s) pubs
    | phase => phase = job_phase k /\
        ComputeInRender r = (match k with JointJob => true | _ => false end) /\
        Forall2 (keeps_watch later) (job_queues k r s) (zip pubs (job_pendings k r))
    end.

Definition explained h r : Prop :=
  match view_of r with
  | Idle | Broken => True
  | _ => exists k s l later, current_job h = Some (k, s, l, later) /\ has_job k s l later r
  end.

Lemma current_job_snoc h (e : call_record) :
  current_job (h ++ [e]) =
    match e with
    | (Submit k s, Answered AppleAgxG13QueueRuntimeResultOk, l) => Some (k, s, l, [])
    | _ => (fun '(k, s, l, later) => (k, s, l, later ++ [e])) <$> current_job h
    end.
Proof. unfold current_job. by rewrite fold_left_app. Qed.

(** A call that accepts no job. *)
Definition accepts_none (e : call_record) : Prop := accepted_by e = [].

Lemma current_job_later h e k s l later :
  accepts_none e -> current_job h = Some (k, s, l, later) ->
  current_job (h ++ [e]) = Some (k, s, l, later ++ [e]).
Proof.
  intros He E. rewrite current_job_snoc, E. destruct e as [[o a] l']. unfold accepts_none in He.
  simpl in He. destruct o; try done. destruct a as [x|]; [|done]. by destruct x.
Qed.

Lemma queue_done_later later e q p : queue_done later q p -> queue_done (later ++ [e]) q p.
Proof.
  intros (m & n & x & l & ev & st & dn & wr & Hin & H). exists m, n, x, l, ev, st, dn, wr.
  split; [|done]. apply elem_of_app. by left.
Qed.

Lemma keeps_watch_later later e q x : keeps_watch later q x -> keeps_watch (later ++ [e]) q x.
Proof. intros (? & ? & ? & H). split_and!; auto using queue_done_later. Qed.

(** Nothing about the job changes. *)
Definition same_job r r' : Prop :=
  Phase r' = Phase r /\ Config r' = Config r /\ PendingFence r' = PendingFence r /\
  Completion r' = Completion r /\ ComputeInRender r' = ComputeInRender r /\
  D3Pending r' = D3Pending r /\ TaPending r' = TaPending r /\ ComputePending r' = ComputePending r.

Lemma job_queues_config k r r' s :
  Config r' = Config r ->
  map fst (job_queues k r' s) = map fst (job_queues k r s).
Proof. intros E. unfold job_queues. rewrite E. by destruct k. Qed.

(** What is said of a job's queues depends on the configuration only. *)
Lemma job_queues_forall {A} (P : _ -> A -> Prop) k r r' s xs :
  Config r' = Config r -> Forall2 (fun q => P q.1) (job_queues k r s) xs ->
  Forall2 (fun q => P q.1) (job_queues k r' s) xs.
Proof.
  intros E. rewrite <- !(Forall2_fmap_l fst P).
  change (Forall2 P (map fst (job_queues k r s)) xs -> Forall2 P (map fst (job_queues k r' s)) xs).
  by rewrite (job_queues_config k r r').
Qed.

Lemma placed_config l k r r' s pubs :
  Config r' = Config r -> Forall2 (placed l) (job_queues k r s) pubs ->
  Forall2 (placed l) (job_queues k r' s) pubs.
Proof. apply (job_queues_forall (fun q => placed l (q, true))). Qed.

Lemma queue_done_config later k r r' s pubs :
  Config r' = Config r -> Forall2 (queue_done later) (job_queues k r s) pubs ->
  Forall2 (queue_done later) (job_queues k r' s) pubs.
Proof. apply (job_queues_forall (fun q => queue_done later (q, true))). Qed.

Lemma keeps_watch_config later k r r' s xs :
  Config r' = Config r -> Forall2 (keeps_watch later) (job_queues k r s) xs ->
  Forall2 (keeps_watch later) (job_queues k r' s) xs.
Proof. apply (job_queues_forall (fun q => keeps_watch later (q, true))). Qed.

Lemma has_job_later k s l later e r r' :
  same_job r r' -> has_job k s l later r -> has_job k s l (later ++ [e]) r'.
Proof.
  intros (E1 & E2 & E3 & E4 & E5 & E6 & E7 & E8) (Hf & Hs & pubs & Hpl & H).
  assert (job_pendings k r' = job_pendings k r) as Ep
    by (unfold job_pendings; by rewrite E6, E7, E8).
  split; [congruence|]. split; [done|]. exists pubs.
  split; [by eapply placed_config|]. rewrite E1, E4, E5, Ep.
  assert (Forall2 (keeps_watch later) (job_queues k r s) (zip pubs (job_pendings k r)) ->
    Forall2 (keeps_watch (later ++ [e])) (job_queues k r' s) (zip pubs (job_pendings k r))) as Hw.
  { intros Hw. eapply keeps_watch_config; [done|]. eapply Forall2_impl; [exact Hw|].
    intros. by apply keeps_watch_later. }
  destruct (Phase r); try (destruct H as (? & ? & ?); split; [done|]; split; [done|]; by apply Hw).
  intros Hst. eapply queue_done_config; [done|]. eapply Forall2_impl; [by apply H|].
  intros. by apply queue_done_later.
Qed.

Lemma explained_stay h e r r' :
  accepts_none e -> same_job r r' -> explained h r -> explained (h ++ [e]) r'.
Proof.
  intros He Hsame H. pose proof Hsame as (E1 & _ & E3 & E4 & _). unfold explained, view_of in *.
  rewrite E1. destruct (Phase r); try done;
    destruct H as (k & s & l & later & E & Hj); exists k, s, l, (later ++ [e]);
    split; eauto using current_job_later, has_job_later.
Qed.

(** A job that ends without success. *)
Lemma explained_end h e r r' status :
  accepts_none e -> same_job r r' -> in_flight r = true -> explained h r ->
  status <> AppleAgxG13QueueCompletionSuccess ->
  explained (h ++ [e]) (AppleAgxG13SetCompletion r' status).
Proof.
  intros He Hsame Hi H Hst. unfold explained in *. rewrite in_flight_view in H by done.
  destruct H as (k & s & l & later & E & Hj). exists k, s, l, (later ++ [e]).
  split; [by apply current_job_later|].
  pose proof (has_job_later _ _ _ _ e _ _ Hsame Hj) as (Hf & Hs & pubs & Hpl & _).
  split; [done|]. split; [done|]. exists pubs. split; [by eapply placed_config|].
  by intros Est.
Qed.

Lemma same_job_refl r : same_job r r.
Proof. by split_and!. Qed.

Lemma explained_stopped h e r status x x' r' l :
  accepts_none e -> in_flight r = true -> explained h r ->
  status <> AppleAgxG13QueueCompletionSuccess -> stops r status x (x', r') l ->
  explained (h ++ [e]) r'.
Proof.
  intros He Hi H Hst [[_ [= -> ->]]|[_ [= -> ->]]]; [|done].
  by eapply explained_end; [|apply same_job_refl|..].
Qed.

(** The window test says what it is meant to say. *)
Lemma proven_done m n x l e b pd l' want :
  G13.AppleAgxG13DecodeEvent (Some m) n (Some G13.event_zero) = (true, Some e) ->
  proven e b pd l' -> l' ⊆ l -> pnd_EventNumber pd = EventNumber b ->
  pnd_ExpectedDonePointer pd = want -> is_u32 (ExpectedStamp pd) -> 0 <= want < RingCapacity b ->
  seen_done [(Event m n, x, l)] b (ExpectedStamp pd) want.
Proof.
  intros Hd (stamp & dn & wr & -> & Us & Ud & Uw & Hw) Hl En Ep Ust Hb.
  assert (RingCapacity b <= 0x500) as Hc.
  { unfold G13.AppleAgxG13CompletionSatisfiedWindow in Hw. revert Hw. case_match eqn:Hg; [done|].
    rewrite !orb_false_iff, Z.ltb_ge in Hg. intros _. apply Hg. }
  rewrite En, Ep in Hw.
  apply (G13.completion_window_exact e _ _ _ _ _ _ _ Us Ust Ud) in Hw; [|word_lia|done|word_lia].
  destruct Hw as (_ & _ & Hn & Hs & _ & _ & _ & Hwin).
  exists m, n, x, l, e, stamp, dn, wr. split; [by left|]. done.
Qed.

Lemma seen_done_app later later' b st want :
  seen_done later' b st want -> seen_done (later ++ later') b st want.
Proof.
  intros (m & n & x & l & ev & s & d & w & Hin & H). exists m, n, x, l, ev, s, d, w.
  split; [|done]. apply elem_of_app. by right.
Qed.

Lemma watch_advances later q p pd pd' m n x l e l' l0 :
  G13.AppleAgxG13DecodeEvent (Some m) n (Some G13.event_zero) = (true, Some e) ->
  keeps_watch later q (p, pd) -> advances e q.1.1 pd pd' l' -> l' ⊆ l -> placed l0 q p ->
  is_u32 (wp_ExpectedStamp q.1.2) ->
  keeps_watch (later ++ [(Event m n, x, l)]) q (p, pd').
Proof.
  intros Hd (E1 & E2 & E3 & Hc) (A1 & A2 & A3 & Ha) Hl (c & d & _ & _ & Hs) Hu. cbn [fst snd] in *.
  split_and!; cbn [fst snd]; [congruence..|]. intros Hcomp.
  destruct (Ha Hcomp) as [Hold|Hp]; [by apply queue_done_later, Hc|].
  destruct Hs. pose proof (Z.mod_pos_bound (c + GpuAddressCount q.1.2) (RingCapacity q.1.1)).
  unfold queue_done. rewrite <- E2. cbn [fst snd]. apply seen_done_app.
  eapply proven_done; [done..| |]; [by rewrite E2|]. rewrite slots_expected0, slots_next0. lia.
Qed.

(** Each queue of a job, with its publication and its record. *)
Lemma job_watch k r s r1 pubs later m n x l e l1 l0 :
  G13.AppleAgxG13DecodeEvent (Some m) n (Some G13.event_zero) = (true, Some e) ->
  submission_typed s -> Forall2 (placed l0) (job_queues k r s) pubs ->
  observes e r r1 l1 -> l1 ⊆ l ->
  Forall2 (keeps_watch later) (job_queues k r s) (zip pubs (job_pendings k r)) ->
  Forall2 (keeps_watch (later ++ [(Event m n, x, l)])) (job_queues k r1 s)
    (zip pubs (job_pendings k r1)).
Proof.
  intros Hd (Ta & Td & Tc) Hpl (d3 & ta & c & -> & l3 & la & lc & -> & A3 & Aa & Ac) Hl Hw.
  assert (l3 ⊆ l /\ la ⊆ l /\ lc ⊆ l) as (H3 & Ha & Hc) by (split_and!; set_solver).
  destruct Ta as (_ & _ & Ta), Td as (_ & _ & Td), Tc as (_ & _ & Tc).
  destruct k; cbn [job_queues job_pendings] in *;
    repeat match goal with
    | H : Forall2 _ (_ :: _) ?ys |- _ => inversion H; clear H; subst
    | H : Forall2 _ [] ?ys |- _ => inversion H; clear H; subst
    end; simplify_eq/=;
    repeat (apply Forall2_cons_2; [by eapply watch_advances|]); by apply Forall2_nil_2.
Qed.

(** The submission of a job starts the watch. *)
Lemma submitted_job k r s l0 l pubs :
  idle r -> submission_typed s -> Forall2 (placed l0) (job_queues k r s) pubs -> l0 ⊆ l ->
  has_job k s l [] (job_submitted k (begin_job r s) s pubs).
Proof.
  intros [_ _ Et E3 Ec _ Ej] Hs Hpl Hl.
  assert (forall b w p, keeps_watch [] (b, w, true) (p, await pending_zero b w p)) as Hawait
    by done.
  destruct (job_submitted_cases k (begin_job r s) s l0 pubs) as (Ek & _ & Ef & _ & Ein & _ & Eph);
    [by destruct k|].
  split; [by rewrite Ef|]. split; [done|]. exists pubs. split.
  - eapply placed_config; [exact Ek|]. eapply Forall2_impl; [exact Hpl|]. intros q p.
    by apply placed_weaken.
  - rewrite Eph. assert (job_phase k = match k with
      | ComputeJob => AppleAgxG13QueueRuntimeComputeSubmitted
      | _ => AppleAgxG13QueueRuntimeSubmitted end) as Ep by (by destruct k).
    apply Forall2_length in Hpl.
    assert (ComputeInRender (job_submitted k (begin_job r s) s pubs) =
        (match k with JointJob => true | _ => false end) /\
      Forall2 (keeps_watch []) (job_queues k (job_submitted k (begin_job r s) s pubs) s)
        (zip pubs (job_pendings k (job_submitted k (begin_job r s) s pubs)))) as [H1 H2].
    { split; [rewrite Ein; destruct k; done|].
      destruct k, pubs as [|p1 [|p2 [|p3 [|]]]]; try done; cbn; rewrite ?Et, ?E3, ?Ec;
        repeat (apply Forall2_cons_2; [apply Hawait|]); by apply Forall2_nil_2. }
    by destruct k.
Qed.

(** A flag event: the watch goes on, and when all queues are done the job is. *)
Lemma watch_complete k r s later pubs l0 :
  Forall2 (placed l0) (job_queues k r s) pubs ->
  Phase r = job_phase k -> ComputeInRender r = (match k with JointJob => true | _ => false end) ->
  Forall2 (keeps_watch later) (job_queues k r s) (zip pubs (job_pendings k r)) ->
  all_complete r = true -> Forall2 (queue_done later) (job_queues k r s) pubs.
Proof.
  intros Hpl Hp Hj Hw Hall. unfold all_complete in Hall. rewrite Hp, ?Hj in Hall.
  destruct k; cbn [job_queues job_pendings job_phase negb orb] in *; rewrite ?andb_true_iff in Hall;
    destruct_and?;
    repeat match goal with
    | H : Forall2 _ (_ :: _) ?ys |- _ => inversion H; clear H; subst
    | H : Forall2 _ [] ?ys |- _ => inversion H; clear H; subst
    end; simplify_eq/=;
    repeat match goal with H : keeps_watch _ _ (_, _) |- _ => destruct H as (_ & _ & _ & H) end;
    repeat (apply Forall2_cons_2; [auto|]); by apply Forall2_nil_2.
Qed.

Lemma has_job_observed k s l0 later r r1 m n x l e l1 :
  G13.AppleAgxG13DecodeEvent (Some m) n (Some G13.event_zero) = (true, Some e) ->
  in_flight r = true -> has_job k s l0 later r -> observes e r r1 l1 -> l1 ⊆ l ->
  has_job k s l0 (later ++ [(Event m n, x, l)]) r1 /\
  (all_complete r1 = true ->
     has_job k s l0 (later ++ [(Event m n, x, l)])
       (AppleAgxG13SetCompletion r1 AppleAgxG13QueueCompletionSuccess)).
Proof.
  intros Hd Hi (Hf & Hs & pubs & Hpl & Hw) Ho Hl.
  pose proof (observes_same _ _ _ _ Ho) as (E1 & E2 & E3 & _ & _ & _ & E7).
  assert (Phase r = job_phase k /\
    ComputeInRender r = (match k with JointJob => true | _ => false end) /\
    Forall2 (keeps_watch later) (job_queues k r s) (zip pubs (job_pendings k r))) as (Hp & Hj & Hw')
    by (unfold in_flight in Hi; by destruct (Phase r)). clear Hw.
  pose proof (job_watch k r s r1 pubs later m n x l e l1 l0 Hd Hs Hpl Ho Hl Hw') as Hw1.
  rewrite <- E1 in Hp. rewrite <- E7 in Hj.
  pose proof (placed_config _ _ _ _ _ _ E3 Hpl) as Hpl1. split.
  - split; [congruence|]. split; [done|]. exists pubs. split; [done|]. rewrite Hp. by destruct k.
  - intros Hall. split; [cbn; congruence|]. split; [done|]. exists pubs.
    split; [by eapply placed_config|]. intros _. apply (queue_done_config _ _ r1); [done|].
    by eapply watch_complete.
Qed.

Lemma event_explained h m n r x r' l :
  in_flight r = true -> explained h r -> handled m n r (x, r') l ->
  explained (h ++ [(Event m n, Answered x, l)]) r'.
Proof.
  intros Hi H Hh. pose proof (same_job_refl r) as Hr.
  destruct Hh as [[_ [[= -> ->]|[= -> ->]]]|(e & Hd & [[_ [[_ [= -> ->]]|Hs]]|[_ Hf]])].
  - by eapply explained_stay.
  - by eapply explained_stay.
  - by apply (explained_end _ _ r); [|split_and!|..].
  - by eapply explained_stopped; [..|exact Hs].
  - destruct Hf as (r1 & l1 & Ho & Hf).
    pose proof (observes_same _ _ _ _ Ho) as (E1 & E2 & _).
    assert (in_flight r1 = true) as Hi1 by (unfold in_flight; by rewrite E1).
    unfold explained in H. rewrite in_flight_view in H by done.
    destruct H as (k & s & l0 & later & E & Hj).
    assert (l1 ⊆ l) as Hl by (destruct Hf as [[-> _]|(tail & -> & _)]; set_solver).
    destruct (has_job_observed _ _ _ _ _ _ _ _ (Answered x) l _ _ Hd Hi Hj Ho Hl) as [H1 H2].
    assert (explained (h ++ [(Event m n, Answered x, l)]) r1) as Hex.
    { unfold explained. rewrite in_flight_view by done.
      exists k, s, l0, (later ++ [(Event m n, Answered x, l)]).
      split; [by apply current_job_later|done]. }
    destruct Hf as [[-> [= -> ->]]|(tail & -> & [[_ [= -> ->]]|[_ [= -> ->]]])]; [|..|done].
    + destruct (all_complete r1); [|done]. unfold explained, view_of. cbn.
      exists k, s, l0, (later ++ [(Event m n, Answered Ok, l1)]).
      split; [by apply current_job_later|auto].
    + unfold explained, view_of. cbn.
      exists k, s, l0, (later ++ [(Event m n, Answered TransportFailed, l1 ++ tail)]).
      split; [by apply current_job_later|]. destruct H1 as (Hf & Hs & pubs & Hpl & _).
      split; [done|]. split; [done|]. exists pubs. split; [by eapply placed_config|]. by intros ?.
Qed.

Lemma submit_explained h k s r x r' l S S' :
  healthy r -> submission_typed s -> passes l S S' -> submits k r s x r' S S' -> explained h r ->
  explained (h ++ [(Submit k s, Answered x, l)]) r'.
Proof.
  intros Hr Hs Hl [(-> & _ & Hx)|(S1 & l0 & pubs & H1 & _ & Hp & _ & Hpl & Hat)] Hex.
  - apply (explained_stay _ _ r); [|apply same_job_refl|done].
    unfold accepts_none. simpl. by destruct Hx as [->|[->| ->]].
  - destruct Hat as (l' & tail & done_ & rest & H2 & _ & _ & [(-> & _ & -> & ->)|Hu]).
    + assert (l = l0 ++ l') as ->.
      { rewrite app_nil_r in H2. pose proof (passes_app _ _ _ _ _ H1 H2) as H12.
        unfold passes in *. rewrite Hl in H12. by apply app_inv_head in H12. }
      assert (has_job k s (l0 ++ l') [] (job_submitted k (begin_job r s) s pubs)) as Hj.
      { apply (submitted_job k r s l0); [|done..|set_solver]. destruct Hr as [_ Hr]. by rewrite Hp in Hr. }
      unfold explained. case_match; [done| | |done]; exists k, s, (l0 ++ l'), [];
        rewrite current_job_snoc; done.
    + unfold undone in Hu. unfold explained.
      destruct (visible done_); [destruct Hu as [(_ & _ & ->)|(_ & _ & ->)]|destruct Hu as (_ & _ & ->)];
        done.
Qed.

Lemma reset_explained h r x r' l :
  explained h r -> resets r x r' l -> explained (h ++ [(Reset, Answered x, l)]) r'.
Proof.
  intros Hex H. unfold resets in H.
  destruct (decide (Phase r = AppleAgxG13QueueRuntimeCompletionPending)) as [E|E].
  { rewrite E in H. destruct H as (_ & -> & _).
    by apply (explained_stay _ _ r); [|apply same_job_refl|]. }
  assert (in_flight r = true /\ x = ResetFailed /\ r' = r /\ l = [] \/
      (exists dones, x = Ok /\ r' = renewed r /\ on_rings r dones /\
         l = stopping r ++ done_seen r dones ++ rebased r dones ++ [Ordered]) \/
      (exists l', x = ResetFailed /\ r' = r <| Phase := AppleAgxG13QueueRuntimeFaulted |> /\
         l = stopping r ++ l' /\ left_off r l')) as [H1|[H1|H1]] by (by destruct (Phase r)); clear H.
  - destruct H1 as (_ & _ & -> & _). by apply (explained_stay _ _ r); [|apply same_job_refl|].
  - destruct H1 as (dones & _ & -> & _). done.
  - destruct H1 as (l' & _ & -> & _). done.
Qed.

Lemma acts_explained h o r a r' l S S' :
  healthy r -> op_typed o -> passes l S S' -> acts o r a r' l S S' -> explained h r ->
  explained (h ++ [(o, a, l)]) r'.
Proof.
  intros Hr Ho Hl H Hex.
  assert (accepts_none (o, a, l) -> r' = r -> explained (h ++ [(o, a, l)]) r') as Hstay
    by (intros ? ->; by apply (explained_stay _ _ r); [|apply same_job_refl|]).
  destruct o as [k s|m n|now|fence| |], a as [x|c]; try done; cbn [acts] in H.
  - by eapply submit_explained.
  - destruct (in_flight r) eqn:Hi; [by eapply event_explained|]. destruct H as (-> & -> & _).
    by apply Hstay.
  - destruct H as [_ [[_ ->]|(Hi & _ & ->)]]; [by apply Hstay|].
    apply (explained_stay _ _ r); [done| |done]. case_match; by split_and!.
  - destruct H as [(_ & _ & ->)|(Hi & _ & Hs)]; [by apply Hstay|]. by eapply explained_stopped; [..|exact Hs].
  - by eapply reset_explained.
  - destruct H as [_ H]. destruct (_ && _); destruct H as [-> ->]; [|by apply Hstay].
    unfold explained, view_of. cbn. by destruct (usable _).
Qed.

(** *** Every job ends at most once *)

Definition pending_fences (v : view) : list Z :=
  match v with Busy f | Finished f _ => [f] | _ => [] end.

Lemma edge_accounts v o a l v' :
  edge v o a v' ->
  taken_by (o, a, l) ++ pending_fences v' `sublist_of`
    pending_fences v ++ accepted_by (o, a, l) /\
  (gives_up (o, a, l) = false ->
   taken_by (o, a, l) ++ pending_fences v' = pending_fences v ++ accepted_by (o, a, l)).
Proof.
  intros [v0 o0 x Hx Hn|k s Hf|k s|k s x Hx|f m n|f m n st Hst|f m n x Hx|f m n|f now|f|f|v0 Hv|v0 Hv
    |f|f st|v0 Hv]; cbn [taken_by accepted_by pending_fences app gives_up Ok ResetFailed] in *;
    try (by split); try (split; [apply sublist_nil_l|done]).
  - destruct Hx as [->|[->| ->]]; destruct o0; try done; cbn; rewrite ?app_nil_r; by split.
  - destruct Hx as [->|[->| ->]]; by split.
  - split; [|by destruct (usable st)]. by destruct (usable st).
  - rewrite app_nil_r. by split.
Qed.

Definition accounted h r : Prop :=
  taken h ++ pending_fences (view_of r) `sublist_of` accepted h /\
  (forallb (fun e => negb (gives_up e)) h = true ->
   taken h ++ pending_fences (view_of r) = accepted h).

Lemma edge_accounted h o a l r r' :
  edge (view_of r) o a (view_of r') -> accounted h r -> accounted (h ++ [(o, a, l)]) r'.
Proof.
  intros He [H1 H2]. destruct (edge_accounts _ _ _ l _ He) as [E1 E2].
  unfold accounted, taken, accepted in *. rewrite !map_app, !concat_app. cbn [map concat].
  rewrite !app_nil_r, forallb_app, <- app_assoc. split.
  - etrans; [apply sublist_app; [done|exact E1]|]. rewrite app_assoc. by apply sublist_app.
  - rewrite andb_true_iff. intros [Hh He']. cbn in He'. rewrite andb_true_r, negb_true_iff in He'.
    by rewrite (E2 He'), app_assoc, (H2 Hh).
Qed.

(** *** The component *)

Lemma initialize_spec r0 c S :
  wp (AppleAgxG13QueueRuntimeInitialize (Some r0) (Some c) (Some Wio)) (fun p S' =>
    looks S S' /\ (config_valid c = true /\ p = (Ok, Some (runtime_zero c Wio)) \/
      p.2 = Some r0 /\ (p.1 = AppleAgxG13QueueRuntimeResultInvalidArgument \/
                        p.1 = TransportFailed))) S.
Proof.
  unfold AppleAgxG13QueueRuntimeInitialize. cbn [is_null].
  destruct (AppleAgxG13QueueIoValid (Some Wio)) eqn:Hv, (config_valid c) eqn:Hc; cbn [negb orb];
    try (apply wp_ret; split; [apply looks_refl|right; by split; [|left]]).
  eapply wp_seq; [apply read_all_spec|]. intros [ok v] S1 (l & H1 & Hl & _).
  assert (looks S S1) as Hlook by (by exists l).
  destruct ok; cbn [negb]; [|apply wp_ret; split; [done|]; right; by split; [|right]].
  destruct (_ || _); apply wp_ret; (split; [done|]); [right; by split; [|left]|by left].
Qed.

Definition queue_state : Type := RT * St * list call_record.

(** Initialised, before any signal of a job has passed. *)
Definition queue_initial (p : queue_state) : Prop :=
  p.2 = [] /\ exists r0 c S0,
    AppleAgxG13QueueRuntimeInitialize (Some r0) (Some c) (Some Wio) S0 = Some ((Ok, Some p.1.1), p.1.2).

(** The world and the memory change, or a call is made. *)
Inductive queue_step : queue_state -> queue_state -> Prop :=
  | queue_world r w w' l m m' h : queue_step (r, ((w, l), m), h) (r, ((w', l), m'), h)
  | queue_call o r S a r' S' l h :
      op_typed o -> execute o r S = Some ((a, r'), S') -> passes l S S' ->
      queue_step (r, S, h) (r', S', h ++ [(o, a, l)]).

Definition queue_inv (p : queue_state) : Prop :=
  healthy p.1.1 /\ explained p.2 p.1.1 /\ accounted p.2 p.1.1.

Lemma initial_inv p : queue_initial p -> queue_inv p.
Proof.
  destruct p as [[r S] h]. intros [Eh (r0 & c & S0 & E)]. cbn [fst snd] in Eh, E. subst h.
  pose proof (initialize_spec r0 c S0) as H. unfold wp in H. rewrite E in H.
  destruct H as [_ [[Hc [= ->]]|[_ [?|?]]]]; [|done..].
  split; [split; [by split|by constructor]|]. split; [done|]. split; [apply sublist_nil_l|done].
Qed.

Lemma step_inv p p' : queue_inv p -> queue_step p p' -> queue_inv p'.
Proof.
  intros HI Hstep. destruct Hstep as [r w w' l m m' h|o r S a r' S' l h Ho E Hl]; [exact HI|].
  destruct HI as (Hr & Hex & Hac).
  cbn [fst snd] in *. pose proof (execute_spec o r S (healthy_config r Hr) Ho) as H.
  unfold wp in H. rewrite E in H. destruct H as (l' & Hl' & H). cbn [fst snd] in H.
  assert (l' = l) as -> by (unfold passes in *; rewrite Hl in Hl'; by apply app_inv_head in Hl').
  destruct (acts_step _ _ _ _ _ _ _ Hr H) as [Hr' He].
  split; [done|]. split; [|by eapply edge_accounted].
  exact (acts_explained h o r a r' l S S' Hr Ho Hl H Hex).
Qed.

#[local] Program Instance queue_component : Component queue_state := {
  comp_init := queue_initial;
  comp_step := queue_step;
  comp_inv := queue_inv;
}.
Next Obligation. by apply initial_inv. Qed.
Next Obligation. by eapply step_inv. Qed.

(** C8: the runtime is a small state machine.  In every state that can be reached, whatever
    the firmware and the callbacks did, every call returns, and it moves the runtime along
    an edge of the machine Idle, Busy, Finished, Broken: a job is accepted only when none
    is pending, a refused call changes nothing, an event, a cancellation and a failure
    finish the job or, when it cannot be stopped, break the runtime, a timer finishes
    nothing, only a finished job is taken, and only Reset leads out of Broken. *)
Theorem queue_state_machine p o :
  reachable p -> op_typed o ->
  exists a r' S', execute o p.1.1 p.1.2 = Some ((a, r'), S') /\
    edge (view_of p.1.1) o a (view_of r').
Proof.
  intros Hp Ho. destruct (reachable_inv p Hp) as (Hr & _).
  pose proof (execute_spec o p.1.1 p.1.2 (healthy_config _ Hr) Ho) as H.
  apply wp_result in H as ([a r'] & S' & E & l & _ & H).
  destruct (acts_step _ _ _ _ _ _ _ Hr H) as [_ He]. eauto.
Qed.

(** C7: success is never reported without proof.  When the pending completion is a
    success, it is that of the job accepted last, and for each queue of that job there was
    later one call with an event that has the queue's number in which the stamp that was
    read had reached the work's stamp, and the done pointer had reached the entry behind
    the job's last one, without passing the write pointer. *)
Theorem queue_success_proved p f :
  reachable p -> view_of p.1.1 = Finished f AppleAgxG13QueueCompletionSuccess ->
  exists k s l later pubs, current_job p.2 = Some (k, s, l, later) /\ f = sub_Fence s /\
    Forall2 (placed l) (job_queues k p.1.1 s) pubs /\
    Forall2 (queue_done later) (job_queues k p.1.1 s) pubs.
Proof.
  intros Hp Hv. destruct (reachable_inv p Hp) as ([_ Hr] & Hex & _).
  unfold explained in Hex. rewrite Hv in Hex.
  destruct Hex as (k & s & l & later & E & Hf & _ & pubs & Hpl & H). unfold view_of in Hv.
  destruct (Phase p.1.1); try done. injection Hv as <- Est.
  exists k, s, l, later, pubs. split; [done|]. split; [|by auto].
  rewrite <- Hf. apply Hr.
Qed.

(** C28: no job is lost or finished twice.  The completions that were taken, and the one
    that is pending, are those of accepted jobs, in the order of their acceptance and each
    once; and as long as no call gave up a job (Reset, or a failure to stop the firmware)
    they are exactly the accepted jobs. *)
Theorem queue_jobs_accounted p :
  reachable p ->
  taken p.2 ++ pending_fences (view_of p.1.1) `sublist_of` accepted p.2 /\
  (forallb (fun e => negb (gives_up e)) p.2 = true ->
   taken p.2 ++ pending_fences (view_of p.1.1) = accepted p.2).
Proof. intros Hp. apply (reachable_inv p Hp). Qed.

(** C29: what Reset does.  Reset returns; it is refused while a completion waits; a pending
    job is stopped first, and if that fails nothing else happens; then the firmware's
    position on every ring is read, and only when all of them are on their rings are the
    write pointers moved there, with a barrier behind them, and only then is the runtime as
    good as new. *)
Theorem queue_reset_exact r S :
  configured io r ->
  exists x r' S' l, AppleAgxG13QueueRuntimeReset (Some r) S = Some ((x, Some r'), S') /\
    passes l S S' /\ resets r x r' l.
Proof.
  intros [_ Hr]. pose proof (reset_spec r S Hr) as H.
  apply wp_result in H as ([x q] & S' & E & r' & l & Eq & HS & H). cbn [fst snd] in *. subst q.
  eauto 10.
Qed.

(** *** Completion *)

(** Every read gives the value that memory has at the address. *)
Definition reads_give (value : ptr Z -> Z) : Prop := forall f a old s,
  ReadU32 io = Some f -> (f a old s).1 = (true, value a).

(** A queue is done, or what is read shows it to be. *)
Definition shows_done (value : ptr Z -> Z) e (b : APPLE_AGX_G13_QUEUE_BINDING)
    (p : APPLE_AGX_G13_QUEUE_PENDING) : Prop :=
  Complete p = true \/
  G13.AppleAgxG13CompletionSatisfiedWindow (Some e) (pnd_EventNumber p) (u32 (value (Stamp b)))
    (ExpectedStamp p) (u32 (value (GpuDonePointer b))) (pnd_ExpectedDonePointer p)
    (u32 (value (CpuWritePointer b))) (RingCapacity b) = true.

(** The queues of the pending job. *)
Definition queues_waited_for r
    : list (APPLE_AGX_G13_QUEUE_BINDING * APPLE_AGX_G13_QUEUE_PENDING) :=
  let compute := (cfg_Compute (Config r), ComputePending r) in
  match Phase r with
  | AppleAgxG13QueueRuntimeComputeSubmitted => [compute]
  | _ => [(cfg_D3 (Config r), D3Pending r); (cfg_Ta (Config r), TaPending r)] ++
         if ComputeInRender r then [compute] else []
  end.

Lemma read_gives value a old S :
  reads_give value -> wp (read_u32 Wio a old) (fun p _ => p = (true, u32 (value a))) S.
Proof using Hio.
  intros Hv. destruct (io_there io Hio) as (_ & _ & _ & [f E] & _).
  pose proof (Hv f a old (unlogged S) E) as Hf.
  unfold read_u32. simpl. rewrite E. simpl. apply wp_bind, wp_call. unfold noting.
  destruct (f a old (unlogged S)) as [[ok v] s]. cbn in Hf. injection Hf as -> ->.
  by intros x S' [= <- <-].
Qed.

Lemma observe_done value e b p S :
  reads_give value -> shows_done value e b p ->
  wp (AppleAgxG13ObserveQueue Wio e b p) (fun x _ => x.1 = true /\ Complete x.2 = true) S.
Proof using Hio.
  intros Hv Hd. unfold AppleAgxG13ObserveQueue. destruct (Complete p) eqn:Hc; [by apply wp_ret|].
  destruct Hd as [?|Hw]; [congruence|].
  assert (G13.AppleAgxG13EventHasNumber (Some e) (pnd_EventNumber p) = true) as ->.
  { unfold G13.AppleAgxG13CompletionSatisfiedWindow in Hw. revert Hw. case_match eqn:Hg; [done|].
    rewrite !orb_false_iff, negb_false_iff in Hg. intros _. apply Hg. }
  cbn [EventSeen set_field negb].
  eapply wp_seq; [by apply read_gives|]. intros _ S1 ->. cbn [negb].
  eapply wp_seq; [by apply read_gives|]. intros _ S2 ->. cbn [negb].
  eapply wp_seq; [by apply read_gives|]. intros _ S3 ->. cbn [negb].
  apply wp_ret. split; [done|].
  cbn [snd pnd_EventNumber ExpectedStamp pnd_ExpectedDonePointer set_field].
  by rewrite Hw.
Qed.

Lemma flag_done value e r S :
  reads_give value -> healthy r -> in_flight r = true ->
  Forall (fun q => shows_done value e q.1 q.2) (queues_waited_for r) ->
  wp ((match Phase r with
       | AppleAgxG13QueueRuntimeComputeSubmitted => handle_compute_flag
       | _ => handle_render_flag end) r e) (fun p _ => p.1 = Ok /\
    view_of p.2 = Finished (PendingFence r) AppleAgxG13QueueCompletionSuccess) S.
Proof using Hio.
  intros Hv [[_ Hr] Hp] Hi Hall. unfold queues_waited_for in Hall. unfold in_flight in Hi.
  destruct (Phase r) eqn:Eph; try done.
  - apply Forall_cons in Hall as [Hc _]. unfold handle_compute_flag. rewrite Hr.
    eapply wp_seq; [by apply (observe_done value)|]. intros [ok p] S1 [Eok Ec]. cbn in Eok, Ec. subst ok.
    apply wp_ret. cbn. destruct Hp as (_ & _ & ->). by rewrite Ec.
  - apply Forall_app in Hall as [Hall Hc]. apply Forall_cons in Hall as [H3 Hall].
    apply Forall_cons in Hall as [Ha _]. unfold handle_render_flag. rewrite Hr.
    eapply wp_seq; [by apply (observe_done value)|]. intros [ok d3] S1 [Eok E3]. cbn in Eok, E3. subst ok.
    eapply wp_seq; [cbn; rewrite Hr; by apply (observe_done value)|].
    intros [ok ta] S2 [Eok Ea]. cbn in Eok, Ea. subst ok. cbn [negb].
    eapply (wp_seq _ _ (fun x _ => x.1 = true /\ (ComputeInRender r = true -> Complete x.2 = true))).
    + cbn. destruct (ComputeInRender r); [|by apply wp_ret]. apply Forall_cons in Hc as [Hc _].
      rewrite Hr. eapply wp_mono; [by apply (observe_done value)|]. by intros x S3 [??].
    + intros [ok c] S3 [Eok Ec]. cbn in Eok, Ec. subst ok. apply wp_ret. cbn. rewrite E3, Ea.
      destruct (ComputeInRender r); [rewrite Ec by done|]; done.
Qed.

Lemma handle_event_flag r m n e flag :
  G13.AppleAgxG13DecodeEvent (Some m) n (Some G13.event_zero) = (true, Some e) ->
  G13.TerminalFault e = false -> G13.Kind e = G13.AppleAgxG13EventFlag ->
  handle_event r m n flag = flag r e.
Proof. intros Hd Ht Hk. unfold handle_event. rewrite Hd. simpl. by rewrite Ht, Hk. Qed.

(** C30: a job that is done is completed.  When the stamps and pointers in memory show every
    queue of the pending job to be done, one flag event with the queues' numbers finishes
    the job with success. *)
Theorem queue_event_completes value m n e r S :
  reads_give value -> healthy r -> in_flight r = true ->
  G13.AppleAgxG13DecodeEvent (Some m) n (Some G13.event_zero) = (true, Some e) ->
  G13.Kind e = G13.AppleAgxG13EventFlag ->
  Forall (fun q => shows_done value e q.1 q.2) (queues_waited_for r) ->
  exists r' S', AppleAgxG13QueueRuntimeHandleEvent (Some r) (Some m) n S = Some ((Ok, Some r'), S') /\
    view_of r' = Finished (PendingFence r) AppleAgxG13QueueCompletionSuccess.
Proof using Hio.
  intros Hv Hr Hi Hd Hk Hall.
  assert (G13.TerminalFault e = false) as Ht.
  { revert Hd Hk. unfold G13.AppleAgxG13DecodeEvent. cbn [is_null orb].
    set (kind := G13.AppleAgxG13GetU32 m 0).
    repeat match goal with |- context [if ?b then _ else _] => destruct b eqn:? end; try done;
      intros [= <-]; try done; cbn [G13.Kind G13.TerminalFault set_field]; intros Hk;
      by rewrite Hk in *. }
  pose proof (flag_done value e r S Hv Hr Hi Hall) as H.
  apply wp_result in H as ([x r'] & S' & E & Ex & Ev). cbn in Ex, Ev. subst x.
  exists r', S'. split; [|done]. unfold AppleAgxG13QueueRuntimeHandleEvent.
  rewrite !(handle_event_flag r m n e) by done. unfold in_flight in Hi. unfold mbind, M_bind.
  by destruct (Phase r); try done; rewrite E.
Qed.
End living.

(** ** A job's life *)

(** The state after a call, and after the firmware has changed the words it shares. *)
Notation demo_state := (queue_state (W := Demo.words)).
Definition after (o : op) (p : demo_state) : demo_state :=
  match execute o p.1.1 p.1.2 with
  | Some ((a, r'), S') => (r', S', p.2 ++ [(o, a, skipn (length p.1.2.1.2) S'.1.2)])
  | None => p
  end.
Definition meanwhile (f : Demo.words -> Demo.words) (p : demo_state) : demo_state :=
  (p.1.1, ((f p.1.2.1.1, p.1.2.1.2), p.1.2.2), p.2).

Notation demo_reachable := (reachable (H := queue_component Demo.io Demo.io_valid)).

Lemma after_reachable o p : demo_reachable p -> op_typed o -> demo_reachable (after o p).
Proof.
  intros Hp Ho. eapply reachable_step; [exact Hp|]. destruct (reachable_inv p Hp) as (Hr & _).
  destruct p as [[r S] h]. cbn [fst snd] in Hr.
  pose proof (execute_spec Demo.io Demo.io_valid o r S (healthy_config _ r Hr) Ho) as H.
  unfold after. cbn [fst snd]. unfold wp in H.
  destruct (execute o r S) as [[[a r'] S']|] eqn:E; [|done]. destruct H as (l & Hl & _).
  unfold passes in Hl. rewrite Hl, drop_app_length.
  by apply (queue_call o r S a r' S' l h).
Qed.

Lemma meanwhile_reachable f p : demo_reachable p -> demo_reachable (meanwhile f p).
Proof.
  intros Hp. eapply reachable_step; [exact Hp|]. destruct p as [[r [[w l] m]] h]. constructor.
Qed.

Definition demo_start : demo_state :=
  match AppleAgxG13QueueRuntimeInitialize (Some Demo.ready) (Some Demo.config)
    (Some (watched Demo.io)) Demo.start with
  | Some ((_, Some r), S0) => (r, S0, [])
  | _ => (Demo.ready, Demo.start, [])
  end.

Lemma demo_start_reachable : demo_reachable demo_start.
Proof.
  exists demo_start. split; [|constructor]. split; [done|].
  exists Demo.ready, Demo.config, Demo.start. done.
Qed.

(** The firmware has done the work of both queues, and says so. *)
Definition firmware_done (w : Demo.words) : Demo.words :=
  Demo.put_word 0x108 7 (Demo.put_word 0x208 7 (Demo.put_word 0x104 2 (Demo.put_word 0x204 2 w))).
Definition flag_message : list Z := G13.write_event (G13.FwFlag 40 0) (replicate 56 0).

Notation demo_busy := (after (Submit RenderJob Demo.render) demo_start).
Notation demo_finished := (after (Event flag_message 56) (meanwhile firmware_done demo_busy)).
Notation demo_taken := (after Take demo_finished).

Lemma demo_busy_reachable : demo_reachable demo_busy.
Proof. apply after_reachable; [apply demo_start_reachable|apply Demo.render_typed]. Qed.

Lemma demo_finished_reachable : demo_reachable demo_finished.
Proof. apply after_reachable; [|done]. apply meanwhile_reachable, demo_busy_reachable. Qed.

Lemma demo_taken_reachable : demo_reachable demo_taken.
Proof. apply after_reachable; [apply demo_finished_reachable|done]. Qed.

Lemma demo_finished_view :
  view_of demo_finished.1.1 = Finished 9 AppleAgxG13QueueCompletionSuccess.
Proof. by vm_compute. Qed.

Lemma queue_state_machine_witness :
  exists a r' S', execute Take demo_finished.1.1 demo_finished.1.2 = Some ((a, r'), S') /\
    edge (view_of demo_finished.1.1) Take a (view_of r').
Proof.
  exact (queue_state_machine Demo.io Demo.io_valid demo_finished Take demo_finished_reachable I).
Defined.

Lemma queue_success_proved_witness :
  exists k s l later pubs, current_job demo_finished.2 = Some (k, s, l, later) /\
    9 = sub_Fence s /\ Forall2 (placed l) (job_queues k demo_finished.1.1 s) pubs /\
    Forall2 (queue_done later) (job_queues k demo_finished.1.1 s) pubs.
Proof.
  exact (queue_success_proved Demo.io Demo.io_valid demo_finished 9 demo_finished_reachable
    demo_finished_view).
Defined.

Lemma demo_taken_fences : taken demo_taken.2 = [9] /\ accepted demo_taken.2 = [9].
Proof. by vm_compute. Qed.

Lemma queue_jobs_accounted_witness :
  taken demo_taken.2 ++ pending_fences (view_of demo_taken.1.1) `sublist_of` accepted demo_taken.2.
Proof.
  exact (proj1 (queue_jobs_accounted Demo.io Demo.io_valid demo_taken demo_taken_reachable)).
Defined.

Lemma queue_reset_exact_witness :
  exists x r' S' l, AppleAgxG13QueueRuntimeReset (Some Demo.ready) Demo.start =
      Some ((x, Some r'), S') /\ passes l Demo.start S' /\ resets Demo.ready x r' l.
Proof.
  exact (queue_reset_exact Demo.io Demo.io_valid Demo.ready Demo.start Demo.ready_configured).
Defined.

(** What memory holds when the firmware is done. *)
Definition fixed_io (w : Demo.words) : APPLE_AGX_G13_QUEUE_RUNTIME_IO unit := {|
  FlushForDevice := Some (fun _ _ s => (true, s));
  MemoryBarrier := Some (fun s => s);
  PublishU32 := Some (fun _ _ s => (true, s));
  ReadU32 := Some (fun a _ s => ((true, w (default 0 a)), s));
  SendRunMessage := Some (fun _ _ s => (true, s));
  Quiesce := Some (fun _ s => (true, s));
  Recover := NULL;
|}.
Definition done_words : Demo.words :=
  firmware_done (Demo.put_word 0x100 2 (Demo.put_word 0x200 2 (fun _ => 0))).
Definition waiting (event : Z) : APPLE_AGX_G13_QUEUE_PENDING := {|
  pnd_EventNumber := event; ExpectedStamp := 7; pnd_ExpectedDonePointer := 2; EventSeen := false;
  Complete := false |}.
Definition pending_render : APPLE_AGX_G13_QUEUE_RUNTIME (unit * list signal) :=
  (runtime_zero Demo.config (watched (fixed_io done_words)))
    <| Phase := AppleAgxG13QueueRuntimeSubmitted |> <| PendingFence := 9 |>
    <| D3Pending := waiting 5 |> <| TaPending := waiting 3 |>.

Lemma pending_render_healthy : healthy (fixed_io done_words) pending_render.
Proof. by split. Qed.

Lemma pending_render_done :
  Forall (fun q => shows_done (fun a => done_words (default 0 a))
    (G13.event_of (G13.FwFlag 40 0)) q.1 q.2) (queues_waited_for pending_render).
Proof. constructor; [by right|]. constructor; [by right|]. constructor. Qed.

Lemma queue_event_completes_witness :
  exists r' S', AppleAgxG13QueueRuntimeHandleEvent (Some pending_render) (Some flag_message) 56
      ((tt, []), fun _ => 0) = Some ((Ok, Some r'), S') /\
    view_of r' = Finished 9 AppleAgxG13QueueCompletionSuccess.
Proof.
  refine (queue_event_completes (fixed_io done_words) eq_refl (fun a => done_words (default 0 a))
    flag_message 56 (G13.event_of (G13.FwFlag 40 0)) pending_render ((tt, []), fun _ => 0) _
    pending_render_healthy eq_refl _ eq_refl pending_render_done).
  - intros f a old s [= <-]. reflexivity.
  - vm_compute. reflexivity.
Defined.
End Life.
