(* ===== verification/Firmware.v ===== *)
(** * Bringing the firmware up and down (shared/src/apple_agx_firmware.c)

    [Fw] is the coordinator that takes the coprocessor through nine stages, each with a
    deadline, and back.  The platform's callbacks are an argument; an observer behind them
    ([watched]) logs every call with its answer. *)

From S2P Require Import Prelude Rtkit Interact.
Import Interact.

Module Fw.

(** ** Data *)

Definition J313_AGX_G2_FIRMWARE_ENDPOINT : Z := 0x20.
Definition J313_AGX_G2_DOORBELL_ENDPOINT : Z := 0x21.
Definition J313_AGX_G2_ASC_BOOT_TIMEOUT_MS : Z := 3000.
Definition J313_AGX_G2_ENDPOINT_TIMEOUT_MS : Z := 500.
Definition J313_AGX_G2_INITDATA_TIMEOUT_MS : Z := 500.
Definition J313_AGX_G2_STOP_TIMEOUT_MS : Z := 1000.

Inductive APPLE_AGX_FIRMWARE_PHASE :=
  | AppleAgxFirmwareOff
  | AppleAgxFirmwarePowered
  | AppleAgxFirmwareUatReady
  | AppleAgxFirmwareAscRunning
  | AppleAgxFirmwareEndpointStarted
  | AppleAgxDoorbellEndpointStarted
  | AppleAgxFirmwareInitdataPublished
  | AppleAgxFirmwareInitdataSent
  | AppleAgxFirmwareDeviceControlInitialized
  | AppleAgxFirmwareIdleTimestampUpdated
  | AppleAgxFirmwareRollingBack
  | AppleAgxFirmwareStopped
  | AppleAgxFirmwareFailed.
#[export] Instance firmware_phase_eq_dec : EqDecision APPLE_AGX_FIRMWARE_PHASE.
Proof. solve_decision. Defined.

Inductive APPLE_AGX_FIRMWARE_RESULT :=
  | AppleAgxFirmwareResultOk
  | AppleAgxFirmwareResultInvalid
  | AppleAgxFirmwareResultDeadlineOverflow
  | AppleAgxFirmwareResultTimeout
  | AppleAgxFirmwareResultClockRegression
  | AppleAgxFirmwareResultTransportFailed
  | AppleAgxFirmwareResultCleanupFailed.
#[export] Instance firmware_result_eq_dec : EqDecision APPLE_AGX_FIRMWARE_RESULT.
Proof. solve_decision. Defined.

Definition APPLE_AGX_FIRMWARE_POWERED : Z := Z.shiftl 1 0.
Definition APPLE_AGX_FIRMWARE_UAT_READY : Z := Z.shiftl 1 1.
Definition APPLE_AGX_FIRMWARE_ASC_RUNNING : Z := Z.shiftl 1 2.
Definition APPLE_AGX_FIRMWARE_ENDPOINT : Z := Z.shiftl 1 3.
Definition APPLE_AGX_FIRMWARE_DOORBELL_ENDPOINT : Z := Z.shiftl 1 4.
Definition APPLE_AGX_FIRMWARE_INITDATA_PUBLISHED : Z := Z.shiftl 1 5.
Definition APPLE_AGX_FIRMWARE_INITDATA_SENT : Z := Z.shiftl 1 6.
Definition APPLE_AGX_FIRMWARE_DEVICE_CONTROL : Z := Z.shiftl 1 7.
Definition APPLE_AGX_FIRMWARE_IDLE_TIMESTAMP : Z := Z.shiftl 1 8.
Definition APPLE_AGX_FIRMWARE_ALL_COMPLETED : Z := Z.shiftl 1 9 - 1.
Definition APPLE_AGX_FW_U64_MAX : Z := u64 (Z.lnot 0).
Definition APPLE_AGX_FIRMWARE_OBSERVATION_BITS : Z :=
  Z.lor (Z.lor APPLE_AGX_FIRMWARE_INITDATA_SENT APPLE_AGX_FIRMWARE_DEVICE_CONTROL)
    APPLE_AGX_FIRMWARE_IDLE_TIMESTAMP.

Record APPLE_AGX_FIRMWARE := {
  Phase : APPLE_AGX_FIRMWARE_PHASE;
  CompletedMask : Z;
  InitdataAddress : Z;
  LastResult : APPLE_AGX_FIRMWARE_RESULT;
  CleanupMask : Z;
}.
#[export] Instance firmware_eta : Eta APPLE_AGX_FIRMWARE :=
  fun f => Build_APPLE_AGX_FIRMWARE (Phase f) (CompletedMask f) (InitdataAddress f)
    (LastResult f) (CleanupMask f).

(** The callbacks, over the world.  PublishInitdata gets the old contents of the address it
    is to fill and returns the new ones. *)
Record APPLE_AGX_FIRMWARE_IO (W : Type) := {
  NowMs : ptr (W -> Z * W);
  PowerOn : ptr (Z -> W -> bool * W);
  CreateFirmwareUat : ptr (Z -> W -> bool * W);
  BootAsc : ptr (Z -> W -> bool * W);
  StartEndpoint : ptr (Z -> Z -> W -> bool * W);
  PublishInitdata : ptr (Z -> Z -> W -> (bool * Z) * W);
  SendInitdata : ptr (Z -> Z -> W -> bool * W);
  SendDeviceControlInit : ptr (Z -> W -> bool * W);
  UpdateIdleTimestamp : ptr (Z -> W -> bool * W);
  UnpublishInitdata : ptr (Z -> W -> bool * W);
  StopEndpoint : ptr (Z -> Z -> W -> bool * W);
  StopAsc : ptr (Z -> W -> bool * W);
  DestroyFirmwareUat : ptr (Z -> W -> bool * W);
  PowerOff : ptr (Z -> W -> bool * W);
  RecordPhase : ptr (APPLE_AGX_FIRMWARE_PHASE -> APPLE_AGX_FIRMWARE_RESULT -> Z -> W -> W);
}.
Arguments NowMs {W} _.
Arguments PowerOn {W} _.
Arguments CreateFirmwareUat {W} _.
Arguments BootAsc {W} _.
Arguments StartEndpoint {W} _.
Arguments PublishInitdata {W} _.
Arguments SendInitdata {W} _.
Arguments SendDeviceControlInit {W} _.
Arguments UpdateIdleTimestamp {W} _.
Arguments UnpublishInitdata {W} _.
Arguments StopEndpoint {W} _.
Arguments StopAsc {W} _.
Arguments DestroyFirmwareUat {W} _.
Arguments PowerOff {W} _.
Arguments RecordPhase {W} _.

(** ** Operations *)

Section operations.
Context {W : Type}.
Notation FW := APPLE_AGX_FIRMWARE.
Notation RESULT := APPLE_AGX_FIRMWARE_RESULT.
Notation IO := (APPLE_AGX_FIRMWARE_IO W).
Implicit Types (io : IO).

(** [Io->F(Io->Context, ...)]. *)
Definition ask {A} (f : ptr (W -> A * W)) : M W A := deref g := f else undefined in call g.
Definition at_deadline (f : ptr (Z -> W -> bool * W)) (deadline : Z) : M W bool :=
  ask ((fun g => g deadline) <$> f).
Definition at_endpoint (f : ptr (Z -> Z -> W -> bool * W)) (x deadline : Z) : M W bool :=
  ask ((fun g => g x deadline) <$> f).
Definition now io : M W Z := t ← ask (NowMs io); mret (u64 t).

Definition AppleAgxFirmwareRecord (Firmware : ptr FW) (Io : ptr IO) : M W unit :=
  deref fw := Firmware else mret tt in
  deref io := Io else mret tt in
  deref f := RecordPhase io else mret tt in
  call (fun w => (tt, f (Phase fw) (LastResult fw) (CompletedMask fw) w)).

Definition AppleAgxFirmwareIoValid (Io : ptr IO) : bool :=
  deref io := Io else false in
  negb (is_null (NowMs io)) && negb (is_null (PowerOn io)) &&
  negb (is_null (CreateFirmwareUat io)) && negb (is_null (BootAsc io)) &&
  negb (is_null (StartEndpoint io)) && negb (is_null (PublishInitdata io)) &&
  negb (is_null (SendInitdata io)) && negb (is_null (SendDeviceControlInit io)) &&
  negb (is_null (UpdateIdleTimestamp io)) && negb (is_null (UnpublishInitdata io)) &&
  negb (is_null (StopEndpoint io)) && negb (is_null (StopAsc io)) &&
  negb (is_null (DestroyFirmwareUat io)) && negb (is_null (PowerOff io)).

(** The result and, when it is Ok, the start and the deadline. *)
Definition AppleAgxFirmwareBeginDeadline io (TimeoutMs : Z) : M W (RESULT * Z * Z) :=
  start ← now io;
  mret (if APPLE_AGX_FW_U64_MAX - TimeoutMs <? start
        then (AppleAgxFirmwareResultDeadlineOverflow, start, 0)
        else (AppleAgxFirmwareResultOk, start, u64 (start + TimeoutMs))).

Definition AppleAgxFirmwareFinishOperation io (StartMs DeadlineMs : Z) (TransportResult : bool)
    : M W RESULT :=
  end_ms ← now io;
  mret (if end_ms <? StartMs then AppleAgxFirmwareResultClockRegression
        else if DeadlineMs <? end_ms then AppleAgxFirmwareResultTimeout
        else if negb TransportResult then AppleAgxFirmwareResultTransportFailed
        else AppleAgxFirmwareResultOk).

Definition AppleAgxFirmwareComplete (Firmware : FW) io (Phase_ : APPLE_AGX_FIRMWARE_PHASE)
    (Bit : Z) : M W FW :=
  let fw := Firmware <| CompletedMask := Z.lor (CompletedMask Firmware) Bit |>
              <| Phase := Phase_ |> <| LastResult := AppleAgxFirmwareResultOk |> in
  AppleAgxFirmwareRecord (Some fw) (Some io);; mret fw.

(** The stores of Initialize and of Fail. *)
Definition initialized (fw : FW) : FW :=
  fw <| Phase := AppleAgxFirmwareOff |> <| CompletedMask := 0 |> <| CleanupMask := 0 |>
    <| InitdataAddress := 0 |> <| LastResult := AppleAgxFirmwareResultOk |>.
Definition failed (fw : FW) (Result : RESULT) : FW :=
  fw <| Phase := AppleAgxFirmwareFailed |>
    <| LastResult := if bool_decide (Result = AppleAgxFirmwareResultOk)
                     then AppleAgxFirmwareResultInvalid else Result |>.

Definition AppleAgxFirmwareInitialize (Firmware : ptr FW) : ptr FW := initialized <$> Firmware.
Definition AppleAgxFirmwareFail (Firmware : ptr FW) (Result : RESULT) : ptr FW :=
  (fun fw => failed fw Result) <$> Firmware.

Definition AppleAgxFirmwareCleanupFinish (Firmware : FW) io (Bit StartMs DeadlineMs : Z)
    (TransportResult : bool) : M W (RESULT * FW) :=
  result ← AppleAgxFirmwareFinishOperation io StartMs DeadlineMs TransportResult;
  let fw :=
    if bool_decide (result = AppleAgxFirmwareResultOk)
    then Firmware <| CompletedMask := Z.ldiff (CompletedMask Firmware) Bit |>
                  <| CleanupMask := Z.ldiff (CleanupMask Firmware) Bit |>
    else Firmware <| LastResult := AppleAgxFirmwareResultCleanupFailed |> in
  AppleAgxFirmwareRecord (Some fw) (Some io);; mret (result, fw).

(** [APPLE_AGX_CLEANUP_SIMPLE]: what it does to the firmware and to [cleanup_failed]. *)
Definition cleanup_simple (st : bool * FW) io (Bit : Z) (callback : Z -> M W bool)
    : M W (bool * FW) :=
  let '(cleanup_failed, fw) := st in
  if Z.land (Z.lor (CompletedMask fw) (CleanupMask fw)) Bit =? 0 then mret st
  else
    '(result, start_ms, deadline) ← AppleAgxFirmwareBeginDeadline io J313_AGX_G2_STOP_TIMEOUT_MS;
    if negb (bool_decide (result = AppleAgxFirmwareResultOk)) then mret (true, fw)
    else
      ok ← callback deadline;
      '(result, fw) ← AppleAgxFirmwareCleanupFinish fw io Bit start_ms deadline ok;
      mret (cleanup_failed || negb (bool_decide (result = AppleAgxFirmwareResultOk)), fw).

(** Rollback of a firmware that is there. *)
Definition rollback (Firmware : FW) (Io : ptr IO) : M W (RESULT * FW) :=
  if negb (AppleAgxFirmwareIoValid Io)
  then mret (AppleAgxFirmwareResultInvalid,
             failed Firmware AppleAgxFirmwareResultInvalid)
  else deref io := Io else undefined in
  if negb (Z.ldiff (CompletedMask Firmware) APPLE_AGX_FIRMWARE_ALL_COMPLETED =? 0) ||
     negb (Z.ldiff (CleanupMask Firmware) APPLE_AGX_FIRMWARE_ASC_RUNNING =? 0)
  then
    let fw := failed Firmware AppleAgxFirmwareResultInvalid in
    AppleAgxFirmwareRecord (Some fw) (Some io);; mret (AppleAgxFirmwareResultInvalid, fw)
  else if (CompletedMask Firmware =? 0) && (CleanupMask Firmware =? 0)
  then
    let fw := Firmware <| Phase := AppleAgxFirmwareStopped |>
                <| LastResult := AppleAgxFirmwareResultOk |> in
    AppleAgxFirmwareRecord (Some fw) (Some io);; mret (AppleAgxFirmwareResultOk, fw)
  else
    let fw := Firmware <| Phase := AppleAgxFirmwareRollingBack |>
      <| LastResult := AppleAgxFirmwareResultOk |>
      <| CompletedMask := Z.ldiff (CompletedMask Firmware) APPLE_AGX_FIRMWARE_OBSERVATION_BITS |> in
    AppleAgxFirmwareRecord (Some fw) (Some io);;
    '(cleanup_failed, fw) ← cleanup_simple (false, fw) io APPLE_AGX_FIRMWARE_INITDATA_PUBLISHED
                      (at_deadline (UnpublishInitdata io));
    let fw := if Z.land (CompletedMask fw) APPLE_AGX_FIRMWARE_INITDATA_PUBLISHED =? 0
              then fw <| InitdataAddress := 0 |> else fw in
    st ← cleanup_simple (cleanup_failed, fw) io APPLE_AGX_FIRMWARE_DOORBELL_ENDPOINT
           (at_endpoint (StopEndpoint io) J313_AGX_G2_DOORBELL_ENDPOINT);
    st ← cleanup_simple st io APPLE_AGX_FIRMWARE_ENDPOINT
           (at_endpoint (StopEndpoint io) J313_AGX_G2_FIRMWARE_ENDPOINT);
    st ← cleanup_simple st io APPLE_AGX_FIRMWARE_ASC_RUNNING (at_deadline (StopAsc io));
    st ← cleanup_simple st io APPLE_AGX_FIRMWARE_UAT_READY
           (at_deadline (DestroyFirmwareUat io));
    '(cleanup_failed, fw) ← cleanup_simple st io APPLE_AGX_FIRMWARE_POWERED (at_deadline (PowerOff io));
    if cleanup_failed || negb (CompletedMask fw =? 0) || negb (CleanupMask fw =? 0)
    then
      let fw := fw <| Phase := AppleAgxFirmwareFailed |>
                  <| LastResult := AppleAgxFirmwareResultCleanupFailed |> in
      AppleAgxFirmwareRecord (Some fw) (Some io);; mret (AppleAgxFirmwareResultCleanupFailed, fw)
    else
      let fw := fw <| Phase := AppleAgxFirmwareStopped |>
                  <| LastResult := AppleAgxFirmwareResultOk |> in
      AppleAgxFirmwareRecord (Some fw) (Some io);; mret (AppleAgxFirmwareResultOk, fw).

Definition AppleAgxFirmwareRollback (Firmware : ptr FW) (Io : ptr IO) : M W (RESULT * ptr FW) :=
  deref fw := Firmware else mret (AppleAgxFirmwareResultInvalid, NULL) in
  '(result, fw) ← rollback fw Io; mret (result, Some fw).

Definition AppleAgxFirmwareAbortStart (Firmware : FW) io (Failure : RESULT) : M W (RESULT * FW) :=
  let fw := failed Firmware Failure in
  AppleAgxFirmwareRecord (Some fw) (Some io);;
  '(undone, fw) ← rollback fw (Some io);
  if negb (bool_decide (undone = AppleAgxFirmwareResultOk)) then mret (undone, fw)
  else
    let fw := fw <| LastResult := Failure |> in
    AppleAgxFirmwareRecord (Some fw) (Some io);; mret (Failure, fw).

Definition AppleAgxFirmwareValidateStart (Firmware : FW) (Io : ptr IO) : M W (RESULT * FW) :=
  if negb (AppleAgxFirmwareIoValid Io)
  then
    let fw := failed Firmware AppleAgxFirmwareResultInvalid in
    AppleAgxFirmwareRecord (Some fw) Io;;
    mret (AppleAgxFirmwareResultInvalid, fw)
  else if (negb (bool_decide (Phase Firmware = AppleAgxFirmwareOff)) &&
           negb (bool_decide (Phase Firmware = AppleAgxFirmwareStopped))) ||
          negb (CompletedMask Firmware =? 0) || negb (CleanupMask Firmware =? 0)
  then mret (AppleAgxFirmwareResultInvalid, Firmware)
  else mret (AppleAgxFirmwareResultOk,
    Firmware <| Phase := AppleAgxFirmwareOff |> <| InitdataAddress := 0 |>
             <| LastResult := AppleAgxFirmwareResultOk |>).

(** [APPLE_AGX_START_SIMPLE] and the stages written like it: the stage, then the rest. *)
Definition start_simple (fw : FW) io (callback : Z -> M W bool) (Timeout : Z)
    (Phase_ : APPLE_AGX_FIRMWARE_PHASE) (Bit : Z) (rest : FW -> M W (RESULT * FW))
    : M W (RESULT * FW) :=
  '(result, start_ms, deadline) ← AppleAgxFirmwareBeginDeadline io Timeout;
  result ←
    (if bool_decide (result = AppleAgxFirmwareResultOk)
     then ok ← callback deadline; AppleAgxFirmwareFinishOperation io start_ms deadline ok
     else mret result);
  if negb (bool_decide (result = AppleAgxFirmwareResultOk))
  then AppleAgxFirmwareAbortStart fw io result
  else fw ← AppleAgxFirmwareComplete fw io Phase_ Bit; rest fw.

(** The stage that publishes the init data: the result, and the address in the firmware. *)
Definition publish_initdata (fw : FW) io : M W (RESULT * FW) :=
  '(result, start_ms, deadline) ← AppleAgxFirmwareBeginDeadline io J313_AGX_G2_INITDATA_TIMEOUT_MS;
  if negb (bool_decide (result = AppleAgxFirmwareResultOk)) then mret (result, fw)
  else
    '(ok, address) ← ask ((fun f => f deadline 0) <$> PublishInitdata io);
    let fw := fw <| InitdataAddress := u64 address |> in
    result ← AppleAgxFirmwareFinishOperation io start_ms deadline ok;
    mret (if bool_decide (result = AppleAgxFirmwareResultOk) &&
             ((InitdataAddress fw =? 0) ||
              (Rtkit.AppleAgxRtkitInitdata (InitdataAddress fw) =?
               Rtkit.APPLE_AGX_RTKIT_INVALID_MESSAGE))
          then AppleAgxFirmwareResultInvalid else result, fw).

(** Start of a firmware that is there. *)
Definition start (Firmware : FW) (Io : ptr IO) : M W (RESULT * FW) :=
  '(result, fw) ← AppleAgxFirmwareValidateStart Firmware Io;
  if negb (bool_decide (result = AppleAgxFirmwareResultOk)) then mret (result, fw)
  else deref io := Io else undefined in
  start_simple fw io (at_deadline (PowerOn io)) J313_AGX_G2_INITDATA_TIMEOUT_MS
    AppleAgxFirmwarePowered APPLE_AGX_FIRMWARE_POWERED (fun fw =>
  start_simple fw io (at_deadline (CreateFirmwareUat io)) J313_AGX_G2_INITDATA_TIMEOUT_MS
    AppleAgxFirmwareUatReady APPLE_AGX_FIRMWARE_UAT_READY (fun fw =>
  let fw := fw <| CleanupMask := Z.lor (CleanupMask fw) APPLE_AGX_FIRMWARE_ASC_RUNNING |> in
  start_simple fw io (at_deadline (BootAsc io)) J313_AGX_G2_ASC_BOOT_TIMEOUT_MS
    AppleAgxFirmwareAscRunning APPLE_AGX_FIRMWARE_ASC_RUNNING (fun fw =>
  start_simple fw io (at_endpoint (StartEndpoint io) J313_AGX_G2_FIRMWARE_ENDPOINT)
    J313_AGX_G2_ENDPOINT_TIMEOUT_MS AppleAgxFirmwareEndpointStarted
    APPLE_AGX_FIRMWARE_ENDPOINT (fun fw =>
  start_simple fw io (at_endpoint (StartEndpoint io) J313_AGX_G2_DOORBELL_ENDPOINT)
    J313_AGX_G2_ENDPOINT_TIMEOUT_MS AppleAgxDoorbellEndpointStarted
    APPLE_AGX_FIRMWARE_DOORBELL_ENDPOINT (fun fw =>
  '(result, fw) ← publish_initdata fw io;
  if negb (bool_decide (result = AppleAgxFirmwareResultOk))
  then AppleAgxFirmwareAbortStart fw io result
  else
  fw ← AppleAgxFirmwareComplete fw io AppleAgxFirmwareInitdataPublished
         APPLE_AGX_FIRMWARE_INITDATA_PUBLISHED;
  start_simple fw io (at_endpoint (SendInitdata io) (InitdataAddress fw))
    J313_AGX_G2_INITDATA_TIMEOUT_MS AppleAgxFirmwareInitdataSent
    APPLE_AGX_FIRMWARE_INITDATA_SENT (fun fw =>
  start_simple fw io (at_deadline (SendDeviceControlInit io)) J313_AGX_G2_INITDATA_TIMEOUT_MS
    AppleAgxFirmwareDeviceControlInitialized APPLE_AGX_FIRMWARE_DEVICE_CONTROL (fun fw =>
  start_simple fw io (at_deadline (UpdateIdleTimestamp io)) J313_AGX_G2_INITDATA_TIMEOUT_MS
    AppleAgxFirmwareIdleTimestampUpdated APPLE_AGX_FIRMWARE_IDLE_TIMESTAMP (fun fw =>
  mret (AppleAgxFirmwareResultOk, fw))))))))).

Definition AppleAgxFirmwareStart (Firmware : ptr FW) (Io : ptr IO) : M W (RESULT * ptr FW) :=
  deref fw := Firmware else mret (AppleAgxFirmwareResultInvalid, NULL) in
  '(result, fw) ← start fw Io; mret (result, Some fw).
End operations.

End Fw.
