(* ===== verification/FirmwareStages.v ===== *)
(** * The stages of the firmware (shared/src/apple_agx_firmware.c)

    [Stages.watched] logs what the coordinator of Firmware.v asks of the platform.  Start
    climbs the nine stages in order; when one fails it undoes, in the opposite order, what
    is held, and so does Rollback; what could not be undone stays noted. *)

From S2P Require Import Prelude Rtkit Interact Firmware.
Import Interact.

Module Stages.
Import Fw.

(** ** The observer *)

Inductive fw_call :=
  | PowerUp
  | CreateUat
  | Boot
  | StartEp (endpoint : Z)
  | Publish
  | SendInit (address : Z)
  | SendControl
  | UpdateIdle
  | Unpublish
  | StopEp (endpoint : Z)
  | HaltAsc
  | DestroyUat
  | PowerDown.

(** A callback that tells of its answer in a world that keeps a log. *)
Definition told {W L} (tell : bool -> L) (f : W -> bool * W) (s : W * list L)
    : bool * (W * list L) :=
  let p := f s.1 in (p.1, (p.2, s.2 ++ [tell p.1])).

Definition watched {W L} (tell : fw_call -> bool -> L) (io : APPLE_AGX_FIRMWARE_IO W)
    : APPLE_AGX_FIRMWARE_IO (W * list L) := {|
  NowMs := (fun f s => let p := f s.1 in (p.1, (p.2, s.2))) <$> NowMs io;
  PowerOn := (fun f d => told (tell PowerUp) (f d)) <$> PowerOn io;
  CreateFirmwareUat := (fun f d => told (tell CreateUat) (f d)) <$> CreateFirmwareUat io;
  BootAsc := (fun f d => told (tell Boot) (f d)) <$> BootAsc io;
  StartEndpoint := (fun f e d => told (tell (StartEp e)) (f e d)) <$> StartEndpoint io;
  PublishInitdata := (fun f d old s =>
    let p := f d old s.1 in (p.1, (p.2, s.2 ++ [tell Publish p.1.1]))) <$> PublishInitdata io;
  SendInitdata := (fun f a d => told (tell (SendInit a)) (f a d)) <$> SendInitdata io;
  SendDeviceControlInit :=
    (fun f d => told (tell SendControl) (f d)) <$> SendDeviceControlInit io;
  UpdateIdleTimestamp := (fun f d => told (tell UpdateIdle) (f d)) <$> UpdateIdleTimestamp io;
  UnpublishInitdata := (fun f d => told (tell Unpublish) (f d)) <$> UnpublishInitdata io;
  StopEndpoint := (fun f e d => told (tell (StopEp e)) (f e d)) <$> StopEndpoint io;
  StopAsc := (fun f d => told (tell HaltAsc) (f d)) <$> StopAsc io;
  DestroyFirmwareUat := (fun f d => told (tell DestroyUat) (f d)) <$> DestroyFirmwareUat io;
  PowerOff := (fun f d => told (tell PowerDown) (f d)) <$> PowerOff io;
  RecordPhase := (fun f p x m s => (f p x m s.1, s.2)) <$> RecordPhase io;
|}.

(** ** The ladder *)

(** The stages with their bits, and what undoes them. *)
Definition stages (address : Z) : list (Z * fw_call) :=
  [(0, PowerUp); (1, CreateUat); (2, Boot); (3, StartEp J313_AGX_G2_FIRMWARE_ENDPOINT);
   (4, StartEp J313_AGX_G2_DOORBELL_ENDPOINT); (5, Publish); (6, SendInit address);
   (7, SendControl); (8, UpdateIdle)].
Definition undo_calls : list (Z * fw_call) :=
  [(5, Unpublish); (4, StopEp J313_AGX_G2_DOORBELL_ENDPOINT);
   (3, StopEp J313_AGX_G2_FIRMWARE_ENDPOINT); (2, HaltAsc); (1, DestroyUat); (0, PowerDown)].

(** What is up, or may be. *)
Definition held (fw : APPLE_AGX_FIRMWARE) : Z := Z.lor (CompletedMask fw) (CleanupMask fw).

(** The masks have only the bits they can have. *)
Definition well_formed (fw : APPLE_AGX_FIRMWARE) : Prop :=
  Z.ldiff (CompletedMask fw) APPLE_AGX_FIRMWARE_ALL_COMPLETED = 0 /\
  Z.ldiff (CleanupMask fw) APPLE_AGX_FIRMWARE_ASC_RUNNING = 0.

(** What there is to undo: the last three stages only observe. *)
Definition to_undo (fw : APPLE_AGX_FIRMWARE) : Z :=
  Z.lor (Z.ldiff (CompletedMask fw) APPLE_AGX_FIRMWARE_OBSERVATION_BITS) (CleanupMask fw).

Section rolling.
Context {L : Type} (tell : fw_call -> bool -> L).

(** A call that did not come to its end in time: it was not made, or made with any answer. *)
Definition tried (c : fw_call) (l : list L) : Prop := l = [] \/ exists ok, l = [tell c ok].

(** Going down a list of calls: what is not held is passed over, what is held is undone or
    stays held. *)
Inductive rolls : list (Z * fw_call) -> Z -> list L -> Z -> Prop :=
  | rolls_end h : rolls [] h [] h
  | rolls_skip k c rest h l h' :
      Z.testbit h k = false -> rolls rest h l h' -> rolls ((k, c) :: rest) h l h'
  | rolls_undo k c rest h l h' :
      Z.testbit h k = true -> rolls rest (Z.clearbit h k) l h' ->
      rolls ((k, c) :: rest) h (tell c true :: l) h'
  | rolls_keep k c rest h l0 l h' :
      Z.testbit h k = true -> tried c l0 -> rolls rest h l h' ->
      rolls ((k, c) :: rest) h (l0 ++ l) h'.

Lemma rolls_app cs1 cs2 h l1 h1 l2 h2 :
  rolls cs1 h l1 h1 -> rolls cs2 h1 l2 h2 -> rolls (cs1 ++ cs2) h (l1 ++ l2) h2.
Proof.
  induction 1; intros H2; cbn [app]; [done|..].
  - by apply rolls_skip; [|auto].
  - by apply rolls_undo; [|auto].
  - rewrite <- app_assoc. by apply rolls_keep; [| |auto].
Qed.

Lemma rolls_zero cs : rolls cs 0 [] 0.
Proof.
  induction cs as [|[k c] cs IH]; [constructor|]. constructor; [apply Z.bits_0|done].
Qed.

(** Going down never adds anything. *)
Lemma rolls_less cs h l h' k :
  rolls cs h l h' -> Z.testbit h' k = true -> Z.testbit h k = true.
Proof.
  induction 1 as [| |k' c rest h l h' Hk Hr IH|]; auto. intros H. apply IH in H.
  rewrite Z.clearbit_spec', Z.ldiff_spec in H. by apply andb_true_iff in H as [H _].
Qed.

(** Whether anything that was tried stays. *)
Lemma rolls_kept cs h l h' k :
  rolls cs h l h' -> Forall (fun c => c.1 <> k /\ 0 <= c.1) cs -> 0 <= k ->
  Z.testbit h' k = Z.testbit h k.
Proof.
  intros H Hk H0. induction H as [| |k' c rest h l h' Hb Hr IH|]; [done|..];
    apply Forall_cons in Hk as [[Hne Hk'] Hk]; auto. rewrite IH by done. by apply Z.clearbit_neq.
Qed.
End rolling.

Lemma held_fits fw k : well_formed fw -> Z.testbit (to_undo fw) k = true -> 0 <= k < 6.
Proof.
  intros [Hc Hu] Hk. assert (0 <= k) as H0.
  { destruct (Z.leb_spec 0 k); [done|]. by rewrite Z.testbit_neg_r in Hk. }
  split; [done|]. unfold to_undo in Hk. rewrite Z.lor_spec, Z.ldiff_spec in Hk.
  apply (f_equal (fun z => Z.testbit z k)) in Hc, Hu.
  rewrite Z.ldiff_spec, Z.bits_0 in Hc, Hu.
  destruct (Z.ltb_spec k 6); [done|]. exfalso.
  assert (Z.testbit APPLE_AGX_FIRMWARE_ASC_RUNNING k = false) as Ha.
  { change APPLE_AGX_FIRMWARE_ASC_RUNNING with (2 ^ 2). by rewrite Z.pow2_bits_false by lia. }
  rewrite Ha, andb_true_r in Hu. rewrite Hu, orb_false_r in Hk.
  apply andb_true_iff in Hk as [Hk Ho]. rewrite Hk in Hc. cbn [andb] in Hc.
  change APPLE_AGX_FIRMWARE_ALL_COMPLETED with (Z.ones 9) in Hc.
  rewrite Z.testbit_ones_nonneg in Hc by lia. apply negb_false_iff, Z.ltb_lt in Hc.
  assert (k = 6 \/ k = 7 \/ k = 8) as [->|[->| ->]] by lia; done.
Qed.

(** ** The code *)

Section climbing.
Context {W L : Type} (tell : fw_call -> bool -> L) (io : APPLE_AGX_FIRMWARE_IO W)
  (Hio : AppleAgxFirmwareIoValid (Some io) = true).
Notation St := (W * list L)%type.
Notation Wio := (watched tell io).
Notation FW := APPLE_AGX_FIRMWARE.
Notation RESULT := APPLE_AGX_FIRMWARE_RESULT.
Implicit Types (S : St) (l : list L) (fw : FW).

(** From [S] to [S'] exactly these calls were made. *)
Definition calls l S S' : Prop := S'.2 = S.2 ++ l.

Lemma calls_nil S : calls [] S S.
Proof. unfold calls. by rewrite app_nil_r. Qed.

Lemma calls_app l1 l2 S1 S2 S3 : calls l1 S1 S2 -> calls l2 S2 S3 -> calls (l1 ++ l2) S1 S3.
Proof. unfold calls. intros H1 H2. by rewrite H2, H1, app_assoc. Qed.

Lemma calls_quiet l S1 S2 S3 : calls l S1 S2 -> calls [] S2 S3 -> calls l S1 S3.
Proof. intros H1 H2. rewrite <- (app_nil_r l). by eapply calls_app. Qed.

Lemma quiet_calls l S1 S2 S3 : calls [] S1 S2 -> calls l S2 S3 -> calls l S1 S3.
Proof. intros H1 H2. by eapply (calls_app []). Qed.

Lemma is_null_map {A B} (f : A -> B) (p : ptr A) : is_null (f <$> p) = is_null p.
Proof. by destruct p. Qed.

Lemma watched_valid : AppleAgxFirmwareIoValid (Some Wio) = true.
Proof. unfold AppleAgxFirmwareIoValid, watched. simpl. rewrite !is_null_map. exact Hio. Qed.

(** A command makes one call. *)
Definition makes (cb : M St bool) (c : fw_call) : Prop :=
  forall S, wp cb (fun ok S' => calls [tell c ok] S S') S.

Lemma makes_told c (f : Z -> W -> bool * W) d :
  makes (at_deadline (Some (fun d => told (tell c) (f d))) d) c.
Proof. intros S. apply wp_call. by intros ok S' [= <- <-]. Qed.

Lemma makes_told2 (c : Z -> fw_call) (f : Z -> Z -> W -> bool * W) x d :
  makes (at_endpoint (Some (fun e d => told (tell (c e)) (f e d))) x d) (c x).
Proof. intros S. apply wp_call. by intros ok S' [= <- <-]. Qed.

Ltac makes_tac there lem := revert Hio; unfold AppleAgxFirmwareIoValid;
  rewrite !andb_true_iff, !negb_true_iff; intros H; destruct_and?; simpl;
  destruct there; [|done]; apply lem.

Lemma makes_power_on d : makes (at_deadline (PowerOn Wio) d) PowerUp.
Proof. makes_tac (PowerOn io) makes_told. Qed.
Lemma makes_uat d : makes (at_deadline (CreateFirmwareUat Wio) d) CreateUat.
Proof. makes_tac (CreateFirmwareUat io) makes_told. Qed.
Lemma makes_boot d : makes (at_deadline (BootAsc Wio) d) Boot.
Proof. makes_tac (BootAsc io) makes_told. Qed.
Lemma makes_start_endpoint e d : makes (at_endpoint (StartEndpoint Wio) e d) (StartEp e).
Proof. makes_tac (StartEndpoint io) (makes_told2 StartEp). Qed.
Lemma makes_send a d : makes (at_endpoint (SendInitdata Wio) a d) (SendInit a).
Proof. makes_tac (SendInitdata io) (makes_told2 SendInit). Qed.
Lemma makes_control d : makes (at_deadline (SendDeviceControlInit Wio) d) SendControl.
Proof. makes_tac (SendDeviceControlInit io) makes_told. Qed.
Lemma makes_idle d : makes (at_deadline (UpdateIdleTimestamp Wio) d) UpdateIdle.
Proof. makes_tac (UpdateIdleTimestamp io) makes_told. Qed.
Lemma makes_unpublish d : makes (at_deadline (UnpublishInitdata Wio) d) Unpublish.
Proof. makes_tac (UnpublishInitdata io) makes_told. Qed.
Lemma makes_stop_endpoint e d : makes (at_endpoint (StopEndpoint Wio) e d) (StopEp e).
Proof. makes_tac (StopEndpoint io) (makes_told2 StopEp). Qed.
Lemma makes_stop d : makes (at_deadline (StopAsc Wio) d) HaltAsc.
Proof. makes_tac (StopAsc io) makes_told. Qed.
Lemma makes_destroy d : makes (at_deadline (DestroyFirmwareUat Wio) d) DestroyUat.
Proof. makes_tac (DestroyFirmwareUat io) makes_told. Qed.
Lemma makes_power_off d : makes (at_deadline (PowerOff Wio) d) PowerDown.
Proof. makes_tac (PowerOff io) makes_told. Qed.

Lemma now_spec S : wp (now Wio) (fun _ S' => calls [] S S') S.
Proof.
  unfold now, ask. assert (is_Some (NowMs io)) as [f E].
  { revert Hio. unfold AppleAgxFirmwareIoValid. rewrite !andb_true_iff. intros H. destruct_and?.
    by destruct (NowMs io). }
  cbn [watched NowMs]. rewrite E. apply wp_bind, wp_call. intros t S' [= <- <-].
  apply wp_ret. exact (calls_nil S).
Qed.

Lemma record_spec fw S :
  wp (AppleAgxFirmwareRecord (Some fw) (Some Wio)) (fun _ S' => calls [] S S') S.
Proof.
  unfold AppleAgxFirmwareRecord. cbn [watched RecordPhase]. destruct (RecordPhase io) as [f|];
    cbn [fmap option_fmap option_map]; [|apply wp_ret, calls_nil].
  apply wp_call. intros [] S' [= <-]. exact (calls_nil S).
Qed.

Lemma begin_spec timeout S :
  wp (AppleAgxFirmwareBeginDeadline Wio timeout) (fun _ S' => calls [] S S') S.
Proof.
  unfold AppleAgxFirmwareBeginDeadline. eapply wp_seq; [apply now_spec|]. intros t S1 H1.
  by apply wp_ret.
Qed.

Lemma finish_spec a b ok S :
  wp (AppleAgxFirmwareFinishOperation Wio a b ok) (fun x S' => calls [] S S' /\
    (x = AppleAgxFirmwareResultOk -> ok = true)) S.
Proof.
  unfold AppleAgxFirmwareFinishOperation. eapply wp_seq; [apply now_spec|]. intros t S1 H1.
  apply wp_ret. split; [done|]. by repeat case_match; destruct ok.
Qed.

(** *** Going down *)

Lemma land_bit_test m k : 0 <= k -> (Z.land m (2 ^ k) =? 0) = negb (Z.testbit m k).
Proof.
  intros Hk. destruct (Z.testbit m k) eqn:E.
  - apply Z.eqb_neq. intros H. apply (f_equal (fun z => Z.testbit z k)) in H.
    rewrite Z.land_spec, Z.bits_0, E, Z.pow2_bits_true in H by done. done.
  - apply Z.eqb_eq, Z.bits_inj_0. intros i. rewrite Z.land_spec, Z.pow2_bits_eqb by done.
    destruct (Z.eqb_spec k i) as [->|]; [by rewrite E|by rewrite andb_false_r].
Qed.

Lemma clear_held fw k :
  held (fw <| CompletedMask := Z.ldiff (CompletedMask fw) (2 ^ k) |>
           <| CleanupMask := Z.ldiff (CleanupMask fw) (2 ^ k) |>) = Z.clearbit (held fw) k.
Proof.
  unfold held. cbn. rewrite Z.clearbit_spec'. apply Z.bits_inj'. intros i Hi.
  rewrite !Z.lor_spec, !Z.ldiff_spec, Z.lor_spec.
  by destruct (Z.testbit (CompletedMask fw) i), (Z.testbit (CleanupMask fw) i), (Z.testbit (2 ^ k) i).
Qed.

(** A cleanup, for a firmware that is on its way down. *)
Definition cleans (cs : list (Z * fw_call)) (p : bool * FW) S (p' : bool * FW) S' : Prop :=
  exists l, calls l S S' /\ rolls tell cs (held p.2) l (held p'.2) /\
    (p'.1 = false -> p.1 = false /\ Forall (fun c => Z.testbit (held p'.2) c.1 = false) cs) /\
    (p'.1 = true -> p.1 = true \/ Exists (fun c => Z.testbit (held p'.2) c.1 = true) cs) /\
    (well_formed p.2 -> well_formed p'.2).

Lemma well_formed_clear fw b :
  well_formed fw -> well_formed (fw <| CompletedMask := Z.ldiff (CompletedMask fw) b |>
    <| CleanupMask := Z.ldiff (CleanupMask fw) b |>).
Proof.
  assert (forall m c, Z.ldiff m c = 0 -> Z.ldiff (Z.ldiff m b) c = 0) as H.
  { intros m c H. apply Z.bits_inj_0. intros i. apply (f_equal (fun z => Z.testbit z i)) in H.
    rewrite Z.ldiff_spec, Z.bits_0 in H. rewrite !Z.ldiff_spec.
    destruct (Z.testbit m i), (Z.testbit c i); try done. apply andb_false_r. }
  intros [H1 H2]. split; by apply H.
Qed.

Lemma cleanup_spec p k c (cb : Z -> M St bool) S :
  0 <= k -> (forall d, makes (cb d) c) ->
  wp (cleanup_simple p Wio (2 ^ k) cb) (fun p' S' => cleans [(k, c)] p S p' S') S.
Proof.
  intros Hk Hcb. destruct p as [failed fw]. unfold cleanup_simple. fold (held fw).
  rewrite land_bit_test by done. destruct (Z.testbit (held fw) k) eqn:Hb; cbn [negb].
  2: { apply wp_ret. exists []. split; [apply calls_nil|]. split; [by repeat constructor|].
       split_and!; auto. }
  assert (forall l S' f', calls l S S' -> tried tell c l -> held f' = held fw ->
    (well_formed fw -> well_formed f') -> cleans [(k, c)] (failed, fw) S (true, f') S') as Hkeep.
  { intros l S' f' Hl Ht Hh Hw. exists l. split; [done|]. cbn [snd fst]. rewrite Hh.
    split; [rewrite <- (app_nil_r l); by apply rolls_keep; [| |constructor]|].
    split; [done|]. split; [|done]. intros _. right. by constructor. }
  eapply wp_seq; [apply begin_spec|]. intros [[x a] d] S1 H1.
  destruct (bool_decide (x = _)); cbn [negb]; [|apply wp_ret; by apply (Hkeep []); [|left| |]].
  eapply wp_seq; [apply Hcb|]. intros ok S2 H2.
  unfold AppleAgxFirmwareCleanupFinish. eapply wp_bind, wp_seq; [apply finish_spec|].
  intros y S3 [H3 Hy]. eapply wp_seq; [apply record_spec|]. intros [] S4 H4. apply wp_ret.
  assert (calls [tell c ok] S S4) as Hc.
  { eapply calls_quiet; [|exact H4]. eapply calls_quiet; [|exact H3]. by eapply quiet_calls. }
  destruct (bool_decide_reflect (y = AppleAgxFirmwareResultOk)) as [Ey|Ey]; cbn [negb]; apply wp_ret.
  - rewrite orb_false_r. exists [tell c ok]. split; [done|]. cbn [fst snd]. rewrite clear_held.
    rewrite (Hy Ey). split; [by apply rolls_undo; [|constructor]|].
    split; [intros ->; split; [done|]; constructor; [by apply Z.clearbit_eq|done]|].
    split; [by left|]. apply well_formed_clear.
  - rewrite orb_true_r. apply (Hkeep [tell c ok]); auto. right. by exists ok.
Qed.

(** Two lists of calls are about different bits. *)
Definition apart (cs1 cs2 : list (Z * fw_call)) : bool :=
  forallb (fun c => (0 <=? c.1) && forallb (fun d => negb (d.1 =? c.1) && (0 <=? d.1)) cs2) cs1.

Lemma apart_spec cs1 cs2 c :
  apart cs1 cs2 = true -> c ∈ cs1 -> Forall (fun d => d.1 <> c.1 /\ 0 <= d.1) cs2 /\ 0 <= c.1.
Proof.
  unfold apart. rewrite forallb_forall. intros H Hc. apply list_elem_of_In, H in Hc.
  apply andb_true_iff in Hc as [H0 Hc]. split; [|lia]. apply Forall_forall. intros d Hd.
  rewrite forallb_forall in Hc. apply list_elem_of_In, Hc in Hd. lia.
Qed.

Lemma cleans_seq cs1 cs2 p S p1 S1 p2 S2 :
  cleans cs1 p S p1 S1 -> cleans cs2 p1 S1 p2 S2 ->
  apart cs1 cs2 = true ->
  cleans (cs1 ++ cs2) p S p2 S2.
Proof.
  intros (l1 & H1 & R1 & F1 & T1 & W1) (l2 & H2 & R2 & F2 & T2 & W2) Hd.
  exists (l1 ++ l2). split; [by eapply calls_app|]. split; [by eapply rolls_app|].
  split; [|split; [|auto]].
  - intros Hf. destruct (F2 Hf) as [Hf1 HF2], (F1 (proj1 (F2 Hf))) as [Hf0 HF1].
    split; [done|]. apply Forall_app. split; [|done]. eapply Forall_impl; [exact HF1|].
    intros c Hc. destruct (Z.testbit (held p2.2) c.1) eqn:E; [|done].
    pose proof (rolls_less tell _ _ _ _ _ R2 E). cbn in Hc. congruence.
  - intros Ht. apply T2 in Ht as [Ht|Ht]; [|right; apply Exists_app; by right].
    apply T1 in Ht as [Ht|Ht]; [by left|]. right. apply Exists_app. left.
    apply Exists_exists in Ht as (c & Hc & Eb). apply Exists_exists. exists c. split; [done|].
    destruct (apart_spec _ _ _ Hd Hc) as [Hne H0].
    pose proof (rolls_kept tell _ _ _ _ _ R2 Hne H0). cbn in *. congruence.
Qed.

Lemma cleans_same cs b fw S p' S' fw1 :
  held fw1 = held fw -> (well_formed fw -> well_formed fw1) ->
  cleans cs (b, fw1) S p' S' -> cleans cs (b, fw) S p' S'.
Proof.
  intros Hh Hw (l & H1 & R1 & F1 & T1 & W1). exists l. cbn [fst snd] in *. rewrite Hh in R1.
  split_and!; auto.
Qed.

(** A firmware on its way down, or down. *)
Definition rolled_back fw (p : RESULT * FW) S S' : Prop :=
  exists l, calls l S S' /\ rolls tell undo_calls (to_undo fw) l (held p.2) /\ well_formed p.2 /\
    p.1 = (if held p.2 =? 0 then AppleAgxFirmwareResultOk else AppleAgxFirmwareResultCleanupFailed) /\
    LastResult p.2 = p.1 /\
    Phase p.2 = (if held p.2 =? 0 then AppleAgxFirmwareStopped else AppleAgxFirmwareFailed).

Lemma well_formed_observed fw :
  well_formed fw ->
  well_formed (fw <| Phase := AppleAgxFirmwareRollingBack |> <| LastResult := AppleAgxFirmwareResultOk |>
    <| CompletedMask := Z.ldiff (CompletedMask fw) APPLE_AGX_FIRMWARE_OBSERVATION_BITS |>).
Proof.
  intros [H1 H2]. split; [|exact H2]. cbn. apply Z.bits_inj_0. intros i.
  apply (f_equal (fun z => Z.testbit z i)) in H1. rewrite Z.ldiff_spec, Z.bits_0 in H1.
  rewrite !Z.ldiff_spec. destruct (Z.testbit (CompletedMask fw) i); [|done].
  cbn [andb] in *. rewrite H1. apply andb_false_r.
Qed.

Lemma held_zero fw : held fw = 0 <-> CompletedMask fw = 0 /\ CleanupMask fw = 0.
Proof. apply Z.lor_eq_0_iff. Qed.

Lemma rollback_spec fw S :
  well_formed fw ->
  wp (rollback fw (Some Wio)) (fun p S' => rolled_back fw p S S') S.
Proof.
  intros Hw. unfold rollback. rewrite watched_valid. cbn [negb].
  pose proof Hw as [-> ->]. rewrite Z.eqb_refl. cbn [negb orb].
  destruct (_ && _) eqn:Hz.
  { rewrite andb_true_iff, !Z.eqb_eq in Hz. destruct Hz as [Hz1 Hz2].
    eapply wp_seq; [apply record_spec|]. intros [] S1 H1. apply wp_ret. exists [].
    unfold to_undo, held. cbn. rewrite Hz1, Hz2. split; [done|].
    split; [apply rolls_zero|]. by split; [|split]. }
  eapply wp_seq; [apply record_spec|]. intros [] S0 H0.
  set (fw0 := _ <| CompletedMask := _ |>).
  assert (well_formed fw0) as Hw0 by (by apply well_formed_observed).
  assert (held fw0 = to_undo fw) as Hh0 by done.
  eapply wp_seq; [apply (cleanup_spec (false, fw0) 5 Unpublish); [lia|apply makes_unpublish]|].
  intros [b1 fw1] S1 C1.
  set (fw1' := if _ =? 0 then _ else fw1).
  assert (held fw1' = held fw1) as Hh1 by (unfold fw1'; by case_match).
  assert (well_formed fw1 -> well_formed fw1') as Hw1 by (unfold fw1'; by case_match).
  eapply wp_seq; [apply (cleanup_spec (b1, fw1') 4 (StopEp J313_AGX_G2_DOORBELL_ENDPOINT));
    [lia|apply makes_stop_endpoint]|].
  intros p2 S2 C2. apply (cleans_same _ _ fw1) in C2; [|done..].
  eapply wp_seq; [apply (cleanup_spec p2 3 (StopEp J313_AGX_G2_FIRMWARE_ENDPOINT));
    [lia|apply makes_stop_endpoint]|].
  intros p3 S3 C3.
  eapply wp_seq; [apply (cleanup_spec p3 2 HaltAsc); [lia|apply makes_stop]|]. intros p4 S4 C4.
  eapply wp_seq; [apply (cleanup_spec p4 1 DestroyUat); [lia|apply makes_destroy]|].
  intros p5 S5 C5.
  eapply wp_seq; [apply (cleanup_spec p5 0 PowerDown); [lia|apply makes_power_off]|].
  intros [b6 fw6] S6 C6.
  assert (cleans undo_calls (false, fw0) S0 (b6, fw6) S6) as (l & Hl & HR & HF & HT & HW).
  { pose proof (cleans_seq _ _ _ _ _ _ _ _ C5 C6) as C56.
    pose proof (cleans_seq _ _ _ _ _ _ _ _ C4 (C56 eq_refl)) as C46.
    pose proof (cleans_seq _ _ _ _ _ _ _ _ C3 (C46 eq_refl)) as C36.
    pose proof (cleans_seq _ _ _ _ _ _ _ _ C2 (C36 eq_refl)) as C26.
    apply (cleans_seq _ _ _ _ _ _ _ _ C1 (C26 eq_refl) eq_refl). }
  cbn [fst snd] in *. rewrite Hh0 in HR.
  assert (b6 = false -> held fw6 = 0) as Hdown.
  { intros Eb. destruct (HF Eb) as [_ Hall]. apply Z.bits_inj_0. intros k.
    destruct (Z.testbit (held fw6) k) eqn:E; [|done].
    pose proof (held_fits fw k Hw (rolls_less tell _ _ _ _ _ HR E)) as Hk.
    repeat (apply Forall_cons in Hall as [? Hall]). cbn [fst] in *.
    assert (k = 0 \/ k = 1 \/ k = 2 \/ k = 3 \/ k = 4 \/ k = 5) as Hks by lia.
    repeat match goal with H : _ \/ _ |- _ => destruct H as [->|H] end; subst; congruence. }
  assert (b6 = true -> held fw6 <> 0) as Hup.
  { intros Eb Ez. destruct (HT Eb) as [?|Hex]; [done|]. apply Exists_exists in Hex as (c & _ & E).
    by rewrite Ez, Z.bits_0 in E. }
  assert (b6 || negb (CompletedMask fw6 =? 0) || negb (CleanupMask fw6 =? 0) =
    negb (held fw6 =? 0)) as ->.
  { destruct (Z.eqb_spec (held fw6) 0) as [E|E].
    - destruct b6; [by destruct (Hup eq_refl)|]. by destruct (proj1 (held_zero fw6) E) as [-> ->].
    - destruct b6; [done|]. by rewrite Hdown in E. }
  assert (calls l S S6) as HS by (by eapply quiet_calls).
  assert (forall ph x, held (fw6 <| Phase := ph |> <| LastResult := x |>) = held fw6) as Eset by done.
  destruct (held fw6 =? 0) eqn:Eh; cbn [negb];
    (eapply wp_seq; [apply record_spec|]); intros [] S7 H7; apply wp_ret; exists l;
    (split; [by eapply calls_quiet|]); (split; [exact HR|]); (split; [by apply HW|]);
    cbn [fst snd]; rewrite Eset, Eh; done.
Qed.

(** *** Going up *)

(** A start that failed: what was up has been taken down, or stays noted. *)
Definition fallen fw (p : RESULT * FW) l : Prop :=
  rolls tell undo_calls (to_undo fw) l (held p.2) /\ well_formed p.2 /\
  p.1 <> AppleAgxFirmwareResultOk /\
  (held p.2 <> 0 -> p.1 = AppleAgxFirmwareResultCleanupFailed) /\
  Phase p.2 = (if held p.2 =? 0 then AppleAgxFirmwareStopped else AppleAgxFirmwareFailed).

Lemma abort_spec fw x S :
  well_formed fw -> x <> AppleAgxFirmwareResultOk ->
  wp (AppleAgxFirmwareAbortStart fw Wio x) (fun p S' => exists l, calls l S S' /\ fallen fw p l) S.
Proof.
  intros Hw Hx. unfold AppleAgxFirmwareAbortStart.
  eapply wp_seq; [apply record_spec|]. intros [] S1 H1.
  eapply wp_seq; [by apply (rollback_spec (failed fw x))|].
  intros [y fw'] S2 (l & H2 & Hr & Hw' & Ey & _ & Ep). cbn [fst snd] in *.
  change (to_undo (failed fw x)) with (to_undo fw) in Hr.
  assert (calls l S S2) as HS by (by eapply quiet_calls).
  destruct (Z.eqb_spec (held fw') 0) as [Eh|Eh]; subst y.
  - cbn [negb]. eapply wp_seq; [apply record_spec|]. intros [] S3 H3. apply wp_ret. exists l.
    split; [by eapply calls_quiet|]. split; [exact Hr|]. split; [exact Hw'|]. split; [done|].
    cbn [snd]. change (held (fw' <| LastResult := x |>)) with (held fw'). rewrite Eh.
    split; [done|exact Ep].
  - apply wp_ret. exists l. split; [done|]. split; [done|]. split; [done|]. split; [done|].
    split; [done|]. cbn [snd]. by destruct (Z.eqb_spec (held fw') 0).
Qed.

(** What was called on the way up. *)
Definition went_up (address : Z) (n : nat) : list L :=
  map (fun c => tell c.2 true) (firstn n (stages address)).

(** All the way up, or up to a stage that failed and down again. *)
Definition climbed S0 (p : RESULT * FW) S : Prop :=
  (calls (went_up (InitdataAddress p.2) 9) S0 S /\ p.1 = AppleAgxFirmwareResultOk /\
   CompletedMask p.2 = APPLE_AGX_FIRMWARE_ALL_COMPLETED /\
   CleanupMask p.2 = APPLE_AGX_FIRMWARE_ASC_RUNNING /\
   Phase p.2 = AppleAgxFirmwareIdleTimestampUpdated) \/
  exists address n k c fw l1 l2, stages address !! n = Some (k, c) /\
    calls (went_up address n ++ l1 ++ l2) S0 S /\ tried tell c l1 /\
    CompletedMask fw = Z.ones (Z.of_nat n) /\
    CleanupMask fw = (if (2 <=? n)%nat then APPLE_AGX_FIRMWARE_ASC_RUNNING else 0) /\
    fallen fw p l2.

(** The first [n] stages are done. *)
Definition up (address : Z) (n : nat) fw S0 S : Prop :=
  calls (went_up address n) S0 S /\ CompletedMask fw = Z.ones (Z.of_nat n) /\
  CleanupMask fw = (if (2 <=? n)%nat then APPLE_AGX_FIRMWARE_ASC_RUNNING else 0).

Lemma up_well_formed address n fw S0 S : (n <= 9)%nat -> up address n fw S0 S -> well_formed fw.
Proof.
  intros Hn (_ & Hc & Hu). split.
  - rewrite Hc. do 10 (destruct n as [|n]; [done|]). lia.
  - rewrite Hu. by case_match.
Qed.

Lemma fall address n k c fw x l1 S0 S S1 :
  up address n fw S0 S -> stages address !! n = Some (k, c) -> tried tell c l1 -> calls l1 S S1 ->
  x <> AppleAgxFirmwareResultOk ->
  wp (AppleAgxFirmwareAbortStart fw Wio x) (climbed S0) S1.
Proof.
  intros Hup Hn Ht H1 Hx. pose proof (lookup_lt_Some _ _ _ Hn) as Hlt. cbn in Hlt.
  eapply wp_mono; [apply abort_spec; [|exact Hx]; eapply up_well_formed; [|exact Hup]; lia|].
  intros p S2 (l2 & H2 & Hf). destruct Hup as (HS & Hc & Hu). right.
  exists address, n, k, c, fw, l1, l2. split; [done|].
  split; [eapply calls_app; [exact HS|by eapply calls_app]|]. by split.
Qed.

(** One stage, and then the rest. *)
Lemma climb_stage address n c fw cb timeout phase bit rest S0 S :
  up address n fw S0 S -> stages address !! n = Some (Z.of_nat n, c) ->
  (forall d, makes (cb d) c) -> Z.lor (Z.ones (Z.of_nat n)) bit = Z.ones (Z.of_nat (Datatypes.S n)) ->
  (forall fw' S', calls (went_up address (Datatypes.S n)) S0 S' ->
     CompletedMask fw' = Z.ones (Z.of_nat (Datatypes.S n)) -> CleanupMask fw' = CleanupMask fw ->
     InitdataAddress fw' = InitdataAddress fw -> Phase fw' = phase -> wp (rest fw') (climbed S0) S') ->
  wp (start_simple fw Wio cb timeout phase bit rest) (climbed S0) S.
Proof.
  intros Hup Hn Hcb Hbit Hrest. unfold start_simple.
  eapply wp_seq; [apply begin_spec|]. intros [[x a] d] S1 H1.
  eapply (wp_seq _ _ (fun y S2 => exists l, calls l S S2 /\ tried tell c l /\
    (y = AppleAgxFirmwareResultOk -> l = [tell c true]))).
  - destruct (bool_decide_reflect (x = AppleAgxFirmwareResultOk)).
    + eapply wp_seq; [apply Hcb|]. intros ok S2 H2. eapply wp_mono; [apply finish_spec|].
      intros y S3 [H3 Hy]. exists [tell c ok].
      split; [eapply calls_quiet; [|exact H3]; by eapply quiet_calls|].
      split; [right; eauto|]. intros E. by rewrite (Hy E).
    + apply wp_ret. exists []. split; [done|]. split; [by left|done].
  - intros y S2 (l & H2 & Ht & Hy).
    destruct (bool_decide_reflect (y = AppleAgxFirmwareResultOk)) as [E|E]; cbn [negb];
      [|by eapply fall].
    unfold AppleAgxFirmwareComplete. eapply wp_bind, wp_seq; [apply record_spec|].
    intros [] S3 H3. apply wp_ret. destruct Hup as (HS & Hc & _). apply Hrest; [|cbn; by rewrite Hc|done..].
    unfold went_up. rewrite (take_S_r _ _ _ Hn), map_app. cbn [map snd]. rewrite <- (Hy E).
    eapply calls_quiet; [|exact H3]. by eapply calls_app.
Qed.

(** Start is refused, or climbs. *)
Definition startable fw : bool :=
  (bool_decide (Phase fw = AppleAgxFirmwareOff) || bool_decide (Phase fw = AppleAgxFirmwareStopped)) &&
  (CompletedMask fw =? 0) && (CleanupMask fw =? 0).

Lemma publish_stage_spec fw S :
  wp (publish_initdata fw Wio) (fun p S' => exists l address, calls l S S' /\ tried tell Publish l /\
    (p.2 = fw <| InitdataAddress := address |> \/ p.2 = fw) /\
    (p.1 = AppleAgxFirmwareResultOk -> l = [tell Publish true])) S.
Proof.
  unfold publish_initdata. eapply wp_seq; [apply begin_spec|]. intros [[x a] d] S1 H1.
  destruct (bool_decide_reflect (x = AppleAgxFirmwareResultOk)); cbn [negb].
  2: { apply wp_ret. exists [], 0. split; [done|]. split; [by left|]. split; [by right|done]. }
  assert (is_Some (PublishInitdata io)) as [f E].
  { revert Hio. unfold AppleAgxFirmwareIoValid. rewrite !andb_true_iff. intros H. destruct_and?.
    by destruct (PublishInitdata io). }
  eapply (wp_seq _ _ (fun r S2 => calls [tell Publish r.1] S1 S2)).
  { cbn [watched PublishInitdata]. rewrite E. apply wp_call. by intros r S2 [= <- <-]. }
  intros [ok v] S2 H2. eapply wp_seq; [apply finish_spec|]. intros y S3 [H3 Hy]. apply wp_ret.
  exists [tell Publish ok], (u64 v). cbn [fst] in *.
  split; [eapply calls_quiet; [|exact H3]; by eapply quiet_calls|].
  split; [right; eauto|]. split; [by left|].
  destruct (bool_decide_reflect (y = AppleAgxFirmwareResultOk)) as [Ey|Ey]; [|done].
  intros _. by rewrite (Hy Ey).
Qed.

Lemma firmware_start_spec fw S :
  wp (start fw (Some Wio)) (fun p S' =>
    if startable fw then climbed S p S'
    else p = (AppleAgxFirmwareResultInvalid, fw) /\ calls [] S S') S.
Proof.
  unfold start, AppleAgxFirmwareValidateStart. rewrite watched_valid. cbn [negb].
  assert ((negb (bool_decide (Phase fw = AppleAgxFirmwareOff)) &&
      negb (bool_decide (Phase fw = AppleAgxFirmwareStopped))) ||
    negb (CompletedMask fw =? 0) || negb (CleanupMask fw =? 0) = negb (startable fw)) as ->
    by (unfold startable; by destruct (bool_decide _), (bool_decide _), (_ =? 0), (_ =? 0)).
  destruct (startable fw) eqn:Hst; cbn [negb];
    [|apply wp_bind, wp_ret, wp_ret; split; [done|apply calls_nil]].
  apply wp_bind, wp_ret. cbn [negb].
  set (fw0 := fw <| Phase := _ |> <| InitdataAddress := _ |> <| LastResult := _ |>).
  assert (up 0 0 fw0 S S) as U0.
  { unfold startable in Hst. rewrite !andb_true_iff, !Z.eqb_eq in Hst. destruct Hst as [[_ Hc] Hu].
    split; [apply calls_nil|by split]. }
  eapply (climb_stage 0 0 PowerUp); [exact U0|done|apply makes_power_on|done|].
  intros fw1 S1 H1 C1 K1 _ _. assert (up 0 1 fw1 S S1) as U1 by (split; [done|]; split; [done|rewrite K1; apply U0]).
  eapply (climb_stage 0 1 CreateUat); [exact U1|done|apply makes_uat|done|].
  intros fw2 S2 H2 C2 K2 _ _. cbv zeta.
  set (fw2' := fw2 <| CleanupMask := _ |>).
  assert (up 0 2 fw2' S S2) as U2
    by (split; [done|]; split; [done|]; cbn; destruct U1 as (_ & _ & E); by rewrite K2, E).
  eapply (climb_stage 0 2 Boot); [exact U2|done|apply makes_boot|done|].
  intros fw3 S3 H3 C3 K3 _ _. assert (up 0 3 fw3 S S3) as U3 by (split; [done|]; split; [done|rewrite K3; apply U2]).
  eapply (climb_stage 0 3 (StartEp _)); [exact U3|done|intros; apply makes_start_endpoint|done|].
  intros fw4 S4 H4 C4 K4 _ _. assert (up 0 4 fw4 S S4) as U4 by (split; [done|]; split; [done|rewrite K4; apply U3]).
  eapply (climb_stage 0 4 (StartEp _)); [exact U4|done|intros; apply makes_start_endpoint|done|].
  intros fw5 S5 H5 C5 K5 _ _. assert (up 0 5 fw5 S S5) as U5 by (split; [done|]; split; [done|rewrite K5; apply U4]).
  eapply wp_seq; [apply publish_stage_spec|]. intros [x fw6] S6 (l & a & H6 & Ht & Efw & Hx). cbn [fst snd] in *.
  assert (up 0 5 fw6 S S5) as U5' by (destruct Efw as [->| ->]; exact U5).
  destruct (bool_decide_reflect (x = AppleAgxFirmwareResultOk)) as [E|E]; cbn [negb];
    [|eapply (fall 0 5); [exact U5'|done|exact Ht|done|done]].
  unfold AppleAgxFirmwareComplete. eapply wp_bind, wp_seq; [apply record_spec|]. intros [] S7 H7.
  apply wp_ret. set (fw7 := fw6 <| CompletedMask := _ |> <| Phase := _ |> <| LastResult := _ |>).
  set (addr := InitdataAddress fw7).
  assert (up addr 6 fw7 S S7) as U6.
  { destruct U5' as (HS & Hc & Hu). split; [|split; [cbn; by rewrite Hc|exact Hu]].
    change (went_up addr 6) with (went_up 0 5 ++ [tell Publish true]). rewrite <- (Hx E).
    eapply calls_quiet; [|exact H7]. by eapply calls_app. }
  eapply (climb_stage addr 6 (SendInit addr)); [exact U6|done|intros; apply makes_send|done|].
  intros fw8 S8 H8 C8 K8 A8 _. assert (up addr 7 fw8 S S8) as U7 by (split; [done|]; split; [done|rewrite K8; apply U6]).
  eapply (climb_stage addr 7 SendControl); [exact U7|done|apply makes_control|done|].
  intros fw9 S9 H9 C9 K9 A9 _. assert (up addr 8 fw9 S S9) as U8 by (split; [done|]; split; [done|rewrite K9; apply U7]).
  eapply (climb_stage addr 8 UpdateIdle); [exact U8|done|apply makes_idle|done|].
  intros fwA SA HA CA KA AA PA. apply wp_ret. left. cbn [fst snd].
  split; [by rewrite AA, A9, A8|]. split; [done|]. split; [done|]. split; [|done].
  rewrite KA. apply U8.
Qed.
End climbing.

(** ** Start and Rollback *)

(** A log of the calls with their answers. *)
Definition logged {W} : APPLE_AGX_FIRMWARE_IO W ->
    APPLE_AGX_FIRMWARE_IO (W * list (fw_call * bool)) := watched pair.

(** A platform that answers from a script, with the time each answer takes. *)
Definition scripted (s : Z * list (bool * Z)) : bool * (Z * list (bool * Z)) :=
  match s.2 with
  | [] => (true, (s.1 + 1, []))
  | (ok, time) :: rest => (ok, (s.1 + time, rest))
  end.
Definition demo_firmware_io : APPLE_AGX_FIRMWARE_IO (Z * list (bool * Z)) := {|
  NowMs := Some (fun s => (s.1, s));
  PowerOn := Some (fun _ => scripted);
  CreateFirmwareUat := Some (fun _ => scripted);
  BootAsc := Some (fun _ => scripted);
  StartEndpoint := Some (fun _ _ => scripted);
  PublishInitdata := Some (fun _ _ s => let p := scripted s in ((p.1, 0x1500000000), p.2));
  SendInitdata := Some (fun _ _ => scripted);
  SendDeviceControlInit := Some (fun _ => scripted);
  UpdateIdleTimestamp := Some (fun _ => scripted);
  UnpublishInitdata := Some (fun _ => scripted);
  StopEndpoint := Some (fun _ _ => scripted);
  StopAsc := Some (fun _ => scripted);
  DestroyFirmwareUat := Some (fun _ => scripted);
  PowerOff := Some (fun _ => scripted);
  RecordPhase := NULL;
|}.
Definition demo_firmware : APPLE_AGX_FIRMWARE := {|
  Phase := AppleAgxFirmwareOff; CompletedMask := 0; InitdataAddress := 0;
  LastResult := AppleAgxFirmwareResultOk; CleanupMask := 0 |}.

(** All goes well. *)
Example demo_firmware_up :
  let r := AppleAgxFirmwareStart (Some demo_firmware) (Some (logged demo_firmware_io)) ((7, []), []) in
  option_map (fun p => (p.1.1, p.2.2)) r =
    Some (AppleAgxFirmwareResultOk, map (fun c => (c.2, true)) (stages 0x1500000000)).
Proof. vm_compute. reflexivity. Qed.

(** The endpoint does not start, and the coprocessor does not stop. *)
Example demo_firmware_stuck :
  let r := AppleAgxFirmwareStart (Some demo_firmware) (Some (logged demo_firmware_io))
    ((7, [(true, 1); (true, 1); (true, 1); (false, 1); (false, 1)]), []) in
  option_map (fun p => (p.1.1, option_map CleanupMask p.1.2, p.2.2)) r =
    Some (AppleAgxFirmwareResultCleanupFailed, Some APPLE_AGX_FIRMWARE_ASC_RUNNING,
      [(PowerUp, true); (CreateUat, true); (Boot, true); (StartEp 0x20, false);
       (HaltAsc, false); (DestroyUat, true); (PowerDown, true)]).
Proof. vm_compute. reflexivity. Qed.

(** A stage whose call succeeds after its deadline counts as failed, and is not undone: the
    firmware is Stopped, and the power stays on.  Only the coprocessor's boot is noted
    before it is tried. *)
Lemma late_power_stays_on :
  let r := AppleAgxFirmwareStart (Some demo_firmware) (Some (logged demo_firmware_io))
    ((7, [(true, J313_AGX_G2_INITDATA_TIMEOUT_MS + 1)]), []) in
  option_map (fun p => (p.1.1, option_map Phase p.1.2, option_map held p.1.2, p.2.2)) r =
    Some (AppleAgxFirmwareResultTimeout, Some AppleAgxFirmwareStopped, Some 0, [(PowerUp, true)]).
Proof. vm_compute. reflexivity. Qed.

(** C12: a start of the firmware always comes to an end, whatever the platform answers.
    With anything noted as up, or in another phase than Off and Stopped, it is refused and
    nothing is called; else the nine stages are called in their order up to the first that
    fails or is late, and either all nine succeeded, with the published address sent to the
    firmware and the masks full, or what the stages before the failed one (and the boot
    itself) brought up is undone in the opposite order, each part undone or kept in the
    masks, and the phase is Stopped exactly when nothing is left. *)
Theorem firmware_start_climbs {W} (io : APPLE_AGX_FIRMWARE_IO W) (fw : APPLE_AGX_FIRMWARE)
    (S : W * list (fw_call * bool)) :
  AppleAgxFirmwareIoValid (Some io) = true ->
  exists x fw' S',
    AppleAgxFirmwareStart (Some fw) (Some (logged io)) S = Some ((x, Some fw'), S') /\
    if startable fw then climbed pair S (x, fw') S'
    else x = AppleAgxFirmwareResultInvalid /\ fw' = fw /\ S'.2 = S.2.
Proof.
  intros Hio. pose proof (firmware_start_spec pair io Hio fw S) as H.
  apply wp_result in H as ([x fw'] & S' & E & H). exists x, fw', S'. split.
  - unfold AppleAgxFirmwareStart, logged, mbind, M_bind. by rewrite E.
  - destruct (startable fw); [done|]. destruct H as [[= -> ->] H]. split_and!; try done.
    unfold calls in H. by rewrite H, app_nil_r.
Qed.

Lemma firmware_start_climbs_witness :
  exists x fw' S',
    AppleAgxFirmwareStart (Some demo_firmware) (Some (logged demo_firmware_io)) ((7, []), []) =
      Some ((x, Some fw'), S') /\ climbed pair ((7, []), []) (x, fw') S'.
Proof. exact (firmware_start_climbs demo_firmware_io demo_firmware ((7, []), []) eq_refl). Defined.

(** A rollback always comes to an end; going down the list Unpublish, doorbell endpoint,
    firmware endpoint, coprocessor, address space, power it passes over what is not held
    and calls for the rest, in that order and even after one has failed; what was undone
    leaves the masks and what was not stays in them, so that a later rollback tries it
    again; the result is Ok and the phase Stopped exactly when nothing is left, else
    CleanupFailed and Failed. *)
Theorem firmware_rollback_exact {W} (io : APPLE_AGX_FIRMWARE_IO W) (fw : APPLE_AGX_FIRMWARE)
    (S : W * list (fw_call * bool)) :
  AppleAgxFirmwareIoValid (Some io) = true -> well_formed fw ->
  exists x fw' S' l,
    AppleAgxFirmwareRollback (Some fw) (Some (logged io)) S = Some ((x, Some fw'), S') /\
    S'.2 = S.2 ++ l /\ rolls pair undo_calls (to_undo fw) l (held fw') /\ well_formed fw' /\
    x = (if held fw' =? 0 then AppleAgxFirmwareResultOk else AppleAgxFirmwareResultCleanupFailed) /\
    Phase fw' = (if held fw' =? 0 then AppleAgxFirmwareStopped else AppleAgxFirmwareFailed).
Proof.
  intros Hio Hw. pose proof (rollback_spec pair io Hio fw S Hw) as H.
  apply wp_result in H as ([x fw'] & S' & E & l & Hl & Hr & Hw' & Ex & _ & Ep).
  exists x, fw', S', l. split; [|by split_and!].
  unfold AppleAgxFirmwareRollback, logged, mbind, M_bind. by rewrite E.
Qed.

Lemma firmware_rollback_exact_witness :
  let fw := demo_firmware <| CompletedMask := 0x1f |> <| CleanupMask := 4 |> in
  exists x fw' S' l,
    AppleAgxFirmwareRollback (Some fw) (Some (logged demo_firmware_io)) ((7, []), []) =
      Some ((x, Some fw'), S') /\ S'.2 = [] ++ l /\
    rolls pair undo_calls (to_undo fw) l (held fw') /\ well_formed fw' /\
    x = (if held fw' =? 0 then AppleAgxFirmwareResultOk else AppleAgxFirmwareResultCleanupFailed) /\
    Phase fw' = (if held fw' =? 0 then AppleAgxFirmwareStopped else AppleAgxFirmwareFailed).
Proof.
  exact (firmware_rollback_exact demo_firmware_io
    (demo_firmware <| CompletedMask := 0x1f |> <| CleanupMask := 4 |>) ((7, []), []) eq_refl
    (conj eq_refl eq_refl)).
Defined.
End Stages.
