(* ===== verification/BackendRuntime.v ===== *)
(** * The runtime of the GPU (shared/src/apple_agx_backend_runtime.c)

    [Backend] owns the GPU while the driver is loaded: it maps the arena, brings the
    firmware up (Firmware.v), publishes the context and creates the queues; it hands one
    submission after the other to the queues, decides from what is observed when it is
    complete, and takes everything down again.  The platform's callbacks are an argument
    and may answer anything.  The theorems are in BackendWatch.v and BackendLife.v. *)

From S2P Require Import Prelude Arrays Submission Firmware Interact.
Import Interact.

Module Backend.

(** ** Data *)

Definition APPLE_AGX_BACKEND_QUEUE_WORK_COUNT : Z := 2.

Inductive APPLE_AGX_BACKEND_COMPLETION_STATUS :=
  | AppleAgxBackendCompletionSuccess
  | AppleAgxBackendCompletionFaulted
  | AppleAgxBackendCompletionTimedOut
  | AppleAgxBackendCompletionReset
  | AppleAgxBackendCompletionCancelled
  | AppleAgxBackendCompletionDropped.
#[export] Instance backend_status_eq_dec : EqDecision APPLE_AGX_BACKEND_COMPLETION_STATUS.
Proof. solve_decision. Defined.

Inductive APPLE_AGX_BACKEND_RUNTIME_PHASE :=
  | AppleAgxBackendRuntimeStopped
  | AppleAgxBackendRuntimeStarting
  | AppleAgxBackendRuntimeReady
  | AppleAgxBackendRuntimeSubmitted
  | AppleAgxBackendRuntimeStopping
  | AppleAgxBackendRuntimeFailed.
#[export] Instance backend_phase_eq_dec : EqDecision APPLE_AGX_BACKEND_RUNTIME_PHASE.
Proof. solve_decision. Defined.

Inductive APPLE_AGX_BACKEND_RUNTIME_RESULT :=
  | AppleAgxBackendRuntimeResultOk
  | AppleAgxBackendRuntimeResultInvalidArgument
  | AppleAgxBackendRuntimeResultInvalidState
  | AppleAgxBackendRuntimeResultBusy
  | AppleAgxBackendRuntimeResultMemoryFailed
  | AppleAgxBackendRuntimeResultImageFailed
  | AppleAgxBackendRuntimeResultFirmwareFailed
  | AppleAgxBackendRuntimeResultContextFailed
  | AppleAgxBackendRuntimeResultQueueFailed
  | AppleAgxBackendRuntimeResultFaulted
  | AppleAgxBackendRuntimeResultCleanupFailed.
#[export] Instance backend_result_eq_dec : EqDecision APPLE_AGX_BACKEND_RUNTIME_RESULT.
Proof. solve_decision. Defined.

Inductive APPLE_AGX_BACKEND_QUEUE :=
  | AppleAgxBackendQueueTa
  | AppleAgxBackendQueue3d
  | AppleAgxBackendQueueCompute.
#[export] Instance backend_queue_eq_dec : EqDecision APPLE_AGX_BACKEND_QUEUE.
Proof. solve_decision. Defined.

Inductive APPLE_AGX_BACKEND_JOB_KIND :=
  | AppleAgxBackendJobRender
  | AppleAgxBackendJobCompute.
#[export] Instance job_kind_eq_dec : EqDecision APPLE_AGX_BACKEND_JOB_KIND.
Proof. solve_decision. Defined.

Inductive APPLE_AGX_BACKEND_OBSERVATION_STATUS :=
  | AppleAgxBackendObservationComplete
  | AppleAgxBackendObservationFault
  | AppleAgxBackendObservationTimeout
  | AppleAgxBackendObservationReset
  | AppleAgxBackendObservationRecovered.
#[export] Instance observation_status_eq_dec : EqDecision APPLE_AGX_BACKEND_OBSERVATION_STATUS.
Proof. solve_decision. Defined.

Record APPLE_AGX_RENDER_TEMPLATE_ROOTS := { Ta : list Z; D3 : list Z }.

Record APPLE_AGX_BACKEND_SUBMISSION := {
  bs_Submission : Subm.APPLE_AGX_SUBMISSION;
  ContextIdentity : Z;
  PrivateData : ptr Z;
  PrivateDataBytes : Z;
  PrivateDataStart : Z;
  PrivateDataEnd : Z;
  DmaSubmissionStart : Z;
  DmaSubmissionEnd : Z;
}.

Record APPLE_AGX_BACKEND_JOB_IMAGE := {
  TaWorkAddresses : list Z;
  D3WorkAddresses : list Z;
  ComputeWorkAddresses : list Z;
  TaWorkAddressCount : Z;
  D3WorkAddressCount : Z;
  ComputeWorkAddressCount : Z;
  TaEvent : Z;
  D3Event : Z;
  ComputeEvent : Z;
  TaExpectedStamp : Z;
  D3ExpectedStamp : Z;
  ComputeExpectedStamp : Z;
  TaExpectedDonePointer : Z;
  D3ExpectedDonePointer : Z;
  ComputeExpectedDonePointer : Z;
  Kind : APPLE_AGX_BACKEND_JOB_KIND;
  TaBarrierAddress : Z;
  ComputeTimestampBlock : ptr Z;
  CommandVa : Z;
}.

Record APPLE_AGX_BACKEND_OBSERVATION := {
  Queue : APPLE_AGX_BACKEND_QUEUE;
  Event : Z;
  Stamp : Z;
  DonePointer : Z;
  Status : APPLE_AGX_BACKEND_OBSERVATION_STATUS;
}.

(** The callbacks, over the world.  One that fills a place gets its old contents and returns
    the new ones, whether it succeeds or not.  The fields of the C structs within the struct
    have a prefix. *)
Record APPLE_AGX_BACKEND_IO (W : Type) := {
  io_Firmware : Fw.APPLE_AGX_FIRMWARE_IO W;
  mem_Map : ptr (ptr Z * Z * Z -> W -> (bool * (ptr Z * Z * Z)) * W);
  mem_Unmap : ptr (ptr Z -> Z -> W -> bool * W);
  mem_Resolve : ptr (APPLE_AGX_BACKEND_SUBMISSION -> ptr Z * Z -> W -> (bool * (ptr Z * Z)) * W);
  mem_FlushForDevice : ptr (ptr Z -> Z -> W -> bool * W);
  mem_FlushForCpu : ptr (ptr Z -> Z -> W -> bool * W);
  img_AcquirePrepared : ptr (ptr Z -> Z -> APPLE_AGX_RENDER_TEMPLATE_ROOTS -> W ->
    (bool * APPLE_AGX_RENDER_TEMPLATE_ROOTS) * W);
  img_Relocate : ptr (ptr Z -> Z -> APPLE_AGX_RENDER_TEMPLATE_ROOTS -> ptr Z -> Z ->
    APPLE_AGX_BACKEND_SUBMISSION -> APPLE_AGX_BACKEND_JOB_IMAGE -> W ->
    (bool * APPLE_AGX_BACKEND_JOB_IMAGE) * W);
  ctx_Publish : ptr (W -> bool * W);
  ctx_Unpublish : ptr (W -> bool * W);
  q_Create : ptr (W -> bool * W);
  q_Destroy : ptr (W -> bool * W);
  q_Run3d : ptr (APPLE_AGX_BACKEND_JOB_IMAGE -> Z -> W -> bool * W);
  q_RunTa : ptr (APPLE_AGX_BACKEND_JOB_IMAGE -> Z -> W -> bool * W);
  q_RunCompute : ptr (APPLE_AGX_BACKEND_JOB_IMAGE -> Z -> W -> bool * W);
  q_Stop : ptr (Z -> W -> bool * W);
  q_Reset : ptr (Z -> W -> bool * W);
  io_Complete : ptr (Z -> Z -> Z -> APPLE_AGX_BACKEND_COMPLETION_STATUS -> W -> bool * W);
  io_Retire : ptr (Z -> Z -> Z -> W -> bool * W);
}.
Arguments io_Firmware {W} _.
Arguments mem_Map {W} _.
Arguments mem_Unmap {W} _.
Arguments mem_Resolve {W} _.
Arguments mem_FlushForDevice {W} _.
Arguments mem_FlushForCpu {W} _.
Arguments img_AcquirePrepared {W} _.
Arguments img_Relocate {W} _.
Arguments ctx_Publish {W} _.
Arguments ctx_Unpublish {W} _.
Arguments q_Create {W} _.
Arguments q_Destroy {W} _.
Arguments q_Run3d {W} _.
Arguments q_RunTa {W} _.
Arguments q_RunCompute {W} _.
Arguments q_Stop {W} _.
Arguments q_Reset {W} _.
Arguments io_Complete {W} _.
Arguments io_Retire {W} _.

Record APPLE_AGX_BACKEND_RUNTIME (W : Type) := {
  Phase : APPLE_AGX_BACKEND_RUNTIME_PHASE;
  rt_ContextIdentity : Z;
  Io : APPLE_AGX_BACKEND_IO W;
  Firmware : Fw.APPLE_AGX_FIRMWARE;
  ArenaCpuAddress : ptr Z;
  ArenaGpuAddress : Z;
  ArenaBytes : Z;
  Roots : APPLE_AGX_RENDER_TEMPLATE_ROOTS;
  PendingSubmission : APPLE_AGX_BACKEND_SUBMISSION;
  PendingJob : APPLE_AGX_BACKEND_JOB_IMAGE;
  ArenaMapped : bool;
  ContextPublished : bool;
  QueuesCreated : bool;
  QueuesQuiesced : bool;
  TaComplete : bool;
  D3Complete : bool;
  ComputeComplete : bool;
  TerminalPending : bool;
  TerminalCpuFlushed : bool;
  TerminalStatus : APPLE_AGX_BACKEND_COMPLETION_STATUS;
  TerminalNextPhase : APPLE_AGX_BACKEND_RUNTIME_PHASE;
  TerminalResult : APPLE_AGX_BACKEND_RUNTIME_RESULT;
}.
Arguments Phase {W} _.
Arguments rt_ContextIdentity {W} _.
Arguments Io {W} _.
Arguments Firmware {W} _.
Arguments ArenaCpuAddress {W} _.
Arguments ArenaGpuAddress {W} _.
Arguments ArenaBytes {W} _.
Arguments Roots {W} _.
Arguments PendingSubmission {W} _.
Arguments PendingJob {W} _.
Arguments ArenaMapped {W} _.
Arguments ContextPublished {W} _.
Arguments QueuesCreated {W} _.
Arguments QueuesQuiesced {W} _.
Arguments TaComplete {W} _.
Arguments D3Complete {W} _.
Arguments ComputeComplete {W} _.
Arguments TerminalPending {W} _.
Arguments TerminalCpuFlushed {W} _.
Arguments TerminalStatus {W} _.
Arguments TerminalNextPhase {W} _.
Arguments TerminalResult {W} _.
#[export] Instance backend_eta W : Eta (APPLE_AGX_BACKEND_RUNTIME W) :=
  fun r => Build_APPLE_AGX_BACKEND_RUNTIME W (Phase r) (rt_ContextIdentity r) (Io r) (Firmware r)
    (ArenaCpuAddress r) (ArenaGpuAddress r) (ArenaBytes r) (Roots r) (PendingSubmission r)
    (PendingJob r) (ArenaMapped r) (ContextPublished r) (QueuesCreated r) (QueuesQuiesced r)
    (TaComplete r) (D3Complete r) (ComputeComplete r) (TerminalPending r) (TerminalCpuFlushed r)
    (TerminalStatus r) (TerminalNextPhase r) (TerminalResult r).

(** Zeroed structs. *)
Definition wddm_submission_zero : Subm.APPLE_AGX_SUBMISSION := {|
  Subm.Kind := Subm.AppleAgxSubmissionInvalid; Subm.Fence := 0; Subm.NodeOrdinal := 0;
  Subm.EngineOrdinal := 0; Subm.SegmentId := 0; Subm.Flags := 0; Subm.DmaAddress := 0;
  Subm.DmaBytes := 0; Subm.Reserved := 0 |}.
Definition backend_submission_zero : APPLE_AGX_BACKEND_SUBMISSION := {|
  bs_Submission := wddm_submission_zero; ContextIdentity := 0; PrivateData := NULL;
  PrivateDataBytes := 0; PrivateDataStart := 0; PrivateDataEnd := 0; DmaSubmissionStart := 0;
  DmaSubmissionEnd := 0 |}.
Definition job_zero : APPLE_AGX_BACKEND_JOB_IMAGE := {|
  TaWorkAddresses := [0; 0]; D3WorkAddresses := [0; 0]; ComputeWorkAddresses := [0; 0];
  TaWorkAddressCount := 0; D3WorkAddressCount := 0; ComputeWorkAddressCount := 0; TaEvent := 0;
  D3Event := 0; ComputeEvent := 0; TaExpectedStamp := 0; D3ExpectedStamp := 0;
  ComputeExpectedStamp := 0; TaExpectedDonePointer := 0; D3ExpectedDonePointer := 0;
  ComputeExpectedDonePointer := 0; Kind := AppleAgxBackendJobRender; TaBarrierAddress := 0;
  ComputeTimestampBlock := NULL; CommandVa := 0 |}.
Definition firmware_zero : Fw.APPLE_AGX_FIRMWARE := {|
  Fw.Phase := Fw.AppleAgxFirmwareOff; Fw.CompletedMask := 0; Fw.InitdataAddress := 0;
  Fw.LastResult := Fw.AppleAgxFirmwareResultOk; Fw.CleanupMask := 0 |}.
Definition firmware_io_zero {W} : Fw.APPLE_AGX_FIRMWARE_IO W := {|
  Fw.NowMs := NULL; Fw.PowerOn := NULL; Fw.CreateFirmwareUat := NULL; Fw.BootAsc := NULL;
  Fw.StartEndpoint := NULL; Fw.PublishInitdata := NULL; Fw.SendInitdata := NULL;
  Fw.SendDeviceControlInit := NULL; Fw.UpdateIdleTimestamp := NULL; Fw.UnpublishInitdata := NULL;
  Fw.StopEndpoint := NULL; Fw.StopAsc := NULL; Fw.DestroyFirmwareUat := NULL; Fw.PowerOff := NULL;
  Fw.RecordPhase := NULL |}.
Definition backend_io_zero {W} : APPLE_AGX_BACKEND_IO W := {|
  io_Firmware := firmware_io_zero; mem_Map := NULL; mem_Unmap := NULL; mem_Resolve := NULL;
  mem_FlushForDevice := NULL; mem_FlushForCpu := NULL; img_AcquirePrepared := NULL;
  img_Relocate := NULL; ctx_Publish := NULL; ctx_Unpublish := NULL; q_Create := NULL;
  q_Destroy := NULL; q_Run3d := NULL; q_RunTa := NULL; q_RunCompute := NULL; q_Stop := NULL;
  q_Reset := NULL; io_Complete := NULL; io_Retire := NULL |}.
Definition runtime_zero {W} : APPLE_AGX_BACKEND_RUNTIME W := {|
  Phase := AppleAgxBackendRuntimeStopped; rt_ContextIdentity := 0; Io := backend_io_zero;
  Firmware := firmware_zero; ArenaCpuAddress := NULL; ArenaGpuAddress := 0; ArenaBytes := 0;
  Roots := {| Ta := [0; 0]; D3 := [0; 0] |}; PendingSubmission := backend_submission_zero;
  PendingJob := job_zero; ArenaMapped := false; ContextPublished := false; QueuesCreated := false;
  QueuesQuiesced := false; TaComplete := false; D3Complete := false; ComputeComplete := false;
  TerminalPending := false; TerminalCpuFlushed := false;
  TerminalStatus := AppleAgxBackendCompletionSuccess;
  TerminalNextPhase := AppleAgxBackendRuntimeStopped;
  TerminalResult := AppleAgxBackendRuntimeResultOk |}.

(** [Runtime->PendingSubmission.Submission.Fence]. *)
Definition pending_fence {W} (r : APPLE_AGX_BACKEND_RUNTIME W) : Z :=
  Subm.Fence (bs_Submission (PendingSubmission r)).

(** ** Operations *)

Section operations.
Context {W : Type}.
Notation RT := (APPLE_AGX_BACKEND_RUNTIME W).
Notation IO := (APPLE_AGX_BACKEND_IO W).
Notation RESULT := APPLE_AGX_BACKEND_RUNTIME_RESULT.
Notation STATUS := APPLE_AGX_BACKEND_COMPLETION_STATUS.
Notation PHASE := APPLE_AGX_BACKEND_RUNTIME_PHASE.
Implicit Types (rt : RT) (io : IO).

(** [Io->F(Io->Context, ...)]. *)
Definition ask {A} (f : ptr (W -> A * W)) : M W A := deref g := f else undefined in call g.

(** RunCompute is the one callback that may be missing, and Submit checks it; the firmware's
    callbacks are checked by the firmware. *)
Definition AppleAgxBackendIoValid (Io : ptr IO) : bool :=
  deref io := Io else false in
  negb (is_null (mem_Map io)) && negb (is_null (mem_Unmap io)) &&
  negb (is_null (mem_Resolve io)) && negb (is_null (mem_FlushForDevice io)) &&
  negb (is_null (mem_FlushForCpu io)) && negb (is_null (img_AcquirePrepared io)) &&
  negb (is_null (img_Relocate io)) && negb (is_null (ctx_Publish io)) &&
  negb (is_null (ctx_Unpublish io)) && negb (is_null (q_Create io)) &&
  negb (is_null (q_Destroy io)) && negb (is_null (q_Run3d io)) && negb (is_null (q_RunTa io)) &&
  negb (is_null (q_Stop io)) && negb (is_null (q_Reset io)) && negb (is_null (io_Complete io)) &&
  negb (is_null (io_Retire io)).

Definition AppleAgxBackendRootsValid (Roots : APPLE_AGX_RENDER_TEMPLATE_ROOTS) : bool :=
  negb ((Ta Roots) .[ 0 ] =? 0) && negb ((Ta Roots) .[ 1 ] =? 0) &&
  negb ((D3 Roots) .[ 0 ] =? 0) && negb ((D3 Roots) .[ 1 ] =? 0).

Definition AppleAgxBackendClearPending (Runtime : RT) : RT :=
  Runtime <| PendingSubmission := backend_submission_zero |> <| PendingJob := job_zero |>
    <| TaComplete := false |> <| D3Complete := false |> <| ComputeComplete := false |>
    <| TerminalPending := false |> <| TerminalCpuFlushed := false |>
    <| TerminalStatus := AppleAgxBackendCompletionSuccess |>
    <| TerminalNextPhase := AppleAgxBackendRuntimeStopped |>
    <| TerminalResult := AppleAgxBackendRuntimeResultInvalidState |>.

(** [Result == AppleAgxFirmwareResultOk]. *)
Definition firmware_ok (Result : Fw.APPLE_AGX_FIRMWARE_RESULT) : bool :=
  match Result with Fw.AppleAgxFirmwareResultOk => true | _ => false end.

(** [F(&Runtime->Firmware, &Runtime->Io.Firmware)]: whether it is Ok, and the firmware. *)
Definition with_firmware (f : ptr Fw.APPLE_AGX_FIRMWARE -> ptr (Fw.APPLE_AGX_FIRMWARE_IO W) ->
    M W (Fw.APPLE_AGX_FIRMWARE_RESULT * ptr Fw.APPLE_AGX_FIRMWARE)) (Runtime : RT)
    : M W (bool * RT) :=
  '(result, fw) ← f (Some (Firmware Runtime)) (Some (io_Firmware (Io Runtime)));
  mret (firmware_ok result,
        Runtime <| Firmware := default (Firmware Runtime) fw |>).

(** A part of the teardown: if it is there it is released by the callback, and then noted as
    gone.  Whether the callback failed. *)
Definition release (there : bool) (m : M W bool) (gone : RT -> RT) (Runtime : RT)
    : M W (bool * RT) :=
  if negb there then mret (false, Runtime)
  else ok ← m; mret (if negb ok then (true, Runtime) else (false, gone Runtime)).

Definition queues_gone (Runtime : RT) : RT :=
  Runtime <| QueuesCreated := false |> <| QueuesQuiesced := false |>.
Definition context_gone (Runtime : RT) : RT := Runtime <| ContextPublished := false |>.
Definition arena_gone (Runtime : RT) : RT := Runtime <| ArenaMapped := false |>.

Definition destroy_queues (Runtime : RT) : M W (bool * RT) :=
  release (QueuesCreated Runtime) (ask (q_Destroy (Io Runtime))) queues_gone Runtime.
Definition unpublish_context (Runtime : RT) : M W (bool * RT) :=
  release (ContextPublished Runtime) (ask (ctx_Unpublish (Io Runtime))) context_gone Runtime.
Definition unmap_arena (Runtime : RT) : M W (bool * RT) :=
  release (ArenaMapped Runtime)
    (ask ((fun f => f (ArenaCpuAddress Runtime) (ArenaBytes Runtime)) <$> mem_Unmap (Io Runtime)))
    arena_gone Runtime.

Definition AppleAgxBackendStartRollback (Runtime : RT) (Failure : RESULT) : M W (RESULT * RT) :=
  '(failed1, rt) ← destroy_queues Runtime;
  '(failed2, rt) ← unpublish_context rt;
  '(failed3, rt) ←
    (if Fw.CompletedMask (Firmware rt) =? 0 then mret (false, rt)
     else '(ok, rt) ← with_firmware Fw.AppleAgxFirmwareRollback rt; mret (negb ok, rt));
  '(failed4, rt) ← unmap_arena rt;
  let cleanupFailed := failed1 || failed2 || failed3 || failed4 in
  mret (if cleanupFailed then AppleAgxBackendRuntimeResultCleanupFailed else Failure,
        rt <| Phase := if cleanupFailed then AppleAgxBackendRuntimeFailed
                       else AppleAgxBackendRuntimeStopped |>).

Definition AppleAgxBackendRuntimeInitialize (Runtime : ptr RT) (ContextIdentity : Z) : ptr RT :=
  deref _ := Runtime else NULL in
  Some (runtime_zero <| rt_ContextIdentity := ContextIdentity |>
          <| Phase := AppleAgxBackendRuntimeStopped |>
          <| Firmware := Fw.initialized firmware_zero |>).

Definition AppleAgxBackendSubmissionFromEntry (Identity : Z)
    (Entry : ptr Subm.APPLE_AGX_SUBMISSION_ENTRY) (Private : ptr Z)
    (Submission : ptr APPLE_AGX_BACKEND_SUBMISSION) : bool * ptr APPLE_AGX_BACKEND_SUBMISSION :=
  deref _ := Submission else (false, NULL) in
  deref entry := Entry else (false, Some backend_submission_zero) in
  let s := Subm.Submission entry in
  if is_null Private || (Identity =? 0) ||
     negb (bool_decide (Subm.Kind s = Subm.AppleAgxSubmissionGdi)) ||
     (Subm.Fence s =? 0) || (Subm.PrivateDataToken entry =? 0) ||
     (Subm.PrivateDataBytes entry =? 0) || negb (Subm.PrivateDataStart entry =? 0) ||
     (Subm.PrivateDataEnd entry <=? Subm.PrivateDataStart entry) ||
     (Subm.PrivateDataBytes entry <? Subm.PrivateDataEnd entry) ||
     (Subm.DmaSubmissionEnd entry <=? Subm.DmaSubmissionStart entry) ||
     negb (u32 (Subm.DmaSubmissionEnd entry - Subm.DmaSubmissionStart entry) =? Subm.DmaBytes s)
  then (false, Some backend_submission_zero)
  else (true, Some {|
    bs_Submission := s; ContextIdentity := Identity; PrivateData := Private;
    PrivateDataBytes := Subm.PrivateDataBytes entry;
    PrivateDataStart := Subm.PrivateDataStart entry; PrivateDataEnd := Subm.PrivateDataEnd entry;
    DmaSubmissionStart := Subm.DmaSubmissionStart entry;
    DmaSubmissionEnd := Subm.DmaSubmissionEnd entry |}).

(** The start of a runtime that is there, with callbacks that are there. *)
Definition start (Runtime : RT) io : M W (RESULT * RT) :=
  let rt := Runtime <| Io := io |> <| Phase := AppleAgxBackendRuntimeStarting |> in
  '(mapped, (cpu, gpu, bytes)) ← ask ((fun f => f (ArenaCpuAddress rt, ArenaGpuAddress rt,
                                 ArenaBytes rt)) <$> mem_Map io);
  let rt := rt <| ArenaCpuAddress := cpu |> <| ArenaGpuAddress := u64 gpu |>
               <| ArenaBytes := u32 bytes |> in
  if negb mapped || is_null cpu || (u64 gpu =? 0) || (u32 bytes =? 0)
  then AppleAgxBackendStartRollback rt AppleAgxBackendRuntimeResultMemoryFailed else
  let rt := rt <| ArenaMapped := true |> in
  '(acquired, roots) ← ask ((fun f => f (ArenaCpuAddress rt) (ArenaBytes rt) (Roots rt))
                              <$> img_AcquirePrepared io);
  let rt := rt <| Roots := roots |> in
  if negb acquired || negb (AppleAgxBackendRootsValid roots)
  then AppleAgxBackendStartRollback rt AppleAgxBackendRuntimeResultImageFailed else
  flushed ← ask ((fun f => f (ArenaCpuAddress rt) (ArenaBytes rt)) <$> mem_FlushForDevice io);
  if negb flushed
  then AppleAgxBackendStartRollback rt AppleAgxBackendRuntimeResultMemoryFailed else
  let rt := rt <| Firmware := Fw.initialized (Firmware rt) |> in
  '(ok, rt) ← with_firmware Fw.AppleAgxFirmwareStart rt;
  if negb ok
  then AppleAgxBackendStartRollback rt AppleAgxBackendRuntimeResultFirmwareFailed else
  published ← ask (ctx_Publish io);
  if negb published
  then AppleAgxBackendStartRollback rt AppleAgxBackendRuntimeResultContextFailed else
  let rt := rt <| ContextPublished := true |> in
  created ← ask (q_Create io);
  if negb created
  then AppleAgxBackendStartRollback rt AppleAgxBackendRuntimeResultQueueFailed else
  mret (AppleAgxBackendRuntimeResultOk,
        rt <| QueuesCreated := true |> <| QueuesQuiesced := false |>
           <| Phase := AppleAgxBackendRuntimeReady |>).

(** An operation of a runtime that may not be there. *)
Definition on_runtime (Runtime : ptr RT) (m : RT -> M W (RESULT * RT)) : M W (RESULT * ptr RT) :=
  deref rt := Runtime else mret (AppleAgxBackendRuntimeResultInvalidArgument, NULL) in
  '(result, rt) ← m rt; mret (result, Some rt).

Definition AppleAgxBackendRuntimeStart (Runtime : ptr RT) (Io : ptr IO) : M W (RESULT * ptr RT) :=
  on_runtime Runtime (fun rt =>
    if negb (AppleAgxBackendIoValid Io) || (rt_ContextIdentity rt =? 0)
    then mret (AppleAgxBackendRuntimeResultInvalidArgument, rt)
    else deref io := Io else undefined in
    if negb (bool_decide (Phase rt = AppleAgxBackendRuntimeStopped))
    then mret (AppleAgxBackendRuntimeResultInvalidState, rt)
    else start rt io).

Definition AppleAgxBackendSubmissionValid (Runtime : RT)
    (Submission : ptr APPLE_AGX_BACKEND_SUBMISSION) : bool :=
  deref b := Submission else false in
  let s := bs_Submission b in
  (ContextIdentity b =? rt_ContextIdentity Runtime) &&
  bool_decide (Subm.Kind s = Subm.AppleAgxSubmissionGdi) && negb (Subm.Fence s =? 0) &&
  (Subm.NodeOrdinal s =? 0) && (Subm.EngineOrdinal s =? 0) && negb (is_null (PrivateData b)) &&
  negb (PrivateDataBytes b =? 0) && (PrivateDataStart b =? 0) &&
  (PrivateDataStart b <? PrivateDataEnd b) && (PrivateDataEnd b <=? PrivateDataBytes b) &&
  (DmaSubmissionStart b <? DmaSubmissionEnd b) &&
  (u32 (DmaSubmissionEnd b - DmaSubmissionStart b) =? Subm.DmaBytes s).

Definition AppleAgxBackendJobValid (Job : APPLE_AGX_BACKEND_JOB_IMAGE) : bool :=
  match Kind Job with
  | AppleAgxBackendJobCompute =>
      (ComputeWorkAddressCount Job =? 1) && negb ((ComputeWorkAddresses Job) .[ 0 ] =? 0) &&
      negb (ComputeExpectedStamp Job =? 0) && (TaBarrierAddress Job =? 0) &&
      (TaWorkAddressCount Job =? 0) && (D3WorkAddressCount Job =? 0)
  | AppleAgxBackendJobRender =>
      if negb (Bool.eqb (negb (ComputeWorkAddressCount Job =? 0)) (negb (TaBarrierAddress Job =? 0)))
      then false
      else if negb (TaWorkAddressCount Job =? APPLE_AGX_BACKEND_QUEUE_WORK_COUNT) ||
              negb (D3WorkAddressCount Job =? APPLE_AGX_BACKEND_QUEUE_WORK_COUNT) ||
              (TaExpectedStamp Job =? 0) || (D3ExpectedStamp Job =? 0)
      then false
      else forallb (fun index => negb ((TaWorkAddresses Job) .[ index ] =? 0) &&
                                 negb ((D3WorkAddresses Job) .[ index ] =? 0))
             (seqZ 0 APPLE_AGX_BACKEND_QUEUE_WORK_COUNT)
  end.

(** [Run(Runtime->Io.Context, &Runtime->PendingJob, fence)], [Stop(..., fence)]. *)
Definition run_job (f : ptr (APPLE_AGX_BACKEND_JOB_IMAGE -> Z -> W -> bool * W)) (Runtime : RT)
    (fence : Z) : M W bool :=
  ask ((fun g => g (PendingJob Runtime) fence) <$> f).
Definition at_fence (f : ptr (Z -> W -> bool * W)) (fence : Z) : M W bool :=
  ask ((fun g => g fence) <$> f).

(** A job that never reached its queue is dropped. *)
Definition not_accepted (Runtime : RT) : M W (RESULT * RT) :=
  mret (AppleAgxBackendRuntimeResultQueueFailed,
        (AppleAgxBackendClearPending Runtime) <| Phase := AppleAgxBackendRuntimeReady |>).
Definition submitted (Runtime : RT) : M W (RESULT * RT) :=
  mret (AppleAgxBackendRuntimeResultOk, Runtime <| Phase := AppleAgxBackendRuntimeSubmitted |>).

(** The stores before a job is handed to its queue. *)
Definition admitted (Runtime : RT) (Submission : APPLE_AGX_BACKEND_SUBMISSION) : RT :=
  Runtime <| PendingSubmission := Submission |> <| TaComplete := false |>
    <| D3Complete := false |> <| ComputeComplete := false |>.

Definition hand_over (Runtime : RT) (fence : Z) : M W (RESULT * RT) :=
  let io := Io Runtime in
  match Kind (PendingJob Runtime) with
  | AppleAgxBackendJobCompute =>
      ok ← (if is_null (q_RunCompute io) then mret false
            else run_job (q_RunCompute io) Runtime fence);
      if negb ok then not_accepted Runtime else submitted Runtime
  | AppleAgxBackendJobRender =>
      staged ← run_job (q_Run3d io) Runtime fence;
      if negb staged then not_accepted Runtime else
      run ← run_job (q_RunTa io) Runtime fence;
      if negb run
      then
        stopped ← at_fence (q_Stop io) fence;
        let rt := if (stopped : bool) then Runtime <| QueuesQuiesced := true |> else Runtime in
        mret (AppleAgxBackendRuntimeResultQueueFailed,
              rt <| Phase := AppleAgxBackendRuntimeFailed |>)
      else submitted Runtime
  end.

(** The submission of a valid submission to a runtime that is Ready. *)
Definition submit (Runtime : RT) (Submission : APPLE_AGX_BACKEND_SUBMISSION) : M W (RESULT * RT) :=
  let io := Io Runtime in
  '(resolved, (bytes, count)) ← ask ((fun f => f Submission (NULL, 0)) <$> mem_Resolve io);
  if negb resolved || is_null bytes ||
     negb (u32 count =? u32 (DmaSubmissionEnd Submission - DmaSubmissionStart Submission))
  then mret (AppleAgxBackendRuntimeResultMemoryFailed, Runtime) else
  '(relocated, job) ← ask ((fun f => f (ArenaCpuAddress Runtime) (ArenaBytes Runtime) (Roots Runtime)
                          bytes (u32 count) Submission (PendingJob Runtime)) <$> img_Relocate io);
  let rt := Runtime <| PendingJob := job |> in
  if negb relocated || negb (AppleAgxBackendJobValid job)
  then mret (AppleAgxBackendRuntimeResultImageFailed, rt) else
  flushed ← ask ((fun f => f (ArenaCpuAddress rt) (ArenaBytes rt)) <$> mem_FlushForDevice io);
  if negb flushed then mret (AppleAgxBackendRuntimeResultMemoryFailed, rt) else
  hand_over (admitted rt Submission) (Subm.Fence (bs_Submission Submission)).

Definition AppleAgxBackendRuntimeSubmit (Runtime : ptr RT)
    (Submission : ptr APPLE_AGX_BACKEND_SUBMISSION) : M W (RESULT * ptr RT) :=
  on_runtime Runtime (fun rt =>
    if bool_decide (Phase rt = AppleAgxBackendRuntimeSubmitted)
    then mret (AppleAgxBackendRuntimeResultBusy, rt)
    else if negb (bool_decide (Phase rt = AppleAgxBackendRuntimeReady))
    then mret (AppleAgxBackendRuntimeResultInvalidState, rt)
    else if negb (AppleAgxBackendSubmissionValid rt Submission)
    then mret (AppleAgxBackendRuntimeResultInvalidArgument, rt)
    else deref s := Submission else undefined in submit rt s).

Definition AppleAgxBackendStampReached (Actual Expected : Z) : bool :=
  u32 (Actual - Expected) <? 0x80000000.

(** The end of a job that was reported or retired. *)
Definition finish (Runtime : RT) (result : RESULT) (nextPhase : PHASE) : M W (RESULT * RT) :=
  mret (result, (AppleAgxBackendClearPending Runtime) <| Phase := nextPhase |>).

Definition notify (Runtime : RT) (fence node engine : Z) (result : RESULT)
    (previousPhase nextPhase : PHASE) : M W (RESULT * RT) :=
  if bool_decide (TerminalStatus Runtime = AppleAgxBackendCompletionCancelled)
  then
    retired ← ask ((fun f => f fence node engine) <$> io_Retire (Io Runtime));
    if negb retired then mret (AppleAgxBackendRuntimeResultBusy, Runtime)
    else finish Runtime result nextPhase
  else
    let rt := Runtime <| Phase := nextPhase |> in
    completed ← ask ((fun f => f fence node engine (TerminalStatus Runtime))
                       <$> io_Complete (Io Runtime));
    if negb completed
    then mret (AppleAgxBackendRuntimeResultBusy, rt <| Phase := previousPhase |>)
    else finish rt result nextPhase.

(** The acknowledgement of a runtime that is there. *)
Definition acknowledge (Runtime : RT) : M W (RESULT * RT) :=
  if negb (TerminalPending Runtime) || (pending_fence Runtime =? 0)
  then mret (AppleAgxBackendRuntimeResultInvalidState, Runtime) else
  let fence := pending_fence Runtime in
  let node := Subm.NodeOrdinal (bs_Submission (PendingSubmission Runtime)) in
  let engine := Subm.EngineOrdinal (bs_Submission (PendingSubmission Runtime)) in
  let result := TerminalResult Runtime in
  let previousPhase := Phase Runtime in
  let nextPhase := TerminalNextPhase Runtime in
  if bool_decide (TerminalStatus Runtime = AppleAgxBackendCompletionSuccess) &&
     negb (TerminalCpuFlushed Runtime)
  then
    flushed ← ask ((fun f => f (ArenaCpuAddress Runtime) (ArenaBytes Runtime))
                     <$> mem_FlushForCpu (Io Runtime));
    if negb flushed then mret (AppleAgxBackendRuntimeResultMemoryFailed, Runtime)
    else notify (Runtime <| TerminalCpuFlushed := true |>) fence node engine result previousPhase
           nextPhase
  else notify Runtime fence node engine result previousPhase nextPhase.

Definition AppleAgxBackendRuntimeAcknowledgeCompletion (Runtime : ptr RT) : M W (RESULT * ptr RT) :=
  on_runtime Runtime acknowledge.

Definition AppleAgxBackendCompletionEndsFence (Status : STATUS) : bool :=
  bool_decide (Status = AppleAgxBackendCompletionSuccess) ||
  bool_decide (Status = AppleAgxBackendCompletionDropped).

(** The stores that make a fence's end known. *)
Definition terminal (Runtime : RT) (Status : STATUS) (NextPhase : PHASE) (Result : RESULT) : RT :=
  Runtime <| TerminalPending := true |> <| TerminalCpuFlushed := false |>
    <| TerminalStatus := Status |> <| TerminalNextPhase := NextPhase |>
    <| TerminalResult := Result |>.

Definition AppleAgxBackendTerminal (Runtime : RT) (Status : STATUS) (NextPhase : PHASE)
    (Result : RESULT) : M W (RESULT * RT) :=
  if TerminalPending Runtime || (pending_fence Runtime =? 0)
  then mret (AppleAgxBackendRuntimeResultInvalidState, Runtime) else
  let rt := terminal Runtime Status NextPhase Result in
  if negb (AppleAgxBackendCompletionEndsFence Status) then mret (Result, rt) else acknowledge rt.

(** A natural completion: what the job has to have reached. *)
Definition success (Runtime : RT) : M W (RESULT * RT) :=
  AppleAgxBackendTerminal Runtime AppleAgxBackendCompletionSuccess AppleAgxBackendRuntimeReady
    AppleAgxBackendRuntimeResultOk.

Definition reached (Observation : APPLE_AGX_BACKEND_OBSERVATION) (event done_ stamp : Z) : bool :=
  (Event Observation =? event) && (DonePointer Observation =? done_) &&
  AppleAgxBackendStampReached (Stamp Observation) stamp.

Definition observe_complete (Runtime : RT) (Observation : APPLE_AGX_BACKEND_OBSERVATION)
    : M W (RESULT * RT) :=
  let job := PendingJob Runtime in
  let invalid := mret (AppleAgxBackendRuntimeResultInvalidArgument, Runtime) in
  let both rt :=
    if TaComplete rt && D3Complete rt then success rt
    else mret (AppleAgxBackendRuntimeResultOk, rt) in
  match Kind job with
  | AppleAgxBackendJobCompute =>
      if negb (bool_decide (Queue Observation = AppleAgxBackendQueueCompute)) ||
         ComputeComplete Runtime ||
         negb (reached Observation (ComputeEvent job) (ComputeExpectedDonePointer job)
                 (ComputeExpectedStamp job))
      then invalid
      else success (Runtime <| ComputeComplete := true |>)
  | AppleAgxBackendJobRender =>
      match Queue Observation with
      | AppleAgxBackendQueueTa =>
          if TaComplete Runtime ||
             negb (reached Observation (TaEvent job) (TaExpectedDonePointer job)
                     (TaExpectedStamp job))
          then invalid else both (Runtime <| TaComplete := true |>)
      | AppleAgxBackendQueue3d =>
          if D3Complete Runtime ||
             negb (reached Observation (D3Event job) (D3ExpectedDonePointer job)
                     (D3ExpectedStamp job))
          then invalid else both (Runtime <| D3Complete := true |>)
      | AppleAgxBackendQueueCompute => invalid
      end
  end.

(** A fault, a timeout or a reset: the queues must stop. *)
Definition observe_failure (Runtime : RT) (stop : M W bool) (completionStatus : STATUS)
    : M W (RESULT * RT) :=
  stopped ← stop;
  if negb stopped
  then mret (AppleAgxBackendRuntimeResultCleanupFailed,
             Runtime <| Phase := AppleAgxBackendRuntimeFailed |>)
  else AppleAgxBackendTerminal (Runtime <| QueuesQuiesced := true |>) completionStatus
         AppleAgxBackendRuntimeFailed AppleAgxBackendRuntimeResultFaulted.

(** The observation of a runtime that is there. *)
Definition observe (Runtime : RT) (Observation : APPLE_AGX_BACKEND_OBSERVATION)
    : M W (RESULT * RT) :=
  let io := Io Runtime in
  let fence := pending_fence Runtime in
  if TerminalPending Runtime && negb (AppleAgxBackendCompletionEndsFence (TerminalStatus Runtime))
  then mret (TerminalResult Runtime, Runtime)
  else if TerminalPending Runtime then acknowledge Runtime
  else if negb (bool_decide (Phase Runtime = AppleAgxBackendRuntimeSubmitted))
  then mret (AppleAgxBackendRuntimeResultInvalidState, Runtime)
  else match Status Observation with
  | AppleAgxBackendObservationRecovered =>
      AppleAgxBackendTerminal
        (Runtime <| TaComplete := true |> <| D3Complete := true |> <| ComputeComplete := true |>)
        AppleAgxBackendCompletionDropped AppleAgxBackendRuntimeReady
        AppleAgxBackendRuntimeResultOk
  | AppleAgxBackendObservationFault =>
      observe_failure Runtime (at_fence (q_Stop io) fence) AppleAgxBackendCompletionFaulted
  | AppleAgxBackendObservationTimeout =>
      observe_failure Runtime (at_fence (q_Stop io) fence) AppleAgxBackendCompletionTimedOut
  | AppleAgxBackendObservationReset =>
      observe_failure Runtime (at_fence (q_Reset io) fence) AppleAgxBackendCompletionReset
  | AppleAgxBackendObservationComplete => observe_complete Runtime Observation
  end.

Definition AppleAgxBackendRuntimeObserve (Runtime : ptr RT)
    (Observation : ptr APPLE_AGX_BACKEND_OBSERVATION) : M W (RESULT * ptr RT) :=
  on_runtime Runtime (fun rt =>
    deref o := Observation else mret (AppleAgxBackendRuntimeResultInvalidArgument, rt) in
    observe rt o).

(** The parts of Stop: each leaves with CleanupFailed or goes on with the runtime. *)
Definition cleanup_failed (Runtime : RT) : M W (RESULT * RT) :=
  mret (AppleAgxBackendRuntimeResultCleanupFailed,
        Runtime <| Phase := AppleAgxBackendRuntimeFailed |>).
Definition part (m : M W (bool * RT)) (rest : RT -> M W (RESULT * RT)) : M W (RESULT * RT) :=
  '(failed, rt) ← m; if (failed : bool) then cleanup_failed rt else rest rt.

(** The acknowledgement has to be Ok. *)
Definition retirement (Runtime : RT) : M W (bool * RT) :=
  '(result, rt) ← acknowledge Runtime;
  mret (negb (bool_decide (result = AppleAgxBackendRuntimeResultOk)), rt).

Definition quiesce_queues (Runtime : RT) (pendingFence : Z) : M W (bool * RT) :=
  if negb (QueuesCreated Runtime && negb (QueuesQuiesced Runtime)) then mret (false, Runtime) else
  stopped ← at_fence (q_Stop (Io Runtime)) pendingFence;
  mret (if negb stopped then (true, Runtime) else (false, Runtime <| QueuesQuiesced := true |>)).

(** The stop of a runtime that is there. *)
Definition stop (Runtime : RT) : M W (RESULT * RT) :=
  if bool_decide (Phase Runtime = AppleAgxBackendRuntimeStopped)
  then mret (AppleAgxBackendRuntimeResultOk, Runtime)
  else if negb (bool_decide (Phase Runtime = AppleAgxBackendRuntimeReady)) &&
          negb (bool_decide (Phase Runtime = AppleAgxBackendRuntimeSubmitted)) &&
          negb (bool_decide (Phase Runtime = AppleAgxBackendRuntimeFailed))
  then mret (AppleAgxBackendRuntimeResultInvalidState, Runtime)
  else
  part (if TerminalPending Runtime && AppleAgxBackendCompletionEndsFence (TerminalStatus Runtime)
        then retirement Runtime else mret (false, Runtime)) (fun rt =>
  let pendingFence := pending_fence rt in
  let rt := rt <| Phase := AppleAgxBackendRuntimeStopping |> in
  part (quiesce_queues rt pendingFence) (fun rt =>
  part (if negb (pendingFence =? 0)
        then retirement (terminal rt AppleAgxBackendCompletionCancelled
               AppleAgxBackendRuntimeStopping AppleAgxBackendRuntimeResultOk)
        else mret (false, rt)) (fun rt =>
  part (destroy_queues rt) (fun rt =>
  part (unpublish_context rt) (fun rt =>
  part ('(ok, rt) ← with_firmware Fw.AppleAgxFirmwareRollback rt; mret (negb ok, rt)) (fun rt =>
  part (unmap_arena rt) (fun rt =>
  mret (AppleAgxBackendRuntimeResultOk, rt <| Phase := AppleAgxBackendRuntimeStopped |>)))))))).

Definition AppleAgxBackendRuntimeStop (Runtime : ptr RT) : M W (RESULT * ptr RT) :=
  on_runtime Runtime stop.
End operations.
End Backend.
