(* ===== verification/BackendWatch.v ===== *)
(** * What the runtime owes its platform (shared/src/apple_agx_backend_runtime.c)

    [Watch.watched] logs the calls of BackendRuntime.v that bring something up, take it
    down, run a job or end a fence.  [next] is the contract of these calls: an abstract owner
    that knows what is up and what is running, and that has no next state for a call that is
    out of order.  A success must have been observed, and flushed for the CPU, before it is
    reported. *)

From S2P Require Import Prelude Interact Submission Firmware FirmwareStages BackendRuntime.
Import Interact.

Module Watch.
Import Backend.

(** ** The observer *)

Notation JOB := APPLE_AGX_BACKEND_JOB_IMAGE.
Notation STATUS := APPLE_AGX_BACKEND_COMPLETION_STATUS.

#[export] Instance job_eq_dec : EqDecision JOB.
Proof. solve_decision. Defined.

(** The calls with their answers, and the observations the runtime was given. *)
Inductive signal :=
  | Firm (c : Stages.fw_call) (ok : bool)
  | Mapped (ok : bool)
  | Unmapped (ok : bool)
  | Published (ok : bool)
  | Unpublished (ok : bool)
  | Created (ok : bool)
  | Destroyed (ok : bool)
  | Ran3d (job : JOB) (fence : Z) (ok : bool)
  | RanTa (job : JOB) (fence : Z) (ok : bool)
  | RanCompute (job : JOB) (fence : Z) (ok : bool)
  | Quieted (fence : Z) (ok : bool)
  | FlushedCpu (ok : bool)
  | Completed (fence : Z) (status : STATUS) (ok : bool)
  | Retired (fence : Z) (ok : bool)
  | Observed (o : APPLE_AGX_BACKEND_OBSERVATION).

Section watching.
Context {W : Type}.
Notation St := (W * list signal)%type.

(** A callback that is noted in the log, and one that is not. *)
Definition noted {A} (say : A -> signal) (f : W -> A * W) (S : St) : A * St :=
  let p := f S.1 in (p.1, (p.2, S.2 ++ [say p.1])).
Definition unnoted {A} (f : W -> A * W) (S : St) : A * St :=
  let p := f S.1 in (p.1, (p.2, S.2)).

(** A mapping is one only with addresses and a size. *)
Definition maps (r : bool * (ptr Z * Z * Z)) : bool :=
  let '(ok, (cpu, gpu, bytes)) := r in
  negb (negb ok || is_null cpu || (u64 gpu =? 0) || (u32 bytes =? 0)).

Definition watched (io : APPLE_AGX_BACKEND_IO W) : APPLE_AGX_BACKEND_IO St := {|
  io_Firmware := Stages.watched Firm (io_Firmware io);
  mem_Map := (fun f x => noted (fun r => Mapped (maps r)) (f x)) <$> mem_Map io;
  mem_Unmap := (fun f a n => noted Unmapped (f a n)) <$> mem_Unmap io;
  mem_Resolve := (fun f s x => unnoted (f s x)) <$> mem_Resolve io;
  mem_FlushForDevice := (fun f a n => unnoted (f a n)) <$> mem_FlushForDevice io;
  mem_FlushForCpu := (fun f a n => noted FlushedCpu (f a n)) <$> mem_FlushForCpu io;
  img_AcquirePrepared := (fun f a n x => unnoted (f a n x)) <$> img_AcquirePrepared io;
  img_Relocate := (fun f a n x b c s j => unnoted (f a n x b c s j)) <$> img_Relocate io;
  ctx_Publish := noted Published <$> ctx_Publish io;
  ctx_Unpublish := noted Unpublished <$> ctx_Unpublish io;
  q_Create := noted Created <$> q_Create io;
  q_Destroy := noted Destroyed <$> q_Destroy io;
  q_Run3d := (fun f j x => noted (Ran3d j x) (f j x)) <$> q_Run3d io;
  q_RunTa := (fun f j x => noted (RanTa j x) (f j x)) <$> q_RunTa io;
  q_RunCompute := (fun f j x => noted (RanCompute j x) (f j x)) <$> q_RunCompute io;
  q_Stop := (fun f x => noted (Quieted x) (f x)) <$> q_Stop io;
  q_Reset := (fun f x => noted (Quieted x) (f x)) <$> q_Reset io;
  io_Complete := (fun f x n e s => noted (Completed x s) (f x n e s)) <$> io_Complete io;
  io_Retire := (fun f x n e => noted (Retired x) (f x n e)) <$> io_Retire io;
|}.
End watching.

(** ** The contract *)

(** A job that is with the queues: whether both halves are, what has been observed of it, and
    whether its results were flushed since. *)
Record held_job := {
  w_job : JOB;
  w_fence : Z;
  w_running : bool;
  w_ta : bool;
  w_d3 : bool;
  w_compute : bool;
  w_dropped : bool;
  w_flushed : bool;
}.
#[export] Instance work_eta : Eta held_job := fun w => Build_held_job (w_job w) (w_fence w) (w_running w)
  (w_ta w) (w_d3 w) (w_compute w) (w_dropped w) (w_flushed w).

Record owner := {
  o_arena : bool;
  o_context : bool;
  o_queues : bool;
  o_quiet : bool;
  o_work : option held_job;
}.
#[export] Instance owner_eta : Eta owner := fun o => Build_owner (o_arena o) (o_context o)
  (o_queues o) (o_quiet o) (o_work o).

Definition nothing : owner :=
  {| o_arena := false; o_context := false; o_queues := false; o_quiet := false; o_work := None |}.

Definition handed (job : JOB) (fence : Z) (running : bool) : held_job := {|
  w_job := job; w_fence := fence; w_running := running; w_ta := false; w_d3 := false;
  w_compute := false; w_dropped := false; w_flushed := false |}.

(** The observation shows that this part of the job is done. *)
Definition shows (queue : APPLE_AGX_BACKEND_QUEUE) (job : JOB) (o : APPLE_AGX_BACKEND_OBSERVATION)
    : bool :=
  bool_decide (Status o = AppleAgxBackendObservationComplete) && bool_decide (Queue o = queue) &&
  match queue with
  | AppleAgxBackendQueueTa => reached o (TaEvent job) (TaExpectedDonePointer job) (TaExpectedStamp job)
  | AppleAgxBackendQueue3d => reached o (D3Event job) (D3ExpectedDonePointer job) (D3ExpectedStamp job)
  | AppleAgxBackendQueueCompute =>
      reached o (ComputeEvent job) (ComputeExpectedDonePointer job) (ComputeExpectedStamp job)
  end.

Definition seen (w : held_job) (o : APPLE_AGX_BACKEND_OBSERVATION) : held_job :=
  w <| w_ta := w_ta w || shows AppleAgxBackendQueueTa (w_job w) o |>
    <| w_d3 := w_d3 w || shows AppleAgxBackendQueue3d (w_job w) o |>
    <| w_compute := w_compute w || shows AppleAgxBackendQueueCompute (w_job w) o |>
    <| w_dropped := w_dropped w || bool_decide (Status o = AppleAgxBackendObservationRecovered) |>.

(** All of the job is known to be done. *)
Definition proved (w : held_job) : bool :=
  w_running w &&
  match Kind (w_job w) with
  | AppleAgxBackendJobRender => w_ta w && w_d3 w
  | AppleAgxBackendJobCompute => w_compute w
  end.

(** What may be reported of a job. *)
Definition may_report (s : STATUS) (quiet : bool) (w : held_job) : bool :=
  match s with
  | AppleAgxBackendCompletionSuccess => proved w && w_flushed w
  | AppleAgxBackendCompletionDropped => w_running w && w_dropped w
  | AppleAgxBackendCompletionFaulted | AppleAgxBackendCompletionTimedOut
  | AppleAgxBackendCompletionReset => quiet
  | AppleAgxBackendCompletionCancelled => false
  end.

(** Undoing is always possible once the queues are gone; doing needs the arena. *)
Definition undoes (c : Stages.fw_call) : bool :=
  match c with
  | Stages.Unpublish | Stages.StopEp _ | Stages.HaltAsc | Stages.DestroyUat | Stages.PowerDown => true
  | _ => false
  end.

Definition when (b : bool) (o : owner) : option owner := if b then Some o else None.
Definition idle (o : owner) : bool := is_null (o_work o).
Definition with_work (o : owner) (f : held_job -> option owner) : option owner := w ← o_work o; f w.

Definition next (o : owner) (s : signal) : option owner :=
  match s with
  | Firm c _ =>
      when (negb (o_queues o) && (undoes c || (o_arena o && negb (o_context o)))) o
  | Mapped ok =>
      when (negb (o_arena o) && negb (o_context o) && negb (o_queues o) && idle o)
        (o <| o_arena := ok |>)
  | Unmapped ok =>
      when (o_arena o && negb (o_queues o) && idle o) (o <| o_arena := negb ok |>)
  | Published ok =>
      when (o_arena o && negb (o_context o) && negb (o_queues o)) (o <| o_context := ok |>)
  | Unpublished ok => when (o_context o && negb (o_queues o)) (o <| o_context := negb ok |>)
  | Created ok =>
      when (o_arena o && o_context o && negb (o_queues o) && idle o)
        (o <| o_queues := ok |> <| o_quiet := false |>)
  | Destroyed ok =>
      when (o_queues o && o_quiet o && idle o)
        (o <| o_queues := negb ok |> <| o_quiet := negb ok |>)
  | Ran3d job fence ok =>
      when (o_queues o && negb (o_quiet o) && idle o && negb (fence =? 0) &&
            bool_decide (Kind job = AppleAgxBackendJobRender))
        (if ok then o <| o_work := Some (handed job fence false) |> else o)
  | RanTa job fence ok =>
      with_work o (fun w =>
        when (o_queues o && negb (o_quiet o) && bool_decide (w_job w = job) &&
              (w_fence w =? fence) && negb (w_running w))
          (o <| o_work := Some (w <| w_running := ok |>) |>))
  | RanCompute job fence ok =>
      when (o_queues o && negb (o_quiet o) && idle o && negb (fence =? 0) &&
            bool_decide (Kind job = AppleAgxBackendJobCompute))
        (if ok then o <| o_work := Some (handed job fence true) |> else o)
  | Quieted fence ok =>
      when (o_queues o && negb (o_quiet o) && (fence =? from_option w_fence 0 (o_work o)))
        (o <| o_quiet := ok |>)
  | FlushedCpu ok =>
      with_work o (fun w => when (proved w) (o <| o_work := Some (w <| w_flushed := w_flushed w || ok |>) |>))
  | Completed fence s ok =>
      with_work o (fun w => when ((w_fence w =? fence) && may_report s (o_quiet o) w)
        (if ok then o <| o_work := None |> else o))
  | Retired fence ok =>
      with_work o (fun w => when ((w_fence w =? fence) && o_quiet o)
        (if ok then o <| o_work := None |> else o))
  | Observed x =>
      Some (o <| o_work := (fun w => if w_running w then seen w x else w) <$> o_work o |>)
  end.

Fixpoint replay (o : owner) (l : list signal) : option owner :=
  match l with
  | [] => Some o
  | s :: l => match next o s with Some o => replay o l | None => None end
  end.

Lemma replay_app o l1 l2 :
  replay o (l1 ++ l2) = match replay o l1 with Some o => replay o l2 | None => None end.
Proof. revert o. induction l1 as [|s l1 IH]; intros o; [done|]. cbn. by destruct (next o s). Qed.

(** The log is within the contract, and leaves this owner. *)
Definition owns {W} (o : owner) (S : W * list signal) : Prop := replay nothing S.2 = Some o.

Lemma owns_snoc {W} o o' s (w w' : W) l :
  owns o (w, l) -> next o s = Some o' -> owns o' (w', l ++ [s]).
Proof. unfold owns. cbn. rewrite replay_app. intros -> H. cbn. by rewrite H. Qed.

(** ** What the contract says of a log *)

(** The fences the queues took, and the fences that were ended. *)
Definition takes (s : signal) : list Z :=
  match s with Ran3d _ fence true | RanCompute _ fence true => [fence] | _ => [] end.
Definition settles (s : signal) : list Z :=
  match s with Completed fence _ true | Retired fence true => [fence] | _ => [] end.
Definition taken_fences (l : list signal) : list Z := concat (map takes l).
Definition ended_fences (l : list signal) : list Z := concat (map settles l).

Definition work_fences (o : owner) : list Z :=
  match o_work o with Some w => [w_fence w] | None => [] end.

Lemma replay_snoc o l s o' :
  replay o (l ++ [s]) = Some o' <-> exists o1, replay o l = Some o1 /\ next o1 s = Some o'.
Proof.
  rewrite replay_app. destruct (replay o l) as [o1|]; cbn.
  - destruct (next o1 s) as [o2|] eqn:E; (split; [intros; simplify_eq; eauto|intros (? & [= ->] & ?); congruence]).
  - split; [done|by intros (? & ? & _)].
Qed.

(** What [next] does to the job. *)
Definition next_work (w : option held_job) (s : signal) : option held_job :=
  match s with
  | Ran3d job fence true => Some (handed job fence false)
  | RanTa _ _ ok => (fun w => w <| w_running := ok |>) <$> w
  | RanCompute job fence true => Some (handed job fence true)
  | FlushedCpu ok => (fun w => w <| w_flushed := w_flushed w || ok |>) <$> w
  | Completed _ _ true | Retired _ true => None
  | Observed x => (fun w => if w_running w then seen w x else w) <$> w
  | _ => w
  end.

Lemma when_some b o o' : when b o = Some o' -> b = true /\ o' = o.
Proof. unfold when. destruct b; [by intros [= ->]|done]. Qed.

Lemma with_work_some o f o' : with_work o f = Some o' -> exists w, o_work o = Some w /\ f w = Some o'.
Proof. unfold with_work. destruct (o_work o) as [w|]; [by exists w|done]. Qed.

Lemma next_work_spec o s o' : next o s = Some o' -> o_work o' = next_work (o_work o) s.
Proof.
  destruct s; cbn [next]; intros H;
    try (apply with_work_some in H as (w & Hw & H));
    try (apply when_some in H as [_ ->]; try destruct ok; cbn; by rewrite ?Hw).
  by injection H as <-.
Qed.

(** A job is taken only when there is none, and it is this one that ends. *)
Lemma next_fences o s o' :
  next o s = Some o' -> work_fences o ++ takes s = settles s ++ work_fences o'.
Proof.
  intros H. pose proof (next_work_spec _ _ _ H) as Hw. unfold work_fences. rewrite Hw.
  destruct s; cbn [next] in H; cbn [takes settles next_work app];
    try (apply with_work_some in H as (w & Ew & H); rewrite Ew in *);
    try (apply when_some in H as [Hb _]; rewrite ?andb_true_iff in Hb; unfold idle in Hb);
    rewrite ?app_nil_r; try done; try (destruct ok; try done).
  all: try (by destruct (o_work o); destruct_and?).
  all: try (by destruct Hb as [->%Z.eqb_eq _]).
  - destruct (o_work o) as [w|]; [|done]. cbn. by destruct (w_running w).
Qed.

Lemma replay_fences l o :
  replay nothing l = Some o -> taken_fences l = ended_fences l ++ work_fences o.
Proof.
  revert o. induction l as [|s l IH] using rev_ind; intros o H; [by injection H as <-|].
  apply replay_snoc in H as (o1 & H1 & H). unfold taken_fences, ended_fences in *.
  rewrite !map_app, !concat_app. cbn. rewrite !app_nil_r, (IH _ H1), <- !app_assoc.
  f_equal. by apply next_fences.
Qed.

(** The call that hands a job to its queue. *)
Definition handing (job : JOB) (fence : Z) : signal :=
  match Kind job with
  | AppleAgxBackendJobRender => Ran3d job fence true
  | AppleAgxBackendJobCompute => RanCompute job fence true
  end.

(** That this part of the job is done has been observed. *)
Definition shown (queue : APPLE_AGX_BACKEND_QUEUE) (job : JOB) (l : list signal) : Prop :=
  exists x, Observed x ∈ l /\ shows queue job x = true.

(** The log since a job was handed over shows that all of it is done. *)
Definition evident (job : JOB) (fence : Z) (l : list signal) : Prop :=
  match Kind job with
  | AppleAgxBackendJobRender =>
      RanTa job fence true ∈ l /\ shown AppleAgxBackendQueueTa job l /\
      shown AppleAgxBackendQueue3d job l
  | AppleAgxBackendJobCompute => shown AppleAgxBackendQueueCompute job l
  end.

(** What is known of a job is in the log since it was handed over. *)
Definition facts (w : held_job) (l : list signal) : Prop :=
  (w_running w = true -> Kind (w_job w) = AppleAgxBackendJobRender ->
   RanTa (w_job w) (w_fence w) true ∈ l) /\
  (w_ta w = true -> shown AppleAgxBackendQueueTa (w_job w) l) /\
  (w_d3 w = true -> shown AppleAgxBackendQueue3d (w_job w) l) /\
  (w_compute w = true -> shown AppleAgxBackendQueueCompute (w_job w) l) /\
  (w_dropped w = true -> exists x, Observed x ∈ l /\ Status x = AppleAgxBackendObservationRecovered) /\
  (w_flushed w = true -> exists l1 l2, l = l1 ++ FlushedCpu true :: l2 /\
     evident (w_job w) (w_fence w) l1).

Definition story (w : held_job) (l : list signal) : Prop :=
  exists l1 l2, l = l1 ++ handing (w_job w) (w_fence w) :: l2 /\ ended_fences l2 = [] /\ facts w l2.

Lemma facts_snoc w l s : facts w l -> facts w (l ++ [s]).
Proof.
  intros (H1 & H2 & H3 & H4 & H5 & H6).
  assert (forall x, x ∈ l -> x ∈ l ++ [s]) as Hin by (intros; apply elem_of_app; by left).
  assert (forall q j, shown q j l -> shown q j (l ++ [s])) as Hsh
    by (intros q j (x & ? & ?); exists x; auto).
  split; [auto|]. split; [auto|]. split; [auto|]. split; [auto|].
  split; [intros H; destruct (H5 H) as (x & ? & ?); exists x; auto|].
  intros H. destruct (H6 H) as (l1 & l2 & -> & He). exists l1, (l2 ++ [s]).
  by rewrite <- app_assoc.
Qed.

Lemma story_snoc w l s : story w l -> settles s = [] -> story w (l ++ [s]).
Proof.
  intros (l1 & l2 & -> & He & Hf) Hs. exists l1, (l2 ++ [s]). rewrite <- app_assoc.
  split; [done|]. split; [|by apply facts_snoc].
  unfold ended_fences in *. rewrite map_app, concat_app, He. cbn. by rewrite Hs.
Qed.

(** The same job, with more known of it. *)
Lemma story_more w w' l s :
  story w l -> settles s = [] -> w_job w' = w_job w -> w_fence w' = w_fence w ->
  (forall l2, facts w l2 -> facts w' (l2 ++ [s])) -> story w' (l ++ [s]).
Proof.
  intros (l1 & l2 & -> & He & Hf) Hs Ej Ef H. exists l1, (l2 ++ [s]). rewrite <- app_assoc, Ej, Ef.
  split; [done|]. split; [|by apply H].
  unfold ended_fences in *. rewrite map_app, concat_app, He. cbn. by rewrite Hs.
Qed.

Lemma story_handed job fence running l :
  (running = true -> Kind job = AppleAgxBackendJobCompute) ->
  story (handed job fence running) (l ++ [handing job fence]).
Proof.
  intros H. exists l, []. split; [done|]. split; [done|]. unfold facts. cbn. split_and!; try done.
  intros Hr Hk. rewrite (H Hr) in Hk. done.
Qed.

Lemma facts_evident w l : proved w = true -> facts w l -> evident (w_job w) (w_fence w) l.
Proof.
  unfold proved, evident. rewrite andb_true_iff. intros [Hr H] (H1 & H2 & H3 & H4 & _).
  destruct (Kind (w_job w)) eqn:E; [|auto]. apply andb_true_iff in H as [? ?]. auto.
Qed.

Lemma facts_seen w x l : facts w l -> facts (seen w x) (l ++ [Observed x]).
Proof.
  intros Hf. pose proof (facts_snoc _ _ (Observed x) Hf) as (H1 & H2 & H3 & H4 & H5 & H6).
  assert (Observed x ∈ l ++ [Observed x]) as Hin by (apply elem_of_app; right; by constructor).
  assert (forall q, shows q (w_job w) x = true -> shown q (w_job w) (l ++ [Observed x])) as Hs
    by (intros q Hq; by exists x).
  unfold facts. cbn. split; [done|].
  split; [intros [?|?]%orb_true_iff; auto|]. split; [intros [?|?]%orb_true_iff; auto|].
  split; [intros [?|?]%orb_true_iff; auto|].
  split; [intros [?|?%bool_decide_eq_true]%orb_true_iff; eauto|done].
Qed.

Lemma replay_story l o w : replay nothing l = Some o -> o_work o = Some w -> story w l.
Proof.
  revert o w. induction l as [|s l IH] using rev_ind; intros o w H Hw; [injection H as <-; done|].
  apply replay_snoc in H as (o1 & H1 & H). specialize (IH o1).
  pose proof (next_work_spec _ _ _ H) as E. rewrite Hw in E.
  assert (settles s = [] -> o_work o1 = Some w -> story w (l ++ [s])) as Hsame
    by (intros; apply story_snoc; auto).
  destruct s; cbn [next next_work] in *; try (by apply Hsame).
  - destruct ok; [|by apply Hsame]. injection E as ->. apply when_some in H as [Hb _].
    rewrite !andb_true_iff, bool_decide_eq_true in Hb. destruct Hb as [_ Hk].
    assert (Ran3d job fence true = handing job fence) as -> by (unfold handing; by rewrite Hk).
    by apply story_handed.
  - apply with_work_some in H as (w1 & Hw1 & H). rewrite Hw1 in E. injection E as ->.
    apply when_some in H as [Hb _]. rewrite !andb_true_iff, bool_decide_eq_true in Hb.
    destruct Hb as [[[_ <-] <-%Z.eqb_eq] _]. apply (story_more w1); [by apply IH|done..|].
    intros l2 Hf. pose proof (facts_snoc _ _ (RanTa (w_job w1) (w_fence w1) ok) Hf) as (_ & H2).
    split; [|exact H2]. intros Hr _. cbn in Hr. subst ok. apply elem_of_app. right. by constructor.
  - destruct ok; [|by apply Hsame]. injection E as ->. apply when_some in H as [Hb _].
    rewrite !andb_true_iff, bool_decide_eq_true in Hb. destruct Hb as [_ Hk].
    assert (RanCompute job fence true = handing job fence) as -> by (unfold handing; by rewrite Hk).
    by apply story_handed.
  - apply with_work_some in H as (w1 & Hw1 & H). rewrite Hw1 in E. injection E as ->.
    apply when_some in H as [Hb _]. apply (story_more w1); [by apply IH|done..|].
    intros l2 Hf. pose proof (facts_snoc _ _ (FlushedCpu ok) Hf) as (H2 & H3 & H4 & H5 & H6 & H7).
    split_and!; try done. cbn. intros [Hr|Hr]%orb_true_iff; [auto|]. subst ok.
    exists l2, []. split; [done|]. by apply facts_evident.
  - destruct ok; [done|]. apply Hsame; [done|congruence].
  - destruct ok; [done|]. apply Hsame; [done|congruence].
  - destruct (o_work o1) as [w1|] eqn:Hw1; [|done]. cbn in E. injection E as ->.
    destruct (w_running w1); [|by apply Hsame].
    apply (story_more w1); [by apply IH|done..|]. intros l2. apply facts_seen.
Qed.

(** A success that is reported is that of a job handed over under this fence and not ended
    since; all of it was then observed to be done, and flushed for the CPU after that. *)
Lemma replay_success l fence ok l' o :
  replay nothing (l ++ Completed fence AppleAgxBackendCompletionSuccess ok :: l') = Some o ->
  exists job l1 l2 l3,
    l = l1 ++ handing job fence :: l2 ++ FlushedCpu true :: l3 /\
    ended_fences (l2 ++ FlushedCpu true :: l3) = [] /\ evident job fence l2.
Proof.
  rewrite replay_app. destruct (replay nothing l) as [o1|] eqn:E; [|done]. cbn [replay].
  destruct (next o1 _) as [o2|] eqn:H; [|done]. intros _. cbn [next] in H.
  apply with_work_some in H as (w & Hw & H). apply when_some in H as [Hb _].
  apply andb_true_iff in Hb as [<-%Z.eqb_eq Hb]. cbn in Hb. apply andb_true_iff in Hb as [_ Hfl].
  destruct (replay_story _ _ _ E Hw) as (l1 & l2 & -> & He & Hf).
  destruct Hf as (_ & _ & _ & _ & _ & Hf). destruct (Hf Hfl) as (l3 & l4 & -> & Hev).
  by exists (w_job w), l1, l3, l4.
Qed.
End Watch.
