(* ===== verification/BackendTie.v ===== *)
(** * The runtime and its owner (shared/src/apple_agx_backend_runtime.c)

    [Tie.sim] ties the flags of BackendRuntime.v's runtime to the abstract owner of
    BackendWatch.v.  Here are the callbacks, the firmware, the parts of the teardown, Start and
    the end of a fence; the other operations and the theorems are in BackendLife.v. *)

From S2P Require Import Prelude Interact Submission Firmware FirmwareStages BackendRuntime.
From S2P Require Import BackendWatch.
Import Interact.

Module Tie.
Import Backend Watch.

Section life.
Context {W : Type}.
Notation St := (W * list signal)%type.
Notation RT := (APPLE_AGX_BACKEND_RUNTIME St).
Notation RESULT := APPLE_AGX_BACKEND_RUNTIME_RESULT.
Implicit Types (S : St) (rt : RT) (o : owner) (io : APPLE_AGX_BACKEND_IO W).

(** ** The callbacks *)

Definition notes {A} (m : M St A) (say : A -> signal) : Prop :=
  forall S, wp m (fun a S' => S'.2 = S.2 ++ [say a]) S.
Definition silent {A} (m : M St A) : Prop := forall S, wp m (fun _ S' => S'.2 = S.2) S.

Lemma notes_owns {A} (m : M St A) say o (g : A -> owner) S :
  notes m say -> owns o S -> (forall a, next o (say a) = Some (g a)) ->
  wp m (fun a S' => owns (g a) S') S.
Proof.
  intros Hm Ho Hn. eapply wp_mono; [apply Hm|]. intros a [w' l'] H. cbn in H. subst l'.
  destruct S as [w l]. by eapply owns_snoc.
Qed.

Lemma silent_owns {A} (m : M St A) o S :
  silent m -> owns o S -> wp m (fun _ S' => owns o S') S.
Proof.
  intros Hm Ho. eapply wp_mono; [apply Hm|]. intros a S' H. unfold owns. by rewrite H.
Qed.

Lemma notes_ask {A} say (f : W -> A * W) : notes (ask (Some (noted say f))) say.
Proof. intros S. apply wp_call. by intros a S' [= <- <-]. Qed.

Lemma silent_ask {A} (f : W -> A * W) : silent (ask (Some (unnoted f))).
Proof. intros S. apply wp_call. by intros a S' [= <- <-]. Qed.

Section callbacks.
Context (io : APPLE_AGX_BACKEND_IO W) (Hio : AppleAgxBackendIoValid (Some io) = true).
Notation Wio := (watched io).

Ltac callback there lem := revert Hio; unfold AppleAgxBackendIoValid;
  rewrite !andb_true_iff, !negb_true_iff; intros H; destruct_and?; simpl;
  destruct there; [|done]; apply lem.

Lemma notes_map x :
  notes (ask ((fun f => f x) <$> mem_Map Wio)) (fun r => Mapped (maps r)).
Proof. callback (mem_Map io) @notes_ask. Qed.
Lemma notes_unmap a n : notes (ask ((fun f => f a n) <$> mem_Unmap Wio)) Unmapped.
Proof. callback (mem_Unmap io) @notes_ask. Qed.
Lemma silent_resolve s x : silent (ask ((fun f => f s x) <$> mem_Resolve Wio)).
Proof. callback (mem_Resolve io) @silent_ask. Qed.
Lemma silent_flush a n : silent (ask ((fun f => f a n) <$> mem_FlushForDevice Wio)).
Proof. callback (mem_FlushForDevice io) @silent_ask. Qed.
Lemma notes_flush a n : notes (ask ((fun f => f a n) <$> mem_FlushForCpu Wio)) FlushedCpu.
Proof. callback (mem_FlushForCpu io) @notes_ask. Qed.
Lemma silent_acquire a n x : silent (ask ((fun f => f a n x) <$> img_AcquirePrepared Wio)).
Proof. callback (img_AcquirePrepared io) @silent_ask. Qed.
Lemma silent_relocate a n x b c s j :
  silent (ask ((fun f => f a n x b c s j) <$> img_Relocate Wio)).
Proof. callback (img_Relocate io) @silent_ask. Qed.
Lemma notes_publish : notes (ask (ctx_Publish Wio)) Published.
Proof. callback (ctx_Publish io) @notes_ask. Qed.
Lemma notes_unpublish : notes (ask (ctx_Unpublish Wio)) Unpublished.
Proof. callback (ctx_Unpublish io) @notes_ask. Qed.
Lemma notes_create : notes (ask (q_Create Wio)) Created.
Proof. callback (q_Create io) @notes_ask. Qed.
Lemma notes_destroy : notes (ask (q_Destroy Wio)) Destroyed.
Proof. callback (q_Destroy io) @notes_ask. Qed.
Lemma notes_run3d rt x : notes (run_job (q_Run3d Wio) rt x) (Ran3d (PendingJob rt) x).
Proof. callback (q_Run3d io) @notes_ask. Qed.
Lemma notes_run_ta rt x : notes (run_job (q_RunTa Wio) rt x) (RanTa (PendingJob rt) x).
Proof. callback (q_RunTa io) @notes_ask. Qed.
Lemma notes_run_compute rt x :
  is_null (q_RunCompute Wio) = false ->
  notes (run_job (q_RunCompute Wio) rt x) (RanCompute (PendingJob rt) x).
Proof. simpl. destruct (q_RunCompute io); [|done]. intros _. apply @notes_ask. Qed.
Lemma notes_stop x : notes (at_fence (q_Stop Wio) x) (Quieted x).
Proof. callback (q_Stop io) @notes_ask. Qed.
Lemma notes_reset x : notes (at_fence (q_Reset Wio) x) (Quieted x).
Proof. callback (q_Reset io) @notes_ask. Qed.
Lemma notes_complete x n e s :
  notes (ask ((fun f => f x n e s) <$> io_Complete Wio)) (Completed x s).
Proof. callback (io_Complete io) @notes_ask. Qed.
Lemma notes_retire x n e : notes (ask ((fun f => f x n e) <$> io_Retire Wio)) (Retired x).
Proof. callback (io_Retire io) @notes_ask. Qed.

(** *** The firmware *)

Definition firm_only (l : list signal) : Prop := Forall (fun s => exists c ok, s = Firm c ok) l.
Definition undo_only (l : list signal) : Prop :=
  Forall (fun s => exists c ok, s = Firm c ok /\ undoes c = true) l.

Lemma firm_owns o l S S' :
  firm_only l -> o_queues o = false -> o_arena o = true -> o_context o = false ->
  owns o S -> S'.2 = S.2 ++ l -> owns o S'.
Proof.
  intros Hl Hq Ha Hc. unfold owns. intros Ho ->. rewrite replay_app, Ho.
  induction Hl as [|s l (c & ok & ->) Hl IH]; [done|]. cbn [replay next].
  by rewrite Hq, Ha, Hc, orb_true_r.
Qed.

Lemma undo_owns o l S S' :
  undo_only l -> o_queues o = false -> owns o S -> S'.2 = S.2 ++ l -> owns o S'.
Proof.
  intros Hl Hq. unfold owns. intros Ho ->. rewrite replay_app, Ho.
  induction Hl as [|s l (c & ok & -> & Hc) Hl IH]; [done|]. cbn [replay next]. by rewrite Hq, Hc.
Qed.

Lemma rolls_undo_only cs h l h' :
  Forall (fun c => undoes c.2 = true) cs -> Stages.rolls Firm cs h l h' -> undo_only l.
Proof.
  intros Hcs H. induction H as [|? ? ? ? ? ? _ _ IH|? ? ? ? ? ? _ _ IH|? ? ? ? ? ? ? _ Ht _ IH];
    try apply Forall_cons in Hcs as [Hc Hcs]; [constructor|exact (IH Hcs)|..].
  - constructor; [by eauto|exact (IH Hcs)].
  - apply Forall_app. split; [|exact (IH Hcs)]. destruct Ht as [->|[ok ->]]; [constructor|].
    repeat constructor. eauto.
Qed.

Lemma undo_calls_only h l h' : Stages.rolls Firm Stages.undo_calls h l h' -> undo_only l.
Proof. apply rolls_undo_only. by repeat constructor. Qed.

Lemma undo_firm l : undo_only l -> firm_only l.
Proof. intros H. eapply Forall_impl; [exact H|]. intros s (c & ok & -> & _). eauto. Qed.

Lemma watched_same (fio : Fw.APPLE_AGX_FIRMWARE_IO W) :
  Fw.AppleAgxFirmwareIoValid (Some (Stages.watched Firm fio)) = Fw.AppleAgxFirmwareIoValid (Some fio).
Proof.
  unfold Fw.AppleAgxFirmwareIoValid, Stages.watched. simpl. by rewrite !Stages.is_null_map.
Qed.

Lemma rollback_firmware rt S :
  Io rt = Wio -> Stages.well_formed (Firmware rt) ->
  wp (with_firmware Fw.AppleAgxFirmwareRollback rt) (fun p S' => exists l fw,
    S'.2 = S.2 ++ l /\ undo_only l /\ p.2 = rt <| Firmware := fw |> /\ Stages.well_formed fw /\
    (Stages.held (Firmware rt) = 0 -> Stages.held fw = 0) /\
    if p.1 then Stages.held fw = 0
    else Stages.held (Firmware rt) = 0 \/ Stages.held fw <> 0) S.
Proof.
  intros Eio Hw. unfold with_firmware, Fw.AppleAgxFirmwareRollback. rewrite Eio.
  apply wp_bind. change (io_Firmware Wio) with (Stages.watched Firm (io_Firmware io)).
  destruct (Fw.AppleAgxFirmwareIoValid (Some (io_Firmware io))) eqn:E.
  - eapply wp_seq; [by apply Stages.rollback_spec|].
    intros [x fw] S1 (l & Hl & Hr & Hw' & Ex & _ & _). apply wp_ret, wp_ret. exists l, fw.
    cbn [fst snd default from_option] in *. split; [done|]. split; [by eapply undo_calls_only|].
    split; [done|]. split; [done|]. split.
    + intros Hz. unfold Stages.held in Hz. apply Z.lor_eq_0_iff in Hz as [H1 H2].
      unfold Stages.to_undo in Hr. rewrite H1, H2 in Hr. apply Z.bits_inj_0. intros k.
      destruct (Z.testbit (Stages.held fw) k) eqn:Hk; [|done].
      pose proof (Stages.rolls_less Firm _ _ _ _ _ Hr Hk) as Hk'. cbn in Hk'.
      by rewrite Z.bits_0 in Hk'.
    + destruct (Z.eqb_spec (Stages.held fw) 0) as [Eh|Eh]; subst x; cbn; [done|by right].
  - unfold Fw.rollback. rewrite watched_same, E. cbn [negb].
    apply wp_bind, wp_ret, wp_ret, wp_ret. exists [], (Fw.failed (Firmware rt) Fw.AppleAgxFirmwareResultInvalid).
    cbn. rewrite app_nil_r. split; [done|]. split; [constructor|]. split; [done|]. split; [exact Hw|].
    split; [done|]. change (Stages.held (Fw.failed (Firmware rt) Fw.AppleAgxFirmwareResultInvalid))
      with (Stages.held (Firmware rt)). destruct (Z.eq_dec (Stages.held (Firmware rt)) 0); auto.
Qed.

Lemma start_firmware rt S :
  Io rt = Wio -> Stages.startable (Firmware rt) = true ->
  wp (with_firmware Fw.AppleAgxFirmwareStart rt) (fun p S' => exists l fw,
    S'.2 = S.2 ++ l /\ firm_only l /\ p.2 = rt <| Firmware := fw |> /\ Stages.well_formed fw /\
    (p.1 = true -> Fw.CompletedMask fw = Fw.APPLE_AGX_FIRMWARE_ALL_COMPLETED)) S.
Proof.
  intros Eio Hs. unfold with_firmware, Fw.AppleAgxFirmwareStart. rewrite Eio.
  apply wp_bind. change (io_Firmware Wio) with (Stages.watched Firm (io_Firmware io)).
  destruct (Fw.AppleAgxFirmwareIoValid (Some (io_Firmware io))) eqn:E.
  - eapply wp_seq; [by apply Stages.firmware_start_spec|]. rewrite Hs. intros [x fw] S1 Hc.
    apply wp_ret, wp_ret. cbn [fst snd default from_option].
    destruct Hc as [(Hl & Ex & Hm & Hu & _)|(a & n & k & c & fw' & l1 & l2 & _ & Hl & Ht & _ & _ & Hf)].
    + exists (Stages.went_up Firm (Fw.InitdataAddress fw) 9), fw. split; [done|].
      split; [by repeat (apply Forall_cons_2; [by eauto|])|]. split; [done|].
      cbn [fst snd] in *. split; [|done]. unfold Stages.well_formed. by rewrite Hm, Hu.
    + exists (Stages.went_up Firm a n ++ l1 ++ l2), fw. split; [done|].
      destruct Hf as (Hr & Hw & Hne & _ & _). cbn [fst snd] in *. split.
      { apply Forall_app. split.
        { apply Forall_forall. intros s Hin. unfold Stages.went_up in Hin.
          apply list_elem_of_fmap in Hin as (y & -> & _). eauto. }
        apply Forall_app. split; [|by eapply undo_firm, undo_calls_only].
        destruct Ht as [->|[ok ->]]; [constructor|]. repeat constructor. eauto. }
      split; [done|]. split; [done|]. by destruct x.
  - unfold Fw.start, Fw.AppleAgxFirmwareValidateStart. rewrite watched_same, E. cbn [negb].
    apply wp_bind, wp_bind, wp_bind. eapply wp_mono; [apply Stages.record_spec|].
    intros [] S1 H1. apply wp_ret. cbn [negb bool_decide]. apply wp_ret, wp_ret, wp_ret.
    exists [], (Fw.failed (Firmware rt) Fw.AppleAgxFirmwareResultInvalid).
    split; [exact H1|]. split; [constructor|]. split; [done|]. split; [|done].
    unfold Stages.startable in Hs. rewrite !andb_true_iff, !Z.eqb_eq in Hs.
    destruct Hs as [[_ H2] H3]. unfold Stages.well_formed. cbn. by rewrite H2, H3.
Qed.
End callbacks.

(** ** The tie *)

(** What is known of a job, by the runtime and by its owner. *)
Definition progress rt (quiet : bool) (w : held_job) : Prop :=
  (Phase rt = AppleAgxBackendRuntimeSubmitted -> w_running w = true) /\
  if TerminalPending rt
  then match TerminalStatus rt with
    | AppleAgxBackendCompletionSuccess =>
        proved w = true /\ (TerminalCpuFlushed rt = true -> w_flushed w = true) /\ quiet = false /\
        TerminalNextPhase rt = AppleAgxBackendRuntimeReady /\
        TerminalResult rt = AppleAgxBackendRuntimeResultOk
    | AppleAgxBackendCompletionDropped =>
        w_running w && w_dropped w = true /\ quiet = false /\
        TerminalNextPhase rt = AppleAgxBackendRuntimeReady /\
        TerminalResult rt = AppleAgxBackendRuntimeResultOk
    | AppleAgxBackendCompletionCancelled =>
        quiet = true /\ TerminalNextPhase rt = AppleAgxBackendRuntimeStopping /\
        TerminalResult rt = AppleAgxBackendRuntimeResultOk
    | _ =>
        quiet = true /\ TerminalNextPhase rt = AppleAgxBackendRuntimeFailed /\
        TerminalResult rt = AppleAgxBackendRuntimeResultFaulted
    end
  else Phase rt = AppleAgxBackendRuntimeSubmitted ->
    quiet = false /\ ComputeComplete rt = false /\
    (TaComplete rt = true -> w_ta w = true) /\ (D3Complete rt = true -> w_d3 w = true).

Record core rt o : Prop := {
  core_arena : o_arena o = ArenaMapped rt;
  core_context : o_context o = ContextPublished rt;
  core_queues : o_queues o = QueuesCreated rt;
  core_quiet : o_quiet o = QueuesQuiesced rt;
  core_work : match o_work o with
    | None => pending_fence rt = 0 /\ TerminalPending rt = false
    | Some w => w_fence w = pending_fence rt /\ pending_fence rt <> 0 /\ w_job w = PendingJob rt /\
        QueuesCreated rt = true /\ progress rt (QueuesQuiesced rt) w
    end;
  core_up : QueuesCreated rt = true -> ContextPublished rt = true /\ ArenaMapped rt = true /\
    Fw.CompletedMask (Firmware rt) = Fw.APPLE_AGX_FIRMWARE_ALL_COMPLETED;
  core_quiesced : QueuesCreated rt = false -> QueuesQuiesced rt = false;
  core_firmware : Stages.well_formed (Firmware rt);
}.

(** The callbacks it has are there, and are watched. *)
Definition live rt : Prop := exists io, Io rt = watched io /\ AppleAgxBackendIoValid (Some io) = true.

Definition phase_fits rt o : Prop :=
  match Phase rt with
  | AppleAgxBackendRuntimeStopped =>
      ArenaMapped rt = false /\ ContextPublished rt = false /\ QueuesCreated rt = false /\
      o_work o = None /\ Fw.CompletedMask (Firmware rt) = 0
  | AppleAgxBackendRuntimeStarting => False
  | AppleAgxBackendRuntimeReady =>
      live rt /\ QueuesCreated rt = true /\ QueuesQuiesced rt = false /\ o_work o = None
  | AppleAgxBackendRuntimeSubmitted => live rt /\ QueuesCreated rt = true /\ is_Some (o_work o)
  | AppleAgxBackendRuntimeStopping | AppleAgxBackendRuntimeFailed => live rt
  end.

Definition sim rt o : Prop := core rt o /\ phase_fits rt o.

(** What a reader of the tie gets. *)
Lemma sim_live rt o : sim rt o -> Phase rt <> AppleAgxBackendRuntimeStopped -> live rt.
Proof. intros [_ H]. unfold phase_fits in H. destruct (Phase rt); tauto. Qed.

Lemma work_live rt o : sim rt o -> is_Some (o_work o) -> live rt.
Proof.
  intros Hs [w Hw]. apply (sim_live _ _ Hs). intros Hp. destruct Hs as [_ H].
  unfold phase_fits in H. rewrite Hp in H. destruct H as (_ & _ & _ & H & _). congruence.
Qed.

(** An observation only adds to what is known. *)
Definition observed o (x : APPLE_AGX_BACKEND_OBSERVATION) : owner :=
  o <| o_work := (fun w => if w_running w then seen w x else w) <$> o_work o |>.

Lemma seen_proved w x : proved w = true -> proved (seen w x) = true.
Proof.
  unfold proved. cbn. rewrite !andb_true_iff. intros [-> H]. split; [done|].
  destruct (Kind (w_job w)); [|by rewrite H]. apply andb_true_iff in H as [-> ->]. done.
Qed.

Lemma progress_seen rt q w x : progress rt q w -> progress rt q (if w_running w then seen w x else w).
Proof.
  destruct (w_running w) eqn:E; [|done]. intros [H1 H2]. split; [done|].
  destruct (TerminalPending rt).
  - destruct (TerminalStatus rt); try done.
    + destruct H2 as (H2 & H3 & H4). split; [by apply seen_proved|done].
    + destruct H2 as (H2 & H3). split; [|done]. cbn. rewrite andb_true_iff in H2.
      destruct H2 as [-> ->]. done.
  - intros Hp. destruct (H2 Hp) as (? & ? & Ht & Hd). split_and!; try done.
    + intros Hx. cbn. by rewrite Ht.
    + intros Hx. cbn. by rewrite Hd.
Qed.

Lemma sim_observed rt o x : sim rt o -> sim rt (observed o x).
Proof.
  intros [[? ? ? ? Hw ? ? ?] Hp]. split; [constructor; try done|].
  - cbn. destruct (o_work o) as [w|]; [|done]. cbn.
    destruct Hw as (H1 & H2 & H3 & H4 & H5). split_and!; [by case_match|done|by case_match|done|].
    by apply progress_seen.
  - unfold phase_fits in *. destruct (Phase rt); try done.
    + destruct Hp as (? & ? & ? & Hn & ?). cbn. by rewrite Hn.
    + destruct Hp as (? & ? & ? & Hn). cbn. by rewrite Hn.
    + destruct Hp as (? & ? & [w Hn]). cbn. rewrite Hn. by eauto.
Qed.

(** ** Taking down *)

(** A part is gone, or was not there, or stays. *)
Lemma backend_release_spec there (m : M St bool) gone rt say o o' S :
  notes m say -> owns o S ->
  (there = true -> forall ok, next o (say ok) = Some (if ok then o' else o)) ->
  wp (release there m gone rt) (fun p S' =>
    (p = (false, rt) /\ there = false /\ owns o S') \/
    (p = (true, rt) /\ there = true /\ owns o S') \/
    (p = (false, gone rt) /\ there = true /\ owns o' S')) S.
Proof.
  intros Hm Ho Hn. unfold release. destruct there; cbn [negb]; [|apply wp_ret; by left].
  eapply wp_seq; [eapply notes_owns; [exact Hm|exact Ho|by apply Hn]|].
  intros [] S' H; apply wp_ret; auto.
Qed.

Lemma owner_self o b : b = o_arena o -> o <| o_arena := b |> = o.
Proof. intros ->. by destruct o. Qed.

Section down.
Context (io : APPLE_AGX_BACKEND_IO W) (Hio : AppleAgxBackendIoValid (Some io) = true).

Ltac core_tac Hc Hw := destruct Hc as [? ? ? ? Hcw ? ? ?]; constructor; try done; cbn in *;
  first [by rewrite Hw in *|congruence].

Lemma backend_destroy_spec rt o S :
  Io rt = watched io -> core rt o -> owns o S -> o_work o = None ->
  (QueuesCreated rt = true -> QueuesQuiesced rt = true) ->
  wp (destroy_queues rt) (fun p S' =>
    (p = (true, rt) /\ QueuesCreated rt = true /\ owns o S') \/
    exists o', p.1 = false /\ owns o' S' /\ core p.2 o' /\ o_work o' = None /\
      (p.2 = queues_gone rt \/ p.2 = rt) /\ QueuesCreated p.2 = false) S.
Proof.
  intros Eio Hc Ho Hw Hq. unfold destroy_queues. rewrite Eio.
  eapply wp_mono; [eapply (backend_release_spec _ _ _ _ Destroyed o (o <| o_queues := false |> <| o_quiet := false |>));
    [by apply notes_destroy|exact Ho|]|].
  - intros E ok. destruct Hc. cbn. unfold idle. rewrite Hw, core_queues0, core_quiet0, E, Hq by done.
    cbn. f_equal. destruct ok; [done|]. destruct o; cbn in *. specialize (Hq E). congruence.
  - intros p S' [(-> & E & Ho')|[(-> & E & Ho')|(-> & E & Ho')]]; [right|by left|right].
    + exists o. split_and!; auto.
    + eexists. split; [done|]. split; [exact Ho'|]. split; [|by auto].
      core_tac Hc Hw.
Qed.

Lemma unpublish_spec rt o S :
  Io rt = watched io -> core rt o -> owns o S -> o_work o = None -> QueuesCreated rt = false ->
  wp (unpublish_context rt) (fun p S' =>
    (p = (true, rt) /\ ContextPublished rt = true /\ owns o S') \/
    exists o', p.1 = false /\ owns o' S' /\ core p.2 o' /\ o_work o' = None /\
      (p.2 = context_gone rt \/ p.2 = rt) /\ ContextPublished p.2 = false) S.
Proof.
  intros Eio Hc Ho Hw Hq. unfold unpublish_context. rewrite Eio.
  eapply wp_mono; [eapply (backend_release_spec _ _ _ _ Unpublished o (o <| o_context := false |>));
    [by apply notes_unpublish|exact Ho|]|].
  - intros E ok. destruct Hc. cbn. rewrite core_queues0, core_context0, E, Hq. cbn. f_equal.
    destruct ok; [done|]. destruct o; cbn in *. congruence.
  - intros p S' [(-> & E & Ho')|[(-> & E & Ho')|(-> & E & Ho')]]; [right|by left|right].
    + exists o. split_and!; auto.
    + eexists. split; [done|]. split; [exact Ho'|]. split; [|by auto].
      core_tac Hc Hw.
Qed.

Lemma backend_unmap_spec rt o S :
  Io rt = watched io -> core rt o -> owns o S -> o_work o = None -> QueuesCreated rt = false ->
  wp (unmap_arena rt) (fun p S' =>
    (p = (true, rt) /\ ArenaMapped rt = true /\ owns o S') \/
    exists o', p.1 = false /\ owns o' S' /\ core p.2 o' /\ o_work o' = None /\
      (p.2 = arena_gone rt \/ p.2 = rt) /\ ArenaMapped p.2 = false) S.
Proof.
  intros Eio Hc Ho Hw Hq. unfold unmap_arena. rewrite Eio.
  eapply wp_mono; [eapply (backend_release_spec _ _ _ _ Unmapped o (o <| o_arena := false |>));
    [by apply notes_unmap|exact Ho|]|].
  - intros E ok. destruct Hc. cbn. unfold idle. rewrite core_queues0, core_arena0, E, Hq, Hw. cbn. f_equal.
    destruct ok; [done|]. destruct o; cbn in *. congruence.
  - intros p S' [(-> & E & Ho')|[(-> & E & Ho')|(-> & E & Ho')]]; [right|by left|right].
    + exists o. split_and!; auto.
    + eexists. split; [done|]. split; [exact Ho'|]. split; [|by auto].
      core_tac Hc Hw.
Qed.

Lemma core_set_firmware rt o fw :
  core rt o -> QueuesCreated rt = false -> Stages.well_formed fw -> core (rt <| Firmware := fw |>) o.
Proof.
  intros [? ? ? ? Hcw ? ? ?] Hq Hw. constructor; try done. cbn in *. congruence.
Qed.

Lemma core_phase rt o ph : core rt o -> o_work o = None -> core (rt <| Phase := ph |>) o.
Proof. intros Hc Hw. core_tac Hc Hw. Qed.

(** The firmware on its way down, when the queues are gone. *)
Lemma firmware_down rt o S :
  Io rt = watched io -> core rt o -> owns o S -> QueuesCreated rt = false ->
  wp (with_firmware Fw.AppleAgxFirmwareRollback rt) (fun p S' => exists fw,
    owns o S' /\ p.2 = rt <| Firmware := fw |> /\ core p.2 o /\
    (Stages.held (Firmware rt) = 0 -> Stages.held fw = 0) /\
    if p.1 then Stages.held fw = 0 else Stages.held (Firmware rt) = 0 \/ Stages.held fw <> 0) S.
Proof.
  intros Eio Hc Ho Hq.
  eapply wp_mono; [by apply (rollback_firmware io); [|apply Hc]|].
  intros p S' (l & fw & HS & Hl & Ep & Hw & Hz & Hp). exists fw.
  split; [|by rewrite Ep; split_and!; [|apply core_set_firmware|..]].
  eapply undo_owns; [exact Hl| |exact Ho|exact HS]. by rewrite (core_queues _ _ Hc).
Qed.

(** All has been given back; of the firmware only the coprocessor may be noted. *)
Definition all_gone rt : Prop :=
  ArenaMapped rt = false /\ ContextPublished rt = false /\ QueuesCreated rt = false /\
  Fw.CompletedMask (Firmware rt) = 0.

Lemma start_rollback_spec rt o x S :
  Io rt = watched io -> core rt o -> owns o S -> o_work o = None -> QueuesCreated rt = false ->
  wp (AppleAgxBackendStartRollback rt x) (fun p S' => exists o', owns o' S' /\ sim p.2 o' /\
    o_work o' = None /\
    if bool_decide (Phase p.2 = AppleAgxBackendRuntimeStopped) then p.1 = x /\ all_gone p.2
    else p.1 = AppleAgxBackendRuntimeResultCleanupFailed /\
         Phase p.2 = AppleAgxBackendRuntimeFailed) S.
Proof.
  intros Eio Hc Ho Hw Hq. unfold AppleAgxBackendStartRollback.
  assert (live rt) as Hlive by (by exists io).
  eapply wp_seq; [apply (backend_destroy_spec rt o); auto; congruence|].
  intros [b1 rt1] S1 [(E1 & Hq1 & _)|(o1 & Eb1 & Ho1 & Hc1 & Hw1 & Er1 & Hq1)]; [congruence|].
  cbn [fst snd] in *. subst b1.
  assert (Io rt1 = watched io) as Eio1 by (by destruct Er1 as [->| ->]).
  eapply wp_seq; [by apply (unpublish_spec rt1 o1)|]. intros [b2 rt2] S2 H2.
  assert (exists o2, owns o2 S2 /\ core rt2 o2 /\ o_work o2 = None /\ QueuesCreated rt2 = false /\
    Io rt2 = watched io /\ ContextPublished rt2 = b2) as (o2 & Ho2 & Hc2 & Hw2 & Hq2 & Eio2 & Hb2).
  { destruct H2 as [([= -> ->] & E & H)|(o2 & E & Ho2 & Hc2 & Hw2 & Er & Ec)]; [by exists o1|].
    cbn [fst snd] in *. exists o2. split_and!; try done; [..|congruence]; by destruct Er as [->| ->]. }
  eapply (wp_seq _ _ (fun p S3 => owns o2 S3 /\ core p.2 o2 /\ QueuesCreated p.2 = false /\
    Io p.2 = watched io /\ ContextPublished p.2 = b2 /\
    (p.1 = false -> Fw.CompletedMask (Firmware p.2) = 0))).
  { destruct (Z.eqb_spec (Fw.CompletedMask (Firmware rt2)) 0); [by apply wp_ret|].
    eapply wp_seq; [by apply (firmware_down rt2 o2)|].
    intros [ok rt3] S3 (fw & Ho3 & E3 & Hc3 & _ & Hh). cbn [fst snd] in *. subst rt3.
    apply wp_ret. split_and!; try done. intros Eok. destruct ok; [|done]. by apply Stages.held_zero in Hh as [? _]. }
  intros [b3 rt3] S3 (Ho3 & Hc3 & Hq3 & Eio3 & Hb3 & Hm3). cbn [fst snd] in *.
  eapply wp_seq; [by apply (backend_unmap_spec rt3 o2)|]. intros [b4 rt4] S4 H4.
  assert (exists o4, owns o4 S4 /\ core rt4 o4 /\ o_work o4 = None /\ QueuesCreated rt4 = false /\
    Io rt4 = watched io /\ ContextPublished rt4 = b2 /\ ArenaMapped rt4 = b4 /\
    Firmware rt4 = Firmware rt3) as (o4 & Ho4 & Hc4 & Hw4 & Hq4 & Eio4 & Hb4 & Ha4 & Ef4).
  { destruct H4 as [([= -> ->] & E & H)|(o4 & E & Ho4 & Hc4 & Hw4 & Er & Ec)]; [by exists o2|].
    cbn [fst snd] in *. exists o4. split_and!; try done; [..|congruence|]; by destruct Er as [->| ->]. }
  apply wp_ret. exists o4. cbn [fst snd orb]. split; [done|].
  assert (forall ph, core (rt4 <| Phase := ph |>) o4) as Hcp by (intros; by apply core_phase).
  destruct (b2 || b3 || b4) eqn:Eb.
  - cbn. split; [split; [apply Hcp|by exists io]|]. done.
  - rewrite !orb_false_iff in Eb. destruct Eb as [[-> ->] ->]. cbn.
    assert (Fw.CompletedMask (Firmware rt4) = 0) by (rewrite Ef4; auto).
    split; [split; [apply Hcp|by split_and!]|]. by split_and!.
Qed.

(** ** Start *)

(** A runtime without a job, in another state of the fields the tie does not read. *)
Lemma core_moved rt rt' o o' :
  core rt o -> o_work o = None -> o_work o' = None ->
  o_arena o' = ArenaMapped rt' -> o_context o' = ContextPublished rt' ->
  o_queues o' = QueuesCreated rt' -> o_quiet o' = QueuesQuiesced rt' ->
  pending_fence rt' = pending_fence rt -> TerminalPending rt' = TerminalPending rt ->
  Firmware rt' = Firmware rt -> QueuesCreated rt' = false -> QueuesQuiesced rt' = false ->
  core rt' o'.
Proof.
  intros [? ? ? ? Hcw ? ? ?] Hw Hw' ? ? ? ? Hp Ht Hf Hq Hz. constructor; try done.
  - rewrite Hw'. rewrite Hw in Hcw. by rewrite Hp, Ht.
  - congruence.
  - by rewrite Hf.
Qed.

Ltac moved Hc := eapply core_moved; [exact Hc|..]; try done; destruct Hc; cbn in *; congruence.

(** How a start ends: Ready, or as if it had not been, or with something left. *)
Definition started (x : RESULT) rt : Prop :=
  match Phase rt with
  | AppleAgxBackendRuntimeReady => x = AppleAgxBackendRuntimeResultOk
  | AppleAgxBackendRuntimeStopped => x <> AppleAgxBackendRuntimeResultOk /\ all_gone rt
  | AppleAgxBackendRuntimeFailed => x = AppleAgxBackendRuntimeResultCleanupFailed
  | _ => False
  end.

Lemma start_fails rt o x S :
  Io rt = watched io -> core rt o -> owns o S -> o_work o = None -> QueuesCreated rt = false ->
  x <> AppleAgxBackendRuntimeResultOk ->
  wp (AppleAgxBackendStartRollback rt x) (fun p S' => exists o', owns o' S' /\ sim p.2 o' /\
    started p.1 p.2) S.
Proof.
  intros Eio Hc Ho Hw Hq Hx. eapply wp_mono; [by apply (start_rollback_spec rt o)|].
  intros [y rt'] S' (o' & Ho' & Hs & _ & H). exists o'. split; [done|]. split; [done|].
  unfold started. cbn [fst snd] in *. case_bool_decide as Ep.
  - rewrite Ep. destruct H as [-> ?]. by split.
  - destruct H as [-> ->]. done.
Qed.

Lemma backend_start_spec rt o S :
  sim rt o -> owns o S -> Phase rt = AppleAgxBackendRuntimeStopped ->
  wp (start rt (watched io)) (fun p S' => exists o', owns o' S' /\ sim p.2 o' /\
    started p.1 p.2) S.
Proof.
  intros [Hc Hp] Ho Ep. unfold phase_fits in Hp. rewrite Ep in Hp.
  destruct Hp as (Ha & Hx & Hq & Hw & Hm). unfold start.
  pose proof (core_quiesced _ _ Hc Hq) as Hz.
  eapply wp_seq.
  { eapply (notes_owns _ _ o (fun r => o <| o_arena := maps r |>)); [by apply notes_map|exact Ho|].
    intros a. destruct Hc. cbn. unfold idle.
    by rewrite core_arena0, core_context0, core_queues0, Ha, Hx, Hq, Hw. }
  intros [mapped [[cpu gpu] bytes]] S1 Ho1.
  set (rt1 := rt <| Io := _ |> <| Phase := _ |> <| ArenaCpuAddress := _ |> <| ArenaGpuAddress := _ |>
    <| ArenaBytes := _ |>).
  cbn [maps] in Ho1. destruct (negb mapped || _ || _ || _) eqn:Emap; cbn [negb] in Ho1.
  { eapply start_fails; [done| |exact Ho1|done|done|done]. moved Hc. }
  set (rt2 := rt1 <| ArenaMapped := true |>).
  assert (core rt2 (o <| o_arena := true |>)) as Hc2 by moved Hc.
  eapply wp_seq; [apply silent_owns; [by apply (silent_acquire io)|exact Ho1]|].
  intros [acquired roots] S2 Ho2. cbv zeta.
  set (rt3 := rt2 <| Roots := roots |>).
  assert (core rt3 (o <| o_arena := true |>)) as Hc3 by moved Hc.
  destruct (negb acquired || _); [by eapply start_fails|].
  eapply wp_seq; [apply silent_owns; [by apply (silent_flush io)|exact Ho2]|].
  intros flushed S3 Ho3. destruct flushed; cbn [negb]; [|by eapply start_fails].
  set (rt4 := rt3 <| Firmware := _ |>).
  eapply wp_seq; [apply (start_firmware io rt4); done|].
  intros [ok rt5] S4 (l & fw & HS & Hl & E5 & Hwf & Hup). cbn [fst snd] in *. subst rt5.
  assert (owns (o <| o_arena := true |>) S4) as Ho4.
  { eapply firm_owns; [exact Hl|..|exact Ho3|exact HS]; cbn; destruct Hc; congruence. }
  set (rt5 := rt4 <| Firmware := fw |>).
  assert (core rt5 (o <| o_arena := true |>)) as Hc5
    by exact (core_set_firmware rt3 _ fw Hc3 Hq Hwf).
  destruct ok; cbn [negb]; [|by eapply start_fails].
  eapply wp_seq.
  { eapply (notes_owns _ _ _ (fun b => o <| o_arena := true |> <| o_context := b |>));
      [by apply notes_publish|exact Ho4|].
    intros b. destruct Hc. cbn. by rewrite core_context0, core_queues0, Hx, Hq. }
  intros published S5 Ho5. destruct published; cbn [negb].
  2: { eapply start_fails; [done| |exact Ho5|done|done|done]. moved Hc5. }
  set (rt6 := rt5 <| ContextPublished := true |>).
  assert (core rt6 (o <| o_arena := true |> <| o_context := true |>)) as Hc6
    by moved Hc5.
  eapply wp_seq.
  { eapply (notes_owns _ _ _ (fun b => o <| o_arena := true |> <| o_context := true |>
      <| o_queues := b |> <| o_quiet := false |>)); [by apply notes_create|exact Ho5|].
    intros b. destruct Hc. cbn. unfold idle. by rewrite core_queues0, Hq, Hw. }
  intros created S6 Ho6. destruct created; cbn [negb].
  2: { eapply start_fails; [done| |exact Ho6|done|done|done]. moved Hc6. }
  apply wp_ret. eexists. split; [exact Ho6|]. split; [|done]. split.
  - destruct Hc6 as [? ? ? ? Hcw ? ? ?]. constructor; try done.
    + by cbn in *; rewrite Hw in *.
    + intros _. split; [done|]. split; [done|]. by apply Hup.
  - cbn. split; [by exists io|done].
Qed.

(** ** The end of a fence *)

Definition cleared rt : RT := (AppleAgxBackendClearPending rt) <| Phase := TerminalNextPhase rt |>.

Lemma core_cleared rt o : core rt o -> core (cleared rt) (o <| o_work := None |>).
Proof. intros [? ? ? ? Hw ? ? ?]. by constructor. Qed.

(** A job with the queues. *)
Definition busy rt o w : Prop :=
  core rt o /\ o_work o = Some w /\ w_fence w = pending_fence rt /\ pending_fence rt <> 0 /\
  QueuesCreated rt = true /\ progress rt (QueuesQuiesced rt) w.

Lemma busy_intro rt o : core rt o -> is_Some (o_work o) -> exists w, busy rt o w.
Proof.
  intros Hc [w Hw]. exists w. pose proof (core_work _ _ Hc) as H. rewrite Hw in H.
  destruct H as (? & ? & _ & ? & ?). by split_and!.
Qed.

Lemma terminal_busy rt o : core rt o -> TerminalPending rt = true -> exists w, busy rt o w.
Proof.
  intros Hc Ht. apply busy_intro; [done|]. pose proof (core_work _ _ Hc) as H.
  destruct (o_work o); [eauto|]. destruct H as [_ H]. congruence.
Qed.

Lemma fits_cleared rt o w :
  Io rt = watched io -> busy rt o w -> TerminalPending rt = true ->
  phase_fits (cleared rt) (o <| o_work := None |>).
Proof.
  intros Eio (_ & _ & _ & _ & Hq & _ & Hp) Ht. rewrite Ht in Hp. assert (live rt) as Hl by (by exists io).
  unfold phase_fits, cleared. cbn.
  destruct (TerminalStatus rt); [destruct Hp as (_ & _ & Hz & -> & _)|
    destruct Hp as (_ & -> & _)..|destruct Hp as (_ & Hz & -> & _)]; done.
Qed.

(** The job with its results flushed, or about to be. *)
Lemma busy_flushed rt o w b :
  busy rt o w -> (b = true -> TerminalPending rt = true ->
    TerminalStatus rt = AppleAgxBackendCompletionSuccess -> w_flushed w = true) ->
  busy (rt <| TerminalCpuFlushed := b |>) o w.
Proof.
  intros (Hc & Hw & Hf & Hn & Hq & Hp) Hb.
  assert (progress (rt <| TerminalCpuFlushed := b |>) (QueuesQuiesced rt) w) as Hp'.
  { destruct Hp as [H1 H2]. split; [done|]. cbn in *. destruct (TerminalPending rt); [|done].
    destruct (TerminalStatus rt); try done. destruct H2 as (? & ? & ?). split_and!; tauto. }
  split; [|done]. destruct Hc as [? ? ? ? Hcw ? ? ?]. constructor; try done.
  rewrite Hw in *. destruct Hcw as (? & ? & ? & ? & _). done.
Qed.

Lemma busy_work rt o w w' :
  busy rt o w -> w_fence w' = w_fence w -> w_job w' = w_job w ->
  progress rt (QueuesQuiesced rt) w' -> busy rt (o <| o_work := Some w' |>) w'.
Proof.
  intros (Hc & Hw & Hf & Hn & Hq & Hp) Ef Ej Hp'.
  destruct Hc as [? ? ? ? Hcw ? ? ?]. rewrite Hw in Hcw. destruct Hcw as (? & ? & ? & ? & ?).
  split; [|by split_and!; [|congruence|..]]. constructor; try done. cbn. split_and!; congruence.
Qed.

(** How an acknowledgement ends. *)
Definition acknowledged rt (x : RESULT) (rt' : RT) o' : Prop :=
  (TerminalPending rt = false /\ x = AppleAgxBackendRuntimeResultInvalidState /\ rt' = rt) \/
  (TerminalPending rt = true /\
   (x = AppleAgxBackendRuntimeResultBusy \/ x = AppleAgxBackendRuntimeResultMemoryFailed) /\
   (exists b, rt' = rt <| TerminalCpuFlushed := b |>) /\ is_Some (o_work o')) \/
  (TerminalPending rt = true /\ x = TerminalResult rt /\ rt' = cleared rt /\ o_work o' = None /\
   phase_fits rt' o').

(** Once the flush is done, if one is needed. *)
Lemma notify_spec rt o w fence n e x ph nx S :
  fence = pending_fence rt -> x = TerminalResult rt -> ph = Phase rt -> nx = TerminalNextPhase rt ->
  Io rt = watched io -> busy rt o w -> TerminalPending rt = true ->
  (TerminalStatus rt = AppleAgxBackendCompletionSuccess -> w_flushed w = true) -> owns o S ->
  wp (notify rt fence n e x ph nx)
    (fun p S' => exists o', owns o' S' /\ core p.2 o' /\ acknowledged rt p.1 p.2 o') S.
Proof.
  intros -> -> -> -> Eio Hb Ht Hflush Ho. pose proof Hb as (Hc & Hw & Hf & _ & _ & _ & Hp). rewrite Ht in Hp.
  assert (forall rt1 S1, rt1 = cleared rt -> owns (o <| o_work := None |>) S1 ->
    exists o', owns o' S1 /\ core rt1 o' /\ acknowledged rt (TerminalResult rt) rt1 o') as Hend.
  { intros rt1 S1 -> Ho1. exists (o <| o_work := None |>). split; [done|].
    split; [by apply core_cleared|]. right. right. split; [done|]. split; [done|]. split; [done|].
    split; [done|]. by apply (fits_cleared rt o w). }
  assert (forall rt1 S1, rt1 = rt -> owns o S1 -> exists o', owns o' S1 /\ core rt1 o' /\
    acknowledged rt AppleAgxBackendRuntimeResultBusy rt1 o') as Hstay.
  { intros rt1 S1 -> Ho1. exists o. split; [done|]. split; [done|]. right. left. split; [done|].
    split; [by left|]. split; [|by rewrite Hw]. exists (TerminalCpuFlushed rt). by destruct rt. }
  unfold notify, finish. rewrite Eio.
  destruct (bool_decide_reflect (TerminalStatus rt = AppleAgxBackendCompletionCancelled)) as [Ec|Ec].
  - rewrite Ec in Hp. destruct Hp as (Hz & _). eapply wp_seq.
    { eapply (notes_owns _ _ _ (fun b : bool => if b then o <| o_work := None |> else o));
        [by apply notes_retire|exact Ho|].
      intros a. cbn. unfold with_work. rewrite Hw. cbn. rewrite Hf, Z.eqb_refl.
      by rewrite (core_quiet _ _ Hc), Hz. }
    intros [] S2 Ho2; cbn [negb]; apply wp_ret; [by apply Hend|by apply Hstay].
  - cbv zeta. eapply wp_seq.
    { eapply (notes_owns _ _ _ (fun b : bool => if b then o <| o_work := None |> else o));
        [by apply notes_complete|exact Ho|].
      intros a. cbn. unfold with_work. rewrite Hw. cbn. rewrite Hf, Z.eqb_refl.
      rewrite (core_quiet _ _ Hc). destruct (TerminalStatus rt); try done; cbn.
      - destruct Hp as [-> _]. by rewrite Hflush.
      - by destruct Hp as [-> _].
      - by destruct Hp as [-> _].
      - by destruct Hp as [-> _].
      - by destruct Hp as [-> _]. }
    intros [] S2 Ho2; cbn [negb]; apply wp_ret; cbn [fst snd];
      [apply Hend; [by destruct rt|done]|apply Hstay; [by destruct rt|done]].
Qed.

Lemma acknowledge_spec rt o S :
  Io rt = watched io -> core rt o -> owns o S ->
  wp (acknowledge rt) (fun p S' => exists o', owns o' S' /\ core p.2 o' /\
    acknowledged rt p.1 p.2 o') S.
Proof.
  intros Eio Hc Ho. unfold acknowledge. destruct (TerminalPending rt) eqn:Ht; cbn [negb orb].
  2: { apply wp_ret. exists o. split_and!; try done. by left. }
  destruct (terminal_busy _ _ Hc Ht) as [w Hb].
  pose proof Hb as (_ & Hw & Hf & Hn & Hq & Hrun & Hp). apply Z.eqb_neq in Hn. rewrite Hn, Eio.
  cbv zeta. rewrite Ht in Hp.
  destruct (bool_decide_reflect (TerminalStatus rt = AppleAgxBackendCompletionSuccess)) as [Es|Es];
    cbn [andb]; [|by apply (notify_spec rt o w)].
  rewrite Es in Hp. destruct Hp as (Hpr & Hfl & Hz & Hnx & Hr).
  destruct (TerminalCpuFlushed rt) eqn:Efl; cbn [negb]; [by apply (notify_spec rt o w); auto|].
  eapply wp_seq.
  { eapply (notes_owns _ _ _ (fun b => o <| o_work := Some (w <| w_flushed := w_flushed w || b |>) |>));
      [by apply notes_flush|exact Ho|].
    intros b. cbn. unfold with_work. rewrite Hw. cbn. by rewrite Hpr. }
  intros flushed S1 Ho1.
  set (w1 := w <| w_flushed := w_flushed w || flushed |>). set (o1 := o <| o_work := Some w1 |>).
  change (owns o1 S1) in Ho1.
  assert (busy rt o1 w1) as Hb1.
  { apply (busy_work rt o w); try done. split; [done|]. rewrite Ht, Es. split_and!; try done.
    intros E. congruence. }
  destruct flushed; cbn [negb].
  2: { apply wp_ret. exists o1. split; [exact Ho1|]. split; [apply Hb1|]. right. left.
       split; [done|]. split; [by right|]. split; [|by eexists].
       exists (TerminalCpuFlushed rt). by destruct rt. }
  assert (w_flushed w1 = true) as Hfl1 by (cbn; by rewrite orb_true_r).
  eapply wp_mono; [apply (notify_spec (rt <| TerminalCpuFlushed := true |>) o1 w1); try done|].
  { by apply busy_flushed. }
  intros [x rt'] S2 (o' & Ho' & Hc' & Ha). exists o'. split; [done|]. split; [done|].
  destruct Ha as [(Ha & _)|[(_ & Hx & [b Hb'] & Hw')|(_ & Hx & Hrt & Hw' & Hfit)]]; cbn [fst snd] in *.
  - change (TerminalPending rt = false) in Ha. congruence.
  - right. left. split; [done|]. split; [done|]. split; [|done]. exists b. subst rt'. by destruct rt.
  - right. right. split; [done|]. split; [done|]. split; [|done]. subst rt'. by destruct rt.
Qed.
End down.
End life.
End Tie.
