(* ===== verification/BackendLife.v ===== *)
(** * The life of the runtime (shared/src/apple_agx_backend_runtime.c)

    Whatever its callers ask and whatever the platform answers, the runtime of BackendRuntime.v
    stays within the contract of BackendWatch.v: every operation keeps the tie of
    BackendTie.v and comes to an end. *)

From S2P Require Import Prelude Interact Submission Firmware FirmwareStages BackendRuntime.
From S2P Require Import BackendWatch BackendTie.
Import Interact.

Module BackendLife.
Import Backend Watch Tie.

Section operations.
Context {W : Type}.
Notation St := (W * list signal)%type.
Notation RT := (APPLE_AGX_BACKEND_RUNTIME St).
Notation RESULT := APPLE_AGX_BACKEND_RUNTIME_RESULT.
Context (io : APPLE_AGX_BACKEND_IO W) (Hio : AppleAgxBackendIoValid (Some io) = true).
Implicit Types (S : St) (rt : RT) (o : owner).

(** The operation ends in a state the tie knows, with this result. *)
Definition ends (Q : RESULT -> RT -> Prop) (p : RESULT * RT) S' : Prop :=
  exists o', owns o' S' /\ sim p.2 o' /\ Q p.1 p.2.

Lemma ends_ret (Q : RESULT -> RT -> Prop) x rt o S :
  owns o S -> sim rt o -> Q x rt -> wp (mret (x, rt)) (ends Q) S.
Proof. intros. apply wp_ret. by exists o. Qed.

(** A job with the queues, of a runtime that is Submitted. *)
Lemma submitted_busy rt o :
  sim rt o -> Phase rt = AppleAgxBackendRuntimeSubmitted ->
  live rt /\ exists w, busy rt o w /\ w_running w = true.
Proof.
  intros [Hc Hp] Ep. unfold phase_fits in Hp. rewrite Ep in Hp. destruct Hp as (Hl & _ & Hw).
  split; [done|]. destruct (busy_intro _ _ Hc Hw) as [w Hb]. exists w. split; [done|].
  destruct Hb as (_ & _ & _ & _ & _ & Hrun & _). by apply Hrun.
Qed.

(** The fields that say what is known of the job. *)
Lemma core_progress rt rt' o w :
  busy rt o w -> progress rt' (QueuesQuiesced rt') w ->
  ArenaMapped rt' = ArenaMapped rt -> ContextPublished rt' = ContextPublished rt ->
  QueuesCreated rt' = QueuesCreated rt -> QueuesQuiesced rt' = QueuesQuiesced rt ->
  pending_fence rt' = pending_fence rt -> PendingJob rt' = PendingJob rt ->
  Firmware rt' = Firmware rt -> core rt' o.
Proof.
  intros (Hc & Hw & Hf & Hn & Hq & _) Hp E1 E2 E3 E4 E5 E6 E7.
  destruct Hc as [? ? ? ? Hcw ? ? ?]. rewrite Hw in Hcw. destruct Hcw as (? & ? & ? & ? & _).
  constructor; rewrite ?E1, ?E2, ?E3, ?E4, ?E7; try done. rewrite Hw, E5, E6, <- E4. done.
Qed.

(** *** Observe *)

(** The owner knows of this observation. *)
Definition informed o (x : APPLE_AGX_BACKEND_OBSERVATION) : Prop :=
  forall w, o_work o = Some w -> w_running w = true ->
    (shows AppleAgxBackendQueueTa (w_job w) x = true -> w_ta w = true) /\
    (shows AppleAgxBackendQueue3d (w_job w) x = true -> w_d3 w = true) /\
    (shows AppleAgxBackendQueueCompute (w_job w) x = true -> w_compute w = true) /\
    (Status x = AppleAgxBackendObservationRecovered -> w_dropped w = true).

Lemma observed_informed o x : informed (observed o x) x.
Proof.
  intros w Hw Hr. cbn in Hw. destruct (o_work o) as [w0|]; [|done]. cbn in Hw.
  injection Hw as <-. destruct (w_running w0) eqn:E; [|congruence]. cbn.
  repeat split; intros ->; cbn; by rewrite ?orb_true_r.
Qed.

(** How an observation ends. *)
Definition noticed rt (x : RESULT) rt' : Prop :=
  pending_fence rt' = pending_fence rt \/
  (pending_fence rt' = 0 /\ (Phase rt' = AppleAgxBackendRuntimeReady)).

(** The flags of what has been seen. *)
Definition flagged rt (ta d3 comp : bool) : RT :=
  rt <| TaComplete := ta |> <| D3Complete := d3 |> <| ComputeComplete := comp |>.

(** A fence that may be ended at once. *)
Lemma terminal_ends rt o w s ta d3 comp rt1 S :
  rt1 = flagged rt ta d3 comp ->
  Io rt = watched io -> busy rt o w -> owns o S -> TerminalPending rt = false ->
  Phase rt = AppleAgxBackendRuntimeSubmitted -> w_running w = true -> QueuesQuiesced rt = false ->
  (s = AppleAgxBackendCompletionSuccess /\ proved w = true) \/
  (s = AppleAgxBackendCompletionDropped /\ w_dropped w = true) ->
  wp (AppleAgxBackendTerminal rt1 s AppleAgxBackendRuntimeReady AppleAgxBackendRuntimeResultOk)
    (ends (noticed rt)) S.
Proof.
  intros E1 Eio Hb Ho Ht Ep Hrun Hz Hs. unfold AppleAgxBackendTerminal.
  assert (TerminalPending rt1 = false) as -> by (by subst rt1). cbn [orb].
  assert (pending_fence rt1 = pending_fence rt) as Ef by (by subst rt1). rewrite Ef.
  pose proof Hb as (Hc & Hw & Hf & Hn & Hq & Hp). apply Z.eqb_neq in Hn as ->.
  assert (AppleAgxBackendCompletionEndsFence s = true) as -> by (by destruct Hs as [[-> _]|[-> _]]).
  cbn [negb]. cbv zeta. set (rt2 := terminal _ _ _ _).
  assert (core rt2 o) as Hc2.
  { subst rt1. apply (core_progress rt rt2 o w); try done. split; [done|]. cbn. rewrite Hz.
    destruct Hs as [[-> H]|[-> H]]; [by split_and!|]. by rewrite Hrun, H. }
  assert (Io rt2 = watched io) as Eio2 by (by subst rt1).
  assert (Phase rt2 = Phase rt) as Ep2 by (by subst rt1).
  assert (pending_fence rt2 = pending_fence rt) as Ef2 by exact Ef.
  eapply wp_mono; [apply (acknowledge_spec io Hio rt2 o S Eio2 Hc2 Ho)|].
  intros [x rt'] S' (o' & Ho' & Hc' & Ha). cbn [fst snd] in *. exists o'. split; [done|].
  destruct Ha as [([=] & _)|[(_ & Hx & [b Hb'] & Hw')|(_ & Hx & Hrt & Hw' & Hfit)]].
  - cbn [fst snd] in *. subst rt'. split; [split; [exact Hc'|]|by left]. unfold phase_fits.
    change (Phase (rt2 <| TerminalCpuFlushed := b |>)) with (Phase rt2). rewrite Ep2, Ep.
    split; [by exists io|]. split; [|done]. change (QueuesCreated rt2 = true). by subst rt1.
  - cbn [fst snd] in *. split; [by split|]. right. by subst rt'.
Qed.

Lemma failure_ends rt o w s stop S :
  Io rt = watched io -> busy rt o w -> owns o S -> TerminalPending rt = false ->
  Phase rt = AppleAgxBackendRuntimeSubmitted -> QueuesQuiesced rt = false -> w_running w = true ->
  notes stop (Quieted (pending_fence rt)) ->
  match s with AppleAgxBackendCompletionFaulted | AppleAgxBackendCompletionTimedOut
    | AppleAgxBackendCompletionReset => True | _ => False end ->
  wp (observe_failure rt stop s) (ends (noticed rt)) S.
Proof.
  intros Eio Hb Ho Ht Ep Hz Hrun Hstop Hs. unfold observe_failure.
  pose proof Hb as (Hc & Hw & Hf & Hn & Hq & Hp). eapply wp_seq.
  { eapply (notes_owns _ _ o (fun b => o <| o_quiet := b |>)); [exact Hstop|exact Ho|].
    intros b. cbn. rewrite Hw. cbn. destruct Hc. rewrite core_queues0, core_quiet0, Hq, Hz, Hf.
    by rewrite Z.eqb_refl. }
  intros stopped S1 Ho1. destruct stopped; cbn [negb].
  - unfold AppleAgxBackendTerminal.
    change (TerminalPending (rt <| QueuesQuiesced := true |>)) with (TerminalPending rt).
    change (pending_fence (rt <| QueuesQuiesced := true |>)) with (pending_fence rt).
    rewrite Ht. pose proof Hn as Hn'. apply Z.eqb_neq in Hn' as ->. cbn [orb].
    assert (AppleAgxBackendCompletionEndsFence s = false) as -> by (by destruct s).
    cbn [negb]. eapply ends_ret; [exact Ho1| |by left].
    split; [|unfold phase_fits; cbn; rewrite Ep, Hw; split; [by exists io|by split]].
    destruct Hc as [? ? ? ? Hcw ? ? ?]. rewrite Hw in Hcw. destruct Hcw as (? & ? & ? & ? & _).
    constructor; try done; [|cbn; congruence]. cbn. rewrite Hw. split_and!; try done.
    split; [done|]. cbn. by destruct s.
  - eapply (ends_ret _ _ _ o); [| |by left].
    + destruct o. cbn in *. destruct Hc. cbn in *. congruence.
    + split; [|by exists io]. apply (core_progress rt _ o w); try done. split; [done|].
      cbn. by rewrite Ht.
Qed.

Lemma flags_busy rt o w ta d3 comp :
  busy rt o w -> TerminalPending rt = false -> QueuesQuiesced rt = false -> comp = false ->
  (ta = true -> w_ta w = true) -> (d3 = true -> w_d3 w = true) ->
  busy (flagged rt ta d3 comp) o w.
Proof.
  intros Hb Ht Hz Hcomp Hta Hd3. pose proof Hb as (Hc & Hw & Hf & Hn & Hq & Hrun & _).
  assert (progress (flagged rt ta d3 comp) (QueuesQuiesced rt) w) as Hp
    by (split; [done|]; cbn; rewrite Ht; done).
  split; [by eapply core_progress|]. done.
Qed.

Lemma observe_complete_spec rt o w x S :
  Io rt = watched io -> busy rt o w -> owns o S -> TerminalPending rt = false ->
  Phase rt = AppleAgxBackendRuntimeSubmitted -> informed o x ->
  Status x = AppleAgxBackendObservationComplete ->
  wp (observe_complete rt x) (ends (noticed rt)) S.
Proof.
  intros Eio Hb Ho Ht Ep Hi Hx. pose proof Hb as (Hc & Hw & Hf & Hn & Hq & Hrun & Hp).
  specialize (Hrun Ep). rewrite Ht in Hp. destruct (Hp Ep) as (Hz & Hcomp & Hta & Hd3).
  destruct (Hi w Hw Hrun) as (Ita & Id3 & Icomp & _).
  assert (w_job w = PendingJob rt) as Ej.
  { pose proof (core_work _ _ Hc) as H. rewrite Hw in H. by destruct H as (_ & _ & ? & _). }
  rewrite Ej in Ita, Id3, Icomp. unfold shows in Ita, Id3, Icomp.
  rewrite (bool_decide_eq_true_2 _ Hx) in Ita, Id3, Icomp. cbn [andb] in Ita, Id3, Icomp.
  assert (forall y, wp (mret (y, rt)) (ends (noticed rt)) S) as Hsame.
  { intros y. eapply ends_ret; [exact Ho| |by left]. split; [done|]. unfold phase_fits. rewrite Ep.
    split; [by exists io|]. by rewrite Hw. }
  assert (forall ta d3 rt1, rt1 = flagged rt ta d3 (ComputeComplete rt) ->
    (ta = true -> w_ta w = true) -> (d3 = true -> w_d3 w = true) ->
    Kind (PendingJob rt) = AppleAgxBackendJobRender ->
    wp (if TaComplete rt1 && D3Complete rt1 then success rt1
        else mret (AppleAgxBackendRuntimeResultOk, rt1)) (ends (noticed rt)) S) as Hboth.
  { intros ta d3 rt1 E Hta' Hd3' Ek.
    assert (TaComplete rt1 && D3Complete rt1 = ta && d3) as -> by (by subst rt1).
    destruct (ta && d3) eqn:Eb.
    - apply andb_true_iff in Eb as [-> ->]. eapply (terminal_ends rt o w); try done.
      left. split; [done|]. unfold proved. by rewrite Hrun, Ej, Ek, Hta', Hd3'.
    - subst rt1. eapply (ends_ret _ _ _ o); [done| |by left].
      split; [by apply (flags_busy rt o w)|]. unfold phase_fits. cbn. rewrite Ep, Hw.
      split; [by exists io|done]. }
  unfold observe_complete. cbv zeta. destruct (Kind (PendingJob rt)) eqn:Ek.
  - destruct (Queue x) eqn:Eq; [| |by apply Hsame].
    + destruct (TaComplete rt || _) eqn:E; [by apply Hsame|].
      apply orb_false_iff in E as [_ E]. apply negb_false_iff in E.
      apply (Hboth true (D3Complete rt)); auto.
    + destruct (D3Complete rt || _) eqn:E; [by apply Hsame|].
      apply orb_false_iff in E as [_ E]. apply negb_false_iff in E.
      apply (Hboth (TaComplete rt) true); auto.
  - destruct (negb (bool_decide (Queue x = AppleAgxBackendQueueCompute)) || _ || _) eqn:E;
      [by apply Hsame|].
    rewrite !orb_false_iff, !negb_false_iff, bool_decide_eq_true in E. destruct E as [[Eq _] E].
    rewrite Eq in Icomp. specialize (Icomp E).
    eapply (terminal_ends rt o w _ (TaComplete rt) (D3Complete rt) true); try done.
    left. split; [done|]. unfold proved. by rewrite Hrun, Ej, Ek, Icomp.
Qed.

(** Without a job nothing is to be ended. *)
Lemma idle_quiet rt o :
  core rt o -> o_work o = None -> TerminalPending rt = true -> False.
Proof.
  intros Hc Hn Ht. pose proof (core_work _ _ Hc) as H. rewrite Hn in H. destruct H as [_ H].
  congruence.
Qed.

(** An acknowledgement keeps the tie. *)
Lemma acknowledge_ends rt o S :
  sim rt o -> (TerminalPending rt = true -> Io rt = watched io) -> owns o S ->
  wp (acknowledge rt) (ends (fun x rt' =>
    (rt' = rt /\ x = AppleAgxBackendRuntimeResultInvalidState) \/ pending_fence rt' = pending_fence rt \/
    (pending_fence rt' = 0 /\ Phase rt' = TerminalNextPhase rt))) S.
Proof.
  intros [Hc Hp] Eio Ho. destruct (TerminalPending rt) eqn:Ht.
  2: { unfold acknowledge. rewrite Ht. cbn [negb orb]. eapply ends_ret; [done|by split|by left]. }
  eapply wp_mono; [by apply (acknowledge_spec io Hio rt o); auto|].
  intros [x rt'] S' (o' & Ho' & Hc' & Ha). cbn [fst snd] in *. exists o'. split; [done|].
  destruct Ha as [(Ha & _)|[(_ & Hx & [b ->] & Hw')|(_ & Hx & -> & Hw' & Hfit)]];
    [congruence| |by split; [split|auto]].
  split; [|by auto]. split; [done|]. cbn [fst snd] in *.
  unfold phase_fits in *. change (Phase (rt <| TerminalCpuFlushed := b |>)) with (Phase rt).
  destruct (Phase rt); try done.
  - destruct Hp as (_ & _ & _ & Hn & _). by destruct (idle_quiet _ _ Hc Hn Ht).
  - destruct Hp as (_ & _ & _ & Hn). by destruct (idle_quiet _ _ Hc Hn Ht).
  - by destruct Hp as (? & ? & _).
Qed.

Lemma backend_observe_spec rt o x S :
  sim rt o -> (Phase rt <> AppleAgxBackendRuntimeStopped -> Io rt = watched io) -> owns o S ->
  informed o x -> wp (observe rt x) (ends (noticed rt)) S.
Proof.
  intros Hs Eio Ho Hi. unfold observe. cbv zeta.
  assert (forall y, wp (mret (y, rt)) (ends (noticed rt)) S) as Hsame
    by (intros y; eapply ends_ret; [done|done|by left]).
  destruct (TerminalPending rt) eqn:Ht; cbn [andb].
  { assert (Io rt = watched io) as E.
    { apply Eio. intros Ep. destruct Hs as [Hc Hp]. unfold phase_fits in Hp. rewrite Ep in Hp.
      destruct Hp as (_ & _ & _ & Hn & _). by destruct (idle_quiet _ _ Hc Hn Ht). }
    destruct (AppleAgxBackendCompletionEndsFence (TerminalStatus rt)) eqn:Ee; cbn [negb];
      [|by apply Hsame].
    eapply wp_mono; [by apply (acknowledge_ends rt o)|].
    intros [y rt'] S' (o' & Ho' & Hs' & Hq). exists o'. split; [done|]. split; [done|].
    cbn [fst snd] in *. destruct Hq as [[-> _]|[H|[Hf Hn]]]; [by left|by left|right].
    split; [done|]. rewrite Hn. destruct Hs as [Hc _].
    destruct (terminal_busy _ _ Hc Ht) as (w & _ & _ & _ & _ & _ & _ & Hp). rewrite Ht in Hp.
    by destruct (TerminalStatus rt); try done; destruct_and?. }
  destruct (bool_decide_reflect (Phase rt = AppleAgxBackendRuntimeSubmitted)) as [Ep|Ep];
    cbn [negb]; [|by apply Hsame].
  destruct (submitted_busy _ _ Hs Ep) as (_ & w & Hb & Hrun).
  assert (Io rt = watched io) as E by (apply Eio; congruence).
  pose proof Hb as (_ & Hw & _ & _ & _ & _ & Hp). rewrite Ht in Hp. destruct (Hp Ep) as (Hz & _).
  rewrite E. destruct (Status x) eqn:Ex.
  - by eapply observe_complete_spec.
  - eapply (failure_ends rt o w); try done. by apply notes_stop.
  - eapply (failure_ends rt o w); try done. by apply notes_stop.
  - eapply (failure_ends rt o w); try done. by apply notes_reset.
  - eapply (terminal_ends rt o w _ true true true); try done. right. split; [done|].
    by apply (Hi w Hw Hrun).
Qed.

(** *** Submit *)

(** How a submission ends. *)
Definition taken (fence : Z) (x : RESULT) rt' : Prop :=
  match Phase rt' with
  | AppleAgxBackendRuntimeSubmitted => x = AppleAgxBackendRuntimeResultOk /\ pending_fence rt' = fence
  | AppleAgxBackendRuntimeReady => x <> AppleAgxBackendRuntimeResultOk /\ pending_fence rt' = 0
  | AppleAgxBackendRuntimeFailed =>
      x = AppleAgxBackendRuntimeResultQueueFailed /\ pending_fence rt' = fence
  | _ => False
  end.

(** A runtime without a job gets one, or changes its fields for one. *)
Definition framed rt rt' : Prop :=
  ArenaMapped rt' = ArenaMapped rt /\ ContextPublished rt' = ContextPublished rt /\
  QueuesCreated rt' = QueuesCreated rt /\ Firmware rt' = Firmware rt /\ Io rt' = Io rt /\
  TerminalPending rt' = false.

Lemma core_admitted rt rt' o ow q :
  core rt o -> framed rt rt' -> QueuesCreated rt = true -> QueuesQuiesced rt' = q ->
  match ow with
  | None => pending_fence rt' = 0
  | Some w => w_fence w = pending_fence rt' /\ pending_fence rt' <> 0 /\ w_job w = PendingJob rt' /\
      progress rt' q w
  end -> core rt' (o <| o_work := ow |> <| o_quiet := q |>).
Proof.
  intros [? ? ? ? Hcw ? ? ?] (E1 & E2 & E3 & E4 & _ & Ht) Hq Ez How.
  constructor; rewrite ?E1, ?E2, ?E3, ?E4; try done; [|cbn; congruence]. cbn.
  destruct ow; [|done]. rewrite Ez. tauto.
Qed.

Lemma owner_idle o ow q : o_work o = ow -> o_quiet o = q -> o <| o_work := ow |> <| o_quiet := q |> = o.
Proof. destruct o. by intros [= ->] [= ->]. Qed.

(** The runtime is Ready and idle, and what follows is about the next job. *)
Definition ready rt o : Prop :=
  core rt o /\ o_work o = None /\ QueuesCreated rt = true /\ QueuesQuiesced rt = false /\
  Io rt = watched io.

(** What is left of a runtime whose job was not accepted. *)
Lemma dropped_frame rt :
  exists rt', not_accepted rt = mret (AppleAgxBackendRuntimeResultQueueFailed, rt') /\
  (ArenaMapped rt' = ArenaMapped rt /\ ContextPublished rt' = ContextPublished rt /\
   QueuesCreated rt' = QueuesCreated rt /\ Firmware rt' = Firmware rt /\ Io rt' = Io rt) /\
  QueuesQuiesced rt' = QueuesQuiesced rt /\ TerminalPending rt' = false /\ pending_fence rt' = 0 /\
  Phase rt' = AppleAgxBackendRuntimeReady.
Proof. eexists. split; [reflexivity|]. destruct rt. by split_and!. Qed.

Lemma ready_not rt rt1 o fence S :
  ready rt o -> framed rt rt1 -> QueuesQuiesced rt1 = false -> owns o S ->
  wp (not_accepted rt1) (ends (taken fence)) S.
Proof.
  intros (Hc & Hw & Hq & Hz & Eio) (E1 & E2 & E3 & E4 & E5 & _) Hz1 Ho.
  destruct (dropped_frame rt1) as (rt2 & -> & (F1 & F2 & F3 & F4 & F5) & F6 & F7 & F8 & F9).
  eapply ends_ret; [exact Ho| |by unfold taken; rewrite F9]. split.
  - rewrite <- (owner_idle o None false); [|done|by rewrite (core_quiet _ _ Hc)].
    apply (core_admitted rt); [done| |done|congruence|done]. split_and!; congruence.
  - unfold phase_fits. rewrite F9. split; [exists io; split; [congruence|done]|].
    split; [congruence|]. by split; [congruence|].
Qed.

Lemma ready_submitted rt rt1 o S :
  ready rt o -> framed rt rt1 -> QueuesQuiesced rt1 = false -> pending_fence rt1 <> 0 ->
  TaComplete rt1 = false -> D3Complete rt1 = false -> ComputeComplete rt1 = false ->
  owns (o <| o_work := Some (handed (PendingJob rt1) (pending_fence rt1) true) |>) S ->
  wp (submitted rt1) (ends (taken (pending_fence rt1))) S.
Proof.
  intros (Hc & Hw & Hq & Hz & Eio) Hf Hz1 Hn Hta Hd3 Hcomp Ho.
  pose proof Hf as (E1 & E2 & E3 & E4 & E5 & Ht).
  assert (o <| o_work := Some (handed (PendingJob rt1) (pending_fence rt1) true) |> =
    o <| o_work := Some (handed (PendingJob rt1) (pending_fence rt1) true) |> <| o_quiet := false |>)
    as E by (symmetry; destruct o; cbn; f_equal; rewrite <- Hz; symmetry; apply (core_quiet _ _ Hc)).
  eapply ends_ret; [exact Ho| |by split]. split.
  - rewrite E. apply (core_admitted rt); try done. split; [done|]. split; [done|]. split; [done|].
    split; [done|]. cbn. rewrite Ht, Hta, Hd3. done.
  - split; [by exists io; rewrite <- Eio|]. split; [exact (eq_trans E3 Hq)|]. by eexists.
Qed.

(** The queue took the first half of the job and not the second. *)
Lemma ready_failed rt rt1 o q job fence S :
  ready rt o -> framed rt rt1 -> QueuesQuiesced rt1 = q -> pending_fence rt1 = fence -> fence <> 0 ->
  PendingJob rt1 = job ->
  owns (o <| o_work := Some (handed job fence false) |> <| o_quiet := q |>) S ->
  wp (mret (AppleAgxBackendRuntimeResultQueueFailed, rt1 <| Phase := AppleAgxBackendRuntimeFailed |>))
    (ends (taken fence)) S.
Proof.
  intros (Hc & Hw & Hq & Hz & Eio) Hf Ez <- Hn <- Ho. pose proof Hf as (E1 & E2 & E3 & E4 & E5 & Ht).
  eapply ends_ret; [exact Ho| |by split]. split; [|by exists io; rewrite <- Eio].
  apply (core_admitted rt); try done. split; [done|]. split; [done|]. split; [done|].
  split; [done|]. cbn. by rewrite Ht.
Qed.

Lemma hand_over_spec rt rt1 o fence S :
  ready rt o -> framed rt rt1 -> QueuesQuiesced rt1 = false -> pending_fence rt1 = fence ->
  fence <> 0 -> TaComplete rt1 = false -> D3Complete rt1 = false -> ComputeComplete rt1 = false -> owns o S ->
  wp (hand_over rt1 fence) (ends (taken fence)) S.
Proof.
  intros Hr Hf Hz1 <- Hn Hta Hd3 Hcomp Ho. pose proof Hr as (Hc & Hw & Hq & Hz & Eio).
  pose proof Hf as (_ & _ & _ & _ & E5 & _).
  assert (o_queues o = true /\ o_quiet o = false) as [Oq Oz] by (destruct Hc; split; congruence).
  pose proof Hn as Hn'. apply Z.eqb_neq in Hn'.
  unfold hand_over. cbv zeta. rewrite E5, Eio. destruct (Kind (PendingJob rt1)) eqn:Ek.
  - eapply wp_seq.
    { eapply (notes_owns _ _ _ (fun b : bool =>
        if b then o <| o_work := Some (handed (PendingJob rt1) (pending_fence rt1) false) |> else o));
        [by apply notes_run3d|exact Ho|].
      intros b. cbn [next]. unfold idle. by rewrite Oq, Oz, Hw, Hn', Ek. }
    intros staged S1 Ho1. destruct staged; cbn [negb]; [|by eapply ready_not].
    eapply wp_seq.
    { eapply (notes_owns _ _ _ (fun b : bool =>
        o <| o_work := Some (handed (PendingJob rt1) (pending_fence rt1) b) |>));
        [by apply notes_run_ta|exact Ho1|].
      intros b. cbn. unfold with_work. rewrite Oq, Oz. cbn.
      by rewrite bool_decide_eq_true_2, Z.eqb_refl by done. }
    intros run S2 Ho2. destruct run; cbn [negb]; [by eapply ready_submitted|].
    eapply wp_seq.
    { eapply (notes_owns _ _ _ (fun b : bool =>
        o <| o_work := Some (handed (PendingJob rt1) (pending_fence rt1) false) |> <| o_quiet := b |>));
        [by apply notes_stop|exact Ho2|].
      intros b. cbn. by rewrite Oq, Oz, Z.eqb_refl. }
    intros stopped S3 Ho3. destruct stopped.
    + by eapply (ready_failed rt (rt1 <| QueuesQuiesced := true |>) o true).
    + by eapply (ready_failed rt rt1 o false).
  - destruct (is_null (q_RunCompute (watched io))) eqn:Enull.
    { apply wp_bind, wp_ret. cbn [negb]. by eapply ready_not. }
    eapply wp_seq.
    { eapply (notes_owns _ _ _ (fun b : bool =>
        if b then o <| o_work := Some (handed (PendingJob rt1) (pending_fence rt1) true) |> else o));
        [by apply notes_run_compute|exact Ho|].
      intros b. cbn [next]. unfold idle. by rewrite Oq, Oz, Hw, Hn', Ek. }
    intros run S1 Ho1. destruct run; cbn [negb]; [by eapply ready_submitted|by eapply ready_not].
Qed.

Lemma submission_fence rt s :
  AppleAgxBackendSubmissionValid rt (Some s) = true -> Subm.Fence (bs_Submission s) <> 0.
Proof.
  unfold AppleAgxBackendSubmissionValid. rewrite !andb_true_iff, !negb_true_iff.
  intros H. destruct_and?. by apply Z.eqb_neq.
Qed.

Lemma backend_submit_spec rt o s S :
  sim rt o -> Phase rt = AppleAgxBackendRuntimeReady -> Io rt = watched io -> owns o S ->
  AppleAgxBackendSubmissionValid rt (Some s) = true ->
  wp (submit rt s) (ends (taken (Subm.Fence (bs_Submission s)))) S.
Proof.
  intros [Hc Hp] Ep Eio Ho Hv. unfold phase_fits in Hp. rewrite Ep in Hp.
  destruct Hp as (Hl & Hq & Hz & Hw). pose proof (core_work _ _ Hc) as Hpend. rewrite Hw in Hpend.
  destruct Hpend as [Hf Ht].
  assert (ready rt o) as Hready by done.
  assert (forall job, sim (rt <| PendingJob := job |>) o) as Hsim.
  { intros job. split; [|unfold phase_fits; cbn; by rewrite Ep].
    rewrite <- (owner_idle o None false); [|done|by rewrite (core_quiet _ _ Hc)].
    apply (core_admitted rt); try done. }
  assert (forall x job S1, x <> AppleAgxBackendRuntimeResultOk -> owns o S1 ->
    wp (mret (x, rt <| PendingJob := job |>)) (ends (taken (Subm.Fence (bs_Submission s)))) S1) as Hno.
  { intros x job S1 Hx Ho1. eapply ends_ret; [exact Ho1|apply Hsim|]. unfold taken. cbn. by rewrite Ep. }
  unfold submit. rewrite Eio.
  eapply wp_seq; [apply silent_owns; [by apply (silent_resolve io)|exact Ho]|].
  intros [resolved [bytes count]] S1 Ho1. destruct (negb resolved || _ || _).
  { specialize (Hno AppleAgxBackendRuntimeResultMemoryFailed (PendingJob rt) S1 ltac:(done) Ho1).
    by destruct rt. }
  eapply wp_seq; [apply silent_owns; [by apply (silent_relocate io)|exact Ho1]|].
  intros [relocated job] S2 Ho2. cbv zeta.
  destruct (negb relocated || negb (AppleAgxBackendJobValid job)); [by apply Hno|].
  eapply wp_seq; [apply silent_owns; [by apply (silent_flush io)|exact Ho2]|].
  intros flushed S3 Ho3. destruct flushed; cbn [negb]; [|by apply Hno].
  eapply (hand_over_spec rt _ o); try done. by eapply submission_fence.
Qed.

(** *** Stop *)

(** What Stop takes down, in its order. *)
Definition layers rt : list bool :=
  [negb (pending_fence rt =? 0); QueuesCreated rt; ContextPublished rt;
   negb (Stages.held (Firmware rt) =? 0); ArenaMapped rt].

(** The first [k] of the layers of [rt0] are gone, and the others as they were. *)
Definition stripped rt0 k rt : Prop := layers rt = replicate k false ++ drop k (layers rt0).

(** How Stop ends. *)
Definition torn_down rt0 (x : RESULT) rt : Prop :=
  (x = AppleAgxBackendRuntimeResultOk /\ Phase rt = AppleAgxBackendRuntimeStopped /\
   stripped rt0 5 rt) \/
  (x = AppleAgxBackendRuntimeResultCleanupFailed /\ Phase rt = AppleAgxBackendRuntimeFailed /\
   exists k, (k < 5)%nat /\ stripped rt0 k rt).

Lemma core_set_phase rt o ph :
  ph <> AppleAgxBackendRuntimeSubmitted -> core rt o -> core (rt <| Phase := ph |>) o.
Proof.
  intros Hph [? ? ? ? Hw ? ? ?]. constructor; try done. destruct (o_work o) as [w|]; [|done].
  destruct Hw as (? & ? & ? & ? & Hrun & Hp). split_and!; try done. split; [done|]. cbn.
  by destruct (TerminalPending rt).
Qed.

(** On the way down. *)
Definition down rt0 k rt S : Prop :=
  exists o, owns o S /\ core rt o /\ Io rt = watched io /\ stripped rt0 k rt.

Lemma down_failed rt0 k rt S :
  down rt0 k rt S -> (k < 5)%nat -> wp (cleanup_failed rt) (ends (torn_down rt0)) S.
Proof.
  intros (o & Ho & Hc & Eio & Hl) Hk. eapply ends_ret; [exact Ho| |].
  - split; [by apply core_set_phase|by exists io].
  - right. split; [done|]. split; [done|]. exists k. by split.
Qed.

Lemma part_spec rt0 j k (P : RT -> Prop) (m : M St (bool * RT)) rest S :
  wp m (fun p S' => if p.1 then down rt0 j p.2 S' else down rt0 k p.2 S' /\ P p.2) S -> (j < 5)%nat ->
  (forall rt S', down rt0 k rt S' -> P rt -> wp (rest rt) (ends (torn_down rt0)) S') ->
  wp (part m rest) (ends (torn_down rt0)) S.
Proof.
  intros Hm Hj Hrest. unfold part. eapply wp_seq; [exact Hm|]. intros [failed rt] S' H.
  destruct failed; cbn [fst snd] in H; [by eapply down_failed|]. destruct H. by apply Hrest.
Qed.

Lemma stripped_idle rt0 k rt o : core rt o -> stripped rt0 (Datatypes.S k) rt -> o_work o = None.
Proof.
  intros Hc H. unfold stripped, layers in H. cbn in H. injection H as H _.
  apply negb_false_iff, Z.eqb_eq in H. pose proof (core_work _ _ Hc) as Hw.
  destruct (o_work o); [|done]. by destruct Hw as (_ & ? & _).
Qed.

(** The queues have stopped, if there are any. *)
Definition quieted rt : Prop := QueuesCreated rt = true -> QueuesQuiesced rt = true.

(** The last four layers. *)
Definition down_part rt0 k (m : RT -> M St (bool * RT)) : Prop :=
  forall rt S, down rt0 k rt S -> quieted rt ->
    wp (m rt) (fun p S' => if p.1 then down rt0 k p.2 S'
      else down rt0 (Datatypes.S k) p.2 S' /\ quieted p.2) S.

Ltac layers_tac := unfold stripped, layers; cbn; unfold pending_fence in *; cbn in *;
  repeat (apply (f_equal2 cons); [congruence|]); done.

Lemma destroy_part rt0 : down_part rt0 1 destroy_queues.
Proof.
  intros rt S (o & Ho & Hc & Eio & Hl) Hq. pose proof (stripped_idle _ _ _ _ Hc Hl) as Hw.
  eapply wp_mono; [by apply (backend_destroy_spec io Hio rt o)|].
  intros [b rt'] S' [([= -> ->] & E & Ho')|(o' & Eb & Ho' & Hc' & Hw' & Er & Hq')];
    cbn [fst snd] in *; [by exists o|]. subst b. split; [|congruence].
  exists o'. split; [done|]. split; [done|]. split; [by destruct Er as [->| ->]|].
  unfold stripped, layers in Hl. cbn in Hl. injection Hl as E1 E2 E3 E4 E5.
  destruct Er as [->| ->]; layers_tac.
Qed.

Lemma unpublish_part rt0 : down_part rt0 2 unpublish_context.
Proof.
  intros rt S (o & Ho & Hc & Eio & Hl) Hq. pose proof (stripped_idle _ _ _ _ Hc Hl) as Hw.
  pose proof Hl as Hl'. unfold stripped, layers in Hl. cbn in Hl. injection Hl as E1 E2 E3 E4 E5.
  eapply wp_mono; [by apply (unpublish_spec io Hio rt o)|].
  intros [b rt'] S' [([= -> ->] & E & Ho')|(o' & Eb & Ho' & Hc' & Hw' & Er & Hq')];
    cbn [fst snd] in *; [by exists o|]. subst b. split; [|by destruct Er as [->| ->]].
  exists o'. split; [done|]. split; [done|]. split; [by destruct Er as [->| ->]|].
  destruct Er as [->| ->]; layers_tac.
Qed.

Lemma unmap_part rt0 : down_part rt0 4 unmap_arena.
Proof.
  intros rt S (o & Ho & Hc & Eio & Hl) Hq. pose proof (stripped_idle _ _ _ _ Hc Hl) as Hw.
  pose proof Hl as Hl'. unfold stripped, layers in Hl. cbn in Hl. injection Hl as E1 E2 E3 E4 E5.
  eapply wp_mono; [by apply (backend_unmap_spec io Hio rt o)|].
  intros [b rt'] S' [([= -> ->] & E & Ho')|(o' & Eb & Ho' & Hc' & Hw' & Er & Hq')];
    cbn [fst snd] in *; [by exists o|]. subst b. split; [|by destruct Er as [->| ->]].
  exists o'. split; [done|]. split; [done|]. split; [by destruct Er as [->| ->]|].
  destruct Er as [->| ->]; layers_tac.
Qed.

Lemma firmware_part rt0 :
  down_part rt0 3 (fun rt : RT => '(ok, rt) ← with_firmware Fw.AppleAgxFirmwareRollback rt; mret (negb ok, rt)).
Proof.
  intros rt S (o & Ho & Hc & Eio & Hl) Hq.
  unfold stripped, layers in Hl. cbn in Hl. injection Hl as E1 E2 E3 E4 E5.
  eapply wp_seq; [by apply (firmware_down io rt o)|].
  intros [ok rt'] S' (fw & Ho' & Er & Hc' & Hz & Hh). apply wp_ret. cbn [fst snd] in *. subst rt'.
  destruct ok; cbn [negb].
  - split; [|done]. exists o. split; [done|]. split; [done|]. split; [done|].
    unfold stripped, layers. cbn. unfold pending_fence in *. cbn. by rewrite E1, E2, E3, E5, Hh.
  - exists o. split; [done|]. split; [done|]. split; [done|].
    unfold stripped, layers. cbn. unfold pending_fence in *. cbn. rewrite E1, E2, E3, E5, <- E4.
    destruct Hh as [Hh|Hh]; [by rewrite Hz, Hh|].
    destruct (Z.eqb_spec (Stages.held (Firmware rt)) 0) as [H0|H0]; [by rewrite Hz in Hh|].
    by destruct (Z.eqb_spec (Stages.held fw) 0).
Qed.


(** The acknowledgement of a fence that is on its way out. *)
Lemma retirement_spec rt o S :
  Io rt = watched io -> core rt o -> owns o S -> TerminalPending rt = true ->
  TerminalResult rt = AppleAgxBackendRuntimeResultOk ->
  wp (retirement rt) (fun p S' => exists o', owns o' S' /\ core p.2 o' /\
    if p.1 then exists b, p.2 = rt <| TerminalCpuFlushed := b |> else p.2 = cleared rt) S.
Proof.
  intros Eio Hc Ho Ht Hr. unfold retirement.
  eapply wp_seq; [by apply (acknowledge_spec io Hio rt o)|].
  intros [x rt'] S' (o' & Ho' & Hc' & Ha). apply wp_ret. exists o'. split; [done|]. split; [done|].
  cbn [fst snd] in *.
  destruct Ha as [(? & _)|[(_ & Hx & Hb & _)|(_ & Hx & -> & _)]]; [congruence| |].
  - rewrite bool_decide_eq_false_2; [done|]. destruct Hx; congruence.
  - by rewrite bool_decide_eq_true_2 by congruence.
Qed.

(** Before the layers: a natural end that is known is reported first. *)
Lemma report_part rt0 o S :
  Io rt0 = watched io -> core rt0 o -> owns o S ->
  wp (if TerminalPending rt0 && AppleAgxBackendCompletionEndsFence (TerminalStatus rt0)
      then retirement rt0 else mret (false, rt0))
    (fun p S' => exists j, (j < 2)%nat /\ down rt0 j p.2 S' /\
      (p.1 = false -> TerminalPending p.2 = true ->
       AppleAgxBackendCompletionEndsFence (TerminalStatus p.2) = false)) S.
Proof.
  intros Eio Hc Ho. assert (stripped rt0 0 rt0) as H0 by done.
  destruct (TerminalPending rt0) eqn:Ht; cbn [andb].
  2: { apply wp_ret. exists 0%nat. split; [lia|]. split; [by exists o|]. cbn. congruence. }
  destruct (AppleAgxBackendCompletionEndsFence (TerminalStatus rt0)) eqn:Ee.
  2: { apply wp_ret. exists 0%nat. split; [lia|]. by split; [exists o|]. }
  destruct (terminal_busy _ _ Hc Ht) as (w & _ & _ & _ & _ & _ & _ & Hp). rewrite Ht in Hp.
  assert (TerminalResult rt0 = AppleAgxBackendRuntimeResultOk) as Hr
    by (by destruct (TerminalStatus rt0); try done; destruct_and?).
  eapply wp_mono; [by apply (retirement_spec rt0 o)|].
  intros [[] rt] S' (o' & Ho' & Hc' & Hrt); cbn [fst snd] in *.
  - destruct Hrt as [b ->]. exists 0%nat. split; [lia|]. split; [|done]. by exists o'.
  - exists 1%nat. split; [lia|]. subst rt. split; [|done]. exists o'. by split_and!.
Qed.

Lemma quiesce_part rt0 j rt S :
  down rt0 j rt S -> Phase rt = AppleAgxBackendRuntimeStopping ->
  (TerminalPending rt = true -> AppleAgxBackendCompletionEndsFence (TerminalStatus rt) = false) ->
  wp (quiesce_queues rt (pending_fence rt)) (fun p S' => if p.1 then down rt0 j p.2 S'
    else down rt0 j p.2 S' /\ quieted p.2 /\
      Phase p.2 = AppleAgxBackendRuntimeStopping /\ pending_fence p.2 = pending_fence rt) S.
Proof.
  intros (o & Ho & Hc & Eio & Hl) Ep Ht. unfold quiesce_queues.
  destruct (QueuesCreated rt && negb (QueuesQuiesced rt)) eqn:E; cbn [negb].
  2: { apply wp_ret. split; [by exists o|]. cbn [snd]. split; [|done]. intros Hq. rewrite Hq in E.
       by apply negb_false_iff in E. }
  apply andb_true_iff in E as [Hq Hz]. apply negb_true_iff in Hz. rewrite Eio. eapply wp_seq.
  { eapply (notes_owns _ _ o (fun b => o <| o_quiet := b |>)); [by apply notes_stop|exact Ho|].
    intros b. cbn. pose proof (core_work _ _ Hc) as Hw.
    assert (pending_fence rt =? from_option w_fence 0 (o_work o) = true) as ->.
    { apply Z.eqb_eq. destruct (o_work o); cbn; [symmetry|]; apply Hw. }
    by rewrite (core_queues _ _ Hc), (core_quiet _ _ Hc), Hq, Hz. }
  intros stopped S1 Ho1. apply wp_ret. destruct stopped; cbn [negb fst snd].
  - split; [|done]. exists (o <| o_quiet := true |>). split; [done|]. split; [|by split].
    destruct Hc as [? ? ? ? Hw ? ? ?]. constructor; try done; [|cbn; congruence]. cbn.
    destruct (o_work o) as [w|]; [|done]. destruct Hw as (? & ? & ? & ? & Hrun & Hp).
    split_and!; try done. split; [done|]. cbn. destruct (TerminalPending rt); [|congruence].
    specialize (Ht eq_refl). destruct (TerminalStatus rt); try done; destruct_and?; done.
  - exists o. split; [|done]. destruct Hc. destruct o; cbn in *. congruence.
Qed.

Lemma retire_part rt0 j rt S :
  (j < 2)%nat -> down rt0 j rt S -> Phase rt = AppleAgxBackendRuntimeStopping ->
  quieted rt ->
  wp (if negb (pending_fence rt =? 0)
      then retirement (terminal rt AppleAgxBackendCompletionCancelled AppleAgxBackendRuntimeStopping
             AppleAgxBackendRuntimeResultOk)
      else mret (false, rt)) (fun p S' => if p.1 then down rt0 j p.2 S'
    else down rt0 1 p.2 S' /\ quieted p.2) S.
Proof.
  intros Hj (o & Ho & Hc & Eio & Hl) Ep Hq.
  assert (forall rt', layers rt' = (false :: drop 1 (layers rt)) -> stripped rt0 1 rt') as Hone.
  { intros rt' H. unfold stripped in *. rewrite H, Hl. destruct j as [|[|]]; [done|done|lia]. }
  destruct (Z.eqb_spec (pending_fence rt) 0) as [E|E]; cbn [negb].
  { apply wp_ret. split; [|done]. exists o. split_and!; try done. apply Hone. unfold layers.
    cbn [snd]; by rewrite E. }
  set (rt1 := terminal _ _ _ _).
  assert (core rt1 o) as Hc1.
  { destruct Hc as [? ? ? ? Hw ? ? ?]. constructor; try done. destruct (o_work o) as [w|]; [|by destruct Hw].
    destruct Hw as (? & ? & ? & ? & Hrun & Hp). split_and!; try done. split; [done|]. cbn. auto. }
  eapply wp_mono; [by apply (retirement_spec rt1 o)|].
  intros [[] rt'] S' (o' & Ho' & Hc' & Hrt); cbn [fst snd] in *.
  - destruct Hrt as [b ->]. by exists o'.
  - subst rt'. split; [|exact Hq]. exists o'. split_and!; try done. by apply Hone.
Qed.

Lemma backend_stop_spec rt o S :
  sim rt o -> (Phase rt <> AppleAgxBackendRuntimeStopped -> Io rt = watched io) -> owns o S ->
  wp (stop rt) (ends (fun x rt' =>
    match Phase rt with
    | AppleAgxBackendRuntimeStopped => x = AppleAgxBackendRuntimeResultOk /\ rt' = rt
    | AppleAgxBackendRuntimeReady | AppleAgxBackendRuntimeSubmitted
    | AppleAgxBackendRuntimeFailed => torn_down rt x rt'
    | _ => x = AppleAgxBackendRuntimeResultInvalidState /\ rt' = rt
    end)) S.
Proof.
  intros Hs Eio Ho. unfold stop.
  destruct (bool_decide_reflect (Phase rt = AppleAgxBackendRuntimeStopped)) as [E|E].
  { eapply ends_ret; [done|done|]. by rewrite E. }
  specialize (Eio E). destruct (_ && _) eqn:Eph.
  { rewrite !andb_true_iff, !negb_true_iff, !bool_decide_eq_false in Eph.
    eapply ends_ret; [done|done|]. destruct Eph as [[? ?] ?]. by destruct (Phase rt). }
  apply (wp_mono _ (ends (torn_down rt))).
  2: { intros [x rt'] S' (o' & Ho' & Hs' & Hq). exists o'. split; [done|]. split; [done|].
       rewrite !andb_false_iff, !negb_false_iff, !bool_decide_eq_true in Eph.
       destruct (Phase rt) eqn:Ep; try exact Hq; destruct Eph as [[?|?]|?]; congruence. }
  unfold part at 1. eapply wp_seq; [apply (report_part rt o); [done|apply Hs|done]|].
  intros [b rt1] S1 (j & Hj & Hd & Ht). cbn [fst snd] in *.
  destruct b; [apply (down_failed rt j); [done|lia]|]. cbv zeta.
  assert (down rt j (rt1 <| Phase := AppleAgxBackendRuntimeStopping |>) S1) as Hd1.
  { destruct Hd as (o1 & Ho1 & Hc1 & Eio1 & Hl1). exists o1. split; [done|].
    split; [by apply core_set_phase|by split]. }
  eapply (part_spec rt j j (fun rt2 => quieted rt2 /\
    Phase rt2 = AppleAgxBackendRuntimeStopping /\ pending_fence rt2 = pending_fence rt1));
    [exact (quiesce_part rt j _ S1 Hd1 eq_refl (Ht eq_refl))|lia|].
  intros rt2 S2 Hd2 (Hq2 & Ep2 & Ef2). rewrite <- Ef2.
  apply (part_spec rt j 1 quieted); [by apply (retire_part rt j)|lia|]. intros rt3 S3 Hd3 Hq3.
  apply (part_spec rt 1 2 quieted); [by apply destroy_part|lia|]. intros rt4 S4 Hd4 Hq4.
  apply (part_spec rt 2 3 quieted); [by apply unpublish_part|lia|]. intros rt5 S5 Hd5 Hq5.
  apply (part_spec rt 3 4 quieted); [by apply firmware_part|lia|]. intros rt6 S6 Hd6 Hq6.
  apply (part_spec rt 4 5 quieted); [by apply unmap_part|lia|]. intros rt7 S7 (o7 & Ho7 & Hc7 & Eio7 & Hl7) _.
  pose proof (stripped_idle _ _ _ _ Hc7 Hl7) as Hw7.
  eapply ends_ret; [exact Ho7| |by left]. split; [by apply core_set_phase|].
  unfold stripped, layers in Hl7. cbn in Hl7. injection Hl7 as E1 E2 E3 E4 E5.
  unfold phase_fits. cbn. split_and!; try done.
  apply negb_false_iff, Z.eqb_eq, Stages.held_zero in E4. by destruct E4.
Qed.
End operations.

(** ** Histories *)

Section history.
Context {W : Type}.
Notation St := (W * list signal)%type.
Notation RT := (APPLE_AGX_BACKEND_RUNTIME St).
Notation RESULT := APPLE_AGX_BACKEND_RUNTIME_RESULT.
Implicit Types (S : St) (rt : RT) (o : owner).

(** The callers ask what they like, with any callbacks and any arguments, and the world goes
    on between their calls; what the runtime is given to observe is noted in the log. *)
Inductive backend_step : RT * St -> RT * St -> Prop :=
  | backend_world rt w w' l : backend_step (rt, (w, l)) (rt, (w', l))
  | backend_start rt S (io : ptr (APPLE_AGX_BACKEND_IO W)) x rt' S' :
      AppleAgxBackendRuntimeStart (Some rt) (watched <$> io) S = Some ((x, Some rt'), S') ->
      backend_step (rt, S) (rt', S')
  | backend_submit rt S s x rt' S' :
      AppleAgxBackendRuntimeSubmit (Some rt) s S = Some ((x, Some rt'), S') ->
      backend_step (rt, S) (rt', S')
  | backend_observe rt w l obs x rt' S' :
      AppleAgxBackendRuntimeObserve (Some rt) (Some obs) (w, l ++ [Observed obs]) =
        Some ((x, Some rt'), S') ->
      backend_step (rt, (w, l)) (rt', S')
  | backend_acknowledge rt S x rt' S' :
      AppleAgxBackendRuntimeAcknowledgeCompletion (Some rt) S = Some ((x, Some rt'), S') ->
      backend_step (rt, S) (rt', S')
  | backend_stop rt S x rt' S' :
      AppleAgxBackendRuntimeStop (Some rt) S = Some ((x, Some rt'), S') ->
      backend_step (rt, S) (rt', S').

Definition backend_initial (p : RT * St) : Prop :=
  (exists rt identity, AppleAgxBackendRuntimeInitialize (Some rt) identity = Some p.1) /\ p.2.2 = [].

Definition backend_reachable (p : RT * St) : Prop := exists p0, backend_initial p0 /\ rtc backend_step p0 p.

(** A platform that does nothing: it stands in when the runtime has none. *)
Definition idle_io : APPLE_AGX_BACKEND_IO W := {|
  io_Firmware := firmware_io_zero;
  mem_Map := Some (fun x w => ((false, x), w)); mem_Unmap := Some (fun _ _ w => (false, w));
  mem_Resolve := Some (fun _ x w => ((false, x), w));
  mem_FlushForDevice := Some (fun _ _ w => (false, w));
  mem_FlushForCpu := Some (fun _ _ w => (false, w));
  img_AcquirePrepared := Some (fun _ _ x w => ((false, x), w));
  img_Relocate := Some (fun _ _ _ _ _ _ j w => ((false, j), w));
  ctx_Publish := Some (fun w => (false, w)); ctx_Unpublish := Some (fun w => (false, w));
  q_Create := Some (fun w => (false, w)); q_Destroy := Some (fun w => (false, w));
  q_Run3d := Some (fun _ _ w => (false, w)); q_RunTa := Some (fun _ _ w => (false, w));
  q_RunCompute := NULL; q_Stop := Some (fun _ w => (false, w));
  q_Reset := Some (fun _ w => (false, w)); io_Complete := Some (fun _ _ _ _ w => (false, w));
  io_Retire := Some (fun _ _ _ w => (false, w)) |}.

Lemma sim_io rt o :
  sim rt o -> exists io : APPLE_AGX_BACKEND_IO W, AppleAgxBackendIoValid (Some io) = true /\
    (Phase rt <> AppleAgxBackendRuntimeStopped -> Io rt = watched io).
Proof.
  intros Hs. destruct (decide (Phase rt = AppleAgxBackendRuntimeStopped)) as [E|E].
  - by exists idle_io.
  - destruct (sim_live _ _ Hs E) as (io & Eio & Hv). by exists io.
Qed.

(** A call whose body ends well. *)
Lemma wp_on_runtime rt (m : RT -> M St (RESULT * RT)) (Q : RESULT -> RT -> Prop) S :
  wp (m rt) (ends Q) S ->
  exists x rt' S', on_runtime (Some rt) m S = Some ((x, Some rt'), S') /\ ends Q (x, rt') S'.
Proof.
  intros H. apply wp_result in H as ([x rt'] & S' & E & H). exists x, rt', S'. split; [|done].
  unfold on_runtime, mbind, M_bind. by rewrite E.
Qed.

(** *** Each call of a runtime that is tied to its owner *)

Lemma runtime_watched_valid (io : ptr (APPLE_AGX_BACKEND_IO W)) :
  AppleAgxBackendIoValid (watched <$> io) = AppleAgxBackendIoValid io.
Proof. destruct io; [unfold AppleAgxBackendIoValid; simpl; by rewrite !Stages.is_null_map|done]. Qed.

Lemma start_call rt o (io : ptr (APPLE_AGX_BACKEND_IO W)) S :
  sim rt o -> owns o S ->
  exists x rt' S', AppleAgxBackendRuntimeStart (Some rt) (watched <$> io) S = Some ((x, Some rt'), S') /\
    ends (fun x rt' =>
      if AppleAgxBackendIoValid io && negb (rt_ContextIdentity rt =? 0) &&
         bool_decide (Phase rt = AppleAgxBackendRuntimeStopped)
      then started x rt' else x <> AppleAgxBackendRuntimeResultOk /\ rt' = rt) (x, rt') S'.
Proof.
  intros Hs Ho. apply wp_on_runtime.
  rewrite runtime_watched_valid.
  destruct (AppleAgxBackendIoValid io) eqn:Hv; cbn [negb andb orb]; [|by eapply ends_ret].
  destruct (rt_ContextIdentity rt =? 0); cbn [negb andb]; [by eapply ends_ret|].
  destruct io as [io|]; [|done]. cbn [fmap option_fmap option_map].
  destruct (bool_decide_reflect (Phase rt = AppleAgxBackendRuntimeStopped)) as [E|E]; cbn [negb];
    [|by eapply ends_ret].
  by apply (Tie.backend_start_spec io Hv rt o).
Qed.

Lemma submit_call rt o s S :
  sim rt o -> owns o S ->
  exists x rt' S', AppleAgxBackendRuntimeSubmit (Some rt) s S = Some ((x, Some rt'), S') /\
    ends (fun x rt' =>
      match s with
      | Some s =>
          if bool_decide (Phase rt = AppleAgxBackendRuntimeReady) &&
             AppleAgxBackendSubmissionValid rt (Some s)
          then taken (Subm.Fence (bs_Submission s)) x rt'
          else x <> AppleAgxBackendRuntimeResultOk /\ rt' = rt
      | None => x <> AppleAgxBackendRuntimeResultOk /\ rt' = rt
      end) (x, rt') S'.
Proof.
  intros Hs Ho. apply wp_on_runtime.
  destruct (sim_io _ _ Hs) as (io & Hv & Eio).
  destruct (bool_decide_reflect (Phase rt = AppleAgxBackendRuntimeSubmitted)) as [E|E].
  { eapply ends_ret; [done|done|]. rewrite E. by destruct s. }
  destruct (bool_decide_reflect (Phase rt = AppleAgxBackendRuntimeReady)) as [Er|Er]; cbn [negb andb].
  2: { eapply ends_ret; [done|done|]. by destruct s. }
  destruct (AppleAgxBackendSubmissionValid rt s) eqn:Es; cbn [negb].
  2: { eapply ends_ret; [done|done|]. destruct s as [s|]; [|done]. by rewrite Es. }
  destruct s as [s|]; [|done]. rewrite Es. apply (backend_submit_spec io Hv rt o); try done. apply Eio. congruence.
Qed.

Lemma observe_call rt o x w l :
  sim rt o -> owns o (w, l) ->
  exists y rt' S', AppleAgxBackendRuntimeObserve (Some rt) (Some x) (w, l ++ [Observed x]) =
      Some ((y, Some rt'), S') /\ ends (noticed rt) (y, rt') S'.
Proof.
  intros Hs Ho. apply wp_on_runtime. destruct (sim_io _ _ Hs) as (io & Hv & Eio).
  apply (backend_observe_spec io Hv rt (observed o x)); [by apply sim_observed|done| |apply observed_informed].
  by eapply owns_snoc.
Qed.

Lemma acknowledge_call rt o S :
  sim rt o -> owns o S ->
  exists x rt' S', AppleAgxBackendRuntimeAcknowledgeCompletion (Some rt) S = Some ((x, Some rt'), S') /\
    ends (fun x rt' =>
      (rt' = rt /\ x = AppleAgxBackendRuntimeResultInvalidState) \/
      pending_fence rt' = pending_fence rt \/
      (pending_fence rt' = 0 /\ Phase rt' = TerminalNextPhase rt)) (x, rt') S'.
Proof.
  intros Hs Ho. apply wp_on_runtime. destruct (sim_io _ _ Hs) as (io & Hv & Eio).
  apply (acknowledge_ends io Hv rt o); try done. intros Ht. apply Eio. intros Ep.
  destruct Hs as [Hc Hp]. unfold phase_fits in Hp. rewrite Ep in Hp. destruct Hp as (_ & _ & _ & Hn & _).
  by apply (idle_quiet rt o).
Qed.

Lemma stop_call rt o S :
  sim rt o -> owns o S ->
  exists x rt' S', AppleAgxBackendRuntimeStop (Some rt) S = Some ((x, Some rt'), S') /\
    ends (fun x rt' =>
      match Phase rt with
      | AppleAgxBackendRuntimeStopped => x = AppleAgxBackendRuntimeResultOk /\ rt' = rt
      | AppleAgxBackendRuntimeReady | AppleAgxBackendRuntimeSubmitted
      | AppleAgxBackendRuntimeFailed => torn_down rt x rt'
      | _ => x = AppleAgxBackendRuntimeResultInvalidState /\ rt' = rt
      end) (x, rt') S'.
Proof.
  intros Hs Ho. apply wp_on_runtime. destruct (sim_io _ _ Hs) as (io & Hv & Eio).
  by apply (backend_stop_spec io Hv rt o).
Qed.

(** *** Whatever happens *)

Definition tied (p : RT * St) : Prop := exists o, owns o p.2 /\ sim p.1 o.

Lemma initial_tied p : backend_initial p -> tied p.
Proof.
  intros [(rt & identity & [= E]) Hl]. exists nothing. destruct p as [rt0 [w l]]. cbn in *. subst l rt0.
  split; [done|]. split; [by constructor|]. by split_and!.
Qed.

Lemma step_tied p p' : tied p -> backend_step p p' -> tied p'.
Proof.
  intros (o & Ho & Hs) Hstep.
  destruct Hstep as [rt w w' l|rt S io x rt' S' E|rt S s x rt' S' E|rt w l obs x rt' S' E
    |rt S x rt' S' E|rt S x rt' S' E]; cbn [fst snd] in *; [by exists o|..].
  - destruct (start_call rt o io S Hs Ho) as (y & rt1 & S1 & E1 & o1 & Ho1 & Hs1 & _).
    rewrite E1 in E. injection E as <- <- <-. by exists o1.
  - destruct (submit_call rt o s S Hs Ho) as (y & rt1 & S1 & E1 & o1 & Ho1 & Hs1 & _).
    rewrite E1 in E. injection E as <- <- <-. by exists o1.
  - destruct (observe_call rt o obs w l Hs Ho) as (y & rt1 & S1 & E1 & o1 & Ho1 & Hs1 & _).
    rewrite E1 in E. injection E as <- <- <-. by exists o1.
  - destruct (acknowledge_call rt o S Hs Ho) as (y & rt1 & S1 & E1 & o1 & Ho1 & Hs1 & _).
    rewrite E1 in E. injection E as <- <- <-. by exists o1.
  - destruct (stop_call rt o S Hs Ho) as (y & rt1 & S1 & E1 & o1 & Ho1 & Hs1 & _).
    rewrite E1 in E. injection E as <- <- <-. by exists o1.
Qed.

Lemma reachable_tied p : backend_reachable p -> tied p.
Proof.
  intros (p0 & Hi & Hr). apply initial_tied in Hi. induction Hr; [done|].
  eauto using step_tied.
Qed.
End history.
End BackendLife.
