(* ===== verification/BackendProof.v ===== *)
(** * Theorems about the runtime (shared/src/apple_agx_backend_runtime.c)

    What holds of the runtime of BackendRuntime.v in every history of BackendLife.v: it stays
    within the contract of BackendWatch.v, always returns, accounts for every fence, reports
    only what it has seen, and takes down in order what it put up. *)

From S2P Require Import Prelude Interact Submission Firmware FirmwareStages BackendRuntime.
From S2P Require Import BackendWatch BackendTie BackendLife.
Import Interact.

Module BackendProof.
Import Backend Watch Tie BackendLife.

(** ** A platform to try it on *)

(** A platform that is well, but for the calls that are told to fail; Retire answers from a
    script. *)
Definition demo_fw_io (boot halt : bool) : Fw.APPLE_AGX_FIRMWARE_IO (list bool) := {|
  Fw.NowMs := Some (fun w => (7, w));
  Fw.PowerOn := Some (fun _ w => (true, w));
  Fw.CreateFirmwareUat := Some (fun _ w => (true, w));
  Fw.BootAsc := Some (fun _ w => (boot, w));
  Fw.StartEndpoint := Some (fun _ _ w => (true, w));
  Fw.PublishInitdata := Some (fun _ _ w => ((true, 0x1500000000), w));
  Fw.SendInitdata := Some (fun _ _ w => (true, w));
  Fw.SendDeviceControlInit := Some (fun _ w => (true, w));
  Fw.UpdateIdleTimestamp := Some (fun _ w => (true, w));
  Fw.UnpublishInitdata := Some (fun _ w => (true, w));
  Fw.StopEndpoint := Some (fun _ _ w => (true, w));
  Fw.StopAsc := Some (fun _ w => (halt, w));
  Fw.DestroyFirmwareUat := Some (fun _ w => (true, w));
  Fw.PowerOff := Some (fun _ w => (true, w));
  Fw.RecordPhase := NULL;
|}.

Definition demo_job : APPLE_AGX_BACKEND_JOB_IMAGE := {|
  TaWorkAddresses := [0x1000; 0x2000]; D3WorkAddresses := [0x3000; 0x4000];
  ComputeWorkAddresses := [0; 0]; TaWorkAddressCount := 2; D3WorkAddressCount := 2;
  ComputeWorkAddressCount := 0; TaEvent := 3; D3Event := 4; ComputeEvent := 0;
  TaExpectedStamp := 0x100; D3ExpectedStamp := 0x200; ComputeExpectedStamp := 0;
  TaExpectedDonePointer := 1; D3ExpectedDonePointer := 1; ComputeExpectedDonePointer := 0;
  Kind := AppleAgxBackendJobRender; TaBarrierAddress := 0; ComputeTimestampBlock := NULL;
  CommandVa := 0 |}.

Definition demo_io (boot halt create unpublish : bool) : APPLE_AGX_BACKEND_IO (list bool) := {|
  io_Firmware := demo_fw_io boot halt;
  mem_Map := Some (fun _ w => ((true, (Some 0x8000, 0x1500008000, 0x4000)), w));
  mem_Unmap := Some (fun _ _ w => (true, w));
  mem_Resolve := Some (fun _ _ w => ((true, (Some 0x9000, 0x40)), w));
  mem_FlushForDevice := Some (fun _ _ w => (true, w));
  mem_FlushForCpu := Some (fun _ _ w => (true, w));
  img_AcquirePrepared := Some (fun _ _ _ w => ((true, {| Ta := [1; 2]; D3 := [3; 4] |}), w));
  img_Relocate := Some (fun _ _ _ _ _ _ _ w => ((true, demo_job), w));
  ctx_Publish := Some (fun w => (true, w));
  ctx_Unpublish := Some (fun w => (unpublish, w));
  q_Create := Some (fun w => (create, w));
  q_Destroy := Some (fun w => (true, w));
  q_Run3d := Some (fun _ _ w => (true, w));
  q_RunTa := Some (fun _ _ w => (true, w));
  q_RunCompute := NULL;
  q_Stop := Some (fun _ w => (true, w));
  q_Reset := Some (fun _ w => (true, w));
  io_Complete := Some (fun _ _ _ _ w => (true, w));
  io_Retire := Some (fun _ _ _ w => match w with [] => (true, []) | b :: w => (b, w) end);
|}.

Definition demo_submission : APPLE_AGX_BACKEND_SUBMISSION := {|
  bs_Submission := {|
    Subm.Kind := Subm.AppleAgxSubmissionGdi; Subm.Fence := 5; Subm.NodeOrdinal := 0;
    Subm.EngineOrdinal := 0; Subm.SegmentId := 1; Subm.Flags := 0; Subm.DmaAddress := 0x7000;
    Subm.DmaBytes := 0x40; Subm.Reserved := 0 |};
  ContextIdentity := 1; PrivateData := Some 0x6000; PrivateDataBytes := 8; PrivateDataStart := 0;
  PrivateDataEnd := 8; DmaSubmissionStart := 0; DmaSubmissionEnd := 0x40 |}.

Notation demo_world := (list bool * list signal)%type.
Notation demo_runtime := (APPLE_AGX_BACKEND_RUNTIME demo_world).

Definition demo_zero : demo_runtime :=
  default runtime_zero (AppleAgxBackendRuntimeInitialize (Some runtime_zero) 1).

(** The runtime and the world after a call, and the result. *)
Definition after (p : demo_runtime * demo_world)
    (r : option (APPLE_AGX_BACKEND_RUNTIME_RESULT * ptr demo_runtime * demo_world))
    : APPLE_AGX_BACKEND_RUNTIME_RESULT * (demo_runtime * demo_world) :=
  match r with Some ((x, Some rt), w) => (x, (rt, w)) | _ => (AppleAgxBackendRuntimeResultBusy, p) end.

Definition demo_start io p := after p (AppleAgxBackendRuntimeStart (Some p.1) (Some (watched io)) p.2).
Definition demo_submit p := after p (AppleAgxBackendRuntimeSubmit (Some p.1) (Some demo_submission) p.2).
Definition demo_stop p := after p (AppleAgxBackendRuntimeStop (Some p.1) p.2).
Definition demo_acknowledge p :=
  after p (AppleAgxBackendRuntimeAcknowledgeCompletion (Some p.1) p.2).
Definition demo_observe o p :=
  after p (AppleAgxBackendRuntimeObserve (Some p.1) (Some o) (p.2.1, p.2.2 ++ [Observed o])).

Definition demo_ta : APPLE_AGX_BACKEND_OBSERVATION := {|
  Queue := AppleAgxBackendQueueTa; Event := 3; Stamp := 0x100; DonePointer := 1;
  Status := AppleAgxBackendObservationComplete |}.
Definition demo_d3 : APPLE_AGX_BACKEND_OBSERVATION := {|
  Queue := AppleAgxBackendQueue3d; Event := 4; Stamp := 0x207; DonePointer := 1;
  Status := AppleAgxBackendObservationComplete |}.

Definition demo_good : APPLE_AGX_BACKEND_IO (list bool) := demo_io true true true true.
Definition demo_ready := (demo_start demo_good (demo_zero, ([], []))).2.
Definition demo_submitted := (demo_submit demo_ready).2.
Definition demo_half := (demo_observe demo_ta demo_submitted).2.
Definition demo_done := (demo_observe demo_d3 demo_half).2.

(** A render job, from its submission to the report of its fence. *)
Example demo_job_done :
  Phase demo_done.1 = AppleAgxBackendRuntimeReady /\
  drop 12 demo_done.2.2 =
    [Ran3d demo_job 5 true; RanTa demo_job 5 true; Observed demo_ta; Observed demo_d3;
     FlushedCpu true; Completed 5 AppleAgxBackendCompletionSuccess true].
Proof. vm_compute. split; reflexivity. Qed.

(** And the teardown after it. *)
Example demo_torn_down :
  let r := demo_stop demo_done in
  r.1 = AppleAgxBackendRuntimeResultOk /\
  drop 18 r.2.2.2 =
    [Quieted 0 true; Destroyed true; Unpublished true; Firm Stages.Unpublish true;
     Firm (Stages.StopEp 0x21) true; Firm (Stages.StopEp 0x20) true; Firm Stages.HaltAsc true;
     Firm Stages.DestroyUat true; Firm Stages.PowerDown true; Unmapped true].
Proof. vm_compute. split; reflexivity. Qed.

(** ** What the code does not do *)

(** The coprocessor was booted in part and could not be stopped.  The start is rolled back to
    Stopped, its result says nothing of it, and the arena is unmapped; the next start forgets
    that the coprocessor was to be stopped, and switches the power on. *)
Lemma start_forgets_coprocessor :
  let r := demo_start (demo_io false false true true) (demo_zero, ([], [])) in
  r.1 = AppleAgxBackendRuntimeResultFirmwareFailed /\
  Phase r.2.1 = AppleAgxBackendRuntimeStopped /\
  Fw.CleanupMask (Firmware r.2.1) = Fw.APPLE_AGX_FIRMWARE_ASC_RUNNING /\
  r.2.2.2 = [Mapped true; Firm Stages.PowerUp true; Firm Stages.CreateUat true;
    Firm Stages.Boot false; Firm Stages.HaltAsc false; Firm Stages.DestroyUat true;
    Firm Stages.PowerDown true; Unmapped true] /\
  let r' := demo_start (demo_io true true true true) r.2 in
  r'.1 = AppleAgxBackendRuntimeResultOk /\
  take 2 (drop 8 r'.2.2.2) = [Mapped true; Firm Stages.PowerUp true].
Proof. vm_compute. split_and!; reflexivity. Qed.

(** Stop leaves all that is below a part that could not be taken down; the rollback of a start
    goes on, and unmaps the arena while the context is published. *)
Lemma rollback_unmaps_published_arena :
  let r := demo_start (demo_io true true false false) (demo_zero, ([], [])) in
  r.1 = AppleAgxBackendRuntimeResultCleanupFailed /\
  ContextPublished r.2.1 = true /\ ArenaMapped r.2.1 = false /\
  drop 10 r.2.2.2 = [Published true; Created false; Unpublished false; Firm Stages.Unpublish true;
    Firm (Stages.StopEp 0x21) true; Firm (Stages.StopEp 0x20) true; Firm Stages.HaltAsc true;
    Firm Stages.DestroyUat true; Firm Stages.PowerDown true; Unmapped true].
Proof. vm_compute. split_and!; reflexivity. Qed.

(** A Stop whose retirement is refused can be retried by Stop; when it is retried by
    AcknowledgeCompletion the phase becomes Stopping, and no call goes on from there. *)
Lemma acknowledged_stop_is_stuck :
  let p := (demo_submitted.1, ([false; true], demo_submitted.2.2)) in
  let r := demo_stop p in
  let a := demo_acknowledge r.2 in
  r.1 = AppleAgxBackendRuntimeResultCleanupFailed /\
  a.1 = AppleAgxBackendRuntimeResultOk /\ Phase a.2.1 = AppleAgxBackendRuntimeStopping /\
  (demo_stop a.2).1 = AppleAgxBackendRuntimeResultInvalidState /\
  (demo_start demo_good a.2).1 = AppleAgxBackendRuntimeResultInvalidState /\
  (demo_stop r.2).1 = AppleAgxBackendRuntimeResultOk.
Proof. vm_compute. split_and!; reflexivity. Qed.

(** ** The demo's states are reachable *)

Lemma demo_zero_initial l : backend_initial (demo_zero, (l, [])).
Proof. split; [|done]. by exists runtime_zero, 1. Qed.

Lemma demo_zero_reachable : backend_reachable (demo_zero, ([], [])).
Proof. eexists. split; [apply demo_zero_initial|apply rtc_refl]. Qed.

(** A call that returns leads to the state after it. *)
Definition returned (r : option (APPLE_AGX_BACKEND_RUNTIME_RESULT * ptr demo_runtime * demo_world))
    : bool := match r with Some ((_, Some _), _) => true | _ => false end.

Lemma after_returned p r :
  returned r = true -> exists x, r = Some ((x, Some (after p r).2.1), (after p r).2.2).
Proof. destruct r as [[[x [rt|]] w]|]; try done. by exists x. Qed.

Lemma step_after p r :
  backend_reachable p -> returned r = true ->
  (forall x rt w, r = Some ((x, Some rt), w) -> backend_step p (rt, w)) ->
  backend_reachable (after p r).2.
Proof.
  intros (p0 & Hi & Hr) H Hs. exists p0. split; [done|]. eapply rtc_r; [exact Hr|].
  destruct (after_returned p r H) as [x E]. rewrite (surjective_pairing (after p r).2). by eapply Hs.
Qed.

Lemma demo_ready_reachable : backend_reachable demo_ready.
Proof.
  apply step_after; [exact demo_zero_reachable|vm_compute; reflexivity|].
  intros x rt w E. by apply (backend_start _ _ (Some demo_good) x).
Qed.

Lemma demo_submitted_reachable : backend_reachable demo_submitted.
Proof.
  apply step_after; [exact demo_ready_reachable|vm_compute; reflexivity|].
  intros x rt w E. rewrite (surjective_pairing demo_ready).
  by apply (backend_submit _ _ (Some demo_submission) x).
Qed.

Lemma demo_observe_reachable p o :
  backend_reachable p ->
  returned (AppleAgxBackendRuntimeObserve (Some p.1) (Some o) (p.2.1, p.2.2 ++ [Observed o])) = true ->
  backend_reachable (demo_observe o p).2.
Proof.
  intros Hp Hr. apply step_after; [done|done|]. intros x rt w E. destruct p as [rt0 [w0 l0]].
  by apply (backend_observe _ _ _ o x).
Qed.

Lemma demo_half_reachable : backend_reachable demo_half.
Proof. apply demo_observe_reachable; [exact demo_submitted_reachable|vm_compute; reflexivity]. Qed.

Lemma demo_done_reachable : backend_reachable demo_done.
Proof. apply demo_observe_reachable; [exact demo_half_reachable|vm_compute; reflexivity]. Qed.

Lemma reachable_pair (p : demo_runtime * demo_world) :
  backend_reachable p -> backend_reachable (p.1, p.2).
Proof. by destruct p. Qed.

(** ** The theorems *)

Section theorems.
Context {W : Type}.
Notation St := (W * list signal)%type.
Notation RT := (APPLE_AGX_BACKEND_RUNTIME St).
Implicit Types (rt : RT) (S : St).

(** What the phases promise. *)
Definition phase_promises rt o : Prop :=
  match Phase rt with
  | AppleAgxBackendRuntimeStopped => o = nothing
  | AppleAgxBackendRuntimeReady =>
      o = {| o_arena := true; o_context := true; o_queues := true; o_quiet := false; o_work := None |}
  | AppleAgxBackendRuntimeSubmitted =>
      o_arena o = true /\ o_context o = true /\ o_queues o = true /\
      exists w, o_work o = Some w /\ w_running w = true
  | AppleAgxBackendRuntimeStarting => False
  | _ => True
  end.

(** What the runtime notes is what its owner has. *)
Definition agrees rt o : Prop :=
  o_arena o = ArenaMapped rt /\ o_context o = ContextPublished rt /\
  o_queues o = QueuesCreated rt /\ o_quiet o = QueuesQuiesced rt /\
  match o_work o with
  | None => pending_fence rt = 0
  | Some w => pending_fence rt = w_fence w /\ w_fence w <> 0 /\ PendingJob rt = w_job w
  end.

Lemma sim_agrees rt o : sim rt o -> agrees rt o.
Proof.
  intros [[? ? ? ? Hw ? ? ?] _]. unfold agrees. split_and!; try done.
  destruct (o_work o); [|by destruct Hw]. destruct Hw as (E & ? & ? & _). rewrite E. by split_and!.
Qed.

Lemma sim_promises rt o : sim rt o -> phase_promises rt o.
Proof.
  intros Hs. pose proof Hs as [Hc Hp]. unfold phase_promises. unfold phase_fits in Hp.
  destruct (Phase rt) eqn:E; try done.
  - destruct Hp as (? & ? & Hq & ? & _). pose proof (core_quiesced _ _ Hc Hq).
    destruct Hc, o; cbn in *. unfold nothing. congruence.
  - destruct Hp as (_ & Hq & ? & ?). destruct (core_up _ _ Hc Hq) as (? & ? & _).
    destruct Hc, o; cbn in *. congruence.
  - destruct (submitted_busy _ _ Hs E) as (_ & w & Hb & Hrun). destruct Hb as (_ & Hw & _ & _ & Hq & _).
    destruct (core_up _ _ Hc Hq) as (? & ? & _). destruct Hc. split_and!; try congruence. by exists w.
Qed.

(** C9: in every history of calls, with any callbacks, answers and observations, all that the
    runtime ever asked of its platform is within the contract of an abstract owner (map before
    use; firmware, context and queues up in this order; one job at a time, both halves of a
    render job; queues stopped before they are destroyed, destroyed before anything below is
    taken down; nothing unmapped with a job out; a fence reported with a status that the
    observations justify), and what the runtime notes is what that owner has: Stopped has
    nothing, Ready has all and no job, Submitted has all and one job that runs, and with queues
    the firmware is completely up. *)
Theorem backend_within_contract rt S :
  backend_reachable (rt, S) ->
  exists o, replay nothing S.2 = Some o /\ agrees rt o /\ phase_promises rt o /\
    (QueuesCreated rt = true ->
     Fw.CompletedMask (Firmware rt) = Fw.APPLE_AGX_FIRMWARE_ALL_COMPLETED).
Proof.
  intros Hr. apply reachable_tied in Hr as (o & Ho & Hs). exists o. split; [exact Ho|].
  split; [by apply sim_agrees|]. split; [by apply sim_promises|].
  intros Hq. destruct Hs as [Hc _]. by destruct (core_up _ _ Hc Hq) as (_ & _ & ?).
Qed.

(** C34: from every state that a history reaches every call returns, whatever its arguments
    and the platform's answers: no callback that is missing is called, also after a start
    with missing callbacks was refused. *)
Theorem backend_always_returns rt S :
  backend_reachable (rt, S) ->
  (forall io : ptr (APPLE_AGX_BACKEND_IO W),
     is_Some (AppleAgxBackendRuntimeStart (Some rt) (watched <$> io) S)) /\
  (forall s, is_Some (AppleAgxBackendRuntimeSubmit (Some rt) s S)) /\
  (forall x, is_Some (AppleAgxBackendRuntimeObserve (Some rt) (Some x) (S.1, S.2 ++ [Observed x]))) /\
  is_Some (AppleAgxBackendRuntimeAcknowledgeCompletion (Some rt) S) /\
  is_Some (AppleAgxBackendRuntimeStop (Some rt) S).
Proof.
  intros Hr. apply reachable_tied in Hr as (o & Ho & Hs). destruct S as [w l]. cbn [fst snd] in *.
  split; [intros io; destruct (start_call rt o io (w, l) Hs Ho) as (? & ? & ? & -> & _); eauto|].
  split; [intros s; destruct (submit_call rt o s (w, l) Hs Ho) as (? & ? & ? & -> & _); eauto|].
  split; [intros x; destruct (observe_call rt o x w l Hs Ho) as (? & ? & ? & -> & _); eauto|].
  split; [destruct (acknowledge_call rt o (w, l) Hs Ho) as (? & ? & ? & -> & _); eauto|].
  destruct (stop_call rt o (w, l) Hs Ho) as (? & ? & ? & -> & _); eauto.
Qed.

(** C11: no fence is lost, ended twice or reordered: in every history the fences that the
    queues took are, in their order, the fences that were reported or retired and then, if
    there is one, the pending fence of the runtime. *)
Theorem backend_fences_accounted rt S :
  backend_reachable (rt, S) ->
  taken_fences S.2 = ended_fences S.2 ++ (if pending_fence rt =? 0 then [] else [pending_fence rt]).
Proof.
  intros Hr. apply reachable_tied in Hr as (o & Ho & Hs).
  cbn [fst snd] in *. rewrite (replay_fences _ _ Ho).
  f_equal. apply sim_agrees in Hs as (_ & _ & _ & _ & Hw). unfold work_fences.
  destruct (o_work o) as [w|]; [|by rewrite Hw]. destruct Hw as (-> & Hn & _).
  by apply Z.eqb_neq in Hn as ->.
Qed.

(** C10: success is never invented: whenever the platform was told that a fence succeeded, a
    job had been handed to its queue under this fence and not been ended since; the observed
    events, done pointers and stamps had then shown the job done, both halves of a render job
    with its second half started, or the compute job; and the arena had been flushed for the
    CPU after that. *)
Theorem backend_success_proved rt S l fence ok l' :
  backend_reachable (rt, S) ->
  S.2 = l ++ Completed fence AppleAgxBackendCompletionSuccess ok :: l' ->
  exists job l1 l2 l3,
    l = l1 ++ handing job fence :: l2 ++ FlushedCpu true :: l3 /\
    ended_fences (l2 ++ FlushedCpu true :: l3) = [] /\ evident job fence l2.
Proof.
  intros Hr E. apply reachable_tied in Hr as (o & Ho & _). unfold owns in Ho. cbn [fst snd] in *.
  rewrite E in Ho. by eapply replay_success.
Qed.

(** A start that is refused. *)
Lemma start_refused rt (io : ptr (APPLE_AGX_BACKEND_IO W)) S :
  AppleAgxBackendIoValid io = false \/ rt_ContextIdentity rt = 0 ->
  AppleAgxBackendRuntimeStart (Some rt) (watched <$> io) S =
    Some ((AppleAgxBackendRuntimeResultInvalidArgument, Some rt), S).
Proof.
  intros H. unfold AppleAgxBackendRuntimeStart, on_runtime. rewrite runtime_watched_valid.
  destruct H as [-> | ->]; [done|]. by rewrite orb_true_r.
Qed.

Lemma start_out_of_phase rt (io : ptr (APPLE_AGX_BACKEND_IO W)) S :
  AppleAgxBackendIoValid io = true -> rt_ContextIdentity rt <> 0 ->
  Phase rt <> AppleAgxBackendRuntimeStopped ->
  AppleAgxBackendRuntimeStart (Some rt) (watched <$> io) S =
    Some ((AppleAgxBackendRuntimeResultInvalidState, Some rt), S).
Proof.
  intros Hv Hid Hp. unfold AppleAgxBackendRuntimeStart, on_runtime. rewrite runtime_watched_valid, Hv.
  apply Z.eqb_neq in Hid as ->. destruct io as [io|]; [|done]. cbn [negb orb fmap option_fmap option_map].
  by rewrite bool_decide_eq_false_2.
Qed.

(** How a start from Stopped ends. *)
Definition start_ends (x : APPLE_AGX_BACKEND_RUNTIME_RESULT) rt : Prop :=
  match Phase rt with
  | AppleAgxBackendRuntimeReady => x = AppleAgxBackendRuntimeResultOk /\
      ArenaMapped rt = true /\ ContextPublished rt = true /\ QueuesCreated rt = true /\
      Fw.CompletedMask (Firmware rt) = Fw.APPLE_AGX_FIRMWARE_ALL_COMPLETED /\ pending_fence rt = 0
  | AppleAgxBackendRuntimeStopped => x <> AppleAgxBackendRuntimeResultOk /\
      ArenaMapped rt = false /\ ContextPublished rt = false /\ QueuesCreated rt = false /\
      Fw.CompletedMask (Firmware rt) = 0 /\ pending_fence rt = 0 /\
      Z.ldiff (Fw.CleanupMask (Firmware rt)) Fw.APPLE_AGX_FIRMWARE_ASC_RUNNING = 0
  | AppleAgxBackendRuntimeFailed => x = AppleAgxBackendRuntimeResultCleanupFailed
  | _ => False
  end.

Lemma started_parts rt o x : sim rt o -> started x rt -> start_ends x rt.
Proof.
  intros [Hc Hp] Hx. unfold phase_fits in Hp. unfold started in Hx. unfold start_ends.
  destruct Hc as [_ _ _ _ Hpend Hup _ [_ Hasc]].
  destruct (Phase rt); try done.
  - destruct Hp as (? & ? & ? & Hw & ?). rewrite Hw in Hpend. by destruct Hx, Hpend.
  - destruct Hp as (_ & Hq & _ & Hw). rewrite Hw in Hpend. by destruct (Hup Hq) as (? & ? & ?), Hpend.
Qed.

(** C32: a start without the callbacks it needs or without an identity is InvalidArgument, and
    one in a phase other than Stopped is InvalidState; then the runtime is as it was and nothing
    has been called.  Any other start ends in one of three ways: Ok and Ready, with the arena
    mapped, the firmware completely up, the context published and the queues there; a failure
    and Stopped, with the arena unmapped, no context, no queues, no pending fence and no stage of
    the firmware complete; or CleanupFailed and Failed.  What the masks of the firmware may still
    hold after such a failure is a coprocessor that could not be stopped, and nothing else. *)
Theorem backend_start_exact rt S (io : ptr (APPLE_AGX_BACKEND_IO W)) :
  backend_reachable (rt, S) ->
  exists x rt' S', AppleAgxBackendRuntimeStart (Some rt) (watched <$> io) S =
      Some ((x, Some rt'), S') /\
    if negb (AppleAgxBackendIoValid io) || (rt_ContextIdentity rt =? 0)
    then x = AppleAgxBackendRuntimeResultInvalidArgument /\ rt' = rt /\ S' = S
    else if bool_decide (Phase rt = AppleAgxBackendRuntimeStopped)
    then start_ends x rt'
    else x = AppleAgxBackendRuntimeResultInvalidState /\ rt' = rt /\ S' = S.
Proof.
  intros Hr. apply reachable_tied in Hr as (o & Ho & Hs).
  destruct (AppleAgxBackendIoValid io) eqn:Hv; cbn [negb orb].
  2: { do 3 eexists. split; [apply start_refused; by left|done]. }
  destruct (Z.eqb_spec (rt_ContextIdentity rt) 0) as [Hid|Hid].
  { do 3 eexists. split; [apply start_refused; by right|done]. }
  destruct (bool_decide_reflect (Phase rt = AppleAgxBackendRuntimeStopped)) as [Hp|Hp].
  2: { do 3 eexists. split; [by apply start_out_of_phase|done]. }
  destruct (start_call rt o io S Hs Ho) as (x & rt' & S' & E & o' & _ & Hs' & Hx).
  exists x, rt', S'. split; [exact E|]. cbn [fst snd] in *.
  rewrite Hv, bool_decide_eq_true_2 in Hx by done. apply Z.eqb_neq in Hid. rewrite Hid in Hx.
  cbn [andb negb] in Hx. by eapply started_parts.
Qed.

(** C31: Stop from Ready, Submitted or Failed takes down, in this order, the pending fence, the
    queues, the context, the firmware and the arena.  If it is Ok all five are gone and the
    phase is Stopped; else it is CleanupFailed, the phase is Failed, and what comes after the
    part that could not be taken down is all as it was.  When Stopped it does nothing, and
    from the other phases it is refused. *)
Theorem backend_stop_exact rt S :
  backend_reachable (rt, S) ->
  exists x rt' S', AppleAgxBackendRuntimeStop (Some rt) S = Some ((x, Some rt'), S') /\
    match Phase rt with
    | AppleAgxBackendRuntimeStopped => x = AppleAgxBackendRuntimeResultOk /\ rt' = rt
    | AppleAgxBackendRuntimeReady | AppleAgxBackendRuntimeSubmitted
    | AppleAgxBackendRuntimeFailed =>
        (x = AppleAgxBackendRuntimeResultOk /\ Phase rt' = AppleAgxBackendRuntimeStopped /\
         layers rt' = [false; false; false; false; false]) \/
        (x = AppleAgxBackendRuntimeResultCleanupFailed /\ Phase rt' = AppleAgxBackendRuntimeFailed /\
         exists k, (k < 5)%nat /\ layers rt' = replicate k false ++ drop k (layers rt))
    | _ => x = AppleAgxBackendRuntimeResultInvalidState /\ rt' = rt
    end.
Proof.
  intros Hr. apply reachable_tied in Hr as (o & Ho & Hs).
  destruct (stop_call rt o S Hs Ho) as (x & rt' & S' & E & o' & _ & _ & Hx).
  exists x, rt', S'. split; [exact E|]. cbn [fst snd] in Hx. by destruct (Phase rt).
Qed.
End theorems.

(** ** From the submission queue to the runtime *)

(** An entry of the submission queue that makes a submission makes one that the runtime of its
    context takes, for the one node and engine there is. *)
Lemma from_entry_valid {W} (rt : APPLE_AGX_BACKEND_RUNTIME W) identity entry private old s :
  AppleAgxBackendSubmissionFromEntry identity (Some entry) private (Some old) = (true, Some s) ->
  rt_ContextIdentity rt = identity -> Subm.NodeOrdinal (Subm.Submission entry) = 0 ->
  Subm.EngineOrdinal (Subm.Submission entry) = 0 ->
  AppleAgxBackendSubmissionValid rt (Some s) = true /\ bs_Submission s = Subm.Submission entry.
Proof.
  unfold AppleAgxBackendSubmissionFromEntry. intros H Hid Hn He.
  destruct (_ || _) eqn:E in H; [done|]. injection H as <-. split; [|done].
  rewrite !orb_false_iff, !negb_false_iff in E. destruct_and?.
  unfold AppleAgxBackendSubmissionValid. cbn. rewrite Hid, Hn, He.
  rewrite !andb_true_iff, !negb_true_iff. split_and!; try done; lia.
Qed.

(** ** A render job that is done is reported *)

Section completing.
Context {W : Type} (io : APPLE_AGX_BACKEND_IO W) (Hio : AppleAgxBackendIoValid (Some io) = true).
Notation St := (W * list signal)%type.
Notation RT := (APPLE_AGX_BACKEND_RUNTIME St).
Implicit Types (rt : RT) (S : St).

(** The platform flushes and accepts when it is asked to. *)
Definition willing : Prop :=
  (forall f a n w, mem_FlushForCpu io = Some f -> (f a n w).1 = true) /\
  (forall f x n e s w, io_Complete io = Some f -> (f x n e s w).1 = true).

(** A render job of a Submitted runtime, with what has been seen of it. *)
Definition rendering rt (ta d3 : bool) : Prop :=
  Phase rt = AppleAgxBackendRuntimeSubmitted /\ TerminalPending rt = false /\
  TaComplete rt = ta /\ D3Complete rt = d3 /\ Kind (PendingJob rt) = AppleAgxBackendJobRender /\
  Io rt = watched io /\ pending_fence rt <> 0.

Lemma success_reports rt S :
  willing -> rendering rt true true ->
  wp (success rt) (fun p S' => p.1 = AppleAgxBackendRuntimeResultOk /\
    Phase p.2 = AppleAgxBackendRuntimeReady /\ pending_fence p.2 = 0 /\
    S'.2 = S.2 ++ [FlushedCpu true;
                   Completed (pending_fence rt) AppleAgxBackendCompletionSuccess true]) S.
Proof.
  intros [Hflush Hcomplete] (Ep & Ht & _ & _ & _ & Eio & Hn).
  unfold success, AppleAgxBackendTerminal. apply Z.eqb_neq in Hn. rewrite Ht, Hn.
  cbn [orb negb AppleAgxBackendCompletionEndsFence bool_decide]. cbv zeta.
  set (rt1 := terminal _ _ _ _).
  assert (Io rt1 = watched io) as Eio1 by done.
  unfold acknowledge. cbv zeta.
  change (TerminalPending rt1) with true. change (pending_fence rt1) with (pending_fence rt). rewrite Hn.
  change (TerminalCpuFlushed rt1) with false. change (TerminalResult rt1) with AppleAgxBackendRuntimeResultOk.
  change (TerminalNextPhase rt1) with AppleAgxBackendRuntimeReady.
  change (TerminalStatus rt1) with AppleAgxBackendCompletionSuccess.
  rewrite bool_decide_eq_true_2 by done. cbn [orb negb andb]. rewrite Eio1.
  eapply (wp_seq _ _ (fun ok S1 => ok = true /\ S1.2 = S.2 ++ [FlushedCpu true])).
  { simpl. destruct (mem_FlushForCpu io) as [f|] eqn:E.
    - apply wp_call. intros ok S1 [= <- <-]. cbn. by rewrite (Hflush f _ _ _ eq_refl).
    - revert Hio. unfold AppleAgxBackendIoValid. rewrite E. cbn. by rewrite !andb_false_r. }
  intros ok S1 [-> HS1]. cbn [negb]. unfold notify.
  rewrite bool_decide_eq_false_2 by done. cbv zeta.
  change (Io (rt1 <| TerminalCpuFlushed := true |>)) with (Io rt1). rewrite Eio1.
  change (TerminalStatus (rt1 <| TerminalCpuFlushed := true |>)) with AppleAgxBackendCompletionSuccess.
  eapply (wp_seq _ _ (fun ok S2 => ok = true /\
    S2.2 = S1.2 ++ [Completed (pending_fence rt) AppleAgxBackendCompletionSuccess true])).
  { simpl. destruct (io_Complete io) as [f|] eqn:E.
    - apply wp_call. intros ok S2 [= <- <-]. cbn. by rewrite (Hcomplete f _ _ _ _ _ eq_refl).
    - revert Hio. unfold AppleAgxBackendIoValid. rewrite E. cbn. by rewrite ?andb_false_r. }
  intros ok S2 [-> HS2]. cbn [negb]. apply wp_ret. split_and!; try done.
  by rewrite HS2, HS1, <- app_assoc.
Qed.

(** The flag of a queue of a render job. *)
Definition marked (queue : APPLE_AGX_BACKEND_QUEUE) rt : RT :=
  match queue with
  | AppleAgxBackendQueueTa => rt <| TaComplete := true |>
  | AppleAgxBackendQueue3d => rt <| D3Complete := true |>
  | AppleAgxBackendQueueCompute => rt
  end.

Lemma observe_mark queue ta d3 rt x :
  rendering rt ta d3 -> shows queue (PendingJob rt) x = true ->
  match queue with AppleAgxBackendQueueTa => ta = false | AppleAgxBackendQueue3d => d3 = false
    | AppleAgxBackendQueueCompute => False end ->
  observe rt x =
    (let rt := marked queue rt in
     if TaComplete rt && D3Complete rt then success rt else mret (AppleAgxBackendRuntimeResultOk, rt)).
Proof.
  intros (Ep & Ht & Eta & Ed3 & Ek & _) Hx Hq. unfold shows in Hx.
  rewrite !andb_true_iff, !bool_decide_eq_true in Hx. destruct Hx as [[Es Eq] Hx].
  unfold observe. cbv zeta. rewrite Ht, Ep, Es. cbn [andb].
  rewrite bool_decide_eq_true_2 by done. cbn [negb]. unfold observe_complete. cbv zeta.
  rewrite Ek, Eq. destruct queue; [| |done]; by rewrite ?Eta, ?Ed3, Hq, Hx.
Qed.

Lemma rendering_marked queue rt :
  rendering rt false false ->
  rendering (marked queue rt) (bool_decide (queue = AppleAgxBackendQueueTa))
    (bool_decide (queue = AppleAgxBackendQueue3d)).
Proof. intros (? & ? & ? & ? & ? & ? & ?). by destruct queue. Qed.
End completing.

(** C33: a render job comes to its end: when a platform that flushes and accepts shows both
    halves of the submitted job done, in either order and whatever happens in between to the
    world, both observations are Ok, the second one flushes the arena for the CPU and then
    reports the success of exactly this fence, and the runtime is Ready for the next job. *)
Theorem backend_job_completes {W} (io : APPLE_AGX_BACKEND_IO W) rt w l (first second : APPLE_AGX_BACKEND_QUEUE)
    x y :
  backend_reachable (rt, (w, l)) -> AppleAgxBackendIoValid (Some io) = true -> willing io ->
  Io rt = watched io -> Phase rt = AppleAgxBackendRuntimeSubmitted -> TerminalPending rt = false ->
  TaComplete rt = false -> D3Complete rt = false -> Kind (PendingJob rt) = AppleAgxBackendJobRender ->
  first <> second -> first <> AppleAgxBackendQueueCompute -> second <> AppleAgxBackendQueueCompute ->
  shows first (PendingJob rt) x = true -> shows second (PendingJob rt) y = true ->
  exists rt1,
    AppleAgxBackendRuntimeObserve (Some rt) (Some x) (w, l ++ [Observed x]) =
      Some ((AppleAgxBackendRuntimeResultOk, Some rt1), (w, l ++ [Observed x])) /\
    forall w', exists rt2 w2,
      AppleAgxBackendRuntimeObserve (Some rt1) (Some y) (w', l ++ [Observed x; Observed y]) =
        Some ((AppleAgxBackendRuntimeResultOk, Some rt2),
          (w2, l ++ [Observed x; Observed y; FlushedCpu true;
                     Completed (pending_fence rt) AppleAgxBackendCompletionSuccess true])) /\
      Phase rt2 = AppleAgxBackendRuntimeReady /\ pending_fence rt2 = 0.
Proof.
  intros Hr Hio Hwill Eio Ep Ht Hta Hd3 Ek Hne H1 H2 Hx Hy.
  apply reachable_tied in Hr as (o & _ & Hs).
  destruct (submitted_busy _ _ Hs Ep) as (_ & wk & Hb & _). destruct Hb as (_ & _ & _ & Hn & _).
  assert (rendering io rt false false) as R0 by done.
  pose proof (rendering_marked io first rt R0) as R1. exists (marked first rt). split.
  - unfold AppleAgxBackendRuntimeObserve, on_runtime.
    rewrite (observe_mark io first false false rt x R0 Hx) by (by destruct first). cbv zeta.
    destruct R1 as (_ & _ & -> & -> & _). by destruct first.
  - intros w'. assert (PendingJob (marked first rt) = PendingJob rt) as Ej by (by destruct first).
    assert (pending_fence (marked second (marked first rt)) = pending_fence rt) as Ef
      by (by destruct first, second).
    rewrite <- Ej in Hy. pose proof (observe_mark io second _ _ _ y R1 Hy) as E.
    assert (rendering io (marked second (marked first rt)) true true) as R2.
    { destruct R0 as (? & ? & ? & ? & ? & ? & ?). by destruct first, second. }
    pose proof (success_reports io Hio _ (w', l ++ [Observed x; Observed y]) Hwill R2) as H.
    apply wp_result in H as ([a rt2] & [w2 l2] & E2 & Ea & Ep2 & Ef2 & El). cbn [fst snd] in *. subst a l2.
    exists rt2, w2. split; [|done]. unfold AppleAgxBackendRuntimeObserve, on_runtime.
    rewrite E by (by destruct first, second). cbv zeta. destruct R2 as (_ & _ & -> & -> & _).
    cbn [andb]. unfold mbind, M_bind. rewrite E2, Ef, <- app_assoc. done.
Qed.

(** ** Witnesses *)

Lemma backend_within_contract_witness :
  exists o, replay nothing demo_half.2.2 = Some o /\ agrees demo_half.1 o /\
    phase_promises demo_half.1 o /\ (QueuesCreated demo_half.1 = true ->
      Fw.CompletedMask (Firmware demo_half.1) = Fw.APPLE_AGX_FIRMWARE_ALL_COMPLETED).
Proof. exact (backend_within_contract demo_half.1 demo_half.2 (reachable_pair _ demo_half_reachable)). Defined.

Lemma backend_always_returns_witness :
  is_Some (AppleAgxBackendRuntimeStop (Some demo_half.1) demo_half.2).
Proof. apply (backend_always_returns demo_half.1 demo_half.2 (reachable_pair _ demo_half_reachable)). Defined.

Lemma backend_fences_accounted_witness :
  taken_fences demo_half.2.2 = ended_fences demo_half.2.2 ++
    (if pending_fence demo_half.1 =? 0 then [] else [pending_fence demo_half.1]).
Proof. exact (backend_fences_accounted demo_half.1 demo_half.2 (reachable_pair _ demo_half_reachable)). Defined.

Lemma backend_success_proved_witness :
  exists job l1 l2 l3,
    removelast demo_done.2.2 = l1 ++ handing job 5 :: l2 ++ FlushedCpu true :: l3 /\
    ended_fences (l2 ++ FlushedCpu true :: l3) = [] /\ evident job 5 l2.
Proof.
  apply (backend_success_proved demo_done.1 demo_done.2 (removelast demo_done.2.2) 5 true []).
  - exact (reachable_pair _ demo_done_reachable).
  - vm_compute. reflexivity.
Defined.

Lemma backend_start_exact_witness :
  (exists x rt' S',
    AppleAgxBackendRuntimeStart (Some demo_zero) (watched <$> Some demo_good) ([], []) =
      Some ((x, Some rt'), S') /\ start_ends x rt') /\
  exists x rt' S',
    AppleAgxBackendRuntimeStart (Some demo_half.1) (watched <$> Some demo_good) demo_half.2 =
      Some ((x, Some rt'), S') /\
    x = AppleAgxBackendRuntimeResultInvalidState /\ rt' = demo_half.1 /\ S' = demo_half.2.
Proof.
  split.
  - exact (backend_start_exact demo_zero ([], []) (Some demo_good) demo_zero_reachable).
  - exact (backend_start_exact demo_half.1 demo_half.2 (Some demo_good)
      (reachable_pair _ demo_half_reachable)).
Defined.

Lemma backend_stop_exact_witness :
  exists x rt' S', AppleAgxBackendRuntimeStop (Some demo_half.1) demo_half.2 =
      Some ((x, Some rt'), S') /\
    ((x = AppleAgxBackendRuntimeResultOk /\ Phase rt' = AppleAgxBackendRuntimeStopped /\
      layers rt' = [false; false; false; false; false]) \/
     (x = AppleAgxBackendRuntimeResultCleanupFailed /\ Phase rt' = AppleAgxBackendRuntimeFailed /\
      exists k, (k < 5)%nat /\ layers rt' = replicate k false ++ drop k (layers demo_half.1))).
Proof. exact (backend_stop_exact demo_half.1 demo_half.2 (reachable_pair _ demo_half_reachable)). Defined.

Lemma demo_willing : willing demo_good.
Proof. split; [intros f a n w [= <-]|intros f x n e s w [= <-]]; done. Qed.

Lemma reachable_triple (p : demo_runtime * demo_world) :
  backend_reachable p -> backend_reachable (p.1, (p.2.1, p.2.2)).
Proof. by destruct p as [? []]. Qed.

Lemma demo_submitted_io : Io demo_submitted.1 = watched demo_good.
Proof. reflexivity. Qed.

Lemma backend_job_completes_witness :
  exists rt1,
    AppleAgxBackendRuntimeObserve (Some demo_submitted.1) (Some demo_d3)
        (demo_submitted.2.1, demo_submitted.2.2 ++ [Observed demo_d3]) =
      Some ((AppleAgxBackendRuntimeResultOk, Some rt1),
        (demo_submitted.2.1, demo_submitted.2.2 ++ [Observed demo_d3])) /\
    forall w', exists rt2 w2,
      AppleAgxBackendRuntimeObserve (Some rt1) (Some demo_ta)
          (w', demo_submitted.2.2 ++ [Observed demo_d3; Observed demo_ta]) =
        Some ((AppleAgxBackendRuntimeResultOk, Some rt2),
          (w2, demo_submitted.2.2 ++ [Observed demo_d3; Observed demo_ta; FlushedCpu true;
             Completed (pending_fence demo_submitted.1) AppleAgxBackendCompletionSuccess true])) /\
      Phase rt2 = AppleAgxBackendRuntimeReady /\ pending_fence rt2 = 0.
Proof.
  refine (backend_job_completes demo_good demo_submitted.1 demo_submitted.2.1 demo_submitted.2.2
    AppleAgxBackendQueue3d AppleAgxBackendQueueTa demo_d3 demo_ta
    (reachable_triple _ demo_submitted_reachable) _ demo_willing demo_submitted_io _ _ _ _ _ _ _ _ _ _);
    vm_compute; first [reflexivity|discriminate].
Defined.
End BackendProof.
