(* ===== verification/Crc16.v ===== *)
(** * The link checksum of the SPI HID transport (apple-input/protocol/src/apple_spihid_crc.c)

    [ai_crc16_usb] as the code writes it, and its algebra: over the buffer read as
    one little-endian number it is a linear shift register, injective on 16-bit
    states, so a buffer followed by its own checksum leaves the register at 0 and
    an error confined to any 16 consecutive bits never does. *)

From S2P Require Import Prelude Arrays Bytes.

Module Crc.

(** One round of the inner loop. *)
Definition crc_round (crc : Z) : Z :=
  if negb (Z.land crc 1 =? 0) then u16 (Z.lxor (Z.shiftr crc 1) 0xa001)
  else u16 (Z.shiftr crc 1).

Definition ai_crc16_usb (seed : Z) (data : list Z) (size : Z) : Z :=
  for_range 0 size (fun index crc =>
    for_range 0 8 (fun _ crc => crc_round crc) (Z.lxor crc data .[ index ])) seed.

(** ** The register as a shift register on numbers of any width *)

Definition lfsr (x : Z) : Z :=
  Z.lxor (Z.shiftr x 1) (if Z.testbit x 0 then 0xa001 else 0).

Definition lfsr_n (n : nat) (x : Z) : Z := Nat.iter n lfsr x.

(** The buffer as one number, byte 0 lowest. *)
Fixpoint le_value (l : list Z) : Z :=
  match l with
  | [] => 0
  | b :: l => Z.lxor b (Z.shiftl (le_value l) 8)
  end.

Lemma lxor_swap a b c d :
  Z.lxor (Z.lxor a b) (Z.lxor c d) = Z.lxor (Z.lxor a c) (Z.lxor b d).
Proof. rewrite <- !Z.lxor_assoc. f_equal. rewrite !Z.lxor_assoc. f_equal. apply Z.lxor_comm. Qed.

Lemma lfsr_lxor x y : lfsr (Z.lxor x y) = Z.lxor (lfsr x) (lfsr y).
Proof.
  unfold lfsr. rewrite Z.lxor_spec, Z.shiftr_lxor, lxor_swap. f_equal.
  by destruct (Z.testbit x 0), (Z.testbit y 0).
Qed.

Lemma lfsr_n_lxor n x y : lfsr_n n (Z.lxor x y) = Z.lxor (lfsr_n n x) (lfsr_n n y).
Proof.
  unfold lfsr_n. induction n as [|n IH]; simpl; [done|]. by rewrite IH, lfsr_lxor.
Qed.

Lemma lfsr_n_add n m x : lfsr_n (n + m) x = lfsr_n n (lfsr_n m x).
Proof. apply Nat.iter_add. Qed.

Lemma lfsr_shiftl x : lfsr (Z.shiftl x 1) = x.
Proof.
  unfold lfsr. rewrite Z.shiftl_spec_low by lia.
  by rewrite Z.shiftr_shiftl_l, Z.lxor_0_r, Z.shiftl_0_r by lia.
Qed.

Lemma lfsr_n_shiftl n x : lfsr_n n (Z.shiftl x (Z.of_nat n)) = x.
Proof.
  revert x. induction n as [|n IH]; intros x; [apply Z.shiftl_0_r|].
  rewrite <- Nat.add_1_r at 1. rewrite lfsr_n_add.
  replace (Z.of_nat (S n)) with (Z.of_nat n + 1) by lia.
  rewrite <- Z.shiftl_shiftl by lia.
  change (lfsr_n 1 ?y) with (lfsr y). by rewrite lfsr_shiftl.
Qed.

Lemma lfsr_n_shift n k x : k = Z.of_nat n -> lfsr_n n (Z.shiftl x k) = x.
Proof. intros ->. apply lfsr_n_shiftl. Qed.

Lemma lxor_fits w a b : 0 <= w -> fits w a -> fits w b -> fits w (Z.lxor a b).
Proof.
  intros Hw [Ha Ha'] [Hb Hb'].
  assert (0 <= Z.lxor a b) as H0 by (apply Z.lxor_nonneg; split; intros; lia).
  split; [done|]. rewrite <- (Z.mod_small a (2 ^ w)), <- (Z.mod_small b (2 ^ w)) by done.
  enough (Z.lxor (a mod 2 ^ w) (b mod 2 ^ w) = Z.lxor a b mod 2 ^ w) as ->
    by (apply Z.mod_pos_bound; lia).
  rewrite <- !Z.land_ones by done. apply Z.bits_inj'. intros i Hi.
  rewrite Z.lxor_spec, !Z.land_spec, Z.lxor_spec.
  by destruct (Z.testbit a i), (Z.testbit b i), (Z.testbit (Z.ones w) i).
Qed.

Lemma lfsr_fits x : is_u16 x -> is_u16 (lfsr x).
Proof.
  intros Hx. apply lxor_fits; [done| |by destruct (Z.testbit x 0)].
  rewrite Z.shiftr_div_pow2 by done. word_lia.
Qed.

Lemma lfsr_n_fits n x : is_u16 x -> is_u16 (lfsr_n n x).
Proof. intros. unfold lfsr_n. induction n; [done|]. by apply lfsr_fits. Qed.

(** No nonzero state dies out. *)
Lemma lfsr_zero x : is_u16 x -> lfsr x = 0 -> x = 0.
Proof.
  intros Hx H. unfold lfsr in H. apply Z.lxor_eq in H.
  rewrite Z.shiftr_div_pow2, Z.bit0_odd in H by done.
  pose proof (Z.div2_odd x) as E. rewrite Z.div2_div in E. change (2 ^ 1) with 2 in H.
  destruct (Z.odd x); simpl in *; word_lia.
Qed.

Lemma lfsr_n_zero n x : is_u16 x -> lfsr_n n x = 0 -> x = 0.
Proof.
  intros Hx. unfold lfsr_n. induction n as [|n IH]; simpl; [done|].
  intros H. apply IH, lfsr_zero; [by apply lfsr_n_fits|done].
Qed.

Lemma lfsr_n_inj n x y : is_u16 x -> is_u16 y -> lfsr_n n x = lfsr_n n y -> x = y.
Proof.
  intros Hx Hy H. apply Z.lxor_eq, (lfsr_n_zero n); [by apply lxor_fits|].
  by rewrite lfsr_n_lxor, H, Z.lxor_nilpotent.
Qed.

(** A burst of 16 bits, wherever it starts, leaves a nonzero register. *)
Lemma lfsr_burst n pos b :
  0 <= pos -> 0 < b < 2 ^ 16 -> pos <= Z.of_nat n -> lfsr_n n (Z.shiftl b pos) <> 0.
Proof.
  intros Hp Hb Hn. replace n with ((n - Z.to_nat pos) + Z.to_nat pos)%nat by lia.
  rewrite lfsr_n_add, (lfsr_n_shift (Z.to_nat pos)) by lia.
  intros H. apply lfsr_n_zero in H; [lia|]. unfold fits. lia.
Qed.

(** ** The code's loops compute it *)

Lemma crc_round_lfsr x : is_u16 x -> crc_round x = lfsr x.
Proof.
  intros Hx. unfold crc_round. 
  assert (negb (Z.land x 1 =? 0) = Z.testbit x 0) as -> by exact (land_bit x 0 (Z.le_refl 0)).
  pose proof (lfsr_fits x Hx) as Hf. unfold lfsr in *.
  destruct (Z.testbit x 0); rewrite ?Z.lxor_0_r in *; by apply wrap_id.
Qed.

Lemma crc_rounds x : is_u16 x -> for_range 0 8 (fun _ crc => crc_round crc) x = lfsr_n 8 x.
Proof.
  intros Hx. refine (proj1 (for_range_inv
    (fun k y => y = lfsr_n (Z.to_nat k) x /\ is_u16 y) 0 8 _ x ltac:(lia) _ _)); [done|].
  intros k y Hk [-> Hy]. replace (Z.to_nat (k + 1)) with (S (Z.to_nat k)) by lia.
  rewrite crc_round_lfsr by done. split; [done|by apply lfsr_fits].
Qed.

Lemma le_value_app l l' :
  le_value (l ++ l') = Z.lxor (le_value l) (Z.shiftl (le_value l') (8 * zlen l)).
Proof.
  induction l as [|b l IH]; simpl; [by rewrite Z.shiftl_0_r|].
  rewrite IH, Z.shiftl_lxor, Z.lxor_assoc, Z.shiftl_shiftl by (unfold zlen; lia).
  do 3 f_equal. unfold zlen. simpl. lia.
Qed.

Lemma le_value_nonneg l : is_bytes l -> 0 <= le_value l.
Proof.
  induction 1 as [|b l Hb Hl IH]; simpl; [done|]. apply Z.lxor_nonneg.
  rewrite Z.shiftl_nonneg. unfold fits in Hb. tauto || lia.
Qed.

Lemma crc16_prefix seed data k :
  is_u16 seed -> is_bytes data -> 0 <= k <= zlen data ->
  ai_crc16_usb seed data k = lfsr_n (Z.to_nat (8 * k)) (Z.lxor seed (le_value (prefix_list data k))) /\
  is_u16 (ai_crc16_usb seed data k).
Proof.
  intros Hs Hd Hk. unfold ai_crc16_usb.
  refine (for_range_inv (fun i crc => i <= k ->
    crc = lfsr_n (Z.to_nat (8 * i)) (Z.lxor seed (le_value (prefix_list data i))) /\ is_u16 crc)
    0 k _ seed ltac:(lia) _ _ ltac:(lia)).
  { intros _. by rewrite prefix_list_0, Z.lxor_0_r. }
  intros i crc Hi IH _. destruct IH as [-> Hcrc]; [lia|]. rewrite Z.add_0_l.
  set (prev := lfsr_n _ _) in *.
  assert (is_u8 data .[ i ]) as Hb by (apply arr_get_Forall; [done|lia]).
  assert (is_u16 (Z.lxor prev data .[ i ])) as Hx.
  { apply lxor_fits; [done..|]. unfold fits in *. lia. }
  rewrite crc_rounds by done. split; [|by apply lfsr_n_fits].
  replace (Z.to_nat (8 * (i + 1))) with (8 + Z.to_nat (8 * i))%nat by lia.
  rewrite lfsr_n_add. f_equal. rewrite prefix_list_snoc, le_value_app by lia.
  rewrite zlen_prefix by lia. simpl le_value. rewrite Z.shiftl_0_l, Z.lxor_0_r, <- Z.lxor_assoc.
  rewrite lfsr_n_lxor. f_equal.
  by rewrite lfsr_n_shift by lia.
Qed.

(** ** A buffer that ends with its own checksum *)

(** The number the last two bytes hold. *)
Lemma le_value_pair a b : is_u8 a -> le_value [a; b] = a + b * 2 ^ 8.
Proof.
  intros Ha. simpl. rewrite Z.shiftl_0_l, Z.lxor_0_r. rewrite <- lor_shiftl by (done || apply Ha).
  apply Z.bits_inj'. intros i Hi. rewrite Z.lxor_spec, Z.lor_spec.
  destruct (decide (i < 8)).
  - rewrite Z.shiftl_spec_low by done. by destruct (Z.testbit a i).
  - rewrite <- (Z.mod_small a (2 ^ 8)) by done. rewrite Z.mod_pow2_bits_high by lia.
    by destruct (Z.testbit _ i).
Qed.

(** [sealed n d]: the [n]-byte buffer leaves the register at 0. *)
Definition residue (d : list Z) (n : Z) : Z :=
  lfsr_n (Z.to_nat (8 * n)) (le_value (prefix_list d n)).

Lemma crc_matches d n :
  is_bytes d -> 2 <= n <= zlen d ->
  ai_crc16_usb 0 d (n - 2) = get_u16 d (n - 2) <-> residue d n = 0.
Proof.
  intros Hd Hn. destruct (crc16_prefix 0 d (n - 2)) as [Hc Hf]; [done|done|lia|].
  set (crc := ai_crc16_usb 0 d (n - 2)) in *. clearbody crc. rewrite Z.lxor_0_l in Hc.
  assert (is_u8 d .[ n - 2 ]) as H1 by (apply arr_get_Forall; [done|lia]).
  assert (is_u8 d .[ n - 2 + 1 ]) as H2 by (apply arr_get_Forall; [done|lia]).
  assert (residue d n = lfsr_n 16 (Z.lxor crc (get_u16 d (n - 2)))) as ->.
  { unfold residue. replace (Z.to_nat (8 * n)) with (16 + Z.to_nat (8 * (n - 2)))%nat by lia.
    rewrite lfsr_n_add. f_equal.
    replace n with (n - 2 + 1 + 1) at 2 by lia.
    rewrite !prefix_list_snoc, <- app_assoc, le_value_app by lia.
    rewrite lfsr_n_lxor, <- Hc, zlen_prefix by lia. f_equal.
    rewrite lfsr_n_shift by lia.
    cbn [app]. rewrite le_value_pair, get_u16_arith by done. done. }
  assert (is_u16 (get_u16 d (n - 2))) as Hg.
  { rewrite get_u16_arith by done. word_lia. }
  split; intros H.
  - rewrite H, Z.lxor_nilpotent. done.
  - apply Z.lxor_eq, (lfsr_n_zero 16); [by apply lxor_fits|done].
Qed.

(** [flip e d]: the buffer with the bits of [e] inverted, bit 0 of byte 0 first. *)
Definition flip (e : Z) (d : list Z) : list Z :=
  imap (fun i b => Z.lxor b (Z.land (Z.shiftr e (8 * Z.of_nat i)) 0xff)) d.

Lemma flip_cons e b d :
  flip e (b :: d) = Z.lxor b (Z.land e 0xff) :: flip (Z.shiftr e 8) d.
Proof.
  unfold flip. rewrite imap_cons. f_equal. apply imap_ext. intros i x _. simpl.
  rewrite Z.shiftr_shiftr by lia. do 3 f_equal. lia.
Qed.

Lemma zlen_flip e d : zlen (flip e d) = zlen d.
Proof. unfold zlen, flip. by rewrite length_imap. Qed.

Lemma flip_bytes e d : is_bytes d -> is_bytes (flip e d).
Proof.
  revert e. induction d as [|b d IH]; intros e Hd; [constructor|].
  rewrite flip_cons. apply Forall_cons in Hd as [Hb Hd]. constructor; [|by apply IH].
  apply lxor_fits; [done..|]. rewrite land_ff. by apply wrap_fits.
Qed.

Lemma le_value_flip e d :
  0 <= e < 2 ^ (8 * zlen d) -> le_value (flip e d) = Z.lxor (le_value d) e.
Proof.
  revert e. induction d as [|b d IH]; intros e He.
  { unfold zlen in He. simpl in *. assert (e = 0) as -> by lia. done. }
  rewrite flip_cons. simpl le_value.
  replace (8 * zlen (b :: d)) with (8 * zlen d + 8) in He by (unfold zlen; simpl; lia).
  rewrite Z.pow_add_r in He by (unfold zlen; lia).
  rewrite IH.
  2:{ rewrite Z.shiftr_div_pow2 by lia. split; [apply Z.div_pos; lia|].
      apply Z.div_lt_upper_bound; lia. }
  rewrite Z.shiftl_lxor, lxor_swap. f_equal.
  apply Z.bits_inj'. intros i Hi. rewrite Z.lxor_spec, land_ff.
  destruct (decide (i < 8)).
  - rewrite Z.mod_pow2_bits_low, Z.shiftl_spec_low by lia. apply xorb_false_r.
  - rewrite Z.mod_pow2_bits_high by lia. rewrite Z.shiftl_spec, Z.shiftr_spec by lia.
    simpl. f_equal. lia.
Qed.

(** A sealed buffer stays sealed under no burst of up to 16 bits. *)
Lemma burst_breaks_seal d b pos :
  is_bytes d -> residue d (zlen d) = 0 -> 0 <= pos -> 0 < b < 2 ^ 16 ->
  Z.shiftl b pos < 2 ^ (8 * zlen d) ->
  residue (flip (Z.shiftl b pos) d) (zlen d) <> 0.
Proof.
  intros Hd Hr Hp Hb Hlt. assert (0 <= Z.shiftl b pos) as Hnn by (apply Z.shiftl_nonneg; lia).
  unfold residue, prefix_list in *.
  rewrite !firstn_all2 in * by (unfold zlen, flip; rewrite ?length_imap; lia).
  rewrite le_value_flip, lfsr_n_lxor, Hr, Z.lxor_0_l by done.
  apply lfsr_burst; [done..|]. destruct (decide (pos <= 8 * zlen d)) as [|Hgt]; [lia|].
  exfalso. rewrite Z.shiftl_mul_pow2 in Hlt by done.
  pose proof (Z.pow_lt_mono_r 2 (8 * zlen d) pos). nia.
Qed.

End Crc.
