(* ===== verification/SpiHid.v ===== *)
(** * SPI HID packets, messages and reassembly
    (apple-input/protocol/src/apple_spihid_packet.c, apple_spihid_reassembly.c)

    A 256-byte packet carries a fragment of a message; both end with the checksum of
    Crc16.v.  The theorems: the host's requests survive encoding, packet decoding,
    reassembly and message decoding; no burst of up to 16 bits in a packet is
    accepted; the reassembler implements the abstract one ([asm_push]) without ever
    writing outside its buffer, and gives back every message however it was cut. *)

From S2P Require Import Prelude Arrays Bytes Crc16.

Module Hid.
Import Crc.

(** ** Data *)

Definition AI_PACKET_SIZE : Z := 256.
Definition AI_PACKET_DATA_SIZE : Z := 246.
Definition AI_MAX_MESSAGE_SIZE : Z := 2048.
Definition AI_PACKET_READ : Z := 0x20.
Definition AI_PACKET_WRITE : Z := 0x40.

Inductive ai_status :=
  | AI_OK | AI_COMPLETE | AI_ERR_ARGUMENT | AI_ERR_CRC | AI_ERR_LENGTH
  | AI_ERR_SEQUENCE | AI_ERR_TIMEOUT | AI_ERR_PROTOCOL.
#[export] Instance ai_status_eq_dec : EqDecision ai_status.
Proof. solve_decision. Defined.

(** A view's [data] is the memory its pointer leads to. *)
Record ai_packet_view := {
  pv_flags : Z;
  pv_device : Z;
  pv_offset : Z;
  pv_remaining : Z;
  pv_length : Z;
  pv_data : ptr (list Z);
}.

Record ai_message_view := {
  mv_flags : Z;
  mv_device : Z;
  mv_data : ptr (list Z);
  mv_length : Z;
}.

Record ai_protocol_message := {
  pm_type : Z;
  pm_report : Z;
  pm_device : Z;
  pm_id : Z;
  pm_response_length : Z;
  pm_payload : ptr (list Z);
  pm_payload_length : Z;
}.

Record ai_discovery_request := {
  dr_target : Z;
  dr_type : Z;
  dr_report : Z;
  dr_device : Z;
  dr_response_length : Z;
}.

Inductive ai_trackpad_init_phase :=
  | AI_TRACKPAD_INIT_IDLE | AI_TRACKPAD_INIT_DIMENSIONS | AI_TRACKPAD_INIT_MULTITOUCH
  | AI_TRACKPAD_INIT_READY | AI_TRACKPAD_INIT_OFFLINE.
#[export] Instance ai_trackpad_init_phase_eq_dec : EqDecision ai_trackpad_init_phase.
Proof. solve_decision. Defined.

Record ai_reassembler := {
  active : bool;
  ra_flags : Z;
  ra_device : Z;
  used : Z;
  total : Z;
  data : list Z;
}.
#[export] Instance ai_reassembler_eta : Eta ai_reassembler :=
  fun s => Build_ai_reassembler (active s) (ra_flags s) (ra_device s) (used s) (total s) (data s).

(** ** Packets and messages *)

Definition get_le16 (bytes : list Z) (at_ : Z) : Z :=
  Z.lor bytes .[ at_ ] (u16 (Z.shiftl bytes .[ at_ + 1 ] 8)).

Definition put_le16 (bytes : list Z) (at_ value : Z) : list Z :=
  bytes .[ at_ <- u8 value ] .[ at_ + 1 <- u8 (Z.shiftr value 8) ].

Definition write_status_expected : list Z := [0xac; 0x27; 0x68; 0xd5].

Definition ai_write_status_valid (status : ptr (list Z)) (size : Z) : bool :=
  deref s := status else false in
  if negb (size =? zlen write_status_expected) then false
  else
    match find_range 0 (zlen write_status_expected)
            (fun index => negb (s .[ index ] =? write_status_expected .[ index ])) with
    | Some _ => false
    | None => true
    end.

Definition ai_packet_decode (raw : ptr (list Z)) (out : ptr ai_packet_view)
    : ai_status * ptr ai_packet_view :=
  deref r := raw else (AI_ERR_ARGUMENT, out) in
  deref _o := out else (AI_ERR_ARGUMENT, out) in
  if negb (ai_crc16_usb 0 r (AI_PACKET_SIZE - 2) =? get_le16 r (AI_PACKET_SIZE - 2))
  then (AI_ERR_CRC, out)
  else
    let length := get_le16 r 6 in
    if AI_PACKET_DATA_SIZE <? length then (AI_ERR_LENGTH, out)
    else
      (AI_OK, Some {| pv_flags := r .[ 0 ]; pv_device := r .[ 1 ];
                      pv_offset := get_le16 r 2; pv_remaining := get_le16 r 4;
                      pv_length := length; pv_data := Some (advance r 8) |}).

Definition ai_message_decode (raw : ptr (list Z)) (size : Z) (out : ptr ai_protocol_message)
    : ai_status * ptr ai_protocol_message :=
  deref r := raw else (AI_ERR_ARGUMENT, out) in
  deref _o := out else (AI_ERR_ARGUMENT, out) in
  if size <? 10 then (AI_ERR_LENGTH, out)
  else
    let payload_length := get_le16 r 6 in
    let expected := u64 (payload_length + 10) in
    if (expected <? payload_length) || negb (size =? expected) then (AI_ERR_LENGTH, out)
    else if negb (ai_crc16_usb 0 r (size - 2) =? get_le16 r (size - 2)) then (AI_ERR_CRC, out)
    else
      (AI_OK, Some {| pm_type := r .[ 0 ]; pm_report := r .[ 1 ]; pm_device := r .[ 2 ];
                      pm_id := r .[ 3 ]; pm_response_length := get_le16 r 4;
                      pm_payload := Some (advance r 8); pm_payload_length := payload_length |}).

Definition ai_discovery_request_encode (request : ptr ai_discovery_request) (message_id : Z)
    (raw : ptr (list Z)) : ai_status * ptr (list Z) :=
  deref q := request else (AI_ERR_ARGUMENT, raw) in
  deref r := raw else (AI_ERR_ARGUMENT, raw) in
  let r := memset0 r AI_PACKET_SIZE in
  let r := r .[ 0 <- AI_PACKET_WRITE ] .[ 1 <- dr_target q ] in
  let r := put_le16 r 6 10 in
  let r := r .[ 8 <- dr_type q ] .[ 9 <- dr_report q ] .[ 10 <- dr_device q ]
             .[ 11 <- message_id ] in
  let r := put_le16 r 12 (dr_response_length q) in
  let r := put_le16 r 14 0 in
  let r := put_le16 r 16 (ai_crc16_usb 0 (advance r 8) 8) in
  let r := put_le16 r (AI_PACKET_SIZE - 2) (ai_crc16_usb 0 r (AI_PACKET_SIZE - 2)) in
  (AI_OK, Some r).

Definition ai_trackpad_init_request_encode (phase : ai_trackpad_init_phase) (message_id : Z)
    (raw : ptr (list Z)) : ai_status * ptr (list Z) :=
  deref r := raw else (AI_ERR_ARGUMENT, raw) in
  if bool_decide (phase <> AI_TRACKPAD_INIT_DIMENSIONS) &&
     bool_decide (phase <> AI_TRACKPAD_INIT_MULTITOUCH)
  then (AI_ERR_SEQUENCE, raw)
  else
    let r := memset0 r AI_PACKET_SIZE in
    let r := r .[ 0 <- AI_PACKET_WRITE ] .[ 1 <- 0x02 ] in
    let '(r, message_size) :=
      if bool_decide (phase = AI_TRACKPAD_INIT_DIMENSIONS) then
        let r := r .[ 8 <- 0x32 ] .[ 9 <- 0xd9 ] .[ 10 <- 0x00 ] .[ 11 <- message_id ] in
        (put_le16 r 12 0x0020, 10)
      else
        let r := r .[ 8 <- 0x52 ] .[ 9 <- 0x02 ] .[ 11 <- message_id ] in
        let r := put_le16 r 12 2 in
        let r := put_le16 r 14 2 in
        (put_le16 r 16 0x0102, 12) in
    let r := put_le16 r 6 (u16 message_size) in
    let r := put_le16 r (8 + message_size - 2)
               (ai_crc16_usb 0 (advance r 8) (message_size - 2)) in
    let r := put_le16 r (AI_PACKET_SIZE - 2) (ai_crc16_usb 0 r (AI_PACKET_SIZE - 2)) in
    (AI_OK, Some r).

(** ** Reassembly *)

Definition reassembler_zero : ai_reassembler :=
  {| active := false; ra_flags := 0; ra_device := 0; used := 0; total := 0;
     data := replicate 2048 0 |}.

Definition ai_reassembler_reset (state : ptr ai_reassembler) : ptr ai_reassembler :=
  deref _s := state else NULL in Some reassembler_zero.

(** [if (packet->offset == 0) ...]: a packet at offset 0 starts a message. *)
Definition ra_begin (s : ai_reassembler) (p : ai_packet_view) (total_ : Z) : ai_reassembler :=
  s <| active := true |> <| ra_flags := pv_flags p |> <| ra_device := pv_device p |>
    <| used := 0 |> <| total := total_ |>.

(** The copy and everything after it. *)
Definition ra_deliver (s : ai_reassembler) (p : ai_packet_view) (end_ : Z)
    (message : ptr ai_message_view) : ai_status * ptr ai_reassembler * ptr ai_message_view :=
  let s :=
    deref bytes := pv_data p else s in
    if negb (pv_length p =? 0)
    then s <| data := memcpy (data s) (pv_offset p) bytes (pv_length p) |> else s in
  let s := s <| used := end_ |> in
  if negb (pv_remaining p =? 0) then (AI_OK, Some s, message)
  else if negb (used s =? total s)
  then (AI_ERR_SEQUENCE, ai_reassembler_reset (Some s), message)
  else
    (AI_COMPLETE, Some (s <| active := false |>),
     Some {| mv_flags := ra_flags s; mv_device := ra_device s;
             mv_data := Some (data s); mv_length := total s |}).

Definition ai_reassembler_push (state : ptr ai_reassembler) (packet : ptr ai_packet_view)
    (message : ptr ai_message_view) : ai_status * ptr ai_reassembler * ptr ai_message_view :=
  let argument := (AI_ERR_ARGUMENT, state, message) in
  deref s := state else argument in
  deref p := packet else argument in
  deref _m := message else argument in
  if negb (pv_length p =? 0) && is_null (pv_data p) then argument
  else
    let end_ := u64 (pv_offset p + pv_length p) in
    let total_ := u64 (end_ + pv_remaining p) in
    if (end_ <? pv_offset p) || (total_ <? end_) || (AI_MAX_MESSAGE_SIZE <? total_) ||
       (AI_PACKET_DATA_SIZE <? pv_length p)
    then (AI_ERR_LENGTH, ai_reassembler_reset state, message)
    else if pv_offset p =? 0 then ra_deliver (ra_begin s p total_) p end_ message
    else if negb (active s) || negb (pv_flags p =? ra_flags s) ||
            negb (pv_device p =? ra_device s) || negb (pv_offset p =? used s) ||
            negb (total_ =? total s)
    then (AI_ERR_SEQUENCE, ai_reassembler_reset state, message)
    else ra_deliver s p end_ message.

(** ** What the reassembler promises *)

(** A message in progress: where it comes from, how long it is, its bytes so far. *)
Record assembly := {
  as_flags : Z;
  as_device : Z;
  as_total : Z;
  as_bytes : list Z;
}.
#[export] Instance assembly_eq_dec : EqDecision assembly.
Proof. solve_decision. Defined.

Definition packet_bytes (p : ai_packet_view) : list Z :=
  prefix_list (default [] (pv_data p)) (pv_length p).
Definition packet_total (p : ai_packet_view) : Z :=
  pv_offset p + pv_length p + pv_remaining p.

(** A packet at offset 0 starts a message, any other continues the one in progress
    exactly where it stopped; the last fragment delivers it; anything else is
    dropped together with what was collected. *)
Definition asm_push (a : option assembly) (p : ai_packet_view)
    : ai_status * option assembly * option assembly :=
  if bool_decide (AI_MAX_MESSAGE_SIZE < packet_total p \/ AI_PACKET_DATA_SIZE < pv_length p)
  then (AI_ERR_LENGTH, None, None)
  else
    let start := Build_assembly (pv_flags p) (pv_device p) (packet_total p) [] in
    let from :=
      if bool_decide (pv_offset p = 0) then Some start
      else match a with
           | Some c =>
               if bool_decide (as_flags c = pv_flags p /\ as_device c = pv_device p /\
                               as_total c = packet_total p /\ zlen (as_bytes c) = pv_offset p)
               then Some c else None
           | None => None
           end in
    match from with
    | None => (AI_ERR_SEQUENCE, None, None)
    | Some c =>
        let c := Build_assembly (as_flags c) (as_device c) (as_total c)
                   (as_bytes c ++ packet_bytes p) in
        if bool_decide (pv_remaining p = 0) then (AI_COMPLETE, None, Some c)
        else (AI_OK, Some c, None)
    end.

(** The storage is in range: what [ai_reassembler_push] keeps. *)
Record ra_wf (s : ai_reassembler) : Prop := {
  wf_data : zlen (data s) = AI_MAX_MESSAGE_SIZE;
  wf_used : 0 <= used s <= total s;
  wf_total : total s <= AI_MAX_MESSAGE_SIZE;
  wf_bytes : is_bytes (data s);
}.

(** What [ai_packet_decode] delivers ([packet_decode_view_ok]). *)
Record view_ok (p : ai_packet_view) : Prop := {
  ok_offset : is_u16 (pv_offset p);
  ok_remaining : is_u16 (pv_remaining p);
  ok_length : is_u16 (pv_length p);
  ok_data : forall bytes, pv_data p = Some bytes ->
    is_bytes bytes /\ (pv_length p <= AI_PACKET_DATA_SIZE -> pv_length p <= zlen bytes);
  ok_present : pv_length p <> 0 -> pv_data p <> None;
}.

Definition ra_abs (s : ai_reassembler) : option assembly :=
  if active s
  then Some (Build_assembly (ra_flags s) (ra_device s) (total s) (prefix_list (data s) (used s)))
  else None.

Definition view_of (m : ai_message_view) : assembly :=
  Build_assembly (mv_flags m) (mv_device m) (mv_length m)
    (prefix_list (default [] (mv_data m)) (mv_length m)).

Lemma ra_wf_zero : ra_wf reassembler_zero.
Proof. split; [done|done|done|]. apply Forall_replicate. done. Qed.

(** The state is that of a message in progress which [p] continues. *)
Record continues (s : ai_reassembler) (p : ai_packet_view) : Prop := {
  co_active : active s = true;
  co_used : used s = pv_offset p;
  co_total : total s = packet_total p;
  co_fits : packet_total p <= AI_MAX_MESSAGE_SIZE /\ pv_length p <= AI_PACKET_DATA_SIZE;
}.

(** Reduces the fields of an updated state. *)
Ltac ra_simpl := cbn [set_field active ra_flags ra_device used total data] in *.

Definition refines_push (s' : ptr ai_reassembler) (m m' : ptr ai_message_view)
    (spec : option assembly * option assembly) : Prop :=
  exists st, s' = Some st /\ ra_wf st /\ ra_abs st = spec.1 /\
    match spec.2 with
    | Some c => exists v, m' = Some v /\ view_of v = c
    | None => m' = m
    end.

Lemma deliver_refines s p m :
  ra_wf s -> view_ok p -> continues s p ->
  let c := Build_assembly (ra_flags s) (ra_device s) (total s)
             (prefix_list (data s) (used s) ++ packet_bytes p) in
  let '(rc, s', m') := ra_deliver s p (pv_offset p + pv_length p) m in
  if decide (pv_remaining p = 0)
  then rc = AI_COMPLETE /\ refines_push s' m m' (None, Some c)
  else rc = AI_OK /\ refines_push s' m m' (Some c, None).
Proof.
  intros [Hd Hu Ht Hb] [[Ho _] [Hr _] [Hl _] Hdata Hp] [Ha Hused Htot [Hfit Hfit']].
  unfold ra_deliver. set (s1 := match pv_data p with Some _ => _ | None => _ end).
  assert (active s1 = true /\ ra_flags s1 = ra_flags s /\ ra_device s1 = ra_device s /\
    total s1 = total s /\ zlen (data s1) = AI_MAX_MESSAGE_SIZE /\ is_bytes (data s1) /\
    prefix_list (data s1) (pv_offset p + pv_length p) =
    prefix_list (data s) (used s) ++ packet_bytes p) as (A & F & D & T & L & B & P).
  { unfold packet_total in *. subst s1. rewrite Hused. unfold packet_bytes.
    destruct (pv_data p) as [bytes|]; [destruct (Hdata bytes eq_refl) as [Hbb Hlen]|];
      destruct (Z.eqb_spec (pv_length p) 0) as [E|E]; cbn [negb default];
      try (by destruct (Hp E)); ra_simpl.
    - rewrite E, Z.add_0_r, prefix_list_0, app_nil_r. done.
    - specialize (Hlen Hfit'). rewrite zlen_memcpy, memcpy_prefix by lia.
      split_and!; try done. apply memcpy_bytes; done || lia.
    - rewrite E, Z.add_0_r, prefix_list_0, app_nil_r. done. }
  clearbody s1. unfold packet_total in *. ra_simpl.
  assert (0 <= pv_offset p + pv_length p <= total s1) by lia.
  destruct (Z.eqb_spec (pv_remaining p) 0) as [E|E]; cbn [negb].
  - rewrite (proj2 (Z.eqb_eq _ _)) by lia. cbn [negb]. rewrite decide_True by done. split; [done|].
    eexists. split; [done|]. split; [by split; ra_simpl; try lia|].
    split; [done|]. eexists. split; [done|]. unfold view_of. ra_simpl. cbn [mv_flags mv_device mv_length mv_data default].
    rewrite F, D, T, <- P. do 2 f_equal. lia.
  - rewrite decide_False by done. split; [done|]. eexists. split; [done|].
    split; [split; ra_simpl; lia || done|]. split; [|done].
    unfold ra_abs. ra_simpl. by rewrite A, F, D, T, P.
Qed.

Lemma push_refines s p m :
  ra_wf s -> view_ok p -> m <> None ->
  exists s' m',
    ai_reassembler_push (Some s) (Some p) m = ((asm_push (ra_abs s) p).1.1, s', m') /\
    refines_push s' m m' ((asm_push (ra_abs s) p).1.2, (asm_push (ra_abs s) p).2).
Proof.
  intros Hwf Hv Hm. destruct m as [m0|]; [clear Hm|done].
  pose proof Hwf as [Hd Hu Ht Hb]. pose proof Hv as [Ho Hr Hl Hdata Hp].
  unfold ai_reassembler_push, asm_push.
  assert (negb (pv_length p =? 0) && is_null (pv_data p) = false) as ->.
  { destruct (Z.eqb_spec (pv_length p) 0) as [E|E]; [done|]. by destruct (pv_data p); [|destruct (Hp E)]. }
  rewrite (wrap_id 64 (pv_offset p + pv_length p)) by word_lia.
  rewrite (wrap_id 64 (_ + pv_remaining p)) by word_lia.
  unfold fits in *. fold (packet_total p).
  rewrite (proj2 (Z.ltb_ge _ (pv_offset p))), (proj2 (Z.ltb_ge (packet_total p) _))
    by (unfold packet_total; lia). cbn [orb].
  assert (refines_push (Some reassembler_zero) (Some m0) (Some m0) (None, None)) as Hreset.
  { eexists. split; [done|]. split; [apply ra_wf_zero|done]. }
  case_bool_decide as Hlong.
  { assert (_ || _ = true) as ->; [apply orb_true_iff; rewrite !Z.ltb_lt; exact Hlong|].
    do 2 eexists. done. }
  assert (_ || _ = false) as ->; [apply orb_false_iff; rewrite !Z.ltb_ge; lia|].
  assert (forall s1, ra_wf s1 -> continues s1 p -> forall c, c = Build_assembly (ra_flags s1)
    (ra_device s1) (total s1) (prefix_list (data s1) (used s1)) ->
    let c := Build_assembly (as_flags c) (as_device c) (as_total c)
               (as_bytes c ++ packet_bytes p) in
    let spec := if bool_decide (pv_remaining p = 0) then (AI_COMPLETE, None, Some c)
                else (AI_OK, Some c, None) in
    exists s' m', ra_deliver s1 p (pv_offset p + pv_length p) (Some m0) = (spec.1.1, s', m') /\
      refines_push s' (Some m0) m' (spec.1.2, spec.2)) as Hdeliver.
  { intros s1 H1 H2 c ->. pose proof (deliver_refines s1 p (Some m0) H1 Hv H2) as H.
    destruct (ra_deliver _ _ _ _) as [[rc s'] m']. cbn [as_flags as_device as_total as_bytes].
    destruct (decide (pv_remaining p = 0)) as [E|E]; destruct H as [-> H];
      [rewrite bool_decide_true by done|rewrite bool_decide_false by done]; eauto. }
  destruct (Z.eqb_spec (pv_offset p) 0) as [E0|E0].
  - rewrite bool_decide_true by done.
    apply (Hdeliver (ra_begin s p (packet_total p)));
      [| |by cbn [ra_begin set_field used]].
    + unfold ra_begin. split; ra_simpl; try done; unfold packet_total in *; lia.
    + unfold ra_begin. split; ra_simpl; try done; lia.
  - rewrite bool_decide_false by done. unfold ra_abs.
    destruct (active s) eqn:Ea; [cbn [negb orb as_flags as_device as_total as_bytes]|by do 2 eexists].
    rewrite zlen_prefix by lia.
    destruct (bool_decide_reflect (ra_flags s = pv_flags p /\ ra_device s = pv_device p /\
      total s = packet_total p /\ used s = pv_offset p)) as [Hc|Hc].
    + assert (_ || _ = false) as ->.
      2:{ refine (Hdeliver s Hwf _ _ eq_refl). split; try done; lia. }
      rewrite !orb_false_iff, !negb_false_iff, !Z.eqb_eq. lia.
    + assert (_ || _ = true) as ->; [|by do 2 eexists].
      apply not_false_iff_true. intros E. apply Hc.
      rewrite !orb_false_iff, !negb_false_iff, !Z.eqb_eq in E. lia.
Qed.

(** ** Every fragmentation of a message gives it back *)

Fixpoint fragments (flags device tot off : Z) (chunks : list (list Z)) : list ai_packet_view :=
  match chunks with
  | [] => []
  | c :: chunks =>
      {| pv_flags := flags; pv_device := device; pv_offset := off;
         pv_remaining := tot - off - zlen c; pv_length := zlen c; pv_data := Some c |}
      :: fragments flags device tot (off + zlen c) chunks
  end.

Fixpoint push_all (s : ptr ai_reassembler) (m : ptr ai_message_view) (ps : list ai_packet_view)
    : list ai_status * ptr ai_reassembler * ptr ai_message_view :=
  match ps with
  | [] => ([], s, m)
  | p :: ps =>
      let '(rc, s, m) := ai_reassembler_push s (Some p) m in
      let '(rcs, s, m) := push_all s m ps in (rc :: rcs, s, m)
  end.

Lemma fragments_cons flags device tot off c chunks :
  fragments flags device tot off (c :: chunks) =
  Build_ai_packet_view flags device off (tot - off - zlen c) (zlen c) (Some c)
    :: fragments flags device tot (off + zlen c) chunks.
Proof. done. Qed.

Lemma push_all_cons s m p ps :
  push_all s m (p :: ps) =
  let '(rc, s, m) := ai_reassembler_push s (Some p) m in
  let '(rcs, s, m) := push_all s m ps in (rc :: rcs, s, m).
Proof. done. Qed.

Definition chunk_ok (c : list Z) : Prop :=
  is_bytes c /\ 0 < zlen c <= AI_PACKET_DATA_SIZE.

Lemma prefix_whole (c : list Z) : prefix_list c (zlen c) = c.
Proof. unfold prefix_list, zlen. rewrite Nat2Z.id. apply firstn_all. Qed.

Lemma fragments_delivered flags device c chunks pre s m :
  ra_wf s -> m <> None -> Forall chunk_ok (c :: chunks) ->
  zlen (pre ++ concat (c :: chunks)) <= AI_MAX_MESSAGE_SIZE ->
  let tot := zlen (pre ++ concat (c :: chunks)) in
  pre = [] \/ ra_abs s = Some (Build_assembly flags device tot pre) ->
  exists s' v,
    push_all (Some s) m (fragments flags device tot (zlen pre) (c :: chunks)) =
      (replicate (length chunks) AI_OK ++ [AI_COMPLETE], Some s', Some v) /\ ra_wf s' /\
    view_of v = Build_assembly flags device tot (pre ++ concat (c :: chunks)).
Proof.
  revert c pre s m. induction chunks as [|c' chunks IH]; intros c pre s m Hwf Hm Hc Hlen tot Habs;
    apply Forall_cons in Hc as [[Hb Hz] Hcs]; rewrite fragments_cons.
  all: set (p := Build_ai_packet_view _ _ _ _ _ _);
    assert (tot = zlen pre + zlen c + pv_remaining p) as Htot by (cbn; lia);
    assert (0 <= zlen pre) by (unfold zlen; lia);
    assert (0 <= pv_remaining p) as Hrem by
      (subst p tot; cbn [pv_remaining]; cbn [concat]; rewrite !zlen_app; unfold zlen; lia);
    unfold AI_MAX_MESSAGE_SIZE, AI_PACKET_DATA_SIZE in *;
    assert (view_ok p) as Hv by (split; [split; cbn; lia|split; cbn in *; lia|split; cbn; lia|
      intros ? [= <-]; cbn; split; [done|lia]|done]);
    destruct (push_refines s p m Hwf Hv Hm) as (s' & m' & Hpush & s1 & -> & Hwf' & Habs' & Hv');
    assert (asm_push (ra_abs s) p =
      let c := Build_assembly flags device tot (pre ++ c) in
      if bool_decide (pv_remaining p = 0) then (AI_COMPLETE, None, Some c)
      else (AI_OK, Some c, None)) as Hasm.
  1,3: assert (packet_total p = tot) as Hpt by (symmetry; exact Htot);
    assert (packet_bytes p = c) as Hpb by exact (prefix_whole c);
    unfold asm_push; rewrite Hpt, Hpb;
    change (pv_offset p) with (zlen pre); change (pv_length p) with (zlen c);
    change (pv_flags p) with flags; change (pv_device p) with device;
    rewrite bool_decide_false by (unfold AI_MAX_MESSAGE_SIZE, AI_PACKET_DATA_SIZE; lia);
    destruct Habs as [->|Ha];
    [rewrite bool_decide_true by done; done|];
    destruct (bool_decide_reflect (zlen pre = 0)) as [E|E];
    [destruct pre; [done|by unfold zlen in E]|rewrite Ha, bool_decide_true by done; done].
  - assert (pv_remaining p = 0) as E.
    { subst p tot; cbn [pv_remaining concat]. rewrite app_nil_r, !zlen_app. lia. }
    rewrite Hasm, bool_decide_true in * by done. cbn [fst snd] in *.
    destruct Hv' as (v & -> & Hview). rewrite push_all_cons, Hpush.
    exists s1, v. cbn [concat]. rewrite app_nil_r. done.
  - assert (pv_remaining p <> 0) as E.
    { apply Forall_cons in Hcs as [[_ ?] _].
      subst p tot; cbn [pv_remaining concat]. rewrite !zlen_app. unfold zlen in *. lia. }
    rewrite Hasm, bool_decide_false in * by done. cbn [fst snd] in *. subst m'.
    assert (pre ++ concat (c :: c' :: chunks) = (pre ++ c) ++ concat (c' :: chunks)) as Eapp
      by (cbn [concat]; by rewrite !app_assoc).
    destruct (IH c' (pre ++ c) s1 m) as (s2 & v & Hp & Hw & Hview); try done.
    { by rewrite <- Eapp. }
    { right. rewrite Habs'. subst tot. by rewrite Eapp. }
    exists s2, v. rewrite <- Eapp in Hp, Hview. fold tot in Hp, Hview.
    rewrite push_all_cons, Hpush. rewrite zlen_app in Hp. by rewrite Hp.
Qed.

(** ** The codec *)

Lemma get_le16_u16 d at_ : is_u8 d .[ at_ + 1 ] -> get_le16 d at_ = get_u16 d at_.
Proof.
  intros H. unfold get_le16, get_u16. rewrite (wrap_id 16); [done|].
  rewrite Z.shiftl_mul_pow2 by done. word_lia.
Qed.

Lemma get_le16_bytes d at_ : is_bytes d -> 0 <= at_ -> at_ + 2 <= zlen d -> get_le16 d at_ = get_u16 d at_.
Proof. intros. apply get_le16_u16, arr_get_Forall; [done|lia]. Qed.

Lemma put_le16_u16 d at_ v : put_le16 d at_ v = put_u16 d at_ v.
Proof. unfold put_le16, put_u16. by rewrite !land_ff. Qed.

(** A view delivered by [ai_packet_decode] never leads outside the packet. *)
Lemma packet_decode_view_ok raw out v :
  zlen raw = AI_PACKET_SIZE -> is_bytes raw ->
  ai_packet_decode (Some raw) out = (AI_OK, Some v) -> view_ok v.
Proof.
  intros Hl Hb. unfold ai_packet_decode, AI_PACKET_SIZE in *. destruct out as [o|]; [|done].
  destruct (negb _); [done|]. destruct (Z.ltb_spec AI_PACKET_DATA_SIZE (get_le16 raw 6)); [done|].
  intros [= <-].
  assert (forall k, 0 <= k -> k + 2 <= 256 -> is_u16 (get_le16 raw k)) as Hg.
  { intros. rewrite get_le16_bytes by (done || lia). apply get_u16_fits; done || lia. }
  split; cbn; [apply Hg; lia..| |done].
  intros ? [= <-]. split; [by apply advance_bytes|]. intros.
  rewrite zlen_advance by lia. unfold AI_PACKET_DATA_SIZE in *. lia.
Qed.

Lemma crc_ext seed d d' n :
  (forall i, 0 <= i < n -> d .[ i ] = d' .[ i ]) ->
  ai_crc16_usb seed d n = ai_crc16_usb seed d' n.
Proof.
  intros H. unfold ai_crc16_usb. apply for_range_ext. intros i s Hi. by rewrite H by lia.
Qed.

Lemma crc_fits d n : is_bytes d -> 0 <= n <= zlen d -> is_u16 (ai_crc16_usb 0 d n).
Proof. intros. by apply crc16_prefix. Qed.

(** Storing the checksum of [n] bytes from [base] behind them seals them. *)
Lemma seal_load d base n :
  is_bytes d -> 0 <= base -> 0 <= n -> base + n + 2 <= zlen d ->
  let d' := put_le16 d (base + n) (ai_crc16_usb 0 (advance d base) n) in
  ai_crc16_usb 0 (advance d' base) n = get_le16 (advance d' base) n.
Proof.
  intros Hb ??? d'. subst d'. rewrite put_le16_u16.
  rewrite get_le16_bytes; [|by apply advance_bytes, put_u16_bytes|lia|
    rewrite zlen_advance by (rewrite zlen_put_u16; lia); rewrite zlen_put_u16; lia].
  rewrite get_u16_advance, load_store_u16 by (try apply crc_fits;
    try apply advance_bytes; rewrite ?zlen_advance; done || lia).
  apply crc_ext. intros i Hi. rewrite !get_advance, get_put_u16 by lia.
  by rewrite decide_False by lia.
Qed.

(** The checksum only covers what lies before it: later stores keep the seal. *)
Lemma seal_keep d d' n :
  (forall i, 0 <= i < n + 2 -> d .[ i ] = d' .[ i ]) ->
  ai_crc16_usb 0 d n = get_le16 d n -> 0 <= n ->
  ai_crc16_usb 0 d' n = get_le16 d' n.
Proof.
  intros H E ?. rewrite <- (crc_ext 0 d) by (intros; apply H; lia). rewrite E.
  unfold get_le16. by rewrite !H by lia.
Qed.

(** A sealed packet is decoded, a sealed message too. *)
Lemma packet_decode_sealed r o :
  ai_crc16_usb 0 r 254 = get_le16 r 254 -> get_le16 r 6 <= AI_PACKET_DATA_SIZE ->
  ai_packet_decode (Some r) (Some o) =
    (AI_OK, Some {| pv_flags := r .[ 0 ]; pv_device := r .[ 1 ]; pv_offset := get_le16 r 2;
       pv_remaining := get_le16 r 4; pv_length := get_le16 r 6; pv_data := Some (advance r 8) |}).
Proof.
  intros Hs Hl. unfold ai_packet_decode. change (AI_PACKET_SIZE - 2) with 254.
  rewrite Hs, Z.eqb_refl. cbn [negb]. by rewrite (proj2 (Z.ltb_ge _ _)).
Qed.

Lemma message_decode_sealed r size o :
  10 <= size <= 2048 -> get_le16 r 6 = size - 10 ->
  ai_crc16_usb 0 r (size - 2) = get_le16 r (size - 2) ->
  ai_message_decode (Some r) size (Some o) =
    (AI_OK, Some {| pm_type := r .[ 0 ]; pm_report := r .[ 1 ]; pm_device := r .[ 2 ];
       pm_id := r .[ 3 ]; pm_response_length := get_le16 r 4;
       pm_payload := Some (advance r 8); pm_payload_length := size - 10 |}).
Proof.
  intros Hsz Hl Hs. unfold ai_message_decode. rewrite (proj2 (Z.ltb_ge _ _)) by lia.
  rewrite Hl, (wrap_id 64) by word_lia. rewrite (proj2 (Z.ltb_ge _ (size - 10))) by lia.
  rewrite (proj2 (Z.eqb_eq size _)) by lia. cbn [orb negb]. by rewrite Hs, Z.eqb_refl.
Qed.

(** What a packet carries to the other side: decoded, reassembled from whatever state
    the reassembler is in and decoded again, it is this message. *)
Definition delivers (raw : list Z) (flags target type report device id response_length : Z)
    (payload : list Z) : Prop :=
  forall s v0 m0 o0, ra_wf s ->
  exists v s' m bytes o,
    ai_packet_decode (Some raw) (Some v0) = (AI_OK, Some v) /\
    ai_reassembler_push (Some s) (Some v) (Some m0) = (AI_COMPLETE, Some s', Some m) /\
    mv_flags m = flags /\ mv_device m = target /\
    ai_message_decode (mv_data m) (mv_length m) (Some o0) = (AI_OK, Some o) /\
    pm_type o = type /\ pm_report o = report /\ pm_device o = device /\ pm_id o = id /\
    pm_response_length o = response_length /\
    pm_payload o = Some bytes /\ prefix_list bytes (pm_payload_length o) = payload.

Lemma prefix_agree (d d' : list Z) n i :
  prefix_list d n = prefix_list d' n -> 0 <= i < n -> d .[ i ] = d' .[ i ].
Proof.
  intros H Hi. rewrite <- (get_prefix d n), <- (get_prefix d' n) by lia. by rewrite H.
Qed.

Lemma prefix_prefix (d : list Z) n k :
  0 <= k <= n -> prefix_list (prefix_list d n) k = prefix_list d k.
Proof. intros. unfold prefix_list. rewrite take_take. f_equal. lia. Qed.

Lemma prefix_advance (d : list Z) n k :
  0 <= n -> 0 <= k -> advance (prefix_list d (n + k)) n = prefix_list (advance d n) k.
Proof.
  intros. unfold prefix_list, advance. rewrite Z2Nat.inj_add by lia.
  by rewrite <- take_drop_commute.
Qed.

(** A packet with a sealed message of [size] bytes at its data delivers it. *)
Lemma sealed_delivers r size :
  zlen r = AI_PACKET_SIZE -> is_bytes r -> 10 <= size <= AI_PACKET_DATA_SIZE ->
  get_u16 r 2 = 0 -> get_u16 r 4 = 0 -> get_u16 r 6 = size -> get_u16 r 14 = size - 10 ->
  ai_crc16_usb 0 (advance r 8) (size - 2) = get_le16 (advance r 8) (size - 2) ->
  ai_crc16_usb 0 r 254 = get_le16 r 254 ->
  delivers r r .[ 0 ] r .[ 1 ] r .[ 8 ] r .[ 9 ] r .[ 10 ] r .[ 11 ] (get_u16 r 12)
    (prefix_list (advance r 16) (size - 10)).
Proof.
  unfold AI_PACKET_SIZE, AI_PACKET_DATA_SIZE.
  intros Hl Hb Hsz H2 H4 H6 H14 Hm Hp s v0 m0 o0 Hs.
  assert (forall k, 0 <= k -> k + 2 <= 256 -> get_le16 r k = get_u16 r k) as Hg.
  { intros. apply get_le16_bytes; done || lia. }
  pose proof (packet_decode_sealed r v0 Hp) as Hdec.
  rewrite !Hg, H2, H4, H6 in Hdec by lia. specialize (Hdec ltac:(unfold AI_PACKET_DATA_SIZE; lia)).
  pose proof (packet_decode_view_ok r _ _ Hl Hb Hdec) as Hv.
  set (v := Build_ai_packet_view _ _ _ _ _ _) in *.
  destruct (push_refines s v (Some m0) Hs Hv) as (s' & m' & Hpush & st & -> & Hwf & Habs & Hres); [done|].
  assert (asm_push (ra_abs s) v = (AI_COMPLETE, None,
    Some (Build_assembly r .[ 0 ] r .[ 1 ] size (prefix_list (advance r 8) size)))) as Hasm.
  { unfold asm_push, packet_total, packet_bytes. cbn [v pv_offset pv_length pv_remaining pv_flags
      pv_device pv_data default]. rewrite bool_decide_false by (unfold AI_MAX_MESSAGE_SIZE, AI_PACKET_DATA_SIZE; lia).
    rewrite !bool_decide_true by done. cbn [as_flags as_device as_total as_bytes app].
    by replace (0 + size + 0) with size by lia. }
  rewrite Hasm in *. cbn [fst snd] in *. destruct Hres as (m & -> & Hview).
  unfold view_of in Hview. injection Hview as Ef Ed El Eb. rewrite El in Eb.
  destruct (mv_data m) as [bytes|] eqn:Edata; cbn [default] in Eb; unfold id in Eb.
  2:{ apply (f_equal zlen) in Eb. rewrite (zlen_prefix (advance r 8)) in Eb
        by (rewrite zlen_advance; lia). unfold prefix_list in Eb. rewrite take_nil in Eb.
      unfold zlen in Eb. simpl in Eb. lia. }
  assert (forall i, 0 <= i < size -> bytes .[ i ] = r .[ 8 + i ]) as Hby.
  { intros i Hi. rewrite (prefix_agree _ _ _ _ Eb) by lia. by rewrite get_advance by lia. }
  assert (forall k, 0 <= k -> k + 2 <= size -> get_le16 bytes k = get_u16 r (8 + k)) as Hg'.
  { intros k ??. rewrite <- Hg by lia. unfold get_le16. rewrite !Hby by lia.
    by rewrite Z.add_assoc. }
  pose proof (message_decode_sealed bytes size o0 ltac:(lia)) as Hmsg.
  rewrite (Hg' 6), (Hg' 4), !Hby in Hmsg by lia. specialize (Hmsg H14).
  eexists v, st, m, (advance bytes 8), _. rewrite Edata, El.
  do 4 (split; [eassumption|]). split.
  - apply Hmsg, (seal_keep (advance r 8)); [|done|lia].
    intros i Hi. by rewrite Hby, get_advance by lia.
  - do 6 (split; [done|]). cbn [pm_payload_length]. 
    rewrite <- (prefix_advance bytes 8 (size - 10)), <- (prefix_prefix bytes size) by lia.
    rewrite Eb, prefix_prefix, prefix_advance by lia. unfold advance. by rewrite drop_drop.
Qed.

(** Both encoders end by sealing the message, then the packet. *)
Definition seal (r : list Z) (size : Z) : list Z :=
  let r := put_le16 r (8 + size - 2) (ai_crc16_usb 0 (advance r 8) (size - 2)) in
  put_le16 r (AI_PACKET_SIZE - 2) (ai_crc16_usb 0 r (AI_PACKET_SIZE - 2)).

Lemma get_seal r size i :
  zlen r = AI_PACKET_SIZE -> 10 <= size <= AI_PACKET_DATA_SIZE ->
  0 <= i < 8 + size - 2 -> (seal r size) .[ i ] = r .[ i ].
Proof.
  unfold AI_PACKET_SIZE, AI_PACKET_DATA_SIZE. intros Hl Hs Hi. unfold seal, AI_PACKET_SIZE. rewrite !put_le16_u16.
  rewrite get_put_u16 by (rewrite ?zlen_put_u16; lia). rewrite decide_False by lia.
  rewrite get_put_u16 by lia. by rewrite decide_False by lia.
Qed.

Lemma seal_delivers r size :
  zlen r = AI_PACKET_SIZE -> is_bytes r -> 10 <= size <= AI_PACKET_DATA_SIZE ->
  get_u16 r 2 = 0 -> get_u16 r 4 = 0 -> get_u16 r 6 = size -> get_u16 r 14 = size - 10 ->
  zlen (seal r size) = AI_PACKET_SIZE /\
  delivers (seal r size) r .[ 0 ] r .[ 1 ] r .[ 8 ] r .[ 9 ] r .[ 10 ] r .[ 11 ] (get_u16 r 12)
    (prefix_list (advance r 16) (size - 10)).
Proof.
  intros Hl Hb Hs H2 H4 H6 H14. pose proof (fun i => get_seal r size i Hl Hs) as Hg.
  unfold AI_PACKET_SIZE, AI_PACKET_DATA_SIZE in *.
  assert (forall k, 0 <= k -> k + 2 <= 8 + size - 2 -> get_u16 (seal r size) k = get_u16 r k) as Hg2.
  { intros k ??. unfold get_u16. by rewrite !Hg by lia. }
  assert (zlen (seal r size) = 256) as Hl'.
  { unfold seal. by rewrite !put_le16_u16, !zlen_put_u16. }
  split; [done|].
  assert (prefix_list (advance r 16) (size - 10) =
          prefix_list (advance (seal r size) 16) (size - 10)) as ->.
  { apply arr_ext; rewrite !zlen_prefix by (rewrite ?zlen_advance; lia); [done|].
    intros i Hi. by rewrite !get_prefix, !get_advance, Hg by lia. }
  rewrite <- !Hg, <- (Hg2 12) by lia.
  apply sealed_delivers; unfold AI_PACKET_SIZE, AI_PACKET_DATA_SIZE;
    rewrite ?Hg2 by lia; try done.
  - unfold seal. rewrite !put_le16_u16. by apply put_u16_bytes, put_u16_bytes.
  - pose proof (seal_load r 8 (size - 2) Hb) as Hseal. cbv zeta in Hseal.
    replace (8 + (size - 2)) with (8 + size - 2) in Hseal by lia.
    eapply seal_keep; [|apply Hseal; lia|lia].
    intros i Hi. unfold seal. rewrite !get_advance by lia.
    rewrite (put_le16_u16 _ (AI_PACKET_SIZE - 2)), get_put_u16; unfold AI_PACKET_SIZE;
      rewrite ?put_le16_u16, ?zlen_put_u16; try lia. by rewrite decide_False by lia.
  - unfold seal. set (r1 := put_le16 r _ _).
    pose proof (seal_load r1 0 254) as Hseal. apply Hseal; try lia.
    + subst r1. rewrite put_le16_u16. by apply put_u16_bytes.
    + subst r1. rewrite put_le16_u16, zlen_put_u16. lia.
Qed.

Lemma prefix_pair (d : list Z) : 2 <= zlen d -> prefix_list d 2 = [d .[ 0 ]; d .[ 1 ]].
Proof. destruct d as [|a [|b d]]; unfold zlen; simpl; try lia. done. Qed.

(** The cleared packet both encoders start from. *)
Lemma memset0_packet raw :
  zlen raw = AI_PACKET_SIZE -> exists z, memset0 raw AI_PACKET_SIZE = z /\
  zlen z = 256 /\ is_bytes z /\ (forall i, 0 <= i < 256 -> z .[ i ] = 0) /\ forall i, 0 <= i < 256 -> get_u16 z i = 0.
Proof.
  intros H. exists (replicate 256 0). split_and!; [|done|by apply Forall_replicate| |].
  - rewrite <- H, memset0_all. unfold zlen, AI_PACKET_SIZE in H. f_equal. lia.
  - intros i Hi. by rewrite get_replicate by lia.
  - intros i Hi. unfold get_u16. destruct (decide (i = 255)) as [->|]; [done|].
    by rewrite !get_replicate by lia.
Qed.

(** Reads the buffer the encoder filled before sealing it, store by store. *)
Ltac sealed_request H0 :=
  let Hlen := fresh in let Hdel := fresh in
  rewrite !put_le16_u16;
  match goal with |- context [seal ?x ?n] => destruct (seal_delivers x n) as [Hlen Hdel] end;
  [ unfold AI_PACKET_SIZE; buffer_side | by buffer_bytes | unfold AI_PACKET_DATA_SIZE; lia
  | buffer_read; by rewrite ?H0 .. | split; [exact Hlen|] ];
  revert Hdel; unfold AI_PACKET_SIZE, AI_PACKET_DATA_SIZE; buffer_read.

(** what the host asks is what the device reads, and by the same path the other
    way: the packet [ai_discovery_request_encode] builds is accepted by the packet
    decoder, completes a message in one push whatever the reassembler was doing, and
    that message decodes to the request's target, type, report, device, the message
    id and the response length, with an empty payload. *)
Theorem request_roundtrip q id raw :
  zlen raw = AI_PACKET_SIZE -> is_u8 id -> is_u8 (dr_target q) -> is_u8 (dr_type q) ->
  is_u8 (dr_report q) -> is_u8 (dr_device q) -> is_u16 (dr_response_length q) ->
  exists raw', ai_discovery_request_encode (Some q) id (Some raw) = (AI_OK, Some raw') /\
    zlen raw' = AI_PACKET_SIZE /\
    delivers raw' AI_PACKET_WRITE (dr_target q) (dr_type q) (dr_report q) (dr_device q) id
      (dr_response_length q) [].
Proof.
  intros Hl Hid Ht Hty Hr Hd Hrl.
  destruct (memset0_packet raw Hl) as (z & Ez & Hz & Hb & Hz0 & H0).
  unfold ai_discovery_request_encode. rewrite Ez. eexists. split; [reflexivity|].
  match goal with |- context [put_le16 (put_le16 ?x 16 _)] => set (r := x) end.
  change (put_le16 (put_le16 r 16 _) _ _) with (seal r 10). subst r.
  sealed_request H0. done.
Qed.

(** The trackpad's two initialisation requests travel the same way. *)
Lemma init_request_roundtrip phase id raw :
  zlen raw = AI_PACKET_SIZE -> is_u8 id ->
  phase = AI_TRACKPAD_INIT_DIMENSIONS \/ phase = AI_TRACKPAD_INIT_MULTITOUCH ->
  exists raw', ai_trackpad_init_request_encode phase id (Some raw) = (AI_OK, Some raw') /\
    zlen raw' = AI_PACKET_SIZE /\
    if decide (phase = AI_TRACKPAD_INIT_DIMENSIONS)
    then delivers raw' AI_PACKET_WRITE 0x02 0x32 0xd9 0x00 id 0x20 []
    else delivers raw' AI_PACKET_WRITE 0x02 0x52 0x02 0x00 id 2 [0x02; 0x01].
Proof.
  intros Hl Hid Hphase.
  destruct (memset0_packet raw Hl) as (z & Ez & Hz & Hb & Hz0 & H0).
  unfold ai_trackpad_init_request_encode. rewrite Ez.
  destruct Hphase as [-> | ->]; (eexists; split; [reflexivity|]); cbn [decide].
  - match goal with |- context [ai_crc16_usb 0 (advance ?x 8) _] => set (r := x) end.
    change (put_le16 (put_le16 r _ _) _ _) with (seal r 10). subst r.
    sealed_request H0. done.
  - match goal with |- context [ai_crc16_usb 0 (advance ?x 8) _] => set (r := x) end.
    change (put_le16 (put_le16 r _ _) _ _) with (seal r 12). subst r.
    sealed_request H0. rewrite Hz0 by lia. intros Hdel.
    rewrite prefix_pair in Hdel by (rewrite zlen_advance; buffer_side).
    rewrite !get_advance in Hdel by lia. revert Hdel. buffer_read.
    rewrite !get_put_u16 by buffer_side. done.
Qed.

(** ** The properties *)

Lemma fresh_wf : exists s, ai_reassembler_reset (Some reassembler_zero) = Some s /\ ra_wf s.
Proof. eexists. split; [done|apply ra_wf_zero]. Qed.

Definition demo_request : ai_discovery_request :=
  {| dr_target := 0xd0; dr_type := 0x20; dr_report := 0x10; dr_device := 2;
     dr_response_length := 512 |}.

Lemma request_roundtrip_witness :
  exists raw', ai_discovery_request_encode (Some demo_request) 7 (Some (replicate 256 0xaa)) =
      (AI_OK, Some raw') /\ zlen raw' = AI_PACKET_SIZE /\
    delivers raw' AI_PACKET_WRITE 0xd0 0x20 0x10 2 7 512 [].
Proof. by apply (request_roundtrip demo_request 7 (replicate 256 0xaa)). Defined.

(** What a caller sees of a packet: the status, and the message when there is one. *)
Fixpoint ra_run (s : ptr ai_reassembler) (m : ptr ai_message_view) (ps : list ai_packet_view)
    : list (ai_status * option assembly) :=
  match ps with
  | [] => []
  | p :: ps =>
      let '(rc, s, m) := ai_reassembler_push s (Some p) m in
      (rc, if bool_decide (rc = AI_COMPLETE) then view_of <$> m else None) :: ra_run s m ps
  end.

Fixpoint asm_run (a : option assembly) (ps : list ai_packet_view)
    : list (ai_status * option assembly) :=
  match ps with
  | [] => []
  | p :: ps => let '(rc, a, c) := asm_push a p in (rc, c) :: asm_run a ps
  end.

Lemma asm_push_status a p : is_Some (asm_push a p).2 <-> (asm_push a p).1.1 = AI_COMPLETE.
Proof.
  unfold asm_push. case_bool_decide; [by split; [intros [? [=]]|]|].
  destruct (if bool_decide (pv_offset p = 0) then _ else _); [|by split; [intros [? [=]]|]].
  case_bool_decide; split; try done; by intros [? [=]].
Qed.

Lemma ra_run_refines ps s m :
  ra_wf s -> m <> None -> Forall view_ok ps -> ra_run (Some s) m ps = asm_run (ra_abs s) ps.
Proof.
  revert s m. induction ps as [|p ps IH]; intros s m Hwf Hm Hps; [done|].
  apply Forall_cons in Hps as [Hp Hps]. cbn [ra_run asm_run].
  destruct (push_refines s p m Hwf Hp Hm) as (s' & m' & -> & s1 & -> & Hwf' & Habs & Hres).
  pose proof (asm_push_status (ra_abs s) p) as Hst.
  destruct (asm_push (ra_abs s) p) as [[rc a] c]. cbn [fst snd] in *. subst a.
  destruct c as [c|].
  - destruct Hres as (v & -> & <-). rewrite bool_decide_true by (apply Hst; eauto).
    f_equal. by apply IH.
  - subst m'. rewrite bool_decide_false by (intros E; apply Hst in E; by destruct E).
    f_equal. by apply IH.
Qed.

(** C22: from a reset reassembler, every sequence of packets the decoder can deliver
    gives exactly the statuses and messages of the abstract reassembler, whose
    messages are by construction the concatenation of consecutive fragments of one
    device with one flags byte; the storage is never left or overrun. *)
Theorem reassembler_refines ps m :
  Forall view_ok ps -> m <> None ->
  ra_run (ai_reassembler_reset (Some reassembler_zero)) m ps = asm_run None ps.
Proof. intros. by apply (ra_run_refines ps reassembler_zero m ra_wf_zero). Qed.

Definition demo_view (flags offset remaining : Z) (bytes : list Z) : ai_packet_view :=
  {| pv_flags := flags; pv_device := 2; pv_offset := offset; pv_remaining := remaining;
     pv_length := zlen bytes; pv_data := Some bytes |}.
Definition demo_message : ai_message_view :=
  {| mv_flags := 0; mv_device := 0; mv_data := None; mv_length := 0 |}.
Definition demo_packets : list ai_packet_view :=
  [demo_view 0x20 0 2 [1; 2]; demo_view 0x20 2 0 [3; 4]; demo_view 0x20 4 0 [5];
   demo_view 0x20 0 1 [6]; demo_view 0x40 1 0 [7]].

Lemma demo_view_ok flags offset remaining bytes :
  is_u16 offset -> is_u16 remaining -> is_bytes bytes -> zlen bytes < 2 ^ 16 ->
  view_ok (demo_view flags offset remaining bytes).
Proof.
  intros. split; cbn [demo_view pv_offset pv_remaining pv_length pv_data]; try done.
  - split; [unfold zlen; lia|done].
  - by intros ? [= <-].
Qed.

Lemma demo_packets_ok : Forall view_ok demo_packets.
Proof.
  repeat (apply Forall_cons; split;
    [apply demo_view_ok; [done|done|by repeat (constructor; [done|])|done]|]).
  constructor.
Qed.

Lemma reassembler_refines_witness :
  ra_run (ai_reassembler_reset (Some reassembler_zero)) (Some demo_message) demo_packets =
  asm_run None demo_packets /\
  asm_run None demo_packets =
    [(AI_OK, None); (AI_COMPLETE, Some (Build_assembly 0x20 2 4 [1; 2; 3; 4]));
     (AI_ERR_SEQUENCE, None); (AI_OK, None); (AI_ERR_SEQUENCE, None)].
Proof.
  split; [|reflexivity]. by apply (reassembler_refines demo_packets); [apply demo_packets_ok|].
Defined.

(** A message cut into fragments of 1 to 246 bytes and pushed in order, from any
    state of the reassembler, is delivered by the last push and by no earlier one,
    with its source, its length and exactly its bytes. *)
Theorem reassembly_roundtrip flags device chunks s m :
  ra_wf s -> m <> None -> chunks <> [] -> Forall chunk_ok chunks ->
  zlen (concat chunks) <= AI_MAX_MESSAGE_SIZE ->
  exists s' v,
    push_all (Some s) m (fragments flags device (zlen (concat chunks)) 0 chunks) =
      (replicate (length chunks - 1) AI_OK ++ [AI_COMPLETE], Some s', Some v) /\
    ra_wf s' /\
    view_of v = Build_assembly flags device (zlen (concat chunks)) (concat chunks).
Proof.
  intros Hwf Hm Hne Hc Hl. destruct chunks as [|c chunks]; [done|].
  destruct (fragments_delivered flags device c chunks [] s m) as (s' & v & Hp & Hw & Hv); auto.
  exists s', v. cbn [length]. by rewrite Nat.sub_1_r.
Qed.

Lemma reassembly_roundtrip_witness :
  exists s' v,
    push_all (Some reassembler_zero) (Some demo_message) (fragments 0x20 2 5 0 [[1; 2]; [3]; [4; 5]]) =
      ([AI_OK; AI_OK; AI_COMPLETE], Some s', Some v) /\ ra_wf s' /\
    view_of v = Build_assembly 0x20 2 5 [1; 2; 3; 4; 5].
Proof.
  apply (reassembly_roundtrip 0x20 2 [[1; 2]; [3]; [4; 5]]); [apply ra_wf_zero|done|done| |done].
  repeat (apply Forall_cons; split; [split; [by repeat (constructor; [done|])|done]|]).
  constructor.
Defined.

(** The decoder's first test, as the residue of the whole packet. *)
Lemma packet_checksum d :
  zlen d = AI_PACKET_SIZE -> is_bytes d ->
  (ai_crc16_usb 0 d (AI_PACKET_SIZE - 2) =? get_le16 d (AI_PACKET_SIZE - 2)) =
  bool_decide (residue d (zlen d) = 0).
Proof.
  intros Hd Hb. rewrite Hd. rewrite get_le16_bytes by (unfold AI_PACKET_SIZE in *; done || lia).
  apply Bool.eq_iff_eq_true. rewrite Z.eqb_eq, bool_decide_eq_true.
  apply crc_matches; [done|]. rewrite Hd. done.
Qed.

Lemma packet_decode_sealed_iff raw o :
  zlen raw = AI_PACKET_SIZE -> is_bytes raw ->
  (ai_packet_decode (Some raw) (Some o)).1 = AI_ERR_CRC <-> residue raw (zlen raw) <> 0.
Proof.
  intros Hl Hb. unfold ai_packet_decode. rewrite packet_checksum by done.
  case_bool_decide; cbn [negb]; [destruct (_ <? _)|]; by split.
Qed.

Lemma packet_decode_crc_keeps raw o :
  (ai_packet_decode (Some raw) (Some o)).1 = AI_ERR_CRC ->
  ai_packet_decode (Some raw) (Some o) = (AI_ERR_CRC, Some o).
Proof. unfold ai_packet_decode. destruct (negb _); [done|]. by destruct (_ <? _). Qed.

(** C25: no burst of errors of up to 16 bits is accepted: if the decoder accepts a
    packet, then after inverting any nonzero pattern of bits confined to 16
    consecutive bits, anywhere in the 256 bytes (the checksum included), it answers
    AI_ERR_CRC and writes nothing. *)
Theorem burst_never_accepted raw o v burst pos o' :
  zlen raw = AI_PACKET_SIZE -> is_bytes raw ->
  ai_packet_decode (Some raw) (Some o) = (AI_OK, v) ->
  0 <= pos -> 0 < burst < 2 ^ 16 -> Z.shiftl burst pos < 2 ^ (8 * AI_PACKET_SIZE) ->
  ai_packet_decode (Some (flip (Z.shiftl burst pos) raw)) (Some o') = (AI_ERR_CRC, Some o').
Proof.
  intros Hl Hb Hdec Hp Hbu Hlt. apply packet_decode_crc_keeps.
  apply packet_decode_sealed_iff; [by rewrite zlen_flip|by apply flip_bytes|].
  rewrite zlen_flip. apply burst_breaks_seal; [done| |done..|by rewrite Hl].
  apply dec_stable. intros Hr. apply (packet_decode_sealed_iff raw o Hl Hb) in Hr.
  by rewrite Hdec in Hr.
Qed.

Definition demo_packet : list Z :=
  default [] (ai_discovery_request_encode (Some demo_request) 7 (Some (replicate 256 0))).2.
Definition no_view : ai_packet_view :=
  {| pv_flags := 0; pv_device := 0; pv_offset := 0; pv_remaining := 0; pv_length := 0;
     pv_data := None |}.

Lemma burst_never_accepted_witness :
  ai_packet_decode (Some (flip (Z.shiftl 0x8001 77) demo_packet)) (Some no_view) =
    (AI_ERR_CRC, Some no_view).
Proof.
  assert (exists v, ai_packet_decode (Some demo_packet) (Some no_view) = (AI_OK, v)) as [v Hv].
  { eexists. vm_compute. reflexivity. }
  apply (burst_never_accepted demo_packet no_view v 0x8001 77 no_view).
  - by vm_compute.
  - by apply (bool_decide_unpack _); vm_compute.
  - exact Hv.
  - clear. lia.
  - clear. lia.
  - by vm_compute.
Defined.
End Hid.
