(* ===== verification/SpiTransport.v ===== *)
(** * Interrupt hand-off, descriptor store and SPI timing
    (apple-input/protocol/src/apple_spihid_transport.c, apple_spihid_descriptors.c,
    apple_spi_plan.c)

    [Link] is the interrupt-to-worker queue, which InterruptHost.v runs in its host.  [Store]
    keeps the two HID descriptors, [Plan] computes the transfer parameters: the fastest clock
    not above the target, and exact word counts. *)

From S2P Require Import Prelude Arrays Bytes SpiHid.

Module Link.

Record ai_transport_queue := {
  pending : bool;
  worker_active : bool;
  coalesced_irqs : Z;
}.
#[export] Instance queue_eta : Eta ai_transport_queue :=
  fun q => Build_ai_transport_queue (pending q) (worker_active q) (coalesced_irqs q).

Definition queue_zero : ai_transport_queue :=
  {| pending := false; worker_active := false; coalesced_irqs := 0 |}.

Definition ai_transport_queue_reset (queue : ptr ai_transport_queue) : ptr ai_transport_queue :=
  deref _q := queue else NULL in Some queue_zero.

Definition ai_transport_irq (queue : ptr ai_transport_queue) : bool * ptr ai_transport_queue :=
  deref q := queue else (false, queue) in
  if pending q || worker_active q then
    (false, Some (q <| pending := true |> <| coalesced_irqs := u32 (coalesced_irqs q + 1) |>))
  else (true, Some (q <| pending := true |>)).

Definition ai_transport_worker_begin (queue : ptr ai_transport_queue)
    : bool * ptr ai_transport_queue :=
  deref q := queue else (false, queue) in
  if worker_active q || negb (pending q) then (false, queue)
  else (true, Some (q <| pending := false |> <| worker_active := true |>)).

Definition ai_transport_worker_complete (queue : ptr ai_transport_queue)
    (interrupt_asserted : bool) : bool * ptr ai_transport_queue :=
  deref q := queue else (false, queue) in
  if negb (worker_active q) then (false, queue)
  else
    let q := q <| worker_active := false |> in
    let q := if interrupt_asserted then q <| pending := true |> else q in
    (pending q, Some q).
End Link.

Module Store.
Import Hid.

Definition AI_DESCRIPTOR_MAX : Z := 512.

Record ai_descriptor_slot := {
  valid : bool;
  device : Z;
  length : Z;
  bytes : list Z;
}.
#[export] Instance slot_eta : Eta ai_descriptor_slot :=
  fun s => Build_ai_descriptor_slot (valid s) (device s) (length s) (bytes s).

Record ai_descriptor_store := {
  keyboard : ai_descriptor_slot;
  trackpad : ai_descriptor_slot;
}.
#[export] Instance store_eta : Eta ai_descriptor_store :=
  fun s => Build_ai_descriptor_store (keyboard s) (trackpad s).

Definition slot_zero : ai_descriptor_slot :=
  {| valid := false; device := 0; length := 0; bytes := replicate 512 0 |}.

Definition ai_descriptor_store_reset (store : ptr ai_descriptor_store)
    : ptr ai_descriptor_store :=
  deref _s := store else NULL in Some {| keyboard := slot_zero; trackpad := slot_zero |}.

(** [slot] after the stores of [ai_descriptor_store_put]. *)
Definition slot_fill (dev : Z) (b : list Z) (len : Z) : ai_descriptor_slot :=
  let slot := slot_zero in
  let slot := slot <| bytes := memcpy (bytes slot) 0 b len |> in
  slot <| device := dev |> <| length := u16 len |> <| valid := true |>.

Definition ai_descriptor_store_put (store : ptr ai_descriptor_store) (dev : Z)
    (b : ptr (list Z)) (len : Z) : ai_status * ptr ai_descriptor_store :=
  deref s := store else (AI_ERR_ARGUMENT, store) in
  deref src := b else (AI_ERR_ARGUMENT, store) in
  if len =? 0 then (AI_ERR_ARGUMENT, store)
  else if AI_DESCRIPTOR_MAX <? len then (AI_ERR_LENGTH, store)
  else if dev =? 1 then (AI_OK, Some (s <| keyboard := slot_fill dev src len |>))
  else if dev =? 2 then (AI_OK, Some (s <| trackpad := slot_fill dev src len |>))
  else (AI_ERR_PROTOCOL, store).

Definition ai_descriptor_store_get (store : ptr ai_descriptor_store) (dev : Z)
    : ptr ai_descriptor_slot :=
  deref s := store else NULL in
  if dev =? 1 then (if valid (keyboard s) then Some (keyboard s) else NULL)
  else if dev =? 2 then (if valid (trackpad s) then Some (trackpad s) else NULL)
  else NULL.

Definition contents (slot : ptr ai_descriptor_slot) : option (Z * list Z) :=
  s ← slot; Some (device s, prefix_list (bytes s) (length s)).

(** a stored descriptor is read back byte for byte under its device and the other
    device's slot is untouched; a put that is refused (empty, over 512 bytes, unknown
    device) changes nothing. *)
Theorem descriptor_store_roundtrip s dev b other :
  0 <= zlen b < 2 ^ 64 ->
  let '(rc, s') := ai_descriptor_store_put (Some s) dev (Some b) (zlen b) in
  if bool_decide (b <> [] /\ zlen b <= AI_DESCRIPTOR_MAX /\ (dev = 1 \/ dev = 2))
  then rc = AI_OK /\
    contents (ai_descriptor_store_get s' other) =
      if bool_decide (other = dev) then Some (dev, b)
      else contents (ai_descriptor_store_get (Some s) other)
  else rc <> AI_OK /\ s' = Some s.
Proof.
  intros Hb. unfold ai_descriptor_store_put, AI_DESCRIPTOR_MAX.
  assert (b <> [] <-> zlen b <> 0) as Hne by (destruct b; split; done).
  assert (zlen b <= 512 -> contents (Some (slot_fill dev b (zlen b))) = Some (dev, b)) as Hfill.
  { intros Hle. unfold contents, slot_fill. cbn [mbind option_bind set_field device bytes length valid slot_zero].
    rewrite (wrap_id 16) by word_lia. do 2 f_equal.
    pose proof (memcpy_prefix (replicate 512 0) 0 b (zlen b) ltac:(done) ltac:(lia)) as H.
    rewrite Z.add_0_l in H. rewrite H by (done || change (zlen (replicate 512 0)) with 512; lia).
    apply prefix_whole. }
  destruct (Z.eqb_spec (zlen b) 0) as [E|E].
  { rewrite bool_decide_false by tauto. done. }
  destruct (Z.ltb_spec 512 (zlen b)).
  { rewrite bool_decide_false by lia. done. }
  specialize (Hfill ltac:(lia)).
  destruct (Z.eqb_spec dev 1) as [->|]; [|destruct (Z.eqb_spec dev 2) as [->|]].
  1,2: rewrite bool_decide_true by (split_and!; tauto || lia); split; [done|];
    unfold ai_descriptor_store_get; cbn [set_field keyboard trackpad];
    case_bool_decide; subst; [exact Hfill|];
    repeat (case_match; try (guards; lia)); done.
  rewrite bool_decide_false by lia. done.
Qed.

Lemma descriptor_store_roundtrip_witness :
  let s := {| keyboard := slot_zero; trackpad := slot_zero |} in
  contents (ai_descriptor_store_get (ai_descriptor_store_put (Some s) 2 (Some [5; 9; 13]) 3).2 2) =
    Some (2, [5; 9; 13]).
Proof.
  intros s. pose proof (descriptor_store_roundtrip s 2 [5; 9; 13] 2 ltac:(done)) as H.
  change (zlen [5; 9; 13]) with 3 in H.
  destruct (ai_descriptor_store_put _ _ _ _) as [rc s']. by apply H.
Defined.
End Store.

Module Plan.
Import Hid.

Record ai_spi_transfer_plan := {
  clock_divider : Z;
  words : Z;
  bytes_per_word : Z;
  poll : bool;
}.

Inductive ai_spi_register_op_kind := AI_SPI_REGISTER_WRITE | AI_SPI_REGISTER_MASK.

Record ai_spi_register_op := {
  kind : ai_spi_register_op_kind;
  offset : Z;
  clear_mask : Z;
  set_value : Z;
}.
#[export] Instance op_inhabited : Inhabited ai_spi_register_op :=
  populate (Build_ai_spi_register_op AI_SPI_REGISTER_WRITE 0 0 0).

Definition ai_spi_plan_transfer (reference_hz target_hz bits_per_word byte_length : Z)
    (out : ptr ai_spi_transfer_plan) : ai_status * ptr ai_spi_transfer_plan :=
  if (reference_hz =? 0) || (target_hz =? 0) || (bits_per_word =? 0) ||
     (32 <? bits_per_word) || is_null out
  then (AI_ERR_ARGUMENT, out)
  else
    let bytes_per_word := if 16 <? bits_per_word then 4 else if 8 <? bits_per_word then 2 else 1 in
    if negb (byte_length mod bytes_per_word =? 0) || (65535 <? byte_length / bytes_per_word)
    then (AI_ERR_LENGTH, out)
    else
      let divider := u64 (u64 (reference_hz + target_hz) - 1) / target_hz in
      let divider := if 0x7ff <? divider then 0x7ff else divider in
      (AI_OK, Some {| clock_divider := u16 divider;
                      words := u16 (byte_length / bytes_per_word);
                      bytes_per_word := bytes_per_word;
                      poll := u64 (u64 (200000 * bits_per_word) * 8) <=? target_hz |}).

Definition spi_init_plan : list ai_spi_register_op :=
  [ Build_ai_spi_register_op AI_SPI_REGISTER_WRITE 0x00c 0 (Z.shiftl 1 1);
    Build_ai_spi_register_op AI_SPI_REGISTER_MASK 0x150 (Z.shiftl 1 24) 0;
    Build_ai_spi_register_op AI_SPI_REGISTER_MASK 0x154 (Z.shiftl 1 9) (Z.shiftl 1 1);
    Build_ai_spi_register_op AI_SPI_REGISTER_WRITE 0x000 0 (Z.lor (Z.shiftl 1 2) (Z.shiftl 1 3));
    Build_ai_spi_register_op AI_SPI_REGISTER_WRITE 0x004 0 (Z.shiftl 1 5);
    Build_ai_spi_register_op AI_SPI_REGISTER_WRITE 0x138 0 0;
    Build_ai_spi_register_op AI_SPI_REGISTER_WRITE 0x130 0 0;
    Build_ai_spi_register_op AI_SPI_REGISTER_WRITE 0x160 0 0;
    Build_ai_spi_register_op AI_SPI_REGISTER_WRITE 0x168 0 0 ].

Definition ai_spi_init_plan (out : ptr (list ai_spi_register_op)) (capacity : Z)
    : Z * ptr (list ai_spi_register_op) :=
  let count := zlen spi_init_plan in
  deref o := out else (count, out) in
  if count <=? capacity
  then (count, Some (for_range 0 count (fun index o => o .[ index <- spi_init_plan .[ index ] ]) o))
  else (count, out).

(** an accepted transfer plan is exact.  The divider is the smallest that keeps the
    clock at or below the target, unless that exceeds the 11-bit field, then it is the
    field's maximum; the words are whole, wide enough for the bits and cover exactly
    the bytes asked for.  The plan is refused only for a zero or oversized parameter, a
    partial word, or more than 65535 words. *)
Theorem spi_plan_exact reference_hz target_hz bits byte_length o :
  is_u32 reference_hz -> is_u32 target_hz -> is_u8 bits -> is_u64 byte_length ->
  match ai_spi_plan_transfer reference_hz target_hz bits byte_length (Some o) with
  | (AI_OK, Some p) =>
      let d := clock_divider p in
      1 <= d <= 0x7ff /\ (d - 1) * target_hz < reference_hz /\
      (d < 0x7ff -> reference_hz <= d * target_hz) /\
      0 <= words p <= 65535 /\ words p * bytes_per_word p = byte_length /\
      bits <= 8 * bytes_per_word p /\ (bytes_per_word p < 4 -> bytes_per_word p = 1 \/ 8 < bits) /\
      (poll p = true <-> 1600000 * bits <= target_hz)
  | (AI_ERR_ARGUMENT, p) =>
      p = Some o /\ (reference_hz = 0 \/ target_hz = 0 \/ bits = 0 \/ 32 < bits)
  | (AI_ERR_LENGTH, p) =>
      p = Some o /\ exists w, (bits <= 8 * w /\ (w = 1 \/ w = 2 \/ w = 4)) /\
        (byte_length mod w <> 0 \/ 65535 < byte_length / w)
  | _ => False
  end.
Proof.
  intros Hr Ht Hb Hl. unfold ai_spi_plan_transfer.
  destruct (_ || is_null (Some o)) eqn:Earg.
  { split; [done|]. rewrite !orb_true_iff, !Z.eqb_eq, Z.ltb_lt in Earg. cbn in Earg. naive_solver. }
  rewrite !orb_false_iff, !Z.eqb_neq, Z.ltb_ge in Earg. destruct Earg as [[[[Hr0 Ht0] Hb0] Hb32] _].
  set (w := if 16 <? bits then 4 else if 8 <? bits then 2 else 1).
  assert (bits <= 8 * w /\ (w = 1 \/ w = 2 /\ 8 < bits \/ w = 4)) as [Hw Hw'].
  { subst w. destruct (Z.ltb_spec 16 bits), (Z.ltb_spec 8 bits); lia. }
  clearbody w. destruct (_ || (65535 <? byte_length / w)) eqn:Elen.
  { split; [done|]. exists w. split; [lia|].
    rewrite orb_true_iff, negb_true_iff, Z.eqb_neq, Z.ltb_lt in Elen. done. }
  rewrite orb_false_iff, negb_false_iff, Z.eqb_eq, Z.ltb_ge in Elen. destruct Elen as [Hm Hle].
  cbn [clock_divider words bytes_per_word poll].
  rewrite (wrap_id 64 (reference_hz + target_hz)) by word_lia.
  rewrite (wrap_id 64 (_ - 1)) by word_lia.
  rewrite (wrap_id 64 (200000 * bits)), (wrap_id 64 (_ * 8)) by word_lia.
  assert (0 < target_hz) as Htp by (unfold fits in *; lia).
  pose proof (Z.div_mod (reference_hz + target_hz - 1) target_hz ltac:(lia)) as Hdiv.
  pose proof (Z.mod_pos_bound (reference_hz + target_hz - 1) target_hz Htp) as Hmod.
  set (q := (reference_hz + target_hz - 1) / target_hz) in *.
  set (r := (reference_hz + target_hz - 1) mod target_hz) in *. clearbody q r.
  assert (1 <= q) by (unfold fits in *; nia).
  set (d := if 0x7ff <? q then 0x7ff else q).
  assert (1 <= d <= 0x7ff /\ d <= q /\ (d < 0x7ff -> d = q)) as (Hd1 & Hd2 & Hd3).
  { subst d. destruct (Z.ltb_spec 0x7ff q); lia. }
  clearbody d. rewrite (wrap_id 16 d) by word_lia.
  assert (0 <= byte_length / w) by (apply Z.div_pos; [apply Hl|lia]).
  rewrite (wrap_id 16 (byte_length / w)) by word_lia.
  split_and!; try done; try lia; try nia.
  - pose proof (Z.div_mod byte_length w ltac:(lia)). lia.
Qed.

Lemma spi_plan_exact_witness :
  exists p, ai_spi_plan_transfer 120000000 8000000 8 256
      (Some (Build_ai_spi_transfer_plan 0 0 0 false)) = (AI_OK, Some p) /\
    clock_divider p = 15 /\ (clock_divider p - 1) * 8000000 < 120000000 /\
    words p * bytes_per_word p = 256.
Proof.
  pose proof (spi_plan_exact 120000000 8000000 8 256 (Build_ai_spi_transfer_plan 0 0 0 false)
    ltac:(done) ltac:(done) ltac:(done) ltac:(done)) as (_ & H1 & _ & _ & H2 & _).
  eexists. split; [reflexivity|]. split; [done|]. by split.
Defined.

(** The register script is written whole or not at all, and its size is always told. *)
Lemma spi_init_plan_spec o capacity :
  let '(count, out) := ai_spi_init_plan (Some o) capacity in
  count = 9 /\
  if decide (9 <= capacity)
  then zlen o = capacity -> exists out', out = Some out' /\ prefix_list out' 9 = spi_init_plan
  else out = Some o.
Proof.
  unfold ai_spi_init_plan. change (zlen spi_init_plan) with 9.
  destruct (Z.leb_spec 9 capacity).
  - split; [done|]. rewrite decide_True by done. intros Hc. eexists. split; [done|].
    destruct (fill_loop_spec 0 9 (fun i => spi_init_plan .[ i ]) o) as [Hl Hs]; [done|done|lia|].
    unfold fill_loop in Hl, Hs. apply arr_ext; [by rewrite zlen_prefix by lia|].
    rewrite zlen_prefix by lia. intros i Hi. rewrite get_prefix, Hs by lia.
    by rewrite decide_True by lia.
  - by rewrite decide_False by lia.
Qed.
End Plan.
