(* ===== verification/InterruptHost.v ===== *)
(** * The interrupt of the input device and its worker
    (apple-input/windows/src/transport.c: AiInputInterruptIsr, AiTransportWorker,
    AiTransportStart, AiTransportStop; the queue of SpiTransport.v)

    [Host] is the interrupt path of the driver as a system of steps: the service routine, the
    callbacks of the work item, each at a place in its code, and the start and stop of the
    device, interleaved in any order that the interrupt lock and the transport lock allow.  The
    level of the line, the outcome of the transfers and of WdfInterruptQueueWorkItemForIsr are
    answers of the environment; the timer of the trackpad, which also takes the transport lock, only
    delays a callback and is left out.  Shown is that the path never stalls: while the device runs
    there is always a callback queued, a worker that will drain, or the interrupt enabled. *)

From S2P Require Import Prelude Bytes SpiHid SpiTransport.

Module Host.
Import Link.

Definition AI_TRANSPORT_MAX_PACKETS_PER_WORKER : Z := 32.

(** The part of the device context that the interrupt path reads and writes; [InputEnabled] is
    the mask of the pin's interrupt, [WorkItem] that the framework has the callback queued. *)
Record AI_DEVICE_CONTEXT := {
  TransportQueue : ai_transport_queue;
  HardwareStarted : bool;
  Stopping : bool;
  InputEnabled : bool;
  WorkItem : bool;
}.
#[export] Instance context_eta : Eta AI_DEVICE_CONTEXT := fun c =>
  Build_AI_DEVICE_CONTEXT (TransportQueue c) (HardwareStarted c) (Stopping c) (InputEnabled c)
    (WorkItem c).

Abbreviation CONTEXT := AI_DEVICE_CONTEXT.

Definition running (c : CONTEXT) : bool := HardwareStarted c && negb (Stopping c).

(** [f(&Context->TransportQueue)]. *)
Definition on_queue (f : ptr ai_transport_queue -> bool * ptr ai_transport_queue) (c : CONTEXT)
    : bool * CONTEXT :=
  match f (Some (TransportQueue c)) with
  | (b, Some q) => (b, c <| TransportQueue := q |>)
  | (b, None) => (b, c)
  end.

Definition reset_queue (c : CONTEXT) : CONTEXT :=
  (on_queue (fun q => (true, ai_transport_queue_reset q)) c).2.

(** ** The service routine, under the interrupt lock *)

Definition AiInputInterruptIsr (asserted queued : bool) (c : CONTEXT) : bool * CONTEXT :=
  if negb (HardwareStarted c) || Stopping c || negb asserted then (false, c)
  else
    let '(queue_worker, c) := on_queue ai_transport_irq c in
    if queue_worker then
      let c := c <| InputEnabled := false |> in
      if queued then (true, c <| WorkItem := true |>)
      else
        let c := (on_queue ai_transport_worker_begin c).2 in
        let c := (on_queue (fun q => ai_transport_worker_complete q false) c).2 in
        (true, c <| InputEnabled := true |>)
    else (true, c).

(** ** The callback of the work item *)

(** Where a callback that began is: waiting for the transport lock, in the loop over packets,
    after that loop, at the condition of the outer loop, and after it. *)
Inductive worker :=
  | W_lock
  | W_drain (packet_count : Z)
  | W_check (packet_count : Z)
  | W_again (packet_count : Z) (drain_again : bool)
  | W_leave.

#[export] Instance worker_eq_dec : EqDecision worker.
Proof. solve_decision. Defined.

(** The start of the callback, under the interrupt lock. *)
Definition AiTransportWorker_enter (c : CONTEXT) : option worker * CONTEXT :=
  let '(began, c) := on_queue ai_transport_worker_begin c in
  (if began then Some W_lock else None, c).

(** One step of a callback; [None] is its return.  [answer] says, in the loop over packets, that
    the transfer and the packet were good and the line is still asserted, and, after the loop,
    that the line is asserted. *)
Definition AiTransportWorker_step (answer : bool) (w : worker) (c : CONTEXT)
    : option worker * CONTEXT :=
  match w with
  | W_lock => (Some (W_drain 0), c)
  | W_drain n =>
      if n <? AI_TRANSPORT_MAX_PACKETS_PER_WORKER then
        if Stopping c || negb (HardwareStarted c) then (Some (W_check n), c)
        else (Some (if answer then W_drain (n + 1) else W_check (n + 1)), c)
      else (Some (W_check n), c)
  | W_check n =>
      let '(drain_again, c) := on_queue (fun q => ai_transport_worker_complete q answer) c in
      if drain_again && (n <? AI_TRANSPORT_MAX_PACKETS_PER_WORKER) then
        let '(drain_again, c) := on_queue ai_transport_worker_begin c in
        (Some (W_again n drain_again), c)
      else if drain_again then
        (Some (W_again n drain_again),
         c <| TransportQueue := (TransportQueue c) <| pending := false |> |>)
      else (Some (W_again n drain_again), c)
  | W_again n drain_again =>
      (Some (if drain_again && negb (Stopping c) && HardwareStarted c then W_drain n else W_leave), c)
  | W_leave =>
      (None, if negb (Stopping c) && HardwareStarted c then c <| InputEnabled := true |> else c)
  end.

(** ** Start and stop of the device *)

(** AiTransportStart with the transport lock: before the hardware is touched, when the interrupt
    has been enabled, and when the controller has been reset. *)
Definition AiTransportStart_begin (c : CONTEXT) : CONTEXT :=
  reset_queue (c <| Stopping := false |> <| HardwareStarted := false |>).
Definition AiTransportStart_enable (c : CONTEXT) : CONTEXT :=
  c <| InputEnabled := true |> <| HardwareStarted := true |>.
Definition AiTransportStart_finish (reset : bool) (c : CONTEXT) : CONTEXT :=
  if reset then c else c <| HardwareStarted := false |> <| Stopping := true |>.

(** AiTransportStop before it has the transport lock. *)
Definition AiTransportStop_begin (c : CONTEXT) : CONTEXT :=
  c <| Stopping := true |> <| HardwareStarted := false |>.

(** ** The system *)

(** Where the power callbacks of the device are; the framework runs one at a time. *)
Inductive manager := M_idle | M_starting | M_resetting | M_stopping.

Record host := {
  context : CONTEXT;
  workers : list worker;
  power : manager;
}.

Definition inside (w : worker) : bool := match w with W_lock => false | _ => true end.

(** The transport lock is free. *)
Definition lock_free (ws : list worker) (m : manager) : bool :=
  match m with M_starting | M_resetting => false | _ => forallb (fun w => negb (inside w)) ws end.

Inductive host_step : host -> host -> Prop :=
  | step_interrupt c ws m asserted queued :
      host_step (Build_host c ws m)
        (Build_host (AiInputInterruptIsr asserted queued c).2 ws m)
  | step_callback c ws m w c' :
      WorkItem c = true -> AiTransportWorker_enter (c <| WorkItem := false |>) = (w, c') ->
      host_step (Build_host c ws m) (Build_host c' (ws ++ option_list w) m)
  | step_worker c ws1 w ws2 m answer w' c' :
      (w = W_lock -> lock_free (ws1 ++ w :: ws2) m = true) ->
      AiTransportWorker_step answer w c = (w', c') ->
      host_step (Build_host c (ws1 ++ w :: ws2) m) (Build_host c' (ws1 ++ option_list w' ++ ws2) m)
  | step_start c ws :
      lock_free ws M_idle = true ->
      host_step (Build_host c ws M_idle) (Build_host (AiTransportStart_begin c) ws M_starting)
  | step_start_failed c ws :
      host_step (Build_host c ws M_starting) (Build_host c ws M_idle)
  | step_enable c ws :
      host_step (Build_host c ws M_starting)
        (Build_host (AiTransportStart_enable c) ws M_resetting)
  | step_finish c ws reset :
      host_step (Build_host c ws M_resetting)
        (Build_host (AiTransportStart_finish reset c) ws M_idle)
  | step_stop c ws :
      host_step (Build_host c ws M_idle) (Build_host (AiTransportStop_begin c) ws M_stopping)
  | step_stopped c ws :
      lock_free ws M_stopping = true ->
      host_step (Build_host c ws M_stopping) (Build_host (reset_queue c) ws M_idle).

(** Before the first start. *)
Definition host_init : host :=
  Build_host (Build_AI_DEVICE_CONTEXT queue_zero false false false false) [] M_idle.

(** ** The invariant *)

(** This callback has yet to call ai_transport_worker_complete, if the device goes on running. *)
Definition will_complete (w : worker) : bool :=
  match w with W_again _ drain_again => drain_again | W_leave => false | _ => true end.

(** How many packets a callback has read. *)
Definition packets (w : worker) : Z :=
  match w with W_drain n | W_check n | W_again n _ => n | _ => 0 end.
Definition packets_bounded (w : worker) : Prop :=
  0 <= packets w <= AI_TRANSPORT_MAX_PACKETS_PER_WORKER.

Definition lock_holders (ws : list worker) (m : manager) : nat :=
  (List.length (List.filter inside ws) +
   match m with M_starting | M_resetting => 1 | _ => 0 end)%nat.

Record host_inv (h : host) : Prop := {
  inv_asked : pending (TransportQueue (context h)) = true ->
    worker_active (TransportQueue (context h)) = false -> WorkItem (context h) = true;
  inv_active : worker_active (TransportQueue (context h)) = true ->
    running (context h) = true \/ power h = M_starting ->
    List.existsb will_complete (workers h) = true;
  inv_gate : running (context h) = true -> InputEnabled (context h) = true \/
    (pending (TransportQueue (context h)) = true /\
     worker_active (TransportQueue (context h)) = false) \/ workers h <> [];
  inv_power : power h = M_starting \/ power h = M_stopping -> running (context h) = false;
  inv_lock : (lock_holders (workers h) (power h) <= 1)%nat;
  inv_packets : Forall packets_bounded (workers h);
}.

Lemma lock_free_holders ws m : lock_free ws m = true -> lock_holders ws m = 0%nat.
Proof.
  unfold lock_holders. destruct m; try done; cbn [lock_free]; intros H.
  all: rewrite Nat.add_0_r; induction ws as [|w ws IH]; [done|]; cbn in *.
  all: destruct (inside w); [done|]; by apply IH.
Qed.

Lemma holders_middle ws1 l ws2 m :
  lock_holders (ws1 ++ l ++ ws2) m =
    (List.length (List.filter inside l) + lock_holders (ws1 ++ ws2) m)%nat.
Proof. unfold lock_holders. rewrite !List.filter_app, !length_app. lia. Qed.

Ltac open_context c :=
  let p := fresh "p" in let a := fresh "a" in
  destruct c as [[p a ?] [] [] ? ?]; destruct p, a.

Lemma interrupt_inv c ws m asserted queued :
  host_inv (Build_host c ws m) ->
  host_inv (Build_host (AiInputInterruptIsr asserted queued c).2 ws m).
Proof.
  intros [H1 H2 H3 H4 H5 H6].
  open_context c; destruct asserted, queued; cbn in *; split; cbn; auto; intuition done.
Qed.

Lemma callback_inv c ws m w c' :
  host_inv (Build_host c ws m) -> WorkItem c = true ->
  AiTransportWorker_enter (c <| WorkItem := false |>) = (w, c') ->
  host_inv (Build_host c' (ws ++ option_list w) m).
Proof.
  intros [H1 H2 H3 H4 H5 H6] Hi E. cbn in *.
  assert (w = None \/ w = Some W_lock) as Hw.
  { unfold AiTransportWorker_enter in E. destruct (on_queue _ _) as [[] ?]; injection E; auto. }
  assert (lock_holders (ws ++ option_list w) m <= 1)%nat as H5'.
  { replace (ws ++ option_list w) with (ws ++ option_list w ++ []) by by rewrite app_nil_r.
    rewrite holders_middle, app_nil_r. by destruct Hw as [-> | ->]. }
  assert (Forall packets_bounded (ws ++ option_list w)) as H6'.
  { apply Forall_app. split; [done|]. by destruct Hw as [-> | ->]; repeat constructor. }
  assert (w = Some W_lock -> ws ++ option_list w <> []) as Hn by (intros ->; by destruct ws).
  open_context c; cbn in *; injection E as <- <-; cbn in *; split; cbn;
    rewrite ?app_nil_r, ?List.existsb_app, ?orb_true_r in *; auto; intuition done.
Qed.

Lemma step_packets answer w c w' c' :
  packets_bounded w -> AiTransportWorker_step answer w c = (w', c') ->
  Forall packets_bounded (option_list w').
Proof.
  unfold packets_bounded, AI_TRANSPORT_MAX_PACKETS_PER_WORKER. intros Hw E.
  destruct w as [|n|n|n d|]; cbn in E, Hw; unfold AI_TRANSPORT_MAX_PACKETS_PER_WORKER in E.
  all: repeat case_match; simplify_eq; repeat constructor; cbn; lia.
Qed.

Lemma step_holders answer w c w' c' :
  AiTransportWorker_step answer w c = (w', c') ->
  (List.length (List.filter inside (option_list w')) <= 1)%nat.
Proof. destruct w'; cbn; [|lia]. intros _. case_match; cbn; lia. Qed.

Lemma worker_inv c ws1 w ws2 m answer w' c' :
  host_inv (Build_host c (ws1 ++ w :: ws2) m) ->
  (w = W_lock -> lock_free (ws1 ++ w :: ws2) m = true) ->
  AiTransportWorker_step answer w c = (w', c') ->
  host_inv (Build_host c' (ws1 ++ option_list w' ++ ws2) m).
Proof.
  change (ws1 ++ w :: ws2) with (ws1 ++ [w] ++ ws2).
  intros [H1 H2 H3 H4 H5 H6] Hl E. cbn [context workers power] in *.
  assert (lock_holders (ws1 ++ option_list w' ++ ws2) m <= 1)%nat as H5'.
  { pose proof (step_holders _ _ _ _ _ E). rewrite (holders_middle ws1 (option_list w')).
    destruct (decide (w = W_lock)) as [->|Hw].
    - specialize (Hl eq_refl). apply lock_free_holders in Hl.
      rewrite (holders_middle ws1 [W_lock] ws2 m) in Hl. lia.
    - rewrite (holders_middle ws1 [w] ws2 m) in H5. cbn in H5. by destruct w; cbn in H5; try lia. }
  rewrite !Forall_app, Forall_singleton in H6. destruct H6 as (F1 & F & F2).
  assert (Forall packets_bounded (ws1 ++ option_list w' ++ ws2)) as H6'.
  { rewrite !Forall_app. split_and!; [done|by eapply step_packets|done]. }
  assert (forall x, w' = Some x -> ws1 ++ option_list w' ++ ws2 <> []) as Hn
    by (intros x ->; by destruct ws1).
  assert (w <> W_lock -> m <> M_starting) as Hm.
  { intros Hw ->. rewrite (holders_middle ws1 [w] ws2 M_starting) in H5.
    unfold lock_holders in H5. destruct w; cbn in H5; first [done|lia]. }
  assert (forall l, List.existsb will_complete (ws1 ++ l ++ ws2) =
    List.existsb will_complete l || List.existsb will_complete (ws1 ++ ws2)) as He.
  { intros l. rewrite !List.existsb_app. by destruct (List.existsb _ l), (List.existsb _ ws1). }
  rewrite He in H2.
  destruct w as [|n|n|n d|]; cbn in E, H2; try (destruct (n <? _) eqn:En).
  all: open_context c; cbn in *; try destruct d; try destruct answer; cbn in *;
    injection E as <- <-; split; cbn [context workers power];
    rewrite ?He; cbn in *; auto;
    first [by intros _; right; right; eapply Hn|intuition done].
Qed.

Lemma host_inv_step h h' : host_inv h -> host_step h h' -> host_inv h'.
Proof.
  intros H Hs. destruct Hs;
    [by apply interrupt_inv|by eapply callback_inv|by eapply worker_inv| | | | | |].
  1: match goal with E : lock_free _ _ = true |- _ => apply lock_free_holders in E end.
  6: match goal with E : lock_free _ _ = true |- _ => apply lock_free_holders in E end.
  all: destruct H as [H1 H2 H3 H4 H5 H6]; unfold lock_holders in *; cbn in *.
  all: open_context c; try destruct reset; cbn in *; split; cbn in *; auto; try lia; intuition done.
Qed.

#[global] Program Instance host_component : Component host := {
  comp_init h := h = host_init;
  comp_step := host_step;
  comp_inv := host_inv;
}.
Next Obligation. intros ? ->. split; cbn; auto; try done; intuition done. Qed.
Next Obligation. exact host_inv_step. Qed.

(** ** A callback that is left alone *)

(** The steps of one callback with nothing in between, up to its return. *)
Fixpoint runs_alone (answers : list bool) (w : worker) (c : CONTEXT) : option worker * CONTEXT :=
  match answers with
  | [] => (Some w, c)
  | answer :: answers =>
      match AiTransportWorker_step answer w c with
      | (Some w, c) => runs_alone answers w c
      | (None, c) => (None, c)
      end
  end.

(** A bound on the steps that it has left. *)
Definition steps_left (w : worker) (c : CONTEXT) : Z :=
  let active := if worker_active (TransportQueue c) then 4 else 0 in
  if negb (running c) then
    match w with W_lock => 5 | W_drain _ => 4 | W_check _ => 3 | W_again _ _ => 2 | W_leave => 1 end
  else if packets w <? AI_TRANSPORT_MAX_PACKETS_PER_WORKER then
    match w with
    | W_lock => 138
    | W_drain n => 10 + 4 * (AI_TRANSPORT_MAX_PACKETS_PER_WORKER - n) - 1
    | W_check n => 12 + 4 * (AI_TRANSPORT_MAX_PACKETS_PER_WORKER - n) - 1
    | W_again n _ => 11 + 4 * (AI_TRANSPORT_MAX_PACKETS_PER_WORKER - n) - 1
    | W_leave => 1
    end
  else
    match w with
    | W_drain _ => 4 + active | W_check _ => 3 + active
    | W_again _ drain_again => if drain_again then 5 + active else 2
    | _ => 1
    end.

Lemma steps_left_bound w c : packets_bounded w -> 0 < steps_left w c <= 139.
Proof.
  unfold packets_bounded, steps_left, AI_TRANSPORT_MAX_PACKETS_PER_WORKER. intros H.
  destruct w; cbn in *; repeat case_match; lia.
Qed.

(** A step takes the callback nearer to its return, or is its return, with the interrupt on. *)
Lemma step_alone answer w c w' c' :
  packets_bounded w -> AiTransportWorker_step answer w c = (w', c') ->
  running c' = running c /\
  match w' with
  | Some w' => steps_left w' c' < steps_left w c
  | None => running c = true -> InputEnabled c' = true
  end.
Proof.
  unfold packets_bounded, steps_left, AI_TRANSPORT_MAX_PACKETS_PER_WORKER. intros H E.
  destruct w as [|n|n|n d|]; cbn in E, H; unfold AI_TRANSPORT_MAX_PACKETS_PER_WORKER in E;
    try (destruct (n <? 32) eqn:En).
  all: open_context c; cbn in E; try destruct d; try destruct answer; cbn in E;
    injection E as <- <-; cbn; rewrite ?En; split; try done; try lia.
  all: case_match; lia.
Qed.

(** What the callback keeps: work that is pending with no worker has its callback queued, and a
    callback that has completed left no worker behind. *)
Definition settled (w : worker) (c : CONTEXT) : Prop :=
  (pending (TransportQueue c) = true -> worker_active (TransportQueue c) = false ->
    WorkItem c = true) /\
  (running c = true -> will_complete w = false -> worker_active (TransportQueue c) = false).

Lemma step_settled answer w c w' c' :
  settled w c -> AiTransportWorker_step answer w c = (w', c') ->
  match w' with Some w' => settled w' c' | None => settled W_leave c' end.
Proof.
  unfold settled. intros [H1 H2] E.
  destruct w as [|n|n|n d|]; cbn in E; try (destruct (n <? _)).
  all: open_context c; cbn in *; try destruct d; try destruct answer; cbn in *;
    injection E as <- <-; cbn; auto; intuition done.
Qed.

Lemma alone_ends answers : forall w c,
  packets_bounded w -> steps_left w c <= zlen answers ->
  exists c', runs_alone answers w c = (None, c') /\ running c' = running c /\
    (running c = true -> InputEnabled c' = true) /\ (settled w c -> settled W_leave c').
Proof.
  induction answers as [|answer answers IH]; intros w c Hw Hl.
  { pose proof (steps_left_bound w c Hw). unfold zlen in Hl. cbn in Hl. lia. }
  cbn [runs_alone]. destruct (AiTransportWorker_step answer w c) as [w' c1] eqn:E.
  pose proof (step_packets _ _ _ _ _ Hw E) as Hw'.
  pose proof (step_settled answer w c w' c1) as Hk.
  destruct (step_alone _ _ _ _ _ Hw E) as [Hr Hs].
  destruct w' as [w'|]; [|by exists c1; eauto].
  apply Forall_inv in Hw'. unfold zlen in IH, Hl. cbn [List.length] in Hl.
  destruct (IH w' c1 Hw' ltac:(lia)) as (c' & -> & Hr' & Hi & Hset).
  exists c'. rewrite <- Hr. eauto 7.
Qed.

(** ** What is recorded and what is dropped *)

(** A worker is active, and another interrupt may be recorded. *)
Definition draining (w : bool) : CONTEXT :=
  Build_AI_DEVICE_CONTEXT (Build_ai_transport_queue w true 1) true false false false.

(** An interrupt that comes while the worker drains is recorded and makes it drain again; when
    the worker has read its last packet it is dropped, and so is one whose callback could not be
    queued.  The pin's interrupt is on again after that: the level has to call once more. *)
Lemma recorded_interrupt_drains_again :
  AiTransportWorker_step false (W_check 31) (draining true) =
    (Some (W_again 31 true), draining false).
Proof. reflexivity. Qed.

Lemma recorded_interrupt_dropped :
  runs_alone (replicate 139 false) (W_check 32) (draining true) =
    (None, Build_AI_DEVICE_CONTEXT (Build_ai_transport_queue false false 1) true false true false).
Proof. vm_compute. reflexivity. Qed.

Lemma unqueued_interrupt_dropped (k : Z) g i :
  AiInputInterruptIsr true false
    (Build_AI_DEVICE_CONTEXT (Build_ai_transport_queue false false k) true false g i) =
    (true, Build_AI_DEVICE_CONTEXT (Build_ai_transport_queue false false k) true false true i).
Proof. reflexivity. Qed.

(** ** The theorem *)

(** C37: the interrupt path never stalls.  In every state that the service routine, the callbacks
    and the power callbacks can reach while the device runs: (1) if the queue refuses an
    interrupt, a callback is queued that will begin a worker, or a worker has yet to complete;
    (2) if no callback is queued and none runs, the queue is idle and the interrupt of the pin is
    enabled, so that the next interrupt queues one; (3) a callback left alone returns within 139
    of its own steps, having read at most 32 packets, with the interrupt enabled, and, when it
    had yet to complete, with no worker active and whatever is pending queued.  At most one
    callback is inside the transport lock.  A recorded interrupt is not always followed by a
    drain: the host drops it when the worker has spent its packets or the callback cannot be
    queued, and relies on the level of the line to interrupt again, which (2) and (3) leave
    enabled.  Assumed is that each step is atomic and that the framework runs one power callback
    at a time. *)
Theorem interrupts_never_stall h :
  reachable h ->
  let c := context h in
  (List.length (List.filter inside (workers h)) <= 1)%nat /\
  (running c = true ->
    ((ai_transport_irq (Some (TransportQueue c))).1 = false ->
      WorkItem c = true /\ (AiTransportWorker_enter (c <| WorkItem := false |>)).1 = Some W_lock \/
      worker_active (TransportQueue c) = true /\ exists w, In w (workers h) /\ will_complete w = true) /\
    (WorkItem c = false -> workers h = [] -> InputEnabled c = true /\
      AiInputInterruptIsr true true c =
        (true, c <| TransportQueue := (TransportQueue c) <| pending := true |> |>
                 <| InputEnabled := false |> <| WorkItem := true |>)) /\
    forall w answers, In w (workers h) -> 139 <= zlen answers ->
      0 <= packets w <= 32 /\
      exists c', runs_alone answers w c = (None, c') /\ InputEnabled c' = true /\
        (will_complete w = true -> worker_active (TransportQueue c') = false /\
          (pending (TransportQueue c') = true -> WorkItem c' = true))).
Proof.
  intros [H1 H2 H3 H4 H5 H6]%(reachable_inv h) c. fold c in H1, H2, H3, H4.
  split; [unfold lock_holders in H5; lia|]. intros Hr. split_and!.
  - intros Hq. destruct (worker_active (TransportQueue c)) eqn:Ea.
    + right. split; [done|]. apply List.existsb_exists. by apply H2; [|left].
    + left. destruct (pending (TransportQueue c)) eqn:Ep;
        [|unfold ai_transport_irq in Hq; by rewrite Ep, Ea in Hq].
      split; [by apply H1|]. open_context c; done.
  - intros Hi Hw. destruct (H3 Hr) as [Hg|[[Hp Ha]|]]; [|by rewrite H1 in Hi|done].
    split; [done|]. destruct (worker_active (TransportQueue c)) eqn:Ea.
    { rewrite Hw in H2. by specialize (H2 eq_refl (or_introl Hr)). }
    destruct (pending (TransportQueue c)) eqn:Ep; [by rewrite H1 in Hi|].
    open_context c; done.
  - intros w answers Hw Hl. rewrite List.Forall_forall in H6. specialize (H6 _ Hw).
    split; [exact H6|]. pose proof (steps_left_bound w c H6).
    destruct (alone_ends answers w c H6 ltac:(lia)) as (c' & E & Hr' & Hg & Hset).
    exists c'. split_and!; [done|by apply Hg|]. intros Hwc. destruct Hset as [Hp Ha].
    { split; [done|]. by rewrite Hwc. }
    rewrite Hr' in Ha. specialize (Ha Hr eq_refl). auto.
Qed.

(** The device was started, an interrupt began a worker, and another one came. *)
Definition busy_host : host := Build_host (draining true) [W_drain 0] M_idle.

Lemma busy_host_reachable : reachable busy_host.
Proof.
  exists host_init. split; [done|].
  eapply rtc_l; [by apply step_start|]. eapply rtc_l; [apply step_enable|].
  eapply rtc_l; [apply (step_finish _ _ true)|].
  eapply rtc_l; [apply (step_interrupt _ _ _ true true)|].
  eapply rtc_l; [by eapply step_callback|].
  eapply rtc_l; [by apply (step_worker _ [] W_lock [] _ true)|].
  eapply rtc_l; [apply (step_interrupt _ _ _ true true)|]. apply rtc_refl.
Qed.

Lemma interrupts_never_stall_witness :
  worker_active (TransportQueue (context busy_host)) = true /\
  exists c', runs_alone (replicate 139 false) (W_drain 0) (context busy_host) = (None, c') /\
    InputEnabled c' = true.
Proof.
  destruct (interrupts_never_stall busy_host busy_host_reachable) as (_ & H).
  destruct (H eq_refl) as (H1 & _ & H3). split.
  - destruct (H1 eq_refl) as [[H0 _]|[H0 _]]; [discriminate H0|exact H0].
  - destruct (H3 (W_drain 0) (replicate 139 false) (or_introl eq_refl) ltac:(vm_compute; discriminate))
      as (_ & c' & E & G & _). by exists c'.
Defined.
End Host.
