(* ===== verification/Discovery.v ===== *)
(** * Finding the keyboard and the trackpad (apple-input/protocol/src/apple_spihid_discovery.c)

    The controller's boot marker, then seven requests answered one at a time, each
    retried a bounded number of times.  The theorems: the phases only advance in
    order and only for a reason; every run takes at most [7 * (retry_limit + 1)]
    effective steps; a response identifies the phase it answers. *)

From S2P Require Import Prelude Arrays Bytes SpiHid.

Module Disc.
Import Hid.

Definition AI_DESCRIPTOR_MAX : Z := 512.
Definition AI_UINT64_MAX : Z := 2 ^ 64 - 1.

(** ** Data *)

Inductive ai_discovery_phase :=
  | AI_DISCOVERY_IDLE | AI_DISCOVERY_WAIT_BOOT | AI_DISCOVERY_IDENTITY
  | AI_DISCOVERY_INTERFACE_MANAGEMENT | AI_DISCOVERY_INTERFACE_KEYBOARD
  | AI_DISCOVERY_INTERFACE_TRACKPAD | AI_DISCOVERY_KEYBOARD_DESCRIPTOR
  | AI_DISCOVERY_TRACKPAD_DESCRIPTOR | AI_DISCOVERY_READY | AI_DISCOVERY_OFFLINE.
#[export] Instance ai_discovery_phase_eq_dec : EqDecision ai_discovery_phase.
Proof. solve_decision. Defined.

(** The enumerators in declaration order: the value of a phase is its place. *)
Definition discovery_phases : list ai_discovery_phase :=
  [AI_DISCOVERY_IDLE; AI_DISCOVERY_WAIT_BOOT; AI_DISCOVERY_IDENTITY;
   AI_DISCOVERY_INTERFACE_MANAGEMENT; AI_DISCOVERY_INTERFACE_KEYBOARD;
   AI_DISCOVERY_INTERFACE_TRACKPAD; AI_DISCOVERY_KEYBOARD_DESCRIPTOR;
   AI_DISCOVERY_TRACKPAD_DESCRIPTOR; AI_DISCOVERY_READY; AI_DISCOVERY_OFFLINE].

Definition value (p : ai_discovery_phase) : Z :=
  match p with
  | AI_DISCOVERY_IDLE => 0 | AI_DISCOVERY_WAIT_BOOT => 1 | AI_DISCOVERY_IDENTITY => 2
  | AI_DISCOVERY_INTERFACE_MANAGEMENT => 3 | AI_DISCOVERY_INTERFACE_KEYBOARD => 4
  | AI_DISCOVERY_INTERFACE_TRACKPAD => 5 | AI_DISCOVERY_KEYBOARD_DESCRIPTOR => 6
  | AI_DISCOVERY_TRACKPAD_DESCRIPTOR => 7 | AI_DISCOVERY_READY => 8 | AI_DISCOVERY_OFFLINE => 9
  end.

#[export] Instance phase_inhabited : Inhabited ai_discovery_phase := populate AI_DISCOVERY_IDLE.
(** The cast back from an integer. *)
Definition of_value (v : Z) : ai_discovery_phase := discovery_phases .[ v ].

Lemma of_value_value p : of_value (value p) = p.
Proof. by destruct p. Qed.

Record ai_discovery := {
  phase : ai_discovery_phase;
  retry_count : Z;
  retry_limit : Z;
  request_id : Z;
  deadline_us : Z;
}.
#[export] Instance ai_discovery_eta : Eta ai_discovery :=
  fun s => Build_ai_discovery (phase s) (retry_count s) (retry_limit s) (request_id s)
    (deadline_us s).

(** ** Operations *)

Definition arm_deadline (s : ai_discovery) (now_us timeout_us : Z) : ai_discovery :=
  let s := s <| deadline_us := u64 (now_us + timeout_us) |> in
  if deadline_us s <? now_us then s <| deadline_us := AI_UINT64_MAX |> else s.

Definition arm_request (s : ai_discovery) (now_us timeout_us : Z) : ai_discovery :=
  let s := s <| request_id := u32 (request_id s + 1) |> in
  let s := s <| deadline_us := u64 (now_us + timeout_us) |> in
  if deadline_us s <? now_us then s <| deadline_us := AI_UINT64_MAX |> else s.

Definition ai_discovery_start (state : ptr ai_discovery) (now_us timeout_us retry_limit : Z)
    : ptr ai_discovery :=
  deref _s := state else state in
  Some (arm_deadline {| phase := AI_DISCOVERY_WAIT_BOOT; retry_count := 0;
                        retry_limit := retry_limit; request_id := 0; deadline_us := 0 |}
          now_us timeout_us).

Definition boot_marker_expected : list Z := [0xa0; 0x80; 0x00; 0x00].

Definition ai_discovery_accept_boot (state : ptr ai_discovery) (marker : ptr (list Z))
    (size now_us timeout_us : Z) : ai_status * ptr ai_discovery :=
  deref s := state else (AI_ERR_ARGUMENT, state) in
  deref m := marker else (AI_ERR_ARGUMENT, state) in
  if bool_decide (phase s <> AI_DISCOVERY_WAIT_BOOT) then (AI_ERR_SEQUENCE, state)
  else if negb (size =? zlen boot_marker_expected) then (AI_ERR_LENGTH, state)
  else
    match find_range 0 (zlen boot_marker_expected)
            (fun index => negb (m .[ index ] =? boot_marker_expected .[ index ])) with
    | Some _ => (AI_ERR_PROTOCOL, state)
    | None =>
        let s := s <| retry_count := 0 |> <| phase := AI_DISCOVERY_IDENTITY |> in
        (AI_OK, Some (arm_deadline s now_us timeout_us))
    end.

Definition ai_discovery_accept (state : ptr ai_discovery) (id : Z) (response_valid : bool)
    (now_us timeout_us : Z) : ai_status * ptr ai_discovery :=
  deref s := state else (AI_ERR_ARGUMENT, state) in
  if (value (phase s) <? value AI_DISCOVERY_IDENTITY) ||
     (value AI_DISCOVERY_TRACKPAD_DESCRIPTOR <? value (phase s))
  then (AI_ERR_SEQUENCE, state)
  else if negb (id =? request_id s) then (AI_ERR_SEQUENCE, state)
  else if negb response_valid
  then (AI_ERR_PROTOCOL, Some (s <| phase := AI_DISCOVERY_OFFLINE |>))
  else
    let s := s <| retry_count := 0 |> <| phase := of_value (value (phase s) + 1) |> in
    if bool_decide (phase s = AI_DISCOVERY_READY) then (AI_COMPLETE, Some s)
    else (AI_OK, Some (arm_request s now_us timeout_us)).

Definition ai_discovery_poll (state : ptr ai_discovery) (now_us timeout_us : Z)
    : ai_status * ptr ai_discovery :=
  deref s := state else (AI_ERR_ARGUMENT, state) in
  if (value (phase s) <? value AI_DISCOVERY_WAIT_BOOT) ||
     (value AI_DISCOVERY_TRACKPAD_DESCRIPTOR <? value (phase s))
  then ((if bool_decide (phase s = AI_DISCOVERY_READY) then AI_COMPLETE else AI_ERR_SEQUENCE),
        state)
  else if now_us <? deadline_us s then (AI_OK, state)
  else if retry_limit s <=? retry_count s
  then (AI_ERR_TIMEOUT, Some (s <| phase := AI_DISCOVERY_OFFLINE |>))
  else
    let s := s <| retry_count := u8 (retry_count s + 1) |> in
    (AI_ERR_TIMEOUT,
     Some (if bool_decide (phase s = AI_DISCOVERY_WAIT_BOOT)
           then arm_deadline s now_us timeout_us else arm_request s now_us timeout_us)).

Definition request_default : ai_discovery_request :=
  {| dr_target := 0xd0; dr_type := 0x20; dr_report := 0; dr_device := 0;
     dr_response_length := AI_DESCRIPTOR_MAX |}.

Definition ai_discovery_request_for_phase (p : ai_discovery_phase)
    (out : ptr ai_discovery_request) : ai_status * ptr ai_discovery_request :=
  deref _o := out else (AI_ERR_ARGUMENT, out) in
  let o := request_default in
  let with_ report device length :=
    Some {| dr_target := dr_target o; dr_type := dr_type o; dr_report := report;
            dr_device := device; dr_response_length := length |} in
  match p with
  | AI_DISCOVERY_IDENTITY => (AI_OK, with_ 0x01 0xd0 0)
  | AI_DISCOVERY_INTERFACE_MANAGEMENT | AI_DISCOVERY_INTERFACE_KEYBOARD
  | AI_DISCOVERY_INTERFACE_TRACKPAD =>
      (AI_OK, with_ 0x02 (u8 (value p - value AI_DISCOVERY_INTERFACE_MANAGEMENT))
                (dr_response_length o))
  | AI_DISCOVERY_KEYBOARD_DESCRIPTOR | AI_DISCOVERY_TRACKPAD_DESCRIPTOR =>
      (AI_OK, with_ 0x10 (u8 (value p - value AI_DISCOVERY_KEYBOARD_DESCRIPTOR + 1))
                (dr_response_length o))
  | _ => (AI_ERR_SEQUENCE, Some o)
  end.

(** [stack] is the uninitialised local the code fills. *)
Definition ai_discovery_response_matches (stack : ai_discovery_request) (p : ai_discovery_phase)
    (wire : ptr ai_message_view) (message : ptr ai_protocol_message) : bool :=
  deref w := wire else false in
  deref m := message else false in
  if (pm_payload_length m =? 0) || negb (mv_flags w =? AI_PACKET_WRITE) ||
     negb (mv_device w =? 0xd0) || negb (pm_type m =? 0x20)
  then false
  else
    match ai_discovery_request_for_phase p (Some stack) with
    | (AI_OK, Some expected) =>
        (pm_report m =? dr_report expected) && (pm_device m =? dr_device expected)
    | _ => false
    end.

(** ** Runs *)

Inductive disc_op :=
  | op_boot (marker : list Z) (size now_us timeout_us : Z)
  | op_accept (id : Z) (valid : bool) (now_us timeout_us : Z)
  | op_poll (now_us timeout_us : Z).

Definition exec (op : disc_op) (s : ai_discovery) : ai_status * ai_discovery :=
  let '(rc, s') :=
    match op with
    | op_boot m size now to => ai_discovery_accept_boot (Some s) (Some m) size now to
    | op_accept id v now to => ai_discovery_accept (Some s) id v now to
    | op_poll now to => ai_discovery_poll (Some s) now to
    end in (rc, default s s').

#[export] Instance ai_discovery_eq_dec : EqDecision ai_discovery.
Proof. solve_decision. Defined.

(** The state after a sequence of calls, and how many of them changed it. *)
Fixpoint run (ops : list disc_op) (s : ai_discovery) : ai_discovery * Z :=
  match ops with
  | [] => (s, 0)
  | op :: ops =>
      let s' := (exec op s).2 in
      let '(s'', n) := run ops s' in
      (s'', if bool_decide (s' = s) then n else n + 1)
  end.

Definition waiting (p : ai_discovery_phase) : bool :=
  (value AI_DISCOVERY_WAIT_BOOT <=? value p) && (value p <=? value AI_DISCOVERY_TRACKPAD_DESCRIPTOR).

(** Answers still needed, and what a run can still do. *)
Definition rank (p : ai_discovery_phase) : Z := if waiting p then 8 - value p else 0.
Definition budget (s : ai_discovery) : Z :=
  if waiting (phase s) then rank (phase s) * (retry_limit s + 1) - retry_count s else 0.

Record disc_wf (s : ai_discovery) : Prop := {
  wf_limit : is_u8 (retry_limit s);
  wf_count : 0 <= retry_count s <= retry_limit s;
}.

(** Arming only touches the deadline and, for a request, its number. *)
Lemma arm_deadline_frame s now timeout :
  let s' := arm_deadline s now timeout in
  phase s' = phase s /\ retry_count s' = retry_count s /\ retry_limit s' = retry_limit s /\
  request_id s' = request_id s /\
  (is_u64 now -> is_u64 timeout -> deadline_us s' = Z.min (now + timeout) AI_UINT64_MAX).
Proof.
  unfold arm_deadline. destruct s as [p c l i d]. cbn. unfold AI_UINT64_MAX.
  destruct (Z.ltb_spec (u64 (now + timeout)) now); cbn; split_and!; try done; intros; word_lia.
Qed.

Lemma arm_request_frame s now timeout :
  let s' := arm_request s now timeout in
  phase s' = phase s /\ retry_count s' = retry_count s /\ retry_limit s' = retry_limit s /\
  request_id s' = u32 (request_id s + 1) /\
  (is_u64 now -> is_u64 timeout -> deadline_us s' = Z.min (now + timeout) AI_UINT64_MAX).
Proof.
  unfold arm_request. destruct s as [p c l i d]. cbn. unfold AI_UINT64_MAX.
  destruct (Z.ltb_spec (u64 (now + timeout)) now); cbn; split_and!; try done; intros; word_lia.
Qed.

(** What one call can do. *)
Inductive turn (s s' : ai_discovery) : Prop :=
  | turn_stay : s' = s -> turn s s'
  | turn_advance : waiting (phase s) = true -> value (phase s') = value (phase s) + 1 ->
      retry_count s' = 0 -> turn s s'
  | turn_retry : waiting (phase s) = true -> phase s' = phase s ->
      retry_count s < retry_limit s -> retry_count s' = retry_count s + 1 -> turn s s'
  | turn_offline : waiting (phase s) = true -> phase s' = AI_DISCOVERY_OFFLINE ->
      retry_count s' = retry_count s -> turn s s'.

Lemma value_of_value p : waiting p = true -> value (of_value (value p + 1)) = value p + 1.
Proof. by destruct p. Qed.

Lemma waiting_guard p lo :
  value lo = 1 \/ value lo = 2 ->
  (value p <? value lo) || (value AI_DISCOVERY_TRACKPAD_DESCRIPTOR <? value p) = false ->
  waiting p = true.
Proof. intros Hlo. destruct p, Hlo as [-> | ->]; done. Qed.

Lemma exec_turn op s :
  disc_wf s -> turn s (exec op s).2 /\ retry_limit (exec op s).2 = retry_limit s.
Proof.
  intros [Hl Hc]. unfold exec. destruct op as [m size now to|id v now to|now to].
  - unfold ai_discovery_accept_boot. case_bool_decide as Hp; [by split; [apply turn_stay|]|].
    destruct (negb _); [by split; [apply turn_stay|]|].
    destruct (find_range _ _ _); [by split; [apply turn_stay|]|]. cbn -[arm_deadline arm_request set_field of_value].
    set (s1 := _ <| phase := _ |>).
    destruct (arm_deadline_frame s1 now to) as (F1 & F2 & F3 & _). split; [|by rewrite F3].
    apply turn_advance; [by rewrite Hp|by rewrite F1, Hp|by rewrite F2].
  - unfold ai_discovery_accept. destruct (_ || _) eqn:Hp; [by split; [apply turn_stay|]|].
    apply waiting_guard in Hp; [|by right].
    destruct (negb (id =? _)); [by split; [apply turn_stay|]|].
    destruct (negb v); [by split; [apply turn_offline|]|].
    set (s1 := _ <| phase := _ |>).
    assert (value (phase s1) = value (phase s) + 1) as Hv by by apply value_of_value.
    case_bool_decide; cbn -[arm_deadline arm_request set_field of_value]; [by split; [apply turn_advance|]|].
    destruct (arm_request_frame s1 now to) as (F1 & F2 & F3 & _). split; [|by rewrite F3].
    apply turn_advance; [done|by rewrite F1|by rewrite F2].
  - unfold ai_discovery_poll. destruct (_ || _) eqn:Hp; [by split; [apply turn_stay|]|].
    apply waiting_guard in Hp; [|by left].
    destruct (now <? _); [by split; [apply turn_stay|]|].
    destruct (Z.leb_spec (retry_limit s) (retry_count s)); [by split; [apply turn_offline|]|].
    set (s1 := s <| retry_count := _ |>). cbn -[arm_deadline arm_request set_field of_value].
    assert (retry_count s1 = retry_count s + 1) as Hc1.
    { cbn. apply wrap_id. unfold fits in *. lia. }
    destruct (arm_deadline_frame s1 now to) as (F1 & F2 & F3 & _).
    destruct (arm_request_frame s1 now to) as (G1 & G2 & G3 & _).
    case_bool_decide; (split; [apply turn_retry|]); rewrite ?F1, ?F2, ?F3, ?G1, ?G2, ?G3; done || lia.
Qed.

Lemma turn_budget s s' :
  disc_wf s -> turn s s' -> retry_limit s' = retry_limit s ->
  0 <= retry_count s' <= retry_limit s' /\ 0 <= budget s' /\
  (s' = s \/ budget s' < budget s).
Proof.
  intros [Hl Hc] Ht El. unfold budget, rank.
  assert (waiting (phase s) = true -> 1 <= 8 - value (phase s)) as H8 by by destruct (phase s).
  destruct Ht as [->|Hw Hp Hr|Hw Hp Hr Hr'|Hw Hp Hr]; rewrite ?El.
  - split_and!; try lia; [|by left]. destruct (waiting (phase s)); [|done].
    specialize (H8 eq_refl). nia.
  - rewrite Hr, Hw. specialize (H8 Hw). split_and!; try lia; [|right];
      (destruct (waiting (phase s')) eqn:E; [|nia]); rewrite Hp in *; [|nia].
    assert (1 <= 8 - value (phase s')) by by destruct (phase s'). nia.
  - rewrite Hp, Hw, Hr'. specialize (H8 Hw). split_and!; try lia; nia.
  - rewrite Hp, Hr, Hw. cbn. specialize (H8 Hw). split_and!; try lia. right. nia.
Qed.

Lemma exec_wf op s : disc_wf s -> disc_wf (exec op s).2.
Proof.
  intros Hwf. destruct (exec_turn op s Hwf) as [Ht El].
  destruct (turn_budget s _ Hwf Ht El) as (Hc & _). split; [|done].
  rewrite El. apply Hwf.
Qed.

Lemma run_budget ops s :
  disc_wf s -> 0 <= (run ops s).2 /\ (run ops s).2 + budget (run ops s).1 <= budget s /\
  disc_wf (run ops s).1 /\ 0 <= budget (run ops s).1.
Proof.
  revert s. induction ops as [|op ops IH]; intros s Hwf.
  { cbn. destruct (turn_budget s s Hwf (turn_stay s s eq_refl) eq_refl) as (_ & Hb & _).
    split_and!; done || lia. }
  cbn [run]. destruct (exec_turn op s Hwf) as [Ht El].
  destruct (turn_budget s _ Hwf Ht El) as (_ & _ & Hlt).
  specialize (IH _ (exec_wf op s Hwf)). destruct (run ops _) as [s2 n]. cbn [fst snd] in *.
  case_bool_decide as E; [rewrite E in IH; split_and!; lia || tauto|].
  destruct Hlt as [?|Hlt]; [done|]. split_and!; lia || tauto.
Qed.

(** [start limit]: discovery just started. *)
Definition started (now timeout limit : Z) (s : ai_discovery) : Prop :=
  forall s0, ai_discovery_start (Some s0) now timeout limit = Some s.

Lemma started_spec now timeout limit s :
  started now timeout limit s ->
  phase s = AI_DISCOVERY_WAIT_BOOT /\ retry_count s = 0 /\ retry_limit s = limit /\
  request_id s = 0.
Proof.
  intros H. specialize (H s). unfold ai_discovery_start in H. injection H as <-.
  match goal with |- phase (arm_deadline ?x _ _) = _ /\ _ =>
    destruct (arm_deadline_frame x now timeout) as (-> & -> & -> & -> & _) end. done.
Qed.

(** C26: discovery always ends.  Whatever answers, timeouts and stray calls arrive, in
    any order, at most 7 * (retry_limit + 1) of them have any effect; the others
    leave the state as it was.  (Seven answers are needed, each is waited for
    retry_limit + 1 times.) *)
Theorem discovery_terminates ops now timeout limit s :
  is_u8 limit -> started now timeout limit s ->
  let '(s', effective) := run ops s in
  effective <= 7 * (limit + 1) /\ retry_count s' <= limit /\
  (effective = 7 * (limit + 1) -> waiting (phase s') = false).
Proof.
  intros Hl (Hp & Hc & Hlim & _)%started_spec.
  assert (disc_wf s) as Hwf by (split; [by rewrite Hlim|unfold fits in *; lia]).
  assert (budget s = 7 * (limit + 1)) as Hb.
  { unfold budget, rank. rewrite Hp, Hc, Hlim. cbn -[Z.mul]. lia. }
  destruct (run_budget ops s Hwf) as (H0 & Hle & Hwf' & Hpos).
  assert (retry_limit (run ops s).1 = limit) as El.
  { clear -Hwf Hlim. revert s Hwf Hlim. induction ops as [|op ops IH]; intros s Hwf Hlim; [done|].
    cbn [run]. specialize (IH _ (exec_wf op s Hwf)).
    destruct (exec_turn op s Hwf) as [_ E]. rewrite E in IH. specialize (IH Hlim).
    by destruct (run ops _). }
  destruct (run ops s) as [s' n]. cbn [fst snd] in *.
  destruct Hwf' as [_ Hc']. rewrite El in Hc'. split_and!; [lia|lia|].
  intros ->. rewrite Hb in Hle. unfold budget, rank in Hle, Hpos. rewrite El in Hle.
  destruct (waiting (phase s')) eqn:E; [|done].
  assert (1 <= 8 - value (phase s')) by by destruct (phase s'). nia.
Qed.

Definition demo_start : ai_discovery := arm_deadline
  {| phase := AI_DISCOVERY_WAIT_BOOT; retry_count := 0; retry_limit := 2;
     request_id := 0; deadline_us := 0 |} 1000 500.

Lemma demo_started : started 1000 500 2 demo_start.
Proof. by intros s0. Qed.

Definition demo_ops : list disc_op :=
  [op_poll 1400 500; op_poll 1500 500; op_boot [0xa0; 0x80; 0; 0] 4 1600 500;
   op_accept 3 true 1700 500; op_poll 2100 500; op_accept 0 true 2150 500; op_poll 2600 500;
   op_poll 3100 500; op_poll 3600 500; op_poll 4100 500].

Lemma discovery_terminates_witness :
  (run demo_ops demo_start).2 <= 21 /\
  (run demo_ops demo_start).2 = 5 /\ phase (run demo_ops demo_start).1 = AI_DISCOVERY_OFFLINE.
Proof.
  pose proof (discovery_terminates demo_ops 1000 500 2 demo_start ltac:(done) demo_started) as H.
  split; [|by vm_compute]. destruct (run demo_ops demo_start). apply H.
Defined.

(** ** A silent device *)

(** Polls that each come after the deadline the one before set. *)
Fixpoint late_polls (s : ai_discovery) (times : list (Z * Z)) : list disc_op * Prop :=
  match times with
  | [] => ([], True)
  | (now, timeout) :: times =>
      let '(ops, P) := late_polls (exec (op_poll now timeout) s).2 times in
      (op_poll now timeout :: ops, deadline_us s <= now /\ P)
  end.

Lemma late_poll s now timeout :
  disc_wf s -> waiting (phase s) = true -> deadline_us s <= now ->
  let s' := (exec (op_poll now timeout) s).2 in
  if decide (retry_count s = retry_limit s) then phase s' = AI_DISCOVERY_OFFLINE
  else phase s' = phase s /\ retry_count s' = retry_count s + 1 /\ retry_limit s' = retry_limit s.
Proof.
  intros Hwf Hw Hd. destruct (exec_turn (op_poll now timeout) s Hwf) as [_ El]. revert El.
  destruct Hwf as [Hl Hc]. unfold exec, ai_discovery_poll.
  assert ((value (phase s) <? value AI_DISCOVERY_WAIT_BOOT) ||
     (value AI_DISCOVERY_TRACKPAD_DESCRIPTOR <? value (phase s)) = false) as -> by by destruct (phase s).
  rewrite (proj2 (Z.ltb_ge _ _)) by done. intros El.
  destruct (Z.leb_spec (retry_limit s) (retry_count s)).
  - by rewrite decide_True by lia.
  - rewrite decide_False by lia. cbn -[arm_deadline arm_request set_field] in *.
    set (s1 := s <| retry_count := _ |>) in *.
    assert (retry_count s1 = retry_count s + 1) as Hc1.
    { cbn. apply wrap_id. unfold fits in *. lia. }
    destruct (arm_deadline_frame s1 now timeout) as (F1 & F2 & F3 & _).
    destruct (arm_request_frame s1 now timeout) as (G1 & G2 & G3 & _).
    case_bool_decide; rewrite ?F1, ?F2, ?G1, ?G2, Hc1; done.
Qed.

(** a device that stops answering is given up after exactly the retries asked for:
    polled past each deadline, the phase is kept for the retries that are left and
    the next poll takes discovery offline. *)
Theorem silent_device_goes_offline s times :
  disc_wf s -> waiting (phase s) = true ->
  let '(ops, late) := late_polls s times in late ->
  let n := zlen times in
  (n <= retry_limit s - retry_count s -> phase (run ops s).1 = phase s) /\
  (n = retry_limit s - retry_count s + 1 -> phase (run ops s).1 = AI_DISCOVERY_OFFLINE).
Proof.
  revert s. induction times as [|[now timeout] times IH]; intros s Hwf Hw.
  { cbn. intros _. destruct Hwf as [_ Hc]. split; [done|]. change (zlen []) with 0. lia. }
  cbn [late_polls]. pose proof (late_poll s now timeout Hwf Hw) as Hp.
  pose proof (exec_wf (op_poll now timeout) s Hwf) as Hwf1.
  specialize (IH _ Hwf1).
  assert (times = [] -> (late_polls (exec (op_poll now timeout) s).2 times).1 = []) as Hnil by by intros ->.
  set (s1 := (exec (op_poll now timeout) s).2) in *.
  destruct (late_polls s1 times) as [ops P]. cbn beta zeta. cbn [fst] in Hnil. intros [Hd HP]. specialize (Hp Hd).
  assert (zlen ((now, timeout) :: times) = zlen times + 1) as -> by (unfold zlen; simpl; lia).
  assert (0 <= zlen times) by (unfold zlen; lia).
  assert (phase (run (op_poll now timeout :: ops) s).1 = phase (run ops s1).1) as ->.
  { cbn [run]. fold s1. by destruct (run ops s1). }
  cbn zeta in Hp. destruct (decide (retry_count s = retry_limit s)) as [E|E].
  - split; [lia|]. intros Hn. rewrite Hnil; [exact Hp|].
    destruct times; [done|unfold zlen in *; simpl in *; lia].
  - destruct Hp as (Hp1 & Hp2 & Hp3). rewrite Hp1, Hp2, Hp3 in IH. specialize (IH Hw HP).
    split; intros; apply IH; lia.
Qed.

Lemma silent_device_goes_offline_witness :
  phase (run [op_poll 1500 500; op_poll 2000 500; op_poll 2600 500] demo_start).1 =
    AI_DISCOVERY_OFFLINE.
Proof.
  pose proof (silent_device_goes_offline demo_start [(1500, 500); (2000, 500); (2600, 500)]) as H.
  apply H; [by split|done| |done].
  vm_compute. by split_and!.
Defined.

(** ** Which answer is which *)

(** an answer identifies the phase that asked.  A message can match the request of
    at most one phase, and it does match the phase's own request as
    [ai_discovery_request_encode] sends it, when it echoes that request's report and
    device from the same target with a non-empty payload. *)
Theorem response_identifies_phase stack p wire m :
  (forall p', ai_discovery_response_matches stack p (Some wire) (Some m) = true ->
     ai_discovery_response_matches stack p' (Some wire) (Some m) = true -> p' = p) /\
  (forall q, ai_discovery_request_for_phase p (Some stack) = (AI_OK, Some q) ->
     ai_discovery_response_matches stack p (Some wire) (Some m) =
       bool_decide (pm_payload_length m <> 0 /\ mv_flags wire = AI_PACKET_WRITE /\
         mv_device wire = dr_target q /\ pm_type m = dr_type q /\
         pm_report m = dr_report q /\ pm_device m = dr_device q)).
Proof.
  unfold ai_discovery_response_matches. split.
  - intros p'. destruct (_ || _); [done|].
    destruct p, p'; cbn; try done; rewrite !andb_true_iff, !Z.eqb_eq; vm_compute; lia.
  - intros q Hq. rewrite Hq.
    assert (dr_target q = 0xd0 /\ dr_type q = 0x20) as [-> ->].
    { by destruct p; cbn in Hq; simplify_eq. }
    apply Bool.eq_iff_eq_true. rewrite bool_decide_eq_true. destruct (_ || _) eqn:E.
    + rewrite !orb_true_iff, !negb_true_iff, !Z.eqb_neq, Z.eqb_eq in E. split; [done|lia].
    + rewrite !orb_false_iff, !negb_false_iff, !Z.eqb_eq, Z.eqb_neq in E.
      rewrite andb_true_iff, !Z.eqb_eq. lia.
Qed.

(** A late answer is ignored: once a request was sent again its old number is stale. *)
Lemma stale_response_rejected s now timeout now' timeout' valid :
  disc_wf s -> is_u32 (request_id s) ->
  let s' := (exec (op_poll now timeout) s).2 in
  phase s <> AI_DISCOVERY_WAIT_BOOT -> s' <> s ->
  exec (op_accept (request_id s) valid now' timeout') s' = (AI_ERR_SEQUENCE, s').
Proof.
  intros Hwf Hid s' Hp Hne. subst s'.
  unfold exec, ai_discovery_poll in *.
  destruct (_ || _) eqn:Hg; [by destruct Hne|]. destruct (now <? _); [by destruct Hne|].
  destruct (_ <=? _); [done|]. rewrite bool_decide_false by done.
  cbn -[arm_request set_field ai_discovery_accept].
  set (s1 := s <| retry_count := _ |>).
  destruct (arm_request_frame s1 now timeout) as (F1 & _ & _ & F4 & _).
  set (s2 := arm_request s1 now timeout) in *. unfold ai_discovery_accept.
  destruct (_ || _); [done|]. rewrite F4.
  assert ((request_id s =? u32 (request_id s1 + 1)) = false) as ->.
  2: { by destruct (_ || _). }
  apply Z.eqb_neq. change (request_id s1) with (request_id s). word_lia.
Qed.
End Disc.
