(* ===== verification/Trackpad.v ===== *)
(** * Trackpad dimensions and initialisation
    (apple-input/protocol/src/apple_trackpad_axis.c, apple_spihid_trackpad.c)

    [Axis]: the dimensions report and the axis contract made from it; the millimetre to
    inch conversion rounds to nearest.  [Init]: the two-request handshake that reads the
    dimensions and switches the device to multitouch. *)

From S2P Require Import Prelude Arrays Bytes SpiHid.

Module Axis.
Import Hid.

(** ** Data *)

Record ai_trackpad_dimensions := {
  width_hundredths_mm : Z;
  height_hundredths_mm : Z;
  min_x : Z;
  min_y : Z;
  max_x : Z;
  max_y : Z;
  dim_valid : bool;
}.

Record ai_trackpad_axis := {
  logical_min : Z;
  logical_max : Z;
  physical_min : Z;
  physical_max : Z;
  unit_ : Z;
  unit_exponent : Z;
  axis_valid : bool;
}.
#[export] Instance axis_eta : Eta ai_trackpad_axis :=
  fun a => Build_ai_trackpad_axis (logical_min a) (logical_max a) (physical_min a)
    (physical_max a) (unit_ a) (unit_exponent a) (axis_valid a).

Record ai_trackpad_axis_contract := {
  axis_x : ai_trackpad_axis;
  axis_y : ai_trackpad_axis;
  contract_valid : bool;
}.
#[export] Instance contract_eta : Eta ai_trackpad_axis_contract :=
  fun c => Build_ai_trackpad_axis_contract (axis_x c) (axis_y c) (contract_valid c).

Definition dimensions_zero : ai_trackpad_dimensions :=
  Build_ai_trackpad_dimensions 0 0 0 0 0 0 false.
Definition axis_zero : ai_trackpad_axis := Build_ai_trackpad_axis 0 0 0 0 0 0 false.
Definition contract_zero : ai_trackpad_axis_contract :=
  Build_ai_trackpad_axis_contract axis_zero axis_zero false.

(** The conversion of an unsigned 32-bit value to [int32_t]. *)
Definition s32 (v : Z) : Z := if v <? 2 ^ 31 then v else v - 2 ^ 32.

(** ** Operations *)

Definition ai_trackpad_get_le16 (bytes : list Z) (at_ : Z) : Z :=
  Z.lor bytes .[ at_ ] (u16 (Z.shiftl bytes .[ at_ + 1 ] 8)).

Definition ai_trackpad_get_le32 (bytes : list Z) (at_ : Z) : Z :=
  Z.lor (Z.lor (Z.lor bytes .[ at_ ] (u32 (Z.shiftl bytes .[ at_ + 1 ] 8)))
           (u32 (Z.shiftl bytes .[ at_ + 2 ] 16))) (u32 (Z.shiftl bytes .[ at_ + 3 ] 24)).

Definition ai_trackpad_get_i16 (bytes : list Z) (at_ : Z) : Z :=
  let value := ai_trackpad_get_le16 bytes at_ in
  let value := if negb (Z.land value 0x8000 =? 0) then Z.lor value 0xffff0000 else value in
  s32 value.

Definition ai_trackpad_dimensions_parse (report : ptr (list Z)) (length : Z)
    (out : ptr ai_trackpad_dimensions) : ai_status * ptr ai_trackpad_dimensions :=
  deref _o := out else (AI_ERR_ARGUMENT, out) in
  let out := Some dimensions_zero in
  deref r := report else (AI_ERR_ARGUMENT, out) in
  if length <? 17 then (AI_ERR_LENGTH, out)
  else if negb (r .[ 0 ] =? 0xd9) then (AI_ERR_PROTOCOL, out)
  else
    let width := ai_trackpad_get_le32 r 1 in
    let height := ai_trackpad_get_le32 r 5 in
    let minx := ai_trackpad_get_i16 r 9 in
    let miny := ai_trackpad_get_i16 r 11 in
    let maxx := ai_trackpad_get_i16 r 13 in
    let maxy := ai_trackpad_get_i16 r 15 in
    if (width =? 0) || (height =? 0) || (maxx <=? minx) || (maxy <=? miny)
    then (AI_ERR_PROTOCOL, out)
    else (AI_OK, Some (Build_ai_trackpad_dimensions width height minx miny maxx maxy true)).

Definition ai_trackpad_hundredths_mm_to_hundredths_inch (hundredths_mm : Z) (out : ptr Z)
    : bool * ptr Z :=
  if is_null out || (hundredths_mm =? 0) then (false, out)
  else
    let scaled := u64 (u64 (hundredths_mm * 5) + 63) in
    let scaled := scaled / 127 in
    if (scaled =? 0) || (0x7fffffff <? scaled) then (false, out) else (true, Some scaled).

Definition ai_trackpad_axis_contract_from_dimensions (dimensions : ptr ai_trackpad_dimensions)
    (out : ptr ai_trackpad_axis_contract) : ai_status * ptr ai_trackpad_axis_contract :=
  deref _o := out else (AI_ERR_ARGUMENT, out) in
  let out := Some contract_zero in
  deref d := dimensions else (AI_ERR_ARGUMENT, out) in
  if negb (dim_valid d) || (max_x d <=? min_x d) || (max_y d <=? min_y d)
  then (AI_ERR_PROTOCOL, out)
  else
    let x := axis_zero <| logical_min := min_x d |> <| logical_max := max_x d |> in
    let y := axis_zero <| logical_min := min_y d |> <| logical_max := max_y d |> in
    match ai_trackpad_hundredths_mm_to_hundredths_inch (width_hundredths_mm d)
            (Some (physical_max x)) with
    | (false, _) => (AI_ERR_PROTOCOL, out)
    | (true, px) =>
        match ai_trackpad_hundredths_mm_to_hundredths_inch (height_hundredths_mm d)
                (Some (physical_max y)) with
        | (false, _) => (AI_ERR_PROTOCOL, out)
        | (true, py) =>
            let x := x <| physical_max := default 0 px |> in
            let y := y <| physical_max := default 0 py |> in
            let x := x <| unit_ := 0x13 |> in
            let y := y <| unit_ := 0x13 |> in
            let x := x <| unit_exponent := -2 |> in
            let y := y <| unit_exponent := -2 |> in
            let x := x <| axis_valid := true |> in
            let y := y <| axis_valid := true |> in
            (AI_OK, Some (Build_ai_trackpad_axis_contract x y true))
        end
    end.

(** ** The dimensions report *)

(** The report a device with these dimensions sends. *)
Definition le16_bytes (v : Z) : list Z := [v mod 256; v / 256 mod 256].
Definition le32_bytes (v : Z) : list Z := le16_bytes (v mod 65536) ++ le16_bytes (v / 65536).
Definition dimensions_report (d : ai_trackpad_dimensions) : list Z :=
  [0xd9] ++ le32_bytes (width_hundredths_mm d) ++ le32_bytes (height_hundredths_mm d) ++
  le16_bytes (u16 (min_x d)) ++ le16_bytes (u16 (min_y d)) ++
  le16_bytes (u16 (max_x d)) ++ le16_bytes (u16 (max_y d)).

Definition is_s16 (v : Z) : Prop := - 2 ^ 15 <= v < 2 ^ 15.

Record dimensions_ok (d : ai_trackpad_dimensions) : Prop := {
  ok_width : 0 < width_hundredths_mm d < 2 ^ 32;
  ok_height : 0 < height_hundredths_mm d < 2 ^ 32;
  ok_coords : is_s16 (min_x d) /\ is_s16 (min_y d) /\ is_s16 (max_x d) /\ is_s16 (max_y d);
  ok_order : min_x d < max_x d /\ min_y d < max_y d;
  ok_valid : dim_valid d = true;
}.

Lemma le16_arith b0 b1 : is_u8 b0 -> is_u8 b1 -> Z.lor b0 (u16 (Z.shiftl b1 8)) = b0 + b1 * 2 ^ 8.
Proof.
  intros H0 H1. rewrite (wrap_id 16) by (rewrite Z.shiftl_mul_pow2 by done; word_lia).
  by apply lor_shiftl.
Qed.

Lemma le32_arith b0 b1 b2 b3 :
  is_u8 b0 -> is_u8 b1 -> is_u8 b2 -> is_u8 b3 ->
  Z.lor (Z.lor (Z.lor b0 (u32 (Z.shiftl b1 8))) (u32 (Z.shiftl b2 16))) (u32 (Z.shiftl b3 24)) =
  b0 + b1 * 2 ^ 8 + b2 * 2 ^ 16 + b3 * 2 ^ 24.
Proof.
  intros H0 H1 H2 H3.
  rewrite !(wrap_id 32) by (rewrite Z.shiftl_mul_pow2 by done; word_lia).
  unfold fits in *. by rewrite (lor_shiftl b0), (lor_shiftl _ b2), lor_shiftl by lia.
Qed.

Lemma lor_high v : is_u16 v -> Z.lor v 0xffff0000 = v + 0xffff0000.
Proof. intros H. exact (lor_shiftl v 0xffff 16 ltac:(done) H). Qed.

(** Two bytes as a signed number. *)
Lemma i16_bytes v : is_s16 v ->
  let w := u16 v in
  let word := Z.lor (w mod 256) (u16 (Z.shiftl (w / 256 mod 256) 8)) in
  s32 (if negb (Z.land word 0x8000 =? 0) then Z.lor word 0xffff0000 else word) = v.
Proof.
  intros Hv w. unfold is_s16 in Hv. change (2 ^ 15) with 32768 in Hv.
  assert (0 <= w < 65536) as Hw by (subst w; word_lia).
  rewrite le16_arith by (unfold fits; change (2 ^ 8) with 256; apply Z.mod_pos_bound; lia).
  assert (w mod 256 + w / 256 mod 256 * 2 ^ 8 = w) as ->.
  { change (2 ^ 8) with 256. clearbody w. Z.to_euclidean_division_equations. lia. }
  cbv zeta. change 0x8000 with (Z.shiftl 1 15). rewrite land_bit by done.
  rewrite Z.testbit_odd, Z.shiftr_div_pow2 by done.
  assert (w / 2 ^ 15 = 0 \/ w / 2 ^ 15 = 1) as Hb by (change (2 ^ 15) with 32768; Z.to_euclidean_division_equations; lia).
  unfold s32. destruct Hb as [E|E]; rewrite E; cbn [Z.odd].
  - destruct (Z.ltb_spec w (2 ^ 31)); subst w; word_lia.
  - rewrite lor_high by (unfold fits; lia).
    destruct (Z.ltb_spec (w + 0xffff0000) (2 ^ 31)); subst w; word_lia.
Qed.

Lemma le32_bytes_value v : 0 <= v < 2 ^ 32 ->
  let lo := v mod 65536 in let hi := v / 65536 in
  Z.lor (Z.lor (Z.lor (lo mod 256) (u32 (Z.shiftl (lo / 256 mod 256) 8)))
           (u32 (Z.shiftl (hi mod 256) 16))) (u32 (Z.shiftl (hi / 256 mod 256) 24)) = v.
Proof.
  intros Hv lo hi. rewrite le32_arith by (unfold fits; change (2 ^ 8) with 256; apply Z.mod_pos_bound; lia).
  subst lo hi. change (2 ^ 8) with 256. change (2 ^ 16) with 65536. change (2 ^ 24) with 16777216.
  change (2 ^ 32) with 4294967296 in Hv. Z.to_euclidean_division_equations. lia.
Qed.

(** the dimensions a device reports are read back exactly, signs included, from its
    report followed by anything. *)
Theorem dimensions_roundtrip d rest o :
  dimensions_ok d ->
  ai_trackpad_dimensions_parse (Some (dimensions_report d ++ rest))
    (zlen (dimensions_report d ++ rest)) (Some o) = (AI_OK, Some d).
Proof.
  intros [Hw Hh (Hx0 & Hy0 & Hx1 & Hy1) [Hx Hy] Hv].
  unfold ai_trackpad_dimensions_parse.
  rewrite (proj2 (Z.ltb_ge _ _)) by (rewrite zlen_app; change (zlen (dimensions_report d)) with 17; unfold zlen; lia).
  change ((dimensions_report d ++ rest) .[ 0 ]) with 0xd9. cbn [negb Z.eqb Pos.eqb].
  pose proof (le32_bytes_value (width_hundredths_mm d) ltac:(lia)) as Ew.
  pose proof (le32_bytes_value (height_hundredths_mm d) ltac:(lia)) as Eh.
  pose proof (i16_bytes (min_x d) Hx0) as Ex0. pose proof (i16_bytes (min_y d) Hy0) as Ey0.
  pose proof (i16_bytes (max_x d) Hx1) as Ex1. pose proof (i16_bytes (max_y d) Hy1) as Ey1.
  change (ai_trackpad_get_le32 (dimensions_report d ++ rest) 1 = width_hundredths_mm d) in Ew.
  change (ai_trackpad_get_le32 (dimensions_report d ++ rest) 5 = height_hundredths_mm d) in Eh.
  change (ai_trackpad_get_i16 (dimensions_report d ++ rest) 9 = min_x d) in Ex0.
  change (ai_trackpad_get_i16 (dimensions_report d ++ rest) 11 = min_y d) in Ey0.
  change (ai_trackpad_get_i16 (dimensions_report d ++ rest) 13 = max_x d) in Ex1.
  change (ai_trackpad_get_i16 (dimensions_report d ++ rest) 15 = max_y d) in Ey1.
  rewrite Ew, Eh, Ex0, Ey0, Ex1, Ey1.
  rewrite !(proj2 (Z.eqb_neq _ _)), !(proj2 (Z.leb_gt _ _)) by lia. cbn [orb].
  destruct d. cbn in *. by subst.
Qed.

Definition demo_dimensions : ai_trackpad_dimensions :=
  Build_ai_trackpad_dimensions 13340 8210 (-6046) (-181) 6536 7549 true.

Lemma demo_dimensions_ok : dimensions_ok demo_dimensions.
Proof. split; unfold is_s16; cbn; lia || done. Qed.

Lemma dimensions_roundtrip_witness :
  ai_trackpad_dimensions_parse (Some (dimensions_report demo_dimensions ++ [0; 7])) 19
    (Some dimensions_zero) = (AI_OK, Some demo_dimensions).
Proof. exact (dimensions_roundtrip demo_dimensions [0; 7] dimensions_zero demo_dimensions_ok). Defined.

Lemma i16_range b0 b1 : is_u8 b0 -> is_u8 b1 ->
  let word := Z.lor b0 (u16 (Z.shiftl b1 8)) in
  is_s16 (s32 (if negb (Z.land word 0x8000 =? 0) then Z.lor word 0xffff0000 else word)).
Proof.
  intros H0 H1 word. set (v := b0 + b1 * 2 ^ 8).
  assert (word = v) as -> by by apply le16_arith.
  assert (0 <= v < 65536) as Hv by (subst v; word_lia).
  destruct (decide (v < 2 ^ 15)) as [Hlt|Hge].
  - pose proof (i16_bytes v) as H. unfold is_s16 in H. specialize (H ltac:(lia)).
    cbv zeta in H. rewrite (wrap_id 16 v) in H by (unfold fits; lia).
    rewrite le16_arith in H by (unfold fits; change (2 ^ 8) with 256; apply Z.mod_pos_bound; lia).
    assert (v mod 256 + v / 256 mod 256 * 2 ^ 8 = v) as E
      by (change (2 ^ 8) with 256; clearbody v; Z.to_euclidean_division_equations; lia).
    rewrite E in H. rewrite H. unfold is_s16. lia.
  - pose proof (i16_bytes (v - 65536)) as H. unfold is_s16 in H.
    specialize (H ltac:(change (2 ^ 15) with 32768 in *; lia)). cbv zeta in H.
    assert (u16 (v - 65536) = v) as E1 by (clearbody v; word_lia). rewrite E1 in H.
    rewrite le16_arith in H by (unfold fits; change (2 ^ 8) with 256; apply Z.mod_pos_bound; lia).
    assert (v mod 256 + v / 256 mod 256 * 2 ^ 8 = v) as E
      by (change (2 ^ 8) with 256; clearbody v; Z.to_euclidean_division_equations; lia).
    rewrite E in H. rewrite H. unfold is_s16. change (2 ^ 15) with 32768 in *. lia.
Qed.

(** Whatever bytes arrive, parsed dimensions are usable. *)
Lemma dimensions_parse_ok r length o d :
  is_bytes r -> 17 <= zlen r ->
  ai_trackpad_dimensions_parse (Some r) length (Some o) = (AI_OK, Some d) -> dimensions_ok d.
Proof.
  intros Hb Hl. unfold ai_trackpad_dimensions_parse.
  destruct (length <? 17); [done|]. destruct (negb (r .[ 0 ] =? 0xd9)); [done|].
  assert (forall k, 0 <= k < 17 -> is_u8 r .[ k ]) as Hk by (intros; apply arr_get_Forall; [done|lia]).
  assert (forall k, 0 <= k -> k + 3 < 17 -> 0 <= ai_trackpad_get_le32 r k < 2 ^ 32) as H32.
  { intros k ??. unfold ai_trackpad_get_le32. rewrite le32_arith by (apply Hk; lia).
    pose proof (Hk k ltac:(lia)). pose proof (Hk (k + 1) ltac:(lia)).
    pose proof (Hk (k + 2) ltac:(lia)). pose proof (Hk (k + 3) ltac:(lia)). word_lia. }
  assert (forall k, 0 <= k -> k + 1 < 17 -> is_s16 (ai_trackpad_get_i16 r k)) as H16.
  { intros k ??. apply i16_range; apply Hk; lia. }
  destruct (_ || _) eqn:E; [done|]. intros [= <-].
  rewrite !orb_false_iff, !Z.eqb_neq, !Z.leb_gt in E.
  pose proof (H32 1 ltac:(lia) ltac:(lia)). pose proof (H32 5 ltac:(lia) ltac:(lia)).
  split; cbn; [lia..| |lia|done]. split_and!; apply H16; lia.
Qed.

(** ** The axis contract *)

Definition axis_of (minimum maximum hundredths_mm : Z) (a : ai_trackpad_axis) : Prop :=
  logical_min a = minimum /\ logical_max a = maximum /\ physical_min a = 0 /\
  1 <= physical_max a < 2 ^ 31 /\ 2 * Z.abs (127 * physical_max a - 5 * hundredths_mm) < 127 /\
  unit_ a = 0x13 /\ unit_exponent a = -2 /\ axis_valid a = true.

Lemma axis_built minimum maximum mm v :
  1 <= v < 2 ^ 31 /\ 2 * Z.abs (127 * v - 5 * mm) < 127 ->
  axis_of minimum maximum mm (Build_ai_trackpad_axis minimum maximum 0 v 0x13 (-2) true).
Proof. intros [Hv Hn]. unfold axis_of. cbn -[Z.abs Z.mul Z.sub]. tauto. Qed.

Lemma to_inch_exact mm p :
  0 < mm < 2 ^ 32 ->
  exists v, ai_trackpad_hundredths_mm_to_hundredths_inch mm (Some p) = (bool_decide (13 <= mm), Some v) /\
    (13 <= mm -> 1 <= v < 2 ^ 31 /\ 2 * Z.abs (127 * v - 5 * mm) < 127).
Proof.
  intros Hm. unfold ai_trackpad_hundredths_mm_to_hundredths_inch.
  rewrite (proj2 (Z.eqb_neq mm 0)) by lia. cbn [is_null orb].
  rewrite (wrap_id 64 (mm * 5)), (wrap_id 64 (_ + 63)) by word_lia.
  pose proof (Z.div_mod (mm * 5 + 63) 127 ltac:(lia)) as Hd.
  pose proof (Z.mod_pos_bound (mm * 5 + 63) 127 ltac:(lia)) as Hr.
  set (q := (mm * 5 + 63) / 127) in *. clearbody q.
  rewrite (proj2 (Z.ltb_ge 0x7fffffff q)) by lia. rewrite orb_false_r.
  destruct (Z.eqb_spec q 0).
  - exists p. rewrite bool_decide_false by lia. split; [done|lia].
  - exists q. rewrite bool_decide_true by lia. split; [done|]. change (2 ^ 31) with 2147483648. lia.
Qed.

(** every usable dimension of at least 0.13 mm gets an axis contract: the logical
    ranges are the device's, the physical sizes are its sizes in hundredths of an inch
    rounded to the nearest, the unit is 10^-2 inch; smaller ones are refused and leave
    a cleared contract.  (The 31-bit overflow test never fires.) *)
Theorem axis_contract_exact d o :
  dimensions_ok d ->
  exists c, ai_trackpad_axis_contract_from_dimensions (Some d) (Some o) =
      ((if bool_decide (13 <= width_hundredths_mm d /\ 13 <= height_hundredths_mm d)
        then AI_OK else AI_ERR_PROTOCOL), Some c) /\
    if decide (13 <= width_hundredths_mm d /\ 13 <= height_hundredths_mm d)
    then contract_valid c = true /\
      axis_of (min_x d) (max_x d) (width_hundredths_mm d) (axis_x c) /\
      axis_of (min_y d) (max_y d) (height_hundredths_mm d) (axis_y c)
    else c = contract_zero.
Proof.
  intros [Hw Hh _ [Hx Hy] Hv]. unfold ai_trackpad_axis_contract_from_dimensions.
  rewrite Hv, !(proj2 (Z.leb_gt _ _)) by lia. cbn [negb orb].
  cbn [physical_max set_field axis_zero].
  destruct (to_inch_exact (width_hundredths_mm d) 0 Hw) as (vw & -> & Hvw).
  destruct (to_inch_exact (height_hundredths_mm d) 0 Hh) as (vh & -> & Hvh).
  destruct (bool_decide_reflect (13 <= width_hundredths_mm d)) as [H1|H1];
    [destruct (bool_decide_reflect (13 <= height_hundredths_mm d)) as [H2|H2]|].
  - rewrite bool_decide_true by done. eexists. split; [done|]. rewrite decide_True by done.
    split; [done|]. split; [exact (axis_built _ _ _ _ (Hvw H1))|exact (axis_built _ _ _ _ (Hvh H2))].
  - rewrite bool_decide_false by tauto. eexists. split; [done|]. by rewrite decide_False by tauto.
  - rewrite bool_decide_false by tauto. eexists. split; [done|]. by rewrite decide_False by tauto.
Qed.

Lemma axis_contract_exact_witness :
  exists c, ai_trackpad_axis_contract_from_dimensions (Some demo_dimensions) (Some contract_zero) =
    (AI_OK, Some c) /\ axis_of (-6046) 6536 13340 (axis_x c).
Proof.
  destruct (axis_contract_exact demo_dimensions contract_zero demo_dimensions_ok)
    as (c & E & _ & Hx & _).
  by exists c.
Defined.
End Axis.

Module Init.
Import Hid Axis.

Definition AI_UINT64_MAX : Z := 2 ^ 64 - 1.

Record ai_trackpad_init := {
  phase : ai_trackpad_init_phase;
  retry_count : Z;
  retry_limit : Z;
  message_id : Z;
  deadline_us : Z;
  dimensions : ai_trackpad_dimensions;
}.
#[export] Instance ai_trackpad_init_eta : Eta ai_trackpad_init :=
  fun s => Build_ai_trackpad_init (phase s) (retry_count s) (retry_limit s) (message_id s)
    (deadline_us s) (dimensions s).

Definition arm_deadline (s : ai_trackpad_init) (now_us timeout_us : Z) : ai_trackpad_init :=
  let s := s <| deadline_us := u64 (now_us + timeout_us) |> in
  if deadline_us s <? now_us then s <| deadline_us := AI_UINT64_MAX |> else s.

Definition ai_trackpad_init_start (state : ptr ai_trackpad_init)
    (message_id now_us timeout_us retry_limit : Z) : ptr ai_trackpad_init :=
  deref _s := state else state in
  Some (arm_deadline
    {| phase := AI_TRACKPAD_INIT_DIMENSIONS; retry_count := 0; retry_limit := retry_limit;
       message_id := message_id; deadline_us := 0; dimensions := dimensions_zero |}
    now_us timeout_us).

Definition ai_trackpad_init_response_matches (state : ptr ai_trackpad_init)
    (wire : ptr ai_message_view) (message : ptr ai_protocol_message) : bool :=
  deref s := state else false in
  deref w := wire else false in
  deref m := message else false in
  if negb (mv_flags w =? AI_PACKET_WRITE) || negb (pm_id m =? message_id s) then false
  else
    match phase s with
    | AI_TRACKPAD_INIT_DIMENSIONS =>
        (mv_device w =? 0x02) && (pm_type m =? 0x32) && (pm_report m =? 0xd9) &&
        (pm_device m =? 0x00) && (17 <=? pm_payload_length m)
    | AI_TRACKPAD_INIT_MULTITOUCH =>
        (mv_device w =? 0x02) && (pm_type m =? 0x52) && (pm_report m =? 0x02)
    | _ => false
    end.

Definition ai_trackpad_init_accept (state : ptr ai_trackpad_init) (wire : ptr ai_message_view)
    (message : ptr ai_protocol_message) (now_us timeout_us : Z)
    : ai_status * ptr ai_trackpad_init :=
  deref s := state else (AI_ERR_ARGUMENT, state) in
  deref _w := wire else (AI_ERR_ARGUMENT, state) in
  deref m := message else (AI_ERR_ARGUMENT, state) in
  if negb (ai_trackpad_init_response_matches state wire message) then (AI_ERR_SEQUENCE, state)
  else
    let '(status, s) :=
      if bool_decide (phase s = AI_TRACKPAD_INIT_DIMENSIONS) then
        let '(status, dim) := ai_trackpad_dimensions_parse (pm_payload m) (pm_payload_length m)
                                (Some (dimensions s)) in
        (status, s <| dimensions := default (dimensions s) dim |>)
      else (AI_OK, s) in
    if bool_decide (status <> AI_OK) then (status, Some s)
    else
      let s := s <| retry_count := 0 |> <| message_id := u8 (message_id s + 1) |> in
      if bool_decide (phase s = AI_TRACKPAD_INIT_DIMENSIONS) then
        let s := s <| phase := AI_TRACKPAD_INIT_MULTITOUCH |> in
        (AI_OK, Some (arm_deadline s now_us timeout_us))
      else (AI_COMPLETE, Some (s <| phase := AI_TRACKPAD_INIT_READY |>)).

Definition ai_trackpad_init_poll (state : ptr ai_trackpad_init) (now_us timeout_us : Z)
    : ai_status * ptr ai_trackpad_init :=
  deref s := state else (AI_ERR_ARGUMENT, state) in
  if bool_decide (phase s <> AI_TRACKPAD_INIT_DIMENSIONS) &&
     bool_decide (phase s <> AI_TRACKPAD_INIT_MULTITOUCH)
  then ((if bool_decide (phase s = AI_TRACKPAD_INIT_READY) then AI_COMPLETE else AI_ERR_SEQUENCE),
        state)
  else if now_us <? deadline_us s then (AI_OK, state)
  else if retry_limit s <=? retry_count s
  then (AI_ERR_TIMEOUT, Some (s <| phase := AI_TRACKPAD_INIT_OFFLINE |>))
  else
    let s := s <| retry_count := u8 (retry_count s + 1) |>
               <| message_id := u8 (message_id s + 1) |> in
    (AI_ERR_TIMEOUT, Some (arm_deadline s now_us timeout_us)).

(** ** Runs *)

Lemma init_deadline_frame s now timeout :
  let s' := arm_deadline s now timeout in
  phase s' = phase s /\ retry_count s' = retry_count s /\ retry_limit s' = retry_limit s /\
  message_id s' = message_id s /\ dimensions s' = dimensions s.
Proof.
  unfold arm_deadline. destruct s as [p c l i dl d]. cbn. by destruct (_ <? now).
Qed.

(** What the message decoder delivers: a payload at least as long as it says. *)
Definition message_ok (m : ai_protocol_message) : Prop :=
  exists b, pm_payload m = Some b /\ is_bytes b /\ pm_payload_length m <= zlen b.

Inductive init_step (s : ai_trackpad_init) : ai_trackpad_init -> Prop :=
  | step_accept w m now timeout rc s' :
      message_ok m ->
      ai_trackpad_init_accept (Some s) (Some w) (Some m) now timeout = (rc, Some s') ->
      init_step s s'
  | step_poll now timeout rc s' :
      ai_trackpad_init_poll (Some s) now timeout = (rc, Some s') -> init_step s s'.

(** Answers still needed. *)
Definition rank (p : ai_trackpad_init_phase) : Z :=
  match p with AI_TRACKPAD_INIT_DIMENSIONS => 2 | AI_TRACKPAD_INIT_MULTITOUCH => 1 | _ => 0 end.
Definition budget (s : ai_trackpad_init) : Z :=
  if bool_decide (rank (phase s) = 0) then 0
  else rank (phase s) * (retry_limit s + 1) - retry_count s.

Lemma budget_at s :
  budget s = match phase s with
             | AI_TRACKPAD_INIT_DIMENSIONS => 2 * (retry_limit s + 1) - retry_count s
             | AI_TRACKPAD_INIT_MULTITOUCH => 1 * (retry_limit s + 1) - retry_count s
             | _ => 0
             end.
Proof. unfold budget. by destruct (phase s). Qed.

Record init_inv (s : ai_trackpad_init) : Prop := {
  inv_limit : is_u8 (retry_limit s);
  inv_count : 0 <= retry_count s <= retry_limit s;
  inv_before : phase s = AI_TRACKPAD_INIT_DIMENSIONS -> dimensions s = dimensions_zero;
  inv_after : phase s = AI_TRACKPAD_INIT_MULTITOUCH \/ phase s = AI_TRACKPAD_INIT_READY ->
    dimensions_ok (dimensions s);
}.

(** A refused report leaves the cleared dimensions it found. *)
Lemma dimensions_parse_refused r length o :
  (ai_trackpad_dimensions_parse r length (Some o)).1 <> AI_OK ->
  (ai_trackpad_dimensions_parse r length (Some o)).2 = Some dimensions_zero.
Proof.
  unfold ai_trackpad_dimensions_parse. destruct r as [r|]; [|done].
  destruct (length <? 17); [done|]. destruct (negb _); [done|]. by destruct (_ || _).
Qed.

Lemma dimensions_parse_some r length o :
  exists d, (ai_trackpad_dimensions_parse r length (Some o)).2 = Some d.
Proof.
  unfold ai_trackpad_dimensions_parse. destruct r as [r|]; [|eauto].
  destruct (length <? 17); [eauto|]. destruct (negb _); [eauto|]. destruct (_ || _); eauto.
Qed.

Lemma init_accept_cases s w m now timeout rc s' :
  init_inv s -> message_ok m ->
  ai_trackpad_init_accept (Some s) (Some w) (Some m) now timeout = (rc, Some s') ->
  s' = s \/ retry_limit s' = retry_limit s /\ retry_count s' = 0 /\ dimensions_ok (dimensions s') /\
    (phase s = AI_TRACKPAD_INIT_DIMENSIONS /\ phase s' = AI_TRACKPAD_INIT_MULTITOUCH \/
     phase s = AI_TRACKPAD_INIT_MULTITOUCH /\ phase s' = AI_TRACKPAD_INIT_READY).
Proof.
  intros [Hl Hc Hb Ha] (b & Hp & Hby & Hlen). unfold ai_trackpad_init_accept.
  destruct (negb _) eqn:Hm; [intros [= _ ->]; by left|].
  unfold ai_trackpad_init_response_matches in Hm. destruct (_ || _); [done|].
  destruct (phase s) eqn:Hph; try done; rewrite negb_false_iff, !andb_true_iff in Hm.
  - rewrite bool_decide_true by done. rewrite Hb by done. rewrite Hp.
    destruct Hm as [_ Hlen17]. apply Z.leb_le in Hlen17.
    pose proof (dimensions_parse_refused (Some b) (pm_payload_length m) dimensions_zero) as Href.
    pose proof (dimensions_parse_ok b (pm_payload_length m) dimensions_zero) as Hok.
    pose proof (dimensions_parse_some (Some b) (pm_payload_length m) dimensions_zero) as Hsome.
    destruct (ai_trackpad_dimensions_parse _ _ _) as [rc1 dim]. cbn [fst snd] in *.
    case_bool_decide as Hst.
    + intros [= _ <-]. rewrite (Href Hst). left. specialize (Hb eq_refl).
      destruct s. cbn in *. by subst.
    + subst rc1. assert (exists d, dim = Some d) as [d ->].
      { exact Hsome. }
      intros H. right. specialize (Hok d Hby ltac:(lia) eq_refl).
      cbn [set_field] in H. cbn -[arm_deadline] in H.
      rewrite bool_decide_true in H by (rewrite <- Hph; done). injection H as _ <-.
      match goal with |- context [arm_deadline ?x _ _] => set (x0 := x) end.
      pose proof (init_deadline_frame x0 now timeout) as H. cbv zeta in H. destruct H as (-> & -> & -> & _ & ->).
      cbn. split_and!; try done. by left.
  - rewrite (bool_decide_false (AI_TRACKPAD_INIT_MULTITOUCH = _)) by done. cbn.
    rewrite (bool_decide_false (AI_OK <> AI_OK)) by tauto.
    rewrite bool_decide_false by (by rewrite Hph). intros [= _ <-]. right. cbn.
    split_and!; try done; [apply Ha; by left|by right].
Qed.

Lemma poll_cases s now timeout rc s' :
  init_inv s -> ai_trackpad_init_poll (Some s) now timeout = (rc, Some s') ->
  s' = s \/ rank (phase s) <> 0 /\ retry_limit s' = retry_limit s /\
    dimensions s' = dimensions s /\
    (phase s' = AI_TRACKPAD_INIT_OFFLINE /\ retry_count s' = retry_count s \/
     phase s' = phase s /\ retry_count s' = retry_count s + 1 /\ retry_count s < retry_limit s).
Proof.
  intros [Hl Hc Hb Ha]. unfold ai_trackpad_init_poll.
  destruct (bool_decide _ && _) eqn:Hp; [intros [= _ ->]; by left|].
  assert (rank (phase s) <> 0) as Hr by by destruct (phase s).
  destruct (now <? _); [intros [= _ ->]; by left|].
  destruct (Z.leb_spec (retry_limit s) (retry_count s)).
  - intros [= _ <-]. right. split_and!; try done. by left.
  - set (s1 := s <| retry_count := _ |> <| message_id := _ |>).
    pose proof (init_deadline_frame s1 now timeout) as (F1 & F2 & F3 & _ & F5).
    intros [= _ <-]. right. rewrite F1, F2, F3, F5. split_and!; try done. right.
    assert (retry_count s1 = retry_count s + 1) as -> by (cbn; apply wrap_id; unfold fits in *; lia).
    done.
Qed.

Lemma init_inv_step s s' :
  init_inv s -> init_step s s' ->
  init_inv s' /\ (s' = s \/ 0 <= budget s' < budget s).
Proof.
  intros Hinv Hstep. pose proof Hinv as [Hl Hc Hb Ha].
  destruct Hstep as [w m now timeout rc s' Hm H|now timeout rc s' H].
  - destruct (init_accept_cases _ _ _ _ _ _ _ Hinv Hm H) as [->|(El & Ec & Hd & Hph)]; [by auto|].
    split; [|right].
    + split; rewrite ?El, ?Ec; [done|lia| |by intros _]. destruct Hph as [[_ ->]|[_ ->]]; done.
    + rewrite !budget_at, El, Ec. destruct Hph as [[-> ->]|[-> ->]]; cbn -[Z.mul]; lia.
  - destruct (poll_cases _ _ _ _ _ Hinv H) as [->|(Hr & El & Ed & [[Ep Ec]|[Ep [Ec Hlt]]])]; [by auto|..].
    + split; [|right].
      * split; rewrite ?El, ?Ec, ?Ep; [done|lia|done|intros [?|?]; done].
      * rewrite !budget_at, Ep. destruct (phase s); try done; lia.
    + split; [|right].
      * split; rewrite ?El, ?Ep, ?Ed; [done|lia|done|done].
      * rewrite !budget_at, Ep, El. destruct (phase s); try done; lia.
Qed.

(** Every start, with any storage, message id, clock and limit. *)
Definition init_started (s : ai_trackpad_init) : Prop :=
  exists s0 id now timeout limit, is_u8 limit /\
    ai_trackpad_init_start (Some s0) id now timeout limit = Some s.

#[global] Program Instance init_component : Component ai_trackpad_init := {
  comp_init := init_started;
  comp_step := init_step;
  comp_inv := init_inv;
}.
Next Obligation.
  intros s (s0 & id & now & timeout & limit & Hl & [= <-]).
  match goal with |- context [arm_deadline ?x _ _] => set (x0 := x) end.
  pose proof (init_deadline_frame x0 now timeout) as (F1 & F2 & F3 & _ & F5).
  split; rewrite ?F1, ?F2, ?F3, ?F5; try done; [cbn; unfold fits in *; lia|by intros [?|?]].
Qed.
Next Obligation. intros s s' Hinv Hs. by apply (init_inv_step s s'). Qed.

(** C39: trackpad initialisation ends, and ends well or not at all.  Along any run of
    answers and timeouts every call either changes nothing or uses up a budget of at
    most 2 * (retry_limit + 1) calls; and once the trackpad is READY its dimensions
    are usable, so that (from 0.13 mm up) the axis contract is made from them. *)
Theorem trackpad_init_sound s s' :
  reachable s -> init_step s s' ->
  (s' = s \/ 0 <= budget s' < budget s) /\ budget s <= 2 * (retry_limit s + 1) /\
  (phase s' = AI_TRACKPAD_INIT_READY ->
     dimensions_ok (dimensions s') /\
     (13 <= width_hundredths_mm (dimensions s') -> 13 <= height_hundredths_mm (dimensions s') ->
      (ai_trackpad_axis_contract_from_dimensions (Some (dimensions s')) (Some contract_zero)).1 = AI_OK)).
Proof.
  intros Hinv%(reachable_inv s) Hs. destruct (init_inv_step s s' Hinv Hs) as [Hinv' Hb].
  split; [done|]. split.
  - destruct Hinv as [Hl Hc _ _]. rewrite budget_at. destruct (phase s); lia.
  - intros Hr. assert (dimensions_ok (dimensions s')) as Hd by (apply Hinv'; by right).
    split; [done|]. intros Hw Hh. destruct (axis_contract_exact _ contract_zero Hd) as (c & -> & _).
    by rewrite bool_decide_true.
Qed.

Definition demo_answer (device type report id : Z) (payload : list Z) : ai_message_view * ai_protocol_message :=
  ({| mv_flags := AI_PACKET_WRITE; mv_device := 2; mv_data := None; mv_length := 0 |},
   {| pm_type := type; pm_report := report; pm_device := device; pm_id := id;
      pm_response_length := 0; pm_payload := Some payload; pm_payload_length := zlen payload |}).

Definition init_after (n : nat) : ai_trackpad_init :=
  let s0 := arm_deadline
    {| phase := AI_TRACKPAD_INIT_DIMENSIONS; retry_count := 0; retry_limit := 3;
       message_id := 9; deadline_us := 0; dimensions := dimensions_zero |} 100 50 in
  let '(w, m) := demo_answer 0 0x32 0xd9 9 (dimensions_report demo_dimensions) in
  let s1 := default s0 (ai_trackpad_init_accept (Some s0) (Some w) (Some m) 120 50).2 in
  let '(w, m) := demo_answer 0 0x52 0x02 10 [] in
  let s2 := default s1 (ai_trackpad_init_accept (Some s1) (Some w) (Some m) 140 50).2 in
  match n with O => s0 | S O => s1 | _ => s2 end.

Lemma init_after_step n : (n < 2)%nat -> init_step (init_after n) (init_after (S n)).
Proof.
  intros H. destruct n as [|[|n]]; [| |lia].
  - eapply (step_accept _ (demo_answer 0 0x32 0xd9 9 (dimensions_report demo_dimensions)).1
      (demo_answer 0 0x32 0xd9 9 (dimensions_report demo_dimensions)).2 120 50);
      [|vm_compute; reflexivity].
    eexists. split; [done|]. split; [|done]. by apply (bool_decide_unpack _); vm_compute.
  - eapply (step_accept _ (demo_answer 0 0x52 0x02 10 []).1 (demo_answer 0 0x52 0x02 10 []).2 140 50);
      [|vm_compute; reflexivity].
    eexists. split; [done|]. split; [constructor|done].
Qed.

Lemma init_after_reachable : reachable (init_after 1).
Proof.
  exists (init_after 0). split; [|apply rtc_once, init_after_step; lia].
  exists (init_after 0), 9, 100, 50, 3. split; [done|]. vm_compute. reflexivity.
Qed.

Lemma trackpad_init_sound_witness :
  phase (init_after 2) = AI_TRACKPAD_INIT_READY /\ dimensions_ok (dimensions (init_after 2)).
Proof.
  destruct (trackpad_init_sound (init_after 1) (init_after 2) init_after_reachable
    (init_after_step 1 ltac:(lia))) as (_ & _ & H).
  assert (phase (init_after 2) = AI_TRACKPAD_INIT_READY) as E by (vm_compute; reflexivity).
  split; [exact E|apply H, E].
Defined.
End Init.
