(* ===== verification/HidContract.v ===== *)
(** * The HID report-descriptor parser (apple-input/protocol/src/apple_hid_contract.c)

    [ai_hid_input_contract_parse] walks a report descriptor and computes the length of
    every input report.  [Contract.parse_spec] says the same declaratively: the
    descriptor is cut into short items, the items are read with a stack of global
    states, and a report's bits are the sum of its fields.  The theorems: the loop
    ends and agrees with that reading for every descriptor, errors and their order
    included; the lengths it publishes are in range; a report is accepted exactly when
    it has the published length. *)

From Equations Require Import Equations.
From S2P Require Import Prelude Arrays Bytes SpiHid.

Module Contract.
Import Hid.

(** ** Data *)

Definition AI_HID_REPORT_ID_CAPACITY : Z := 256.
Definition AI_HID_GLOBAL_STACK_CAPACITY : Z := 4.
Definition AI_UINT16_MAX : Z := 65535.

Record ai_hid_global_state := {
  report_size : Z;
  report_count : Z;
  report_id : Z;
}.
#[export] Instance globals_eta : Eta ai_hid_global_state :=
  fun g => Build_ai_hid_global_state (report_size g) (report_count g) (report_id g).
Definition globals_zero : ai_hid_global_state := Build_ai_hid_global_state 0 0 0.
#[export] Instance globals_inhabited : Inhabited ai_hid_global_state := populate globals_zero.

Record ai_hid_input_contract := {
  valid : bool;
  uses_report_ids : bool;
  bytes_by_id : list Z;
}.
#[export] Instance contract_eta : Eta ai_hid_input_contract :=
  fun c => Build_ai_hid_input_contract (valid c) (uses_report_ids c) (bytes_by_id c).
Definition contract_zero : ai_hid_input_contract :=
  Build_ai_hid_input_contract false false (replicate 256 0).

(** The parser's locals. *)
Record locals := {
  globals : ai_hid_global_state;
  stack : list ai_hid_global_state;
  stack_depth : Z;
  result : ai_hid_input_contract;
  bits_by_id : list Z;
  offset : Z;
  inputs : Z;
}.
#[export] Instance locals_eta : Eta locals :=
  fun s => Build_locals (globals s) (stack s) (stack_depth s) (result s) (bits_by_id s)
    (offset s) (inputs s).

(** ** The parser *)

Definition ai_hid_unsigned_value (bytes : list Z) (size : Z) : Z :=
  for_range 0 size (fun index value =>
    Z.lor value (u32 (Z.shiftl bytes .[ index ] (index * 8)))) 0.

(** One item that was read completely: the two [switch]es. *)
Definition item_effect (s : locals) (item_type item_tag value : Z) : ai_status + locals :=
  let g := globals s in
  if item_type =? 1 then
    if item_tag =? 7 then inr (s <| globals := g <| report_size := value |> |>)
    else if item_tag =? 8 then
      if (value =? 0) || (AI_HID_REPORT_ID_CAPACITY <=? value) then inl AI_ERR_PROTOCOL
      else inr (s <| globals := g <| report_id := u8 value |> |>
                  <| result := (result s) <| uses_report_ids := true |> |>)
    else if item_tag =? 9 then inr (s <| globals := g <| report_count := value |> |>)
    else if item_tag =? 10 then
      if stack_depth s =? AI_HID_GLOBAL_STACK_CAPACITY then inl AI_ERR_PROTOCOL
      else inr (s <| stack := (stack s) .[ stack_depth s <- g ] |>
                  <| stack_depth := stack_depth s + 1 |>)
    else if item_tag =? 11 then
      if stack_depth s =? 0 then inl AI_ERR_PROTOCOL
      else inr (s <| globals := (stack s) .[ stack_depth s - 1 ] |>
                  <| stack_depth := stack_depth s - 1 |>)
    else inr s
  else if (item_type =? 0) && (item_tag =? 8) then
    let maximum_bits := AI_UINT16_MAX * 8 in
    if (report_size g =? 0) || (report_count g =? 0) then inl AI_ERR_PROTOCOL
    else
      let contribution := u64 (report_size g * report_count g) in
      let total := u64 ((bits_by_id s) .[ report_id g ] + contribution) in
      if (maximum_bits <? contribution) || (maximum_bits <? total) then inl AI_ERR_LENGTH
      else inr (s <| bits_by_id := (bits_by_id s) .[ report_id g <- u32 total ] |>
                  <| inputs := u64 (inputs s + 1) |>)
  else inr s.

(** One round of [while (offset < length)]. *)
Definition parse_round (descriptor : list Z) (length : Z) (s : locals) : ai_status + locals :=
  let prefix := descriptor .[ offset s ] in
  let s := s <| offset := offset s + 1 |> in
  if prefix =? 0xfe then inl AI_ERR_PROTOCOL
  else
    let item_size := Z.land prefix 0x03 in
    let item_size := if item_size =? 3 then 4 else item_size in
    if length - offset s <? item_size then inl AI_ERR_LENGTH
    else
      let item_type := Z.land (Z.shiftr prefix 2) 0x03 in
      let item_tag := Z.shiftr prefix 4 in
      let value := ai_hid_unsigned_value (advance descriptor (offset s)) item_size in
      let s := s <| offset := offset s + item_size |> in
      item_effect s item_type item_tag value.

(** [None] when the fuel runs out before the loop ends. *)
Fixpoint parse_loop (fuel : nat) (descriptor : list Z) (length : Z) (s : locals)
    : option (ai_status + locals) :=
  if negb (offset s <? length) then Some (inr s)
  else
    match fuel with
    | O => None
    | S fuel =>
        match parse_round descriptor length s with
        | inl rc => Some (inl rc)
        | inr s => parse_loop fuel descriptor length s
        end
    end.

(** The loop that publishes the byte counts, from [id], for [n] more ids. *)
Fixpoint publish_loop (n : nat) (id : Z) (bits : list Z) (c : ai_hid_input_contract)
    : ai_status + ai_hid_input_contract :=
  match n with
  | O => inr c
  | S n =>
      if bits .[ id ] =? 0 then publish_loop n (id + 1) bits c
      else
        let bytes := u32 (bits .[ id ] + 7) / 8 in
        let bytes := if uses_report_ids c then u32 (bytes + 1) else bytes in
        if AI_UINT16_MAX <? bytes then inl AI_ERR_LENGTH
        else publish_loop n (id + 1) bits
               (c <| bytes_by_id := (bytes_by_id c) .[ id <- u16 bytes ] |>)
  end.

Definition locals_zero : locals :=
  Build_locals globals_zero (replicate 4 globals_zero) 0 contract_zero (replicate 256 0) 0 0.

(** [None]: the loop did not end within [fuel] rounds. *)
Definition ai_hid_input_contract_parse_fuel (fuel : nat) (descriptor : ptr (list Z)) (length : Z)
    (out : ptr ai_hid_input_contract) : option (ai_status * ptr ai_hid_input_contract) :=
  match descriptor, out with
  | Some d, Some _ =>
      if length =? 0 then Some (AI_ERR_ARGUMENT, out)
      else
        let out := Some contract_zero in
        match parse_loop fuel d length locals_zero with
        | None => None
        | Some (inl rc) => Some (rc, out)
        | Some (inr s) =>
            if negb (stack_depth s =? 0) || (inputs s =? 0) then Some (AI_ERR_PROTOCOL, out)
            else if uses_report_ids (result s) && negb ((bits_by_id s) .[ 0 ] =? 0)
            then Some (AI_ERR_PROTOCOL, out)
            else
              match publish_loop 256 0 (bits_by_id s) (result s) with
              | inl rc => Some (rc, out)
              | inr c => Some (AI_OK, Some (c <| valid := true |>))
              end
        end
  | _, _ => Some (AI_ERR_ARGUMENT, out)
  end.

(** Every round consumes at least one byte: [length] rounds are enough
    ([hid_parse_agrees]). *)
Definition ai_hid_input_contract_parse (descriptor : ptr (list Z)) (length : Z)
    (out : ptr ai_hid_input_contract) : option (ai_status * ptr ai_hid_input_contract) :=
  ai_hid_input_contract_parse_fuel (Z.to_nat length) descriptor length out.

Definition ai_hid_input_report_valid (contract : ptr ai_hid_input_contract)
    (report : ptr (list Z)) (length : Z) (report_id : ptr Z) : bool * ptr Z :=
  deref c := contract else (false, report_id) in
  deref r := report else (false, report_id) in
  if negb (valid c) || (length =? 0) then (false, report_id)
  else
    let id := if uses_report_ids c then r .[ 0 ] else 0 in
    if ((bytes_by_id c) .[ id ] =? 0) || negb ((bytes_by_id c) .[ id ] =? length)
    then (false, report_id)
    else (true, deref _i := report_id else NULL in Some id).

(** ** What a descriptor means *)

Record item := { i_type : Z; i_tag : Z; i_value : Z }.

(** Little-endian value of the data bytes. *)
Fixpoint le_number (l : list Z) : Z :=
  match l with [] => 0 | b :: l => b + 256 * le_number l end.

Definition data_size (prefix : Z) : Z :=
  if prefix mod 4 =? 3 then 4 else prefix mod 4.

(** The items of a descriptor, up to the end, a long item or a truncated one. *)
Equations lex (d : list Z) : list item * ai_status by wf (length d) lt :=
  lex [] := ([], AI_OK);
  lex (prefix :: rest) :=
    if prefix =? 0xfe then ([], AI_ERR_PROTOCOL)
    else if zlen rest <? data_size prefix then ([], AI_ERR_LENGTH)
    else
      let it := Build_item (prefix / 4 mod 4) (prefix / 16)
                  (le_number (prefix_list rest (data_size prefix))) in
      let '(items, rc) := lex (advance rest (data_size prefix)) in
      (it :: items, rc).
Next Obligation. intros. unfold advance. rewrite length_drop. simpl. lia. Qed.

(** The state an item list is read in: globals, the pushed ones (latest first),
    whether ids are used, and the fields so far as (report id, bits). *)
Record reading := {
  r_globals : ai_hid_global_state;
  r_stack : list ai_hid_global_state;
  r_ids : bool;
  r_fields : list (Z * Z);
}.
#[export] Instance reading_eta : Eta reading :=
  fun r => Build_reading (r_globals r) (r_stack r) (r_ids r) (r_fields r).

Definition MAX_BITS : Z := 65535 * 8.

(** The bits of report [id]. *)
Definition report_bits (fields : list (Z * Z)) (id : Z) : Z :=
  foldr Z.add 0 (snd <$> filter (fun f => f.1 = id) fields).

Definition read_item (r : reading) (it : item) : ai_status + reading :=
  let g := r_globals r in
  match i_type it, i_tag it with
  | 1, 7 => inr (r <| r_globals := g <| report_size := i_value it |> |>)
  | 1, 8 =>
      if decide (0 < i_value it < 256)
      then inr (r <| r_globals := g <| report_id := i_value it |> |> <| r_ids := true |>)
      else inl AI_ERR_PROTOCOL
  | 1, 9 => inr (r <| r_globals := g <| report_count := i_value it |> |>)
  | 1, 10 =>
      if decide (length (r_stack r) = 4%nat) then inl AI_ERR_PROTOCOL
      else inr (r <| r_stack := g :: r_stack r |>)
  | 1, 11 =>
      match r_stack r with
      | [] => inl AI_ERR_PROTOCOL
      | g' :: stack => inr (r <| r_globals := g' |> <| r_stack := stack |>)
      end
  | 0, 8 =>
      let bits := report_size g * report_count g in
      if decide (bits = 0) then inl AI_ERR_PROTOCOL
      else if decide (report_bits (r_fields r) (report_id g) + bits <= MAX_BITS)
      then inr (r <| r_fields := (report_id g, bits) :: r_fields r |>)
      else inl AI_ERR_LENGTH
  | _, _ => inr r
  end.

Fixpoint read_items (r : reading) (items : list item) : ai_status + reading :=
  match items with
  | [] => inr r
  | it :: items =>
      match read_item r it with inl rc => inl rc | inr r => read_items r items end
  end.

(** Bytes of report [id], with the id byte when ids are used; 0 for no such report. *)
Definition report_bytes (r : reading) (id : Z) : Z :=
  let bits := report_bits (r_fields r) id in
  if decide (bits = 0) then 0 else (bits + 7) / 8 + (if r_ids r then 1 else 0).

Definition contract_of (r : reading) : ai_hid_input_contract :=
  Build_ai_hid_input_contract true (r_ids r) (report_bytes r <$> seqZ 0 256).

Definition parse_spec (d : list Z) : ai_status * ai_hid_input_contract :=
  let '(items, lexed) := lex d in
  match read_items (Build_reading globals_zero [] false []) items with
  | inl rc => (rc, contract_zero)
  | inr r =>
      if decide (lexed <> AI_OK) then (lexed, contract_zero)
      else if decide (r_stack r <> [] \/ r_fields r = [] \/
                      r_ids r = true /\ report_bits (r_fields r) 0 <> 0)
      then (AI_ERR_PROTOCOL, contract_zero)
      else if decide (Exists (fun id => 65535 < report_bytes r id) (seqZ 0 256))
      then (AI_ERR_LENGTH, contract_zero)
      else (AI_OK, contract_of r)
  end.

(** ** The parser follows the reading *)

Lemma le_number_snoc l b : le_number (l ++ [b]) = le_number l + b * 2 ^ (8 * zlen l).
Proof.
  induction l as [|c l IH]; cbn [app le_number]; [change (zlen []) with 0; lia|]. rewrite IH.
  replace (8 * zlen (c :: l)) with (8 + 8 * zlen l) by (unfold zlen; simpl; lia).
  rewrite Z.pow_add_r by (unfold zlen; lia). lia.
Qed.

Lemma le_number_bound l : is_bytes l -> 0 <= le_number l < 2 ^ (8 * zlen l).
Proof.
  induction 1 as [|b l Hb Hl IH]; cbn [le_number]; [done|]. unfold fits in Hb.
  replace (8 * zlen (b :: l)) with (8 + 8 * zlen l) by (unfold zlen; simpl; lia).
  rewrite Z.pow_add_r by (unfold zlen; lia). change (2 ^ 8) with 256 in *. lia.
Qed.

Lemma unsigned_value_spec bytes size :
  is_bytes bytes -> 0 <= size <= 4 -> size <= zlen bytes ->
  ai_hid_unsigned_value bytes size = le_number (prefix_list bytes size) /\
  is_u32 (le_number (prefix_list bytes size)).
Proof.
  intros Hb Hs Hl.
  assert (forall k, 0 <= k <= size -> 0 <= le_number (prefix_list bytes k) < 2 ^ (8 * k)) as Hbd.
  { intros k Hk. pose proof (le_number_bound (prefix_list bytes k)) as H.
    rewrite zlen_prefix in H by lia. apply H, Forall_take, Hb. }
  split.
  2:{ specialize (Hbd size ltac:(lia)).
      pose proof (Z.pow_le_mono_r 2 (8 * size) 32 ltac:(lia) ltac:(lia)). unfold fits. lia. }
  unfold ai_hid_unsigned_value.
  refine (for_range_inv (fun k v => v = le_number (prefix_list bytes k)) 0 size _ 0 ltac:(lia) _ _).
  { by rewrite prefix_list_0. }
  intros k v Hk ->. rewrite Z.add_0_l, prefix_list_snoc, le_number_snoc, zlen_prefix by lia.
  assert (is_u8 bytes .[ k ]) as Hbk by (apply arr_get_Forall; [done|lia]).
  rewrite (Z.mul_comm k 8). rewrite (wrap_id 32).
  { apply lor_shiftl; [lia|apply Hbd; lia]. }
  rewrite Z.shiftl_mul_pow2 by lia. unfold fits in *.
  assert (k = 0 \/ k = 1 \/ k = 2 \/ k = 3) as Hk4 by lia.
  destruct Hk4 as [->|[->|[->| ->]]]; word_lia.
Qed.

Lemma report_bits_cons id id' b fields :
  report_bits ((id', b) :: fields) id = (if decide (id' = id) then b else 0) + report_bits fields id.
Proof.
  unfold report_bits. rewrite filter_cons. cbn [fst]. by case_decide; cbn [fmap list_fmap foldr snd].
Qed.

Definition globals_ok (g : ai_hid_global_state) : Prop :=
  is_u32 (report_size g) /\ is_u32 (report_count g) /\ is_u8 (report_id g).

(** The locals [s] hold the reading [r]. *)
Record holds (s : locals) (r : reading) : Prop := {
  h_globals : globals s = r_globals r;
  h_ok : Forall globals_ok (r_globals r :: r_stack r);
  h_depth : stack_depth s = zlen (r_stack r) /\ zlen (r_stack r) <= 4 /\ zlen (stack s) = 4;
  h_stack : prefix_list (stack s) (stack_depth s) = rev (r_stack r);
  h_result : result s = Build_ai_hid_input_contract false (r_ids r) (replicate 256 0);
  h_bits_len : zlen (bits_by_id s) = 256;
  h_bits : forall id, 0 <= id < 256 -> (bits_by_id s) .[ id ] = report_bits (r_fields r) id /\
    0 <= report_bits (r_fields r) id <= MAX_BITS;
  h_inputs : inputs s = zlen (r_fields r) /\ zlen (r_fields r) <= offset s;
}.

Ltac h_simpl := cbn [set_field globals stack stack_depth result bits_by_id offset inputs
  r_globals r_stack r_ids r_fields valid uses_report_ids bytes_by_id] in *.

Lemma holds_globals s r g :
  holds s r -> globals_ok g -> holds (s <| globals := g |>) (r <| r_globals := g |>).
Proof.
  intros [Hg Hok Hd Hst Hres Hbl Hb Hi] Hg'. split; h_simpl; try done.
  apply Forall_cons in Hok as [_ Hok]. by constructor.
Qed.

Lemma holds_ids s r :
  holds s r ->
  holds (s <| result := (result s) <| uses_report_ids := true |> |>) (r <| r_ids := true |>).
Proof.
  intros [Hg Hok Hd Hst Hres Hbl Hb Hi]. split; h_simpl; try done. by rewrite Hres.
Qed.

Lemma holds_push s r :
  holds s r -> zlen (r_stack r) < 4 ->
  holds (s <| stack := (stack s) .[ stack_depth s <- globals s ] |>
           <| stack_depth := stack_depth s + 1 |>) (r <| r_stack := r_globals r :: r_stack r |>).
Proof.
  intros [Hg Hok [Hd [Hd4 Hs4]] Hst Hres Hbl Hb Hi] Hlt.
  assert (0 <= zlen (r_stack r)) by (unfold zlen; lia).
  split; h_simpl; try done.
  - constructor; [by apply Forall_cons in Hok as [? _]|done].
  - rewrite zlen_set. change (r_globals r :: r_stack r) with ([r_globals r] ++ r_stack r).
    rewrite zlen_app. change (zlen [r_globals r]) with 1. lia.
  - rewrite prefix_set_snoc by lia. rewrite Hst, Hg. done.
Qed.

Lemma holds_pop s r g stack' :
  holds s r -> r_stack r = g :: stack' ->
  holds (s <| globals := (stack s) .[ stack_depth s - 1 ] |>
           <| stack_depth := stack_depth s - 1 |>)
        (r <| r_globals := g |> <| r_stack := stack' |>).
Proof.
  intros [Hg Hok [Hd [Hd4 Hs4]] Hst Hres Hbl Hb Hi] E. rewrite E in *.
  assert (zlen (g :: stack') = zlen stack' + 1) as El by (unfold zlen; simpl; lia).
  rewrite El in *. assert (0 <= zlen stack') by (unfold zlen; lia).
  rewrite Hd in Hst. rewrite prefix_list_snoc in Hst by lia. cbn [rev] in Hst.
  apply app_inj_tail in Hst as [Hst Hlast].
  replace (stack_depth s - 1) with (zlen stack') by lia.
  split; h_simpl; try done; [by apply Forall_cons in Hok as [_ ?]|lia].
Qed.

Lemma holds_field s r bits :
  holds s r -> 0 < bits -> inputs s < 2 ^ 64 - 1 -> zlen (r_fields r) < offset s ->
  report_bits (r_fields r) (report_id (globals s)) + bits <= MAX_BITS ->
  holds (s <| bits_by_id := (bits_by_id s) .[ report_id (globals s) <-
               u32 ((bits_by_id s) .[ report_id (globals s) ] + bits) ] |>
           <| inputs := u64 (inputs s + 1) |>)
        (r <| r_fields := (report_id (r_globals r), bits) :: r_fields r |>).
Proof.
  intros [Hg Hok Hd Hst Hres Hbl Hb [Hi Hi']] Hpos Hin Hoff Hmax.
  assert (is_u8 (report_id (globals s))) as Hid.
  { rewrite Hg. by apply Forall_cons in Hok as [(_ & _ & ?) _]. }
  unfold fits in Hid. change (2 ^ 8) with 256 in Hid.
  assert (zlen ((report_id (r_globals r), bits) :: r_fields r) = zlen (r_fields r) + 1) as El
    by (unfold zlen; simpl; lia).
  assert (0 <= zlen (r_fields r)) by (unfold zlen; lia).
  split; h_simpl; try done.
  - by rewrite zlen_set.
  - intros id Hid'. rewrite <- Hg. rewrite get_set, report_bits_cons by lia.
    destruct (Hb _ Hid) as [-> ?]. destruct (Hb _ Hid') as [-> ?]. unfold MAX_BITS in *.
    destruct (decide (report_id (globals s) = id)) as [<-|]; [|lia].
    rewrite (wrap_id 32) by word_lia. lia.
  - rewrite El. rewrite (wrap_id 64) by (unfold fits; lia). lia.
Qed.

(** The item that is none of the cases the code names. *)
Ltac split_tags :=
  repeat (match goal with |- context [match ?x with _ => _ end] => is_var x; destruct x end;
          try done).

(** The two switches read one item. *)
Lemma item_effect_reads s r it :
  holds s r -> is_u32 (i_value it) -> inputs s < 2 ^ 64 - 1 ->
  zlen (r_fields r) < offset s ->
  match read_item r it, item_effect s (i_type it) (i_tag it) (i_value it) with
  | inl rc, inl rc' => rc' = rc
  | inr r', inr s' => holds s' r' /\ offset s' = offset s
  | _, _ => False
  end.
Proof.
  intros H Hv Hin Hoff. destruct it as [ty tag v]. cbn [i_type i_tag i_value] in *.
  pose proof H as [Hg Hok [Hd [Hd4 Hs4]] Hst Hres Hbl Hb [Hi Hi']].
  assert (globals_ok (r_globals r)) as (Gs & Gc & Gi) by by apply Forall_cons in Hok as [? _].
  unfold read_item, item_effect. cbn [i_type i_tag i_value]. rewrite Hg.
  assert (holds s r /\ offset s = offset s) as Hskip by done.
  destruct (Z.eqb_spec ty 1) as [->|Hty].
  - destruct (Z.eqb_spec tag 7) as [->|H7]; [|destruct (Z.eqb_spec tag 8) as [->|H8];
      [|destruct (Z.eqb_spec tag 9) as [->|H9]; [|destruct (Z.eqb_spec tag 10) as [->|H10];
        [|destruct (Z.eqb_spec tag 11) as [->|H11]]]]].
    + split; [|done]. by apply holds_globals.
    + unfold AI_HID_REPORT_ID_CAPACITY. destruct (decide (0 < v < 256)) as [Hr|Hr].
      * rewrite (proj2 (Z.eqb_neq v 0)), (proj2 (Z.leb_gt 256 v)) by lia. cbn [orb].
        rewrite (wrap_id 8) by (unfold fits; lia). split; [|done].
        assert (globals_ok ((r_globals r) <| report_id := v |>)) as Hg'
          by (split_and!; try done; unfold fits; cbn; lia).
        exact (holds_ids _ _ (holds_globals s r _ H Hg')).
      * assert ((v =? 0) || (256 <=? v) = true) as ->; [|done].
        rewrite orb_true_iff, Z.eqb_eq, Z.leb_le. unfold fits in Hv. lia.
    + split; [|done]. by apply holds_globals.
    + unfold AI_HID_GLOBAL_STACK_CAPACITY. destruct (Z.eqb_spec (stack_depth s) 4) as [E|E].
      * rewrite decide_True by (unfold zlen in *; lia). done.
      * rewrite decide_False by (unfold zlen in *; lia). split; [|done].
        rewrite <- Hg at 1. apply holds_push; [done|lia].
    + destruct (r_stack r) as [|g' stack'] eqn:E.
      * by rewrite Hd.
      * rewrite (proj2 (Z.eqb_neq _ 0)) by (rewrite Hd; unfold zlen; simpl; lia). split; [|done].
        by apply holds_pop.
    + by split_tags.
  - destruct (Z.eqb_spec ty 0) as [->|Hty0]; [destruct (Z.eqb_spec tag 8) as [->|H8]|]; cbn [andb].
    + assert (0 <= report_size (r_globals r) * report_count (r_globals r)) by (unfold fits in *; nia).
      assert (report_size (r_globals r) * report_count (r_globals r) <= (2 ^ 32 - 1) * (2 ^ 32 - 1))
        by (unfold fits in *; nia).
      destruct (decide (report_size (r_globals r) * report_count (r_globals r) = 0)) as [E|E].
      * assert (_ || _ = true) as ->; [|done]. rewrite orb_true_iff, !Z.eqb_eq. lia.
      * assert (_ || _ = false) as ->; [rewrite orb_false_iff, !Z.eqb_neq; lia|].
        rewrite (wrap_id 64 (_ * _)) by word_lia.
        destruct (Hb (report_id (r_globals r)) Gi) as [-> Hbr]. unfold MAX_BITS, AI_UINT16_MAX in *.
        rewrite (wrap_id 64) by word_lia. case_decide as Hmax.
        { assert (_ || _ = false) as ->; [rewrite orb_false_iff, !Z.ltb_ge; lia|].
          split; [|done]. pose proof (holds_field s r
            (report_size (r_globals r) * report_count (r_globals r)) H) as Hf.
          rewrite Hg in Hf. destruct (Hb (report_id (r_globals r)) Gi) as [Eb _]. rewrite Eb in Hf.
          apply Hf; done || lia. }
        assert (_ || _ = true) as ->; [rewrite orb_true_iff, !Z.ltb_lt; lia|]. done.
    + by split_tags.
    + by split_tags.
Qed.

Lemma advance_cons d i :
  0 <= i < zlen d -> advance d i = d .[ i ] :: advance d (i + 1).
Proof.
  unfold zlen, advance, arr_get. intros Hi.
  replace (Z.to_nat (i + 1)) with (S (Z.to_nat i)) by lia.
  apply drop_S, list_lookup_lookup_total_lt. lia.
Qed.

Lemma advance_advance d i k : 0 <= i -> 0 <= k -> advance (advance d i) k = advance d (i + k).
Proof. intros. unfold advance. rewrite drop_drop. f_equal. lia. Qed.

Lemma data_size_bound prefix : 0 <= data_size prefix <= 4.
Proof. unfold data_size. pose proof (Z.mod_pos_bound prefix 4). case_match; lia. Qed.

Lemma holds_offset s r k : holds s r -> 0 <= k -> holds (s <| offset := offset s + k |>) r.
Proof. intros [] ?. split; h_simpl; try done. lia. Qed.

(** A round of the loop: the item at the offset is read, or lexing stops there. *)
Lemma parse_round_reads d s r :
  is_bytes d -> zlen d < 2 ^ 64 -> holds s r -> 0 <= offset s < zlen d ->
  let prefix := d .[ offset s ] in
  let rest := advance d (offset s + 1) in
  let n := data_size prefix in
  if prefix =? 0xfe then parse_round d (zlen d) s = inl AI_ERR_PROTOCOL
  else if zlen rest <? n then parse_round d (zlen d) s = inl AI_ERR_LENGTH
  else
    match read_item r (Build_item (prefix / 4 mod 4) (prefix / 16)
                         (le_number (prefix_list rest n))), parse_round d (zlen d) s with
    | inl rc, inl rc' => rc' = rc
    | inr r', inr s' => holds s' r' /\ offset s' = offset s + 1 + n /\ offset s' <= zlen d
    | _, _ => False
    end.
Proof.
  intros Hb Hlen H Hoff prefix rest n. unfold parse_round. h_simpl. fold prefix.
  destruct (prefix =? 0xfe); [done|].
  assert ((if Z.land prefix 3 =? 3 then 4 else Z.land prefix 3) = n) as ->.
  { subst n. unfold data_size. by rewrite (land_low prefix 2). }
  assert (zlen rest = zlen d - (offset s + 1)) as Hrest by (apply zlen_advance; lia).
  rewrite Hrest. destruct (Z.ltb_spec (zlen d - (offset s + 1)) n) as [|Hle]; [done|].
  rewrite (shiftr_low prefix 2 2), Z.shiftr_div_pow2 by done.
  pose proof (data_size_bound prefix) as Hn. fold n in Hn. fold rest.
  destruct (unsigned_value_spec rest n) as [-> Hv]; [by apply advance_bytes|done|lia|].
  change (2 ^ 2) with 4. change (2 ^ 4) with 16.
  set (s1 := s <| offset := offset s + 1 |> <| offset := offset s + 1 + n |>).
  assert (holds s1 r) as H1.
  { pose proof (holds_offset s r (1 + n) H ltac:(lia)) as H1. by rewrite Z.add_assoc in H1. }
  pose proof (h_inputs _ _ H) as [Hi Hi'].
  pose proof (item_effect_reads s1 r (Build_item (prefix / 4 mod 4) (prefix / 16)
    (le_number (prefix_list rest n))) H1 Hv) as Hstep.
  change (inputs s1) with (inputs s) in Hstep. change (offset s1) with (offset s + 1 + n) in Hstep.
  specialize (Hstep ltac:(lia) ltac:(lia)). cbn [i_type i_tag i_value] in Hstep.
  destruct (read_item _ _), (item_effect _ _ _ _); try done.
  destruct Hstep as [? E]. split_and!; [done|done|lia].
Qed.

Lemma parse_loop_reads fuel d s r :
  is_bytes d -> zlen d < 2 ^ 64 -> holds s r -> 0 <= offset s <= zlen d ->
  zlen d - offset s <= Z.of_nat fuel ->
  match read_items r (lex (advance d (offset s))).1 with
  | inl rc => parse_loop fuel d (zlen d) s = Some (inl rc)
  | inr r' =>
      if decide ((lex (advance d (offset s))).2 = AI_OK)
      then exists s', parse_loop fuel d (zlen d) s = Some (inr s') /\ holds s' r'
      else parse_loop fuel d (zlen d) s = Some (inl (lex (advance d (offset s))).2)
  end.
Proof.
  intros Hb Hlen. revert s r. induction fuel as [|fuel IH]; intros s r H Hoff Hfuel.
  all: destruct (Z.ltb_spec (offset s) (zlen d)) as [Hlt|Hge]; [|
    assert (advance d (offset s) = []) as -> by (apply nil_length_inv; unfold advance, zlen in *; rewrite length_drop; lia);
    simp lex; cbn [read_items fst snd parse_loop]; rewrite (proj2 (Z.ltb_ge _ _)) by done;
    rewrite decide_True by done; by exists s].
  { lia. }
  cbn [parse_loop]. rewrite (proj2 (Z.ltb_lt _ _)) by done. cbn [negb].
  pose proof (parse_round_reads d s r Hb Hlen H ltac:(lia)) as Hround. cbv zeta in Hround.
  rewrite advance_cons by lia. simp lex.
  destruct (d .[ offset s ] =? 0xfe); [cbn; by rewrite Hround|].
  destruct (zlen (advance d (offset s + 1)) <? data_size d .[ offset s ]); [cbn; by rewrite Hround|].
  cbv zeta. rewrite advance_advance by (pose proof (data_size_bound d .[ offset s ]); lia).
  destruct (read_item _ _) as [rc|r'] eqn:Er, (parse_round d (zlen d) s) as [rc'|s']; try done.
  - subst rc'. destruct (lex _). cbn. by rewrite Er.
  - destruct Hround as (H' & Eo & Ho). rewrite <- Eo.
    pose proof (data_size_bound d .[ offset s ]).
    specialize (IH s' r' H' ltac:(lia) ltac:(lia)).
    destruct (lex (advance d (offset s'))) as [items rc]. cbn [fst snd read_items] in *.
    by rewrite Er.
Qed.

Lemma report_bytes_pos r id :
  report_bits (r_fields r) id <> 0 -> 0 <= report_bits (r_fields r) id -> 0 < report_bytes r id.
Proof.
  intros H H0. unfold report_bytes. rewrite decide_False by done.
  assert (0 < (report_bits (r_fields r) id + 7) / 8) by (apply Z.div_str_pos; lia). case_match; lia.
Qed.

(** The publishing loop writes [report_bytes] unless one of them is too large. *)
Lemma publish_spec n id bits c r :
  0 <= id -> id + Z.of_nat n = 256 -> uses_report_ids c = r_ids r -> zlen (bytes_by_id c) = 256 ->
  (forall j, 0 <= j < 256 -> bits .[ j ] = report_bits (r_fields r) j /\
     0 <= report_bits (r_fields r) j <= MAX_BITS) ->
  (forall j, id <= j < 256 -> (bytes_by_id c) .[ j ] = 0) ->
  match publish_loop n id bits c with
  | inl rc => rc = AI_ERR_LENGTH /\ exists j, id <= j < 256 /\ 65535 < report_bytes r j
  | inr c' =>
      (forall j, id <= j < 256 -> report_bytes r j <= 65535) /\
      valid c' = valid c /\ uses_report_ids c' = r_ids r /\ zlen (bytes_by_id c') = 256 /\
      (forall j, 0 <= j < 256 -> (bytes_by_id c') .[ j ] =
         if decide (j < id) then (bytes_by_id c) .[ j ] else report_bytes r j)
  end.
Proof.
  revert id c. induction n as [|n IH]; intros id c Hid Hn Hu Hl Hb Hz; cbn [publish_loop].
  { split_and!; try done; [lia|]. intros j Hj. by rewrite decide_True by lia. }
  destruct (Hb id ltac:(lia)) as [-> Hbd].
  destruct (Z.eqb_spec (report_bits (r_fields r) id) 0) as [E|E].
  - assert (report_bytes r id = 0) as E0 by (unfold report_bytes; by rewrite decide_True).
    specialize (IH (id + 1) c ltac:(lia) ltac:(lia) Hu Hl Hb (fun j Hj => Hz j ltac:(lia))).
    destruct (publish_loop _ _ _ _) as [rc|c'].
    + destruct IH as (-> & j & Hj & Hlt). split; [done|]. exists j. split; [lia|done].
    + destruct IH as (Hmax & ? & ? & ? & Hv). split_and!; try done.
      * intros j Hj. destruct (decide (j = id)) as [->|]; [lia|]. apply Hmax. lia.
      * intros j Hj. rewrite Hv by done. destruct (decide (j = id)) as [->|].
        { rewrite decide_True, decide_False by lia. rewrite E0. apply Hz. lia. }
        repeat case_decide; done || lia.
  - unfold MAX_BITS in *.
    assert ((if uses_report_ids c then u32 (u32 (report_bits (r_fields r) id + 7) / 8 + 1)
             else u32 (report_bits (r_fields r) id + 7) / 8) = report_bytes r id) as ->.
    { unfold report_bytes. rewrite decide_False, Hu by done. rewrite (wrap_id 32 (_ + 7)) by word_lia.
      destruct (r_ids r); [|lia]. apply wrap_id. word_lia. }
    pose proof (report_bytes_pos r id E ltac:(lia)) as Hpos.
    unfold AI_UINT16_MAX. destruct (Z.ltb_spec 65535 (report_bytes r id)) as [Hbig|Hsmall].
    { split; [done|]. exists id. split; [lia|done]. }
    rewrite (wrap_id 16) by word_lia.
    pose (c2 := c <| bytes_by_id := (bytes_by_id c) .[ id <- report_bytes r id ] |>).
    specialize (IH (id + 1) c2 ltac:(lia) ltac:(lia) Hu). subst c2. h_simpl.
    specialize (IH ltac:(by rewrite zlen_set) Hb).
    specialize (IH ltac:(intros; rewrite get_set_ne by lia; apply Hz; lia)).
    destruct (publish_loop _ _ _ _) as [rc|c'].
    + destruct IH as (-> & j & Hj & Hlt). split; [done|]. exists j. split; [lia|done].
    + destruct IH as (Hmax & ? & ? & ? & Hv). split_and!; try done.
      * intros j Hj. destruct (decide (j = id)) as [->|]; [lia|]. apply Hmax. lia.
      * intros j Hj. rewrite Hv by done. rewrite get_set by lia. repeat case_decide; subst; done || lia.
Qed.

Lemma holds_zero : holds locals_zero (Build_reading globals_zero [] false []).
Proof.
  split; try done.
  - repeat constructor; done.
  - intros id Hid. assert ((bits_by_id locals_zero) .[ id ] = 0) as -> by (apply get_replicate; lia).
    by split.
Qed.

(** The whole function follows the specification. *)
Lemma parse_follows_spec d o :
  is_bytes d -> 0 < zlen d < 2 ^ 64 ->
  ai_hid_input_contract_parse (Some d) (zlen d) (Some o) =
    Some ((parse_spec d).1, Some (parse_spec d).2).
Proof.
  intros Hb Hl. unfold ai_hid_input_contract_parse, ai_hid_input_contract_parse_fuel, parse_spec.
  rewrite (proj2 (Z.eqb_neq _ 0)) by lia.
  pose proof (parse_loop_reads (Z.to_nat (zlen d)) d locals_zero _ Hb ltac:(lia) holds_zero
    ltac:(cbn; lia) ltac:(cbn; lia)) as H.
  change (advance d (offset locals_zero)) with d in H.
  destruct (lex d) as [items lexed]. cbn [fst snd] in H.
  destruct (read_items _ items) as [rc|r]; [by rewrite H|].
  destruct (decide (lexed = AI_OK)) as [->|Hne].
  2:{ rewrite H. by rewrite decide_True by done. }
  destruct H as (s & -> & [Hg Hok [Hd _] _ Hres Hbl Hbits [Hi _]]).
  rewrite decide_False by tauto. rewrite Hd, Hi, Hres. cbn [uses_report_ids].
  destruct (Hbits 0 ltac:(lia)) as [-> _].
  destruct (r_stack r) as [|g st]; [|by rewrite decide_True by by left].
  destruct (r_fields r) as [|f fs] eqn:Ef; [by rewrite decide_True by (right; by left)|].
  change (zlen [] =? 0) with true. rewrite (proj2 (Z.eqb_neq (zlen (f :: fs)) 0)) by (unfold zlen; simpl; lia).
  cbn [negb orb]. rewrite <- Ef in *.
  destruct (r_ids r && negb (report_bits (r_fields r) 0 =? 0)) eqn:Eids.
  { rewrite andb_true_iff, negb_true_iff, Z.eqb_neq in Eids.
    by rewrite decide_True by (right; by right). }
  rewrite decide_False.
  2:{ intros [?|[E|[E1 E2]]]; [done|by rewrite Ef in E|].
      rewrite E1 in Eids. cbn in Eids. apply negb_false_iff, Z.eqb_eq in Eids. done. }
  pose proof (publish_spec 256 0 (bits_by_id s) (Build_ai_hid_input_contract false (r_ids r)
    (replicate 256 0)) r ltac:(lia) ltac:(lia) eq_refl eq_refl Hbits) as Hpub.
  specialize (Hpub ltac:(intros; apply get_replicate; lia)).
  destruct (publish_loop _ _ _ _) as [rc|c].
  - destruct Hpub as (-> & j & Hj & Hlt). rewrite decide_True; [done|].
    apply Exists_exists. exists j. split; [|done]. apply elem_of_seqZ. lia.
  - destruct Hpub as (Hmax & _ & Hu & Hlc & Hv). rewrite decide_False.
    2:{ intros (j & Hj & Hlt)%Exists_exists. apply elem_of_seqZ in Hj.
        specialize (Hmax j ltac:(lia)). lia. }
    cbn [fst snd]. do 3 f_equal. unfold contract_of. destruct c as [vc uc bc]. h_simpl.
    rewrite Hu. f_equal. apply arr_ext.
    { rewrite Hlc. unfold zlen. by rewrite length_fmap, length_seqZ. }
    rewrite Hlc. intros j Hj. rewrite Hv, decide_False by lia.
    unfold arr_get. rewrite list_lookup_total_alt, list_lookup_fmap, lookup_seqZ_lt by lia.
    cbn. f_equal. lia.
Qed.

(** C23: the parser computes what the descriptor means.  For every descriptor the loop
    ends within as many rounds as there are bytes, and the status and the published
    contract are those of [parse_spec]: the first error in item order, or the byte
    count of every report summed from its input fields. *)
Theorem hid_parse_agrees d o :
  is_bytes d -> 0 < zlen d < 2 ^ 64 ->
  ai_hid_input_contract_parse (Some d) (zlen d) (Some o) =
    Some ((parse_spec d).1, Some (parse_spec d).2).
Proof. apply parse_follows_spec. Qed.

(** A mouse with two reports: id 1 has 3 one-bit and one 5-bit field and two 8-bit axes
    inside a push/pop, id 2 one 12-bit field. *)
Definition demo_descriptor : list Z :=
  [0x05; 0x01; 0x85; 0x01; 0x75; 0x01; 0x95; 0x03; 0x81; 0x02; 0x75; 0x05; 0x95; 0x01;
   0x81; 0x03; 0xa4; 0x75; 0x08; 0x95; 0x02; 0x81; 0x06; 0xb4; 0x85; 0x02; 0x75; 0x0c;
   0x81; 0x02].

Lemma demo_descriptor_bytes : is_bytes demo_descriptor.
Proof. by apply (bool_decide_unpack _); vm_compute. Qed.

Lemma demo_descriptor_length : 0 < zlen demo_descriptor < 2 ^ 64.
Proof. done. Qed.

Lemma hid_parse_agrees_witness :
  ai_hid_input_contract_parse (Some demo_descriptor) (zlen demo_descriptor)
      (Some contract_zero) =
    Some ((parse_spec demo_descriptor).1, Some (parse_spec demo_descriptor).2) /\
  (exists c, ai_hid_input_contract_parse (Some demo_descriptor) (zlen demo_descriptor)
      (Some contract_zero) =
    Some (AI_OK, Some c) /\ prefix_list (bytes_by_id c) 4 = [0; 4; 3; 0]).
Proof.
  split.
  - exact (hid_parse_agrees demo_descriptor contract_zero demo_descriptor_bytes demo_descriptor_length).
  - eexists. split; vm_compute; reflexivity.
Defined.

Lemma reading_bits d r :
  is_bytes d -> 0 < zlen d < 2 ^ 64 -> (lex d).2 = AI_OK ->
  read_items (Build_reading globals_zero [] false []) (lex d).1 = inr r ->
  forall id, 0 <= id < 256 -> 0 <= report_bits (r_fields r) id <= MAX_BITS.
Proof.
  intros Hb Hl Hlex Hr id Hid.
  pose proof (parse_loop_reads (Z.to_nat (zlen d)) d locals_zero _ Hb ltac:(lia) holds_zero
    ltac:(cbn; lia) ltac:(cbn; lia)) as H.
  change (advance d (offset locals_zero)) with d in H. rewrite Hr, decide_True in H by done.
  destruct H as (s & _ & Hs). by apply Hs.
Qed.

Lemma read_items_error r items rc :
  read_items r items = inl rc -> rc = AI_ERR_PROTOCOL \/ rc = AI_ERR_LENGTH.
Proof.
  revert r. induction items as [|[ty tag v] items IH]; intros r; cbn; [done|].
  destruct (read_item r _) as [rc'|r'] eqn:E; [|apply IH]. intros [= ->].
  unfold read_item in E. cbn in E. repeat case_match; simplify_eq; auto.
Qed.

Lemma parse_spec_ok d :
  (parse_spec d).1 = AI_OK ->
  exists r, (lex d).2 = AI_OK /\
    read_items (Build_reading globals_zero [] false []) (lex d).1 = inr r /\
    (parse_spec d).2 = contract_of r /\ forall id, 0 <= id < 256 -> report_bytes r id <= 65535.
Proof.
  unfold parse_spec. destruct (lex d) as [items lexed]. cbn [fst snd].
  destruct (read_items _ items) as [rc|r] eqn:E.
  { cbn. intros ->. apply read_items_error in E. by destruct E. }
  case_decide as Hlex; [done|]. case_decide; [done|]. case_decide as Hex; [done|]. intros _.
  exists r. split_and!; try done.
  intros id Hid. apply Z.nlt_ge. intros Hlt. apply Hex, Exists_exists. exists id.
  split; [apply elem_of_seqZ; lia|done].
Qed.

Lemma contract_of_get r id : 0 <= id < 256 -> (bytes_by_id (contract_of r)) .[ id ] = report_bytes r id.
Proof.
  intros Hid. unfold contract_of, arr_get. cbn [bytes_by_id].
  rewrite list_lookup_total_alt, list_lookup_fmap, lookup_seqZ_lt by lia. cbn. f_equal. lia.
Qed.

(** with an accepted descriptor a report is accepted exactly when it is the right
    size: its id (its first byte when ids are used, 0 otherwise) has input fields, and
    the bytes after the id are the fewest that hold them. *)
Theorem hid_reports_sized d o c :
  is_bytes d -> 0 < zlen d < 2 ^ 64 ->
  ai_hid_input_contract_parse (Some d) (zlen d) (Some o) = Some (AI_OK, Some c) ->
  exists r, read_items (Build_reading globals_zero [] false []) (lex d).1 = inr r /\
    forall b rid, is_bytes b -> b <> [] ->
      let id := if r_ids r then b .[ 0 ] else 0 in
      let bits := report_bits (r_fields r) id in
      let room := 8 * (zlen b - (if r_ids r then 1 else 0)) in
      (ai_hid_input_report_valid (Some c) (Some b) (zlen b) rid).1 =
        bool_decide (bits <> 0 /\ bits <= room < bits + 8).
Proof.
  intros Hb Hl Hparse. rewrite parse_follows_spec in Hparse by done.
  injection Hparse as Hrc Hc. destruct (parse_spec_ok d Hrc) as (r & Hlex & Hr & Hspec & _).
  assert (c = contract_of r) as -> by congruence. exists r. split; [done|]. intros b rid Hbb Hne id bits room.
  assert (0 <= id < 256) as Hid.
  { subst id. destruct (r_ids r); [|lia]. apply (arr_get_Forall is_u8); [done|].
    destruct b; [done|unfold zlen; simpl; lia]. }
  pose proof (reading_bits d r Hb Hl Hlex Hr id Hid) as Hbits. fold bits in Hbits.
  unfold ai_hid_input_report_valid.
  change (valid (contract_of r)) with true. change (uses_report_ids (contract_of r)) with (r_ids r).
  cbn [negb orb].
  rewrite (proj2 (Z.eqb_neq (zlen b) 0)) by (destruct b; [done|unfold zlen; simpl; lia]).
  fold id.
  rewrite contract_of_get by done. unfold report_bytes. fold bits.
  assert (bits = 8 * (bits / 8) + bits mod 8 /\ 0 <= bits mod 8 < 8) as [Hdiv Hmod].
  { split; [apply Z.div_mod; lia|apply Z.mod_pos_bound; lia]. }
  destruct (decide (bits = 0)) as [E|E].
  { rewrite bool_decide_false by tauto. done. }
  assert (0 < (bits + 7) / 8 /\ 8 * ((bits + 7) / 8) - 8 < bits <= 8 * ((bits + 7) / 8)) as [Hpos Hceil].
  { Z.to_euclidean_division_equations. lia. }
  set (n := (bits + 7) / 8) in *. clearbody n. subst room.
  rewrite (proj2 (Z.eqb_neq (n + _) 0)) by (destruct (r_ids r); lia). cbn [orb].
  destruct (Z.eqb_spec (n + (if r_ids r then 1 else 0)) (zlen b)) as [En|En]; cbn [negb fst].
  - rewrite bool_decide_true; [done|]. destruct (r_ids r); lia.
  - rewrite bool_decide_false; [done|]. destruct (r_ids r); lia.
Qed.

Lemma hid_reports_sized_witness :
  exists c, ai_hid_input_contract_parse (Some demo_descriptor) (zlen demo_descriptor)
      (Some contract_zero) =
      Some (AI_OK, Some c) /\
    (ai_hid_input_report_valid (Some c) (Some [1; 0; 5; 9]) 4 None).1 = true /\
    (ai_hid_input_report_valid (Some c) (Some [1; 0; 5]) 3 None).1 = false.
Proof.
  assert (exists c, ai_hid_input_contract_parse (Some demo_descriptor) (zlen demo_descriptor)
      (Some contract_zero) =
    Some (AI_OK, Some c)) as [c Hc] by (eexists; vm_compute; reflexivity).
  destruct (hid_reports_sized demo_descriptor contract_zero c demo_descriptor_bytes demo_descriptor_length Hc)
    as (r & Hr & H).
  assert (r = Build_reading (Build_ai_hid_global_state 12 1 2) [] true
    [(2, 12); (1, 16); (1, 5); (1, 3)]) as ->.
  { apply (inr_inj (A := ai_status)). rewrite <- Hr. vm_compute. reflexivity. }
  exists c. split; [exact Hc|]. split.
  - change 4 with (zlen [1; 0; 5; 9]). rewrite H; [vm_compute; reflexivity| |clear; done].
    clear. by apply (bool_decide_unpack _); vm_compute.
  - change 3 with (zlen [1; 0; 5]). rewrite H; [vm_compute; reflexivity| |clear; done].
    clear. by apply (bool_decide_unpack _); vm_compute.
Defined.
End Contract.
