(* ===== verification/PrecisionTouchpad.v ===== *)
(** * The precision-touchpad HID frontend
    (apple-input/protocol/src/apple_precision_touchpad.c)

    [Ptp] builds the input, neutral and feature reports Windows reads and handles the
    feature writes.  The theorems: the coordinate scaling is exact rounding, monotone and
    onto the ends of its range; an input report, read byte by byte, holds the frame; a
    mode change asked for while fingers are down is deferred, announced by a neutral
    report, and in force as soon as they lift. *)

From S2P Require Import Prelude Arrays Bytes SpiHid Trackpad.

Module Ptp.
Import Hid Axis.

Definition AI_PTP_MAX_CONTACTS : Z := 5.
Definition AI_PTP_INPUT_REPORT_SIZE : Z := 35.
Definition AI_PTP_CAPABILITIES_REPORT_SIZE : Z := 2.
Definition AI_PTP_CERTIFICATION_REPORT_SIZE : Z := 257.
Definition AI_PTP_INPUT_MODE_REPORT_SIZE : Z := 2.
Definition AI_PTP_SELECTIVE_REPORT_SIZE : Z := 2.

Definition AI_PTP_REPORT_INPUT : Z := 1.
Definition AI_PTP_REPORT_CAPABILITIES : Z := 2.
Definition AI_PTP_REPORT_CERTIFICATION : Z := 3.
Definition AI_PTP_REPORT_INPUT_MODE : Z := 4.
Definition AI_PTP_REPORT_SELECTIVE : Z := 5.

Record ai_trackpad_output_contact := {
  tip : bool;
  out_id : Z;
  out_x : Z;
  out_y : Z;
}.
#[export] Instance ai_trackpad_output_contact_inhabited : Inhabited ai_trackpad_output_contact :=
  populate (Build_ai_trackpad_output_contact false 0 0 0).

Record ai_trackpad_output_frame := {
  out_button : bool;
  out_count : Z;
  active_count : Z;
  suppressed_count : Z;
  out_contacts : list ai_trackpad_output_contact;
}.
#[export] Instance output_frame_eta : Eta ai_trackpad_output_frame :=
  fun f => Build_ai_trackpad_output_frame (out_button f) (out_count f) (active_count f)
    (suppressed_count f) (out_contacts f).

Record ai_ptp_feature_state := {
  input_mode : Z;
  pending_input_mode : Z;
  mode_change_pending : bool;
  neutral_pending : bool;
  surface_enabled : bool;
  button_enabled : bool;
}.
#[export] Instance feature_eta : Eta ai_ptp_feature_state :=
  fun s => Build_ai_ptp_feature_state (input_mode s) (pending_input_mode s)
    (mode_change_pending s) (neutral_pending s) (surface_enabled s) (button_enabled s).

Definition ptp_default_certification : list Z :=
  [0xfc; 0x28; 0xfe; 0x84; 0x40; 0xcb; 0x9a; 0x87; 0x0d; 0xbe; 0x57; 0x3c; 0xb6; 0x70; 0x09; 0x88;
   0x07; 0x97; 0x2d; 0x2b; 0xe3; 0x38; 0x34; 0xb6; 0x6c; 0xed; 0xb0; 0xf7; 0xe5; 0x9c; 0xf6; 0xc2;
   0x2e; 0x84; 0x1b; 0xe8; 0xb4; 0x51; 0x78; 0x43; 0x1f; 0x28; 0x4b; 0x7c; 0x2d; 0x53; 0xaf; 0xfc;
   0x47; 0x70; 0x1b; 0x59; 0x6f; 0x74; 0x43; 0xc4; 0xf3; 0x47; 0x18; 0x53; 0x1a; 0xa2; 0xa1; 0x71;
   0xc7; 0x95; 0x0e; 0x31; 0x55; 0x21; 0xd3; 0xb5; 0x1e; 0xe9; 0x0c; 0xba; 0xec; 0xb8; 0x89; 0x19;
   0x3e; 0xb3; 0xaf; 0x75; 0x81; 0x9d; 0x53; 0xb9; 0x41; 0x57; 0xf4; 0x6d; 0x39; 0x25; 0x29; 0x7c;
   0x87; 0xd9; 0xb4; 0x98; 0x45; 0x7d; 0xa7; 0x26; 0x9c; 0x65; 0x3b; 0x85; 0x68; 0x89; 0xd7; 0x3b;
   0xbd; 0xff; 0x14; 0x67; 0xf2; 0x2b; 0xf0; 0x2a; 0x41; 0x54; 0xf0; 0xfd; 0x2c; 0x66; 0x7c; 0xf8;
   0xc0; 0x8f; 0x33; 0x13; 0x03; 0xf1; 0xd3; 0xc1; 0x0b; 0x89; 0xd9; 0x1b; 0x62; 0xcd; 0x51; 0xb7;
   0x80; 0xb8; 0xaf; 0x3a; 0x10; 0xc1; 0x8a; 0x5b; 0xe8; 0x8a; 0x56; 0xf0; 0x8c; 0xaa; 0xfa; 0x35;
   0xe9; 0x42; 0xc4; 0xd8; 0x55; 0xc3; 0x38; 0xcc; 0x2b; 0x53; 0x5c; 0x69; 0x52; 0xd5; 0xc8; 0x73;
   0x02; 0x38; 0x7c; 0x73; 0xb6; 0x41; 0xe7; 0xff; 0x05; 0xd8; 0x2b; 0x79; 0x9a; 0xe2; 0x34; 0x60;
   0x8f; 0xa3; 0x32; 0x1f; 0x09; 0x78; 0x62; 0xbc; 0x80; 0xe3; 0x0f; 0xbd; 0x65; 0x20; 0x08; 0x13;
   0xc1; 0xe2; 0xee; 0x53; 0x2d; 0x86; 0x7e; 0xa7; 0x5a; 0xc5; 0xd3; 0x7d; 0x98; 0xbe; 0x31; 0x48;
   0x1f; 0xfb; 0xda; 0xaf; 0xa2; 0xa8; 0x6a; 0x89; 0xd6; 0xbf; 0xf2; 0xd3; 0x32; 0x2a; 0x9a; 0xe4;
   0xcf; 0x17; 0xb7; 0xb8; 0xf4; 0xe1; 0x33; 0x08; 0x24; 0x8b; 0xc4; 0x43; 0xa5; 0xe5; 0x24; 0xc2].

Definition put_le16 (bytes : list Z) (at_ value : Z) : list Z :=
  bytes .[ at_ <- u8 value ] .[ at_ + 1 <- u8 (Z.shiftr value 8) ].

Definition axis_contract_valid (axes : ptr ai_trackpad_axis_contract) : bool :=
  deref a := axes else false in
  contract_valid a && axis_valid (axis_x a) && axis_valid (axis_y a) &&
  (logical_min (axis_x a) <? logical_max (axis_x a)) &&
  (logical_min (axis_y a) <? logical_max (axis_y a)) &&
  (physical_min (axis_x a) <? physical_max (axis_x a)) &&
  (physical_min (axis_y a) <? physical_max (axis_y a)) &&
  (unit_ (axis_x a) =? unit_ (axis_y a)) &&
  (unit_exponent (axis_x a) =? unit_exponent (axis_y a)).

Definition normalize_axis (value minimum maximum : Z) : Z :=
  let clamped := value in
  let clamped := if clamped <? minimum then minimum else clamped in
  let clamped := if maximum <? clamped then maximum else clamped in
  let delta := u64 (clamped - minimum) in
  let range := u64 (maximum - minimum) in
  u16 (u64 (u64 (delta * 4095) + range / 2) / range).

Definition feature_zero : ai_ptp_feature_state :=
  Build_ai_ptp_feature_state 0 0 false false false false.

Definition ai_ptp_feature_init (state : ptr ai_ptp_feature_state) : ptr ai_ptp_feature_state :=
  deref _s := state else NULL in
  Some (feature_zero <| surface_enabled := true |> <| button_enabled := true |>).

(** Reports are written through [report] and their size through [length]. *)
Definition ai_ptp_encode_neutral (scan_time_100us : Z) (report : ptr (list Z)) (capacity : Z)
    (length : ptr Z) : ai_status * ptr (list Z) * ptr Z :=
  deref r := report else (AI_ERR_ARGUMENT, report, length) in
  deref _l := length else (AI_ERR_ARGUMENT, report, length) in
  let length := Some 0 in
  if capacity <? AI_PTP_INPUT_REPORT_SIZE then (AI_ERR_LENGTH, report, length)
  else
    let r := memset0 r AI_PTP_INPUT_REPORT_SIZE in
    let r := r .[ 0 <- AI_PTP_REPORT_INPUT ] in
    let r := put_le16 r 31 scan_time_100us in
    (AI_OK, Some r, Some AI_PTP_INPUT_REPORT_SIZE).

(** The contact loop, [n] contacts from [index]; [inl] is the early return. *)
Fixpoint encode_contacts (axes : ai_trackpad_axis_contract) (frame : ai_trackpad_output_frame)
    (n : nat) (index emitted : Z) (r : list Z) : list Z + list Z * Z :=
  match n with
  | O => inr (r, emitted)
  | S n =>
      let source := (out_contacts frame) .[ index ] in
      let at_ := 1 + emitted * 6 in
      if AI_PTP_MAX_CONTACTS <=? out_id source then inl r
      else
        let x := normalize_axis (out_x source) (logical_min (axis_x axes)) (logical_max (axis_x axes)) in
        let y := normalize_axis (out_y source) (logical_min (axis_y axes)) (logical_max (axis_y axes)) in
        let r := r .[ at_ <- u8 (Z.lor 1 (if tip source then 2 else 0)) ] in
        let r := r .[ at_ + 1 <- out_id source ] in
        let r := put_le16 r (at_ + 2) x in
        let r := put_le16 r (at_ + 4) (u16 (4095 - y)) in
        encode_contacts axes frame n (index + 1) (u8 (emitted + 1)) r
  end.

Definition ai_ptp_encode_input (axes : ptr ai_trackpad_axis_contract)
    (frame : ptr ai_trackpad_output_frame) (scan_time_100us : Z)
    (features : ptr ai_ptp_feature_state) (report : ptr (list Z)) (capacity : Z)
    (length : ptr Z) : ai_status * ptr (list Z) * ptr Z :=
  let argument := (AI_ERR_ARGUMENT, report, length) in
  deref a := axes else argument in
  deref f := frame else argument in
  deref s := features else argument in
  deref r := report else argument in
  deref _l := length else argument in
  let length := Some 0 in
  if AI_PTP_MAX_CONTACTS <? out_count f then (AI_ERR_LENGTH, report, length)
  else if negb (axis_contract_valid axes) then (AI_ERR_PROTOCOL, report, length)
  else if negb (input_mode s =? 3) || mode_change_pending s then (AI_OK, report, length)
  else if capacity <? AI_PTP_INPUT_REPORT_SIZE then (AI_ERR_LENGTH, report, length)
  else
    let r := memset0 r AI_PTP_INPUT_REPORT_SIZE in
    let r := r .[ 0 <- AI_PTP_REPORT_INPUT ] in
    match (if surface_enabled s then encode_contacts a f (Z.to_nat (out_count f)) 0 0 r
           else inr (r, 0)) with
    | inl r => (AI_ERR_PROTOCOL, Some r, length)
    | inr (r, emitted) =>
        let r := put_le16 r 31 scan_time_100us in
        let r := r .[ 33 <- emitted ] in
        let r := r .[ 34 <- if button_enabled s && out_button f then 1 else 0 ] in
        (AI_OK, Some r, Some AI_PTP_INPUT_REPORT_SIZE)
    end.

Definition required_size (report_id : Z) : option Z :=
  if report_id =? AI_PTP_REPORT_CAPABILITIES then Some AI_PTP_CAPABILITIES_REPORT_SIZE
  else if report_id =? AI_PTP_REPORT_CERTIFICATION then Some AI_PTP_CERTIFICATION_REPORT_SIZE
  else if report_id =? AI_PTP_REPORT_INPUT_MODE then Some AI_PTP_INPUT_MODE_REPORT_SIZE
  else if report_id =? AI_PTP_REPORT_SELECTIVE then Some AI_PTP_SELECTIVE_REPORT_SIZE
  else None.

Definition ai_ptp_get_feature (state : ptr ai_ptp_feature_state) (report_id : Z)
    (buffer : ptr (list Z)) (capacity : Z) (length : ptr Z)
    : ai_status * ptr (list Z) * ptr Z :=
  let argument := (AI_ERR_ARGUMENT, buffer, length) in
  deref s := state else argument in
  deref b := buffer else argument in
  deref _l := length else argument in
  let length := Some 0 in
  match required_size report_id with
  | None => (AI_ERR_PROTOCOL, buffer, length)
  | Some required =>
      if capacity <? required then (AI_ERR_LENGTH, buffer, length)
      else
        let b := memset0 b required in
        let b := b .[ 0 <- report_id ] in
        let b :=
          if report_id =? AI_PTP_REPORT_CAPABILITIES then b .[ 1 <- AI_PTP_MAX_CONTACTS ]
          else if report_id =? AI_PTP_REPORT_CERTIFICATION
          then memcpy b 1 ptp_default_certification 256
          else if report_id =? AI_PTP_REPORT_INPUT_MODE
          then b .[ 1 <- if mode_change_pending s then pending_input_mode s else input_mode s ]
          else b .[ 1 <- u8 (Z.lor (if surface_enabled s then 1 else 0)
                               (if button_enabled s then 2 else 0)) ] in
        (AI_OK, Some b, Some required)
  end.

Definition ai_ptp_set_feature (state : ptr ai_ptp_feature_state) (report_id : Z)
    (buffer : ptr (list Z)) (length : Z) (contacts_active : bool) (neutral_required : ptr bool)
    : ai_status * ptr ai_ptp_feature_state * ptr bool :=
  let argument := (AI_ERR_ARGUMENT, state, neutral_required) in
  deref s := state else argument in
  deref b := buffer else argument in
  deref _n := neutral_required else argument in
  let neutral := Some false in
  if negb (length =? 2) then (AI_ERR_LENGTH, state, neutral)
  else if negb (b .[ 0 ] =? report_id) then (AI_ERR_PROTOCOL, state, neutral)
  else if report_id =? AI_PTP_REPORT_INPUT_MODE then
    let requested := if b .[ 1 ] =? 3 then 3 else 0 in
    if mode_change_pending s && (pending_input_mode s =? requested) then (AI_OK, state, neutral)
    else if negb (mode_change_pending s) && (input_mode s =? requested)
    then (AI_OK, state, neutral)
    else if contacts_active then
      (AI_OK, Some (s <| pending_input_mode := requested |> <| mode_change_pending := true |>
                      <| neutral_pending := true |>), Some true)
    else
      (AI_OK, Some (s <| input_mode := requested |> <| pending_input_mode := requested |>
                      <| mode_change_pending := false |> <| neutral_pending := false |>), neutral)
  else if report_id =? AI_PTP_REPORT_SELECTIVE then
    if negb (Z.land b .[ 1 ] 0xfc =? 0) then (AI_ERR_PROTOCOL, state, neutral)
    else
      (AI_OK, Some (s <| surface_enabled := negb (Z.land b .[ 1 ] 1 =? 0) |>
                      <| button_enabled := negb (Z.land b .[ 1 ] 2 =? 0) |>), neutral)
  else (AI_ERR_PROTOCOL, state, neutral).

Definition ai_ptp_feature_take_neutral (state : ptr ai_ptp_feature_state)
    : bool * ptr ai_ptp_feature_state :=
  deref s := state else (false, state) in
  let pending := neutral_pending s in
  (pending, Some (s <| neutral_pending := false |>)).

Definition ai_ptp_feature_contacts_update (state : ptr ai_ptp_feature_state)
    (contacts_active : bool) : bool * ptr ai_ptp_feature_state :=
  deref s := state else (false, state) in
  if mode_change_pending s then
    if contacts_active then (false, state)
    else
      let s := s <| input_mode := pending_input_mode s |> <| mode_change_pending := false |>
                 <| neutral_pending := false |> in
      (input_mode s =? 3, Some s)
  else (input_mode s =? 3, state).

(** ** Scaling *)

Definition is_s32 (v : Z) : Prop := - 2 ^ 31 <= v < 2 ^ 31.
Definition clamp (value minimum maximum : Z) : Z := Z.max minimum (Z.min value maximum).

(** The code without its machine arithmetic: nothing wraps. *)
Lemma normalize_axis_value value minimum maximum :
  is_s32 minimum -> is_s32 maximum -> minimum < maximum ->
  let range := maximum - minimum in
  let delta := clamp value minimum maximum - minimum in
  normalize_axis value minimum maximum = (delta * 4095 + range / 2) / range /\
  0 <= normalize_axis value minimum maximum <= 4095.
Proof.
  intros Hmin Hmax Hlt range delta. unfold is_s32 in *. change (2 ^ 31) with 2147483648 in *.
  unfold normalize_axis.
  assert ((if maximum <? (if value <? minimum then minimum else value) then maximum
           else if value <? minimum then minimum else value) - minimum = delta) as ->.
  { subst delta. unfold clamp.
    destruct (Z.ltb_spec value minimum); [destruct (Z.ltb_spec maximum minimum)|
      destruct (Z.ltb_spec maximum value)]; lia. }
  assert (0 <= delta <= range) as Hd by (subst delta range; unfold clamp; lia).
  assert (0 < range < 2 ^ 32) as Hr by (subst range; lia). fold range. clearbody delta range.
  rewrite (wrap_id 64 delta), (wrap_id 64 range), (wrap_id 64 (delta * 4095)) by word_lia.
  rewrite (wrap_id 64 (_ + _)) by word_lia.
  assert (0 <= (delta * 4095 + range / 2) / range <= 4095) as Hq.
  { pose proof (Z.div_mod range 2 ltac:(lia)). pose proof (Z.mod_pos_bound range 2 ltac:(lia)).
    split; [apply Z.div_pos; lia|]. apply Z.lt_succ_r, Z.div_lt_upper_bound; nia. }
  rewrite (wrap_id 16) by word_lia. done.
Qed.

(** coordinates are scaled exactly.  For every non-empty 32-bit range the result is
    in 0..4095, is the clamped coordinate's share of the range rounded to the nearest,
    takes the ends of the range to 0 and 4095, and never reverses two coordinates. *)
Theorem normalize_axis_exact value value' minimum maximum :
  is_s32 minimum -> is_s32 maximum -> minimum < maximum ->
  let n := normalize_axis value minimum maximum in
  let range := maximum - minimum in
  0 <= n <= 4095 /\
  2 * Z.abs (n * range - 4095 * (clamp value minimum maximum - minimum)) <= range /\
  (value <= minimum -> n = 0) /\ (maximum <= value -> n = 4095) /\
  (value <= value' -> n <= normalize_axis value' minimum maximum).
Proof.
  intros Hmin Hmax Hlt n range.
  destruct (normalize_axis_value value minimum maximum Hmin Hmax Hlt) as [En Hn].
  destruct (normalize_axis_value value' minimum maximum Hmin Hmax Hlt) as [En' _].
  fold n in En, Hn. fold range in En, En'. assert (0 < range) as Hr by (subst range; lia).
  pose proof (Z.div_mod range 2 ltac:(lia)) as Hh. pose proof (Z.mod_pos_bound range 2 ltac:(lia)).
  split; [done|]. split; [|split; [|split]].
  - rewrite En. set (m := (clamp value minimum maximum - minimum) * 4095 + range / 2).
    pose proof (Z.div_mod m range ltac:(lia)). pose proof (Z.mod_pos_bound m range Hr).
    assert (clamp value minimum maximum - minimum = (m - range / 2) / 4095) as E.
    { subst m. by rewrite Z.add_simpl_r, Z.div_mul. }
    nia.
  - intros Hle. rewrite En. replace (clamp value minimum maximum - minimum) with 0 by (unfold clamp; lia).
    apply Z.div_small. lia.
  - intros Hle. rewrite En. replace (clamp value minimum maximum - minimum) with range by (unfold clamp, range; lia).
    symmetry. apply (Z.div_unique _ _ _ (range / 2)); lia.
  - intros Hle. rewrite En, En'. apply Z.div_le_mono; [done|].
    assert (clamp value minimum maximum <= clamp value' minimum maximum) by (unfold clamp; lia). lia.
Qed.

Lemma normalize_axis_exact_witness :
  normalize_axis (-6046) (-6046) 6536 = 0 /\ normalize_axis 7000 (-6046) 6536 = 4095 /\
  normalize_axis 245 (-6046) 6536 <= normalize_axis 246 (-6046) 6536.
Proof.
  destruct (normalize_axis_exact (-6046) 0 (-6046) 6536 ltac:(done) ltac:(done) ltac:(done))
    as (_ & _ & H0 & _).
  destruct (normalize_axis_exact 7000 0 (-6046) 6536 ltac:(done) ltac:(done) ltac:(done))
    as (_ & _ & _ & H1 & _).
  destruct (normalize_axis_exact 245 246 (-6046) 6536 ltac:(done) ltac:(done) ltac:(done))
    as (_ & _ & _ & _ & H2).
  split_and!; [by apply H0|by apply H1|by apply H2].
Defined.

(** ** The input report *)

(** The six bytes of a contact: confidence and tip, id, x, and y counted from the top. *)
Definition contact_bytes (a : ai_trackpad_axis_contract) (c : ai_trackpad_output_contact) : list Z :=
  let x := normalize_axis (out_x c) (logical_min (axis_x a)) (logical_max (axis_x a)) in
  let y := 4095 - normalize_axis (out_y c) (logical_min (axis_y a)) (logical_max (axis_y a)) in
  [if tip c then 3 else 1; out_id c; x mod 256; x / 256; y mod 256; y / 256].

Definition reported_contacts (f : ai_trackpad_output_frame) (s : ai_ptp_feature_state)
    : list ai_trackpad_output_contact :=
  if surface_enabled s then prefix_list (out_contacts f) (out_count f) else [].

(** The 35 bytes Windows reads. *)
Definition input_report (a : ai_trackpad_axis_contract) (f : ai_trackpad_output_frame)
    (s : ai_ptp_feature_state) (scan_time : Z) : list Z :=
  let cs := reported_contacts f s in
  [AI_PTP_REPORT_INPUT] ++ concat (contact_bytes a <$> cs) ++ replicate (30 - 6 * length cs) 0 ++
  [scan_time mod 256; scan_time / 256; zlen cs; if button_enabled s && out_button f then 1 else 0].

Record axes_ok (a : ai_trackpad_axis_contract) : Prop := {
  ax_valid : axis_contract_valid (Some a) = true;
  ax_range : is_s32 (logical_min (axis_x a)) /\ is_s32 (logical_max (axis_x a)) /\
             is_s32 (logical_min (axis_y a)) /\ is_s32 (logical_max (axis_y a));
}.

Lemma axes_ok_range a : axes_ok a ->
  logical_min (axis_x a) < logical_max (axis_x a) /\ logical_min (axis_y a) < logical_max (axis_y a).
Proof.
  intros [Hv _]. unfold axis_contract_valid in Hv. rewrite !andb_true_iff, !Z.ltb_lt in Hv. tauto.
Qed.

Lemma set_app_r {A} (pre l : list A) k v i :
  0 <= k -> i = zlen pre + k -> (pre ++ l) .[ i <- v ] = pre ++ l .[ k <- v ].
Proof.
  intros Hk ->. unfold arr_set, zlen.
  rewrite insert_app_r_alt by lia. do 2 f_equal. lia.
Qed.

Lemma zlen_replicate {A} n (x : A) : 0 <= n -> zlen (replicate (Z.to_nat n) x) = n.
Proof. intros. unfold zlen. rewrite length_replicate. lia. Qed.

Lemma memset0_prefix (r : list Z) n :
  0 <= n <= zlen r -> memset0 r n = replicate (Z.to_nat n) 0 ++ advance r n.
Proof.
  intros Hn. destruct (fill_loop_spec 0 n (fun _ => 0) r) as [Hl Hs]; [lia..|].
  unfold memset0. apply arr_ext.
  { rewrite Hl, zlen_app, zlen_advance, zlen_replicate by lia. lia. }
  rewrite Hl. intros i Hi. rewrite Hs, get_app, zlen_replicate by lia.
  repeat case_decide; try lia.
  - by rewrite get_replicate by lia.
  - rewrite get_advance by lia. f_equal. lia.
Qed.

Lemma u8_lo v : u8 v = v mod 256.
Proof. done. Qed.
Lemma u8_hi v : 0 <= v < 2 ^ 16 -> u8 (Z.shiftr v 8) = v / 256.
Proof. intros. rewrite Z.shiftr_div_pow2 by done. word_lia. Qed.

(** One contact is appended to the report. *)
Lemma encode_contact_step a c pre post i :
  axes_ok a -> i = zlen pre ->
  let x := normalize_axis (out_x c) (logical_min (axis_x a)) (logical_max (axis_x a)) in
  let y := normalize_axis (out_y c) (logical_min (axis_y a)) (logical_max (axis_y a)) in
  let r := (pre ++ replicate 6 0 ++ post) .[ i <- u8 (Z.lor 1 (if tip c then 2 else 0)) ] in
  let r := r .[ i + 1 <- out_id c ] in
  let r := put_le16 r (i + 2) x in
  put_le16 r (i + 4) (u16 (4095 - y)) = (pre ++ contact_bytes a c) ++ post.
Proof.
  intros Ha Hi x y. destruct (axes_ok_range a Ha) as [Hx Hy].
  destruct (ax_range a Ha) as (R1 & R2 & R3 & R4).
  destruct (normalize_axis_value (out_x c) _ _ R1 R2 Hx) as [_ Hnx]. fold x in Hnx.
  destruct (normalize_axis_value (out_y c) _ _ R3 R4 Hy) as [_ Hny]. fold y in Hny.
  unfold put_le16, contact_bytes. fold x y. rewrite (wrap_id 16 (4095 - y)) by word_lia.
  rewrite !u8_hi by lia. rewrite (u8_lo x), (u8_lo (4095 - y)).
  assert (u8 (Z.lor 1 (if tip c then 2 else 0)) = if tip c then 3 else 1) as -> by by destruct (tip c).
  rewrite (set_app_r pre _ 0), (set_app_r pre _ 1), (set_app_r pre _ 2), (set_app_r pre _ (2 + 1)),
    (set_app_r pre _ 4), (set_app_r pre _ (4 + 1)) by lia.
  rewrite <- app_assoc. reflexivity.
Qed.

Lemma zlen_contacts a cs : zlen (concat (contact_bytes a <$> cs)) = 6 * zlen cs.
Proof.
  induction cs as [|c cs IH]; [done|]. rewrite fmap_cons. cbn [concat]. rewrite zlen_app, IH.
  change (zlen (contact_bytes a c)) with 6. unfold zlen. simpl. lia.
Qed.

(** The loop appends the contacts it was given one after the other. *)
Lemma encode_contacts_spec a f n k post :
  axes_ok a -> 0 <= k -> k + Z.of_nat n <= 5 -> k + Z.of_nat n <= zlen (out_contacts f) ->
  Forall (fun c => 0 <= out_id c < AI_PTP_MAX_CONTACTS) (out_contacts f) ->
  let pre k := [AI_PTP_REPORT_INPUT] ++ concat (contact_bytes a <$> prefix_list (out_contacts f) k) in
  encode_contacts a f n k k (pre k ++ replicate (6 * n) 0 ++ post) =
    inr (pre (k + Z.of_nat n) ++ post, k + Z.of_nat n).
Proof.
  intros Ha. revert k. induction n as [|n IH]; intros k Hk H5 Hl Hid pre.
  { cbn [encode_contacts]. by rewrite Z.add_0_r. }
  cbn [encode_contacts]. set (c := (out_contacts f) .[ k ]).
  assert (0 <= out_id c < AI_PTP_MAX_CONTACTS) as Hc by (apply (arr_get_Forall _ _ _ Hid); lia).
  rewrite (proj2 (Z.leb_gt _ _)) by lia.
  replace (6 * S n)%nat with (6 + 6 * n)%nat by lia. rewrite replicate_add, <- app_assoc.
  assert (1 + k * 6 = zlen (pre k)) as Hpre.
  { subst pre. cbn beta. rewrite zlen_app, zlen_contacts, zlen_prefix by lia. change (zlen [AI_PTP_REPORT_INPUT]) with 1. lia. }
  rewrite (encode_contact_step a c (pre k) _ (1 + k * 6) Ha Hpre).
  assert (pre k ++ contact_bytes a c = pre (k + 1)) as ->.
  { subst pre. cbn beta. rewrite prefix_list_snoc by lia. rewrite fmap_app, concat_app.
    cbn [fmap list_fmap concat]. by rewrite app_nil_r, <- app_assoc. }
  rewrite (wrap_id 8 (k + 1)) by word_lia.
  rewrite IH by (done || lia). by replace (k + 1 + Z.of_nat n) with (k + Z.of_nat (S n)) by lia.
Qed.

(** an input report is the frame.  In touchpad mode, with room for 35 bytes and a
    valid axis contract, the report is byte for byte [input_report]: every contact's
    tip, id and scaled position in order, zeros in the unused places, the scan time,
    the number of contacts and the button; the rest of the buffer is kept. *)
Theorem input_report_exact a f scan s r capacity l :
  axes_ok a -> 0 <= out_count f <= AI_PTP_MAX_CONTACTS -> out_count f <= zlen (out_contacts f) ->
  Forall (fun c => 0 <= out_id c < AI_PTP_MAX_CONTACTS) (out_contacts f) ->
  input_mode s = 3 -> mode_change_pending s = false -> is_u16 scan ->
  AI_PTP_INPUT_REPORT_SIZE <= capacity -> AI_PTP_INPUT_REPORT_SIZE <= zlen r ->
  ai_ptp_encode_input (Some a) (Some f) scan (Some s) (Some r) capacity (Some l) =
    (AI_OK, Some (input_report a f s scan ++ advance r AI_PTP_INPUT_REPORT_SIZE),
     Some AI_PTP_INPUT_REPORT_SIZE).
Proof.
  intros Ha Hc Hl Hid Hm Hp Hscan Hcap Hr. unfold ai_ptp_encode_input.
  rewrite (proj2 (Z.ltb_ge _ (out_count f))), (ax_valid a Ha) by lia.
  rewrite Hm, Hp, (proj2 (Z.ltb_ge capacity _)) by lia. cbn [negb Z.eqb Pos.eqb orb].
  unfold AI_PTP_INPUT_REPORT_SIZE, AI_PTP_MAX_CONTACTS in *.
  rewrite memset0_prefix by lia. change (Z.to_nat 35) with 35%nat.
  set (n := if surface_enabled s then Z.to_nat (out_count f) else 0%nat).
  assert (n <= 5)%nat as Hn by (subst n; destruct (surface_enabled s); lia).
  assert (reported_contacts f s = prefix_list (out_contacts f) (Z.of_nat n)) as Hrep.
  { unfold reported_contacts. subst n. destruct (surface_enabled s); [by rewrite Z2Nat.id by lia|done]. }
  set (tail := replicate (30 - 6 * n) 0 ++ replicate 4 0 ++ advance r 35).
  assert ((replicate 35 0 ++ advance r 35) .[ 0 <- AI_PTP_REPORT_INPUT ] =
    ([AI_PTP_REPORT_INPUT] ++ concat (contact_bytes a <$> prefix_list (out_contacts f) 0)) ++
    replicate (6 * n) 0 ++ tail) as ->.
  { rewrite prefix_list_0. cbn [fmap list_fmap concat app]. subst tail.
    rewrite (app_assoc (replicate (6 * n) 0)), <- replicate_add.
    replace (6 * n + (30 - 6 * n))%nat with 30%nat by lia. reflexivity. }
  assert ((if surface_enabled s then encode_contacts a f (Z.to_nat (out_count f)) 0 0
             (([AI_PTP_REPORT_INPUT] ++ concat (contact_bytes a <$> prefix_list (out_contacts f) 0)) ++
              replicate (6 * n) 0 ++ tail)
           else inr (([AI_PTP_REPORT_INPUT] ++ concat (contact_bytes a <$> prefix_list (out_contacts f) 0)) ++
              replicate (6 * n) 0 ++ tail, 0)) =
    inr (([AI_PTP_REPORT_INPUT] ++ concat (contact_bytes a <$> reported_contacts f s)) ++ tail, Z.of_nat n)) as ->.
  { rewrite Hrep. subst n. destruct (surface_enabled s); [|done].
    rewrite (encode_contacts_spec a f _ 0) by (done || lia). by rewrite Z.add_0_l. }
  assert (length (reported_contacts f s) = n) as Hlen.
  { rewrite Hrep. pose proof (zlen_prefix (out_contacts f) (Z.of_nat n)) as H. unfold zlen in *.
    subst n. destruct (surface_enabled s); lia. }
  set (pre := [AI_PTP_REPORT_INPUT] ++ concat (contact_bytes a <$> reported_contacts f s)).
  assert (zlen (pre ++ replicate (30 - 6 * n) 0) = 31) as H31.
  { subst pre. rewrite !zlen_app, zlen_contacts. change (zlen [AI_PTP_REPORT_INPUT]) with 1.
    unfold zlen. rewrite Hlen, length_replicate. lia. }
  subst tail. rewrite app_assoc. unfold put_le16. rewrite u8_hi, u8_lo by exact Hscan.
  rewrite (set_app_r _ _ 0), (set_app_r _ _ 1), (set_app_r _ _ 2), (set_app_r _ _ 3) by lia.
  unfold input_report, zlen. rewrite Hlen. subst pre.
  do 3 f_equal. rewrite <- !app_assoc. reflexivity.
Qed.

Definition demo_axes : ai_trackpad_axis_contract :=
  default contract_zero
    (ai_trackpad_axis_contract_from_dimensions (Some demo_dimensions) (Some contract_zero)).2.

Lemma demo_axes_ok : axes_ok demo_axes.
Proof. by split; vm_compute. Qed.

Definition demo_frame : ai_trackpad_output_frame :=
  {| out_button := true; out_count := 2; active_count := 1; suppressed_count := 0;
     out_contacts := [Build_ai_trackpad_output_contact true 0 (-6046) 7549;
                      Build_ai_trackpad_output_contact false 3 245 (-181);
                      Build_ai_trackpad_output_contact false 0 0 0;
                      Build_ai_trackpad_output_contact false 0 0 0;
                      Build_ai_trackpad_output_contact false 0 0 0] |}.
Definition touchpad_mode : ai_ptp_feature_state :=
  Build_ai_ptp_feature_state 3 0 false false true true.

Lemma input_report_exact_witness :
  ai_ptp_encode_input (Some demo_axes) (Some demo_frame) 0x1234 (Some touchpad_mode)
    (Some (replicate 40 0xee)) 40 (Some 0) =
    (AI_OK, Some (input_report demo_axes demo_frame touchpad_mode 0x1234 ++ replicate 5 0xee), Some 35) /\
  input_report demo_axes demo_frame touchpad_mode 0x1234 =
    [1; 3; 0; 0; 0; 0; 0; 1; 3; 0; 8; 255; 15] ++ replicate 18 0 ++ [0x34; 0x12; 2; 1].
Proof.
  split; [|by vm_compute].
  apply (input_report_exact demo_axes demo_frame 0x1234 touchpad_mode (replicate 40 0xee) 40 0
    demo_axes_ok); try done.
  by apply (bool_decide_unpack _); vm_compute.
Defined.

(** ** Feature writes *)

(** What Windows reads back as the input mode. *)
Definition reported_mode (s : ai_ptp_feature_state) : ptr (list Z) :=
  (ai_ptp_get_feature (Some s) AI_PTP_REPORT_INPUT_MODE (Some [0; 0]) 2 (Some 0)).1.2.

(** The mode that was asked for last: the one in force, or the one a pending change is to
    put in force. *)
Definition wanted_mode (s : ai_ptp_feature_state) : Z :=
  if mode_change_pending s then pending_input_mode s else input_mode s.

(** C38: a change of input mode takes effect without breaking a gesture.  A well-formed write
    asks for the touchpad mode (3) or for the mouse mode (0).  If that mode is in force with no
    change pending, or a change to it is pending already, the write changes nothing and demands
    no report: a pending change stays pending even when the write comes with no finger down.
    Otherwise, with no finger down, the mode is in force at once and nothing is pending; with
    fingers down the old mode stays in force, the change is pending, a neutral report is
    demanded and is there to be taken.  In every case what is read back is the mode asked for,
    no touch report is produced while a change is pending, and after the next update without
    contacts the mode asked for is in force with no change pending. *)
Theorem mode_change_deferred s v contacts n0 :
  let requested := if v =? 3 then 3 else 0 in
  exists s' n,
    ai_ptp_set_feature (Some s) AI_PTP_REPORT_INPUT_MODE (Some [AI_PTP_REPORT_INPUT_MODE; v]) 2
      contacts (Some n0) = (AI_OK, Some s', Some n) /\
    (if wanted_mode s =? requested then s' = s /\ n = false
     else if contacts : bool
     then s' = s <| pending_input_mode := requested |> <| mode_change_pending := true |>
                 <| neutral_pending := true |> /\ n = true
     else s' = s <| input_mode := requested |> <| pending_input_mode := requested |>
                 <| mode_change_pending := false |> <| neutral_pending := false |> /\
          n = false) /\
    (n = true -> input_mode s' = input_mode s /\
       (ai_ptp_feature_take_neutral (Some s')).1 = true) /\
    reported_mode s' = Some [AI_PTP_REPORT_INPUT_MODE; requested] /\
    (mode_change_pending s' = true ->
       forall a f scan r cap l, axes_ok a -> out_count f <= AI_PTP_MAX_CONTACTS ->
         ai_ptp_encode_input (Some a) (Some f) scan (Some s') (Some r) cap (Some l) =
           (AI_OK, Some r, Some 0)) /\
    (exists s2, ai_ptp_feature_contacts_update (Some s') false = (requested =? 3, Some s2) /\
       input_mode s2 = requested /\ mode_change_pending s2 = false).
Proof.
  intros requested. destruct s as [mode pending change neutral surf but].
  unfold ai_ptp_set_feature. cbn [Z.eqb Pos.eqb negb].
  change ([AI_PTP_REPORT_INPUT_MODE; v] .[ 0 ]) with 4.
  change ([AI_PTP_REPORT_INPUT_MODE; v] .[ 1 ]) with v. fold requested.
  cbn [Z.eqb Pos.eqb negb mode_change_pending input_mode pending_input_mode AI_PTP_REPORT_INPUT_MODE].
  assert (forall a f scan r cap l s', axes_ok a -> out_count f <= AI_PTP_MAX_CONTACTS ->
    mode_change_pending s' = true ->
    ai_ptp_encode_input (Some a) (Some f) scan (Some s') (Some r) cap (Some l) =
      (AI_OK, Some r, Some 0)) as Hquiet.
  { intros a f scan r cap l s' Ha Hc Hp. unfold ai_ptp_encode_input.
    rewrite (proj2 (Z.ltb_ge _ _)), (ax_valid a Ha), Hp, orb_true_r by done. done. }
  unfold wanted_mode. cbn [mode_change_pending input_mode pending_input_mode].
  destruct change; cbn [andb negb].
  - destruct (Z.eqb_spec pending requested) as [->|E]; [|destruct contacts];
      (do 2 eexists; split; [done|]); (split; [done|]); (split; [done|]); (split; [done|]);
      (split; [by intros; apply Hquiet|by eexists]).
  - destruct (Z.eqb_spec mode requested) as [->|E]; [|destruct contacts];
      (do 2 eexists; split; [done|]); (split; [done|]); (split; [done|]); (split; [done|]);
      (split; [by intros; apply Hquiet|by eexists]).
Qed.

(** The other writable feature is read back as written. *)
Lemma selective_roundtrip s v contacts n0 :
  0 <= v <= 3 ->
  exists s', ai_ptp_set_feature (Some s) AI_PTP_REPORT_SELECTIVE (Some [AI_PTP_REPORT_SELECTIVE; v]) 2
      contacts (Some n0) = (AI_OK, Some s', Some false) /\
    (ai_ptp_get_feature (Some s') AI_PTP_REPORT_SELECTIVE (Some [0; 0]) 2 (Some 0)).1.2 =
      Some [AI_PTP_REPORT_SELECTIVE; v].
Proof.
  intros Hv. assert (v = 0 \/ v = 1 \/ v = 2 \/ v = 3) as Hv4 by lia.
  destruct Hv4 as [->|[->|[->| ->]]]; by eexists.
Qed.
End Ptp.
