(* ===== verification/Assignment.v ===== *)
(** * The assignment step of the contact tracker
    (apple-input/protocol/src/apple_trackpad_frame.c, [minimum_assignment])

    The rectangular Hungarian method as the code runs it, on a cost matrix: one
    shortest augmenting path per row with the potentials [u], [v], the tentative
    distances [minv], the matching [p] and the tree [way].  The theorem: for costs that
    leave head-room below the "infinite" cost, both loops end, the result matches every
    row to a column of its own, and no such matching is cheaper. *)

From S2P Require Import Prelude Arrays.

Module Assign.

(** ** The algorithm *)

Definition AI_APPLE_TRACKPAD_MAX_CONTACTS : Z := 11.
Definition AI_TRACKPAD_COST_MAX : Z := 0x00ffffffffffffff.

#[export] Instance bool_inhabited : Inhabited bool := populate false.

(** The work arrays; index 0 of the column arrays is the row being added. *)
Record work := {
  u : list Z;
  v : list Z;
  minv : list Z;
  p : list Z;
  way : list Z;
  used : list bool;
}.
#[export] Instance work_eta : Eta work :=
  fun w => Build_work (u w) (v w) (minv w) (p w) (way w) (used w).

Section algorithm.
Context (cost : list (list Z)) (columns : Z).

(** [for (j = 1; j <= columns; ++j)]: relax column [j] from row [i0], keep the nearest. *)
Definition relax (w : work) (i0 j0 j : Z) (st : list Z * list Z * Z * Z)
    : list Z * list Z * Z * Z :=
  let '(minv, way, delta, j1) := st in
  if (used w) .[ j ] then st
  else
    let current := cost .[ i0 - 1 ] .[ j - 1 ] - (u w) .[ i0 ] - (v w) .[ j ] in
    let '(minv, way) :=
      if current <? minv .[ j ] then (minv .[ j <- current ], way .[ j <- j0 ]) else (minv, way) in
    if (minv .[ j ] <? delta) || ((minv .[ j ] =? delta) && (j1 =? 0))
    then (minv, way, minv .[ j ], j) else (minv, way, delta, j1).

(** [for (j = 0; j <= columns; ++j)]: move the potentials by [delta]. *)
Definition shift (w : work) (delta j : Z) (st : list Z * list Z * list Z)
    : list Z * list Z * list Z :=
  let '(u, v, minv) := st in
  if (used w) .[ j ]
  then (u .[ (p w) .[ j ] <- u .[ (p w) .[ j ] ] + delta ], v .[ j <- v .[ j ] - delta ], minv)
  else (u, v, minv .[ j <- minv .[ j ] - delta ]).

(** One round of the first [do ... while]: the new work arrays and [j1]. *)
Definition grow_round (w : work) (j0 : Z) : work * Z :=
  let w := w <| used := (used w) .[ j0 <- true ] |> in
  let i0 := (p w) .[ j0 ] in
  let '(minv1, way1, delta, j1) :=
    for_range 1 columns (relax w i0 j0) (minv w, way w, AI_TRACKPAD_COST_MAX, 0) in
  let w := w <| minv := minv1 |> <| way := way1 |> in
  let '(u1, v1, minv2) := for_range 0 (columns + 1) (shift w delta) (u w, v w, minv w) in
  (w <| u := u1 |> <| v := v1 |> <| minv := minv2 |>, j1).

(** [None] when the fuel runs out. *)
Fixpoint grow (fuel : nat) (w : work) (j0 : Z) : option (work * Z) :=
  match fuel with
  | O => None
  | S fuel =>
      let '(w, j1) := grow_round w j0 in
      if (p w) .[ j1 ] =? 0 then Some (w, j1) else grow fuel w j1
  end.

(** The second [do ... while]: the matching is flipped along the path back to column 0. *)
Fixpoint augment (fuel : nat) (way p : list Z) (j0 : Z) : option (list Z) :=
  match fuel with
  | O => None
  | S fuel =>
      let j1 := way .[ j0 ] in
      let p := p .[ j0 <- p .[ j1 ] ] in
      if j1 =? 0 then Some p else augment fuel way p j1
  end.

(** Every column enters the tree at most once. *)
Definition path_fuel : nat := 13.

(** [for (i = 1; i <= rows; ++i)], one row. *)
Definition add_row (i : Z) (w : work) : option work :=
  let w := w <| p := (p w) .[ 0 <- i ] |> in
  let '(minv0, used0) :=
    for_range 0 (columns + 1) (fun j '(minv, used) =>
      (minv .[ j <- AI_TRACKPAD_COST_MAX ], used .[ j <- false ])) (minv w, used w) in
  let w := w <| minv := minv0 |> <| used := used0 |> in
  match grow path_fuel w 0 with
  | None => None
  | Some (w, j0) =>
      match augment path_fuel (way w) (p w) j0 with
      | None => None
      | Some p' => Some (w <| p := p' |>)
      end
  end.

Definition work_zero : work :=
  Build_work (replicate 12 0) (replicate 12 0) (replicate 12 0) (replicate 12 0) (replicate 12 0)
    (replicate 12 false).

(** The matching [p] after all rows: [p .[ j ]] is the row of column [j], 0 if none. *)
Definition hungarian (rows : Z) : option (list Z) :=
  p <$> for_range 1 rows (fun i w => w ← w; add_row i w) (Some work_zero).
End algorithm.

(** ** Sums *)

Definition sum (l : list Z) : Z := foldr Z.add 0 l.

Lemma sum_cons x l : sum (x :: l) = x + sum l.
Proof. done. Qed.

Lemma sum_app l1 l2 : sum (l1 ++ l2) = sum l1 + sum l2.
Proof. induction l1 as [|x l1 IH]; [done|]. simpl. rewrite IH. lia. Qed.

#[export] Instance sum_proper : Proper ((≡ₚ) ==> (=)) sum.
Proof. induction 1; simpl; lia. Qed.

Lemma sum_zero l : Forall (fun x => x = 0) l -> sum l = 0.
Proof. induction 1; simpl; lia. Qed.

Lemma sum_nonpos l : Forall (fun x => x <= 0) l -> sum l <= 0.
Proof. induction 1; simpl; lia. Qed.

(** ** Correctness *)

Section correctness.
Context (cost : list (list Z)) (rows columns bound : Z).

(** The cost of row [r], column [c], both counted from 1. *)
Definition at_ (r c : Z) : Z := cost .[ r - 1 ] .[ c - 1 ].

Hypothesis Hdims : 0 <= rows <= columns.
Hypothesis Hcolumns : columns <= AI_APPLE_TRACKPAD_MAX_CONTACTS.
Hypothesis Hcost : forall r c, 1 <= r <= rows -> 1 <= c <= columns -> 0 <= at_ r c <= bound.
Hypothesis Hbound : 12 * bound < AI_TRACKPAD_COST_MAX.

(** The reduced cost: what the potentials leave of [at_ r c]. *)
Definition slack (w : work) (r c : Z) : Z := at_ r c - (u w) .[ r ] - (v w) .[ c ].

Record sized (w : work) : Prop := {
  z_u : zlen (u w) = 12; z_v : zlen (v w) = 12; z_minv : zlen (minv w) = 12;
  z_p : zlen (p w) = 12; z_way : zlen (way w) = 12; z_used : zlen (used w) = 12;
}.

(** The columns as a bounded quantifier. *)
Definition column (c : Z) : Prop := 1 <= c <= columns.
Definition row (r : Z) : Prop := 1 <= r <= rows.

(** After [k] rows: feasible potentials, tight on a matching of exactly those rows. *)
Record matched (k : Z) (w : work) : Prop := {
  m_sized : sized w;
  m_feasible : forall r c, row r -> column c -> 0 <= slack w r c;
  m_tight : forall c, column c -> (p w) .[ c ] <> 0 -> slack w (p w) .[ c ] c = 0;
  m_range : forall c, column c -> 0 <= (p w) .[ c ] <= k;
  m_inj : forall c c', column c -> column c' -> (p w) .[ c ] = (p w) .[ c' ] ->
    (p w) .[ c ] <> 0 -> c = c';
  m_onto : forall r, 1 <= r <= k -> exists c, column c /\ (p w) .[ c ] = r;
  m_v : forall c, column c -> - k * bound <= (v w) .[ c ] <= 0;
  m_free : forall c, column c -> (p w) .[ c ] = 0 -> (v w) .[ c ] = 0;
  m_u : forall r, row r -> k < r -> (u w) .[ r ] = 0;
}.

(** [relax] over all columns: each unused column keeps the smaller of its distance and
    its reduced cost from [i0]; [j1] is the nearest unused column. *)
Definition relaxed (w : work) (i0 j0 c m y : Z) : Prop :=
  if decide (slack w i0 c < (minv w) .[ c ]) then m = slack w i0 c /\ y = j0
  else m = (minv w) .[ c ] /\ y = (way w) .[ c ].

Definition nearest (w : work) (minv1 : list Z) (upto delta j1 : Z) : Prop :=
  (j1 = 0 /\ delta = AI_TRACKPAD_COST_MAX /\
     forall c, 1 <= c <= upto -> (used w) .[ c ] = true) \/
  (1 <= j1 <= upto /\ (used w) .[ j1 ] = false /\ delta = minv1 .[ j1 ] /\
     delta <= AI_TRACKPAD_COST_MAX /\
     forall c, 1 <= c <= upto -> (used w) .[ c ] = false -> delta <= minv1 .[ c ]).

Lemma relax_spec w i0 j0 :
  sized w ->
  (forall c, column c -> (used w) .[ c ] = false -> (minv w) .[ c ] <= AI_TRACKPAD_COST_MAX) ->
  let '(minv1, way1, delta, j1) :=
    for_range 1 columns (relax cost w i0 j0) (minv w, way w, AI_TRACKPAD_COST_MAX, 0) in
  (zlen minv1 = 12 /\ zlen way1 = 12) /\
  (forall c, column c -> (used w) .[ c ] = true ->
     minv1 .[ c ] = (minv w) .[ c ] /\ way1 .[ c ] = (way w) .[ c ]) /\
  (forall c, column c -> (used w) .[ c ] = false -> relaxed w i0 j0 c minv1 .[ c ] way1 .[ c ]) /\
  nearest w minv1 columns delta j1.
Proof.
  intros Hz Hmax. unfold AI_APPLE_TRACKPAD_MAX_CONTACTS, column in *.
  set (P := fun (k : Z) (st : list Z * list Z * Z * Z) =>
    let '(minv1, way1, delta, j1) := st in
    (zlen minv1 = 12 /\ zlen way1 = 12) /\
    (forall c, 1 <= c <= columns -> k < c \/ (used w) .[ c ] = true ->
       minv1 .[ c ] = (minv w) .[ c ] /\ way1 .[ c ] = (way w) .[ c ]) /\
    (forall c, 1 <= c <= k -> (used w) .[ c ] = false -> relaxed w i0 j0 c minv1 .[ c ] way1 .[ c ]) /\
    nearest w minv1 k delta j1).
  assert (P columns (for_range 1 columns (relax cost w i0 j0)
    (minv w, way w, AI_TRACKPAD_COST_MAX, 0))) as H.
  2:{ destruct (for_range 1 columns _ _) as [[[minv1 way1] delta] j1].
      destruct H as (H1 & H2 & H3 & H4). split_and!; try tauto; auto. }
  apply (for_range_inv P); [lia| |].
  { split; [by destruct Hz|]. split; [done|]. split; [lia|]. left. split_and!; done || lia. }
  intros k [[[mi wy] de] jj] Hk ([Lm Lw] & Hsame & Hrel & Hnear). unfold relax.
  set (j := 1 + k). destruct ((used w) .[ j ]) eqn:Hu.
  { split_and!; try done.
    - intros c Hc Hor. apply Hsame; [done|]. destruct Hor; [left; lia|by right].
    - intros c Hc Hun. apply Hrel; [|done]. destruct (decide (c = j)) as [->|]; [congruence|lia].
    - destruct Hnear as [(-> & -> & Hall)|(Hj & Hju & -> & Hle & Hmin)].
      + left. split_and!; try done. intros c Hc. destruct (decide (c = j)) as [->|]; [done|].
        apply Hall. lia.
      + right. split_and!; try done; try lia. intros c Hc Hun.
        destruct (decide (c = j)) as [->|]; [congruence|]. apply Hmin; [lia|done]. }
  destruct (Hsame j ltac:(lia) ltac:(left; lia)) as [Em Ew].
  specialize (Hmax j ltac:(lia) Hu).
  change (cost .[ i0 - 1 ] .[ j - 1 ] - (u w) .[ i0 ] - (v w) .[ j ]) with (slack w i0 j).
  assert (exists mi1 wy1, (if slack w i0 j <? mi .[ j ]
      then (mi .[ j <- slack w i0 j ], wy .[ j <- j0 ]) else (mi, wy)) = (mi1, wy1) /\
    zlen mi1 = 12 /\ zlen wy1 = 12 /\ relaxed w i0 j0 j mi1 .[ j ] wy1 .[ j ] /\
    mi1 .[ j ] <= AI_TRACKPAD_COST_MAX /\
    forall c, 0 <= c -> c <> j -> mi1 .[ c ] = mi .[ c ] /\ wy1 .[ c ] = wy .[ c ])
    as (mi1 & wy1 & -> & Lm1 & Lw1 & Hr1 & Hmax1 & Hne).
  { unfold relaxed. rewrite Em. destruct (Z.ltb_spec (slack w i0 j) ((minv w) .[ j ])).
    - eexists _, _. split; [done|]. rewrite !zlen_set, !get_set_eq, decide_True by lia.
      split_and!; try done; try lia. intros. by rewrite !get_set_ne by lia.
    - eexists _, _. split; [done|]. rewrite decide_False by lia. rewrite Em, Ew. by split_and!. }
  assert (nearest w mi1 (k + 1)
    (if (mi1 .[ j ] <? de) || ((mi1 .[ j ] =? de) && (jj =? 0)) then mi1 .[ j ] else de)
    (if (mi1 .[ j ] <? de) || ((mi1 .[ j ] =? de) && (jj =? 0)) then j else jj)) as Hn1.
  { destruct Hnear as [(-> & -> & Hall)|(Hj & Hju & -> & Hle & Hmin)].
    - assert ((mi1 .[ j ] <? AI_TRACKPAD_COST_MAX) || ((mi1 .[ j ] =? AI_TRACKPAD_COST_MAX) && (0 =? 0)) = true) as ->.
      { rewrite orb_true_iff, andb_true_iff, Z.ltb_lt, Z.eqb_eq. lia. }
      right. split_and!; try done; try lia. intros c Hc Hun.
      destruct (decide (c = j)) as [->|]; [lia|]. rewrite (Hall c ltac:(lia)) in Hun. done.
    - rewrite (proj2 (Z.eqb_neq jj 0)), andb_false_r, orb_false_r by lia.
      destruct (Hne jj ltac:(lia) ltac:(lia)) as [Ejj _]. right.
      destruct (Z.ltb_spec (mi1 .[ j ]) (mi .[ jj ])) as [Hlt|Hge];
        (split_and!; try done; try lia); intros c Hc Hun;
        (destruct (decide (c = j)) as [->|]; [lia|]);
        (destruct (Hne c ltac:(lia) ltac:(lia)) as [-> _]);
        specialize (Hmin c ltac:(lia) Hun); lia. }
  destruct (_ || _); (split_and!; try done).
  all: first [ intros c Hc Hor; destruct (decide (c = j)) as [->|Hcj];
    [destruct Hor; [lia|congruence]|destruct (Hne c ltac:(lia) Hcj) as [-> ->];
     apply Hsame; [done|destruct Hor; [left; lia|by right]]]
   | intros c Hc Hun; destruct (decide (c = j)) as [->|Hcj]; [done|];
     destruct (Hne c ltac:(lia) Hcj) as [-> ->]; apply Hrel; [lia|done] ].
Qed.

(** [shift] over all columns: the rows of the used columns gain [delta], the used
    columns lose it, the distances of the others shrink by it. *)
Lemma shift_spec w delta :
  sized w ->
  (forall x, 0 <= x <= columns -> (used w) .[ x ] = true -> 0 <= (p w) .[ x ] < 12) ->
  (forall x x', 0 <= x <= columns -> 0 <= x' <= columns -> (used w) .[ x ] = true ->
     (used w) .[ x' ] = true -> (p w) .[ x ] = (p w) .[ x' ] -> x = x') ->
  let '(u1, v1, minv2) := for_range 0 (columns + 1) (shift w delta) (u w, v w, minv w) in
  (zlen u1 = 12 /\ zlen v1 = 12 /\ zlen minv2 = 12) /\
  (forall c, 0 <= c <= columns ->
     v1 .[ c ] = (v w) .[ c ] - (if (used w) .[ c ] then delta else 0) /\
     minv2 .[ c ] = (minv w) .[ c ] - (if (used w) .[ c ] then 0 else delta)) /\
  (forall x, 0 <= x <= columns -> (used w) .[ x ] = true ->
     u1 .[ (p w) .[ x ] ] = (u w) .[ (p w) .[ x ] ] + delta) /\
  (forall r, 0 <= r < 12 ->
     (forall x, 0 <= x <= columns -> (used w) .[ x ] = true -> (p w) .[ x ] <> r) ->
     u1 .[ r ] = (u w) .[ r ]).
Proof.
  intros [Hzu Hzv Hzm _ _ _] Hp Hinj. unfold AI_APPLE_TRACKPAD_MAX_CONTACTS in *.
  set (P := fun (k : Z) (st : list Z * list Z * list Z) =>
    let '(u1, v1, minv2) := st in
    (zlen u1 = 12 /\ zlen v1 = 12 /\ zlen minv2 = 12) /\
    (forall c, 0 <= c <= columns ->
       v1 .[ c ] = (v w) .[ c ] - (if decide (c < k) then if (used w) .[ c ] then delta else 0 else 0) /\
       minv2 .[ c ] = (minv w) .[ c ] - (if decide (c < k) then if (used w) .[ c ] then 0 else delta else 0)) /\
    (forall x, 0 <= x <= columns -> x < k -> (used w) .[ x ] = true ->
       u1 .[ (p w) .[ x ] ] = (u w) .[ (p w) .[ x ] ] + delta) /\
    (forall r, 0 <= r < 12 ->
       (forall x, 0 <= x <= columns -> x < k -> (used w) .[ x ] = true -> (p w) .[ x ] <> r) ->
       u1 .[ r ] = (u w) .[ r ])).
  assert (P (columns + 1) (for_range 0 (columns + 1) (shift w delta) (u w, v w, minv w))) as H.
  2:{ destruct (for_range 0 (columns + 1) _ _) as [[u1 v1] minv2].
      destruct H as (H1 & H2 & H3 & H4). split; [done|]. split; [|split].
      - intros c Hc. specialize (H2 c Hc). by rewrite !decide_True in H2 by lia.
      - intros x Hx. apply H3; lia.
      - intros r Hr Hx. apply H4; [done|]. intros x Hx1 Hx2. by apply Hx. }
  apply (for_range_inv P); [lia| |].
  { split; [done|]. split; [|split; [lia|done]]. intros c Hc. rewrite !decide_False by lia. lia. }
  intros j [[u1 v1] minv2] Hj ((Lu & Lv & Lm) & Hvm & Hu & Hother). rewrite Z.add_0_l. unfold shift.
  destruct ((used w) .[ j ]) eqn:Huj.
  - pose proof (Hp j ltac:(lia) Huj) as Hpj. split; [by rewrite !zlen_set|]. split; [|split].
    + intros c Hc. specialize (Hvm c Hc). rewrite get_set by lia.
      destruct (decide (j = c)) as [<-|]; repeat case_decide; try lia;
        rewrite ?Huj; split; try lia.
      all: destruct ((used w) .[ c ]); lia.
    + intros x Hx Hxk Hux. destruct (decide (x = j)) as [->|Hxj].
      * rewrite get_set_eq by lia. f_equal. apply Hother; [lia|].
        intros x Hx1 Hx2 Hx3 E. apply Hinj in E; done || lia.
      * rewrite get_set_ne; [apply Hu; done || lia|lia|apply Hp; done|].
        intros E. apply Hinj in E; done || lia.
    + intros r Hr Hne. rewrite get_set_ne; [|lia|lia|apply Hne; done || lia].
      apply Hother; [done|]. intros x Hx1 Hx2. apply Hne; lia.
  - split; [by rewrite !zlen_set|]. split; [|split].
    + intros c Hc. specialize (Hvm c Hc). rewrite get_set by lia.
      destruct (decide (j = c)) as [<-|]; repeat case_decide; try lia; rewrite ?Huj; lia.
    + intros x Hx Hxk Hux. destruct (decide (x = j)) as [->|Hxj]; [congruence|]. apply Hu; done || lia.
    + intros r Hr Hne. apply Hother; [done|]. intros x Hx1 Hx2. apply Hne; lia.
Qed.

(** ** One augmenting path *)

(** [p] matches the rows [1..k] to columns of their own. *)
Record matching (k : Z) (p : list Z) : Prop := {
  g_range : forall c, column c -> 0 <= p .[ c ] <= k;
  g_inj : forall c c', column c -> column c' -> p .[ c ] = p .[ c' ] -> p .[ c ] <> 0 -> c = c';
  g_onto : forall r, 1 <= r <= k -> exists c, column c /\ p .[ c ] = r;
}.

Lemma free_column k p :
  0 <= k < columns -> matching k p -> exists c, column c /\ p .[ c ] = 0.
Proof.
  intros Hk [Hr Hi _]. destruct (decide (Exists (fun c => p .[ c ] = 0) (seqZ 1 columns))) as [H|H].
  { apply Exists_exists in H as (c & Hc & E). apply elem_of_seqZ in Hc.
    exists c. split; [unfold column; lia|done]. }
  exfalso. rewrite <- Forall_Exists_neg, Forall_forall in H.
  assert ((fun c => p .[ c ]) <$> seqZ 1 columns ⊆+ seqZ 1 k) as Hsub.
  { apply NoDup_submseteq.
    - apply (NoDup_fmap_2_strong _ (seqZ 1 columns)); [|apply NoDup_seqZ].
      intros c c' Hc Hc' E. specialize (H _ Hc). apply elem_of_seqZ in Hc, Hc'.
      apply Hi; [unfold column; lia..|done|done].
    - intros r Hin. apply list_elem_of_fmap in Hin as (c & -> & Hc). specialize (H _ Hc).
      apply elem_of_seqZ in Hc. specialize (Hr c ltac:(unfold column; lia)). apply elem_of_seqZ. lia. }
  apply submseteq_length in Hsub. rewrite length_fmap, !length_seqZ in Hsub. lia.
Qed.

(** Before a round: [U] is the tree in the order it grew, [j0] the column that joins it
    next, [D] the distance travelled so far. *)
Record growing (k : Z) (w : work) (U : list Z) (j0 D : Z) : Prop := {
  t_sized : sized w;
  t_match : matching k (p w);
  t_p0 : (p w) .[ 0 ] = k + 1;
  t_feasible : forall r c, row r -> column c -> 0 <= slack w r c;
  t_tight : forall c, column c -> (p w) .[ c ] <> 0 -> slack w (p w) .[ c ] c = 0;
  t_used : forall x, 0 <= x <= columns -> ((used w) .[ x ] = true <-> x ∈ U);
  t_nodup : NoDup U;
  t_in : forall x, x ∈ U -> 0 <= x <= columns /\ (p w) .[ x ] <> 0;
  t_next : U = [] /\ j0 = 0 \/ 0 ∈ U /\ column j0 /\ j0 ∉ U /\ ((minv w) .[ j0 ] = 0);
  t_dist : 0 <= D <= bound /\ (U = [] -> D = 0);
  t_v : forall c, column c -> - k * bound - D <= (v w) .[ c ] <= 0;
  t_free : forall c, column c -> (p w) .[ c ] = 0 -> (v w) .[ c ] = 0;
  t_u : forall r, row r -> k + 1 < r -> (u w) .[ r ] = 0;
  t_ui : (u w) .[ k + 1 ] = D;
  t_minv : forall c, column c -> c ∉ U ->
    if decide (U = []) then (minv w) .[ c ] = AI_TRACKPAD_COST_MAX
    else (way w) .[ c ] ∈ U /\ (minv w) .[ c ] = slack w (p w) .[ (way w) .[ c ] ] c /\
         forall x, x ∈ U -> (minv w) .[ c ] <= slack w (p w) .[ x ] c;
  t_near : forall c, column c -> (p w) .[ c ] = 0 -> U <> [] -> (minv w) .[ c ] + D <= bound;
  t_tree : forall U1 c U2, U = U1 ++ c :: U2 -> c <> 0 ->
    (way w) .[ c ] ∈ U1 /\ slack w (p w) .[ (way w) .[ c ] ] c = 0;
}.

(** The rows of the tree are distinct rows of the matrix. *)
Lemma tree_rows k w U j0 D x :
  0 <= k < rows -> growing k w U j0 D -> (p w) .[ j0 ] <> 0 -> x ∈ U ++ [j0] ->
  0 <= x <= columns /\ 1 <= (p w) .[ x ] <= k + 1 /\ (x = 0 \/ (p w) .[ x ] <= k).
Proof.
  intros Hk H Hj0 Hx. assert (0 <= x <= columns /\ (p w) .[ x ] <> 0) as [Hb Hne].
  { apply elem_of_app in Hx as [Hx|Hx%list_elem_of_singleton]; [by apply (t_in _ _ _ _ _ H)|subst x].
    split; [|done]. destruct (t_next _ _ _ _ _ H) as [[_ ->]|(_ & Hc & _)]; unfold column in *; lia. }
  split; [done|]. destruct (decide (x = 0)) as [->|Hx0].
  - rewrite (t_p0 _ _ _ _ _ H). split; [lia|by left].
  - pose proof (g_range _ _ (t_match _ _ _ _ _ H) x ltac:(unfold column; lia)). lia.
Qed.

Lemma tree_inj k w U j0 D x x' :
  0 <= k < rows -> growing k w U j0 D -> (p w) .[ j0 ] <> 0 ->
  x ∈ U ++ [j0] -> x' ∈ U ++ [j0] -> (p w) .[ x ] = (p w) .[ x' ] -> x = x'.
Proof.
  intros Hk H Hj0 Hx Hx' E.
  pose proof (tree_rows _ _ _ _ _ x Hk H Hj0 Hx) as (? & ? & Hor).
  pose proof (tree_rows _ _ _ _ _ x' Hk H Hj0 Hx') as (? & ? & Hor').
  pose proof (t_p0 _ _ _ _ _ H) as E0.
  destruct (decide (x = 0)) as [->|], (decide (x' = 0)) as [->|]; [done| | |]; try lia.
  apply (g_inj _ _ (t_match _ _ _ _ _ H)); unfold column; lia.
Qed.

Lemma list_snoc_cases {A} (l : list A) : l = [] \/ exists l' y, l = l' ++ [y].
Proof. induction l as [|y l _] using rev_ind; [by left|right; eauto]. Qed.

(** What [relax] found, in terms of the grown tree. *)
Lemma relaxed_distance k w U j0 D c m y :
  0 <= k < rows -> growing k w U j0 D -> (p w) .[ j0 ] <> 0 -> column c -> c ∉ U ++ [j0] ->
  relaxed w (p w) .[ j0 ] j0 c m y ->
  y ∈ U ++ [j0] /\ m = slack w (p w) .[ y ] c /\
  (forall x, x ∈ U ++ [j0] -> m <= slack w (p w) .[ x ] c) /\
  ((p w) .[ c ] = 0 -> m + D <= bound).
Proof.
  intros Hk H Hj0 Hc HcU Hrel. rewrite not_elem_of_app, not_elem_of_cons in HcU.
  destruct HcU as (HcU & Hcj & _).
  pose proof (t_minv _ _ _ _ _ H c Hc HcU) as Hmin. pose proof (t_near _ _ _ _ _ H c Hc) as Hnear.
  pose proof (t_dist _ _ _ _ _ H) as [HD HD0].
  unfold relaxed in Hrel. destruct (decide (U = [])) as [E|E] in Hmin.
  - destruct (t_next _ _ _ _ _ H) as [[_ Ej]|(H0 & _)]; [|by subst U; apply elem_of_nil in H0].
    assert (slack w (p w) .[ j0 ] c = at_ (k + 1) c - (v w) .[ c ]) as Es.
    { unfold slack. rewrite Ej, (t_p0 _ _ _ _ _ H), (t_ui _ _ _ _ _ H), (HD0 E). lia. }
    pose proof (Hcost (k + 1) c ltac:(lia) Hc). pose proof (t_v _ _ _ _ _ H c Hc) as Hv.
    assert (k * bound <= 11 * bound) by (unfold AI_APPLE_TRACKPAD_MAX_CONTACTS in *; nia).
    pose proof (HD0 E). rewrite decide_True in Hrel by (rewrite Hmin, Es; lia). destruct Hrel as [-> ->].
    split_and!; [set_solver|done| |].
    + intros x Hx. subst U. apply list_elem_of_singleton in Hx as ->. lia.
    + intros Hfree. rewrite Es, (t_free _ _ _ _ _ H c Hc Hfree), (HD0 E). lia.
  - destruct Hmin as (Hw & Em & Hle). destruct (decide (slack w (p w) .[ j0 ] c < (minv w) .[ c ])) as [Hlt|Hge];
      destruct Hrel as [-> ->].
    + split_and!; [set_solver|done| |].
      * intros x [Hx|Hx%list_elem_of_singleton]%elem_of_app; [specialize (Hle x Hx); lia|subst x; lia].
      * intros Hfree. specialize (Hnear Hfree E). lia.
    + split_and!; [set_solver|done| |].
      * intros x [Hx|Hx%list_elem_of_singleton]%elem_of_app; [by apply Hle|subst x; lia].
      * intros Hfree. by apply Hnear.
Qed.

(** After a round: [w1] is what the loops left. *)
Record stepped (k : Z) (w w1 : work) (U : list Z) (D delta j1 : Z) (minv1 : list Z) : Prop := {
  s_sized : sized w1;
  s_p : p w1 = p w;
  s_used : forall x, 0 <= x <= columns -> ((used w1) .[ x ] = true <-> x ∈ U);
  s_v : forall c, column c -> (v w1) .[ c ] = (v w) .[ c ] - (if decide (c ∈ U) then delta else 0);
  s_minv : forall c, column c -> c ∉ U -> (minv w1) .[ c ] = minv1 .[ c ] - delta;
  s_u : forall x, x ∈ U -> (u w1) .[ (p w) .[ x ] ] = (u w) .[ (p w) .[ x ] ] + delta;
  s_u0 : forall r, 0 <= r < 12 -> (forall x, x ∈ U -> (p w) .[ x ] <> r) -> (u w1) .[ r ] = (u w) .[ r ];
  s_dist : forall c, column c -> c ∉ U ->
    (way w1) .[ c ] ∈ U /\ minv1 .[ c ] = slack w (p w) .[ (way w1) .[ c ] ] c /\
    (forall x, x ∈ U -> minv1 .[ c ] <= slack w (p w) .[ x ] c) /\
    ((p w) .[ c ] = 0 -> minv1 .[ c ] + D <= bound);
  s_way : forall c, column c -> c ∈ U -> (way w1) .[ c ] = (way w) .[ c ];
  s_next : column j1 /\ j1 ∉ U /\ delta = minv1 .[ j1 ];
  s_delta : forall c, column c -> c ∉ U -> delta <= minv1 .[ c ];
}.

(** How the reduced costs move. *)
Lemma slack_tree k w w1 U D delta j1 minv1 x c :
  stepped k w w1 U D delta j1 minv1 -> x ∈ U -> column c ->
  slack w1 (p w) .[ x ] c = slack w (p w) .[ x ] c - (if decide (c ∈ U) then 0 else delta).
Proof.
  intros H Hx Hc. unfold slack. rewrite (s_u _ _ _ _ _ _ _ _ H x Hx), (s_v _ _ _ _ _ _ _ _ H c Hc).
  case_decide; lia.
Qed.

Lemma slack_other k w w1 U D delta j1 minv1 r c :
  stepped k w w1 U D delta j1 minv1 -> (forall x, x ∈ U -> (p w) .[ x ] <> r) -> 0 <= r < 12 ->
  column c ->
  slack w1 r c = slack w r c + (if decide (c ∈ U) then delta else 0).
Proof.
  intros H Hr Hr' Hc. unfold slack.
  rewrite (s_u0 _ _ _ _ _ _ _ _ H r Hr' Hr), (s_v _ _ _ _ _ _ _ _ H c Hc). lia.
Qed.

Lemma delta_bounds k w w1 U j0 D delta j1 minv1 :
  0 <= k < rows -> growing k w U j0 D -> (p w) .[ j0 ] <> 0 ->
  stepped k w w1 (U ++ [j0]) D delta j1 minv1 -> 0 <= delta /\ D + delta <= bound.
Proof.
  intros Hk H Hj0 Hs. pose proof (s_next _ _ _ _ _ _ _ _ Hs) as (Hj1 & Hj1U & Ed). split.
  - destruct (s_dist _ _ _ _ _ _ _ _ Hs j1 Hj1 Hj1U) as (Hw & Em & _).
    rewrite Ed, Em. apply (t_feasible _ _ _ _ _ H); [|done].
    pose proof (tree_rows k w U j0 D _ Hk H Hj0 Hw). unfold row. lia.
  - destruct (free_column k (p w) ltac:(lia) (t_match _ _ _ _ _ H)) as (f & Hf & Hf0).
    assert (f ∉ U ++ [j0]) as HfU.
    { intros Hin. pose proof (tree_rows k w U j0 D f Hk H Hj0 Hin). lia. }
    destruct (s_dist _ _ _ _ _ _ _ _ Hs f Hf HfU) as (_ & _ & _ & Hb). specialize (Hb Hf0).
    pose proof (s_delta _ _ _ _ _ _ _ _ Hs f Hf HfU). lia.
Qed.

(** Feasibility, tightness of the matching and of the tree survive the round. *)
Lemma stepped_feasible k w w1 U j0 D delta j1 minv1 :
  0 <= k < rows -> growing k w U j0 D -> (p w) .[ j0 ] <> 0 ->
  stepped k w w1 (U ++ [j0]) D delta j1 minv1 ->
  (forall r c, row r -> column c -> 0 <= slack w1 r c) /\
  (forall c, column c -> (p w) .[ c ] <> 0 -> slack w1 (p w) .[ c ] c = 0).
Proof.
  intros Hk H Hj0 Hs. destruct (delta_bounds _ _ _ _ _ _ _ _ _ Hk H Hj0 Hs) as [Hd _].
  assert (rows < 12) as Hrows by (unfold AI_APPLE_TRACKPAD_MAX_CONTACTS in *; lia). split.
  - intros r c Hr Hc. pose proof (t_feasible _ _ _ _ _ H r c Hr Hc).
    destruct (decide (Exists (fun x => (p w) .[ x ] = r) (U ++ [j0]))) as [Hin|Hout].
    + apply Exists_exists in Hin as (x & Hx & <-). rewrite (slack_tree _ _ _ _ _ _ _ _ _ c Hs Hx Hc).
      case_decide as HcU; [lia|].
      destruct (s_dist _ _ _ _ _ _ _ _ Hs c Hc HcU) as (_ & _ & Hle & _). specialize (Hle x Hx).
      pose proof (s_delta _ _ _ _ _ _ _ _ Hs c Hc HcU). lia.
    + rewrite <- Forall_Exists_neg, Forall_forall in Hout. unfold row in Hr.
      rewrite (slack_other _ _ _ _ _ _ _ _ r c Hs) by (done || lia). case_decide; lia.
  - intros c Hc Hne. pose proof (t_tight _ _ _ _ _ H c Hc Hne).
    destruct (decide (c ∈ U ++ [j0])) as [HcU|HcU].
    + rewrite (slack_tree _ _ _ _ _ _ _ _ _ c Hs HcU Hc), decide_True by done. lia.
    + pose proof (g_range _ _ (t_match _ _ _ _ _ H) c Hc).
      rewrite (slack_other _ _ _ _ _ _ _ _ _ c Hs); [rewrite decide_False by done; lia| |lia|done].
      intros x Hx E. pose proof (tree_rows k w U j0 D x Hk H Hj0 Hx) as (Hxb & _ & Hor).
      pose proof (t_p0 _ _ _ _ _ H). destruct (decide (x = 0)) as [->|]; [lia|].
      assert (x = c) as ->; [|done].
      apply (g_inj _ _ (t_match _ _ _ _ _ H)); [unfold column; lia|done|done|congruence].
Qed.

Lemma stepped_tree k w w1 U j0 D delta j1 minv1 :
  0 <= k < rows -> growing k w U j0 D -> (p w) .[ j0 ] <> 0 ->
  stepped k w w1 (U ++ [j0]) D delta j1 minv1 ->
  forall U1 c U2, U ++ [j0] = U1 ++ c :: U2 -> c <> 0 ->
  (way w1) .[ c ] ∈ U1 /\ slack w1 (p w) .[ (way w1) .[ c ] ] c = 0.
Proof.
  intros Hk H Hj0 Hs U1 c U2 E Hc0.
  assert (c ∈ U ++ [j0]) as HcU by (rewrite E; set_solver).
  pose proof (tree_rows k w U j0 D c Hk H Hj0 HcU) as (Hcb & _).
  assert (column c) as Hc by (unfold column; lia).
  rewrite (s_way _ _ _ _ _ _ _ _ Hs c Hc HcU).
  assert ((way w) .[ c ] ∈ U1 /\ slack w (p w) .[ (way w) .[ c ] ] c = 0) as [Hw Hsl].
  { destruct (list_snoc_cases U2) as [->|(U2' & y & ->)].
    - apply app_inj_tail in E as [<- <-].
      destruct (t_next _ _ _ _ _ H) as [[_ ?]|(_ & _ & HjU & Hm0)]; [done|].
      pose proof (t_minv _ _ _ _ _ H j0 Hc HjU) as Hm.
      destruct (decide (U = [])) as [EU|EU] in Hm.
      { rewrite Hm0 in Hm. done. }
      destruct Hm as (? & Hm & _). split; [done|lia].
    - rewrite app_comm_cons, app_assoc in E. apply app_inj_tail in E as [E _].
      by apply (t_tree _ _ _ _ _ H U1 c U2'). }
  split; [done|]. rewrite (slack_tree _ _ _ _ _ _ _ _ _ c Hs) by (done || (rewrite E; set_solver)).
  rewrite decide_True by done. lia.
Qed.

Lemma stepped_growing k w w1 U j0 D delta j1 minv1 :
  0 <= k < rows -> growing k w U j0 D -> (p w) .[ j0 ] <> 0 ->
  stepped k w w1 (U ++ [j0]) D delta j1 minv1 -> growing k w1 (U ++ [j0]) j1 (D + delta).
Proof.
  intros Hk H Hj0 Hs. destruct (delta_bounds _ _ _ _ _ _ _ _ _ Hk H Hj0 Hs) as [Hd HD].
  destruct (stepped_feasible _ _ _ _ _ _ _ _ _ Hk H Hj0 Hs) as [Hfeas Htight].
  pose proof (s_next _ _ _ _ _ _ _ _ Hs) as (Hj1 & Hj1U & Ed).
  assert (0 ∈ U ++ [j0]) as H0.
  { destruct (t_next _ _ _ _ _ H) as [[_ ->]|(? & _)]; set_solver. }
  assert (U ++ [j0] <> []) as Hne by by destruct U.
  assert (rows < 12) as Hrows by (unfold AI_APPLE_TRACKPAD_MAX_CONTACTS in *; lia).
  pose proof (s_p _ _ _ _ _ _ _ _ Hs) as Ep.
  split; rewrite ?Ep.
  - exact (s_sized _ _ _ _ _ _ _ _ Hs).
  - exact (t_match _ _ _ _ _ H).
  - exact (t_p0 _ _ _ _ _ H).
  - exact Hfeas.
  - exact Htight.
  - exact (s_used _ _ _ _ _ _ _ _ Hs).
  - apply NoDup_app. split; [exact (t_nodup _ _ _ _ _ H)|]. split; [|apply NoDup_singleton].
    intros x Hx ->%list_elem_of_singleton.
    destruct (t_next _ _ _ _ _ H) as [[-> _]|(_ & _ & HjU & _)]; [by apply elem_of_nil in Hx|done].
  - intros x Hx. pose proof (tree_rows k w U j0 D x Hk H Hj0 Hx). split; lia.
  - right. split_and!; try done; [apply Hj1..|]. rewrite (s_minv _ _ _ _ _ _ _ _ Hs j1 Hj1 Hj1U). lia.
  - split; [pose proof (t_dist _ _ _ _ _ H); lia|done].
  - intros c Hc. rewrite (s_v _ _ _ _ _ _ _ _ Hs c Hc). pose proof (t_v _ _ _ _ _ H c Hc). case_decide; lia.
  - intros c Hc Hfree. rewrite (s_v _ _ _ _ _ _ _ _ Hs c Hc), decide_False.
    + rewrite (t_free _ _ _ _ _ H c Hc Hfree). lia.
    + intros Hin. pose proof (tree_rows k w U j0 D c Hk H Hj0 Hin). lia.
  - intros r Hr Hlt. unfold row in Hr. rewrite (s_u0 _ _ _ _ _ _ _ _ Hs); [exact (t_u _ _ _ _ _ H r Hr Hlt)|lia|].
    intros x Hx. pose proof (tree_rows k w U j0 D x Hk H Hj0 Hx). lia.
  - rewrite <- (t_p0 _ _ _ _ _ H), (s_u _ _ _ _ _ _ _ _ Hs 0 H0).
    rewrite (t_p0 _ _ _ _ _ H), (t_ui _ _ _ _ _ H). done.
  - intros c Hc HcU. rewrite decide_False by done.
    destruct (s_dist _ _ _ _ _ _ _ _ Hs c Hc HcU) as (Hw & Em & Hle & _).
    rewrite (s_minv _ _ _ _ _ _ _ _ Hs c Hc HcU). split; [done|]. split.
    + rewrite (slack_tree _ _ _ _ _ _ _ _ _ c Hs Hw Hc), decide_False by done. lia.
    + intros x Hx. rewrite (slack_tree _ _ _ _ _ _ _ _ _ c Hs Hx Hc), decide_False by done.
      specialize (Hle x Hx). lia.
  - intros c Hc Hfree _. assert (c ∉ U ++ [j0]) as HcU.
    { intros Hin. pose proof (tree_rows k w U j0 D c Hk H Hj0 Hin). lia. }
    destruct (s_dist _ _ _ _ _ _ _ _ Hs c Hc HcU) as (_ & _ & _ & Hb).
    rewrite (s_minv _ _ _ _ _ _ _ _ Hs c Hc HcU). specialize (Hb Hfree). lia.
  - by apply (stepped_tree k w w1 U j0 D delta j1 minv1).
Qed.

(** A round adds [j0] to the tree and moves to the nearest column outside it. *)
Lemma grow_round_step k w U j0 D :
  0 <= k < rows -> growing k w U j0 D -> (p w) .[ j0 ] <> 0 ->
  let '(w', j1) := grow_round cost columns w j0 in
  p w' = p w /\ exists D', growing k w' (U ++ [j0]) j1 D'.
Proof.
  intros Hk H Hj0. unfold grow_round. set (w1 := w <| used := _ |>).
  pose proof (t_sized _ _ _ _ _ H) as [Zu Zv Zm Zp Zw Zus].
  assert (0 <= j0 <= columns) as Hj0c.
  { apply (tree_rows k w U j0 D j0 Hk H Hj0). set_solver. }
  unfold AI_APPLE_TRACKPAD_MAX_CONTACTS in *.
  assert (sized w1) as Hz1 by (split; cbn; rewrite ?zlen_set; done).
  assert (forall x, 0 <= x <= columns -> ((used w1) .[ x ] = true <-> x ∈ U ++ [j0])) as Hused.
  { intros x Hx. cbn. rewrite get_set by lia. rewrite elem_of_app, list_elem_of_singleton.
    pose proof (t_used _ _ _ _ _ H x Hx). destruct (decide (j0 = x)); naive_solver. }
  assert (forall x, 0 <= x <= columns -> (used w1) .[ x ] = false -> x ∉ U ++ [j0]) as Hunused.
  { intros x Hx E Hin. apply Hused in Hin; [|done]. congruence. }
  assert (forall c, column c -> (used w1) .[ c ] = false -> (minv w1) .[ c ] <= AI_TRACKPAD_COST_MAX) as Hmax.
  { intros c Hc E. apply Hunused in E; [|unfold column in *; lia].
    assert (c ∉ U) as HcU by set_solver. pose proof (t_minv _ _ _ _ _ H c Hc HcU) as Hm.
    change (minv w1) with (minv w). case_decide as EU; [lia|]. destruct Hm as (_ & _ & Hm).
    destruct (t_next _ _ _ _ _ H) as [[? _]|(H0 & _)]; [done|]. specialize (Hm 0 H0).
    unfold slack in Hm. rewrite (t_p0 _ _ _ _ _ H), (t_ui _ _ _ _ _ H) in Hm.
    pose proof (t_v _ _ _ _ _ H c Hc). pose proof (Hcost (k + 1) c ltac:(lia) Hc).
    pose proof (t_dist _ _ _ _ _ H). nia. }
  pose proof (relax_spec w1 (p w1) .[ j0 ] j0 Hz1 Hmax) as Hrelax.
  destruct (for_range 1 columns _ _) as [[[minv1 way1] delta] j1] eqn:Erel.
  destruct Hrelax as ([Lm Lw] & Hkeep & Hnew & Hnear).
  assert (forall c, column c -> c ∉ U ++ [j0] ->
    way1 .[ c ] ∈ U ++ [j0] /\ minv1 .[ c ] = slack w (p w) .[ way1 .[ c ] ] c /\
    (forall x, x ∈ U ++ [j0] -> minv1 .[ c ] <= slack w (p w) .[ x ] c) /\
    ((p w) .[ c ] = 0 -> minv1 .[ c ] + D <= bound)) as Hdist.
  { intros c Hc HcU. apply (relaxed_distance k w U j0 D c _ _ Hk H Hj0 Hc HcU).
    apply Hnew; [done|]. destruct ((used w1) .[ c ]) eqn:E; [|done].
    apply Hused in E; [done|unfold column in *; lia]. }
  destruct (free_column k (p w) ltac:(lia) (t_match _ _ _ _ _ H)) as (f & Hf & Hf0).
  assert (f ∉ U ++ [j0]) as HfU.
  { intros Hin. pose proof (tree_rows k w U j0 D f Hk H Hj0 Hin). lia. }
  assert (column j1 /\ j1 ∉ U ++ [j0] /\ delta = minv1 .[ j1 ] /\
    forall c, column c -> c ∉ U ++ [j0] -> delta <= minv1 .[ c ]) as (Hj1 & Hj1U & Edelta & Hdelta).
  { assert (forall c, column c -> c ∉ U ++ [j0] -> (used w1) .[ c ] = false) as Hf1.
    { intros c Hc HcU. destruct ((used w1) .[ c ]) eqn:E; [|done].
      apply Hused in E; [done|unfold column in *; lia]. }
    destruct Hnear as [(_ & _ & Hall)|(Hj & Hju & -> & _ & Hle)].
    - specialize (Hall f Hf). by rewrite (Hf1 f Hf HfU) in Hall.
    - split_and!; try done; [by apply Hunused; [lia|]|]. intros c Hc HcU. by apply Hle, Hf1. }
  set (w2 := w1 <| minv := minv1 |> <| way := way1 |>).
  assert (sized w2) as Hz2 by (split; cbn; rewrite ?zlen_set; done).
  assert (forall x, 0 <= x <= columns -> (used w2) .[ x ] = true -> x ∈ U ++ [j0]) as Hin
    by (intros x Hx E; by apply Hused).
  pose proof (shift_spec w2 delta Hz2) as Hshift.
  destruct (for_range 0 (columns + 1) _ _) as [[u1 v1] minv2].
  destruct Hshift as ((Lu & Lv & Lm2) & Hvm & Hu & Hu0).
  { intros x Hx E. pose proof (tree_rows k w U j0 D x Hk H Hj0 (Hin x Hx E)). cbn. lia. }
  { intros x x' Hx Hx' E E'. exact (tree_inj k w U j0 D x x' Hk H Hj0 (Hin x Hx E) (Hin x' Hx' E')). }
  split; [done|]. exists (D + delta).
  eapply (stepped_growing k w _ U j0 D delta j1 minv1 Hk H Hj0). split.
  - split; cbn; rewrite ?zlen_set; done.
  - done.
  - exact Hused.
  - intros c Hc. destruct (Hvm c ltac:(unfold column in *; lia)) as [E _].
    etransitivity; [exact E|]. change (used w2) with (used w1). change (v w2) with (v w).
    pose proof (Hused c ltac:(unfold column in *; lia)).
    destruct ((used w1) .[ c ]); case_decide; try done; naive_solver.
  - intros c Hc HcU. destruct (Hvm c ltac:(unfold column in *; lia)) as [_ E].
    etransitivity; [exact E|]. change (used w2) with (used w1). change (minv w2) with minv1.
    pose proof (Hused c ltac:(unfold column in *; lia)).
    destruct ((used w1) .[ c ]); try done; naive_solver.
  - intros x Hx. pose proof (tree_rows k w U j0 D x Hk H Hj0 Hx) as [Hxb _].
    apply Hu; [done|]. by apply Hused.
  - intros r Hr Hne. apply Hu0; [done|]. intros x Hx E. by apply Hne, Hin.
  - exact Hdist.
  - intros c Hc HcU. destruct (Hkeep c Hc) as [_ E]; [|exact E].
    apply Hused; [unfold column in *; lia|done].
  - done.
  - done.
Qed.

(** The round loop ends at a free column, and fuel for every column is enough. *)
Lemma grow_ends k fuel w U j0 D :
  0 <= k < rows -> growing k w U j0 D -> (p w) .[ j0 ] <> 0 ->
  columns + 1 - zlen U <= Z.of_nat fuel ->
  exists w' U' j1 D', grow cost columns fuel w j0 = Some (w', j1) /\ growing k w' U' j1 D' /\
    p w' = p w /\ (p w') .[ j1 ] = 0 /\ U' <> [].
Proof.
  revert w U j0 D. induction fuel as [|fuel IH]; intros w U j0 D Hk H Hj0 Hfuel.
  { exfalso. assert (U ++ [j0] ⊆+ seqZ 0 (columns + 1)) as Hsub.
    { apply NoDup_submseteq.
      - apply NoDup_app. split; [exact (t_nodup _ _ _ _ _ H)|]. split; [|apply NoDup_singleton].
        intros x Hx ->%list_elem_of_singleton.
        destruct (t_next _ _ _ _ _ H) as [[-> _]|(_ & _ & HjU & _)]; [by apply elem_of_nil in Hx|done].
      - intros x Hx. pose proof (tree_rows k w U j0 D x Hk H Hj0 Hx). apply elem_of_seqZ. lia. }
    apply submseteq_length in Hsub. rewrite length_app, length_seqZ in Hsub. simpl in Hsub.
    unfold zlen in Hfuel. lia. }
  cbn [grow]. pose proof (grow_round_step k w U j0 D Hk H Hj0) as Hround.
  destruct (grow_round cost columns w j0) as [w' j1]. destruct Hround as (Ep & D' & H').
  destruct (Z.eqb_spec ((p w') .[ j1 ]) 0) as [E|E].
  - exists w', (U ++ [j0]), j1, D'. split_and!; try done. by destruct U.
  - destruct (IH w' (U ++ [j0]) j1 D' Hk H' E) as (w2 & U2 & j2 & D2 & Hg & Hg2 & Ep2 & E2).
    { rewrite zlen_app. change (zlen [j0]) with 1. lia. }
    exists w2, U2, j2, D2. by rewrite Ep2, Ep in *.
Qed.

(** ** Flipping the path *)

(** The path from [j] back to column 0 along [way]. *)
Inductive path (way : list Z) : Z -> list Z -> Prop :=
  | path_end : path way 0 [0]
  | path_step j l : j <> 0 -> path way way .[ j ] l -> path way j (j :: l).

Lemma path_head way j l : path way j l -> exists l', l = j :: l'.
Proof. destruct 1; eauto. Qed.

Lemma path_last way j l : path way j l -> 0 ∈ l.
Proof. induction 1; set_solver. Qed.

(** In a tree whose parents come earlier there is a path, without repetitions. *)
Lemma tree_path way U j :
  NoDup U -> 0 ∈ U ->
  (forall U1 c U2, U = U1 ++ c :: U2 -> c <> 0 -> way .[ c ] ∈ U1) ->
  j ∈ U -> exists l, path way j l /\ NoDup l /\ (forall x, x ∈ l -> x ∈ U).
Proof.
  intros Hnd H0 Htree.
  assert (forall n U1 c U2, length U1 = n -> U = U1 ++ c :: U2 ->
    exists l, path way c l /\ NoDup l /\ (forall x, x ∈ l -> x ∈ U1 ++ [c])) as Hmain.
  2:{ intros Hj. apply list_elem_of_split in Hj as (U1 & U2 & E).
      destruct (Hmain _ U1 j U2 eq_refl E) as (l & Hp & Hl & Hin).
      exists l. split_and!; try done. intros x Hx. rewrite E. specialize (Hin x Hx). set_solver. }
  intros n. induction (lt_wf n) as [n _ IH]. intros U1 c U2 Hn E.
  destruct (decide (c = 0)) as [->|Hc].
  { exists [0]. split_and!; [constructor|apply NoDup_singleton|set_solver]. }
  pose proof (Htree U1 c U2 E Hc) as Hw. apply list_elem_of_split in Hw as (V1 & V2 & EV).
  destruct (IH (length V1) ltac:(subst; rewrite length_app; simpl; lia) V1 way .[ c ] (V2 ++ c :: U2)
    eq_refl) as (l & Hp & Hl & Hin); [rewrite E, EV, <- app_assoc; done|].
  exists (c :: l). split_and!.
  - by constructor.
  - constructor; [|done]. intros Hcl. specialize (Hin c Hcl).
    rewrite E in Hnd. apply NoDup_app in Hnd as (_ & Hd & _). apply (Hd c); [|set_solver].
    rewrite EV. set_solver.
  - intros x [->|Hx]%elem_of_cons; [set_solver|]. specialize (Hin x Hx). rewrite EV. set_solver.
Qed.

(** Two columns of a path with the same parent are the same. *)
Lemma path_way_in way j l c : path way j l -> c ∈ l -> c <> 0 -> way .[ c ] ∈ l.
Proof.
  induction 1 as [|j l Hj Hp IH]; intros Hc Hc0.
  - apply list_elem_of_singleton in Hc. done.
  - apply elem_of_cons in Hc as [->|Hc]; [|right; by apply IH].
    destruct (path_head _ _ _ Hp) as [l' ->]. right. by left.
Qed.

Lemma path_parent way j l x :
  path way j l -> x ∈ l -> x <> j -> exists d, d ∈ l /\ d <> 0 /\ way .[ d ] = x.
Proof.
  induction 1 as [|j l Hj Hp IH]; intros Hx Hne.
  - apply list_elem_of_singleton in Hx. done.
  - apply elem_of_cons in Hx as [->|Hx]; [done|].
    destruct (decide (x = way .[ j ])) as [->|Hxw]; [exists j; split_and!; [by left|done|done]|].
    destruct (IH Hx Hxw) as (d & Hd & Hd0 & Ed). exists d. split_and!; [by right|done|done].
Qed.

Lemma path_inj way j l c c' :
  path way j l -> NoDup l -> c ∈ l -> c' ∈ l -> c <> 0 -> c' <> 0 -> way .[ c ] = way .[ c' ] -> c = c'.
Proof.
  induction 1 as [|j l Hj Hp IH]; intros Hnd Hc Hc' Hc0 Hc0' E.
  { apply list_elem_of_singleton in Hc. done. }
  apply NoDup_cons in Hnd as [Hjl Hnd].
  assert (forall d, d ∈ l -> d <> 0 -> way .[ d ] <> way .[ j ]) as Hfresh.
  { clear -Hp Hnd. destruct (path_head _ _ _ Hp) as [l' El]. remember (way .[ j ]) as h eqn:Eh. clear Eh j.
    intros d Hd Hd0 Ed. revert Hd Ed. induction Hp as [|j l Hj Hp IH] in l', El, Hnd |- *; intros Hd Ed.
    - apply list_elem_of_singleton in Hd. done.
    - apply NoDup_cons in Hnd as [Hjl Hnd]. apply elem_of_cons in Hd as [->|Hd].
      + destruct (path_head _ _ _ Hp) as [l2 ->]. apply Hjl. rewrite Ed. by left.
      + apply Hjl. rewrite <- Ed. by apply (path_way_in way way .[ j ] l d). }
  apply elem_of_cons in Hc as [->|Hc], Hc' as [->|Hc']; [done| | |by apply IH].
  - by destruct (Hfresh c' Hc' Hc0').
  - by destruct (Hfresh c Hc Hc0).
Qed.

(** The flip loop moves every column's row one step along the path. *)
Lemma augment_path way l fuel q j :
  path way j l -> NoDup l -> j <> 0 -> (length l <= S fuel)%nat ->
  (forall x, x ∈ l -> 0 <= x < zlen q) ->
  exists q', augment fuel way q j = Some q' /\ zlen q' = zlen q /\
    forall c, 0 <= c -> q' .[ c ] = if decide (c ∈ l /\ c <> 0) then q .[ way .[ c ] ] else q .[ c ].
Proof.
  intros Hp. revert fuel q. induction Hp as [|j l Hj Hp IH]; intros fuel q Hnd Hj0 Hfuel Hin; [done|].
  apply NoDup_cons in Hnd as [Hjl Hnd]. destruct (path_head _ _ _ Hp) as [l' El].
  destruct fuel as [|fuel]; [subst l; simpl in Hfuel; lia|]. cbn [augment].
  pose proof (Hin j ltac:(by left)) as Hjb.
  destruct (Z.eqb_spec (way .[ j ]) 0) as [E0|E0].
  - eexists. split; [done|]. rewrite zlen_set. split; [done|]. intros c Hc.
    assert (l = [0]) as ->. { rewrite E0 in Hp. inversion Hp; [done|lia]. }
    rewrite get_set by lia. destruct (decide (j = c)) as [<-|Hne].
    + rewrite decide_True by (split; [by left|done]). by rewrite E0.
    + rewrite decide_False; [done|]. intros [[?|?%list_elem_of_singleton]%elem_of_cons ?]; congruence.
  - destruct (IH fuel (q .[ j <- q .[ way .[ j ] ] ]) Hnd E0) as (q' & -> & Lq & Hq').
    { simpl in Hfuel. lia. }
    { intros x Hx. rewrite zlen_set. apply Hin. by right. }
    exists q'. split; [done|]. split; [by rewrite Lq, zlen_set|]. intros c Hc.
    rewrite Hq' by done.
    assert (way .[ j ] ∈ l) as Hwl by (rewrite El; by left).
    destruct (decide (c ∈ l /\ c <> 0)) as [[Hcl Hc0]|Hn].
    + rewrite (decide_True (P := c ∈ j :: l /\ c <> 0)) by (split; [by right|done]).
      pose proof (path_way_in _ _ _ c Hp Hcl Hc0) as Hwc.
      rewrite get_set_ne; [done|lia|apply Hin; by right|]. intros ->. done.
    + destruct (decide (j = c)) as [<-|Hne].
      * rewrite get_set_eq by lia. rewrite decide_True by (split; [by left|done]). done.
      * rewrite get_set_ne by lia. rewrite decide_False; [done|].
        intros [[?|?]%elem_of_cons ?]; [congruence|tauto].
Qed.

(** ** One row *)

Lemma init_spec (minv : list Z) (used : list bool) :
  zlen minv = 12 -> zlen used = 12 ->
  let '(minv0, used0) := for_range 0 (columns + 1) (fun j '(minv, used) =>
    (minv .[ j <- AI_TRACKPAD_COST_MAX ], used .[ j <- false ])) (minv, used) in
  zlen minv0 = 12 /\ zlen used0 = 12 /\
  forall c, 0 <= c <= columns -> minv0 .[ c ] = AI_TRACKPAD_COST_MAX /\ used0 .[ c ] = false.
Proof.
  intros Hm Hu. unfold AI_APPLE_TRACKPAD_MAX_CONTACTS in *.
  set (P := fun (k : Z) (st : list Z * list bool) => let '(minv0, used0) := st in
    zlen minv0 = 12 /\ zlen used0 = 12 /\
    forall c, 0 <= c < k -> minv0 .[ c ] = AI_TRACKPAD_COST_MAX /\ used0 .[ c ] = false).
  match goal with |- let '(_, _) := ?x in _ => assert (P (columns + 1) x) as H end.
  2:{ destruct (for_range _ _ _ _). destruct H as (? & ? & H). split_and!; try done.
      intros. apply H. lia. }
  apply (for_range_inv P); [lia|split_and!; done || lia|].
  intros j [m1 u1] Hj (H1 & H2 & H3). rewrite Z.add_0_l. unfold P. rewrite !zlen_set.
  split_and!; try done. intros c Hc. rewrite !get_set by lia.
  destruct (decide (j = c)); [done|]. apply H3. lia.
Qed.

(** The state the growth starts from. *)
Lemma start_growing k w minv0 used0 :
  0 <= k < rows -> matched k w -> zlen minv0 = 12 -> zlen used0 = 12 ->
  (forall c, 0 <= c <= columns -> minv0 .[ c ] = AI_TRACKPAD_COST_MAX /\ used0 .[ c ] = false) ->
  growing k (w <| p := (p w) .[ 0 <- k + 1 ] |> <| minv := minv0 |> <| used := used0 |>) [] 0 0.
Proof.
  intros Hk [[Zu Zv Zm Zp Zw Zus] Hfeas Htight Hrange Hinj Honto Hv Hfree Hu] Lm Lu Hinit.
  assert (0 <= bound) as Hbnd.
  { pose proof (Hcost 1 1 ltac:(lia) ltac:(lia)). lia. }
  assert (forall c, column c -> ((p w) .[ 0 <- k + 1 ]) .[ c ] = (p w) .[ c ]) as Hp.
  { intros c Hc. unfold column in Hc. by rewrite get_set_ne by lia. }
  assert (forall c, ~ c ∈ @nil Z) as Hnil by (intros c; apply not_elem_of_nil).
  split; cbn.
  - split; cbn; rewrite ?zlen_set; done.
  - split; intros c.
    + intros Hc. rewrite Hp by done. by apply Hrange.
    + intros c' Hc Hc'. rewrite !Hp by done. by apply Hinj.
    + intros Hr. destruct (Honto c Hr) as (c' & Hc' & E). exists c'. by rewrite Hp.
  - by rewrite get_set_eq by lia.
  - exact Hfeas.
  - intros c Hc. rewrite Hp by done. by apply Htight.
  - intros x Hx. destruct (Hinit x Hx) as [_ ->]. split; [done|]. intros H. by apply Hnil in H.
  - constructor.
  - intros x Hx. by apply Hnil in Hx.
  - by left.
  - lia.
  - intros c Hc. specialize (Hv c Hc). lia.
  - intros c Hc. rewrite Hp by done. by apply Hfree.
  - intros r Hr Hlt. apply Hu; [done|lia].
  - apply Hu; [unfold row; lia|lia].
  - intros c Hc _. apply Hinit. unfold column in Hc. lia.
  - done.
  - intros U1 c U2 E. by destruct U1.
Qed.

(** Flipping the path found matches the new row and keeps all the others. *)
Lemma flip_matched k w U j1 D l q' :
  0 <= k < rows -> growing k w U j1 D -> U <> [] -> (p w) .[ j1 ] = 0 ->
  path (way w) j1 l -> NoDup l -> (forall x, x ∈ l -> x ∈ U ++ [j1]) -> zlen q' = zlen (p w) ->
  (forall c, 0 <= c -> q' .[ c ] =
     if decide (c ∈ l /\ c <> 0) then (p w) .[ (way w) .[ c ] ] else (p w) .[ c ]) ->
  matched (k + 1) (w <| p := q' |>).
Proof.
  intros Hk H HU Hj1 Hpath Hnd Hin Lq Hq.
  destruct (t_next _ _ _ _ _ H) as [[? _]|(H0 & Hcj & HjU & Hm0)]; [done|].
  pose proof (t_p0 _ _ _ _ _ H) as Ep0. pose proof (t_match _ _ _ _ _ H) as Hmat.
  assert (j1 <> 0) as Hj0 by (unfold column in Hcj; lia).
  (* a column of the path other than [j1] is in the tree, and so is every parent *)
  assert (forall c, c ∈ l -> c <> j1 -> c ∈ U) as HlU.
  { intros c Hc Hne. specialize (Hin c Hc). apply elem_of_app in Hin as [?|?%list_elem_of_singleton]; done. }
  assert (forall c, c ∈ l -> c <> 0 -> column c /\ (way w) .[ c ] ∈ U /\
    slack w (p w) .[ (way w) .[ c ] ] c = 0) as Hedge.
  { intros c Hc Hc0. destruct (decide (c = j1)) as [->|Hne].
    - split; [done|]. pose proof (t_minv _ _ _ _ _ H j1 Hcj HjU) as Hm.
      rewrite decide_False in Hm by done. destruct Hm as (? & ? & _). split; [done|lia].
    - pose proof (HlU c Hc Hne) as HcU. pose proof (t_in _ _ _ _ _ H c HcU).
      split; [unfold column; lia|]. apply list_elem_of_split in HcU as (U1 & U2 & E).
      destruct (t_tree _ _ _ _ _ H U1 c U2 E Hc0) as [? ?]. split; [|done]. rewrite E. set_solver. }
  assert (forall x, x ∈ U -> 1 <= (p w) .[ x ] <= k + 1 /\ (x = 0 \/ column x /\ (p w) .[ x ] <= k)) as HpU.
  { intros x Hx. destruct (t_in _ _ _ _ _ H x Hx) as [Hb Hne].
    destruct (decide (x = 0)) as [->|]; [split; [lia|by left]|].
    pose proof (g_range _ _ Hmat x ltac:(unfold column; lia)). split; [lia|right].
    split; [unfold column|]; lia. }
  (* the new row of a column: its parent's if it is on the path *)
  assert (forall c, column c -> (c ∈ l /\ q' .[ c ] = (p w) .[ (way w) .[ c ] ]) \/
                                (c ∉ l /\ q' .[ c ] = (p w) .[ c ])) as Hcase.
  { intros c Hc. unfold column in Hc. rewrite Hq by lia.
    destruct (decide (c ∈ l)) as [Hcl|Hcl].
    - left. split; [done|]. by rewrite decide_True by (split; [done|lia]).
    - right. split; [done|]. by rewrite decide_False by tauto. }
  assert (forall x x', x ∈ U -> (x' ∈ U \/ column x' /\ (p w) .[ x' ] <> 0) ->
    (p w) .[ x ] = (p w) .[ x' ] -> x = x') as HinjU.
  { intros x x' Hx Hx' E. destruct (HpU x Hx) as [Hx1 Hx2].
    assert (x' = 0 \/ column x' /\ (p w) .[ x' ] <= k) as Hx3.
    { destruct Hx' as [Hx'|[Hc _]]; [by apply HpU in Hx' as [_ ?]|].
      right. split; [done|]. by apply (g_range _ _ Hmat). }
    destruct Hx2 as [->|[Hcx ?]], Hx3 as [->|[Hcx' ?]]; try lia.
    apply (g_inj _ _ Hmat); [done..|lia]. }
  split; cbn.
  - pose proof (t_sized _ _ _ _ _ H) as []. split; cbn; congruence.
  - exact (t_feasible _ _ _ _ _ H).
  - intros c Hc Hne. change (slack w q' .[ c ] c = 0).
    destruct (Hcase c Hc) as [[Hcl Ec]|[Hcl Ec]]; rewrite Ec in *.
    + apply Hedge; [done|]. unfold column in Hc. lia.
    + by apply (t_tight _ _ _ _ _ H).
  - intros c Hc. destruct (Hcase c Hc) as [[Hcl ->]|[Hcl ->]].
    + destruct (Hedge c Hcl ltac:(unfold column in *; lia)) as (_ & Hw & _). apply HpU in Hw. lia.
    + pose proof (g_range _ _ Hmat c Hc). lia.
  - intros c c' Hc Hc' E Hne.
    assert (c <> 0 /\ c' <> 0) as [Hc0 Hc0'] by (unfold column in *; lia).
    destruct (Hcase c Hc) as [[Hcl Ec]|[Hcl Ec]], (Hcase c' Hc') as [[Hcl' Ec']|[Hcl' Ec']]; rewrite Ec, Ec' in *.
    + destruct (Hedge c Hcl Hc0) as (_ & Hw & _), (Hedge c' Hcl' Hc0') as (_ & Hw' & _).
      apply (path_inj (way w) j1 l); try done. apply HinjU; [done|by left|done].
    + destruct (Hedge c Hcl Hc0) as (_ & Hw & _). destruct Hcl'.
      rewrite <- (HinjU _ c' Hw); [|right; split; [done|congruence]|done].
      by apply (path_way_in (way w) j1 l c).
    + destruct (Hedge c' Hcl' Hc0') as (_ & Hw & _). destruct Hcl.
      rewrite <- (HinjU _ c Hw); [|right; split; done|done].
      by apply (path_way_in (way w) j1 l c').
    + by apply (g_inj _ _ Hmat).
  - intros r Hr. assert (exists x, x ∈ l /\ x <> j1 /\ (p w) .[ x ] = r \/ column x /\ x ∉ l /\ (p w) .[ x ] = r)
      as (x & [(Hx & Hxj & Ex)|(Hx & Hxl & Ex)]).
    { destruct (decide (r = k + 1)) as [->|Hrk].
      - exists 0. left. split; [by apply (path_last (way w) j1)|]. split; [done|done].
      - destruct (g_onto _ _ Hmat r ltac:(lia)) as (c & Hc & Ec). exists c.
        destruct (decide (c ∈ l)); [left|right]; split_and!; try done. intros ->. lia. }
    + destruct (path_parent _ _ _ x Hpath Hx Hxj) as (d & Hd & Hd0 & Ed). exists d.
      destruct (Hedge d Hd Hd0) as (Hdc & _). split; [done|].
      destruct (Hcase d Hdc) as [[_ ->]|[? _]]; [by rewrite Ed|done].
    + exists x. split; [done|]. destruct (Hcase x Hx) as [[? _]|[_ ->]]; done.
  - intros c Hc. pose proof (t_v _ _ _ _ _ H c Hc). pose proof (t_dist _ _ _ _ _ H). lia.
  - intros c Hc E. destruct (Hcase c Hc) as [[Hcl Ec]|[Hcl Ec]]; rewrite Ec in E.
    + destruct (Hedge c Hcl ltac:(unfold column in *; lia)) as (_ & Hw & _). apply HpU in Hw. lia.
    + by apply (t_free _ _ _ _ _ H).
  - intros r Hr Hlt. by apply (t_u _ _ _ _ _ H).
Qed.

Lemma add_row_step k w :
  0 <= k < rows -> matched k w ->
  exists w', add_row cost columns (k + 1) w = Some w' /\ matched (k + 1) w'.
Proof.
  intros Hk H. unfold add_row.
  pose proof (init_spec (minv w) (used w) (z_minv _ (m_sized _ _ H)) (z_used _ (m_sized _ _ H))) as Hinit.
  cbn [set_field minv used].
  destruct (for_range 0 (columns + 1) _ _) as [minv0 used0]. destruct Hinit as (Lm & Lu & Hinit).
  pose proof (start_growing k w minv0 used0 Hk H Lm Lu Hinit) as Hstart.
  set (w1 := w <| p := _ |> <| minv := _ |> <| used := _ |>) in *.
  match goal with |- context [grow _ _ _ ?x 0] => change x with w1 end.
  unfold AI_APPLE_TRACKPAD_MAX_CONTACTS in *.
  destruct (grow_ends k path_fuel w1 [] 0 0 Hk Hstart) as (w2 & U & j1 & D & -> & Hg & Ep & E & HU).
  { rewrite (t_p0 _ _ _ _ _ Hstart). lia. }
  { change (zlen []) with 0. unfold path_fuel. lia. }
  destruct (t_next _ _ _ _ _ Hg) as [[? _]|(H0 & Hcj & HjU & Hm0)]; [done|].
  assert (j1 <> 0) as Hj0 by (unfold column in Hcj; lia).
  destruct (tree_path (way w2) (U ++ [j1]) j1) as (l & Hpath & Hnd & Hin).
  { apply NoDup_app. split; [exact (t_nodup _ _ _ _ _ Hg)|]. split; [|apply NoDup_singleton].
    intros x Hx ->%list_elem_of_singleton. done. }
  { set_solver. }
  { intros U1 c U2 Es Hc0. destruct (list_snoc_cases U2) as [->|(U2' & y & ->)].
    - apply app_inj_tail in Es as [<- <-]. pose proof (t_minv _ _ _ _ _ Hg j1 Hcj HjU) as Hm.
      rewrite decide_False in Hm by done. apply Hm.
    - rewrite app_comm_cons, app_assoc in Es. apply app_inj_tail in Es as [Es _].
      by apply (t_tree _ _ _ _ _ Hg U1 c U2'). }
  { set_solver. }
  assert (forall x, x ∈ l -> 0 <= x <= columns) as Hb.
  { intros x Hx. apply Hin, elem_of_app in Hx as [Hx|Hx%list_elem_of_singleton].
    - by apply (t_in _ _ _ _ _ Hg).
    - subst x. unfold column in Hcj. lia. }
  destruct (augment_path (way w2) l path_fuel (p w2) j1 Hpath Hnd Hj0) as (q' & -> & Lq & Hq).
  { assert (l ⊆+ seqZ 0 (columns + 1)) as Hsub.
    { apply NoDup_submseteq; [done|]. intros x Hx. apply elem_of_seqZ. specialize (Hb x Hx). lia. }
    apply submseteq_length in Hsub. rewrite length_seqZ in Hsub. unfold path_fuel. lia. }
  { intros x Hx. rewrite (z_p _ (t_sized _ _ _ _ _ Hg)). specialize (Hb x Hx). lia. }
  eexists. split; [done|]. by apply (flip_matched k w2 U j1 D l q').
Qed.

(** ** All the rows *)

Lemma matched_zero : matched 0 work_zero.
Proof.
  assert (forall c, (replicate 12 0) .[ c ] = 0) as Hz.
  { intros c. unfold arr_get. rewrite list_lookup_total_alt.
    destruct (replicate 12 0 !! _) as [x|] eqn:E; [|done]. by apply lookup_replicate in E as [-> _]. }
  assert (forall c, (p work_zero) .[ c ] = 0 /\ (u work_zero) .[ c ] = 0 /\ (v work_zero) .[ c ] = 0) as H0.
  { intros c. by rewrite !Hz. }
  split; [split; done|..].
  - intros r c Hr Hc. unfold slack. destruct (H0 r) as (_ & -> & _), (H0 c) as (_ & _ & ->).
    pose proof (Hcost r c Hr Hc). lia.
  - intros c _ Hne. by destruct (H0 c).
  - intros c _. destruct (H0 c) as (-> & _). lia.
  - intros c c' _ _ _ Hne. by destruct (H0 c).
  - lia.
  - intros c _. destruct (H0 c) as (_ & _ & ->). lia.
  - intros c _ _. by destruct (H0 c) as (_ & _ & ->).
  - intros r _ _. by destruct (H0 r) as (_ & -> & _).
Qed.

Lemma hungarian_matched : exists w, hungarian cost columns rows = Some (p w) /\ matched rows w.
Proof.
  set (P := fun (k : Z) (w : option work) => k <= rows -> exists w', w = Some w' /\ matched k w').
  assert (P rows (for_range 1 rows (fun i w => w ← w; add_row cost columns i w) (Some work_zero))) as H.
  2:{ destruct (H ltac:(lia)) as (w & E & Hm). exists w. unfold hungarian. by rewrite E. }
  apply (for_range_inv P); [lia| |].
  - intros _. exists work_zero. split; [done|exact matched_zero].
  - intros i w Hi HP Hle. destruct (HP ltac:(lia)) as (w' & -> & Hm). cbn [mbind option_bind].
    rewrite (Z.add_comm 1 i). by apply add_row_step.
Qed.

(** An assignment gives every row, in order, a column of its own; its price is the sum
    of the costs. *)
Record assignment (cs : list Z) : Prop := {
  a_length : zlen cs = rows;
  a_nodup : NoDup cs;
  a_columns : Forall column cs;
}.

Definition price (cs : list Z) : Z := sum (zip_with at_ (seqZ 1 rows) cs).

(** The potentials bound every price from below, exactly on a tight assignment. *)
Lemma price_slack w cs rs :
  length rs = length cs ->
  sum (zip_with at_ rs cs) =
  sum ((fun r => (u w) .[ r ]) <$> rs) + sum ((fun c => (v w) .[ c ]) <$> cs) +
  sum (zip_with (slack w) rs cs).
Proof.
  revert cs. induction rs as [|r rs IH]; intros [|c cs] Hl; try done.
  cbn [zip_with]. rewrite !fmap_cons, !sum_cons, IH by (simpl in Hl; lia). unfold slack. lia.
Qed.

Lemma rest_of cs :
  assignment cs ->
  exists rest, seqZ 1 columns ≡ₚ cs ++ rest /\ forall c, c ∈ rest <-> column c /\ c ∉ cs.
Proof.
  intros [_ Hnd Hc]. rewrite Forall_forall in Hc.
  assert (cs ⊆+ seqZ 1 columns) as Hsub.
  { apply NoDup_submseteq; [done|]. intros c Hin. apply elem_of_seqZ. specialize (Hc c Hin).
    unfold column in Hc. lia. }
  apply submseteq_Permutation in Hsub as (rest & Hperm). exists rest. split; [done|].
  assert (NoDup (cs ++ rest)) as Hall by (rewrite <- Hperm; apply NoDup_seqZ).
  apply NoDup_app in Hall as (_ & Hdis & _). intros c.
  assert (c ∈ seqZ 1 columns <-> c ∈ cs ++ rest) as Hiff by by rewrite Hperm.
  rewrite elem_of_seqZ, elem_of_app in Hiff. unfold column. split.
  - intros Hr. assert (1 <= c < 1 + columns) by (apply Hiff; by right).
    split; [lia|]. intros Hin. by destruct (Hdis c Hin).
  - intros [Hcol Hn]. assert (c ∈ cs \/ c ∈ rest) as [?|?] by (apply Hiff; lia); done.
Qed.

Lemma price_bound w cs cs' :
  matched rows w -> assignment cs -> assignment cs' ->
  (forall c, column c -> c ∉ cs -> (p w) .[ c ] = 0) ->
  Forall (fun x => x = 0) (zip_with (slack w) (seqZ 1 rows) cs) ->
  price cs <= price cs'.
Proof.
  intros Hm Hcs Hcs' Hfree Htight.
  assert (forall l, assignment l -> length (seqZ 1 rows) = length l) as Hlen.
  { intros l [Hl _ _]. rewrite length_seqZ. unfold zlen in Hl. lia. }
  unfold price. rewrite !(price_slack w) by by apply Hlen.
  assert (0 <= sum (zip_with (slack w) (seqZ 1 rows) cs')) as Hge.
  { pose proof (a_columns _ Hcs') as Hcol. clear -Hm Hcol.
    assert (Forall row (seqZ 1 rows)) as Hrow.
    { apply Forall_forall. intros r Hr. apply elem_of_seqZ in Hr. unfold row. lia. }
    revert cs' Hcol. induction Hrow as [|r rs Hr _ IH]; intros cs'; [done|].
    destruct cs' as [|c cs']; [done|]. intros [Hc Hcol]%Forall_cons. simpl.
    pose proof (m_feasible _ _ Hm r c Hr Hc). specialize (IH cs' Hcol). lia. }
  assert (sum (zip_with (slack w) (seqZ 1 rows) cs) = 0) as -> by by apply sum_zero.
  destruct (rest_of cs Hcs) as (rest & Hperm & Hrest), (rest_of cs' Hcs') as (rest' & Hperm' & Hrest').
  assert (sum ((fun c => (v w) .[ c ]) <$> cs ++ rest) = sum ((fun c => (v w) .[ c ]) <$> cs' ++ rest')) as E.
  { by rewrite <- Hperm, <- Hperm'. }
  rewrite !fmap_app, !sum_app in E.
  assert (sum ((fun c => (v w) .[ c ]) <$> rest) = 0) as E0.
  { apply sum_zero. apply Forall_fmap, Forall_forall. intros c [Hc Hn]%Hrest.
    apply (m_free _ _ Hm); [done|by apply Hfree]. }
  assert (sum ((fun c => (v w) .[ c ]) <$> rest') <= 0) as Hle.
  { apply sum_nonpos. apply Forall_fmap, Forall_forall. intros c [Hc _]%Hrest'.
    by apply (m_v _ _ Hm). }
  lia.
Qed.

(** The columns of the rows [1], ..., [rows], read off [p]. *)
Definition columns_of (q : list Z) : list Z :=
  (fun r => default 0 (find_range 1 columns (fun c => q .[ c ] =? r))) <$> seqZ 1 rows.

Lemma columns_of_spec w r :
  matched rows w -> row r ->
  exists c, find_range 1 columns (fun c => (p w) .[ c ] =? r) = Some c /\ column c /\ (p w) .[ c ] = r.
Proof.
  intros Hm Hr. destruct (m_onto _ _ Hm r Hr) as (c & Hc & E).
  destruct (find_range 1 columns _) as [c'|] eqn:Hf.
  - apply find_range_Some in Hf as (Hb & Hq & _). apply Z.eqb_eq in Hq.
    exists c'. split_and!; [done|unfold column; lia..].
  - rewrite find_range_None in Hf. specialize (Hf c ltac:(unfold column in Hc; lia)).
    apply Z.eqb_neq in Hf. done.
Qed.

(** Both loops end, every row gets a column of its own, no assignment is cheaper. *)
Lemma hungarian_optimal :
  exists q cs, hungarian cost columns rows = Some q /\ assignment cs /\
    (forall c, column c -> 0 <= q .[ c ] <= rows) /\
    (forall r c, row r -> column c -> (q .[ c ] = r <-> cs !! Z.to_nat (r - 1) = Some c)) /\
    (forall cs', assignment cs' -> price cs <= price cs').
Proof.
  destruct hungarian_matched as (w & E & Hm). exists (p w), (columns_of (p w)).
  assert (forall r c, row r -> column c ->
    ((p w) .[ c ] = r <-> columns_of (p w) !! Z.to_nat (r - 1) = Some c)) as Hcs.
  { intros r c Hr Hc. unfold columns_of. rewrite list_lookup_fmap.
    rewrite lookup_seqZ_lt by (unfold row in Hr; lia).
    replace (1 + Z.of_nat (Z.to_nat (r - 1))) with r by (unfold row in Hr; lia). cbn [fmap option_fmap option_map].
    destruct (columns_of_spec w r Hm Hr) as (c' & -> & Hc' & E'). cbn [default]. unfold id. split.
    - intros <-. f_equal. apply (m_inj _ _ Hm); [done..|]. rewrite E'. unfold row in Hr. lia.
    - by intros [= <-]. }
  assert (forall r, row r -> exists c, column c /\ columns_of (p w) !! Z.to_nat (r - 1) = Some c) as Hsome.
  { intros r Hr. destruct (m_onto _ _ Hm r Hr) as (c & Hc & Ec). exists c. split; [done|by apply Hcs]. }
  assert (length (columns_of (p w)) = Z.to_nat rows) as Hlen.
  { unfold columns_of. by rewrite length_fmap, length_seqZ. }
  assert (forall i c, columns_of (p w) !! i = Some c ->
    row (Z.of_nat i + 1) /\ column c /\ (p w) .[ c ] = Z.of_nat i + 1) as Hat.
  { intros i c Hi. pose proof (lookup_lt_Some _ _ _ Hi) as Hlt.
    assert (row (Z.of_nat i + 1)) as Hr by (unfold row; lia).
    destruct (Hsome _ Hr) as (c' & Hc' & Hi'). pose proof (Hcs _ c' Hr Hc') as Hiff.
    replace (Z.to_nat (Z.of_nat i + 1 - 1)) with i in * by lia.
    assert (c' = c) as -> by congruence. split_and!; try done. by apply Hiff. }
  assert (assignment (columns_of (p w))) as Ha.
  { split.
    - unfold zlen. lia.
    - apply NoDup_alt. intros i j c Hi Hj. apply Hat in Hi as (_ & _ & Ei), Hj as (_ & _ & Ej). lia.
    - apply Forall_lookup. intros i c Hi. by apply Hat in Hi as (_ & ? & _). }
  split_and!; try done; [exact (m_range _ _ Hm)|]. intros cs' Hcs'.
  apply (price_bound w); try done.
  - intros c Hc Hn. pose proof (m_range _ _ Hm c Hc) as Hr. destruct (decide ((p w) .[ c ] = 0)); [done|].
    destruct Hn. apply (list_elem_of_lookup_2 _ (Z.to_nat ((p w) .[ c ] - 1))). apply Hcs; [|done..].
    unfold row. lia.
  - apply Forall_lookup. intros i x Hi. apply lookup_zip_with_Some in Hi as (r & c & -> & Hr & Hc).
    apply lookup_seqZ in Hr as [-> _]. apply Hat in Hc as (Hrow & Hcol & Ep).
    rewrite <- (m_tight _ _ Hm c Hcol) by (unfold row in Hrow; lia). f_equal. lia.
Qed.

(** The same, as a set of (row, column) pairs counted from 0. *)
Record pairing (m : list (Z * Z)) : Prop := {
  q_length : zlen m = rows;
  q_rows : NoDup m.*1;
  q_columns : NoDup m.*2;
  q_range : Forall (fun '(r, c) => 0 <= r < rows /\ 0 <= c < columns) m;
}.

Definition total (m : list (Z * Z)) : Z := sum ((fun '(r, c) => cost .[ r ] .[ c ]) <$> m).

#[local] Instance pred_inj : Inj (=) (=) Z.pred.
Proof. intros x y. lia. Qed.
#[local] Instance succ_inj : Inj (=) (=) Z.succ.
Proof. intros x y. lia. Qed.

Definition pairs_of (cs : list Z) : list (Z * Z) := zip (seqZ 0 rows) (Z.pred <$> cs).

Lemma pairs_of_total cs : assignment cs -> total (pairs_of cs) = price cs.
Proof.
  intros [Hl _ _]. assert (length cs = Z.to_nat rows) as Hlen by (unfold zlen in Hl; lia).
  unfold price, pairs_of, total. clear -Hlen. rewrite <- (length_seqZ 0) in Hlen.
  replace (seqZ 1 rows) with (Z.add 1 <$> seqZ 0 rows) by by rewrite fmap_add_seqZ.
  revert cs Hlen. induction (seqZ 0 rows) as [|r rs IH]; intros [|c cs] Hlen; try done.
  cbn [zip zip_with fmap list_fmap]. rewrite sum_cons, sum_cons. f_equal; [|apply IH; simpl in Hlen; lia].
  unfold at_. rewrite !(Z.add_comm 1), Z.add_simpl_r. by rewrite Z.sub_1_r.
Qed.

Lemma pairs_of_pairing cs : assignment cs -> pairing (pairs_of cs).
Proof.
  intros [Hl Hnd Hcol]. assert (length (seqZ 0 rows) = length (Z.pred <$> cs)) as Hlen.
  { rewrite length_fmap, length_seqZ. unfold zlen in Hl. lia. }
  split.
  - unfold zlen, pairs_of. rewrite length_zip_with, <- Hlen, length_seqZ. lia.
  - unfold pairs_of. rewrite fst_zip by lia. apply NoDup_seqZ.
  - unfold pairs_of. rewrite snd_zip by lia. apply NoDup_fmap_2; [apply _|]. done.
  - apply Forall_forall. intros [r c] Hin. unfold pairs_of in Hin. pose proof (elem_of_zip_r _ _ _ _ Hin) as Hc. apply elem_of_zip_l, elem_of_seqZ in Hin as Hr.
    apply list_elem_of_fmap in Hc as (c' & -> & Hc).
    rewrite Forall_forall in Hcol. specialize (Hcol c' Hc). unfold column in Hcol. lia.
Qed.

(** Every pairing is [pairs_of] some assignment, up to the order. *)
Lemma pairing_inv m : pairing m -> exists cs, assignment cs /\ m ≡ₚ pairs_of cs.
Proof.
  intros [Hl Hr Hc Hrange].
  assert (m.*1 ≡ₚ seqZ 0 rows) as Hperm.
  { apply submseteq_length_Permutation; [apply NoDup_submseteq; [done|]|].
    2:{ rewrite length_fmap, length_seqZ. unfold zlen in Hl. lia. }
    intros r Hin. apply list_elem_of_fmap in Hin as ([r' c] & -> & Hin).
      rewrite Forall_forall in Hrange. specialize (Hrange _ Hin). apply elem_of_seqZ. simpl in *. lia. }
  symmetry in Hperm. apply Permutation_map_inv in Hperm as (m' & E & Hperm).
  exists (Z.succ <$> m'.*2).
  assert (pairs_of (Z.succ <$> m'.*2) = m') as Em.
  { unfold pairs_of. rewrite E, <- list_fmap_compose.
    rewrite (list_fmap_ext _ id) by (intros; simpl; lia). rewrite list_fmap_id. apply zip_fst_snd. }
  split; [|by rewrite Em].
  assert (m'.*2 ≡ₚ m.*2) as Hp2 by by rewrite Hperm.
  split.
  - unfold zlen in *. by rewrite !length_fmap, <- Hperm.
  - apply NoDup_fmap_2; [apply _|]. by rewrite Hp2.
  - apply Forall_fmap, Forall_forall. intros c Hin. rewrite Hp2 in Hin.
    apply list_elem_of_fmap in Hin as ([r c'] & -> & Hin).
    rewrite Forall_forall in Hrange. specialize (Hrange _ Hin). unfold column. simpl in *. lia.
Qed.

(** The result the tracker uses. *)
Lemma hungarian_pairs :
  exists q m, hungarian cost columns rows = Some q /\ pairing m /\
    (forall c, column c -> 0 <= q .[ c ] <= rows) /\
    (forall c c', column c -> column c' -> q .[ c ] = q .[ c' ] -> q .[ c ] <> 0 -> c = c') /\
    (forall r, 0 <= r < rows -> exists c, 0 <= c < columns /\ q .[ c + 1 ] = r + 1) /\
    (forall r c, (r, c) ∈ m <-> 0 <= r < rows /\ 0 <= c < columns /\ q .[ c + 1 ] = r + 1) /\
    (forall m', pairing m' -> total m <= total m').
Proof.
  destruct hungarian_optimal as (q & cs & E & Ha & Hq & Hlink & Hmin).
  exists q, (pairs_of cs). pose proof (pairs_of_pairing cs Ha) as Hpair.
  assert (forall r, 0 <= r < rows -> exists c, cs !! Z.to_nat r = Some c /\ column c) as Hsome.
  { intros r Hr. destruct (cs !! Z.to_nat r) as [c|] eqn:Ec.
    - exists c. split; [done|]. by eapply Forall_lookup_1 in Ec; [|exact (a_columns _ Ha)].
    - apply lookup_ge_None in Ec. pose proof (a_length _ Ha). unfold zlen in *. lia. }
  split; [done|]. split; [done|]. split; [done|]. split_and!.
  - intros c c' Hc Hc' Eq Hne. pose proof (Hq c Hc). assert (row q .[ c ]) as Hr by (unfold row; lia).
    pose proof (proj1 (Hlink _ c Hr Hc) eq_refl) as E1.
    pose proof (proj1 (Hlink _ c' Hr Hc') (eq_sym Eq)) as E2. congruence.
  - intros r Hr. destruct (Hsome r Hr) as (c & Hcs & Hc). exists (c - 1).
    split; [unfold column in Hc; lia|]. rewrite Z.sub_add. apply Hlink; [unfold row; lia|done|].
    by rewrite Z.add_simpl_r.
  - intros r c. transitivity (0 <= r < rows /\ 0 <= c < columns /\ cs !! Z.to_nat r = Some (c + 1)).
    + split.
      * intros Hin. pose proof (q_range _ Hpair) as Hr. rewrite Forall_forall in Hr.
        specialize (Hr _ Hin). simpl in Hr. split; [lia|]. split; [lia|].
        apply list_elem_of_lookup in Hin as (i & Hi).
        apply lookup_zip_with_Some in Hi as (r' & c' & [= <- <-] & Hr' & Hc').
        apply lookup_seqZ in Hr' as [-> Hlt]. rewrite list_lookup_fmap in Hc'.
        destruct (cs !! i) as [x|] eqn:Ex; simplify_eq/=. rewrite ?Z.add_0_l, Nat2Z.id, Ex. f_equal. lia.
      * intros (Hr & Hc & Hcs). apply list_elem_of_lookup. exists (Z.to_nat r).
        apply lookup_zip_with_Some. exists r, c. split; [done|]. split.
        -- rewrite lookup_seqZ_lt by lia. f_equal. lia.
        -- rewrite list_lookup_fmap, Hcs. simpl. f_equal. lia.
    + split; intros (Hr & Hc & H); (split; [done|]; split; [done|]).
      * apply Hlink; [unfold row, column; lia..|]. by replace (r + 1 - 1) with r by lia.
      * apply Hlink in H; [|unfold row, column; lia..]. by replace (r + 1 - 1) with r in H by lia.
  - intros m' Hm'. destruct (pairing_inv m' Hm') as (cs' & Hcs' & Hperm).
    rewrite (pairs_of_total cs Ha). unfold total. rewrite Hperm. fold (total (pairs_of cs')).
    rewrite (pairs_of_total cs' Hcs'). by apply Hmin.
Qed.
End correctness.
End Assign.
