(* ===== verification/TrackpadFrame.v ===== *)
(** * Contact frames and their assignment to known fingers
    (apple-input/protocol/src/apple_trackpad_frame.c)

    [Frame] decodes a multitouch report into the contacts that touch the pad and matches
    them to the fingers already tracked, with the algorithm of [Assign] on the squared
    distances.  The theorems: the decoder accepts exactly the well-formed reports and
    keeps exactly the touching contacts, in order; a report is a release candidate
    exactly when a contact has lifted; the match pairs as many contacts as it can and no
    other such match moves the fingers less. *)

From S2P Require Import Prelude Arrays Bytes SpiHid Trackpad PrecisionTouchpad Assignment.

Module Frame.
Import Hid Axis Ptp Assign.

Definition AI_APPLE_TRACKPAD_HEADER_SIZE : Z := 48.
Definition AI_APPLE_TRACKPAD_CONTACT_STRIDE : Z := 30.
Definition AI_APPLE_TRACKPAD_CONTACT_COUNT_OFFSET : Z := 30.
Definition AI_APPLE_TRACKPAD_TOUCH_MAJOR_OFFSET : Z := 16.

(** ** Data *)

Record ai_apple_trackpad_contact := {
  c_x : Z;
  c_y : Z;
}.
#[export] Instance contact_eta : Eta ai_apple_trackpad_contact :=
  fun c => Build_ai_apple_trackpad_contact (c_x c) (c_y c).
#[export] Instance contact_inhabited : Inhabited ai_apple_trackpad_contact :=
  populate (Build_ai_apple_trackpad_contact 0 0).

Record ai_apple_trackpad_frame := {
  button : bool;
  count : Z;
  contacts : list ai_apple_trackpad_contact;
}.
#[export] Instance frame_eta : Eta ai_apple_trackpad_frame :=
  fun f => Build_ai_apple_trackpad_frame (button f) (count f) (contacts f).

Record ai_trackpad_physical_slot := {
  active : bool;
  admitted : bool;
  windows_id : Z;
  s_x : Z;
  s_y : Z;
}.
#[export] Instance slot_eta : Eta ai_trackpad_physical_slot :=
  fun s => Build_ai_trackpad_physical_slot (active s) (admitted s) (windows_id s) (s_x s) (s_y s).
#[export] Instance slot_inhabited : Inhabited ai_trackpad_physical_slot :=
  populate (Build_ai_trackpad_physical_slot false false 0 0 0).

Record ai_trackpad_tracker := {
  slots : list ai_trackpad_physical_slot;
}.
#[export] Instance tracker_eta : Eta ai_trackpad_tracker :=
  fun t => Build_ai_trackpad_tracker (slots t).

Definition frame_zero : ai_apple_trackpad_frame :=
  Build_ai_apple_trackpad_frame false 0 (replicate 11 inhabitant).

(** ** Decoding *)

Definition get_le16 (bytes : list Z) (at_ : Z) : Z :=
  Z.lor bytes .[ at_ ] (u16 (Z.shiftl bytes .[ at_ + 1 ] 8)).

Definition get_le_i16 (bytes : list Z) (at_ : Z) : Z :=
  let value := get_le16 bytes at_ in
  if negb (Z.land value 0x8000 =? 0) then value - 0x10000 else value.

Definition ai_apple_trackpad_release_candidate (report : ptr (list Z)) (length : Z) : bool :=
  deref r := report else false in
  if length <? AI_APPLE_TRACKPAD_HEADER_SIZE - 2 then false
  else
    let contact_count := r .[ AI_APPLE_TRACKPAD_CONTACT_COUNT_OFFSET ] in
    if AI_APPLE_TRACKPAD_MAX_CONTACTS <? contact_count then false
    else
      let expected_length := AI_APPLE_TRACKPAD_HEADER_SIZE - 2 +
        contact_count * AI_APPLE_TRACKPAD_CONTACT_STRIDE in
      if negb (length =? expected_length) then false
      else if contact_count =? 0 then true
      else
        match find_range 0 contact_count (fun index =>
          let touch_major := AI_APPLE_TRACKPAD_HEADER_SIZE + index * AI_APPLE_TRACKPAD_CONTACT_STRIDE +
            AI_APPLE_TRACKPAD_TOUCH_MAJOR_OFFSET in
          get_le16 r touch_major =? 0) with
        | Some _ => true
        | None => false
        end.

(** One round of the decoder's loop; [contact] is an offset into the report. *)
Definition decode_contact (r : list Z) (index : Z) (out : ai_apple_trackpad_frame)
    : ai_apple_trackpad_frame :=
  let contact := AI_APPLE_TRACKPAD_HEADER_SIZE + index * AI_APPLE_TRACKPAD_CONTACT_STRIDE in
  if get_le16 r (contact + AI_APPLE_TRACKPAD_TOUCH_MAJOR_OFFSET) =? 0 then out
  else
    let c := (contacts out) .[ count out ] in
    let c := c <| c_x := get_le_i16 r (contact + 2) |> in
    let c := c <| c_y := get_le_i16 r (contact + 4) |> in
    out <| contacts := (contacts out) .[ count out <- c ] |> <| count := u8 (count out + 1) |>.

Definition ai_apple_trackpad_decode (report : ptr (list Z)) (length : Z)
    (out : ptr ai_apple_trackpad_frame) : ai_status * ptr ai_apple_trackpad_frame :=
  deref r := report else (AI_ERR_ARGUMENT, out) in
  deref _o := out else (AI_ERR_ARGUMENT, out) in
  let o := frame_zero in
  if length <? AI_APPLE_TRACKPAD_HEADER_SIZE - 2 then (AI_ERR_LENGTH, Some o)
  else
    let wire_count := r .[ AI_APPLE_TRACKPAD_CONTACT_COUNT_OFFSET ] in
    if AI_APPLE_TRACKPAD_MAX_CONTACTS <? wire_count then (AI_ERR_LENGTH, Some o)
    else
      let expected_length := AI_APPLE_TRACKPAD_HEADER_SIZE - 2 +
        wire_count * AI_APPLE_TRACKPAD_CONTACT_STRIDE in
      if negb (length =? expected_length) then (AI_ERR_LENGTH, Some o)
      else if negb (r .[ 1 ] =? r .[ 31 ]) || (1 <? r .[ 1 ]) then (AI_ERR_PROTOCOL, Some o)
      else
        let o := o <| button := negb (r .[ 1 ] =? 0) |> in
        (AI_OK, Some (for_range 0 wire_count (decode_contact r) o)).

(** ** Assignment *)

Definition coordinate_cost (slot : ai_trackpad_physical_slot) (contact : ai_apple_trackpad_contact) : Z :=
  let dx := s_x slot - c_x contact in
  let dy := s_y slot - c_y contact in
  let ax := if dx <? 0 then u64 (- dx) else u64 dx in
  let ay := if dy <? 0 then u64 (- dy) else u64 dy in
  let x2 := u64 (ax * ax) in
  let y2 := u64 (ay * ay) in
  if (AI_TRACKPAD_COST_MAX <? x2) || (u64 (AI_TRACKPAD_COST_MAX - x2) <? y2)
  then AI_TRACKPAD_COST_MAX
  else u64 (x2 + y2).

(** The conversion to [int8_t]. *)
Definition s8 (v : Z) : Z := let v := u8 v in if v <? 2 ^ 7 then v else v - 2 ^ 8.

(** The cost matrix of the first loop nest, from uninitialised storage. *)
Definition fill_costs (tracker : ai_trackpad_tracker) (frame : ai_apple_trackpad_frame)
    (old_slots : list Z) (rows_are_old : bool) (rows columns : Z) : list (list Z) :=
  for_range 0 rows (fun i cost => for_range 0 columns (fun j cost =>
    let old_index := if rows_are_old then i else j in
    let new_index := if rows_are_old then j else i in
    cost .[ i <- cost .[ i ] .[ j <-
      coordinate_cost (slots tracker) .[ old_slots .[ old_index ] ] (contacts frame) .[ new_index ] ] ])
    cost) (replicate 11 (replicate 11 0)).

(** One round of the last loop: publish the row of column [j]. *)
Definition publish_match (rows_are_old : bool) (p : list Z) (j : Z) (st : list Z * list Z)
    : list Z * list Z :=
  let '(old_to_new, new_to_old) := st in
  if p .[ j ] =? 0 then st
  else
    let row := p .[ j ] - 1 in
    let old_index := if rows_are_old then row else j - 1 in
    let new_index := if rows_are_old then j - 1 else row in
    (old_to_new .[ old_index <- s8 new_index ], new_to_old .[ new_index <- s8 old_index ]).

(** [None] is a loop of [Assign.hungarian] that does not end. *)
Definition minimum_assignment (tracker : ai_trackpad_tracker) (frame : ai_apple_trackpad_frame)
    (old_slots : list Z) (old_count : Z) (old_to_new new_to_old : list Z) : option (list Z * list Z) :=
  let rows_are_old := old_count <=? count frame in
  let rows := if rows_are_old then old_count else count frame in
  let columns := if rows_are_old then count frame else old_count in
  let cost := fill_costs tracker frame old_slots rows_are_old rows columns in
  p ← hungarian cost columns rows;
  Some (for_range 1 columns (publish_match rows_are_old p) (old_to_new, new_to_old)).

(** ** What a report means *)

(** The report a frame can be read from: the length its contact count announces, and
    both copies of the button byte. *)
Definition well_formed (r : list Z) : Prop :=
  46 <= zlen r /\ r .[ 30 ] <= 11 /\ zlen r = 46 + 30 * r .[ 30 ] /\
  r .[ 1 ] = r .[ 31 ] /\ r .[ 1 ] <= 1.
#[export] Instance well_formed_dec r : Decision (well_formed r).
Proof. unfold well_formed. apply _. Defined.

(** A little-endian 16-bit field, as two's complement. *)
Definition signed16 (w : Z) : Z := (w + 2 ^ 15) mod 2 ^ 16 - 2 ^ 15.

Definition contact_at (r : list Z) (i : Z) : ai_apple_trackpad_contact :=
  {| c_x := signed16 (get_u16 r (48 + 30 * i + 2)); c_y := signed16 (get_u16 r (48 + 30 * i + 4)) |}.

(** The contacts whose touch-major axis is not zero, in order. *)
Definition touched (r : list Z) (n : Z) : list Z :=
  filter (fun i => get_u16 r (48 + 30 * i + 16) <> 0) (seqZ 0 n).

Definition frame_of (r : list Z) : ai_apple_trackpad_frame :=
  let l := touched r r .[ 30 ] in
  {| button := bool_decide (r .[ 1 ] = 1);
     count := zlen l;
     contacts := (contact_at r <$> l) ++ replicate (11 - length l) inhabitant |}.

(** ** The decoder *)

Lemma frame_le16 r at_ : is_bytes r -> 0 <= at_ -> at_ + 2 <= zlen r -> get_le16 r at_ = get_u16 r at_.
Proof. apply get_le16_bytes. Qed.

Lemma get_le_i16_signed r at_ :
  is_bytes r -> 0 <= at_ -> at_ + 2 <= zlen r -> get_le_i16 r at_ = signed16 (get_u16 r at_).
Proof.
  intros Hr H0 H2. unfold get_le_i16. rewrite frame_le16 by done.
  pose proof (get_u16_fits r at_ Hr ltac:(lia) ltac:(lia)) as Hf.
  change 0x8000 with (Z.shiftl 1 15). rewrite land_bit by done.
  rewrite Z.testbit_odd, Z.shiftr_div_pow2 by done. unfold signed16, fits in *.
  change (2 ^ 16) with 65536 in *. change (2 ^ 15) with 32768 in *.
  destruct (Z.lt_ge_cases (get_u16 r at_) 32768).
  - rewrite Z.div_small by lia. cbn. rewrite Z.mod_small; lia.
  - replace (get_u16 r at_ / 32768) with 1 by (Z.to_euclidean_division_equations; lia). cbn.
    Z.to_euclidean_division_equations; lia.
Qed.

Lemma signed16_range w : is_s16 (signed16 w).
Proof. unfold is_s16, signed16. word_lia. Qed.

Lemma touched_snoc r k :
  0 <= k ->
  touched r (k + 1) = touched r k ++ (if decide (get_u16 r (48 + 30 * k + 16) <> 0) then [k] else []).
Proof.
  intros Hk. unfold touched. by rewrite seqZ_app, filter_app by lia.
Qed.

Lemma touched_length r k : 0 <= k -> (length (touched r k) <= Z.to_nat k)%nat.
Proof.
  intros Hk. unfold touched.
  etrans; [apply length_filter|]. by rewrite length_seqZ.
Qed.

Lemma decode_loop r o :
  is_bytes r -> well_formed r -> contacts o = replicate 11 inhabitant -> count o = 0 ->
  for_range 0 r .[ 30 ] (decode_contact r) o =
  o <| count := zlen (touched r r .[ 30 ]) |>
    <| contacts := (contact_at r <$> touched r r .[ 30 ]) ++
                   replicate (11 - length (touched r r .[ 30 ])) inhabitant |>.
Proof.
  intros Hr (H46 & Hn & Hl & _) Ec E0.
  pose proof (arr_get_Forall _ r 30 Hr ltac:(lia)) as [Hn0 _].
  refine (for_range_inv (fun k o' => o' = o <| count := zlen (touched r k) |>
    <| contacts := (contact_at r <$> touched r k) ++ replicate (11 - length (touched r k)) inhabitant |>)
    0 _ _ o _ _ _); [done| |].
  { destruct o; cbn in *. by subst. }
  intros k o' Hk ->. rewrite Z.add_0_l. unfold decode_contact.
  unfold AI_APPLE_TRACKPAD_HEADER_SIZE, AI_APPLE_TRACKPAD_CONTACT_STRIDE, AI_APPLE_TRACKPAD_TOUCH_MAJOR_OFFSET.
  rewrite frame_le16, !get_le_i16_signed by (done || lia).
  replace (48 + k * 30) with (48 + 30 * k) by lia. rewrite touched_snoc by lia.
  pose proof (touched_length r k ltac:(lia)) as Hlen.
  destruct (Z.eqb_spec (get_u16 r (48 + 30 * k + 16)) 0) as [Ez|Ez].
  { rewrite decide_False by lia. by rewrite app_nil_r. }
  rewrite decide_True by done. cbn [set_field eta_expand frame_eta button count contacts contact_eta c_x c_y].
  f_equal.
  - unfold zlen. rewrite length_app. simpl. rewrite wrap_id; [lia|]. split; [lia|].
    change (2 ^ 8) with 256. lia.
  - unfold arr_set, zlen. rewrite Nat2Z.id.
    replace (11 - length (touched r k))%nat with (S (10 - length (touched r k))) by lia.
    rewrite replicate_S, insert_app_r_alt, length_fmap, Nat.sub_diag by (rewrite length_fmap; lia).
    simpl. rewrite fmap_app, length_app, <- app_assoc. simpl. unfold contact_at at 2.
    by replace (11 - (length (touched r k) + 1))%nat with (10 - length (touched r k))%nat by lia.
Qed.

Lemma arr_get_byte r i : is_bytes r -> is_u8 r .[ i ] .
Proof.
  intros Hr. unfold arr_get. rewrite list_lookup_total_alt.
  destruct (r !! Z.to_nat i) as [x|] eqn:E; [|done]. by eapply Forall_lookup_1 in E.
Qed.

Lemma decode_accepts r out :
  is_bytes r -> well_formed r ->
  ai_apple_trackpad_decode (Some r) (zlen r) (Some out) = (AI_OK, Some (frame_of r)).
Proof.
  intros Hr Hwf. pose proof Hwf as (H46 & Hn & Hl & Eb & Hb).
  unfold ai_apple_trackpad_decode, AI_APPLE_TRACKPAD_HEADER_SIZE, AI_APPLE_TRACKPAD_CONTACT_STRIDE,
    AI_APPLE_TRACKPAD_CONTACT_COUNT_OFFSET, AI_APPLE_TRACKPAD_MAX_CONTACTS.
  rewrite (proj2 (Z.ltb_ge (zlen r) _)), (proj2 (Z.ltb_ge 11 _)), (proj2 (Z.eqb_eq (zlen r) _)),
    (proj2 (Z.eqb_eq r .[ 1 ] _)), (proj2 (Z.ltb_ge 1 _)) by lia. cbn [negb orb].
  rewrite decode_loop by done. unfold frame_of. cbn.
  pose proof (arr_get_byte r 1 Hr) as [H1 _]. do 3 f_equal.
  destruct (Z.eqb_spec r .[ 1 ] 0), (bool_decide_reflect (r .[ 1 ] = 1)); done || lia.
Qed.

Lemma decode_refuses r out :
  ~ well_formed r ->
  exists status, ai_apple_trackpad_decode (Some r) (zlen r) (Some out) = (status, Some frame_zero) /\
    (status = AI_ERR_LENGTH \/ status = AI_ERR_PROTOCOL).
Proof.
  intros Hwf. unfold ai_apple_trackpad_decode, AI_APPLE_TRACKPAD_HEADER_SIZE,
    AI_APPLE_TRACKPAD_CONTACT_STRIDE, AI_APPLE_TRACKPAD_CONTACT_COUNT_OFFSET, AI_APPLE_TRACKPAD_MAX_CONTACTS.
  repeat case_match; try by eauto. destruct Hwf. guards. unfold well_formed. lia.
Qed.

Lemma touched_full r k :
  0 <= k -> (zlen (touched r k) < k <-> exists i, 0 <= i < k /\ get_u16 r (48 + 30 * i + 16) = 0).
Proof.
  intros Hk. revert k Hk. apply natlike_ind.
  - split; [by vm_compute|]. intros (i & ? & _). lia.
  - intros k Hk IH. rewrite <- Z.add_1_r, touched_snoc, zlen_app by done.
    pose proof (touched_length r k Hk) as Hl. unfold zlen in *. case_decide as Hd; simpl.
    + rewrite <- Z.add_lt_mono_r, IH. split; intros (i & Hi & E); exists i; (split; [|done]); [lia|].
      destruct (decide (i = k)) as [->|]; [done|lia].
    + split; [|lia]. intros _. exists k. split; [lia|]. lia.
Qed.

Lemma release_candidate_iff r :
  is_bytes r -> well_formed r ->
  ai_apple_trackpad_release_candidate (Some r) (zlen r) = true <->
    r .[ 30 ] = 0 \/ count (frame_of r) < r .[ 30 ].
Proof.
  intros Hr (H46 & Hn & Hl & _). pose proof (arr_get_byte r 30 Hr) as [H30 _].
  unfold ai_apple_trackpad_release_candidate, AI_APPLE_TRACKPAD_HEADER_SIZE, AI_APPLE_TRACKPAD_CONTACT_STRIDE,
    AI_APPLE_TRACKPAD_CONTACT_COUNT_OFFSET, AI_APPLE_TRACKPAD_MAX_CONTACTS, AI_APPLE_TRACKPAD_TOUCH_MAJOR_OFFSET.
  rewrite (proj2 (Z.ltb_ge (zlen r) _)), (proj2 (Z.ltb_ge 11 _)), (proj2 (Z.eqb_eq (zlen r) _)) by lia.
  cbn [negb]. destruct (Z.eqb_spec r .[ 30 ] 0) as [E|E]; [tauto|].
  cbn [frame_of count]. rewrite touched_full by done.
  assert (forall i, 0 <= i < r .[ 30 ] ->
    get_le16 r (48 + i * 30 + 16) = get_u16 r (48 + 30 * i + 16)) as Hread.
  { intros i Hi. rewrite frame_le16 by (done || lia). f_equal. lia. }
  destruct (find_range 0 r .[ 30 ] _) as [i|] eqn:Hf.
  - apply find_range_Some in Hf as (Hi & Hz & _). apply Z.eqb_eq in Hz. rewrite Hread in Hz by lia.
    split; [|done]. intros _. right. exists i. split; [lia|done].
  - rewrite find_range_None in Hf. split; [done|]. intros [?|(i & Hi & Hz)]; [done|].
    specialize (Hf i ltac:(lia)). rewrite Hread, Hz in Hf by done. done.
Qed.

(** The frame decoder accepts exactly the reports whose length matches their contact
    count and whose two button bytes agree; the frame it returns is the button and, in
    order, exactly the contacts that touch, with two's-complement coordinates; every
    refusal returns an empty frame; and a report is a release candidate exactly when it
    announces no contact or one of its contacts no longer touches. *)
Theorem frame_decode_exact (report : list Z) (out : ai_apple_trackpad_frame)
    (Hbytes : is_bytes report) :
  (well_formed report ->
    (ai_apple_trackpad_decode (Some report) (zlen report) (Some out) =
       (AI_OK, Some (frame_of report))) /\
    (ai_apple_trackpad_release_candidate (Some report) (zlen report) = true <->
       report .[ 30 ] = 0 \/ count (frame_of report) < report .[ 30 ])) /\
  (~ well_formed report ->
    exists status, ai_apple_trackpad_decode (Some report) (zlen report) (Some out) =
      (status, Some frame_zero) /\ (status = AI_ERR_LENGTH \/ status = AI_ERR_PROTOCOL)) /\
  (0 <= count (frame_of report) <= 11 \/ 11 < report .[ 30 ]) /\
  Forall (fun c => is_s16 (c_x c) /\ is_s16 (c_y c)) (contacts (frame_of report)).
Proof.
  split_and!.
  - intros Hwf. split; [by apply decode_accepts|by apply release_candidate_iff].
  - by apply decode_refuses.
  - pose proof (touched_length report report .[ 30 ]) as Hl.
    pose proof (arr_get_byte report 30 Hbytes) as [? _]. unfold frame_of, zlen. cbn [count]. lia.
  - cbn. apply Forall_app. split; [|by apply Forall_replicate].
    apply Forall_fmap, Forall_forall. intros i _. split; apply signed16_range.
Qed.

Definition two_contacts : list Z :=
  (replicate 48 0) .[ 1 <- 1 ] .[ 31 <- 1 ] .[ 30 <- 2 ] ++
  [0; 0; 0xfe; 0xff; 7; 0; 0; 0; 0; 0; 0; 0; 0; 0; 0; 0; 5; 0; 0; 0; 0; 0; 0; 0; 0; 0; 0; 0; 0; 0] ++
  replicate 28 0.

(** The first contact touches at (-2, 7), the second has lifted. *)
Lemma frame_decode_exact_witness :
  (ai_apple_trackpad_decode (Some two_contacts) (zlen two_contacts) (Some frame_zero) =
     (AI_OK, Some (frame_of two_contacts))) /\
  take 1 (contacts (frame_of two_contacts)) = [Build_ai_apple_trackpad_contact (-2) 7].
Proof.
  split; [|by vm_compute].
  apply (frame_decode_exact two_contacts frame_zero); by apply (bool_decide_unpack _); vm_compute.
Defined.

(** ** The cost matrix *)

(** The squared distance, saturated; on the decoder's coordinates it never saturates. *)
Lemma coordinate_cost_min slot contact :
  - 2 ^ 31 <= s_x slot < 2 ^ 31 -> - 2 ^ 31 <= s_y slot < 2 ^ 31 ->
  - 2 ^ 31 <= c_x contact < 2 ^ 31 -> - 2 ^ 31 <= c_y contact < 2 ^ 31 ->
  coordinate_cost slot contact =
  Z.min AI_TRACKPAD_COST_MAX
    ((s_x slot - c_x contact) * (s_x slot - c_x contact) +
     (s_y slot - c_y contact) * (s_y slot - c_y contact)).
Proof.
  intros. unfold coordinate_cost, AI_TRACKPAD_COST_MAX.
  assert (forall d, - 2 ^ 32 < d < 2 ^ 32 ->
    u64 ((if d <? 0 then u64 (- d) else u64 d) * (if d <? 0 then u64 (- d) else u64 d)) = d * d) as Hsq.
  { intros d Hd. change (2 ^ 32) with 4294967296 in Hd.
    destruct (Z.ltb_spec d 0).
    - rewrite (wrap_id 64 (- d)), wrap_id by (unfold fits; rewrite pow2_64; nia). lia.
    - by rewrite (wrap_id 64 d), wrap_id by (unfold fits; rewrite pow2_64; nia). }
  change (2 ^ 31) with 2147483648 in *. change (2 ^ 32) with 4294967296 in Hsq.
  rewrite !Hsq by lia. generalize (s_x slot - c_x contact) (s_y slot - c_y contact). intros dx dy.
  assert (0 <= dx * dx /\ 0 <= dy * dy) as [Hx Hy] by nia.
  generalize dependent (dx * dx). generalize dependent (dy * dy). intros y2 Hy x2 Hx.
  destruct (Z.ltb_spec 0x00ffffffffffffff x2); [cbn; lia|]. cbn [orb].
  rewrite (wrap_id 64 (_ - x2)) by (unfold fits; rewrite pow2_64; lia).
  destruct (Z.ltb_spec (0x00ffffffffffffff - x2) y2); [lia|].
  rewrite wrap_id by (unfold fits; rewrite pow2_64; lia). lia.
Qed.

Definition squared (slot : ai_trackpad_physical_slot) (contact : ai_apple_trackpad_contact) : Z :=
  (s_x slot - c_x contact) ^ 2 + (s_y slot - c_y contact) ^ 2.

(** The largest squared distance of 16-bit coordinates. *)
Definition far : Z := 2 * 65535 ^ 2.

Lemma coordinate_cost_exact slot contact :
  is_s16 (s_x slot) -> is_s16 (s_y slot) -> is_s16 (c_x contact) -> is_s16 (c_y contact) ->
  coordinate_cost slot contact = squared slot contact /\ 0 <= squared slot contact <= far.
Proof.
  unfold is_s16. intros H1 H2 H3 H4. change (2 ^ 15) with 32768 in *.
  rewrite coordinate_cost_min by (change (2 ^ 31) with 2147483648; lia).
  unfold squared, far, AI_TRACKPAD_COST_MAX. rewrite !Z.pow_2_r.
  assert (- 65535 <= s_x slot - c_x contact <= 65535) by lia.
  assert (- 65535 <= s_y slot - c_y contact <= 65535) by lia.
  assert (forall d, - 65535 <= d <= 65535 -> 0 <= d * d <= 65535 * 65535) as Hsq by (intros; nia).
  pose proof (Hsq (s_x slot - c_x contact) ltac:(done)). pose proof (Hsq (s_y slot - c_y contact) ltac:(done)).
  lia.
Qed.

(** ** Publishing the match *)

(** With the roles of the arrays exchanged, the other orientation is the same loop. *)
Lemma publish_swap p n (o2n n2o : list Z) :
  0 <= n ->
  for_range 1 n (publish_match false p) (o2n, n2o) =
  prod_swap (for_range 1 n (publish_match true p) (n2o, o2n)).
Proof.
  intros Hn. refine (for_range_inv (fun k st => st =
    prod_swap (for_range 1 k (publish_match true p) (n2o, o2n))) 1 n _ _ Hn _ _).
  { by rewrite for_range_0. }
  intros k st Hk ->. rewrite for_range_snoc by lia.
  destruct (for_range 1 k _ _) as [R C]. unfold publish_match. cbn [prod_swap].
  by destruct (_ =? 0).
Qed.

Lemma s8_small v : 0 <= v < 128 -> s8 v = v.
Proof.
  intros Hv. unfold s8. rewrite wrap_id by (unfold fits; change (2 ^ 8) with 256; lia).
  change (2 ^ 7) with 128. destruct (Z.ltb_spec v 128); lia.
Qed.

(** Both arrays, from a matching [q] of rows to columns. *)
Lemma published_match q rows columns :
  0 <= rows <= columns -> columns <= 11 ->
  (forall c, column columns c -> 0 <= q .[ c ] <= rows) ->
  (forall c c', column columns c -> column columns c' -> q .[ c ] = q .[ c' ] -> q .[ c ] <> 0 -> c = c') ->
  (forall r, 0 <= r < rows -> exists c, 0 <= c < columns /\ q .[ c + 1 ] = r + 1) ->
  let '(R, C) := for_range 1 columns (publish_match true q) (replicate 11 (-1), replicate 11 (-1)) in
  zlen R = 11 /\ zlen C = 11 /\
  (forall c, 0 <= c < columns -> C .[ c ] = q .[ c + 1 ] - 1) /\
  (forall r c, 0 <= r < rows -> 0 <= c < columns -> (R .[ r ] = c <-> q .[ c + 1 ] = r + 1)) /\
  (forall r, 0 <= r < rows -> 0 <= R .[ r ] < columns).
Proof.
  intros Hd H11 Hq Hinj Honto. unfold column in *.
  set (P := fun (k : Z) (st : list Z * list Z) => let '(R, C) := st in
    zlen R = 11 /\ zlen C = 11 /\
    (forall c, 0 <= c < columns -> C .[ c ] = if decide (c < k) then q .[ c + 1 ] - 1 else -1) /\
    (forall r c, 0 <= r < rows -> 0 <= c < k -> q .[ c + 1 ] = r + 1 -> R .[ r ] = c)).
  assert (P columns (for_range 1 columns (publish_match true q) (replicate 11 (-1), replicate 11 (-1)))) as H.
  2:{ destruct (for_range _ _ _ _) as [R C]. destruct H as (LR & LC & HC & HR).
      assert (forall r, 0 <= r < rows -> exists c, 0 <= c < columns /\ q .[ c + 1 ] = r + 1 /\ R .[ r ] = c) as HRc.
      { intros r Hr. destruct (Honto r Hr) as (c & Hc & E). exists c. split_and!; [lia..|done|]. by apply HR. }
      split_and!; [done..| | |].
      - intros c Hc. by rewrite HC, decide_True by lia.
      - intros r c Hr Hc. split; [|by apply HR]. intros E.
        destruct (HRc r Hr) as (c' & Hc' & E1 & E2). by rewrite <- E, E2.
      - intros r Hr. destruct (HRc r Hr) as (c & Hc & _ & ->). lia. }
  apply (for_range_inv P); [lia| |].
  { split_and!; [done..| |lia]. intros c Hc. rewrite decide_False by lia. by rewrite get_replicate by lia. }
  intros k [R C] Hk (LR & LC & HC & HR). unfold publish_match.
  rewrite (Z.add_comm 1 k), Z.add_simpl_r. pose proof (Hq (k + 1) ltac:(lia)) as Hqk.
  destruct (Z.eqb_spec q .[ k + 1 ] 0) as [E|E].
  - split_and!; try done.
    + intros c Hc. rewrite HC by done. repeat case_decide; try done; try lia.
      replace c with k by lia. rewrite E. lia.
    + intros r c Hr Hc Eq. apply HR; try done. destruct (decide (c = k)) as [->|]; lia.
  - rewrite !s8_small by lia. split_and!; [by rewrite zlen_set..| |].
    + intros c Hc. rewrite get_set by lia. destruct (decide (k = c)) as [<-|].
      * by rewrite decide_True by lia.
      * rewrite HC by done. repeat case_decide; done || lia.
    + intros r c Hr Hc Eq. rewrite get_set by lia. case_decide as Hrow.
      * assert (k + 1 = c + 1) by (apply Hinj; lia). lia.
      * apply HR; [done| |done]. destruct (decide (c = k)) as [->|]; lia.
Qed.

(** ** Fingers and contacts *)

Section matching.
Context (t : ai_trackpad_tracker) (f : ai_apple_trackpad_frame) (old_slots : list Z) (old : Z).

(** The finger of index [a], as [old_slots] lists them, and the contact of index [n]. *)
Definition finger (a : Z) : ai_trackpad_physical_slot := (slots t) .[ old_slots .[ a ] ].
Definition contact (n : Z) : ai_apple_trackpad_contact := (contacts f) .[ n ].

(** Counts within the arrays, coordinates of 16 bits. *)
Record matchable : Prop := {
  k_old : 0 <= old <= 11;
  k_new : 0 <= count f <= 11;
  k_finger : forall a, 0 <= a < old -> is_s16 (s_x (finger a)) /\ is_s16 (s_y (finger a));
  k_contact : forall n, 0 <= n < count f -> is_s16 (c_x (contact n)) /\ is_s16 (c_y (contact n));
}.
Hypothesis Hok : matchable.

Let rao : bool := old <=? count f.
Let rows : Z := if rao then old else count f.
Let columns : Z := if rao then count f else old.

(** A (row, column) pair as a (finger, contact) pair. *)
Definition orient (rc : Z * Z) : Z * Z := if rao then rc else prod_swap rc.

Definition pair_cost (an : Z * Z) : Z := squared (finger an.1) (contact an.2).

Lemma dims : 0 <= rows <= columns /\ columns <= 11 /\ rows = Z.min old (count f).
Proof.
  destruct Hok as [Ho Hn _ _]. unfold rows, columns, rao.
  destruct (Z.leb_spec old (count f)); lia.
Qed.

Lemma fill_costs_spec r c :
  0 <= r < rows -> 0 <= c < columns ->
  (fill_costs t f old_slots rao rows columns) .[ r ] .[ c ] = pair_cost (orient (r, c)) /\
  0 <= pair_cost (orient (r, c)) <= far.
Proof.
  intros Hr Hc. pose proof dims as (Hd & H11 & _).
  set (cell := fun r c => coordinate_cost
    (finger (if rao then r else c)) (contact (if rao then c else r))).
  assert (forall i, 0 <= i < 11 -> forall M, zlen M = 11 -> (forall r, 0 <= r < 11 -> zlen M .[ r ] = 11) ->
    let M' := for_range 0 columns (fun j cost => cost .[ i <- cost .[ i ] .[ j <- cell i j ] ]) M in
    zlen M' = 11 /\ (forall r, 0 <= r < 11 -> zlen M' .[ r ] = 11) /\
    (forall r, 0 <= r < 11 -> r <> i -> M' .[ r ] = M .[ r ]) /\
    (forall c, 0 <= c < columns -> M' .[ i ] .[ c ] = cell i c)) as Hinner.
  { intros i Hi M HM Hrow. refine (for_range_inv (fun k M' =>
      zlen M' = 11 /\ (forall r, 0 <= r < 11 -> zlen M' .[ r ] = 11) /\
      (forall r, 0 <= r < 11 -> r <> i -> M' .[ r ] = M .[ r ]) /\
      (forall c, 0 <= c < k -> M' .[ i ] .[ c ] = cell i c)) 0 columns _ M _ _ _); [lia|split_and!; done || lia|].
    intros j M' Hj (L & Lr & Hne & Hcell). rewrite Z.add_0_l. split_and!.
    - by rewrite zlen_set.
    - intros r' Hr'. rewrite get_set by lia. case_decide; [rewrite zlen_set|]; auto.
    - intros r' Hr' ?. rewrite get_set_ne by lia. auto.
    - intros c' Hc'. rewrite get_set_eq by lia. rewrite get_set by (rewrite ?Lr; lia).
      case_decide; [by subst|]. apply Hcell. lia. }
  assert ((fill_costs t f old_slots rao rows columns) .[ r ] .[ c ] = cell r c) as ->.
  { unfold fill_costs.
    refine (proj2 (proj2 (for_range_inv (fun k M => zlen M = 11 /\ (forall r, 0 <= r < 11 -> zlen M .[ r ] = 11) /\
      (forall r c, 0 <= r < k -> 0 <= c < columns -> M .[ r ] .[ c ] = cell r c)) 0 rows _ _ _ _ _)) r c Hr Hc); [lia| |].
    - split_and!; [done| |lia]. intros r' Hr'. by rewrite get_replicate by lia.
    - intros i M Hi (L & Lr & Hcell). rewrite Z.add_0_l.
      destruct (Hinner i ltac:(lia) M L Lr) as (L' & Lr' & Hne & Hi'). split_and!; [exact L'|exact Lr'|].
      intros r' c' Hr' Hc'. destruct (decide (r' = i)) as [->|]; [by apply Hi'|].
      etrans; [apply (f_equal (fun l => l .[ c' ])), Hne; lia|]. apply Hcell; lia. }
  destruct Hok as [Ho Hn Hf Hk]. unfold cell, pair_cost, orient. unfold rows, columns in *.
  destruct rao; cbn [fst snd prod_swap]; apply coordinate_cost_exact.
  all: first [by apply Hf | by apply Hk].
Qed.
(** ** The match *)

(** A largest set of (finger, contact) pairs without repetitions. *)
Record contact_matching (m : list (Z * Z)) : Prop := {
  h_length : zlen m = Z.min old (count f);
  h_fingers : NoDup m.*1;
  h_contacts : NoDup m.*2;
  h_range : Forall (fun an => 0 <= an.1 < old /\ 0 <= an.2 < count f) m;
}.

(** How far the fingers move in all, squared. *)
Definition distance (m : list (Z * Z)) : Z := sum (pair_cost <$> m).

(** The pairs of the two arrays. *)
Definition chosen (old_to_new : list Z) : list (Z * Z) :=
  (fun a => (a, old_to_new .[ a ])) <$> filter (fun a => 0 <= old_to_new .[ a ]) (seqZ 0 old).

Lemma elem_of_chosen o2n a n : (a, n) ∈ chosen o2n <-> 0 <= a < old /\ o2n .[ a ] = n /\ 0 <= n.
Proof.
  unfold chosen. rewrite list_elem_of_fmap. split.
  - intros (a' & [= -> ->] & Hin). apply list_elem_of_filter in Hin as [Hn Hin].
    apply elem_of_seqZ in Hin. split_and!; lia.
  - intros (Ha & <- & Hn). exists a. split; [done|]. apply list_elem_of_filter.
    split; [done|]. apply elem_of_seqZ. lia.
Qed.

Lemma chosen_nodup o2n : NoDup (chosen o2n).
Proof.
  unfold chosen. apply NoDup_fmap_2; [intros a a'; congruence|].
  apply NoDup_filter, NoDup_seqZ.
Qed.

(** What [minimum_assignment] returns. *)
Record match_arrays (o2n n2o : list Z) : Prop := {
  j_sizes : zlen o2n = 11 /\ zlen n2o = 11;
  j_old : forall a, 0 <= a < old -> o2n .[ a ] = -1 \/ 0 <= o2n .[ a ] < count f;
  j_new : forall n, 0 <= n < count f -> n2o .[ n ] = -1 \/ 0 <= n2o .[ n ] < old;
  j_link : forall a n, 0 <= a < old -> 0 <= n < count f -> (o2n .[ a ] = n <-> n2o .[ n ] = a);
  j_all : (forall a, 0 <= a < old -> 0 <= o2n .[ a ]) \/ (forall n, 0 <= n < count f -> 0 <= n2o .[ n ]);
}.

Lemma orient_matching m : pairing rows columns m <-> contact_matching (orient <$> m).
Proof.
  pose proof dims as (_ & _ & Emin). unfold orient.
  assert (Forall (fun '(r, c) => 0 <= r < rows /\ 0 <= c < columns) m <->
    Forall (fun an => 0 <= an.1 < old /\ 0 <= an.2 < count f) ((fun rc => if rao then rc else prod_swap rc) <$> m)) as Hrange.
  { rewrite Forall_fmap, !Forall_forall. unfold rows, columns.
    split; intros H [r c] Hin; specialize (H _ Hin); destruct rao; simpl in *; lia. }
  assert (((fun rc => if rao then rc else prod_swap rc) <$> m).*1 = (if rao then m.*1 else m.*2) /\
          ((fun rc => if rao then rc else prod_swap rc) <$> m).*2 = (if rao then m.*2 else m.*1)) as [E1 E2].
  { destruct rao; rewrite <- !list_fmap_compose; split; apply list_fmap_ext; by intros ? []. }
  split; intros [Hl H1 H2 H3]; (split; [| | |by apply Hrange]).
  all: rewrite ?E1, ?E2 in *; unfold zlen in *; rewrite ?length_fmap in *; try lia; by destruct rao.
Qed.

Lemma orient_orient (m : list (Z * Z)) : orient <$> (orient <$> m) = m.
Proof.
  rewrite <- list_fmap_compose. etrans; [|apply list_fmap_id]. apply list_fmap_ext.
  intros i [x y] _. unfold orient. by destruct rao.
Qed.

Lemma assignment_arrays :
  exists o2n n2o m0,
    minimum_assignment t f old_slots old (replicate 11 (-1)) (replicate 11 (-1)) = Some (o2n, n2o) /\
    match_arrays o2n n2o /\ chosen o2n ≡ₚ orient <$> m0 /\ pairing rows columns m0 /\
    forall m, pairing rows columns m ->
      total (fill_costs t f old_slots rao rows columns) m0 <=
      total (fill_costs t f old_slots rao rows columns) m.
Proof.
  pose proof dims as (Hd & H11 & _). set (cost := fill_costs t f old_slots rao rows columns).
  destruct (hungarian_pairs cost rows columns far) as (q & m0 & Eq & Hpair & Hq & Hinj & Honto & Hin & Hmin).
  { done. }
  { done. }
  { intros r c Hr Hc. unfold at_. destruct (fill_costs_spec (r - 1) (c - 1)) as [E ?]; [lia..|].
    unfold cost. by rewrite E. }
  { by vm_compute. }
  pose proof (published_match q rows columns Hd H11 Hq Hinj Honto) as Hpub.
  destruct (for_range 1 columns _ _) as [R C] eqn:Epub. destruct Hpub as (LR & LC & HC & HR & HRall).
  exists (if rao then R else C), (if rao then C else R), m0.
  assert (match_arrays (if rao then R else C) (if rao then C else R)) as Harr.
  { assert (forall c, 0 <= c < columns -> C .[ c ] = -1 \/ 0 <= C .[ c ] < rows) as HCr.
    { intros c Hc. rewrite HC by done. specialize (Hq (c + 1)). unfold column in Hq. lia. }
    assert (forall r c, 0 <= r < rows -> 0 <= c < columns -> (R .[ r ] = c <-> C .[ c ] = r)) as Hlink.
    { intros r c Hr Hc. rewrite HR, HC by done. lia. }
    unfold rows, columns in *. destruct rao; split; try done; try (split; done).
    - intros a Ha. right. by apply HRall.
    - left. intros a Ha. by apply HRall.
    - intros n Hn. right. by apply HRall.
    - intros a n Ha Hn. split; intros; by apply Hlink.
    - right. intros a Ha. by apply HRall. }
  split; [|split; [done|]].
  { unfold minimum_assignment. fold rao rows columns cost. rewrite Eq. cbn [mbind option_bind]. f_equal.
    destruct rao; [done|]. rewrite publish_swap by lia. by rewrite Epub. }
  assert (chosen (if rao then R else C) ≡ₚ orient <$> m0) as Hperm.
  { apply NoDup_Permutation; [apply chosen_nodup| |].
    - eapply NoDup_fmap_1, h_fingers. by apply orient_matching.
    - intros [a n]. rewrite elem_of_chosen, list_elem_of_fmap. unfold orient.
      transitivity ((if rao then (a, n) else (n, a)) ∈ m0).
      + destruct Harr as [_ Ho Hn _ _]. specialize (Ho a). specialize (Hn n).
        unfold rows, columns in *. destruct rao; rewrite Hin.
        * split; [intros (Ha & En & H0); split_and!; [lia..|apply HR; lia]|].
          intros (Ha & Hn' & E). apply HR in E; lia.
        * split; [intros (Ha & En & H0)|intros (Ha & Hn' & E)].
          -- pose proof (HC a Ha). destruct (Ho Ha); lia.
          -- pose proof (HC a Hn'). lia.
      + destruct rao; (split; [intros H; eexists; split; [|exact H]; done|]);
          intros ([x y] & [= -> ->] & H); done. }
  done.
Qed.

Lemma total_distance m :
  pairing rows columns m -> total (fill_costs t f old_slots rao rows columns) m = distance (orient <$> m).
Proof.
  intros Hm. unfold total, distance. f_equal. rewrite <- list_fmap_compose.
  apply list_fmap_ext. intros i [r c] Hi. pose proof (q_range _ _ _ Hm) as Hr.
  eapply Forall_lookup_1 in Hr; [|exact Hi]. simpl in Hr.
  destruct (fill_costs_spec r c) as [E _]; [lia..|exact E].
Qed.

(** C21: The Hungarian match ends on both of its loops for any fingers and contacts with
    16-bit coordinates; the two index arrays it fills are inverse to each other, pair as
    many fingers with contacts as there can be, each at most once, and no other such
    pairing has a smaller sum of squared distances. *)
Theorem matching_is_minimal :
  exists old_to_new new_to_old,
    minimum_assignment t f old_slots old (replicate 11 (-1)) (replicate 11 (-1)) =
      Some (old_to_new, new_to_old) /\
    match_arrays old_to_new new_to_old /\
    contact_matching (chosen old_to_new) /\
    forall m, contact_matching m -> distance (chosen old_to_new) <= distance m.
Proof.
  destruct assignment_arrays as (o2n & n2o & m0 & E & Harr & Hperm & Hpair & Hmin).
  exists o2n, n2o. split; [done|]. split; [done|]. split.
  - pose proof (proj1 (orient_matching m0) Hpair) as [H1 H2 H3 H4].
    split; unfold zlen; rewrite ?Hperm; done.
  - intros m Hm. rewrite <- (orient_orient m) in Hm |- *. apply orient_matching in Hm.
    unfold distance at 1. rewrite Hperm. fold (distance (orient <$> m0)).
    rewrite <- !total_distance by done. by apply Hmin.
Qed.
End matching.

Definition demo_tracker : ai_trackpad_tracker :=
  Build_ai_trackpad_tracker ([Build_ai_trackpad_physical_slot true true 0 0 0;
    Build_ai_trackpad_physical_slot true true 1 10 0] ++ replicate 9 inhabitant).
Definition demo_frame : ai_apple_trackpad_frame :=
  Build_ai_apple_trackpad_frame false 3
    ([Build_ai_apple_trackpad_contact 100 100; Build_ai_apple_trackpad_contact 9 0;
      Build_ai_apple_trackpad_contact 2 0] ++ replicate 8 inhabitant).

Lemma demo_matchable : matchable demo_tracker demo_frame [0; 1] 2.
Proof.
  split; [cbn; lia..| |]; intros i Hi; cbn in Hi.
  - assert (i = 0 \/ i = 1) as [-> | ->] by lia; unfold is_s16; by apply (bool_decide_unpack _); vm_compute.
  - assert (i = 0 \/ i = 1 \/ i = 2) as [-> |[-> | ->]] by lia; unfold is_s16; by apply (bool_decide_unpack _); vm_compute.
Qed.

(** Two fingers, three contacts: the first finger goes to the third contact. *)
Lemma matching_is_minimal_witness :
  (minimum_assignment demo_tracker demo_frame [0; 1] 2 (replicate 11 (-1)) (replicate 11 (-1)) =
     Some ([2; 1] ++ replicate 9 (-1), [-1; 1; 0] ++ replicate 8 (-1))) /\
  exists o2n n2o, minimum_assignment demo_tracker demo_frame [0; 1] 2 (replicate 11 (-1)) (replicate 11 (-1)) =
    Some (o2n, n2o) /\ contact_matching demo_frame 2 (chosen 2 o2n).
Proof.
  split; [by vm_compute|].
  destruct (matching_is_minimal demo_tracker demo_frame [0; 1] 2 demo_matchable) as (o2n & n2o & E & _ & H & _).
  exists o2n, n2o. split; [exact E|exact H].
Defined.

End Frame.
