(* ===== verification/TrackpadTracker.v ===== *)
(** * The contact tracker
    (apple-input/protocol/src/apple_trackpad_frame.c, [ai_trackpad_tracker_update])

    [Tracker] follows the fingers from frame to frame: it moves the matched ones, drops
    the lifted ones, takes in the new ones and gives the first five a Windows contact id.
    The theorems: the update never runs off its arrays or out of slots; a tracked finger
    keeps its id for as long as it touches; the report it prepares lists every reported
    finger and every reported lift once, in id order, and an id is never reused in the
    frame that releases it. *)

From Stdlib Require Import Sorted.
From stdpp Require Import sorting.
From S2P Require Import Prelude Arrays Bytes SpiHid Trackpad PrecisionTouchpad Assignment TrackpadFrame.

Module Tracker.
Import Hid Axis Ptp Assign Frame.

Definition output_zero : ai_trackpad_output_frame :=
  Build_ai_trackpad_output_frame false 0 0 0 (replicate 5 inhabitant).

(** ** Operations *)

Definition append_output (out : ai_trackpad_output_frame) (tip : bool) (id x y : Z)
    : ai_trackpad_output_frame :=
  let contact := Build_ai_trackpad_output_contact tip id x y in
  let out := out <| out_contacts := (out_contacts out) .[ out_count out <- contact ] |>
                 <| out_count := u8 (out_count out + 1) |> in
  if tip then out <| active_count := u8 (active_count out + 1) |> else out.

(** [while (j > 0u && contacts[j - 1u].id > value.id)]: the contacts and the final [j]. *)
Fixpoint sink (value : ai_trackpad_output_contact) (j : nat) (cs : list ai_trackpad_output_contact)
    : list ai_trackpad_output_contact * Z :=
  match j with
  | O => (cs, 0)
  | S j' =>
      if out_id value <? out_id cs .[ Z.of_nat j' ]
      then sink value j' cs .[ Z.of_nat j <- cs .[ Z.of_nat j' ] ]
      else (cs, Z.of_nat j)
  end.

Definition sort_output_by_id (out : ai_trackpad_output_frame) : ai_trackpad_output_frame :=
  for_range 1 (out_count out - 1) (fun i out =>
    let value := (out_contacts out) .[ i ] in
    let '(cs, j) := sink value (Z.to_nat i) (out_contacts out) in
    out <| out_contacts := cs .[ j <- value ] |>) out.

(** The first loop: clear the index arrays, list the active slots. *)
Definition gather_slot (tracker : ai_trackpad_tracker) (index : Z)
    (st : list Z * list Z * list Z * Z) : list Z * list Z * list Z * Z :=
  let '(old_to_new, new_to_old, old_slots, old_count) := st in
  let old_to_new := old_to_new .[ index <- -1 ] in
  let new_to_old := new_to_old .[ index <- -1 ] in
  if active (slots tracker) .[ index ]
  then (old_to_new, new_to_old, old_slots .[ old_count <- index ], u8 (old_count + 1))
  else (old_to_new, new_to_old, old_slots, old_count).

Definition mark_used (tracker : ai_trackpad_tracker) (old_slots : list Z) (index : Z)
    (id_available_before : list bool) : list bool :=
  let slot := (slots tracker) .[ old_slots .[ index ] ] in
  if admitted slot && (windows_id slot <? AI_PTP_MAX_CONTACTS)
  then id_available_before .[ windows_id slot <- false ] else id_available_before.

(** One old finger: moved to its contact, or released. *)
Definition carry_slot (frame : ai_apple_trackpad_frame) (old_slots old_to_new : list Z) (index : Z)
    (st : ai_trackpad_tracker * ai_trackpad_output_frame) : ai_trackpad_tracker * ai_trackpad_output_frame :=
  let '(tracker, out) := st in
  let at_ := old_slots .[ index ] in
  let slot := (slots tracker) .[ at_ ] in
  if 0 <=? old_to_new .[ index ] then
    let contact := (contacts frame) .[ u8 old_to_new .[ index ] ] in
    let slot := slot <| s_x := c_x contact |> <| s_y := c_y contact |> in
    let out := if admitted slot then append_output out true (windows_id slot) (s_x slot) (s_y slot)
               else out in
    (tracker <| slots := (slots tracker) .[ at_ <- slot ] |>, out)
  else
    let out := if admitted slot then append_output out false (windows_id slot) (s_x slot) (s_y slot)
               else out in
    let slot := slot <| active := false |> <| admitted := false |> in
    (tracker <| slots := (slots tracker) .[ at_ <- slot ] |>, out).

(** The state of the loop over the frame's contacts; [failed] is its early return. *)
Record admit_state := {
  ad_tracker : ai_trackpad_tracker;
  ad_out : ai_trackpad_output_frame;
  ad_available : list bool;
  failed : bool;
}.

(** A contact no finger moved to: a free slot and, if one was free before, an id. *)
Definition admit_contact (frame : ai_apple_trackpad_frame) (new_to_old : list Z) (index : Z)
    (st : admit_state) : admit_state :=
  let '(Build_admit_state tracker out available _) := st in
  if failed st || (0 <=? new_to_old .[ index ]) then st
  else
    match find_range 0 AI_APPLE_TRACKPAD_MAX_CONTACTS (fun i => negb (active (slots tracker) .[ i ])) with
    | None => Build_admit_state tracker out available true
    | Some slot_index =>
        let slot := (slots tracker) .[ slot_index ] in
        let slot := slot <| active := true |> <| admitted := false |> in
        let slot := slot <| s_x := c_x (contacts frame) .[ index ] |>
                         <| s_y := c_y (contacts frame) .[ index ] |> in
        match find_range 0 AI_PTP_MAX_CONTACTS (fun id => available .[ id ]) with
        | None => Build_admit_state (tracker <| slots := (slots tracker) .[ slot_index <- slot ] |>)
                    out available false
        | Some id =>
            let slot := slot <| admitted := true |> <| windows_id := id |> in
            Build_admit_state (tracker <| slots := (slots tracker) .[ slot_index <- slot ] |>)
              (append_output out true id (s_x slot) (s_y slot)) available .[ id <- false ] false
        end
    end.

Definition count_suppressed (tracker : ai_trackpad_tracker) (index : Z) (out : ai_trackpad_output_frame)
    : ai_trackpad_output_frame :=
  if active (slots tracker) .[ index ] && negb (admitted (slots tracker) .[ index ])
  then out <| suppressed_count := u8 (suppressed_count out + 1) |> else out.

(** [None] is a loop of [minimum_assignment] that does not end. *)
Definition ai_trackpad_tracker_update (tracker : ptr ai_trackpad_tracker)
    (frame : ptr ai_apple_trackpad_frame) (out : ptr ai_trackpad_output_frame)
    : option (ai_status * ptr ai_trackpad_tracker * ptr ai_trackpad_output_frame) :=
  deref t := tracker else Some (AI_ERR_ARGUMENT, tracker, out) in
  deref f := frame else Some (AI_ERR_ARGUMENT, tracker, out) in
  deref _o := out else Some (AI_ERR_ARGUMENT, tracker, out) in
  let o := output_zero in
  if AI_APPLE_TRACKPAD_MAX_CONTACTS <? count f then Some (AI_ERR_LENGTH, tracker, Some o)
  else
    let o := o <| out_button := button f |> in
    let '(old_to_new, new_to_old, old_slots, old_count) :=
      for_range 0 AI_APPLE_TRACKPAD_MAX_CONTACTS (gather_slot t)
        (replicate 11 0, replicate 11 0, replicate 11 0, 0) in
    let available := fill_loop 0 AI_PTP_MAX_CONTACTS (fun _ => true) (replicate 5 false) in
    let available := for_range 0 old_count (mark_used t old_slots) available in
    match minimum_assignment t f old_slots old_count old_to_new new_to_old with
    | None => None
    | Some (old_to_new, new_to_old) =>
        let '(t, o) := for_range 0 old_count (carry_slot f old_slots old_to_new) (t, o) in
        let st := for_range 0 (count f) (admit_contact f new_to_old) (Build_admit_state t o available false) in
        if failed st then Some (AI_ERR_PROTOCOL, Some (ad_tracker st), Some (ad_out st))
        else
          let t := ad_tracker st in
          let o := for_range 0 AI_APPLE_TRACKPAD_MAX_CONTACTS (count_suppressed t) (ad_out st) in
          Some (AI_OK, Some t, Some (sort_output_by_id o))
    end.

(** ** Lists *)

Lemma omap_set_fresh {A B} `{Inhabited A} (g : A -> option B) (l : list A) i x :
  0 <= i < zlen l -> g l .[ i ] = None -> omap g l .[ i <- x ] ≡ₚ option_list (g x) ++ omap g l.
Proof.
  unfold zlen, arr_get, arr_set. intros Hi Hg.
  destruct (lookup_lt_is_Some_2 l (Z.to_nat i)) as [y Hy]; [lia|].
  rewrite (list_lookup_total_correct _ _ _ Hy) in Hg.
  rewrite insert_take_drop by lia. rewrite <- (take_drop_middle l _ _ Hy) at 3.
  rewrite !omap_app. cbn [omap list_omap]. rewrite Hg. fold (omap g (drop (S (Z.to_nat i)) l)).
  destruct (g x); simpl; [|done]. symmetry. apply Permutation_middle.
Qed.

Lemma list_as_fmap {A} `{Inhabited A} (l : list A) n : zlen l = n -> l = (fun i => l .[ i ]) <$> seqZ 0 n.
Proof.
  intros <-. apply list_eq. intros i. rewrite list_lookup_fmap. unfold zlen.
  destruct (decide (i < length l)%nat) as [Hi|Hi].
  - rewrite lookup_seqZ_lt by lia. simpl. unfold arr_get. rewrite Z.add_0_l, Nat2Z.id.
    by apply list_lookup_lookup_total_lt.
  - rewrite lookup_ge_None_2 by lia. by rewrite lookup_seqZ_ge by lia.
Qed.

Lemma omap_filter {A B} (g : A -> option B) (P : A -> Prop) `{!forall x, Decision (P x)} (l : list A) :
  (forall x, x ∈ l -> ~ P x -> g x = None) -> omap g l = omap g (filter P l).
Proof.
  induction l as [|x l IH]; intros HN; [done|].
  assert (omap g l = omap g (filter P l)) as E by (apply IH; intros; apply HN; [by right|done]).
  destruct (decide (P x)) as [Hx|Hx].
  - rewrite filter_cons_True by done. cbn [omap list_omap]. fold (omap g l). by rewrite E.
  - rewrite filter_cons_False by done. cbn [omap list_omap]. fold (omap g l).
    by rewrite (HN x) by (done || by left).
Qed.

Lemma omap_fmap_in {A B C} (h : A -> B) (g : B -> option C) (k : A -> option C) (l : list A) :
  (forall x, x ∈ l -> g (h x) = k x) -> omap g (h <$> l) = omap k l.
Proof.
  induction l as [|x l IH]; intros Hk; [done|]. cbn [fmap list_fmap omap list_omap].
  rewrite Hk by by left. f_equal. fold (omap g (h <$> l)) (omap k l).
  rewrite IH by (intros; apply Hk; by right). done.
Qed.

(** ** The report *)

Definition reported (o : ai_trackpad_output_frame) : list ai_trackpad_output_contact :=
  prefix_list (out_contacts o) (out_count o).

Record report_ok (o : ai_trackpad_output_frame) (l : list ai_trackpad_output_contact) : Prop := {
  r_size : zlen (out_contacts o) = 5;
  r_count : out_count o = zlen l;
  r_list : reported o = l;
  r_active : active_count o = zlen (filter (fun c => tip c = true) l);
  r_nodup : NoDup (out_id <$> l);
  r_ids : Forall (fun c => 0 <= out_id c < 5) l;
}.

(** Distinct ids below five are at most five. *)
Lemma few_ids (l : list ai_trackpad_output_contact) :
  NoDup (out_id <$> l) -> Forall (fun c => 0 <= out_id c < 5) l -> zlen l <= 5.
Proof.
  intros Hnd Hids. assert (out_id <$> l ⊆+ seqZ 0 5) as Hsub.
  { apply NoDup_submseteq; [done|]. intros id Hin. apply list_elem_of_fmap in Hin as (c & -> & Hc).
    rewrite Forall_forall in Hids. apply elem_of_seqZ. specialize (Hids c Hc). lia. }
  apply submseteq_length in Hsub. rewrite length_fmap, length_seqZ in Hsub. unfold zlen. lia.
Qed.

Lemma report_append o l tip_ id x y :
  report_ok o l -> 0 <= id < 5 -> id ∉ (out_id <$> l) ->
  report_ok (append_output o tip_ id x y) (l ++ [Build_ai_trackpad_output_contact tip_ id x y]).
Proof.
  intros [Hz Hc Hl Ha Hnd Hids] Hid Hfresh. set (c := Build_ai_trackpad_output_contact tip_ id x y).
  assert (NoDup (out_id <$> l ++ [c])) as Hnd'.
  { rewrite fmap_app. apply NoDup_app. split; [done|]. split; [|apply NoDup_singleton].
    intros z Hz' Hin%list_elem_of_singleton. by subst. }
  assert (Forall (fun c => 0 <= out_id c < 5) (l ++ [c])) as Hids'.
  { apply Forall_app. by split; [|apply Forall_singleton]. }
  pose proof (few_ids _ Hnd' Hids') as Hlen. rewrite zlen_app in Hlen. change (zlen [c]) with 1 in Hlen.
  pose proof (zlen_nonneg l). assert (0 <= active_count o <= 4).
  { rewrite Ha. unfold zlen in *. pose proof (length_filter (fun c => tip c = true) l). lia. }
  assert (u8 (out_count o + 1) = zlen l + 1) as Ec.
  { rewrite Hc, wrap_id; [done|]. unfold fits. change (2 ^ 8) with 256. lia. }
  split; try done.
  - unfold append_output. destruct tip_; cbn; by rewrite zlen_set.
  - unfold append_output. rewrite zlen_app. by destruct tip_; cbn; rewrite Ec.
  - unfold reported in *. rewrite <- Hl, Hc.
    assert (out_contacts (append_output o tip_ id x y) = (out_contacts o) .[ zlen l <- c ] /\
            out_count (append_output o tip_ id x y) = zlen l + 1) as [-> ->].
    { unfold append_output. destruct tip_; cbn; by rewrite Ec, Hc. }
    by apply prefix_set_snoc; lia.
  - unfold append_output. rewrite filter_app, zlen_app, <- Ha. destruct tip_.
    + change (zlen _) with 1. apply wrap_id. unfold fits. change (2 ^ 8) with 256. cbn. lia.
    + change (zlen (filter _ [c])) with 0. cbn. lia.
Qed.

(** ** Sorting *)

Definition id_le (c d : ai_trackpad_output_contact) : Prop := out_id c <= out_id d.

Lemma sink_spec value (l : list ai_trackpad_output_contact) hole rest :
  StronglySorted id_le l ->
  let '(cs, j) := sink value (length l) (l ++ hole :: rest) in
  exists l1 l2, l = l1 ++ l2 /\ cs .[ j <- value ] = l1 ++ value :: l2 ++ rest /\
    Forall (fun c => id_le c value) l1 /\ Forall (id_le value) l2.
Proof.
  revert hole rest. induction l as [|y l IH] using rev_ind; intros hole rest Hs.
  { exists [], []. split_and!; done. }
  apply StronglySorted_app in Hs as (Hle & Hs & _). rewrite length_app, Nat.add_comm.
  change (length [y] + length l)%nat with (S (length l)). cbn [sink].
  assert (((l ++ [y]) ++ hole :: rest) .[ Z.of_nat (length l) ] = y) as ->.
  { unfold arr_get. rewrite Nat2Z.id, <- app_assoc. apply list_lookup_total_correct.
    by apply list_lookup_middle. }
  destruct (Z.ltb_spec (out_id value) (out_id y)) as [Hlt|Hge].
  - assert (((l ++ [y]) ++ hole :: rest) .[ Z.of_nat (S (length l)) <- y ] = l ++ y :: y :: rest) as ->.
    { unfold arr_set. rewrite Nat2Z.id, insert_app_r_alt by (rewrite length_app; simpl; lia).
      rewrite length_app. simpl. rewrite Nat.add_comm. simpl. rewrite Nat.sub_diag, <- app_assoc. done. }
    specialize (IH y (y :: rest) Hs). destruct (sink value (length l) _) as [cs j].
    destruct IH as (l1 & l2 & -> & E & H1 & H2). exists l1, (l2 ++ [y]). rewrite <- !app_assoc.
    split_and!; [done|by rewrite E|done|]. apply Forall_app. split; [done|].
    apply Forall_singleton. unfold id_le. lia.
  - exists (l ++ [y]), []. split_and!.
    + by rewrite app_nil_r.
    + unfold arr_set. rewrite Nat2Z.id, insert_app_r_alt by (rewrite length_app; simpl; lia).
      rewrite length_app. simpl. by rewrite Nat.add_1_r, Nat.sub_diag.
    + apply Forall_app. split; [|by apply Forall_singleton]. apply Forall_forall. intros c Hc.
      specialize (Hle c y Hc ltac:(by left)). unfold id_le in *. lia.
    + constructor.
Qed.

Lemma sort_spec o :
  0 <= out_count o <= zlen (out_contacts o) ->
  exists cs, sort_output_by_id o = o <| out_contacts := cs |> /\ zlen cs = zlen (out_contacts o) /\
    prefix_list cs (out_count o) ≡ₚ reported o /\ StronglySorted id_le (prefix_list cs (out_count o)).
Proof.
  intros Hn. unfold sort_output_by_id.
  destruct (decide (out_count o = 0)) as [E|E].
  { exists (out_contacts o). rewrite E, for_range_0 by lia. unfold reported. rewrite E, prefix_list_0.
    split_and!; [by destruct o|done|done|constructor]. }
  set (P := fun (k : Z) (o' : ai_trackpad_output_frame) => exists l rest,
    o' = o <| out_contacts := l ++ rest |> /\ zlen l = k + 1 /\
    StronglySorted id_le l /\ l ≡ₚ prefix_list (out_contacts o) (k + 1) /\
    out_contacts o = prefix_list (out_contacts o) (k + 1) ++ rest).
  match goal with |- exists cs, ?x = _ /\ _ => assert (P (out_count o - 1) x) as H end.
  2:{ destruct H as (l & rest & -> & Hl & Hs & Hp & Er). rewrite Z.sub_add in *. exists (l ++ rest).
      assert (prefix_list (l ++ rest) (out_count o) = l) as ->.
      { unfold prefix_list. rewrite take_app_le, take_ge by (unfold zlen in Hl; lia). done. }
      split_and!; try done. rewrite Er, !zlen_app. by rewrite Hl, zlen_prefix by lia. }
  apply (for_range_inv P); [lia| |].
  - destruct (out_contacts o) as [|c cs] eqn:Ec; [unfold zlen in Hn; simpl in Hn; lia|].
    exists [c], cs. split_and!; try done; [by destruct o; cbn in *; subst|repeat constructor].
  - intros k o' Hk (l & rest & -> & Hl & Hs & Hp & Er).
    destruct rest as [|value rest].
    { rewrite app_nil_r in Er. apply (f_equal zlen) in Er. rewrite zlen_prefix in Er; lia. }
    rewrite (Z.add_comm 1 k). cbn [set_field eta_expand output_frame_eta out_contacts out_count out_button active_count suppressed_count].
    assert ((l ++ value :: rest) .[ k + 1 ] = value) as ->.
    { rewrite get_app, decide_False by lia. by rewrite Hl, Z.sub_diag. }
    replace (Z.to_nat (k + 1)) with (length l) by (unfold zlen in Hl; lia).
    pose proof (sink_spec value l value rest Hs) as Hsink.
    destruct (sink value (length l) (l ++ value :: rest)) as [cs j].
    destruct Hsink as (l1 & l2 & -> & Ecs & H1 & H2). cbn. rewrite Ecs.
    exists (l1 ++ value :: l2), rest.
    assert (prefix_list (out_contacts o) (k + 1 + 1) = prefix_list (out_contacts o) (k + 1) ++ [value]) as Epre.
    { rewrite prefix_list_snoc by lia. f_equal. f_equal.
      assert (zlen (prefix_list (out_contacts o) (k + 1)) = k + 1) as Ez by (apply zlen_prefix; lia).
      rewrite Er, get_app, Ez, decide_False by lia. by rewrite Z.sub_diag. }
    split_and!.
    + rewrite <- app_assoc. done.
    + rewrite zlen_app in *. unfold zlen in *. simpl. lia.
    + apply StronglySorted_app in Hs as (Hle & Hs1 & Hs2). rewrite Forall_forall in H1.
      apply StronglySorted_app. split_and!; [|done|by constructor].
      intros x y Hx [->|Hy]%elem_of_cons; [by apply H1|by apply Hle].
    + rewrite Epre, <- Hp, <- Permutation_middle. by rewrite (Permutation_app_comm _ [value]).
    + rewrite Epre, <- app_assoc. done.
Qed.

(** ** The tracker's invariant *)

(** What a slot contributes: its place while a finger holds it, its contact while it
    has an id. *)
Definition slot_place (s : ai_trackpad_physical_slot) : option ai_apple_trackpad_contact :=
  if active s then Some (Build_ai_apple_trackpad_contact (s_x s) (s_y s)) else None.
Definition slot_contact (s : ai_trackpad_physical_slot) : option ai_trackpad_output_contact :=
  if admitted s then Some (Build_ai_trackpad_output_contact true (windows_id s) (s_x s) (s_y s)) else None.

Definition slot_ok (s : ai_trackpad_physical_slot) : Prop :=
  (admitted s = true -> active s = true) /\ (is_s16 (s_x s) /\ is_s16 (s_y s)).

(** Eleven slots; ids below five, no id twice; admitted slots are active. *)
Record tracker_ok (t : ai_trackpad_tracker) : Prop := {
  w_size : zlen (slots t) = 11;
  w_slots : Forall slot_ok (slots t);
  w_ids : Forall (fun c => 0 <= out_id c < 5) (omap slot_contact (slots t));
  w_nodup : NoDup (out_id <$> omap slot_contact (slots t));
}.

(** What the decoder delivers. *)
Record frame_ok (f : ai_apple_trackpad_frame) : Prop := {
  f_size : zlen (contacts f) = 11;
  f_count : 0 <= count f <= 11;
  f_coords : Forall (fun c => is_s16 (c_x c) /\ is_s16 (c_y c)) (contacts f);
}.

Lemma frame_of_ok r : is_bytes r -> well_formed r -> frame_ok (frame_of r).
Proof.
  intros Hr (_ & Hn & _). pose proof (arr_get_byte r 30 Hr) as [H0 _].
  pose proof (touched_length r r .[ 30 ] H0) as Hl. unfold frame_of. split; cbn -[replicate].
  - unfold zlen. rewrite length_app, length_fmap, length_replicate. lia.
  - unfold zlen. lia.
  - apply Forall_app. split; [|by apply Forall_replicate].
    apply Forall_fmap, Forall_forall. intros i _. split; apply signed16_range.
Qed.

(** The slots of the active fingers, in order. *)
Definition held (t : ai_trackpad_tracker) : list Z :=
  filter (fun s => active (slots t) .[ s ] = true) (seqZ 0 11).

Lemma gather_spec t :
  exists old_slots,
    for_range 0 AI_APPLE_TRACKPAD_MAX_CONTACTS (gather_slot t)
      (replicate 11 0, replicate 11 0, replicate 11 0, 0) =
      (replicate 11 (-1), replicate 11 (-1), old_slots, zlen (held t)) /\
    zlen (held t) <= 11 /\ (fun a => old_slots .[ a ]) <$> seqZ 0 (zlen (held t)) = held t.
Proof.
  unfold AI_APPLE_TRACKPAD_MAX_CONTACTS.
  set (upto := fun k => filter (fun s => active (slots t) .[ s ] = true) (seqZ 0 k)).
  assert (forall k, 0 <= k -> zlen (upto k) <= k) as Hlen.
  { intros k Hk. unfold upto, zlen. etrans; [apply inj_le, length_filter|]. rewrite length_seqZ. lia. }
  set (cleared := fun k => replicate (Z.to_nat k) (-1) ++ replicate (11 - Z.to_nat k) 0).
  destruct (for_range_inv (fun k st => exists os, st = (cleared k, cleared k, os, zlen (upto k)) /\
    zlen os = 11 /\ prefix_list os (zlen (upto k)) = upto k) 0 11 (gather_slot t)
    (replicate 11 0, replicate 11 0, replicate 11 0, 0)) as (os & E & Los & Hos); [lia| | |].
  - exists (replicate 11 0). by split_and!.
  - intros k st Hk (os & -> & Los & Hos). rewrite Z.add_0_l. unfold gather_slot.
    assert ((cleared k) .[ k <- -1 ] = cleared (k + 1)) as ->.
    { unfold cleared, arr_set. rewrite insert_app_r_alt, length_replicate, Nat.sub_diag by (rewrite length_replicate; lia).
      replace (11 - Z.to_nat k)%nat with (S (11 - Z.to_nat (k + 1))) by lia. simpl.
      replace (Z.to_nat (k + 1)) with (Z.to_nat k + 1)%nat by lia.
      by rewrite replicate_add, <- app_assoc. }
    assert (upto (k + 1) = upto k ++ filter (fun s => active (slots t) .[ s ] = true) [k]) as Eup.
    { unfold upto. rewrite seqZ_app by lia. by rewrite filter_app. }
    pose proof (Hlen k ltac:(lia)). pose proof (zlen_nonneg (upto k)).
    destruct (active (slots t) .[ k ]) eqn:Ha; rewrite Eup.
    + rewrite filter_cons_True by done. rewrite filter_nil, zlen_app. change (zlen [k]) with 1.
      rewrite wrap_id by (unfold fits; change (2 ^ 8) with 256; lia). eexists. split; [done|].
      split; [by rewrite zlen_set|]. by rewrite prefix_set_snoc, Hos by lia.
    + rewrite filter_cons_False by congruence. rewrite filter_nil, app_nil_r. by exists os.
  - pose proof (Hlen 11 ltac:(lia)). pose proof (zlen_nonneg (upto 11)). change (held t) with (upto 11).
    exists os. split; [by rewrite E|]. split; [done|].
    rewrite <- Hos at 2. symmetry. rewrite (list_as_fmap (prefix_list os _) (zlen (upto 11))) by (apply zlen_prefix; lia).
    apply list_fmap_ext. intros i a Hi. apply lookup_seqZ in Hi as [-> Hlt]. by apply get_prefix; lia.
Qed.

(** ** Carrying the known fingers *)

Section update.
Context (t : ai_trackpad_tracker) (f : ai_apple_trackpad_frame) (os o2n n2o : list Z).

Let oc : Z := zlen (held t).

Hypothesis Ht : tracker_ok t.
Hypothesis Hf : frame_ok f.
Hypothesis Hos : (fun a => os .[ a ]) <$> seqZ 0 oc = held t.
Hypothesis Harr : match_arrays f oc o2n n2o.

Lemma held_at a : 0 <= a < oc -> os .[ a ] ∈ held t /\ 0 <= os .[ a ] < 11 /\ active (finger t os a) = true.
Proof.
  intros Ha. assert (os .[ a ] ∈ held t) as Hin.
  { rewrite <- Hos. apply list_elem_of_fmap. exists a. split; [done|]. apply elem_of_seqZ. lia. }
  split; [done|]. apply list_elem_of_filter in Hin as [Hact Hin]. apply elem_of_seqZ in Hin.
  split; [lia|done].
Qed.

Lemma held_index s : s ∈ held t -> exists a, 0 <= a < oc /\ os .[ a ] = s.
Proof.
  rewrite <- Hos. intros (a & -> & Ha)%list_elem_of_fmap. apply elem_of_seqZ in Ha. exists a. split; [lia|done].
Qed.

Lemma held_inj a a' : 0 <= a < oc -> 0 <= a' < oc -> os .[ a ] = os .[ a' ] -> a = a'.
Proof.
  intros Ha Ha' E. assert (NoDup (held t)) as Hnd by apply NoDup_filter, NoDup_seqZ.
  assert (forall b, 0 <= b < oc -> held t !! Z.to_nat b = Some os .[ b ]) as Hb.
  { intros b Hb. rewrite <- Hos, list_lookup_fmap, lookup_seqZ_lt by lia. simpl. do 2 f_equal. lia. }
  assert (Z.to_nat a = Z.to_nat a') as En.
  { apply (NoDup_lookup (held t) _ _ os .[ a ]); [done|by apply Hb|]. rewrite E. by apply Hb. }
  lia.
Qed.

Lemma slot_active s : 0 <= s < 11 -> (s ∈ held t <-> active (slots t) .[ s ] = true).
Proof. intros Hs. unfold held. rewrite list_elem_of_filter, elem_of_seqZ. split; [tauto|]. intros; split; [done|lia]. Qed.

(** A per-slot view of an array is a view of the held slots, when only they show. *)
Lemma omap_held {B} (g : ai_trackpad_physical_slot -> option B) (l : list ai_trackpad_physical_slot) :
  zlen l = 11 -> (forall s, 0 <= s < 11 -> s ∉ held t -> g l .[ s ] = None) ->
  omap g l = omap (fun a => g l .[ os .[ a ] ]) (seqZ 0 oc).
Proof.
  intros Hl Hnone. rewrite (list_as_fmap l 11 Hl) at 1.
  rewrite (omap_fmap_in _ _ (fun s => g l .[ s ])) by done.
  rewrite (omap_filter _ (fun s => active (slots t) .[ s ] = true)).
  - fold (held t). rewrite <- Hos. by apply omap_fmap_in.
  - intros s Hs Hact. apply elem_of_seqZ in Hs. apply Hnone; [lia|]. intros Hin.
    apply slot_active in Hin; [done|lia].
Qed.

(** A known finger after the frame: at its contact, or lifted. *)
Definition moved (a : Z) : ai_trackpad_physical_slot :=
  (finger t os a) <| s_x := c_x (contact f o2n .[ a ]) |> <| s_y := c_y (contact f o2n .[ a ]) |>.
Definition carried (a : Z) : ai_trackpad_physical_slot :=
  if 0 <=? o2n .[ a ] then moved a
  else (finger t os a) <| active := false |> <| admitted := false |>.

(** What the report says of it. *)
Definition finger_report (a : Z) : option ai_trackpad_output_contact :=
  if admitted (finger t os a) then
    let s := if 0 <=? o2n .[ a ] then moved a else finger t os a in
    Some (Build_ai_trackpad_output_contact (0 <=? o2n .[ a ]) (windows_id (finger t os a)) (s_x s) (s_y s))
  else None.
Definition finger_reports (k : Z) : list ai_trackpad_output_contact := omap finger_report (seqZ 0 k).

Lemma reports_snoc k : 0 <= k -> finger_reports (k + 1) = finger_reports k ++ option_list (finger_report k).
Proof.
  intros Hk. unfold finger_reports. rewrite seqZ_app, omap_app by lia.
  change (seqZ (0 + k) 1) with [0 + k]. rewrite Z.add_0_l. cbn. by destruct (finger_report k).
Qed.

Lemma slot_contact_idle s : 0 <= s < 11 -> s ∉ held t -> slot_contact (slots t) .[ s ] = None.
Proof.
  intros Hs Hn. pose proof (w_slots t Ht) as Hok. rewrite slot_active in Hn by done.
  assert (slot_ok (slots t) .[ s ]) as [Hadm _] by (apply arr_get_Forall; [done|rewrite (w_size t Ht); lia]).
  unfold slot_contact. destruct (admitted _); [|done]. by destruct Hn; apply Hadm.
Qed.

Lemma reports_ids k :
  0 <= k <= oc ->
  NoDup (out_id <$> finger_reports k) /\ Forall (fun c => 0 <= out_id c < 5) (finger_reports k).
Proof.
  intros Hk.
  assert (out_id <$> finger_reports oc = out_id <$> omap slot_contact (slots t)) as E.
  { rewrite (omap_held slot_contact (slots t) (w_size t Ht) slot_contact_idle).
    unfold finger_reports. clear. induction (seqZ 0 oc) as [|a l IH]; [done|]. cbn [omap list_omap].
    fold (finger t os a). unfold finger_report at 1, slot_contact at 1.
    destruct (admitted (finger t os a)); [|exact IH]. cbn [fmap list_fmap]. f_equal. exact IH. }
  assert (finger_reports oc = finger_reports k ++ omap finger_report (seqZ k (oc - k))) as Epre.
  { unfold finger_reports. rewrite <- omap_app. f_equal.
    replace oc with (k + (oc - k)) at 1 by lia. by rewrite seqZ_app by lia. }
  assert (Forall (fun id => 0 <= id < 5) (out_id <$> finger_reports oc)) as Hids.
  { rewrite E. apply Forall_fmap. exact (w_ids t Ht). }
  pose proof (w_nodup t Ht) as Hnd. rewrite <- E, Epre, fmap_app in Hnd.
  rewrite Epre, fmap_app in Hids. apply Forall_app in Hids as [Hids _]. apply NoDup_app in Hnd as (Hnd & _).
  split; [done|]. by apply Forall_fmap in Hids.
Qed.

(** After [k] fingers. *)
Record carrying (k : Z) (t' : ai_trackpad_tracker) (o o' : ai_trackpad_output_frame) : Prop := {
  y_size : zlen (slots t') = 11;
  y_done : forall a, 0 <= a < oc -> (slots t') .[ os .[ a ] ] = if decide (a < k) then carried a else finger t os a;
  y_other : forall s, 0 <= s < 11 -> s ∉ held t -> (slots t') .[ s ] = (slots t) .[ s ];
  y_report : report_ok o' (finger_reports k);
  y_kept : out_button o' = out_button o /\ suppressed_count o' = suppressed_count o;
}.

Lemma append_kept o tip_ id x y :
  out_button (append_output o tip_ id x y) = out_button o /\
  suppressed_count (append_output o tip_ id x y) = suppressed_count o.
Proof. by destruct tip_. Qed.

Lemma finger_appended k o o' slot :
  0 <= k < oc -> report_ok o' (finger_reports k) ->
  out_button o' = out_button o /\ suppressed_count o' = suppressed_count o ->
  windows_id slot = windows_id (finger t os k) -> admitted slot = admitted (finger t os k) ->
  s_x slot = s_x (if 0 <=? o2n .[ k ] then moved k else finger t os k) ->
  s_y slot = s_y (if 0 <=? o2n .[ k ] then moved k else finger t os k) ->
  let o'' := if admitted slot
    then append_output o' (0 <=? o2n .[ k ]) (windows_id slot) (s_x slot) (s_y slot) else o' in
  report_ok o'' (finger_reports (k + 1)) /\
  out_button o'' = out_button o /\ suppressed_count o'' = suppressed_count o.
Proof.
  intros Hk Hrep Hkept -> -> -> ->. cbn zeta.
  destruct (reports_ids (k + 1) ltac:(lia)) as [Hnd Hids]. rewrite reports_snoc in * by lia.
  unfold finger_report in *. destruct (admitted (finger t os k)); cbn [option_list] in *.
  - rewrite fmap_app in Hnd. apply NoDup_app in Hnd as (_ & Hdis & _).
    apply Forall_app in Hids as [_ Hids]. apply Forall_cons in Hids as [Hids _].
    destruct (append_kept o' (0 <=? o2n .[ k ]) (windows_id (finger t os k))
      (s_x (if 0 <=? o2n .[ k ] then moved k else finger t os k))
      (s_y (if 0 <=? o2n .[ k ] then moved k else finger t os k))) as [-> ->].
    split; [|done]. apply report_append; [done|exact Hids|]. intros Hin'. apply (Hdis _ Hin'). by left.
  - by rewrite app_nil_r.
Qed.

Lemma carry_step k t' o o' :
  0 <= k < oc -> carrying k t' o o' ->
  let '(t'', o'') := carry_slot f os o2n k (t', o') in carrying (k + 1) t'' o o''.
Proof.
  intros Hk [Hz Hdone Hother Hrep Hkept]. unfold carry_slot.
  pose proof (Hdone k Hk) as Ek. rewrite decide_False in Ek by lia. rewrite Ek.
  destruct (held_at k Hk) as (Hin & Hb11 & _).
  assert (forall slot o'', slot = carried k ->
    report_ok o'' (finger_reports (k + 1)) /\ out_button o'' = out_button o /\
      suppressed_count o'' = suppressed_count o ->
    carrying (k + 1) (t' <| slots := (slots t') .[ os .[ k ] <- slot ] |>) o o'') as Hfin.
  { intros slot o'' -> [Hr Hkept']. split; cbn; try done.
    - by rewrite zlen_set.
    - intros a Ha. destruct (decide (a = k)) as [->|Hne].
      + rewrite get_set_eq by lia. by rewrite decide_True by lia.
      + destruct (held_at a Ha) as (_ & ? & _). rewrite get_set_ne; [|lia|lia|intros E; by apply held_inj in E].
        rewrite Hdone by done. repeat case_decide; done || lia.
    - intros s Hs' Hn. rewrite get_set_ne by (lia || by intros <-). by apply Hother. }
  pose proof (f_count f Hf). pose proof (j_old _ _ _ _ Harr k Hk) as Hold.
  pose proof (finger_appended k o o') as Happ.
  unfold carried in Hfin. destruct (Z.leb_spec 0 o2n .[ k ]) as [Hle|Hle].
  - rewrite wrap_id by (unfold fits; change (2 ^ 8) with 256; lia).
    apply Hfin; [done|]. by apply Happ.
  - apply Hfin; [done|]. by apply Happ.
Qed.

Lemma carry_spec o :
  report_ok o [] ->
  let '(t', o') := for_range 0 oc (carry_slot f os o2n) (t, o) in carrying oc t' o o'.
Proof.
  intros Ho. set (P := fun k (st : ai_trackpad_tracker * ai_trackpad_output_frame) =>
    let '(t', o') := st in carrying k t' o o').
  assert (P oc (for_range 0 oc (carry_slot f os o2n) (t, o))) as H; [|by destruct (for_range _ _ _ _)].
  apply (for_range_inv P); [apply zlen_nonneg| |].
  - split; try done; [exact (w_size t Ht)|]. intros a Ha. by rewrite decide_False by lia.
  - intros k [t' o'] Hk H. rewrite Z.add_0_l. pose proof (carry_step k t' o o' Hk H) as Hs.
    unfold P. by destruct (carry_slot _ _ _ _ _).
Qed.
(** ** After the known fingers *)

Lemma finger_ok a : 0 <= a < oc -> slot_ok (finger t os a).
Proof.
  intros Ha. destruct (held_at a Ha) as (_ & Hb & _). unfold finger.
  apply (arr_get_Forall slot_ok); [exact (w_slots t Ht)|]. rewrite (w_size t Ht). lia.
Qed.

Lemma contact_ok n : 0 <= n < count f -> is_s16 (c_x (contact f n)) /\ is_s16 (c_y (contact f n)).
Proof.
  intros Hn. pose proof (f_count f Hf). apply (arr_get_Forall (fun c => is_s16 (c_x c) /\ is_s16 (c_y c)));
    [exact (f_coords f Hf)|]. rewrite (f_size f Hf). lia.
Qed.

Lemma carried_ok a : 0 <= a < oc -> slot_ok (carried a).
Proof.
  intros Ha. destruct (finger_ok a Ha) as [Hadm Hc]. pose proof (j_old _ _ _ _ Harr a Ha) as Hold.
  unfold carried. destruct (Z.leb_spec 0 o2n .[ a ]); [|by split].
  split; [exact Hadm|]. apply contact_ok. lia.
Qed.

Lemma carried_slots t' o o' : carrying oc t' o o' -> Forall slot_ok (slots t').
Proof.
  intros H. rewrite (list_as_fmap (slots t') 11 (y_size _ _ _ _ H)). apply Forall_fmap, Forall_forall.
  intros s Hs. apply elem_of_seqZ in Hs. cbn. destruct (decide (s ∈ held t)) as [Hin|Hn].
  - destruct (held_index s Hin) as (a & Ha & <-). rewrite (y_done _ _ _ _ H a Ha), decide_True by lia.
    by apply carried_ok.
  - rewrite (y_other _ _ _ _ H s) by (done || lia). apply arr_get_Forall; [exact (w_slots t Ht)|].
    rewrite (w_size t Ht). lia.
Qed.

(** What the slots show after the carry, finger by finger. *)
Lemma carried_view {B} (g : ai_trackpad_physical_slot -> option B) t' o o' :
  carrying oc t' o o' -> (forall s, 0 <= s < 11 -> s ∉ held t -> g (slots t) .[ s ] = None) ->
  omap g (slots t') = omap (fun a => g (carried a)) (seqZ 0 oc).
Proof.
  intros H Hnone. rewrite (omap_held g (slots t') (y_size _ _ _ _ H)).
  - rewrite <- (list_fmap_id (seqZ 0 oc)) at 1. apply omap_fmap_in. intros a Ha. apply elem_of_seqZ in Ha.
    unfold id. rewrite (y_done _ _ _ _ H a ltac:(lia)). by rewrite decide_True by lia.
  - intros s Hs Hn. rewrite (y_other _ _ _ _ H s Hs Hn). by apply Hnone.
Qed.

Lemma finger_view a :
  slot_contact (carried a) =
  (c ← finger_report a; if tip c then Some c else None).
Proof.
  unfold finger_report, slot_contact, carried. destruct (0 <=? o2n .[ a ]);
    cbn; destruct (admitted (finger t os a)); done.
Qed.

Lemma carried_tips t' o o' :
  carrying oc t' o o' ->
  filter (fun c => tip c = true) (finger_reports oc) = omap slot_contact (slots t').
Proof.
  intros H. rewrite (carried_view slot_contact t' o o' H slot_contact_idle).
  unfold finger_reports. clear. induction (seqZ 0 oc) as [|a l IH]; [done|]. cbn [omap list_omap].
  fold (omap finger_report l) (omap (fun a => slot_contact (carried a)) l).
  rewrite finger_view, <- IH. destruct (finger_report a) as [c|]; [|done]. cbn [mbind option_bind].
  destruct (tip c) eqn:Etip; [by rewrite filter_cons_True|rewrite filter_cons_False by congruence; done].
Qed.

Lemma slot_place_idle s : 0 <= s < 11 -> s ∉ held t -> slot_place (slots t) .[ s ] = None.
Proof. intros Hs Hn. rewrite slot_active in Hn by done. unfold slot_place. by destruct (active _). Qed.

Lemma carried_places t' o o' :
  carrying oc t' o o' ->
  omap slot_place (slots t') ≡ₚ contact f <$> filter (fun n => 0 <= n2o .[ n ]) (seqZ 0 (count f)).
Proof.
  intros H. rewrite (carried_view slot_place t' o o' H slot_place_idle).
  assert (omap (fun a => slot_place (carried a)) (seqZ 0 oc) =
    (fun a => contact f o2n .[ a ]) <$> filter (fun a => 0 <= o2n .[ a ]) (seqZ 0 oc)) as ->.
  { assert (forall a, a ∈ seqZ 0 oc -> active (finger t os a) = true) as Hact.
    { intros a Ha. apply elem_of_seqZ in Ha. apply held_at. lia. }
    clear -Hact. induction (seqZ 0 oc) as [|a l IH]; [done|]. cbn [omap list_omap].
    fold (omap (fun a => slot_place (carried a)) l). rewrite IH by (intros; apply Hact; by right).
    specialize (Hact a ltac:(by left)). unfold slot_place, carried.
    destruct (Z.leb_spec 0 o2n .[ a ]) as [Hle|Hlt].
    - rewrite filter_cons_True by done. cbn. rewrite Hact. by destruct (contact f o2n .[ a ]).
    - rewrite filter_cons_False by lia. done. }
  change (fun a => contact f o2n .[ a ]) with (contact f ∘ (fun a => o2n .[ a ])).
  rewrite list_fmap_compose. apply Permutation_map.
  destruct Harr as [_ Hold Hnew Hlink _]. apply NoDup_Permutation.
  - apply NoDup_fmap_2_strong; [|apply NoDup_filter, NoDup_seqZ]. intros a a' Ha Ha' E.
    apply list_elem_of_filter in Ha as [H0 Ha], Ha' as [H0' Ha']. apply elem_of_seqZ in Ha, Ha'. cbn beta in *.
    pose proof (Hold a ltac:(lia)) as Ho. pose proof (Hold a' ltac:(lia)) as Ho'.
    assert (n2o .[ o2n .[ a ] ] = a) as <- by (apply Hlink; done || lia).
    rewrite E. apply Hlink; done || lia.
  - apply NoDup_filter, NoDup_seqZ.
  - intros n. rewrite list_elem_of_fmap, list_elem_of_filter, elem_of_seqZ. split.
    + intros (a & -> & Ha). apply list_elem_of_filter in Ha as [H0 Ha]. apply elem_of_seqZ in Ha. cbn beta in *.
      specialize (Hold a ltac:(lia)). assert (n2o .[ o2n .[ a ] ] = a) by (apply Hlink; done || lia). lia.
    + intros (H0 & Hn). specialize (Hnew n ltac:(lia)). exists n2o .[ n ].
      assert (o2n .[ n2o .[ n ] ] = n) as E by (apply Hlink; done || lia). split; [done|].
      apply list_elem_of_filter. rewrite elem_of_seqZ. lia.
Qed.

(** An id still marked available is in no report of a known finger. *)
Lemma available_spec id :
  0 <= id < 5 ->
  let available := for_range 0 oc (mark_used t os) (fill_loop 0 AI_PTP_MAX_CONTACTS (fun _ => true) (replicate 5 false)) in
  zlen available = 5 /\ (available .[ id ] = true -> id ∉ out_id <$> finger_reports oc).
Proof.
  intros Hid. cbn zeta.
  assert (forall a, 0 <= a < oc -> admitted (finger t os a) = true -> 0 <= windows_id (finger t os a) < 5) as Hrange.
  { intros a Ha Hadm. destruct (reports_ids oc ltac:(lia)) as [_ Hids]. rewrite Forall_forall in Hids.
    set (s := if 0 <=? o2n .[ a ] then moved a else finger t os a).
    apply (Hids (Build_ai_trackpad_output_contact (0 <=? o2n .[ a ]) (windows_id (finger t os a)) (s_x s) (s_y s))).
    apply list_elem_of_omap. exists a. split; [apply elem_of_seqZ; lia|]. unfold finger_report. by rewrite Hadm. }
  set (P := fun k (av : list bool) => zlen av = 5 /\ (av .[ id ] = true ->
    forall a, 0 <= a < k -> admitted (finger t os a) = true -> windows_id (finger t os a) <> id)).
  assert (P oc (for_range 0 oc (mark_used t os) (fill_loop 0 AI_PTP_MAX_CONTACTS (fun _ => true) (replicate 5 false))))
    as [Hz Hav].
  { apply (for_range_inv P); [apply zlen_nonneg|split; [done|lia]|].
    intros k av Hk [Hz Hav]. rewrite Z.add_0_l. unfold mark_used. fold (finger t os k). unfold AI_PTP_MAX_CONTACTS.
    destruct (admitted (finger t os k)) eqn:Hadm; cbn [andb].
    - specialize (Hrange k Hk Hadm). rewrite (proj2 (Z.ltb_lt _ 5)) by lia. split; [by rewrite zlen_set|].
      rewrite get_set by lia. case_decide as Hw; [done|]. intros Hid' a Ha Ha'.
      destruct (decide (a = k)) as [->|]; [done|]. by apply Hav; [|lia|].
    - split; [done|]. intros Hid' a Ha Ha'. destruct (decide (a = k)) as [->|]; [congruence|].
      by apply Hav; [|lia|]. }
  split; [done|]. intros Hid' Hin. apply list_elem_of_fmap in Hin as (c & -> & Hin).
  apply list_elem_of_omap in Hin as (a & Ha & Hc). apply elem_of_seqZ in Ha.
  unfold finger_report in Hc. destruct (admitted (finger t os a)) eqn:Hadm; [|done].
  injection Hc as <-. by apply (Hav Hid' a).
Qed.
(** ** Taking in the new contacts *)

(** The contacts that have a slot before round [k]. *)
Definition placed (k n : Z) : Prop := 0 <= n2o .[ n ] \/ n < k.
#[local] Instance placed_dec k n : Decision (placed k n).
Proof. unfold placed. apply _. Defined.
Definition placed_contacts (k : Z) : list Z := filter (placed k) (seqZ 0 (count f)).

Lemma placed_known k : 0 <= n2o .[ k ] -> placed_contacts (k + 1) = placed_contacts k.
Proof.
  intros Hk. apply filter_ext_in. intros n _. unfold placed.
  destruct (decide (n = k)) as [->|]; [tauto|]. split; (intros [?|?]; [by left|right; lia]).
Qed.

Lemma placed_new k : 0 <= k < count f -> n2o .[ k ] < 0 -> placed_contacts (k + 1) ≡ₚ k :: placed_contacts k.
Proof.
  intros Hk Hn. apply NoDup_Permutation.
  - apply NoDup_filter, NoDup_seqZ.
  - apply NoDup_cons. split; [|apply NoDup_filter, NoDup_seqZ].
    intros Hin%list_elem_of_filter. unfold placed in Hin. lia.
  - intros n. unfold placed_contacts. rewrite elem_of_cons, !list_elem_of_filter, elem_of_seqZ. unfold placed.
    destruct (decide (n = k)) as [->|]; [split; [by left|intros _; split; lia]|].
    split; [intros [Hp Hb]; right; split; [|done]; lia|intros [?|[Hp Hb]]; [done|split; [|done]; lia]].
Qed.

Lemma placed_length k : zlen (placed_contacts k) <= count f.
Proof.
  unfold placed_contacts, zlen. pose proof (f_count f Hf).
  etrans; [apply inj_le, length_filter|]. rewrite length_seqZ. lia.
Qed.

(** After [k] rounds, from the tracker [t1] and report [o1] of the carry. *)
Record admitting (t1 : ai_trackpad_tracker) (o : ai_trackpad_output_frame) (k : Z) (st : admit_state)
    (l : list ai_trackpad_output_contact) : Prop := {
  x_ok : failed st = false;
  x_size : zlen (slots (ad_tracker st)) = 11;
  x_available : zlen (ad_available st) = 5;
  x_report : report_ok (ad_out st) l;
  x_fresh : forall id, 0 <= id < 5 -> (ad_available st) .[ id ] = true -> id ∉ out_id <$> l;
  x_tips : filter (fun c => tip c = true) l ≡ₚ omap slot_contact (slots (ad_tracker st));
  x_slots : Forall slot_ok (slots (ad_tracker st));
  x_places : omap slot_place (slots (ad_tracker st)) ≡ₚ contact f <$> placed_contacts k;
  x_lifts : filter (fun c => tip c = false) l = filter (fun c => tip c = false) (finger_reports oc);
  x_same : forall s, active (slots t1) .[ s ] = true -> (slots (ad_tracker st)) .[ s ] = (slots t1) .[ s ];
  x_kept : out_button (ad_out st) = out_button o /\ suppressed_count (ad_out st) = suppressed_count o;
}.

Lemma full_places (l : list ai_trackpad_physical_slot) :
  (forall s, 0 <= s < zlen l -> active l .[ s ] = true) -> zlen (omap slot_place l) = zlen l.
Proof.
  intros Hall. assert (Forall (fun s => active s = true) l) as H.
  { apply Forall_lookup. intros i s Hi. pose proof (lookup_lt_Some _ _ _ Hi) as Hlt.
    specialize (Hall (Z.of_nat i) ltac:(unfold zlen; lia)). unfold arr_get in Hall.
    by rewrite Nat2Z.id, (list_lookup_total_correct _ _ _ Hi) in Hall. }
  clear Hall. unfold zlen. induction H as [|s l Hs _ IH]; [done|]. cbn [omap list_omap].
  fold (omap slot_place l). unfold slot_place at 1. rewrite Hs. simpl. lia.
Qed.

(** While a contact waits there is a slot for it. *)
Lemma waiting_has_slot t1 o k st l :
  0 <= k < count f -> n2o .[ k ] < 0 -> admitting t1 o k st l ->
  exists i, find_range 0 11 (fun i => negb (active (slots (ad_tracker st)) .[ i ])) = Some i /\
    0 <= i < 11 /\ active (slots (ad_tracker st)) .[ i ] = false.
Proof.
  intros Hk Hn H. destruct (find_range 0 11 _) as [i|] eqn:E.
  - apply find_range_Some in E as (Hi & Hact & _). apply negb_true_iff in Hact. exists i. split_and!; [done|lia..|done].
  - exfalso. rewrite find_range_None in E.
    pose proof (full_places (slots (ad_tracker st))) as Hfull. rewrite (x_size _ _ _ _ _ H) in Hfull.
    specialize (Hfull ltac:(intros s Hs; apply negb_false_iff, E; lia)).
    pose proof (placed_length (k + 1)) as Hle. unfold zlen in *.
    rewrite (placed_new k Hk Hn) in Hle. simpl in Hle.
    rewrite (x_places _ _ _ _ _ H), length_fmap in Hfull. pose proof (f_count f Hf). lia.
Qed.

(** Filling a free slot [i] with a finger at contact [k]. *)
Lemma fill_slot t1 o k st l i slot :
  0 <= k < count f -> n2o .[ k ] < 0 -> admitting t1 o k st l ->
  0 <= i < 11 -> active (slots (ad_tracker st)) .[ i ] = false ->
  active slot = true -> s_x slot = c_x (contact f k) -> s_y slot = c_y (contact f k) ->
  let l' := (slots (ad_tracker st)) .[ i <- slot ] in
  zlen l' = 11 /\ Forall slot_ok l' /\
  omap slot_contact l' ≡ₚ option_list (slot_contact slot) ++ omap slot_contact (slots (ad_tracker st)) /\
  omap slot_place l' ≡ₚ contact f <$> placed_contacts (k + 1) /\
  forall s, active (slots t1) .[ s ] = true -> l' .[ s ] = (slots t1) .[ s ].
Proof.
  intros Hk Hn H Hi Hfree Hact Ex Ey. cbn zeta.
  pose proof (x_size _ _ _ _ _ H) as Hz. pose proof (x_slots _ _ _ _ _ H) as Hok.
  assert (slot_ok (slots (ad_tracker st)) .[ i ]) as [Hadm _] by (apply (arr_get_Forall slot_ok); [done|lia]).
  split_and!.
  - by rewrite zlen_set.
  - apply arr_set_Forall; [done|]. split; [done|]. rewrite Ex, Ey. by apply contact_ok.
  - apply omap_set_fresh; [lia|]. unfold slot_contact. destruct (admitted _); [|done].
    specialize (Hadm eq_refl). congruence.
  - rewrite omap_set_fresh; [|lia|by unfold slot_place; rewrite Hfree].
    rewrite (x_places _ _ _ _ _ H), (placed_new k Hk Hn). unfold slot_place. rewrite Hact, Ex, Ey.
    rewrite fmap_cons. by destruct (contact f k).
  - intros s Hs. pose proof (x_same _ _ _ _ _ H s Hs) as E. unfold arr_get, arr_set in *.
    rewrite list_lookup_total_insert_ne; [done|]. intros Ei. rewrite Ei in Hfree.
    rewrite E in Hfree. congruence.
Qed.

Lemma admit_step t1 o k st l :
  0 <= k < count f -> admitting t1 o k st l ->
  exists l', admitting t1 o (k + 1) (admit_contact f n2o k st) l'.
Proof.
  intros Hk H. destruct (Z.lt_ge_cases n2o .[ k ] 0) as [Hn|Hn].
  2:{ exists l. unfold admit_contact. rewrite (proj2 (Z.leb_le _ _) Hn), orb_true_r.
      destruct st as [t' o' av fl]. destruct H; split; try done. by rewrite placed_known. }
  destruct (waiting_has_slot t1 o k st l Hk Hn H) as (i & Ei & Hi & Hfree).
  pose proof (fill_slot t1 o k st l i) as Hfill. pose proof H as [Hok Hz Hza Hrep Hfresh Htips Hslots Hpl Hlifts Hsame Hkept].
  destruct st as [t' o' av fl]. cbn [ad_tracker ad_out ad_available failed] in *. subst fl.
  unfold admit_contact. cbn [failed orb]. rewrite (proj2 (Z.leb_gt _ _) Hn).
  unfold AI_APPLE_TRACKPAD_MAX_CONTACTS. rewrite Ei. unfold AI_PTP_MAX_CONTACTS.
  destruct (find_range 0 5 _) as [id|] eqn:Eid.
  - apply find_range_Some in Eid as (Hid & Hav & _). fold (contact f k).
    match goal with |- context [(slots t') .[ i <- ?x ]] => set (slot := x) end.
    destruct (Hfill slot Hk Hn H Hi Hfree) as (Hz' & Hslots' & Hcon & Hpl' & Hsame'); [done..|].
    set (c := Build_ai_trackpad_output_contact true id (s_x slot) (s_y slot)).
    exists (l ++ [c]). split; cbn [ad_tracker ad_out ad_available failed slots set_field eta_expand tracker_eta]; try done.
    + by rewrite zlen_set.
    + apply report_append; [done|lia|]. apply Hfresh; [lia|done].
    + intros id' Hid'. rewrite get_set by lia. case_decide; [done|]. intros Hav'.
      rewrite fmap_app, not_elem_of_app. split; [by apply Hfresh|]. by intros ?%list_elem_of_singleton.
    + rewrite Hcon, filter_app, Htips. rewrite Permutation_app_comm. by rewrite filter_cons_True.
    + rewrite filter_app, filter_cons_False, filter_nil, app_nil_r by done. done.
  - fold (contact f k). match goal with |- context [(slots t') .[ i <- ?x ]] => set (slot := x) end.
    destruct (Hfill slot Hk Hn H Hi Hfree) as (Hz' & Hslots' & Hcon & Hpl' & Hsame'); [done..|].
    exists l. split; cbn [ad_tracker ad_out ad_available failed slots set_field eta_expand tracker_eta]; try done.
    by rewrite Hcon.
Qed.

Lemma admit_spec t1 o o1 available :
  carrying oc t1 o o1 ->
  zlen available = 5 ->
  (forall id, 0 <= id < 5 -> available .[ id ] = true -> id ∉ out_id <$> finger_reports oc) ->
  exists l, admitting t1 o (count f)
    (for_range 0 (count f) (admit_contact f n2o) (Build_admit_state t1 o1 available false)) l.
Proof.
  intros H Hz Hav. pose proof (f_count f Hf).
  apply (for_range_inv (fun k st => exists l, admitting t1 o k st l)); [lia| |].
  - exists (finger_reports oc). split; cbn; try done.
    + exact (y_size _ _ _ _ H).
    + exact (y_report _ _ _ _ H).
    + by rewrite (carried_tips t1 o o1 H).
    + by apply (carried_slots t1 o o1).
    + rewrite (carried_places t1 o o1 H). unfold placed_contacts.
      erewrite filter_ext_in; [reflexivity|]. intros n Hn. apply elem_of_seqZ in Hn. unfold placed. lia.
    + exact (y_kept _ _ _ _ H).
  - intros k st Hk (l & Hl). rewrite Z.add_0_l. by apply (admit_step t1 o k st l).
Qed.
End update.

(** ** The whole update *)

Definition lonely (s : ai_trackpad_physical_slot) : Prop := active s = true /\ admitted s = false.
#[export] Instance lonely_dec s : Decision (lonely s).
Proof. unfold lonely. apply _. Defined.

Lemma slots_count l :
  Forall slot_ok l -> zlen (omap slot_place l) = zlen (omap slot_contact l) + zlen (filter lonely l).
Proof.
  induction 1 as [|s l [Hadm _] _ IH]; [done|]. cbn [omap list_omap].
  fold (omap slot_place l) (omap slot_contact l). unfold slot_place at 1, slot_contact at 1.
  unfold zlen in *. destruct (decide (lonely s)) as [[Ha Hn]|Hs].
  - rewrite filter_cons_True by done. rewrite Ha, Hn. simpl. lia.
  - rewrite filter_cons_False by done. unfold lonely in Hs.
    destruct (active s), (admitted s); simpl;
      first [lia | by destruct Hs | by specialize (Hadm eq_refl)].
Qed.

Lemma suppressed_spec t o :
  zlen (slots t) = 11 -> suppressed_count o = 0 ->
  for_range 0 AI_APPLE_TRACKPAD_MAX_CONTACTS (count_suppressed t) o =
  o <| suppressed_count := zlen (filter lonely (slots t)) |>.
Proof.
  intros Hz H0. unfold AI_APPLE_TRACKPAD_MAX_CONTACTS.
  assert (prefix_list (slots t) 11 = slots t) as Eall.
  { unfold prefix_list. apply take_ge. unfold zlen in Hz. lia. }
  rewrite <- Eall. refine (for_range_inv (fun k o' => o' = o <| suppressed_count :=
    zlen (filter lonely (prefix_list (slots t) k)) |>) 0 11 _ o _ _ _); [lia| |].
  - rewrite prefix_list_0. destruct o. cbn in *. by subst.
  - intros k o' Hk ->. rewrite Z.add_0_l, prefix_list_snoc, filter_app, zlen_app by lia.
    assert (0 <= zlen (filter lonely (prefix_list (slots t) k)) <= 11) as Hb.
    { pose proof (length_filter lonely (prefix_list (slots t) k)).
      assert (zlen (prefix_list (slots t) k) = k) as Ek by (apply zlen_prefix; lia). unfold zlen in *. lia. }
    unfold count_suppressed. destruct (decide (lonely (slots t) .[ k ])) as [Hl|Hl].
    + rewrite filter_cons_True by done. destruct Hl as [-> ->]. cbn. f_equal.
      change (zlen [(slots t) .[ k ]]) with 1. apply wrap_id. unfold fits. change (2 ^ 8) with 256. lia.
    + rewrite filter_cons_False by done. unfold lonely in Hl.
      change (zlen (filter lonely [])) with 0. rewrite Z.add_0_r.
      destruct (active _), (admitted _); cbn; done || by destruct Hl.
Qed.

Lemma strictly_sorted (l : list ai_trackpad_output_contact) :
  StronglySorted id_le l -> NoDup (out_id <$> l) -> StronglySorted Z.lt (out_id <$> l).
Proof.
  induction 1 as [|c l _ IH Hc]; intros Hnd; [constructor|].
  apply NoDup_cons in Hnd as [Hn Hnd]. cbn [fmap list_fmap]. constructor; [by apply IH|].
  apply Forall_fmap, Forall_forall. intros d Hd. rewrite Forall_forall in Hc.
  specialize (Hc d Hd). unfold id_le in Hc. cbn.
  assert (out_id c <> out_id d); [|lia]. intros E. apply Hn. rewrite E.
  apply list_elem_of_fmap. by exists d.
Qed.

(** What one frame does: [t] becomes [t'] and the report is [o]. *)
Record followed (t : ai_trackpad_tracker) (f : ai_apple_trackpad_frame)
    (t' : ai_trackpad_tracker) (o : ai_trackpad_output_frame) : Prop := {
  (* the fingers are at the frame's contacts *)
  o_places : omap slot_place (slots t') ≡ₚ prefix_list (contacts f) (count f);
  (* a finger stays in its slot, with its id, or lifts *)
  o_fingers : forall s, 0 <= s < 11 -> active (slots t) .[ s ] = true ->
    (exists n, 0 <= n < count f /\ (slots t') .[ s ] =
       (slots t) .[ s ] <| s_x := c_x (contacts f) .[ n ] |> <| s_y := c_y (contacts f) .[ n ] |>) \/
    (admitted (slots t) .[ s ] = true ->
       Build_ai_trackpad_output_contact false (windows_id (slots t) .[ s ])
         (s_x (slots t) .[ s ]) (s_y (slots t) .[ s ]) ∈ reported o);
  (* the report is exactly the admitted fingers and the lifted ones *)
  o_tips : filter (fun c => tip c = true) (reported o) ≡ₚ omap slot_contact (slots t');
  o_lifts : forall c, c ∈ reported o -> tip c = false ->
    exists s, s ∈ slots t /\ slot_contact s =
      Some (Build_ai_trackpad_output_contact true (out_id c) (out_x c) (out_y c));
  (* in id order, every id once *)
  o_order : StronglySorted Z.lt (out_id <$> reported o);
  o_ids : Forall (fun c => 0 <= out_id c < 5) (reported o);
  o_counts : out_count o = zlen (reported o) /\ out_count o <= 5 /\
    active_count o = zlen (omap slot_contact (slots t')) /\
    active_count o + suppressed_count o = count f;
  o_button : out_button o = button f;
}.

Lemma admitting_tracker t f os o2n n2o t1 o st l :
  admitting t f os o2n n2o t1 o (count f) st l -> tracker_ok (ad_tracker st).
Proof.
  intros H. pose proof (x_tips _ _ _ _ _ _ _ _ _ _ H) as Htips.
  destruct (x_report _ _ _ _ _ _ _ _ _ _ H) as [_ _ _ _ Hnd Hids].
  split; [exact (x_size _ _ _ _ _ _ _ _ _ _ H)|exact (x_slots _ _ _ _ _ _ _ _ _ _ H)|..]; rewrite <- Htips.
  - rewrite Forall_forall in *. intros c [_ Hc]%list_elem_of_filter. by apply Hids.
  - clear -Hnd. induction l as [|c l IH]; [done|]. apply NoDup_cons in Hnd as [Hn Hnd].
    destruct (decide (tip c = true)).
    + rewrite filter_cons_True by done. constructor; [|by apply IH].
      intros (d & E & Hd)%list_elem_of_fmap. apply list_elem_of_filter in Hd as [_ Hd]. apply Hn.
      apply list_elem_of_fmap. by exists d.
    + rewrite filter_cons_False by done. by apply IH.
Qed.

Lemma followed_intro t f os o2n n2o t1 o1 o2 st l cs :
  tracker_ok t -> frame_ok f ->
  (fun a => os .[ a ]) <$> seqZ 0 (zlen (held t)) = held t ->
  match_arrays f (zlen (held t)) o2n n2o ->
  o1 = output_zero <| out_button := button f |> ->
  carrying t f os o2n (zlen (held t)) t1 o1 o2 ->
  admitting t f os o2n n2o t1 o1 (count f) st l ->
  prefix_list cs (out_count (ad_out st)) ≡ₚ reported (ad_out st) ->
  StronglySorted id_le (prefix_list cs (out_count (ad_out st))) ->
  followed t f (ad_tracker st)
    ((ad_out st) <| suppressed_count := zlen (filter lonely (slots (ad_tracker st))) |> <| out_contacts := cs |>).
Proof.
  intros Ht Hf Hos Harr -> Hcarry Hadm Hperm Hsorted.
  destruct (x_report _ _ _ _ _ _ _ _ _ _ Hadm) as [Hz Hcount Hlist Hact Hnd Hids].
  rewrite Hlist in Hperm. pose proof (f_count f Hf) as Hcnt. pose proof (f_size f Hf) as Hfz.
  set (o := (ad_out st) <| suppressed_count := _ |> <| out_contacts := cs |>).
  change (prefix_list cs (out_count (ad_out st))) with (reported o) in *.
  assert (omap slot_place (slots (ad_tracker st)) ≡ₚ prefix_list (contacts f) (count f)) as Hplaces.
  { rewrite (x_places _ _ _ _ _ _ _ _ _ _ Hadm). unfold placed_contacts.
    rewrite filter_all by (intros n Hn; apply elem_of_seqZ in Hn; right; lia).
    rewrite (list_as_fmap (prefix_list (contacts f) (count f)) (count f)) by (apply zlen_prefix; lia).
    erewrite list_fmap_ext; [reflexivity|]. intros i n Hi. apply lookup_seqZ in Hi as [-> Hi].
    symmetry. by apply get_prefix; lia. }
  pose proof (x_tips _ _ _ _ _ _ _ _ _ _ Hadm) as Htips.
  pose proof (x_lifts _ _ _ _ _ _ _ _ _ _ Hadm) as Hlifts.
  split.
  - exact Hplaces.
  - intros s Hb Hs. apply (slot_active t s Hb) in Hs as Hin.
    destruct (held_index t os Hos s Hin) as (a & Ha & <-).
    pose proof (y_done _ _ _ _ _ _ _ _ Hcarry a Ha) as Ec. rewrite decide_True in Ec by lia.
    unfold carried in Ec. pose proof (j_old _ _ _ _ Harr a Ha) as Hold.
    destruct (Z.leb_spec 0 o2n .[ a ]) as [Hle|Hlt].
    + left. exists o2n .[ a ]. split; [lia|]. rewrite (x_same _ _ _ _ _ _ _ _ _ _ Hadm); [exact Ec|].
      rewrite Ec. exact Hs.
    + right. intros Hadmit. rewrite Hperm.
      assert (Build_ai_trackpad_output_contact false (windows_id (finger t os a)) (s_x (finger t os a))
        (s_y (finger t os a)) ∈ filter (fun c => tip c = false) l) as Hl.
      { rewrite Hlifts. apply list_elem_of_filter. split; [done|]. apply list_elem_of_omap. exists a.
        split; [apply elem_of_seqZ; lia|]. unfold finger_report. unfold finger at 1. rewrite Hadmit.
        by rewrite (proj2 (Z.leb_gt 0 _) Hlt). }
      by apply list_elem_of_filter in Hl as [_ ?].
  - by rewrite Hperm.
  - intros c Hc Hl. rewrite Hperm in Hc.
    assert (c ∈ finger_reports t f os o2n (zlen (held t))) as Hin.
    { assert (c ∈ filter (fun c => tip c = false) l) as Hf' by by apply list_elem_of_filter.
      rewrite Hlifts in Hf'. by apply list_elem_of_filter in Hf' as [_ ?]. }
    apply list_elem_of_omap in Hin as (a & Ha & Ec). apply elem_of_seqZ in Ha.
    exists (finger t os a). split.
    + destruct (held_at t os Hos a ltac:(lia)) as (_ & Hb & _). pose proof (w_size t Ht) as Hsz.
      unfold zlen in Hsz. apply list_elem_of_lookup_total_2. unfold arr_get in Hb |- *. lia.
    + unfold finger_report in Ec. unfold slot_contact. destruct (admitted (finger t os a)); [|done].
      injection Ec as <-. cbn in Hl |- *. by rewrite Hl.
  - apply strictly_sorted; [done|]. by rewrite Hperm.
  - by rewrite Hperm.
  - pose proof (slots_count _ (x_slots _ _ _ _ _ _ _ _ _ _ Hadm)) as Hsum.
    pose proof (few_ids l Hnd Hids) as Hfew.
    assert (zlen (omap slot_place (slots (ad_tracker st))) = count f) as Hn.
    { unfold zlen at 1. rewrite Hplaces. apply zlen_prefix. lia. }
    assert (active_count (ad_out st) = zlen (omap slot_contact (slots (ad_tracker st)))) as Ha.
    { rewrite Hact. unfold zlen. by rewrite Htips. }
    assert (zlen (reported o) = zlen l) as Hl by (unfold zlen; by rewrite Hperm).
    cbn. rewrite Hl. split_and!; [done|lia|done|lia].
  - exact (proj1 (x_kept _ _ _ _ _ _ _ _ _ _ Hadm)).
Qed.

Lemma update_spec t f o0 :
  tracker_ok t -> frame_ok f ->
  exists t' o, ai_trackpad_tracker_update (Some t) (Some f) (Some o0) = Some (AI_OK, Some t', Some o) /\
    tracker_ok t' /\ followed t f t' o.
Proof.
  intros Ht Hf. pose proof (f_count f Hf) as Hcnt.
  destruct (gather_spec t) as (os & Egather & Hoc & Hos). unfold ai_trackpad_tracker_update.
  rewrite (proj2 (Z.ltb_ge AI_APPLE_TRACKPAD_MAX_CONTACTS _)) by (unfold AI_APPLE_TRACKPAD_MAX_CONTACTS; lia).
  rewrite Egather. set (o1 := output_zero <| out_button := button f |>).
  assert (matchable t f os (zlen (held t))) as Hmatch.
  { split; [pose proof (zlen_nonneg (held t)); lia|done| |].
    - intros a Ha. by apply (finger_ok t os Ht Hos).
    - intros n Hn. by apply contact_ok. }
  destruct (assignment_arrays t f os (zlen (held t)) Hmatch) as (o2n & n2o & _ & E & Harr & _).
  rewrite E.
  assert (report_ok o1 []) as Hr0 by (split; try done; constructor).
  pose proof (carry_spec t f os o2n n2o Ht Hf Hos Harr o1 Hr0) as Hcarry.
  destruct (for_range 0 (zlen (held t)) (carry_slot f os o2n) (t, o1)) as [t1 o2].
  set (av := for_range 0 (zlen (held t)) (mark_used t os) _).
  destruct (admit_spec t f os o2n n2o Ht Hf Hos Harr t1 o1 o2 av Hcarry) as (l & Hadm).
  { by apply (available_spec t f os o2n Ht Hos 0). }
  { intros id Hid. by apply (available_spec t f os o2n Ht Hos id). }
  set (st := for_range 0 (count f) (admit_contact f n2o) _) in *.
  rewrite (x_ok _ _ _ _ _ _ _ _ _ _ Hadm).
  pose proof (x_report _ _ _ _ _ _ _ _ _ _ Hadm) as Hrep.
  pose proof (x_kept _ _ _ _ _ _ _ _ _ _ Hadm) as [Hbutton Hsup].
  rewrite suppressed_spec; [|exact (x_size _ _ _ _ _ _ _ _ _ _ Hadm)|by rewrite Hsup].
  set (o3 := (ad_out st) <| suppressed_count := _ |>).
  destruct (sort_spec o3) as (cs & -> & Lcs & Hperm & Hsorted).
  { pose proof (few_ids l (r_nodup _ _ Hrep) (r_ids _ _ Hrep)). pose proof (zlen_nonneg l).
    cbn. rewrite (r_count _ _ Hrep), (r_size _ _ Hrep). lia. }
  eexists _, _. split; [done|]. split; [by apply (admitting_tracker t f os o2n n2o t1 o1 st l)|].
  apply (followed_intro t f os o2n n2o t1 o1 o2 st l cs); done.
Qed.

(** ** Reachable trackers *)

Definition tracker_zero : ai_trackpad_tracker := Build_ai_trackpad_tracker (replicate 11 inhabitant).

Lemma tracker_zero_ok : tracker_ok tracker_zero.
Proof.
  split; [done| |done|constructor]. apply Forall_replicate. unfold slot_ok, is_s16. cbn. lia.
Qed.

(** Decode a report, then update with its frame. *)
Inductive tracker_step (t t' : ai_trackpad_tracker) : Prop :=
| tracker_frame report f f0 o0 o :
    is_bytes report ->
    ai_apple_trackpad_decode (Some report) (zlen report) (Some f0) = (AI_OK, Some f) ->
    ai_trackpad_tracker_update (Some t) (Some f) (Some o0) = Some (AI_OK, Some t', Some o) ->
    tracker_step t t'.

Lemma decoded_ok report f f0 :
  is_bytes report ->
  ai_apple_trackpad_decode (Some report) (zlen report) (Some f0) = (AI_OK, Some f) -> frame_ok f.
Proof.
  intros Hr E. destruct (decide (well_formed report)) as [Hwf|Hwf].
  - rewrite decode_accepts in E by done. injection E as <-. by apply frame_of_ok.
  - destruct (decode_refuses report f0 Hwf) as (st & E' & Hst). rewrite E in E'.
    injection E' as E' _. destruct Hst; congruence.
Qed.

Lemma tracker_step_ok t t' : tracker_ok t -> tracker_step t t' -> tracker_ok t'.
Proof.
  intros Ht [report f f0 o0 o Hr Hd E]. destruct (update_spec t f o0 Ht (decoded_ok _ _ _ Hr Hd))
    as (t2 & o2 & E2 & Ht2 & _). congruence.
Qed.

#[export] Program Instance tracker_component : Component ai_trackpad_tracker := {
  comp_init t := t = tracker_zero;
  comp_step := tracker_step;
  comp_inv := tracker_ok;
}.
Next Obligation. intros s ->. exact tracker_zero_ok. Qed.
Next Obligation. exact tracker_step_ok. Qed.

(** C20: However many reports have been decoded and followed since the tracker was
    cleared, the next well-formed report is decoded and followed without error: every
    contact of the frame ends up with exactly one slot and every active slot with one
    contact, a finger keeps its slot and its contact id until it lifts, and the report
    lists, in increasing id order without repetitions, exactly the fingers that have an
    id and the ones that had it and lifted, at most five, with counts that add up to the
    frame's. *)
Theorem tracker_follows (t : ai_trackpad_tracker) (Hreach : reachable t)
    (report : list Z) (Hbytes : is_bytes report) (Hwf : well_formed report)
    (f0 : ai_apple_trackpad_frame) (o0 : ai_trackpad_output_frame) :
  exists f t' o,
    ai_apple_trackpad_decode (Some report) (zlen report) (Some f0) = (AI_OK, Some f) /\
    ai_trackpad_tracker_update (Some t) (Some f) (Some o0) = Some (AI_OK, Some t', Some o) /\
    followed t f t' o /\ reachable t'.
Proof.
  pose proof (reachable_inv t Hreach) as Ht. pose proof (decode_accepts report f0 Hbytes Hwf) as Hd.
  destruct (update_spec t (frame_of report) o0 Ht (frame_of_ok report Hbytes Hwf)) as (t' & o & E & _ & Hfol).
  exists (frame_of report), t', o. split_and!; try done.
  apply (reachable_step t t' Hreach). by apply (tracker_frame _ _ report (frame_of report) f0 o0 o).
Qed.

Lemma tracker_follows_witness :
  exists f t' o,
    ai_apple_trackpad_decode (Some two_contacts) (zlen two_contacts) (Some frame_zero) = (AI_OK, Some f) /\
    ai_trackpad_tracker_update (Some tracker_zero) (Some f) (Some output_zero) =
      Some (AI_OK, Some t', Some o) /\
    followed tracker_zero f t' o /\ reachable t'.
Proof.
  apply (tracker_follows tracker_zero).
  - exists tracker_zero. split; [reflexivity|apply rtc_refl].
  - by apply (bool_decide_unpack _); vm_compute.
  - by apply (bool_decide_unpack _); vm_compute.
Defined.

End Tracker.
